(* ===== verification/_CoqProject ===== *)
-Q . S2P
Prelude.v
Clib.v
Htsmsg.v
HtsmsgBinary.v
Bencode.v
Extents.v
Htsbuf.v
Utf8.v
Str.v
Html.v
FileAccess.v
FileBuffer.v
FileAes.v
FileSplit.v
FileClient.v
Task.v
BlobStore.v
BlobCache.v
GlwToken.v
GlwLexer.v
GlwParser.v
GlwYard.v
GlwFlags.v
GlwView.v
Json.v
Collate.v
Charset.v
DetectorTables.v
Detector.v
HtsmsgXml.v
XmlInplace.v
XmlDocument.v
PropStore.v
PropTree.v
PropSub.v
PropCourier.v
PropLogic.v
PropWorld.v
PropQueue.v
PropWf.v
PropMirror.v
PropList.v
PropConcat.v
PropNodefilter.v
PropNfOrder.v
PropNfView.v
PropNfCalls.v
PropNfSource.v
PropNfShows.v
PropReorder.v
PropGrouper.v
PropDestroy.v
PropOps.v
PropEdit.v
PropNumber.v
PropReap.v
PropClient.v
PropSystem.v
PropTheorems.v
