(* ===== verification/Prelude.v ===== *)
(** * The media player showtime: its messages, its text, its files and caches, and
    its property tree

    This development models parts of showtime, a media player written in C, and
    proves what makes them correct.  Six groups of its code are covered.

    Messages and their formats.  An [htsmsg] is the value the parts of the
    player exchange: a list of fields, named or not, with integers, strings,
    binary data or messages in them.
    - [Htsmsg]        htsmsg/htsmsg.c: fields, typed access, copies.
    - [HtsmsgBinary]  htsmsg/htsmsg_binary.c: the wire format.
    - [Bencode]       backend/bittorrent/bencode.c: torrents.
    - [Json]          misc/json.c, htsmsg/htsmsg_json.c, misc/dbl.c.
    - [HtsmsgXml]     htsmsg/htsmsg_xml.c: the XML reader, which stores the
      terminators of strings into the document it reads; [XmlInplace] proves
      that this is invisible, [XmlDocument] what a document means.
    - [Htsbuf]        htsmsg/htsbuf.c: the queue of bytes the writers fill.

    Text and memory.
    - [Utf8], [Str], [Html], [Collate], [Charset]  misc/str.c, misc/big5.c:
      conversions, URL and HTML escapes, vectors of strings, caseless search
      and the order of titles, character sets.
    - [Detector], [DetectorTables]  misc/charset_detector.c: the guess of the
      character set of a text, with its tables.
    - [Extents]       misc/extents.c: the allocator of ranges.

    Files, caches and threads.
    - [FileAccess]    fileaccess/fa_proto.h: the interface of a layer ([Fap]),
      its promise ([FileOk]), a client ([run_ops]) with what it has to see
      ([spec_ops]); and the layers for memory (fa_bundle.c), data URLs
      (fa_data.c), a part of a file (fa_slice.c) and the system (fa_fs.c).
    - [FileBuffer]    fileaccess/fa_buffer.c: the ring of zones that a slow layer
      is read through, and the parking of closed files.
    - [FileAes]       fileaccess/fa_aes.c: decryption while reading.
    - [FileSplit]     files in parts (fa_fs.c).
    - [FileClient]    fileaccess/fileaccess.c: whole files to memory or a queue.
    - [Task]          task.c: the pool of background threads, as a step relation
      over their critical sections.
    - [BlobStore], [BlobCache]  blobcache_file.c: the cache of what was fetched,
      its index file, and its calls interleaved with the thread that writes the
      files.

    The language of views (ui/glw/), in which the user interface is written.
    - [GlwToken]   glw_view.h, and the tables of attributes and functions of
      glw_view_attrib.c and glw_view_eval.c.
    - [GlwLexer]   glw_view_lexer.c: from the text to the list of tokens.
    - [GlwParser]  glw_view_parser.c: blocks, statements and expressions, the
      names of attributes and functions resolved, and the optimizer of
      glw_view_attrib.c.
    - [GlwYard], [GlwView], [GlwFlags]  what the shunting yard, the parser and
      the merging of flags are proved to do.

    The property tree (prop/prop_core.c, prop_i.h, prop.h), the heart of the
    player: what the user interface shows, the plug-ins and the services share
    is a tree of properties, and whoever subscribes to a property is told of its
    changes through a queue, its courier.
    - [PropStore]  properties, subscriptions, couriers, notifications.
    - [PropTree]   creation, destruction, values, order, parents, links.
    - [PropSub]    links, selection, paths, subscriptions.
    The rest proves things of them, each file on top of those before:
    [PropCourier] (no computation takes a courier away), [PropLogic] (weakest
    preconditions, reference counts, the events of a subscription), [PropWorld]
    (the tree as clients see it: [at_]), [PropQueue] (delivery), [PropWf] (the
    shape of the tree), [PropMirror] (the view of a subscriber), [PropDestroy],
    [PropOps], [PropEdit], [PropNumber], [PropReap], [PropClient] (what each
    operation makes of a good world), [PropSystem] (programs as sequences of
    operations, and the invariant) and [PropTheorems] (the promises).

    Lists derived from lists.  Helpers subscribe to a directory and fill another
    with links to its children.
    - [PropList]   prop_tags.c, and what the helpers use of the tree: the
      children of the property they fill as a list ([list_move],
      [list_set_parent]), and the events that a subscription to a directory can
      be told ([told_kids]), whose view is the one of [PropMirror].
    - [PropConcat]  prop_concat.c: several lists behind each other.
    - [PropNodefilter]  prop_nodefilter.c: a list filtered by text and
      predicates and sorted by up to four keys.  [PropNfOrder] shows that its
      comparison is an order, [PropNfView] that every step on a node keeps its
      lists right, [PropNfCalls] and [PropNfSource] what each change makes of
      them, [PropNfShows] the property.
    - [PropReorder]  prop_reorder.c: a list in an order that is saved by name.
    - [PropGrouper]  prop_grouper.c: a list in groups by a value of each child.

    [Prelude] holds what all share, and [Clib] the functions of the C library.

    ** How C is modelled

    A computation returns [Ok] or a [fault], so that a theorem with [Ok] in its
    conclusion says that no load or store is out of bounds, no [int] overflows
    and no assertion fails.  An integer is a [Z] with the wrap-around or the
    check of its width written out ([u32], [chk_int], ...); [long] has 64 bits,
    and a [char] is unsigned, as the Makefile asks for.  A string or a buffer is
    the list of its bytes; a pointer into it is an offset or the rest of the
    list.  A queue or tree of the code is the list an in-order walk yields.
    Floating point numbers are those of the standard library's SpecFloat where
    the code computes with them, and parameters where the C library formats or
    parses them.  The memory of messages is not modelled, except where text is
    used after it was freed (in the XML reader).

    The functions of the property tree work on a [store] of objects with their
    reference counts; pointers are the numbers of objects, and the use of one
    that was freed is a fault.  The store is what [prop_mutex] protects, so that
    an operation is one step.  A callback is recorded with its event and does
    nothing itself; a client that reacts to it does so with operations of its
    own.  The atomic counts of references count, and the memory that the last
    one frees is gone.

    A helper of lists has a state of its own, with the children of the property
    it fills; the addresses of properties it makes count up, and those of its
    nodes are chosen by a parameter [calloc] that returns none in use.  The
    red-black tree of the node filter is its list of nodes in order: an
    insertion finds the place where the comparisons change their sign, and is
    the fault [NoFuel] if they do so more than once, since the place then depends
    on the shape of the tree.  What a subscription to a child finds when it is
    made is a parameter of the state ([nf_world]).

    ** What is proved

    Formats: what a writer prints a reader reads back ([bencode_roundtrip],
    [htsmsg_binary_roundtrip], [htsmsg_json_roundtrip],
    [html_escape_decode], [url_escape_deescape], ...), and an XML document that
    is printed from a tree is read as the message of the tree
    ([htsmsg_xml_document], for the documents of [xdoc_ok]).  Readers fail on no
    input but that which each theorem names: JSON with long numbers or escapes
    of NUL ([htsmsg_json_deserialize_safe]), binary messages with lengths that
    wrap ([htsmsg_binary_memory_safe]); the bencode reader stays in its buffer
    unless the text ends in an opening bracket ([bencode_memory_safe]).
    Components as specifications: [htsbuf_refines_bytes],
    [extents_client_safe]; and the XML reader is its variant that copies all
    strings, up to the column of an error behind a carriage return
    ([htsmsg_xml_inplace]).  Valid text verifies, and what verifies has the
    shape of UTF-8 ([utf8_verify_strict]).

    Files: every layer keeps the promise of the interface on top of any layer
    that does, and a client sees the file below: [buffered_file_is_file],
    [aescbc_decrypts] (for reads in sequence), [split_file_reads],
    [fa_load_whole].  Threads: in any interleaving tasks are taken in order and
    none is forgotten ([task_pool_safe]), and the pool comes to rest
    ([task_pool_finishes]); the blob cache finds what was put last, and answers
    with it unless the file it has opened is written, removed or given another
    content before it has read it, which it does without the lock
    ([blobcache_coherent], [blobcache_put_get]); it restores its index
    ([index_roundtrip]) and prunes what is least worth keeping
    ([prune_to_size_spec]).

    Views: the lexer reads a text as the tokens that were written
    ([glw_view_lexer_reads]), an expression becomes its reverse Polish notation
    ([parse_shunting_yard_rpn]), a view the block of its statements
    ([glw_view_parse_view]), and the flags that are merged do to a widget what
    they did apart, unless one of them is both set and cleared
    ([glw_view_attrib_optimize_same]).

    The property tree: an operation asked for sensibly never fails, and every
    recursion ends ([prop_tree_safe]); the shape of the tree is kept
    ([prop_tree_shape]); the events a subscriber is told rebuild the property it
    is on ([prop_tree_mirror]), and a poll delivers them, that of its end
    included ([prop_poll_delivers]);
    and what destruction, creation, values, numbers and moves do
    ([prop_destroy_effect] and its neighbours).  "Sensibly" is [allowed]: the
    arguments exist, a directory is not asked to be what a subscription
    forbids, sums do not overflow.  The programs make no links, have no
    subscriptions of several levels or for monitoring, and no references from
    property to property; [K] names the subscriptions from which a program
    keeps its own changes.

    Derived lists: whatever the sources tell, in any order, the concatenation is
    that of its sources' children with their headers ([prop_concat_shows], as
    long as the first child of a source is replaced only by going away), and a
    node filter shows the children that are to be seen, in the order of its keys
    or of its source ([nodefilter_shows], as long as keys can be compared and
    the order of a tree that holds nodes is not changed; what is shown is
    described for the times when no child lacks a key whose absence should hide
    it).  The order that is saved is kept, in whatever order the children come
    ([reorder_keeps_order], as long as names differ and the source stays), and
    groups hold the children that told their names last
    ([grouper_shows_groups], for sources that do not page their children).

    ** Fuel

    Recursions that are not structural take fuel, and running out of it is the
    fault [NoFuel], which the theorems exclude.  Parsers have one unit for each
    byte of the input and one more, since each call consumes a byte or ends;
    recursions over the tree have the number of properties and one more ([here]),
    which bounds its height because it has no cycles.  The lexer of views and its
    loop over expressions take a unit for each byte or token, and the parser of
    blocks three, since a block and its statements are entered in between; the
    theorems on them say that the result is there.  A buffered read has two
    rounds for each byte (one may fill a zone), the loader of a file of unknown
    size 64, which double its memory each.

    ** Not modelled

    Views: the evaluation of expressions, the handlers of
    attributes but those for flags, and what the constructors of functions
    prepare for their evaluation; the widget classes that are registered and
    the function [pow] of libm are parameters.  Threads: the property tree is looked at between two operations, the global
    dispatch queue is filled but its threads are not modelled.  A file does not
    change while a layer has it open, and hashes and ciphers are parameters.  Of the file layers
    also not: writing, directories, and how a URL finds its protocol.  Of prop_core.c
    also not: vectors of properties, external events, wrappers with variable
    arguments, the trampolines between callbacks and the text dump.  The links
    ([prop_link0], [prop_unlink0]), references to properties and floating point
    values are definitions without theorems, and so are the requests that a
    derived list passes on to its source and the end of a node filter;
    the window and the vectors are not modelled.  Of the other parts of the
    player, listed in the manifest with the reason: everything that is a session with a
    device, a socket, a library or an interpreter.  Bytes of the stack that are
    indeterminate, and what happens when [malloc] fails, are outside the
    model. *)
From stdpp Require Export base list strings gmap sorting.
From Stdlib Require Export ZArith Lia.
From stdpp Require Import options.

Local Open Scope Z_scope.

(** * Results of a C computation *)

(** How a run can go wrong: a load or store outside the object, a null pointer,
    memory that has been freed, an overflow of a signed integer, the use of an
    indeterminate value, a failed [assert]/[abort], and (of the model only) a
    loop that exhausts its fuel. *)
Inductive fault :=
| OobRead
| OobWrite
| SignedOverflow
| Uninitialised
| NullDeref
| UseAfterFree
| AssertFailed
| NoFuel.

#[export] Instance fault_eq_dec : EqDecision fault.
Proof. solve_decision. Defined.

Inductive res (A : Type) :=
| Ok (a : A)
| Fault (f : fault).
Arguments Ok {A} a.
Arguments Fault {A} f.

#[export] Instance res_ret : MRet res := fun A a => Ok a.
#[export] Instance res_bind : MBind res := fun A B k m =>
  match m with Ok a => k a | Fault f => Fault f end.
#[export] Instance res_fmap : FMap res := fun A B g m =>
  match m with Ok a => Ok (g a) | Fault f => Fault f end.

(** * Machine integers *)

Definition int_min : Z := -2147483648.
Definition int_max : Z := 2147483647.
Definition i64_min : Z := -9223372036854775808.
Definition i64_max : Z := 9223372036854775807.

Definition chk_int (z : Z) : res Z :=
  if (int_min <=? z) && (z <=? int_max) then Ok z else Fault SignedOverflow.
Definition chk_i64 (z : Z) : res Z :=
  if (i64_min <=? z) && (z <=? i64_max) then Ok z else Fault SignedOverflow.

Definition u8 (z : Z) : Z := z mod 256.
Definition u16 (z : Z) : Z := z mod 65536.
Definition u32 (z : Z) : Z := z mod 4294967296.
Definition u64 (z : Z) : Z := z mod 18446744073709551616.
(** Conversion of an unsigned value to the signed type of the same width. *)
Definition s8 (z : Z) : Z := let u := u8 z in if u <? 128 then u else u - 256.
Definition s16 (z : Z) : Z := let u := u16 z in if u <? 32768 then u else u - 65536.
Definition s32 (z : Z) : Z :=
  let u := u32 z in if u <? 2147483648 then u else u - 4294967296.
Definition s64 (z : Z) : Z :=
  let u := u64 z in
  if u <? 9223372036854775808 then u else u - 18446744073709551616.

(** Bytes are integers in [0, 256).  The Makefile compiles with
    -funsigned-char, so that a [char] of the program is a byte and the instance
    is [false].  A definition that compares or widens a [char] takes the choice
    as an instance, and the theorems that hold for both do not depend on the
    flag. *)
Definition is_byte (z : Z) : Prop := 0 <= z < 256.
Class CharSign := char_signed : bool.
Definition cchar {cs : CharSign} (b : Z) : Z :=
  if char_signed then s8 b else b.

Definition is_digit (c : Z) : bool := (48 <=? c) && (c <=? 57).

(** * Memory cursors *)

(** A [const char *s] that is walked towards [stop]: the bytes from [s] to the
    end of the object it points into, and [stop - s], which becomes negative
    when the walk runs past [stop]. *)
Record cur := Cur { cmem : list Z; cleft : Z }.

Definition deref (p : cur) : res Z :=
  match cmem p with [] => Fault OobRead | c :: _ => Ok c end.
Definition adv (p : cur) : cur := Cur (tail (cmem p)) (cleft p - 1).
(** [memcpy] of [n] bytes out of the object at [p] and the cursor behind it. *)
Definition cread (n : Z) (p : cur) : res (list Z) :=
  if n <=? Z.of_nat (length (cmem p)) then Ok (take (Z.to_nat n) (cmem p))
  else Fault OobRead.
Definition advn (n : Z) (p : cur) : cur :=
  Cur (drop (Z.to_nat n) (cmem p)) (cleft p - n).

(** A buffer that is written: the list of its bytes, indexed. *)
Definition mread (mem : list Z) (i : nat) : res Z :=
  match mem !! i with Some c => Ok c | None => Fault OobRead end.
Definition mwrite (mem : list Z) (i : nat) (v : Z) : res (list Z) :=
  if decide (i < length mem)%nat then Ok (<[i := v]> mem) else Fault OobWrite.

(** A NUL terminated string: the bytes before its terminator. *)
Definition cstring_ok (s : list Z) : Prop := Forall (fun c => 0 < c < 256) s.

(** [strlen] and the string at a pointer, when the object holds a NUL. *)
Fixpoint cstr_at (m : list Z) : res (list Z) :=
  match m with
  | [] => Fault OobRead
  | c :: m' => if c =? 0 then Ok [] else r ← cstr_at m'; Ok (c :: r)
  end.
Definition strlen (m : list Z) : res Z :=
  s ← cstr_at m; Ok (Z.of_nat (length s)).

(** String constants of the source as byte lists. *)
Definition lit (s : string) : list Z :=
  map (fun a => Z.of_nat (Ascii.nat_of_ascii a)) (String.list_ascii_of_string s).

(** * Decimal printing: the [%d] and [PRId64] conversions *)

Fixpoint dec_digits (fuel : nat) (n : Z) (acc : list Z) : list Z :=
  match fuel with
  | O => acc
  | S f =>
      let acc' := (48 + n mod 10) :: acc in
      if n <? 10 then acc' else dec_digits f (n / 10) acc'
  end.
Definition dec_nat (n : Z) : list Z := dec_digits (S (Z.to_nat (Z.log2 n))) n [].
Definition dec_of_Z (z : Z) : list Z :=
  if z <? 0 then 45 :: dec_nat (- z) else dec_nat z.

(** The value of a digit string read left to right from [acc]. *)
Definition dec_fold (acc : Z) (ds : list Z) : Z :=
  fold_left (fun a c => a * 10 + c - 48) ds acc.

(** A computation ends in a result with [Q] or in a fault other than [bad]. *)
Definition safe {A} (bad : fault) (Q : A -> Prop) (m : res A) : Prop :=
  match m with Ok a => Q a | Fault f => f <> bad end.

(** * Lemmas *)

#[global] Arguments dec_nat : simpl never.
#[global] Arguments dec_of_Z : simpl never.
#[global] Arguments dec_fold : simpl never.
#[global] Arguments chk_int : simpl never.
#[global] Arguments chk_i64 : simpl never.
#[global] Arguments Z.to_nat : simpl never.
#[global] Arguments Z.of_nat : simpl never.

Create HintDb c_int discriminated.

Lemma ok_bind {A B} (a : A) (k : A -> res B) : Ok a ≫= k = k a.
Proof. done. Qed.

Lemma bind_Ok {A B} (m : res A) (k : A -> res B) b :
  (m ≫= k) = Ok b <-> exists a, m = Ok a /\ k a = Ok b.
Proof. destruct m; simpl; naive_solver. Qed.

Lemma bind_Fault {A B} (m : res A) (k : A -> res B) f :
  (m ≫= k) = Fault f <-> m = Fault f \/ exists a, m = Ok a /\ k a = Fault f.
Proof. destruct m; simpl; naive_solver. Qed.

Lemma safe_bind {A B} bad (Q : B -> Prop) (m : res A) (k : A -> res B) :
  safe bad (fun a => safe bad Q (k a)) m -> safe bad Q (m ≫= k).
Proof. by destruct m. Qed.

Lemma safe_mono {A} bad (P Q : A -> Prop) m :
  safe bad P m -> (forall a, P a -> Q a) -> safe bad Q m.
Proof. destruct m; simpl; auto. Qed.

Lemma safe_not {A} bad (Q : A -> Prop) m : safe bad Q m -> m <> Fault bad.
Proof. intros H ->. by apply H. Qed.

Lemma safe_eq {A} bad (Q : A -> Prop) m :
  m <> Fault bad -> (forall a, m = Ok a -> Q a) -> safe bad Q m.
Proof. destruct m; simpl; [auto|congruence]. Qed.

Lemma safe_chk_int bad (Q : Z -> Prop) z :
  bad <> SignedOverflow -> Q z -> safe bad Q (chk_int z).
Proof. unfold chk_int. destruct (_ && _); simpl; congruence || done. Qed.

Lemma safe_chk_i64 bad (Q : Z -> Prop) z :
  bad <> SignedOverflow -> Q z -> safe bad Q (chk_i64 z).
Proof. unfold chk_i64. destruct (_ && _); simpl; congruence || done. Qed.

Lemma chk_int_Ok z : int_min <= z <= int_max -> chk_int z = Ok z.
Proof.
  intros H. unfold chk_int.
  rewrite (proj2 (Z.leb_le _ _)), (proj2 (Z.leb_le _ _)); [done|lia..].
Qed.

Lemma chk_i64_Ok z : i64_min <= z <= i64_max -> chk_i64 z = Ok z.
Proof.
  intros H. unfold chk_i64.
  rewrite (proj2 (Z.leb_le _ _)), (proj2 (Z.leb_le _ _)); [done|lia..].
Qed.

Lemma chk_int_inv z r : chk_int z = Ok r -> r = z /\ int_min <= z <= int_max.
Proof.
  unfold chk_int. destruct (_ && _) eqn:E; [|done].
  intros [= ->]. apply andb_true_iff in E as [?%Z.leb_le ?%Z.leb_le]. lia.
Qed.

Lemma chk_int_fault z f : chk_int z = Fault f -> f = SignedOverflow.
Proof. unfold chk_int. destruct (_ && _); congruence. Qed.

Lemma chk_i64_inv z r : chk_i64 z = Ok r -> r = z /\ i64_min <= z <= i64_max.
Proof.
  unfold chk_i64. destruct (_ && _) eqn:E; [|done].
  intros [= ->]. apply andb_true_iff in E as [?%Z.leb_le ?%Z.leb_le]. lia.
Qed.

Lemma chk_i64_fault z f : chk_i64 z = Fault f -> f = SignedOverflow.
Proof. unfold chk_i64. destruct (_ && _); congruence. Qed.

Lemma u8_byte z : is_byte (u8 z).
Proof. unfold is_byte, u8. apply Z.mod_pos_bound. lia. Qed.

Lemma u8_id z : is_byte z -> u8 z = z.
Proof. apply Z.mod_small. Qed.

Lemma cchar_ascii {cs : CharSign} c : 0 <= c < 128 -> cchar c = c.
Proof.
  intros Hc. unfold cchar, s8. destruct char_signed; [|done].
  rewrite u8_id by (unfold is_byte; lia). by rewrite (proj2 (Z.ltb_lt c 128)) by lia.
Qed.

Lemma s64_id z : i64_min <= z <= i64_max -> s64 z = z.
Proof.
  unfold i64_min, i64_max, s64, u64. intros H.
  destruct (Z.lt_ge_cases z 0) as [Hn|Hp].
  - rewrite <- (Z.mod_add _ 1), Z.mod_small by lia.
    destruct (Z.ltb_spec (z + 1 * 18446744073709551616) 9223372036854775808); lia.
  - rewrite Z.mod_small by lia.
    destruct (Z.ltb_spec z 9223372036854775808); lia.
Qed.

Lemma s32_id z : int_min <= z <= int_max -> s32 z = z.
Proof.
  unfold int_min, int_max, s32, u32. intros H.
  destruct (Z.lt_ge_cases z 0) as [Hn|Hp].
  - rewrite <- (Z.mod_add _ 1), Z.mod_small by lia.
    destruct (Z.ltb_spec (z + 1 * 4294967296) 2147483648); lia.
  - rewrite Z.mod_small by lia.
    destruct (Z.ltb_spec z 2147483648); lia.
Qed.

Lemma u32_id z : 0 <= z < 4294967296 -> u32 z = z.
Proof. apply Z.mod_small. Qed.

Lemma is_digit_spec c : is_digit c = true <-> 48 <= c <= 57.
Proof. unfold is_digit. rewrite andb_true_iff, !Z.leb_le. done. Qed.

Lemma is_digit_false c : ~ 48 <= c <= 57 -> is_digit c = false.
Proof. rewrite <- is_digit_spec. apply not_true_is_false. Qed.

#[export] Hint Resolve u8_byte : c_int.

(** Case analysis on the conditionals and matches of a computation that is
    known to have produced [Ok] or [Fault]. *)
Ltac case_res H :=
  repeat first
    [ progress simplify_eq/=
    | match type of H with
      | (_ ≫= _) = Ok _ => apply bind_Ok in H as (?&?&H)
      | context [match ?x with _ => _ end] =>
          lazymatch x with
          | context [match _ with _ => _ end] => fail
          | _ => destruct x eqn:?
          end
      end ].

(** [lia] with the integer limits unfolded. *)
Ltac ilia := unfold int_min, int_max, i64_min, i64_max, is_byte in *; lia.

(** Equalities of terms whose integer leaves [lia] identifies. *)
Ltac eq_lia := repeat first [reflexivity | lia | progress f_equal].

(** Comparisons of the model as propositions. *)
Ltac zbool :=
  repeat match goal with
  | H : (_ =? _) = true |- _ => apply Z.eqb_eq in H
  | H : (_ =? _) = false |- _ => apply Z.eqb_neq in H
  | H : (_ <? _) = true |- _ => apply Z.ltb_lt in H
  | H : (_ <? _) = false |- _ => apply Z.ltb_ge in H
  | H : (_ <=? _) = true |- _ => apply Z.leb_le in H
  | H : (_ <=? _) = false |- _ => apply Z.leb_gt in H
  | H : (_ && _) = true |- _ => apply andb_true_iff in H as [? ?]
  | H : (_ || _) = false |- _ => apply orb_false_iff in H as [? ?]
  | H : is_digit _ = true |- _ => apply is_digit_spec in H
  end.

(** ** Strings *)

Lemma cstr_at_app s m : cstring_ok s -> cstr_at (s ++ 0 :: m) = Ok s.
Proof.
  induction 1 as [|c s Hc _ IH]; simpl; [done|].
  rewrite (proj2 (Z.eqb_neq c 0)) by lia. by rewrite IH.
Qed.

Lemma strlen_app s m : cstring_ok s -> strlen (s ++ 0 :: m) = Ok (Z.of_nat (length s)).
Proof. intros H. unfold strlen. by rewrite cstr_at_app. Qed.

Lemma cstr_at_fault m f : cstr_at m = Fault f -> f = OobRead.
Proof.
  induction m as [|c m IH]; simpl; [congruence|].
  destruct (c =? 0); [done|]. rewrite bind_Fault. naive_solver.
Qed.

(** ** Decimal digits *)

Lemma dec_digits_app fuel n acc : dec_digits fuel n acc = dec_digits fuel n [] ++ acc.
Proof.
  revert n acc. induction fuel as [|f IH]; intros n acc; [done|]. simpl.
  destruct (n <? 10); [done|].
  rewrite IH, (IH _ [_]), <- app_assoc. done.
Qed.

Lemma dec_fold_app a xs ys : dec_fold a (xs ++ ys) = dec_fold (dec_fold a xs) ys.
Proof. apply fold_left_app. Qed.

Lemma log2_div10 n : 10 <= n -> Z.log2 (n / 10) < Z.log2 n.
Proof.
  intros H. apply Z.log2_lt_pow2; [by apply Z.div_str_pos|].
  pose proof (Z.log2_spec n ltac:(lia)) as [_ Hn].
  rewrite Z.pow_succ_r in Hn by apply Z.log2_nonneg.
  apply Z.div_lt_upper_bound; lia.
Qed.

Lemma dec_digits_spec fuel n :
  0 <= n -> (Z.to_nat (Z.log2 n) < fuel)%nat ->
  dec_fold 0 (dec_digits fuel n []) = n /\
  Forall (fun c => 48 <= c <= 57) (dec_digits fuel n []) /\
  dec_digits fuel n [] <> [].
Proof.
  revert n. induction fuel as [|f IH]; intros n Hn Hf; [lia|]. simpl.
  pose proof (Z.mod_pos_bound n 10 ltac:(lia)).
  destruct (Z.ltb_spec n 10) as [Hlt|Hge].
  - rewrite Z.mod_small by lia. split_and!; [|repeat constructor; lia|done].
    unfold dec_fold; simpl. lia.
  - destruct (IH (n / 10)) as (H1 & H2 & H3).
    { by apply Z.div_pos; lia. }
    { pose proof (log2_div10 n Hge). pose proof (Z.log2_nonneg (n / 10)). lia. }
    rewrite dec_digits_app, dec_fold_app, H1. split_and!.
    + unfold dec_fold; simpl. pose proof (Z.div_mod n 10). lia.
    + apply Forall_app_2; [done|]. repeat constructor; lia.
    + by destruct (dec_digits f (n / 10) []).
Qed.

Lemma dec_nat_fold n : 0 <= n -> dec_fold 0 (dec_nat n) = n.
Proof. intros. apply (dec_digits_spec _ n); [done|lia]. Qed.

Lemma dec_nat_digits n : 0 <= n -> Forall (fun c => 48 <= c <= 57) (dec_nat n).
Proof. intros. apply (dec_digits_spec _ n); [done|lia]. Qed.

Lemma dec_nat_nonempty n : 0 <= n -> dec_nat n <> [].
Proof. intros. apply (dec_digits_spec _ n); [done|lia]. Qed.

(** A printed natural number as an opaque digit string. *)
Lemma dec_nat_ex n : 0 <= n ->
  exists ds, dec_nat n = ds /\ Forall (fun c => 48 <= c <= 57) ds /\
    dec_fold 0 ds = n /\ exists c ds', ds = c :: ds' /\ 48 <= c <= 57.
Proof.
  intros Hn. exists (dec_nat n). split_and!;
    [done|by apply dec_nat_digits|by apply dec_nat_fold|].
  pose proof (dec_nat_digits n Hn) as Hd. pose proof (dec_nat_nonempty n Hn) as Hne.
  destruct (dec_nat n) as [|c ds]; [done|]. inversion_clear Hd. eauto.
Qed.

Lemma dec_of_Z_nat n : 0 <= n -> dec_of_Z n = dec_nat n.
Proof. intros. unfold dec_of_Z. by rewrite (proj2 (Z.ltb_ge _ _)). Qed.

Lemma dec_digits_lead fuel n :
  0 < n -> (Z.to_nat (Z.log2 n) < fuel)%nat ->
  exists c ds, dec_digits fuel n [] = c :: ds /\ 49 <= c <= 57.
Proof.
  revert n. induction fuel as [|f IH]; intros n Hn Hf; [lia|]. simpl.
  destruct (Z.ltb_spec n 10) as [Hlt|Hge].
  - rewrite Z.mod_small by lia. eexists _, _. split; [done|]. lia.
  - destruct (IH (n / 10)) as (c & ds & E & Hc).
    { by apply Z.div_str_pos. }
    { pose proof (log2_div10 n Hge). pose proof (Z.log2_nonneg (n / 10)). lia. }
    rewrite dec_digits_app, E. simpl. eauto.
Qed.

(** A positive number is printed without a leading zero. *)
Lemma dec_nat_lead n : 0 < n -> exists c ds, dec_nat n = c :: ds /\ 49 <= c <= 57.
Proof. intros. apply dec_digits_lead; [done|lia]. Qed.

(** ** Lists *)

Lemma alter_is_insert {A} (f : A -> A) (l : list A) i x : l !! i = Some x -> alter f i l = <[i := f x]> l.
Proof.
  revert l. induction i as [|i IH]; intros [|y l] H; simpl in *; simplify_eq; [done|]. f_equal. by apply IH.
Qed.

Lemma filter_all {A} (P : A -> Prop) `{!forall x, Decision (P x)} (l : list A) :
  Forall P l -> filter P l = l.
Proof.
  induction 1 as [|x l Hx _ IH]; [done|].
  by rewrite filter_cons_True, IH.
Qed.

Lemma filter_none {A} (P : A -> Prop) `{!forall x, Decision (P x)} (l : list A) :
  Forall (fun x => ~ P x) l -> filter P l = [].
Proof.
  induction 1 as [|x l Hx _ IH]; [done|].
  by rewrite filter_cons_False, IH.
Qed.

Lemma sorted_app {A} (R : A -> A -> Prop) (a b : list A) :
  StronglySorted R (a ++ b) <->
  StronglySorted R a /\ StronglySorted R b /\ (forall x y, x ∈ a -> y ∈ b -> R x y).
Proof.
  induction a as [|z a IH]; simpl.
  - split; [|tauto]. intros H. split_and!; [constructor|done|set_solver].
  - rewrite !StronglySorted_cons, IH, Forall_app, !Forall_forall. set_solver.
Qed.

(** ** Bytes *)

Definition all_bytes : list Z := map Z.of_nat (seq 0 256).

(** A decidable statement about a byte, by evaluation. *)
Lemma byte_forall (P : Z -> bool) :
  forallb P all_bytes = true -> forall x, is_byte x -> P x = true.
Proof.
  intros H x Hx. rewrite forallb_forall in H. apply H. unfold all_bytes.
  apply in_map_iff. exists (Z.to_nat x). unfold is_byte in Hx.
  split; [lia|]. apply in_seq. lia.
Qed.

Lemma cstring_bytes s : cstring_ok s -> Forall is_byte s.
Proof. intros H. eapply Forall_impl; [exact H|]. unfold is_byte. simpl. lia. Qed.

Lemma lor_shiftl n r x : 0 <= n -> 0 <= x < 2 ^ n -> Z.lor (Z.shiftl r n) x = r * 2 ^ n + x.
Proof.
  intros Hn Hx. rewrite <- Z.shiftl_mul_pow2 by done.
  assert (Z.land (Z.shiftl r n) x = 0) as H0.
  { apply Z.bits_inj'. intros k Hk. rewrite Z.land_spec, Z.bits_0.
    destruct (Z.lt_ge_cases k n); [by rewrite Z.shiftl_spec_low|].
    destruct (Z.eq_dec x 0) as [->|]; [by rewrite Z.bits_0, andb_false_r|].
    rewrite (Z.bits_above_log2 x k); [by rewrite andb_false_r|lia|].
    apply Z.lt_le_trans with n; [apply Z.log2_lt_pow2; lia|done]. }
  rewrite <- Z.lxor_lor by done. symmetry. by apply Z.add_nocarry_lxor.
Qed.

(** ** Buffers *)

Lemma mread_app a c b : mread (a ++ c :: b) (length a) = Ok c.
Proof. unfold mread. by rewrite list_lookup_middle. Qed.

Lemma mread_at a c b i : i = length a -> mread (a ++ c :: b) i = Ok c.
Proof. intros ->. apply mread_app. Qed.

Lemma mwrite_app a x b v : mwrite (a ++ x :: b) (length a) v = Ok (a ++ v :: b).
Proof.
  unfold mwrite. rewrite decide_True by (rewrite length_app; simpl; lia).
  by rewrite insert_app_r_alt, Nat.sub_diag by lia.
Qed.

Lemma mwrite_length mem i v mem' : mwrite mem i v = Ok mem' -> length mem' = length mem.
Proof. unfold mwrite. destruct (decide _); [|done]. intros [= <-]. apply length_insert. Qed.

Lemma mwrite_Ok mem i v : (i < length mem)%nat -> mwrite mem i v = Ok (<[i := v]> mem).
Proof. intros H. unfold mwrite. by rewrite decide_True. Qed.

(** A loop that rewrites a buffer in place has written [out], reads [t] and has
    a gap between them. *)
Lemma gap_read out gap c t : mread (out ++ gap ++ c :: t) (length out + length gap) = Ok c.
Proof. rewrite app_assoc. apply mread_at. by rewrite length_app. Qed.

Lemma gap_read_S out gap x c t :
  mread (out ++ gap ++ x :: c :: t) (S (length out + length gap)) = Ok c.
Proof.
  rewrite (cons_middle x), !app_assoc. apply mread_at. rewrite !length_app. simpl. lia.
Qed.

Lemma gap_read_SS out gap x y c t :
  mread (out ++ gap ++ x :: y :: c :: t) (S (S (length out + length gap))) = Ok c.
Proof.
  rewrite (cons_middle x), (cons_middle y), !app_assoc. apply mread_at.
  rewrite !length_app. simpl. lia.
Qed.

(** One byte is written for the [cs] that were read. *)
Lemma gap_write out gap cs tl v :
  cs <> [] -> exists gap',
    (length (out ++ [v]) + length gap' = length out + length gap + length cs)%nat /\
    mwrite (out ++ gap ++ cs ++ tl) (length out) v = Ok ((out ++ [v]) ++ gap' ++ tl).
Proof.
  intros Hne. destruct (gap ++ cs) as [|x gap'] eqn:E.
  { apply app_eq_nil in E as [_ ?]. done. }
  exists gap'. split.
  - apply (f_equal length) in E. rewrite !length_app in *. simpl in *. lia.
  - rewrite (app_assoc gap), E. cbn [app]. rewrite mwrite_app, <- app_assoc. done.
Qed.

(** The terminator is written for what is left. *)
Lemma gap_end out gap cs tl :
  exists tl', mwrite (out ++ gap ++ cs ++ 0 :: tl) (length out) 0 = Ok (out ++ 0 :: tl') /\
    S (length tl') = length (gap ++ cs ++ 0 :: tl).
Proof.
  destruct (gap_write out gap (cs ++ [0]) tl 0) as (g & Hg & E); [by destruct cs|].
  exists (g ++ tl). rewrite <- app_assoc in E. cbn [app] in E. rewrite E, <- app_assoc.
  split; [done|]. rewrite !length_app in *. simpl in *. lia.
Qed.
