(* ===== verification/Clib.v ===== *)
(** The parts of the C standard library the modelled code calls, as the C
    standard specifies them in the "C" locale: [isspace], [strtol]/[strtoll]
    with their prefixes, end pointer and saturation (64-bit [long]),
    [strcmp], [strcasecmp], [strchr] and [strncmp]. *)
From S2P Require Import Prelude.
From Stdlib Require Import SpecFloat.

Local Open Scope Z_scope.

Definition isspace (c : Z) : bool := (c =? 32) || ((9 <=? c) && (c <=? 13)).

Definition digit_val (c : Z) : Z :=
  if is_digit c then c - 48
  else if (97 <=? c) && (c <=? 122) then c - 87
  else if (65 <=? c) && (c <=? 90) then c - 55
  else 99.

Fixpoint skip_space (s : list Z) : list Z :=
  match s with
  | c :: s' => if isspace c then skip_space s' else s
  | [] => []
  end.

(** Digits of [base], from the accumulator; the unread rest. *)
Fixpoint strtol_digits (base acc : Z) (s : list Z) : Z * list Z :=
  match s with
  | c :: s' =>
      if digit_val c <? base then strtol_digits base (acc * base + digit_val c) s'
      else (acc, s)
  | [] => (acc, [])
  end.

Definition strtol_prefix (base : Z) (s : list Z) : Z * list Z :=
  match s with
  | 48 :: x :: d :: s' =>
      if ((x =? 120) || (x =? 88)) && (digit_val d <? 16) && ((base =? 0) || (base =? 16))
      then (16, d :: s')
      else (if base =? 0 then 8 else base, s)
  | 48 :: _ => (if base =? 0 then 8 else base, s)
  | _ => (if base =? 0 then 10 else base, s)
  end.

Definition clamp (lo hi z : Z) : Z := Z.max lo (Z.min hi z).

(** [strtol(s, &rest, base)]: the value, saturated to 64 bits, and the rest of
    the string; nothing is consumed when there is no digit. *)
Definition strtol (s : list Z) (base : Z) : Z * list Z :=
  let s1 := skip_space s in
  let '(neg, s2) :=
    match s1 with
    | 45 :: t => (true, t)
    | 43 :: t => (false, t)
    | _ => (false, s1)
    end in
  let '(b, s3) := strtol_prefix base s2 in
  match s3 with
  | c :: _ =>
      if digit_val c <? b then
        let '(v, rest) := strtol_digits b 0 s3 in
        (clamp i64_min i64_max (if neg : bool then - v else v), rest)
      else (0, s)
  | [] => (0, s)
  end.

(** [strchr] for a character other than NUL: the string before the first
    occurrence and the string after it. *)
Fixpoint strchr (c : Z) (s : list Z) : option (list Z * list Z) :=
  match s with
  | [] => None
  | x :: s' =>
      if x =? c then Some ([], s')
      else match strchr c s' with
           | Some (a, b) => Some (x :: a, b)
           | None => None
           end
  end.

(** [strcasecmp] of two strings is 0. *)
Definition tolower (c : Z) : Z := if (65 <=? c) && (c <=? 90) then c + 32 else c.
Definition strcaseeq (a b : list Z) : bool := bool_decide (map tolower a = map tolower b).

(** [strncmp(s, t, strlen(t)) == 0] *)
Fixpoint has_prefix (t s : list Z) : bool :=
  match t, s with
  | [], _ => true
  | a :: t', b :: s' => (a =? b) && has_prefix t' s'
  | _ :: _, [] => false
  end.

(** Conversions to [float] and [double], rounding to nearest. *)
Definition f32_of_int (z : Z) : spec_float := binary_normalize 24 128 z 0 false.
Definition f64_of_int (z : Z) : spec_float := binary_normalize 53 1024 z 0 false.
Definition f32_of_f64 (f : spec_float) : spec_float :=
  match f with S754_finite s m e => binary_round 24 128 s m e | _ => f end.

(** * Lemmas *)

Lemma strtol_range s base : i64_min <= (strtol s base).1 <= i64_max.
Proof.
  unfold strtol.
  destruct (match skip_space s with 45 :: t => _ | _ => _ end) as [neg s2].
  destruct (strtol_prefix base s2) as [b [|c s3]]; [done|].
  destruct (digit_val c <? b); [|done].
  destruct (strtol_digits b 0 (c :: s3)) as [v rest]. simpl.
  unfold clamp, i64_min, i64_max. lia.
Qed.

Lemma strtol_digits_length base acc s :
  (length (strtol_digits base acc s).2 <= length s)%nat.
Proof.
  revert acc. induction s as [|c s IH]; intros acc; cbn [strtol_digits]; [done|].
  destruct (_ <? _); [|done]. specialize (IH (acc * base + digit_val c)). simpl. lia.
Qed.

Lemma skip_space_length s : (length (skip_space s) <= length s)%nat.
Proof. induction s as [|c s IH]; [done|]. cbn [skip_space]. destruct (isspace c); simpl; lia. Qed.

Lemma strtol_prefix_length base s : (length (strtol_prefix base s).2 <= length s)%nat.
Proof. unfold strtol_prefix. repeat case_match; simpl in *; simplify_eq; simpl; lia. Qed.

Lemma strtol_length s base : (length (strtol s base).2 <= length s)%nat.
Proof.
  unfold strtol. pose proof (skip_space_length s) as Hs.
  set (x := match skip_space s with 45 :: t => (true, t) | 43 :: t => (false, t)
            | _ => (false, skip_space s) end).
  assert (length x.2 <= length s)%nat as Hx.
  { unfold x. repeat case_match; simpl in *; lia. }
  destruct x as [neg s2]. pose proof (strtol_prefix_length base s2) as Hp. simpl in Hx.
  destruct (strtol_prefix base s2) as [b [|c s3]]; [done|]. simpl in Hp.
  destruct (_ <? b); [|done]. pose proof (strtol_digits_length b 0 (c :: s3)) as Hd.
  destruct (strtol_digits b 0 (c :: s3)) as [v r]. simpl in *. lia.
Qed.

Lemma strchr_Some c s a b : strchr c s = Some (a, b) -> s = a ++ c :: b /\ ~ c ∈ a.
Proof.
  revert a b. induction s as [|x s IH]; intros a b; simpl; [done|].
  destruct (Z.eqb_spec x c) as [->|Hne].
  - intros [= <- <-]. split; [done|]. set_solver.
  - destruct (strchr c s) as [[a' b']|]; [|done]. intros [= <- <-].
    destruct (IH a' b' eq_refl) as [-> Hni]. split; [done|]. set_solver.
Qed.

Lemma strchr_None c s : strchr c s = None -> ~ c ∈ s.
Proof.
  induction s as [|x s IH]; simpl; [set_solver|].
  destruct (Z.eqb_spec x c) as [->|Hne]; [done|].
  destruct (strchr c s) as [[a' b']|]; [done|]. set_solver.
Qed.

Lemma has_prefix_app t s : has_prefix t (t ++ s) = true.
Proof. induction t; simpl; [done|]. by rewrite Z.eqb_refl. Qed.

Lemma strtol_digits_dec acc ds rest :
  Forall (fun c => 48 <= c <= 57) ds ->
  (match rest with [] => True | c :: _ => digit_val c >= 10 end) ->
  strtol_digits 10 acc (ds ++ rest) = (dec_fold acc ds, rest).
Proof.
  intros Hds Hr. revert acc. induction Hds as [|c ds Hc _ IH]; intros acc.
  - destruct rest as [|c r]; [done|]. simpl.
    rewrite (proj2 (Z.ltb_ge _ _)) by lia. done.
  - simpl. assert (digit_val c = c - 48) as ->.
    { unfold digit_val. by rewrite (proj2 (is_digit_spec c)). }
    rewrite (proj2 (Z.ltb_lt _ _)) by lia.
    rewrite IH. unfold dec_fold. simpl. do 3 f_equal. lia.
Qed.

Lemma digit_val_dec c : 48 <= c <= 57 -> digit_val c = c - 48.
Proof. intros H. unfold digit_val. by rewrite (proj2 (is_digit_spec c)). Qed.

Lemma isspace_above c : 33 <= c -> isspace c = false.
Proof.
  intros H. unfold isspace. rewrite (proj2 (Z.eqb_neq _ _)) by lia.
  destruct (Z.leb_spec c 13); [lia|]. by rewrite andb_false_r.
Qed.

Lemma strtol_prefix_dec c ds rest b :
  49 <= c <= 57 -> b = 0 \/ b = 10 ->
  strtol_prefix b (c :: ds ++ rest) = (10, c :: ds ++ rest).
Proof.
  intros Hc Hb. unfold strtol_prefix.
  destruct c as [|p|p]; try lia. do 6 (destruct p as [p|p|]; try lia); by destruct Hb as [-> | ->].
Qed.

(** [strtol] of a printed integer, in base 0 or 10: the integer, and nothing
    behind its digits is consumed. *)
Lemma strtol_dec z rest b :
  i64_min <= z <= i64_max -> b = 0 \/ b = 10 ->
  (match rest with [] => True | c :: _ => digit_val c >= 10 end) ->
  (rest = [] \/ exists c t, rest = c :: t /\ c <> 120 /\ c <> 88) ->
  strtol (dec_of_Z z ++ rest) b = (z, rest).
Proof.
  intros Hz Hb Hr Hx. unfold strtol, dec_of_Z.
  destruct (Z.ltb_spec z 0) as [Hneg|Hpos].
  - destruct (dec_nat_lead (- z)) as (c & ds & E & Hc); [lia|].
    destruct (dec_nat_ex (- z)) as (ds0 & E0 & Hds & Hf & _); [lia|].
    rewrite E in E0. rewrite E. subst ds0. cbn [app skip_space].
    rewrite isspace_above by lia. rewrite strtol_prefix_dec by done.
    rewrite digit_val_dec by lia. rewrite (proj2 (Z.ltb_lt _ _)) by lia.
    change (c :: ds ++ rest) with ((c :: ds) ++ rest).
    rewrite strtol_digits_dec, Hf by done. unfold clamp. f_equal. ilia.
  - destruct (Z.eq_dec z 0) as [->|Hnz].
    + change (dec_nat 0) with [48]. cbn [app skip_space].
      change (isspace 48) with false. cbn iota.
      assert (strtol_prefix b (48 :: rest) = (if b =? 0 then 8 else b, 48 :: rest)) as ->.
      { destruct Hx as [-> | (x & t & -> & Hx1 & Hx2)]; [done|]. cbn [strtol_prefix].
        destruct t as [|d t]; [done|].
        rewrite (proj2 (Z.eqb_neq x 120)), (proj2 (Z.eqb_neq x 88)) by done. done. }
      change (digit_val 48) with 0.
      assert ((0 <? (if b =? 0 then 8 else b)) = true) as -> by (by destruct Hb as [-> | ->]).
      cbn [strtol_digits]. change (digit_val 48) with 0.
      assert ((0 <? (if b =? 0 then 8 else b)) = true) as -> by (by destruct Hb as [-> | ->]).
      destruct rest as [|x t]; [done|]. cbn [strtol_digits].
      rewrite (proj2 (Z.ltb_ge _ _)) by (destruct Hb as [-> | ->]; simpl; lia). done.
    + destruct (dec_nat_lead z) as (c & ds & E & Hc); [lia|].
      destruct (dec_nat_ex z) as (ds0 & E0 & Hds & Hf & _); [lia|].
      rewrite E in E0. rewrite E. subst ds0. cbn [app skip_space].
      rewrite isspace_above by lia.
      assert (forall (A : Type) (x y w : A), match c with 45 => x | 43 => y | _ => w end = w) as Hs.
      { intros. destruct c as [|p|p]; try lia. do 6 (destruct p as [p|p|]; try lia); done. }
      rewrite Hs. rewrite strtol_prefix_dec by done.
      rewrite digit_val_dec by lia. rewrite (proj2 (Z.ltb_lt _ _)) by lia.
      change (c :: ds ++ rest) with ((c :: ds) ++ rest).
      rewrite strtol_digits_dec, Hf by done. unfold clamp. f_equal. ilia.
Qed.
