(* ===== verification/Htsmsg.v ===== *)
(** The htsmsg data model (src/src/htsmsg/htsmsg.c, htsmsg.h): a message is a
    map or a list of fields, a field has an optional name, a typed value and
    possibly a sub message.  The TAILQ of fields is a list; memory ownership
    and the reference count are not part of the model. *)
From S2P Require Import Prelude Clib.

Local Open Scope Z_scope.

(** * Data *)

Record htsmsg_ (F : Type) := Msg { hm_islist : bool; hm_fields : list F }.
Arguments Msg {F} _ _.
Arguments hm_islist {F} _.
Arguments hm_fields {F} _.

(** [hmf_type] with the member of the union it selects.  A double is its
    64-bit IEEE representation. *)
Inductive hval :=
| HMap
| HS64 (z : Z)
| HStr (s : list Z)
| HBin (b : list Z)
| HList
| HDbl (bits : Z).

Inductive hfield :=
| HField (name : option (list Z)) (xmlattr : bool) (ns : option (list Z))
         (val : hval) (childs : option (htsmsg_ hfield)).

Abbreviation htsmsg := (htsmsg_ hfield).

Definition hmf_name (f : hfield) := let 'HField n _ _ _ _ := f in n.
Definition hmf_xmlattr (f : hfield) := let 'HField _ a _ _ _ := f in a.
Definition hmf_namespace (f : hfield) := let 'HField _ _ ns _ _ := f in ns.
Definition hmf_val (f : hfield) := let 'HField _ _ _ v _ := f in v.
Definition hmf_childs (f : hfield) := let 'HField _ _ _ _ c := f in c.
Definition hmf_set_val (v : hval) (f : hfield) : hfield :=
  let 'HField n a ns _ c := f in HField n a ns v c.

(** [hmf_type] *)
Definition hmf_type (v : hval) : Z :=
  match v with
  | HMap => 1 | HS64 _ => 2 | HStr _ => 3 | HBin _ => 4 | HList => 5 | HDbl _ => 6
  end.

Definition HTSMSG_ERR_FIELD_NOT_FOUND : Z := -1.
Definition HTSMSG_ERR_CONVERSION_IMPOSSIBLE : Z := -2.

(** The [name] argument of the lookup functions: a string, or
    [HTSMSG_INDEX(i)], which encodes a position as a small negative pointer. *)
Inductive hkey :=
| ByName (s : list Z)
| ByIndex (i : nat).

(** * Operations *)

Definition htsmsg_create_map : htsmsg := Msg false [].
Definition htsmsg_create_list : htsmsg := Msg true [].

(** The asserts want a name in a map and none in a list. *)
Definition htsmsg_field_add (m : htsmsg) (name : option (list Z)) (v : hval)
    (c : option htsmsg) : res htsmsg :=
  if eqb (hm_islist m) (match name with None => true | Some _ => false end)
  then Ok (Msg (hm_islist m) (hm_fields m ++ [HField name false None v c]))
  else Fault AssertFailed.

(** The first match in [fs], whose first element has position [i]. *)
Fixpoint field_find_from (i : nat) (fs : list hfield) (name : list Z)
    : option (nat * hfield) :=
  match fs with
  | [] => None
  | f :: fs' =>
      if bool_decide (hmf_name f = Some name) then Some (i, f)
      else field_find_from (S i) fs' name
  end.

Definition htsmsg_field_find (m : htsmsg) (k : hkey) : option (nat * hfield) :=
  match k with
  | ByIndex i => f ← hm_fields m !! i; Some (i, f)
  | ByName s => field_find_from 0 (hm_fields m) s
  end.

Definition htsmsg_field_destroy (m : htsmsg) (i : nat) : htsmsg :=
  Msg (hm_islist m) (take i (hm_fields m) ++ drop (S i) (hm_fields m)).

Definition htsmsg_field_set (m : htsmsg) (i : nat) (f : hfield) : htsmsg :=
  Msg (hm_islist m) (<[i := f]> (hm_fields m)).

Definition htsmsg_delete_field (m : htsmsg) (k : hkey) : Z * htsmsg :=
  match htsmsg_field_find m k with
  | None => (HTSMSG_ERR_FIELD_NOT_FOUND, m)
  | Some (i, _) => (0, htsmsg_field_destroy m i)
  end.

Definition htsmsg_add_u32 m name (v : Z) := htsmsg_field_add m name (HS64 (u32 v)) None.
Definition htsmsg_add_s64 m name (v : Z) := htsmsg_field_add m name (HS64 (s64 v)) None.
Definition htsmsg_add_s32 m name (v : Z) := htsmsg_field_add m name (HS64 (s32 v)) None.
Definition htsmsg_add_dbl m name (d : Z) := htsmsg_field_add m name (HDbl d) None.
Definition htsmsg_add_str m name (s : list Z) := htsmsg_field_add m name (HStr s) None.
Definition htsmsg_add_bin m name (b : list Z) := htsmsg_field_add m name (HBin b) None.
Definition htsmsg_add_msg (m : htsmsg) name (sub : htsmsg) :=
  htsmsg_field_add m name (if hm_islist sub then HList else HMap) (Some sub).

(** The increment of an existing integer field is a 64-bit signed addition. *)
Definition htsmsg_s32_inc (m : htsmsg) (name : list Z) (v : Z) : res htsmsg :=
  match htsmsg_field_find m (ByName name) with
  | None => htsmsg_add_s32 m (Some name) v
  | Some (i, f) =>
      match hmf_val f with
      | HS64 z =>
          z' ← chk_i64 (z + s32 v);
          Ok (htsmsg_field_set m i (hmf_set_val (HS64 z') f))
      | _ => htsmsg_add_s32 (htsmsg_field_destroy m i) (Some name) v
      end
  end.

(** The getters return the error code or the value. *)
Definition htsmsg_get_s64 (m : htsmsg) (k : hkey) : Z + Z :=
  match htsmsg_field_find m k with
  | None => inl HTSMSG_ERR_FIELD_NOT_FOUND
  | Some (_, f) =>
      match hmf_val f with
      | HStr s => inr (strtol s 0).1
      | HS64 z => inr z
      | _ => inl HTSMSG_ERR_CONVERSION_IMPOSSIBLE
      end
  end.

Definition htsmsg_get_u32 (m : htsmsg) (k : hkey) : Z + Z :=
  match htsmsg_get_s64 m k with
  | inl e => inl e
  | inr v =>
      if (v <? 0) || (4294967295 <? v) then inl HTSMSG_ERR_CONVERSION_IMPOSSIBLE
      else inr v
  end.

Definition htsmsg_get_s32 (m : htsmsg) (k : hkey) : Z + Z :=
  match htsmsg_get_s64 m k with
  | inl e => inl e
  | inr v =>
      if (v <? -2147483648) || (2147483647 <? v)
      then inl HTSMSG_ERR_CONVERSION_IMPOSSIBLE
      else inr v
  end.

(** The result type is [int]: a value above [INT_MAX] comes back negative. *)
Definition htsmsg_get_u32_or_default (m : htsmsg) (k : hkey) (def : Z) : Z :=
  s32 (match htsmsg_get_u32 m k with inl _ => def | inr v => v end).

Definition htsmsg_get_s32_or_default (m : htsmsg) (k : hkey) (def : Z) : Z :=
  match htsmsg_get_s32 m k with inl _ => def | inr v => v end.

Definition htsmsg_get_dbl (m : htsmsg) (k : hkey) : Z + Z :=
  match htsmsg_field_find m k with
  | None => inl HTSMSG_ERR_FIELD_NOT_FOUND
  | Some (_, f) =>
      match hmf_val f with
      | HDbl d => inr d
      | _ => inl HTSMSG_ERR_CONVERSION_IMPOSSIBLE
      end
  end.

Definition htsmsg_get_bin (m : htsmsg) (k : hkey) : Z + list Z :=
  match htsmsg_field_find m k with
  | None => inl HTSMSG_ERR_FIELD_NOT_FOUND
  | Some (_, f) =>
      match hmf_val f with
      | HStr s => inr s
      | HBin b => inr b
      | _ => inl HTSMSG_ERR_CONVERSION_IMPOSSIBLE
      end
  end.

(** Reading an integer as a string rewrites the field to a string field. *)
Definition htsmsg_field_get_string (f : hfield) : option (list Z) * hfield :=
  match hmf_val f with
  | HStr s => (Some s, f)
  | HS64 z => let s := dec_of_Z z in (Some s, hmf_set_val (HStr s) f)
  | _ => (None, f)
  end.

Definition htsmsg_get_str (m : htsmsg) (k : hkey) : option (list Z) * htsmsg :=
  match htsmsg_field_find m k with
  | None => (None, m)
  | Some (i, f) =>
      let '(s, f') := htsmsg_field_get_string f in (s, htsmsg_field_set m i f')
  end.

Definition htsmsg_get_map (m : htsmsg) (k : hkey) : option htsmsg :=
  match htsmsg_field_find m k with
  | Some (_, f) => match hmf_val f with HMap => hmf_childs f | _ => None end
  | None => None
  end.

Definition htsmsg_get_list (m : htsmsg) (k : hkey) : option htsmsg :=
  match htsmsg_field_find m k with
  | Some (_, f) => match hmf_val f with HList => hmf_childs f | _ => None end
  | None => None
  end.

Fixpoint htsmsg_get_map_multi (m : option htsmsg) (ks : list hkey) : option htsmsg :=
  match m, ks with
  | Some m', k :: ks' => htsmsg_get_map_multi (htsmsg_get_map m' k) ks'
  | _, _ => m
  end.

Fixpoint htsmsg_get_str_multi (m : htsmsg) (ks : list hkey) : option (list Z) :=
  match ks with
  | [] => None
  | k :: ks' =>
      match htsmsg_field_find m k with
      | None => None
      | Some (_, f) =>
          match hmf_val f, hmf_childs f with
          | HStr s, _ => Some s
          | _, Some c => htsmsg_get_str_multi c ks'
          | _, None => None
          end
      end
  end.

(** [num] counts from one; nothing is found for zero or a negative number
    (before [INT_MIN] wraps the list would need two milliard fields). *)
Definition htsmsg_get_map_in_list (m : htsmsg) (num : Z) : option htsmsg :=
  if num <=? 0 then None
  else f ← hm_fields m !! Z.to_nat (num - 1); hmf_childs f.

Definition htsmsg_get_map_by_field_if_name (f : hfield) (name : list Z) : option htsmsg :=
  if bool_decide (hmf_name f = Some name) then hmf_childs f else None.

Definition htsmsg_get_children (m : htsmsg) : Z := Z.of_nat (length (hm_fields m)).

(** [htsmsg_copy_i] and [htsmsg_copy]: the fields are re-added one by one. *)
Fixpoint htsmsg_copy_field (f : hfield) (dst : htsmsg) : res htsmsg :=
  let 'HField name _ _ v c := f in
  match v with
  | HMap | HList =>
      match c with
      | None => Fault NullDeref
      | Some (Msg _ fs) =>
          sub ← (fix copy_i (fs : list hfield) (sub : htsmsg) : res htsmsg :=
                   match fs with
                   | [] => Ok sub
                   | g :: fs' => sub' ← htsmsg_copy_field g sub; copy_i fs' sub'
                   end) fs
                (match v with HList => htsmsg_create_list | _ => htsmsg_create_map end);
          htsmsg_add_msg dst name sub
      end
  | HStr s => htsmsg_add_str dst name s
  | HS64 z => htsmsg_add_s64 dst name z
  | HBin b => htsmsg_add_bin dst name b
  | HDbl d => htsmsg_add_dbl dst name d
  end.

Fixpoint htsmsg_copy_i (fs : list hfield) (dst : htsmsg) : res htsmsg :=
  match fs with
  | [] => Ok dst
  | f :: fs' => dst' ← htsmsg_copy_field f dst; htsmsg_copy_i fs' dst'
  end.

Definition htsmsg_copy (src : htsmsg) : res htsmsg :=
  htsmsg_copy_i (hm_fields src)
    (if hm_islist src then htsmsg_create_list else htsmsg_create_map).

(** * Well-formed messages *)

(** What the constructors of a tree build: names exactly in maps, the field
    type of a sub message says which kind it is, integers have 64 bits, and a
    scalar has no sub message (only the XML parser attaches one). *)
Definition val_ok (v : hval) (c : option htsmsg) : Prop :=
  match v with
  | HMap => exists fs, c = Some (Msg false fs)
  | HList => exists fs, c = Some (Msg true fs)
  | HS64 z => c = None /\ i64_min <= z <= i64_max
  | HStr s => c = None /\ cstring_ok s
  | HBin b => c = None /\ Forall is_byte b
  | HDbl _ => c = None
  end.

Definition name_ok (islist : bool) (name : option (list Z)) : Prop :=
  match name with
  | None => islist = true
  | Some n => islist = false /\ cstring_ok n
  end.

Inductive field_ok (islist : bool) : hfield -> Prop :=
| FieldOk name a ns v c :
    name_ok islist name -> val_ok v c ->
    (forall il fs, c = Some (Msg il fs) -> Forall (field_ok il) fs) ->
    field_ok islist (HField name a ns v c).

Definition msg_ok (m : htsmsg) : Prop := Forall (field_ok (hm_islist m)) (hm_fields m).

(** What a copy keeps: the XML attribute flag and the namespace are lost. *)
Fixpoint strip_field (f : hfield) : hfield :=
  let 'HField n _ _ v c := f in
  HField n false None v
    (match c with
     | None => None
     | Some (Msg il fs) => Some (Msg il (map strip_field fs))
     end).

(** One step of a proof that a concrete message is well formed. *)
Ltac concrete_step :=
  match goal with
  | |- Forall _ (lit ?x) =>
      let l := eval vm_compute in (lit x) in change (lit x) with l
  | |- Forall _ [] => apply Forall_nil_2
  | |- Forall _ (_ :: _) => apply Forall_cons_2
  | |- name_ok _ _ => simpl
  | |- val_ok _ _ => simpl
  | |- exists _, Some (Msg _ ?x) = _ => exists x; reflexivity
  | |- cstring_ok _ => unfold cstring_ok; simpl
  | |- is_byte _ => unfold is_byte; lia
  | |- _ /\ _ => split
  | |- _ < _ => lia
  | |- _ <= _ => unfold i64_min, i64_max; simpl; lia
  | |- _ = _ => reflexivity
  | |- _ <> _ => discriminate
  | |- forall d, _ <> HDbl d => discriminate
  | |- forall il fs, _ = _ -> Forall _ _ => intros ? ? [=]; subst
  end.

(** * Lemmas *)

(** Induction over a field and the fields of its sub message. *)
Section hfield_ind.
Variable P : hfield -> Prop.
Hypothesis Hnone : forall n a ns v, P (HField n a ns v None).
Hypothesis Hsome : forall n a ns v il fs,
  Forall P fs -> P (HField n a ns v (Some (Msg il fs))).

Fixpoint hfield_ind' (f : hfield) : P f :=
  match f with
  | HField n a ns v None => Hnone n a ns v
  | HField n a ns v (Some (Msg il fs)) =>
      Hsome n a ns v il fs
        ((fix go (fs : list hfield) : Forall P fs :=
            match fs with
            | [] => Forall_nil_2 P
            | g :: fs' => Forall_cons_2 P g fs' (hfield_ind' g) (go fs')
            end) fs)
  end.
End hfield_ind.

Lemma field_add_ok m name v c :
  name_ok (hm_islist m) name ->
  htsmsg_field_add m name v c =
    Ok (Msg (hm_islist m) (hm_fields m ++ [HField name false None v c])).
Proof. unfold htsmsg_field_add. destruct m as [[] fs], name; naive_solver. Qed.

Lemma field_find_from_spec i fs name :
  match field_find_from i fs name with
  | Some (j, f) =>
      exists k, j = (i + k)%nat /\ fs !! k = Some f /\ hmf_name f = Some name /\
        Forall (fun g => hmf_name g <> Some name) (take k fs)
  | None => Forall (fun g => hmf_name g <> Some name) fs
  end.
Proof.
  revert i. induction fs as [|f fs IH]; intros i; simpl; [constructor|].
  case_bool_decide as Hn.
  - exists O. rewrite Nat.add_0_r. split_and!; [done..|constructor].
  - specialize (IH (S i)). destruct (field_find_from (S i) fs name) as [[j g]|].
    + destruct IH as (k & -> & Hk & Hg & Hf). exists (S k).
      split_and!; [lia|done..|]. simpl. by constructor.
    + by constructor.
Qed.

Lemma field_find_from_app i fs gs name :
  field_find_from i (fs ++ gs) name =
    match field_find_from i fs name with
    | Some r => Some r
    | None => field_find_from (i + length fs) gs name
    end.
Proof.
  revert i. induction fs as [|f fs IH]; intros i; simpl.
  - by rewrite Nat.add_0_r.
  - case_bool_decide; [done|]. rewrite IH. by rewrite Nat.add_succ_comm.
Qed.

Lemma copy_fields_ok fs dst :
  Forall (fun f => forall dst, field_ok (hm_islist dst) f ->
    htsmsg_copy_field f dst =
      Ok (Msg (hm_islist dst) (hm_fields dst ++ [strip_field f]))) fs ->
  Forall (field_ok (hm_islist dst)) fs ->
  htsmsg_copy_i fs dst = Ok (Msg (hm_islist dst) (hm_fields dst ++ map strip_field fs)).
Proof.
  revert dst. induction fs as [|f fs IH]; intros dst Hc Hok; simpl.
  - rewrite app_nil_r. by destruct dst.
  - inversion_clear Hc as [|? ? Hf Hfs]. inversion_clear Hok as [|? ? Hof Hofs].
    rewrite (Hf dst Hof). simpl. rewrite IH by done. simpl. by rewrite <- app_assoc.
Qed.

Lemma copy_field_ok f dst :
  field_ok (hm_islist dst) f ->
  htsmsg_copy_field f dst = Ok (Msg (hm_islist dst) (hm_fields dst ++ [strip_field f])).
Proof.
  revert dst. induction f as [n a ns v|n a ns v il fs IH] using hfield_ind';
    intros dst Hok; inversion_clear Hok as [? ? ? ? ? Hn Hv Hc].
  - destruct v; simpl in Hv; simpl; try by destruct Hv.
    all: unfold htsmsg_add_s64, htsmsg_add_str, htsmsg_add_bin, htsmsg_add_dbl.
    all: rewrite field_add_ok by done; try done.
    rewrite s64_id by tauto. done.
  - destruct v; simpl in Hv;
      try (destruct Hv; congruence); try congruence; destruct Hv as [gs Hgs]; simplify_eq.
    all: specialize (Hc _ _ eq_refl).
    + pose proof (copy_fields_ok gs htsmsg_create_map IH Hc) as E.
      cbn [htsmsg_copy_field].
      change ((fix copy_i (fs : list hfield) (sub : htsmsg) := _) gs ?x)
        with (htsmsg_copy_i gs x). rewrite E.
      simpl. unfold htsmsg_add_msg. by rewrite field_add_ok.
    + pose proof (copy_fields_ok gs htsmsg_create_list IH Hc) as E.
      cbn [htsmsg_copy_field].
      change ((fix copy_i (fs : list hfield) (sub : htsmsg) := _) gs ?x)
        with (htsmsg_copy_i gs x). rewrite E.
      simpl. unfold htsmsg_add_msg. by rewrite field_add_ok.
Qed.

Lemma find_add m name v c m' k :
  htsmsg_field_add m (Some name) v c = Ok m' ->
  htsmsg_field_find m' (ByName k) =
    match htsmsg_field_find m (ByName k) with
    | Some r => Some r
    | None => if decide (k = name)
              then Some (length (hm_fields m), HField (Some name) false None v c)
              else None
    end.
Proof.
  unfold htsmsg_field_add. destruct (eqb _ _); [|done]. intros [= <-]. simpl.
  rewrite field_find_from_app. destruct (field_find_from 0 _ k); [done|]. simpl.
  do 2 case_decide; try case_bool_decide; naive_solver.
Qed.

Lemma find_valid m k i f :
  htsmsg_field_find m k = Some (i, f) -> hm_fields m !! i = Some f.
Proof.
  destruct k as [s|j]; simpl.
  - intros H. pose proof (field_find_from_spec 0 (hm_fields m) s) as Hs. rewrite H in Hs.
    destruct Hs as (k & -> & Hk & _). done.
  - destruct (hm_fields m !! j) eqn:E; simpl; naive_solver.
Qed.

Lemma field_find_from_set j fs name i f f' :
  field_find_from j fs name = Some ((j + i)%nat, f) -> hmf_name f' = hmf_name f ->
  field_find_from j (<[i := f']> fs) name = Some ((j + i)%nat, f').
Proof.
  revert j i. induction fs as [|g fs IH]; intros j i; simpl; [done|]. intros Hf Hn.
  case_bool_decide as Hg.
  - injection Hf as Hj ->. assert (i = 0%nat) as -> by lia. simpl.
    rewrite bool_decide_eq_true_2 by congruence. do 2 f_equal. lia.
  - pose proof (field_find_from_spec (S j) fs name) as Hs. rewrite Hf in Hs.
    destruct Hs as (k & Hk & _). destruct i as [|i]; [lia|]. simpl.
    rewrite bool_decide_eq_false_2 by done.
    rewrite Nat.add_succ_r, <- Nat.add_succ_l. apply IH; [|done].
    rewrite Hf. do 2 f_equal. lia.
Qed.

Lemma find_set m k i f f' :
  htsmsg_field_find m k = Some (i, f) -> hmf_name f' = hmf_name f ->
  htsmsg_field_find (htsmsg_field_set m i f') k = Some (i, f').
Proof.
  intros Hf Hn. pose proof (find_valid m k i f Hf) as Hi. destruct k as [s|j]; simpl in *.
  - by apply (field_find_from_set 0 _ _ i f).
  - destruct (hm_fields m !! j) eqn:E; simplify_eq/=.
    rewrite list_lookup_insert_eq by (by eapply lookup_lt_Some). done.
Qed.

(** * Theorems *)

(** A copy of a well-formed message is a message with the same fields in
    the same order and the same trees below them; only the XML attribute flags
    and the namespaces are lost. *)
Theorem htsmsg_copy_correct (m : htsmsg) (Hm : msg_ok m) :
  htsmsg_copy m = Ok (Msg (hm_islist m) (map strip_field (hm_fields m))).
Proof.
  unfold htsmsg_copy. destruct m as [il fs]. cbn [hm_islist hm_fields].
  destruct il; rewrite copy_fields_ok; try done;
    apply Forall_forall; intros; by apply copy_field_ok.
Qed.

Definition ex_msg : htsmsg :=
  Msg false
    [HField (Some (lit "a")) true (Some (lit "x")) (HS64 7) None;
     HField (Some (lit "b")) false None HList
       (Some (Msg true [HField None false None (HBin [1; 2]) None]))].

Lemma htsmsg_copy_correct_witness :
  htsmsg_copy ex_msg = Ok (Msg false (map strip_field (hm_fields ex_msg))).
Proof.
  apply (htsmsg_copy_correct ex_msg). unfold msg_ok, ex_msg; simpl.
  repeat first [concrete_step | apply FieldOk].
Defined.

(** Adding to a map with a free name makes exactly that field visible
    under the name and changes no other lookup by name; with a name already
    taken the older field keeps hiding the new one; lists refuse named fields. *)
Theorem htsmsg_find_after_add (m : htsmsg) (name : list Z) (v : hval)
    (c : option htsmsg) (k : list Z) :
  match htsmsg_field_add m (Some name) v c with
  | Ok m' =>
      hm_islist m = false /\
      htsmsg_field_find m' (ByName k) =
        match htsmsg_field_find m (ByName k) with
        | Some r => Some r
        | None => if decide (k = name)
                  then Some (length (hm_fields m), HField (Some name) false None v c)
                  else None
        end
  | Fault f => f = AssertFailed /\ hm_islist m = true
  end.
Proof.
  destruct (htsmsg_field_add m (Some name) v c) as [m'|f] eqn:E.
  - split; [|by apply (find_add m name v c)].
    unfold htsmsg_field_add in E. by destruct (hm_islist m).
  - unfold htsmsg_field_add in E. destruct (hm_islist m); naive_solver.
Qed.

(** A deletion removes the one field the lookup finds, keeps the order of
    the rest, and reports a missing field without a change. *)
Theorem htsmsg_delete_field_spec (m : htsmsg) (name : list Z) :
  let '(r, m') := htsmsg_delete_field m (ByName name) in
  (r = HTSMSG_ERR_FIELD_NOT_FOUND /\ m' = m /\
     Forall (fun f => hmf_name f <> Some name) (hm_fields m)) \/
  (r = 0 /\ exists l1 f l2, hm_fields m = l1 ++ f :: l2 /\ hmf_name f = Some name /\
     Forall (fun g => hmf_name g <> Some name) l1 /\ m' = Msg (hm_islist m) (l1 ++ l2)).
Proof.
  unfold htsmsg_delete_field. cbn [htsmsg_field_find].
  pose proof (field_find_from_spec 0 (hm_fields m) name) as Hs.
  destruct (field_find_from 0 (hm_fields m) name) as [[i f]|]; [|by left].
  destruct Hs as (k & -> & Hk & Hn & Hf). right. split; [done|].
  exists (take k (hm_fields m)), f, (drop (S k) (hm_fields m)).
  split_and!; [|done|done|done]. symmetry. by apply take_drop_middle.
Qed.

(** Reading an integer field as a string yields its decimal digits and
    turns the field into a string field in place, all else unchanged; a later
    integer read under the same key parses the digits back to the same value. *)
Theorem htsmsg_get_str_of_integer (m : htsmsg) (k : hkey) (i : nat) (f : hfield) (z : Z)
    (Hf : htsmsg_field_find m k = Some (i, f)) (Hz : hmf_val f = HS64 z)
    (Hr : i64_min <= z <= i64_max) :
  let '(s, m') := htsmsg_get_str m k in
  s = Some (dec_of_Z z) /\
  hm_fields m' !! i = Some (hmf_set_val (HStr (dec_of_Z z)) f) /\
  (forall j, j <> i -> hm_fields m' !! j = hm_fields m !! j) /\
  htsmsg_get_s64 m' k = inr z.
Proof.
  pose proof (find_valid m k i f Hf) as Hi.
  unfold htsmsg_get_str. rewrite Hf. unfold htsmsg_field_get_string. rewrite Hz.
  split_and!; [done| | |].
  - apply list_lookup_insert_eq. by eapply lookup_lt_Some.
  - intros j Hj. cbn. by rewrite list_lookup_insert_ne.
  - unfold htsmsg_get_s64. rewrite (find_set m k i f) by (done || by destruct f).
    destruct f as [n a ns v c]. cbn.
    pose proof (strtol_dec z [] 0 Hr) as E. rewrite app_nil_r in E.
    rewrite E; [done|auto..].
Qed.

Lemma htsmsg_get_str_of_integer_witness :
  let '(s, m') := htsmsg_get_str ex_msg (ByName (lit "a")) in
  s = Some (dec_of_Z 7) /\
  hm_fields m' !! 0%nat =
    Some (hmf_set_val (HStr (dec_of_Z 7)) (HField (Some (lit "a")) true (Some (lit "x")) (HS64 7) None)) /\
  (forall j, j <> 0%nat -> hm_fields m' !! j = hm_fields ex_msg !! j) /\
  htsmsg_get_s64 m' (ByName (lit "a")) = inr 7.
Proof.
  apply (htsmsg_get_str_of_integer ex_msg (ByName (lit "a")) 0
    (HField (Some (lit "a")) true (Some (lit "x")) (HS64 7) None) 7);
    [reflexivity|reflexivity|unfold i64_min, i64_max; lia].
Defined.
