(* ===== verification/HtsmsgBinary.v ===== *)
(** The binary form of htsmsg (src/src/htsmsg/htsmsg_binary.c), the wire format
    of the HTSP client: a field is its type, name length and 32-bit data length,
    followed by the name and the data. *)
From S2P Require Import Prelude Clib Htsmsg.

Local Open Scope Z_scope.

(** * Reader *)

(** The C string a NUL terminated copy of [b] denotes. *)
Fixpoint cut_nul (b : list Z) : list Z :=
  match b with
  | [] => []
  | c :: b' => if c =? 0 then [] else c :: cut_nul b'
  end.

(** Little endian bytes into a 64-bit unsigned integer, most significant first. *)
Definition le_u64 (b : list Z) : Z :=
  fold_right (fun c u => Z.lor (u64 (Z.shiftl u 8)) c) 0 b.

(** [len] of the source is [cleft]; it has type [size_t].  The shift of the first
    byte into the sign bit of an [int] is what compilers make of it. *)
Definition binary_header (p : cur) : res (Z * Z * Z * cur) :=
  match cmem p with
  | ty :: nl :: a :: b :: c :: d :: rest =>
      let datalen := Z.lor (Z.lor (Z.lor (Z.shiftl a 24) (Z.shiftl b 16)) (Z.shiftl c 8)) d in
      Ok (ty, nl, u32 datalen, Cur rest (cleft p - 6))
  | _ => Fault OobRead
  end.

Fixpoint htsmsg_binary_des0 (fuel : nat) (msg : htsmsg) (p : cur) : res (option htsmsg) :=
  match fuel with
  | O => Fault NoFuel
  | S fuel =>
      if cleft p <=? 5 then Ok (Some msg)
      else
      h ← binary_header p;
      let '(type, namelen, datalen, p) := h in
      if cleft p <? u32 (namelen + datalen) then Ok None
      else
      n ← (if 0 <? namelen then x ← cread namelen p; Ok (Some (cut_nul x)) else Ok None);
      let p := if 0 <? namelen then advn namelen p else p in
      v ← (if type =? 3 then
             if u32 (datalen + 1) <=? datalen then Fault OobWrite
             else x ← cread datalen p; Ok (Some (HStr (cut_nul x), None))
           else if type =? 4 then x ← cread datalen p; Ok (Some (HBin x, None))
           else if type =? 2 then
             x ← cread (Z.max 0 (s32 (datalen - 1) + 1)) p;
             Ok (Some (HS64 (s64 (le_u64 x)), None))
           else if (type =? 1) || (type =? 5) then
             sub ← htsmsg_binary_des0 fuel
                     (if type =? 1 then htsmsg_create_map else htsmsg_create_list)
                     (Cur (cmem p) datalen);
             Ok (match sub with
                 | None => None
                 | Some sub => Some (if type =? 1 then HMap else HList, Some sub)
                 end)
           else Ok None);
      match v with
      | None => Ok None
      | Some (v, c) =>
          let msg := Msg (hm_islist msg) (hm_fields msg ++ [HField n false None v c]) in
          htsmsg_binary_des0 fuel msg
            (Cur (drop (Z.to_nat datalen) (cmem p)) (u64 (cleft p - datalen)))
      end
  end.

(** [buf] is the object behind [buf_data], [len] its [buf_len].  Every field
    takes six bytes or more. *)
Definition htsmsg_binary_deserialize (buf : list Z) (len : Z) : res (option htsmsg) :=
  htsmsg_binary_des0 (S (length buf)) htsmsg_create_map (Cur buf len).

(** * Writer *)

(** The bytes of [u64] up to the last one that is not zero. *)
Fixpoint u64_bytes (fuel : nat) (u : Z) : list Z :=
  match fuel with
  | O => []
  | S f => if u =? 0 then [] else u8 u :: u64_bytes f (Z.shiftr u 8)
  end.
Definition s64_bytes (z : Z) : list Z := u64_bytes 8 (u64 z).

Definition name_len (n : option (list Z)) : Z :=
  match n with None => 0 | Some n => Z.of_nat (length n) end.

(** One round of the loop of [htsmsg_binary_count]; the sub message is counted
    by the recursive call. *)
Fixpoint htsmsg_binary_count_field (f : hfield) : res Z :=
  let 'HField n _ _ v c := f in
  d ← match v with
      | HMap | HList =>
          match c with
          | None => Fault NullDeref
          | Some (Msg _ fs) =>
              (fix go (fs : list hfield) : res Z :=
                 match fs with
                 | [] => Ok 0
                 | g :: fs' => a ← htsmsg_binary_count_field g; b ← go fs'; Ok (a + b)
                 end) fs
          end
      | HStr s => Ok (Z.of_nat (length s))
      | HBin b => Ok (Z.of_nat (length b))
      | HS64 z => Ok (Z.of_nat (length (s64_bytes z)))
      | HDbl _ => Ok 0
      end;
  Ok (6 + name_len n + d).

Fixpoint htsmsg_binary_count (fs : list hfield) : res Z :=
  match fs with
  | [] => Ok 0
  | g :: fs' => a ← htsmsg_binary_count_field g; b ← htsmsg_binary_count fs'; Ok (a + b)
  end.

Definition be32 (l : Z) : list Z :=
  [u8 (Z.shiftr l 24); u8 (Z.shiftr l 16); u8 (Z.shiftr l 8); u8 l].

(** One round of the loop of [htsmsg_binary_write]: [ptr] advances by [l],
    which is the number of bytes stored. *)
Fixpoint htsmsg_binary_write_field (f : hfield) : res (list Z) :=
  let 'HField n _ _ v c := f in
  l ← match v with
      | HMap | HList =>
          match c with
          | None => Fault NullDeref
          | Some (Msg _ fs) => htsmsg_binary_count fs
          end
      | HStr s => Ok (Z.of_nat (length s))
      | HBin b => Ok (Z.of_nat (length b))
      | HS64 z => Ok (Z.of_nat (length (s64_bytes z)))
      | HDbl _ => Fault AssertFailed
      end;
  d ← match v with
      | HMap | HList =>
          match c with
          | None => Fault NullDeref
          | Some (Msg _ fs) =>
              (fix go (fs : list hfield) : res (list Z) :=
                 match fs with
                 | [] => Ok []
                 | g :: fs' => a ← htsmsg_binary_write_field g; b ← go fs'; Ok (a ++ b)
                 end) fs
          end
      | HStr s => Ok s
      | HBin b => Ok b
      | HS64 z => Ok (s64_bytes z)
      | HDbl _ => Fault AssertFailed
      end;
  Ok (hmf_type v :: u8 (name_len n) :: be32 (s32 l) ++ default [] n ++ d).

Fixpoint htsmsg_binary_write (fs : list hfield) : res (list Z) :=
  match fs with
  | [] => Ok []
  | g :: fs' => a ← htsmsg_binary_write_field g; b ← htsmsg_binary_write fs'; Ok (a ++ b)
  end.

(** The allocation has [len + 4] bytes.  [maxlen] is an [int] that the
    comparison converts to [size_t]. *)
Definition htsmsg_binary_serialize (m : htsmsg) (maxlen : Z) : res (option (list Z)) :=
  len ← htsmsg_binary_count (hm_fields m);
  if u64 maxlen <? len + 4 then Ok None
  else
    w ← htsmsg_binary_write (hm_fields m);
    if len <? Z.of_nat (length w) then Fault OobWrite
    else if Z.of_nat (length w) <? len then Fault Uninitialised
    else Ok (Some (be32 len ++ w)).

(** * Well-formed messages *)

(** What the format can carry: names of at most 255 bytes and not empty (an
    empty name comes back as none), no doubles. *)
Inductive bin_rt (islist : bool) : hfield -> Prop :=
| BinRt name a ns v c :
    name_ok islist name -> val_ok v c ->
    name <> Some [] -> name_len name <= 255 ->
    (forall d, v <> HDbl d) ->
    (forall il fs, c = Some (Msg il fs) -> Forall (bin_rt il) fs) ->
    bin_rt islist (HField name a ns v c).

Definition bin_msg_rt (m : htsmsg) : Prop := Forall (bin_rt (hm_islist m)) (hm_fields m).

(** No length wraps: of each field that the reader comes to, the sum of the two
    lengths fits 32 bits, and so does the data length with a terminator. *)
Fixpoint lengths_fit (fuel : nat) (p : cur) : bool :=
  match fuel with
  | O => true
  | S fuel =>
      if cleft p <=? 5 then true
      else
      match binary_header p with
      | Ok (type, namelen, datalen, p) =>
          (namelen + datalen <? 4294967296) && (datalen + 1 <? 4294967296) &&
          (if cleft p <? namelen + datalen then true
           else
             let p := if 0 <? namelen then advn namelen p else p in
             (if (type =? 1) || (type =? 5) then lengths_fit fuel (Cur (cmem p) datalen) else true) &&
             lengths_fit fuel (advn datalen p))
      | Fault _ => true
      end
  end.

(** The bytes of a field and of its data. *)
Fixpoint binc_field (f : hfield) : list Z :=
  let 'HField n _ _ v c := f in
  let d := match v with
           | HMap | HList =>
               match c with
               | None => []
               | Some (Msg _ fs) =>
                   (fix go (fs : list hfield) : list Z :=
                      match fs with [] => [] | g :: fs' => binc_field g ++ go fs' end) fs
               end
           | HStr s => s
           | HBin b => b
           | HS64 z => s64_bytes z
           | HDbl _ => []
           end in
  hmf_type v :: name_len n :: be32 (Z.of_nat (length d)) ++ default [] n ++ d.

Definition binc_fields (fs : list hfield) : list Z := concat (map binc_field fs).

Definition binc_data (f : hfield) : list Z :=
  match hmf_val f, hmf_childs f with
  | (HMap | HList), Some (Msg _ fs) => binc_fields fs
  | HStr s, _ => s
  | HBin b, _ => b
  | HS64 z, _ => s64_bytes z
  | _, _ => []
  end.

(** * Lemmas *)

Lemma cut_nul_id s : cstring_ok s -> cut_nul s = s.
Proof.
  induction 1 as [|c s Hc _ IH]; simpl; [done|].
  rewrite (proj2 (Z.eqb_neq _ _)) by lia. by rewrite IH.
Qed.

Lemma u8_lor_shift x b : is_byte b -> 0 <= x -> Z.lor (Z.shiftl x 8) b = x * 256 + b.
Proof.
  intros Hb Hx. rewrite Z.shiftl_mul_pow2 by lia.
  assert (Z.land (x * 2 ^ 8) b = 0) as E;
    [|pose proof (Z.add_lor_land (x * 2 ^ 8) b); lia].
  apply Z.bits_inj'. intros n Hn. rewrite Z.land_spec, Z.bits_0, Z.mul_pow2_bits by lia.
  destruct (Z.lt_ge_cases n 8) as [H|H].
  - by rewrite Z.testbit_neg_r by lia.
  - rewrite (Z.bits_above_log2 b n); [apply andb_false_r|unfold is_byte in *; lia|].
    apply Z.lt_le_trans with 8; [|lia].
    destruct (Z.eq_dec b 0) as [->|]; [done|]. apply Z.log2_lt_pow2; unfold is_byte in *; lia.
Qed.

(** ** Integers as bytes *)

Lemma u64_bytes_spec fuel u :
  (fuel <= 8)%nat -> 0 <= u < 256 ^ Z.of_nat fuel ->
  le_u64 (u64_bytes fuel u) = u /\ (length (u64_bytes fuel u) <= fuel)%nat /\
  Forall is_byte (u64_bytes fuel u).
Proof.
  revert u. induction fuel as [|fuel IH]; intros u Hf Hu; cbn [u64_bytes].
  { change (256 ^ Z.of_nat 0) with 1 in Hu. simpl. split_and!; [lia|lia|constructor]. }
  destruct (Z.eqb_spec u 0) as [->|Hne]; [simpl; split_and!; [lia|lia|constructor]|].
  rewrite Nat2Z.inj_succ, Z.pow_succ_r in Hu by lia.
  assert (Z.shiftr u 8 = u / 256) as Es by (by rewrite Z.shiftr_div_pow2 by lia).
  assert (0 <= u / 256 < 256 ^ Z.of_nat fuel) as Hd.
  { split; [apply Z.div_pos; lia|]. apply Z.div_lt_upper_bound; lia. }
  destruct (IH (u / 256)) as (H1 & H2 & H3); [lia|done|]. rewrite Es.
  split_and!; [|simpl; lia|constructor; [apply u8_byte|done]].
  change (le_u64 (u8 u :: u64_bytes fuel (u / 256)))
    with (Z.lor (u64 (Z.shiftl (le_u64 (u64_bytes fuel (u / 256))) 8)) (u8 u)).
  rewrite H1. assert (256 ^ Z.of_nat fuel <= 256 ^ 7) as Hp by (apply Z.pow_le_mono_r; lia).
  change (256 ^ 7) with 72057594037927936 in Hp.
  assert (u64 (Z.shiftl (u / 256) 8) = Z.shiftl (u / 256) 8) as ->.
  { unfold u64. rewrite Z.shiftl_mul_pow2 by lia. apply Z.mod_small. lia. }
  rewrite u8_lor_shift by (lia || apply u8_byte). unfold u8.
  pose proof (Z.div_mod u 256). lia.
Qed.

Lemma u64_s64 z : i64_min <= z <= i64_max -> s64 (u64 z) = z.
Proof.
  intros H. unfold s64. assert (u64 (u64 z) = u64 z) as ->.
  { unfold u64. apply Z.mod_mod. lia. }
  change (s64 z = z). by apply s64_id.
Qed.

Lemma s64_bytes_spec z :
  i64_min <= z <= i64_max ->
  s64 (le_u64 (s64_bytes z)) = z /\ (length (s64_bytes z) <= 8)%nat.
Proof.
  intros H. unfold s64_bytes.
  destruct (u64_bytes_spec 8 (u64 z)) as (H1 & H2 & _); [lia| |].
  - change (256 ^ Z.of_nat 8) with 18446744073709551616. apply Z.mod_pos_bound. lia.
  - rewrite H1. split; [by apply u64_s64|done].
Qed.

Lemma be32_value a b c d :
  is_byte a -> is_byte b -> is_byte c -> is_byte d ->
  Z.lor (Z.lor (Z.lor (Z.shiftl a 24) (Z.shiftl b 16)) (Z.shiftl c 8)) d =
    ((a * 256 + b) * 256 + c) * 256 + d.
Proof.
  intros Ha Hb Hc Hd.
  replace (Z.shiftl a 24) with (Z.shiftl (Z.shiftl (Z.shiftl a 8) 8) 8)
    by (by rewrite !Z.shiftl_shiftl by lia).
  replace (Z.shiftl b 16) with (Z.shiftl (Z.shiftl b 8) 8)
    by (by rewrite !Z.shiftl_shiftl by lia).
  rewrite <- !Z.shiftl_lor. unfold is_byte in *.
  rewrite (u8_lor_shift a b), (u8_lor_shift _ c), (u8_lor_shift _ d)
    by (unfold is_byte; lia). done.
Qed.

Lemma binary_header_be32 ty nl l rest left :
  0 <= l < 2147483648 ->
  binary_header (Cur (ty :: nl :: be32 l ++ rest) left) = Ok (ty, nl, l, Cur rest (left - 6)).
Proof.
  intros Hl. unfold binary_header. cbn [cmem be32 app cleft].
  rewrite be32_value by apply u8_byte. do 3 f_equal.
  unfold u8, u32. rewrite !Z.shiftr_div_pow2 by lia.
  change (2 ^ 24) with 16777216. change (2 ^ 16) with 65536. change (2 ^ 8) with 256.
  rewrite (Z.mod_small (l / 16777216)) by
    (split; [apply Z.div_pos|apply Z.div_lt_upper_bound]; lia).
  assert (((l / 16777216 * 256 + (l / 65536) mod 256) * 256 + (l / 256) mod 256) * 256
          + l mod 256 = l) as ->; [|apply Z.mod_small; lia].
  replace (l / 16777216) with (l / 256 / 256 / 256) by (by rewrite !Z.div_div by lia).
  replace (l / 65536) with (l / 256 / 256) by (by rewrite !Z.div_div by lia).
  pose proof (Z.div_mod l 256). pose proof (Z.div_mod (l / 256) 256).
  pose proof (Z.div_mod (l / 256 / 256) 256). lia.
Qed.

(** ** Writer *)

Lemma binc_fields_cons f fs : binc_fields (f :: fs) = binc_field f ++ binc_fields fs.
Proof. done. Qed.

Lemma binc_fields_go fs :
  (fix go (fs : list hfield) : list Z :=
     match fs with [] => [] | g :: fs' => binc_field g ++ go fs' end) fs = binc_fields fs.
Proof. induction fs as [|f fs IH]; [done|]. by rewrite IH. Qed.

Lemma binc_field_eq n a ns v c :
  binc_field (HField n a ns v c) =
    hmf_type v :: name_len n ::
    be32 (Z.of_nat (length (binc_data (HField n a ns v c)))) ++ default [] n ++
    binc_data (HField n a ns v c).
Proof.
  destruct v, c as [[il fs]|]; try done; cbn [binc_field]; by rewrite !binc_fields_go.
Qed.

Lemma length_binc_field n a ns v c :
  Z.of_nat (length (binc_field (HField n a ns v c))) =
    6 + name_len n + Z.of_nat (length (binc_data (HField n a ns v c))).
Proof.
  rewrite binc_field_eq. cbn [length]. rewrite !length_app. cbn [be32 length].
  destruct n; simpl; lia.
Qed.

Lemma msg_val v c :
  val_ok v c ->
  match c with
  | Some (Msg il fs) => v = HMap /\ il = false \/ v = HList /\ il = true
  | None => v <> HMap /\ v <> HList
  end.
Proof.
  destruct v, c as [[il fs]|]; simpl; intros H; destruct_and?; try naive_solver.
Qed.

Definition counts (f : hfield) : Prop :=
  forall il, bin_rt il f ->
    htsmsg_binary_count_field f = Ok (Z.of_nat (length (binc_field f))).

Lemma count_fields_ok il fs :
  Forall counts fs -> Forall (bin_rt il) fs ->
  htsmsg_binary_count fs = Ok (Z.of_nat (length (binc_fields fs))).
Proof.
  induction 1 as [|f fs Hf _ IH]; intros Hok; [done|].
  inversion_clear Hok. cbn [htsmsg_binary_count]. rewrite (Hf il), IH by done.
  cbn [mbind res_bind]. rewrite binc_fields_cons, length_app. eq_lia.
Qed.

Lemma counts_all f : counts f.
Proof.
  induction f as [n a ns v|n a ns v il' fs IH] using hfield_ind'; intros il Hok;
    inversion_clear Hok as [? ? ? ? ? Hn Hv Hne Hl Hd Hc]; rewrite length_binc_field;
    pose proof (msg_val _ _ Hv) as Hm; cbn iota in Hm.
  - destruct v; cbn; naive_solver.
  - specialize (Hc _ _ eq_refl).
    assert (forall l : list hfield,
      (fix go (fs : list hfield) : res Z :=
         match fs with
         | [] => Ok 0
         | g :: fs' => a ← htsmsg_binary_count_field g; b ← go fs'; Ok (a + b)
         end) l = htsmsg_binary_count l) as E by (induction l as [|g l IHl]; [done|];
           cbn [htsmsg_binary_count]; by rewrite IHl).
    destruct Hm as [[-> ->]|[-> ->]]; cbn [htsmsg_binary_count_field];
      rewrite E, (count_fields_ok _ fs IH Hc); done.
Qed.

Definition bin_writes (f : hfield) : Prop :=
  forall il, bin_rt il f -> Z.of_nat (length (binc_field f)) <= int_max ->
    htsmsg_binary_write_field f = Ok (binc_field f).

Lemma write_fields_ok il fs :
  Forall bin_writes fs -> Forall (bin_rt il) fs ->
  Z.of_nat (length (binc_fields fs)) <= int_max ->
  htsmsg_binary_write fs = Ok (binc_fields fs).
Proof.
  induction 1 as [|f fs Hf _ IH]; intros Hok Hl; [done|].
  inversion_clear Hok. rewrite binc_fields_cons, length_app in *.
  cbn [htsmsg_binary_write]. by rewrite (Hf il), IH by (done || lia).
Qed.

Lemma name_len_range n : 0 <= name_len n.
Proof. destruct n; simpl; lia. Qed.

Lemma bin_writes_all f : bin_writes f.
Proof.
  induction f as [n a ns v|n a ns v il' fs IH] using hfield_ind'; intros il Hok Hsz;
    inversion_clear Hok as [? ? ? ? ? Hn Hv Hne Hl Hd Hc];
    pose proof (msg_val _ _ Hv) as Hm; cbn iota in Hm; pose proof (name_len_range n);
    rewrite length_binc_field in Hsz; rewrite binc_field_eq.
  - destruct v as [|z|s|b| |x];
      [by destruct Hm| | | |by destruct Hm|by destruct (Hd x)];
      cbn [htsmsg_binary_write_field binc_data hmf_val hmf_childs] in *; cbn [mbind res_bind];
      rewrite s32_id, (u8_id (name_len n)) by ilia; done.
  - specialize (Hc _ _ eq_refl).
    assert (forall l : list hfield,
      (fix go (fs : list hfield) : res (list Z) :=
         match fs with
         | [] => Ok []
         | g :: fs' => a ← htsmsg_binary_write_field g; b ← go fs'; Ok (a ++ b)
         end) l = htsmsg_binary_write l) as E by (induction l as [|g l IHl]; [done|];
           cbn [htsmsg_binary_write]; by rewrite IHl).
    destruct Hm as [[-> ->]|[-> ->]];
      cbn [htsmsg_binary_write_field binc_data hmf_val hmf_childs] in *;
      rewrite E, (count_fields_ok _ fs (Forall_true _ _ counts_all) Hc),
        (write_fields_ok _ fs IH Hc) by lia;
      cbn [mbind res_bind]; rewrite s32_id, (u8_id (name_len n)) by ilia; done.
Qed.

(** ** Reader *)

Lemma cread_app n x rest left :
  n = Z.of_nat (length x) -> cread n (Cur (x ++ rest) left) = Ok x.
Proof.
  intros ->. unfold cread. cbn [cmem]. rewrite length_app.
  rewrite (proj2 (Z.leb_le _ _)) by lia. by rewrite Nat2Z.id, take_app_length.
Qed.

Lemma u64_small z : 0 <= z < 18446744073709551616 -> u64 z = z.
Proof. apply Z.mod_small. Qed.

Lemma u32_small z : 0 <= z < 4294967296 -> u32 z = z.
Proof. apply Z.mod_small. Qed.

(** The name part: [n] and the cursor behind it. *)
Lemma read_name islist n rest left :
  name_ok islist n -> n <> Some [] ->
  (if 0 <? name_len n
   then x ← cread (name_len n) (Cur (default [] n ++ rest) left); Ok (Some (cut_nul x))
   else Ok None) = Ok n /\
  (if 0 <? name_len n then advn (name_len n) (Cur (default [] n ++ rest) left)
   else Cur (default [] n ++ rest) left) = Cur rest (left - name_len n).
Proof.
  intros Hn Hne. destruct n as [[|c n]|]; [done| |].
  - rewrite (proj2 (Z.ltb_lt _ _)) by (simpl; lia). cbn [from_option id]. split.
    + rewrite cread_app by done. cbn [mbind res_bind].
      rewrite cut_nul_id by (by destruct Hn). done.
    + unfold advn. cbn [cmem cleft name_len].
      by rewrite Nat2Z.id, drop_app_length.
  - simpl. rewrite Z.sub_0_r. done.
Qed.

(** One round of the reader on the bytes of a field. *)
Definition bin_reads (f : hfield) : Prop :=
  forall il msg rest left fuel,
    bin_rt il f -> hm_islist msg = il ->
    Z.of_nat (length (binc_field f)) <= left < 18446744073709551616 ->
    Z.of_nat (length (binc_field f)) <= int_max ->
    (length (binc_field f) <= fuel)%nat ->
    htsmsg_binary_des0 (S fuel) msg (Cur (binc_field f ++ rest) left) =
      htsmsg_binary_des0 fuel (Msg il (hm_fields msg ++ [strip_field f]))
        (Cur rest (left - Z.of_nat (length (binc_field f)))).

Lemma read_fields_ok il fs msg rest fuel :
  Forall bin_reads fs -> Forall (bin_rt il) fs -> hm_islist msg = il ->
  Z.of_nat (length (binc_fields fs)) <= int_max ->
  (length (binc_fields fs) < fuel)%nat ->
  htsmsg_binary_des0 fuel msg
    (Cur (binc_fields fs ++ rest) (Z.of_nat (length (binc_fields fs)))) =
    Ok (Some (Msg il (hm_fields msg ++ map strip_field fs))).
Proof.
  intros HP. revert msg fuel. induction HP as [|f fs Hf _ IH]; intros msg fuel Hok Hil Hl Hfu;
    (destruct fuel as [|fuel]; [lia|]).
  - cbn. rewrite app_nil_r. subst. by destruct msg.
  - inversion_clear Hok as [|? ? Of Ofs]. rewrite binc_fields_cons, <- app_assoc, length_app in *.
    rewrite (Hf il) by (done || ilia).
    replace (Z.of_nat (length (binc_field f) + length (binc_fields fs)) -
             Z.of_nat (length (binc_field f))) with (Z.of_nat (length (binc_fields fs))) by lia.
    assert (1 <= length (binc_field f))%nat by (destruct f; simpl; lia).
    rewrite IH by (done || lia). cbn [hm_fields map]. by rewrite <- app_assoc.
Qed.

Lemma bin_reads_all f : bin_reads f.
Proof.
  induction f as [n a ns v|n a ns v il' fs IH] using hfield_ind';
    intros il msg rest left fuel Hok Hil Hleft Hsz Hfu;
    inversion_clear Hok as [? ? ? ? ? Hn Hv Hne Hl Hd Hc];
    pose proof (msg_val _ _ Hv) as Hm; cbn iota in Hm; pose proof (name_len_range n) as Hnl;
    match goal with |- context [binc_field (HField n a ns v ?c)] =>
      pose proof (length_binc_field n a ns v c) as Hlen end; rewrite Hlen in *;
    rewrite binc_field_eq; set (d := binc_data _) in *;
    cbn [htsmsg_binary_des0 cleft]; rewrite (proj2 (Z.leb_gt _ _)) by lia;
    cbn [app]; rewrite <- !app_assoc, binary_header_be32 by ilia;
    cbn [mbind res_bind cleft];
    rewrite (u32_small (name_len n + _)) by ilia; rewrite (proj2 (Z.ltb_ge _ _)) by lia;
    destruct (read_name il n (d ++ rest) (left - 6) Hn Hne) as [E1 E2];
    cbn [mbind res_bind] in E1; rewrite E1, E2; cbn [mbind res_bind cmem cleft];
    rewrite Nat2Z.id, drop_app_length, u64_small by lia.
  - destruct v as [|z|s|b| |x]; cbn [hmf_type]; simpl in Hv;
      [by destruct Hm| | | |by destruct Hm|by destruct (Hd x)].
    + destruct (s64_bytes_spec z) as [Es Eb]; [tauto|]. unfold d in *; cbn [binc_data hmf_val hmf_childs Z.eqb Pos.eqb] in *. rewrite s32_id by ilia.
      rewrite cread_app by lia. cbn [mbind res_bind]. rewrite Es, Hil. cbn. eq_lia.
    + unfold d in *; cbn [binc_data hmf_val hmf_childs Z.eqb Pos.eqb] in *.
      rewrite u32_small by ilia. rewrite (proj2 (Z.leb_gt _ _)) by lia.
      rewrite cread_app by lia. cbn [mbind res_bind].
      rewrite cut_nul_id by tauto. rewrite Hil. cbn. eq_lia.
    + unfold d in *; cbn [binc_data hmf_val hmf_childs Z.eqb Pos.eqb] in *.
      rewrite cread_app by lia. cbn [mbind res_bind]. rewrite Hil. cbn. eq_lia.
  - specialize (Hc _ _ eq_refl).
    destruct Hm as [[-> ->]|[-> ->]]; cbn [hmf_type Z.eqb Pos.eqb orb];
      unfold d in *; cbn [binc_data hmf_val hmf_childs] in *.
    + rewrite (read_fields_ok false fs htsmsg_create_map rest fuel) by (done || lia).
      cbn [mbind res_bind]. rewrite Hil. cbn. eq_lia.
    + rewrite (read_fields_ok true fs htsmsg_create_list rest fuel) by (done || lia).
      cbn [mbind res_bind]. rewrite Hil. cbn. eq_lia.
Qed.

(** ** Termination and memory safety *)

Lemma cread_no_fuel {A} n p (k : list Z -> A) :
  (x ← cread n p; Ok (k x)) <> Fault NoFuel.
Proof. unfold cread. by destruct (_ <=? _). Qed.

Lemma des0_no_fuel fuel msg p :
  (length (cmem p) < fuel)%nat -> htsmsg_binary_des0 fuel msg p <> Fault NoFuel.
Proof.
  revert msg p. induction fuel as [|fuel IH]; intros msg p Hf; [lia|].
  cbn [htsmsg_binary_des0]. destruct (_ <=? 5); [done|].
  apply (safe_not _ (fun _ => True)). apply safe_bind, safe_eq.
  { unfold binary_header. by destruct (cmem p) as [|? [|? [|? [|? [|? [|? ?]]]]]]. }
  intros [[[ty nl] dl] q] Hq.
  assert (length (cmem q) < fuel)%nat as Hlq.
  { unfold binary_header in Hq.
    destruct (cmem p) as [|? [|? [|? [|? [|? [|? ?]]]]]]; simplify_eq/=; lia. }
  destruct (_ <? _); [done|]. apply safe_bind, safe_eq.
  { destruct (0 <? nl); [apply cread_no_fuel|done]. }
  intros n _. set (q' := if 0 <? nl then _ else _).
  assert (length (cmem q') < fuel)%nat as Hlq'.
  { unfold q'. destruct (0 <? nl); [|done]. simpl. rewrite length_drop. lia. }
  apply safe_bind, safe_eq.
  - destruct (ty =? 3); [destruct (_ <=? _); [done|apply cread_no_fuel]|].
    destruct (ty =? 4); [apply cread_no_fuel|]. destruct (ty =? 2); [apply cread_no_fuel|].
    destruct (_ || _); [|done].
    specialize (IH (if ty =? 1 then htsmsg_create_map else htsmsg_create_list)
      (Cur (cmem q') dl) Hlq').
    destruct (htsmsg_binary_des0 _ _ _); simpl; congruence.
  - intros [[v c]|] _; [|done]. apply safe_eq; [|done]. apply IH.
    simpl. rewrite length_drop. lia.
Qed.

(** A cursor whose [len] is backed by memory. *)
Definition bin_ok (p : cur) : Prop :=
  0 <= cleft p <= Z.of_nat (length (cmem p)) /\ cleft p < 18446744073709551616 /\
  Forall is_byte (cmem p).

Lemma bin_ok_advn n p : bin_ok p -> 0 <= n <= cleft p -> bin_ok (advn n p).
Proof.
  intros (H1 & H2 & H3) Hn. unfold bin_ok, advn. cbn [cmem cleft].
  rewrite length_drop. split_and!; [lia|lia|lia|by apply Forall_drop].
Qed.

Lemma bin_ok_sub p n : bin_ok p -> 0 <= n <= cleft p -> bin_ok (Cur (cmem p) n).
Proof. intros (H1 & H2 & H3) Hn. unfold bin_ok. cbn [cmem cleft]. split_and!; auto; lia. Qed.

Lemma bin_ok_header p :
  bin_ok p -> 5 < cleft p ->
  exists ty nl dl q, binary_header p = Ok (ty, nl, dl, q) /\ bin_ok q /\
    0 <= nl /\ 0 <= dl /\
    S (length (cmem q)) = (length (cmem p) - 5)%nat.
Proof.
  intros (H1 & H2 & H3) Hl.
  destruct p as [[|ty [|nl [|a [|b [|c [|d m]]]]]] left]; cbn [cmem cleft length] in *; try lia.
  do 6 (apply Forall_cons_1 in H3 as [? H3]).
  exists ty, nl. eexists _, _. split; [done|].
  rewrite be32_value by done.
  unfold is_byte in *. rewrite u32_small by lia. cbn [cmem cleft].
  split_and!; try lia. split_and!; cbn [cmem cleft]; [lia..|done].
Qed.

Lemma des0_safe fuel msg p :
  bin_ok p -> (length (cmem p) < fuel)%nat -> lengths_fit fuel p = true ->
  exists r, htsmsg_binary_des0 fuel msg p = Ok r.
Proof.
  revert msg p. induction fuel as [|fuel IH]; intros msg p Hp Hf Hfit; [lia|].
  cbn [htsmsg_binary_des0 lengths_fit] in Hfit |- *. destruct (Z.leb_spec (cleft p) 5); [eauto|].
  destruct (bin_ok_header p Hp) as (ty & nl & dl & q & Eh & Hq & Hnl & Hdl & Hlq);
    [lia|]. rewrite Eh in Hfit |- *. apply andb_true_iff in Hfit as [[Hs%Z.ltb_lt Hd%Z.ltb_lt]%andb_true_iff Hfit].
  cbn [mbind res_bind]. rewrite u32_small by lia.
  destruct (Z.ltb_spec (cleft q) (nl + dl)); [eauto|].
  assert (exists n, (if 0 <? nl then x ← cread nl q; Ok (Some (cut_nul x)) else Ok None) = Ok n)
    as [n ->].
  { destruct (0 <? nl); [|eauto]. unfold cread. destruct Hq as (Hq & _).
    rewrite (proj2 (Z.leb_le _ _)) by lia. simpl. eauto. }
  cbn [mbind res_bind]. set (q' := if 0 <? nl then _ else _) in *.
  apply andb_true_iff in Hfit as [Hfit1 Hfit2]. assert (bin_ok q' /\ dl <= cleft q' /\ (length (cmem q') < fuel)%nat) as (Hq' & Hdq & Hlq').
  { unfold q'. destruct (Z.ltb_spec 0 nl); [|split_and!; [done|lia|lia]].
    split_and!; [apply bin_ok_advn; [done|lia]|simpl; lia|simpl; rewrite length_drop; lia]. }
  assert (forall m (k : list Z -> option (hval * option htsmsg)), m <= dl ->
    exists v, (x ← cread m q'; Ok (k x)) = Ok v) as Hk.
  { intros m k Hm. unfold cread. destruct Hq' as (Hq' & _).
    rewrite (proj2 (Z.leb_le _ _)) by lia. simpl. eauto. }
  match goal with |- context [mbind _ ?v] =>
    assert (exists vc, v = Ok vc) as [[[v' c']|] ->] end.
  - destruct (ty =? 3).
    { rewrite u32_small by lia. rewrite (proj2 (Z.leb_gt _ _)) by lia. apply Hk. lia. }
    destruct (ty =? 4); [apply Hk; lia|]. destruct (ty =? 2).
    { apply Hk. unfold s32, u32.
      pose proof (Z.mod_pos_bound (dl - 1) 4294967296 ltac:(lia)).
      destruct (Z.ltb_spec ((dl - 1) mod 4294967296) 2147483648); [|lia].
      destruct (Z.eq_dec dl 0) as [->|]; [done|]. rewrite Z.mod_small in * by lia. lia. }
    destruct (_ || _); [|eauto].
    destruct (IH (if ty =? 1 then htsmsg_create_map else htsmsg_create_list)
      (Cur (cmem q') dl)) as [r ->]; [by apply bin_ok_sub|done|done|]. simpl. eauto.
  - cbn [mbind res_bind]. rewrite u64_small by (destruct Hq' as (? & ? & _); lia).
    apply (IH _ (advn dl q')); [by apply bin_ok_advn|simpl; rewrite length_drop; lia|done].
  - simpl. eauto.
Qed.

(** * Example data *)

Definition ex_message : htsmsg :=
  Msg false
    [HField (Some (lit "method")) true (Some (lit "ns")) (HStr (lit "hello")) None;
     HField (Some (lit "seq")) false None (HS64 (-2)) None;
     HField (Some (lit "zero")) false None (HS64 0) None;
     HField (Some (lit "sub")) false None HMap
       (Some (Msg false [HField (Some (lit "b")) false None (HBin [0; 255]) None]));
     HField (Some (lit "l")) false None HList
       (Some (Msg true [HField None false None (HStr []) None]))].

Lemma ex_message_rt : bin_msg_rt ex_message.
Proof.
  unfold bin_msg_rt; simpl. repeat first [concrete_step | apply BinRt].
Qed.

(** * Theorems *)

(** C26: [htsmsg_binary_serialize] sizes its allocation exactly and never writes
    past it, and the reader applied to the payload behind the 4-byte length
    rebuilds the message (XML attribute flags and namespaces excepted). *)
Theorem htsmsg_binary_roundtrip (fs : list hfield) (maxlen : Z)
    (Hm : bin_msg_rt (Msg false fs))
    (Hmax : Z.of_nat (length (binc_fields fs)) + 4 <= maxlen <= int_max) :
  exists payload,
    htsmsg_binary_serialize (Msg false fs) maxlen =
      Ok (Some (be32 (Z.of_nat (length payload)) ++ payload)) /\
    htsmsg_binary_deserialize payload (Z.of_nat (length payload)) =
      Ok (Some (Msg false (map strip_field fs))).
Proof.
  exists (binc_fields fs). split.
  - unfold htsmsg_binary_serialize. cbn [hm_fields].
    rewrite (count_fields_ok false fs) by (done || apply Forall_true, counts_all).
    cbn [mbind res_bind]. rewrite u64_small by ilia. rewrite (proj2 (Z.ltb_ge _ _)) by lia.
    rewrite (write_fields_ok false fs); [|apply Forall_true, bin_writes_all|done|ilia].
    cbn [mbind res_bind]. by rewrite Z.ltb_irrefl.
  - unfold htsmsg_binary_deserialize.
    pose proof (read_fields_ok false fs htsmsg_create_map []
      (S (length (binc_fields fs))) (Forall_true _ _ bin_reads_all)) as E.
    rewrite app_nil_r in E. rewrite E; [done|done|done|ilia|lia].
Qed.

Lemma htsmsg_binary_roundtrip_witness :
  exists payload,
    htsmsg_binary_serialize ex_message 1000 =
      Ok (Some (be32 (Z.of_nat (length payload)) ++ payload)) /\
    htsmsg_binary_deserialize payload (Z.of_nat (length payload)) =
      Ok (Some (Msg false (map strip_field (hm_fields ex_message)))).
Proof.
  apply (htsmsg_binary_roundtrip (hm_fields ex_message) 1000).
  - exact ex_message_rt.
  - vm_compute. split; discriminate.
Defined.

(** C27: the reader is memory safe: on a buffer of bytes in which it comes to no
    field whose lengths wrap around at 32 bits it ends in a message or a
    refusal, without a fault of any kind. *)
Theorem htsmsg_binary_memory_safe (buf : list Z)
    (Hb : Forall is_byte buf) (Hlen : Z.of_nat (length buf) < 18446744073709551616)
    (Hfit : lengths_fit (S (length buf)) (Cur buf (Z.of_nat (length buf))) = true) :
  exists r, htsmsg_binary_deserialize buf (Z.of_nat (length buf)) = Ok r.
Proof.
  apply des0_safe; [|simpl; lia|done]. unfold bin_ok. cbn [cmem cleft]. split_and!; auto; lia.
Qed.

(** A string whose data length is too large, behind a binary with bytes of all
    ones in it. *)
Lemma htsmsg_binary_memory_safe_witness :
  exists r, htsmsg_binary_deserialize [4; 1; 0; 0; 0; 3; 97; 255; 255; 255; 3; 1; 0; 0; 0; 250; 255; 255; 255] 19 = Ok r.
Proof.
  apply (htsmsg_binary_memory_safe [4; 1; 0; 0; 0; 3; 97; 255; 255; 255; 3; 1; 0; 0; 0; 250; 255; 255; 255]);
    [repeat (constructor; [unfold is_byte; lia|]); constructor|simpl; lia|vm_compute; reflexivity].
Defined.

(** The reader terminates on every buffer and every claimed length. *)
Theorem htsmsg_binary_terminates (buf : list Z) (len : Z) :
  htsmsg_binary_deserialize buf len <> Fault NoFuel.
Proof. apply des0_no_fuel. simpl. lia. Qed.

(** The bound check adds the two lengths in 32 bits: a data length of
    0xffffffff passes with a one byte name, and the reader then overruns the
    heap block of a string or runs off the end of the buffer. *)
Theorem htsmsg_binary_wrap_overrun :
  htsmsg_binary_deserialize [3; 1; 255; 255; 255; 255; 97; 98] 8 = Fault OobWrite /\
  htsmsg_binary_deserialize [4; 1; 255; 255; 255; 255; 97; 98] 8 = Fault OobRead.
Proof. vm_compute. auto. Qed.
