(* ===== verification/Bencode.v ===== *)
(** The bencode reader and writer (src/src/backend/bittorrent/bencode.c).  The
    reader walks a [char *] towards [stop] and compares the two for equality
    only; the writer runs twice, first to size the buffer and then to fill it. *)
From S2P Require Import Prelude Clib Htsmsg.

Local Open Scope Z_scope.

(** * Reader *)

(** What a parse function returns: an object, [NOT_THIS_TYPE], or NULL with
    whatever has been stored through [failmsg] and [failp] (given as
    [stop - failp]); [None] when they have not been assigned. *)
Inductive pres (A : Type) :=
| Parsed (a : A)
| NotThisType
| Null (why : option (string * Z)).
Arguments Parsed {A} a.
Arguments NotThisType {A}.
Arguments Null {A} why.

(** The digits of a length: [len] is an [int]. *)
Fixpoint binary_len (s : list Z) (left len : Z) : res (pres (Z * cur)) :=
  if left =? 0 then Ok (Null (Some ("Unexpected end of BENCODE message"%string, left)))
  else match s with
  | [] => Fault OobRead
  | c :: s' =>
      if c =? 58 then Ok (Parsed (len, Cur s left))
      else if (c <? 48) || (57 <? c) then Ok NotThisType
      else
        a ← chk_int (len * 10);
        b ← chk_int (a + c);
        len' ← chk_int (b - 48);
        binary_len s' (left - 1) len'
  end.

Definition bencode_parse_binary (start : cur) : res (pres (list Z * cur)) :=
  r ← binary_len (cmem start) (cleft start) 0;
  match r with
  | Null why => Ok (Null why)
  | NotThisType => Ok NotThisType
  | Parsed (len, p) =>
      let start := adv p in
      if cleft start <=? len then
        Ok (Null (Some ("Excessive binary length"%string, cleft start)))
      else
        _ ← chk_int (len + 1);
        x ← cread len start;
        Ok (Parsed (x, advn len start))
  end.

(** Position of the first NUL byte. *)
Fixpoint find_nul (i : Z) (x : list Z) : option Z :=
  match x with
  | [] => None
  | c :: x' => if c =? 0 then Some i else find_nul (i + 1) x'
  end.

Definition bencode_parse_string (start : cur) : res (pres (list Z * cur)) :=
  r ← bencode_parse_binary start;
  match r with
  | Parsed (x, p) =>
      match find_nul 0 x with
      | Some i => Ok (Null (Some ("Unexpected NUL byte"%string, cleft start - i)))
      | None => Ok (Parsed (x, p))
      end
  | o => Ok o
  end.

(** [val * 10 + c - '0'] in 64 bits for every byte up to the 'e': nothing
    checks that the byte is a digit. *)
Fixpoint integer_digits {cs : CharSign} (s : list Z) (left val : Z) : res (Z * cur) :=
  if left =? 0 then Ok (val, Cur s left)
  else match s with
  | [] => Fault OobRead
  | c :: s' =>
      if c =? 101 then Ok (val, Cur s' (left - 1))
      else
        a ← chk_i64 (val * 10);
        b ← chk_i64 (a + cchar c);
        val' ← chk_i64 (b - 48);
        integer_digits s' (left - 1) val'
  end.

Definition bencode_parse_integer {cs : CharSign} (s : cur) : res (option (Z * cur)) :=
  c ← deref s;
  if negb (c =? 105) then Ok None
  else
    let s := adv s in
    c ← (if cleft s =? 0 then Ok 0 else deref s);
    let '(neg, s) := if c =? 45 then (-1, adv s) else (1, s) in
    r ← integer_digits (cmem s) (cleft s) 0;
    l ← chk_i64 (r.1 * neg);
    Ok (Some (l, r.2)).

(** A byte string without control characters becomes a string field. *)
Definition cleanstr {cs : CharSign} (x : list Z) : bool :=
  forallb (fun c => negb (cchar c <? 32)) x.

(** One call of the callback: the key and the bytes of its value. *)
Definition cbcall : Type := list Z * list Z.

(** [fuel] bounds the nesting and the number of elements. *)
Fixpoint bencode_parse_value {cs : CharSign} (fuel : nat) (s : cur) (parent : htsmsg)
    (name : option (list Z)) : res (option (string * Z) + htsmsg * cur) :=
  match fuel with
  | O => Fault NoFuel
  | S fuel =>
      if cleft s =? 0 then Ok (inl None)
      else
      r ← bencode_parse_map fuel s false;
      match r with
      | Null why => Ok (inl why)
      | Parsed (c, s2, _) => m ← htsmsg_add_msg parent name c; Ok (inr (m, s2))
      | NotThisType =>
      r ← bencode_parse_list fuel s;
      match r with
      | Null why => Ok (inl why)
      | Parsed (c, s2) => m ← htsmsg_add_msg parent name c; Ok (inr (m, s2))
      | NotThisType =>
      r ← bencode_parse_integer s;
      match r with
      | Some (l, s2) => m ← htsmsg_add_s64 parent name l; Ok (inr (m, s2))
      | None =>
      r ← bencode_parse_binary s;
      match r with
      | Null why => Ok (inl why)
      | Parsed (str, s2) =>
          m ← (if cleanstr str then htsmsg_add_str parent name str
               else htsmsg_add_bin parent name str);
          Ok (inr (m, s2))
      | NotThisType => Ok (inl (Some ("Unknown token"%string, cleft s)))
      end end end end
  end
with bencode_parse_map {cs : CharSign} (fuel : nat) (s : cur) (cb : bool)
    : res (pres (htsmsg * cur * list cbcall)) :=
  match fuel with
  | O => Fault NoFuel
  | S fuel =>
      c ← deref s;
      if negb (c =? 100) then Ok NotThisType
      else
        let s := adv s in
        let r := htsmsg_create_map in
        c ← (if cleft s =? 0 then Ok 101 else deref s);
        if c =? 101 then Ok (Parsed (r, adv s, []))
        else bencode_parse_map_loop fuel s r [] cb
  end
with bencode_parse_map_loop {cs : CharSign} (fuel : nat) (s : cur) (r : htsmsg)
    (calls : list cbcall) (cb : bool) : res (pres (htsmsg * cur * list cbcall)) :=
  match fuel with
  | O => Fault NoFuel
  | S fuel =>
      n ← bencode_parse_string s;
      match n with
      | NotThisType => Ok (Null (Some ("Expected string"%string, cleft s)))
      | Null why => Ok (Null why)
      | Parsed (name, s) =>
          v ← bencode_parse_value fuel s r (Some name);
          match v with
          | inl why => Ok (Null why)
          | inr (r, s2) =>
              let calls :=
                if cb then calls ++ [(name, take (Z.to_nat (cleft s - cleft s2)) (cmem s))]
                else calls in
              c ← deref s2;
              if c =? 101 then Ok (Parsed (r, adv s2, calls))
              else bencode_parse_map_loop fuel s2 r calls cb
          end
      end
  end
with bencode_parse_list {cs : CharSign} (fuel : nat) (s : cur)
    : res (pres (htsmsg * cur)) :=
  match fuel with
  | O => Fault NoFuel
  | S fuel =>
      c ← deref s;
      if negb (c =? 108) then Ok NotThisType
      else
        let s := adv s in
        let r := htsmsg_create_list in
        c ← (if cleft s =? 0 then Ok 101 else deref s);
        if c =? 101 then Ok (Parsed (r, adv s))
        else bencode_parse_list_loop fuel s r
  end
with bencode_parse_list_loop {cs : CharSign} (fuel : nat) (s : cur) (r : htsmsg)
    : res (pres (htsmsg * cur)) :=
  match fuel with
  | O => Fault NoFuel
  | S fuel =>
      v ← bencode_parse_value fuel s r None;
      match v with
      | inl why => Ok (Null why)
      | inr (r, s2) =>
          c ← deref s2;
          if c =? 101 then Ok (Parsed (r, adv s2))
          else bencode_parse_list_loop fuel s2 r
      end
  end.

(** The error text: its message and offset (bad when it lies outside the C
    string at [src]) and, if good, the excerpt it shows. *)
Inductive berror :=
| ZeroSize
| NotBencode
| BadOffset (msg : string) (offset : Z)
| AtOffset (msg : string) (offset : Z) (excerpt : list Z).

Definition bencode_error (src : cur) (why : option (string * Z)) : res berror :=
  match why with
  | None => Fault Uninitialised
  | Some (errmsg, errp) =>
      len ← strlen (cmem src);
      let offset := cleft src - errp in
      if (len <? offset) || (offset <? 0) then Ok (BadOffset errmsg offset)
      else
        let offset := if offset - 10 <? 0 then 0 else offset - 10 in
        str ← cstr_at (drop (Z.to_nat offset) (cmem src));
        Ok (AtOffset errmsg offset (take 20 str))
  end.

(** Between two bytes that are consumed at most three calls are made. *)
Definition bencode_fuel (src : cur) : nat := 4 * length (cmem src) + 4.

(** Message, bytes consumed ([remainp]) and callback calls, or the error. *)
Definition bencode_deserialize {cs : CharSign} (src : cur)
    : res (htsmsg * Z * list cbcall + berror) :=
  if cleft src =? 0 then Ok (inr ZeroSize)
  else
  c ← bencode_parse_map (bencode_fuel src) src true;
  match c with
  | Parsed (m, e, calls) => Ok (inl (m, cleft src - cleft e, calls))
  | Null why => e ← bencode_error src why; Ok (inr e)
  | NotThisType =>
      c ← bencode_parse_list (bencode_fuel src) src;
      match c with
      | Parsed (m, e) => Ok (inl (m, cleft src - cleft e, []))
      | Null why => e ← bencode_error src why; Ok (inr e)
      | NotThisType => Ok (inr NotBencode)
      end
  end.

(** * Writer *)

(** The value of a double truncated towards zero: the cast to [int64_t],
    undefined for values outside its range and for NaN and infinities. *)
Definition dbl_to_i64 (bits : Z) : res Z :=
  let e := (bits / 2 ^ 52) mod 2048 in
  let f := bits mod 2 ^ 52 in
  if e =? 2047 then Fault SignedOverflow
  else
    let m := if e =? 0 then f else f + 2 ^ 52 in
    let ex := (if e =? 0 then 1 else e) - 1075 in
    let a := if 0 <=? ex then m * 2 ^ ex else m / 2 ^ (- ex) in
    chk_i64 (if bits <? 2 ^ 63 then a else - a).

(** [serialize_bytes]: what is written at [ptr] when it is not NULL, and the
    returned length, which does not depend on [ptr]. *)
Definition serialize_bytes (data : list Z) (ptr : bool) : res (Z * list Z) :=
  len ← chk_int (Z.of_nat (length data));
  let buf := dec_of_Z len ++ [58] in
  l ← chk_int (Z.of_nat (length buf) + len);
  Ok (l, if ptr then buf ++ data else []).

Definition serialize_int (z : Z) (ptr : bool) : res (Z * list Z) :=
  let buf := 105 :: dec_of_Z z ++ [101] in
  Ok (Z.of_nat (length buf), if ptr then buf else []).

(** One field of [bencode_serialize_r]: [isarray] is that of its message.  The
    recursive call on the sub message is the nested loop. *)
Fixpoint bencode_serialize_field (isarray : bool) (f : hfield) (ptr : bool)
    : res (Z * list Z) :=
  let 'HField name _ _ v c := f in
  n ← (if isarray then Ok (0, [])
       else match name with
            | None => Fault NullDeref
            | Some n => serialize_bytes n ptr
            end);
  s ← match v with
      | HList | HMap =>
          match c with
          | None => Fault NullDeref
          | Some (Msg il fs) =>
              r ← (fix go (fs : list hfield) (len : Z) (out : list Z) : res (Z * list Z) :=
                     match fs with
                     | [] => Ok (len, out)
                     | g :: fs' =>
                         r ← bencode_serialize_field il g ptr;
                         len' ← chk_int (len + r.1);
                         go fs' len' (out ++ r.2)
                     end) fs 1 (if ptr then [if il then 108 else 100] else []);
              len ← chk_int (r.1 + 1);
              Ok (len, r.2 ++ (if ptr then [101] else []))
          end
      | HStr str => serialize_bytes str ptr
      | HBin b => serialize_bytes b ptr
      | HDbl d => z ← dbl_to_i64 d; serialize_int z ptr
      | HS64 z => serialize_int z ptr
      end;
  l ← chk_int (n.1 + s.1);
  Ok (l, n.2 ++ s.2).

Fixpoint bencode_serialize_fields (il : bool) (fs : list hfield) (ptr : bool)
    (len : Z) (out : list Z) : res (Z * list Z) :=
  match fs with
  | [] => Ok (len, out)
  | g :: fs' =>
      r ← bencode_serialize_field il g ptr;
      len' ← chk_int (len + r.1);
      bencode_serialize_fields il fs' ptr len' (out ++ r.2)
  end.

Definition bencode_serialize_r (m : htsmsg) (ptr : bool) : res (Z * list Z) :=
  r ← bencode_serialize_fields (hm_islist m) (hm_fields m) ptr 1
        (if ptr then [if hm_islist m then 108 else 100] else []);
  len ← chk_int (r.1 + 1);
  Ok (len, r.2 ++ (if ptr then [101] else [])).

(** [buf_create(len)] and the second pass: the stores of the second pass are
    in bounds when they do not exceed the length of the first; the bytes behind
    them keep what the allocation held. *)
Definition bencode_serialize (m : htsmsg) : res (list Z) :=
  n ← bencode_serialize_r m false;
  w ← bencode_serialize_r m true;
  if n.1 <? Z.of_nat (length w.2) then Fault OobWrite
  else if Z.of_nat (length w.2) <? n.1 then Fault Uninitialised
  else Ok w.2.

(** * The format *)

(** The bytes of a string and of a field, and the message a reader makes of
    them: a byte string becomes a string or a binary by its content alone, and
    a double comes back as an integer. *)
Definition benc_str (x : list Z) : list Z :=
  dec_of_Z (Z.of_nat (length x)) ++ 58 :: x.
Definition benc_int (z : Z) : list Z := 105 :: dec_of_Z z ++ [101].

Fixpoint benc_val (f : hfield) : list Z :=
  let 'HField _ _ _ v c := f in
  match v with
  | HMap | HList =>
      match c with
      | Some (Msg il fs) =>
          [if il then 108 else 100] ++
          (fix go (fs : list hfield) : list Z :=
             match fs with
             | [] => []
             | g :: fs' =>
                 (if il then [] else benc_str (default [] (hmf_name g))) ++
                 benc_val g ++ go fs'
             end) fs ++ [101]
      | None => []
      end
  | HStr s | HBin s => benc_str s
  | HS64 z => benc_int z
  | HDbl d => match dbl_to_i64 d with Ok z => benc_int z | Fault _ => [] end
  end.

Definition benc_field (il : bool) (f : hfield) : list Z :=
  (if il then [] else benc_str (default [] (hmf_name f))) ++ benc_val f.

Definition benc_fields (il : bool) (fs : list hfield) : list Z :=
  concat (map (benc_field il) fs).

Definition benc (m : htsmsg) : list Z :=
  [if hm_islist m then 108 else 100] ++ benc_fields (hm_islist m) (hm_fields m) ++ [101].

Definition norm_val {cs : CharSign} (v : hval) : hval :=
  match v with
  | HStr s | HBin s => if cleanstr s then HStr s else HBin s
  | HDbl d => match dbl_to_i64 d with Ok z => HS64 z | Fault _ => v end
  | _ => v
  end.

Fixpoint norm_field {cs : CharSign} (f : hfield) : hfield :=
  let 'HField n _ _ v c := f in
  HField n false None (norm_val v)
    (match c with
     | None => None
     | Some (Msg il fs) => Some (Msg il (map norm_field fs))
     end).

(** Values that survive: the reader adds the character code before it
    subtracts '0', so the last 48 values of the range overflow. *)
Definition int_rt (z : Z) : Prop := - (i64_max - 48) <= z <= i64_max - 48.

Inductive benc_rt (islist : bool) : hfield -> Prop :=
| BencRt name a ns v c :
    name_ok islist name -> val_ok v c ->
    (forall z, v = HS64 z -> int_rt z) ->
    (forall d, v = HDbl d -> exists z, dbl_to_i64 d = Ok z /\ int_rt z) ->
    (forall il fs, c = Some (Msg il fs) -> Forall (benc_rt il) fs) ->
    benc_rt islist (HField name a ns v c).

Definition benc_msg_rt (m : htsmsg) : Prop :=
  Forall (benc_rt (hm_islist m)) (hm_fields m).

(** * Lemmas: reading *)

Lemma length_benc_str x :
  length (benc_str x) = (length (dec_of_Z (Z.of_nat (length x))) + S (length x))%nat.
Proof. unfold benc_str. by rewrite length_app. Qed.

Lemma dec_fold_ge ds acc :
  0 <= acc -> Forall (fun c => 48 <= c <= 57) ds -> acc <= dec_fold acc ds.
Proof.
  intros Ha Hds. revert acc Ha. induction Hds as [|c ds Hc _ IH]; intros acc Ha; [done|].
  change (dec_fold acc (c :: ds)) with (dec_fold (acc * 10 + c - 48) ds).
  specialize (IH (acc * 10 + c - 48)). lia.
Qed.

Lemma binary_len_digits ds rest left acc :
  Forall (fun c => 48 <= c <= 57) ds -> 0 <= acc ->
  dec_fold acc ds <= int_max - 48 -> Z.of_nat (length ds) < left ->
  binary_len (ds ++ 58 :: rest) left acc =
    Ok (Parsed (dec_fold acc ds, Cur (58 :: rest) (left - Z.of_nat (length ds)))).
Proof.
  intros Hds. revert left acc. induction Hds as [|c ds Hc Hds IH]; intros left acc Ha Hb Hl;
    cbn [binary_len app length] in *.
  - rewrite (proj2 (Z.eqb_neq _ _)) by lia. cbn. by rewrite Z.sub_0_r.
  - rewrite (proj2 (Z.eqb_neq _ _)) by lia.
    rewrite (proj2 (Z.eqb_neq c 58)) by lia.
    rewrite (proj2 (Z.ltb_ge _ _)), (proj2 (Z.ltb_ge _ _)) by lia. cbn [orb].
    change (dec_fold acc (c :: ds)) with (dec_fold (acc * 10 + c - 48) ds) in *.
    pose proof (dec_fold_ge ds (acc * 10 + c - 48) ltac:(lia) Hds).
    do 3 (rewrite chk_int_Ok by ilia; cbn [mbind res_bind]).
    rewrite IH by ilia. eq_lia.
Qed.

Lemma parse_binary_str x rest left :
  Z.of_nat (length x) <= int_max - 48 -> Z.of_nat (length (benc_str x)) < left ->
  bencode_parse_binary (Cur (benc_str x ++ rest) left) =
    Ok (Parsed (x, Cur rest (left - Z.of_nat (length (benc_str x))))).
Proof.
  intros Hx Hl. rewrite length_benc_str in *. unfold bencode_parse_binary, benc_str.
  rewrite dec_of_Z_nat in * by lia.
  destruct (dec_nat_ex (Z.of_nat (length x))) as (ds & Eds & Hds & Hf & _); [lia|].
  rewrite Eds in *. cbn [cmem cleft]. rewrite <- app_assoc. cbn [app].
  rewrite binary_len_digits by (done || lia). rewrite Hf. cbn.
  rewrite (proj2 (Z.leb_gt _ _)) by lia.
  rewrite chk_int_Ok by ilia. cbn.
  unfold cread, adv. cbn [cmem cleft tail]. rewrite length_app.
  rewrite (proj2 (Z.leb_le _ _)) by lia. cbn.
  rewrite Nat2Z.id, take_app_length. do 2 f_equal.
  unfold advn. cbn [cmem cleft]. rewrite Nat2Z.id, drop_app_length. eq_lia.
Qed.

Lemma find_nul_none i x : Forall (fun c => c <> 0) x -> find_nul i x = None.
Proof.
  intros H. revert i. induction H as [|c x Hc _ IH]; intros i; simpl; [done|].
  rewrite (proj2 (Z.eqb_neq _ _)) by done. apply IH.
Qed.

Lemma parse_string_str x rest left :
  cstring_ok x ->
  Z.of_nat (length x) <= int_max - 48 -> Z.of_nat (length (benc_str x)) < left ->
  bencode_parse_string (Cur (benc_str x ++ rest) left) =
    Ok (Parsed (x, Cur rest (left - Z.of_nat (length (benc_str x))))).
Proof.
  intros Hc Hx Hl. unfold bencode_parse_string. rewrite parse_binary_str by done. cbn.
  rewrite find_nul_none; [done|]. eapply Forall_impl; [exact Hc|]. simpl. lia.
Qed.

Lemma integer_digits_spec {cs : CharSign} ds rest left acc :
  Forall (fun c => 48 <= c <= 57) ds -> 0 <= acc ->
  dec_fold acc ds <= i64_max - 48 -> Z.of_nat (length ds) < left ->
  integer_digits (ds ++ 101 :: rest) left acc =
    Ok (dec_fold acc ds, Cur rest (left - Z.of_nat (length ds) - 1)).
Proof.
  intros Hds. revert left acc. induction Hds as [|c ds Hc Hds IH]; intros left acc Ha Hb Hl;
    cbn [integer_digits app length] in *.
  - rewrite (proj2 (Z.eqb_neq _ _)) by lia. cbn. by rewrite Z.sub_0_r.
  - rewrite (proj2 (Z.eqb_neq _ _)) by lia.
    rewrite (proj2 (Z.eqb_neq c 101)) by lia.
    rewrite cchar_ascii by lia.
    change (dec_fold acc (c :: ds)) with (dec_fold (acc * 10 + c - 48) ds) in *.
    pose proof (dec_fold_ge ds (acc * 10 + c - 48) ltac:(lia) Hds).
    do 3 (rewrite chk_i64_Ok by ilia; cbn [mbind res_bind]).
    rewrite IH by ilia. eq_lia.
Qed.

Lemma parse_integer_int {cs : CharSign} z rest left :
  int_rt z -> Z.of_nat (length (benc_int z)) < left ->
  bencode_parse_integer (Cur (benc_int z ++ rest) left) =
    Ok (Some (z, Cur rest (left - Z.of_nat (length (benc_int z))))).
Proof.
  unfold int_rt, i64_max. intros Hz Hl. unfold bencode_parse_integer, benc_int in *.
  unfold dec_of_Z in *. destruct (Z.ltb_spec z 0) as [Hneg|Hpos].
  - destruct (dec_nat_ex (- z)) as (ds & Eds & Hds & Hf & _); [lia|].
    rewrite Eds in *. cbn [app length] in Hl. rewrite length_app in Hl.
    cbn [length] in Hl. cbn. rewrite (proj2 (Z.eqb_neq _ _)) by lia. cbn.
    rewrite <- app_assoc. cbn [app].
    rewrite integer_digits_spec by (done || ilia). rewrite Hf. cbn [mbind res_bind fst snd].
    rewrite chk_i64_Ok by ilia. cbn.
    rewrite length_app. cbn. eq_lia.
  - destruct (dec_nat_ex z Hpos) as (ds & Eds & Hds & Hf & c & ds' & E & Hc).
    rewrite Eds in *. cbn [app length] in *. rewrite length_app in *.
    cbn [length] in *. cbn [deref cmem mbind res_bind adv tail cleft].
    change (negb (105 =? 105)) with false. cbn [cleft mbind res_bind].
    rewrite (proj2 (Z.eqb_neq _ _)) by lia. rewrite <- app_assoc. cbn [app].
    match goal with |- context [deref ?p] =>
      replace (deref p) with (Ok c : res Z) by (by rewrite E) end.
    cbn [mbind res_bind]. rewrite (proj2 (Z.eqb_neq c 45)) by lia.
    unfold adv. cbn [cmem cleft tail]. rewrite integer_digits_spec by (done || ilia).
    rewrite Hf. cbn [mbind res_bind fst snd]. rewrite chk_i64_Ok by ilia. cbn. eq_lia.
Qed.

Lemma benc_val_msg n a ns v il fs :
  v = HMap \/ v = HList ->
  benc_val (HField n a ns v (Some (Msg il fs))) =
    (if il then 108 else 100) :: benc_fields il fs ++ [101].
Proof.
  intros Hv. assert (forall l : list hfield,
    (fix go (fs : list hfield) : list Z :=
       match fs with
       | [] => []
       | g :: fs' =>
           (if il then [] else benc_str (default [] (hmf_name g))) ++ benc_val g ++ go fs'
       end) l ++ [101] = benc_fields il l ++ [101]) as E.
  { induction l as [|g l IH]; [done|]. unfold benc_fields in *. cbn [map concat].
    unfold benc_field at 1. rewrite <- !app_assoc, IH. done. }
  destruct Hv as [-> | ->]; cbn [benc_val]; by rewrite E.
Qed.

(** How an encoded value begins: never with the end marker. *)
Definition val_head (x : list Z) : Prop :=
  exists c t, x = c :: t /\ (c = 100 \/ c = 108 \/ c = 105 \/ 48 <= c <= 57).

Lemma benc_str_head x : exists c t, benc_str x = c :: t /\ 48 <= c <= 57.
Proof.
  unfold benc_str. rewrite dec_of_Z_nat by lia.
  destruct (dec_nat_ex (Z.of_nat (length x))) as (ds & -> & _ & _ & c & ds' & -> & Hc);
    [lia|]. simpl. eauto.
Qed.

Lemma benc_val_head il f : benc_rt il f -> val_head (benc_val f).
Proof.
  intros Hf. inversion_clear Hf as [n a ns v c Hn Hv Hi Hd Hc]. unfold val_head.
  destruct v as [|z|s|b| |d]; simpl in Hv.
  1,5: destruct Hv as [fs ->]; rewrite benc_val_msg by auto; eauto 8.
  - simpl. unfold benc_int. eauto 8.
  - simpl. destruct (benc_str_head s) as (h & t & -> & ?). eauto 8.
  - simpl. destruct (benc_str_head b) as (h & t & -> & ?). eauto 8.
  - destruct (Hd d eq_refl) as (z & Hz & _). simpl. rewrite Hz.
    unfold benc_int. eauto 8.
Qed.

(** The reader on one encoded value that is not the last thing before [stop]. *)
Definition reads_back {cs : CharSign} (f : hfield) : Prop :=
  forall il parent rest left fuel,
    benc_rt il f -> hm_islist parent = il ->
    Z.of_nat (length (benc_val f)) < left ->
    Z.of_nat (length (benc_val f)) <= int_max - 48 ->
    (3 * length (benc_val f) + 2 <= fuel)%nat ->
    bencode_parse_value fuel (Cur (benc_val f ++ rest) left) parent (hmf_name f) =
      Ok (inr (Msg il (hm_fields parent ++ [norm_field f]),
               Cur rest (left - Z.of_nat (length (benc_val f))))).

Lemma benc_fields_cons il f fs :
  benc_fields il (f :: fs) =
    (if il then [] else benc_str (default [] (hmf_name f))) ++ benc_val f ++ benc_fields il fs.
Proof. unfold benc_fields, benc_field. cbn [map concat]. by rewrite <- app_assoc. Qed.

Lemma deref_cons c t left : deref (Cur (c :: t) left) = Ok c.
Proof. done. Qed.

Lemma list_loop_reads {cs : CharSign} fs r rest left fuel :
  Forall reads_back fs -> Forall (benc_rt true) fs -> fs <> [] ->
  hm_islist r = true ->
  Z.of_nat (length (benc_fields true fs)) < left ->
  Z.of_nat (length (benc_fields true fs)) <= int_max - 48 ->
  (3 * length (benc_fields true fs) + 3 <= fuel)%nat ->
  bencode_parse_list_loop fuel (Cur (benc_fields true fs ++ 101 :: rest) left) r =
    Ok (Parsed (Msg true (hm_fields r ++ map norm_field fs),
                Cur rest (left - Z.of_nat (length (benc_fields true fs)) - 1))).
Proof.
  intros HP Hok Hne. revert r left fuel Hne.
  induction fs as [|f fs IH]; intros r left fuel Hne Hr Hl Hm Hfu; [done|].
  inversion_clear HP as [|? ? Pf Pfs]. inversion_clear Hok as [|? ? Of Ofs].
  destruct (benc_val_head true f Of) as (h & t & Eh & _).
  assert (hmf_name f = None) as Hname.
  { inversion Of as [n a ns v c Hn]; subst. destruct n; [|done]. by destruct Hn. }
  rewrite benc_fields_cons in *. cbn [app] in *. rewrite length_app in *.
  destruct fuel as [|fuel]; [lia|]. cbn [bencode_parse_list_loop].
  rewrite <- app_assoc, <- Hname.
  rewrite (Pf true) by (done || lia || (rewrite Eh in *; simpl in *; lia)).
  cbn [mbind res_bind]. destruct fs as [|g fs].
  - cbn [benc_fields map concat app length] in *. rewrite deref_cons.
    cbn [mbind res_bind]. rewrite Z.eqb_refl. unfold adv; cbn [cmem cleft tail].
    eq_lia.
  - assert (Hg : benc_rt true g) by (by inversion Ofs).
    destruct (benc_val_head true g Hg) as (hg & tg & Eg & Hhg).
    match goal with |- context [deref ?p] =>
      replace (deref p) with (Ok hg : res Z) by (by rewrite benc_fields_cons, Eg) end.
    cbn [mbind res_bind]. rewrite (proj2 (Z.eqb_neq _ _)) by lia.
    rewrite Eh in Hl, Hm, Hfu. cbn [length] in Hl, Hm, Hfu.
    rewrite IH by (done || rewrite ?Eh; simpl; lia).
    cbn [hm_fields]. rewrite <- app_assoc. cbn [map app]. eq_lia.
Qed.

Definition cb_calls (fs : list hfield) : list cbcall :=
  map (fun f => (default [] (hmf_name f), benc_val f)) fs.

Lemma map_loop_reads {cs : CharSign} fs r calls (cb : bool) rest left fuel :
  Forall reads_back fs -> Forall (benc_rt false) fs -> fs <> [] ->
  hm_islist r = false ->
  Z.of_nat (length (benc_fields false fs)) < left ->
  Z.of_nat (length (benc_fields false fs)) <= int_max - 48 ->
  (3 * length (benc_fields false fs) + 3 <= fuel)%nat ->
  bencode_parse_map_loop fuel (Cur (benc_fields false fs ++ 101 :: rest) left) r calls cb =
    Ok (Parsed (Msg false (hm_fields r ++ map norm_field fs),
                Cur rest (left - Z.of_nat (length (benc_fields false fs)) - 1),
                calls ++ (if cb then cb_calls fs else []))).
Proof.
  intros HP Hok Hne. revert r calls left fuel Hne.
  induction fs as [|f fs IH]; intros r calls left fuel Hne Hr Hl Hm Hfu; [done|].
  inversion_clear HP as [|? ? Pf Pfs]. inversion_clear Hok as [|? ? Of Ofs].
  destruct (benc_val_head false f Of) as (h & t & Eh & _).
  assert (exists nm, hmf_name f = Some nm /\ cstring_ok nm) as (nm & Hname & Hnm).
  { inversion Of as [n a ns v c Hn]; subst. destruct n; [|done]. destruct Hn. eauto. }
  rewrite benc_fields_cons, Hname in *. cbn [from_option id] in *. rewrite !length_app in *.
  destruct fuel as [|fuel]; [lia|]. cbn [bencode_parse_map_loop].
  rewrite <- !app_assoc. pose proof (length_benc_str nm) as Hls.
  rewrite parse_string_str by (done || lia). cbn [mbind res_bind].
  rewrite <- Hname.
  rewrite (Pf false) by (done || lia).
  cbn [mbind res_bind cmem cleft].
  match goal with |- context [take (Z.to_nat ?e) _] =>
    replace (Z.to_nat e) with (length (benc_val f)) by lia end.
  rewrite take_app_length. destruct fs as [|g fs].
  - cbn [benc_fields map concat app length] in *. rewrite deref_cons.
    cbn [mbind res_bind]. rewrite Z.eqb_refl. unfold adv; cbn [cmem cleft tail].
    unfold cb_calls. cbn [map]. rewrite Hname. cbn [from_option id].
    destruct cb; rewrite ?app_nil_r; eq_lia.
  - assert (exists hg tg, benc_fields false (g :: fs) = hg :: tg /\ 48 <= hg <= 57)
      as (hg & tg & Eg & Hhg).
    { rewrite benc_fields_cons.
      destruct (benc_str_head (default [] (hmf_name g))) as (x & y & -> & ?). simpl; eauto. }
    match goal with |- context [deref ?p] =>
      replace (deref p) with (Ok hg : res Z) by (by rewrite Eg) end.
    cbn [mbind res_bind]. rewrite (proj2 (Z.eqb_neq _ _)) by lia.
    rewrite Eh in Hl, Hm, Hfu. cbn [length] in Hl, Hm, Hfu.
    rewrite IH by (done || rewrite ?Eh; simpl; lia).
    cbn [hm_fields]. rewrite <- app_assoc. unfold cb_calls. cbn [map app].
    rewrite Hname. cbn [from_option id].
    destruct cb; rewrite <- ?app_assoc; cbn [app]; eq_lia.
Qed.

Lemma benc_fields_nonempty il f fs :
  Forall (benc_rt il) (f :: fs) ->
  exists h t, benc_fields il (f :: fs) = h :: t /\ h <> 101.
Proof.
  intros Hok. inversion_clear Hok as [|? ? Of _]. rewrite benc_fields_cons. destruct il.
  - destruct (benc_val_head true f Of) as (h & t & -> & Hh). simpl. eexists _, _.
    split; [done|]. lia.
  - destruct (benc_str_head (default [] (hmf_name f))) as (h & t & -> & Hh). simpl.
    eexists _, _. split; [done|]. lia.
Qed.

(** A map and a list as a whole. *)
Lemma parse_map_reads {cs : CharSign} fs (cb : bool) rest left fuel :
  Forall reads_back fs -> Forall (benc_rt false) fs ->
  Z.of_nat (length (benc (Msg false fs))) <= left ->
  Z.of_nat (length (benc (Msg false fs))) <= int_max - 48 ->
  (3 * length (benc (Msg false fs)) + 1 <= fuel)%nat ->
  bencode_parse_map fuel (Cur (benc (Msg false fs) ++ rest) left) cb =
    Ok (Parsed (Msg false (map norm_field fs),
                Cur rest (left - Z.of_nat (length (benc (Msg false fs)))),
                if cb then cb_calls fs else [])).
Proof.
  intros HP Hok Hl Hm Hf. unfold benc in *. cbn [hm_islist hm_fields] in *.
  cbn [app length] in *. rewrite length_app in *. cbn [length] in *.
  destruct fuel as [|fuel]; [lia|]. cbn [bencode_parse_map]. rewrite deref_cons.
  cbn [mbind res_bind]. change (negb (100 =? 100)) with false. cbn iota.
  unfold adv. cbn [cmem cleft tail].
  rewrite (proj2 (Z.eqb_neq _ _)) by lia. rewrite <- app_assoc. cbn [app].
  destruct fs as [|f fs].
  - cbn [benc_fields map concat app length] in *. rewrite deref_cons.
    cbn. destruct cb; eq_lia.
  - destruct (benc_fields_nonempty false f fs Hok) as (h & t & E & Hh).
    match goal with |- context [deref ?p] =>
      replace (deref p) with (Ok h : res Z) by (by rewrite E) end.
    cbn [mbind res_bind]. rewrite (proj2 (Z.eqb_neq _ _)) by done.
    rewrite map_loop_reads by (done || lia). cbn [hm_fields htsmsg_create_map app].
    eq_lia.
Qed.

Lemma parse_list_reads {cs : CharSign} fs rest left fuel :
  Forall reads_back fs -> Forall (benc_rt true) fs ->
  Z.of_nat (length (benc (Msg true fs))) <= left ->
  Z.of_nat (length (benc (Msg true fs))) <= int_max - 48 ->
  (3 * length (benc (Msg true fs)) + 1 <= fuel)%nat ->
  bencode_parse_list fuel (Cur (benc (Msg true fs) ++ rest) left) =
    Ok (Parsed (Msg true (map norm_field fs),
                Cur rest (left - Z.of_nat (length (benc (Msg true fs)))))).
Proof.
  intros HP Hok Hl Hm Hf. unfold benc in *. cbn [hm_islist hm_fields] in *.
  cbn [app length] in *. rewrite length_app in *. cbn [length] in *.
  destruct fuel as [|fuel]; [lia|]. cbn [bencode_parse_list]. rewrite deref_cons.
  cbn [mbind res_bind]. change (negb (108 =? 108)) with false. cbn iota.
  unfold adv. cbn [cmem cleft tail].
  rewrite (proj2 (Z.eqb_neq _ _)) by lia. rewrite <- app_assoc. cbn [app].
  destruct fs as [|f fs].
  - cbn [benc_fields map concat app length] in *. rewrite deref_cons.
    cbn. eq_lia.
  - destruct (benc_fields_nonempty true f fs Hok) as (h & t & E & Hh).
    match goal with |- context [deref ?p] =>
      replace (deref p) with (Ok h : res Z) by (by rewrite E) end.
    cbn [mbind res_bind]. rewrite (proj2 (Z.eqb_neq _ _)) by done.
    rewrite list_loop_reads by (done || lia). cbn [hm_fields htsmsg_create_list app].
    eq_lia.
Qed.

(** What is not a map or a list falls through to the scalars. *)
Lemma parse_map_other {cs : CharSign} fuel h t left cb :
  (1 <= fuel)%nat -> h <> 100 ->
  bencode_parse_map fuel (Cur (h :: t) left) cb = Ok NotThisType.
Proof.
  intros Hf Hh. destruct fuel as [|fuel]; [lia|]. cbn. by rewrite (proj2 (Z.eqb_neq _ _)).
Qed.

Lemma parse_list_other {cs : CharSign} fuel h t left :
  (1 <= fuel)%nat -> h <> 108 ->
  bencode_parse_list fuel (Cur (h :: t) left) = Ok NotThisType.
Proof.
  intros Hf Hh. destruct fuel as [|fuel]; [lia|]. cbn. by rewrite (proj2 (Z.eqb_neq _ _)).
Qed.

Lemma parse_value_int {cs : CharSign} z rest left fuel parent name :
  int_rt z -> name_ok (hm_islist parent) name ->
  Z.of_nat (length (benc_int z)) < left -> (2 <= fuel)%nat ->
  bencode_parse_value fuel (Cur (benc_int z ++ rest) left) parent name =
    Ok (inr (Msg (hm_islist parent) (hm_fields parent ++ [HField name false None (HS64 z) None]),
             Cur rest (left - Z.of_nat (length (benc_int z))))).
Proof.
  intros Hz Hn Hl Hf. destruct fuel as [|fuel]; [lia|]. cbn [bencode_parse_value cleft].
  rewrite (proj2 (Z.eqb_neq _ _)) by lia.
  pose proof (parse_integer_int z rest left Hz Hl) as Hb.
  assert (exists t, benc_int z ++ rest = 105 :: t) as [t E] by (unfold benc_int; simpl; eauto).
  rewrite E in Hb |- *.
  rewrite parse_map_other, parse_list_other by lia. cbn [mbind res_bind].
  rewrite Hb. cbn [mbind res_bind].
  unfold htsmsg_add_s64. rewrite s64_id by (unfold int_rt in Hz; ilia).
  by rewrite field_add_ok.
Qed.

Lemma parse_value_str {cs : CharSign} x rest left fuel parent name :
  name_ok (hm_islist parent) name -> Z.of_nat (length x) <= int_max - 48 ->
  Z.of_nat (length (benc_str x)) < left -> (2 <= fuel)%nat ->
  bencode_parse_value fuel (Cur (benc_str x ++ rest) left) parent name =
    Ok (inr (Msg (hm_islist parent)
               (hm_fields parent ++
                [HField name false None (if cleanstr x then HStr x else HBin x) None]),
             Cur rest (left - Z.of_nat (length (benc_str x))))).
Proof.
  intros Hn Hx Hl Hf. destruct fuel as [|fuel]; [lia|]. cbn [bencode_parse_value cleft].
  rewrite (proj2 (Z.eqb_neq left 0)) by lia.
  pose proof (parse_binary_str x rest left Hx Hl) as Hb.
  destruct (benc_str_head x) as (h & t & E & Hh).
  rewrite E in Hb |- *. cbn [app] in *.
  rewrite parse_map_other, parse_list_other by lia. cbn [mbind res_bind].
  unfold bencode_parse_integer. rewrite deref_cons. cbn [mbind res_bind].
  rewrite (proj2 (Z.eqb_neq h 105)) by lia. cbn [negb mbind res_bind].
  rewrite Hb. cbn [mbind res_bind]. unfold htsmsg_add_str, htsmsg_add_bin.
  destruct (cleanstr x); by rewrite field_add_ok.
Qed.

Lemma reads_back_all {cs : CharSign} f : reads_back f.
Proof.
  induction f as [n a ns v|n a ns v il' fs IH] using hfield_ind';
    intros il parent rest left fuel Hok Hil Hl Hm Hf; subst il;
    inversion_clear Hok as [? ? ? ? ? Hn Hv Hi Hd Hc].
  - destruct v as [|z|s|b| |d]; simpl in Hv; try by destruct Hv.
    + cbn [benc_val] in *. apply parse_value_int; auto; lia.
    + cbn [benc_val] in *. pose proof (length_benc_str s).
      rewrite parse_value_str by (done || lia). done.
    + cbn [benc_val] in *. pose proof (length_benc_str b).
      rewrite parse_value_str by (done || lia). done.
    + destruct (Hd d eq_refl) as (z & Hz & Hrt). cbn [benc_val norm_field norm_val] in *.
      rewrite Hz in *. apply parse_value_int; auto; lia.
  - assert (v = HMap /\ il' = false \/ v = HList /\ il' = true) as Hcase.
    { destruct v; simpl in Hv; destruct_and?; try congruence;
        destruct Hv as [gs Hgs]; simplify_eq; auto. }
    rewrite benc_val_msg in * by tauto.
    change ((if il' then 108 else 100) :: benc_fields il' fs ++ [101])
      with (benc (Msg il' fs)) in *.
    specialize (Hc _ _ eq_refl). destruct fuel as [|fuel]; [lia|].
    cbn [bencode_parse_value cleft].
    assert (1 < length (benc (Msg il' fs)))%nat as H1.
    { unfold benc. cbn [app hm_islist hm_fields length]. rewrite length_app. simpl. lia. }
    rewrite (proj2 (Z.eqb_neq left 0)) by lia.
    destruct Hcase as [[-> ->]|[-> ->]].
    + rewrite parse_map_reads by (done || lia). cbn [mbind res_bind].
      unfold htsmsg_add_msg. rewrite field_add_ok by done. done.
    + pose proof (parse_list_reads fs rest left fuel IH Hc) as Hlist.
      assert (exists t, benc (Msg true fs) ++ rest = 108 :: t) as [t E]
        by (unfold benc; simpl; eauto).
      rewrite E in Hlist |- *. rewrite parse_map_other by lia. cbn [mbind res_bind].
      rewrite Hlist by lia. cbn [mbind res_bind].
      unfold htsmsg_add_msg. rewrite field_add_ok by done. done.
Qed.

(** * Lemmas: writing *)

Lemma serialize_bytes_ok x (ptr : bool) :
  Z.of_nat (length (benc_str x)) <= int_max ->
  serialize_bytes x ptr =
    Ok (Z.of_nat (length (benc_str x)), if ptr then benc_str x else []).
Proof.
  intros Hx. pose proof (length_benc_str x) as Hl. unfold serialize_bytes.
  rewrite chk_int_Ok by ilia. cbn [mbind res_bind].
  assert (Z.of_nat (length (dec_of_Z (Z.of_nat (length x)) ++ [58])) +
          Z.of_nat (length x) = Z.of_nat (length (benc_str x))) as ->.
  { rewrite length_app. simpl. lia. }
  rewrite chk_int_Ok by ilia. cbn [mbind res_bind].
  unfold benc_str. by rewrite <- app_assoc.
Qed.

Definition writes (f : hfield) : Prop :=
  forall il (ptr : bool), benc_rt il f ->
    Z.of_nat (length (benc_field il f)) <= int_max ->
    bencode_serialize_field il f ptr =
      Ok (Z.of_nat (length (benc_field il f)), if ptr then benc_field il f else []).

Lemma serialize_fields_ok il fs (ptr : bool) len out :
  Forall writes fs -> Forall (benc_rt il) fs -> 0 <= len ->
  len + Z.of_nat (length (benc_fields il fs)) <= int_max ->
  bencode_serialize_fields il fs ptr len out =
    Ok (len + Z.of_nat (length (benc_fields il fs)),
        out ++ if ptr then benc_fields il fs else []).
Proof.
  intros HP Hok. revert len out. induction fs as [|f fs IH]; intros len out Hl Hm.
  - cbn. destruct ptr; rewrite app_nil_r; eq_lia.
  - inversion_clear HP as [|? ? Pf Pfs]. inversion_clear Hok as [|? ? Of Ofs].
    unfold benc_fields in *. cbn [map concat bencode_serialize_fields] in *.
    rewrite length_app in *. rewrite Pf by (done || lia). cbn [mbind res_bind fst snd].
    rewrite chk_int_Ok by ilia. cbn [mbind res_bind].
    rewrite IH by (done || lia). destruct ptr; rewrite <- ?app_assoc, ?app_nil_l; eq_lia.
Qed.

Lemma serialize_name_ok il n (ptr : bool) :
  name_ok il n ->
  Z.of_nat (length (if il : bool then [] else benc_str (default [] n))) <= int_max ->
  (if il then Ok (0, [])
   else match n with None => Fault NullDeref | Some n => serialize_bytes n ptr end) =
  Ok (Z.of_nat (length (if il then [] else benc_str (default [] n))),
      if ptr then (if il then [] else benc_str (default [] n)) else []).
Proof.
  destruct il, n as [n|]; simpl; intros Hn Hl; destruct_and?; try done.
  - by destruct ptr.
  - by apply serialize_bytes_ok.
Qed.

Lemma writes_all f : writes f.
Proof.
  induction f as [n a ns v|n a ns v il' fs IH] using hfield_ind';
    intros il ptr Hok Hm; inversion_clear Hok as [? ? ? ? ? Hn Hv Hi Hd Hc];
    unfold benc_field in *; cbn [hmf_name] in *; rewrite length_app in Hm |- *;
    cbn [bencode_serialize_field];
    rewrite serialize_name_ok by (done || lia); cbn [mbind res_bind fst snd].
  - destruct v as [|z|s|b| |d]; simpl in Hv; try by destruct Hv.
    all: cbn [benc_val] in *.
    1: unfold serialize_int; change (105 :: dec_of_Z z ++ [101]) with (benc_int z).
    2, 3: rewrite serialize_bytes_ok by lia.
    4: destruct (Hd d eq_refl) as (z & Hz & Hrt); rewrite Hz in *; unfold serialize_int;
       cbn [mbind res_bind]; change (105 :: dec_of_Z z ++ [101]) with (benc_int z).
    all: cbn [mbind res_bind fst snd]; rewrite chk_int_Ok by ilia; cbn [mbind res_bind];
      destruct ptr; eq_lia.
  - assert (v = HMap \/ v = HList) as Hcase.
    { destruct v; simpl in Hv; auto; destruct_and?; congruence. }
    rewrite benc_val_msg in * by done. specialize (Hc _ _ eq_refl).
    cbn [length] in Hm. rewrite length_app in Hm. cbn [length] in Hm.
    assert (forall l x (y : list Z),
      (fix go (fs : list hfield) (len : Z) (out : list Z) : res (Z * list Z) :=
         match fs with
         | [] => Ok (len, out)
         | g :: fs' =>
             r ← bencode_serialize_field il' g ptr;
             len' ← chk_int (len + r.1);
             go fs' len' (out ++ r.2)
         end) l x y = bencode_serialize_fields il' l ptr x y) as E.
    { induction l as [|g l IHl]; intros; [done|]. cbn [bencode_serialize_fields].
      destruct (bencode_serialize_field il' g ptr) as [r|]; [|done]. cbn [mbind res_bind].
      destruct (chk_int (x + r.1)); [|done]. cbn [mbind res_bind]. apply IHl. }
    destruct Hcase as [-> | ->]; rewrite E.
    all: rewrite serialize_fields_ok by (done || lia); cbn [mbind res_bind fst snd];
      rewrite chk_int_Ok by ilia; cbn [mbind res_bind fst snd];
      rewrite chk_int_Ok by ilia; cbn [mbind res_bind length]; rewrite length_app; cbn [length];
      destruct ptr; rewrite ?app_nil_r, <- ?app_assoc; cbn [app]; eq_lia.
Qed.

Lemma serialize_r_ok m (ptr : bool) :
  benc_msg_rt m -> Z.of_nat (length (benc m)) <= int_max ->
  bencode_serialize_r m ptr =
    Ok (Z.of_nat (length (benc m)), if ptr then benc m else []).
Proof.
  intros Hok Hm. unfold benc in *. cbn [length app] in *. rewrite length_app in *.
  cbn [length] in *. unfold bencode_serialize_r.
  rewrite serialize_fields_ok;
    [|apply Forall_forall; intros; apply writes_all|done|lia|lia].
  cbn [mbind res_bind fst snd]. rewrite chk_int_Ok by ilia. cbn [mbind res_bind].
  destruct ptr; cbn [app]; rewrite <- ?app_assoc; eq_lia.
Qed.

(** * Lemmas: termination *)

Definition clen (p : cur) : nat := length (cmem p).

(** One step of a computation that is claimed to be safe. *)
Ltac safe_step :=
  match goal with
  | |- safe _ _ (_ ≫= _) => apply safe_bind
  | |- safe _ _ (Ok _) => simpl
  | |- safe _ _ (Fault _) => simpl; congruence
  | |- safe _ _ (chk_int _) => apply safe_chk_int; [congruence|]
  | |- safe _ _ (chk_i64 _) => apply safe_chk_i64; [congruence|]
  end.

Lemma safe_field_add bad (Q : htsmsg -> Prop) m name v c :
  bad <> AssertFailed -> (forall m', Q m') -> safe bad Q (htsmsg_field_add m name v c).
Proof. intros Hb HQ. unfold htsmsg_field_add. destruct (eqb _ _); simpl; auto; congruence. Qed.

Lemma binary_len_progress s left len :
  safe NoFuel (fun r => match r with Parsed (_, p) => (1 <= clen p <= length s)%nat | _ => True end)
    (binary_len s left len).
Proof.
  revert left len. induction s as [|c s IH]; intros left len; simpl;
    destruct (left =? 0); simpl; try done.
  destruct (c =? 58); [unfold clen; simpl; lia|].
  destruct (_ || _); [done|].
  do 3 (safe_step; safe_step). eapply safe_mono; [apply IH|].
  intros [[n p]| |]; simpl; try done. lia.
Qed.

Lemma parse_binary_progress s :
  safe NoFuel (fun r => match r with Parsed (_, p) => (clen p < clen s)%nat | _ => True end)
    (bencode_parse_binary s).
Proof.
  unfold bencode_parse_binary. safe_step. eapply safe_mono; [apply binary_len_progress|].
  intros [[n p]| |] Hp; simpl; try done.
  destruct (_ <=? _); [done|]. safe_step. safe_step. safe_step.
  unfold cread. destruct (_ <=? _); simpl; [|done].
  unfold clen in *. simpl. rewrite length_drop. destruct (cmem p); simpl in *; lia.
Qed.

Lemma parse_string_progress s :
  safe NoFuel (fun r => match r with Parsed (_, p) => (clen p < clen s)%nat | _ => True end)
    (bencode_parse_string s).
Proof.
  unfold bencode_parse_string. safe_step. eapply safe_mono; [apply parse_binary_progress|].
  intros [[n p]| |] Hp; simpl; try done. by destruct (find_nul _ _).
Qed.

Lemma integer_digits_progress {cs : CharSign} s left val :
  safe NoFuel (fun r => (clen r.2 <= length s)%nat) (integer_digits s left val).
Proof.
  revert left val. induction s as [|c s IH]; intros left val; simpl;
    destruct (left =? 0); simpl; unfold clen; simpl; try done; try lia.
  destruct (c =? 101); simpl; [lia|].
  do 3 (safe_step; safe_step). eapply safe_mono; [apply IH|].
  unfold clen. simpl. lia.
Qed.

Lemma parse_integer_progress {cs : CharSign} s :
  safe NoFuel (fun r => match r with Some (_, p) => (clen p < clen s)%nat | None => True end)
    (bencode_parse_integer s).
Proof.
  unfold bencode_parse_integer. destruct s as [[|c s] left]; [simpl; done|].
  rewrite deref_cons. cbn [mbind res_bind]. destruct (negb (c =? 105)); [done|].
  safe_step. unfold adv; cbn [cmem cleft tail]. apply safe_eq.
  { destruct (left - 1 =? 0); [done|]. by destruct s. }
  intros c' _. destruct (c' =? 45); safe_step; eapply safe_mono;
    try apply integer_digits_progress; intros [z p]; unfold clen; simpl; intros Hp;
    safe_step; safe_step; simpl; [|lia].
  destruct s; simpl in *; lia.
Qed.

(** The five mutually recursive functions, by induction on the fuel. *)
Definition value_post (s : cur) (r : option (string * Z) + htsmsg * cur) : Prop :=
  match r with inr (_, p) => (clen p < clen s)%nat | _ => True end.
Definition map_post (s : cur) (r : pres (htsmsg * cur * list cbcall)) : Prop :=
  match r with Parsed (_, p, _) => (clen p < clen s)%nat | _ => True end.
Definition list_post (s : cur) (r : pres (htsmsg * cur)) : Prop :=
  match r with Parsed (_, p) => (clen p < clen s)%nat | _ => True end.

Lemma safe_deref bad (Q : Z -> Prop) p :
  (cmem p = [] -> OobRead <> bad) -> (forall c t, cmem p = c :: t -> Q c) ->
  safe bad Q (deref p).
Proof.
  unfold deref. destruct (cmem p) as [|c t] eqn:E; simpl; intros H1 H2; [auto|eauto].
Qed.

Lemma safe_deref_cons bad (Q : Z -> Prop) p c t :
  cmem p = c :: t -> Q c -> safe bad Q (deref p).
Proof. unfold deref. by intros ->. Qed.

Lemma clen_adv c t p : cmem p = c :: t -> clen p = S (clen (adv p)).
Proof. unfold clen. simpl. by intros ->. Qed.

Lemma peek_no_fuel p : (if cleft p =? 0 then Ok 101 else deref p) <> Fault NoFuel.
Proof. destruct (cleft p =? 0); [done|]. destruct p as [[|c t] l]; done. Qed.

Lemma parse_no_fuel {cs : CharSign} fuel :
  (forall s parent name, (3 * clen s + 2 <= fuel)%nat ->
     safe NoFuel (value_post s) (bencode_parse_value fuel s parent name)) /\
  (forall s cb, (3 * clen s + 1 <= fuel)%nat ->
     safe NoFuel (map_post s) (bencode_parse_map fuel s cb)) /\
  (forall s r calls cb, (3 * clen s + 3 <= fuel)%nat ->
     safe NoFuel (map_post s) (bencode_parse_map_loop fuel s r calls cb)) /\
  (forall s, (3 * clen s + 1 <= fuel)%nat ->
     safe NoFuel (list_post s) (bencode_parse_list fuel s)) /\
  (forall s r, (3 * clen s + 3 <= fuel)%nat ->
     safe NoFuel (list_post s) (bencode_parse_list_loop fuel s r)).
Proof.
  induction fuel as [|fuel (IHv & IHm & IHml & IHl & IHll)]; [split_and!; intros; lia|].
  split_and!.
  - intros s parent name Hf. cbn [bencode_parse_value].
    destruct (cleft s =? 0); [done|]. safe_step.
    eapply safe_mono; [apply IHm; lia|]. intros [[[c p] k]| |] Hp; try done.
    { safe_step. by apply safe_field_add. }
    safe_step. eapply safe_mono; [apply IHl; lia|]. intros [[c p]| |] Hp'; try done.
    { safe_step. by apply safe_field_add. }
    safe_step. eapply safe_mono; [apply parse_integer_progress|]. intros [[l p]|] Hi.
    { safe_step. by apply safe_field_add. }
    safe_step. eapply safe_mono; [apply parse_binary_progress|].
    intros [[x p]| |] Hb; try done. safe_step.
    destruct (cleanstr x); by apply safe_field_add.
  - intros s cb Hf. cbn [bencode_parse_map]. safe_step.
    apply safe_deref; [done|]. intros c t Ec. pose proof (clen_adv _ _ _ Ec) as Ha.
    destruct (negb _); [done|]. safe_step. apply safe_eq.
    { apply peek_no_fuel. }
    intros c' _. destruct (c' =? 101).
    + simpl. unfold clen in *. simpl in *. rewrite Ec in *. simpl in *.
      destruct t; simpl in *; lia.
    + eapply safe_mono; [apply IHml; lia|]. intros [[[m p] k]| |]; simpl; try done; lia.
  - intros s r calls cb Hf. cbn [bencode_parse_map_loop]. safe_step.
    eapply safe_mono; [apply parse_string_progress|]. intros [[nm p]| |] Hp; try done.
    safe_step. eapply safe_mono; [apply IHv; lia|]. intros [why|[m s2]] Hs2; [done|].
    simpl in Hs2. safe_step. apply safe_deref; [done|]. intros c t Ec.
    pose proof (clen_adv _ _ _ Ec). destruct (c =? 101).
    + simpl. lia.
    + eapply safe_mono; [apply IHml; lia|]. intros [[[m' p'] k]| |]; simpl; try done; lia.
  - intros s Hf. cbn [bencode_parse_list]. safe_step.
    apply safe_deref; [done|]. intros c t Ec. pose proof (clen_adv _ _ _ Ec) as Ha.
    destruct (negb _); [done|]. safe_step. apply safe_eq.
    { apply peek_no_fuel. }
    intros c' _. destruct (c' =? 101).
    + simpl. unfold clen in *. simpl in *. rewrite Ec in *. simpl in *.
      destruct t; simpl in *; lia.
    + eapply safe_mono; [apply IHll; lia|]. intros [[m p]| |]; simpl; try done; lia.
  - intros s r Hf. cbn [bencode_parse_list_loop]. safe_step.
    eapply safe_mono; [apply IHv; lia|]. intros [why|[m s2]] Hs2; [done|].
    simpl in Hs2. safe_step. apply safe_deref; [done|]. intros c t Ec.
    pose proof (clen_adv _ _ _ Ec). destruct (c =? 101).
    + simpl. lia.
    + eapply safe_mono; [apply IHll; lia|]. intros [[m' p]| |]; simpl; try done; lia.
Qed.

(** * Lemmas: memory safety *)

(** A cursor inside a buffer of [buf_create]: [stop] points at its NUL, and the
    text before it does not end in an opening bracket. *)
Definition in_buf (p : cur) : Prop :=
  exists b rest, cmem p = b ++ 0 :: rest /\ cleft p = Z.of_nat (length b) /\
    last b <> Some 100 /\ last b <> Some 108.

Lemma in_buf_adv c t p :
  in_buf p -> cmem p = c :: t -> c <> 0 -> in_buf (adv p).
Proof.
  intros (b & rest & Hm & Hl & Hd & Hlst) Ec Hc. rewrite Hm in Ec.
  destruct b as [|x b]; simplify_eq/=.
  exists b, rest. unfold adv. cbn [cmem cleft]. rewrite Hm. cbn.
  split_and!; [done|lia|..]; destruct b; simpl in *; congruence.
Qed.

Lemma in_buf_drop p n :
  in_buf p -> 0 <= n <= cleft p -> in_buf (advn n p).
Proof.
  intros (b & rest & Hm & Hl & Hd & Hlst) Hn.
  exists (drop (Z.to_nat n) b), rest. unfold advn. cbn [cmem cleft].
  rewrite Hm, drop_app_le by lia. split_and!; [done|rewrite length_drop; lia|..].
  all: intros Hx; assert (drop (Z.to_nat n) b <> []) as Hne by (by intros E; rewrite E in Hx).
  all: rewrite <- (take_drop (Z.to_nat n) b), last_app in Hd, Hlst.
  all: rewrite Hx in Hd, Hlst; done.
Qed.

Lemma in_buf_nonempty p : in_buf p -> exists c t, cmem p = c :: t.
Proof. intros ([|c b] & rest & Hm & _); rewrite Hm; simpl; eauto. Qed.

Lemma in_buf_left p c t :
  in_buf p -> cmem p = c :: t -> 0 <= cleft p /\ (c <> 0 -> 1 <= cleft p) /\
  (cleft p = 0 -> c = 0).
Proof.
  intros ([|x b] & rest & Hm & Hl & _) Ec; rewrite Hm in Ec; simplify_eq/=; lia.
Qed.

Lemma binary_len_safe s left len :
  in_buf (Cur s left) -> 0 <= len ->
  safe OobRead (fun r => match r with
    | Parsed (n, p) => in_buf p /\ 0 <= n /\ exists t, cmem p = 58 :: t
    | _ => True end) (binary_len s left len).
Proof.
  revert left len. induction s as [|c s IH]; intros left len Hb Hn.
  { destruct (in_buf_nonempty _ Hb) as (? & ? & ?). done. }
  cbn [binary_len]. destruct (left =? 0); [done|].
  destruct (Z.eqb_spec c 58) as [->|_]; [simpl; eauto|].
  destruct (_ || _) eqn:E; [done|]. zbool.
  do 3 (safe_step; safe_step). apply IH; [|lia].
  apply (in_buf_adv c s (Cur (c :: s) left)); [done|done|lia].
Qed.

Lemma parse_binary_safe s :
  in_buf s ->
  safe OobRead (fun r => match r with Parsed (_, p) => in_buf p | _ => True end)
    (bencode_parse_binary s).
Proof.
  intros Hb. unfold bencode_parse_binary. safe_step.
  eapply safe_mono; [apply binary_len_safe; [by destruct s|done]|].
  intros [[n p]| |] Hp; try done. destruct Hp as (Hp & Hn & t & Ht).
  assert (in_buf (adv p)) as Ha by (by apply (in_buf_adv 58 t)).
  destruct (Z.leb_spec (cleft (adv p)) n); [done|]. safe_step. safe_step. safe_step.
  unfold cread. destruct Ha as (b & rest & Hm & Hl & Hd).
  rewrite Hm, length_app. rewrite (proj2 (Z.leb_le _ _)) by lia. simpl.
  apply in_buf_drop; [|lia]. by exists b, rest.
Qed.

Lemma parse_string_safe s :
  in_buf s ->
  safe OobRead (fun r => match r with Parsed (_, p) => in_buf p | _ => True end)
    (bencode_parse_string s).
Proof.
  intros Hb. unfold bencode_parse_string. safe_step.
  eapply safe_mono; [by apply parse_binary_safe|].
  intros [[n p]| |] Hp; try done. simpl. by destruct (find_nul _ _).
Qed.

Lemma integer_digits_safe {cs : CharSign} s left val :
  (exists b rest, s = b ++ 0 :: rest /\ left = Z.of_nat (length b) /\
     last b <> Some 100 /\ last b <> Some 108) ->
  safe OobRead (fun r => in_buf r.2) (integer_digits s left val).
Proof.
  revert left val. induction s as [|c s IH]; intros left val Hb.
  { destruct Hb as ([|? ?] & ? & ? & _); done. }
  cbn [integer_digits]. destruct (Z.eqb_spec left 0); [simpl; done|].
  assert (in_buf (Cur s (left - 1))) as Ha.
  { destruct Hb as ([|x b] & rest & ? & Hl & H1 & H2); simplify_eq/=.
    exists b, rest. simpl. split_and!; [done|lia|..]; destruct b; simpl in *; congruence. }
  destruct (c =? 101); [done|]. do 3 (safe_step; safe_step). by apply IH.
Qed.

Lemma parse_integer_safe {cs : CharSign} s :
  in_buf s ->
  safe OobRead (fun r => match r with Some (_, p) => in_buf p | None => True end)
    (bencode_parse_integer s).
Proof.
  intros Hb. unfold bencode_parse_integer. safe_step.
  destruct (in_buf_nonempty _ Hb) as (c & t & Ec).
  apply (safe_deref_cons _ _ _ _ _ Ec).
  destruct (Z.eqb_spec c 105) as [->|]; [|done]. cbn [negb].
  assert (in_buf (adv s)) as Ha by (by apply (in_buf_adv 105 t)).
  destruct (in_buf_nonempty _ Ha) as (c' & t' & Ec').
  assert (exists x, (if cleft (adv s) =? 0 then Ok 0 else deref (adv s)) = Ok x /\
    (x <> 0 -> x = c')) as (x & -> & Hx).
  { destruct (_ =? 0); [by exists 0|]. exists c'. unfold deref. by rewrite Ec'. }
  cbn [mbind res_bind]. destruct (Z.eqb_spec x 45) as [->|].
  - assert (in_buf (adv (adv s))) as Ha2.
    { apply (in_buf_adv c' t'); [done|done|]. rewrite <- Hx; lia. }
    safe_step. eapply safe_mono; [by apply integer_digits_safe|].
    intros [z p] Hp. safe_step. safe_step. done.
  - safe_step. eapply safe_mono; [by apply integer_digits_safe|].
    intros [z p] Hp. safe_step. safe_step. done.
Qed.

Definition value_safe (r : option (string * Z) + htsmsg * cur) : Prop :=
  match r with inr (_, p) => in_buf p | _ => True end.
Definition map_safe (r : pres (htsmsg * cur * list cbcall)) : Prop :=
  match r with Parsed (_, p, _) => in_buf p | _ => True end.
Definition list_safe (r : pres (htsmsg * cur)) : Prop :=
  match r with Parsed (_, p) => in_buf p | _ => True end.

(** Behind an opening bracket the text goes on. *)
Lemma in_buf_open s c t :
  in_buf s -> cmem s = c :: t -> c = 100 \/ c = 108 ->
  in_buf (adv s) /\ exists c' t', cmem (adv s) = c' :: t' /\ cleft (adv s) <> 0.
Proof.
  intros Hb Ec Hc. assert (in_buf (adv s)) as Ha by (apply (in_buf_adv c t); auto; lia).
  split; [done|]. destruct (in_buf_nonempty _ Ha) as (c' & t' & Ec').
  exists c', t'. split; [done|].
  destruct Hb as ([|x [|y b]] & rest & Hm & Hl & H1 & H2); rewrite Hm in Ec; simplify_eq/=.
  - destruct Hc; lia.
  - destruct Hc; subst; congruence.
  - lia.
Qed.

Lemma parse_oob {cs : CharSign} fuel :
  (forall s parent name, in_buf s ->
     safe OobRead value_safe (bencode_parse_value fuel s parent name)) /\
  (forall s cb, in_buf s -> safe OobRead map_safe (bencode_parse_map fuel s cb)) /\
  (forall s r calls cb, in_buf s ->
     safe OobRead map_safe (bencode_parse_map_loop fuel s r calls cb)) /\
  (forall s, in_buf s -> safe OobRead list_safe (bencode_parse_list fuel s)) /\
  (forall s r, in_buf s -> safe OobRead list_safe (bencode_parse_list_loop fuel s r)).
Proof.
  induction fuel as [|fuel (IHv & IHm & IHml & IHl & IHll)]; [split_and!; intros; done|].
  split_and!.
  - intros s parent name Hb. cbn [bencode_parse_value].
    destruct (cleft s =? 0); [done|]. safe_step.
    eapply safe_mono; [by apply IHm|]. intros [[[c p] k]| |] Hp; try done.
    { safe_step. by apply safe_field_add. }
    safe_step. eapply safe_mono; [by apply IHl|]. intros [[c p]| |] Hp'; try done.
    { safe_step. by apply safe_field_add. }
    safe_step. eapply safe_mono; [by apply parse_integer_safe|]. intros [[l p]|] Hi.
    { safe_step. by apply safe_field_add. }
    safe_step. eapply safe_mono; [by apply parse_binary_safe|].
    intros [[x p]| |] Hx; try done. safe_step.
    destruct (cleanstr x); by apply safe_field_add.
  - intros s cb Hb. cbn [bencode_parse_map]. safe_step.
    destruct (in_buf_nonempty _ Hb) as (c & t & Ec).
    apply (safe_deref_cons _ _ _ _ _ Ec).
    destruct (Z.eqb_spec c 100) as [->|]; [|done]. cbn [negb].
    destruct (in_buf_open s 100 t) as (Ha & c' & t' & Ec' & Hl); auto.
    rewrite (proj2 (Z.eqb_neq _ _)) by done. unfold deref. rewrite Ec'. cbn [mbind res_bind].
    destruct (Z.eqb_spec c' 101) as [->|]; [|by apply IHml].
    simpl. by apply (in_buf_adv 101 t').
  - intros s r calls cb Hb. cbn [bencode_parse_map_loop]. safe_step.
    eapply safe_mono; [by apply parse_string_safe|]. intros [[nm p]| |] Hp; try done.
    safe_step. eapply safe_mono; [by apply IHv|]. intros [why|[m s2]] Hs2; [done|].
    simpl in Hs2. safe_step. destruct (in_buf_nonempty _ Hs2) as (c & t & Ec).
    apply (safe_deref_cons _ _ _ _ _ Ec).
    destruct (Z.eqb_spec c 101) as [->|]; [|by apply IHml].
    simpl. by apply (in_buf_adv 101 t).
  - intros s Hb. cbn [bencode_parse_list]. safe_step.
    destruct (in_buf_nonempty _ Hb) as (c & t & Ec).
    apply (safe_deref_cons _ _ _ _ _ Ec).
    destruct (Z.eqb_spec c 108) as [->|]; [|done]. cbn [negb].
    destruct (in_buf_open s 108 t) as (Ha & c' & t' & Ec' & Hl); auto.
    rewrite (proj2 (Z.eqb_neq _ _)) by done. unfold deref. rewrite Ec'. cbn [mbind res_bind].
    destruct (Z.eqb_spec c' 101) as [->|]; [|by apply IHll].
    simpl. by apply (in_buf_adv 101 t').
  - intros s r Hb. cbn [bencode_parse_list_loop]. safe_step.
    eapply safe_mono; [by apply IHv|]. intros [why|[m s2]] Hs2; [done|].
    simpl in Hs2. safe_step. destruct (in_buf_nonempty _ Hs2) as (c & t & Ec).
    apply (safe_deref_cons _ _ _ _ _ Ec).
    destruct (Z.eqb_spec c 101) as [->|]; [|by apply IHll].
    simpl. by apply (in_buf_adv 101 t).
Qed.

Lemma cstr_at_zero b rest : exists s, cstr_at (b ++ 0 :: rest) = Ok s /\ (length s <= length b)%nat.
Proof.
  induction b as [|c b (s & IH & Hs)]; simpl; [exists []; split; [done|simpl; lia]|].
  destruct (c =? 0); [exists []; split; [done|simpl; lia]|].
  rewrite IH. simpl. exists (c :: s). split; [done|simpl; lia].
Qed.

Lemma bencode_error_safe src why : in_buf src -> bencode_error src why <> Fault OobRead.
Proof.
  intros (b & rest & Hm & Hl & _). unfold bencode_error.
  destruct why as [[msg p]|]; [|done]. unfold strlen. rewrite Hm.
  destruct (cstr_at_zero b rest) as (s & -> & Hs). cbn [mbind res_bind].
  destruct (_ || _) eqn:E; [done|]. zbool.
  set (o := if _ <? 0 then 0 else _).
  assert (Z.to_nat o <= length b)%nat as Ho.
  { unfold o. destruct (Z.ltb_spec (cleft src - p - 10) 0); lia. }
  rewrite drop_app_le by done.
  by destruct (cstr_at_zero (drop (Z.to_nat o) b) rest) as (s' & -> & _).
Qed.

Lemma bencode_serialize_ok m :
  benc_msg_rt m -> Z.of_nat (length (benc m)) <= int_max ->
  bencode_serialize m = Ok (benc m).
Proof.
  intros H1 H2. unfold bencode_serialize.
  rewrite (serialize_r_ok m false H1 H2), (serialize_r_ok m true H1 H2).
  cbn [mbind res_bind fst snd]. by rewrite Z.ltb_irrefl.
Qed.

Lemma safe_error_report bad src why :
  bencode_error src why <> Fault bad ->
  safe (A := htsmsg * Z * list cbcall + berror) bad (fun _ => True)
    (e ← bencode_error src why; Ok (inr e)).
Proof. intros H. safe_step. by apply safe_eq. Qed.

Lemma bencode_error_terminates src why : bencode_error src why <> Fault NoFuel.
Proof.
  destruct why as [[msg p]|]; simpl; [|done]. unfold strlen.
  destruct (cstr_at (cmem src)) as [s|f] eqn:E; simpl;
    [|apply cstr_at_fault in E; congruence].
  destruct (_ || _); [done|]. destruct (cstr_at (drop _ _)) as [s'|f] eqn:E'; simpl; [done|].
  apply cstr_at_fault in E'. congruence.
Qed.

(** * Example data *)

Definition ex_torrent : htsmsg :=
  Msg false
    [HField (Some (lit "announce")) false None (HStr (lit "http://t")) None;
     HField (Some (lit "info")) false None HMap
       (Some (Msg false
          [HField (Some (lit "length")) false None (HS64 (-42)) None;
           HField (Some (lit "pieces")) false None (HBin [1; 0; 255]) None]));
     HField (Some (lit "l")) false None HList
       (Some (Msg true [HField None false None (HStr (lit "x y")) None;
                        HField None false None HList (Some (Msg true []))]))].

(** Well-formedness of concrete messages. *)
Ltac concrete_benc :=
  unfold benc_msg_rt; simpl;
  repeat first
    [ concrete_step
    | match goal with
      | |- benc_rt _ _ => apply BencRt
      | |- forall z, _ = _ -> int_rt z => intros ? [=]; subst; unfold int_rt, i64_max; lia
      | |- forall z, _ = _ -> exists _, _ => intros ? [=]
      end ].

Lemma ex_torrent_rt : benc_msg_rt ex_torrent.
Proof. concrete_benc. Qed.

(** * Theorems *)

(** C24: what [bencode_serialize] writes, [bencode_deserialize] reads back: the
    same tree up to the string/binary distinction (made by content) and doubles
    (written as integers), consuming exactly the bytes written whatever
    follows them; on the way neither function commits a fault. *)
Theorem bencode_roundtrip {cs : CharSign} (m : htsmsg) (rest : list Z)
    (Hm : benc_msg_rt m) (Hsz : Z.of_nat (length (benc m)) <= int_max - 48) :
  exists bytes calls,
    bencode_serialize m = Ok bytes /\
    bencode_deserialize (Cur (bytes ++ rest) (Z.of_nat (length bytes))) =
      Ok (inl (Msg (hm_islist m) (map norm_field (hm_fields m)),
               Z.of_nat (length bytes), calls)).
Proof.
  exists (benc m), (if hm_islist m then [] else cb_calls (hm_fields m)). split.
  { apply bencode_serialize_ok; [done|ilia]. }
  assert (length (benc m) <> 0%nat) as Hne.
  { unfold benc. simpl. lia. }
  unfold bencode_deserialize, bencode_fuel. cbn [cleft cmem].
  rewrite (proj2 (Z.eqb_neq _ _)) by lia. rewrite length_app.
  assert (Forall reads_back (hm_fields m)) as HP
    by (apply Forall_forall; intros; apply reads_back_all).
  destruct m as [il fs]. cbn [hm_islist hm_fields] in *. destruct il.
  - pose proof (fun fuel => parse_list_reads fs rest _ fuel HP Hm (Z.le_refl _) Hsz) as E.
    assert (exists t, benc (Msg true fs) ++ rest = 108 :: t) as [t Et]
      by (unfold benc; simpl; eauto).
    setoid_rewrite Et in E. rewrite Et, parse_map_other by lia. cbn [mbind res_bind].
    rewrite E by lia. cbn. eq_lia.
  - rewrite (parse_map_reads fs); [cbn; eq_lia|done..|lia].
Qed.

Lemma bencode_roundtrip_witness :
  exists bytes calls,
    bencode_serialize ex_torrent = Ok bytes /\
    @bencode_deserialize false (Cur (bytes ++ [0]) (Z.of_nat (length bytes))) =
      Ok (inl (Msg false (map (@norm_field false) (hm_fields ex_torrent)),
               Z.of_nat (length bytes), calls)).
Proof.
  apply (@bencode_roundtrip false ex_torrent [0]);
    [exact ex_torrent_rt|vm_compute; discriminate].
Defined.

(** The callback of a dictionary sees each key with exactly the bytes of
    its value, and for a sub message these are the bytes [bencode_serialize]
    makes of it alone: the hash of the "info" span identifies the torrent. *)
Theorem bencode_callback_spans {cs : CharSign} (fs : list hfield) (rest : list Z)
    (Hm : benc_msg_rt (Msg false fs))
    (Hsz : Z.of_nat (length (benc (Msg false fs))) <= int_max - 48) :
  exists bytes m n calls,
    bencode_serialize (Msg false fs) = Ok bytes /\
    bencode_deserialize (Cur (bytes ++ rest) (Z.of_nat (length bytes))) =
      Ok (inl (m, n, calls)) /\
    calls = map (fun f => (default [] (hmf_name f), benc_val f)) fs /\
    (forall f sub, f ∈ fs -> hmf_childs f = Some sub ->
       exists x, bencode_serialize sub = Ok x /\ (default [] (hmf_name f), x) ∈ calls).
Proof.
  exists (benc (Msg false fs)), (Msg false (map norm_field fs)),
    (Z.of_nat (length (benc (Msg false fs)))), (cb_calls fs).
  split; [apply bencode_serialize_ok; [done|ilia]|]. split.
  { unfold bencode_deserialize, bencode_fuel. cbn [cleft cmem].
    assert (length (benc (Msg false fs)) <> 0%nat) as Hne by (unfold benc; simpl; lia).
    rewrite (proj2 (Z.eqb_neq _ _)) by lia. rewrite length_app.
    rewrite (parse_map_reads fs); [cbn; eq_lia| |done|done|done|lia].
    apply Forall_forall. intros; apply reads_back_all. }
  split; [done|]. intros f [il gs] Hf Hsub. exists (benc (Msg il gs)).
  assert (benc_val f = benc (Msg il gs) /\ benc_msg_rt (Msg il gs)) as [Ev Hok].
  { pose proof (proj1 (Forall_forall _ _) Hm f Hf) as Hr.
    inversion Hr as [n a ns v c Hn Hv Hi Hd Hc]; subst. simpl in Hsub; subst c.
    split; [|by apply (Hc il gs)]. apply benc_val_msg.
    destruct v; simpl in Hv; auto; destruct_and?; congruence. }
  assert ((default [] (hmf_name f), benc_val f) ∈ cb_calls fs) as Hin.
  { unfold cb_calls. apply list_elem_of_In, in_map_iff. exists f.
    split; [done|by apply list_elem_of_In]. }
  rewrite Ev in Hin. split; [|done]. apply bencode_serialize_ok; [done|].
  apply list_elem_of_split in Hf as (l1 & l2 & ->).
  assert (length (benc_val f) <= length (benc_fields false (l1 ++ f :: l2)))%nat as Hle.
  { unfold benc_fields. rewrite map_app, concat_app. cbn [map concat]. unfold benc_field at 2.
    rewrite !length_app. lia. }
  rewrite Ev in Hle. unfold benc at 1 in Hsz. cbn [hm_islist hm_fields] in Hsz.
  rewrite !length_app in Hsz. ilia.
Qed.

Lemma bencode_callback_spans_witness :
  exists bytes m n calls,
    bencode_serialize ex_torrent = Ok bytes /\
    @bencode_deserialize false (Cur (bytes ++ []) (Z.of_nat (length bytes))) =
      Ok (inl (m, n, calls)) /\
    calls = map (fun f => (default [] (hmf_name f), benc_val f)) (hm_fields ex_torrent) /\
    (forall f sub, f ∈ hm_fields ex_torrent -> hmf_childs f = Some sub ->
       exists x, bencode_serialize sub = Ok x /\ (default [] (hmf_name f), x) ∈ calls).
Proof.
  apply (@bencode_callback_spans false (hm_fields ex_torrent) []);
    [exact ex_torrent_rt|vm_compute; discriminate].
Defined.

(** The reader never loops: whatever the bytes and wherever [stop] is, it
    reaches a result, an error or a fault within the modelled number of calls. *)
Theorem bencode_terminates {cs : CharSign} (src : cur) :
  bencode_deserialize src <> Fault NoFuel.
Proof.
  unfold bencode_deserialize. destruct (cleft src =? 0); [done|].
  destruct (parse_no_fuel (bencode_fuel src)) as (_ & Hm & _ & Hl & _).
  apply (safe_not _ (fun _ => True)). safe_step.
  eapply safe_mono; [apply Hm; unfold bencode_fuel, clen; lia|].
  intros [[[m p] k]| |why] _; [done| |by apply safe_error_report, bencode_error_terminates].
  safe_step. eapply safe_mono; [apply Hl; unfold bencode_fuel, clen; lia|].
  intros [[m p]| |why] _; [done|done|by apply safe_error_report, bencode_error_terminates].
Qed.

(** Memory safety.  In a buffer of [buf_create] (a NUL at [stop]) whose
    text does not end in an opening bracket, no byte is read outside the
    object, not even to format the error message. *)
Theorem bencode_memory_safe {cs : CharSign} (body : list Z)
    (Hlast : last body <> Some 100 /\ last body <> Some 108) :
  bencode_deserialize (Cur (body ++ [0]) (Z.of_nat (length body))) <> Fault OobRead.
Proof.
  set (src := Cur _ _). assert (in_buf src) as Hb by (exists body, []; naive_solver).
  unfold bencode_deserialize. destruct (cleft src =? 0); [done|].
  destruct (parse_oob (bencode_fuel src)) as (_ & Hm & _ & Hl & _).
  apply (safe_not _ (fun _ => True)). safe_step.
  eapply safe_mono; [by apply Hm|].
  intros [[[m p] k]| |why] _; [done| |by apply safe_error_report, bencode_error_safe].
  safe_step. eapply safe_mono; [by apply Hl|].
  intros [[m p]| |why] _; [done|done|by apply safe_error_report, bencode_error_safe].
Qed.

Lemma bencode_memory_safe_witness :
  @bencode_deserialize false (Cur (lit "d1:ai1e" ++ [0]) 7) <> Fault OobRead.
Proof.
  apply (@bencode_memory_safe false (lit "d1:ai1e")). split; vm_compute; discriminate.
Defined.

(** Without the side conditions the reader is not safe.  A text that ends
    in an opening bracket is read past its terminator; a text cut off after an
    element uses an error message that was never assigned; a ten digit length
    overflows; and a lone bracket is reported to have consumed two bytes. *)
Theorem bencode_defects :
  @bencode_deserialize false (Cur (lit "ll" ++ [0]) 2) = Fault OobRead /\
  @bencode_deserialize false (Cur (lit "li1e" ++ [0]) 4) = Fault Uninitialised /\
  @bencode_deserialize false (Cur (lit "l9999999999:e" ++ [0]) 13) = Fault SignedOverflow /\
  @bencode_deserialize false (Cur (lit "l" ++ [0]) 1) = Ok (inl (Msg true [], 2, [])).
Proof. vm_compute. auto. Qed.
