(* ===== verification/Extents.v ===== *)
(** The extent allocator (src/src/misc/extents.c): a pool of free segments of
    an integer range, indexed by position and by size.  The red-black trees are
    the ordered lists that an in-order walk of them yields; a segment is
    identified by its position, which the position tree keeps unique. *)
From S2P Require Import Prelude.

Local Open Scope Z_scope.

(** * State *)

(** [ef_pos] and the size behind [ef_size]; [None] for the node of a failed
    [extent_free], which is in the tree but whose [ef_size] was never set. *)
Definition freeseg : Type := Z * option Z.

Record extent_pool := Pool {
  ep_freesegs : list freeseg;
  ep_sizes : list (Z * list Z);
  ep_skel_linked : bool;
  ep_total : Z }.

(** [RB_INSERT_SORTED] on the position tree; [None] when the key exists. *)
Fixpoint fs_insert (e : freeseg) (l : list freeseg) : option (list freeseg) :=
  match l with
  | [] => Some [e]
  | f :: l' =>
      if e.1 <? f.1 then Some (e :: l)
      else if f.1 <? e.1 then
        match fs_insert e l' with Some r => Some (f :: r) | None => None end
      else None
  end.

(** [RB_NEXT] and [RB_PREV] of the node at [pos]. *)
Fixpoint fs_next (pos : Z) (l : list freeseg) : option freeseg :=
  match l with
  | [] => None
  | f :: l' => if pos <? f.1 then Some f else fs_next pos l'
  end.
Fixpoint fs_prev (pos : Z) (l : list freeseg) : option freeseg :=
  match l with
  | [] => None
  | f :: l' =>
      if f.1 <? pos then match fs_prev pos l' with Some g => Some g | None => Some f end
      else None
  end.

(** [RB_REMOVE] of the node at [pos], and an update of that node in place. *)
Definition fs_remove (pos : Z) (l : list freeseg) : list freeseg :=
  filter (fun f => f.1 <> pos) l.
Definition fs_update (pos : Z) (e : freeseg) (l : list freeseg) : list freeseg :=
  map (fun f => if f.1 =? pos then e else f) l.

(** The size tree: insert into the node of [size], created if need be; take a
    segment out of it and drop the node with its last segment. *)
Fixpoint sizes_insert (size pos : Z) (l : list (Z * list Z)) : list (Z * list Z) :=
  match l with
  | [] => [(size, [pos])]
  | (s, ps) :: l' =>
      if size <? s then (size, [pos]) :: l
      else if s <? size then (s, ps) :: sizes_insert size pos l'
      else (s, pos :: ps) :: l'
  end.

Fixpoint sizes_remove (size pos : Z) (l : list (Z * list Z)) : list (Z * list Z) :=
  match l with
  | [] => []
  | (s, ps) :: l' =>
      if s =? size then
        match filter (fun p => p <> pos) ps with
        | [] => l'
        | ps' => (s, ps') :: l'
        end
      else (s, ps) :: sizes_remove size pos l'
  end.

(** * Operations *)

Definition ef_insert (ep : extent_pool) (size pos : Z) : extent_pool :=
  Pool (fs_update pos (pos, Some size) (ep_freesegs ep))
    (sizes_insert size pos (ep_sizes ep)) (ep_skel_linked ep) (ep_total ep).

(** [ef_size] of the segment is read through a pointer that may be unset. *)
Definition ef_unlink (ep : extent_pool) (f : freeseg) : res extent_pool :=
  match f.2 with
  | None => Fault Uninitialised
  | Some size =>
      Ok (Pool (ep_freesegs ep) (sizes_remove size f.1 (ep_sizes ep))
            (ep_skel_linked ep) (ep_total ep))
  end.

Definition ef_destroy (ep : extent_pool) (f : freeseg) : res extent_pool :=
  ep ← ef_unlink ep f;
  Ok (Pool (fs_remove f.1 (ep_freesegs ep)) (ep_sizes ep) (ep_skel_linked ep) (ep_total ep)).

(** [RB_FIND_GE]: the node with the least size that is large enough. *)
Fixpoint es_find_in (size : Z) (l : list (Z * list Z)) : option (Z * list Z) :=
  match l with
  | [] => None
  | e :: l' => if size <=? e.1 then Some e else es_find_in size l'
  end.
Definition es_find (ep : extent_pool) (size : Z) : option (Z * list Z) :=
  es_find_in size (ep_sizes ep).

Definition set_freesegs (l : list freeseg) (ep : extent_pool) : extent_pool :=
  Pool l (ep_sizes ep) (ep_skel_linked ep) (ep_total ep).
Definition set_linked (ep : extent_pool) : extent_pool :=
  Pool (ep_freesegs ep) (ep_sizes ep) true (ep_total ep).

(** The segment keeps its place in both trees while its position grows, so it
    is unlinked from its size node under the position it had before. *)
Definition extent_alloc (ep : extent_pool) (size : Z) : res (Z * extent_pool) :=
  match es_find ep size with
  | None => Ok (-1, ep)
  | Some (_, []) => Fault NullDeref
  | Some (es_size, pos :: _) =>
      if es_size =? size then
        ep ← ef_destroy ep (pos, Some es_size); Ok (pos, ep)
      else
        pos' ← chk_int (pos + size);
        rem ← chk_int (es_size - size);
        let ep := set_freesegs (fs_update pos (pos', Some es_size) (ep_freesegs ep)) ep in
        ep ← ef_unlink ep (pos, Some es_size);
        Ok (pos, ef_insert ep rem pos')
  end.

Definition seg_end (f : freeseg) : res Z :=
  match f.2 with None => Fault Uninitialised | Some s => chk_int (f.1 + s) end.

(** The new node gives way to the segment [p] that ends where it begins. *)
Definition free_merge_prev (ep : extent_pool) (pos size : Z) (p : option freeseg)
    : res (Z * Z * extent_pool) :=
  match p with
  | Some p =>
      let ep := set_freesegs (fs_remove pos (ep_freesegs ep)) ep in
      size ← chk_int (size + default 0 p.2);
      ep ← ef_unlink ep p;
      Ok (p.1, size, ep)
  | None => Ok (pos, size, ep)
  end.

(** The segment [n] that begins where the new one ends goes away. *)
Definition free_merge_next (ep : extent_pool) (size : Z) (n : option freeseg)
    : res (Z * extent_pool) :=
  match n with
  | Some n =>
      match n.2 with
      | None => Fault Uninitialised
      | Some ns =>
          size ← chk_int (size + ns);
          ep ← ef_destroy ep n;
          Ok (size, ep)
      end
  | None => Ok (size, ep)
  end.

(** The node that is inserted first is the spare one; the failures -2 and -3
    return with it in the tree, and the next call would link it again. *)
Definition extent_free (ep : extent_pool) (pos size : Z) : res (Z * extent_pool) :=
  if size =? 0 then Ok (0, ep)
  else if ep_skel_linked ep then Fault AssertFailed
  else match fs_insert (pos, None) (ep_freesegs ep) with
  | None => Ok (-1, ep)
  | Some segs =>
      let ep := set_freesegs segs ep in
      let n := fs_next pos segs in
      let p := fs_prev pos segs in
      pe ← match p with None => Ok None | Some p => e ← seg_end p; Ok (Some (p, e)) end;
      if match pe with Some (_, e) => pos <? e | None => false end
      then Ok (-2, set_linked ep)
      else
      ne ← match n with None => Ok None | Some n => e ← chk_int (pos + size); Ok (Some (n, e)) end;
      if match ne with Some (n, e) => n.1 <? e | None => false end
      then Ok (-3, set_linked ep)
      else
      let n := match ne with Some (n, e) => if n.1 =? e then Some n else None | None => None end in
      let merge := match pe with Some (p, e) => if e =? pos then Some p else None | None => None end in
      r ← free_merge_prev ep pos size merge;
      let '(ef, size, ep) := r in
      r ← free_merge_next ep size n;
      let '(size, ep) := r in
      Ok (0, ef_insert ep size ef)
  end.

Definition extent_alloc_aligned (ep : extent_pool) (size alignment : Z)
    : res (Z * extent_pool) :=
  if alignment <? 2 then extent_alloc ep size
  else
    let alignment := alignment - 1 in
    want ← chk_int (size + alignment);
    match es_find ep want with
    | None => Ok (-1, ep)
    | Some (_, []) => Fault NullDeref
    | Some (es_size, pos :: _) =>
        a ← chk_int (pos + alignment);
        let rval := Z.land a (Z.lnot alignment) in
        e ← chk_int (pos + es_size);
        re ← chk_int (rval + size);
        size2 ← chk_int (e - re);
        let ep := set_freesegs (fs_update pos (re, Some es_size) (ep_freesegs ep)) ep in
        ep ← ef_unlink ep (pos, Some es_size);
        let ep := ef_insert ep size2 re in
        lead ← chk_int (rval - pos);
        r ← extent_free ep pos lead;
        Ok (rval, r.2)
    end.

Definition extent_create (start size : Z) : res extent_pool :=
  r ← extent_free (Pool [] [] false size) start size; Ok r.2.

(** Total, available and number of fragments. *)
Fixpoint extent_stats_loop (l : list freeseg) (avail fragments : Z) : res (Z * Z) :=
  match l with
  | [] => Ok (avail, fragments)
  | ef :: l' =>
      match ef.2 with
      | None => Fault Uninitialised
      | Some s =>
          avail ← chk_int (avail + s);
          fragments ← chk_int (fragments + 1);
          extent_stats_loop l' avail fragments
      end
  end.
Definition extent_stats (ep : extent_pool) : res (Z * Z * Z) :=
  r ← extent_stats_loop (ep_freesegs ep) 0 0;
  Ok (ep_total ep, r.1, r.2).

(** Nodes are destroyed from the root of the position tree, whichever that is
    ([root] picks one of the nodes); one round per node. *)
Fixpoint extent_destroy_loop (fuel : nat) (root : list freeseg -> nat) (ep : extent_pool)
    : res extent_pool :=
  match ep_freesegs ep with
  | [] => Ok ep
  | f0 :: _ =>
      match fuel with
      | O => Fault NoFuel
      | S fuel =>
          let segs := ep_freesegs ep in
          ep ← ef_destroy ep (nth (root segs mod length segs)%nat segs f0);
          extent_destroy_loop fuel root ep
      end
  end.
Definition extent_destroy (root : list freeseg -> nat) (ep : extent_pool) : res unit :=
  ep ← extent_destroy_loop (length (ep_freesegs ep)) root ep;
  match ep_sizes ep with [] => Ok tt | _ => Fault AssertFailed end.

(** * Invariant and abstraction *)

Definition emb (segs : list (Z * Z)) : list freeseg :=
  map (fun x => (x.1, Some x.2)) segs.

(** Segments in order, not empty, inside [lo, hi), and with a gap between any
    two: adjacent free segments are always merged. *)
Definition seg_before (x y : Z * Z) : Prop := x.1 + x.2 < y.1.
Definition seg_in (lo hi : Z) (x : Z * Z) : Prop := lo <= x.1 /\ 0 < x.2 /\ x.1 + x.2 <= hi.
Definition segs_ok (lo hi : Z) (segs : list (Z * Z)) : Prop :=
  StronglySorted seg_before segs /\ Forall (seg_in lo hi) segs.

(** The segments the size tree holds. *)
Definition entries (l : list (Z * list Z)) : list (Z * Z) :=
  concat (map (fun e => map (fun p => (p, e.1)) e.2) l).
Definition sizes_ok (l : list (Z * list Z)) : Prop :=
  StronglySorted (fun a b => a.1 < b.1) l /\ Forall (fun e => e.2 <> []) l.

(** The two trees describe the same set of free segments. *)
Definition pool_ok (lo hi : Z) (ep : extent_pool) (segs : list (Z * Z)) : Prop :=
  ep_freesegs ep = emb segs /\ segs_ok lo hi segs /\
  sizes_ok (ep_sizes ep) /\ entries (ep_sizes ep) ≡ₚ segs /\ ep_skel_linked ep = false.

Definition covers (segs : list (Z * Z)) (x : Z) : Prop :=
  exists p s, (p, s) ∈ segs /\ p <= x < p + s.

(** Positions and sizes are plain [int]s without overflow in this range. *)
Definition range_ok (lo hi : Z) : Prop := 0 <= lo /\ hi <= int_max.

(** A client of the pool and the blocks it holds.  It frees only what it was
    given, as a whole, and asks for blocks of positive size. *)
Record client := Client { c_pool : extent_pool; c_live : list (Z * Z) }.

Inductive client_step : client -> client -> Prop :=
| StepAlloc ep live size pos ep' :
    0 < size -> extent_alloc ep size = Ok (pos, ep') -> pos <> -1 ->
    client_step (Client ep live) (Client ep' ((pos, size) :: live))
| StepAllocFail ep live size ep' :
    0 < size -> extent_alloc ep size = Ok (-1, ep') ->
    client_step (Client ep live) (Client ep' live)
| StepFree ep live1 pos size live2 r ep' :
    extent_free ep pos size = Ok (r, ep') ->
    client_step (Client ep (live1 ++ (pos, size) :: live2)) (Client ep' (live1 ++ live2)).

(** No two blocks of the client share a position. *)
Definition disjoint_blocks (x y : Z * Z) : Prop := x.1 + x.2 <= y.1 \/ y.1 + y.2 <= x.1.

(** What is not free is exactly what the client holds. *)
Definition client_inv (lo hi : Z) (c : client) : Prop :=
  exists segs, pool_ok lo hi (c_pool c) segs /\ Forall (seg_in lo hi) (c_live c) /\
    StronglySorted disjoint_blocks (c_live c) /\
    forall x, lo <= x < hi -> covers segs x <-> ~ covers (c_live c) x.

(** * Lemmas: the position tree *)

Definition around (pos : Z) (a b : list freeseg) : Prop :=
  Forall (fun f => f.1 < pos) a /\ Forall (fun f => pos < f.1) b.

Lemma fs_insert_around pos e a b :
  around pos a b -> fs_insert (pos, e) (a ++ b) = Some (a ++ (pos, e) :: b).
Proof.
  intros [Ha Hb]. induction Ha as [|f a Hf _ IH]; simpl.
  - destruct Hb as [|f b Hf _]; [done|]. simpl. by rewrite (proj2 (Z.ltb_lt _ _)).
  - rewrite (proj2 (Z.ltb_ge _ _)), (proj2 (Z.ltb_lt _ _)) by lia. by rewrite IH.
Qed.

Lemma fs_insert_taken pos e v a b :
  around pos a b -> fs_insert (pos, e) (a ++ (pos, v) :: b) = None.
Proof.
  intros [Ha Hb]. induction Ha as [|f a Hf _ IH]; simpl.
  - by rewrite Z.ltb_irrefl.
  - rewrite (proj2 (Z.ltb_ge _ _)), (proj2 (Z.ltb_lt _ _)) by lia. by rewrite IH.
Qed.

Lemma fs_next_around pos e a b :
  around pos a b -> fs_next pos (a ++ (pos, e) :: b) = head b.
Proof.
  intros [Ha Hb]. induction Ha as [|f a Hf _ IH]; simpl.
  - rewrite Z.ltb_irrefl. destruct Hb as [|f b Hf _]; [done|]. simpl.
    by rewrite (proj2 (Z.ltb_lt _ _)).
  - by rewrite (proj2 (Z.ltb_ge _ _)) by lia.
Qed.

Lemma fs_prev_around pos e a b :
  around pos a b -> fs_prev pos (a ++ (pos, e) :: b) = last a.
Proof.
  intros [Ha Hb]. induction Ha as [|f a Hf _ IH]; simpl.
  - by rewrite Z.ltb_irrefl.
  - rewrite (proj2 (Z.ltb_lt _ _)) by done. rewrite IH. destruct a; simpl; [done|].
    destruct (last _) eqn:E; [done|]. by apply last_None in E.
Qed.

Lemma fs_remove_around pos e a b :
  around pos a b -> fs_remove pos (a ++ (pos, e) :: b) = a ++ b.
Proof.
  intros [Ha Hb]. unfold fs_remove. rewrite filter_app, filter_cons_False by (simpl; lia).
  rewrite !filter_all; [done| |]; eapply Forall_impl; eauto; simpl; lia.
Qed.

Lemma map_id_Forall {A} (g : A -> A) l : Forall (fun x => g x = x) l -> map g l = l.
Proof. induction 1; simpl; congruence. Qed.

Lemma fs_update_around pos e e' a b :
  around pos a b -> fs_update pos e' (a ++ (pos, e) :: b) = a ++ e' :: b.
Proof.
  intros [Ha Hb]. unfold fs_update. rewrite map_app. cbn [map fst]. rewrite Z.eqb_refl.
  rewrite !map_id_Forall; [done| |]; eapply Forall_impl; eauto; simpl; intros f Hf;
    by rewrite (proj2 (Z.eqb_neq _ _)) by lia.
Qed.

(** * Lemmas: the size tree *)

Lemma entries_cons s ps l : entries ((s, ps) :: l) = map (fun p => (p, s)) ps ++ entries l.
Proof. done. Qed.

Lemma elem_of_entries p s l : (p, s) ∈ entries l <-> exists ps, (s, ps) ∈ l /\ p ∈ ps.
Proof.
  induction l as [|[s' ps'] l IH]; [set_solver|].
  rewrite entries_cons, elem_of_app, IH.
  change (map (fun p => (p, s')) ps') with ((fun p => (p, s')) <$> ps').
  rewrite list_elem_of_fmap. set_solver.
Qed.

Lemma sizes_insert_entries size pos l :
  entries (sizes_insert size pos l) ≡ₚ (pos, size) :: entries l.
Proof.
  induction l as [|[s ps] l IH]; [done|]. simpl.
  destruct (Z.ltb_spec size s); [done|]. destruct (Z.ltb_spec s size).
  - rewrite !entries_cons, IH. by rewrite Permutation_middle.
  - assert (s = size) as -> by lia. done.
Qed.

Lemma sizes_insert_ok size pos l : sizes_ok l -> sizes_ok (sizes_insert size pos l).
Proof.
  intros [Hs Hne]. split.
  - induction Hs as [|[s ps] l Hs IH Hl]; simpl.
    { by repeat constructor. }
    destruct (Z.ltb_spec size s) as [Hlt|Hge]; [|destruct (Z.ltb_spec s size) as [Hlt'|Hge']].
    + constructor; [by constructor|]. constructor; [done|].
      eapply Forall_impl; [exact Hl|]. simpl. lia.
    + inversion_clear Hne. constructor; [auto|]. clear -Hl Hlt'.
      induction Hl as [|[s' ps'] l Hs' Hl IH]; simpl in *; [by repeat constructor|].
      repeat case_match; constructor; simpl; auto; by constructor.
    + by constructor.
  - clear Hs. induction Hne as [|[s ps] l Hps Hl IH]; simpl in *; [by repeat constructor|].
    destruct (size <? s); [|destruct (s <? size)]; repeat constructor; auto.
Qed.

Lemma sizes_remove_nochange size pos l :
  Forall (fun e => e.1 <> size) l -> sizes_remove size pos l = l.
Proof.
  induction 1 as [|[s ps] l Hs _ IH]; simpl in *; [done|].
  by rewrite (proj2 (Z.eqb_neq _ _)), IH.
Qed.

Lemma filter_ne_perm (p : Z) ps :
  NoDup ps -> p ∈ ps -> p :: filter (fun q => q <> p) ps ≡ₚ ps.
Proof.
  intros Hnd Hin. apply list_elem_of_split in Hin as (l1 & l2 & ->).
  apply NoDup_app in Hnd as (Hn1 & Hd & Hn2). apply NoDup_cons in Hn2 as (Hp & Hn2).
  rewrite filter_app, filter_cons_False by auto.
  rewrite !filter_all; [by rewrite Permutation_middle| |]; apply Forall_forall; set_solver.
Qed.

Lemma sizes_remove_entries size pos l :
  sizes_ok l -> NoDup (entries l) -> (pos, size) ∈ entries l ->
  (pos, size) :: entries (sizes_remove size pos l) ≡ₚ entries l.
Proof.
  intros [Hs _] Hnd Hin. induction Hs as [|[s ps] l Hs IH Hl]; [set_solver|].
  rewrite entries_cons in Hnd, Hin. apply NoDup_app in Hnd as (Hn1 & Hd & Hn2).
  simpl. destruct (Z.eqb_spec s size) as [->|Hne].
  - assert (pos ∈ ps) as Hp.
    { apply elem_of_app in Hin as [Hin|Hin].
      - apply list_elem_of_In, in_map_iff in Hin as (x & [= ->] & Hx).
        by apply list_elem_of_In.
      - apply elem_of_entries in Hin as (ps' & Hps & _). rewrite Forall_forall in Hl.
        specialize (Hl _ Hps). simpl in Hl. lia. }
    assert (NoDup ps) as Hps by (by apply NoDup_fmap_1 in Hn1).
    pose proof (filter_ne_perm pos ps Hps Hp) as Hperm. rewrite entries_cons.
    rewrite <- Hperm at 2. destruct (filter _ ps) as [|q qs]; done.
  - rewrite entries_cons, Permutation_middle, IH; [by rewrite entries_cons|done|].
    apply elem_of_app in Hin as [Hin|Hin]; [|done].
    apply list_elem_of_In, in_map_iff in Hin as (x & [= -> ->] & Hx). done.
Qed.

Lemma sizes_remove_Forall (P : Z * list Z -> Prop) size pos l :
  (forall s ps ps', P (s, ps) -> P (s, ps')) -> Forall P l -> Forall P (sizes_remove size pos l).
Proof.
  intros HP. induction 1 as [|[s ps] l' Hx Hl' IH]; simpl; [constructor|].
  destruct (s =? size); [|by constructor].
  destruct (filter _ ps); [done|]. constructor; [by eapply HP|done].
Qed.

Lemma sizes_remove_ok size pos l : sizes_ok l -> sizes_ok (sizes_remove size pos l).
Proof.
  intros [Hs Hne]. split.
  - clear Hne. induction Hs as [|[s ps] l Hs IH Hl]; simpl; [constructor|].
    destruct (s =? size).
    + destruct (filter _ ps); [done|]. by constructor.
    + constructor; [done|]. by apply sizes_remove_Forall.
  - clear Hs. induction Hne as [|[s ps] l Hx Hl IH]; simpl; [constructor|].
    destruct (s =? size); [|by constructor].
    destruct (filter _ ps) eqn:E; [done|]. by constructor.
Qed.

(** Best fit: the size found is the least that is large enough. *)
Lemma es_find_in_spec size l :
  sizes_ok l ->
  match es_find_in size l with
  | Some (s, ps) => (s, ps) ∈ l /\ size <= s /\
      forall p s', (p, s') ∈ entries l -> size <= s' -> s <= s'
  | None => forall p s', (p, s') ∈ entries l -> s' < size
  end.
Proof.
  intros [Hs Hne]. induction Hs as [|[s ps] l Hs IH Hl]; simpl; [set_solver|].
  inversion_clear Hne. destruct (Z.leb_spec size s) as [Hle|Hgt].
  - split_and!; [set_solver|done|]. intros p s' Hin _.
    apply elem_of_entries in Hin as (qs & Hqs & _).
    apply elem_of_cons in Hqs as [[= -> ->]|Hqs]; [lia|].
    rewrite Forall_forall in Hl. specialize (Hl _ Hqs). simpl in Hl. lia.
  - specialize (IH ltac:(done)). destruct (es_find_in size l) as [[s1 ps1]|].
    + destruct IH as (H1 & H2 & H3). split_and!; [set_solver|done|].
      intros p s' Hin Hs'. apply elem_of_entries in Hin as (qs & Hqs & Hp).
      apply elem_of_cons in Hqs as [[= -> ->]|Hqs]; [lia|].
      apply (H3 p); [|done]. apply elem_of_entries. eauto.
    + intros p s' Hin. apply elem_of_entries in Hin as (qs & Hqs & Hp).
      apply elem_of_cons in Hqs as [[= -> ->]|Hqs]; [lia|].
      apply (IH p). apply elem_of_entries. eauto.
Qed.

(** * Lemmas: well-formed pools *)

Lemma segs_ok_mid lo hi a p s b :
  segs_ok lo hi (a ++ (p, s) :: b) <->
  segs_ok lo hi a /\ segs_ok lo hi b /\ seg_in lo hi (p, s) /\
  Forall (fun x => seg_before x (p, s)) a /\ Forall (seg_before (p, s)) b.
Proof.
  unfold segs_ok. rewrite sorted_app, Forall_app, Forall_cons. split.
  - intros ((Ha & Hb & Hab) & Hia & His & Hib). inversion_clear Hb.
    split_and!; auto. apply Forall_forall. intros x Hx. apply Hab; set_solver.
  - intros ((Ha & Hia) & (Hb & Hib) & His & Hpa & Hpb). split_and!; auto.
    + by constructor.
    + intros x y Hx Hy. rewrite Forall_forall in Hpa, Hpb, Hib.
      apply elem_of_cons in Hy as [->|Hy]; [by apply Hpa|].
      specialize (Hpa _ Hx). specialize (Hpb _ Hy). unfold seg_before, seg_in in *. simpl in *. lia.
Qed.

Lemma segs_ok_app lo hi a b :
  segs_ok lo hi (a ++ b) ->
  segs_ok lo hi a /\ segs_ok lo hi b /\ forall x y, x ∈ a -> y ∈ b -> seg_before x y.
Proof. unfold segs_ok. rewrite sorted_app, Forall_app. naive_solver. Qed.

Lemma segs_ok_around lo hi a p s b :
  segs_ok lo hi (a ++ (p, s) :: b) -> around p (emb a) (emb b).
Proof.
  intros (Ha & Hb & Hs & Hpa & Hpb)%segs_ok_mid. destruct Ha as [_ Ha], Hb as [_ Hb].
  split; apply Forall_map; apply Forall_forall; intros x Hx;
    rewrite Forall_forall in Hpa, Hpb, Ha, Hb; unfold seg_before, seg_in in *; simpl in *.
  - specialize (Hpa _ Hx). specialize (Ha _ Hx). lia.
  - specialize (Hpb _ Hx). lia.
Qed.

Lemma segs_ok_nodup lo hi segs : segs_ok lo hi segs -> NoDup segs.
Proof.
  intros [Hs Hin]. induction Hs as [|x l Hs IH Hl]; [constructor|].
  inversion_clear Hin. constructor; [|auto]. intros Hx.
  rewrite Forall_forall in Hl. specialize (Hl _ Hx). unfold seg_before, seg_in in *. lia.
Qed.

(** Where a position falls in the pool. *)
Lemma segs_split lo hi segs pos :
  segs_ok lo hi segs ->
  (exists a s b, segs = a ++ (pos, s) :: b) \/
  (exists a b, segs = a ++ b /\ around pos (emb a) (emb b)).
Proof.
  intros Hok. induction segs as [|[p s] l IH].
  { right. exists [], []. repeat constructor. }
  destruct (Z.lt_trichotomy p pos) as [Hlt|[->|Hgt]].
  - pose proof (segs_ok_app _ _ [(p, s)] l Hok) as (_ & Hl & _).
    destruct (IH Hl) as [(a & s' & b & ->)|(a & b & -> & Ha & Hb)].
    + left. by exists ((p, s) :: a), s', b.
    + right. exists ((p, s) :: a), b. split; [done|]. split; [by constructor|done].
  - left. by exists [], s, l.
  - right. exists [], ((p, s) :: l). split; [done|]. split; [constructor|].
    constructor; [done|]. pose proof (segs_ok_around _ _ [] p s l Hok) as [_ Hl].
    eapply Forall_impl; [exact Hl|]. simpl. lia.
Qed.

(** A pool whose node at [pos] is in the position tree only. *)
Definition pool_open (ep : extent_pool) (a : list (Z * Z)) (pos : Z) (b : list (Z * Z)) : Prop :=
  (exists e, ep_freesegs ep = emb a ++ (pos, e) :: emb b) /\ around pos (emb a) (emb b) /\
  sizes_ok (ep_sizes ep) /\ entries (ep_sizes ep) ≡ₚ a ++ b /\ ep_skel_linked ep = false.

Lemma emb_mid a p s b : emb (a ++ (p, s) :: b) = emb a ++ (p, Some s) :: emb b.
Proof. unfold emb. by rewrite map_app. Qed.

Lemma ef_insert_open lo hi ep a pos size b :
  pool_open ep a pos b -> segs_ok lo hi (a ++ (pos, size) :: b) ->
  pool_ok lo hi (ef_insert ep size pos) (a ++ (pos, size) :: b).
Proof.
  intros ((e & Hf) & Har & Hs & Hp & Hl) Hok. unfold pool_ok, ef_insert. simpl.
  rewrite Hf, fs_update_around, emb_mid by done. split_and!; auto using sizes_insert_ok.
  by rewrite sizes_insert_entries, Hp, Permutation_middle.
Qed.

Lemma sizes_remove_perm l p s a b :
  sizes_ok l -> entries l ≡ₚ a ++ (p, s) :: b -> NoDup (a ++ (p, s) :: b) ->
  entries (sizes_remove s p l) ≡ₚ a ++ b.
Proof.
  intros Hl Hp Hnd. apply (Permutation_cons_inv (a := (p, s))).
  rewrite sizes_remove_entries; [by rewrite Hp, Permutation_middle|done| |].
  - by rewrite Hp.
  - rewrite Hp. set_solver.
Qed.

Lemma pool_ok_unlink lo hi ep a p s b :
  pool_ok lo hi ep (a ++ (p, s) :: b) ->
  exists ep', ef_unlink ep (p, Some s) = Ok ep' /\ ep_freesegs ep' = ep_freesegs ep /\
    sizes_ok (ep_sizes ep') /\ entries (ep_sizes ep') ≡ₚ a ++ b /\ ep_skel_linked ep' = false.
Proof.
  intros (Hf & Hok & Hs & Hp & Hl). eexists. split; [reflexivity|]. simpl.
  split_and!; auto using sizes_remove_ok.
  eapply sizes_remove_perm; eauto using segs_ok_nodup.
Qed.

Lemma ef_destroy_ok lo hi ep a p s b :
  pool_ok lo hi ep (a ++ (p, s) :: b) ->
  exists ep', ef_destroy ep (p, Some s) = Ok ep' /\ pool_ok lo hi ep' (a ++ b).
Proof.
  intros Hep. pose proof Hep as (Hf & Hok & _).
  destruct (pool_ok_unlink _ _ _ _ _ _ _ Hep) as (ep' & Hu & Hf' & Hs & Hp & Hl).
  unfold ef_destroy. rewrite Hu. eexists. split; [reflexivity|]. unfold pool_ok. simpl.
  rewrite Hf', Hf, emb_mid, fs_remove_around by eauto using segs_ok_around.
  apply segs_ok_mid in Hok as (Ha & Hb & Hi & Hpa & Hpb).
  split_and!; auto. { unfold emb. by rewrite map_app. }
  destruct Ha as [Ha Hia], Hb as [Hb Hib]. split; [|by apply Forall_app].
  apply sorted_app. split_and!; auto. intros x y Hx Hy.
  rewrite Forall_forall in Hpa, Hpb. specialize (Hpa _ Hx). specialize (Hpb _ Hy).
  unfold seg_before, seg_in in *. simpl in *. lia.
Qed.

Lemma set_freesegs_id ep : set_freesegs (ep_freesegs ep) ep = ep.
Proof. by destruct ep. Qed.

(** Cutting [size] off the front of a free segment. *)
Definition cut (a : list (Z * Z)) (p s size : Z) (b : list (Z * Z)) : list (Z * Z) :=
  if s =? size then a ++ b else a ++ (p + size, s - size) :: b.

Lemma segs_ok_cut lo hi a p s size b :
  0 < size <= s -> segs_ok lo hi (a ++ (p, s) :: b) -> segs_ok lo hi (cut a p s size b).
Proof.
  intros Hsz Hok. pose proof (segs_ok_mid lo hi a p s b) as [H _].
  destruct (H Hok) as (Ha & Hb & Hi & Hpa & Hpb). unfold cut. destruct (Z.eqb_spec s size).
  - destruct Ha as [Ha Hia], Hb as [Hb Hib]. split; [|by apply Forall_app].
    apply sorted_app. split_and!; auto. intros x y Hx Hy.
    rewrite Forall_forall in Hpa, Hpb. specialize (Hpa _ Hx). specialize (Hpb _ Hy).
    unfold seg_before, seg_in in *. simpl in *. lia.
  - apply segs_ok_mid. unfold seg_in, seg_before in *. simpl in *. split_and!; auto; try lia;
      [eapply Forall_impl; [exact Hpa|]|eapply Forall_impl; [exact Hpb|]]; simpl; lia.
Qed.

Lemma pool_cut lo hi ep a p s size rest b :
  range_ok lo hi -> pool_ok lo hi ep (a ++ (p, s) :: b) -> 0 < size -> 0 < rest ->
  size + rest = s ->
  exists ep', ef_unlink (set_freesegs (fs_update p (p + size, Some s) (ep_freesegs ep)) ep)
                (p, Some s) = Ok ep' /\
    pool_ok lo hi (ef_insert ep' rest (p + size)) (a ++ (p + size, rest) :: b).
Proof.
  intros Hr Hep Hsz Hrest Hsum. pose proof Hep as (Hf & Hok & Hs & Hp & Hl).
  eexists. split; [reflexivity|]. apply ef_insert_open.
  - split_and!; simpl; auto using sizes_remove_ok.
    + rewrite Hf, emb_mid, fs_update_around by eauto using segs_ok_around. eauto.
    + apply (segs_ok_around lo hi a _ rest). pose proof (segs_ok_cut lo hi a p s size b) as H.
      unfold cut in H. rewrite (proj2 (Z.eqb_neq _ _)) in H by lia.
      replace rest with (s - size) by lia. apply H; [lia|done].
    + eapply sizes_remove_perm; eauto using segs_ok_nodup.
  - pose proof (segs_ok_cut lo hi a p s size b) as H.
    unfold cut in H. rewrite (proj2 (Z.eqb_neq _ _)) in H by lia.
    replace rest with (s - size) by lia. apply H; [lia|done].
Qed.

(** What the size tree finds, in terms of the free segments. *)
Lemma es_find_spec lo hi ep segs size :
  pool_ok lo hi ep segs ->
  match es_find ep size with
  | Some (s, []) => False
  | Some (s, p :: _) => exists a b, segs = a ++ (p, s) :: b /\ size <= s /\
      Forall (fun x => size <= x.2 -> s <= x.2) segs
  | None => Forall (fun x => x.2 < size) segs
  end.
Proof.
  intros (Hf & Hok & Hs & Hp & Hl). pose proof (es_find_in_spec size _ Hs) as H.
  unfold es_find. destruct (es_find_in size (ep_sizes ep)) as [[s [|p ps]]|].
  - destruct H as (Hin & _). destruct Hs as [_ Hne]. rewrite Forall_forall in Hne.
    by apply (Hne _ Hin).
  - destruct H as (Hin & Hle & Hbest).
    assert ((p, s) ∈ segs) as Hps.
    { rewrite <- Hp. apply elem_of_entries. exists (p :: ps). set_solver. }
    apply list_elem_of_split in Hps as (a & b & ->). exists a, b. split_and!; auto.
    apply Forall_forall. intros [p' s'] Hx. apply (Hbest p'). by rewrite Hp.
  - apply Forall_forall. intros [p' s'] Hx. apply (H p'). by rewrite Hp.
Qed.

(** * Allocation *)

Lemma extent_alloc_cases lo hi ep segs size :
  range_ok lo hi -> pool_ok lo hi ep segs -> 0 < size ->
  (Forall (fun x => x.2 < size) segs /\ extent_alloc ep size = Ok (-1, ep)) \/
  exists a p s b ep', segs = a ++ (p, s) :: b /\ size <= s /\
    Forall (fun x => size <= x.2 -> s <= x.2) segs /\
    extent_alloc ep size = Ok (p, ep') /\ pool_ok lo hi ep' (cut a p s size b).
Proof.
  intros Hr Hep Hsz. pose proof (es_find_spec _ _ _ _ size Hep) as H. unfold extent_alloc.
  destruct (es_find ep size) as [[s [|p ps]]|]; [done| |by left].
  destruct H as (a & b & -> & Hle & Hbest). right. exists a, p, s, b.
  pose proof Hep as (_ & Hok & _). apply segs_ok_mid in Hok as (_ & _ & Hi & _).
  unfold seg_in, range_ok in *. simpl in Hi. unfold cut. destruct (Z.eqb_spec s size) as [->|Hne].
  - destruct (ef_destroy_ok _ _ _ _ _ _ _ Hep) as (ep' & -> & Hep'). exists ep'. done.
  - rewrite !chk_int_Ok by ilia. cbn [res_bind mbind].
    destruct (pool_cut lo hi ep a p s size (s - size) b) as (ep' & Hu & Hep'); auto; try lia.
    cbv zeta. rewrite Hu. eexists. by split_and!.
Qed.

(** * Freeing *)

Definition free_of (segs : list (Z * Z)) (pos size : Z) : Prop :=
  forall x, pos <= x < pos + size -> ~ covers segs x.

Lemma covers_app a b x : covers (a ++ b) x <-> covers a x \/ covers b x.
Proof. unfold covers. set_solver. Qed.
Lemma covers_cons p s l x : covers ((p, s) :: l) x <-> p <= x < p + s \/ covers l x.
Proof.
  unfold covers. split.
  - intros (p' & s' & [[= -> ->]|Hin]%elem_of_cons & Hx); [by left|right; eauto].
  - intros [Hx|(p' & s' & Hin & Hx)]; [exists p, s|exists p', s']; split; auto; set_solver.
Qed.

Lemma covers_nil x : ~ covers [] x.
Proof. unfold covers. set_solver. Qed.
Lemma covers_join p s t x :
  0 <= s -> 0 <= t -> p <= x < p + (s + t) <-> p <= x < p + s \/ p + s <= x < p + s + t.
Proof. lia. Qed.

Lemma head_emb b : head (emb b) = option_map (fun x => (x.1, Some x.2)) (head b).
Proof. by destruct b. Qed.
Lemma last_emb a : last (emb a) = option_map (fun x => (x.1, Some x.2)) (last a).
Proof. unfold emb. change (map ?f ?l) with (f <$> l). by rewrite fmap_last. Qed.

(** Whether the new block [pos, end_) joins the segment after it. *)
Definition next_at (end_ : Z) (b : list (Z * Z)) : option freeseg :=
  match b with
  | (np, ns) :: _ => if np =? end_ then Some (np, Some ns) else None
  | [] => None
  end.

Lemma free_merge_next_ok lo hi ep a pos size b :
  range_ok lo hi -> pool_open ep a pos b -> segs_ok lo hi (a ++ b) ->
  Forall (fun x => seg_before x (pos, size)) a -> seg_in lo hi (pos, size) ->
  match b with (np, _) :: _ => pos + size <= np | [] => True end ->
  exists size' ep' b', free_merge_next ep size (next_at (pos + size) b) = Ok (size', ep') /\
    pool_ok lo hi (ef_insert ep' size' pos) (a ++ (pos, size') :: b') /\
    forall x, covers ((pos, size') :: b') x <-> covers ((pos, size) :: b) x.
Proof.
  intros Hr Hop Hok Ha Hi Hb. pose proof (segs_ok_app _ _ _ _ Hok) as (Hoka & Hokb & _).
  assert (forall np ns b', b = (np, ns) :: b' -> pos + size < np ->
    Forall (seg_before (pos, size)) b) as Hall.
  { intros np ns b' -> Hnp. pose proof (segs_ok_mid lo hi [] np ns b') as [H _].
    destruct (H Hokb) as (_ & _ & Hni & _ & Hpb). unfold seg_in, seg_before in *. simpl in *.
    constructor; [done|]. eapply Forall_impl; [exact Hpb|]. simpl. lia. }
  assert (Forall (seg_before (pos, size)) b -> exists size' ep' b',
    Ok (size, ep) = Ok (size', ep') /\
    pool_ok lo hi (ef_insert ep' size' pos) (a ++ (pos, size') :: b') /\
    forall x, covers ((pos, size') :: b') x <-> covers ((pos, size) :: b) x) as Hno.
  { intros Hpb. exists size, ep, b. split; [done|]. split; [|done].
    apply ef_insert_open; [done|]. by apply segs_ok_mid. }
  destruct b as [|[np ns] b']; simpl; [by apply Hno|].
  destruct (Z.eqb_spec np (pos + size)) as [->|Hne]; [|apply Hno; eapply (Hall np); eauto; lia].
  clear Hno Hall. pose proof (segs_ok_mid lo hi [] (pos + size) ns b') as [H _].
  destruct (H Hokb) as (_ & Hokb' & Hni & _ & Hpb). clear H.
  destruct Hop as ((e & Hf) & Har & Hs & Hp & Hl).
  assert (segs_ok lo hi (a ++ (pos, size + ns) :: b')) as Hfin.
  { unfold seg_in, range_ok, seg_before in *. simpl in *. apply segs_ok_mid.
    unfold seg_in, seg_before. simpl. split_and!; auto; try lia.
    eapply Forall_impl; [exact Hpb|]. simpl. lia. }
  unfold seg_in, range_ok in *. simpl in *. rewrite chk_int_Ok by ilia. cbn [res_bind mbind].
  eexists (size + ns), _, b'. split; [reflexivity|]. split.
  - apply ef_insert_open; [|done]. split_and!; simpl; auto using sizes_remove_ok.
    + exists e. rewrite Hf. cbn [emb map fst snd].
      rewrite cons_middle, app_assoc, fs_remove_around; [by rewrite <- app_assoc|].
      pose proof (segs_ok_around _ _ _ _ _ _ Hok) as [Hx Hy].
      split; [|done]. apply Forall_app. split; [done|].
      apply Forall_singleton. simpl. lia.
    + by apply (segs_ok_around lo hi a pos (size + ns) b').
    + eapply sizes_remove_perm; eauto using segs_ok_nodup.
  - intros x. rewrite !covers_cons.
    rewrite (covers_join pos size ns x) by lia. tauto.
Qed.

(** Whether the new block at [pos] joins the segment before it. *)
Definition prev_at (pos : Z) (a : list (Z * Z)) : option freeseg :=
  match last a with
  | Some (p, s) => if p + s =? pos then Some (p, Some s) else None
  | None => None
  end.

Lemma free_merge_prev_ok lo hi ep a pos size b :
  range_ok lo hi -> pool_open ep a pos b -> segs_ok lo hi (a ++ b) ->
  seg_in lo hi (pos, size) ->
  match last a with Some (p, s) => p + s <= pos | None => True end ->
  exists pos' size' ep' a', free_merge_prev ep pos size (prev_at pos a) = Ok (pos', size', ep') /\
    pool_open ep' a' pos' b /\ segs_ok lo hi (a' ++ b) /\
    Forall (fun x => seg_before x (pos', size')) a' /\ seg_in lo hi (pos', size') /\
    pos' + size' = pos + size /\
    forall x, covers (a' ++ [(pos', size')]) x <-> covers (a ++ [(pos, size)]) x.
Proof.
  intros Hr Hop Hok Hi Hlast. pose proof (segs_ok_app _ _ _ _ Hok) as (Hoka & Hokb & _).
  assert (Forall (fun x => seg_before x (pos, size)) a -> prev_at pos a = None ->
    exists pos' size' ep' a', free_merge_prev ep pos size (prev_at pos a) = Ok (pos', size', ep') /\
    pool_open ep' a' pos' b /\ segs_ok lo hi (a' ++ b) /\
    Forall (fun x => seg_before x (pos', size')) a' /\ seg_in lo hi (pos', size') /\
    pos' + size' = pos + size /\
    forall x, covers (a' ++ [(pos', size')]) x <-> covers (a ++ [(pos, size)]) x) as Hno.
  { intros Ha ->. exists pos, size, ep, a. by split_and!. }
  destruct a as [|[p s] a' _] using rev_ind; [by apply Hno|].
  unfold prev_at in *. rewrite last_snoc in *.
  pose proof (segs_ok_mid lo hi a' p s []) as [H _].
  destruct (H Hoka) as (Hoka' & _ & Hpi & Hpa & _). clear H.
  unfold range_ok, seg_in in *. simpl in Hpi, Hi.
  destruct (Z.eqb_spec (p + s) pos) as [<-|Hne].
  - clear Hno. destruct Hop as ((e & Hf) & Har & Hs & Hp & Hl).
    rewrite <- app_assoc in Hok, Hp. simpl in Hok, Hp.
    pose proof (segs_ok_mid lo hi a' p s b) as [H _].
    destruct (H Hok) as (_ & _ & _ & _ & Hpb). clear H.
    assert (segs_ok lo hi (a' ++ b)) as Hok'.
    { pose proof (segs_ok_cut lo hi a' p s s b ltac:(lia) Hok) as H. unfold cut in H.
      by rewrite Z.eqb_refl in H. }
    cbn [free_merge_prev fst snd from_option default id]. rewrite chk_int_Ok by ilia.
    eexists p, (size + s), _, a'. split; [reflexivity|]. simpl. split_and!; auto; try lia.
    + split_and!; simpl; auto using sizes_remove_ok.
      * exists (Some s). rewrite Hf, fs_remove_around by done.
        unfold emb. rewrite map_app, <- app_assoc. done.
      * by apply (segs_ok_around lo hi a' p s b).
      * eapply sizes_remove_perm; eauto using segs_ok_nodup.
    + intros x. rewrite !covers_app, !covers_cons, (Z.add_comm size s).
      rewrite (covers_join p s size x) by lia. tauto.
  - apply Hno; [|done]. apply Forall_app. split.
    + eapply Forall_impl; [exact Hpa|]. unfold seg_before. simpl. lia.
    + apply Forall_singleton. unfold seg_before. simpl. lia.
Qed.

Lemma covers_elem p s l x : (p, s) ∈ l -> p <= x < p + s -> covers l x.
Proof. unfold covers. eauto. Qed.

(** The calls that come before the merges, in terms of the free segments
    before and after the position. *)
Lemma extent_free_unfold lo hi ep a b pos size :
  range_ok lo hi -> pool_ok lo hi ep (a ++ b) -> around pos (emb a) (emb b) ->
  lo <= pos -> 0 < size -> pos + size <= hi ->
  extent_free ep pos size =
    let segs := emb a ++ (pos, None) :: emb b in
    if match last a with Some (p, s) => pos <? p + s | None => false end
    then Ok (-2, set_linked (set_freesegs segs ep))
    else if match b with (n, _) :: _ => n <? pos + size | [] => false end
    then Ok (-3, set_linked (set_freesegs segs ep))
    else
      r ← free_merge_prev (set_freesegs segs ep) pos size (prev_at pos a);
      let '(ef, size', ep) := r in
      r ← free_merge_next ep size' (next_at (pos + size) b);
      let '(size', ep) := r in
      Ok (0, ef_insert ep size' ef).
Proof.
  intros Hr (Hf & Hok & Hs & Hp & Hl) Har Hlo Hsz Hhi. unfold extent_free.
  rewrite (proj2 (Z.eqb_neq size 0)), Hl, Hf by lia.
  assert (emb (a ++ b) = emb a ++ emb b) as -> by (unfold emb; by rewrite map_app).
  rewrite fs_insert_around by done. cbv zeta.
  rewrite fs_prev_around, fs_next_around, last_emb, head_emb by done.
  unfold range_ok in Hr. destruct Hok as [_ Hin]. apply Forall_app in Hin as [Hia Hib].
  unfold prev_at. destruct (last a) as [[p s]|] eqn:Ela; cbn [option_map fst snd].
  - apply last_Some in Ela as (a' & ->). apply Forall_app in Hia as [_ Hps].
    rewrite Forall_singleton in Hps. unfold seg_in in Hps. simpl in Hps. unfold seg_end. cbn [fst snd].
    rewrite !chk_int_Ok by ilia. rewrite !ok_bind.
    destruct (pos <? p + s); [done|].
    destruct b as [|[n ns] b']; cbn [head option_map fst snd]; [done|].
    rewrite ?chk_int_Ok by ilia. rewrite !ok_bind. cbn [fst snd].
    destruct (n <? pos + size); done.
  - rewrite !ok_bind. destruct b as [|[n ns] b']; cbn [head option_map fst snd]; [done|].
    rewrite ?chk_int_Ok by ilia. rewrite !ok_bind. cbn [fst snd].
    destruct (n <? pos + size); done.
Qed.

(** A block that is not free yet goes back into the pool. *)
Lemma extent_free_ok lo hi ep segs pos size :
  range_ok lo hi -> pool_ok lo hi ep segs -> seg_in lo hi (pos, size) -> free_of segs pos size ->
  exists ep' segs', extent_free ep pos size = Ok (0, ep') /\ pool_ok lo hi ep' segs' /\
    forall x, covers segs' x <-> pos <= x < pos + size \/ covers segs x.
Proof.
  intros Hr Hep Hi Hfree. pose proof Hep as (_ & Hok & _).
  unfold seg_in in Hi. simpl in Hi.
  destruct (segs_split lo hi segs pos Hok) as [(a & s & b & ->)|(a & b & -> & Har)].
  { apply segs_ok_mid in Hok as (_ & _ & Hps & _). unfold seg_in in Hps. simpl in Hps.
    exfalso. apply (Hfree pos); [lia|]. apply (covers_elem pos s); [set_solver|lia]. }
  rewrite (extent_free_unfold lo hi _ a b) by (auto; lia). cbv zeta.
  assert (match last a with Some (p, s) => p + s <= pos | None => True end) as Hla.
  { destruct (last a) as [[p s]|] eqn:Ela; [|done]. apply last_Some in Ela as (a' & ->).
    destruct Har as [Har _]. unfold emb in Har. rewrite map_app, Forall_app in Har.
    destruct Har as [_ Hp]. cbn [map] in Hp. rewrite Forall_singleton in Hp. simpl in Hp.
    destruct (Z.le_gt_cases (p + s) pos) as [|Hgt]; [done|].
    exfalso. apply (Hfree pos); [lia|]. apply (covers_elem p s); [set_solver|lia]. }
  assert (match b with (n, _) :: _ => pos + size <= n | [] => True end) as Hhb.
  { destruct b as [|[n ns] b']; [done|]. destruct Har as [_ Hb]. inversion_clear Hb.
    simpl in *. destruct (Z.le_gt_cases (pos + size) n) as [|Hgt]; [done|].
    exfalso. apply (Hfree n); [lia|]. apply segs_ok_mid in Hok as (_ & _ & Hns & _).
    unfold seg_in in Hns. simpl in Hns. apply (covers_elem n ns); [set_solver|lia]. }
  replace (match last a with Some (p, s) => pos <? p + s | None => false end) with false
    by (destruct (last a) as [[p s]|]; [by rewrite (proj2 (Z.ltb_ge _ _))|done]).
  replace (match b with (n, _) :: _ => n <? pos + size | [] => false end) with false
    by (destruct b as [|[n ns] b']; [done|by rewrite (proj2 (Z.ltb_ge _ _))]).
  assert (pool_open (set_freesegs (emb a ++ (pos, None) :: emb b) ep) a pos b) as Hop.
  { destruct Hep as (_ & _ & Hs & Hp & Hl). split_and!; simpl; eauto. }
  destruct (free_merge_prev_ok lo hi _ a pos size b Hr Hop Hok Hi Hla)
    as (pos' & size' & ep' & a' & -> & Hop' & Hok' & Hba & Hi' & Hend & Hcov).
  cbn [res_bind mbind]. rewrite <- Hend.
  destruct (free_merge_next_ok lo hi ep' a' pos' size' b)
    as (size2 & ep2 & b2 & -> & Hep2 & Hcov2); auto.
  { destruct b as [|[n ns] b']; [done|lia]. }
  eexists _, _. split; [reflexivity|]. split; [exact Hep2|].
  intros x. specialize (Hcov x). specialize (Hcov2 x).
  rewrite covers_app, Hcov2, covers_cons, covers_app. rewrite !covers_app, !covers_cons in Hcov.
  pose proof (covers_nil x). rewrite Hend in *. tauto.
Qed.

(** * Canonical pools *)

(** The segments are determined by the positions they cover. *)
Lemma covers_lb lo hi p s l x :
  segs_ok lo hi ((p, s) :: l) -> covers l x -> p + s < x.
Proof.
  intros Hok (p' & s' & Hin & Hx). pose proof (segs_ok_mid lo hi [] p s l) as [H _].
  destruct (H Hok) as (_ & _ & _ & _ & Hpb). rewrite Forall_forall in Hpb.
  specialize (Hpb _ Hin). unfold seg_before in Hpb. simpl in Hpb. lia.
Qed.

Lemma segs_ok_cons lo hi p s l :
  segs_ok lo hi ((p, s) :: l) -> segs_ok lo hi l /\ 0 < s /\ lo <= p /\ p + s <= hi.
Proof.
  intros Hok. pose proof (segs_ok_mid lo hi [] p s l) as [H _].
  destruct (H Hok) as (_ & Hl & Hi & _). unfold seg_in in Hi. simpl in Hi. split_and!; lia || done.
Qed.

Lemma segs_ok_canonical lo hi l1 l2 :
  segs_ok lo hi l1 -> segs_ok lo hi l2 -> (forall x, covers l1 x <-> covers l2 x) -> l1 = l2.
Proof.
  revert l2. induction l1 as [|[p s] l1 IH]; intros [|[p' s'] l2] H1 H2 Hc; [done| | |].
  - destruct (segs_ok_cons _ _ _ _ _ H2) as (_ & Hs & _). exfalso.
    apply (covers_nil p'), Hc, covers_cons. lia.
  - destruct (segs_ok_cons _ _ _ _ _ H1) as (_ & Hs & _). exfalso.
    apply (covers_nil p), Hc, covers_cons. lia.
  - destruct (segs_ok_cons _ _ _ _ _ H1) as (Hl1 & Hs1 & _).
    destruct (segs_ok_cons _ _ _ _ _ H2) as (Hl2 & Hs2 & _).
    pose proof (fun x => covers_lb _ _ _ _ _ x H1) as Hb1.
    pose proof (fun x => covers_lb _ _ _ _ _ x H2) as Hb2.
    setoid_rewrite covers_cons in Hc.
    assert (p = p') as <-.
    { destruct (proj1 (Hc p)) as [Hx|Hx%Hb2]; [lia| |]; destruct (proj2 (Hc p')) as [Hy|Hy%Hb1]; lia. }
    assert (s = s') as <-.
    { destruct (Z.lt_trichotomy s s') as [Hlt|[|Hlt]]; [|done|].
      - destruct (proj2 (Hc (p + s))) as [Hy|Hy%Hb1]; lia.
      - destruct (proj1 (Hc (p + s'))) as [Hy|Hy%Hb2]; lia. }
    f_equal. apply IH; auto. intros x. specialize (Hc x). specialize (Hb1 x). specialize (Hb2 x).
    split; intros Hx.
    + destruct (proj1 Hc (or_intror Hx)) as [Hy|]; [|done]. specialize (Hb1 Hx). lia.
    + destruct (proj2 Hc (or_intror Hx)) as [Hy|]; [|done]. specialize (Hb2 Hx). lia.
Qed.

Lemma covers_cut lo hi a p s size b x :
  0 < size <= s -> segs_ok lo hi (a ++ (p, s) :: b) ->
  covers (cut a p s size b) x <-> covers (a ++ (p, s) :: b) x /\ ~ (p <= x < p + size).
Proof.
  intros Hsz Hok.
  assert (forall y, covers a y -> y < p) as Ha.
  { intros y (p' & s' & Hin & Hy). apply segs_ok_mid in Hok as (_ & _ & _ & Hpa & _).
    rewrite Forall_forall in Hpa. specialize (Hpa _ Hin). unfold seg_before in Hpa. simpl in Hpa. lia. }
  assert (forall y, covers b y -> p + s < y) as Hb.
  { intros y. apply (covers_lb lo hi). by apply segs_ok_app in Hok as (_ & Hb & _). }
  specialize (Ha x). specialize (Hb x). unfold cut. destruct (Z.eqb_spec s size) as [->|Hne].
  - rewrite !covers_app, covers_cons. split; [|tauto].
    intros [Hx|Hx]; (split; [tauto|]); [specialize (Ha Hx)|specialize (Hb Hx)]; lia.
  - rewrite !covers_app, !covers_cons. split.
    + intros [Hx|[Hx|Hx]]; [specialize (Ha Hx)| |specialize (Hb Hx)]; (split; [|lia]);
        [tauto|right; left; lia|tauto].
    + intros [[Hx|[Hx|Hx]] Hn]; [tauto|right; left; lia|tauto].
Qed.

Lemma extent_alloc_ok lo hi ep segs size :
  range_ok lo hi -> pool_ok lo hi ep segs -> 0 < size ->
  (Forall (fun x => x.2 < size) segs /\ extent_alloc ep size = Ok (-1, ep)) \/
  exists pos s ep' segs', (pos, s) ∈ segs /\ size <= s /\
    Forall (fun x => size <= x.2 -> s <= x.2) segs /\
    extent_alloc ep size = Ok (pos, ep') /\ pool_ok lo hi ep' segs' /\
    forall x, covers segs' x <-> covers segs x /\ ~ (pos <= x < pos + size).
Proof.
  intros Hr Hep Hsz.
  destruct (extent_alloc_cases _ _ _ _ _ Hr Hep Hsz) as [H|(a & p & s & b & ep' & -> & Hle & Hb & He & Hep')];
    [by left|right].
  exists p, s, ep', (cut a p s size b). split_and!; auto; [set_solver|].
  intros x. apply (covers_cut lo hi); [lia|]. apply Hep.
Qed.

(** A block that overlaps free space is refused; the pool is then the caller's
    loss, since the node of codes -2 and -3 stays in the tree. *)
Lemma extent_free_overlap lo hi ep segs pos size :
  range_ok lo hi -> pool_ok lo hi ep segs -> seg_in lo hi (pos, size) ->
  (exists x, pos <= x < pos + size /\ covers segs x) ->
  exists r ep', extent_free ep pos size = Ok (r, ep') /\ r < 0 /\ (ep' = ep \/ ep_skel_linked ep' = true).
Proof.
  intros Hr Hep Hi (x & Hx & p & s & Hin & Hps). pose proof Hep as (Hf & Hok & _ & _ & Hl).
  unfold seg_in in Hi. simpl in Hi.
  destruct (segs_split lo hi segs pos Hok) as [(a & s' & b & ->)|(a & b & -> & Har)].
  { exists (-1), ep. unfold extent_free. rewrite (proj2 (Z.eqb_neq _ _)), Hl, Hf, emb_mid by lia.
    rewrite fs_insert_taken by eauto using segs_ok_around. split_and!; [done|lia|by left]. }
  rewrite (extent_free_unfold lo hi _ a b) by (auto; lia). cbv zeta.
  destruct (match last a with Some (p, s) => pos <? p + s | None => false end) eqn:El.
  { eexists _, _. split_and!; [done|lia|by right]. }
  destruct (match b with (n, _) :: _ => n <? pos + size | [] => false end) eqn:Eb.
  { eexists _, _. split_and!; [done|lia|by right]. }
  exfalso. apply elem_of_app in Hin as [Hin|Hin].
  - destruct a as [|[q t] a' _] using rev_ind; [set_solver|]. rewrite last_snoc in El.
    apply Z.ltb_ge in El. rewrite <- app_assoc in Hok. apply segs_ok_mid in Hok as (_ & _ & Hq & Hpa & _).
    apply elem_of_app in Hin as [Hin|[= -> ->]%list_elem_of_singleton]; [|lia].
    rewrite Forall_forall in Hpa. specialize (Hpa _ Hin). unfold seg_in, seg_before in *. simpl in *. lia.
  - destruct b as [|[q t] b']; [set_solver|]. apply Z.ltb_ge in Eb.
    apply segs_ok_mid in Hok as (_ & _ & Hq & _ & Hpb).
    apply elem_of_cons in Hin as [[= -> ->]|Hin]; [lia|].
    rewrite Forall_forall in Hpb. specialize (Hpb _ Hin). unfold seg_in, seg_before in *. simpl in *. lia.
Qed.

Lemma extent_create_ok start size :
  0 <= start -> 0 < size -> start + size <= int_max ->
  exists ep, extent_create start size = Ok ep /\
    pool_ok start (start + size) ep [(start, size)] /\ ep_total ep = size.
Proof.
  intros Hs Hz Hm. unfold extent_create, extent_free. cbn [ep_skel_linked ep_freesegs].
  rewrite (proj2 (Z.eqb_neq size 0)) by lia. cbn [fs_insert fs_next fs_prev fst].
  rewrite !Z.ltb_irrefl. eexists. split; [reflexivity|]. unfold pool_ok, ef_insert, fs_update. simpl.
  rewrite Z.eqb_refl. split_and!; try done.
  - split; [by repeat constructor|]. constructor; [|constructor]. unfold seg_in. simpl. lia.
  - split; [by repeat constructor|]. by repeat constructor.
Qed.

(** * Clients *)

Lemma covers_range lo hi l x : Forall (seg_in lo hi) l -> covers l x -> lo <= x < hi.
Proof.
  intros Hl (p & s & Hin & Hx). rewrite Forall_forall in Hl. specialize (Hl _ Hin).
  unfold seg_in in Hl. simpl in Hl. lia.
Qed.

Lemma client_inv_alloc lo hi ep live size pos ep' :
  range_ok lo hi -> client_inv lo hi (Client ep live) -> 0 < size ->
  extent_alloc ep size = Ok (pos, ep') -> pos <> -1 ->
  client_inv lo hi (Client ep' ((pos, size) :: live)).
Proof.
  intros Hr (segs & Hep & Hin & Hd & Hc) Hsz Ha Hpos. simpl in *.
  destruct (extent_alloc_ok _ _ _ _ _ Hr Hep Hsz)
    as [[_ He]|(pos' & s & ep2 & segs' & Hps & Hle & _ & He & Hep' & Hc')]; [congruence|].
  rewrite He in Ha. injection Ha as -> ->.
  pose proof Hep as (_ & (_ & Hsegs) & _). rewrite Forall_forall in Hsegs.
  pose proof (Hsegs _ Hps) as Hpos'. unfold seg_in in Hpos'. simpl in Hpos'.
  assert (forall x, pos <= x < pos + size -> covers segs x) as Hblk.
  { intros x Hx. apply (covers_elem pos s); [done|lia]. }
  exists segs'. simpl. split_and!; [done| | |].
  - constructor; [|done]. unfold seg_in. simpl. lia.
  - constructor; [done|]. apply Forall_forall. intros [q t] Hq.
    rewrite Forall_forall in Hin. pose proof (Hin _ Hq) as Hqi. unfold seg_in in Hqi.
    unfold disjoint_blocks. simpl in *.
    destruct (Z.le_gt_cases (pos + size) q); [by left|].
    destruct (Z.le_gt_cases (q + t) pos); [by right|]. exfalso.
    apply (Hc (Z.max pos q)); [lia|apply Hblk; lia|]. apply (covers_elem q t); [done|lia].
  - intros x Hx. rewrite Hc', Hc, covers_cons by done. tauto.
Qed.

Lemma client_free lo hi ep live1 pos size live2 :
  range_ok lo hi -> client_inv lo hi (Client ep (live1 ++ (pos, size) :: live2)) ->
  exists ep', extent_free ep pos size = Ok (0, ep') /\
    client_inv lo hi (Client ep' (live1 ++ live2)).
Proof.
  intros Hr (segs & Hep & Hin & Hd & Hc). simpl in *.
  apply Forall_app in Hin as [Hin1 Hin2]. inversion_clear Hin2 as [|? ? Hi Hin2'].
  apply sorted_app in Hd as (Hd1 & Hd2 & Hd12). inversion_clear Hd2 as [|? ? Hd2' Hall].
  pose proof Hi as Hi'. unfold seg_in in Hi'. simpl in Hi'.
  assert (forall x, pos <= x < pos + size -> ~ covers (live1 ++ live2) x) as Hno.
  { intros x Hx (q & t & Hq & Hqx). apply elem_of_app in Hq as [Hq|Hq].
    - specialize (Hd12 _ (pos, size) Hq ltac:(set_solver)).
      unfold disjoint_blocks in Hd12. simpl in Hd12. lia.
    - rewrite Forall_forall in Hall. specialize (Hall _ Hq).
      unfold disjoint_blocks in Hall. simpl in Hall. lia. }
  destruct (extent_free_ok lo hi ep segs pos size Hr Hep Hi) as (ep' & segs' & He & Hep' & Hc').
  { intros x Hx Hcov. apply (Hc x) in Hcov; [|lia]. apply Hcov, covers_app. right.
    apply covers_cons. by left. }
  exists ep'. split; [done|]. exists segs'. simpl. split_and!; [done| | |].
  - by apply Forall_app.
  - apply sorted_app. split_and!; auto. intros x y Hx Hy. apply Hd12; set_solver.
  - intros x Hx. rewrite Hc', (Hc x Hx). rewrite covers_app, covers_cons.
    specialize (Hno x). rewrite covers_app in Hno.
    destruct (Z.le_gt_cases pos x), (Z.lt_ge_cases x (pos + size)); rewrite covers_app;
      intuition lia.
Qed.

Lemma client_inv_step lo hi c c' :
  range_ok lo hi -> client_inv lo hi c -> client_step c c' -> client_inv lo hi c'.
Proof.
  intros Hr Hinv Hstep. inversion Hstep; subst.
  - by eapply client_inv_alloc.
  - destruct Hinv as (segs & Hep & Hrest). simpl in *.
    destruct (extent_alloc_ok _ _ _ _ _ Hr Hep H)
      as [[_ He]|(pos' & s & ep2 & segs' & Hps & _ & _ & He & _)]; [|].
    + rewrite He in H0. injection H0 as <-. by exists segs.
    + rewrite He in H0. injection H0 as -> ->. destruct Hep as (_ & (_ & Hsegs) & _).
      rewrite Forall_forall in Hsegs. specialize (Hsegs _ Hps). unfold seg_in, range_ok in *.
      simpl in *. lia.
  - destruct (client_free _ _ _ _ _ _ _ Hr Hinv) as (ep2 & He & Hinv').
    rewrite He in H. by injection H as <- <-.
Qed.

Lemma client_inv_steps lo hi c c' :
  range_ok lo hi -> client_inv lo hi c -> rtc client_step c c' -> client_inv lo hi c'.
Proof. intros Hr Hc. induction 1; eauto using client_inv_step. Qed.

Lemma client_inv_init start size ep :
  pool_ok start (start + size) ep [(start, size)] ->
  client_inv start (start + size) (Client ep []).
Proof.
  intros Hep. exists [(start, size)]. split_and!; simpl; [done|constructor|constructor|].
  intros x Hx. rewrite covers_cons. split; [intros _; apply covers_nil|by left].
Qed.

Lemma client_inv_empty lo hi ep :
  lo < hi -> client_inv lo hi (Client ep []) -> pool_ok lo hi ep [(lo, hi - lo)].
Proof.
  intros Hlt (segs & Hep & _ & _ & Hc). simpl in Hc.
  assert (segs = [(lo, hi - lo)]) as ->; [|done].
  pose proof Hep as (_ & Hok & _). apply (segs_ok_canonical lo hi); [done| |].
  - split; [by repeat constructor|]. constructor; [|constructor]. unfold seg_in. simpl. lia.
  - intros x. rewrite covers_cons. split.
    + intros Hx. left. destruct Hok as [_ Hin]. apply (covers_range _ _ _ _ Hin) in Hx. lia.
    + intros [Hx|Hx]; [|by apply covers_nil in Hx]. apply Hc; [lia|]. apply covers_nil.
Qed.

(** * Aligned allocation *)

Lemma align_up pos k :
  0 <= k -> let rval := Z.land (pos + (2 ^ k - 1)) (Z.lnot (2 ^ k - 1)) in
  pos <= rval < pos + 2 ^ k /\ rval mod 2 ^ k = 0.
Proof.
  intros Hk rval. subst rval.
  rewrite <- Z.ldiff_land. replace (2 ^ k - 1) with (Z.ones k) by (rewrite Z.ones_equiv; lia).
  rewrite Z.ldiff_ones_r, Z.shiftl_mul_pow2, Z.shiftr_div_pow2, Z.ones_equiv by done.
  assert (0 < 2 ^ k) as Hp by (by apply Z.pow_pos_nonneg).
  split; [|by apply Z.mod_mul; lia].
  pose proof (Z.div_mod (pos + Z.pred (2 ^ k)) (2 ^ k) ltac:(lia)).
  pose proof (Z.mod_pos_bound (pos + Z.pred (2 ^ k)) (2 ^ k) Hp). lia.
Qed.

(** A segment of exactly [size + alignment - 1] may leave a segment of size
    0 behind, so it is excluded here. *)
Lemma extent_alloc_aligned_ok lo hi ep segs size k :
  range_ok lo hi -> pool_ok lo hi ep segs -> 0 < size -> 1 <= k ->
  size + (2 ^ k - 1) <= int_max -> Forall (fun x => x.2 <> size + (2 ^ k - 1)) segs ->
  (Forall (fun x => x.2 < size + (2 ^ k - 1)) segs /\
     extent_alloc_aligned ep size (2 ^ k) = Ok (-1, ep)) \/
  exists pos s rval ep' segs', (pos, s) ∈ segs /\ pos <= rval /\ rval + size <= pos + s /\
    rval mod 2 ^ k = 0 /\ extent_alloc_aligned ep size (2 ^ k) = Ok (rval, ep') /\
    pool_ok lo hi ep' segs' /\
    forall x, covers segs' x <-> covers segs x /\ ~ (rval <= x < rval + size).
Proof.
  intros Hr Hep Hsz Hk Hmax Hne.
  assert (2 <= 2 ^ k) as Hp. { change 2 with (2 ^ 1) at 1. apply Z.pow_le_mono_r; lia. }
  unfold extent_alloc_aligned. rewrite (proj2 (Z.ltb_ge _ _)) by lia. cbv zeta.
  rewrite chk_int_Ok, ok_bind by ilia.
  pose proof (es_find_spec _ _ _ _ (size + (2 ^ k - 1)) Hep) as H.
  destruct (es_find ep _) as [[s [|pos ps]]|]; [done| |by left].
  destruct H as (a & b & -> & Hle & _). right. pose proof Hep as (_ & Hok & _).
  pose proof (segs_ok_mid lo hi a pos s b) as [Hmid _]. destruct (Hmid Hok) as (_ & _ & Hi & _).
  unfold seg_in in Hi. simpl in Hi. pose proof Hr as Hr'. unfold range_ok in Hr'.
  rewrite Forall_app, Forall_cons in Hne. destruct Hne as (_ & Hne & _). simpl in Hne.
  destruct (align_up pos k ltac:(lia)) as [Hrv Hmod].
  rewrite (chk_int_Ok (pos + (2 ^ k - 1))), ok_bind by ilia.
  remember (Z.land (pos + (2 ^ k - 1)) (Z.lnot (2 ^ k - 1))) as rval eqn:Heq. clear Heq.
  rewrite (chk_int_Ok (pos + s)), ok_bind, (chk_int_Ok (rval + size)), ok_bind by ilia.
  rewrite (chk_int_Ok (pos + s - (rval + size))), ok_bind by ilia.
  destruct (pool_cut lo hi ep a pos s (rval + size - pos) (pos + s - (rval + size)) b)
    as (ep1 & Hu & Hep1); auto; try lia.
  pose proof (fun x => covers_cut lo hi a pos s (rval + size - pos) b x ltac:(lia) Hok) as Hcut.
  unfold cut in Hcut. rewrite (proj2 (Z.eqb_neq _ _)) in Hcut by lia.
  replace (s - (rval + size - pos)) with (pos + s - (rval + size)) in Hcut by lia.
  replace (pos + (rval + size - pos)) with (rval + size) in * by lia.
  rewrite Hu, ok_bind, (chk_int_Ok (rval - pos)), ok_bind by ilia.
  assert (forall x, pos <= x < rval + size -> covers (a ++ (pos, s) :: b) x) as Hblk.
  { intros x Hx. apply (covers_elem pos s); [set_solver|lia]. }
  destruct (Z.eq_dec rval pos) as [->|Hlead].
  - exists pos, s, pos, (ef_insert ep1 (pos + s - (pos + size)) (pos + size)),
      (a ++ (pos + size, pos + s - (pos + size)) :: b).
    split_and!; [set_solver|lia|lia|done| |exact Hep1|exact Hcut].
    by rewrite Z.sub_diag.
  - destruct (extent_free_ok lo hi _ _ pos (rval - pos) Hr Hep1) as (ep2 & segs' & He & Hep2 & Hc).
    { unfold seg_in. simpl. lia. }
    { intros x Hx Hcov. apply Hcut in Hcov. lia. }
    exists pos, s, rval, ep2, segs'. split_and!; [set_solver|lia|lia|done| |exact Hep2|].
    { by rewrite He, ok_bind. }
    intros x. rewrite Hc, Hcut. specialize (Hblk x).
    replace (pos + (rval - pos)) with rval by lia. split.
    + intros [Hx|[Hx Hn]]; (split; [|lia]); [apply Hblk; lia|done].
    + intros [Hx Hn]. destruct (decide (pos <= x < rval)); [by left|right]. split; [done|lia].
Qed.

(** * Statistics and destruction *)

Definition total_size (segs : list (Z * Z)) : Z := foldr (fun x acc => x.2 + acc) 0 segs.

Lemma total_size_bound lo hi segs :
  lo <= hi -> segs_ok lo hi segs -> Z.of_nat (length segs) <= total_size segs <= hi - lo.
Proof.
  intros Hle. revert lo Hle. induction segs as [|[p s] l IH]; intros lo Hle Hok; simpl; [lia|].
  destruct (segs_ok_cons _ _ _ _ _ Hok) as (Hl & Hs & Hlo & Hhi).
  assert (segs_ok (p + s) hi l) as Hl'.
  { pose proof (segs_ok_mid lo hi [] p s l) as [Hmid _].
    destruct (Hmid Hok) as (_ & (Hss & Hin) & _ & _ & Hpb). split; [done|].
    apply Forall_forall. intros x Hx. rewrite Forall_forall in Hin, Hpb.
    specialize (Hin _ Hx). specialize (Hpb _ Hx). unfold seg_in, seg_before in *. simpl in *. lia. }
  specialize (IH (p + s) ltac:(lia) Hl'). lia.
Qed.

Lemma extent_stats_loop_ok segs avail n :
  Forall (fun x => 0 < x.2) segs -> 0 <= avail -> 0 <= n ->
  avail + total_size segs <= int_max -> n + Z.of_nat (length segs) <= int_max ->
  extent_stats_loop (emb segs) avail n = Ok (avail + total_size segs, n + Z.of_nat (length segs)).
Proof.
  revert avail n. induction segs as [|[p s] l IH]; intros avail n Hpos Ha Hn Hs Hl.
  { simpl. by rewrite !Z.add_0_r. }
  inversion_clear Hpos. cbn [emb map extent_stats_loop fst snd]. cbn [fst snd total_size foldr length] in *.
  assert (0 <= total_size l).
  { clear -H0. induction H0 as [|x l Hx _ IH]; simpl; lia. }
  fold (total_size l) in *.
  rewrite (chk_int_Ok (avail + s)), ok_bind, (chk_int_Ok (n + 1)), ok_bind by ilia.
  change (map _ l) with (emb l). rewrite IH; auto; try lia. do 2 f_equal; lia.
Qed.

Lemma extent_destroy_loop_ok lo hi root fuel ep segs :
  pool_ok lo hi ep segs -> length segs = fuel ->
  exists ep', extent_destroy_loop fuel root ep = Ok ep' /\ pool_ok lo hi ep' [].
Proof.
  revert ep segs. induction fuel as [|fuel IH]; intros ep segs Hep Hlen.
  { destruct segs; [|done]. pose proof Hep as (Hf & _). exists ep. simpl. by rewrite Hf. }
  pose proof Hep as (Hf & _). cbn [extent_destroy_loop]. rewrite Hf.
  destruct (emb segs) as [|f0 fs] eqn:Ef; [by destruct segs|]. rewrite <- Ef in *. cbv zeta.
  set (i := (root (emb segs) mod length (emb segs))%nat).
  assert (i < length segs)%nat as Hi.
  { subst i. unfold emb at 2. rewrite length_map. apply Nat.mod_upper_bound. by rewrite Hlen. }
  destruct (nth_error segs i) as [[p s]|] eqn:Hn; [|apply nth_error_None in Hn; lia].
  assert (nth i (emb segs) f0 = (p, Some s)) as ->.
  { apply nth_error_nth. unfold emb. by rewrite nth_error_map, Hn. }
  apply nth_error_split in Hn as (a & b & Hab & _). rewrite Hab in Hep, Hlen.
  destruct (ef_destroy_ok _ _ _ _ _ _ _ Hep) as (ep' & -> & Hep'). rewrite ok_bind.
  apply (IH _ _ Hep'). rewrite length_app in *. simpl in Hlen. lia.
Qed.

(** * Properties *)

(** C28: any client that allocates blocks and frees blocks it holds, in any
    order, keeps the pool sound: the two trees agree, the free segments are
    merged, in order and inside the range, the blocks it holds never overlap,
    and a position is free exactly when no block holds it.  In every state it
    reaches an allocation returns, a free of a held block returns 0, and once
    everything is freed the pool is the single segment it began as. *)
Theorem extents_client_safe start size ep0 c :
  0 <= start -> 0 < size -> start + size <= int_max ->
  extent_create start size = Ok ep0 -> rtc client_step (Client ep0 []) c ->
  client_inv start (start + size) c /\
  (forall n, 0 < n -> exists r, extent_alloc (c_pool c) n = Ok r) /\
  (forall b, b ∈ c_live c -> exists ep', extent_free (c_pool c) b.1 b.2 = Ok (0, ep')) /\
  (c_live c = [] -> ep_freesegs (c_pool c) = [(start, Some size)]).
Proof.
  intros Hs Hz Hm Hc Hsteps. assert (range_ok start (start + size)) as Hr by (split; lia).
  destruct (extent_create_ok start size Hs Hz Hm) as (ep & He & Hep & _).
  rewrite Hc in He. injection He as <-.
  assert (client_inv start (start + size) c) as Hinv.
  { eapply client_inv_steps; eauto using client_inv_init. }
  split; [done|]. destruct c as [ep live]. split_and!; cbn [c_pool c_live].
  - intros n Hn. destruct Hinv as (segs & Hp & _). cbn [c_pool] in Hp.
    destruct (extent_alloc_ok _ _ _ _ _ Hr Hp Hn) as [[_ ->]|(pos & s & ep' & _ & _ & _ & _ & -> & _)]; eauto.
  - intros [p s] (l1 & l2 & ->)%list_elem_of_split.
    destruct (client_free _ _ _ _ _ _ _ Hr Hinv) as (ep' & He & _). eauto.
  - intros ->. destruct (client_inv_empty start (start + size) ep ltac:(lia) Hinv) as (-> & _).
    simpl. do 3 f_equal. lia.
Qed.

Lemma extents_client_safe_witness :
  exists ep0 c, extent_create 0 100 = Ok ep0 /\ rtc client_step (Client ep0 []) c /\
    c_live c = [(30, 20); (0, 30)] /\ client_inv 0 100 c.
Proof.
  eexists _, _. split; [vm_compute; reflexivity|].
  assert (rtc client_step (Client (Pool [(0, Some 100)] [(100, [0])] false 100) [])
    (Client (Pool [(50, Some 50)] [(50, [50])] false 100) [(30, 20); (0, 30)])) as H.
  { eapply rtc_l; [apply (StepAlloc _ _ 30); [lia|vm_compute; reflexivity|lia]|].
    eapply rtc_l; [apply (StepAlloc _ _ 20); [lia|vm_compute; reflexivity|lia]|]. constructor. }
  split; [exact H|]. split; [reflexivity|].
  exact (proj1 (extents_client_safe 0 100 _ _ ltac:(lia) ltac:(lia) ltac:(vm_compute; discriminate)
    eq_refl H)).
Defined.

(** An allocation takes the block from the front of a smallest free segment
    that is large enough, and makes exactly the block unavailable; it returns
    -1, the pool unchanged, exactly when no segment is large enough. *)
Theorem extent_alloc_best_fit lo hi ep segs size :
  range_ok lo hi -> pool_ok lo hi ep segs -> 0 < size ->
  (Forall (fun x => x.2 < size) segs /\ extent_alloc ep size = Ok (-1, ep)) \/
  exists pos s ep' segs', (pos, s) ∈ segs /\ size <= s /\
    Forall (fun x => size <= x.2 -> s <= x.2) segs /\
    extent_alloc ep size = Ok (pos, ep') /\ pool_ok lo hi ep' segs' /\
    forall x, covers segs' x <-> covers segs x /\ ~ (pos <= x < pos + size).
Proof. apply extent_alloc_ok. Qed.

(** A pool with two free segments around a block. *)
Definition two_segs : extent_pool :=
  Pool [(0, Some 30); (50, Some 10)] [(10, [50]); (30, [0])] false 60.

Lemma two_segs_ok : pool_ok 0 60 two_segs [(0, 30); (50, 10)].
Proof.
  split_and!; try reflexivity.
  - split; repeat constructor; unfold seg_in; simpl; lia.
  - split; repeat constructor; simpl; done || lia.
  - simpl. apply Permutation_swap.
Defined.

Lemma extent_alloc_best_fit_witness :
  exists ep', extent_alloc two_segs 8 = Ok (50, ep').
Proof.
  destruct (extent_alloc_best_fit 0 60 two_segs _ 8 ltac:(split; vm_compute; discriminate)
    two_segs_ok ltac:(lia)) as [[H _]|(pos & s & ep' & segs' & _ & _ & _ & H & _)].
  - exfalso. inversion_clear H. simpl in *. lia.
  - vm_compute in H. injection H as <- _. eexists. vm_compute. reflexivity.
Defined.

(** C29: freeing a block of the range that is in use returns 0 and adds exactly
    its positions to the free segments, which are merged with their neighbours;
    freeing a block that overlaps free space is refused with a negative code. *)
Theorem extent_free_coalesces lo hi ep segs pos size :
  range_ok lo hi -> pool_ok lo hi ep segs -> seg_in lo hi (pos, size) ->
  (free_of segs pos size ->
     exists ep' segs', extent_free ep pos size = Ok (0, ep') /\ pool_ok lo hi ep' segs' /\
       forall x, covers segs' x <-> pos <= x < pos + size \/ covers segs x) /\
  ((exists x, pos <= x < pos + size /\ covers segs x) ->
     exists r ep', extent_free ep pos size = Ok (r, ep') /\ r < 0 /\
       (ep' = ep \/ ep_skel_linked ep' = true)).
Proof. intros Hr Hep Hi. split; [by apply (extent_free_ok lo hi)|by apply (extent_free_overlap lo hi)]. Qed.

Lemma extent_free_coalesces_witness :
  exists ep', extent_free two_segs 30 20 = Ok (0, ep') /\ ep_freesegs ep' = [(0, Some 60)].
Proof.
  destruct (extent_free_coalesces 0 60 two_segs _ 30 20 ltac:(split; vm_compute; discriminate)
    two_segs_ok ltac:(split_and!; simpl; lia)) as [H _].
  destruct H as (ep' & segs' & H & _).
  { intros x Hx (p & s & Hin & Hp). repeat (apply elem_of_cons in Hin as [[= -> ->]|Hin]; [lia|]).
    by apply not_elem_of_nil in Hin. }
  exists ep'. vm_compute in H. injection H as <-. split; vm_compute; reflexivity.
Defined.

(** Freeing the block that an allocation has just returned restores the
    free segments, whatever the allocation had to split. *)
Theorem extent_alloc_free_roundtrip lo hi ep segs size pos ep' :
  range_ok lo hi -> pool_ok lo hi ep segs -> 0 < size ->
  extent_alloc ep size = Ok (pos, ep') -> pos <> -1 ->
  exists ep'', extent_free ep' pos size = Ok (0, ep'') /\ pool_ok lo hi ep'' segs.
Proof.
  intros Hr Hep Hsz Ha Hpos.
  destruct (extent_alloc_ok _ _ _ _ _ Hr Hep Hsz)
    as [[_ He]|(pos' & s & ep1 & segs1 & Hps & Hle & _ & He & Hep1 & Hc1)]; [congruence|].
  rewrite He in Ha. injection Ha as -> ->. pose proof Hep as (_ & Hok & _).
  pose proof (proj2 Hok) as Hin. rewrite Forall_forall in Hin. specialize (Hin _ Hps).
  unfold seg_in in Hin. simpl in Hin.
  destruct (extent_free_ok lo hi ep' segs1 pos size Hr Hep1) as (ep2 & segs2 & Hf & Hep2 & Hc2).
  { unfold seg_in. simpl. lia. }
  { intros x Hx Hcov. apply Hc1 in Hcov. tauto. }
  exists ep2. split; [done|]. replace segs with segs2; [done|].
  apply (segs_ok_canonical lo hi); [apply Hep2|done|]. intros x. rewrite Hc2, Hc1.
  pose proof (covers_elem pos s segs x Hps) as Hx.
  destruct (decide (pos <= x < pos + size)); [|tauto]. split; [|tauto]. intros _. apply Hx. lia.
Qed.

Lemma extent_alloc_free_roundtrip_witness :
  exists ep' ep'', extent_alloc two_segs 20 = Ok (0, ep') /\ extent_free ep' 0 20 = Ok (0, ep'') /\
    pool_ok 0 60 ep'' [(0, 30); (50, 10)].
Proof.
  eexists. destruct (extent_alloc_free_roundtrip 0 60 two_segs _ 20 0
    (Pool [(20, Some 10); (50, Some 10)] [(10, [20; 50])] false 60)
    ltac:(split; vm_compute; discriminate) two_segs_ok
    ltac:(lia) ltac:(vm_compute; reflexivity) ltac:(lia)) as (ep'' & Hf & Hp).
  exists ep''. split; [vm_compute; reflexivity|]. by split.
Defined.

(** An aligned allocation, with a power of two and no free segment of
    exactly the size plus the slack, returns a multiple of the alignment inside
    one free segment and makes exactly that block unavailable: the space before
    and after it stays free; it returns -1 when no segment has room for the
    worst case. *)
Theorem extent_alloc_aligned_spec lo hi ep segs size k :
  range_ok lo hi -> pool_ok lo hi ep segs -> 0 < size -> 1 <= k ->
  size + (2 ^ k - 1) <= int_max -> Forall (fun x => x.2 <> size + (2 ^ k - 1)) segs ->
  (Forall (fun x => x.2 < size + (2 ^ k - 1)) segs /\
     extent_alloc_aligned ep size (2 ^ k) = Ok (-1, ep)) \/
  exists pos s rval ep' segs', (pos, s) ∈ segs /\ pos <= rval /\ rval + size <= pos + s /\
    rval mod 2 ^ k = 0 /\ extent_alloc_aligned ep size (2 ^ k) = Ok (rval, ep') /\
    pool_ok lo hi ep' segs' /\
    forall x, covers segs' x <-> covers segs x /\ ~ (rval <= x < rval + size).
Proof. apply extent_alloc_aligned_ok. Qed.

Lemma extent_alloc_aligned_spec_witness :
  exists ep', extent_alloc_aligned two_segs 6 4 = Ok (52, ep').
Proof.
  destruct (extent_alloc_aligned_spec 0 60 two_segs _ 6 2 ltac:(split; vm_compute; discriminate)
    two_segs_ok ltac:(lia) ltac:(lia) ltac:(vm_compute; discriminate)) as [[H _]|(pos & s & r & ep' & segs' & H)].
  - repeat constructor; simpl; lia.
  - exfalso. inversion_clear H. simpl in *. lia.
  - destruct H as (_ & _ & _ & _ & H & _). vm_compute in H. injection H as <- _.
    eexists. vm_compute. reflexivity.
Defined.

(** Without that exclusion an aligned allocation can leave a free segment of
    size 0 behind, and the block that begins there can then never be freed:
    from a pool of [1, 4) the blocks [1, 3) and [3, 4) are allocated, the first
    is freed and one aligned unit allocated at 2; freeing [3, 4) now fails. *)
Theorem extent_alloc_aligned_empty_segment :
  (ep ← extent_create 1 3;
   a ← extent_alloc ep 2;
   b ← extent_alloc a.2 1;
   f ← extent_free b.2 a.1 2;
   c ← extent_alloc_aligned f.2 1 2;
   g ← extent_free c.2 b.1 1;
   Ok (a.1, b.1, f.1, c.1, ep_freesegs c.2, g.1))
  = Ok (1, 3, 0, 2, [(1, Some 1); (3, Some 0)], -1).
Proof. reflexivity. Qed.

(** The statistics of a sound pool are the total it was created with, the
    sum of its free sizes and their number, and never overflow; destroying the
    pool takes every node out, in whatever order the tree yields its root, and
    its final assertion, that no size is left, holds. *)
Theorem extent_stats_destroy lo hi ep segs root :
  range_ok lo hi -> lo <= hi -> pool_ok lo hi ep segs ->
  extent_stats ep = Ok (ep_total ep, total_size segs, Z.of_nat (length segs)) /\
  extent_destroy root ep = Ok tt.
Proof.
  intros [Hlo Hhi] Hle Hep. pose proof Hep as (Hf & Hok & _). split.
  - pose proof (total_size_bound lo hi segs Hle Hok).
    unfold extent_stats. rewrite Hf, extent_stats_loop_ok; [done| | | | |]; try lia.
    destruct Hok as [_ Hin]. eapply Forall_impl; [exact Hin|]. unfold seg_in. lia.
  - unfold extent_destroy.
    destruct (extent_destroy_loop_ok lo hi root (length (ep_freesegs ep)) ep segs Hep)
      as (ep' & -> & (_ & _ & (_ & Hne) & Hp & _)).
    { rewrite Hf. unfold emb. by rewrite length_map. }
    rewrite ok_bind. destruct (ep_sizes ep') as [|[s ps] l]; [done|].
    apply Permutation_nil_r in Hp. inversion_clear Hne. simpl in *. by destruct ps.
Qed.

Lemma extent_stats_destroy_witness :
  extent_stats two_segs = Ok (60, 40, 2) /\ extent_destroy (fun l => length l) two_segs = Ok tt.
Proof.
  exact (extent_stats_destroy 0 60 two_segs _ (fun l => length l)
    ltac:(split; vm_compute; discriminate) ltac:(lia) two_segs_ok).
Defined.
