(* ===== verification/Htsbuf.v ===== *)
(** The byte queue (src/src/htsmsg/htsbuf.c): a list of allocated chunks read
    from the front and appended to at the back, and the three escaping writers.
    The abstraction of a queue is the list of bytes it holds; [ByteSink] is what
    the writers of text formats need of it. *)
From S2P Require Import Prelude.

Local Open Scope Z_scope.

(** * State *)

(** [hd_data] holds the valid bytes, so [hd_data_len] is its length. *)
Record htsbuf_data := HD {
  hd_data : list Z;
  hd_data_size : Z;
  hd_data_off : Z }.
Definition hd_data_len (hd : htsbuf_data) : Z := Z.of_nat (length (hd_data hd)).

Record htsbuf_queue := HQ {
  hq_q : list htsbuf_data;
  hq_size : Z;
  hq_maxsize : Z }.

(** * Operations *)

Definition htsbuf_queue_init (maxsize : Z) : htsbuf_queue :=
  HQ [] 0 (if maxsize =? 0 then int_max else maxsize).

(** Takes the first chunk, which is the one it is called with, off the queue. *)
Definition htsbuf_data_free (hq : htsbuf_queue) : htsbuf_queue :=
  HQ (tail (hq_q hq)) (hq_size hq) (hq_maxsize hq).

Fixpoint htsbuf_queue_flush_loop (q : list htsbuf_data) (hq : htsbuf_queue) : htsbuf_queue :=
  match q with
  | [] => hq
  | _ :: q' => htsbuf_queue_flush_loop q' (htsbuf_data_free hq)
  end.
Definition htsbuf_queue_flush (hq : htsbuf_queue) : htsbuf_queue :=
  htsbuf_queue_flush_loop (hq_q hq) (HQ (hq_q hq) 0 (hq_maxsize hq)).

(** The number of bytes copied is an [int]; a negative one reaches [memcpy] as
    a huge [size_t]. *)
Definition htsbuf_append (hq : htsbuf_queue) (buf : list Z) : res htsbuf_queue :=
  let len := Z.of_nat (length buf) in
  let size := u32 (hq_size hq + len) in
  r ← match rev (hq_q hq) with
      | hd :: before =>
          let c := s32 (Z.min (u32 (hd_data_size hd - hd_data_len hd)) len) in
          if c <? 0 then Fault OobWrite
          else
            let hd := HD (hd_data hd ++ take (Z.to_nat c) buf) (hd_data_size hd) (hd_data_off hd) in
            Ok (rev (hd :: before), drop (Z.to_nat c) buf)
      | [] => Ok ([], buf)
      end;
  let '(q, buf) := r in
  match buf with
  | [] => Ok (HQ q size (hq_maxsize hq))
  | _ =>
      let c := s32 (Z.max (Z.of_nat (length buf)) 1000) in
      if c <? Z.of_nat (length buf) then Fault OobWrite
      else Ok (HQ (q ++ [HD buf c 0]) size (hq_maxsize hq))
  end.

Definition htsbuf_append_prealloc (hq : htsbuf_queue) (buf : list Z) : htsbuf_queue :=
  HQ (hq_q hq ++ [HD buf (Z.of_nat (length buf)) 0])
    (u32 (hq_size hq + Z.of_nat (length buf))) (hq_maxsize hq).

(** One chunk's worth: how much of the first chunk a request of [len] takes. *)
Definition chunk_take (hd : htsbuf_data) (len : Z) : res Z :=
  let c := s32 (Z.min (u32 (hd_data_len hd - hd_data_off hd)) len) in
  if c <? 0 then Fault OobRead else Ok c.

Definition chunk_bytes (hd : htsbuf_data) (c : Z) : list Z :=
  take (Z.to_nat c) (drop (Z.to_nat (hd_data_off hd)) (hd_data hd)).

(** Moves the read offset of the first chunk and frees a chunk read to its end. *)
Definition chunk_advance (hq : htsbuf_queue) (c : Z) : htsbuf_queue :=
  match hq_q hq with
  | [] => hq
  | hd :: q =>
      let hd := HD (hd_data hd) (hd_data_size hd) (u32 (hd_data_off hd + c)) in
      let hq := HQ (hd :: q) (u32 (hq_size hq - c)) (hq_maxsize hq) in
      if hd_data_off hd =? hd_data_len hd then htsbuf_data_free hq else hq
  end.

Fixpoint htsbuf_read_loop (fuel : nat) (hq : htsbuf_queue) (buf : list Z) (len : Z)
    : res (list Z * htsbuf_queue) :=
  if len <=? 0 then Ok (buf, hq)
  else match fuel with
  | O => Fault NoFuel
  | S fuel =>
      match hq_q hq with
      | [] => Ok (buf, hq)
      | hd :: _ =>
          c ← chunk_take hd len;
          htsbuf_read_loop fuel (chunk_advance hq c) (buf ++ chunk_bytes hd c) (len - c)
      end
  end.

(** The bytes written to the caller's buffer; their number is the result. *)
Definition htsbuf_read (hq : htsbuf_queue) (len : Z) : res (list Z * htsbuf_queue) :=
  htsbuf_read_loop (S (length (hq_q hq))) hq [] len.

Fixpoint htsbuf_drop_loop (fuel : nat) (hq : htsbuf_queue) (r len : Z)
    : res (Z * htsbuf_queue) :=
  if len <=? 0 then Ok (r, hq)
  else match fuel with
  | O => Fault NoFuel
  | S fuel =>
      match hq_q hq with
      | [] => Ok (r, hq)
      | hd :: _ =>
          c ← chunk_take hd len;
          htsbuf_drop_loop fuel (chunk_advance hq c) (r + c) (len - c)
      end
  end.
Definition htsbuf_drop (hq : htsbuf_queue) (len : Z) : res (Z * htsbuf_queue) :=
  htsbuf_drop_loop (S (length (hq_q hq))) hq 0 len.

Fixpoint htsbuf_peek_loop (q : list htsbuf_data) (buf : list Z) (len : Z) : res (list Z) :=
  match q with
  | hd :: q' =>
      if len <=? 0 then Ok buf
      else
        c ← chunk_take hd len;
        htsbuf_peek_loop q' (buf ++ chunk_bytes hd c) (len - c)
  | [] => Ok buf
  end.
Definition htsbuf_peek (hq : htsbuf_queue) (len : Z) : res (list Z) :=
  htsbuf_peek_loop (hq_q hq) [] len.

(** The index of the first byte [v]. *)
Fixpoint index_of (v : Z) (l : list Z) : option Z :=
  match l with
  | [] => None
  | x :: l' => if x =? v then Some 0 else option_map Z.succ (index_of v l')
  end.

Fixpoint htsbuf_find_loop (q : list htsbuf_data) (v o : Z) : Z :=
  match q with
  | [] => u64 (-1)
  | hd :: q' =>
      match index_of v (drop (Z.to_nat (hd_data_off hd)) (hd_data hd)) with
      | Some i => u32 (o + i)
      | None => htsbuf_find_loop q' v (s32 (o + (hd_data_len hd - hd_data_off hd)))
      end
  end.
Definition htsbuf_find (hq : htsbuf_queue) (v : Z) : Z := htsbuf_find_loop (hq_q hq) v 0.

(** [text] is what [vsnprintf] formats; it returns the full length even when it
    has to cut the text to the 10000 bytes of [buf]. *)
Definition htsbuf_vqprintf (hq : htsbuf_queue) (text : list Z) : res htsbuf_queue :=
  let buf := take (Z.to_nat 9999) text ++ [0] in
  if Z.of_nat (length buf) <? Z.of_nat (length text) then Fault OobRead
  else htsbuf_append hq (take (length text) buf).

Fixpoint htsbuf_appendq_loop (q : list htsbuf_data) (hq : htsbuf_queue) : htsbuf_queue :=
  match q with
  | [] => hq
  | hd :: q' => htsbuf_appendq_loop q' (HQ (hq_q hq ++ [hd]) (hq_size hq) (hq_maxsize hq))
  end.
Definition htsbuf_appendq (hq src : htsbuf_queue) : htsbuf_queue * htsbuf_queue :=
  (htsbuf_appendq_loop (hq_q src) (HQ (hq_q hq) (u32 (hq_size hq + hq_size src)) (hq_maxsize hq)),
   HQ [] 0 (hq_maxsize src)).

Definition htsbuf_append_buf (hq : htsbuf_queue) (b : list Z) : res htsbuf_queue :=
  htsbuf_append hq b.

(** The bytes of the string and the queue, emptied. *)
Definition htsbuf_to_string (hq : htsbuf_queue) : res (list Z * htsbuf_queue) :=
  htsbuf_read hq (hq_size hq).
Definition htsbuf_to_rstr (hq : htsbuf_queue) (prefix : option (list Z))
    : res (list Z * htsbuf_queue) :=
  r ← htsbuf_read hq (hq_size hq); Ok (default [] prefix ++ r.1, r.2).

(** ** Escaping writers *)

Definition xml_esc (c : Z) : option (list Z) :=
  if c =? 60 then Some (lit "&lt;")
  else if c =? 62 then Some (lit "&gt;")
  else if c =? 38 then Some (lit "&amp;")
  else if c =? 39 then Some (lit "&apos;")
  else if c =? 34 then Some (lit "&quot;")
  else None.

Section escape.
Context {cs : CharSign}.

(** [s] is the text between the pointers [s] and [c] of the source, which is
    not written yet; [rest] the text from [c] to the end. *)
Fixpoint append_and_escape_xml_loop (hq : htsbuf_queue) (s rest : list Z)
    : res htsbuf_queue :=
  match rest with
  | [] => Fault OobRead
  | x :: rest =>
      r ← match xml_esc (cchar x) with
          | Some esc =>
              hq ← htsbuf_append hq s;
              hq ← htsbuf_append hq esc;
              Ok (hq, [])
          | None => Ok (hq, s ++ [x])
          end;
      let '(hq, s) := r in
      match rest with
      | [] => htsbuf_append hq s
      | _ => append_and_escape_xml_loop hq s rest
      end
  end.
Definition htsbuf_append_and_escape_xml (hq : htsbuf_queue) (s : list Z)
    : res htsbuf_queue :=
  match s with [] => Ok hq | _ => append_and_escape_xml_loop hq [] s end.

Definition hexchars : list Z := lit "0123456789ABCDEF".

Definition url_plain (C : Z) : bool :=
  ((48 <=? C) && (C <=? 57)) || ((97 <=? C) && (C <=? 122)) ||
  ((65 <=? C) && (C <=? 90)) || (C =? 95) || (C =? 126) || (C =? 46) || (C =? 45).

Definition url_esc (C : Z) : option (list Z) :=
  if url_plain C then None
  else Some [37; nth (Z.to_nat (Z.land (Z.shiftr C 4) 15)) hexchars 0;
             nth (Z.to_nat (Z.land C 15)) hexchars 0].

Fixpoint append_and_escape_url_loop (hq : htsbuf_queue) (s rest : list Z)
    : res htsbuf_queue :=
  match rest with
  | [] => Fault OobRead
  | x :: rest =>
      r ← match url_esc (cchar x) with
          | Some esc =>
              hq ← htsbuf_append hq s;
              hq ← htsbuf_append hq esc;
              Ok (hq, [])
          | None => Ok (hq, s ++ [x])
          end;
      let '(hq, s) := r in
      match rest with
      | [] => htsbuf_append hq s
      | _ => append_and_escape_url_loop hq s rest
      end
  end.
Definition htsbuf_append_and_escape_url0 (hq : htsbuf_queue) (s : list Z)
    : res htsbuf_queue :=
  match s with [] => Ok hq | _ => append_and_escape_url_loop hq [] s end.
Definition htsbuf_append_and_escape_url (hq : htsbuf_queue) (s : list Z) :=
  htsbuf_append_and_escape_url0 hq s.
Definition htsbuf_append_and_escape_url_len (hq : htsbuf_queue) (s : list Z)
    (len : Z) :=
  if Z.of_nat (length s) <? len then Fault OobRead
  else htsbuf_append_and_escape_url0 hq (take (Z.to_nat len) s).

Definition json_esc (c : Z) : option (list Z) :=
  if c =? 34 then Some [92; 34]
  else if c =? 10 then Some (lit "\n")
  else if c =? 13 then Some (lit "\r")
  else if c =? 9 then Some (lit "\t")
  else if c =? 92 then Some (lit "\\")
  else None.

Fixpoint append_and_escape_jsonstr_loop (hq : htsbuf_queue) (str s : list Z)
    : res htsbuf_queue :=
  match s with
  | [] => htsbuf_append hq str
  | x :: s =>
      match json_esc (cchar x) with
      | Some esc =>
          hq ← htsbuf_append hq str;
          hq ← htsbuf_append hq esc;
          append_and_escape_jsonstr_loop hq [] s
      | None => append_and_escape_jsonstr_loop hq (str ++ [x]) s
      end
  end.
Definition htsbuf_append_and_escape_jsonstr (hq : htsbuf_queue) (str : list Z)
    : res htsbuf_queue :=
  hq ← htsbuf_append hq [34];
  hq ← append_and_escape_jsonstr_loop hq [] str;
  htsbuf_append hq [34].

End escape.

(** * Abstraction *)

Definition chunk_rest (hd : htsbuf_data) : list Z :=
  drop (Z.to_nat (hd_data_off hd)) (hd_data hd).
Definition hq_bytes (hq : htsbuf_queue) : list Z := concat (map chunk_rest (hq_q hq)).

Definition hd_ok (hd : htsbuf_data) : Prop :=
  0 <= hd_data_off hd <= hd_data_len hd /\ hd_data_len hd <= hd_data_size hd <= int_max.

(** [hq] is sound and holds the bytes [b]. *)
Definition holds (hq : htsbuf_queue) (b : list Z) : Prop :=
  hq_bytes hq = b /\ Forall hd_ok (hq_q hq) /\ hq_size hq = Z.of_nat (length b) /\
  Z.of_nat (length b) <= int_max.

(** Every byte as it is or as its escape sequence. *)
Definition esc_bytes (esc : Z -> option (list Z)) (s : list Z) : list Z :=
  concat (map (fun c => default [c] (esc c)) s).
Definition json_quoted (s : list Z) : list Z := [34] ++ esc_bytes json_esc s ++ [34].

(** What a writer of text needs: a place bytes and quoted strings can be
    appended to. *)
Class ByteSink (Q : Type) := {
  sink_holds : Q -> list Z -> Prop;
  sink_append : Q -> list Z -> res Q;
  sink_jsonstr : Q -> list Z -> res Q;
  sink_append_ok q b s :
    sink_holds q b -> Z.of_nat (length b) + Z.of_nat (length s) <= int_max ->
    exists q', sink_append q s = Ok q' /\ sink_holds q' (b ++ s);
  sink_jsonstr_ok q b s :
    sink_holds q b -> Forall is_byte s ->
    Z.of_nat (length b) + Z.of_nat (length (json_quoted s)) <= int_max ->
    exists q', sink_jsonstr q s = Ok q' /\ sink_holds q' (b ++ json_quoted s) }.

(** * Lemmas *)

Lemma chunk_rest_length hd : hd_ok hd ->
  Z.of_nat (length (chunk_rest hd)) = hd_data_len hd - hd_data_off hd.
Proof. unfold hd_ok, chunk_rest, hd_data_len. rewrite length_drop. lia. Qed.

Lemma hq_bytes_app q1 q2 s m s' m' :
  hq_bytes (HQ (q1 ++ q2) s m) = hq_bytes (HQ q1 s' m') ++ hq_bytes (HQ q2 s' m').
Proof. unfold hq_bytes. cbn [hq_q]. by rewrite map_app, concat_app. Qed.

Lemma chunk_take_ok hd len : hd_ok hd -> 0 <= len ->
  chunk_take hd len = Ok (Z.min (hd_data_len hd - hd_data_off hd) len).
Proof.
  intros [Ho Hs] Hl. unfold chunk_take. rewrite u32_id by ilia. rewrite s32_id by ilia.
  by rewrite (proj2 (Z.ltb_ge _ _)) by lia.
Qed.

Lemma chunk_bytes_take hd c : chunk_bytes hd c = take (Z.to_nat c) (chunk_rest hd).
Proof. done. Qed.

Lemma htsbuf_init_holds maxsize : holds (htsbuf_queue_init maxsize) [].
Proof. split_and!; simpl; try done; try constructor. Qed.

(** ** Appending *)

Lemma htsbuf_append_holds hq b s :
  holds hq b -> Z.of_nat (length b) + Z.of_nat (length s) <= int_max ->
  exists hq', htsbuf_append hq s = Ok hq' /\ holds hq' (b ++ s).
Proof.
  intros (Hb & Hok & Hsz & Hmax) Hlen. unfold htsbuf_append. cbv zeta.
  rewrite u32_id, Hsz by ilia. destruct hq as [q sz mx]. cbn [hq_q hq_size hq_maxsize] in *.
  assert (forall q' buf, Forall hd_ok q' -> hq_bytes (HQ q' 0 0) ++ buf = b ++ s ->
    Z.of_nat (length buf) <= int_max ->
    exists hq', match buf with
      | [] => Ok (HQ q' (Z.of_nat (length b) + Z.of_nat (length s)) mx)
      | _ => let c := s32 (Z.max (Z.of_nat (length buf)) 1000) in
             if c <? Z.of_nat (length buf) then Fault OobWrite
             else Ok (HQ (q' ++ [HD buf c 0]) (Z.of_nat (length b) + Z.of_nat (length s)) mx)
      end = Ok hq' /\ holds hq' (b ++ s)) as Htail.
  { intros q' buf Hq' Hbuf Hm. destruct buf as [|x buf'] eqn:Ebuf.
    - eexists. split; [done|]. rewrite app_nil_r in Hbuf.
      split_and!; cbn [hq_q hq_size]; rewrite ?length_app; try done; lia.
    - rewrite <- Ebuf in *. cbv zeta. rewrite s32_id by ilia.
      rewrite (proj2 (Z.ltb_ge _ _)) by lia. eexists. split; [done|].
      split_and!; cbn [hq_q hq_size]; rewrite ?length_app; [|apply Forall_app; split; [done|]|lia..].
      + rewrite (hq_bytes_app _ _ _ _ 0 0), <- Hbuf. f_equal. unfold hq_bytes, chunk_rest. simpl.
        by rewrite app_nil_r.
      + apply Forall_singleton. unfold hd_ok, hd_data_len. simpl. ilia. }
  destruct (rev q) as [|hd before] eqn:Er.
  - rewrite ok_bind. apply Htail; [done| |lia].
    assert (q = []) as -> by (apply (f_equal (@rev _)) in Er; by rewrite rev_involutive in Er).
    by rewrite <- Hb.
  - assert (q = rev before ++ [hd]) as ->.
    { apply (f_equal (@rev _)) in Er. by rewrite rev_involutive in Er. }
    apply Forall_app in Hok as [Hok1 Hok2]. rewrite Forall_singleton in Hok2.
    pose proof Hok2 as [Ho Hs]. rewrite u32_id by ilia. rewrite s32_id by ilia.
    rewrite (proj2 (Z.ltb_ge _ _)) by lia. rewrite ok_bind.
    set (c := Z.min (hd_data_size hd - hd_data_len hd) (Z.of_nat (length s))).
    apply Htail.
    + simpl. apply Forall_app. split; [done|]. apply Forall_singleton.
      unfold hd_ok, hd_data_len in *. cbn [hd_data hd_data_size hd_data_off].
      rewrite length_app, length_take. ilia.
    + simpl. rewrite (hq_bytes_app _ _ _ _ 0 0). rewrite (hq_bytes_app _ _ _ _ 0 0) in Hb.
      rewrite <- Hb, <- !app_assoc. f_equal. unfold hq_bytes, chunk_rest. simpl.
      rewrite !app_nil_r, drop_app_le, <- app_assoc, take_drop by (unfold hd_data_len in Ho; lia). done.
    + rewrite length_drop. lia.
Qed.

Lemma htsbuf_append_prealloc_holds hq b s :
  holds hq b -> Z.of_nat (length b) + Z.of_nat (length s) <= int_max ->
  holds (htsbuf_append_prealloc hq s) (b ++ s).
Proof.
  intros (Hb & Hok & Hsz & Hmax) Hlen. unfold htsbuf_append_prealloc.
  rewrite Hsz, u32_id by ilia. split_and!; cbn [hq_q hq_size]; rewrite ?length_app; try lia.
  - rewrite (hq_bytes_app _ _ _ _ (hq_size hq) (hq_maxsize hq)). destruct hq. cbn in *.
    rewrite Hb. unfold hq_bytes, chunk_rest. simpl. by rewrite app_nil_r.
  - apply Forall_app. split; [done|]. apply Forall_singleton.
    unfold hd_ok, hd_data_len. simpl. ilia.
Qed.

Lemma htsbuf_appendq_loop_eq q hq :
  htsbuf_appendq_loop q hq = HQ (hq_q hq ++ q) (hq_size hq) (hq_maxsize hq).
Proof.
  revert hq. induction q as [|hd q IH]; intros [q0 sz mx]; simpl.
  - by rewrite app_nil_r.
  - rewrite IH. cbn [hq_q hq_size hq_maxsize]. by rewrite <- app_assoc.
Qed.

Lemma htsbuf_appendq_holds hq src b s :
  holds hq b -> holds src s -> Z.of_nat (length b) + Z.of_nat (length s) <= int_max ->
  let '(hq', src') := htsbuf_appendq hq src in holds hq' (b ++ s) /\ holds src' [].
Proof.
  intros (Hb & Hok & Hsz & Hmax) (Hb' & Hok' & Hsz' & Hmax') Hlen. unfold htsbuf_appendq.
  rewrite htsbuf_appendq_loop_eq. cbn [hq_q hq_size hq_maxsize].
  rewrite Hsz, Hsz', u32_id by ilia. split.
  - split_and!; cbn [hq_q hq_size]; rewrite ?length_app; try lia; [|by apply Forall_app].
    destruct hq as [q sz mx], src as [q' sz' mx']. cbn [hq_q hq_maxsize] in *.
    rewrite (hq_bytes_app _ _ _ _ 0 0). by rewrite <- Hb, <- Hb'.
  - split_and!; simpl; try done; try constructor.
Qed.

Lemma htsbuf_flush_holds hq : holds (htsbuf_queue_flush hq) [].
Proof.
  unfold htsbuf_queue_flush. destruct hq as [q sz mx]. cbn [hq_q hq_maxsize].
  assert (forall q, htsbuf_queue_flush_loop q (HQ q 0 mx) = HQ [] 0 mx) as H.
  { clear q. induction q as [|hd q IH]; simpl; [done|]. apply IH. }
  rewrite H. split_and!; simpl; try done; try constructor.
Qed.

(** ** Reading *)

(** Taking [c] bytes from the first chunk. *)
Lemma chunk_advance_holds hq hd q b c :
  holds hq b -> hq_q hq = hd :: q -> 0 <= c <= hd_data_len hd - hd_data_off hd ->
  chunk_bytes hd c = take (Z.to_nat c) b /\ holds (chunk_advance hq c) (drop (Z.to_nat c) b) /\
  (length (hq_q (chunk_advance hq c)) <= length (hq_q hq))%nat /\
  (c = hd_data_len hd - hd_data_off hd -> hq_q (chunk_advance hq c) = q).
Proof.
  intros (Hb & Hok & Hsz & Hmax) Hq Hc. destruct hq as [q0 sz mx]. cbn [hq_q hq_size] in *.
  subst q0. inversion_clear Hok as [|? ? Hhd Hq]. pose proof (chunk_rest_length hd Hhd) as Hlen.
  pose proof Hhd as [Ho Hs]. unfold hq_bytes in Hb. cbn [hq_q map concat] in Hb.
  unfold chunk_advance. cbn [hq_q hq_size hq_maxsize].
  rewrite (u32_id (hd_data_off hd + c)) by ilia. rewrite u32_id, chunk_bytes_take.
  2: { rewrite Hsz, <- Hb, length_app. rewrite <- Hb, length_app in Hmax. ilia. }
  assert (length (drop (Z.to_nat c) b) = length b - Z.to_nat c)%nat as Hdl by apply length_drop.
  assert (Z.to_nat c <= length b)%nat by (rewrite <- Hb, length_app; lia).
  split; [by rewrite <- Hb, take_app_le by lia|].
  cbn [hd_data_off].
  change (hd_data_len (HD (hd_data hd) (hd_data_size hd) (hd_data_off hd + c))) with (hd_data_len hd).
  destruct (Z.eqb_spec (hd_data_off hd + c) (hd_data_len hd)) as [Heq|Hne];
    unfold htsbuf_data_free; cbn [hq_q hq_size hq_maxsize tail].
  - split; [|split; [simpl; lia|done]].
    split_and!; cbn [hq_q hq_size]; try done; [|lia|lia].
    unfold hq_bytes. cbn [hq_q]. rewrite <- Hb, drop_app_ge by lia.
    replace (Z.to_nat c - length (chunk_rest hd))%nat with 0%nat
      by lia. by rewrite drop_0.
  - split; [|split; [done|intros; lia]].
    split_and!; cbn [hq_q hq_size]; [| |lia|lia].
    + unfold hq_bytes. cbn [hq_q map concat]. rewrite <- Hb, drop_app_le by lia. f_equal.
      unfold chunk_rest. cbn [hd_data hd_data_off]. rewrite drop_drop. f_equal. lia.
    + constructor; [|done]. unfold hd_ok, hd_data_len in *. simpl. lia.
Qed.

Lemma holds_first hq b hd q : holds hq b -> hq_q hq = hd :: q ->
  hd_ok hd /\ hd_data_len hd - hd_data_off hd <= Z.of_nat (length b).
Proof.
  intros (Hb & Hok & _ & _) Hq. rewrite Hq in Hok. inversion_clear Hok as [|? ? Hhd _].
  split; [done|]. rewrite <- (chunk_rest_length hd Hhd), <- Hb. unfold hq_bytes. rewrite Hq.
  cbn [map concat]. rewrite length_app. lia.
Qed.

Lemma holds_empty hq b : holds hq b -> hq_q hq = [] -> b = [].
Proof. intros (Hb & _) Hq. rewrite <- Hb. unfold hq_bytes. by rewrite Hq. Qed.

Lemma htsbuf_read_loop_holds fuel hq b buf len :
  holds hq b -> 0 <= len -> (length (hq_q hq) < fuel)%nat ->
  exists hq', htsbuf_read_loop fuel hq buf len = Ok (buf ++ take (Z.to_nat len) b, hq') /\
    holds hq' (drop (Z.to_nat len) b).
Proof.
  revert hq b buf len. induction fuel as [|fuel IH]; intros hq b buf len Hh Hlen Hf; [lia|].
  cbn [htsbuf_read_loop]. destruct (Z.leb_spec len 0) as [Hz|Hpos].
  { assert (len = 0) as -> by lia. exists hq. by rewrite take_0, drop_0, app_nil_r. }
  destruct (hq_q hq) as [|hd q] eqn:Hq.
  { pose proof (holds_empty hq b Hh Hq) as ->. exists hq. by rewrite take_nil, drop_nil, app_nil_r. }
  destruct (holds_first _ _ _ _ Hh Hq) as [Hhd Hle].
  rewrite chunk_take_ok, ok_bind by (done || lia). pose proof Hhd as [Ho _].
  set (c := Z.min (hd_data_len hd - hd_data_off hd) len).
  destruct (chunk_advance_holds hq hd q b c Hh Hq ltac:(lia)) as (Hb & Hh' & Hl & Hfull).
  rewrite Hq in Hl. rewrite Hb. destruct (Z.eq_dec c len) as [->|Hne].
  - rewrite Z.sub_diag. exists (chunk_advance hq len). split; [|done]. by destruct fuel.
  - destruct (IH (chunk_advance hq c) _ (buf ++ take (Z.to_nat c) b) (len - c) Hh')
      as (hq' & -> & Hh2); [lia|rewrite Hfull by lia; simpl in Hf; lia|].
    exists hq'. rewrite drop_drop in Hh2. rewrite <- app_assoc, take_take_drop.
    replace (Z.to_nat c + Z.to_nat (len - c))%nat with (Z.to_nat len) in * by lia. done.
Qed.

Lemma htsbuf_to_string_holds hq b : holds hq b ->
  exists hq', htsbuf_to_string hq = Ok (b, hq') /\ holds hq' [].
Proof.
  intros Hh. pose proof Hh as (_ & _ & Hsz & _). unfold htsbuf_to_string, htsbuf_read. rewrite Hsz.
  destruct (htsbuf_read_loop_holds (S (length (hq_q hq))) hq b [] (Z.of_nat (length b)) Hh
    ltac:(lia) ltac:(lia)) as (hq' & -> & Hh').
  exists hq'. rewrite take_ge by lia. by rewrite drop_ge in Hh' by lia.
Qed.

Lemma htsbuf_drop_loop_holds fuel hq b r len :
  holds hq b -> 0 <= len -> (length (hq_q hq) < fuel)%nat ->
  exists hq', htsbuf_drop_loop fuel hq r len = Ok (r + Z.min len (Z.of_nat (length b)), hq') /\
    holds hq' (drop (Z.to_nat len) b).
Proof.
  revert hq b r len. induction fuel as [|fuel IH]; intros hq b r len Hh Hlen Hf; [lia|].
  cbn [htsbuf_drop_loop]. destruct (Z.leb_spec len 0) as [Hz|Hpos].
  { assert (len = 0) as -> by lia. exists hq. rewrite drop_0, Z.min_l by lia. by rewrite Z.add_0_r. }
  destruct (hq_q hq) as [|hd q] eqn:Hq.
  { pose proof (holds_empty hq b Hh Hq) as ->. exists hq. rewrite drop_nil. simpl.
    rewrite Z.min_r by lia. by rewrite Z.add_0_r. }
  destruct (holds_first _ _ _ _ Hh Hq) as [Hhd Hle].
  rewrite chunk_take_ok, ok_bind by (done || lia). pose proof Hhd as [Ho _].
  set (c := Z.min (hd_data_len hd - hd_data_off hd) len).
  destruct (chunk_advance_holds hq hd q b c Hh Hq ltac:(lia)) as (Hb & Hh' & Hl & Hfull).
  rewrite Hq in Hl. destruct (Z.eq_dec c len) as [Heq|Hne].
  - rewrite Heq in *. rewrite Z.sub_diag. exists (chunk_advance hq len). split; [|done].
    rewrite Z.min_l by lia. by destruct fuel.
  - destruct (IH (chunk_advance hq c) _ (r + c) (len - c) Hh')
      as (hq' & -> & Hh2); [lia|rewrite Hfull by lia; simpl in Hf; lia|].
    exists hq'. rewrite drop_drop in Hh2. rewrite length_drop.
    replace (Z.to_nat c + Z.to_nat (len - c))%nat with (Z.to_nat len) in * by lia.
    split; [|done]. do 2 f_equal. lia.
Qed.

Lemma htsbuf_peek_loop_bytes q buf len :
  Forall hd_ok q -> 0 <= len ->
  htsbuf_peek_loop q buf len = Ok (buf ++ take (Z.to_nat len) (hq_bytes (HQ q 0 0))).
Proof.
  revert buf len. induction q as [|hd q IH]; intros buf len Hok Hlen; cbn [htsbuf_peek_loop].
  { unfold hq_bytes. simpl. by rewrite take_nil, app_nil_r. }
  inversion_clear Hok as [|? ? Hhd Hq]. destruct (Z.leb_spec len 0) as [Hz|Hpos].
  { assert (len = 0) as -> by lia. by rewrite take_0, app_nil_r. }
  rewrite chunk_take_ok, ok_bind, chunk_bytes_take by (done || lia).
  pose proof (chunk_rest_length hd Hhd) as Hl. pose proof Hhd as [Ho _].
  rewrite IH by (done || lia). rewrite <- app_assoc. do 2 f_equal.
  unfold hq_bytes. cbn [hq_q map concat]. destruct (Z.le_gt_cases len (hd_data_len hd - hd_data_off hd)).
  - rewrite Z.min_r, Z.sub_diag, take_0, app_nil_r, take_app_le by lia. done.
  - rewrite Z.min_l, take_ge by lia. rewrite take_app_ge by lia. do 2 f_equal. lia.
Qed.

(** ** Searching *)

Lemma index_of_bound v l i : index_of v l = Some i -> 0 <= i < Z.of_nat (length l).
Proof.
  revert i. induction l as [|x l IH]; intros i; simpl; [done|].
  destruct (x =? v); [intros [= <-]; lia|].
  destruct (index_of v l) as [j|]; [|done]. intros [= <-]. specialize (IH j eq_refl). lia.
Qed.

Lemma index_of_app v a b : index_of v (a ++ b) =
  match index_of v a with
  | Some i => Some i
  | None => option_map (Z.add (Z.of_nat (length a))) (index_of v b)
  end.
Proof.
  induction a as [|x a IH]; simpl.
  { destruct (index_of v b); [|done]. simpl. by rewrite Z.add_0_l. }
  destruct (x =? v); [done|]. rewrite IH. destruct (index_of v a); [done|].
  destruct (index_of v b); [|done]. simpl. f_equal. lia.
Qed.

Lemma htsbuf_find_loop_index q v o :
  Forall hd_ok q -> 0 <= o -> o + Z.of_nat (length (hq_bytes (HQ q 0 0))) <= int_max ->
  htsbuf_find_loop q v o =
    match index_of v (hq_bytes (HQ q 0 0)) with Some i => o + i | None => u64 (-1) end.
Proof.
  revert o. induction q as [|hd q IH]; intros o Hok Ho Hlen; cbn [htsbuf_find_loop]; [done|].
  inversion_clear Hok as [|? ? Hhd Hq]. pose proof (chunk_rest_length hd Hhd) as Hl.
  unfold hq_bytes in *. cbn [hq_q map concat] in *. rewrite length_app in Hlen.
  change (drop _ (hd_data hd)) with (chunk_rest hd). rewrite index_of_app.
  destruct (index_of v (chunk_rest hd)) as [i|] eqn:E.
  - apply index_of_bound in E. apply u32_id. ilia.
  - rewrite s32_id by ilia. rewrite IH by (done || lia).
    destruct (index_of v _); [|done]. simpl. lia.
Qed.

(** ** Escaping *)

Lemma esc_bytes_cons esc c s : esc_bytes esc (c :: s) = default [c] (esc c) ++ esc_bytes esc s.
Proof. done. Qed.

Lemma xml_esc_char {cs : CharSign} x : is_byte x -> xml_esc (cchar x) = xml_esc x.
Proof.
  intros Hx. apply (bool_decide_unpack _).
  apply (byte_forall (fun x => bool_decide (xml_esc (cchar x) = xml_esc x))) in Hx; [by rewrite Hx|].
  destruct cs; vm_compute; reflexivity.
Qed.

Lemma url_esc_char {cs : CharSign} x : is_byte x -> url_esc (cchar x) = url_esc x.
Proof.
  intros Hx. apply (bool_decide_unpack _).
  apply (byte_forall (fun x => bool_decide (url_esc (cchar x) = url_esc x))) in Hx; [by rewrite Hx|].
  destruct cs; vm_compute; reflexivity.
Qed.

Lemma json_esc_char {cs : CharSign} x : is_byte x -> json_esc (cchar x) = json_esc x.
Proof.
  intros Hx. apply (bool_decide_unpack _).
  apply (byte_forall (fun x => bool_decide (json_esc (cchar x) = json_esc x))) in Hx; [by rewrite Hx|].
  destruct cs; vm_compute; reflexivity.
Qed.

(** The loop the XML and URL writers share. *)
Section escape_loop.
Context {cs : CharSign} (esc : Z -> option (list Z)).
Hypothesis esc_char : forall x, is_byte x -> esc (cchar x) = esc x.

Fixpoint escape_loop (hq : htsbuf_queue) (s rest : list Z) : res htsbuf_queue :=
  match rest with
  | [] => Fault OobRead
  | x :: rest =>
      r ← match esc (cchar x) with
          | Some e =>
              hq ← htsbuf_append hq s;
              hq ← htsbuf_append hq e;
              Ok (hq, [])
          | None => Ok (hq, s ++ [x])
          end;
      let '(hq, s) := r in
      match rest with
      | [] => htsbuf_append hq s
      | _ => escape_loop hq s rest
      end
  end.

Lemma escape_loop_holds rest : forall hq b s,
  holds hq b -> rest <> [] -> Forall is_byte rest ->
  Z.of_nat (length b) + Z.of_nat (length s) + Z.of_nat (length (esc_bytes esc rest)) <= int_max ->
  exists hq', escape_loop hq s rest = Ok hq' /\ holds hq' (b ++ s ++ esc_bytes esc rest).
Proof using esc_char.
  induction rest as [|x rest IH]; intros hq b s Hh Hne Hb Hlen; [done|].
  inversion_clear Hb as [|? ? Hx Hrest]. cbn [escape_loop]. rewrite esc_char by done.
  rewrite esc_bytes_cons, length_app in *.
  assert (forall hq1 b1 s1, holds hq1 b1 ->
    b1 ++ s1 = b ++ s ++ default [x] (esc x) ->
    Z.of_nat (length b1) + Z.of_nat (length s1) + Z.of_nat (length (esc_bytes esc rest)) <= int_max ->
    exists hq', match rest with [] => htsbuf_append hq1 s1 | _ => escape_loop hq1 s1 rest end = Ok hq' /\
      holds hq' (b ++ s ++ default [x] (esc x) ++ esc_bytes esc rest)) as Hnext.
  { intros hq1 b1 s1 Hh1 Hbs Hl1.
    assert (b ++ s ++ default [x] (esc x) ++ esc_bytes esc rest = b1 ++ s1 ++ esc_bytes esc rest) as ->
      by (rewrite !app_assoc in *; by rewrite Hbs).
    destruct rest as [|y rest']; [|by apply IH].
    cbn [esc_bytes concat map]. rewrite app_nil_r. apply htsbuf_append_holds; [done|lia]. }
  destruct (esc x) as [e|]; cbn [default from_option] in *.
  - destruct (htsbuf_append_holds hq b s Hh ltac:(lia)) as (hq1 & -> & Hh1). rewrite ok_bind.
    destruct (htsbuf_append_holds hq1 _ e Hh1) as (hq2 & -> & Hh2).
    { rewrite length_app. unfold id in *. lia. }
    rewrite !ok_bind. eapply Hnext; [exact Hh2|by rewrite app_nil_r, <- app_assoc|].
    rewrite !length_app. unfold id in *. simpl. lia.
  - rewrite ok_bind. apply (Hnext _ _ _ Hh); [done|]. rewrite length_app. simpl in *. lia.
Qed.
End escape_loop.

Lemma htsbuf_append_and_escape_xml_holds {cs : CharSign} hq b s :
  holds hq b -> Forall is_byte s ->
  Z.of_nat (length b) + Z.of_nat (length (esc_bytes xml_esc s)) <= int_max ->
  exists hq', htsbuf_append_and_escape_xml hq s = Ok hq' /\ holds hq' (b ++ esc_bytes xml_esc s).
Proof.
  intros Hh Hs Hl. destruct s as [|x s].
  { exists hq. by rewrite app_nil_r. }
  change (htsbuf_append_and_escape_xml hq (x :: s)) with (escape_loop xml_esc hq [] (x :: s)).
  apply (escape_loop_holds xml_esc xml_esc_char (x :: s) hq b []); [done..|simpl in *; lia].
Qed.

Lemma htsbuf_append_and_escape_url_holds {cs : CharSign} hq b s :
  holds hq b -> Forall is_byte s ->
  Z.of_nat (length b) + Z.of_nat (length (esc_bytes url_esc s)) <= int_max ->
  exists hq', htsbuf_append_and_escape_url hq s = Ok hq' /\ holds hq' (b ++ esc_bytes url_esc s).
Proof.
  intros Hh Hs Hl. destruct s as [|x s].
  { exists hq. by rewrite app_nil_r. }
  change (htsbuf_append_and_escape_url hq (x :: s)) with (escape_loop url_esc hq [] (x :: s)).
  apply (escape_loop_holds url_esc url_esc_char (x :: s) hq b []); [done..|simpl in *; lia].
Qed.

Lemma jsonstr_loop_holds {cs : CharSign} s : forall hq b str,
  holds hq b -> Forall is_byte s ->
  Z.of_nat (length b) + Z.of_nat (length str) + Z.of_nat (length (esc_bytes json_esc s)) <= int_max ->
  exists hq', append_and_escape_jsonstr_loop hq str s = Ok hq' /\
    holds hq' (b ++ str ++ esc_bytes json_esc s).
Proof.
  induction s as [|x s IH]; intros hq b str Hh Hb Hlen; cbn [append_and_escape_jsonstr_loop].
  { rewrite app_nil_r. apply htsbuf_append_holds; [done|simpl in *; lia]. }
  inversion_clear Hb as [|? ? Hx Hs]. rewrite json_esc_char by done.
  rewrite esc_bytes_cons, length_app in *. destruct (json_esc x) as [e|]; simpl in Hlen.
  - destruct (htsbuf_append_holds hq b str Hh ltac:(lia)) as (hq1 & -> & Hh1). rewrite ok_bind.
    destruct (htsbuf_append_holds hq1 _ e Hh1) as (hq2 & -> & Hh2).
    { rewrite length_app. unfold id in *. lia. }
    rewrite ok_bind. destruct (IH hq2 _ [] Hh2 Hs) as (hq3 & -> & Hh3).
    { rewrite !length_app. unfold id in *. simpl. lia. }
    exists hq3. split; [done|]. by rewrite <- !app_assoc in Hh3.
  - destruct (IH hq b (str ++ [x]) Hh Hs) as (hq3 & -> & Hh3).
    { rewrite length_app. simpl. lia. }
    exists hq3. split; [done|]. by rewrite <- !app_assoc in Hh3.
Qed.

Lemma htsbuf_append_and_escape_jsonstr_holds {cs : CharSign} hq b s :
  holds hq b -> Forall is_byte s ->
  Z.of_nat (length b) + Z.of_nat (length (json_quoted s)) <= int_max ->
  exists hq', htsbuf_append_and_escape_jsonstr hq s = Ok hq' /\ holds hq' (b ++ json_quoted s).
Proof.
  intros Hh Hs Hl. unfold htsbuf_append_and_escape_jsonstr, json_quoted in *.
  rewrite !length_app in Hl. simpl in Hl.
  destruct (htsbuf_append_holds hq b [34] Hh ltac:(simpl; lia)) as (hq1 & -> & Hh1). rewrite ok_bind.
  destruct (jsonstr_loop_holds s hq1 _ [] Hh1 Hs) as (hq2 & -> & Hh2).
  { rewrite length_app. simpl. lia. }
  rewrite ok_bind. destruct (htsbuf_append_holds hq2 _ [34] Hh2) as (hq3 & -> & Hh3).
  { rewrite !length_app. simpl. lia. }
  exists hq3. split; [done|]. by rewrite <- !app_assoc in Hh3.
Qed.

#[export] Instance htsbuf_sink {cs : CharSign} : ByteSink htsbuf_queue := {|
  sink_holds := holds;
  sink_append := htsbuf_append;
  sink_jsonstr := htsbuf_append_and_escape_jsonstr;
  sink_append_ok := htsbuf_append_holds;
  sink_jsonstr_ok := htsbuf_append_and_escape_jsonstr_holds |}.

(** * Specification: a queue of bytes *)

Inductive hq_op :=
| OpAppend (b : list Z)
| OpPrealloc (b : list Z)
| OpPrintf (text : list Z)
| OpXml (s : list Z)
| OpUrl (s : list Z)
| OpJson (s : list Z)
| OpRead (n : Z)
| OpPeek (n : Z)
| OpDrop (n : Z)
| OpFind (v : Z)
| OpFlush
| OpToString.

Inductive hq_out := OutUnit | OutBytes (b : list Z) | OutNum (n : Z).

(** The calls on the queue of the program. *)
Definition hq_run1 {cs : CharSign} (hq : htsbuf_queue) (op : hq_op)
    : res (hq_out * htsbuf_queue) :=
  let unit_out m := hq' ← m; Ok (OutUnit, hq') in
  match op with
  | OpAppend b => unit_out (htsbuf_append hq b)
  | OpPrealloc b => Ok (OutUnit, htsbuf_append_prealloc hq b)
  | OpPrintf t => unit_out (htsbuf_vqprintf hq t)
  | OpXml s => unit_out (htsbuf_append_and_escape_xml hq s)
  | OpUrl s => unit_out (htsbuf_append_and_escape_url hq s)
  | OpJson s => unit_out (htsbuf_append_and_escape_jsonstr hq s)
  | OpRead n => r ← htsbuf_read hq n; Ok (OutBytes r.1, r.2)
  | OpPeek n => r ← htsbuf_peek hq n; Ok (OutBytes r, hq)
  | OpDrop n => r ← htsbuf_drop hq n; Ok (OutNum r.1, r.2)
  | OpFind v => Ok (OutNum (htsbuf_find hq v), hq)
  | OpFlush => Ok (OutUnit, htsbuf_queue_flush hq)
  | OpToString => r ← htsbuf_to_string hq; Ok (OutBytes r.1, r.2)
  end.

Fixpoint hq_run {cs : CharSign} (hq : htsbuf_queue) (ops : list hq_op)
    : res (list hq_out * htsbuf_queue) :=
  match ops with
  | [] => Ok ([], hq)
  | op :: ops => r ← hq_run1 hq op; rs ← hq_run r.2 ops; Ok (r.1 :: rs.1, rs.2)
  end.

(** What an operation adds, and what it does to a list of bytes. *)
Definition op_adds (op : hq_op) : list Z :=
  match op with
  | OpAppend b | OpPrealloc b | OpPrintf b => b
  | OpXml s => esc_bytes xml_esc s
  | OpUrl s => esc_bytes url_esc s
  | OpJson s => json_quoted s
  | _ => []
  end.

Definition spec_step (b : list Z) (op : hq_op) : hq_out * list Z :=
  match op with
  | OpRead n => (OutBytes (take (Z.to_nat n) b), drop (Z.to_nat n) b)
  | OpPeek n => (OutBytes (take (Z.to_nat n) b), b)
  | OpDrop n => (OutNum (Z.min n (Z.of_nat (length b))), drop (Z.to_nat n) b)
  | OpFind v => (OutNum (default (u64 (-1)) (index_of v b)), b)
  | OpFlush => (OutUnit, [])
  | OpToString => (OutBytes b, [])
  | _ => (OutUnit, b ++ op_adds op)
  end.

Fixpoint spec_run (b : list Z) (ops : list hq_op) : list hq_out * list Z :=
  match ops with
  | [] => ([], b)
  | op :: ops => let '(o, b') := spec_step b op in let '(os, b'') := spec_run b' ops in (o :: os, b'')
  end.

(** Arguments in range: byte strings, counts that are not negative, formatted
    text that fits the buffer it is formatted in. *)
Definition op_ok (op : hq_op) : Prop :=
  match op with
  | OpPrintf t => Z.of_nat (length t) < 10000
  | OpXml s | OpUrl s | OpJson s => Forall is_byte s
  | OpRead n | OpPeek n | OpDrop n => 0 <= n
  | _ => True
  end.

Definition ops_size (ops : list hq_op) : Z :=
  foldr (fun op n => Z.of_nat (length (op_adds op)) + n) 0 ops.

Lemma vqprintf_short hq t :
  Z.of_nat (length t) < 10000 -> htsbuf_vqprintf hq t = htsbuf_append hq t.
Proof.
  intros H. unfold htsbuf_vqprintf. rewrite take_ge by lia. rewrite length_app.
  rewrite (proj2 (Z.ltb_ge _ _)) by lia. by rewrite take_app_length.
Qed.

Lemma hq_run1_refines {cs : CharSign} hq b op :
  holds hq b -> op_ok op ->
  Z.of_nat (length b) + Z.of_nat (length (op_adds op)) <= int_max ->
  exists hq', hq_run1 hq op = Ok ((spec_step b op).1, hq') /\ holds hq' (spec_step b op).2.
Proof.
  intros Hh Hop Hlen. destruct op; simpl in *.
  - destruct (htsbuf_append_holds hq b b0 Hh Hlen) as (hq' & -> & H'). eauto.
  - eauto using htsbuf_append_prealloc_holds.
  - rewrite vqprintf_short by done.
    destruct (htsbuf_append_holds hq b text Hh Hlen) as (hq' & -> & H'). eauto.
  - destruct (htsbuf_append_and_escape_xml_holds hq b s Hh Hop Hlen) as (hq' & -> & H'). eauto.
  - destruct (htsbuf_append_and_escape_url_holds hq b s Hh Hop Hlen) as (hq' & -> & H'). eauto.
  - destruct (htsbuf_append_and_escape_jsonstr_holds hq b s Hh Hop Hlen) as (hq' & -> & H'). eauto.
  - destruct (htsbuf_read_loop_holds _ hq b [] n Hh Hop (Nat.lt_succ_diag_r _)) as (hq' & E & H').
    unfold htsbuf_read. rewrite E. eauto.
  - unfold htsbuf_peek. destruct Hh as (Hb & Hok & Hrest).
    rewrite htsbuf_peek_loop_bytes by done. exists hq. split; [|done]. simpl.
    by rewrite <- Hb.
  - destruct (htsbuf_drop_loop_holds _ hq b 0 n Hh Hop (Nat.lt_succ_diag_r _)) as (hq' & E & H').
    unfold htsbuf_drop. rewrite E. eauto.
  - exists hq. split; [|done]. destruct Hh as (Hb & Hok & _). do 3 f_equal.
    unfold htsbuf_find. rewrite <- Hb in *. rewrite htsbuf_find_loop_index; [|done|lia|].
    + change (hq_bytes (HQ (hq_q hq) 0 0)) with (hq_bytes hq).
      destruct (index_of v (hq_bytes hq)); [|done]. cbn [default from_option]. unfold id. lia.
    + change (hq_bytes (HQ (hq_q hq) 0 0)) with (hq_bytes hq). lia.
  - eauto using htsbuf_flush_holds.
  - destruct Hh as (Hb & Hok & Hsz & Hmax). unfold htsbuf_to_string, htsbuf_read. rewrite Hsz.
    destruct (htsbuf_read_loop_holds (S (length (hq_q hq))) hq b [] (Z.of_nat (length b)))
      as (hq' & E & H'); [done|lia|lia|].
    rewrite E. exists hq'. rewrite take_ge by lia. rewrite drop_ge in H' by lia. done.
Qed.

Lemma spec_step_length b op :
  (length (spec_step b op).2 <= length b + length (op_adds op))%nat.
Proof. destruct op; cbn [spec_step snd op_adds]; rewrite ?length_app, ?length_drop; simpl; lia. Qed.

(** * Properties *)

(** C30: a byte queue behaves as the list of bytes it holds: any sequence of
    appends (of either kind, and through the three escaping writers), formatted
    writes, reads, peeks, drops, searches and flushes returns what the same
    sequence returns on a plain list, as long as the total stays within an
    [int]; no call faults or loops. *)
Theorem htsbuf_refines_bytes {cs : CharSign} (ops : list hq_op) (hq : htsbuf_queue) (b : list Z) :
  holds hq b -> Forall op_ok ops -> Z.of_nat (length b) + ops_size ops <= int_max ->
  exists hq', hq_run hq ops = Ok ((spec_run b ops).1, hq') /\ holds hq' (spec_run b ops).2.
Proof.
  revert hq b. induction ops as [|op ops IH]; intros hq b Hh Hok Hlen; simpl; [eauto|].
  inversion_clear Hok as [|? ? Hop Hops]. cbn [ops_size foldr] in Hlen. fold (ops_size ops) in Hlen.
  assert (0 <= ops_size ops) by (clear; induction ops; simpl; lia).
  destruct (hq_run1_refines hq b op Hh Hop ltac:(lia)) as (hq1 & -> & Hh1). rewrite ok_bind.
  pose proof (spec_step_length b op) as Hl.
  destruct (spec_step b op) as [o b1] eqn:E. cbn [fst snd] in *.
  destruct (IH hq1 b1 Hh1 Hops) as (hq2 & -> & Hh2); [lia|]. rewrite ok_bind.
  destruct (spec_run b1 ops) as [os b2]. simpl in *. eauto.
Qed.

Lemma htsbuf_refines_bytes_witness :
  exists hq', hq_run (cs := false) (htsbuf_queue_init 0)
    [OpAppend (lit "one "); OpXml (lit "<a&b>"); OpPeek 3; OpDrop 4; OpFind 59; OpRead 8; OpToString]
  = Ok ([OutUnit; OutUnit; OutBytes (lit "one"); OutNum 4; OutNum 3; OutBytes (lit "&lt;a&am");
         OutBytes (lit "p;b&gt;")], hq').
Proof.
  destruct (htsbuf_refines_bytes (cs := false)
    [OpAppend (lit "one "); OpXml (lit "<a&b>"); OpPeek 3; OpDrop 4; OpFind 59; OpRead 8; OpToString]
    (htsbuf_queue_init 0) [] (htsbuf_init_holds 0)) as (hq' & E & _).
  - repeat constructor; simpl; lia || (unfold is_byte; lia).
  - vm_compute. discriminate.
  - exists hq'. exact E.
Defined.

(** Joining a queue to another moves all its bytes, in order, behind the
    others and leaves it empty; turning a queue into a reference-counted string
    yields the prefix and all its bytes and leaves it empty. *)
Theorem htsbuf_appendq_to_rstr (hq src : htsbuf_queue) (b s : list Z) (prefix : option (list Z)) :
  holds hq b -> holds src s -> Z.of_nat (length b) + Z.of_nat (length s) <= int_max ->
  let '(hq', src') := htsbuf_appendq hq src in
  holds src' [] /\
  exists hq'', htsbuf_to_rstr hq' prefix = Ok (default [] prefix ++ b ++ s, hq'') /\ holds hq'' [].
Proof.
  intros Hb Hs Hl. pose proof (htsbuf_appendq_holds hq src b s Hb Hs Hl) as H.
  destruct (htsbuf_appendq hq src) as [hq' src']. destruct H as [Hh Hsrc]. split; [done|].
  destruct (htsbuf_to_string_holds _ _ Hh) as (hq'' & E & Hh''). exists hq''. split; [|done].
  unfold htsbuf_to_rstr. unfold htsbuf_to_string in E. by rewrite E, ok_bind.
Qed.

Lemma htsbuf_appendq_to_rstr_witness :
  exists hq'', htsbuf_to_rstr (htsbuf_appendq (htsbuf_append_prealloc (htsbuf_queue_init 0) (lit "b"))
    (htsbuf_append_prealloc (htsbuf_queue_init 0) (lit "c"))).1 (Some (lit "a"))
  = Ok (lit "abc", hq'').
Proof.
  pose proof (fun Hb Hs => htsbuf_appendq_to_rstr (htsbuf_append_prealloc (htsbuf_queue_init 0) (lit "b"))
    (htsbuf_append_prealloc (htsbuf_queue_init 0) (lit "c")) (lit "b") (lit "c") (Some (lit "a")) Hb Hs
    ltac:(vm_compute; discriminate)) as H.
  destruct H as (_ & hq'' & E & _).
  - apply (htsbuf_append_prealloc_holds _ []); [apply htsbuf_init_holds|vm_compute; discriminate].
  - apply (htsbuf_append_prealloc_holds _ []); [apply htsbuf_init_holds|vm_compute; discriminate].
  - exists hq''. exact E.
Defined.

(** Formatted output of more than 10000 bytes reads past the buffer it was
    formatted in, whatever the queue. *)
Theorem htsbuf_printf_overrun (hq : htsbuf_queue) (text : list Z) :
  10000 < Z.of_nat (length text) -> htsbuf_vqprintf hq text = Fault OobRead.
Proof.
  intros H. unfold htsbuf_vqprintf. rewrite length_app, length_take. change (length [0]) with 1%nat.
  by rewrite (proj2 (Z.ltb_lt _ _)) by lia.
Qed.

Lemma htsbuf_printf_overrun_witness :
  htsbuf_vqprintf (htsbuf_queue_init 0) (repeat 65 (Z.to_nat 10001)) = Fault OobRead.
Proof. apply htsbuf_printf_overrun. rewrite repeat_length. lia. Defined.
