(* ===== verification/Utf8.v ===== *)
(** Unicode conversions (src/src/misc/str.c): the UTF-8 decoder and encoder,
    verification and clean-up of strings, UCS-2, UTF-16, ASCII and the single
    byte character sets.  A [const char *] is the list of the bytes from the
    pointer to the end of its object; a code point is an [int]. *)
From S2P Require Import Prelude.

Local Open Scope Z_scope.

(** * Operations *)

(** The first byte of a sequence: the bits it gives, the number of bytes that
    follow and the least value that needs that many. *)
Definition utf8_lead (c : Z) : option (Z * nat * Z) :=
  if (194 <=? c) && (c <=? 223) then Some (Z.land c 31, 1%nat, 128)
  else if (224 <=? c) && (c <=? 239) then Some (Z.land c 15, 2%nat, 2048)
  else if (240 <=? c) && (c <=? 247) then Some (Z.land c 7, 3%nat, 65536)
  else if (248 <=? c) && (c <=? 251) then Some (Z.land c 3, 4%nat, 2097152)
  else if (252 <=? c) && (c <=? 253) then Some (Z.land c 1, 5%nat, 67108864)
  else None.

(** [l] continuation bytes; [None] at the first byte that is not one. *)
Fixpoint utf8_cont (l : nat) (r : Z) (s : list Z) : res (option Z * list Z) :=
  match l with
  | O => Ok (Some r, s)
  | S l =>
      match s with
      | [] => Fault OobRead
      | c :: s' =>
          if negb (Z.land c 192 =? 128) then Ok (None, s)
          else
            r ← chk_int (Z.lor (Z.shiftl r 6) (Z.land c 63));
            utf8_cont l r s'
      end
  end.

(** The code point and the pointer behind it. *)
Definition utf8_get (s : list Z) : res (Z * list Z) :=
  match s with
  | [] => Fault OobRead
  | c :: s =>
      if (0 <=? c) && (c <=? 127) then Ok (c, s)
      else match utf8_lead c with
      | None => Ok (65533, s)
      | Some (r, l, m) =>
          x ← utf8_cont l r s;
          match x with
          | (None, s) => Ok (65533, s)
          | (Some r, s) => if r <? m then Ok (65533, s) else Ok (r, s)
          end
      end
  end.

(** The decoding loop the callers of [utf8_get] run up to the terminator. *)
Fixpoint utf8_decode (fuel : nat) (s : list Z) : res (list Z) :=
  match fuel with
  | O => Fault NoFuel
  | S fuel =>
      x ← utf8_get s;
      let '(c, s) := x in
      if c =? 0 then Ok [] else cs ← utf8_decode fuel s; Ok (c :: cs)
  end.

Fixpoint utf8_verify_loop (fuel : nat) (str : list Z) : res bool :=
  match fuel with
  | O => Fault NoFuel
  | S fuel =>
      x ← utf8_get str;
      let '(c, str) := x in
      if c =? 0 then Ok true
      else if c =? 65533 then Ok false
      else utf8_verify_loop fuel str
  end.
Definition utf8_verify (str : list Z) : res bool := utf8_verify_loop (length str) str.

(** The bytes of a code point; their number is the result of the function,
    with and without a buffer to write to. *)
Definition utf8_put (c : Z) : list Z :=
  if (c =? 65534) || (c =? 65535) || ((55296 <=? c) && (c <? 57344)) then []
  else if c <? 128 then [u8 c]
  else if c <? 2048 then
    [Z.lor 192 (Z.land 31 (Z.shiftr c 6)); Z.lor 128 (Z.land 63 c)]
  else if c <? 65536 then
    [Z.lor 224 (Z.land 15 (Z.shiftr c 12)); Z.lor 128 (Z.land 63 (Z.shiftr c 6));
     Z.lor 128 (Z.land 63 c)]
  else if c <? 2097152 then
    [Z.lor 240 (Z.land 7 (Z.shiftr c 18)); Z.lor 128 (Z.land 63 (Z.shiftr c 12));
     Z.lor 128 (Z.land 63 (Z.shiftr c 6)); Z.lor 128 (Z.land 63 c)]
  else if c <? 67108864 then
    [Z.lor 248 (Z.land 3 (Z.shiftr c 24)); Z.lor 128 (Z.land 63 (Z.shiftr c 18));
     Z.lor 128 (Z.land 63 (Z.shiftr c 12)); Z.lor 128 (Z.land 63 (Z.shiftr c 6));
     Z.lor 128 (Z.land 63 c)]
  else
    [Z.lor 252 (Z.land 1 (Z.shiftr c 30)); Z.lor 128 (Z.land 63 (Z.shiftr c 24));
     Z.lor 128 (Z.land 63 (Z.shiftr c 18)); Z.lor 128 (Z.land 63 (Z.shiftr c 12));
     Z.lor 128 (Z.land 63 (Z.shiftr c 6)); Z.lor 128 (Z.land 63 c)].

(** The first pass: whether a bad sequence was seen, and the bytes needed. *)
Fixpoint utf8_cleanup_scan (fuel : nat) (s : list Z) (outlen : Z) (bad : bool)
    : res (Z * bool) :=
  match fuel with
  | O => Fault NoFuel
  | S fuel =>
      x ← utf8_get s;
      let '(c, s) := x in
      if c =? 0 then Ok (outlen, bad)
      else
        outlen ← chk_int (outlen + Z.of_nat (length (utf8_put c)));
        utf8_cleanup_scan fuel s outlen (bad || (c =? 65533))
  end.

(** The second pass, which writes to the [room] bytes that were allocated. *)
Fixpoint utf8_cleanup_write (fuel : nat) (s : list Z) (room : Z) (out : list Z)
    : res (list Z) :=
  match fuel with
  | O => Fault NoFuel
  | S fuel =>
      x ← utf8_get s;
      let '(c, s) := x in
      if c =? 0 then
        if Z.of_nat (length out) <? room then Ok out else Fault OobWrite
      else
        let out := out ++ utf8_put c in
        if room <? Z.of_nat (length out) then Fault OobWrite
        else utf8_cleanup_write fuel s room out
  end.

(** [None] for [NULL]: the string is clean as it is.  The result is the string
    before its terminator. *)
Definition utf8_cleanup (str : list Z) : res (option (list Z)) :=
  x ← utf8_cleanup_scan (length str) str 1 false;
  let '(outlen, bad) := x in
  if negb (bad : bool) then Ok None
  else out ← utf8_cleanup_write (length str) str outlen []; Ok (Some out).

(** UCS-2 to UTF-8 in a buffer of [dstlen] bytes; the bytes written before the
    terminator. *)
Fixpoint ucs2_to_utf8_loop (dst : list Z) (dstlen : Z) (src : list Z) (le : bool)
    : list Z :=
  match src with
  | s0 :: s1 :: src' =>
      if 3 <? dstlen then
        let c := if le then Z.lor s0 (Z.shiftl s1 8) else Z.lor s1 (Z.shiftl s0 8) in
        if c =? 0 then dst
        else ucs2_to_utf8_loop (dst ++ utf8_put c)
               (dstlen - Z.of_nat (length (utf8_put c))) src' le
      else dst
  | _ => dst
  end.
Definition ucs2_to_utf8 (dstlen : Z) (src : list Z) (le : bool) : res (list Z) :=
  let out := ucs2_to_utf8_loop [] dstlen src le in
  if Z.of_nat (length out) <? dstlen then Ok (out ++ [0]) else Fault OobWrite.

(** UTF-8 to UCS-2: the bytes with their terminator, whose number is the result;
    [None] for the result -1. *)
Fixpoint utf8_to_ucs2_loop (fuel : nat) (src : list Z) (le : bool) (dst : list Z)
    : res (option (list Z)) :=
  match fuel with
  | O => Fault NoFuel
  | S fuel =>
      x ← utf8_get src;
      let '(c, src) := x in
      if c =? 0 then Ok (Some (dst ++ [0; 0]))
      else if 65535 <? c then Ok None
      else utf8_to_ucs2_loop fuel src le
             (dst ++ (if le then [u8 c; u8 (Z.shiftr c 8)] else [u8 (Z.shiftr c 8); u8 c]))
  end.
Definition utf8_to_ucs2 (src : list Z) (le : bool) : res (option (list Z)) :=
  utf8_to_ucs2_loop (length src) src le [].

Fixpoint utf8_to_ascii_loop (fuel : nat) (src dst : list Z) : res (option (list Z)) :=
  match fuel with
  | O => Fault NoFuel
  | S fuel =>
      x ← utf8_get src;
      let '(c, src) := x in
      if c =? 0 then Ok (Some (dst ++ [0]))
      else if 255 <? c then Ok None
      else utf8_to_ascii_loop fuel src (dst ++ [u8 c])
  end.
Definition utf8_to_ascii (src : list Z) : res (option (list Z)) :=
  utf8_to_ascii_loop (length src) src [].

(** UTF-16 without surrogate pairs.  The bytes are [char]s: compared with 0xff
    and widened with the sign of the platform. *)
Section utf16.
Context {cs : CharSign}.

Definition utf16_unit (le : bool) (s0 s1 : Z) : Z :=
  if le then Z.lor (cchar s0) (Z.shiftl (cchar s1) 8)
  else Z.lor (cchar s1) (Z.shiftl (cchar s0) 8).

Fixpoint utf16_units (le : bool) (src : list Z) : list Z :=
  match src with
  | s0 :: s1 :: src' => utf16_unit le s0 s1 :: utf16_units le src'
  | _ => []
  end.

(** The byte order mark: the order and the text behind it. *)
Definition utf16_bom (src : list Z) : bool * list Z :=
  match src with
  | s0 :: s1 :: src' =>
      if (cchar s0 =? 255) && (cchar s1 =? 254) then (true, src')
      else if (cchar s0 =? 254) && (cchar s1 =? 255) then (false, src')
      else (false, src)
  | _ => (false, src)
  end.

(** [None] for [NULL]. *)
Definition utf16_to_utf8 (src : list Z) : option (list Z) :=
  if Z.of_nat (length src) <? 2 then None
  else
    let '(le, src) := utf16_bom src in
    Some (concat (map utf8_put (utf16_units le src))).

(** Single byte character sets: up to [len] bytes or the first NUL. *)
Fixpoint until_nul (s : list Z) : list Z :=
  match s with
  | [] => []
  | c :: s' => if cchar c =? 0 then [] else c :: until_nul s'
  end.

Definition table_char (table : list Z) (c : Z) : Z :=
  let c := nth (Z.to_nat (u8 (cchar c))) table 0 in if c =? 0 then 65533 else c.
Definition convert_table (table : list Z) (src : list Z) : list Z :=
  concat (map (fun c => utf8_put (table_char table c)) (until_nul src)).

Definition convert_iso_8859_1 (src : list Z) : list Z :=
  concat (map (fun c => utf8_put (cchar c)) (until_nul src)).
End utf16.

(** * Lemmas: bits *)

Lemma lor_byte b n x :
  forallb (fun x => implb (x <? n) (Z.lor b x =? b + x)) all_bytes = true -> n <= 256 ->
  0 <= x < n -> Z.lor b x = b + x.
Proof.
  intros H Hn Hx. pose proof (byte_forall _ H x ltac:(unfold is_byte; lia)) as Hb. simpl in Hb.
  rewrite (proj2 (Z.ltb_lt _ _)) in Hb by lia. by apply Z.eqb_eq.
Qed.

Lemma land_low k x n : 0 <= n -> k = Z.ones n -> Z.land k x = x mod 2 ^ n.
Proof. intros Hn ->. by rewrite Z.land_comm, Z.land_ones. Qed.

Lemma lor_shift6 r x : 0 <= x < 64 -> Z.lor (Z.shiftl r 6) x = r * 64 + x.
Proof. apply (lor_shiftl 6). lia. Qed.

(** The last [l] base 64 digits of [c], as continuation bytes. *)
Fixpoint conts (l : nat) (c : Z) : list Z :=
  match l with
  | O => []
  | S l => (128 + (c / 64 ^ Z.of_nat l) mod 64) :: conts l c
  end.

Lemma cont_byte x : 0 <= x < 64 ->
  Z.land (128 + x) 192 = 128 /\ Z.land (128 + x) 63 = x.
Proof.
  intros Hx. pose proof (byte_forall
    (fun x => implb (x <? 64) ((Z.land (128 + x) 192 =? 128) && (Z.land (128 + x) 63 =? x)))) as H.
  specialize (H eq_refl x ltac:(unfold is_byte; lia)). simpl in H.
  rewrite (proj2 (Z.ltb_lt _ _)) in H by lia. cbn [implb] in H.
  apply andb_true_iff in H as [?%Z.eqb_eq ?%Z.eqb_eq]. done.
Qed.

(** Reading continuation bytes back. *)
Lemma utf8_cont_conts l r c rest :
  0 <= r -> r * 64 ^ Z.of_nat l + c mod 64 ^ Z.of_nat l <= int_max ->
  utf8_cont l r (conts l c ++ rest) = Ok (Some (r * 64 ^ Z.of_nat l + c mod 64 ^ Z.of_nat l), rest).
Proof.
  revert r. induction l as [|l IH]; intros r Hr Hmax.
  { cbn [conts app utf8_cont]. rewrite Z.pow_0_r, Z.mod_1_r in *. do 3 f_equal. lia. }
  cbn [conts app utf8_cont]. set (P := 64 ^ Z.of_nat l) in *.
  assert (0 < P) as HP by (by apply Z.pow_pos_nonneg; lia).
  assert (64 ^ Z.of_nat (S l) = P * 64) as HS.
  { rewrite Nat2Z.inj_succ, Z.pow_succ_r by lia. lia. }
  rewrite HS in *. rewrite Z.rem_mul_r in Hmax |- * by lia.
  pose proof (Z.mod_pos_bound (c / P) 64 ltac:(lia)) as Hd.
  pose proof (Z.mod_pos_bound c P HP) as Hm.
  destruct (cont_byte _ Hd) as [-> ->]. rewrite Z.eqb_refl. cbn [negb].
  rewrite lor_shift6 by done.
  assert ((r * 64 + (c / P) mod 64) * P + c mod P = r * (P * 64) + (c mod P + P * ((c / P) mod 64)))
    as Heq by ring.
  rewrite chk_int_Ok, ok_bind.
  - rewrite IH; [by rewrite Heq|lia|by rewrite Heq].
  - split; [ilia|]. apply Z.le_trans with ((r * 64 + (c / P) mod 64) * P + c mod P); [nia|by rewrite Heq].
Qed.

(** * Lemmas: the encoder *)

Definition cp_ok (c : Z) : Prop :=
  0 <= c <= int_max /\ c <> 65534 /\ c <> 65535 /\ ~ 55296 <= c < 57344.

(** The lead byte of a sequence with [l] continuation bytes. *)
Definition lead_base (l : nat) : Z :=
  match l with 1%nat => 192 | 2%nat => 224 | 3%nat => 240 | 4%nat => 248 | _ => 252 end.

Definition seq_len (c : Z) : nat :=
  if c <? 128 then 0%nat else if c <? 2048 then 1%nat else if c <? 65536 then 2%nat
  else if c <? 2097152 then 3%nat else if c <? 67108864 then 4%nat else 5%nat.

Lemma utf8_put_spec c : cp_ok c ->
  utf8_put c =
    if c <? 128 then [c]
    else (lead_base (seq_len c) + c / 64 ^ Z.of_nat (seq_len c)) :: conts (seq_len c) c.
Proof.
  intros (Hc & H1 & H2 & H3). unfold utf8_put, seq_len.
  rewrite (proj2 (Z.eqb_neq _ _) H1), (proj2 (Z.eqb_neq _ _) H2). cbn [orb].
  replace ((55296 <=? c) && (c <? 57344)) with false
    by (symmetry; apply andb_false_iff; rewrite Z.leb_gt, Z.ltb_ge; lia).
  assert (forall x, Z.lor 128 (Z.land 63 x) = 128 + x mod 64) as Hcont.
  { intros x. rewrite (land_low 63 x 6) by done. change (2 ^ 6) with 64.
    apply (lor_byte 128 64); [reflexivity|lia|]. by apply Z.mod_pos_bound. }
  rewrite !Hcont, !Z.shiftr_div_pow2 by done.
  destruct (Z.ltb_spec c 128); [by rewrite u8_id by (unfold is_byte; lia)|].
  destruct (Z.ltb_spec c 2048); [|destruct (Z.ltb_spec c 65536); [|destruct (Z.ltb_spec c 2097152);
    [|destruct (Z.ltb_spec c 67108864)]]]; cbn [conts lead_base].
  all: repeat match goal with |- context [64 ^ Z.of_nat ?n] =>
    let v := eval vm_compute in (64 ^ Z.of_nat n) in change (64 ^ Z.of_nat n) with v end.
  all: repeat match goal with |- context [2 ^ ?n] =>
    let v := eval vm_compute in (2 ^ n) in change (2 ^ n) with v end.
  all: rewrite ?Z.div_1_r; f_equal.
  - rewrite (land_low 31 _ 5), Z.mod_small by (done || (change (2 ^ 5) with 32; Z.to_euclidean_division_equations; lia)).
    apply (lor_byte 192 32); [reflexivity|lia|]. Z.to_euclidean_division_equations; lia.
  - rewrite (land_low 15 _ 4), Z.mod_small by (done || (change (2 ^ 4) with 16; Z.to_euclidean_division_equations; lia)).
    apply (lor_byte 224 16); [reflexivity|lia|]. Z.to_euclidean_division_equations; lia.
  - rewrite (land_low 7 _ 3), Z.mod_small by (done || (change (2 ^ 3) with 8; Z.to_euclidean_division_equations; lia)).
    apply (lor_byte 240 8); [reflexivity|lia|]. Z.to_euclidean_division_equations; lia.
  - rewrite (land_low 3 _ 2), Z.mod_small by (done || (change (2 ^ 2) with 4; Z.to_euclidean_division_equations; lia)).
    apply (lor_byte 248 4); [reflexivity|lia|]. Z.to_euclidean_division_equations; lia.
  - unfold int_max in Hc.
    rewrite (land_low 1 _ 1), Z.mod_small by (done || (change (2 ^ 1) with 2; Z.to_euclidean_division_equations; lia)).
    apply (lor_byte 252 2); [reflexivity|lia|]. Z.to_euclidean_division_equations; lia.
Qed.

(** * Lemmas: the decoder *)

Definition seq_min (l : nat) : Z :=
  match l with 1%nat => 128 | 2%nat => 2048 | 3%nat => 65536 | 4%nat => 2097152 | _ => 67108864 end.

Lemma utf8_lead_check l b n m :
  forallb (fun x => implb ((if (l =? 1)%nat then 2 else 0) <=? x) (implb (x <? n)
    (negb ((0 <=? b + x) && (b + x <=? 127)) &&
     bool_decide (utf8_lead (b + x) = Some (x, l, m))))) all_bytes = true ->
  forall x, (if (l =? 1)%nat then 2 else 0) <= x -> 0 <= x < n -> n <= 256 ->
  (0 <=? b + x) && (b + x <=? 127) = false /\ utf8_lead (b + x) = Some (x, l, m).
Proof.
  intros H x Hlo Hx Hn. pose proof (byte_forall _ H x ltac:(unfold is_byte; lia)) as Hb.
  cbv beta in Hb. rewrite (proj2 (Z.leb_le _ _) Hlo), (proj2 (Z.ltb_lt x n)) in Hb by lia. cbn [implb] in Hb.
  apply andb_true_iff in Hb as [Hb1 Hb2]. apply negb_true_iff in Hb1.
  by apply bool_decide_eq_true in Hb2.
Qed.

(** The encoding of any code point, those [utf8_put] refuses included. *)
Definition utf8_enc (c : Z) : list Z :=
  if c <? 128 then [c]
  else (lead_base (seq_len c) + c / 64 ^ Z.of_nat (seq_len c)) :: conts (seq_len c) c.

Lemma utf8_enc_put c : cp_ok c -> utf8_put c = utf8_enc c.
Proof. apply utf8_put_spec. Qed.

Lemma utf8_lead_ok c : 0 <= c <= int_max -> 128 <= c ->
  let l := seq_len c in let x := c / 64 ^ Z.of_nat l in
  0 <= x /\ (0 <=? lead_base l + x) && (lead_base l + x <=? 127) = false /\
  utf8_lead (lead_base l + x) = Some (x, l, seq_min l) /\ seq_min l <= c.
Proof.
  intros Hc H128. unfold int_max in Hc. unfold seq_len.
  rewrite (proj2 (Z.ltb_ge _ _) H128).
  destruct (Z.ltb_spec c 2048); [|destruct (Z.ltb_spec c 65536); [|destruct (Z.ltb_spec c 2097152);
    [|destruct (Z.ltb_spec c 67108864)]]]; cbn [lead_base seq_min]; cbv zeta.
  all: repeat match goal with |- context [64 ^ Z.of_nat ?n] =>
    let v := eval vm_compute in (64 ^ Z.of_nat n) in change (64 ^ Z.of_nat n) with v end.
  all: (split; [Z.to_euclidean_division_equations; lia|]).
  all: apply (proj1 (Logic.and_assoc _ _ _)); (split; [|lia]).
  - apply (utf8_lead_check 1 192 32); [vm_compute; reflexivity| |..|lia]; simpl;
      Z.to_euclidean_division_equations; lia.
  - apply (utf8_lead_check 2 224 16); [vm_compute; reflexivity| |..|lia]; simpl;
      Z.to_euclidean_division_equations; lia.
  - apply (utf8_lead_check 3 240 8); [vm_compute; reflexivity| |..|lia]; simpl;
      Z.to_euclidean_division_equations; lia.
  - apply (utf8_lead_check 4 248 4); [vm_compute; reflexivity| |..|lia]; simpl;
      Z.to_euclidean_division_equations; lia.
  - apply (utf8_lead_check 5 252 2); [vm_compute; reflexivity| |..|lia]; simpl;
      Z.to_euclidean_division_equations; lia.
Qed.

Lemma utf8_get_enc c rest : 0 <= c <= int_max -> utf8_get (utf8_enc c ++ rest) = Ok (c, rest).
Proof.
  intros Hc. unfold utf8_enc. destruct (Z.ltb_spec c 128) as [H|H].
  { cbn [app utf8_get]. by rewrite (proj2 (Z.leb_le _ _)), (proj2 (Z.leb_le _ _)) by lia. }
  destruct (utf8_lead_ok c Hc H) as (Hx & H1 & H2 & H3). cbv zeta in *.
  cbn [app utf8_get]. rewrite H1, H2. set (l := seq_len c) in *.
  assert (0 < 64 ^ Z.of_nat l) as HP by (apply Z.pow_pos_nonneg; lia).
  assert (c / 64 ^ Z.of_nat l * 64 ^ Z.of_nat l + c mod 64 ^ Z.of_nat l = c) as Heq.
  { rewrite Z.mul_comm. symmetry. apply Z.div_mod. lia. }
  rewrite utf8_cont_conts; [|done|rewrite Heq; exact (proj2 Hc)].
  rewrite ok_bind, Heq. by rewrite (proj2 (Z.ltb_ge _ _)).
Qed.

Lemma utf8_get_put c rest : cp_ok c -> utf8_get (utf8_put c ++ rest) = Ok (c, rest).
Proof. intros Hc. rewrite utf8_enc_put by done. apply utf8_get_enc, Hc. Qed.

(** ** Reading arbitrary strings *)

(** The string [s] with its terminator: where [utf8_get] can stop in it. *)
Lemma utf8_lead_range c r l m : utf8_lead c = Some (r, l, m) ->
  0 <= r /\ (l <= 5)%nat /\ r * 64 ^ Z.of_nat l + 64 ^ Z.of_nat l <= 2147483648 /\ l <> 0%nat.
Proof.
  unfold utf8_lead. intros H.
  assert (forall k n, k = Z.ones n -> 0 <= n -> Z.land c k = c mod 2 ^ n) as Hl.
  { intros k n -> Hk. by apply Z.land_ones. }
  rewrite (Hl 31 5), (Hl 15 4), (Hl 7 3), (Hl 3 2), (Hl 1 1) in H by done.
  repeat match type of H with (if ?b then _ else _) = _ => destruct b end; [..|done];
    injection H as <- <- <-; (split; [|split; [lia|split; [|done]]]);
    match goal with |- context [c mod ?q] => pose proof (Z.mod_pos_bound c q eq_refl) as Hb end;
    repeat match goal with |- context [64 ^ Z.of_nat ?n] =>
      let v := eval vm_compute in (64 ^ Z.of_nat n) in change (64 ^ Z.of_nat n) with v end;
    lia.
Qed.

Lemma utf8_cont_string l r s rest :
  cstring_ok s -> 0 <= r -> r * 64 ^ Z.of_nat l + 64 ^ Z.of_nat l <= 2147483648 ->
  exists o s', utf8_cont l r (s ++ 0 :: rest) = Ok (o, s' ++ 0 :: rest) /\ cstring_ok s' /\
    s' `suffix_of` s /\
    match o with Some v => r * 64 ^ Z.of_nat l <= v < r * 64 ^ Z.of_nat l + 64 ^ Z.of_nat l | None => True end.
Proof.
  revert r s. induction l as [|l IH]; intros r s Hs Hr Hmax.
  { exists (Some r), s. rewrite Z.pow_0_r. cbn [utf8_cont]. split_and!; auto; lia. }
  assert (0 < 64 ^ Z.of_nat l) as HP by (apply Z.pow_pos_nonneg; lia).
  rewrite Nat2Z.inj_succ, Z.pow_succ_r in * by lia.
  destruct Hs as [|c s Hc Hs].
  { exists None, []. split_and!; [done|constructor|done|done]. }
  cbn [utf8_cont app]. destruct (Z.land c 192 =? 128); cbn [negb];
    [|exists None, (c :: s); split_and!; auto; by constructor].
  change 63 with (Z.ones 6). rewrite Z.land_ones by done.
  pose proof (Z.mod_pos_bound c (2 ^ 6) eq_refl) as Hd. change (2 ^ 6) with 64 in *.
  rewrite lor_shift6, chk_int_Ok, ok_bind by (done || ilia || (split; [ilia|unfold int_max; nia])).
  destruct (IH (r * 64 + c mod 64) s) as (o & s' & E & Hs' & Hl & Ho); [done|lia|nia|].
  exists o, s'. split; [done|]. split; [done|]. split; [by apply suffix_cons_r|].
  destruct o; [nia|done].
Qed.

(** What a call reads of a string: nothing past its terminator, and it stops at
    the terminator exactly when the string is empty. *)
Lemma utf8_get_string s rest :
  cstring_ok s ->
  match s with
  | [] => utf8_get (0 :: rest) = Ok (0, rest)
  | _ => exists c s', utf8_get (s ++ 0 :: rest) = Ok (c, s' ++ 0 :: rest) /\ cstring_ok s' /\
      s' `suffix_of` tail s /\ 0 < c <= int_max
  end.
Proof.
  intros Hs. destruct Hs as [|c s Hc Hs]; [done|]. cbn [app utf8_get].
  destruct ((0 <=? c) && (c <=? 127)) eqn:Easc.
  { exists c, s. simpl. split_and!; auto; simpl; unfold int_max; lia. }
  destruct (utf8_lead c) as [[[r l] m]|] eqn:El.
  2: { exists 65533, s. split_and!; auto; simpl; unfold int_max; lia. }
  destruct (utf8_lead_range _ _ _ _ El) as (Hr & Hl5 & Hmax & Hl0).
  destruct (utf8_cont_string l r s rest Hs Hr Hmax) as (o & s' & E & Hs' & Hlen & Ho).
  rewrite E, ok_bind. destruct o as [v|];
    [|exists 65533, s'; split_and!; auto; simpl; unfold int_max; lia].
  assert (0 < 64 ^ Z.of_nat l) as HP by (apply Z.pow_pos_nonneg; lia).
  destruct (Z.ltb_spec v m) as [Hv|Hv]; [exists 65533, s'; split_and!; auto; simpl; unfold int_max; lia|].
  exists v, s'. split_and!; auto; [|unfold int_max; lia].
  assert (0 < m); [|lia]. unfold utf8_lead in El.
  repeat match type of El with (if ?b then _ else _) = _ => destruct b end; simplify_eq; lia.
Qed.

(** * Lemmas: strings as code points *)

Section reads.
Context (rest : list Z).

(** [utf8_get], called until the terminator, reads the code points [cs]. *)
Inductive reads : list Z -> list Z -> Prop :=
| reads_nil : reads [] []
| reads_cons s c s' cs :
    utf8_get (s ++ 0 :: rest) = Ok (c, s' ++ 0 :: rest) -> s <> [] -> s' `suffix_of` tail s ->
    0 < c <= int_max -> reads s' cs -> reads s (c :: cs).

Lemma suffix_tail_length (s s' : list Z) :
  s <> [] -> s' `suffix_of` tail s -> (length s' < length s)%nat.
Proof. intros Hne Hs%suffix_length. destruct s; simpl in *; [done|lia]. Qed.

Lemma reads_total s : cstring_ok s -> exists cs, reads s cs.
Proof.
  remember (length s) as n eqn:Hn. revert s Hn.
  induction (lt_wf n) as [n _ IH]; intros s -> Hs.
  destruct s as [|x s]; [exists []; constructor|].
  destruct (utf8_get_string (x :: s) rest Hs) as (c & s' & E & Hs' & Hl & Hc).
  destruct (IH (length s') (suffix_tail_length (x :: s) s' ltac:(done) Hl) s' eq_refl Hs') as (cs & Hcs).
  exists (c :: cs). by econstructor.
Qed.

Lemma reads_length s cs : reads s cs -> (length cs <= length s)%nat.
Proof.
  induction 1 as [|s c s' cs E Hne Hl Hc H IH]; [done|].
  pose proof (suffix_tail_length s s' Hne Hl). simpl. lia.
Qed.

Lemma reads_range s cs : reads s cs -> Forall (fun c => 0 < c <= int_max) cs.
Proof. induction 1; constructor; auto. Qed.

(** [x ← utf8_get s; ...] at the end of a string and before it. *)
Ltac step_reads :=
  match goal with
  | E : utf8_get (?s ++ 0 :: rest) = Ok _ |- context [utf8_get (?s ++ 0 :: rest)] =>
      rewrite E, ok_bind
  | |- context [utf8_get ([] ++ 0 :: rest)] =>
      change (utf8_get ([] ++ 0 :: rest)) with (Ok (0, rest)); rewrite ok_bind
  end.

Lemma reads_decode s cs fuel :
  reads s cs -> (length cs < fuel)%nat -> utf8_decode fuel (s ++ 0 :: rest) = Ok cs.
Proof.
  intros H. revert fuel. induction H as [|s c s' cs E Hne Hl Hc H IH]; intros [|fuel] Hf;
    simpl in Hf; try lia; cbn [utf8_decode]; step_reads; [done|].
  rewrite (proj2 (Z.eqb_neq c 0)) by lia. by rewrite IH by lia.
Qed.

Lemma reads_verify s cs fuel :
  reads s cs -> (length cs < fuel)%nat ->
  utf8_verify_loop fuel (s ++ 0 :: rest) = Ok (forallb (fun c => negb (c =? 65533)) cs).
Proof.
  intros H. revert fuel. induction H as [|s c s' cs E Hne Hl Hc H IH]; intros [|fuel] Hf;
    simpl in Hf; try lia; cbn [utf8_verify_loop forallb]; step_reads; [done|].
  rewrite (proj2 (Z.eqb_neq c 0)) by lia. destruct (c =? 65533); [done|]. by rewrite IH by lia.
Qed.

Definition put_all (cs : list Z) : list Z := concat (map utf8_put cs).

Lemma reads_scan s cs fuel outlen bad :
  reads s cs -> (length cs < fuel)%nat -> 0 <= outlen ->
  outlen + Z.of_nat (length (put_all cs)) <= int_max ->
  utf8_cleanup_scan fuel (s ++ 0 :: rest) outlen bad =
    Ok (outlen + Z.of_nat (length (put_all cs)), bad || existsb (fun c => c =? 65533) cs).
Proof.
  intros H. revert fuel outlen bad. induction H as [|s c s' cs E Hne Hl Hc H IH];
    intros [|fuel] outlen bad Hf Ho Hmax; simpl in Hf; try lia;
    cbn [utf8_cleanup_scan existsb put_all map concat] in *; step_reads.
  - simpl. by rewrite orb_false_r, Z.add_0_r.
  - rewrite length_app in Hmax. fold (put_all cs) in Hmax. rewrite (proj2 (Z.eqb_neq c 0)) by lia.
    rewrite chk_int_Ok, ok_bind by ilia. rewrite IH by lia.
    rewrite length_app. fold (put_all cs). rewrite <- orb_assoc. do 2 f_equal. lia.
Qed.

Lemma reads_write s cs fuel room out :
  reads s cs -> (length cs < fuel)%nat ->
  Z.of_nat (length out) + Z.of_nat (length (put_all cs)) < room ->
  utf8_cleanup_write fuel (s ++ 0 :: rest) room out = Ok (out ++ put_all cs).
Proof.
  intros H. revert fuel out. induction H as [|s c s' cs E Hne Hl Hc H IH];
    intros [|fuel] out Hf Hroom; simpl in Hf; try lia;
    cbn [utf8_cleanup_write put_all map concat] in *; step_reads.
  - simpl in *. rewrite (proj2 (Z.ltb_lt _ _)) by lia. by rewrite app_nil_r.
  - rewrite length_app in Hroom. fold (put_all cs) in *.
    rewrite (proj2 (Z.eqb_neq c 0)) by lia. rewrite length_app.
    rewrite (proj2 (Z.ltb_ge _ _)) by lia.
    rewrite IH, <- app_assoc; [done|lia|]. rewrite length_app. lia.
Qed.

Definition ucs2_bytes (le : bool) (c : Z) : list Z :=
  if le then [u8 c; u8 (Z.shiftr c 8)] else [u8 (Z.shiftr c 8); u8 c].

Lemma reads_ucs2 s cs fuel le dst :
  reads s cs -> (length cs < fuel)%nat ->
  utf8_to_ucs2_loop fuel (s ++ 0 :: rest) le dst =
    Ok (if forallb (fun c => c <=? 65535) cs
        then Some (dst ++ concat (map (ucs2_bytes le) cs) ++ [0; 0]) else None).
Proof.
  intros H. revert fuel dst. induction H as [|s c s' cs E Hne Hl Hc H IH];
    intros [|fuel] dst Hf; simpl in Hf; try lia;
    cbn [utf8_to_ucs2_loop forallb map concat] in *; step_reads; [done|].
  rewrite (proj2 (Z.eqb_neq c 0)) by lia. rewrite (Z.leb_antisym 65535 c).
  destruct (65535 <? c); [done|]. cbn [negb andb]. change (if le then _ else _) with (ucs2_bytes le c).
  rewrite IH by lia. by rewrite <- !app_assoc.
Qed.

Lemma reads_ascii s cs fuel dst :
  reads s cs -> (length cs < fuel)%nat ->
  utf8_to_ascii_loop fuel (s ++ 0 :: rest) dst =
    Ok (if forallb (fun c => c <=? 255) cs then Some (dst ++ map u8 cs ++ [0]) else None).
Proof.
  intros H. revert fuel dst. induction H as [|s c s' cs E Hne Hl Hc H IH];
    intros [|fuel] dst Hf; simpl in Hf; try lia;
    cbn [utf8_to_ascii_loop forallb map] in *; step_reads; [done|].
  rewrite (proj2 (Z.eqb_neq c 0)) by lia. rewrite (Z.leb_antisym 255 c).
  destruct (255 <? c); [done|]. cbn [negb andb].
  rewrite IH by lia. by rewrite <- !app_assoc.
Qed.

(** The encoder's output is read back. *)
Lemma reads_put_all cs :
  Forall (fun c => cp_ok c /\ c <> 0) cs -> reads (put_all cs) cs.
Proof.
  induction 1 as [|c cs [Hc H0] _ IH]; [constructor|]. cbn [put_all map concat].
  apply reads_cons with (put_all cs); auto.
  - unfold put_all. cbn [map concat]. rewrite <- app_assoc. by apply utf8_get_put.
  - rewrite utf8_put_spec by done. by destruct (c <? 128).
  - rewrite utf8_put_spec by done. destruct (c <? 128); simpl; [done|by apply suffix_app_r].
  - destruct Hc as [Hc _]. lia.
Qed.
End reads.

(** * Lemmas: what is accepted *)

Lemma cont_byte_inv b : is_byte b -> Z.land b 192 = 128 -> b = 128 + Z.land b 63.
Proof.
  intros Hb H. pose proof (byte_forall
    (fun b => implb (Z.land b 192 =? 128) (b =? 128 + Z.land b 63)) eq_refl b Hb) as Hx.
  cbv beta in Hx. rewrite H, Z.eqb_refl in Hx. by apply Z.eqb_eq.
Qed.

(** A sequence that decodes is the encoding of its value. *)
Lemma utf8_cont_inv l r s v s' :
  Forall is_byte s -> 0 <= r -> utf8_cont l r s = Ok (Some v, s') ->
  s = conts l v ++ s' /\ v / 64 ^ Z.of_nat l = r.
Proof.
  revert r s. induction l as [|l IH]; intros r s Hs Hr H; cbn [utf8_cont] in H.
  { simplify_eq. split; [done|]. by rewrite Z.pow_0_r, Z.div_1_r. }
  destruct Hs as [|b s Hb Hs]; [done|].
  destruct (Z.eqb_spec (Z.land b 192) 128) as [Hc|]; cbn [negb] in H; [|simplify_eq].
  apply bind_Ok in H as (r' & Hr' & H). apply chk_int_inv in Hr' as [-> _].
  pose proof (cont_byte_inv b Hb Hc) as Hbv. change 63 with (Z.ones 6) in *.
  rewrite Z.land_ones in * by done.
  pose proof (Z.mod_pos_bound b (2 ^ 6) eq_refl) as Hd. change (2 ^ 6) with 64 in *.
  rewrite lor_shift6 in H by done. destruct (IH (r * 64 + b mod 64) s Hs ltac:(lia) H) as [-> Hv].
  assert (0 < 64 ^ Z.of_nat l) as HP by (apply Z.pow_pos_nonneg; lia).
  cbn [conts app]. rewrite Hv. split.
  - f_equal. rewrite (Z.add_comm (r * 64)), Z.mod_add, Z.mod_mod by lia. done.
  - rewrite Nat2Z.inj_succ, Z.pow_succ_r by lia.
    rewrite Z.mul_comm, <- Z.div_div, Hv by lia.
    rewrite Z.add_comm, Z.div_add, Z.div_small by lia. lia.
Qed.

Lemma utf8_lead_inv b r l m : is_byte b -> utf8_lead b = Some (r, l, m) ->
  b = lead_base l + r /\ m = seq_min l /\ 0 <= r < 2 ^ (6 - Z.of_nat l) /\ (1 <= l <= 5)%nat.
Proof.
  intros Hb H. pose proof (byte_forall (fun b =>
    match utf8_lead b with
    | Some (r, l, m) => (b =? lead_base l + r) && (m =? seq_min l) && (0 <=? r) &&
        (r <? 2 ^ (6 - Z.of_nat l)) && (1 <=? l)%nat && (l <=? 5)%nat
    | None => true end) eq_refl b Hb) as Hx.
  cbv beta in Hx. rewrite H in Hx. rewrite !andb_true_iff in Hx.
  destruct Hx as [[[[[?%Z.eqb_eq ?%Z.eqb_eq] ?%Z.leb_le] ?%Z.ltb_lt] ?%Nat.leb_le] ?%Nat.leb_le].
  split_and!; auto; lia.
Qed.

Lemma seq_len_of l v :
  (1 <= l <= 5)%nat -> seq_min l <= v -> v / 64 ^ Z.of_nat l < 2 ^ (6 - Z.of_nat l) ->
  seq_len v = l.
Proof.
  intros Hl Hm Hv. unfold seq_len.
  destruct l as [|[|[|[|[|[|l]]]]]]; try lia; cbn [seq_min] in Hm;
    repeat match goal with
    | H : context [64 ^ Z.of_nat ?n] |- _ =>
        let v := eval vm_compute in (64 ^ Z.of_nat n) in change (64 ^ Z.of_nat n) with v in H
    | H : context [2 ^ (6 - Z.of_nat ?n)] |- _ =>
        let v := eval vm_compute in (2 ^ (6 - Z.of_nat n)) in change (2 ^ (6 - Z.of_nat n)) with v in H
    end;
    repeat match goal with |- context [?a <? ?b] =>
      destruct (Z.ltb_spec a b); try (exfalso; Z.to_euclidean_division_equations; lia) end; done.
Qed.

Lemma utf8_get_inv s c s' :
  Forall is_byte s -> utf8_get s = Ok (c, s') -> c <> 65533 -> s = utf8_enc c ++ s'.
Proof.
  intros Hs H Hc. destruct Hs as [|b s Hb Hs]; [done|]. cbn [utf8_get] in H. unfold utf8_enc.
  destruct ((0 <=? b) && (b <=? 127)) eqn:Ea.
  { simplify_eq. apply andb_true_iff in Ea as [?%Z.leb_le ?%Z.leb_le].
    by rewrite (proj2 (Z.ltb_lt _ _)) by lia. }
  destruct (utf8_lead b) as [[[r l] m]|] eqn:El; [|simplify_eq].
  apply bind_Ok in H as ([o s1] & Hcont & H). destruct o as [v|]; [|simplify_eq].
  destruct (Z.ltb_spec v m) as [|Hm]; simplify_eq.
  destruct (utf8_lead_inv _ _ _ _ Hb El) as (-> & -> & Hr & Hl).
  destruct (utf8_cont_inv l r s c s' Hs ltac:(lia) Hcont) as [-> Hv].
  rewrite (seq_len_of l c) by (done || (rewrite Hv; lia)). rewrite Hv.
  assert (128 <= c).
  { destruct l as [|[|[|[|[|[|]]]]]]; cbn [seq_min] in Hm; lia. }
  by rewrite (proj2 (Z.ltb_ge _ _)) by lia.
Qed.


(** * Lemmas: the other encodings *)

Lemma utf8_enc_bytes c : 0 < c <= int_max -> cstring_ok (utf8_enc c).
Proof.
  intros Hc. unfold utf8_enc. destruct (Z.ltb_spec c 128) as [H|H].
  { constructor; [lia|constructor]. }
  assert (forall l, cstring_ok (conts l c)) as Hconts.
  { induction l as [|l IH]; [constructor|]. cbn [conts]. constructor; [|done].
    pose proof (Z.mod_pos_bound (c / 64 ^ Z.of_nat l) 64 eq_refl). lia. }
  constructor; [|apply Hconts].
  destruct (utf8_lead_ok c ltac:(lia) H) as (Hx & _ & Hl & _). cbv zeta in Hl, Hx.
  assert (lead_base (seq_len c) + c / 64 ^ Z.of_nat (seq_len c) < 256) as Hlt.
  { revert Hl. unfold utf8_lead.
    repeat match goal with |- context [?a <=? ?b] => destruct (Z.leb_spec a b) end; simpl; intros; lia || done. }
  split; [|exact Hlt]. assert (0 < lead_base (seq_len c)); [|lia].
  destruct (seq_len c) as [|[|[|[|[|]]]]]; done.
Qed.

Lemma put_all_bytes cs : Forall (fun c => cp_ok c /\ c <> 0) cs -> cstring_ok (put_all cs).
Proof.
  induction 1 as [|c cs [Hc H0] _ IH]; [constructor|]. apply Forall_app. split; [|done].
  rewrite utf8_enc_put by done. apply utf8_enc_bytes. destruct Hc. lia.
Qed.

Lemma utf8_put_length c : (length (utf8_put c) <= 6)%nat.
Proof. unfold utf8_put. repeat case_match; simpl; lia. Qed.

Lemma conts_length l c : length (conts l c) = l.
Proof. induction l; simpl; congruence. Qed.

Lemma utf8_put_enc_length c : 0 <= c <= int_max -> (length (utf8_put c) <= length (utf8_enc c))%nat.
Proof.
  intros Hc. destruct (decide (utf8_put c = [])) as [->|Hne]; [simpl; lia|].
  rewrite utf8_enc_put; [done|]. split; [done|]. unfold utf8_put in Hne.
  destruct (Z.eqb_spec c 65534), (Z.eqb_spec c 65535), (Z.leb_spec 55296 c), (Z.ltb_spec c 57344);
    simpl in Hne; try done; lia.
Qed.

(** A call never encodes to more than three times the bytes it read. *)
Lemma reads_put_length rest s cs :
  reads rest s cs -> Forall is_byte (s ++ 0 :: rest) ->
  (length (put_all cs) <= 3 * length s)%nat.
Proof.
  induction 1 as [|s c s' cs E Hne Hl Hc H IH]; intros Hb; [simpl; lia|].
  pose proof (suffix_tail_length s s' Hne Hl) as Hlt. destruct Hl as [t Ht].
  assert (length (utf8_put c) <= 3 * (length s - length s'))%nat as Hlen.
  { destruct (Z.eq_dec c 65533) as [->|Hn3]; [simpl; lia|].
    apply utf8_get_inv in E; [|done..]. apply (f_equal length) in E. rewrite !length_app in E.
    pose proof (utf8_put_enc_length c ltac:(lia)). simpl in E. lia. }
  unfold put_all in *. cbn [map concat]. rewrite length_app.
  assert (Forall is_byte (s' ++ 0 :: rest)) as Hb'.
  { destruct s as [|x s]; [done|]. simpl in Ht. subst s. cbn [app] in Hb. rewrite <- app_assoc in Hb.
    inversion_clear Hb as [|? ? _ Hb']. by apply Forall_app in Hb' as [_ Hb']. }
  specialize (IH Hb'). lia.
Qed.

(** Nothing is lost when no sequence is bad. *)
Lemma reads_enc rest s cs :
  reads rest s cs -> Forall is_byte (s ++ 0 :: rest) -> Forall (fun c => c <> 65533) cs ->
  s = concat (map utf8_enc cs).
Proof.
  induction 1 as [|s c s' cs E Hne Hl Hc H IH]; intros Hb Hcs; [done|].
  inversion_clear Hcs as [|? ? Hn3 Hcs']. apply utf8_get_inv in E; [|done..].
  rewrite E in Hb. apply Forall_app in Hb as [_ Hb]. cbn [map concat].
  rewrite <- IH by done. rewrite app_assoc in E. by apply app_inv_tail in E.
Qed.

Lemma reads_enc_all rest cs :
  Forall (fun c => 0 < c <= int_max) cs -> reads rest (concat (map utf8_enc cs)) cs.
Proof.
  induction 1 as [|c cs Hc _ IH]; [constructor|]. cbn [map concat].
  apply reads_cons with (concat (map utf8_enc cs)); auto.
  - rewrite <- app_assoc. apply utf8_get_enc. lia.
  - unfold utf8_enc. by destruct (c <? 128).
  - unfold utf8_enc. destruct (c <? 128); simpl; [done|by apply suffix_app_r].
Qed.

Lemma reads_det rest s cs cs' : reads rest s cs -> reads rest s cs' -> cs = cs'.
Proof.
  intros H. revert cs'. induction H as [|s c s' cs E Hne Hl Hc H IH]; intros cs' H'.
  - inversion H'; subst; done.
  - destruct H' as [|s c2 s2 cs2 E2 _ _ _ H2]; [done|]. rewrite E in E2.
    injection E2 as -> Es. apply app_inv_tail in Es as ->. f_equal. auto.
Qed.

(** * Properties *)

(** Encoding code points and decoding the bytes yields the code points
    again, for every one the encoder does not refuse: all values up to 2^31-1
    but the surrogates, U+FFFE and U+FFFF; the encoded string is valid. *)
Theorem utf8_decode_encode (cs : list Z) (rest : list Z) :
  Forall (fun c => cp_ok c /\ c <> 0) cs ->
  utf8_decode (S (length cs)) (put_all cs ++ 0 :: rest) = Ok cs /\
  (Forall (fun c => c <> 65533) cs -> utf8_verify (put_all cs ++ [0]) = Ok true).
Proof.
  intros Hcs. split.
  - apply (reads_decode rest _ cs); [by apply reads_put_all|lia].
  - intros Hn3. unfold utf8_verify. pose proof (reads_put_all [] cs Hcs) as Hr.
    pose proof (reads_length _ _ _ Hr). rewrite (reads_verify [] _ cs); [|done|rewrite length_app; simpl; lia].
    f_equal. apply forallb_forall. intros c Hc%list_elem_of_In. rewrite Forall_forall in Hn3.
    apply negb_true_iff, Z.eqb_neq. auto.
Qed.

Lemma utf8_decode_encode_witness :
  utf8_decode 4 ([65; 195; 165; 226; 130; 172] ++ [0]) = Ok [65; 229; 8364].
Proof.
  apply (utf8_decode_encode [65; 229; 8364] []).
  repeat constructor; unfold cp_ok; simpl; unfold int_max; lia.
Defined.

(** A code point that UTF-8 encodes. *)
Definition scalar_value (c : Z) : Prop := 0 < c < 1114112 /\ ~ 55296 <= c < 57344.

(** The first byte of a sequence, and the others. *)
Lemma utf8_enc_shape c : 0 < c <= int_max ->
  Forall (fun b => b <> 192 /\ b <> 193 /\ b <> 254 /\ b <> 255) (utf8_enc c) /\
  (Forall (fun b => b < 245) (utf8_enc c) -> c < 1310720).
Proof.
  intros Hc. unfold utf8_enc. destruct (Z.ltb_spec c 128) as [H|H].
  { split; [repeat constructor; lia|]. lia. }
  assert (forall l, Forall (fun b => b <> 192 /\ b <> 193 /\ b <> 254 /\ b <> 255) (conts l c)) as Hconts.
  { induction l as [|l IH]; [constructor|]. cbn [conts]. constructor; [|done].
    pose proof (Z.mod_pos_bound (c / 64 ^ Z.of_nat l) 64 eq_refl). lia. }
  destruct (utf8_lead_ok c ltac:(lia) H) as (Hx & _ & Hl & _). cbv zeta in Hl, Hx. split.
  - constructor; [|apply Hconts]. assert (forall b, b = 192 \/ b = 193 \/ b = 254 \/ b = 255 -> utf8_lead b = None) as Hno by (by intros b [->|[->|[->| ->]]]).
    assert (forall b, b = 192 \/ b = 193 \/ b = 254 \/ b = 255 -> lead_base (seq_len c) + c / 64 ^ Z.of_nat (seq_len c) <> b) as Hne.
    { intros b Hb E. rewrite E, (Hno b Hb) in Hl. done. }
    split_and!; apply Hne; tauto.
  - intros Hb%Forall_cons_1. destruct Hb as [Hb _]. revert Hb Hx. unfold seq_len. rewrite (proj2 (Z.ltb_ge _ _) H).
    destruct (Z.ltb_spec c 2048); [|destruct (Z.ltb_spec c 65536); [|destruct (Z.ltb_spec c 2097152);
      [|destruct (Z.ltb_spec c 67108864)]]]; cbn [lead_base].
    all: repeat match goal with |- context [64 ^ Z.of_nat ?n] =>
      let v := eval vm_compute in (64 ^ Z.of_nat n) in change (64 ^ Z.of_nat n) with v end.
    all: intros; Z.to_euclidean_division_equations; lia.
Qed.

(** C31: verification never faults.  It accepts every string of encoded Unicode
    code points other than U+FFFD; and what it accepts consists of whole
    sequences, none of them overlong, with no stray byte between them and none
    of the bytes 192, 193, 254 and 255.  If it has no byte of 245 and above
    either, no sequence is longer than four bytes. *)
Theorem utf8_verify_strict (s : list Z) :
  cstring_ok s ->
  exists b, utf8_verify (s ++ [0]) = Ok b /\
  (forall cs, Forall (fun c => scalar_value c /\ c <> 65533) cs -> s = concat (map utf8_enc cs) -> b = true) /\
  (b = true -> Forall (fun x => x <> 192 /\ x <> 193 /\ x <> 254 /\ x <> 255) s /\
     exists cs, Forall (fun c => 0 < c <= int_max) cs /\ s = concat (map utf8_enc cs) /\
       (Forall (fun x => x < 245) s -> Forall (fun c => c < 1310720) cs)).
Proof.
  intros Hs. destruct (reads_total [] s Hs) as (cs & Hr).
  pose proof (reads_length _ _ _ Hr). unfold utf8_verify.
  rewrite (reads_verify [] s cs) by (done || (rewrite length_app; simpl; lia)).
  eexists. split; [done|]. pose proof (reads_range _ _ _ Hr) as Hrange. split.
  - intros cs' Hcs' ->. assert (Forall (fun c => 0 < c <= int_max) cs') as Hr'.
    { eapply Forall_impl; [exact Hcs'|]. intros c [[? _] _]. unfold int_max. lia. }
    assert (cs = cs') as <- by (apply (reads_det [] _ _ _ Hr), (reads_enc_all [] cs' Hr')).
    apply forallb_forall. intros c Hc%list_elem_of_In. rewrite Forall_forall in Hcs'.
    apply negb_true_iff, Z.eqb_neq. by apply Hcs'.
  - rewrite forallb_forall. intros Hall. assert (Forall (fun c => c <> 65533) cs) as Hn3.
    { apply Forall_forall. intros c Hc%list_elem_of_In%Hall. by apply negb_true_iff, Z.eqb_neq in Hc. }
    assert (s = concat (map utf8_enc cs)) as Es.
    { apply (reads_enc [] s cs Hr); [|done]. apply Forall_app. split; [by apply cstring_bytes|]. by repeat constructor. }
    split; [|exists cs; split; [done|split; [done|]]]; rewrite Es; clear -Hrange.
    + induction Hrange as [|c cs Hc _ IH]; [constructor|]. cbn [map concat]. apply Forall_app. split; [by apply utf8_enc_shape|done].
    + induction Hrange as [|c cs Hc _ IH]; [constructor|]. cbn [map concat]. intros [Hb1 Hb2]%Forall_app.
      constructor; [by apply utf8_enc_shape|by apply IH].
Qed.

Lemma utf8_verify_strict_witness : utf8_verify ([226; 130; 172; 65] ++ [0]) = Ok true.
Proof.
  destruct (utf8_verify_strict [226; 130; 172; 65]) as (b & -> & Hb & _).
  - repeat constructor; lia.
  - f_equal. apply (Hb [8364; 65]); [|reflexivity]. repeat constructor; lia.
Defined.

(** On every string a decoding loop stops at the terminator without a read
    beyond it or an overflow; cleaning returns nothing for a string that
    verifies, and otherwise a string that holds the decoded code points that
    can be encoded, written within exactly the memory that was allocated. *)
Theorem utf8_cleanup_spec (s : list Z) :
  cstring_ok s -> 3 * Z.of_nat (length s) < int_max ->
  exists cs, utf8_decode (S (length s)) (s ++ [0]) = Ok cs /\
  exists b, utf8_verify (s ++ [0]) = Ok b /\
  utf8_cleanup (s ++ [0]) = Ok (if b : bool then None else Some (put_all cs)) /\
  utf8_decode (S (length (put_all cs))) (put_all cs ++ [0])
    = Ok (filter (fun c => utf8_put c <> []) cs).
Proof.
  intros Hs Hlen. destruct (reads_total [] s Hs) as (cs & Hr). exists cs.
  pose proof (reads_length _ _ _ Hr) as Hl. pose proof (reads_range _ _ _ Hr) as Hrange.
  split; [by apply (reads_decode []); [|lia]|].
  unfold utf8_verify, utf8_cleanup.
  assert (length (s ++ [0]) = S (length s)) as Hsl by (rewrite length_app; simpl; lia).
  rewrite (reads_verify [] s cs) by (done || lia). eexists. split; [done|].
  assert (Forall is_byte (s ++ [0])) as Hb.
  { apply Forall_app. split; [by apply cstring_bytes|]. by repeat constructor. }
  pose proof (reads_put_length [] s cs Hr Hb) as Hp. unfold int_max in Hlen.
  rewrite (reads_scan [] s cs) by (done || ilia). rewrite ok_bind. cbn [orb]. split.
  - assert (existsb (fun c => c =? 65533) cs = negb (forallb (fun c => negb (c =? 65533)) cs)) as ->.
    { clear. induction cs as [|c cs IH]; [done|]. simpl. rewrite IH. by destruct (c =? 65533). }
    rewrite negb_involutive. destruct (forallb _ cs); [done|].
    by rewrite (reads_write [] s cs) by (done || lia || (simpl; lia)).
  - set (cs' := filter (fun c => utf8_put c <> []) cs).
    assert (put_all cs = put_all cs' /\ Forall (fun c => cp_ok c /\ c <> 0) cs') as [-> Hcs'].
    { subst cs'. clear -Hrange. induction Hrange as [|c cs Hc _ [IH1 IH2]]; [done|].
      destruct (decide (utf8_put c = [])) as [He|Hne].
      - rewrite filter_cons_False by tauto. unfold put_all. cbn [map concat]. by rewrite He.
      - rewrite filter_cons_True by done. unfold put_all in *. cbn [map concat].
        split; [by rewrite IH1|]. constructor; [|done]. split; [|lia].
        split; [lia|]. unfold utf8_put in Hne.
        destruct (Z.eqb_spec c 65534), (Z.eqb_spec c 65535), (Z.leb_spec 55296 c), (Z.ltb_spec c 57344);
          simpl in Hne; try done; lia. }
    pose proof (reads_put_all [] cs' Hcs') as Hr'. pose proof (reads_length _ _ _ Hr').
    apply (reads_decode []); [done|lia].
Qed.

Lemma utf8_cleanup_spec_witness :
  utf8_cleanup ([97; 255; 98] ++ [0]) = Ok (Some [97; 239; 191; 189; 98]).
Proof.
  destruct (utf8_cleanup_spec [97; 255; 98]) as (cs & E & b & Eb & Ec & _).
  - repeat constructor; lia.
  - unfold int_max. simpl. lia.
  - vm_compute in E, Eb. injection E as <-. injection Eb as <-. exact Ec.
Defined.

(** * UCS-2, UTF-16 and single byte sets *)

Lemma unit_value a b : is_byte a -> Z.lor a (Z.shiftl b 8) = b * 256 + a.
Proof. intros Ha. rewrite Z.lor_comm. by apply (lor_shiftl 8). Qed.

Lemma utf8_put_short c : c < 65536 -> (length (utf8_put c) <= 3)%nat.
Proof.
  intros Hc. unfold utf8_put. rewrite (proj2 (Z.ltb_lt c 65536)) by done.
  repeat case_match; simpl; lia.
Qed.

Lemma ucs2_to_utf8_loop_bound src : forall dst dstlen le,
  Forall is_byte src -> 1 <= dstlen ->
  Z.of_nat (length (ucs2_to_utf8_loop dst dstlen src le)) < Z.of_nat (length dst) + dstlen.
Proof.
  induction src as [src IH] using (induction_ltof1 _ (@length Z)). unfold ltof in IH.
  intros dst dstlen le Hs Hd. destruct src as [|s0 [|s1 src]]; cbn [ucs2_to_utf8_loop]; [lia..|].
  destruct (Z.ltb_spec 3 dstlen) as [H3|]; [|lia].
  inversion_clear Hs as [|? ? H0 Hs']. inversion_clear Hs' as [|? ? H1 Hs]. cbv zeta.
  set (c := if le then _ else _). destruct (c =? 0); [lia|].
  assert (c < 65536).
  { subst c. destruct le; rewrite unit_value by done; unfold is_byte in *; lia. }
  pose proof (utf8_put_short c ltac:(lia)).
  assert (length src < length (s0 :: s1 :: src))%nat as Hlt by (simpl; lia).
  specialize (IH src Hlt (dst ++ utf8_put c) (dstlen - Z.of_nat (length (utf8_put c))) le Hs ltac:(lia)).
  rewrite length_app in IH. lia.
Qed.

Lemma ucs2_bytes_unit le c : 0 <= c < 65536 ->
  exists s0 s1, ucs2_bytes le c = [s0; s1] /\ is_byte s0 /\ is_byte s1 /\
    (if le then Z.lor s0 (Z.shiftl s1 8) else Z.lor s1 (Z.shiftl s0 8)) = c.
Proof.
  intros Hc. assert (u8 (Z.shiftr c 8) * 256 + u8 c = c) as Hv.
  { rewrite Z.shiftr_div_pow2 by done. change (2 ^ 8) with 256. unfold u8.
    rewrite (Z.mod_small (c / 256)) by (Z.to_euclidean_division_equations; lia).
    Z.to_euclidean_division_equations; lia. }
  unfold ucs2_bytes. destruct le; eexists _, _; split_and!; try done; try apply u8_byte;
    by rewrite unit_value by apply u8_byte.
Qed.

Definition bmp_ok (c : Z) : Prop := cp_ok c /\ 0 < c < 65536.

Lemma ucs2_loop_put cs tail : forall dst dstlen le,
  Forall bmp_ok cs ->
  Z.of_nat (length (put_all cs)) + 3 < dstlen ->
  ucs2_to_utf8_loop dst dstlen (concat (map (ucs2_bytes le) cs) ++ 0 :: 0 :: tail) le = dst ++ put_all cs.
Proof.
  induction cs as [|c cs IH]; intros dst dstlen le Hcs Hlen; cbn [map concat app].
  { cbn [ucs2_to_utf8_loop]. destruct (3 <? dstlen), le; simpl; by rewrite app_nil_r. }
  inversion_clear Hcs as [|? ? [Hc Hr] Hcs'].
  destruct (ucs2_bytes_unit le c) as (s0 & s1 & -> & _ & _ & Hu); [lia|].
  cbn [app ucs2_to_utf8_loop]. unfold put_all in Hlen. cbn [map concat] in Hlen.
  rewrite length_app in Hlen. fold (put_all cs) in Hlen.
  rewrite (proj2 (Z.ltb_lt 3 dstlen)) by lia. cbv zeta. rewrite Hu.
  rewrite (proj2 (Z.eqb_neq c 0)) by lia. rewrite IH; [|done|lia].
  unfold put_all. cbn [map concat]. by rewrite app_assoc.
Qed.

(** The conversion from UCS-2 never writes past its buffer and always
    terminates the string; UCS-2 text made from a valid string of the basic
    plane converts back to it when the buffer has room, and a code point
    outside that plane is refused. *)
Theorem ucs2_roundtrip (cs : list Z) (le : bool) (dstlen : Z) :
  Forall (fun c => cp_ok c /\ c <> 0) cs ->
  (forall src, Forall is_byte src -> 1 <= dstlen ->
     exists out, ucs2_to_utf8 dstlen src le = Ok (out ++ [0]) /\ Z.of_nat (length out) < dstlen) /\
  exists r, utf8_to_ucs2 (put_all cs ++ [0]) le = Ok r /\
  match r with
  | Some b => length b = (2 * length cs + 2)%nat /\
      (Z.of_nat (length (put_all cs)) + 3 < dstlen ->
       ucs2_to_utf8 dstlen b le = Ok (put_all cs ++ [0]))
  | None => exists c, c ∈ cs /\ 65535 < c
  end.
Proof.
  intros Hcs. split.
  { intros src Hs Hd. unfold ucs2_to_utf8.
    pose proof (ucs2_to_utf8_loop_bound src [] dstlen le Hs Hd) as Hb. simpl in Hb.
    rewrite (proj2 (Z.ltb_lt _ _)) by lia. eauto. }
  pose proof (reads_put_all [] cs Hcs) as Hr. pose proof (reads_length _ _ _ Hr).
  unfold utf8_to_ucs2. rewrite (reads_ucs2 [] _ cs) by (done || (rewrite length_app; simpl; lia)).
  eexists. split; [done|]. destruct (forallb (fun c => c <=? 65535) cs) eqn:Ef.
  - rewrite forallb_forall in Ef. assert (Forall bmp_ok cs) as Hbmp.
    { apply Forall_forall. intros c Hin. rewrite Forall_forall in Hcs. destruct (Hcs c Hin) as [Hc H0].
      split; [done|]. apply list_elem_of_In, Ef, Z.leb_le in Hin. destruct Hc. lia. }
    split.
    + cbn [app]. rewrite length_app. simpl.
      assert (length (concat (map (ucs2_bytes le) cs)) = 2 * length cs)%nat; [|lia].
      clear. induction cs as [|c cs IH]; [done|]. cbn [map concat]. rewrite length_app, IH.
      by destruct le; simpl; lia.
    + intros Hd. unfold ucs2_to_utf8. cbn [app]. rewrite ucs2_loop_put by (done || lia).
      cbn [app]. by rewrite (proj2 (Z.ltb_lt _ _)) by lia.
  - apply not_true_iff_false in Ef. rewrite forallb_forall in Ef.
    clear -Ef. induction cs as [|c cs IH]; [by destruct Ef|].
    destruct (Z.le_gt_cases c 65535) as [Hle|Hgt]; [|exists c; split; [set_solver|lia]].
    destruct IH as (c' & Hin & Hc').
    + intros H'. apply Ef. intros x [<-|Hx]; [by apply Z.leb_le|auto].
    + exists c'. split; [set_solver|done].
Qed.

Lemma ucs2_roundtrip_witness :
  exists b, utf8_to_ucs2 (put_all [65; 8364] ++ [0]) true = Ok (Some b) /\
    ucs2_to_utf8 10 b true = Ok (put_all [65; 8364] ++ [0]).
Proof.
  destruct (ucs2_roundtrip [65; 8364] true 10) as (_ & r & E & H).
  - repeat constructor; unfold cp_ok; simpl; unfold int_max; lia.
  - vm_compute in E. injection E as <-. eexists. split; [vm_compute; reflexivity|].
    apply H. vm_compute. reflexivity.
Defined.

Lemma cchar_cases {cs : CharSign} c : 0 < c < 256 ->
  (if char_signed then cchar c = if c <? 128 then c else c - 256 else cchar c = c) /\
  cchar c <> 0 /\ u8 (cchar c) = c.
Proof.
  intros Hc. unfold cchar, s8. rewrite (u8_id c) by (unfold is_byte; lia).
  destruct char_signed; [|split_and!; [done|lia|by apply u8_id; unfold is_byte; lia]].
  destruct (Z.ltb_spec c 128); (split; [done|split; [lia|]]); [by apply u8_id; unfold is_byte; lia|].
  unfold u8. rewrite <- (Z.mod_add _ 1), Z.mod_small by lia. lia.
Qed.

Lemma until_nul_string {cs : CharSign} s : cstring_ok s -> until_nul s = s.
Proof.
  induction 1 as [|c s Hc _ IH]; [done|]. cbn [until_nul].
  destruct (cchar_cases c Hc) as (_ & H0 & _). by rewrite (proj2 (Z.eqb_neq _ _) H0), IH.
Qed.

Lemma no_bom c cs : cp_ok c -> 0 < c < 65536 -> c <> 65279 ->
  utf16_bom (cs := false) (concat (map (ucs2_bytes false) (c :: cs))) =
    (false, concat (map (ucs2_bytes false) (c :: cs))).
Proof.
  intros (_ & Hn & _) Hr Hc. cbn [map concat].
  destruct (ucs2_bytes_unit false c) as (s0 & s1 & -> & _ & _ & Hv); [lia|]. cbn [app utf16_bom].
  unfold cchar, char_signed.
  assert ((s0 =? 255) && (s1 =? 254) = false) as ->.
  { apply not_true_is_false. intros [->%Z.eqb_eq ->%Z.eqb_eq]%andb_true_iff. by apply Hn. }
  assert ((s0 =? 254) && (s1 =? 255) = false) as ->; [|done].
  apply not_true_is_false. intros [->%Z.eqb_eq ->%Z.eqb_eq]%andb_true_iff. by apply Hc.
Qed.

(** UTF-16 text converts to the UTF-8 encoding of its code points, in the
    order its byte order mark announces and in big endian order when it has
    none; the mark itself is left out.  Fewer than two bytes are refused. *)
Theorem utf16_to_utf8_spec (cs : list Z) (mark : option bool) :
  Forall bmp_ok cs -> (mark = None -> exists c cs', cs = c :: cs' /\ c <> 65279) ->
  utf16_to_utf8 (cs := false)
    (match mark with Some true => [255; 254] | Some false => [254; 255] | None => [] end ++
     concat (map (ucs2_bytes (default false mark)) cs)) = Some (put_all cs) /\
  (forall src, (length src < 2)%nat -> utf16_to_utf8 (cs := false) src = None).
Proof.
  intros Hcs Hm. split.
  - assert (forall le, utf16_units (cs := false) le (concat (map (ucs2_bytes le) cs)) = cs) as Hu.
    { intros le. clear Hm. induction Hcs as [|c cs [_ Hr] _ IH]; [done|]. cbn [map concat].
      destruct (ucs2_bytes_unit le c) as (s0 & s1 & -> & _ & _ & Hu); [lia|].
      cbn [app utf16_units]. by rewrite IH, <- Hu at 1. }
    unfold utf16_to_utf8, put_all. destruct mark as [le|].
    + rewrite (proj2 (Z.ltb_ge _ _)) by (rewrite length_app; destruct le; simpl; lia).
      assert (forall x, utf16_bom (cs := false) ((if le then [255; 254] else [254; 255]) ++ x) = (le, x)) as ->
        by (by destruct le).
      by rewrite Hu.
    + destruct (Hm eq_refl) as (c & cs' & -> & Hc). apply Forall_cons in Hcs as [[Hok Hr] Hcs].
      cbn [app default from_option]. rewrite (no_bom c _ Hok Hr Hc).
      rewrite (proj2 (Z.ltb_ge _ _)), Hu; [done|]. cbn [map concat]. rewrite length_app. simpl. lia.
  - intros src Hl. unfold utf16_to_utf8. by rewrite (proj2 (Z.ltb_lt _ _)) by lia.
Qed.

Lemma utf16_to_utf8_spec_witness :
  utf16_to_utf8 (cs := false) [254; 255; 0; 65; 32; 172] = Some [65; 226; 130; 172].
Proof.
  apply (proj1 (utf16_to_utf8_spec [65; 8364] (Some false)
    ltac:(repeat constructor; unfold cp_ok; simpl; unfold int_max; lia) ltac:(discriminate))).
Defined.

(** A single byte character set converts a string to the UTF-8 encoding of its
    table's code points, with U+FFFD for bytes that have none; ISO-8859-1, which
    has no table, to that of its bytes. *)
Definition table_point (table : list Z) (c : Z) : Z :=
  let p := nth (Z.to_nat c) table 0 in if p =? 0 then 65533 else p.

Lemma convert_table_put {sg : CharSign} table s : cstring_ok s -> Forall cp_ok table ->
  convert_table table s = put_all (map (table_point table) s) /\
  Forall (fun c => cp_ok c /\ c <> 0) (map (table_point table) s).
Proof.
  intros Hs Ht. split.
  - unfold convert_table, put_all. rewrite until_nul_string, map_map by done. f_equal. apply map_ext_in.
    intros c Hc%list_elem_of_In. unfold cstring_ok in Hs. rewrite Forall_forall in Hs.
    unfold table_char. destruct (cchar_cases c (Hs c Hc)) as (_ & _ & ->). done.
  - apply Forall_forall. intros p Hp. apply list_elem_of_In, in_map_iff in Hp as (c & <- & _).
    unfold table_point. destruct (Z.eqb_spec (nth (Z.to_nat c) table 0) 0) as [|Hne].
    { unfold cp_ok, int_max. lia. }
    split; [|done]. destruct (nth_in_or_default (Z.to_nat c) table 0) as [Hin|Hd]; [|by rewrite Hd in Hne].
    rewrite Forall_forall in Ht. by apply Ht, list_elem_of_In.
Qed.

Lemma convert_iso_put s : cstring_ok s ->
  convert_iso_8859_1 (cs := false) s = put_all s /\ Forall (fun c => cp_ok c /\ c <> 0) s.
Proof.
  intros Hs. split; [unfold convert_iso_8859_1; by rewrite until_nul_string|].
  eapply Forall_impl; [exact Hs|]. intros c Hc. unfold cp_ok, int_max. simpl in Hc. lia.
Qed.
