(* ===== verification/Str.v ===== *)
(** String tools (src/src/misc/str.c): URL escaping and its inverse in place,
    hexadecimal, colours, C style escapes, line splitting, vectors of strings,
    searching, and relative URLs.  Functions that write through a pointer work
    on the list of the bytes of the buffer, with bounds checked stores. *)
From S2P Require Import Prelude Clib.

Local Open Scope Z_scope.

(** * Forbidden characters *)

(** [index] also finds the terminator, which [*s] is not. *)
Fixpoint str_cleanup (s forbidden : list Z) : list Z :=
  match s with
  | [] => []
  | c :: s =>
      (match strchr c forbidden with Some _ => 95 | None => c end) :: str_cleanup s forbidden
  end.

(** * URL escapes *)

Definition hexnibble (c : Z) : Z :=
  if (48 <=? c) && (c <=? 57) then c - 48
  else if (97 <=? c) && (c <=? 102) then c - 97 + 10
  else if (65 <=? c) && (c <=? 70) then c - 65 + 10
  else -1.

(** The two [switch]es of [url_deescape]: the value of a digit, none otherwise. *)
Definition url_digit (c : Z) : option Z :=
  if (48 <=? c) && (c <=? 57) then Some (c - 48)
  else if (97 <=? c) && (c <=? 102) then Some (c - 97 + 10)
  else if (65 <=? c) && (c <=? 70) then Some (c - 65 + 10)
  else None.

(** [s] and [d] are the offsets of the two pointers into the one buffer. *)
Fixpoint url_deescape_loop (fuel : nat) (mem : list Z) (s d : nat) : res (list Z) :=
  match fuel with
  | O => Fault NoFuel
  | S fuel =>
      c ← mread mem s;
      if c =? 0 then mwrite mem d 0
      else if c =? 43 then
        mem ← mwrite mem d 32; url_deescape_loop fuel mem (S s) (S d)
      else if c =? 37 then
        c1 ← mread mem (S s);
        match url_digit c1 with
        | None => mwrite mem d 0
        | Some v1 =>
            c2 ← mread mem (S (S s));
            match url_digit c2 with
            | None => mwrite mem d 0
            | Some v2 =>
                mem ← mwrite mem d (u8 (Z.lor (Z.shiftl v1 4) v2));
                url_deescape_loop fuel mem (S (S (S s))) (S d)
            end
        end
      else
        mem ← mwrite mem d c; url_deescape_loop fuel mem (S s) (S d)
  end.
Definition url_deescape (mem : list Z) : res (list Z) :=
  url_deescape_loop (length mem) mem 0 0.

Definition hexchars : list Z := lit "0123456789ABCDEF".

Definition url_escape_param : list Z := [
  0; 0; 0; 0; 0; 0; 0; 0; 0; 0; 0; 0; 0; 0; 0; 0;
  0; 0; 0; 0; 0; 0; 0; 0; 0; 0; 0; 0; 0; 0; 0; 0;
  2; 0; 0; 0; 0; 0; 0; 0; 0; 0; 0; 0; 0; 1; 1; 0;
  1; 1; 1; 1; 1; 1; 1; 1; 1; 1; 0; 0; 0; 0; 0; 0;
  0; 1; 1; 1; 1; 1; 1; 1; 1; 1; 1; 1; 1; 1; 1; 1;
  1; 1; 1; 1; 1; 1; 1; 1; 1; 1; 1; 0; 0; 0; 0; 1;
  0; 1; 1; 1; 1; 1; 1; 1; 1; 1; 1; 1; 1; 1; 1; 1;
  1; 1; 1; 1; 1; 1; 1; 1; 1; 1; 1; 0; 0; 0; 1; 0;
  0; 0; 0; 0; 0; 0; 0; 0; 0; 0; 0; 0; 0; 0; 0; 0;
  0; 0; 0; 0; 0; 0; 0; 0; 0; 0; 0; 0; 0; 0; 0; 0;
  0; 0; 0; 0; 0; 0; 0; 0; 0; 0; 0; 0; 0; 0; 0; 0;
  0; 0; 0; 0; 0; 0; 0; 0; 0; 0; 0; 0; 0; 0; 0; 0;
  0; 0; 0; 0; 0; 0; 0; 0; 0; 0; 0; 0; 0; 0; 0; 0;
  0; 0; 0; 0; 0; 0; 0; 0; 0; 0; 0; 0; 0; 0; 0; 0;
  0; 0; 0; 0; 0; 0; 0; 0; 0; 0; 0; 0; 0; 0; 0; 0;
  0; 0; 0; 0; 0; 0; 0; 0; 0; 0; 0; 0; 0; 0; 0; 0].

Definition url_escape_path : list Z := [
  0; 0; 0; 0; 0; 0; 0; 0; 0; 0; 0; 0; 0; 0; 0; 0;
  0; 0; 0; 0; 0; 0; 0; 0; 0; 0; 0; 0; 0; 0; 0; 0;
  0; 0; 0; 0; 0; 0; 0; 0; 0; 0; 0; 0; 0; 1; 1; 1;
  1; 1; 1; 1; 1; 1; 1; 1; 1; 1; 0; 0; 0; 0; 0; 0;
  0; 1; 1; 1; 1; 1; 1; 1; 1; 1; 1; 1; 1; 1; 1; 1;
  1; 1; 1; 1; 1; 1; 1; 1; 1; 1; 1; 0; 0; 0; 0; 1;
  0; 1; 1; 1; 1; 1; 1; 1; 1; 1; 1; 1; 1; 1; 1; 1;
  1; 1; 1; 1; 1; 1; 1; 1; 1; 1; 1; 0; 0; 0; 1; 0;
  0; 0; 0; 0; 0; 0; 0; 0; 0; 0; 0; 0; 0; 0; 0; 0;
  0; 0; 0; 0; 0; 0; 0; 0; 0; 0; 0; 0; 0; 0; 0; 0;
  0; 0; 0; 0; 0; 0; 0; 0; 0; 0; 0; 0; 0; 0; 0; 0;
  0; 0; 0; 0; 0; 0; 0; 0; 0; 0; 0; 0; 0; 0; 0; 0;
  0; 0; 0; 0; 0; 0; 0; 0; 0; 0; 0; 0; 0; 0; 0; 0;
  0; 0; 0; 0; 0; 0; 0; 0; 0; 0; 0; 0; 0; 0; 0; 0;
  0; 0; 0; 0; 0; 0; 0; 0; 0; 0; 0; 0; 0; 0; 0; 0;
  0; 0; 0; 0; 0; 0; 0; 0; 0; 0; 0; 0; 0; 0; 0; 0].

Definition url_escape_space_only : list Z := [
  0; 0; 0; 0; 0; 0; 0; 0; 0; 0; 0; 0; 0; 0; 0; 0;
  0; 0; 0; 0; 0; 0; 0; 0; 0; 0; 0; 0; 0; 0; 0; 0;
  0; 1; 1; 1; 1; 1; 1; 1; 1; 1; 1; 1; 1; 1; 1; 1;
  1; 1; 1; 1; 1; 1; 1; 1; 1; 1; 1; 1; 1; 1; 1; 1;
  1; 1; 1; 1; 1; 1; 1; 1; 1; 1; 1; 1; 1; 1; 1; 1;
  1; 1; 1; 1; 1; 1; 1; 1; 1; 1; 1; 1; 1; 1; 1; 1;
  1; 1; 1; 1; 1; 1; 1; 1; 1; 1; 1; 1; 1; 1; 1; 1;
  1; 1; 1; 1; 1; 1; 1; 1; 1; 1; 1; 1; 1; 1; 1; 1;
  1; 1; 1; 1; 1; 1; 1; 1; 1; 1; 1; 1; 1; 1; 1; 1;
  1; 1; 1; 1; 1; 1; 1; 1; 1; 1; 1; 1; 1; 1; 1; 1;
  1; 1; 1; 1; 1; 1; 1; 1; 1; 1; 1; 1; 1; 1; 1; 1;
  1; 1; 1; 1; 1; 1; 1; 1; 1; 1; 1; 1; 1; 1; 1; 1;
  1; 1; 1; 1; 1; 1; 1; 1; 1; 1; 1; 1; 1; 1; 1; 1;
  1; 1; 1; 1; 1; 1; 1; 1; 1; 1; 1; 1; 1; 1; 1; 1;
  1; 1; 1; 1; 1; 1; 1; 1; 1; 1; 1; 1; 1; 1; 1; 1;
  1; 1; 1; 1; 1; 1; 1; 1; 1; 1; 1; 1; 1; 1; 1; 1].

Definition URL_ESCAPE_PATH : Z := 1.
Definition URL_ESCAPE_PARAM : Z := 2.
Definition URL_ESCAPE_SPACE_ONLY : Z := 3.

Definition url_escape_table (how : Z) : res (list Z) :=
  if how =? URL_ESCAPE_PATH then Ok url_escape_path
  else if how =? URL_ESCAPE_PARAM then Ok url_escape_param
  else if how =? URL_ESCAPE_SPACE_ONLY then Ok url_escape_space_only
  else Fault AssertFailed.

Definition hexdigit (s : Z) : Z := nth (Z.to_nat (Z.land s 15)) hexchars 0.

Fixpoint url_escape_loop (table : list Z) (dst : list Z) (size r : Z) (src : list Z)
    : res (list Z * Z) :=
  match src with
  | [] => Ok (dst, r)
  | s :: src =>
      let k := nth (Z.to_nat s) table 0 in
      if k =? 0 then
        dst ← (if r <? size - 3 then
                 dst ← mwrite dst (Z.to_nat r) 37;
                 dst ← mwrite dst (Z.to_nat (r + 1)) (hexdigit (Z.shiftr s 4));
                 mwrite dst (Z.to_nat (r + 2)) (hexdigit s)
               else Ok dst);
        r ← chk_int (r + 3);
        url_escape_loop table dst size r src
      else
        let s := if k =? 2 then 43 else s in
        dst ← (if r <? size - 1 then mwrite dst (Z.to_nat r) s else Ok dst);
        r ← chk_int (r + 1);
        url_escape_loop table dst size r src
  end.

(** The buffer afterwards and the number of bytes a full result needs. *)
Definition url_escape (dst : list Z) (size : Z) (src : list Z) (how : Z) : res (list Z * Z) :=
  table ← url_escape_table how;
  x ← url_escape_loop table dst size 0 src;
  let '(dst, r) := x in
  dst ← (if r <? size then mwrite dst (Z.to_nat r) 0 else Ok dst);
  n ← chk_int (r + 1);
  Ok (dst, n).

(** * Hexadecimal *)

(** The bytes stored in the buffer; [None] for the result -1.  [str] is the
    string with its terminator. *)
Fixpoint hex2binl_loop (fuel : nat) (buf : list Z) (buflen : Z) (str : list Z) (maxlen : Z)
    : res (option (list Z)) :=
  match str with
  | [] => Fault OobRead
  | c :: str' =>
      if c =? 0 then Ok (Some buf)
      else if maxlen <? 2 then Ok (Some buf)
      else if buflen =? 0 then Ok None
      else
        let hi := hexnibble c in
        if hi =? -1 then Ok None
        else match str' with
        | [] => Fault OobRead
        | c2 :: str'' =>
            let lo := hexnibble c2 in
            if lo =? -1 then Ok None
            else match fuel with
            | O => Fault NoFuel
            | S fuel =>
                hex2binl_loop fuel (buf ++ [u8 (Z.lor (Z.shiftl hi 4) lo)]) (buflen - 1) str''
                  (maxlen - 2)
            end
        end
  end.
Definition hex2binl (buflen : Z) (str : list Z) (maxlen : Z) : res (option (list Z)) :=
  hex2binl_loop (length str) [] buflen str maxlen.

Definition hexchars_lower : list Z := lit "0123456789abcdef".
Definition hexdigit_lower (s : Z) : Z := nth (Z.to_nat s) hexchars_lower 0.

(** What is stored at [dst], of [dstlen] bytes, without the terminator. *)
Fixpoint bin2hex_loop (dstlen : Z) (src : list Z) : list Z :=
  match src with
  | [] => []
  | b :: src =>
      if 2 <? dstlen then
        hexdigit_lower (Z.shiftr b 4) :: hexdigit_lower (Z.land b 15) :: bin2hex_loop (dstlen - 2) src
      else []
  end.
Definition bin2hex (dstlen : Z) (src : list Z) : res (list Z) :=
  let out := bin2hex_loop dstlen src in
  if Z.of_nat (length out) <? dstlen then Ok (out ++ [0]) else Fault OobWrite.

(** [hexnibble] in an expression that is stored in a [uint8_t]. *)
Definition html_makecolor (str : list Z) : Z :=
  let str := match str with 35 :: str' => str' | _ => str end in
  let pack r g b := Z.lor (Z.lor (Z.shiftl b 16) (Z.shiftl g 8)) r in
  match str with
  | [a; b; c] =>
      pack (u8 (hexnibble a * 17)) (u8 (hexnibble b * 17)) (u8 (hexnibble c * 17))
  | [a; b; c; d; e; f] =>
      let two x y := u8 (Z.lor (Z.shiftl (hexnibble x) 4) (hexnibble y)) in
      pack (two a b) (two c d) (two e f)
  | _ => 0
  end.

(** * C style escapes, in place *)

Fixpoint deescape_cstyle_loop (fuel : nat) (mem : list Z) (src dst : nat) : res (list Z) :=
  match fuel with
  | O => Fault NoFuel
  | S fuel =>
      c ← mread mem src;
      if c =? 0 then mwrite mem dst 0
      else if c =? 92 then
        c ← mread mem (S src);
        if c =? 0 then mwrite mem dst 0
        else
          x ← (if c =? 110 then mem ← mwrite mem dst 10; Ok (mem, S dst) else Ok (mem, dst));
          let '(mem, dst) := x in
          c ← mread mem (S src);
          x ← (if c =? 92 then mem ← mwrite mem dst 92; Ok (mem, S dst) else Ok (mem, dst));
          let '(mem, dst) := x in
          deescape_cstyle_loop fuel mem (S (S src)) dst
      else
        mem ← mwrite mem dst c; deescape_cstyle_loop fuel mem (S src) (S dst)
  end.
Definition deescape_cstyle (mem : list Z) : res (list Z) :=
  deescape_cstyle_loop (length mem) mem 0 0.

(** * Lower case, searching and lines *)

Fixpoint mystrlower (s : list Z) : list Z :=
  match s with
  | [] => []
  | c :: s => (if (65 <=? c) && (c <=? 90) then c + 32 else c) :: mystrlower s
  end.

(** The inner loop of [find_str]: whether [needle] is at the start of [s]. *)
Fixpoint find_str_here (s needle : list Z) : res bool :=
  match needle with
  | [] => Ok true
  | n :: needle =>
      match s with
      | [] => Fault OobRead
      | c :: s => if c =? n then find_str_here s needle else Ok false
      end
  end.

(** [fuel] counts the positions that are left, [i] is the one tried next. *)
Fixpoint find_str_loop (fuel : nat) (s needle : list Z) (i len : Z) : res (option Z) :=
  if len <? i then Ok None
  else match fuel with
  | O => Fault NoFuel
  | S fuel =>
      b ← find_str_here s needle;
      if b : bool then Ok (Some i)
      else find_str_loop fuel (tail s) needle (i + 1) len
  end.
Definition find_str (s : list Z) (len : Z) (needle : list Z) : res (option Z) :=
  let nlen := Z.of_nat (length needle) in
  if len <? nlen then Ok None
  else find_str_loop (S (length s)) s needle 0 (len - nlen).

(** The string up to the first CR or LF, and the string from there. *)
Fixpoint line_span (s : list Z) : list Z * list Z :=
  match s with
  | [] => ([], [])
  | c :: s' =>
      if (c =? 13) || (c =? 10) then ([], s)
      else let '(a, b) := line_span s' in (c :: a, b)
  end.
Fixpoint skip_newlines (s : list Z) : list Z :=
  match s with
  | c :: s' => if (c =? 13) || (c =? 10) then skip_newlines s' else s
  | [] => []
  end.

(** One call: the line, none at the end, and the pointer for the next call
    ([None] for [NULL]). *)
Fixpoint lp_get (fuel : nat) (lp : option (list Z)) : res (option (list Z) * option (list Z)) :=
  match fuel with
  | O => Fault NoFuel
  | S fuel =>
      match lp with
      | None => Ok (None, None)
      | Some s =>
          let '(r, rest) := line_span s in
          let lp := match rest with [] => None | _ :: rest => Some (skip_newlines rest) end in
          match r with [] => lp_get fuel lp | _ => Ok (Some r, lp) end
      end
  end.

(** [LINEPARSE]: the lines a loop over the text sees. *)
Fixpoint lineparse (fuel : nat) (lp : option (list Z)) : res (list (list Z)) :=
  match fuel with
  | O => Fault NoFuel
  | S fuel =>
      x ← lp_get 3 lp;
      match x with
      | (None, _) => Ok []
      | (Some r, lp) => rs ← lineparse fuel lp; Ok (r :: rs)
      end
  end.

(** * Vectors of strings *)

Fixpoint strvec_split_count (s : list Z) (ch : Z) : nat :=
  match s with
  | [] => 1
  | c :: s => if c =? ch then S (strvec_split_count s ch) else strvec_split_count s ch
  end.

(** [c] strings; the last one is the one no separator follows. *)
Fixpoint strvec_split_loop (c : nat) (str : list Z) (ch : Z) : res (list (list Z)) :=
  match c with
  | O => Ok []
  | S c =>
      match strchr ch str with
      | None => match c with O => Ok [str] | _ => Fault AssertFailed end
      | Some (a, rest) => r ← strvec_split_loop c rest ch; Ok (a :: r)
      end
  end.
Definition strvec_split (str : list Z) (ch : Z) : res (list (list Z)) :=
  strvec_split_loop (strvec_split_count str ch) str ch.

(** The vector, [None] for [NULL], with one more string. *)
Definition strvec_addpn (strv : option (list (list Z))) (v : list Z) (len : Z)
    : res (list (list Z)) :=
  if Z.of_nat (length v) <? len then Fault OobRead
  else Ok (default [] strv ++ [take (Z.to_nat len) v]).
Definition strvec_addp (strv : option (list (list Z))) (v : list Z) : res (list (list Z)) :=
  strvec_addpn strv v (Z.of_nat (length v)).

Definition strappend (strp : option (list Z)) (src : list Z) : list Z :=
  match strp with None => src | Some s => s ++ src end.

(** * Relative URLs *)

Fixpoint strstr (s needle : list Z) : bool :=
  has_prefix needle s || match s with [] => false | _ :: s' => strstr s' needle end.

(** The part of [path] up to and with its last ['/']. *)
Fixpoint upto_last_slash (path : list Z) : option (list Z) :=
  match path with
  | [] => None
  | c :: path =>
      match upto_last_slash path with
      | Some p => Some (c :: p)
      | None => if c =? 47 then Some [c] else None
      end
  end.

(** [snprintf] into a buffer of [n] bytes: what it leaves there. *)
Definition snprintf_out (n : Z) (text : list Z) : list Z := take (Z.to_nat (n - 1)) text.

(** [out] has 512 bytes; [l] counts the text before it was cut to them.
    [None] for [NULL]. *)
Definition url_resolve_relative (proto hostname : list Z) (port : Z) (path ref : list Z)
    : res (option (list Z)) :=
  if strstr ref (lit "://") then Ok (Some ref)
  else
    let text := proto ++ lit "://" ++ hostname ++
                (if negb (port =? -1) then [58] ++ dec_of_Z port else []) in
    let l := Z.of_nat (length text) in
    let out := snprintf_out 512 text in
    let tail_print :=
      if 512 <? l then Fault OobWrite
      else Ok (Some (out ++ snprintf_out (512 - l) ref)) in
    match ref with
    | 47 :: _ => tail_print
    | _ =>
        match upto_last_slash path with
        | None => tail_print
        | Some dir =>
            let l2 := Z.of_nat (length dir) in
            if 511 <? l2 + l then Ok None
            else
              let l := l + l2 in
              let l3 := Z.of_nat (length ref) + 1 in
              if 511 <? l3 + l then Ok None
              else Ok (Some (out ++ dir ++ ref))
        end
    end.

(** * Specifications *)

(** What URL de-escaping makes of a string: it ends at a bad escape. *)
Fixpoint url_decode (s : list Z) : list Z :=
  match s with
  | [] => []
  | c :: s1 =>
      if c =? 43 then 32 :: url_decode s1
      else if c =? 37 then
        match s1 with
        | c1 :: s2 =>
            match url_digit c1, s2 with
            | Some v1, c2 :: s3 =>
                match url_digit c2 with
                | Some v2 => u8 (Z.lor (Z.shiftl v1 4) v2) :: url_decode s3
                | None => []
                end
            | _, _ => []
            end
        | [] => []
        end
      else c :: url_decode s1
  end.

(** What URL escaping makes of a byte, by the table. *)
Definition url_escape_byte (table : list Z) (s : Z) : list Z :=
  let k := nth (Z.to_nat s) table 0 in
  if k =? 0 then [37; hexdigit (Z.shiftr s 4); hexdigit s]
  else if k =? 2 then [43] else [s].
Definition url_encode (table src : list Z) : list Z := concat (map (url_escape_byte table) src).

(** * The reference C unescaping: a newline, a backslash, and no other escape *)

Fixpoint cstyle_decode (s : list Z) : list Z :=
  match s with
  | [] => []
  | c :: s' =>
      if c =? 92 then
        match s' with
        | [] => []
        | d :: r => if d =? 110 then 10 :: cstyle_decode r else if d =? 92 then 92 :: cstyle_decode r else cstyle_decode r
        end
      else c :: cstyle_decode s'
  end.

Definition cstyle_escape_byte (c : Z) : list Z :=
  if c =? 10 then [92; 110] else if c =? 92 then [92; 92] else [c].
Definition cstyle_escape (s : list Z) : list Z := concat (map cstyle_escape_byte s).

(** * Lemmas: C escapes *)

Lemma cstyle_decode_escape s : cstyle_decode (cstyle_escape s) = s.
Proof.
  induction s as [|c s IH]; [done|]. unfold cstyle_escape in *. cbn [map concat]. unfold cstyle_escape_byte at 1.
  destruct (Z.eqb_spec c 10) as [->|]; [cbn; by rewrite IH|].
  destruct (Z.eqb_spec c 92) as [->|Hc]; [cbn; by rewrite IH|].
  cbn [app cstyle_decode]. rewrite (proj2 (Z.eqb_neq c 92)) by done. by rewrite IH.
Qed.

Lemma cstyle_decode_ok s : cstring_ok s -> cstring_ok (cstyle_decode s).
Proof.
  intros H. remember (length s) as n eqn:Hn. revert s Hn H.
  induction (lt_wf n) as [n _ IH]. intros s -> H. destruct H as [|c s Hc H]; [constructor|].
  cbn [cstyle_decode]. destruct (c =? 92).
  - destruct H as [|d r Hd H]; [constructor|].
    assert (cstring_ok (cstyle_decode r)) as Hr by (eapply (IH (length r)); [simpl; lia|done|done]).
    destruct (d =? 110); [by constructor|]. destruct (d =? 92); [by constructor|done].
  - constructor; [done|]. eapply (IH (length s)); [simpl; lia|done|done].
Qed.

Lemma deescape_loop_spec fuel : forall s out gap tl,
  cstring_ok s -> (length s < fuel)%nat ->
  exists tl', deescape_cstyle_loop fuel (out ++ gap ++ s ++ 0 :: tl) (length out + length gap) (length out)
      = Ok (out ++ cstyle_decode s ++ 0 :: tl').
Proof.
  induction fuel as [|fuel IH]; intros s out gap tl Hs Hf; [lia|].
  assert (forall cs s' v, s = cs ++ s' -> cs <> [] -> exists mem tl',
    mwrite (out ++ gap ++ s ++ 0 :: tl) (length out) v = Ok mem /\
    deescape_cstyle_loop fuel mem (length out + length gap + length cs) (S (length out))
      = Ok (out ++ v :: cstyle_decode s' ++ 0 :: tl')) as Hstep.
  { intros cs s' v -> Hne. unfold cstring_ok in Hs. apply Forall_app in Hs as [_ Hs].
    destruct (gap_write out gap cs (s' ++ 0 :: tl) v Hne) as (g & Hg & E).
    destruct (IH s' (out ++ [v]) g tl Hs) as (tl' & E').
    { destruct cs; [done|]. rewrite length_app in Hf. simpl in Hf. lia. }
    rewrite Hg in E'. rewrite (length_app out), Nat.add_1_r in E'.
    rewrite <- (app_assoc cs). rewrite <- !app_assoc in E'. exists ((out ++ [v]) ++ g ++ s' ++ 0 :: tl), tl'.
    rewrite <- !app_assoc. rewrite <- !app_assoc in E. by split. }
  assert (exists tl', mwrite (out ++ gap ++ s ++ 0 :: tl) (length out) 0 = Ok (out ++ 0 :: tl')) as Hend.
  { destruct (gap_end out gap s tl) as (tl' & E & _). by exists tl'. }
  destruct Hs as [|c s Hc Hs]; cbn [deescape_cstyle_loop app] in *.
  { rewrite gap_read, ok_bind. exact Hend. }
  rewrite gap_read, ok_bind, (proj2 (Z.eqb_neq c 0)) by lia. cbn [cstyle_decode].
  destruct (Z.eqb_spec c 92) as [->|_].
  2: { destruct (Hstep [c] s c) as (mem & tl' & -> & E); [done..|]. rewrite ok_bind. exists tl'.
    cbn [length] in E. by rewrite Nat.add_1_r in E. }
  destruct Hs as [|d r Hd Hr]; cbn [app] in *.
  { rewrite gap_read_S, ok_bind. exact Hend. }
  rewrite gap_read_S, ok_bind, (proj2 (Z.eqb_neq d 0)) by lia.
  destruct (Z.eqb_spec d 110) as [->|].
  - destruct (Hstep [92; 110] r 10) as (mem & tl' & Ew & E); [done..|]. rewrite Ew, !ok_bind.
    assert (mread mem (S (length out + length gap)) = Ok 110) as ->.
    { revert Ew. unfold mwrite. destruct (decide _); [|done]. intros [= <-]. unfold mread.
      rewrite list_lookup_insert_ne by lia. pose proof (gap_read_S out gap 92 110 (r ++ 0 :: tl)) as Hr'. exact Hr'. }
    rewrite ok_bind. cbn [Z.eqb Pos.eqb]. rewrite ok_bind. exists tl'. cbn [length] in E. by rewrite !Nat.add_succ_r, Nat.add_0_r in E.
  - rewrite ok_bind, gap_read_S, ok_bind. destruct (Z.eqb_spec d 92) as [->|].
    + destruct (Hstep [92; 92] r 92) as (mem & tl' & -> & E); [done..|]. rewrite !ok_bind.
      exists tl'. cbn [length] in E. by rewrite !Nat.add_succ_r, Nat.add_0_r in E.
    + rewrite ok_bind. destruct (IH r out (gap ++ [92; d]) tl Hr) as (tl' & E); [simpl in Hf; lia|].
      exists tl'. rewrite <- app_assoc in E. cbn [app] in E. rewrite <- E. f_equal. rewrite length_app. simpl. lia.
Qed.

(** What [deescape_cstyle] leaves in the buffer is the decoded string. *)
Lemma deescape_cstyle_spec s : cstring_ok s ->
  exists tl, deescape_cstyle (s ++ [0]) = Ok (cstyle_decode s ++ 0 :: tl).
Proof.
  intros Hs. apply (deescape_loop_spec (length (s ++ [0])) s [] [] []); [done|]. rewrite length_app. simpl. lia.
Qed.

(** * Lemmas: URL escapes *)

Lemma url_digit_nul : url_digit 0 = None.
Proof. done. Qed.

Lemma url_deescape_loop_spec fuel : forall s out gap tl,
  cstring_ok s -> (length s < fuel)%nat ->
  exists tl', url_deescape_loop fuel (out ++ gap ++ s ++ 0 :: tl) (length out + length gap) (length out)
      = Ok (out ++ url_decode s ++ 0 :: tl') /\
    length (url_decode s ++ 0 :: tl') = length (gap ++ s ++ 0 :: tl).
Proof.
  induction fuel as [|fuel IH]; intros s out gap tl Hs Hf; [lia|].
  assert (forall cs s' v, s = cs ++ s' -> cs <> [] -> exists mem tl',
    mwrite (out ++ gap ++ s ++ 0 :: tl) (length out) v = Ok mem /\
    url_deescape_loop fuel mem (length out + length gap + length cs) (S (length out))
      = Ok (out ++ v :: url_decode s' ++ 0 :: tl') /\
    length (v :: url_decode s' ++ 0 :: tl') = length (gap ++ s ++ 0 :: tl)) as Hstep.
  { intros cs s' v -> Hne. unfold cstring_ok in Hs. apply Forall_app in Hs as [_ Hs].
    destruct (gap_write out gap cs (s' ++ 0 :: tl) v Hne) as (g & Hg & E).
    destruct (IH s' (out ++ [v]) g tl Hs) as (tl' & E' & Hl').
    { destruct cs; [done|]. rewrite length_app in Hf. simpl in Hf. lia. }
    rewrite Hg in E'. rewrite (length_app out), Nat.add_1_r in E'.
    rewrite <- app_assoc in E' at 1. rewrite <- (app_assoc cs). exists ((out ++ [v]) ++ g ++ s' ++ 0 :: tl), tl'.
    split; [done|]. rewrite <- app_assoc. split; [by rewrite E', <- app_assoc|].
    rewrite !length_app in *. simpl in *. rewrite !length_app in *. simpl in *. lia. }
  assert (exists tl', mwrite (out ++ gap ++ s ++ 0 :: tl) (length out) 0 = Ok (out ++ 0 :: tl') /\
    S (length tl') = length (gap ++ s ++ 0 :: tl)) as Hend by apply gap_end.
  destruct Hs as [|c s Hc Hs]; cbn [url_deescape_loop app] in *.
  { rewrite gap_read, ok_bind. destruct Hend as (tl' & E & Hl). exists tl'. by rewrite E. }
  rewrite gap_read, ok_bind, (proj2 (Z.eqb_neq c 0)) by lia. cbn [url_decode].
  destruct (c =? 43).
  { destruct (Hstep [c] s 32) as (mem & tl' & -> & E & Hl); [done..|]. rewrite ok_bind.
    exists tl'. cbn [length] in E. by rewrite Nat.add_1_r in E. }
  destruct (c =? 37).
  2: { destruct (Hstep [c] s c) as (mem & tl' & -> & E & Hl); [done..|]. rewrite ok_bind.
    exists tl'. cbn [length] in E. by rewrite Nat.add_1_r in E. }
  destruct Hs as [|c1 s1 Hc1 Hs1]; cbn [app] in *.
  { rewrite gap_read_S, ok_bind, url_digit_nul. destruct Hend as (tl' & E & Hl). exists tl'. by rewrite E. }
  rewrite gap_read_S, ok_bind. destruct (url_digit c1) as [v1|].
  2: { destruct Hend as (tl' & E & Hl). exists tl'. by rewrite E. }
  destruct Hs1 as [|c2 s2 Hc2 Hs2]; cbn [app] in *.
  { rewrite gap_read_SS, ok_bind, url_digit_nul. destruct Hend as (tl' & E & Hl). exists tl'. by rewrite E. }
  rewrite gap_read_SS, ok_bind. destruct (url_digit c2) as [v2|].
  2: { destruct Hend as (tl' & E & Hl). exists tl'. by rewrite E. }
  destruct (Hstep [c; c1; c2] s2 (u8 (Z.lor (Z.shiftl v1 4) v2))) as (mem & tl' & -> & E & Hl); [done..|].
  rewrite ok_bind. exists tl'. cbn [length] in E. by rewrite !Nat.add_succ_r, Nat.add_0_r in E.
Qed.

Definition url_table_ok (table : list Z) (c : Z) : bool :=
  let k := nth (Z.to_nat c) table 0 in
  if k =? 0 then
    bool_decide (url_digit (hexdigit (Z.shiftr c 4)) = Some (Z.shiftr c 4)) &&
    bool_decide (url_digit (hexdigit c) = Some (Z.land c 15)) &&
    (u8 (Z.lor (Z.shiftl (Z.shiftr c 4) 4) (Z.land c 15)) =? c)
  else if k =? 2 then c =? 32
  else negb (c =? 43) && negb (c =? 37).

Lemma url_decode_byte table c rest :
  url_table_ok table c = true ->
  url_decode (url_escape_byte table c ++ rest) = c :: url_decode rest.
Proof.
  unfold url_table_ok, url_escape_byte. cbv zeta.
  destruct (nth (Z.to_nat c) table 0 =? 0).
  - rewrite !andb_true_iff, !bool_decide_eq_true, Z.eqb_eq. intros [[H1 H2] H3].
    cbn [app url_decode Z.eqb Pos.eqb]. by rewrite H1, H2, H3.
  - destruct (nth (Z.to_nat c) table 0 =? 2).
    + intros ->%Z.eqb_eq. done.
    + rewrite andb_true_iff, !negb_true_iff. intros [H1 H2]. cbn [app url_decode].
      by rewrite H1, H2.
Qed.

Lemma url_decode_encode table src :
  forallb (url_table_ok table) all_bytes = true -> cstring_ok src ->
  url_decode (url_encode table src) = src.
Proof.
  intros Ht. induction 1 as [|c src Hc _ IH]; [done|]. unfold url_encode. cbn [map concat].
  rewrite url_decode_byte; [by f_equal|]. apply byte_forall; [done|]. unfold is_byte. lia.
Qed.

Lemma url_escape_byte_length table c : (1 <= length (url_escape_byte table c) <= 3)%nat.
Proof. unfold url_escape_byte. cbv zeta. repeat case_match; simpl; lia. Qed.

Lemma url_encode_cons table c src :
  url_encode table (c :: src) = url_escape_byte table c ++ url_encode table src.
Proof. done. Qed.

Lemma insert_1 (l : list Z) i x :
  (i < length l)%nat -> <[i := x]> l = take i l ++ [x] ++ drop (i + 1) l.
Proof. intros H. rewrite insert_take_drop by done. by rewrite Nat.add_1_r. Qed.

Lemma insert_3 (l : list Z) i x y z :
  (i + 2 < length l)%nat ->
  <[(i + 2)%nat := z]> (<[(i + 1)%nat := y]> (<[i := x]> l)) = take i l ++ [x; y; z] ++ drop (i + 3) l.
Proof.
  revert i. induction l as [|a l IH]; intros [|i] H; simpl in H; try lia.
  - destruct l as [|b [|c l]]; simpl in *; try lia. by rewrite drop_0.
  - simpl. f_equal. apply IH. lia.
Qed.

(** Every store is inside a buffer of [size] bytes, and when the result and its
    terminator fit they are all made. *)
Lemma url_escape_loop_spec table src : forall dst r,
  0 <= r -> r + Z.of_nat (length (url_encode table src)) <= int_max ->
  exists dst', url_escape_loop table dst (Z.of_nat (length dst)) r src
      = Ok (dst', r + Z.of_nat (length (url_encode table src))) /\ length dst' = length dst /\
    (r + Z.of_nat (length (url_encode table src)) < Z.of_nat (length dst) ->
     dst' = take (Z.to_nat r) dst ++ url_encode table src ++
            drop (Z.to_nat r + length (url_encode table src)) dst).
Proof.
  induction src as [|s src IH]; intros dst r Hr Hmax; cbn [url_escape_loop].
  { exists dst. rewrite Z.add_0_r. split_and!; [done|done|]. intros _. cbn [url_encode map concat app length].
    by rewrite Nat.add_0_r, take_drop. }
  rewrite url_encode_cons, length_app in *.
  assert (forall dst1 e, url_escape_byte table s = e -> length dst1 = length dst ->
    (r + Z.of_nat (length e) < Z.of_nat (length dst) ->
       dst1 = take (Z.to_nat r) dst ++ e ++ drop (Z.to_nat r + length e) dst) ->
    exists dst', (r1 ← chk_int (r + Z.of_nat (length e));
                  url_escape_loop table dst1 (Z.of_nat (length dst)) r1 src)
      = Ok (dst', r + Z.of_nat (length e + length (url_encode table src))) /\ length dst' = length dst /\
    (r + Z.of_nat (length e + length (url_encode table src)) < Z.of_nat (length dst) ->
     dst' = take (Z.to_nat r) dst ++ (e ++ url_encode table src) ++
            drop (Z.to_nat r + (length e + length (url_encode table src))) dst)) as Hnext.
  { intros dst1 e He Hl1 Hfit. subst e. rewrite chk_int_Ok, ok_bind by ilia.
    destruct (IH dst1 (r + Z.of_nat (length (url_escape_byte table s)))) as (dst' & E & Hl & Hd);
      [lia|lia|].
    rewrite Hl1 in *. exists dst'. rewrite E. split; [do 2 f_equal; lia|]. split; [done|].
    intros Hlt. rewrite Hd by lia. rewrite Hfit by lia.
    set (e := url_escape_byte table s) in *. set (w := url_encode table src) in *.
    assert (length (take (Z.to_nat r) dst) = Z.to_nat r) as Ht by (rewrite length_take; lia).
    rewrite <- app_assoc. rewrite (app_assoc (take (Z.to_nat r) dst) e).
    rewrite take_app_ge, drop_app_ge by (rewrite length_app, Ht; lia).
    rewrite length_app, Ht.
    replace (Z.to_nat (r + Z.of_nat (length e)) - (Z.to_nat r + length e))%nat with 0%nat by lia.
    rewrite take_0, app_nil_r, drop_drop, <- app_assoc.
    replace (Z.to_nat r + length e + (Z.to_nat (r + Z.of_nat (length e)) + length w - (Z.to_nat r + length e)))%nat
      with (Z.to_nat r + (length e + length w))%nat by lia. done. }
  unfold url_escape_byte in *. cbv zeta in *.
  destruct (nth (Z.to_nat s) table 0 =? 0).
  - destruct (Z.ltb_spec r (Z.of_nat (length dst) - 3)) as [Hfit|Hno].
    + rewrite mwrite_Ok, ok_bind by lia. rewrite mwrite_Ok, ok_bind by (rewrite length_insert; lia).
      rewrite mwrite_Ok, ok_bind by (rewrite !length_insert; lia).
      apply (Hnext _ _ eq_refl); [by rewrite !length_insert|]. intros _.
      rewrite !Z2Nat.inj_add by lia. by apply insert_3; lia.
    + rewrite ok_bind. apply (Hnext _ _ eq_refl); [done|]. simpl. lia.
  - destruct (nth (Z.to_nat s) table 0 =? 2).
    + destruct (Z.ltb_spec r (Z.of_nat (length dst) - 1)) as [Hfit|Hno].
      * rewrite mwrite_Ok, ok_bind by lia. apply (Hnext _ _ eq_refl); [by rewrite !length_insert|].
        intros _. by apply insert_1; lia.
      * rewrite ok_bind. apply (Hnext _ _ eq_refl); [done|]. simpl. lia.
    + destruct (Z.ltb_spec r (Z.of_nat (length dst) - 1)) as [Hfit|Hno].
      * rewrite mwrite_Ok, ok_bind by lia. apply (Hnext _ _ eq_refl); [by rewrite !length_insert|].
        intros _. by apply insert_1; lia.
      * rewrite ok_bind. apply (Hnext _ _ eq_refl); [done|]. simpl. lia.
Qed.

Lemma url_encode_string table src :
  forallb (fun c => forallb (fun b => (0 <? b) && (b <? 256)) (url_escape_byte table c) || (c =? 0))
    all_bytes = true -> cstring_ok src -> cstring_ok (url_encode table src).
Proof.
  intros Ht. induction 1 as [|c src Hc _ IH]; [constructor|]. rewrite url_encode_cons.
  apply Forall_app. split; [|done].
  pose proof (byte_forall _ Ht c ltac:(unfold is_byte; lia)) as H. cbv beta in H.
  rewrite (proj2 (Z.eqb_neq c 0)), orb_false_r, forallb_forall in H by lia.
  apply Forall_forall. intros b Hb%list_elem_of_In%H. zbool. lia.
Qed.

Lemma url_encode_length table src : (length (url_encode table src) <= 3 * length src)%nat.
Proof.
  induction src as [|c src IH]; [done|]. rewrite url_encode_cons, length_app.
  pose proof (url_escape_byte_length table c). simpl. lia.
Qed.

(** * Properties: URL escapes *)

(** De-escaping in place turns a string into its decoding, never longer
    than the string, without a read beyond the terminator or a store outside
    the buffer; a bad escape ends the result. *)
Theorem url_deescape_spec (s tl : list Z) :
  cstring_ok s ->
  exists tl', url_deescape (s ++ 0 :: tl) = Ok (url_decode s ++ 0 :: tl') /\
    length (url_decode s ++ 0 :: tl') = length (s ++ 0 :: tl) /\
    (length (url_decode s) <= length s)%nat.
Proof.
  intros Hs. unfold url_deescape.
  destruct (url_deescape_loop_spec (length (s ++ 0 :: tl)) s [] [] tl Hs) as (tl' & E & Hl).
  { rewrite length_app. simpl. lia. }
  exists tl'. split; [done|]. split; [done|]. clear E Hl Hs.
  assert (forall n s, (length s <= n)%nat -> (length (url_decode s) <= length s)%nat) as H.
  { clear. induction n as [|n IH]; intros [|c s] Hn; simpl in Hn; try (simpl; lia).
    cbn [url_decode]. destruct (c =? 43); [simpl; specialize (IH s ltac:(lia)); lia|].
    destruct (c =? 37); [|simpl; specialize (IH s ltac:(lia)); lia].
    destruct s as [|c1 [|c2 s]]; [simpl; lia|destruct (url_digit c1); simpl; lia|].
    destruct (url_digit c1), (url_digit c2); simpl in *; try lia.
    specialize (IH s ltac:(lia)). lia. }
  by apply (H (length s)).
Qed.

Lemma url_deescape_spec_witness :
  url_deescape (lit "a%20b+c" ++ [0]) = Ok (lit "a b c" ++ [0; 99; 0]).
Proof.
  destruct (url_deescape_spec (lit "a%20b+c") []) as (tl & E & _).
  - repeat constructor; lia.
  - rewrite E. vm_compute in E. by injection E as <-.
Defined.

(** C32: escaping for a path or a parameter never stores outside the buffer,
    returns the size the whole result needs, and a result that fits de-escapes
    in place to the original string. *)
Theorem url_escape_deescape (dst src : list Z) (how : Z) :
  how = URL_ESCAPE_PATH \/ how = URL_ESCAPE_PARAM -> cstring_ok src ->
  3 * Z.of_nat (length src) < int_max ->
  exists dst' n, url_escape dst (Z.of_nat (length dst)) src how = Ok (dst', n) /\
    length dst' = length dst /\
    (n <= Z.of_nat (length dst) -> exists tl, url_deescape dst' = Ok (src ++ 0 :: tl)).
Proof.
  intros Hhow Hs Hlen.
  assert (exists table, url_escape_table how = Ok table /\
    forallb (url_table_ok table) all_bytes = true /\
    forallb (fun c => forallb (fun b => (0 <? b) && (b <? 256)) (url_escape_byte table c) || (c =? 0))
      all_bytes = true) as (table & Et & Hok & Hb).
  { destruct Hhow as [-> | ->]; eexists; (split; [reflexivity|]); by vm_compute. }
  pose proof (url_encode_length table src) as Hel. unfold int_max in Hlen.
  unfold url_escape. rewrite Et, ok_bind.
  destruct (url_escape_loop_spec table src dst 0) as (dst' & E & Hl & Hd); [lia|ilia|].
  rewrite E, ok_bind. set (e := url_encode table src) in *.
  rewrite Z.add_0_l in *. destruct (Z.ltb_spec (Z.of_nat (length e)) (Z.of_nat (length dst))) as [Hfit|Hno].
  - rewrite mwrite_Ok, ok_bind, chk_int_Ok, ok_bind by (lia || ilia).
    eexists _, _. split; [done|]. split; [by rewrite length_insert|]. intros _.
    rewrite Hd by done. rewrite Nat2Z.id. cbn [take app Nat.add].
    change (Z.to_nat 0) with 0%nat. rewrite take_0. cbn [app Nat.add].
    destruct (drop (length e) dst) as [|x tl] eqn:Ed.
    { apply (f_equal length) in Ed. rewrite length_drop in Ed. simpl in Ed. lia. }
    rewrite insert_app_r_alt, Nat.sub_diag by lia. cbn [insert list_insert].
    destruct (url_deescape_loop_spec (length (e ++ 0 :: tl)) e [] [] tl) as (tl' & E' & _).
    { by apply url_encode_string. }
    { rewrite length_app. simpl. lia. }
    exists tl'. unfold url_deescape. cbn [app length Nat.add] in E'. rewrite E'. unfold e.
    by rewrite url_decode_encode.
  - rewrite ok_bind, chk_int_Ok, ok_bind by ilia. eexists _, _. split; [done|]. split; [done|]. lia.
Qed.

Lemma url_escape_deescape_witness :
  exists dst' tl, url_escape (repeat 120 20) 20 (lit "a b/c") URL_ESCAPE_PATH = Ok (dst', 8) /\
    url_deescape dst' = Ok (lit "a b/c" ++ 0 :: tl).
Proof.
  destruct (url_escape_deescape (repeat 120 20) (lit "a b/c") URL_ESCAPE_PATH) as (dst' & n & E & _ & H).
  - by left.
  - repeat constructor; lia.
  - vm_compute. reflexivity.
  - vm_compute in E. injection E as <- <-. destruct H as (tl & H); [vm_compute; discriminate|].
    eexists _, tl. split; [vm_compute; reflexivity|]. exact H.
Defined.

(** * Hexadecimal *)

Definition hex_byte (b : Z) : list Z :=
  [hexdigit_lower (Z.shiftr b 4); hexdigit_lower (Z.land b 15)].

Lemma hex_byte_digits b : is_byte b ->
  hexdigit_lower (Z.shiftr b 4) <> 0 /\ hexdigit_lower (Z.land b 15) <> 0 /\
  hexnibble (hexdigit_lower (Z.shiftr b 4)) <> -1 /\ hexnibble (hexdigit_lower (Z.land b 15)) <> -1 /\
  u8 (Z.lor (Z.shiftl (hexnibble (hexdigit_lower (Z.shiftr b 4))) 4)
            (hexnibble (hexdigit_lower (Z.land b 15)))) = b.
Proof.
  intros Hb. pose proof (byte_forall (fun b =>
    negb (hexdigit_lower (Z.shiftr b 4) =? 0) && negb (hexdigit_lower (Z.land b 15) =? 0) &&
    negb (hexnibble (hexdigit_lower (Z.shiftr b 4)) =? -1) &&
    negb (hexnibble (hexdigit_lower (Z.land b 15)) =? -1) &&
    (u8 (Z.lor (Z.shiftl (hexnibble (hexdigit_lower (Z.shiftr b 4))) 4)
            (hexnibble (hexdigit_lower (Z.land b 15)))) =? b)) eq_refl b Hb) as H.
  cbv beta in H. rewrite !andb_true_iff, !negb_true_iff, !Z.eqb_neq, Z.eqb_eq in H. tauto.
Qed.

Lemma bin2hex_loop_fits src : forall dstlen, 2 * Z.of_nat (length src) < dstlen ->
  bin2hex_loop dstlen src = concat (map hex_byte src).
Proof.
  induction src as [|b src IH]; intros dstlen Hl; cbn [bin2hex_loop map concat length] in *; [done|].
  rewrite (proj2 (Z.ltb_lt 2 dstlen)) by lia. rewrite IH by lia. done.
Qed.

Lemma bin2hex_loop_length src : forall dstlen, 1 <= dstlen ->
  Z.of_nat (length (bin2hex_loop dstlen src)) < dstlen.
Proof.
  induction src as [|b src IH]; intros dstlen Hl; cbn [bin2hex_loop length]; [lia|].
  destruct (Z.ltb_spec 2 dstlen); simpl; [|lia]. specialize (IH (dstlen - 2) ltac:(lia)). lia.
Qed.

Lemma hex2binl_loop_reads src rest : forall fuel buf buflen maxlen,
  Forall is_byte src -> (length src <= fuel)%nat ->
  Z.of_nat (length src) <= buflen -> 2 * Z.of_nat (length src) <= maxlen ->
  hex2binl_loop fuel buf buflen (concat (map hex_byte src) ++ 0 :: rest) maxlen = Ok (Some (buf ++ src)).
Proof.
  induction src as [|b src IH]; intros fuel buf buflen maxlen Hs Hf Hb Hm.
  { destruct fuel; simpl; by rewrite app_nil_r. }
  inversion_clear Hs as [|? ? Hb0 Hs']. destruct fuel as [|fuel]; [simpl in Hf; lia|].
  destruct (hex_byte_digits b Hb0) as (H1 & H2 & H3 & H4 & H5). simpl in Hf, Hb, Hm.
  cbn [map concat hex_byte app hex2binl_loop].
  rewrite (proj2 (Z.eqb_neq _ _) H1), (proj2 (Z.ltb_ge maxlen 2)), (proj2 (Z.eqb_neq buflen 0)) by lia.
  cbv zeta. rewrite (proj2 (Z.eqb_neq _ _) H3), (proj2 (Z.eqb_neq _ _) H4), H5.
  rewrite IH by (done || lia). by rewrite <- app_assoc.
Qed.

(** A byte string printed in hexadecimal in a buffer with room for it and
    its terminator is read back, in either case within the stated bounds;
    printing never stores outside a buffer that is not empty, and three printed
    bytes make the colour of those components. *)
Theorem hex_roundtrip (src : list Z) (dstlen buflen maxlen : Z) :
  Forall is_byte src -> 1 <= dstlen ->
  (exists out, bin2hex dstlen src = Ok (out ++ [0]) /\ Z.of_nat (length out) < dstlen) /\
  (2 * Z.of_nat (length src) < dstlen -> Z.of_nat (length src) <= buflen ->
   2 * Z.of_nat (length src) <= maxlen ->
   exists hex, bin2hex dstlen src = Ok hex /\ hex2binl buflen hex maxlen = Ok (Some src)) /\
  (forall r g b, is_byte r -> is_byte g -> is_byte b ->
   html_makecolor (35 :: concat (map hex_byte [r; g; b])) = Z.lor (Z.lor (Z.shiftl b 16) (Z.shiftl g 8)) r).
Proof.
  intros Hs Hd. unfold bin2hex, hex2binl. split_and!.
  - pose proof (bin2hex_loop_length src dstlen Hd). rewrite (proj2 (Z.ltb_lt _ _)) by done. eauto.
  - intros Hfit Hb Hm. rewrite bin2hex_loop_fits by done.
    assert (length (concat (map hex_byte src)) = 2 * length src)%nat as Hl.
    { clear. induction src as [|b src IH]; [done|]. cbn [map concat]. rewrite length_app, IH. simpl. lia. }
    rewrite (proj2 (Z.ltb_lt _ _)) by lia. eexists. split; [done|].
    apply (hex2binl_loop_reads src [] _ [] buflen maxlen); [done| |done|done].
    rewrite length_app. lia.
  - intros r g b Hr Hg Hb. destruct (hex_byte_digits r Hr) as (_ & _ & _ & _ & Er).
    destruct (hex_byte_digits g Hg) as (_ & _ & _ & _ & Eg).
    destruct (hex_byte_digits b Hb) as (_ & _ & _ & _ & Eb).
    cbn [map concat hex_byte app html_makecolor]. cbv zeta. by rewrite Er, Eg, Eb.
Qed.

Lemma hex_roundtrip_witness :
  exists hex, bin2hex 10 [0; 171; 255] = Ok hex /\ hex2binl 3 hex 100 = Ok (Some [0; 171; 255]).
Proof.
  apply (hex_roundtrip [0; 171; 255] 10 3 100); try (vm_compute; done).
  repeat constructor; done.
Defined.

(** * Splitting and joining *)

Fixpoint join (ch : Z) (parts : list (list Z)) : list Z :=
  match parts with
  | [] => []
  | [p] => p
  | p :: parts => p ++ ch :: join ch parts
  end.

Lemma strchr_count ch s :
  match strchr ch s with
  | None => strvec_split_count s ch = 1%nat
  | Some (_, rest) => strvec_split_count s ch = S (strvec_split_count rest ch)
  end.
Proof.
  induction s as [|c s IH]; [done|]. simpl. destruct (c =? ch); [done|].
  by destruct (strchr ch s) as [[a b]|].
Qed.

Lemma strvec_split_count_pos s ch : strvec_split_count s ch <> 0%nat.
Proof. induction s as [|c s IH]; simpl; [done|]. by destruct (c =? ch). Qed.

Lemma strvec_split_loop_spec ch n : forall s, strvec_split_count s ch = n ->
  exists parts, strvec_split_loop n s ch = Ok parts /\ join ch parts = s /\
    length parts = n /\ Forall (fun p => ch ∉ p) parts.
Proof.
  induction n as [|n IH]; intros s Hn; [by apply strvec_split_count_pos in Hn|].
  cbn [strvec_split_loop]. pose proof (strchr_count ch s) as Hc.
  destruct (strchr ch s) as [[a rest]|] eqn:E.
  - apply strchr_Some in E as [-> Hni]. rewrite Hn in Hc. injection Hc as Hc.
    destruct (IH rest (eq_sym Hc)) as (parts & -> & Hj & Hl & Hp). rewrite ok_bind.
    exists (a :: parts). split; [done|]. split_and!; [|simpl; lia|by constructor].
    destruct parts as [|p parts]; [|by rewrite <- Hj].
    simpl in Hl. subst n. by destruct (strvec_split_count_pos rest ch).
  - rewrite Hn in Hc. injection Hc as ->. exists [s].
    split_and!; [done|done|done|]. apply Forall_singleton. by apply strchr_None.
Qed.

(** Splitting a string yields its pieces between separators, as many as
    there are separators plus one, none of which holds the separator; joining
    them restores the string, and the assertion of the loop never fails. *)
Theorem strvec_split_join (s : list Z) (ch : Z) :
  exists parts, strvec_split s ch = Ok parts /\ join ch parts = s /\
    length parts = strvec_split_count s ch /\ Forall (fun p => ch ∉ p) parts.
Proof. by apply strvec_split_loop_spec. Qed.

(** * Lines *)

Definition is_nl (c : Z) : bool := (c =? 13) || (c =? 10).

(** The text cut at every CR and LF. *)
Fixpoint split_nl (s : list Z) : list (list Z) :=
  match s with
  | [] => [[]]
  | c :: s =>
      if is_nl c then [] :: split_nl s
      else match split_nl s with p :: ps => (c :: p) :: ps | [] => [[c]] end
  end.
Definition lines (lp : option (list Z)) : list (list Z) :=
  match lp with None => [] | Some s => filter (fun p => p <> []) (split_nl s) end.

Lemma line_span_split s :
  split_nl s = let '(a, b) := line_span s in
               a :: match b with [] => [] | _ :: b => split_nl b end.
Proof.
  induction s as [|c s IH]; [done|]. cbn [split_nl line_span]. unfold is_nl.
  destruct ((c =? 13) || (c =? 10)); [done|]. rewrite IH. by destruct (line_span s).
Qed.

Lemma line_span_length s : let '(a, b) := line_span s in length s = (length a + length b)%nat.
Proof.
  induction s as [|c s IH]; [done|]. cbn [line_span].
  destruct ((c =? 13) || (c =? 10)); [done|]. destruct (line_span s). simpl. lia.
Qed.

Lemma skip_newlines_lines s : lines (Some (skip_newlines s)) = lines (Some s).
Proof.
  induction s as [|c s IH]; [done|]. cbn [skip_newlines]. destruct ((c =? 13) || (c =? 10)) eqn:E; [|done].
  rewrite IH. unfold lines. cbn [split_nl]. unfold is_nl. rewrite E.
  by rewrite filter_cons_False by tauto.
Qed.

Lemma skip_newlines_length s : (length (skip_newlines s) <= length s)%nat.
Proof.
  induction s as [|c s IH]; simpl; [lia|]. destruct ((c =? 13) || (c =? 10)); simpl; lia.
Qed.

(** A string that begins with no newline gives its line in one round. *)
Lemma line_span_head s : let '(a, b) := line_span s in
  a = [] -> s = [] \/ skip_newlines s <> s.
Proof.
  destruct s as [|c s]; [by left|]. cbn [line_span skip_newlines].
  destruct ((c =? 13) || (c =? 10)).
  - intros _. right. intros H. pose proof (skip_newlines_length s) as Hl. rewrite H in Hl. simpl in Hl. lia.
  - destruct (line_span s). done.
Qed.

Lemma skip_newlines_idem s : skip_newlines (skip_newlines s) = skip_newlines s.
Proof.
  induction s as [|c s IH]; [done|]. cbn [skip_newlines].
  destruct ((c =? 13) || (c =? 10)) eqn:E; [done|]. cbn [skip_newlines]. by rewrite E.
Qed.

Definition next_lp (rest : list Z) : option (list Z) :=
  match rest with [] => None | _ :: rest => Some (skip_newlines rest) end.

Lemma lp_round s : let '(a, b) := line_span s in
  lines (Some s) = (match a with [] => [] | _ => [a] end) ++ lines (next_lp b) /\
  (match next_lp b with Some s' => length s' < length s | None => True end)%nat.
Proof.
  pose proof (line_span_split s) as H. pose proof (line_span_length s) as Hlen.
  destruct (line_span s) as [a b]. split.
  - unfold lines at 1. rewrite H. destruct b as [|x b]; cbn [next_lp].
    + destruct a; [by rewrite filter_cons_False by tauto|by rewrite filter_cons_True].
    + rewrite skip_newlines_lines. unfold lines.
      destruct a; [by rewrite filter_cons_False by tauto|by rewrite filter_cons_True].
  - destruct b as [|x b]; cbn [next_lp]; [done|]. pose proof (skip_newlines_length b). simpl in Hlen. lia.
Qed.

Lemma lp_get_spec s :
  exists r lp, lp_get 3 (Some s) = Ok (r, lp) /\
    lines (Some s) = match r with Some r => r :: lines lp | None => [] end /\
    (match lp with Some s' => length s' < length s | None => True end)%nat.
Proof.
  pose proof (lp_round s) as H1. cbn [lp_get]. destruct (line_span s) as [a b].
  destruct H1 as [Hl1 Hn1]. fold (next_lp b). destruct a as [|x a]; [|by exists (Some (x :: a)), (next_lp b)].
  destruct b as [|y b]; cbn [next_lp] in *; [by exists None, None|].
  pose proof (lp_round (skip_newlines b)) as H2. pose proof (line_span_head (skip_newlines b)) as Hh.
  destruct (line_span (skip_newlines b)) as [a2 b2] eqn:E2. destruct H2 as [Hl2 Hn2]. fold (next_lp b2).
  destruct a2 as [|x2 a2].
  - destruct (Hh eq_refl) as [Hnil|Hne]; [|by rewrite skip_newlines_idem in Hne].
    rewrite Hnil in E2. injection E2 as <-. exists None, None. by rewrite Hl1, Hl2.
  - exists (Some (x2 :: a2)), (next_lp b2). split; [done|]. split; [by rewrite Hl1, Hl2|].
    destruct (next_lp b2); [lia|done].
Qed.

(** A loop over the lines of a text sees exactly its non-empty lines, cut
    at every CR or LF, in order, and ends. *)
Theorem lineparse_lines (s : list Z) :
  lineparse (S (S (length s))) (Some s) = Ok (lines (Some s)).
Proof.
  assert (forall n lp, (match lp with Some s => S (length s) | None => 0 end < n)%nat ->
    lineparse n lp = Ok (lines lp)) as H; [|by apply H; lia].
  clear s. induction n as [|n IH]; intros lp Hn; [lia|]. cbn [lineparse].
  destruct lp as [s|]; [|done]. destruct (lp_get_spec s) as (r & lp & -> & Hl & Hlt). rewrite ok_bind.
  destruct r as [r|]; [|by rewrite Hl]. rewrite IH; [by rewrite Hl|]. destruct lp; lia.
Qed.

(** * Searching *)

Lemma find_str_here_spec needle : forall s, (length needle <= length s)%nat ->
  find_str_here s needle = Ok (bool_decide (take (length needle) s = needle)).
Proof.
  induction needle as [|n needle IH]; intros [|c s] Hl; simpl in *; try done; try lia.
  destruct (Z.eqb_spec c n) as [->|Hne].
  - rewrite IH by lia. f_equal. apply bool_decide_ext. split; congruence.
  - f_equal. symmetry. apply bool_decide_eq_false. congruence.
Qed.

Definition occurs_at (s needle : list Z) (i : nat) : Prop :=
  take (length needle) (drop i s) = needle.

Lemma find_str_loop_spec needle : forall fuel s i len,
  0 <= i -> (Z.to_nat (len + 1 - i) <= fuel)%nat -> i <= len + 1 ->
  len - i + Z.of_nat (length needle) <= Z.of_nat (length s) ->
  exists r, find_str_loop fuel s needle i len = Ok r /\
  match r with
  | Some k => i <= k <= len /\ occurs_at s needle (Z.to_nat (k - i)) /\
      forall j, (j < Z.to_nat (k - i))%nat -> ~ occurs_at s needle j
  | None => forall j, (j < Z.to_nat (len + 1 - i))%nat -> ~ occurs_at s needle j
  end.
Proof.
  induction fuel as [|fuel IH]; intros s i len Hi Hf Hil Hs; cbn [find_str_loop].
  { rewrite (proj2 (Z.ltb_lt len i)) by lia. exists None. split; [done|]. lia. }
  destruct (Z.ltb_spec len i) as [Hlt|Hge]; [exists None; split; [done|lia]|].
  rewrite find_str_here_spec, ok_bind by lia. case_bool_decide as Hd.
  { exists (Some i). rewrite Z.sub_diag. change (Z.to_nat 0) with 0%nat. split; [done|].
    split; [lia|]. split; [by unfold occurs_at; rewrite drop_0|lia]. }
  destruct (IH (tail s) (i + 1) len) as (r & E & Hr); try lia.
  { destruct s; simpl in *; lia. }
  assert (forall j, occurs_at (tail s) needle j <-> occurs_at s needle (S j)) as Hsh.
  { intros j. unfold occurs_at. destruct s; simpl; [by rewrite drop_nil|done]. }
  exists r. split; [done|]. destruct r as [k|].
  - destruct Hr as (Hk & Ho & Hno). rewrite Hsh in Ho.
    replace (Z.to_nat (k - i)) with (S (Z.to_nat (k - (i + 1)))) by lia. split_and!; [lia|lia|done|].
    intros [|j] Hj; [done|]. rewrite <- Hsh. apply Hno. lia.
  - intros [|j] Hj; [done|]. rewrite <- Hsh. apply Hr. lia.
Qed.

(** Searching the first [len] bytes of a text yields the first place the
    needle occurs in whole, and nothing when it does not occur; nothing outside
    those bytes is read. *)
Theorem find_str_first (s needle : list Z) (len : Z) :
  len <= Z.of_nat (length s) ->
  exists r, find_str (take (Z.to_nat len) s) len needle = Ok r /\
  match r with
  | Some k => 0 <= k /\ k + Z.of_nat (length needle) <= len /\
      occurs_at s needle (Z.to_nat k) /\ forall j, (j < Z.to_nat k)%nat -> ~ occurs_at s needle j
  | None => forall j, Z.of_nat j + Z.of_nat (length needle) <= len -> ~ occurs_at s needle j
  end.
Proof.
  intros Hlen. unfold find_str. destruct (Z.ltb_spec len (Z.of_nat (length needle))) as [Hlt|Hge].
  { exists None. split; [done|]. lia. }
  set (s1 := take (Z.to_nat len) s).
  assert (Z.of_nat (length s1) = len) as Hs1 by (unfold s1; rewrite length_take; lia).
  assert (forall j, (Z.of_nat j + Z.of_nat (length needle) <= len) ->
    occurs_at s1 needle j <-> occurs_at s needle j) as Hocc.
  { intros j Hj. unfold occurs_at, s1.
    replace (Z.to_nat len) with (j + (Z.to_nat len - j))%nat by lia.
    rewrite <- take_drop_commute, take_take, Nat.min_l by lia. done. }
  destruct (find_str_loop_spec needle (S (length s1)) s1 0 (len - Z.of_nat (length needle)))
    as (r & E & Hr); try lia.
  exists r. split; [done|]. destruct r as [k|].
  - destruct Hr as (Hk & Ho & Hno). rewrite Z.sub_0_r in *. split_and!; [lia|lia| |].
    + by apply Hocc; [lia|].
    + intros j Hj Hoj. apply (Hno j Hj). apply Hocc; [lia|done].
  - intros j Hj Hoj. apply (Hr j ltac:(lia)). by apply Hocc.
Qed.

Lemma find_str_first_witness :
  find_str (take (Z.to_nat 7) (lit "xababac")) 7 (lit "aba") = Ok (Some 1).
Proof.
  destruct (find_str_first (lit "xababac") (lit "aba") 7) as (r & E & _); [vm_compute; discriminate|].
  rewrite E. vm_compute in E. congruence.
Defined.

(** * Relative URLs *)

Definition origin (proto hostname : list Z) (port : Z) : list Z :=
  proto ++ lit "://" ++ hostname ++ (if negb (port =? -1) then [58] ++ dec_of_Z port else []).

(** The directory a relative reference is resolved in. *)
Definition ref_dir (path ref : list Z) : list Z :=
  match ref with 47 :: _ => [] | _ => default [] (upto_last_slash path) end.

Lemma upto_last_slash_spec path :
  match upto_last_slash path with
  | Some d => exists rest, path = d ++ rest /\ last d = Some 47 /\ 47 ∉ rest
  | None => 47 ∉ path
  end.
Proof.
  induction path as [|c path IH]; simpl; [set_solver|].
  destruct (upto_last_slash path) as [d|].
  - destruct IH as (rest & -> & Hl & Hr). exists rest. split_and!; [done| |done].
    destruct d; [done|]. by rewrite last_cons_cons.
  - destruct (Z.eqb_spec c 47) as [->|]; [exists path; split_and!; done|set_solver].
Qed.

Lemma snprintf_out_all n text : Z.of_nat (length text) < n -> snprintf_out n text = text.
Proof. intros H. unfold snprintf_out. by rewrite take_ge by lia. Qed.

(** A reference with a scheme is returned as it is; any other is put behind
    the origin, and behind the directory of the path unless it begins with a
    slash, whenever the whole has at most 510 bytes; a longer result is cut or
    refused, but an origin of more than 512 bytes overruns the buffer as soon
    as no directory is in between. *)
Theorem url_resolve_relative_spec (proto hostname path ref : list Z) (port : Z) :
  let o := origin proto hostname port in
  let d := ref_dir path ref in
  let run := url_resolve_relative proto hostname port path ref in
  (strstr ref (lit "://") = true -> run = Ok (Some ref)) /\
  (strstr ref (lit "://") = false ->
     (Z.of_nat (length (o ++ d ++ ref)) <= 510 -> run = Ok (Some (o ++ d ++ ref))) /\
     (Z.of_nat (length o) <= 512 -> exists r, run = Ok r /\
        match r with Some u => Z.of_nat (length u) <= 511 | None => True end) /\
     (512 < Z.of_nat (length o) -> d = [] -> run = Fault OobWrite)).
Proof.
  cbv zeta. unfold url_resolve_relative. fold (origin proto hostname port). cbv zeta.
  split; [by intros ->|]. intros ->. set (o := origin proto hostname port).
  pose proof (upto_last_slash_spec path) as Hup. unfold ref_dir.
  assert (forall dd, dd = [] ->
    (Z.of_nat (length (o ++ dd ++ ref)) <= 510 ->
     (if 512 <? Z.of_nat (length o) then Fault OobWrite
      else Ok (Some (snprintf_out 512 o ++ snprintf_out (512 - Z.of_nat (length o)) ref)))
     = Ok (Some (o ++ dd ++ ref))) /\
    (Z.of_nat (length o) <= 512 -> exists r,
     (if 512 <? Z.of_nat (length o) then Fault OobWrite
      else Ok (Some (snprintf_out 512 o ++ snprintf_out (512 - Z.of_nat (length o)) ref))) = Ok r /\
        match r with Some u => Z.of_nat (length u) <= 511 | None => True end) /\
    (512 < Z.of_nat (length o) -> dd = [] ->
     (if 512 <? Z.of_nat (length o) then Fault OobWrite
      else Ok (Some (snprintf_out 512 o ++ snprintf_out (512 - Z.of_nat (length o)) ref))) = Fault OobWrite))
    as Htail.
  { intros dd ->. cbn [app]. rewrite length_app. split_and!.
    - intros H. rewrite (proj2 (Z.ltb_ge _ _)) by lia. by rewrite !snprintf_out_all by lia.
    - intros H. rewrite (proj2 (Z.ltb_ge _ _)) by lia. eexists. split; [done|].
      unfold snprintf_out. rewrite length_app, !length_take. lia.
    - intros H _. by rewrite (proj2 (Z.ltb_lt _ _)). }
  destruct (decide (head ref = Some 47)) as [Hh|Hns].
  { destruct ref as [|c t]; [done|]. injection Hh as ->. by apply Htail. }
  assert (forall A (x y : A), match ref with 47 :: _ => x | _ => y end = y) as Hm.
  { intros A x y. destruct ref as [|c t]; [done|].
    destruct c as [|c|c]; try done. do 6 (destruct c as [c|c|]; try done). }
  rewrite !Hm. destruct (upto_last_slash path) as [dir|]; cbn [default from_option]; [|by apply Htail].
  unfold id. destruct Hup as (rest & _ & Hlast & _).
  rewrite !length_app. split_and!.
  - intros H. rewrite !(proj2 (Z.ltb_ge 511 _)) by lia. by rewrite snprintf_out_all by lia.
  - intros H. destruct (Z.ltb_spec 511 (Z.of_nat (length dir) + Z.of_nat (length o))); [by exists None|].
    destruct (Z.ltb_spec 511 (Z.of_nat (length ref) + 1 + (Z.of_nat (length o) + Z.of_nat (length dir))));
      [by exists None|]. eexists. split; [done|].
    unfold snprintf_out. rewrite !length_app, length_take. lia.
  - intros _ ->. done.
Qed.
