(* ===== verification/Html.v ===== *)
(** HTML entities (src/src/misc/str.c): the entity table and its lookup, the
    decoder that rewrites a string in place, and the escaping writer.  The
    decoder's contract, that no entity is shorter than the UTF-8 encoding of its
    code point, is proved for the table and for numeric entities. *)
From S2P Require Import Prelude Clib Utf8 Htsbuf.

Local Open Scope Z_scope.

Definition html_entities : list (list Z * Z) := [
  (lit "quot", 34);
  (lit "amp", 38);
  (lit "apos", 39);
  (lit "lt", 60);
  (lit "gt", 62);
  (lit "nbsp", 160);
  (lit "iexcl", 161);
  (lit "cent", 162);
  (lit "pound", 163);
  (lit "curren", 164);
  (lit "yen", 165);
  (lit "brvbar", 166);
  (lit "sect", 167);
  (lit "uml", 168);
  (lit "copy", 169);
  (lit "ordf", 170);
  (lit "laquo", 171);
  (lit "not", 172);
  (lit "shy", 173);
  (lit "reg", 174);
  (lit "macr", 175);
  (lit "deg", 176);
  (lit "plusmn", 177);
  (lit "sup2", 178);
  (lit "sup3", 179);
  (lit "acute", 180);
  (lit "micro", 181);
  (lit "para", 182);
  (lit "middot", 183);
  (lit "cedil", 184);
  (lit "sup1", 185);
  (lit "ordm", 186);
  (lit "raquo", 187);
  (lit "frac14", 188);
  (lit "frac12", 189);
  (lit "frac34", 190);
  (lit "iquest", 191);
  (lit "Agrave", 192);
  (lit "Aacute", 193);
  (lit "Acirc", 194);
  (lit "Atilde", 195);
  (lit "Auml", 196);
  (lit "Aring", 197);
  (lit "AElig", 198);
  (lit "Ccedil", 199);
  (lit "Egrave", 200);
  (lit "Eacute", 201);
  (lit "Ecirc", 202);
  (lit "Euml", 203);
  (lit "Igrave", 204);
  (lit "Iacute", 205);
  (lit "Icirc", 206);
  (lit "Iuml", 207);
  (lit "ETH", 208);
  (lit "Ntilde", 209);
  (lit "Ograve", 210);
  (lit "Oacute", 211);
  (lit "Ocirc", 212);
  (lit "Otilde", 213);
  (lit "Ouml", 214);
  (lit "times", 215);
  (lit "Oslash", 216);
  (lit "Ugrave", 217);
  (lit "Uacute", 218);
  (lit "Ucirc", 219);
  (lit "Uuml", 220);
  (lit "Yacute", 221);
  (lit "THORN", 222);
  (lit "szlig", 223);
  (lit "agrave", 224);
  (lit "aacute", 225);
  (lit "acirc", 226);
  (lit "atilde", 227);
  (lit "auml", 228);
  (lit "aring", 229);
  (lit "aelig", 230);
  (lit "ccedil", 231);
  (lit "egrave", 232);
  (lit "eacute", 233);
  (lit "ecirc", 234);
  (lit "euml", 235);
  (lit "igrave", 236);
  (lit "iacute", 237);
  (lit "icirc", 238);
  (lit "iuml", 239);
  (lit "eth", 240);
  (lit "ntilde", 241);
  (lit "ograve", 242);
  (lit "oacute", 243);
  (lit "ocirc", 244);
  (lit "otilde", 245);
  (lit "ouml", 246);
  (lit "divide", 247);
  (lit "oslash", 248);
  (lit "ugrave", 249);
  (lit "uacute", 250);
  (lit "ucirc", 251);
  (lit "uuml", 252);
  (lit "yacute", 253);
  (lit "thorn", 254);
  (lit "yuml", 255);
  (lit "fnof", 402);
  (lit "Alpha", 913);
  (lit "Beta", 914);
  (lit "Gamma", 915);
  (lit "Delta", 916);
  (lit "Epsilon", 917);
  (lit "Zeta", 918);
  (lit "Eta", 919);
  (lit "Theta", 920);
  (lit "Iota", 921);
  (lit "Kappa", 922);
  (lit "Lambda", 923);
  (lit "Mu", 924);
  (lit "Nu", 925);
  (lit "Xi", 926);
  (lit "Omicron", 927);
  (lit "Pi", 928);
  (lit "Rho", 929);
  (lit "Sigma", 931);
  (lit "Tau", 932);
  (lit "Upsilon", 933);
  (lit "Phi", 934);
  (lit "Chi", 935);
  (lit "Psi", 936);
  (lit "Omega", 937);
  (lit "alpha", 945);
  (lit "beta", 946);
  (lit "gamma", 947);
  (lit "delta", 948);
  (lit "epsilon", 949);
  (lit "zeta", 950);
  (lit "eta", 951);
  (lit "theta", 952);
  (lit "iota", 953);
  (lit "kappa", 954);
  (lit "lambda", 955);
  (lit "mu", 956);
  (lit "nu", 957);
  (lit "xi", 958);
  (lit "omicron", 959);
  (lit "pi", 960);
  (lit "rho", 961);
  (lit "sigmaf", 962);
  (lit "sigma", 963);
  (lit "tau", 964);
  (lit "upsilon", 965);
  (lit "phi", 966);
  (lit "chi", 967);
  (lit "psi", 968);
  (lit "omega", 969);
  (lit "thetasym", 977);
  (lit "upsih", 978);
  (lit "piv", 982);
  (lit "bull", 8226);
  (lit "hellip", 8230);
  (lit "prime", 8242);
  (lit "Prime", 8243);
  (lit "oline", 8254);
  (lit "frasl", 8260);
  (lit "weierp", 8472);
  (lit "image", 8465);
  (lit "real", 8476);
  (lit "trade", 8482);
  (lit "alefsym", 8501);
  (lit "larr", 8592);
  (lit "uarr", 8593);
  (lit "rarr", 8594);
  (lit "darr", 8595);
  (lit "harr", 8596);
  (lit "crarr", 8629);
  (lit "lArr", 8656);
  (lit "uArr", 8657);
  (lit "rArr", 8658);
  (lit "dArr", 8659);
  (lit "hArr", 8660);
  (lit "forall", 8704);
  (lit "part", 8706);
  (lit "exist", 8707);
  (lit "empty", 8709);
  (lit "nabla", 8711);
  (lit "isin", 8712);
  (lit "notin", 8713);
  (lit "ni", 8715);
  (lit "prod", 8719);
  (lit "sum", 8721);
  (lit "minus", 8722);
  (lit "lowast", 8727);
  (lit "radic", 8730);
  (lit "prop", 8733);
  (lit "infin", 8734);
  (lit "ang", 8736);
  (lit "and", 8743);
  (lit "or", 8744);
  (lit "cap", 8745);
  (lit "cup", 8746);
  (lit "int", 8747);
  (lit "there4", 8756);
  (lit "sim", 8764);
  (lit "cong", 8773);
  (lit "asymp", 8776);
  (lit "ne", 8800);
  (lit "equiv", 8801);
  (lit "le", 8804);
  (lit "ge", 8805);
  (lit "sub", 8834);
  (lit "sup", 8835);
  (lit "nsub", 8836);
  (lit "sube", 8838);
  (lit "supe", 8839);
  (lit "oplus", 8853);
  (lit "otimes", 8855);
  (lit "perp", 8869);
  (lit "sdot", 8901);
  (lit "lceil", 8968);
  (lit "rceil", 8969);
  (lit "lfloor", 8970);
  (lit "rfloor", 8971);
  (lit "lang", 9001);
  (lit "rang", 9002);
  (lit "loz", 9674);
  (lit "spades", 9824);
  (lit "clubs", 9827);
  (lit "hearts", 9829);
  (lit "diams", 9830);
  (lit "OElig", 338);
  (lit "oelig", 339);
  (lit "Scaron", 352);
  (lit "scaron", 353);
  (lit "Yuml", 376);
  (lit "circ", 710);
  (lit "tilde", 732);
  (lit "ensp", 8194);
  (lit "emsp", 8195);
  (lit "thinsp", 8201);
  (lit "zwnj", 8204);
  (lit "zwj", 8205);
  (lit "lrm", 8206);
  (lit "rlm", 8207);
  (lit "ndash", 8211);
  (lit "mdash", 8212);
  (lit "lsquo", 8216);
  (lit "rsquo", 8217);
  (lit "sbquo", 8218);
  (lit "ldquo", 8220);
  (lit "rdquo", 8221);
  (lit "bdquo", 8222);
  (lit "dagger", 8224);
  (lit "Dagger", 8225);
  (lit "permil", 8240);
  (lit "lsaquo", 8249);
  (lit "rsaquo", 8250);
  (lit "euro", 8364)].

Fixpoint entity_find (l : list (list Z * Z)) (name : list Z) : Z :=
  match l with
  | [] => -1
  | (n, code) :: l => if decide (n = name) then code else entity_find l name
  end.

(** The [long] of [strtol] becomes an [int]. *)
Definition html_entity_lookup (name : list Z) : Z :=
  if decide (head name = Some 35) then
    if decide (head (tail name) = Some 120) then s32 (strtol (drop 2 name) 16).1
    else s32 (strtol (drop 1 name) 10).1
  else entity_find html_entities name.

(** A block of stores. *)
Definition mwrites (mem : list Z) (i : nat) (bs : list Z) : res (list Z) :=
  if decide (i + length bs <= length mem)%nat
  then Ok (take i mem ++ bs ++ drop (i + length bs) mem) else Fault OobWrite.

(** [s] is the offset of the pointer.  The name is cut to the 9 characters that
    fit its buffer. *)
Fixpoint html_entities_decode_loop (fuel : nat) (mem : list Z) (s : nat) : res (list Z) :=
  match fuel with
  | O => Fault NoFuel
  | S fuel =>
      c ← mread mem s;
      if c =? 0 then Ok mem
      else if negb (c =? 38) then html_entities_decode_loop fuel mem (S s)
      else
        str ← cstr_at (drop s mem);
        match strchr 59 str with
        | None => html_entities_decode_loop fuel mem (S s)
        | Some (a, _) =>
            let e := (s + length a)%nat in
            let code := html_entity_lookup (take 9 (tail a)) in
            if code =? -1 then html_entities_decode_loop fuel mem (S s)
            else
              mem ← mwrites mem s (utf8_put code);
              let s := (s + length (utf8_put code))%nat in
              rest ← cstr_at (drop (S e) mem);
              mem ← mwrites mem s (rest ++ [0]);
              html_entities_decode_loop fuel mem s
        end
  end.
Definition html_entities_decode (mem : list Z) : res (list Z) :=
  html_entities_decode_loop (length mem) mem 0.

Definition escape_entity (c : Z) : option (list Z) :=
  if c =? 38 then Some (lit "amp")
  else if c =? 60 then Some (lit "lt")
  else if c =? 62 then Some (lit "gt")
  else None.

(** The bytes at [dst], and the length [olen] as either pass counts it. *)
Fixpoint html_enteties_escape_loop (src : list Z) (dst : option (list Z)) (olen : Z)
    : option (list Z) * Z :=
  match src with
  | [] => (option_map (fun d => d ++ [0]) dst, olen + 1)
  | c :: src =>
      match escape_entity c with
      | None => html_enteties_escape_loop src (option_map (fun d => d ++ [c]) dst) (olen + 1)
      | Some entity =>
          match dst with
          | Some d =>
              html_enteties_escape_loop src (Some (d ++ [38] ++ entity ++ [59]))
                (olen + 1 + Z.of_nat (length entity) + 1)
          | None =>
              html_enteties_escape_loop src None (olen + (2 + Z.of_nat (length entity)))
          end
      end
  end.
Definition html_enteties_escape (src : list Z) (dst : bool) : option (list Z) * Z :=
  html_enteties_escape_loop src (if dst then Some [] else None) 0.

(** * Specification *)

Fixpoint html_decode (fuel : nat) (s : list Z) : list Z :=
  match fuel, s with
  | S fuel, c :: s' =>
      if negb (c =? 38) then c :: html_decode fuel s'
      else match strchr 59 s with
      | None => c :: html_decode fuel s'
      | Some (a, b) =>
          let code := html_entity_lookup (take 9 (tail a)) in
          if code =? -1 then c :: html_decode fuel s'
          else utf8_put code ++ html_decode fuel b
      end
  | _, _ => []
  end.

(** * Lemmas *)

Lemma strtol_digits_bound base s : forall acc,
  2 <= base <= 36 -> 0 <= acc ->
  0 <= (strtol_digits base acc s).1 < (acc + 1) * base ^ Z.of_nat (length s).
Proof.
  induction s as [|c s IH]; intros acc Hb Ha; cbn [strtol_digits length].
  { simpl. rewrite Z.pow_0_r. lia. }
  assert (0 < base ^ Z.of_nat (length s)) as HP by (apply Z.pow_pos_nonneg; lia).
  rewrite Nat2Z.inj_succ, Z.pow_succ_r by lia.
  destruct (Z.ltb_spec (digit_val c) base) as [Hd|]; [|cbn [fst]; nia].
  assert (0 <= digit_val c).
  { unfold digit_val, is_digit. destruct (_ && _) eqn:E1; [zbool; lia|].
    destruct ((97 <=? c) && _) eqn:E2; [zbool; lia|]. destruct ((65 <=? c) && _) eqn:E3; [zbool; lia|lia]. }
  specialize (IH (acc * base + digit_val c) Hb ltac:(nia)). nia.
Qed.

Lemma strtol_short s base :
  (length s <= 2)%nat -> base = 10 \/ base = 16 -> -255 <= (strtol s base).1 <= 255.
Proof.
  intros Hl Hb. unfold strtol. pose proof (skip_space_length s) as Hs.
  set (x := match skip_space s with 45 :: t => _ | _ => _ end).
  assert (length x.2 <= 2)%nat as Hx.
  { subst x. destruct (skip_space s) as [|c t]; simpl in *; [lia|].
    repeat case_match; simpl in *; lia. }
  destruct x as [neg s2]. simpl in Hx.
  assert (strtol_prefix base s2 = (base, s2)) as ->.
  { destruct s2 as [|a [|b [|d s3]]]; simpl in Hx; try lia; unfold strtol_prefix;
      destruct Hb as [-> | ->]; repeat case_match; done. }
  destruct s2 as [|c s3]; [simpl; lia|]. destruct (digit_val c <? base); [|simpl; lia].
  pose proof (strtol_digits_bound base (c :: s3) 0 ltac:(lia) ltac:(lia)) as Hv.
  destruct (strtol_digits base 0 (c :: s3)) as [v rest]. cbn [fst] in *.
  assert (base ^ Z.of_nat (length (c :: s3)) <= 16 ^ 2) as Hp.
  { transitivity (base ^ 2); [apply Z.pow_le_mono_r; simpl in *; lia|].
    destruct Hb as [-> | ->]; vm_compute; done. }
  change (16 ^ 2) with 256 in Hp. assert (v <= 255) by lia.
  unfold clamp, i64_min, i64_max. destruct neg; lia.
Qed.

Lemma utf8_put_small c : -255 <= c <= 255 -> (length (utf8_put c) <= 2)%nat.
Proof.
  intros Hc. unfold utf8_put.
  rewrite !(proj2 (Z.eqb_neq _ _)), (proj2 (Z.leb_gt 55296 c)) by lia. cbn [orb andb].
  destruct (c <? 128); [simpl; lia|]. rewrite (proj2 (Z.ltb_lt c 2048)) by lia. simpl. lia.
Qed.

Lemma entity_find_fits l name :
  forallb (fun e => (length (utf8_put e.2) <=? length e.1 + 2)%nat) l = true ->
  entity_find l name <> -1 -> (length (utf8_put (entity_find l name)) <= length name + 2)%nat.
Proof.
  induction l as [|[n code] l IH]; simpl; [done|]. rewrite andb_true_iff, Nat.leb_le. intros [H1 H2].
  destruct (decide (n = name)) as [<-|]; auto.
Qed.

(** No entity is shorter than the encoding of its code point. *)
Lemma html_entity_fits name :
  html_entity_lookup name <> -1 ->
  (length (utf8_put (html_entity_lookup name)) <= length name + 2)%nat.
Proof.
  destruct (decide (4 <= length name)%nat) as [Hl|Hl].
  { pose proof (utf8_put_length (html_entity_lookup name)). lia. }
  assert (entity_find html_entities name <> -1 ->
    (length (utf8_put (entity_find html_entities name)) <= length name + 2)%nat) as Hnamed.
  { apply entity_find_fits. vm_compute. reflexivity. }
  assert (forall ds b, (length ds <= 2)%nat -> b = 10 \/ b = 16 ->
    (length (utf8_put (s32 (strtol ds b).1)) <= 2)%nat) as Hnum.
  { intros ds b Hd Hb. pose proof (strtol_short ds b Hd Hb).
    rewrite s32_id by ilia. apply utf8_put_small. done. }
  unfold html_entity_lookup. destruct (decide (head name = Some 35)) as [Hh|_]; [|apply Hnamed].
  intros _. assert (1 <= length name)%nat by (destruct name; simpl in *; [done|lia]).
  transitivity 2%nat; [|lia].
  destruct (decide _); (apply Hnum; [rewrite length_drop; lia|lia]).
Qed.

Lemma mwrites_app a old b bs :
  length old = length bs -> mwrites (a ++ old ++ b) (length a) bs = Ok (a ++ bs ++ b).
Proof.
  intros Hl. unfold mwrites. rewrite decide_True by (rewrite !length_app; lia).
  rewrite take_app_length, drop_app_ge by lia. rewrite drop_app_ge by lia.
  replace (length a + length bs - length a - length old)%nat with 0%nat by lia. by rewrite drop_0.
Qed.

(** Stores that are shorter than what they replace leave a gap. *)
Lemma mwrites_gap a old b bs :
  (length bs <= length old)%nat ->
  mwrites (a ++ old ++ b) (length a) bs = Ok (a ++ bs ++ drop (length bs) old ++ b).
Proof.
  intros Hl. rewrite <- (take_drop (length bs) old) at 1. rewrite <- app_assoc.
  apply mwrites_app. rewrite length_take. lia.
Qed.

Lemma html_entities_decode_loop_spec fuel : forall s out tl,
  cstring_ok s -> (length s < fuel)%nat ->
  exists tl', html_entities_decode_loop fuel (out ++ s ++ 0 :: tl) (length out)
      = Ok (out ++ html_decode fuel s ++ 0 :: tl') /\
    length (html_decode fuel s ++ 0 :: tl') = length (s ++ 0 :: tl) /\
    (length (html_decode fuel s) <= length s)%nat.
Proof.
  induction fuel as [|fuel IH]; intros s out tl Hs Hf; [lia|].
  destruct Hs as [|c s Hc Hs]; cbn [html_entities_decode_loop app html_decode].
  { rewrite mread_app, ok_bind. exists tl. split_and!; done. }
  rewrite mread_app, ok_bind, (proj2 (Z.eqb_neq c 0)) by lia.
  assert (exists tl', html_entities_decode_loop fuel (out ++ c :: s ++ 0 :: tl) (S (length out))
      = Ok (out ++ (c :: html_decode fuel s) ++ 0 :: tl') /\
    length ((c :: html_decode fuel s) ++ 0 :: tl') = length (c :: s ++ 0 :: tl) /\
    (length (c :: html_decode fuel s) <= length (c :: s))%nat) as Hcopy.
  { destruct (IH s (out ++ [c]) tl Hs) as (tl' & E & Hl & Hle); [simpl in Hf; lia|].
    rewrite length_app, Nat.add_1_r, <- !app_assoc in E. exists tl'. split_and!; [done|simpl; lia|simpl; lia]. }
  destruct (Z.eqb_spec c 38) as [H38|]; cbn [negb]; [|done].
  assert (cstring_ok (c :: s)) as Hcs by (by constructor).
  rewrite drop_app_length.
  assert (cstr_at (c :: s ++ 0 :: tl) = Ok (c :: s)) as -> by apply (cstr_at_app (c :: s) tl Hcs).
  rewrite ok_bind.
  destruct (strchr 59 (c :: s)) as [[a b]|] eqn:Estr; [|done].
  cbv zeta. destruct (Z.eqb_spec (html_entity_lookup (take 9 (tail a))) (-1)) as [|Hne]; [done|].
  clear Hcopy. apply html_entity_fits in Hne. set (code := html_entity_lookup (take 9 (tail a))) in *.
  apply strchr_Some in Estr as [Hab _]. rewrite length_take in Hne.
  change (out ++ c :: s ++ 0 :: tl) with (out ++ (c :: s) ++ 0 :: tl).
  change (c :: s ++ 0 :: tl) with ((c :: s) ++ 0 :: tl). rewrite Hab in *.
  assert (a <> []) as Ha.
  { intros ->. simpl in Hab. injection Hab as -> _. lia. }
  assert (length (utf8_put code) <= length (a ++ [59%Z]))%nat as Hput.
  { rewrite length_app. destruct a as [|x a]; [done|]. cbn [tail length] in *. lia. }
  assert (cstring_ok b) as Hb.
  { unfold cstring_ok in Hcs. apply Forall_app in Hcs as [_ Hcs]. by inversion_clear Hcs. }
  assert ((a ++ 59 :: b) ++ 0 :: tl = (a ++ [59]) ++ b ++ 0 :: tl) as -> by (by rewrite <- !app_assoc).
  rewrite mwrites_gap, ok_bind by done. set (gap := drop (length (utf8_put code)) (a ++ [59])).
  assert (length (utf8_put code) + length gap = length a + 1)%nat as Hg.
  { unfold gap. rewrite length_drop. rewrite length_app in *. simpl in *. lia. }
  assert (drop (S (length out + length a)) (out ++ utf8_put code ++ gap ++ b ++ 0 :: tl) = b ++ 0 :: tl) as ->.
  { rewrite !app_assoc, <- (app_assoc _ b). rewrite <- !app_assoc.
    rewrite (app_assoc out), (app_assoc (out ++ _) gap). rewrite drop_app_ge by (rewrite !length_app; lia).
    rewrite !length_app. replace (_ - _)%nat with 0%nat by lia. by rewrite drop_0. }
  rewrite cstr_at_app, ok_bind by done.
  rewrite <- length_app, app_assoc.
  assert (exists tl2, mwrites ((out ++ utf8_put code) ++ gap ++ b ++ 0 :: tl) (length (out ++ utf8_put code)) (b ++ [0])
    = Ok ((out ++ utf8_put code) ++ b ++ 0 :: tl2) /\ length tl2 = (length gap + length tl)%nat) as (tl2 & -> & Hl2).
  { exists (drop (length (b ++ [0])) (gap ++ b ++ [0]) ++ tl).
    replace (gap ++ b ++ 0 :: tl) with ((gap ++ b ++ [0]) ++ tl) by (by rewrite <- !app_assoc).
    rewrite (mwrites_gap _ (gap ++ b ++ [0]) tl) by (rewrite !length_app; lia). rewrite <- !app_assoc. split; [done|].
    rewrite length_app, length_drop, !length_app. simpl. lia. }
  rewrite ok_bind. destruct (IH b (out ++ utf8_put code) tl2 Hb) as (tl' & E & Hl & Hle).
  { rewrite length_app in Hf. simpl in Hf. lia. }
  exists tl'. rewrite E, <- !app_assoc. split; [done|].
  rewrite ?length_app in *. cbn [length] in *. lia.
Qed.

Lemma html_decode_plain fuel c s : c <> 38 -> html_decode (S fuel) (c :: s) = c :: html_decode fuel s.
Proof. intros H. cbn [html_decode]. by rewrite (proj2 (Z.eqb_neq c 38) H). Qed.

Lemma strchr_app ch a b : ch ∉ a -> strchr ch (a ++ ch :: b) = Some (a, b).
Proof.
  induction a as [|x a IH]; intros Hni; simpl; [by rewrite Z.eqb_refl|].
  rewrite (proj2 (Z.eqb_neq x ch)) by set_solver. by rewrite IH by set_solver.
Qed.

Lemma html_decode_entity fuel name c rest :
  59 ∉ name -> (length name <= 9)%nat -> html_entity_lookup name = c -> c <> -1 ->
  html_decode (S fuel) ((38 :: name) ++ 59 :: rest) = utf8_put c ++ html_decode fuel rest.
Proof.
  intros Hn Hl Hc H1. cbn [app html_decode Z.eqb Pos.eqb negb].
  change (38 :: name ++ 59 :: rest) with ((38 :: name) ++ 59 :: rest).
  rewrite strchr_app by set_solver. cbv zeta. cbn [tail]. rewrite take_ge, Hc by done.
  by rewrite (proj2 (Z.eqb_neq c (-1))).
Qed.

(** [e] is a named entity, short enough for the decoder, of the character [c]. *)
Definition entity_for (c : Z) (e : list Z) : Prop :=
  exists name, e = (38 :: name) ++ [59] /\ ~ (59 ∈ name) /\ (length name <= 9)%nat /\
    html_entity_lookup name = c /\ utf8_put c = [c] /\ c <> -1.

(** A writer that escapes some characters as named entities and leaves no
    other ampersand is undone by the decoder. *)
Lemma html_decode_esc esc s :
  (forall c e, esc c = Some e -> entity_for c e) ->
  esc 38 <> None ->
  forall fuel, (length (esc_bytes esc s) < fuel)%nat -> html_decode fuel (esc_bytes esc s) = s.
Proof.
  intros Hesc H38. induction s as [|c s IH]; intros fuel Hf; [by destruct fuel|].
  rewrite esc_bytes_cons, length_app in *. destruct fuel as [|fuel]; [lia|].
  destruct (esc c) as [e|] eqn:Ee; cbn [default from_option] in *; unfold id in *.
  - destruct (Hesc c e Ee) as (name & -> & Hn & Hl & Hc & Hp & H1).
    rewrite <- app_assoc. cbn [app].
    change (38 :: name ++ 59 :: esc_bytes esc s) with ((38 :: name) ++ 59 :: esc_bytes esc s).
    rewrite (html_decode_entity fuel name c) by done. rewrite Hp, IH; [done|].
    rewrite length_app in Hf. simpl in Hf. lia.
  - cbn [app]. rewrite html_decode_plain by congruence. rewrite IH; [done|]. simpl in Hf. lia.
Qed.

Lemma xml_esc_entities c e : xml_esc c = Some e -> entity_for c e.
Proof.
  unfold xml_esc. intros H.
  destruct (Z.eqb_spec c 60) as [->|_]; [injection H as <-; exists (lit "lt")|
  destruct (Z.eqb_spec c 62) as [->|_]; [injection H as <-; exists (lit "gt")|
  destruct (Z.eqb_spec c 38) as [->|_]; [injection H as <-; exists (lit "amp")|
  destruct (Z.eqb_spec c 39) as [->|_]; [injection H as <-; exists (lit "apos")|
  destruct (Z.eqb_spec c 34) as [->|_]; [injection H as <-; exists (lit "quot")|done]]]]];
  (split_and!; [reflexivity|apply (bool_decide_unpack _); vm_compute; exact I|simpl; lia|reflexivity|reflexivity|lia]).
Qed.

Definition html_esc (c : Z) : option (list Z) :=
  option_map (fun e => (38 :: e) ++ [59]) (escape_entity c).

Lemma html_esc_entities c e : html_esc c = Some e -> entity_for c e.
Proof.
  unfold html_esc, escape_entity. intros H.
  destruct (Z.eqb_spec c 38) as [->|_]; [injection H as <-; exists (lit "amp")|
  destruct (Z.eqb_spec c 60) as [->|_]; [injection H as <-; exists (lit "lt")|
  destruct (Z.eqb_spec c 62) as [->|_]; [injection H as <-; exists (lit "gt")|done]]];
  (split_and!; [reflexivity|apply (bool_decide_unpack _); vm_compute; exact I|simpl; lia|reflexivity|reflexivity|lia]).
Qed.

Lemma html_enteties_escape_loop_spec src : forall dst olen,
  html_enteties_escape_loop src dst olen =
    (option_map (fun d => d ++ esc_bytes html_esc src ++ [0]) dst,
     olen + Z.of_nat (length (esc_bytes html_esc src)) + 1).
Proof.
  induction src as [|c src IH]; intros dst olen; cbn [html_enteties_escape_loop].
  { f_equal; simpl; lia. }
  rewrite esc_bytes_cons, length_app. unfold html_esc at 1 3.
  destruct (escape_entity c) as [e|]; cbn [option_map default from_option]; unfold id.
  - destruct dst as [d|]; rewrite IH; cbn [option_map].
    + rewrite <- !app_assoc. cbn [app length]. rewrite length_app. f_equal. cbn [length]. lia.
    + cbn [app length]. rewrite length_app. f_equal. cbn [length]. lia.
  - rewrite IH. f_equal; [|cbn [length]; lia]. destruct dst; cbn [option_map]; [|done].
    by rewrite <- !app_assoc.
Qed.

(** * Properties *)

(** C33: decoding entities in place turns a string into its decoding, which is
    never longer: no store reaches text that is still to be read, because no
    named or numeric entity is shorter than the UTF-8 encoding of its code
    point; the search for the end of an entity stays inside the string. *)
Theorem html_entities_decode_spec (s tl : list Z) :
  cstring_ok s ->
  exists n tl', html_entities_decode (s ++ 0 :: tl) = Ok (html_decode n s ++ 0 :: tl') /\
    (length s < n)%nat /\ length (html_decode n s ++ 0 :: tl') = length (s ++ 0 :: tl) /\
    (length (html_decode n s) <= length s)%nat.
Proof.
  intros Hs. set (n := length (s ++ 0 :: tl)).
  assert (length s < n)%nat as Hn by (unfold n; rewrite length_app; simpl; lia).
  destruct (html_entities_decode_loop_spec n s [] tl Hs Hn) as (tl' & E & Hl & Hle).
  exists n, tl'. split; [exact E|]. done.
Qed.

Lemma html_entities_decode_spec_witness :
  exists n tl', html_entities_decode (lit "a&eacute;&#x20AC;&no;" ++ [0])
    = Ok (html_decode n (lit "a&eacute;&#x20AC;&no;") ++ 0 :: tl') /\
    html_decode 30 (lit "a&eacute;&#x20AC;&no;") = [97; 195; 169; 226; 130; 172; 38; 110; 111; 59].
Proof.
  destruct (html_entities_decode_spec (lit "a&eacute;&#x20AC;&no;") []) as (n & tl' & E & _).
  - repeat constructor; lia.
  - exists n, tl'. split; [exact E|]. vm_compute. reflexivity.
Defined.

(** C34: text escaped by either XML or HTML writer decodes in place to itself;
    the HTML writer counts the same length with and without a destination, and
    writes exactly that many bytes. *)
Theorem html_escape_decode {cs : CharSign} (s : list Z) :
  cstring_ok s ->
  (exists tl, html_entities_decode (esc_bytes xml_esc s ++ [0]) = Ok (s ++ 0 :: tl)) /\
  exists out n, html_enteties_escape s true = (Some out, n) /\ html_enteties_escape s false = (None, n) /\
    n = Z.of_nat (length out) /\ exists tl, html_entities_decode out = Ok (s ++ 0 :: tl).
Proof.
  intros Hs.
  assert (forall esc, (forall c e, esc c = Some e -> entity_for c e) ->
     esc 38 <> None -> (forall c e, esc c = Some e -> cstring_ok e) ->
     exists tl, html_entities_decode (esc_bytes esc s ++ [0]) = Ok (s ++ 0 :: tl)) as H.
  { intros esc Hesc H38 Hok. set (e := esc_bytes esc s).
    assert (cstring_ok e) as He.
    { unfold e, esc_bytes. clear -Hok Hs. induction Hs as [|c s Hc _ IH]; [constructor|]. cbn [map concat].
      apply Forall_app. split; [|done]. destruct (esc c) as [x|] eqn:E; [by apply (Hok c)|].
      by apply Forall_singleton. }
    assert (length e < length (e ++ [0%Z]))%nat as Hn by (rewrite length_app; simpl; lia).
    destruct (html_entities_decode_loop_spec _ e [] [] He Hn) as (tl & E & _).
    exists tl. unfold html_entities_decode. cbn [app length] in E. rewrite E.
    unfold e. by rewrite html_decode_esc. }
  split.
  - apply H; [apply xml_esc_entities|done|]. intros c e Hc. unfold xml_esc in Hc.
    repeat case_match; cbn [option_map] in Hc; simplify_eq; apply (bool_decide_unpack _); vm_compute; exact I.
  - unfold html_enteties_escape. rewrite !html_enteties_escape_loop_spec. cbn [option_map app].
    eexists _, _. split; [done|]. split; [done|]. split; [rewrite length_app; simpl; lia|].
    apply H; [apply html_esc_entities|done|]. intros c e Hc. unfold html_esc, escape_entity in Hc.
    repeat case_match; cbn [option_map] in Hc; simplify_eq; apply (bool_decide_unpack _); vm_compute; exact I.
Qed.

Lemma html_escape_decode_witness :
  exists tl, html_entities_decode (esc_bytes xml_esc (lit "<a href='x'>&</a>") ++ [0])
    = Ok (lit "<a href='x'>&</a>" ++ 0 :: tl).
Proof.
  apply (html_escape_decode (cs := false) (lit "<a href='x'>&</a>")).
  repeat constructor; lia.
Defined.
