(* ===== verification/FileAccess.v ===== *)
(** Files (src/src/fileaccess): the interface between the layers a file is read
    through, [fa_protocol] of fa_proto.h, with what a layer promises; and the
    layers for a file of the system (fa_fs.c), for memory (fa_bundle.c), for a
    data URL (fa_data.c) and for a part of another file (fa_slice.c).

    The contents of a file do not change while it is open, and the system's
    read(2), lseek(2) and stat(2) of a regular file do not fail. *)
From S2P Require Import Prelude Clib Str.

Local Open Scope Z_scope.

(** * The interface *)

Definition SEEK_SET : Z := 0.
Definition SEEK_CUR : Z := 1.
Definition SEEK_END : Z := 2.

(** What [fap_read] returns: the bytes stored at the start of the buffer, whose
    number it is, or a negative number. *)
Inductive rd := Rd (bytes : list Z) | RdErr (r : Z).

(** [fap_read fh room size]: the buffer has [room] bytes.  [fap_seek] is without
    the argument [lazy], which is a hint. *)
Class Fap (H : Type) := {
  fap_read : H -> Z -> Z -> res (rd * H);
  fap_seek : H -> Z -> Z -> res (Z * H);
  fap_fsize : H -> res (Z * H)
}.

Definition flen (F : list Z) : Z := Z.of_nat (length F).
Definition bytes_at (F : list Z) (p n : Z) : list Z := take (Z.to_nat n) (drop (Z.to_nat p) F).

(** Where [fap_seek] goes: [lseek(2)]. *)
Definition seek_target (p size pos whence : Z) : option Z :=
  if whence =? SEEK_SET then Some pos
  else if whence =? SEEK_CUR then Some (p + pos)
  else if whence =? SEEK_END then Some (size + pos)
  else None.

(** The promise of a layer with the contents [F] at position [p]: a read of at
    most [limit] bytes gives what there is, a seek within the file succeeds, and
    the size is right, or -1 if it is not known. *)
Class FileOk {H} (fap : Fap H) (limit : Z) (At : H -> list Z -> Z -> Prop) : Prop := {
  at_pos h F p : At h F p -> 0 <= p <= flen F;
  at_read h F p room size : At h F p -> 0 <= size <= room -> size <= limit ->
    exists h', fap_read h room size = Ok (Rd (bytes_at F p size), h') /\ At h' F (p + flen (bytes_at F p size));
  at_seek h F p pos whence t : At h F p -> seek_target p (flen F) pos whence = Some t -> 0 <= t <= flen F ->
    exists h', fap_seek h pos whence = Ok (t, h') /\ At h' F t;
  at_fsize h F p : At h F p -> exists r h', fap_fsize h = Ok (r, h') /\ (r = flen F \/ r = -1) /\ At h' F p
}.

(** The wrappers of fileaccess.c. *)
Definition fa_read {H} {fap : Fap H} (fh : H) (room size : Z) : res (rd * H) :=
  if size =? 0 then Ok (Rd [], fh) else fap_read fh room size.
Definition fa_seek {H} {fap : Fap H} (fh : H) (pos whence : Z) : res (Z * H) := fap_seek fh pos whence.
Definition fa_fsize {H} {fap : Fap H} (fh : H) : res (Z * H) := fap_fsize fh.

(** A client: a sequence of calls with their answers. *)
Inductive file_op := OpRead (size : Z) | OpSeek (pos whence : Z).
Inductive answer := Got (r : rd) | Went (pos : Z).

Fixpoint run_ops {H} {fap : Fap H} (h : H) (ops : list file_op) : res (list answer * H) :=
  match ops with
  | [] => Ok ([], h)
  | OpRead size :: ops => '(r, h) ← fa_read h size size; '(rs, h) ← run_ops h ops; Ok (Got r :: rs, h)
  | OpSeek pos whence :: ops => '(t, h) ← fa_seek h pos whence; '(rs, h) ← run_ops h ops; Ok (Went t :: rs, h)
  end.

(** A client that reads on, and keeps what it gets. *)
Fixpoint read_seq {H} {fap : Fap H} (h : H) (sizes : list Z) : res (list Z * H) :=
  match sizes with
  | [] => Ok ([], h)
  | size :: sizes =>
      '(r, h) ← fap_read h size size;
      match r with
      | Rd bytes => '(rest, h) ← read_seq h sizes; Ok (bytes ++ rest, h)
      | RdErr _ => Fault AssertFailed
      end
  end.

(** What the answers have to be for a file with the contents [F] at [p]; [None]
    for a sequence that leaves the file or reads more than [limit]. *)
Fixpoint spec_ops (limit : Z) (F : list Z) (p : Z) (ops : list file_op) : option (list answer * Z) :=
  match ops with
  | [] => Some ([], p)
  | OpRead size :: ops =>
      if (0 <=? size) && (size <=? limit) then
        let bytes := bytes_at F p size in
        '(rs, q) ← spec_ops limit F (p + flen bytes) ops; Some (Got (Rd bytes) :: rs, q)
      else None
  | OpSeek pos whence :: ops =>
      t ← seek_target p (flen F) pos whence;
      if (0 <=? t) && (t <=? flen F) then '(rs, q) ← spec_ops limit F t ops; Some (Went t :: rs, q) else None
  end.

(** [memcpy] of [n] bytes at [p] of an object into a buffer with [room] bytes. *)
Definition copy_out (obj : list Z) (p n room : Z) : res (list Z) :=
  if (0 <=? p) && (p + n <=? flen obj) then
    if n <=? room then Ok (bytes_at obj p n) else Fault OobWrite
  else Fault OobRead.

(** * Memory: fa_bundle.c *)

Record fa_bundle_fh := BundleFh { fb_ptr : list Z; fb_size : Z; fb_pos : Z }.

(** The sum of an [int] and a [size_t] is a [size_t]. *)
Definition b_read (fh : fa_bundle_fh) (room size : Z) : res (rd * fa_bundle_fh) :=
  if size <? 1 then Ok (Rd [], fh) else
  let size := if u64 (fb_size fh) <? u64 (fb_pos fh + size) then u64 (fb_size fh - fb_pos fh) else size in
  bytes ← copy_out (fb_ptr fh) (fb_pos fh) size room;
  Ok (Rd bytes, BundleFh (fb_ptr fh) (fb_size fh) (s32 (fb_pos fh + size))).

Definition b_seek (fh : fa_bundle_fh) (pos whence : Z) : res (Z * fa_bundle_fh) :=
  match seek_target (fb_pos fh) (fb_size fh) pos whence with
  | None => Ok (-1, fh)
  | Some np =>
      let np := s32 np in
      if np <? 0 then Ok (-1, fh) else Ok (np, BundleFh (fb_ptr fh) (fb_size fh) np)
  end.

Definition b_fsize (fh : fa_bundle_fh) : res (Z * fa_bundle_fh) := Ok (fb_size fh, fh).

#[export] Instance bundle_fap : Fap fa_bundle_fh := {| fap_read := b_read; fap_seek := b_seek; fap_fsize := b_fsize |}.

Definition memfile_make (mem : list Z) (len : Z) : fa_bundle_fh := BundleFh mem (s32 len) 0.

(** * Data URLs: fa_data.c *)

(** [dh_obj] is the object [data] points to, of which the first [dh_size] bytes
    have been decoded. *)
Record data_handle := DataFh { dh_obj : list Z; dh_size : Z; dh_fpos : Z }.

Definition data_read (dh : data_handle) (room size : Z) : res (rd * data_handle) :=
  let size := Z.min size (u64 (dh_size dh - dh_fpos dh)) in
  bytes ← copy_out (dh_obj dh) (dh_fpos dh) size room;
  Ok (Rd bytes, DataFh (dh_obj dh) (dh_size dh) (s32 (dh_fpos dh + size))).

Definition data_seek (dh : data_handle) (pos whence : Z) : res (Z * data_handle) :=
  match seek_target (dh_fpos dh) (dh_size dh) pos whence with
  | None => Ok (-1, dh)
  | Some np => if np <? 0 then Ok (-1, dh) else Ok (np, DataFh (dh_obj dh) (dh_size dh) (s32 np))
  end.

Definition data_fsize (dh : data_handle) : res (Z * data_handle) := Ok (dh_size dh, dh).

#[export] Instance data_fap : Fap data_handle := {| fap_read := data_read; fap_seek := data_seek; fap_fsize := data_fsize |}.

Inductive data_error := NoComma | NotBase64 | InvalidBase64.

(** [av_base64_decode out_size text] gives the number of bytes it has decoded,
    or a negative one, and the bytes. *)
Definition data_open (av_base64_decode : Z -> list Z -> Z * list Z) (uri : list Z) : res (data_handle + data_error) :=
  match strchr 44 uri with
  | None => Ok (inr NoComma)
  | Some (header, sep) =>
      h ← find_str uri (flen header) (lit ";base64");
      match h with
      | None => Ok (inr NotBase64)
      | Some _ =>
          let '(len, data) := av_base64_decode (flen sep) sep in
          if len =? -1 then Ok (inr InvalidBase64) else Ok (inl (DataFh data (u64 len) 0))
      end
  end.

(** * A part of a file: fa_slice.c *)

Record slice (H : Type) := Slice { s_src : H; s_offset : Z; s_size : Z; s_fpos : Z }.
Arguments Slice {H} _ _ _ _.
Arguments s_src {H} _.
Arguments s_offset {H} _.
Arguments s_size {H} _.
Arguments s_fpos {H} _.

Section slice.
Context {H : Type} {fap : Fap H}.

Definition slice_set (s : slice H) (src : H) (fpos : Z) : slice H := Slice src (s_offset s) (s_size s) fpos.

Definition slice_seek (s : slice H) (pos whence : Z) : res (Z * slice H) :=
  match seek_target (s_fpos s) (s_size s) pos whence with
  | None => Ok (-1, s)
  | Some np => if np <? 0 then Ok (-1, s) else Ok (np, slice_set s (s_src s) np)
  end.

Definition slice_fsize (s : slice H) : res (Z * slice H) := Ok (s_size s, s).

(** [s_fpos + size] is a [size_t], and so is [size], which is never below 0. *)
Definition slice_read (s : slice H) (room size : Z) : res (rd * slice H) :=
  let size := if u64 (s_size s) <? u64 (s_fpos s + size) then u64 (s_size s - s_fpos s) else size in
  if size <=? 0 then Ok (Rd [], s) else
  let p := s_fpos s + s_offset s in
  '(q, src) ← fa_seek (s_src s) p SEEK_SET;
  if negb (q =? p) then Ok (RdErr (-1), slice_set s src (s_fpos s)) else
  '(r, src) ← fa_read src room size;
  match r with
  | Rd bytes => Ok (Rd bytes, slice_set s src (s_fpos s + flen bytes))
  | RdErr e => Ok (RdErr e, slice_set s src (s_fpos s))
  end.

#[export] Instance slice_fap : Fap (slice H) := {| fap_read := slice_read; fap_seek := slice_seek; fap_fsize := slice_fsize |}.

Definition fa_slice_open (fa : H) (offset size : Z) : slice H := Slice fa offset size 0.
End slice.

(** * Files of the system: fa_fs.c *)

(** An open regular file, with its contents. *)
Record fd_ := Fd { fd_data : list Z; fd_pos : Z }.

(** [read(2)] transfers at most 0x7ffff000 bytes. *)
Definition read_max : Z := 2147479552.
Definition sys_read (fd : fd_) (room size : Z) : res (list Z * fd_) :=
  let bytes := bytes_at (fd_data fd) (fd_pos fd) (Z.min size read_max) in
  if flen bytes <=? room then Ok (bytes, Fd (fd_data fd) (fd_pos fd + flen bytes)) else Fault OobWrite.
Definition sys_lseek (fd : fd_) (pos whence : Z) : Z * fd_ :=
  match seek_target (fd_pos fd) (flen (fd_data fd)) pos whence with
  | Some np => if np <? 0 then (-1, fd) else (np, Fd (fd_data fd) np)
  | None => (-1, fd)
  end.

(** The size of the parts is known if there are several. *)
Record part := Part { pt_fd : fd_; pt_size : Z }.
Record fs_handle := FsFh { fs_parts : list part; fs_total_size : Z; fs_read_pos : Z }.

(** The part a position is in.  The size of a part behind the last is looked at
    when the position is behind the end. *)
Fixpoint piece_loop (pos size : Z) (i : nat) (next : list part) (n : nat) : res nat :=
  match n with
  | O => Ok i
  | S n =>
      if pos <=? size then Ok i
      else match next with
           | pt :: next => piece_loop pos (size + pt_size pt) (S i) next n
           | [] => Fault OobRead
           end
  end.
Definition get_current_read_piece_num (fh : fs_handle) : res nat :=
  match fs_parts fh with
  | [] => Fault OobRead
  | pt :: next =>
      i ← piece_loop (fs_read_pos fh) (pt_size pt) 0 next (length (fs_parts fh));
      Ok (Nat.min i (length (fs_parts fh) - 1))
  end.

Definition get_part (fh : fs_handle) (n : nat) : res part :=
  match fs_parts fh !! n with Some pt => Ok pt | None => Fault OobRead end.
Definition put_fd (fh : fs_handle) (n : nat) (fd : fd_) : fs_handle :=
  FsFh (alter (fun pt => Part fd (pt_size pt)) n (fs_parts fh)) (fs_total_size fh) (fs_read_pos fh).
Definition set_read_pos (fh : fs_handle) (pos : Z) : fs_handle := FsFh (fs_parts fh) (fs_total_size fh) pos.

Definition fs_read (fh : fs_handle) (room size : Z) : res (rd * fs_handle) :=
  if decide (length (fs_parts fh) = 1%nat) then
    pt ← get_part fh 0;
    '(bytes, fd) ← sys_read (pt_fd pt) room size;
    Ok (Rd bytes, put_fd fh 0 fd)
  else
    pn ← get_current_read_piece_num fh;
    pt ← get_part fh pn;
    '(bytes, fd) ← sys_read (pt_fd pt) room size;
    let fh := put_fd fh pn fd in
    '(bytes, fh) ←
      (if (flen bytes <? size) && bool_decide (pn < length (fs_parts fh) - 1)%nat then
         pt ← get_part fh (S pn);
         let '(_, fd) := sys_lseek (pt_fd pt) 0 SEEK_SET in
         '(more, fd) ← sys_read fd (room - flen bytes) (size - flen bytes);
         Ok (bytes ++ more, put_fd fh (S pn) fd)
       else Ok (bytes, fh));
    Ok (Rd bytes, set_read_pos fh (fs_read_pos fh + flen bytes)).

(** The last step of a seek returns the position in the part. *)
Definition fs_seek (fh : fs_handle) (pos whence : Z) : res (Z * fs_handle) :=
  if decide (length (fs_parts fh) = 1%nat) then
    pt ← get_part fh 0;
    let '(r, fd) := sys_lseek (pt_fd pt) pos whence in
    Ok (r, put_fd fh 0 fd)
  else
    let act_pos :=
      if whence =? SEEK_SET then pos
      else if whence =? SEEK_CUR then fs_read_pos fh + pos
      else if whence =? SEEK_END then fs_total_size fh - pos
      else fs_read_pos fh in
    let fh := set_read_pos fh act_pos in
    pn ← get_current_read_piece_num fh;
    let pos := act_pos - foldr (fun pt n => pt_size pt + n) 0 (take pn (fs_parts fh)) in
    pt ← get_part fh pn;
    let '(r, fd) := sys_lseek (pt_fd pt) pos SEEK_SET in
    Ok (r, put_fd fh pn fd).

Definition fs_fsize (fh : fs_handle) : res (Z * fs_handle) :=
  if decide (length (fs_parts fh) = 1%nat) then pt ← get_part fh 0; Ok (flen (fd_data (pt_fd pt)), fh)
  else Ok (fs_total_size fh, fh).

#[export] Instance fs_fap : Fap fs_handle := {| fap_read := fs_read; fap_seek := fs_seek; fap_fsize := fs_fsize |}.

(** ** Opening *)

(** The regular files of the system. *)
Definition files := gmap (list Z) (list Z).

(** [%03d] of a number that is not negative. *)
Definition three_digits (n : Z) : list Z :=
  let d := dec_of_Z n in replicate (3 - length d) 48 ++ d.
Definition get_split_piece_name (fn : list Z) (num : nat) : list Z :=
  fn ++ [46] ++ three_digits (Z.of_nat num + 1).
Definition split_exists (fs : files) (fn : list Z) (num : nat) : bool :=
  bool_decide (is_Some (fs !! get_split_piece_name fn num)).

Fixpoint split_count_loop (fs : files) (fn : list Z) (count fuel : nat) : res nat :=
  match fuel with
  | O => Fault NoFuel
  | S fuel => if split_exists fs fn count then split_count_loop fs fn (S count) fuel else Ok count
  end.
Definition get_split_piece_count (fs : files) (fn : list Z) : res nat :=
  split_count_loop fs fn 0 (S (size fs)).

(** [fs_open] for reading. *)
Definition fs_open (fs : files) (url : list Z) : res (option fs_handle) :=
  match fs !! url with
  | Some F => Ok (Some (FsFh [Part (Fd F 0) 0] 0 0))
  | None =>
      c ← get_split_piece_count fs url;
      if decide (c = O) then Ok None
      else
        match mapM (fun i => fs !! get_split_piece_name url i) (seq 0 c) with
        | None => Ok None
        | Some Fs => Ok (Some (FsFh (map (fun F => Part (Fd F 0) (flen F)) Fs) (flen (concat Fs)) 0))
        end
  end.

(** * Lemmas *)

Lemma flen_nonneg F : 0 <= flen F.
Proof. unfold flen. lia. Qed.

Lemma flen_app a b : flen (a ++ b) = flen a + flen b.
Proof. unfold flen. rewrite length_app. lia. Qed.

Lemma flen_bytes_at F p n : 0 <= p -> 0 <= n -> flen (bytes_at F p n) = Z.max 0 (Z.min n (flen F - p)).
Proof. intros Hp Hn. unfold flen, bytes_at. rewrite length_take, length_drop. lia. Qed.

Lemma flen_bytes_in F p n : 0 <= p -> 0 <= n -> p + n <= flen F -> flen (bytes_at F p n) = n.
Proof. intros Hp Hn Hle. rewrite flen_bytes_at by lia. lia. Qed.

Lemma bytes_at_0 F p : bytes_at F p 0 = [].
Proof. done. Qed.

Lemma bytes_at_all F p n : 0 <= p <= flen F -> flen F - p <= n -> bytes_at F p n = drop (Z.to_nat p) F.
Proof. intros Hp Hn. unfold bytes_at. apply take_ge. rewrite length_drop. unfold flen in *. lia. Qed.

Lemma bytes_at_min F p n m : 0 <= p -> n <= m \/ flen F - p <= m -> bytes_at F p (Z.min n m) = bytes_at F p n.
Proof.
  intros Hp H. destruct (Z.le_gt_cases n m) as [Hle|Hgt]; [by rewrite Z.min_l by lia|]. rewrite Z.min_r by lia.
  destruct H as [H|H]; [lia|]. unfold bytes_at. rewrite !take_ge; [done|rewrite length_drop; unfold flen in H; lia..].
Qed.

Lemma bytes_at_app F p n m : 0 <= p -> 0 <= n -> 0 <= m -> p + n <= flen F ->
  bytes_at F p n ++ bytes_at F (p + n) m = bytes_at F p (n + m).
Proof.
  intros Hp Hn Hm Hle. unfold bytes_at. replace (Z.to_nat (p + n)) with (Z.to_nat p + Z.to_nat n)%nat by lia.
  rewrite <- drop_drop. replace (Z.to_nat (n + m)) with (Z.to_nat n + Z.to_nat m)%nat by lia.
  rewrite <- (take_take_drop (drop (Z.to_nat p) F)). done.
Qed.

Lemma bytes_at_sub F off size p n : 0 <= off -> 0 <= p -> 0 <= n -> p + n <= size ->
  bytes_at (bytes_at F off size) p n = bytes_at F (off + p) n.
Proof.
  intros Ho Hp Hn Hle. unfold bytes_at. rewrite skipn_firstn_comm, take_take, drop_drop. f_equal; [lia|f_equal; lia].
Qed.

Lemma bytes_at_split F q n : 0 <= q -> bytes_at F q n ++ drop (Z.to_nat (q + flen (bytes_at F q n))) F = drop (Z.to_nat q) F.
Proof.
  intros Hq. unfold flen. rewrite Z2Nat.inj_add, Nat2Z.id, <- drop_drop by lia. unfold bytes_at. set (l := drop (Z.to_nat q) F).
  rewrite length_take. destruct (Nat.le_ge_cases (Z.to_nat n) (length l)) as [H|H].
  - by rewrite Nat.min_l, take_drop by done.
  - by rewrite Nat.min_r, drop_all, take_ge, app_nil_r by done.
Qed.

Lemma copy_out_Ok obj p n room : 0 <= p -> p + n <= flen obj -> n <= room -> copy_out obj p n room = Ok (bytes_at obj p n).
Proof.
  intros Hp Hn Hr. unfold copy_out.
  by rewrite (proj2 (Z.leb_le 0 p)), (proj2 (Z.leb_le _ (flen obj))), (proj2 (Z.leb_le n room)) by lia.
Qed.

Lemma u64_id z : 0 <= z < 18446744073709551616 -> u64 z = z.
Proof. intros H. by apply Z.mod_small. Qed.

(** The size of a read cut to what there is. *)
Lemma clip_size size p n : 0 <= p <= n -> 0 <= size <= int_max -> n < 4611686018427387904 ->
  (if u64 n <? u64 (p + size) then u64 (n - p) else size) = Z.min size (n - p).
Proof.
  intros Hp Hs Hn. unfold int_max in Hs. rewrite !u64_id by lia. destruct (Z.ltb_spec n (p + size)); lia.
Qed.

Lemma seek_target_cases p size pos whence t : seek_target p size pos whence = Some t ->
  whence = SEEK_SET /\ t = pos \/ whence = SEEK_CUR /\ t = p + pos \/ whence = SEEK_END /\ t = size + pos.
Proof. unfold seek_target. repeat case_match; naive_solver lia. Qed.

(** A client of a layer that keeps its promise gets the answers. *)
Lemma run_ops_ok {H} {fap : Fap H} {limit At} {Hok : FileOk fap limit At} ops : forall (h : H) F p ans q,
  At h F p -> spec_ops limit F p ops = Some (ans, q) -> exists h', run_ops h ops = Ok (ans, h') /\ At h' F q.
Proof.
  induction ops as [|[size|pos whence] ops IH]; intros h F p ans q Hh Hs; simpl in *.
  - simplify_eq. by exists h.
  - destruct ((0 <=? size) && (size <=? limit)) eqn:E; [|done]. apply andb_prop in E as [E1%Z.leb_le E2%Z.leb_le].
    destruct (spec_ops limit F (p + flen (bytes_at F p size)) ops) as [[rs q']|] eqn:Er; simplify_eq/=.
    assert (exists h', fa_read h size size = Ok (Rd (bytes_at F p size), h') /\ At h' F (p + flen (bytes_at F p size))) as (h1 & -> & A1).
    { unfold fa_read. destruct (Z.eqb_spec size 0) as [->|]; [|by apply at_read].
      exists h. rewrite bytes_at_0. change (flen []) with 0. by rewrite Z.add_0_r. }
    destruct (IH h1 F _ rs q A1 Er) as (h2 & E3 & A2). exists h2. simpl. by rewrite E3.
  - destruct (seek_target p (flen F) pos whence) as [t|] eqn:Et; simplify_eq/=.
    destruct ((0 <=? t) && (t <=? flen F)) eqn:E; [|done]. apply andb_prop in E as [E1%Z.leb_le E2%Z.leb_le].
    destruct (spec_ops limit F t ops) as [[rs q']|] eqn:Er; simplify_eq/=.
    destruct (at_seek h F p pos whence t Hh Et) as (h1 & E4 & A1); [done|].
    destruct (IH h1 F _ rs q A1 Er) as (h2 & E3 & A2). exists h2. unfold fa_seek. rewrite E4. simpl. by rewrite E3.
Qed.

(** * The layers keep the promise *)

Ltac at_done := repeat split; solve [done | simpl in *; unfold int_max in *; lia].

Definition at_bundle (fh : fa_bundle_fh) (F : list Z) (p : Z) : Prop :=
  fb_ptr fh = F /\ fb_size fh = flen F /\ fb_pos fh = p /\ 0 <= p <= flen F /\ flen F <= int_max.

Lemma s32_small z : 0 <= z <= int_max -> s32 z = z.
Proof. intros H. apply s32_id. unfold int_min, int_max in *. lia. Qed.

#[export] Instance bundle_ok : FileOk bundle_fap int_max at_bundle.
Proof.
  split.
  - by intros h F p (_ & _ & _ & H & _).
  - intros [ptr sz pos] F p room size (<- & Hs & <- & Hp & Hm) Hr Hl. simpl in *. subst sz. unfold b_read. cbn [fb_ptr fb_size fb_pos].
    destruct (Z.ltb_spec size 1) as [H1|H1].
    + exists (BundleFh ptr (flen ptr) pos). assert (size = 0) as -> by lia. rewrite bytes_at_0.
      split; [done|]. change (flen []) with 0. rewrite Z.add_0_r. at_done.
    + rewrite clip_size by (unfold int_max in *; lia). rewrite copy_out_Ok by lia. rewrite ok_bind, bytes_at_min by lia.
      eexists. split; [done|]. unfold at_bundle. simpl. rewrite flen_bytes_at by lia.
      rewrite s32_small by lia. at_done.
  - intros [ptr sz pos] F p o w t (<- & Hs & <- & Hp & Hm) Ht Hb. simpl in *. subst sz. unfold b_seek. cbn [fb_ptr fb_size fb_pos].
    rewrite Ht, s32_small by lia. rewrite (proj2 (Z.ltb_ge t 0)) by lia. eexists. split; [done|]. at_done.
  - intros h F p (H1 & H2 & H3). exists (fb_size h), h. split; [done|]. split; [by left|]. at_done.
Qed.

Definition at_data (dh : data_handle) (F : list Z) (p : Z) : Prop :=
  dh_size dh = flen F /\ take (length F) (dh_obj dh) = F /\ dh_fpos dh = p /\ 0 <= p <= flen F /\ flen F <= int_max.

Lemma bytes_at_prefix G F p n : take (length F) G = F -> 0 <= p -> 0 <= n -> p + n <= flen F -> bytes_at G p n = bytes_at F p n.
Proof.
  intros HF Hp Hn Hle. transitivity (bytes_at (take (length F) G) p n); [|by rewrite HF]. unfold flen in Hle. unfold bytes_at.
  rewrite skipn_firstn_comm, take_take. f_equal. lia.
Qed.

#[export] Instance data_ok : FileOk data_fap int_max at_data.
Proof.
  split.
  - by intros h F p (_ & _ & _ & H & _).
  - intros [obj sz pos] F p room size (Hs & HF & <- & Hp & Hm) Hr Hl. simpl in *. subst sz. unfold data_read. cbn [dh_obj dh_size dh_fpos].
    unfold int_max in *. rewrite u64_id by lia. set (n := Z.min size (flen F - pos)).
    assert (flen F <= flen obj) as Ho by (apply (f_equal length) in HF; rewrite length_take in HF; unfold flen; lia).
    rewrite copy_out_Ok by (unfold n; lia). rewrite ok_bind, (bytes_at_prefix _ F) by (try done; unfold n; lia).
    unfold n. rewrite bytes_at_min by lia. eexists. split; [done|]. rewrite flen_bytes_at by lia.
    rewrite s32_small by (unfold int_max; lia). at_done.
  - intros [obj sz pos] F p o w t (Hs & HF & <- & Hp & Hm) Ht Hb. simpl in *. subst sz. unfold data_seek. cbn [dh_obj dh_size dh_fpos].
    rewrite Ht. rewrite (proj2 (Z.ltb_ge t 0)) by lia. rewrite s32_small by lia. eexists. split; [done|]. at_done.
  - intros h F p (H1 & H2 & H3). exists (dh_size h), h. split; [done|]. split; [by left|]. at_done.
Qed.

(** A part of a file, on top of any layer that keeps its promise. *)
Section slice_ok.
Context {H : Type} {fap : Fap H} {limit : Z} {At : H -> list Z -> Z -> Prop} {Hok : FileOk fap limit At}.

Definition at_slice (s : slice H) (F : list Z) (p : Z) : Prop :=
  exists G q, At (s_src s) G q /\ 0 <= s_offset s /\ 0 <= s_size s /\ s_offset s + s_size s <= flen G /\
    flen G < 4611686018427387904 /\ F = bytes_at G (s_offset s) (s_size s) /\ s_fpos s = p /\ 0 <= p <= s_size s.

#[export] Instance slice_ok : FileOk slice_fap (Z.min limit int_max) at_slice.
Proof using Hok.
  assert (forall G off n, 0 <= off -> 0 <= n -> off + n <= flen G -> flen (bytes_at G off n) = n) as Hlen.
  { intros G off n Ho Hn Hle. rewrite flen_bytes_at by lia. lia. }
  split.
  - intros [src off n pos] F p (G & q & HG & Ho & Hn & Hle & Hm & -> & <- & Hp). simpl in *. by rewrite Hlen.
  - intros [src off n pos] F p room size (G & q & HG & Ho & Hn & Hle & Hm & -> & <- & Hp) Hr Hl. simpl in *.
    unfold slice_read. cbn [s_src s_offset s_size s_fpos]. rewrite clip_size by lia. set (k := Z.min size (n - pos)).
    assert (bytes_at (bytes_at G off n) pos size = bytes_at G (pos + off) k) as ->.
    { rewrite <- (bytes_at_min _ pos size (n - pos)) by (try rewrite Hlen by done; lia). fold k.
      rewrite bytes_at_sub by (unfold k; lia). f_equal. lia. }
    destruct (Z.leb_spec k 0) as [Hk|Hk].
    + assert (k = 0) as -> by (unfold k in *; lia). rewrite bytes_at_0. eexists. split; [done|].
      exists G, q. change (flen []) with 0. rewrite Z.add_0_r. at_done.
    + destruct (at_seek src G q (pos + off) SEEK_SET (pos + off)) as (src1 & E1 & A1); [done|done|lia|].
      unfold fa_seek. rewrite E1, ok_bind, Z.eqb_refl. cbn [negb].
      destruct (at_read src1 G (pos + off) room k) as (src2 & E2 & A2); [done|unfold k in *; lia..|].
      unfold fa_read. rewrite (proj2 (Z.eqb_neq k 0)) by lia. rewrite E2, ok_bind. eexists. split; [done|].
      exists G, (pos + off + flen (bytes_at G (pos + off) k)). split; [done|]. cbn [s_offset s_size s_fpos slice_set].
      rewrite Hlen by (unfold k; lia). unfold k; at_done.
  - intros [src off n pos] F p o w t (G & q & HG & Ho & Hn & Hle & Hm & -> & <- & Hp) Ht Hb. simpl in *. rewrite Hlen in Ht, Hb by done.
    unfold slice_seek. cbn [s_src s_offset s_size s_fpos]. rewrite Ht. rewrite (proj2 (Z.ltb_ge t 0)) by lia.
    eexists. split; [done|]. exists G, q. at_done.
  - intros [src off n pos] F p (G & q & HG & Ho & Hn & Hle & Hm & -> & <- & Hp). simpl in *.
    exists n, (Slice src off n pos). split; [done|]. rewrite Hlen by done. split; [by left|]. exists G, q. at_done.
Qed.
End slice_ok.

(** A file in one part. *)
Definition at_fs (fh : fs_handle) (F : list Z) (p : Z) : Prop :=
  exists n, fs_parts fh = [Part (Fd F p) n] /\ 0 <= p <= flen F.

#[export] Instance fs_ok : FileOk fs_fap read_max at_fs.
Proof.
  split.
  - by intros h F p (n & _ & Hp).
  - intros [parts tot pos] F p room size (n & HF & Hp) Hr Hl. simpl in *. subst parts. unfold fs_read. simpl.
    unfold get_part. simpl. unfold sys_read. cbn [fd_data fd_pos]. rewrite Z.min_l by lia.
    pose proof (flen_bytes_at F p size) as Hb. rewrite (proj2 (Z.leb_le _ room)) by lia. rewrite ok_bind.
    eexists. split; [done|]. exists n. split; [done|]. lia.
  - intros [parts tot pos] F p o w t (n & HF & Hp) Ht Hb. simpl in *. subst parts. unfold fs_seek. simpl.
    unfold get_part. simpl. unfold sys_lseek. cbn [fd_data fd_pos]. rewrite Ht, (proj2 (Z.ltb_ge t 0)) by lia.
    eexists. split; [done|]. exists n. by split.
  - intros [parts tot pos] F p (n & HF & Hp). simpl in *. subst parts. eexists _, _. split; [done|]. split; [by left|]. by exists n.
Qed.
