(* ===== verification/FileBuffer.v ===== *)
(** Buffered files (src/src/fileaccess/fa_buffer.c): reads of a layer that is
    slow to seek in go through a ring of memory, of which up to eight zones hold
    bytes of the file.  The buffered file keeps the promise of the layer. *)
From S2P Require Import Prelude FileAccess.

Local Open Scope Z_scope.

(** * State *)

Definition BF_ZONES : nat := 8.

(** A zone of size 0 is not used.  The sums of its fields stay within the file
    and the memory, so that they do not overflow ([bf_ok]). *)
Record buffered_zone := Zone { bz_fpos : Z; bz_mpos : Z; bz_size : Z }.

(** [bf_mem] is [None] until the first read. *)
Record buffered_file (H : Type) := Bf {
  bf_src : H;
  bf_mem : option (list Z);
  bf_mem_size : Z;
  bf_min_request : Z;
  bf_mem_ptr : Z;
  bf_fpos : Z;
  bf_replace_ptr : Z;
  bf_size : Z;
  bf_zones : list buffered_zone
}.
Arguments Bf {H} _ _ _ _ _ _ _ _ _.
Arguments bf_src {H} _.
Arguments bf_mem {H} _.
Arguments bf_mem_size {H} _.
Arguments bf_min_request {H} _.
Arguments bf_mem_ptr {H} _.
Arguments bf_fpos {H} _.
Arguments bf_replace_ptr {H} _.
Arguments bf_size {H} _.
Arguments bf_zones {H} _.

(** * Zones *)

(** The loop of [erase_zone]: the zones from the first on, with what is still to
    be erased. *)
Fixpoint erase_zones (zs : list buffered_zone) (mpos size : Z) : list buffered_zone :=
  match zs with
  | [] => []
  | bz :: zs =>
      if bz_size bz =? 0 then bz :: erase_zones zs mpos size
      else if (mpos <? bz_mpos bz + bz_size bz) && (bz_mpos bz <? mpos + size) then
        if mpos =? bz_mpos bz then
          let s0 := Z.min size (bz_size bz) in
          Zone (bz_fpos bz + s0) (bz_mpos bz + s0) (bz_size bz - s0) :: erase_zones zs (mpos + s0) (size - s0)
        else Zone (bz_fpos bz) (bz_mpos bz) 0 :: erase_zones zs mpos size
      else bz :: erase_zones zs mpos size
  end.

(** The loop of [map_zone]: the zone that can be extended, or the first that is
    free. *)
Fixpoint map_target (zs : list buffered_zone) (i : nat) (free : option nat) (mpos fpos : Z) : nat + option nat :=
  match zs with
  | [] => inr free
  | bz :: zs =>
      if bz_size bz =? 0 then map_target zs (S i) (match free with None => Some i | Some j => Some j end) mpos fpos
      else if (bz_fpos bz + bz_size bz =? fpos) && (bz_mpos bz + bz_size bz =? mpos) then inl i
      else map_target zs (S i) free mpos fpos
  end.

Fixpoint resolve_zones (zs : list buffered_zone) (fpos size : Z) : option (Z * Z) :=
  match zs with
  | [] => None
  | bz :: zs =>
      if bz_size bz =? 0 then resolve_zones zs fpos size
      else if (bz_fpos bz <=? fpos) && (fpos <? bz_fpos bz + bz_size bz) then
        let d := s32 (fpos - bz_fpos bz) in
        Some (bz_mpos bz + d, Z.min size (bz_size bz - d))
      else resolve_zones zs fpos size
  end.

Definition i64_top : Z := 9223372036854775807.
Fixpoint zone_distance (zs : list buffered_zone) (fpos d : Z) : Z :=
  match zs with
  | [] => d
  | bz :: zs =>
      if bz_size bz =? 0 then zone_distance zs fpos d
      else zone_distance zs fpos (if fpos <=? bz_fpos bz then Z.min d (bz_fpos bz - fpos) else d)
  end.

(** Bytes stored in memory. *)
Definition store_at (mem : list Z) (p : Z) (bytes : list Z) : res (list Z) :=
  if (0 <=? p) && (p + flen bytes <=? flen mem)
  then Ok (take (Z.to_nat p) mem ++ bytes ++ drop (Z.to_nat p + length bytes) mem) else Fault OobWrite.

Section buffer.
Context {H : Type} {fap : Fap H}.
(** The memory of the ring, as it comes from the system. *)
Variable halloc : Z -> option (list Z).

#[local] Notation bfile := (buffered_file H).

Definition set_src (src : H) (bf : bfile) : bfile :=
  Bf src (bf_mem bf) (bf_mem_size bf) (bf_min_request bf) (bf_mem_ptr bf) (bf_fpos bf) (bf_replace_ptr bf) (bf_size bf) (bf_zones bf).
Definition set_mem (mem : list Z) (bf : bfile) : bfile :=
  Bf (bf_src bf) (Some mem) (bf_mem_size bf) (bf_min_request bf) (bf_mem_ptr bf) (bf_fpos bf) (bf_replace_ptr bf) (bf_size bf) (bf_zones bf).
Definition set_mem_ptr (p : Z) (bf : bfile) : bfile :=
  Bf (bf_src bf) (bf_mem bf) (bf_mem_size bf) (bf_min_request bf) p (bf_fpos bf) (bf_replace_ptr bf) (bf_size bf) (bf_zones bf).
Definition set_fpos (p : Z) (bf : bfile) : bfile :=
  Bf (bf_src bf) (bf_mem bf) (bf_mem_size bf) (bf_min_request bf) (bf_mem_ptr bf) p (bf_replace_ptr bf) (bf_size bf) (bf_zones bf).
Definition set_size (n : Z) (bf : bfile) : bfile :=
  Bf (bf_src bf) (bf_mem bf) (bf_mem_size bf) (bf_min_request bf) (bf_mem_ptr bf) (bf_fpos bf) (bf_replace_ptr bf) n (bf_zones bf).
Definition set_zones (r : Z) (zs : list buffered_zone) (bf : bfile) : bfile :=
  Bf (bf_src bf) (bf_mem bf) (bf_mem_size bf) (bf_min_request bf) (bf_mem_ptr bf) (bf_fpos bf) r (bf_size bf) zs.

Definition erase_zone (mpos size : Z) (bf : bfile) : bfile :=
  set_zones (bf_replace_ptr bf) (erase_zones (bf_zones bf) mpos size) bf.

Definition map_zone (mpos size fpos : Z) (bf : bfile) : bfile :=
  match map_target (bf_zones bf) 0 None mpos fpos with
  | inl i => set_zones (bf_replace_ptr bf) (alter (fun bz => Zone (bz_fpos bz) (bz_mpos bz) (bz_size bz + size)) i (bf_zones bf)) bf
  | inr (Some j) => set_zones (bf_replace_ptr bf) (<[j := Zone fpos mpos size]> (bf_zones bf)) bf
  | inr None =>
      let j := Z.land (bf_replace_ptr bf + 1) 7 in
      set_zones j (<[Z.to_nat j := Zone fpos mpos size]> (bf_zones bf)) bf
  end.

Definition resolve_zone (bf : bfile) (fpos size : Z) : option (Z * Z) := resolve_zones (bf_zones bf) fpos (s32 size).
Definition need_to_fill (bf : bfile) (fpos size : Z) : Z := s32 (Z.min size (zone_distance (bf_zones bf) fpos i64_top)).

(** * Operations *)

Definition fab_fsize (bf : bfile) : res (Z * bfile) :=
  if negb (bf_size bf =? -1) then Ok (bf_size bf, bf)
  else '(r, src) ← fap_fsize (bf_src bf); Ok (r, set_size r (set_src src bf)).

Definition fab_seek (bf : bfile) (pos whence : Z) : res (Z * bfile) :=
  r ← (if whence =? SEEK_SET then Ok (Some (pos, bf))
       else if whence =? SEEK_CUR then Ok (Some (bf_fpos bf + pos, bf))
       else if whence =? SEEK_END then '(np, src) ← fap_seek (bf_src bf) pos whence; Ok (Some (np, set_src src bf))
       else Ok None);
  match r with
  | None => Ok (-1, bf)
  | Some (np, bf) =>
      if np <? 0 then Ok (-1, bf) else
      match resolve_zone bf np 1 with
      | Some _ => Ok (np, set_fpos np bf)
      | None =>
          '(q, src) ← fap_seek (bf_src bf) np SEEK_SET;
          if negb (q =? np) then Ok (-1, set_src src bf) else Ok (np, set_fpos np (set_src src bf))
      end
  end.

Definition mem_of (bf : bfile) : res (list Z) := match bf_mem bf with Some mem => Ok mem | None => Fault NullDeref end.

(** A zone of the memory gets bytes of the file from [fpos] on. *)
Definition put_zone (bytes : list Z) (fpos : Z) (bf : bfile) : res bfile :=
  let bf := map_zone (bf_mem_ptr bf) (flen bytes) fpos (erase_zone (bf_mem_ptr bf) (flen bytes) bf) in
  mem ← mem_of bf;
  mem ← store_at mem (bf_mem_ptr bf) bytes;
  Ok (set_mem_ptr (bf_mem_ptr bf + flen bytes) (set_mem mem bf)).

Definition store_in_cache (buf : list Z) (bf : bfile) : res bfile :=
  let size := flen buf in
  if bf_mem_size bf <? size then Ok bf else
  let s1 := if bf_mem_size bf <? bf_mem_ptr bf + size then bf_mem_size bf - bf_mem_ptr bf else size in
  let s2 := size - s1 in
  if s1 <? 0 then Fault OobWrite else
  bf ← put_zone (take (Z.to_nat s1) buf) (bf_fpos bf) bf;
  if bf_mem_size bf <? bf_mem_ptr bf then Fault AssertFailed else
  let bf := if bf_mem_ptr bf =? bf_mem_size bf then set_mem_ptr 0 bf else bf in
  if 0 <? s2 then put_zone (drop (Z.to_nat s1) buf) (bf_fpos bf + s1) bf else Ok bf.

(** The loop of [fab_read]: [out] has been copied to the buffer, which has room
    for [room] bytes; [size] more are wanted.  A step ends the loop with an
    answer, or goes on.

    Large reads go straight to the buffer. *)
Definition fab_direct (room rreq : Z) (out : list Z) (bf : bfile) : res ((list Z * bfile) + (rd * bfile)) :=
  '(q, src) ← fap_seek (bf_src bf) (bf_fpos bf) SEEK_SET;
  let bf := set_src src bf in
  if negb (q =? bf_fpos bf) then Ok (inr (RdErr (-1), bf)) else
  '(r, src) ← fap_read (bf_src bf) (room - flen out) rreq;
  let bf := set_src src bf in
  match r with
  | RdErr e => Ok (inr (RdErr e, set_size (bf_fpos bf) bf))
  | Rd bytes =>
      bf ← (if 0 <? flen bytes then
              bf ← store_in_cache bytes bf; Ok (set_fpos (bf_fpos bf + flen bytes) bf)
            else Ok bf);
      if negb (flen bytes =? rreq) then Ok (inr (Rd (out ++ bytes), set_size (bf_fpos bf) bf))
      else Ok (inl (bytes, bf))
  end.

(** Small ones fill a zone, from which the next round reads. *)
Definition fab_fill (room size : Z) (out : list Z) (bf : bfile) : res (bfile + (rd * bfile)) :=
  let bf := if bf_mem_size bf <? bf_mem_ptr bf + bf_min_request bf then set_mem_ptr 0 bf else bf in
  let bf := erase_zone (bf_mem_ptr bf) (bf_min_request bf) bf in
  '(q, src) ← fap_seek (bf_src bf) (bf_fpos bf) SEEK_SET;
  let bf := set_src src bf in
  if negb (q =? bf_fpos bf) then Ok (inr (RdErr (-1), bf)) else
  mem ← mem_of bf;
  '(r, src) ← fap_read (bf_src bf) (flen mem - bf_mem_ptr bf) (bf_min_request bf);
  let bf := set_src src bf in
  match r with
  | RdErr e => Ok (inr (RdErr e, set_size (bf_fpos bf) bf))
  | Rd bytes =>
      if flen bytes <? 1 then Ok (inr (Rd out, set_size (bf_fpos bf) bf)) else
      mem ← store_at mem (bf_mem_ptr bf) bytes;
      let bf := map_zone (bf_mem_ptr bf) (flen bytes) (bf_fpos bf) (set_mem mem bf) in
      if negb (flen bytes =? bf_min_request bf) then
        let r2 := Z.min size (flen bytes) in
        copied ← copy_out mem (bf_mem_ptr bf) r2 (room - flen out);
        let bf := set_size (bf_fpos bf + flen bytes) bf in
        Ok (inr (Rd (out ++ copied), set_fpos (bf_fpos bf + r2) (set_mem_ptr (bf_mem_ptr bf + flen bytes) bf)))
      else Ok (inl (set_mem_ptr (bf_mem_ptr bf + flen bytes) bf))
  end.

Fixpoint fab_read_loop (fuel : nat) (room size : Z) (out : list Z) (bf : bfile) : res (rd * bfile) :=
  match fuel with
  | O => Fault NoFuel
  | S fuel =>
      if size <=? 0 then Ok (Rd out, bf) else
      let hit := match resolve_zone bf (bf_fpos bf) size with
                 | Some (mpos, cs) => if 0 <? cs then Some (mpos, cs) else None
                 | None => None
                 end in
      match hit with
      | Some (mpos, cs) =>
          mem ← mem_of bf;
          bytes ← copy_out mem mpos cs (room - flen out);
          fab_read_loop fuel room (size - cs) (out ++ bytes) (set_fpos (bf_fpos bf + cs) bf)
      | None =>
          let rreq := need_to_fill bf (bf_fpos bf) size in
          if bf_min_request bf <=? rreq then
            r ← fab_direct room rreq out bf;
            match r with
            | inl (bytes, bf) => fab_read_loop fuel room (size - flen bytes) (out ++ bytes) bf
            | inr answer => Ok answer
            end
          else
            r ← fab_fill room size out bf;
            match r with
            | inl bf => fab_read_loop fuel room size out bf
            | inr answer => Ok answer
            end
      end
  end.

(** Every round but those that fill a zone makes the rest smaller. *)
Definition fab_read (bf : bfile) (room size : Z) : res (rd * bfile) :=
  let fuel := S (2 * Z.to_nat size) in
  match (match bf_mem bf with
         | Some _ => Some bf
         | None => match halloc (bf_mem_size bf) with Some mem => Some (set_mem mem bf) | None => None end
         end) with
  | None => Ok (RdErr (-1), bf)
  | Some bf =>
      let size := if negb (bf_size bf =? -1) && (u64 (bf_size bf) <? u64 (bf_fpos bf + size))
                  then u64 (bf_size bf - bf_fpos bf) else size in
      fab_read_loop fuel room size [] bf
  end.

#[export] Instance buffer_fap : Fap bfile := {| fap_read := fab_read; fap_seek := fab_seek; fap_fsize := fab_fsize |}.

(** The buffered file that [fa_buffered_open] makes. *)
Definition fa_buffered (src : H) (big prefetch : bool) : bfile :=
  Bf src None 1048576 (if prefetch then if big then 262144 else 65536 else 0) 0 0 0 (-1)
    (replicate BF_ZONES (Zone 0 0 0)).

(** ** Parking

    The last buffered file that was closed stays open for the next to open its
    URL.  [bf_url] and [bf_park_time] are only looked at here.  The files that are
    really closed come with the answer. *)
Record parked_file := Parked { bf_url : list Z; bf_park_time : Z; pk_file : bfile }.

(** [no_parking] is the wish of the file below or of the flags. *)
Definition fab_close (no_parking : bool) (now : Z) (url : list Z) (bf : bfile) (parked : option parked_file) : option parked_file * list bfile :=
  if no_parking then (parked, [bf])
  else (Some (Parked url now bf), match parked with Some pk => [pk_file pk] | None => [] end).

(** [fa_open_ex] gives the file below, and whether it may be cached. *)
Definition fa_buffered_open (fa_open_ex : list Z -> option (H * bool)) (url : list Z) (big no_prefetch : bool) (now : Z) (parked : option parked_file)
  : option (H + bfile) * option parked_file * list bfile :=
  let '(parked, closeme) :=
    match parked with
    | Some pk => if 10 <? now - bf_park_time pk then (None, [pk_file pk]) else (Some pk, [])
    | None => (None, [])
    end in
  match parked with
  | Some pk => if bool_decide (bf_url pk = url) then (Some (inr (set_fpos 0 (pk_file pk))), None, closeme)
               else match fa_open_ex url with
                    | None => (None, parked, closeme)
                    | Some (fh, cache) => (Some (if cache then inr (fa_buffered fh big (negb no_prefetch)) else inl fh), parked, closeme)
                    end
  | None => match fa_open_ex url with
            | None => (None, None, closeme)
            | Some (fh, cache) => (Some (if cache then inr (fa_buffered fh big (negb no_prefetch)) else inl fh), None, closeme)
            end
  end.

End buffer.

(** * Zones and memory *)

(** The bytes of a used zone are bytes of the file. *)
Definition zone_ok (mem F : list Z) (bz : buffered_zone) : Prop :=
  bz_size bz = 0 \/
  0 < bz_size bz /\ 0 <= bz_mpos bz /\ bz_mpos bz + bz_size bz <= flen mem /\
  0 <= bz_fpos bz /\ bz_fpos bz + bz_size bz <= flen F /\
  bytes_at mem (bz_mpos bz) (bz_size bz) = bytes_at F (bz_fpos bz) (bz_size bz).

(** A zone has no byte of the memory from [m] to [m + n]. *)
Definition clear_of (m n : Z) (bz : buffered_zone) : Prop :=
  bz_size bz = 0 \/ n <= 0 \/ bz_mpos bz + bz_size bz <= m \/ m + n <= bz_mpos bz.
Definition apart (a b : buffered_zone) : Prop := bz_size a = 0 \/ clear_of (bz_mpos a) (bz_size a) b.

Definition zones_apart (zs : list buffered_zone) : Prop :=
  forall i j a b, i <> j -> zs !! i = Some a -> zs !! j = Some b -> apart a b.

Record zones_ok (mem F : list Z) (zs : list buffered_zone) : Prop := {
  zk_len : length zs = BF_ZONES;
  zk_ok : Forall (zone_ok mem F) zs;
  zk_apart : zones_apart zs
}.

(** What a zone can become: nothing, or a rest of itself. *)
Definition shrunk (a b : buffered_zone) : Prop :=
  bz_size b = 0 \/ exists s, 0 <= s < bz_size a /\ b = Zone (bz_fpos a + s) (bz_mpos a + s) (bz_size a - s).

Lemma bytes_at_eq_sub A B p q s n k : bytes_at A p n = bytes_at B q n -> 0 <= p -> 0 <= q -> 0 <= s -> 0 <= k -> s + k <= n ->
  bytes_at A (p + s) k = bytes_at B (q + s) k.
Proof.
  intros E Hp Hq Hs Hk Hle. rewrite <- (bytes_at_sub A p n s k), <- (bytes_at_sub B q n s k) by lia. by rewrite E.
Qed.

Lemma shrunk_ok mem F a b : zone_ok mem F a -> shrunk a b -> zone_ok mem F b.
Proof.
  intros Ha [Hb|(s & Hs & ->)]; [by left|]. destruct Ha as [Ha|(H1 & H2 & H3 & H4 & H5 & E)]; [lia|].
  right. simpl. repeat split; [lia..|]. apply (bytes_at_eq_sub _ _ _ _ s _ _ E); lia.
Qed.

Lemma shrunk_clear m n a b : shrunk a b -> clear_of m n a -> clear_of m n b.
Proof. unfold clear_of. intros [Hb|(s & Hs & ->)] Ha; [by left|]. simpl. lia. Qed.

Lemma shrunk_apart a b a' b' : shrunk a a' -> shrunk b b' -> apart a b -> apart a' b'.
Proof.
  intros Ha Hb H. unfold apart. destruct Ha as [Ha|(s & Hs & ->)]; [by left|]. right.
  apply (shrunk_clear _ _ b); [done|]. destruct H as [H|H]; [lia|]. unfold clear_of in *. simpl. lia.
Qed.

Lemma shrunk_refl a : 0 <= bz_size a -> shrunk a a.
Proof.
  intros H. destruct (decide (bz_size a = 0)) as [E|E]; [by left|]. right. exists 0. split; [lia|].
  destruct a as [f m n]. simpl. f_equal; lia.
Qed.

Lemma zones_apart_cons a zs : zones_apart (a :: zs) -> Forall (apart a) zs /\ zones_apart zs.
Proof.
  intros H. split.
  - apply Forall_lookup. intros i b Hb. by apply (H 0%nat (S i) a b).
  - intros i j b c Hn Hb Hc. by apply (H (S i) (S j)); [lia|..].
Qed.

(** [erase_zone] only takes zones away. *)
Lemma erase_zones_shrunk zs : Forall (fun z => 0 <= bz_size z) zs -> forall mpos size, 0 <= size ->
  Forall2 shrunk zs (erase_zones zs mpos size).
Proof.
  induction 1 as [|[f m n] zs Hz Hs IH]; intros mpos size Hsz; simpl in *; [constructor|].
  destruct (Z.eqb_spec n 0) as [E|E]; [constructor; [by left|auto]|].
  case_match eqn:E1; [case_match eqn:E2|].
  - constructor; [|apply IH; lia]. destruct (decide (Z.min size n = n)) as [Em|Em]; [left; simpl; lia|].
    right. exists (Z.min size n). simpl. split; [lia|done].
  - constructor; [by left|auto].
  - constructor; [by apply shrunk_refl|auto].
Qed.

(** No zone has a byte of the memory that was erased. *)
Lemma erase_zones_clear zs : Forall (fun z => 0 <= bz_size z) zs -> zones_apart zs -> forall mpos size, 0 <= size ->
  Forall (clear_of mpos size) (erase_zones zs mpos size).
Proof.
  induction 1 as [|[f m n] zs Hz Hs IH]; intros Hap mpos size Hsz; simpl in *; [constructor|].
  apply zones_apart_cons in Hap as [Ha Hap]. specialize (IH Hap).
  destruct (Z.eqb_spec n 0) as [E|E]; [constructor; [by left|auto]|].
  case_match eqn:E1; [case_match eqn:E2|].
  - apply andb_prop in E1 as [E3%Z.ltb_lt E4%Z.ltb_lt]. apply Z.eqb_eq in E2 as ->. constructor.
    + unfold clear_of. simpl. lia.
    + set (s0 := Z.min size n). assert (0 <= size - s0) as Hs0 by lia. specialize (IH (m + s0) (size - s0) Hs0).
      pose proof (erase_zones_shrunk zs Hs (m + s0) (size - s0) Hs0) as Hsh.
      rewrite Forall_lookup in IH |- *. intros i b Hb. specialize (IH i b Hb).
      destruct (Forall2_lookup_r _ _ _ _ _ Hsh Hb) as (a & Hai & Hab).
      rewrite Forall_lookup in Ha. destruct (Ha i a Hai) as [Hc|Hc]; [simpl in Hc; lia|]. simpl in Hc.
      apply (shrunk_clear _ _ _ _ Hab) in Hc. assert (0 <= bz_size b) as Hb0 by (destruct Hab as [?|(s & ? & ->)]; simpl; lia).
      unfold clear_of in *. lia.
  - constructor; [by left|auto].
  - constructor; [|auto]. apply andb_false_iff in E1. unfold clear_of. simpl. rewrite !Z.ltb_ge in E1. lia.
Qed.

Lemma zone_ok_size mem F z : zone_ok mem F z -> 0 <= bz_size z.
Proof. intros [?|[? _]]; lia. Qed.

Lemma erase_zones_ok mem F zs mpos size : zones_ok mem F zs -> 0 <= size ->
  zones_ok mem F (erase_zones zs mpos size) /\ Forall (clear_of mpos size) (erase_zones zs mpos size).
Proof.
  intros [Hl Hok Hap] Hs.
  assert (Forall (fun z => 0 <= bz_size z) zs) as Hn by (eapply Forall_impl; [done|apply zone_ok_size]).
  pose proof (erase_zones_shrunk zs Hn mpos size Hs) as Hsh. split; [split|by apply erase_zones_clear].
  - by rewrite <- (Forall2_length _ _ _ Hsh).
  - rewrite Forall_lookup in Hok |- *. intros i b Hb. destruct (Forall2_lookup_r _ _ _ _ _ Hsh Hb) as (a & Ha & Hab). eauto using shrunk_ok.
  - intros i j a' b' Hij Ha Hb. destruct (Forall2_lookup_r _ _ _ _ _ Hsh Ha) as (a & Hai & Haa).
    destruct (Forall2_lookup_r _ _ _ _ _ Hsh Hb) as (b & Hbi & Hbb). eauto using shrunk_apart.
Qed.

Lemma store_at_spec mem p bytes : 0 <= p -> p + flen bytes <= flen mem ->
  exists mem', store_at mem p bytes = Ok mem' /\ flen mem' = flen mem /\ bytes_at mem' p (flen bytes) = bytes /\
    forall q n, 0 <= q -> 0 <= n -> flen bytes <= 0 \/ q + n <= p \/ p + flen bytes <= q -> bytes_at mem' q n = bytes_at mem q n.
Proof.
  intros Hp Hle. unfold store_at. rewrite (proj2 (Z.leb_le 0 p)), (proj2 (Z.leb_le _ (flen mem))) by lia. simpl.
  unfold flen in *. eexists. split; [done|]. split; [rewrite !length_app, length_take, length_drop; lia|]. split.
  - unfold bytes_at. rewrite drop_app_ge, length_take by (rewrite length_take; lia).
    replace (Z.to_nat p - _)%nat with 0%nat by lia. rewrite drop_0, take_app_le by lia. apply take_ge. lia.
  - intros q n Hq Hn [H|[H|H]]; unfold bytes_at.
    + destruct bytes; [|simpl in H; lia]. simpl. by rewrite Nat.add_0_r, take_drop.
    + rewrite !firstn_skipn_comm. f_equal. rewrite take_app_le by (rewrite length_take; lia). rewrite take_take. f_equal. lia.
    + f_equal. rewrite drop_app_ge by (rewrite length_take; lia). rewrite drop_app_ge by (rewrite length_take; lia).
      rewrite drop_drop, length_take. f_equal. lia.
Qed.

(** A zone put in place of another. *)
Lemma zones_ok_insert mem F zs i z : zones_ok mem F zs -> zone_ok mem F z ->
  (forall j b, j <> i -> zs !! j = Some b -> apart z b /\ apart b z) -> zones_ok mem F (<[i := z]> zs).
Proof.
  intros [Hl Hok Hap] Hz Hd. split; [by rewrite length_insert|by apply Forall_insert|].
  intros j k a b Hjk Ha Hb. apply list_lookup_insert_Some in Ha as [(-> & -> & _)|[Hj Ha]];
    apply list_lookup_insert_Some in Hb as [(-> & -> & _)|[Hk Hb]]; [done|..].
  - apply (Hd k b); [done|done].
  - apply (Hd j a); [done|done].
  - by apply (Hap j k).
Qed.

Lemma map_target_spec zs : forall i free mpos fpos,
  match map_target zs i free mpos fpos with
  | inl k => exists j bz, k = (i + j)%nat /\ zs !! j = Some bz /\ bz_size bz <> 0 /\ bz_fpos bz + bz_size bz = fpos /\ bz_mpos bz + bz_size bz = mpos
  | inr (Some k) => free = Some k \/ exists j bz, k = (i + j)%nat /\ zs !! j = Some bz
  | inr None => True
  end.
Proof.
  induction zs as [|bz zs IH]; intros i free mpos fpos; simpl.
  - destruct free; [by left|done].
  - assert (forall f, match map_target zs (S i) f mpos fpos with
      | inl k => exists j b, k = (i + j)%nat /\ (bz :: zs) !! j = Some b /\ bz_size b <> 0 /\ bz_fpos b + bz_size b = fpos /\ bz_mpos b + bz_size b = mpos
      | inr (Some k) => f = Some k \/ exists j b, k = (i + j)%nat /\ (bz :: zs) !! j = Some b
      | inr None => True end) as IH'.
    { intros f. specialize (IH (S i) f mpos fpos). destruct (map_target zs (S i) f mpos fpos) as [k|[k|]]; [| |done].
      - destruct IH as (j & b & -> & H). exists (S j), b. split; [lia|done].
      - destruct IH as [IH|(j & b & -> & H)]; [by left|]. right. exists (S j), b. split; [lia|done]. }
    destruct (Z.eqb_spec (bz_size bz) 0) as [E|E].
    + specialize (IH' (match free with None => Some i | Some j => Some j end)). destruct (map_target zs _ _ _ _) as [k|[k|]]; [done| |done].
      destruct IH' as [IH'|IH']; [|by right]. destruct free; [by left|]. right. exists 0%nat, bz. simplify_eq. split; [lia|done].
    + destruct ((bz_fpos bz + bz_size bz =? fpos) && (bz_mpos bz + bz_size bz =? mpos)) eqn:E1; [|apply IH'].
      apply andb_prop in E1 as [E2%Z.eqb_eq E3%Z.eqb_eq].
      exists 0%nat, bz. split; [lia|done].
Qed.

Lemma clear_apart m n z b : bz_mpos z = m -> bz_size z = n -> 0 <= n -> clear_of m n b -> apart z b /\ apart b z.
Proof. intros <- <- Hn Hc. unfold apart, clear_of in *. lia. Qed.

(** Where the new bytes of the memory have been written, the zone for them. *)
Definition wrote (mem mem' F : list Z) (mpos n fpos : Z) : Prop :=
  flen mem' = flen mem /\ 0 <= mpos /\ 0 <= n /\ mpos + n <= flen mem /\ 0 <= fpos /\ fpos + n <= flen F /\
  bytes_at mem' mpos n = bytes_at F fpos n /\
  forall q k, 0 <= q -> 0 <= k -> n <= 0 \/ q + k <= mpos \/ mpos + n <= q -> bytes_at mem' q k = bytes_at mem q k.

Lemma wrote_keeps mem mem' F mpos n fpos z : wrote mem mem' F mpos n fpos -> zone_ok mem F z -> clear_of mpos n z -> zone_ok mem' F z.
Proof.
  intros (Hl & Hm & Hn & Hml & Hf & Hfl & E & Hout) [Hz|(H1 & H2 & H3 & H4 & H5 & H6)] Hc; [by left|].
  right. rewrite Hl. repeat split; [lia..|]. rewrite <- H6. apply Hout; unfold clear_of in Hc; lia.
Qed.

Lemma wrote_zones mem mem' F mpos n fpos zs : wrote mem mem' F mpos n fpos -> zones_ok mem F zs -> Forall (clear_of mpos n) zs ->
  zones_ok mem' F zs.
Proof.
  intros Hw [Hl Hok Hap] Hc. split; [done| |done]. rewrite Forall_lookup in Hok, Hc |- *. eauto using wrote_keeps.
Qed.

Lemma wrote_new mem mem' F mpos n fpos : wrote mem mem' F mpos n fpos -> zone_ok mem' F (Zone fpos mpos n).
Proof.
  intros (Hl & Hm & Hn & Hml & Hf & Hfl & E & Hout). destruct (decide (n = 0)); [by left|]. right. simpl.
  rewrite Hl. repeat split; [lia..|done].
Qed.

(** A zone that is extended by bytes that follow it in memory and in the file. *)
Lemma wrote_extend mem mem' F mpos n fpos z : wrote mem mem' F mpos n fpos -> zone_ok mem F z -> bz_size z <> 0 ->
  bz_fpos z + bz_size z = fpos -> bz_mpos z + bz_size z = mpos -> zone_ok mem' F (Zone (bz_fpos z) (bz_mpos z) (bz_size z + n)).
Proof.
  intros (Hl & Hm & Hn & Hml & Hf & Hfl & E & Hout) [?|(H1 & H2 & H3 & H4 & H5 & H6)] Hz <- <-; [done|].
  right. simpl. rewrite Hl. repeat split; [lia..|].
  rewrite <- !bytes_at_app by lia. rewrite <- E, <- H6. f_equal. apply Hout; lia.
Qed.

(** The zones with the one that [map_zone] makes or extends. *)
Definition mapped (r : Z) (zs : list buffered_zone) (mpos n fpos : Z) : list buffered_zone :=
  match map_target zs 0 None mpos fpos with
  | inl i => alter (fun bz => Zone (bz_fpos bz) (bz_mpos bz) (bz_size bz + n)) i zs
  | inr (Some j) => <[j := Zone fpos mpos n]> zs
  | inr None => <[Z.to_nat (Z.land (r + 1) 7) := Zone fpos mpos n]> zs
  end.

Lemma land_7 r : 0 <= Z.land r 7 < 8.
Proof. change 7 with (Z.ones 3). rewrite Z.land_ones by lia. apply Z.mod_pos_bound. lia. Qed.

Lemma mapped_ok mem mem' F r zs mpos n fpos : wrote mem mem' F mpos n fpos -> zones_ok mem F zs -> Forall (clear_of mpos n) zs ->
  zones_ok mem' F (mapped r zs mpos n fpos).
Proof.
  intros Hw Hzs Hc. pose proof (wrote_zones _ _ _ _ _ _ _ Hw Hzs Hc) as Hzs'. unfold mapped.
  assert (0 <= n) as Hn by apply Hw.
  assert (forall j, zones_ok mem' F (<[j := Zone fpos mpos n]> zs)) as Hnew.
  { intros j. apply zones_ok_insert; [done|by apply (wrote_new mem)|]. intros k b _ Hb. apply (clear_apart mpos n); [done..|].
    rewrite Forall_lookup in Hc. eauto. }
  pose proof (map_target_spec zs 0 None mpos fpos) as Ht. destruct (map_target zs 0 None mpos fpos) as [k|[k|]]; [|done..].
  destruct Ht as (j & z & -> & Hz & Hs & Hf & Hm). rewrite (alter_is_insert _ _ _ z) by done.
  assert (zone_ok mem F z) as Hokz by (destruct Hzs as [_ Hok _]; rewrite Forall_lookup in Hok; eauto).
  apply zones_ok_insert; [done|by apply (wrote_extend mem mem' F mpos n fpos)|].
  intros i b Hi Hb. destruct Hzs as [_ Hok Hap].
  assert (apart z b) as H1 by (by apply (Hap j i z b)).
  assert (zone_ok mem F b) as Hokb by (rewrite Forall_lookup in Hok; eauto).
  assert (clear_of mpos n b) as H2 by (rewrite Forall_lookup in Hc; eauto).
  destruct Hokz as [?|[? _]]; [done|]. apply zone_ok_size in Hokb. unfold apart, clear_of in *. simpl. lia.
Qed.

(** The file position of the new zone, if that has a byte, is in a used zone. *)
Definition covers (zs : list buffered_zone) (fpos : Z) : Prop :=
  Exists (fun z => bz_size z <> 0 /\ bz_fpos z <= fpos < bz_fpos z + bz_size z) zs.

Lemma covers_insert zs i z fpos : (i < length zs)%nat -> bz_size z <> 0 -> bz_fpos z <= fpos < bz_fpos z + bz_size z -> covers (<[i := z]> zs) fpos.
Proof.
  intros Hi Hz Hf. apply Exists_exists. exists z. split; [|done]. apply list_elem_of_lookup_2 with i. by apply list_lookup_insert_eq.
Qed.

Lemma mapped_covers mem F r zs mpos n fpos : zones_ok mem F zs -> 0 < n -> covers (mapped r zs mpos n fpos) fpos.
Proof.
  intros [Hl Hok Hap] Hn. unfold mapped. pose proof (map_target_spec zs 0 None mpos fpos) as Ht.
  destruct (map_target zs 0 None mpos fpos) as [k|[k|]].
  - destruct Ht as (j & z & -> & Hz & Hs & Hf & Hm). rewrite (alter_is_insert _ _ _ z) by done.
    assert (0 <= bz_size z) by (rewrite Forall_lookup in Hok; eauto using zone_ok_size).
    apply covers_insert; [by apply lookup_lt_Some in Hz|simpl; lia..].
  - destruct Ht as [?|(j & z & -> & Hz)]; [done|]. apply covers_insert; [by apply lookup_lt_Some in Hz|simpl; lia..].
  - apply covers_insert; [rewrite Hl; pose proof (land_7 (r + 1)); unfold BF_ZONES; lia|simpl; lia..].
Qed.

(** * Looking up *)

Lemma resolve_zones_Some mem F zs p size m cs : flen mem <= int_max -> Forall (zone_ok mem F) zs -> 0 < size ->
  resolve_zones zs p size = Some (m, cs) ->
  0 < cs <= size /\ 0 <= m /\ m + cs <= flen mem /\ p + cs <= flen F /\ bytes_at mem m cs = bytes_at F p cs.
Proof.
  intros Hm Hok Hs. induction Hok as [|z zs Hz Hok IH]; simpl; [done|].
  destruct (Z.eqb_spec (bz_size z) 0) as [E|E]; [done|].
  destruct ((bz_fpos z <=? p) && (p <? bz_fpos z + bz_size z)) eqn:E1; [|done]. intros [= <- <-].
  apply andb_prop in E1 as [E2%Z.leb_le E3%Z.ltb_lt]. destruct Hz as [?|(H1 & H2 & H3 & H4 & H5 & H6)]; [done|].
  rewrite s32_small by lia. set (d := p - bz_fpos z).
  repeat split; [lia..|]. replace p with (bz_fpos z + d) by lia. apply (bytes_at_eq_sub _ _ _ _ d _ _ H6); lia.
Qed.

Lemma resolve_zones_covers zs p size : covers zs p -> is_Some (resolve_zones zs p size).
Proof.
  unfold covers. induction 1 as [z zs [Hz Hf]|z zs Hzs IH]; simpl.
  - rewrite (proj2 (Z.eqb_neq _ 0) Hz), (proj2 (Z.leb_le (bz_fpos z) p)), (proj2 (Z.ltb_lt p (bz_fpos z + bz_size z))) by lia. done.
  - destruct (bz_size z =? 0); [done|]. by destruct (_ && _).
Qed.

(** A position that is not in a zone is before the next one. *)
Lemma zone_distance_pos mem F zs p size d : Forall (zone_ok mem F) zs -> resolve_zones zs p size = None -> 0 < d -> 0 < zone_distance zs p d.
Proof.
  intros Hok. revert d. induction Hok as [|z zs Hz Hok IH]; simpl; intros d Hr Hd; [done|].
  destruct (Z.eqb_spec (bz_size z) 0) as [E|E]; [auto|].
  destruct ((bz_fpos z <=? p) && (p <? bz_fpos z + bz_size z)) eqn:E1; [done|]. apply IH; [done|].
  apply zone_ok_size in Hz. rewrite andb_false_iff, Z.leb_gt, Z.ltb_ge in E1.
  destruct (Z.leb_spec p (bz_fpos z)); lia.
Qed.

(** * The buffered file keeps the promise of its layer *)

Section buffer_ok.
Context {H : Type} {fap : Fap H} {limit : Z} {At : H -> list Z -> Z -> Prop} {Hok : FileOk fap limit At}.
#[local] Notation bfile := (buffered_file H).

Record buf_ok (bf : bfile) (F : list Z) (p : Z) : Prop := {
  bo_src : exists q, At (bf_src bf) F q;
  bo_size : bf_size bf = flen F \/ bf_size bf = -1;
  bo_pos : bf_fpos bf = p;
  bo_in : 0 <= p <= flen F;
  bo_len : flen F < 4611686018427387904;
  bo_ptr : 0 <= bf_mem_ptr bf <= bf_mem_size bf;
  bo_mem : bf_mem_size bf <= int_max;
  bo_req : 0 <= bf_min_request bf <= bf_mem_size bf;
  bo_limit : bf_min_request bf <= limit
}.
Definition ring_ok (bf : bfile) (F : list Z) : Prop :=
  match bf_mem bf with
  | Some mem => flen mem = bf_mem_size bf /\ zones_ok mem F (bf_zones bf)
  | None => forall mem, zones_ok mem F (bf_zones bf)
  end.
Definition at_buf (bf : bfile) (F : list Z) (p : Z) : Prop := buf_ok bf F p /\ ring_ok bf F.

(** What work on the ring leaves alone. *)
Definition same (bf bf' : bfile) : Prop :=
  bf_src bf' = bf_src bf /\ bf_mem_size bf' = bf_mem_size bf /\ bf_min_request bf' = bf_min_request bf /\
  bf_size bf' = bf_size bf /\ bf_fpos bf' = bf_fpos bf.

Lemma same_ok bf bf' F p : same bf bf' -> 0 <= bf_mem_ptr bf' <= bf_mem_size bf -> buf_ok bf F p -> buf_ok bf' F p.
Proof. intros (E1 & E2 & E3 & E4 & E5) Hp [? ? ? ? ? ? ? ? ?]. split; rewrite ?E1, ?E2, ?E3, ?E4, ?E5; done. Qed.

Lemma same_trans a b c : same a b -> same b c -> same a c.
Proof. unfold same. intros (-> & -> & -> & -> & ->) (-> & -> & -> & -> & ->). done. Qed.

Lemma map_zone_eq mpos n fpos (bf : bfile) : exists r, map_zone mpos n fpos bf = set_zones r (mapped (bf_replace_ptr bf) (bf_zones bf) mpos n fpos) bf.
Proof. unfold map_zone, mapped. case_match; [by eexists|]. case_match; by eexists. Qed.

(** The ring with a zone erased. *)
Lemma erase_zone_ring (bf : bfile) F mem mpos n : bf_mem bf = Some mem -> ring_ok bf F -> 0 <= n ->
  zones_ok mem F (bf_zones (erase_zone mpos n bf)) /\ Forall (clear_of mpos n) (bf_zones (erase_zone mpos n bf)) /\ flen mem = bf_mem_size bf.
Proof.
  unfold ring_ok. intros -> [Hl Hz] Hn. destruct (erase_zones_ok mem F (bf_zones bf) mpos n Hz Hn). done.
Qed.

(** Bytes of the file written to a place of the ring that is clear, with their
    zone. *)
Lemma write_zone (bf : bfile) F mem bytes fpos : bf_mem bf = Some mem -> flen mem = bf_mem_size bf -> zones_ok mem F (bf_zones bf) ->
  Forall (clear_of (bf_mem_ptr bf) (flen bytes)) (bf_zones bf) ->
  0 <= bf_mem_ptr bf -> bf_mem_ptr bf + flen bytes <= bf_mem_size bf -> 0 <= fpos -> fpos + flen bytes <= flen F ->
  bytes = bytes_at F fpos (flen bytes) ->
  exists mem', store_at mem (bf_mem_ptr bf) bytes = Ok mem' /\ bytes_at mem' (bf_mem_ptr bf) (flen bytes) = bytes /\
    flen mem' = flen mem /\ zones_ok mem' F (bf_zones (map_zone (bf_mem_ptr bf) (flen bytes) fpos bf)) /\
    (0 < flen bytes -> covers (bf_zones (map_zone (bf_mem_ptr bf) (flen bytes) fpos bf)) fpos).
Proof.
  intros Hm Hl Hz Hc Hp Hpl Hf Hfl E. destruct (store_at_spec mem (bf_mem_ptr bf) bytes) as (mem' & Es & Hl' & Eb & Hout); [lia..|].
  exists mem'. destruct (map_zone_eq (bf_mem_ptr bf) (flen bytes) fpos bf) as (r & ->). simpl. pose proof (flen_nonneg bytes).
  split_and!; [done..| |by apply (mapped_covers mem F)].
  apply (mapped_ok mem); [|done..]. split_and!; [done|lia..| |done]. by rewrite Eb.
Qed.

Lemma put_zone_ok bf F p bytes fpos : at_buf bf F p -> is_Some (bf_mem bf) -> bf_mem_ptr bf + flen bytes <= bf_mem_size bf ->
  0 <= fpos -> fpos + flen bytes <= flen F -> bytes = bytes_at F fpos (flen bytes) ->
  exists bf', put_zone bytes fpos bf = Ok bf' /\ at_buf bf' F p /\ is_Some (bf_mem bf') /\ same bf bf' /\
    bf_mem_ptr bf' = bf_mem_ptr bf + flen bytes.
Proof.
  intros [Hb Hr] [mem Hm] Hle Hf Hfl E. pose proof (flen_nonneg bytes) as Hn. pose proof (bo_ptr _ _ _ Hb) as Hptr.
  destruct (erase_zone_ring bf F mem (bf_mem_ptr bf) (flen bytes) Hm Hr Hn) as (Hz & Hc & Hl).
  destruct (write_zone (erase_zone (bf_mem_ptr bf) (flen bytes) bf) F mem bytes fpos) as (mem' & Es & _ & Hl' & Hz' & _); [done|done|done|done|simpl; lia..|done|].
  unfold put_zone. destruct (map_zone_eq (bf_mem_ptr bf) (flen bytes) fpos (erase_zone (bf_mem_ptr bf) (flen bytes) bf)) as (r & Er).
  simpl in Hz', Es. rewrite Er in Hz' |- *. unfold mem_of. simpl. rewrite Hm, ok_bind, Es, ok_bind. eexists. split; [done|].
  split_and!; [|done|done|done]. split; [|split; [simpl; lia|done]]. apply (same_ok bf); [done|simpl; lia|done].
Qed.

Lemma store_in_cache_ok bf F p buf : at_buf bf F p -> is_Some (bf_mem bf) -> p + flen buf <= flen F -> buf = bytes_at F p (flen buf) ->
  exists bf', store_in_cache buf bf = Ok bf' /\ at_buf bf' F p /\ is_Some (bf_mem bf') /\ same bf bf'.
Proof.
  intros Hb Hm Hle E. unfold store_in_cache. destruct (Z.ltb_spec (bf_mem_size bf) (flen buf)) as [Hbig|Hbig]; [by exists bf|].
  pose proof (bo_ptr _ _ _ (proj1 Hb)) as Hp. pose proof (bo_pos _ _ _ (proj1 Hb)) as Ep. pose proof (bo_in _ _ _ (proj1 Hb)) as Hin.
  set (s1 := if bf_mem_size bf <? bf_mem_ptr bf + flen buf then bf_mem_size bf - bf_mem_ptr bf else flen buf).
  assert (0 <= s1 <= flen buf /\ bf_mem_ptr bf + s1 <= bf_mem_size bf /\ (s1 < flen buf -> bf_mem_ptr bf + s1 = bf_mem_size bf)) as (Hs1 & Hs2 & Hs3).
  { unfold s1. pose proof (flen_nonneg buf). destruct (Z.ltb_spec (bf_mem_size bf) (bf_mem_ptr bf + flen buf)); lia. }
  rewrite (proj2 (Z.ltb_ge s1 0)) by lia.
  assert (take (Z.to_nat s1) buf = bytes_at F p s1) as E1.
  { rewrite E. unfold bytes_at. rewrite take_take. f_equal. lia. }
  assert (flen (take (Z.to_nat s1) buf) = s1) as L1 by (rewrite E1; apply flen_bytes_in; lia).
  assert (drop (Z.to_nat s1) buf = bytes_at F (p + s1) (flen buf - s1)) as E2.
  { rewrite E at 1. unfold bytes_at. rewrite skipn_firstn_comm, drop_drop. f_equal; [lia|f_equal; lia]. }
  assert (flen (drop (Z.to_nat s1) buf) = flen buf - s1) as L2 by (rewrite E2; apply flen_bytes_in; lia).
  destruct (put_zone_ok bf F p (take (Z.to_nat s1) buf) (bf_fpos bf)) as (bf1 & -> & Hb1 & Hm1 & Hs & Hp1); [done|done|rewrite ?L1; rewrite ?Ep; lia..|rewrite L1, Ep; done|].
  rewrite ok_bind. rewrite L1 in Hp1. pose proof (proj1 (proj2 Hs)) as Ems. rewrite (proj2 (Z.ltb_ge (bf_mem_size bf1) _)) by lia.
  set (bf2 := if bf_mem_ptr bf1 =? bf_mem_size bf1 then set_mem_ptr 0 bf1 else bf1).
  assert (at_buf bf2 F p /\ is_Some (bf_mem bf2) /\ same bf bf2) as (Hb2 & Hm2 & Hs'').
  { unfold bf2. case_match; [|done]. split_and!; [|done|done]. split; [|apply Hb1]. apply (same_ok bf1); [done|simpl; lia|apply Hb1]. }
  destruct (Z.ltb_spec 0 (flen buf - s1)) as [H2|H2]; [|by eexists].
  assert (bf_mem_ptr bf2 = 0) as Hp2 by (unfold bf2; rewrite (proj2 (Z.eqb_eq (bf_mem_ptr bf1) _)) by lia; done).
  pose proof Hs'' as (_ & Hms & _ & _ & Hf2).
  destruct (put_zone_ok bf2 F p (drop (Z.to_nat s1) buf) (bf_fpos bf2 + s1)) as (bf3 & Ebf & Hb3 & Hm3 & Hs3' & _);
    [done|done|rewrite ?L2, ?Hf2, ?Ep; lia..|rewrite L2, Hf2, Ep; done|].
  rewrite Ebf. eexists. split; [done|]. split_and!; [done..|by apply (same_trans _ bf2)].
Qed.

Lemma set_src_ok bf F p src q : At src F q -> at_buf bf F p -> at_buf (set_src src bf) F p.
Proof. intros Hs [[? ? ? ? ? ? ? ? ?] Hr]. split; [split; try done; by exists q|done]. Qed.

Lemma set_fpos_ok bf F p t : at_buf bf F p -> 0 <= t <= flen F -> at_buf (set_fpos t bf) F t.
Proof. intros [[? ? ? ? ? ? ? ? ?] Hr] Ht. by split. Qed.

Lemma set_size_ok bf F p n : at_buf bf F p -> n = flen F \/ n = -1 -> at_buf (set_size n bf) F p.
Proof. intros [[? ? ? ? ? ? ? ? ?] Hr] Ht. by split. Qed.

Lemma set_mem_ptr_ok bf F p m : at_buf bf F p -> 0 <= m <= bf_mem_size bf -> at_buf (set_mem_ptr m bf) F p.
Proof. intros [[? ? ? ? ? ? ? ? ?] Hr] Ht. by split. Qed.

Lemma seek_src bf F p t : at_buf bf F p -> 0 <= t <= flen F ->
  exists src, fap_seek (bf_src bf) t SEEK_SET = Ok (t, src) /\ At src F t.
Proof using Hok. intros [[[q Hq] ? ? ? ? ? ? ? ?] Hr] Ht. by apply (at_seek (bf_src bf) F q t SEEK_SET). Qed.

Lemma resolve_ok bf F p mem size m cs : at_buf bf F p -> bf_mem bf = Some mem -> 0 < size <= int_max -> resolve_zone bf p size = Some (m, cs) ->
  0 < cs <= size /\ p + cs <= flen F /\ forall room, cs <= room -> copy_out mem m cs room = Ok (bytes_at F p cs).
Proof.
  intros [Hb Hr] Hm Hs E. unfold ring_ok in Hr. rewrite Hm in Hr. destruct Hr as [Hl [_ Hz _]].
  pose proof (bo_mem _ _ _ Hb). unfold resolve_zone in E. rewrite s32_small in E by lia.
  destruct (resolve_zones_Some mem F (bf_zones bf) p size m cs) as (H1 & H2 & H3 & H4 & H5); [lia|done|lia|done|].
  split_and!; [lia..|]. intros room Hroom. rewrite copy_out_Ok by lia. by rewrite H5.
Qed.

Lemma need_to_fill_ok bf F p mem size : at_buf bf F p -> bf_mem bf = Some mem -> 0 < size <= int_max -> resolve_zone bf p size = None ->
  0 < need_to_fill bf p size <= size.
Proof.
  intros [Hb Hr] Hm Hs E. unfold ring_ok in Hr. rewrite Hm in Hr. destruct Hr as [Hl [_ Hz _]].
  pose proof (zone_distance_pos mem F (bf_zones bf) p (s32 size) i64_top Hz E). unfold need_to_fill.
  rewrite s32_small; unfold i64_top in *; lia.
Qed.

(** The answers of the loop. *)
Definition reads (r : res (rd * bfile)) (out F : list Z) (p size : Z) : Prop :=
  exists bf', r = Ok (Rd (out ++ bytes_at F p size), bf') /\ at_buf bf' F (p + flen (bytes_at F p size)).

Lemma reads_more r out F p n size : 0 <= p -> 0 <= n <= size -> p + n <= flen F ->
  reads r (out ++ bytes_at F p n) F (p + n) (size - n) -> reads r out F p size.
Proof.
  intros Hp Hn Hle (bf' & -> & Hb). exists bf'. rewrite <- app_assoc, bytes_at_app in * by lia.
  replace (n + (size - n)) with size by lia. split; [done|].
  rewrite flen_bytes_at in Hb |- * by lia. replace (p + Z.max 0 (Z.min size (flen F - p))) with (p + n + Z.max 0 (Z.min (size - n) (flen F - (p + n)))) by lia. done.
Qed.

Lemma reads_end bf out F p n size : 0 <= p -> 0 <= n <= size -> flen (bytes_at F p n) <> n ->
  at_buf bf F (p + flen (bytes_at F p n)) -> reads (Ok (Rd (out ++ bytes_at F p n), bf)) out F p size.
Proof.
  intros Hp Hn Hne Hb. exists bf. rewrite flen_bytes_at in Hne by lia.
  replace (bytes_at F p n) with (bytes_at F p size) in *; [done|].
  destruct (decide (flen F <= p)) as [Hf|Hf].
  - unfold bytes_at, flen in *. rewrite !drop_ge by lia. by rewrite !take_nil.
  - rewrite !bytes_at_all by lia. done.
Qed.

(** A zone is filled from the file. *)
Lemma fill_ok bf F p mem bytes src q : at_buf bf F p -> bf_mem bf = Some mem -> bf_mem_ptr bf + bf_min_request bf <= bf_mem_size bf ->
  At src F q -> bytes = bytes_at F p (bf_min_request bf) -> 0 < flen bytes ->
  let bf1 := set_src src (erase_zone (bf_mem_ptr bf) (bf_min_request bf) bf) in
  exists mem', store_at mem (bf_mem_ptr bf) bytes = Ok mem' /\ bytes_at mem' (bf_mem_ptr bf) (flen bytes) = bytes /\ flen mem' = flen mem /\
    let bf2 := map_zone (bf_mem_ptr bf) (flen bytes) p (set_mem mem' bf1) in
    at_buf bf2 F p /\ bf_mem bf2 = Some mem' /\ covers (bf_zones bf2) p /\ bf_mem_ptr bf2 = bf_mem_ptr bf /\
      bf_min_request bf2 = bf_min_request bf /\ bf_mem_size bf2 = bf_mem_size bf.
Proof.
  intros [Hb Hr] Hm Hle Hsrc Eb Hpos bf1. pose proof (bo_ptr _ _ _ Hb) as Hptr. pose proof (bo_in _ _ _ Hb) as Hin. pose proof (bo_req _ _ _ Hb) as Hreq.
  assert (flen bytes <= bf_min_request bf /\ p + flen bytes <= flen F) as [Hlb Hlf].
  { rewrite Eb, flen_bytes_at in Hpos |- * by lia. lia. }
  destruct (erase_zone_ring bf F mem (bf_mem_ptr bf) (bf_min_request bf) Hm Hr) as (Hz & Hc & Hl); [lia|].
  assert (bytes = bytes_at F p (flen bytes)) as Eb'.
  { rewrite Eb at 1. rewrite <- (bytes_at_min _ _ _ (flen bytes)); [f_equal; lia|lia|]. rewrite Eb, flen_bytes_at in * by lia. lia. }
  destruct (write_zone bf1 F mem bytes p) as (mem' & Es & Ec & Hl' & Hz' & Hh); [done|done|done| |simpl; lia..|done|].
  { unfold bf1. simpl in *. eapply Forall_impl; [exact Hc|]. intros z. unfold clear_of. lia. }
  exists mem'. split; [done|]. split; [done|]. split; [done|].
  destruct (map_zone_eq (bf_mem_ptr bf) (flen bytes) p (set_mem mem' bf1)) as (r & ->).
  destruct (map_zone_eq (bf_mem_ptr bf) (flen bytes) p bf1) as (r' & Er). simpl in Hz', Hh. rewrite Er in Hz', Hh.
  split; [|split; [done|split; [by apply Hh|done]]]. split; [|split; [simpl; lia|done]].
  destruct Hb. split; try done. by exists q.
Qed.

Definition enough (fuel : nat) (size : Z) (bf : bfile) (p : Z) : Prop :=
  2 * size + 1 <= Z.of_nat fuel \/ 0 < size /\ 2 * size <= Z.of_nat fuel /\ covers (bf_zones bf) p.

Lemma enough_more fuel bf bf' p p' size n : enough (S fuel) size bf p -> 0 < n <= size -> enough fuel (size - n) bf' p'.
Proof. intros [E|(E1 & E2 & _)] Hn; left; lia. Qed.

(** Straight to the buffer: all that was asked for, or the end of the file. *)
Lemma fab_direct_ok room rreq out bf F p : at_buf bf F p -> is_Some (bf_mem bf) -> 0 < rreq <= int_max -> rreq <= limit -> flen out + rreq <= room ->
  let bytes := bytes_at F p rreq in
  exists bf', at_buf bf' F (p + flen bytes) /\ is_Some (bf_mem bf') /\
    fab_direct room rreq out bf = Ok (if negb (flen bytes =? rreq) then inr (Rd (out ++ bytes), bf') else inl (bytes, bf')).
Proof using Hok.
  intros Hb [mem Hm] Hr Hl Hroom bytes. pose proof (bo_in _ _ _ (proj1 Hb)) as Hin. pose proof (bo_pos _ _ _ (proj1 Hb)) as Ep.
  unfold fab_direct. rewrite Ep. destruct (seek_src bf F p p Hb Hin) as (src1 & -> & A1). rewrite ok_bind. simpl. rewrite ?Ep, Z.eqb_refl. cbn [negb].
  destruct (at_read src1 F p (room - flen out) rreq A1) as (src2 & -> & A2); [lia..|]. rewrite ok_bind. fold bytes.
  assert (flen bytes = Z.max 0 (Z.min rreq (flen F - p))) as Hlen by (unfold bytes; apply flen_bytes_at; lia).
  assert (at_buf (set_src src2 (set_src src1 bf)) F p) as Hb' by (by apply (set_src_ok (set_src src1 bf) F p src2 _ A2), (set_src_ok bf F p src1 p A1)).
  assert (exists bf1, (if 0 <? flen bytes then bf ← store_in_cache bytes (set_src src2 (set_src src1 bf)); Ok (set_fpos (bf_fpos bf + flen bytes) bf)
                       else Ok (set_src src2 (set_src src1 bf))) = Ok bf1 /\ at_buf bf1 F (p + flen bytes) /\ is_Some (bf_mem bf1)) as (bf1 & -> & Hb1 & Hm1).
  { destruct (Z.ltb_spec 0 (flen bytes)) as [Hg|Hg].
    - destruct (store_in_cache_ok (set_src src2 (set_src src1 bf)) F p bytes) as (bf1 & -> & Hb1 & Hm1 & Hs1); [done|by eexists|lia| |].
      { unfold bytes at 1. rewrite <- (bytes_at_min _ _ _ (flen bytes)) by lia. f_equal. lia. }
      rewrite ok_bind. eexists. split; [done|]. rewrite (bo_pos _ _ _ (proj1 Hb1)).
      split; [by apply (set_fpos_ok bf1 F p); [|lia]|by destruct Hm1; eexists].
    - eexists. split; [done|]. replace (flen bytes) with 0 by lia. rewrite Z.add_0_r. split; [done|by eexists]. }
  rewrite ok_bind. destruct (Z.eqb_spec (flen bytes) rreq) as [Eq|Eq]; cbn [negb]; [by exists bf1|].
  eexists. split; [|split; [|done]]; [|done]. rewrite (bo_pos _ _ _ (proj1 Hb1)). apply set_size_ok; [done|left; lia].
Qed.

(** Filling a zone: a zone that covers the position, or the end of the file. *)
Lemma fab_fill_reads room size out bf F p : at_buf bf F p -> is_Some (bf_mem bf) -> 0 < size -> 0 < bf_min_request bf -> flen out + size <= room ->
  exists r, fab_fill room size out bf = Ok r /\
    match r with
    | inl bf' => at_buf bf' F p /\ is_Some (bf_mem bf') /\ covers (bf_zones bf') p
    | inr answer => reads (Ok answer) out F p size
    end.
Proof using Hok.
  intros Hb0 Hm0 Hs Hmin Hroom. unfold fab_fill. set (bf0 := if bf_mem_size bf <? bf_mem_ptr bf + bf_min_request bf then set_mem_ptr 0 bf else bf).
  assert (at_buf bf0 F p /\ bf_mem_ptr bf0 + bf_min_request bf0 <= bf_mem_size bf0 /\ bf_min_request bf0 = bf_min_request bf /\ bf_mem bf0 = bf_mem bf) as (Hb & Hfit & Emin & Em).
  { unfold bf0. pose proof (bo_req _ _ _ (proj1 Hb0)). pose proof (bo_ptr _ _ _ (proj1 Hb0)).
    destruct (Z.ltb_spec (bf_mem_size bf) (bf_mem_ptr bf + bf_min_request bf)); [|done].
    split; [by apply set_mem_ptr_ok; [|lia]|]. simpl. split; [lia|done]. }
  clearbody bf0. rewrite <- Em in Hm0. rewrite <- Emin in Hmin. clear Hb0 Em Emin bf. destruct Hm0 as [mem Hm].
  pose proof (bo_in _ _ _ (proj1 Hb)) as Hin. pose proof (bo_pos _ _ _ (proj1 Hb)) as Ep. pose proof (bo_req _ _ _ (proj1 Hb)) as Hreq.
  pose proof (bo_ptr _ _ _ (proj1 Hb)) as Hptr. pose proof (bo_limit _ _ _ (proj1 Hb)) as Hlim.
  assert (flen mem = bf_mem_size bf0) as Hl by (destruct Hb as [_ Hr]; unfold ring_ok in Hr; rewrite Hm in Hr; apply Hr).
  cbn [bf_src bf_fpos erase_zone set_zones]. rewrite Ep. destruct (seek_src bf0 F p p Hb Hin) as (src1 & -> & A1).
  rewrite ok_bind. cbn [bf_fpos set_src erase_zone set_zones]. rewrite Ep, Z.eqb_refl. cbn [negb].
  unfold mem_of. cbn [bf_mem bf_src bf_mem_ptr bf_min_request set_src erase_zone set_zones]. rewrite Hm, ok_bind.
  destruct (at_read src1 F p (flen mem - bf_mem_ptr bf0) (bf_min_request bf0) A1) as (src2 & -> & A2); [lia..|]. rewrite ok_bind.
  set (bytes := bytes_at F p (bf_min_request bf0)) in *.
  assert (flen bytes = Z.max 0 (Z.min (bf_min_request bf0) (flen F - p))) as Hlen by (unfold bytes; apply flen_bytes_at; lia).
  destruct (Z.ltb_spec (flen bytes) 1) as [H1|H1].
  { eexists. split; [done|]. exists (set_size p (set_src src2 (erase_zone (bf_mem_ptr bf0) (bf_min_request bf0) bf0))).
    assert (p = flen F) as -> by lia. replace (bytes_at F (flen F) size) with (@nil Z).
    - rewrite app_nil_r. split; [done|]. simpl. rewrite Z.add_0_r. apply set_size_ok; [|by left]. eapply set_src_ok; [done|].
      destruct (erase_zone_ring bf0 F mem (bf_mem_ptr bf0) (bf_min_request bf0) Hm) as (Hz & _ & _); [apply Hb|lia|].
      split; [by apply (same_ok bf0); [| |apply Hb]|]. unfold ring_ok. simpl in Hz |- *. by rewrite Hm.
    - unfold bytes_at, flen. by rewrite drop_ge, take_nil by lia. }
  destruct (fill_ok bf0 F p mem bytes src2 _ Hb Hm Hfit A2) as (mem' & -> & Ec & Hl' & Hb2 & Hm2 & Hh & Ep2 & Emin2 & Ems2); [done|lia|].
  rewrite ok_bind. cbn [bf_fpos bf_mem_ptr set_src erase_zone set_zones]. rewrite ?Ep.
  change (set_src src2 (set_src src1 (erase_zone (bf_mem_ptr bf0) (bf_min_request bf0) bf0))) with (set_src src2 (erase_zone (bf_mem_ptr bf0) (bf_min_request bf0) bf0)).
  set (bf2 := map_zone (bf_mem_ptr bf0) (flen bytes) p _) in *. clearbody bf2.
  rewrite Emin2. destruct (Z.eqb_spec (flen bytes) (bf_min_request bf0)) as [Eq|Eq]; cbn [negb].
  - eexists. split; [done|]. split; [|split; [by eexists|done]]. apply set_mem_ptr_ok; [done|]. lia.
  - rewrite copy_out_Ok by lia. rewrite ok_bind. eexists. split; [done|].
    assert (bytes_at mem' (bf_mem_ptr bf2) (Z.min size (flen bytes)) = bytes_at F p size) as ->.
    { rewrite Ep2. replace (bf_mem_ptr bf0) with (bf_mem_ptr bf0 + 0) by lia.
      rewrite <- (bytes_at_sub mem' (bf_mem_ptr bf0) (flen bytes)), Ec by lia. unfold bytes at 1. rewrite bytes_at_sub by lia.
      rewrite Z.add_0_r. apply bytes_at_min; lia. }
    eexists. split; [done|]. cbn [bf_fpos set_size].
    replace (bf_fpos bf2 + Z.min size (flen bytes)) with (p + flen (bytes_at F p size))
      by (rewrite (bo_pos _ _ _ (proj1 Hb2)), flen_bytes_at by lia; lia).
    apply set_fpos_ok with (p := p); [|rewrite flen_bytes_at; lia]. apply set_mem_ptr_ok; [|simpl; lia]. apply set_size_ok; [done|].
    rewrite (bo_pos _ _ _ (proj1 Hb2)). left. lia.
Qed.
Lemma fab_read_loop_ok room fuel : forall size out bf F p, at_buf bf F p -> is_Some (bf_mem bf) -> 0 <= size <= int_max -> size <= limit ->
  flen out + size <= room -> enough fuel size bf p -> reads (fab_read_loop fuel room size out bf) out F p size.
Proof using Hok.
  induction fuel as [|fuel IH]; intros size out bf F p Hb [mem Hm] Hs Hlim Hroom Hf.
  { unfold enough in Hf. lia. }
  pose proof (bo_in _ _ _ (proj1 Hb)) as Hin. pose proof (bo_pos _ _ _ (proj1 Hb)) as Ep. simpl.
  destruct (Z.leb_spec size 0) as [H0|H0].
  { assert (size = 0) as -> by lia. exists bf. rewrite bytes_at_0, app_nil_r. change (flen []) with 0. by rewrite Z.add_0_r. }
  rewrite Ep. destruct (resolve_zone bf p size) as [[m cs]|] eqn:Er.
  - destruct (resolve_ok bf F p mem size m cs Hb Hm) as (Hcs & Hle & Hcp); [lia|done|].
    rewrite (proj2 (Z.ltb_lt 0 cs)) by lia. unfold mem_of. rewrite Hm, ok_bind, Hcp, ok_bind by lia.
    apply (reads_more _ _ _ _ cs); [lia..|].
    apply IH; [by apply (set_fpos_ok bf F p); [|lia]|by eexists|lia|lia| |by eapply enough_more].
    rewrite flen_app, flen_bytes_in by lia. lia.
  - destruct (need_to_fill_ok bf F p mem size Hb Hm) as [Hn1 Hn2]; [lia|done|]. set (rreq := need_to_fill bf p size) in *.
    destruct (Z.leb_spec (bf_min_request bf) rreq) as [Hreq|Hreq].
    + destruct (fab_direct_ok room rreq out bf F p Hb) as (bf1 & Hb1 & Hm1 & ->); [by eexists|lia..|]. rewrite ok_bind.
      destruct (Z.eqb_spec (flen (bytes_at F p rreq)) rreq) as [Eq|Eq]; cbn [negb].
      * assert (p + rreq <= flen F) by (rewrite flen_bytes_at in Eq by lia; lia).
        apply (reads_more _ _ _ _ rreq); [lia..|]. rewrite Eq in Hb1 |- *.
        apply IH; [done|done|lia|lia|rewrite flen_app; lia|by eapply enough_more].
      * by apply (reads_end _ _ _ _ rreq); [lia..| |].
    + destruct (fab_fill_reads room size out bf F p Hb) as ([bf1|answer] & -> & Hr); [by eexists|lia..| |done].
      destruct Hr as (Hb1 & Hm1 & Hh). rewrite ok_bind. apply IH; [done..|].
      right. destruct Hf as [Hf|(_ & _ & Hf)]; [split_and!; [lia..|done]|].
      destruct (resolve_zones_covers (bf_zones bf) p (s32 size) Hf) as [x Hx]. unfold resolve_zone in Er. by rewrite Hx in Er.
Qed.

(** The memory that [fab_read] gets when there is none yet. *)
Lemma first_mem_ok halloc bf F p : at_buf bf F p -> bf_mem bf = None ->
  (forall n, 0 <= n <= int_max -> exists mem, halloc n = Some mem /\ flen mem = n) ->
  exists mem, halloc (bf_mem_size bf) = Some mem /\ at_buf (set_mem mem bf) F p.
Proof.
  intros [Hb Hr] Hm Hal. destruct (Hal (bf_mem_size bf)) as (mem & E & Hl); [pose proof (bo_ptr _ _ _ Hb); pose proof (bo_mem _ _ _ Hb); lia|].
  exists mem. split; [done|]. unfold ring_ok in Hr. rewrite Hm in Hr. split; [by destruct Hb|]. by split.
Qed.

Lemma fab_read_reads halloc bf F p room size : at_buf bf F p ->
  (forall n, 0 <= n <= int_max -> exists mem, halloc n = Some mem /\ flen mem = n) ->
  0 <= size <= room -> size <= Z.min limit int_max -> reads (fab_read halloc bf room size) [] F p size.
Proof using Hok.
  intros Hb Hal Hs Hl. unfold fab_read.
  assert (exists bf1, (match bf_mem bf with Some _ => Some bf
     | None => match halloc (bf_mem_size bf) with Some mem => Some (set_mem mem bf) | None => None end end) = Some bf1 /\
     at_buf bf1 F p /\ is_Some (bf_mem bf1)) as (bf1 & -> & Hb1 & Hm1).
  { destruct (bf_mem bf) as [mem|] eqn:Em; [exists bf; rewrite Em; by eauto|].
    destruct (first_mem_ok halloc bf F p Hb Em Hal) as (mem & -> & Hb1). eexists. by eauto. }
  pose proof (bo_in _ _ _ (proj1 Hb1)) as Hin. pose proof (bo_pos _ _ _ (proj1 Hb1)) as Ep. pose proof (bo_len _ _ _ (proj1 Hb1)).
  destruct (bo_size _ _ _ (proj1 Hb1)) as [E|E]; rewrite E.
  - rewrite (proj2 (Z.eqb_neq (flen F) (-1))) by lia. cbn [negb andb]. rewrite Ep, clip_size by lia.
    destruct (fab_read_loop_ok room (S (2 * Z.to_nat size)) (Z.min size (flen F - p)) [] bf1 F p) as (bf' & E' & Hb');
      [done|done|lia|lia|change (flen []) with 0; lia|left; lia|].
    rewrite bytes_at_min in * by lia. by exists bf'.
  - simpl negb. cbn [andb]. apply fab_read_loop_ok; [done|done|lia|lia|change (flen []) with 0; lia|left; lia].
Qed.
Lemma fab_seek_ok bf F p pos whence t : at_buf bf F p -> seek_target p (flen F) pos whence = Some t -> 0 <= t <= flen F ->
  exists bf', fab_seek bf pos whence = Ok (t, bf') /\ at_buf bf' F t.
Proof using Hok.
  intros Hb Ht Hin. destruct (bo_src _ _ _ (proj1 Hb)) as [q Hq]. unfold fab_seek.
  assert (exists bf1, (if whence =? SEEK_SET then Ok (Some (pos, bf))
     else if whence =? SEEK_CUR then Ok (Some (bf_fpos bf + pos, bf))
     else if whence =? SEEK_END then '(np, src) ← fap_seek (bf_src bf) pos whence; Ok (Some (np, set_src src bf))
     else Ok None) = Ok (Some (t, bf1)) /\ at_buf bf1 F p) as (bf1 & -> & Hb1).
  { apply seek_target_cases in Ht as [[-> ->]|[[-> ->]|[-> ->]]]; [by exists bf|exists bf; by rewrite (bo_pos _ _ _ (proj1 Hb))|].
    destruct (at_seek (bf_src bf) F q pos SEEK_END (flen F + pos)) as (src & E & A1); [done|done|done|].
    simpl. rewrite E, ok_bind. eexists. split; [done|]. by apply (set_src_ok bf F p src _ A1). }
  rewrite ok_bind, (proj2 (Z.ltb_ge t 0)) by lia. destruct (resolve_zone bf1 t 1).
  - eexists. split; [done|]. by apply (set_fpos_ok bf1 F p).
  - destruct (seek_src bf1 F p t Hb1 Hin) as (src & -> & A1). rewrite ok_bind, Z.eqb_refl. eexists. split; [done|].
    apply (set_fpos_ok _ F p); [|done]. by apply (set_src_ok bf1 F p src _ A1).
Qed.

Lemma fab_fsize_ok bf F p : at_buf bf F p -> exists r bf', fab_fsize bf = Ok (r, bf') /\ (r = flen F \/ r = -1) /\ at_buf bf' F p.
Proof using Hok.
  intros Hb. unfold fab_fsize. destruct (bo_size _ _ _ (proj1 Hb)) as [E|E]; rewrite E.
  - pose proof (bo_in _ _ _ (proj1 Hb)). rewrite (proj2 (Z.eqb_neq (flen F) (-1))) by lia. eexists _, _. by eauto.
  - destruct (bo_src _ _ _ (proj1 Hb)) as [q Hq]. destruct (at_fsize (bf_src bf) F q Hq) as (r & src & -> & Hr & A1).
    simpl. eexists _, _. split; [done|]. split; [done|]. apply set_size_ok; [|done]. by apply (set_src_ok bf F p src q).
Qed.
End buffer_ok.

#[export] Instance buffer_ok {H} {fap : Fap H} {limit At} halloc : FileOk fap limit At ->
  (forall n, 0 <= n <= int_max -> exists mem, halloc n = Some mem /\ flen mem = n) ->
  FileOk (buffer_fap halloc) (Z.min limit int_max) (at_buf (limit:=limit) (At:=At)).
Proof.
  intros Hok Hal. split.
  - intros bf F p [Hb _]. apply Hb.
  - intros bf F p room size Hb Hs Hl. apply (fab_read_reads halloc bf F p room size Hb Hal Hs Hl).
  - apply fab_seek_ok.
  - apply fab_fsize_ok.
Qed.

Lemma fa_buffered_at {H} {fap : Fap H} {limit At} (src : H) F q big prefetch : At src F q ->
  262144 <= limit -> flen F < 4611686018427387904 -> at_buf (limit:=limit) (At:=At) (fa_buffered src big prefetch) F 0.
Proof.
  intros Hs Hl Hf. pose proof (flen_nonneg F). split.
  - split; unfold fa_buffered; simpl; [by exists q|by right|done|lia|done|lia|unfold int_max; lia|..].
    + by destruct prefetch, big.
    + destruct prefetch, big; lia.
  - intros mem. split; [done|repeat constructor|]. intros i j a b _ Ha _. left.
    unfold fa_buffered in Ha. simpl in Ha. do 8 (destruct i as [|i]; [by simplify_eq/=|]). done.
Qed.

Lemma zeros_ok n : 0 <= n <= int_max -> exists mem, Some (replicate (Z.to_nat n) 0) = Some mem /\ flen mem = n.
Proof. intros Hn. eexists. split; [done|]. unfold flen. rewrite length_replicate. lia. Qed.

(** * Properties *)

(** C18: a buffered file is the file below it: any sequence of reads and seeks in
    the file gets the bytes and positions that the contents give, whatever of
    them is in the ring, in which of the zones, and with whatever request sizes;
    and when it is closed and its URL is opened again within ten seconds, so does
    any sequence from the start, without the file below being opened. *)
Theorem buffered_file_is_file {H} {fap : Fap H} {limit At} (Hok : FileOk fap limit At) (halloc : Z -> option (list Z)) (src : H) F q big prefetch ops ans p
    ops2 ans2 p2 url t now parked :
  (forall n, 0 <= n <= int_max -> exists mem, halloc n = Some mem /\ flen mem = n) ->
  At src F q -> 262144 <= limit -> flen F < 4611686018427387904 ->
  spec_ops (Z.min limit int_max) F 0 ops = Some (ans, p) -> spec_ops (Z.min limit int_max) F 0 ops2 = Some (ans2, p2) -> now - t <= 10 ->
  exists bf, run_ops (fap := buffer_fap halloc) (fa_buffered src big prefetch) ops = Ok (ans, bf) /\
    exists bf', fa_buffered_open (fun _ => None) url big prefetch now (fab_close false t url bf parked).1 = (Some (inr bf'), None, []) /\
      exists bf2, run_ops (fap := buffer_fap halloc) bf' ops2 = Ok (ans2, bf2).
Proof.
  intros Hal Hs Hl Hf Hspec Hspec2 Ht. pose proof (buffer_ok halloc Hok Hal) as Hbok.
  destruct (run_ops_ok (Hok := Hbok) ops (fa_buffered src big prefetch) F 0 ans p (fa_buffered_at src F q big prefetch Hs Hl Hf) Hspec) as (bf & E & Hb).
  exists bf. split; [exact E|]. exists (set_fpos 0 bf). split.
  - unfold fa_buffered_open, fab_close. simpl. rewrite (proj2 (Z.ltb_ge 10 (now - t))) by lia. by rewrite bool_decide_eq_true_2.
  - destruct (run_ops_ok (Hok := Hbok) ops2 (set_fpos 0 bf) F 0 ans2 p2) as (bf2 & E2 & _); [|done|by exists bf2].
    apply (set_fpos_ok bf F p); [done|]. pose proof (flen_nonneg F). lia.
Qed.

Lemma buffered_file_is_file_witness :
  exists bf, run_ops (fap := buffer_fap (fap := fs_fap) (fun n => Some (replicate (Z.to_nat n) 0))) (fa_buffered (FsFh [Part (Fd [5; 6; 7; 8; 9] 0) 0] 0 0) false true)
      [OpSeek 1 SEEK_SET; OpRead 2; OpSeek (-1) SEEK_END; OpRead 4; OpRead 1] =
      Ok ([Went 1; Got (Rd [6; 7]); Went 4; Got (Rd [9]); Got (Rd [])], bf) /\
    exists bf', fa_buffered_open (fun _ => None) [97] false true 12 (fab_close false 5 [97] bf None).1 = (Some (inr bf'), None, []) /\
      exists bf2, run_ops (fap := buffer_fap (fap := fs_fap) (fun n => Some (replicate (Z.to_nat n) 0))) bf' [OpRead 3] = Ok ([Got (Rd [5; 6; 7])], bf2).
Proof.
  apply (buffered_file_is_file fs_ok (fun n => Some (replicate (Z.to_nat n) 0)) (FsFh [Part (Fd [5; 6; 7; 8; 9] 0) 0] 0 0) [5; 6; 7; 8; 9] 0 false true _ _ 5 _ _ 3).
  - apply zeros_ok.
  - exists 0. split; [reflexivity|]. split; [lia|vm_compute; discriminate].
  - vm_compute. discriminate.
  - reflexivity.
  - reflexivity.
  - reflexivity.
  - lia.
Defined.
