(* ===== verification/FileAes.v ===== *)
(** Encrypted files (src/src/fileaccess/fa_aes.c): a layer that decrypts a file
    as it is read, in chunks of up to 150 blocks, and takes the padding off the
    last one.  The cipher is that of libavutil. *)
From S2P Require Import Prelude FileAccess.

Local Open Scope Z_scope.

Definition MAX_BUFFER_BLOCKS : Z := 150.
Definition BLOCKSIZE : Z := 16.
Definition inbuffer_size : Z := BLOCKSIZE * MAX_BUFFER_BLOCKS.

(** [a_in] has the first [inlen] bytes of [inbuffer], of which [a_used] have been
    decrypted, and [a_out] the bytes of [outbuffer] from [outptr] on; [a_outlen]
    of them are still to be read. *)
Record aes_fh (H : Type) := Aes {
  a_src : H; a_iv : list Z; a_in : list Z; a_used : Z; a_out : list Z; a_outlen : Z; a_eof : bool
}.
Arguments Aes {H} _ _ _ _ _ _ _.
Arguments a_src {H} _.
Arguments a_iv {H} _.
Arguments a_in {H} _.
Arguments a_used {H} _.
Arguments a_out {H} _.
Arguments a_outlen {H} _.
Arguments a_eof {H} _.

Section aes.
Context {H : Type} {fap : Fap H}.
(** [av_aes_crypt] with the key of the handle: the bytes that a number of whole
    blocks is decrypted to under an initialisation vector, and the vector for what
    follows. *)
Variable av_aes_crypt : list Z -> list Z -> list Z * list Z.

Fixpoint aes_fill (fuel : nat) (a : aes_fh H) : res (aes_fh H) :=
  match fuel with
  | O => Fault NoFuel
  | S fuel =>
      if 2 * BLOCKSIZE <=? flen (a_in a) - a_used a then Ok a else
      '(r, src) ← fap_read (a_src a) (inbuffer_size - flen (a_in a)) (inbuffer_size - flen (a_in a));
      match r with
      | RdErr _ | Rd [] => Ok (Aes src (a_iv a) (a_in a) (a_used a) (a_out a) (a_outlen a) true)
      | Rd bytes => aes_fill fuel (Aes src (a_iv a) (a_in a ++ bytes) (a_used a) (a_out a) (a_outlen a) (a_eof a))
      end
  end.

(** Decrypts [blocks] blocks; with no room left behind what has been used, the
    rest is moved to the front. *)
Definition aes_decrypt (blocks : Z) (a : aes_fh H) : res (aes_fh H) :=
  src ← copy_out (a_in a) (a_used a) (BLOCKSIZE * blocks) inbuffer_size;
  let '(out, iv) := av_aes_crypt (a_iv a) src in
  let outlen := BLOCKSIZE * blocks in
  let used := a_used a + BLOCKSIZE * blocks in
  let '(in_, used) := if inbuffer_size / 2 <=? used then (drop (Z.to_nat used) (a_in a), 0) else (a_in a, used) in
  outlen ← (if a_eof a then
              match out !! Z.to_nat (outlen - 1) with Some pad => Ok (outlen - pad) | None => Fault OobRead end
            else Ok outlen);
  Ok (Aes (a_src a) iv in_ used out outlen (a_eof a)).

Fixpoint aescbc_read_loop (fuel : nat) (a : aes_fh H) (room size : Z) : res (rd * aes_fh H) :=
  match fuel with
  | O => Fault NoFuel
  | S fuel =>
      if 0 <? a_outlen a then
        let size := Z.min size (a_outlen a) in
        bytes ← copy_out (a_out a) 0 size room;
        Ok (Rd bytes, Aes (a_src a) (a_iv a) (a_in a) (a_used a) (drop (Z.to_nat size) (a_out a)) (a_outlen a - size) (a_eof a))
      else
        a ← aes_fill 34 a;
        let blocks := (flen (a_in a) - a_used a) / BLOCKSIZE in
        if blocks =? 0 then Ok (Rd [], a) else
        let blocks := if a_eof a then blocks else blocks - 1 in
        a ← aes_decrypt blocks a;
        aescbc_read_loop fuel a room size
  end.

(** Two rounds decrypt: one at the end of the file, whose blocks may be nothing
    but padding, and none after it. *)
Definition aescbc_read (a : aes_fh H) (room size : Z) : res (rd * aes_fh H) := aescbc_read_loop 3 a room size.
Definition aescbc_seek (a : aes_fh H) (pos whence : Z) : res (Z * aes_fh H) := Ok (-1, a).
Definition aescbc_fsize (a : aes_fh H) : res (Z * aes_fh H) := Ok (-1, a).

#[export] Instance aescbc_fap : Fap (aes_fh H) := {| fap_read := aescbc_read; fap_seek := aescbc_seek; fap_fsize := aescbc_fsize |}.

Definition fa_aescbc_open (fa : H) (iv : list Z) : aes_fh H := Aes fa iv [] 0 [] 0 false.
End aes.

(** * What is read *)

(** What the layer relies on: blocks are decrypted one after the other. *)
Class CbcOk (crypt : list Z -> list Z -> list Z * list Z) : Prop := {
  cbc_length iv d : (length (crypt iv d).1 = length d)%nat;
  cbc_app iv c d : (16 | flen c) ->
    crypt iv (c ++ d) = ((crypt iv c).1 ++ (crypt (crypt iv c).2 d).1, (crypt (crypt iv c).2 d).2)
}.

(** The whole blocks of a text, and what is left of plain text without its
    padding, which the last byte tells. *)
Definition whole_blocks (F : list Z) : list Z := take (Z.to_nat (flen F / 16 * 16)) F.
Definition unpad (D : list Z) : list Z := take (Z.to_nat (flen D - default 0 (last D))) D.
Definition plain (crypt : list Z -> list Z -> list Z * list Z) (iv F : list Z) : list Z := unpad (crypt iv (whole_blocks F)).1.
Definition pad_ok (crypt : list Z -> list Z -> list Z * list Z) (iv F : list Z) : Prop :=
  forall pad, last (crypt iv (whole_blocks F)).1 = Some pad -> 0 <= pad <= 16.

Section aes_ok.
Context {H : Type} {fap : Fap H} {limit : Z} {At : H -> list Z -> Z -> Prop} {Hok : FileOk fap limit At}.
Context {crypt : list Z -> list Z -> list Z * list Z} {Hcbc : CbcOk crypt}.

Lemma whole_blocks_app c R : (16 | flen c) -> whole_blocks (c ++ R) = c ++ whole_blocks R.
Proof.
  intros [k Hk]. unfold whole_blocks. rewrite flen_app, Hk. replace (k * 16 + flen R) with (flen R + k * 16) by lia.
  rewrite Z.div_add by lia. pose proof (flen_nonneg R). pose proof (Z.div_pos (flen R) 16).
  replace (Z.to_nat ((flen R / 16 + k) * 16)) with (length c + Z.to_nat (flen R / 16 * 16))%nat by (unfold flen in *; lia).
  by rewrite take_app_add.
Qed.

(** Blocks decrypted while whole ones follow. *)
Lemma plain_app iv c R : (16 | flen c) -> 16 <= flen R -> pad_ok crypt iv (c ++ R) ->
  plain crypt iv (c ++ R) = (crypt iv c).1 ++ plain crypt (crypt iv c).2 R /\ pad_ok crypt (crypt iv c).2 R.
Proof using Hcbc.
  intros Hc HR Hp. unfold plain, pad_ok in *. rewrite whole_blocks_app, cbc_app in * by done. simpl in *.
  set (D := (crypt iv c).1) in *. set (E := (crypt (crypt iv c).2 (whole_blocks R)).1) in *.
  assert (16 <= flen E) as HE.
  { unfold E, flen. rewrite cbc_length. unfold whole_blocks. rewrite length_take. unfold flen in *.
    pose proof (Z.div_le_lower_bound (Z.of_nat (length R)) 16 1). pose proof (Z.mul_div_le (Z.of_nat (length R)) 16). lia. }
  assert (E <> []) as Hne by (intros E0; rewrite E0 in HE; unfold flen in HE; simpl in HE; lia).
  destruct (last E) as [pad|] eqn:El; [|by apply last_None in El].
  assert (last (D ++ E) = Some pad) as Ed by (rewrite last_app, El; done).
  split; [|intros pad' [= <-]; by apply Hp]. unfold unpad. rewrite Ed, El. simpl. pose proof (Hp pad Ed).
  rewrite flen_app. unfold flen in *. rewrite take_app_ge by lia. f_equal. f_equal. lia.
Qed.

(** The rest [R] of the encrypted file, in the buffer and in the source. *)
Record rest_is (a : aes_fh H) (R : list Z) : Prop := {
  ri_src : exists F q, At (a_src a) F q /\ (a_eof a = true -> q = flen F) /\
    R = drop (Z.to_nat (a_used a)) (a_in a) ++ drop (Z.to_nat q) F;
  ri_used : 0 <= a_used a <= flen (a_in a);
  ri_half : a_used a < inbuffer_size / 2;
  ri_in : flen (a_in a) <= inbuffer_size
}.

(** The plain text [G] is still to be read: what has been decrypted, and the text
    of the rest. *)
Definition at_aes (a : aes_fh H) (G : list Z) : Prop :=
  a_outlen a <= flen (a_out a) /\ exists R, rest_is a R /\
    if a_eof a then flen R < 16 /\ G = take (Z.to_nat (a_outlen a)) (a_out a)
    else G = take (Z.to_nat (a_outlen a)) (a_out a) ++ plain crypt (a_iv a) R /\ pad_ok crypt (a_iv a) R.

Definition set_fill (src : H) (in_ : list Z) (eof : bool) (a : aes_fh H) : aes_fh H :=
  Aes src (a_iv a) in_ (a_used a) (a_out a) (a_outlen a) eof.

Lemma aes_fill_ok fuel : forall a R, rest_is a R -> inbuffer_size <= limit -> Z.max 0 (32 - (flen (a_in a) - a_used a)) < Z.of_nat fuel ->
  exists src in_ eof, aes_fill fuel a = Ok (set_fill src in_ eof a) /\ rest_is (set_fill src in_ eof a) R /\
    (a_eof a = true -> eof = true) /\
    (eof = true -> flen R = flen in_ - a_used a) /\ (eof = false -> 32 <= flen in_ - a_used a).
Proof using Hok.
  induction fuel as [|fuel IH]; intros a R [(F & q & HF & He & ER) Hu Hh Hi] Hl Hf; pose proof (at_pos _ _ _ HF) as Hq.
  { lia. }
  simpl. change (2 * BLOCKSIZE) with 32. destruct (Z.leb_spec 32 (flen (a_in a) - a_used a)) as [H1|H1].
  - exists (a_src a), (a_in a), (a_eof a). split; [by destruct a|]. split; [split; simpl; eauto|]. split_and!; [done| |done].
    intros E. rewrite ER, (He E). unfold flen in *. rewrite length_app, !length_drop. lia.
  - change (inbuffer_size / 2) with 1200 in Hh. change inbuffer_size with 2400 in *. set (n := 2400 - flen (a_in a)).
    destruct (at_read (a_src a) F q n n HF) as (src & -> & A1); [lia..|]. rewrite ok_bind.
    assert (flen (bytes_at F q n) = Z.min n (flen F - q)) as Hb by (rewrite flen_bytes_at by lia; lia).
    destruct (bytes_at F q n) as [|x bytes] eqn:Eb.
    + assert (q = flen F) as Hqf by (change (flen []) with 0 in *; lia). exists src, (a_in a), true. split; [done|].
      split; [split; [|done..]|split_and!; [done| |done]].
      * exists F, q. change (flen []) with 0 in A1. by rewrite Z.add_0_r in A1.
      * intros _. rewrite ER, Hqf. unfold flen in *. rewrite length_app, !length_drop. lia.
    + assert (1 <= flen (x :: bytes)) by (unfold flen; simpl; lia).
      destruct (IH (set_fill src (a_in a ++ x :: bytes) (a_eof a) a) R) as (src' & in' & eof & E & HR & H2 & H3 & H4); [|done| |].
      * split; simpl; rewrite ?flen_app; [|lia..|change (inbuffer_size / 2) with 1200; lia|change inbuffer_size with 2400; lia].
        exists F, (q + flen (x :: bytes)). split; [done|]. split; [intros E; specialize (He E); lia|].
        rewrite ER, drop_app_le by (unfold flen in *; lia). rewrite <- app_assoc. f_equal. rewrite <- Eb.
        by rewrite bytes_at_split by lia.
      * simpl. rewrite flen_app. lia.
      * exists src', in', eof. split; [exact E|]. split; [exact HR|]. simpl in *. done.
Qed.

Lemma aes_decrypt_ok a R blocks : rest_is a R -> 1 <= blocks -> 16 * blocks <= flen (a_in a) - a_used a ->
  let c := take (Z.to_nat (16 * blocks)) R in
  exists a' pad, aes_decrypt crypt blocks a = Ok a' /\ rest_is a' (drop (Z.to_nat (16 * blocks)) R) /\ a_iv a' = (crypt (a_iv a) c).2 /\
    a_out a' = (crypt (a_iv a) c).1 /\ a_eof a' = a_eof a /\ last (a_out a') = Some pad /\
    a_outlen a' = 16 * blocks - (if a_eof a then pad else 0).
Proof using Hcbc.
  intros [(F & q & HF & He & ER) Hu Hh Hi] Hb Hle c. unfold aes_decrypt. change BLOCKSIZE with 16.
  assert (bytes_at (a_in a) (a_used a) (16 * blocks) = c) as Ec.
  { unfold c. rewrite ER, take_app_le; [done|]. rewrite length_drop. unfold flen in *. lia. }
  rewrite copy_out_Ok, ok_bind, Ec by lia. pose proof (cbc_length (a_iv a) c) as Hlen. destruct (crypt (a_iv a) c) as [out iv]. simpl in Hlen.
  assert (length out = Z.to_nat (16 * blocks)) as Hlo.
  { rewrite Hlen, <- Ec. pose proof (flen_bytes_at (a_in a) (a_used a) (16 * blocks)) as E. unfold flen in *. lia. }
  destruct (last out) as [pad|] eqn:El; [|apply last_None in El; subst out; simpl in Hlo; lia].
  assert (out !! Z.to_nat (16 * blocks - 1) = Some pad) as Ep by (rewrite <- El, last_lookup, Hlo; f_equal; lia).
  set (used' := a_used a + 16 * blocks). set (mv := inbuffer_size / 2 <=? used').
  assert ((if mv then (drop (Z.to_nat used') (a_in a), 0) else (a_in a, used')) =
    (if mv then drop (Z.to_nat used') (a_in a) else a_in a, if mv then 0 else used')) as -> by (by destruct mv).
  exists (Aes (a_src a) iv (if mv then drop (Z.to_nat used') (a_in a) else a_in a) (if mv then 0 else used') out (16 * blocks - (if a_eof a then pad else 0)) (a_eof a)), pad.
  split; [destruct (a_eof a); [by rewrite Ep|by rewrite Z.sub_0_r]|]. split; [|done]. split; simpl.
  - exists F, q. split; [done|]. split; [done|]. rewrite ER, drop_app_le by (rewrite length_drop; unfold flen in *; lia).
    rewrite drop_drop. replace (Z.to_nat (a_used a) + Z.to_nat (16 * blocks))%nat with (Z.to_nat used') by lia. by destruct mv.
  - unfold flen in *. destruct mv; rewrite ?length_drop; lia.
  - unfold mv. destruct (Z.leb_spec (inbuffer_size / 2) used'); [done|lia].
  - unfold flen in *. destruct mv; rewrite ?length_drop; lia.
Qed.

Lemma unpad_eq D pad : last D = Some pad -> unpad D = take (Z.to_nat (flen D - pad)) D.
Proof. unfold unpad. by intros ->. Qed.

Lemma plain_short iv R : flen R < 16 -> plain crypt iv R = [].
Proof using Hcbc.
  intros HR. pose proof (flen_nonneg R). unfold plain, whole_blocks. rewrite Z.div_small by lia. change (take (Z.to_nat (0 * 16)) R) with (@nil Z).
  pose proof (cbc_length iv []) as E. destruct (crypt iv []).1; [done|]. simpl in E. lia.
Qed.

(** A round with nothing left to hand out: the end of the text, or more of it. *)
Lemma aes_round_ok a G room size : at_aes a G -> a_outlen a <= 0 -> inbuffer_size <= limit ->
  exists a', at_aes a' G /\
    ((forall f, aescbc_read_loop crypt (S f) a room size = Ok (Rd [], a')) /\ G = [] \/
     (forall f, aescbc_read_loop crypt (S f) a room size = aescbc_read_loop crypt f a' room size) /\ (0 < a_outlen a' \/ a_eof a = false /\ a_eof a' = true)).
Proof using Hok Hcbc.
  intros (Ho & R & HR & HG) Hneg Hlim. destruct (aes_fill_ok 34 a R HR Hlim) as (src & in_ & eof & Ef & HR' & H1 & H2 & H3).
  { pose proof (ri_used _ _ HR). lia. }
  assert (take (Z.to_nat (a_outlen a)) (a_out a) = []) as Et by (replace (Z.to_nat (a_outlen a)) with 0%nat by lia; done).
  set (b := (flen in_ - a_used a) / 16). pose proof (ri_used _ _ HR') as Hu. simpl in Hu.
  assert (flen in_ - a_used a <= flen R) as Hlr.
  { destruct HR' as [(F & q & _ & _ & ->) _ _ _]. simpl. unfold flen in *. rewrite length_app, length_drop. lia. }
  assert (0 <= b /\ 16 * b <= flen in_ - a_used a < 16 * b + 16) as [Hb0 Hb] by (unfold b; split; [apply Z.div_pos; lia|]; pose proof (Z.mod_pos_bound (flen in_ - a_used a) 16); pose proof (Z.div_mod (flen in_ - a_used a) 16); lia).
  assert (forall f, aescbc_read_loop crypt (S f) a room size =
    if b =? 0 then Ok (Rd [], set_fill src in_ eof a) else
    a ← aes_decrypt crypt (if eof then b else b - 1) (set_fill src in_ eof a); aescbc_read_loop crypt f a room size) as Hstep.
  { intros f. cbn [aescbc_read_loop]. rewrite (proj2 (Z.ltb_ge 0 (a_outlen a))) by lia. by rewrite Ef, ok_bind. }
  destruct (Z.eqb_spec b 0) as [Eb|Eb].
  - assert (eof = true) as -> by (destruct eof; [done|specialize (H3 eq_refl); lia]). specialize (H2 eq_refl).
    assert (G = []) as ->.
    { destruct (a_eof a); [by destruct HG as [_ ->]|]. destruct HG as [-> _]. rewrite Et, plain_short by lia. done. }
    exists (set_fill src in_ true a). split; [|by left]. split; [done|]. exists R. split; [done|]. simpl. rewrite Et. split; [lia|done].
  - assert (a_eof a = false) as Hae.
    { destruct (a_eof a) eqn:E; [|done]. rewrite (H1 eq_refl) in H2. specialize (H2 eq_refl). lia. }
    rewrite Hae in HG. destruct HG as [-> Hpad]. rewrite Et in *. simpl "++".
    destruct (aes_decrypt_ok (set_fill src in_ eof a) R (if eof then b else b - 1) HR') as (a' & pad & Ed & HRn & Ei & Eo & Ee & El & En).
    { destruct eof; [lia|]. specialize (H3 eq_refl). lia. }
    { simpl. destruct eof; lia. }
    exists a'. cbn [a_iv a_eof set_fill] in Ei, Eo, Ee, En.
    split; [|right; split; [intros f; by rewrite Hstep, Ed|destruct eof; [by right|left; specialize (H3 eq_refl); lia]]].
    set (m := 16 * (if eof then b else b - 1)) in *. set (c := take (Z.to_nat m) R) in *.
    assert (flen c = m) as Hc by (unfold c, m, flen in *; rewrite length_take; destruct eof; lia).
    assert (flen (a_out a') = m) as Hout by (rewrite Eo; unfold flen; rewrite cbc_length; exact Hc).
    destruct eof.
    + assert (c = whole_blocks R) as Ecw.
      { specialize (H2 eq_refl). unfold c, whole_blocks. rewrite H2. f_equal. fold b. lia. }
      assert (0 <= pad <= 16) as Hpd by (apply Hpad; by rewrite <- Ecw, <- Eo).
      split; [lia|]. exists (drop (Z.to_nat m) R). split; [done|]. rewrite Ee. split.
      * specialize (H2 eq_refl). unfold flen in *. rewrite length_drop. lia.
      * unfold plain. rewrite <- Ecw, <- Eo, (unpad_eq _ pad El), Hout, En. done.
    + specialize (H3 eq_refl). assert (R = c ++ drop (Z.to_nat m) R) as ER by (unfold c; by rewrite take_drop).
      destruct (plain_app (a_iv a) c (drop (Z.to_nat m) R)) as [Epl Hp']; [exists (b - 1); lia|unfold flen in *; rewrite length_drop; lia|by rewrite <- ER|].
      split; [lia|]. exists (drop (Z.to_nat m) R). split; [done|]. rewrite Ee, Ei. split; [|done].
      rewrite ER at 1. rewrite Epl, <- Eo. f_equal. rewrite En, take_ge; [done|]. unfold flen in *. lia.
Qed.

Lemma aes_deliver_ok a G room size f : at_aes a G -> 0 < a_outlen a -> 0 <= size <= room ->
  exists n a', aescbc_read_loop crypt (S f) a room size = Ok (Rd (take n G), a') /\ at_aes a' (drop n G) /\
    Z.of_nat n = Z.min size (a_outlen a) /\ (n <= length G)%nat.
Proof.
  intros (Ho & R & HR & HG) Hpos Hs. cbn [aescbc_read_loop]. rewrite (proj2 (Z.ltb_lt 0 (a_outlen a))) by lia.
  set (k := Z.min size (a_outlen a)). rewrite copy_out_Ok, ok_bind by lia.
  assert (exists rest, G = take (Z.to_nat (a_outlen a)) (a_out a) ++ rest) as [rest EG].
  { destruct (a_eof a); destruct HG as [HG1 HG2]; [exists []; by rewrite app_nil_r|by eexists]. }
  assert (length (take (Z.to_nat (a_outlen a)) (a_out a)) = Z.to_nat (a_outlen a)) as Hl by (unfold flen in *; rewrite length_take; lia).
  exists (Z.to_nat k). eexists. split; [|split; [|split; [lia|rewrite EG, length_app; lia]]].
  - unfold bytes_at. change (drop (Z.to_nat 0) (a_out a)) with (a_out a). rewrite EG, take_app_le, take_take by lia.
    repeat f_equal. lia.
  - assert (drop (Z.to_nat k) (take (Z.to_nat (a_outlen a)) (a_out a)) = take (Z.to_nat (a_outlen a - k)) (drop (Z.to_nat k) (a_out a))) as Ed.
    { rewrite skipn_firstn_comm. f_equal. lia. }
    split; [simpl; unfold flen in *; rewrite length_drop; lia|]. exists R. simpl. split; [by destruct HR|].
    destruct (a_eof a); destruct HG as [HG1 HG2].
    + split; [done|]. by rewrite HG2, Ed.
    + split; [|done]. rewrite HG1, drop_app_le by lia. by rewrite Ed.
Qed.

(** A read gives some of the text, and none only at its end. *)
Lemma aescbc_read_ok a G room size : at_aes a G -> inbuffer_size <= limit -> 0 <= size <= room ->
  exists n a', aescbc_read crypt a room size = Ok (Rd (take n G), a') /\ at_aes a' (drop n G) /\
    Z.of_nat n <= size /\ (n <= length G)%nat /\ (0 < size -> G <> [] -> (0 < n)%nat).
Proof using Hok Hcbc.
  intros Ha Hl Hs. unfold aescbc_read.
  assert (forall f b, at_aes b G -> 0 < a_outlen b -> exists n a', aescbc_read_loop crypt (S f) b room size = Ok (Rd (take n G), a') /\ at_aes a' (drop n G) /\
    Z.of_nat n <= size /\ (n <= length G)%nat /\ (0 < size -> G <> [] -> (0 < n)%nat)) as Hdel.
  { intros f b Hb Hpos. destruct (aes_deliver_ok b G room size f Hb Hpos Hs) as (n & a' & E & Ha' & Hn & Hng). exists n, a'. split_and!; [done|done|lia|done|lia]. }
  assert (forall a', at_aes a' [] -> exists n a'', Ok (Rd [], a') = Ok (Rd (take n []), a'') /\ at_aes a'' (drop n []) /\
    Z.of_nat n <= size /\ (n <= @length Z [])%nat /\ (0 < size -> @nil Z <> [] -> (0 < n)%nat)) as Hend.
  { intros a' Ha'. exists 0%nat, a'. split_and!; [done|done|lia|simpl; lia|done]. }
  destruct (decide (0 < a_outlen a)) as [Hp|Hp]; [by apply Hdel|].
  destruct (aes_round_ok a G room size Ha) as (a1 & Ha1 & [[E ->]|[E Hnext]]); [lia|done|rewrite E; by apply Hend|]. rewrite E.
  destruct (decide (0 < a_outlen a1)) as [Hp1|Hp1]; [by apply Hdel|]. destruct Hnext as [?|[_ He]]; [done|].
  destruct (aes_round_ok a1 G room size Ha1) as (a2 & Ha2 & [[E2 ->]|[E2 Hnext]]); [lia|done|rewrite E2; by apply Hend|]. rewrite E2.
  destruct Hnext as [Hp2|[? _]]; [by apply Hdel|congruence].
Qed.

Lemma aescbc_open_ok src F q iv : At src F q -> pad_ok crypt iv (drop (Z.to_nat q) F) ->
  at_aes (fa_aescbc_open src iv) (plain crypt iv (drop (Z.to_nat q) F)).
Proof.
  intros Hs Hp. split; [done|]. exists (drop (Z.to_nat q) F). split; [|done]. split; [by exists F, q|done..].
Qed.

Lemma read_seq_ok sizes : forall a G, at_aes a G -> inbuffer_size <= limit -> Forall (fun n => 0 < n) sizes -> (length G < length sizes)%nat ->
  exists a', read_seq (fap := aescbc_fap crypt) a sizes = Ok (G, a').
Proof using Hok Hcbc.
  induction sizes as [|size sizes IH]; intros a G Ha Hl Hs Hlen; [simpl in Hlen; lia|].
  apply Forall_cons in Hs as [Hs1 Hs2]. simpl in Hlen |- *.
  destruct (aescbc_read_ok a G size size Ha Hl) as (n & a1 & -> & Ha1 & Hn & Hng & Hprog); [lia|]. rewrite ok_bind.
  destruct (decide (G = [])) as [->|Hne].
  - rewrite take_nil, drop_nil in *. destruct sizes as [|s2 sizes]; [by exists a1|].
    destruct (IH a1 [] Ha1 Hl Hs2) as (a2 & ->); [simpl; lia|]. by exists a2.
  - destruct (IH a1 (drop n G) Ha1 Hl Hs2) as (a2 & ->); [rewrite length_drop; specialize (Hprog Hs1 Hne); lia|].
    exists a2. rewrite ok_bind, take_drop. done.
Qed.
End aes_ok.

(** * Properties *)

(** C19: whatever the sizes of the reads, what is read from the layer is the
    decryption of all of the file below, from where that is, without its padding;
    the text ends the same way for every split of the file into chunks. *)
Theorem aescbc_decrypts {H} {fap : Fap H} {limit At} (Hok : FileOk fap limit At) crypt (Hcbc : CbcOk crypt) (src : H) F q iv sizes :
  At src F q -> 2400 <= limit -> pad_ok crypt iv (drop (Z.to_nat q) F) -> Forall (fun n => 0 < n) sizes ->
  (length (plain crypt iv (drop (Z.to_nat q) F)) < length sizes)%nat ->
  exists a, read_seq (fap := aescbc_fap crypt) (fa_aescbc_open src iv) sizes = Ok (plain crypt iv (drop (Z.to_nat q) F), a).
Proof.
  intros Hs Hl Hp Hsz Hlen. by apply read_seq_ok; [apply (aescbc_open_ok src F q iv)|..].
Qed.

(** A cipher that adds one to every byte; 48 bytes, the last four padding. *)
Definition toy_crypt (iv d : list Z) : list Z * list Z := (map (fun x => (x + 1) mod 256) d, iv).

Lemma toy_cbc : CbcOk toy_crypt.
Proof. split; [intros iv d; apply length_map|intros iv c d _; unfold toy_crypt; simpl; by rewrite map_app]. Qed.

Definition toy_file : list Z := replicate 44 65 ++ replicate 4 3.

Lemma aescbc_decrypts_witness : plain toy_crypt [0] (drop (Z.to_nat 0) toy_file) = replicate 44 66 /\
  exists a, read_seq (fap := aescbc_fap (fap := fs_fap) toy_crypt) (fa_aescbc_open (FsFh [Part (Fd toy_file 0) 0] 0 0) [0]) (replicate 50 20) =
    Ok (plain toy_crypt [0] (drop (Z.to_nat 0) toy_file), a).
Proof.
  split; [vm_compute; reflexivity|]. apply (aescbc_decrypts fs_ok toy_crypt toy_cbc (FsFh [Part (Fd toy_file 0) 0] 0 0) toy_file 0).
  - exists 0. split; [reflexivity|]. vm_compute. split; discriminate.
  - vm_compute. discriminate.
  - intros pad E. vm_compute in E. injection E as <-. lia.
  - apply Forall_replicate. lia.
  - rewrite length_replicate. apply Nat.ltb_lt. vm_compute. reflexivity.
Defined.
