(* ===== verification/FileSplit.v ===== *)
(** Split files: a file stored as url.001, url.002, ... (src/src/fileaccess/fa_fs.c).
    The handle reads across its parts, and a seek finds the part it lands in
    (what it answers is the position in that part). *)
From S2P Require Import Prelude FileAccess.

Local Open Scope Z_scope.

(** * Lemmas *)

Definition start (Fs : list (list Z)) (k : nat) : Z := flen (concat (take k Fs)).

(** [k] is the part that [p] is in: where two meet, the first. *)
Definition in_part (Fs : list (list Z)) (p : Z) (k : nat) (F : list Z) : Prop :=
  Fs !! k = Some F /\ start Fs k <= p <= start Fs k + flen F /\ ((0 < k)%nat -> start Fs k < p).

Definition part_of (F : list Z) (pos : Z) : part := Part (Fd F pos) (flen F).

(** The parts have their contents; the one that is read from stands where the
    handle is, and the others wherever they were left. *)
Definition at_split (fh : fs_handle) (Fs : list (list Z)) (p : Z) : Prop :=
  (2 <= length Fs)%nat /\ Forall (fun F => 0 < flen F) Fs /\ fs_read_pos fh = p /\ fs_total_size fh = flen (concat Fs) /\
  Forall2 (fun pt F => exists pos, pt = part_of F pos) (fs_parts fh) Fs /\
  exists k F, in_part Fs p k F /\ fs_parts fh !! k = Some (part_of F (p - start Fs k)).

Lemma start_0 Fs : start Fs 0 = 0.
Proof. done. Qed.

Lemma start_S Fs k F : Fs !! k = Some F -> start Fs (S k) = start Fs k + flen F.
Proof. intros H. unfold start. rewrite (take_S_r _ _ _ H), concat_app, flen_app. simpl. by rewrite app_nil_r. Qed.

Lemma start_cons F Fs k : start (F :: Fs) (S k) = flen F + start Fs k.
Proof. unfold start. simpl. apply flen_app. Qed.

Lemma start_nonneg Fs k : 0 <= start Fs k.
Proof. apply flen_nonneg. Qed.

Lemma start_total Fs k F : Fs !! k = Some F -> start Fs k + flen F <= flen (concat Fs).
Proof.
  intros H. rewrite <- (start_S _ _ _ H). unfold start. rewrite <- (take_drop (S k) Fs) at 2. rewrite concat_app, flen_app.
  pose proof (flen_nonneg (concat (drop (S k) Fs))). lia.
Qed.

(** The rest of the file from a position in a part. *)
Lemma drop_concat Fs k F p : Fs !! k = Some F -> start Fs k <= p <= start Fs k + flen F ->
  drop (Z.to_nat p) (concat Fs) = drop (Z.to_nat (p - start Fs k)) F ++ concat (drop (S k) Fs).
Proof.
  intros H Hp. rewrite <- (take_drop_middle _ _ _ H) at 1. rewrite concat_app. simpl.
  unfold start in *. unfold flen in Hp. rewrite drop_app_ge by lia. rewrite drop_app_le by (unfold flen in *; lia).
  f_equal. f_equal. unfold flen. lia.
Qed.

Lemma in_part_exists Fs p : Fs <> [] -> 0 <= p <= flen (concat Fs) -> exists k F, in_part Fs p k F.
Proof.
  revert p. induction Fs as [|F Fs IH]; intros p Hne Hp; [done|]. destruct (decide (p <= flen F)) as [H|H].
  - exists 0%nat, F. split; [done|]. rewrite start_0. split; lia.
  - simpl in Hp. rewrite flen_app in Hp. destruct (IH (p - flen F)) as (k & G & Hk & Hp1 & Hp2); [|lia|].
    + intros ->. simpl in Hp. change (flen []) with 0 in Hp. lia.
    + exists (S k), G. split; [done|]. rewrite start_cons. split; [lia|]. intros _. destruct k; [rewrite start_0; lia|]. lia.
Qed.

Lemma first_part Fs p k F : in_part Fs p k F -> p <= flen (concat (take 1 Fs)) -> k = 0%nat.
Proof.
  intros (HF & _ & Hk) Hp. destruct k as [|k]; [done|]. exfalso. specialize (Hk ltac:(lia)). revert Hk. unfold start.
  assert (take 1 (take (S k) Fs) = take 1 Fs) as E by (rewrite take_take; f_equal; lia).
  rewrite <- (take_drop 1 (take (S k) Fs)), concat_app, flen_app, E. pose proof (flen_nonneg (concat (drop 1 (take (S k) Fs)))). lia.
Qed.

Lemma piece_loop_ok Fs p k F : in_part Fs p k F -> forall parts size i n j,
  Forall2 (fun pt F => pt_size pt = flen F) parts (drop (S j) Fs) -> (j <= k)%nat -> size = start Fs (S j) -> (k - j < n)%nat ->
  piece_loop p size i parts n = Ok (i + (k - j))%nat.
Proof.
  intros (Hk & Hp & Hp') parts. induction parts as [|pt parts IH]; intros size i n j Hparts Hj -> Hn.
  - destruct n as [|n]; [lia|]. simpl. apply Forall2_nil_inv_l in Hparts. apply (f_equal length) in Hparts.
    rewrite length_drop in Hparts. simpl in Hparts. pose proof (lookup_lt_Some _ _ _ Hk). assert (j = k) as -> by lia.
    rewrite (start_S _ _ _ Hk), (proj2 (Z.leb_le p _)) by lia. f_equal. lia.
  - destruct n as [|n]; [lia|]. simpl. destruct (decide (j = k)) as [->|Hne].
    + rewrite (start_S _ _ _ Hk), (proj2 (Z.leb_le p _)) by lia. f_equal. lia.
    + assert (start Fs (S j) < p) as Hlt.
      { specialize (Hp' ltac:(lia)). pose proof (fun m => start_nonneg (drop (S j) Fs) m) as Hs.
        assert (start Fs (S j) <= start Fs k); [|lia]. unfold start.
        replace (take k Fs) with (take (S j) Fs ++ take (k - S j) (drop (S j) Fs)) by (rewrite take_take_drop; f_equal; lia).
        rewrite concat_app, flen_app. specialize (Hs (k - S j)%nat). unfold start in Hs. lia. }
      rewrite (proj2 (Z.leb_gt p _)) by lia. inversion Hparts as [|? F' ? Fs' Hpt Hrest E1 E2]; subst.
      assert (Fs !! S j = Some F') as HF' by (rewrite <- (Nat.add_0_r (S j)), <- lookup_drop, <- E2; done).
      rewrite (IH _ _ _ (S j)); [f_equal; lia| |lia|by rewrite (start_S _ _ _ HF'), Hpt|lia].
      assert (drop (S (S j)) Fs = Fs') as ->; [|done]. replace (S (S j)) with (S j + 1)%nat by lia. by rewrite <- drop_drop, <- E2.
Qed.

(** Bytes that the rest of the file starts with. *)
Lemma bytes_at_prefix_of F p b rest : drop (Z.to_nat p) F = b ++ rest -> bytes_at F p (flen b) = b.
Proof. intros E. unfold bytes_at. rewrite E. unfold flen. by rewrite Nat2Z.id, take_app_length. Qed.

Section split.
Variables (Fs : list (list Z)).

Lemma parts_sizes parts : Forall2 (fun pt F => exists pos, pt = part_of F pos) parts Fs -> Forall2 (fun pt F => pt_size pt = flen F) parts Fs.
Proof. intros H. eapply Forall2_impl; [exact H|]. by intros pt F (pos & ->). Qed.

Lemma piece_num_ok fh p k F : Forall2 (fun pt F => exists pos, pt = part_of F pos) (fs_parts fh) Fs -> fs_read_pos fh = p ->
  in_part Fs p k F -> get_current_read_piece_num fh = Ok k.
Proof.
  intros Hp Hpos Hk. apply parts_sizes in Hp. pose proof (Forall2_length _ _ _ Hp) as Hl. pose proof (lookup_lt_Some _ _ _ (proj1 Hk)) as Hlt.
  unfold get_current_read_piece_num. rewrite Hpos. destruct Hp as [|pt F0 parts Gs Hpt Hp]; [simpl in Hlt; lia|].
  rewrite (piece_loop_ok _ p k F Hk parts _ 0 _ 0).
  - rewrite ok_bind. f_equal. rewrite Hl. simpl in *. lia.
  - done.
  - lia.
  - rewrite (start_S (F0 :: Gs) 0 F0) by done. rewrite start_0. lia.
  - rewrite Hl. simpl in *. lia.
Qed.

(** A part that is read from or sought in. *)
Lemma part_moved fh k F pos pos' : Forall2 (fun pt F => exists pos, pt = part_of F pos) (fs_parts fh) Fs ->
  fs_parts fh !! k = Some (part_of F pos) ->
  Forall2 (fun pt F => exists pos, pt = part_of F pos) (fs_parts (put_fd fh k (Fd F pos'))) Fs /\
  fs_parts (put_fd fh k (Fd F pos')) !! k = Some (part_of F pos') /\ fs_total_size (put_fd fh k (Fd F pos')) = fs_total_size fh /\
  fs_read_pos (put_fd fh k (Fd F pos')) = fs_read_pos fh.
Proof.
  intros Hp Hk. unfold put_fd. cbn [fs_parts fs_total_size fs_read_pos]. split_and!; [| |done..].
  - destruct (Forall2_lookup_l _ _ _ _ _ Hp Hk) as (F' & HF & pos0 & E). unfold part_of in E. simplify_eq.
    rewrite <- (list_alter_id id Fs k) by done. apply Forall2_alter; [done|].
    intros pt G Hpt HG (pos1 & E). rewrite Hk in Hpt. simplify_eq. by exists pos'.
  - rewrite list_lookup_alter_eq, Hk. done.
Qed.

(** Reading on in the part that the handle stands in. *)
Lemma sys_read_ok F pos room size : 0 <= pos <= flen F -> 0 <= size <= room -> size <= read_max ->
  sys_read (Fd F pos) room size = Ok (bytes_at F pos size, Fd F (pos + flen (bytes_at F pos size))).
Proof.
  intros Hp Hs Hm. unfold sys_read. cbn [fd_data fd_pos]. rewrite Z.min_l by lia.
  pose proof (flen_bytes_at F pos size). by rewrite (proj2 (Z.leb_le _ room)) by lia.
Qed.

Lemma take_part F pos size rest : 0 <= pos <= flen F -> 0 <= size -> size <= flen F - pos ->
  bytes_at F pos size = take (Z.to_nat size) (drop (Z.to_nat pos) F ++ rest).
Proof. intros Hp Hs Hl. unfold bytes_at. rewrite take_app_le; [done|]. rewrite length_drop. unfold flen in *. lia. Qed.

Lemma split_fs_read fh p room size : at_split fh Fs p -> 0 <= size <= room -> size <= read_max ->
  exists n fh', fs_read fh room size = Ok (Rd (bytes_at (concat Fs) p n), fh') /\ at_split fh' Fs (p + n) /\
    0 <= n <= size /\ p + n <= flen (concat Fs) /\ (0 < size -> p < flen (concat Fs) -> 0 < n).
Proof.
  intros (Hlen & Hpos & Ep & Etot & Hparts & k & F & Hin & Hk) Hs Hm.
  pose proof (Forall2_length _ _ _ Hparts) as Hpl. destruct Hin as (HF & Hr & Hr').
  assert (flen (drop (Z.to_nat p) (concat Fs)) = flen (concat Fs) - p) as Hrest by (pose proof (start_total _ _ _ HF); pose proof (start_nonneg Fs k); unfold flen in *; rewrite length_drop; lia).
  unfold fs_read. rewrite decide_False by lia. rewrite (piece_num_ok fh p k F), ok_bind by done.
  unfold get_part. rewrite Hk, ok_bind. cbn [pt_fd part_of]. set (pos := p - start Fs k) in *.
  rewrite sys_read_ok, ok_bind by lia. set (b1 := bytes_at F pos size).
  assert (flen b1 = Z.min size (flen F - pos)) as Hb1 by (unfold b1; rewrite flen_bytes_at by lia; lia).
  destruct (part_moved fh k F pos (pos + flen b1) Hparts Hk) as (Hparts1 & Hk1 & Et1 & Er1). set (fh1 := put_fd fh k (Fd F (pos + flen b1))) in *.
  assert (length (fs_parts fh1) = length (fs_parts fh)) as Hl1 by (by rewrite Hpl, (Forall2_length _ _ _ Hparts1)).
  rewrite Hl1, Hpl. destruct ((flen b1 <? size) && bool_decide (k < length Fs - 1)%nat) eqn:Ec.
  - apply andb_prop in Ec as [Ec1%Z.ltb_lt Ec2%bool_decide_eq_true]. assert (flen b1 = flen F - pos) as Hb1' by lia.
    destruct (lookup_lt_is_Some_2 Fs (S k)) as [G HG]; [lia|].
    destruct (Forall2_lookup_r _ _ _ _ _ Hparts1 HG) as (pt & Hpt & posG & ->). rewrite Hpt, ok_bind.
    unfold sys_lseek. cbn [pt_fd part_of fd_pos fd_data]. change (seek_target posG (flen G) 0 SEEK_SET) with (Some 0).
    assert (0 < flen G) as HG0 by (rewrite Forall_lookup in Hpos; eauto).
    cbn iota. rewrite Z.ltb_irrefl, (sys_read_ok G 0 (room - flen b1) (size - flen b1)), ok_bind by lia.
    set (b2 := bytes_at G 0 (size - flen b1)). assert (flen b2 = Z.min (size - flen b1) (flen G)) as Hb2 by (unfold b2; rewrite flen_bytes_at by lia; lia).
    destruct (part_moved fh1 (S k) G posG (0 + flen b2) Hparts1 Hpt) as (Hparts2 & Hk2 & Et2 & Er2).
    rewrite ok_bind. exists (flen b1 + flen b2). eexists. rewrite flen_app. pose proof (start_S _ _ _ HF) as HSk. pose proof (start_total _ _ _ HG) as HtG.
    split; [|split; [|split_and!; lia]].
    + rewrite <- (flen_app b1 b2), (bytes_at_prefix_of _ _ _ (drop (Z.to_nat (size - flen b1)) G ++ concat (drop (S (S k)) Fs))); [done|].
      rewrite (drop_concat Fs k F p HF Hr), (drop_S _ _ _ HG). simpl. fold pos.
      assert (drop (Z.to_nat pos) F = b1) as -> by (symmetry; apply bytes_at_all; lia).
      rewrite <- app_assoc. f_equal. rewrite app_assoc. f_equal. unfold b2, bytes_at. simpl. by rewrite drop_0, take_drop.
    + split_and!; [done|done|cbn [fs_read_pos set_read_pos] in *; rewrite flen_app; lia|cbn [fs_total_size set_read_pos] in *; lia|done|]. exists (S k), G.
      split; [split_and!; [done|lia..]|]. cbn [fs_parts set_read_pos]. rewrite Hk2. do 2 f_equal. lia.
  - rewrite ok_bind. exists (flen b1). eexists. split; [|split].
    + rewrite (bytes_at_prefix_of _ _ b1 (drop (Z.to_nat size) (drop (Z.to_nat pos) F) ++ concat (drop (S k) Fs))); [done|].
      rewrite (drop_concat Fs k F p HF Hr). fold pos. rewrite app_assoc. f_equal. unfold b1, bytes_at. by rewrite take_drop.
    + split_and!; [done|done|cbn [fs_read_pos set_read_pos] in *; lia|cbn [fs_total_size set_read_pos] in *; lia|done|]. exists k, F. pose proof (flen_nonneg b1).
      split; [split_and!; [done|lia..]|]. cbn [fs_parts set_read_pos]. rewrite Hk1. do 2 f_equal. lia.
    + pose proof (start_total _ _ _ HF). split_and!; [apply flen_nonneg|lia|lia|]. intros H0 Hp0.
      destruct (decide (flen b1 = 0)) as [E0|E0]; [|pose proof (flen_nonneg b1); lia].
      apply andb_false_iff in Ec as [Ec%Z.ltb_ge|Ec%bool_decide_eq_false]; [lia|].
      assert (flen (concat Fs) = start Fs k + flen F); [|lia]. rewrite <- (start_S _ _ _ HF). unfold start.
      rewrite take_ge; [done|]. lia.
Qed.

Lemma split_seek fh p t : at_split fh Fs p -> 0 <= t <= flen (concat Fs) ->
  exists k F fh', in_part Fs t k F /\ fs_seek fh t SEEK_SET = Ok (t - start Fs k, fh') /\ at_split fh' Fs t.
Proof.
  intros (Hlen & Hpos & Ep & Etot & Hparts & _) Ht. destruct (in_part_exists Fs t) as (k & F & Hin); [intros E; rewrite E in Hlen; simpl in Hlen; lia|done|].
  pose proof Hin as (HF & Hr & _). exists k, F. unfold fs_seek. pose proof (Forall2_length _ _ _ Hparts) as Hpl. rewrite decide_False by lia. cbn [Z.eqb SEEK_SET].
  rewrite (piece_num_ok (set_read_pos fh t) t k F), ok_bind by done.
  destruct (Forall2_lookup_r _ _ _ _ _ Hparts HF) as (pt & Hpt & pos & ->). unfold get_part. cbn [fs_parts set_read_pos]. rewrite Hpt, ok_bind.
  assert (foldr (fun pt n => pt_size pt + n) 0 (take k (fs_parts fh)) = start Fs k) as ->.
  { unfold start. apply parts_sizes in Hparts. clear -Hparts. revert k. induction Hparts as [|pt F parts Gs Hp _ IH]; intros [|k]; [done..|].
    simpl. by rewrite IH, flen_app, Hp. }
  unfold sys_lseek. cbn [pt_fd part_of fd_pos fd_data]. change (seek_target pos (flen F) (t - start Fs k) SEEK_SET) with (Some (t - start Fs k)).
  cbn iota. rewrite (proj2 (Z.ltb_ge (t - start Fs k) 0)) by lia. eexists. split; [done|]. split; [done|].
  destruct (part_moved (set_read_pos fh t) k F pos (t - start Fs k) Hparts Hpt) as (H1 & H2 & H3 & H4).
  split_and!; [done|done|done|done|done|]. by exists k, F.
Qed.

Lemma split_read_seq sizes : forall fh p, at_split fh Fs p -> Forall (fun n => 0 < n <= read_max) sizes ->
  (length (drop (Z.to_nat p) (concat Fs)) < length sizes)%nat ->
  exists fh', read_seq fh sizes = Ok (drop (Z.to_nat p) (concat Fs), fh').
Proof.
  induction sizes as [|size sizes IH]; intros fh p Hs Hsz Hlen; [simpl in Hlen; lia|].
  apply Forall_cons in Hsz as [Hs1 Hs2]. simpl in Hlen |- *.
  assert (0 <= p) as Hp by (destruct Hs as (_ & _ & _ & _ & _ & k & F & (_ & ? & _) & _); pose proof (start_nonneg Fs k); lia).
  destruct (split_fs_read fh p size size Hs) as (n & fh1 & -> & Hs' & Hn & Hle & Hprog); [lia..|]. rewrite ok_bind.
  pose proof (bytes_at_split (concat Fs) p n Hp) as Esp. rewrite flen_bytes_in in Esp by lia.
  destruct (decide (p < flen (concat Fs))) as [Hlt|Hge].
  - destruct (IH fh1 (p + n) Hs' Hs2) as (fh2 & ->); [rewrite length_drop in *; unfold flen in *; lia|]. exists fh2. by rewrite ok_bind, Esp.
  - assert (n = 0) as -> by lia. destruct sizes as [|s2 sizes].
    + exists fh1. rewrite drop_ge by (unfold flen in *; lia). done.
    + destruct (IH fh1 (p + 0) Hs' Hs2) as (fh2 & ->); [rewrite length_drop in *; simpl; unfold flen in *; lia|]. exists fh2. by rewrite ok_bind, Esp.
Qed.
End split.

Lemma fs_open_split fs url c Fs : fs !! url = None -> get_split_piece_count fs url = Ok c -> (2 <= c)%nat ->
  mapM (fun i => fs !! get_split_piece_name url i) (seq 0 c) = Some Fs -> Forall (fun F => 0 < flen F) Fs ->
  exists fh, fs_open fs url = Ok (Some fh) /\ at_split fh Fs 0.
Proof.
  intros Hu Hc Hc2 HFs Hpos. unfold fs_open. rewrite Hu, Hc, ok_bind, decide_False, HFs by lia. eexists. split; [done|].
  assert (length Fs = c) as Hl by (by rewrite <- (length_mapM _ _ _ HFs), length_seq).
  split_and!; [lia|done|done|done| |].
  - cbn [fs_parts]. apply Forall2_fmap_l, Forall_Forall2_diag, Forall_true. intros F. by exists 0.
  - destruct Fs as [|F Fs]; [simpl in Hl; lia|]. exists 0%nat, F. split; [|done]. split; [done|]. rewrite start_0. pose proof (flen_nonneg F). split; lia.
Qed.

(** * Properties *)

(** C20: a file stored in parts is opened as one: from any position that is sought,
    reads of any sizes give the rest of the parts, put together.  A seek into the
    first part answers with the position, as lseek(2) does; of the answer of
    other seeks nothing is said. *)
Theorem split_file_reads fs url c Fs t sizes : fs !! url = None -> get_split_piece_count fs url = Ok c -> (2 <= c)%nat ->
  mapM (fun i => fs !! get_split_piece_name url i) (seq 0 c) = Some Fs -> Forall (fun F => 0 < flen F) Fs ->
  0 <= t <= flen (concat Fs) -> Forall (fun n => 0 < n <= read_max) sizes -> (length (drop (Z.to_nat t) (concat Fs)) < length sizes)%nat ->
  exists fh r fh1 fh2, fs_open fs url = Ok (Some fh) /\ fs_seek fh t SEEK_SET = Ok (r, fh1) /\
    (t <= flen (concat (take 1 Fs)) -> r = t) /\
    read_seq fh1 sizes = Ok (drop (Z.to_nat t) (concat Fs), fh2).
Proof.
  intros Hu Hc Hc2 HFs Hpos Ht Hsz Hlen. destruct (fs_open_split fs url c Fs Hu Hc Hc2 HFs Hpos) as (fh & Ho & Hs).
  destruct (split_seek Fs fh 0 t Hs Ht) as (k & F & fh1 & Hin & E1 & Hs1).
  destruct (split_read_seq Fs sizes fh1 t Hs1 Hsz Hlen) as (fh2 & E2). exists fh, (t - start Fs k), fh1, fh2. split_and!; [done|done| |done].
  intros Hfirst. rewrite (first_part Fs t k F Hin Hfirst). rewrite start_0. lia.
Qed.

Definition three_parts : files :=
  <[lit "a.001" := [1; 2; 3]]> (<[lit "a.002" := [4; 5]]> (<[lit "a.003" := [6; 7; 8]]> ∅)).

Lemma split_file_reads_witness : exists fh r fh1 fh2, fs_open three_parts (lit "a") = Ok (Some fh) /\
  fs_seek fh 4 SEEK_SET = Ok (r, fh1) /\ (4 <= flen [1; 2; 3] -> r = 4) /\ read_seq fh1 [1; 2; 1; 9; 9] = Ok ([5; 6; 7; 8], fh2).
Proof.
  apply (split_file_reads three_parts (lit "a") 3 [[1; 2; 3]; [4; 5]; [6; 7; 8]] 4 [1; 2; 1; 9; 9]).
  - vm_compute. reflexivity.
  - vm_compute. reflexivity.
  - lia.
  - vm_compute. reflexivity.
  - repeat constructor.
  - vm_compute. split; discriminate.
  - repeat constructor; discriminate.
  - simpl. lia.
Defined.
