(* ===== verification/FileClient.v ===== *)
(** Whole files (src/src/fileaccess/fileaccess.c): [fa_load_and_close] and
    [fa_read_to_htsbuf], the readers that take any layer to its end, proved
    against the interface of FileAccess.v; the queue is the one of Htsbuf.v. *)
From S2P Require Import Prelude Htsbuf FileAccess FileBuffer.

Local Open Scope Z_scope.

Section client.
Context {H : Type} {fap : Fap H}.

(** The loop for a file of unknown size.  [mem] has the bytes read so far;
    [alloc n] tells whether there is memory for [n] bytes.  The answer comes with
    the handle and whether it has been closed. *)
Fixpoint fa_load_loop (alloc : Z -> bool) (fuel : nat) (mem : list Z) (alloced : Z) (fh : H) : res (option (list Z) * bool * H) :=
  match fuel with
  | O => Fault NoFuel
  | S fuel =>
      let alloced := alloced * 2 + 1000 in
      if negb (alloc (alloced + 1)) then Ok (None, true, fh) else
      let max_read := s32 (alloced - flen mem) in
      '(r, fh) ← fa_read fh (alloced + 1 - flen mem) max_read;
      match r with
      | RdErr _ => Ok (None, true, fh)
      | Rd bytes =>
          if flen bytes <? max_read then Ok (Some (mem ++ bytes), false, fh)
          else fa_load_loop alloc fuel (mem ++ bytes) alloced fh
      end
  end.

(** The file is closed but for two cases: a file of unknown size that has been
    read, and no memory for one of known size. *)
Definition fa_load_and_close (alloc : Z -> bool) (fh : H) : res (option (list Z) * bool * H) :=
  '(size, fh) ← fa_fsize fh;
  '(_, fh) ← fa_seek fh 0 SEEK_SET;
  if size =? -1 then fa_load_loop alloc 64 [] 0 fh
  else
    if negb (alloc (size + 1)) then Ok (None, false, fh) else
    '(r, fh) ← fa_read fh (size + 1) size;
    match r with
    | Rd bytes => Ok (if flen bytes =? size then Some bytes else None, true, fh)
    | RdErr _ => Ok (None, true, fh)
    end.

(** A round takes 4096 bytes, of which [maxbytes] is the number still allowed. *)
Definition chunksize : Z := 4096.
Fixpoint fa_htsbuf_loop (fuel : nat) (hq : htsbuf_queue) (maxbytes : Z) (fh : H) : res (Z * htsbuf_queue * H) :=
  match fuel with
  | O => Fault NoFuel
  | S fuel =>
      if maxbytes <=? 0 then Ok (-1, hq, fh) else
      '(r, fh) ← fa_read fh chunksize chunksize;
      match r with
      | RdErr _ => Ok (-1, hq, fh)
      | Rd buf =>
          let hq := if 0 <? flen buf then htsbuf_append_prealloc hq buf else hq in
          if negb (flen buf =? chunksize) then Ok (0, hq, fh)
          else fa_htsbuf_loop fuel hq (maxbytes - flen buf) fh
      end
  end.
Definition fa_read_to_htsbuf (hq : htsbuf_queue) (fh : H) (maxbytes : Z) : res (Z * htsbuf_queue * H) :=
  fa_htsbuf_loop (S (Z.to_nat (maxbytes / chunksize + 1))) hq maxbytes fh.
End client.

(** * Lemmas *)

Section client_ok.
Context {H : Type} {fap : Fap H} {limit : Z} {At : H -> list Z -> Z -> Prop} {Hok : FileOk fap limit At}.

(** [fa_read] of a layer that keeps its promise. *)
Lemma fa_read_ok h F p room size : At h F p -> 0 <= size <= room -> size <= limit ->
  exists h', fa_read h room size = Ok (Rd (bytes_at F p size), h') /\ At h' F (p + flen (bytes_at F p size)).
Proof using Hok.
  intros Hh Hs Hl. unfold fa_read. destruct (Z.eqb_spec size 0) as [->|]; [|by apply at_read].
  exists h. rewrite bytes_at_0. change (flen []) with 0. by rewrite Z.add_0_r.
Qed.

(** The memory doubles: 1000 bytes at first. *)
Lemma fa_load_loop_ok alloc fuel : forall h F p alloced,
  (forall n, alloc n = true) -> At h F p -> p = alloced -> 0 <= alloced ->
  flen F + 1000 < (alloced + 1000) * 2 ^ (Z.of_nat fuel) -> 2 * flen F + 1000 <= Z.min limit int_max ->
  exists h', fa_load_loop alloc fuel (take (Z.to_nat p) F) alloced h = Ok (Some F, false, h').
Proof using Hok.
  induction fuel as [|fuel IH]; intros h F p alloced Hal Hh -> Ha Hf Hl; pose proof (at_pos h F _ Hh) as Hp.
  { change (2 ^ Z.of_nat 0) with 1 in Hf. lia. }
  simpl. rewrite Hal. cbn [negb]. assert (flen (take (Z.to_nat alloced) F) = alloced) as El.
  { unfold flen in *. rewrite length_take. lia. }
  rewrite El. replace (alloced * 2 + 1000 - alloced) with (alloced + 1000) by lia. rewrite s32_small by lia.
  destruct (fa_read_ok h F alloced (alloced * 2 + 1000 + 1 - alloced) (alloced + 1000) Hh) as (h1 & -> & A1); [lia..|].
  rewrite ok_bind. set (bytes := bytes_at F alloced (alloced + 1000)) in *.
  assert (flen bytes = Z.max 0 (Z.min (alloced + 1000) (flen F - alloced))) as Hb by (unfold bytes; apply flen_bytes_at; lia).
  destruct (Z.ltb_spec (flen bytes) (alloced + 1000)) as [Hlt|Hge].
  - exists h1. unfold bytes. rewrite bytes_at_all by lia. by rewrite take_drop.
  - replace (take (Z.to_nat alloced) F ++ bytes) with (take (Z.to_nat (alloced * 2 + 1000)) F).
    + apply IH; [done| |done|lia| |done].
      * replace (alloced * 2 + 1000) with (alloced + flen bytes) by lia. done.
      * rewrite Nat2Z.inj_succ, Z.pow_succ_r in Hf by lia. lia.
    + unfold bytes, bytes_at. rewrite take_take_drop. f_equal. lia.
Qed.

(** The bytes that the rounds for [maxbytes] take. *)
Definition rounds (maxbytes : Z) : Z := if maxbytes <=? 0 then 0 else (maxbytes + 4095) / 4096 * 4096.

Lemma rounds_step m : 0 < m -> rounds m = 4096 + rounds (m - 4096).
Proof.
  intros Hm. unfold rounds. rewrite (proj2 (Z.leb_gt m 0)) by lia. destruct (Z.leb_spec (m - 4096) 0) as [H1|H1].
  - replace (m + 4095) with (m - 1 + 1 * 4096) by lia. rewrite Z.div_add, Z.div_small by lia. lia.
  - replace (m + 4095) with (m - 4096 + 4095 + 1 * 4096) by lia. rewrite Z.div_add by lia. lia.
Qed.

Lemma rounds_nonneg m : 0 <= rounds m.
Proof. unfold rounds. destruct (Z.leb_spec m 0); [lia|]. pose proof (Z.div_pos (m + 4095) 4096). lia. Qed.

Lemma htsbuf_chunk hq b bytes : holds hq b -> Z.of_nat (length b) + flen bytes <= int_max ->
  holds (if 0 <? flen bytes then htsbuf_append_prealloc hq bytes else hq) (b ++ bytes).
Proof.
  intros Hq Hl. destruct (Z.ltb_spec 0 (flen bytes)) as [H1|H1]; [by apply htsbuf_append_prealloc_holds|].
  destruct bytes; [by rewrite app_nil_r|]. unfold flen in H1. simpl in H1. lia.
Qed.

Lemma fa_htsbuf_loop_ok fuel : forall hq b maxbytes h F p, holds hq b -> At h F p -> chunksize <= limit ->
  rounds maxbytes < Z.of_nat fuel * chunksize -> Z.of_nat (length b) + Z.min (rounds maxbytes) (flen F - p) <= int_max ->
  exists hq' h', fa_htsbuf_loop fuel hq maxbytes h = Ok (if flen F - p <? rounds maxbytes then 0 else -1, hq', h') /\
    holds hq' (b ++ bytes_at F p (rounds maxbytes)).
Proof using Hok.
  induction fuel as [|fuel IH]; intros hq b m h F p Hq Hh Hl Hf Hb; pose proof (at_pos h F p Hh) as Hp.
  { pose proof (rounds_nonneg m). unfold chunksize in Hf. lia. }
  simpl. destruct (Z.leb_spec m 0) as [Hm|Hm].
  { exists hq, h. unfold rounds. rewrite (proj2 (Z.leb_le m 0)), (proj2 (Z.ltb_ge (flen F - p) 0)) by lia. by rewrite bytes_at_0, app_nil_r. }
  rewrite rounds_step in Hf, Hb |- * by done. unfold chunksize in *. pose proof (rounds_nonneg (m - 4096)) as Hr.
  destruct (fa_read_ok h F p 4096 4096 Hh) as (h1 & -> & A1); [lia..|]. rewrite ok_bind.
  set (bytes := bytes_at F p 4096) in *.
  assert (flen bytes = Z.max 0 (Z.min 4096 (flen F - p))) as Hlb by (unfold bytes; apply flen_bytes_at; lia).
  assert (holds (if 0 <? flen bytes then htsbuf_append_prealloc hq bytes else hq) (b ++ bytes)) as Hq' by (apply htsbuf_chunk; [done|lia]).
  destruct (Z.eqb_spec (flen bytes) 4096) as [E|E]; cbn [negb].
  - destruct (IH _ (b ++ bytes) (m - flen bytes) h1 F _ Hq' A1) as (hq' & h2 & -> & Hq''); [done|rewrite E; lia| |].
    { rewrite length_app. unfold flen in *. rewrite E. lia. }
    exists hq', h2. rewrite E in *. split.
    + repeat f_equal. destruct (Z.ltb_spec (flen F - (p + 4096)) (rounds (m - 4096))), (Z.ltb_spec (flen F - p) (4096 + rounds (m - 4096))); lia.
    + rewrite <- app_assoc in Hq''. unfold bytes in Hq''. rewrite bytes_at_app in Hq'' by lia. done.
  - eexists _, h1. split; [rewrite (proj2 (Z.ltb_lt (flen F - p) _)) by lia; done|].
    replace (bytes_at F p (4096 + rounds (m - 4096))) with bytes; [done|]. unfold bytes. rewrite !bytes_at_all by lia. done.
Qed.
End client_ok.

(** * Properties *)

(** Loading a file gives all its bytes, whether its size is known or not,
    from wherever the handle is; a file of known size is closed then, and one of
    unknown size is left open. *)
Theorem fa_load_whole {H} {fap : Fap H} {limit At} (Hok : FileOk fap limit At) alloc (h : H) F p :
  (forall n, alloc n = true) -> At h F p -> 2 * flen F + 1000 <= Z.min limit int_max ->
  exists size h1 h2, fa_fsize h = Ok (size, h1) /\ (size = flen F \/ size = -1) /\
    fa_load_and_close alloc h = Ok (Some F, negb (size =? -1), h2).
Proof.
  intros Hal Hh Hl. pose proof (flen_nonneg F). destruct (at_fsize h F p Hh) as (size & h1 & E1 & Hs & A1). unfold fa_load_and_close, fa_fsize, fa_seek.
  destruct (at_seek h1 F p 0 SEEK_SET 0 A1) as (h2 & E2 & A2); [done|lia|]. rewrite E1, ok_bind, E2, ok_bind.
  destruct Hs as [-> | ->].
  - rewrite (proj2 (Z.eqb_neq (flen F) (-1))), Hal by lia. cbn [negb].
    destruct (fa_read_ok h2 F 0 (flen F + 1) (flen F) A2) as (h3 & -> & A3); [lia..|]. rewrite ok_bind.
    rewrite bytes_at_all by lia. change (drop (Z.to_nat 0) F) with F. rewrite Z.eqb_refl. exists (flen F), h1, h3.
    rewrite (proj2 (Z.eqb_neq (flen F) (-1))) by lia. split_and!; [done|by left|done].
  - destruct (fa_load_loop_ok alloc 64 h2 F 0 0 Hal A2) as (h3 & E3); [done|lia| |done|].
    + unfold int_max in Hl. change (2 ^ Z.of_nat 64) with 18446744073709551616. lia.
    + exists (-1), h1, h3. split_and!; [done|by right|exact E3].
Qed.

(** A buffered file over a part of a file of the system. *)
Lemma fa_load_whole_witness :
  let halloc := fun n => Some (replicate (Z.to_nat n) 0) in
  let part := fa_slice_open (FsFh [Part (Fd [1; 2; 3; 4; 5; 6] 0) 0] 0 0) 2 3 in
  exists size h1 h2, fa_fsize (fap := buffer_fap (fap := slice_fap (fap := fs_fap)) halloc) (fa_buffered part false true) = Ok (size, h1) /\
    (size = flen [3; 4; 5] \/ size = -1) /\
    fa_load_and_close (fap := buffer_fap (fap := slice_fap (fap := fs_fap)) halloc) (fun _ => true) (fa_buffered part false true) =
      Ok (Some [3; 4; 5], negb (size =? -1), h2).
Proof.
  apply (fa_load_whole (buffer_ok (fun n => Some (replicate (Z.to_nat n) 0)) (slice_ok (Hok := fs_ok)) zeros_ok)
    (fun _ => true) (fa_buffered (fa_slice_open (FsFh [Part (Fd [1; 2; 3; 4; 5; 6] 0) 0] 0 0) 2 3) false true) [3; 4; 5] 0); [done| |vm_compute; discriminate].
  apply (fa_buffered_at _ _ 0); [|vm_compute; discriminate|vm_compute; done].
  exists [1; 2; 3; 4; 5; 6], 0. split_and!; try done; try (vm_compute; split; discriminate); try (vm_compute; discriminate).
  exists 0. split; [done|]. vm_compute; split; discriminate.
Defined.

(** Reading a file to a queue appends what is left of it, in chunks; the
    answer is 0 when the file ended within the chunks that [maxbytes] allows, and
    -1 when these were used up. *)
Theorem fa_read_to_htsbuf_appends {H} {fap : Fap H} {limit At} (Hok : FileOk fap limit At) hq b (h : H) F p maxbytes :
  holds hq b -> At h F p -> 4096 <= limit -> Z.of_nat (length b) + Z.min (rounds maxbytes) (flen F - p) <= int_max ->
  exists hq' h', fa_read_to_htsbuf hq h maxbytes = Ok (if flen F - p <? rounds maxbytes then 0 else -1, hq', h') /\
    holds hq' (b ++ bytes_at F p (rounds maxbytes)).
Proof.
  intros Hq Hh Hl Hb. apply fa_htsbuf_loop_ok; [done..| |done]. unfold rounds, chunksize. destruct (Z.leb_spec maxbytes 0); [lia|].
  assert (0 <= maxbytes / 4096) by (apply Z.div_pos; lia).
  assert ((maxbytes + 4095) / 4096 <= (maxbytes + 1 * 4096) / 4096) as H2 by (apply Z.div_le_mono; lia).
  rewrite Z.div_add in H2 by lia. lia.
Qed.

Lemma fa_read_to_htsbuf_appends_witness : exists hq' h',
  fa_read_to_htsbuf (htsbuf_queue_init 0) (memfile_make [7; 8; 9] 3) 5 = Ok (0, hq', h') /\ holds hq' [7; 8; 9].
Proof.
  apply (fa_read_to_htsbuf_appends bundle_ok (htsbuf_queue_init 0) [] (memfile_make [7; 8; 9] 3) [7; 8; 9] 0 5).
  - apply htsbuf_init_holds.
  - vm_compute. repeat split; discriminate.
  - vm_compute. discriminate.
  - vm_compute. discriminate.
Defined.
