(* ===== verification/Task.v ===== *)
(** The pool of background threads (src/src/task.c): tasks are queued, and up to
    16 threads take them in turn; at most two of the threads wait for more.

    The sections of code that hold [task_mutex] are the steps of the pool, in any
    order the threads come to them.  A waiting thread that is signalled leaves
    [hts_cond_wait] only when it gets the mutex again, so that it is still counted
    as available; it may wake up without a signal, too. *)
From S2P Require Import Prelude.

Local Open Scope Z_scope.

Definition MAX_TASK_THREADS : Z := 16.
Definition MAX_IDLE_TASK_THREADS : Z := 2.

Section task.
Context {T : Type}.

(** A thread is about to lock the mutex, waits, has been woken up, runs a task, or
    has ended. *)
Inductive tstate := TLock | TWait | TWoken | TRun (t : T) | TGone.

(** [started] has the tasks that were taken from the queue, in that order. *)
Record pool := Pool {
  tasks : list T;
  num_task_threads : Z;
  num_task_threads_avail : Z;
  threads : list tstate;
  started : list T
}.

Definition pool_init : pool := Pool [] 0 0 [] [].

(** One turn of [task_thread] with the mutex locked, to where it is unlocked. *)
Definition task_turn (i : nat) (s : pool) : pool :=
  match tasks s with
  | [] =>
      if num_task_threads_avail s =? MAX_IDLE_TASK_THREADS
      then Pool [] (u32 (num_task_threads s - 1)) (num_task_threads_avail s) (<[i := TGone]> (threads s)) (started s)
      else Pool [] (num_task_threads s) (u32 (num_task_threads_avail s + 1)) (<[i := TWait]> (threads s)) (started s)
  | t :: ts => Pool ts (num_task_threads s) (num_task_threads_avail s) (<[i := TRun t]> (threads s)) (started s ++ [t])
  end.

(** A thread that comes back from [hts_cond_wait]. *)
Definition task_wake (i : nat) (s : pool) : pool :=
  task_turn i (Pool (tasks s) (num_task_threads s) (u32 (num_task_threads_avail s - 1)) (threads s) (started s)).

Definition task_launch_thread (s : pool) : pool :=
  Pool (tasks s) (u32 (num_task_threads s + 1)) (num_task_threads_avail s) (threads s ++ [TLock]) (started s).

(** A signal wakes one thread that waits, [i], if there is one. *)
Definition cond_signal (i : nat) (s : pool) : pool :=
  match threads s !! i with
  | Some TWait => Pool (tasks s) (num_task_threads s) (num_task_threads_avail s) (<[i := TWoken]> (threads s)) (started s)
  | _ => s
  end.
Definition can_signal (i : nat) (s : pool) : Prop := (exists j, threads s !! j = Some TWait) -> threads s !! i = Some TWait.

Definition task_run (t : T) (i : nat) (s : pool) : pool :=
  let s := Pool (tasks s ++ [t]) (num_task_threads s) (num_task_threads_avail s) (threads s) (started s) in
  if 0 <? num_task_threads_avail s then cond_signal i s
  else if num_task_threads s <? MAX_TASK_THREADS then task_launch_thread s
  else s.

(** The steps of the threads, but for wake-ups without a signal. *)
Inductive pool_step (s : pool) : pool -> Prop :=
| step_lock i : threads s !! i = Some TLock -> pool_step s (task_turn i s)
| step_woken i : threads s !! i = Some TWoken -> pool_step s (task_wake i s)
| step_done i t : threads s !! i = Some (TRun t) ->
    pool_step s (Pool (tasks s) (num_task_threads s) (num_task_threads_avail s) (<[i := TLock]> (threads s)) (started s)).

(** What can happen from the start, with the tasks that were asked for. *)
Inductive reach : list T -> pool -> Prop :=
| reach_init : reach [] pool_init
| reach_run ts s t i : reach ts s -> can_signal i s -> reach (ts ++ [t]) (task_run t i s)
| reach_step ts s s' : reach ts s -> pool_step s s' -> reach ts s'
| reach_spurious ts s i : reach ts s -> threads s !! i = Some TWait ->
    reach ts (Pool (tasks s) (num_task_threads s) (num_task_threads_avail s) (<[i := TWoken]> (threads s)) (started s)).

Inductive pool_steps : nat -> pool -> pool -> Prop :=
| steps_0 s : pool_steps 0 s s
| steps_S n s s' s'' : pool_step s s' -> pool_steps n s' s'' -> pool_steps (S n) s s''.

(** * Lemmas *)

(** The sum of a weight of the threads. *)
Definition total (w : tstate -> Z) (l : list tstate) : Z := foldr (fun x n => w x + n) 0 l.

Lemma total_app w a b : total w (a ++ b) = total w a + total w b.
Proof. unfold total. induction a as [|x a IH]; simpl; [lia|]. rewrite IH. lia. Qed.

Lemma total_insert w l i x y : l !! i = Some x -> total w (<[i := y]> l) = total w l - w x + w y.
Proof.
  revert i. induction l as [|z l IH]; intros [|i] H; simplify_eq/=; [lia|]. rewrite (IH _ H). lia.
Qed.

Lemma total_pos w l : (forall x, 0 <= w x) -> 0 <= total w l.
Proof. intros Hw. induction l as [|x l IH]; simpl; [lia|]. specialize (Hw x). lia. Qed.

Lemma total_some w l : (forall x, 0 <= w x) -> 0 < total w l -> exists i x, l !! i = Some x /\ 0 < w x.
Proof.
  intros Hw. induction l as [|x l IH]; simpl; [lia|]. intros H. destruct (decide (0 < w x)) as [Hx|Hx]; [by exists 0%nat, x|].
  destruct IH as (i & y & Hi & Hy); [specialize (Hw x); lia|]. by exists (S i), y.
Qed.

Lemma total_ge w l i x : (forall x, 0 <= w x) -> l !! i = Some x -> w x <= total w l.
Proof.
  intros Hw. revert i. induction l as [|y l IH]; intros [|i] H; simplify_eq/=; pose proof (total_pos w l Hw); [lia|].
  specialize (IH _ H). specialize (Hw y). lia.
Qed.

Definition alive (x : tstate) : Z := match x with TGone => 0 | _ => 1 end.
Definition idle (x : tstate) : Z := match x with TWait | TWoken => 1 | _ => 0 end.
(** A thread that will look at the queue without being signalled. *)
Definition active (x : tstate) : Z := match x with TLock | TWoken | TRun _ => 1 | _ => 0 end.
(** The turns that a thread still has, if there is nothing to do. *)
Definition turns (x : tstate) : Z := match x with TLock | TWoken => 1 | TRun _ => 2 | _ => 0 end.

Record pool_ok (ts : list T) (s : pool) : Prop := {
  po_fifo : ts = started s ++ tasks s;
  po_num : num_task_threads s = total alive (threads s);
  po_avail : num_task_threads_avail s = total idle (threads s);
  po_max : num_task_threads s <= MAX_TASK_THREADS;
  po_idle : num_task_threads_avail s <= MAX_IDLE_TASK_THREADS;
  po_active : tasks s <> [] -> 0 < total active (threads s)
}.

Definition measure (s : pool) : Z := 2 * Z.of_nat (length (tasks s)) + total turns (threads s).

Lemma alive_nonneg (x : tstate) : 0 <= alive x.
Proof. by destruct x. Qed.
Lemma idle_nonneg (x : tstate) : 0 <= idle x.
Proof. by destruct x. Qed.
Lemma active_nonneg (x : tstate) : 0 <= active x.
Proof. by destruct x. Qed.
Lemma turns_nonneg (x : tstate) : 0 <= turns x.
Proof. by destruct x. Qed.
#[local] Hint Resolve alive_nonneg idle_nonneg active_nonneg turns_nonneg : core.

Lemma total_le w v l : (forall x : tstate, w x <= v x) -> total w l <= total v l.
Proof. intros Hw. induction l as [|x l IH]; simpl; [lia|]. specialize (Hw x). lia. Qed.

(** A turn of a thread that has the mutex: it is alive, and not counted as
    available any more. *)
Lemma task_turn_ok ts s i x : threads s !! i = Some x -> alive x = 1 -> 0 < turns x < 2 ->
  ts = started s ++ tasks s -> num_task_threads s = total alive (threads s) -> num_task_threads_avail s = total idle (threads s) - idle x ->
  num_task_threads s <= MAX_TASK_THREADS -> num_task_threads_avail s <= MAX_IDLE_TASK_THREADS ->
  pool_ok ts (task_turn i s) /\ measure (task_turn i s) < measure s.
Proof.
  intros Hi Ha Ht Hf Hn Hv Hmax Hidle. unfold MAX_TASK_THREADS, MAX_IDLE_TASK_THREADS in *.
  pose proof (total_ge alive _ _ _ alive_nonneg Hi) as Ga. pose proof (total_ge idle _ _ _ idle_nonneg Hi) as Gi.
  unfold task_turn. destruct (tasks s) as [|t rest] eqn:Et; [case_match eqn:Em|].
  - apply Z.eqb_eq in Em. unfold MAX_IDLE_TASK_THREADS in Em. rewrite u32_id by lia. split.
    + split; simpl; rewrite ?(total_insert _ _ _ _ _ Hi); simpl; unfold MAX_TASK_THREADS, MAX_IDLE_TASK_THREADS; try lia; [by rewrite app_nil_r in *|done].
    + unfold measure. simpl. rewrite (total_insert _ _ _ _ _ Hi), Et. simpl. lia.
  - apply Z.eqb_neq in Em. unfold MAX_IDLE_TASK_THREADS in Em. rewrite u32_id by lia. split.
    + split; simpl; rewrite ?(total_insert _ _ _ _ _ Hi); simpl; unfold MAX_TASK_THREADS, MAX_IDLE_TASK_THREADS; try lia; [by rewrite app_nil_r in *|done].
    + unfold measure. simpl. rewrite (total_insert _ _ _ _ _ Hi), Et. simpl. lia.
  - split.
    + split; simpl; rewrite ?(total_insert _ _ _ _ _ Hi); simpl; unfold MAX_TASK_THREADS, MAX_IDLE_TASK_THREADS; try lia; [by rewrite <- app_assoc|].
      intros _. pose proof (total_ge active _ _ _ active_nonneg Hi). lia.
    + unfold measure. simpl. rewrite (total_insert _ _ _ _ _ Hi), Et. cbn [turns length]. lia.
Qed.

Lemma pool_step_ok ts s s' : pool_ok ts s -> pool_step s s' -> pool_ok ts s' /\ measure s' < measure s.
Proof.
  intros [Hf Hn Hv Hmax Hidle Hact] [i Hi|i Hi|i t Hi].
  - apply (task_turn_ok ts s i TLock); simpl; try done; lia.
  - pose proof (total_ge idle _ _ _ idle_nonneg Hi) as Gi. simpl in Gi. unfold MAX_IDLE_TASK_THREADS in *. unfold task_wake. rewrite u32_id by lia.
    eapply (task_turn_ok ts (Pool _ _ _ _ _) i TWoken); simpl; try done; unfold MAX_IDLE_TASK_THREADS; lia.
  - split; [split; simpl; rewrite ?(total_insert _ _ _ _ _ Hi); simpl; try done; try lia|].
    + intros H. specialize (Hact H). lia.
    + unfold measure. simpl. rewrite (total_insert _ _ _ _ _ Hi). simpl. lia.
Qed.

Lemma cond_signal_ok s i : can_signal i s -> 0 < total idle (threads s) -> num_task_threads_avail s = total idle (threads s) ->
  total alive (threads (cond_signal i s)) = total alive (threads s) /\ total idle (threads (cond_signal i s)) = total idle (threads s) /\
  0 < total active (threads (cond_signal i s)).
Proof.
  intros Hc Hpos Hv. destruct (total_some idle _ idle_nonneg Hpos) as (j & x & Hj & Hx). unfold cond_signal.
  destruct (threads s !! i) as [y|] eqn:Hi; [destruct y|].
  2: { simpl. rewrite !(total_insert _ _ _ _ _ Hi). simpl. pose proof (total_ge active _ _ _ active_nonneg Hi). simpl in *.
       pose proof (total_pos active (threads s) active_nonneg). lia. }
  all: assert (x <> TWait) by (intros ->; rewrite Hc in Hi; [done|by exists j]); destruct x; simpl in Hx; try lia; try done;
    pose proof (total_ge active _ _ _ active_nonneg Hj) as G; simpl in G; split_and!; done || lia.
Qed.

Lemma task_run_ok ts s t i : pool_ok ts s -> can_signal i s -> pool_ok (ts ++ [t]) (task_run t i s).
Proof.
  intros [Hf Hn Hv Hmax Hidle Hact] Hc. unfold task_run. set (s1 := Pool (tasks s ++ [t]) _ _ _ _).
  assert (ts ++ [t] = started s1 ++ tasks s1) as Hf1 by (simpl; rewrite Hf; by rewrite app_assoc).
  destruct (Z.ltb_spec 0 (num_task_threads_avail s1)) as [H1|H1]; simpl in H1.
  - destruct (cond_signal_ok s1 i) as (E1 & E2 & E3); [done|simpl; lia|done|]. simpl in E1, E2.
    assert (tasks (cond_signal i s1) = tasks s1 /\ started (cond_signal i s1) = started s1 /\ num_task_threads (cond_signal i s1) = num_task_threads s /\
      num_task_threads_avail (cond_signal i s1) = num_task_threads_avail s) as (F1 & F2 & F3 & F4).
    { unfold cond_signal. by destruct (threads s1 !! i) as [[]|]. }
    split; rewrite ?F1, ?F2, ?F3, ?F4; [done|by rewrite E1|by rewrite E2|done|done|done].
  - destruct (Z.ltb_spec (num_task_threads s1) MAX_TASK_THREADS) as [H2|H2]; simpl in H2.
    + unfold task_launch_thread. pose proof (total_pos alive (threads s) alive_nonneg). unfold MAX_TASK_THREADS in *.
      rewrite u32_id by (simpl; lia). split; simpl; rewrite ?total_app; simpl; unfold MAX_TASK_THREADS; try done; try lia.
      intros _. pose proof (total_pos active (threads s) active_nonneg). lia.
    + split; simpl; try done. intros _. unfold MAX_TASK_THREADS in *.
      assert (total alive (threads s) <= total active (threads s) + total idle (threads s)); [|lia].
      clear. induction (threads s) as [|x l IH]; simpl; [lia|]. destruct x; simpl; lia.
Qed.

Lemma pool_reach_ok ts s : reach ts s -> pool_ok ts s.
Proof.
  induction 1 as [|ts s t i Hr IH Hc|ts s s' Hr IH Hs|ts s i Hr IH Hi].
  - split; simpl; unfold MAX_TASK_THREADS, MAX_IDLE_TASK_THREADS; try done; lia.
  - by apply task_run_ok.
  - by destruct (pool_step_ok ts s s' IH Hs).
  - destruct IH as [Hf Hn Hv Hmax Hidle Hact]. split; simpl; rewrite ?(total_insert _ _ _ _ _ Hi); simpl; try done; try lia.
    intros H. specialize (Hact H). lia.
Qed.

Lemma pool_steps_ok n s s' : pool_steps n s s' -> forall ts, pool_ok ts s -> pool_ok ts s' /\ measure s' + Z.of_nat n <= measure s.
Proof.
  induction 1 as [s|n s s' s'' H1 H2 IH]; intros ts Hs; [split; [done|lia]|].
  destruct (pool_step_ok ts s s' Hs H1) as [Hs' Hm]. destruct (IH ts Hs') as [Hs'' Hm']. split; [done|lia].
Qed.

(** Where no thread can take a step, all has been done. *)
Lemma quiet_pool ts s : pool_ok ts s -> (forall s', ~ pool_step s s') ->
  tasks s = [] /\ Forall (fun x => x = TWait \/ x = TGone) (threads s).
Proof.
  intros [Hf Hn Hv Hmax Hidle Hact] Hq.
  assert (Forall (fun x => x = TWait \/ x = TGone) (threads s)) as Hth.
  { apply Forall_lookup. intros i [] Hi; [|by left| | |by right]; exfalso; eapply Hq; [by eapply step_lock|by eapply step_woken|by eapply step_done]. }
  split; [|done]. destruct (tasks s) eqn:E; [done|]. assert (0 < total active (threads s)) as H by (apply Hact; done).
  apply total_some in H as (i & x & Hi & Hx); [|done]. rewrite Forall_lookup in Hth. destruct (Hth i x Hi) as [-> | ->]; simpl in Hx; lia.
Qed.
End task.
Arguments tstate T : clear implicits.
Arguments pool T : clear implicits.

(** * Properties *)

(** C13: in every interleaving, tasks are taken in the order they were asked for,
    each once; the counters are those of the threads that are there and of those
    that wait, at most 16 and 2; and while a task is queued, some thread will look
    at the queue without being signalled again. *)
Theorem task_pool_safe {T} (ts : list T) (s : pool T) : reach ts s ->
  ts = started s ++ tasks s /\
  num_task_threads s = total alive (threads s) /\ num_task_threads s <= 16 /\
  num_task_threads_avail s = total idle (threads s) /\ num_task_threads_avail s <= 2 /\
  (tasks s <> [] -> exists i x, threads s !! i = Some x /\ (x = TLock \/ x = TWoken \/ exists t, x = TRun t)).
Proof.
  intros Hr. destruct (pool_reach_ok ts s Hr) as [Hf Hn Hv Hmax Hidle Hact]. split_and!; try done.
  intros H. destruct (total_some active (threads s) active_nonneg (Hact H)) as (i & x & Hi & Hx).
  exists i, x. split; [done|]. destruct x; simpl in Hx; try lia; eauto.
Qed.

Lemma task_pool_safe_witness : let s := task_run 8 0 (task_run 7 0 pool_init) in
  [7; 8] = started s ++ tasks s /\
  num_task_threads s = total alive (threads s) /\ num_task_threads s <= 16 /\
  num_task_threads_avail s = total idle (threads s) /\ num_task_threads_avail s <= 2 /\
  (tasks s <> [] -> exists i x, threads s !! i = Some x /\ (x = TLock \/ x = TWoken \/ exists t, x = TRun t)).
Proof.
  apply (task_pool_safe [7; 8]). apply (reach_run [7]); [apply (reach_run []); [apply reach_init|]|].
  - intros [j Hj]. destruct j; discriminate.
  - intros [j Hj]. destruct j as [|[|j]]; discriminate.
Defined.

(** C14: once no more tasks are asked for, the threads come to rest: there are
    only so many steps they can take, in any order, and when no thread can take
    another one every task has been taken, no thread is running one, and those
    that are left wait. *)
Theorem task_pool_finishes {T} (ts : list T) (s : pool T) : reach ts s ->
  exists bound, forall n s', pool_steps n s s' -> (n <= bound)%nat /\
    ((forall s'', ~ pool_step s' s'') -> started s' = ts /\ tasks s' = [] /\ Forall (fun x => x = TWait \/ x = TGone) (threads s')).
Proof.
  intros Hr. pose proof (pool_reach_ok ts s Hr) as Hs. exists (Z.to_nat (measure s)). intros n s' Hn.
  destruct (pool_steps_ok n s s' Hn ts Hs) as [Hs' Hm]. split.
  - assert (0 <= measure s') by (unfold measure; pose proof (total_pos turns (threads s') turns_nonneg); lia). lia.
  - intros Hq. destruct (quiet_pool ts s' Hs' Hq) as [Ht Hth]. split_and!; [|done|done].
    rewrite (po_fifo _ _ Hs'), Ht. by rewrite app_nil_r.
Qed.

Lemma task_pool_finishes_witness : exists bound, forall n s', pool_steps n (task_run 7 0 pool_init) s' -> (n <= bound)%nat /\
  ((forall s'', ~ pool_step s' s'') -> started s' = [7] /\ tasks s' = [] /\ Forall (fun x => x = TWait \/ x = TGone) (threads s')).
Proof.
  apply (task_pool_finishes [7]). apply (reach_run []); [apply reach_init|]. intros [j Hj]. destruct j; discriminate.
Defined.
