(* ===== verification/BlobStore.v ===== *)
(** The index of the blob cache (src/src/blobcache_file.c): the items of the cache
    in a hash table, and the file they are kept in between two runs.

    Integers are stored in the order of the machine, which is little endian here.
    The digest of the file is SHA-1, computed by a library. *)
From S2P Require Import Prelude.

Local Open Scope Z_scope.

(** * State *)

Record blobcache_item := BI {
  bi_etag : option (list Z);
  bi_key_hash : Z;
  bi_content_hash : Z;
  bi_lastaccess : Z;
  bi_expiry : Z;
  bi_modtime : Z;
  bi_size : Z;
  bi_content_type_len : Z;
  bi_flags : Z
}.

#[export] Instance blobcache_item_eq_dec : EqDecision blobcache_item.
Proof. solve_decision. Defined.

Definition ITEM_HASH_SIZE : nat := 256.
Definition ITEM_HASH_MASK : Z := 255.
Definition bucket (h : Z) : nat := Z.to_nat (Z.land h ITEM_HASH_MASK).

Notation hashtable := (list (list blobcache_item)).
Definition hash_empty : hashtable := replicate ITEM_HASH_SIZE [].
Definition hash_bucket (hv : hashtable) (h : Z) : list blobcache_item := default [] (hv !! bucket h).

(** An item is put first in its list. *)
Definition hash_add (p : blobcache_item) (hv : hashtable) : hashtable := alter (cons p) (bucket (bi_key_hash p)) hv.

(** The first item of a list with that key. *)
Definition item_with (dk : Z) (l : list blobcache_item) : option blobcache_item := List.find (fun p => bi_key_hash p =? dk) l.
Definition lookup_item (hv : hashtable) (dk : Z) : option blobcache_item := item_with dk (hash_bucket hv dk).

(** * Integers in memory *)

Fixpoint le_bytes (n : nat) (z : Z) : list Z :=
  match n with O => [] | S n => u8 z :: le_bytes n (z / 256) end.
Fixpoint le_value (b : list Z) : Z :=
  match b with [] => 0 | x :: b => x + 256 * le_value b end.

(** The bytes at a pointer, and what is behind them. *)
Definition get_bytes (n : nat) (in_ : list Z) : res (list Z * list Z) :=
  if decide (n <= length in_)%nat then Ok (take n in_, drop n in_) else Fault OobRead.
Definition get_le (n : nat) (in_ : list Z) : res (Z * list Z) :=
  '(b, in_) ← get_bytes n in_; Ok (le_value b, in_).

Definition BC2_MAGIC_07 : Z := 1650655751.
Definition BC2_MAGIC_06 : Z := 1650655750.
Definition BC2_MAGIC_05 : Z := 1650655749.

(** * Writing *)

Definition etag_bytes (p : blobcache_item) : list Z := default [] (bi_etag p).

(** [blobcache_diskitem_07], which is packed. *)
Definition diskitem_07 (p : blobcache_item) : list Z :=
  le_bytes 8 (bi_key_hash p) ++ le_bytes 8 (bi_content_hash p) ++ le_bytes 4 (bi_lastaccess p) ++ le_bytes 4 (bi_expiry p) ++
  le_bytes 4 (bi_modtime p) ++ le_bytes 4 (bi_size p) ++ le_bytes 1 (bi_flags p) ++ le_bytes 1 (Z.of_nat (length (etag_bytes p))) ++
  le_bytes 1 (bi_content_type_len p) ++ etag_bytes p.

Definition index_body (hv : hashtable) (now : Z) : list Z :=
  le_bytes 4 BC2_MAGIC_07 ++ le_bytes 4 (Z.of_nat (length (concat hv))) ++ le_bytes 4 now ++ concat (map diskitem_07 (concat hv)).

Section sha.
Variable sha1 : list Z -> list Z.

Definition index_bytes (hv : hashtable) (now : Z) : list Z := index_body hv now ++ sha1 (index_body hv now).

(** * Reading *)

Definition load_diskitem (magic : Z) (in_ : list Z) : res (blobcache_item * list Z) :=
  '(key, in_) ← get_le 8 in_;
  '(content, in_) ← get_le 8 in_;
  '(lastaccess, in_) ← get_le 4 in_;
  '(expiry, in_) ← get_le 4 in_;
  '(modtime, in_) ← get_le 4 in_;
  '(size, in_) ← get_le 4 in_;
  '(flags, in_) ← (if magic =? BC2_MAGIC_07 then get_le 1 in_ else Ok (0, in_));
  '(etaglen, in_) ← get_le 1 in_;
  '(content_type_len, in_) ← get_le 1 in_;
  '(etag, in_) ←
    (if etaglen =? 0 then Ok (None, in_)
     else '(b, in_) ← get_bytes (Z.to_nat etaglen) in_; etag ← cstr_at (b ++ [0]); Ok (Some etag, in_));
  Ok (BI etag key content lastaccess expiry modtime size content_type_len flags, in_).

Fixpoint load_items (n : nat) (magic : Z) (in_ : list Z) (hv : hashtable) (size : Z) : res (hashtable * Z) :=
  match n with
  | O => Ok (hv, size)
  | S n =>
      '(p, in_) ← load_diskitem magic in_;
      load_items n magic in_ (hash_add p hv) (u64 (size + bi_size p))
  end.

(** The table and the size of the cache, with the items of an index file added. *)
Definition load_index (file : list Z) (hv : hashtable) (size : Z) : res (hashtable * Z) :=
  if decide (length file < 20)%nat then Ok (hv, size) else
  let body := take (length file - 20) file in
  if bool_decide (sha1 body = drop (length file - 20) file) then
    '(magic, in_) ← get_le 4 file;
    '(items, in_) ← get_le 4 in_;
    if (magic =? BC2_MAGIC_06) || (magic =? BC2_MAGIC_07) then
      '(_, in_) ← get_le 4 in_;
      load_items (Z.to_nat (s32 items)) magic in_ hv size
    else if magic =? BC2_MAGIC_05 then load_items (Z.to_nat (s32 items)) magic in_ hv size
    else Ok (hv, size)
  else Ok (hv, size).
End sha.

(** * Lemmas *)

Lemma le_bytes_length n z : length (le_bytes n z) = n.
Proof. revert z. induction n as [|n IH]; intros z; simpl; [done|]. by rewrite IH. Qed.

Lemma le_value_bytes n z : 0 <= z < 256 ^ Z.of_nat n -> le_value (le_bytes n z) = z.
Proof.
  revert z. induction n as [|n IH]; intros z Hz; [change (256 ^ Z.of_nat 0) with 1 in Hz; simpl; lia|].
  rewrite Nat2Z.inj_succ, Z.pow_succ_r in Hz by lia. simpl. rewrite IH.
  - unfold u8. pose proof (Z.div_mod z 256). lia.
  - split; [apply Z.div_pos; lia|apply Z.div_lt_upper_bound; lia].
Qed.

Lemma get_bytes_app b rest n : n = length b -> get_bytes n (b ++ rest) = Ok (b, rest).
Proof.
  intros ->. unfold get_bytes. rewrite decide_True by (rewrite length_app; lia).
  by rewrite take_app_length, drop_app_length.
Qed.

Lemma get_le_app n z rest : 0 <= z < 256 ^ Z.of_nat n -> get_le n (le_bytes n z ++ rest) = Ok (z, rest).
Proof. intros Hz. unfold get_le. rewrite get_bytes_app, ok_bind, le_value_bytes by (done || by rewrite le_bytes_length). done. Qed.

Lemma land_255 h : 0 <= Z.land h 255 < 256.
Proof. change 255 with (Z.ones 8). rewrite Z.land_ones by lia. apply Z.mod_pos_bound. lia. Qed.

Lemma bucket_lt h : (bucket h < ITEM_HASH_SIZE)%nat.
Proof. unfold bucket, ITEM_HASH_MASK, ITEM_HASH_SIZE. pose proof (land_255 h). lia. Qed.

(** The fields fit their widths; the etag is a string of at most 255 bytes. *)
Record item_ok (p : blobcache_item) : Prop := {
  io_key : 0 <= bi_key_hash p < 2 ^ 64;
  io_content : 0 <= bi_content_hash p < 2 ^ 64;
  io_lastaccess : 0 <= bi_lastaccess p < 2 ^ 32;
  io_expiry : 0 <= bi_expiry p < 2 ^ 32;
  io_modtime : 0 <= bi_modtime p < 2 ^ 32;
  io_size : 0 <= bi_size p < 2 ^ 32;
  io_ctlen : 0 <= bi_content_type_len p < 256;
  io_flags : 0 <= bi_flags p < 256;
  io_etag : forall e, bi_etag p = Some e -> cstring_ok e /\ (length e <= 255)%nat
}.

(** An empty etag comes back as none. *)
Definition reread (p : blobcache_item) : blobcache_item :=
  BI (match bi_etag p with Some (x :: e) => Some (x :: e) | _ => None end) (bi_key_hash p) (bi_content_hash p) (bi_lastaccess p) (bi_expiry p)
    (bi_modtime p) (bi_size p) (bi_content_type_len p) (bi_flags p).

Lemma load_diskitem_ok p rest : item_ok p -> load_diskitem BC2_MAGIC_07 (diskitem_07 p ++ rest) = Ok (reread p, rest).
Proof.
  intros [Hk Hc Hl He Hm Hs Ht Hf Hg]. unfold load_diskitem, diskitem_07. rewrite <- !app_assoc.
  assert (length (etag_bytes p) <= 255)%nat as Hlen by (unfold etag_bytes; destruct (bi_etag p) as [e|]; [apply (Hg e eq_refl)|simpl; lia]).
  do 6 (rewrite get_le_app, ok_bind by (simpl Z.of_nat; lia)). change (BC2_MAGIC_07 =? BC2_MAGIC_07) with true. cbn iota.
  do 3 (rewrite get_le_app, ok_bind by (change (256 ^ Z.of_nat 1) with 256; lia)).
  destruct (bi_etag p) as [[|x e]|] eqn:Ee; unfold etag_bytes, reread in *; rewrite Ee in *; [done| |done].
  destruct (Hg _ eq_refl) as [Hce _]. change (default [] (Some (x :: e))) with (x :: e) in *. rewrite (proj2 (Z.eqb_neq _ 0)) by (simpl; lia).
  rewrite get_bytes_app, ok_bind by lia. rewrite cstr_at_app, ok_bind by done. done.
Qed.

Lemma load_items_ok ps : forall rest hv size, Forall item_ok ps ->
  load_items (length ps) BC2_MAGIC_07 (concat (map diskitem_07 ps) ++ rest) hv size =
    Ok (foldl (fun hv p => hash_add (reread p) hv) hv ps, foldl (fun n p => u64 (n + bi_size p)) size ps).
Proof.
  induction ps as [|p ps IH]; intros rest hv size Hps; [done|]. apply Forall_cons in Hps as [Hp Hps].
  cbn [length load_items map concat foldl]. rewrite <- app_assoc, load_diskitem_ok, ok_bind by done. by rewrite IH.
Qed.

(** The lists of a table that was filled item by item. *)
Lemma hash_bucket_add p hv h : length hv = ITEM_HASH_SIZE ->
  hash_bucket (hash_add p hv) h = if decide (bucket (bi_key_hash p) = bucket h) then p :: hash_bucket hv h else hash_bucket hv h.
Proof.
  intros Hl. unfold hash_bucket, hash_add in *. destruct (lookup_lt_is_Some_2 hv (bucket h)) as [l Hlk]; [rewrite Hl; apply bucket_lt|].
  case_decide as E.
  - by rewrite E, list_lookup_alter_eq, Hlk.
  - rewrite list_lookup_alter_ne by done. done.
Qed.

Lemma hash_add_length p hv : length (hash_add p hv) = length hv.
Proof. apply length_alter. Qed.

Lemma hash_fill ps : forall hv h, length hv = ITEM_HASH_SIZE ->
  hash_bucket (foldl (fun hv p => hash_add (reread p) hv) hv ps) h =
    rev (map reread (filter (fun p => bucket (bi_key_hash p) = bucket h) ps)) ++ hash_bucket hv h.
Proof.
  induction ps as [|p ps IH]; intros hv h Hl; [done|]. simpl. rewrite IH by (by rewrite hash_add_length).
  rewrite hash_bucket_add by done. cbn [bi_key_hash reread]. destruct (decide (bucket (bi_key_hash p) = bucket h)) as [E|E].
  - rewrite filter_cons_True by done. simpl. by rewrite <- app_assoc.
  - by rewrite filter_cons_False by done.
Qed.

(** A table whose items are in the list of their hash. *)
Record hash_ok (hv : hashtable) : Prop := {
  ho_len : length hv = ITEM_HASH_SIZE;
  ho_bucket : forall n l p, hv !! n = Some l -> p ∈ l -> bucket (bi_key_hash p) = n
}.

Lemma filter_bucket hv n l : hash_ok hv -> hv !! n = Some l -> filter (fun p => bucket (bi_key_hash p) = n) (concat hv) = l.
Proof.
  intros [_ Hb]. assert (forall m (hv' : hashtable), (forall k l' p, hv' !! k = Some l' -> p ∈ l' -> bucket (bi_key_hash p) = (m + k)%nat) ->
    filter (fun p => bucket (bi_key_hash p) = n) (concat hv') = if decide (m <= n)%nat then default [] (hv' !! (n - m)%nat) else []) as Hgen.
  { intros m hv'. revert m. induction hv' as [|l' hv' IH]; intros m Hm; simpl; [by case_decide|].
    rewrite filter_app, (IH (S m)); [|intros k l2 p Hk Hp; rewrite (Hm (S k) l2 p); [lia|done|done]].
    assert (forall p, p ∈ l' -> bucket (bi_key_hash p) = m) as Hl' by (intros p Hp; rewrite (Hm 0%nat l' p); [lia|done|done]).
    destruct (decide (m = n)) as [->|Hne].
    - rewrite filter_all by (apply Forall_forall; exact Hl'). rewrite decide_False, decide_True, Nat.sub_diag, app_nil_r by lia. done.
    - rewrite filter_none by (apply Forall_forall; intros p Hp; by rewrite Hl'). simpl. repeat case_decide; try done; try lia.
      replace (n - m)%nat with (S (n - S m)) by lia. done. }
  intros Hl. rewrite (Hgen 0%nat hv Hb). rewrite decide_True by lia. by rewrite Nat.sub_0_r, Hl.
Qed.

Lemma hash_bucket_filter hv h : hash_ok hv -> filter (fun p => bucket (bi_key_hash p) = bucket h) (concat hv) = hash_bucket hv h.
Proof.
  intros Hv. destruct (lookup_lt_is_Some_2 hv (bucket h)) as [l Hl]; [rewrite (ho_len _ Hv); apply bucket_lt|].
  rewrite (filter_bucket hv _ l) by done. unfold hash_bucket in *. by rewrite Hl.
Qed.

Lemma hash_bucket_empty h : hash_bucket hash_empty h = [].
Proof. unfold hash_bucket, hash_empty. rewrite lookup_replicate_2; [done|apply bucket_lt]. Qed.

Lemma item_with_app dk a b : item_with dk (a ++ b) = match item_with dk a with Some p => Some p | None => item_with dk b end.
Proof. induction a as [|p a IH]; [done|]. simpl. by destruct (bi_key_hash p =? dk). Qed.

Lemma item_with_None dk l : item_with dk l = None <-> dk ∉ map bi_key_hash l.
Proof.
  induction l as [|p l IH]; simpl; [split; [intros _; apply not_elem_of_nil|done]|]. rewrite not_elem_of_cons.
  destruct (Z.eqb_spec (bi_key_hash p) dk) as [E|E]; [split; [done|intros [? _]; congruence]|]. rewrite IH. split; [intros ?; by split|by intros [_ ?]].
Qed.

Lemma item_with_Some dk l p : item_with dk l = Some p -> p ∈ l /\ bi_key_hash p = dk.
Proof. intros H. apply List.find_some in H as [H1 H2]. split; [by apply list_elem_of_In|lia]. Qed.

(** With every key once, the order of a list does not matter. *)
Lemma item_with_rev dk l : NoDup (map bi_key_hash l) -> item_with dk (rev (map reread l)) = reread <$> item_with dk l.
Proof.
  induction l as [|p l IH]; intros Hn; [done|]. simpl in Hn. apply NoDup_cons in Hn as [Hp Hn]. simpl. rewrite item_with_app, IH by done.
  simpl. destruct (Z.eqb_spec (bi_key_hash p) dk) as [E|E].
  - rewrite (proj2 (item_with_None dk l)); [done|by rewrite <- E].
  - by destruct (item_with dk l).
Qed.

Definition total_size (ps : list blobcache_item) : Z := foldr (fun p n => bi_size p + n) 0 ps.

Lemma total_size_app a b : total_size (a ++ b) = total_size a + total_size b.
Proof. unfold total_size. induction a as [|p a IH]; simpl; [done|]. rewrite IH. lia. Qed.

Lemma sizes_sum ps : forall n, Forall item_ok ps -> 0 <= n -> n + total_size ps < 2 ^ 64 -> foldl (fun n p => u64 (n + bi_size p)) n ps = n + total_size ps.
Proof.
  induction ps as [|p ps IH]; intros n Hps Hn Hs; simpl in *; [lia|]. apply Forall_cons in Hps as [Hp Hps]. pose proof (io_size _ Hp).
  assert (0 <= total_size ps) by (clear -Hps; induction Hps as [|q ps Hq _ IH]; simpl; [lia|]; pose proof (io_size _ Hq); lia).
  unfold u64. rewrite Z.mod_small by lia. rewrite IH by (done || lia). lia.
Qed.

Lemma items_size_bound ps : Forall item_ok ps -> 0 <= total_size ps /\ total_size ps <= Z.of_nat (length ps) * 2 ^ 32.
Proof. induction 1 as [|p ps Hp _ IH]; simpl length; simpl total_size; [lia|]. pose proof (io_size _ Hp). lia. Qed.

Lemma hash_empty_ok : hash_ok hash_empty.
Proof.
  split; [done|]. intros n l p Hl Hp. unfold hash_empty in Hl. apply lookup_replicate in Hl as [-> _]. by apply elem_of_nil in Hp.
Qed.

Lemma hash_add_ok p hv : hash_ok hv -> hash_ok (hash_add p hv).
Proof.
  intros [Hl Hb]. split; [by rewrite hash_add_length|]. intros n l q Hlk Hq. unfold hash_add in *.
  destruct (decide (bucket (bi_key_hash p) = n)) as [<-|Hne]; [|rewrite list_lookup_alter_ne in Hlk by done; by apply (Hb n l)].
  rewrite list_lookup_alter_eq in Hlk. destruct (hv !! bucket (bi_key_hash p)) as [y|] eqn:Hy; simplify_eq/=.
  apply elem_of_cons in Hq as [->|Hq]; [done|]. by apply (Hb _ y).
Qed.

(** * Properties *)

(** C16: the index file that a run writes is read back by the next: under every
    key the item is there with its fields, the etag a string again and an empty
    one none, and the size of the cache is the sum of those of its items. *)
Theorem index_roundtrip (sha1 : list Z -> list Z) hv now :
  (forall b, length (sha1 b) = 20%nat) -> hash_ok hv -> Forall item_ok (concat hv) -> NoDup (map bi_key_hash (concat hv)) ->
  Z.of_nat (length (concat hv)) <= int_max ->
  exists hv', load_index sha1 (index_bytes sha1 hv now) hash_empty 0 = Ok (hv', total_size (concat hv)) /\
    (forall h, hash_bucket hv' h = rev (map reread (hash_bucket hv h))) /\ (forall dk, lookup_item hv' dk = reread <$> lookup_item hv dk).
Proof.
  intros Hsha Hv Hok Hnd Hcount. unfold load_index, index_bytes. set (body := index_body hv now).
  assert (length (body ++ sha1 body) = length body + 20)%nat as El by (rewrite length_app, Hsha; lia). rewrite El.
  rewrite decide_False by lia. replace (length body + 20 - 20)%nat with (length body) by lia. rewrite take_app_length, drop_app_length.
  rewrite bool_decide_eq_true_2 by done. unfold body at 1, index_body. rewrite <- !app_assoc. unfold int_max in Hcount.
  rewrite get_le_app, ok_bind by (simpl; unfold BC2_MAGIC_07; lia). rewrite get_le_app, ok_bind by (simpl Z.of_nat at 3; lia).
  change ((BC2_MAGIC_07 =? BC2_MAGIC_06) || (BC2_MAGIC_07 =? BC2_MAGIC_07)) with true. cbn iota.
  unfold get_le at 1. rewrite get_bytes_app by (by rewrite le_bytes_length). rewrite ok_bind, ok_bind.
  rewrite s32_id by (unfold int_min, int_max; lia). rewrite Nat2Z.id, load_items_ok by done.
  pose proof (items_size_bound (concat hv) Hok) as [Hb1 Hb2].
  rewrite sizes_sum by (done || lia). eexists. split; [done|].
  assert (forall h, hash_bucket (foldl (fun hv p => hash_add (reread p) hv) hash_empty (concat hv)) h = rev (map reread (hash_bucket hv h))) as Hbk.
  { intros h. rewrite hash_fill by done. by rewrite hash_bucket_filter, hash_bucket_empty, app_nil_r. }
  split; [done|]. intros dk. unfold lookup_item. rewrite Hbk. apply item_with_rev. rewrite <- hash_bucket_filter by done.
  eapply sublist_NoDup; [exact Hnd|]. apply (fmap_sublist bi_key_hash), sublist_filter.
Qed.

Lemma index_roundtrip_witness : exists hv',
  load_index (fun _ => replicate 20 7) (index_bytes (fun _ => replicate 20 7)
    (hash_add (BI (Some [65; 66]) 513 99 5 6 7 8 0 1) (hash_add (BI None 1 98 5 6 7 4 0 0) hash_empty)) 1000) hash_empty 0 =
    Ok (hv', total_size (concat (hash_add (BI (Some [65; 66]) 513 99 5 6 7 8 0 1) (hash_add (BI None 1 98 5 6 7 4 0 0) hash_empty)))) /\
  (forall h, hash_bucket hv' h = rev (map reread (hash_bucket (hash_add (BI (Some [65; 66]) 513 99 5 6 7 8 0 1) (hash_add (BI None 1 98 5 6 7 4 0 0) hash_empty)) h))) /\
  (forall dk, lookup_item hv' dk = reread <$> lookup_item (hash_add (BI (Some [65; 66]) 513 99 5 6 7 8 0 1) (hash_add (BI None 1 98 5 6 7 4 0 0) hash_empty)) dk).
Proof.
  apply (index_roundtrip (fun _ => replicate 20 7)).
  - reflexivity.
  - apply hash_add_ok, hash_add_ok, hash_empty_ok.
  - assert (concat (hash_add (BI (Some [65; 66]) 513 99 5 6 7 8 0 1) (hash_add (BI None 1 98 5 6 7 4 0 0) hash_empty)) =
      [BI (Some [65; 66]) 513 99 5 6 7 8 0 1; BI None 1 98 5 6 7 4 0 0]) as -> by (vm_compute; reflexivity).
    apply Forall_cons; split; [|apply Forall_singleton]; (split; simpl; try lia; intros e He; simplify_eq; (split; [|simpl; lia])); apply Forall_cons_2; [lia|apply Forall_cons_2; [lia|apply Forall_nil_2]].
  - vm_compute. repeat constructor; rewrite ?elem_of_cons, ?elem_of_nil; naive_solver.
  - vm_compute. discriminate.
Defined.
