(* ===== verification/BlobCache.v ===== *)
(** The blob cache (src/src/blobcache_file.c): what the player has fetched is kept
    on disk under the hash of its key, by a thread of its own.  A call holds
    [cache_lock] and is a step; the thread gives the lock up while it writes a
    file, so that calls come in between.

    A file of the cache is named after the hash of its key; [files] has them by
    hash.  [blobcache_get] opens a file with the lock, and reads it without: what
    it does with the lock is a step ([blobcache_get_locked]), and any steps come
    before it reads ([blobcache_get_read]). *)
From S2P Require Import Prelude BlobStore.

Local Open Scope Z_scope.

(** * State *)

Record buf_t := Buf { b_data : list Z; b_content_type : option (list Z) }.
Definition b_size (b : buf_t) : Z := Z.of_nat (length (b_data b)).

Inductive bcstate_t := BLOBCACHE_RUN_BAD_CLOCK | BLOBCACHE_RUN | BLOBCACHE_STOPPING.
#[export] Instance bcstate_eq_dec : EqDecision bcstate_t.
Proof. solve_decision. Defined.

(** [flush_queue] has the key hashes and the buffers that are to be written. *)
Record cache := Cache {
  hashvector : hashtable;
  flush_queue : list (Z * buf_t);
  bcstate : bcstate_t;
  index_dirty : bool;
  current_cache_size : Z;
  files : gmap Z (list Z);
  index_dat : list Z
}.

Definition BLOBCACHE_IMPORTANT_ITEM : Z := 1.
Definition INT32_MAX : Z := 2147483647.

Definition with_hash (hv : hashtable) (s : cache) : cache :=
  Cache hv (flush_queue s) (bcstate s) (index_dirty s) (current_cache_size s) (files s) (index_dat s).
Definition with_queue (q : list (Z * buf_t)) (s : cache) : cache :=
  Cache (hashvector s) q (bcstate s) (index_dirty s) (current_cache_size s) (files s) (index_dat s).
Definition with_state (st : bcstate_t) (s : cache) : cache :=
  Cache (hashvector s) (flush_queue s) st (index_dirty s) (current_cache_size s) (files s) (index_dat s).
Definition with_dirty (d : bool) (s : cache) : cache :=
  Cache (hashvector s) (flush_queue s) (bcstate s) d (current_cache_size s) (files s) (index_dat s).
Definition with_size (n : Z) (s : cache) : cache :=
  Cache (hashvector s) (flush_queue s) (bcstate s) (index_dirty s) n (files s) (index_dat s).
Definition with_files (fs : gmap Z (list Z)) (s : cache) : cache :=
  Cache (hashvector s) (flush_queue s) (bcstate s) (index_dirty s) (current_cache_size s) fs (index_dat s).
Definition with_index (f : list Z) (s : cache) : cache :=
  Cache (hashvector s) (flush_queue s) (bcstate s) (index_dirty s) (current_cache_size s) (files s) f.

(** The first item of a list with a key, changed or taken out. *)
Fixpoint update_item (dk : Z) (f : blobcache_item -> blobcache_item) (l : list blobcache_item) : list blobcache_item :=
  match l with
  | [] => []
  | p :: l => if bi_key_hash p =? dk then f p :: l else p :: update_item dk f l
  end.
Fixpoint unlink_item (dk : Z) (l : list blobcache_item) : list blobcache_item :=
  match l with
  | [] => []
  | p :: l => if bi_key_hash p =? dk then l else p :: unlink_item dk l
  end.
Definition hash_update (dk : Z) (f : blobcache_item -> blobcache_item) (hv : hashtable) : hashtable := alter (update_item dk f) (bucket dk) hv.
Definition hash_unlink (dk : Z) (hv : hashtable) : hashtable := alter (unlink_item dk) (bucket dk) hv.

Section cache.
Variable sha1 md5 : list Z -> list Z.
(** [qsort] with the order of [accesstimecmp]. *)
Variable qsort : (blobcache_item -> blobcache_item -> Z) -> list blobcache_item -> list blobcache_item.

(** The first eight bytes of a digest, as a number. *)
Definition digest_key (key stash : list Z) : Z := le_value (take 8 (sha1 (key ++ stash))).
Definition digest_content (data : list Z) : Z := le_value (take 8 (md5 data)).

(** * Calls *)

Definition content_type_len (b : buf_t) : Z :=
  match b_content_type b with Some ct => Z.of_nat (length ct) | None => 0 end.

Definition blobcache_put (key stash : list Z) (b : buf_t) (maxage : Z) (etag : option (list Z)) (mtime flags now : Z) (s : cache) : Z * cache :=
  let dk := digest_key key stash in
  let dc := digest_content (b_data b) in
  let etag := match etag with Some e => if Z.of_nat (length e) <=? 255 then Some e else None | None => None end in
  if negb (bool_decide (bcstate s = BLOBCACHE_RUN)) then (0, s) else
  let found := lookup_item (hashvector s) dk in
  let s := with_dirty true s in
  match found with
  | Some p =>
      if (bi_content_hash p =? dc) && (bi_size p =? b_size b) then
        (1, with_hash (hash_update dk (fun p => BI etag (bi_key_hash p) (bi_content_hash p) now (u32 (now + maxage)) (u32 mtime) (bi_size p)
               (bi_content_type_len p) (u8 flags)) (hashvector s)) s)
      else
        let item := BI etag dk dc now (u32 (Z.min INT32_MAX (maxage + now))) (u32 mtime) (u32 (b_size b)) (u8 (content_type_len b)) (u8 flags) in
        (0, with_size (u64 (u64 (current_cache_size s - bi_size p) + u32 (b_size b)))
              (with_hash (hash_update dk (fun _ => item) (hashvector s)) (with_queue (flush_queue s ++ [(dk, b)]) s)))
  | None =>
      let item := BI etag dk dc now (u32 (Z.min INT32_MAX (maxage + now))) (u32 mtime) (u32 (b_size b)) (u8 (content_type_len b)) (u8 flags) in
      (0, with_size (u64 (u64 (current_cache_size s - 0) + u32 (b_size b)))
            (with_hash (hash_add item (hashvector s)) (with_queue (flush_queue s ++ [(dk, b)]) s)))
  end.

(** The last buffer of the queue for a key. *)
Definition queued (dk : Z) (q : list (Z * buf_t)) : option buf_t :=
  snd <$> List.find (fun bf => bf.1 =? dk) (rev q).

(** What [blobcache_get] answers: the buffer, the etag, the modification time and
    whether it has expired. *)
Record blob_answer := BlobAnswer { an_buf : buf_t; an_etag : option (list Z); an_mtime : Z; an_expired : bool }.

(** Reading the file of an item, with room for [pad] zeros behind it. *)
Definition read_blob (p : blobcache_item) (f : list Z) (pad : nat) : option buf_t :=
  let ctl := Z.to_nat (bi_content_type_len p) in
  let size := Z.to_nat (bi_size p) in
  if decide (ctl + size <= length f)%nat then
    Some (Buf (take size (drop ctl f) ++ replicate pad 0) (if decide (ctl = 0)%nat then None else Some (take ctl f)))
  else None.

(** What [blobcache_get] has when it gives the lock up: nothing, a buffer of the
    queue, or the file it has opened, with what it tells of the item. *)
Inductive locked_get :=
| GetMissed
| GetQueued (an : blob_answer)
| GetOpened (etag : option (list Z)) (mtime : Z) (expired : bool).

Definition blobcache_get_locked (key stash : list Z) (ignore_expiry : bool) (now : Z) (s : cache) : locked_get * cache :=
  let dk := digest_key key stash in
  let found := if decide (bcstate s = BLOBCACHE_STOPPING) then None else lookup_item (hashvector s) dk in
  match found with
  | None => (GetMissed, s)
  | Some p =>
      let bad := with_hash (hash_unlink dk (hashvector s)) s in
      let expired := bool_decide (bcstate s = BLOBCACHE_RUN) && (bi_expiry p <? now) in
      if expired && negb ignore_expiry then (GetMissed, bad) else
      let found_s :=
        with_dirty true (with_hash (if decide (bcstate s = BLOBCACHE_RUN)
          then hash_update dk (fun p => BI (bi_etag p) (bi_key_hash p) (bi_content_hash p) now (bi_expiry p) (bi_modtime p) (bi_size p)
                 (bi_content_type_len p) (bi_flags p)) (hashvector s)
          else hashvector s) s) in
      match queued dk (flush_queue s) with
      | Some b => (GetQueued (BlobAnswer b (bi_etag p) (bi_modtime p) expired), found_s)
      | None =>
          match files s !! dk with
          | None => (GetMissed, bad)
          | Some f =>
              if negb (Z.of_nat (length f) =? u32 (bi_size p + bi_content_type_len p)) then (GetMissed, with_files (delete dk (files s)) bad)
              else (GetOpened (bi_etag p) (bi_modtime p) expired, found_s)
          end
      end
  end.

(** The rest, without the lock: the file is read by what the item says by then.
    The item may have been given back, and the file replaced; what the code has
    in its hands then is not modelled. *)
Definition blobcache_get_read (dk : Z) (pad : nat) (s : cache) : option buf_t :=
  match lookup_item (hashvector s) dk, files s !! dk with
  | Some p, Some f => read_blob p f pad
  | _, _ => None
  end.

(** The whole call, when no step comes in between. *)
Definition blobcache_get (key stash : list Z) (pad : nat) (ignore_expiry : bool) (now : Z) (s : cache) : option blob_answer * cache :=
  let '(l, s) := blobcache_get_locked key stash ignore_expiry now s in
  (match l with
   | GetMissed => None
   | GetQueued an => Some an
   | GetOpened etag mtime expired => (fun b => BlobAnswer b etag mtime expired) <$> blobcache_get_read (digest_key key stash) pad s
   end, s).

(** The etag and the modification time. *)
Definition blobcache_get_meta (key stash : list Z) (s : cache) : option (option (list Z) * Z) :=
  if decide (bcstate s = BLOBCACHE_STOPPING) then None
  else (fun p => (bi_etag p, bi_modtime p)) <$> lookup_item (hashvector s) (digest_key key stash).

(** * Saving and pruning *)

(** What becomes of a write to the index file. *)
Inductive index_io := IndexClosed | IndexWritten | IndexPart (n : nat).

Definition save_index (io : index_io) (now : Z) (s : cache) : cache :=
  if index_dirty s then
    let out := index_bytes sha1 (hashvector s) now in
    match io with
    | IndexClosed => s
    | IndexWritten => with_dirty false (with_index out s)
    | IndexPart n => with_index (take n out) s
    end
  else s.

Definition accesstimecmp (a b : blobcache_item) : Z :=
  let imp p := if Z.land (bi_flags p) BLOBCACHE_IMPORTANT_ITEM =? 0 then 0 else 1 in
  if negb (imp a =? imp b) then imp a - imp b else s32 (bi_lastaccess a - bi_lastaccess b).

Definition prune_item (p : blobcache_item) (s : cache) : cache := with_files (delete (bi_key_hash p) (files s)) s.

(** The first loop over the sorted items: what is left of them. *)
Fixpoint prune_loop (maxsize : Z) (sv : list blobcache_item) (s : cache) : list blobcache_item * cache :=
  match sv with
  | [] => ([], s)
  | p :: rest =>
      if current_cache_size s <? maxsize then (sv, s)
      else prune_loop maxsize rest (with_dirty true (prune_item p (with_size (u64 (current_cache_size s - bi_size p)) s)))
  end.

Definition prune_to_size (maxsize : Z) (io : index_io) (now : Z) (s : cache) : cache :=
  let sv := concat (hashvector s) in
  let size := foldl (fun n p => u64 (n + bi_size p)) 0 sv in
  let '(kept, s) := prune_loop maxsize (qsort accesstimecmp sv) (with_size size (with_hash hash_empty s)) in
  save_index io now (with_hash (foldl (fun hv p => hash_add p hv) (hashvector s) kept) s).

(** The files of keys that the cache does not know are removed. *)
Definition prune_stale (s : cache) : cache :=
  with_files (filter (fun kf => is_Some (lookup_item (hashvector s) kf.1)) (files s)) s.

(** Starting with what a run before has left. *)
Definition blobcache_init (maxsize : Z) (io : index_io) (now : Z) (fs : gmap Z (list Z)) (dat : list Z) : res cache :=
  '(hv, size) ← load_index sha1 dat hash_empty 0;
  Ok (prune_to_size maxsize io now (prune_stale (Cache hv [] BLOBCACHE_RUN_BAD_CLOCK false size fs dat))).

Definition cache_clear (io : index_io) (now : Z) (s : cache) : cache :=
  let ps := concat (hashvector s) in
  let s := foldl (fun s p => with_dirty true (prune_item p s)) s ps in
  save_index io now (with_size 0 (with_hash hash_empty s)).

(** * The flushing thread *)

Definition blob_file (b : buf_t) : list Z := default [] (b_content_type b) ++ b_data b.

(** A file is written, or removed because that failed; when it cannot be opened
    nothing is written. *)
Inductive flush_io := FlushOk | FlushFailed | FlushClosed.
Definition flush_write (io : flush_io) (bf : Z * buf_t) (s : cache) : cache :=
  match io with
  | FlushOk => with_files (<[bf.1 := blob_file bf.2]> (files s)) s
  | FlushFailed => with_files (delete bf.1 (files s)) s
  | FlushClosed => s
  end.

(** With the lock again: the entry leaves the queue, and the cache is pruned if it
    has got too big. *)
Definition flush_done (maxsize : Z) (io : index_io) (now : Z) (s : cache) : cache :=
  let s := with_queue (tail (flush_queue s)) s in
  if maxsize <? current_cache_size s then prune_to_size maxsize io now s else s.

(** * The program

    The thread is idle, or has the first entry of the queue in hand: it is about
    to write the file, or has written it. *)
Inductive flusher := FlushIdle | FlushWriting (bf : Z * buf_t) | FlushWritten (bf : Z * buf_t).
Record sys := Sys { sys_cache : cache; sys_flush : flusher }.

(** What can happen: [last] has, by key, the hash and the size of what was put
    last.  While a file is written there is any part of it.  A file that is there
    can be opened for writing. *)
Inductive step : gmap Z (Z * Z) -> sys -> gmap Z (Z * Z) -> sys -> Prop :=
| step_clock last s fl : bcstate s = BLOBCACHE_RUN_BAD_CLOCK -> step last (Sys s fl) last (Sys (with_state BLOBCACHE_RUN s) fl)
| step_stop last s fl : step last (Sys s fl) last (Sys (with_state BLOBCACHE_STOPPING s) fl)
| step_put last s fl key stash b maxage etag mtime flags now : b_size b < 4294967040 ->
    step last (Sys s fl)
      (if decide (bcstate s = BLOBCACHE_RUN) then <[digest_key key stash := (digest_content (b_data b), b_size b)]> last else last)
      (Sys (blobcache_put key stash b maxage etag mtime flags now s).2 fl)
| step_get last s fl key stash ignore now :
    step last (Sys s fl) last (Sys (blobcache_get_locked key stash ignore now s).2 fl)
| step_clear last s fl io now : step last (Sys s fl) last (Sys (cache_clear io now s) fl)
| step_save last s fl io now : step last (Sys s fl) last (Sys (save_index io now s) fl)
| step_begin last s bf q : flush_queue s = bf :: q -> step last (Sys s FlushIdle) last (Sys s (FlushWriting bf))
| step_part last s bf n : step last (Sys s (FlushWriting bf)) last
      (Sys (with_files (<[bf.1 := take n (blob_file bf.2)]> (files s)) s) (FlushWriting bf))
| step_write last s bf io : (io = FlushClosed -> files s !! bf.1 = None) ->
    step last (Sys s (FlushWriting bf)) last (Sys (flush_write io bf s) (FlushWritten bf))
| step_done last s bf maxsize io now :
    step last (Sys s (FlushWritten bf)) last (Sys (flush_done maxsize io now s) FlushIdle).

Inductive reach : gmap Z (Z * Z) -> sys -> Prop :=
| reach_start fs dat : reach ∅ (Sys (Cache hash_empty [] BLOBCACHE_RUN_BAD_CLOCK false 0 fs dat) FlushIdle)
| reach_step last x last' x' : reach last x -> step last x last' x' -> reach last' x'.

(** The content that an item stands for. *)
Definition blob_at (dk : Z) (s : cache) : option (Z * Z * Z) :=
  (fun p => (bi_content_hash p, bi_size p, bi_content_type_len p)) <$> lookup_item (hashvector s) dk.

(** Steps that leave a file and the content of its item alone. *)
Inductive undisturbed (dk : Z) (last : gmap Z (Z * Z)) (x : sys) : gmap Z (Z * Z) -> sys -> Prop :=
| undisturbed_refl : undisturbed dk last x last x
| undisturbed_step last1 x1 last2 x2 : undisturbed dk last x last1 x1 -> step last1 x1 last2 x2 ->
    files (sys_cache x2) !! dk = files (sys_cache x1) !! dk -> blob_at dk (sys_cache x2) = blob_at dk (sys_cache x1) ->
    (forall bf, sys_flush x2 = FlushWriting bf -> bf.1 <> dk) -> undisturbed dk last x last2 x2.

End cache.

(** * The table *)

Definition table_ok (hv : hashtable) : Prop := hash_ok hv /\ NoDup (map bi_key_hash (concat hv)).

Lemma hash_bucket_lookup hv h : hash_ok hv -> hv !! bucket h = Some (hash_bucket hv h).
Proof.
  intros [Hl _]. unfold hash_bucket in *. destruct (lookup_lt_is_Some_2 hv (bucket h)) as [l E]; [rewrite Hl; apply bucket_lt|].
  by rewrite E.
Qed.

Lemma hash_bucket_alter f dk hv h : hash_ok hv ->
  hash_bucket (alter f (bucket dk) hv) h = if decide (bucket dk = bucket h) then f (hash_bucket hv h) else hash_bucket hv h.
Proof.
  intros Hv. pose proof (hash_bucket_lookup hv h Hv) as Hl. unfold hash_bucket in *. case_decide as E.
  - by rewrite E, list_lookup_alter_eq, Hl.
  - by rewrite list_lookup_alter_ne.
Qed.

(** The items before, in and behind a list of the table. *)
Lemma concat_alter f dk hv : hash_ok hv -> exists A B,
  concat hv = A ++ hash_bucket hv dk ++ B /\ concat (alter f (bucket dk) hv) = A ++ f (hash_bucket hv dk) ++ B.
Proof.
  intros Hv. pose proof (hash_bucket_lookup hv dk Hv) as Hl.
  exists (concat (take (bucket dk) hv)), (concat (drop (S (bucket dk)) hv)). split.
  - rewrite <- (take_drop_middle _ _ _ Hl) at 1. by rewrite concat_app.
  - rewrite (alter_is_insert f hv _ _ Hl), insert_take_drop by (by apply lookup_lt_Some in Hl). by rewrite concat_app.
Qed.

Lemma hash_alter_ok f dk hv : hash_ok hv -> (forall p, p ∈ f (hash_bucket hv dk) -> bucket (bi_key_hash p) = bucket dk) ->
  hash_ok (alter f (bucket dk) hv).
Proof.
  intros Hv Hf. pose proof (hash_bucket_lookup hv dk Hv) as Hb. destruct Hv as [Hl Ho]. split; [by rewrite length_alter|].
  intros n l p Hn Hp. destruct (decide (n = bucket dk)) as [->|Hne].
  - rewrite list_lookup_alter_eq, Hb in Hn. simplify_eq/=. by apply Hf.
  - rewrite list_lookup_alter_ne in Hn by done. by apply (Ho n l).
Qed.

Lemma hash_bucket_in hv h p : hash_ok hv -> p ∈ hash_bucket hv h -> bucket (bi_key_hash p) = bucket h.
Proof. intros Hv Hp. eapply (ho_bucket _ Hv); [by apply hash_bucket_lookup|done]. Qed.

(** Under its key an item is found. *)
Lemma lookup_item_iff hv dk p : table_ok hv -> lookup_item hv dk = Some p <-> p ∈ concat hv /\ bi_key_hash p = dk.
Proof.
  intros [Hv Hn]. unfold lookup_item. rewrite <- (hash_bucket_filter hv dk Hv). split.
  - intros H. apply item_with_Some in H as [H1 H2]. apply list_elem_of_filter in H1 as [_ H1]. done.
  - intros [Hp <-]. assert (p ∈ filter (fun q => bucket (bi_key_hash q) = bucket (bi_key_hash p)) (concat hv)) as Hin by (by apply list_elem_of_filter).
    assert (NoDup (map bi_key_hash (filter (fun q => bucket (bi_key_hash q) = bucket (bi_key_hash p)) (concat hv)))) as Hnd.
    { eapply sublist_NoDup; [exact Hn|]. apply (fmap_sublist bi_key_hash), sublist_filter. }
    revert Hin Hnd. generalize (filter (fun q => bucket (bi_key_hash q) = bucket (bi_key_hash p)) (concat hv)) as l. clear. intros l.
    induction l as [|q l IH]; intros Hin Hnd; [by apply elem_of_nil in Hin|]. simpl in Hnd |- *. apply NoDup_cons in Hnd as [Hq Hnd].
    apply elem_of_cons in Hin as [->|Hin]; [by rewrite Z.eqb_refl|].
    rewrite (proj2 (Z.eqb_neq (bi_key_hash q) (bi_key_hash p))); [by apply IH|]. intros E. apply Hq. rewrite E. by apply (list_elem_of_fmap_2 bi_key_hash).
Qed.

Lemma lookup_item_None hv dk : table_ok hv -> lookup_item hv dk = None -> dk ∉ map bi_key_hash (concat hv).
Proof.
  intros Hv Hn Hin. apply list_elem_of_fmap in Hin as (p & -> & Hp).
  rewrite (proj2 (lookup_item_iff hv (bi_key_hash p) p Hv)) in Hn; done.
Qed.

Lemma table_empty : table_ok hash_empty.
Proof. split; [apply hash_empty_ok|]. vm_compute. constructor. Qed.

Lemma table_add p hv : table_ok hv -> lookup_item hv (bi_key_hash p) = None ->
  table_ok (hash_add p hv) /\ forall dk, lookup_item (hash_add p hv) dk = if decide (bi_key_hash p = dk) then Some p else lookup_item hv dk.
Proof.
  intros Hv Hp. pose proof Hv as [Hok Hn]. split; [split; [by apply hash_add_ok|]|].
  - destruct (concat_alter (cons p) (bi_key_hash p) hv Hok) as (A & B & E1 & E2). unfold hash_add. rewrite E2.
    apply lookup_item_None in Hp; [|done]. rewrite E1 in Hp, Hn.
    assert (map bi_key_hash (A ++ (p :: hash_bucket hv (bi_key_hash p)) ++ B) ≡ₚ bi_key_hash p :: map bi_key_hash (A ++ hash_bucket hv (bi_key_hash p) ++ B)) as ->.
    { rewrite !map_app. simpl. symmetry. apply Permutation_middle. }
    by apply NoDup_cons.
  - intros dk. unfold lookup_item. rewrite hash_bucket_add by apply Hok. destruct (decide (bucket (bi_key_hash p) = bucket dk)) as [E|E].
    + simpl. case_decide as E2; [by rewrite (proj2 (Z.eqb_eq _ _) E2)|]. by rewrite (proj2 (Z.eqb_neq _ _) E2).
    + rewrite decide_False; [done|]. by intros <-.
Qed.

Lemma update_item_keys dk f l : (forall p, bi_key_hash (f p) = bi_key_hash p \/ bi_key_hash (f p) = dk) -> map bi_key_hash (update_item dk f l) = map bi_key_hash l.
Proof.
  intros Hf. induction l as [|p l IH]; [done|]. simpl. destruct (Z.eqb_spec (bi_key_hash p) dk) as [E|E]; simpl; [|by rewrite IH].
  f_equal. destruct (Hf p) as [H|H]; congruence.
Qed.

Lemma update_item_with dk f l h : (forall p, bi_key_hash (f p) = bi_key_hash p \/ bi_key_hash (f p) = dk) ->
  item_with h (update_item dk f l) = if decide (h = dk) then f <$> item_with h l else item_with h l.
Proof.
  intros Hf. induction l as [|p l IH]; simpl; [by case_decide|]. destruct (Z.eqb_spec (bi_key_hash p) dk) as [E|E]; simpl.
  - assert (bi_key_hash (f p) = dk) as -> by (destruct (Hf p); congruence). rewrite E. case_decide as Eh; [subst; by rewrite Z.eqb_refl|].
    by rewrite (proj2 (Z.eqb_neq dk h)) by done.
  - rewrite IH. case_decide as Eh; [subst; by rewrite (proj2 (Z.eqb_neq _ _) E)|done].
Qed.

Lemma table_update dk f hv : table_ok hv -> (forall p, bi_key_hash (f p) = bi_key_hash p \/ bi_key_hash (f p) = dk) ->
  table_ok (hash_update dk f hv) /\ forall h, lookup_item (hash_update dk f hv) h = if decide (h = dk) then f <$> lookup_item hv h else lookup_item hv h.
Proof.
  intros Hv Hf. pose proof Hv as [Hok Hn]. split; [split|].
  - apply hash_alter_ok; [done|]. intros p Hp. apply (list_elem_of_fmap_2 bi_key_hash) in Hp.
    change (fmap bi_key_hash) with (map bi_key_hash) in Hp. rewrite update_item_keys in Hp by done.
    apply list_elem_of_fmap in Hp as (q & -> & Hq). by apply (hash_bucket_in hv dk).
  - destruct (concat_alter (update_item dk f) dk hv Hok) as (A & B & E1 & E2). unfold hash_update. rewrite E2. rewrite E1 in Hn.
    by rewrite !map_app, update_item_keys, <- !map_app.
  - intros h. unfold lookup_item, hash_update. rewrite hash_bucket_alter by done. case_decide as E; [by apply update_item_with|].
    rewrite decide_False; [done|]. by intros ->.
Qed.

Lemma unlink_item_sublist dk l : unlink_item dk l `sublist_of` l.
Proof. induction l as [|p l IH]; simpl; [done|]. destruct (bi_key_hash p =? dk); [by apply sublist_cons|by apply sublist_skip]. Qed.

Lemma table_unlink dk hv : table_ok hv ->
  table_ok (hash_unlink dk hv) /\ forall h, lookup_item (hash_unlink dk hv) h = if decide (h = dk) then None else lookup_item hv h.
Proof.
  intros Hv. pose proof Hv as [Hok Hn]. split; [split|].
  - apply hash_alter_ok; [done|]. intros p Hp. apply (hash_bucket_in hv dk); [done|]. eapply elem_of_sublist; [exact Hp|apply unlink_item_sublist].
  - destruct (concat_alter (unlink_item dk) dk hv Hok) as (A & B & E1 & E2). unfold hash_unlink. rewrite E2. rewrite E1 in Hn.
    eapply sublist_NoDup; [exact Hn|]. apply (fmap_sublist bi_key_hash). repeat apply sublist_app; try done. apply unlink_item_sublist.
  - intros h. unfold lookup_item, hash_unlink. rewrite hash_bucket_alter by done.
    assert (NoDup (map bi_key_hash (hash_bucket hv h))) as Hnb.
    { rewrite <- hash_bucket_filter by done. eapply sublist_NoDup; [exact Hn|]. apply (fmap_sublist bi_key_hash), sublist_filter. }
    case_decide as E; [|rewrite decide_False; [done|]; by intros ->].
    revert Hnb. generalize (hash_bucket hv h) as l. clear. induction l as [|p l IH]; intros Hnb; simpl; [by case_decide|].
    simpl in Hnb. apply NoDup_cons in Hnb as [Hp Hnb]. destruct (Z.eqb_spec (bi_key_hash p) dk) as [Ek|Ek]; simpl.
    + case_decide as Eh; [|by rewrite (proj2 (Z.eqb_neq _ h)) by congruence]. apply item_with_None. by rewrite Eh, <- Ek.
    + rewrite IH by done. case_decide as Eh; [by rewrite Eh, (proj2 (Z.eqb_neq _ _) Ek)|done].
Qed.

(** A table filled with items of different keys. *)
Lemma table_fill kept : forall hv, table_ok hv -> NoDup (map bi_key_hash kept) -> (forall p, p ∈ kept -> lookup_item hv (bi_key_hash p) = None) ->
  table_ok (foldl (fun hv p => hash_add p hv) hv kept) /\
  forall dk p, lookup_item (foldl (fun hv p => hash_add p hv) hv kept) dk = Some p <-> lookup_item hv dk = Some p \/ p ∈ kept /\ bi_key_hash p = dk.
Proof.
  induction kept as [|q kept IH]; intros hv Hv Hn Hk; simpl.
  - split; [done|]. intros dk p. rewrite elem_of_nil. naive_solver.
  - simpl in Hn. apply NoDup_cons in Hn as [Hq Hn].
    assert (lookup_item hv (bi_key_hash q) = None) as Hq0 by (apply Hk, list_elem_of_here).
    destruct (table_add q hv Hv Hq0) as [Hv1 Hl1]. destruct (IH (hash_add q hv) Hv1 Hn) as [Hv2 Hl2].
    { intros p Hp. rewrite Hl1. case_decide as E; [|apply Hk; by apply list_elem_of_further]. exfalso. apply Hq. rewrite E. by apply (list_elem_of_fmap_2 bi_key_hash). }
    split; [done|]. intros dk p. rewrite Hl2, Hl1, elem_of_cons. case_decide as E; [|naive_solver].
    split; [intros [[= ->]|[? ?]]; [by right; split; [left|]|by right; split; [right|]]|].
    intros [Hx|[[->|Hp] <-]]; [congruence|by left|]. right. by split.
Qed.

(** * Coherence *)

Section coherence.
Context {sha1 md5 : list Z -> list Z} {qsort : (blobcache_item -> blobcache_item -> Z) -> list blobcache_item -> list blobcache_item}.
Context (Hsort : forall cmp l, qsort cmp l ≡ₚ l).

(** The item of a buffer. *)
Definition stored (p : blobcache_item) (b : buf_t) : Prop :=
  bi_content_hash p = digest_content md5 (b_data b) /\ bi_size p = b_size b /\ b_size b < 4294967040 /\ bi_content_type_len p = u8 (content_type_len b).

Definition same_blob (p p' : blobcache_item) : Prop :=
  bi_content_hash p' = bi_content_hash p /\ bi_size p' = bi_size p /\ bi_content_type_len p' = bi_content_type_len p.

(** What is kept of an item is in the queue, or in its file if that is there. *)
Record cache_ok (last : gmap Z (Z * Z)) (s : cache) : Prop := {
  ck_table : table_ok (hashvector s);
  ck_last dk p : lookup_item (hashvector s) dk = Some p -> last !! dk = Some (bi_content_hash p, bi_size p);
  ck_stored dk p : lookup_item (hashvector s) dk = Some p ->
    match queued dk (flush_queue s) with
    | Some b => stored p b
    | None => forall f, files s !! dk = Some f -> exists b, stored p b /\ f = blob_file b
    end
}.

Definition flusher_ok (s : cache) (fl : flusher) : Prop :=
  match fl with
  | FlushIdle => True
  | FlushWriting bf => head (flush_queue s) = Some bf
  | FlushWritten bf => head (flush_queue s) = Some bf /\ forall f, files s !! bf.1 = Some f -> f = blob_file bf.2
  end.

Lemma queued_app dk q k b : queued dk (q ++ [(k, b)]) = if k =? dk then Some b else queued dk q.
Proof. unfold queued. rewrite rev_app_distr. simpl. by destruct (k =? dk). Qed.

Lemma find_app {A} (f : A -> bool) a b : List.find f (a ++ b) = match List.find f a with Some x => Some x | None => List.find f b end.
Proof. induction a as [|x a IH]; simpl; [done|]. by destruct (f x). Qed.

Lemma queued_cons dk bf q : queued dk (bf :: q) = match queued dk q with Some b => Some b | None => if bf.1 =? dk then Some bf.2 else None end.
Proof. unfold queued. simpl. rewrite find_app. destruct (List.find _ (rev q)); simpl; [done|]. by destruct (bf.1 =? dk). Qed.

(** Items that go, or change in what does not matter, and files that go. *)
Lemma cache_less last s s' fl : cache_ok last s -> flusher_ok s fl -> table_ok (hashvector s') -> flush_queue s' = flush_queue s ->
  (forall dk f, files s' !! dk = Some f -> files s !! dk = Some f) ->
  (forall dk p', lookup_item (hashvector s') dk = Some p' -> exists p, lookup_item (hashvector s) dk = Some p /\ same_blob p p') ->
  cache_ok last s' /\ flusher_ok s' fl.
Proof.
  intros [Ht Hl Hs] Hfl Ht' Eq Hf Hp. split; [split; [done|..]|].
  - intros dk p' H. destruct (Hp dk p' H) as (p & E & E1 & E2 & _). rewrite E1, E2. by apply Hl.
  - intros dk p' H. destruct (Hp dk p' H) as (p & E & E1 & E2 & E3). specialize (Hs dk p E). rewrite Eq. unfold stored in *. rewrite E1, E2, E3.
    destruct (queued dk (flush_queue s)); [done|]. intros f Hff. apply Hs. by apply Hf.
  - unfold flusher_ok in *. rewrite Eq. destruct fl; [done|done|]. destruct Hfl as [H1 H2]. split; [done|]. intros f Hff. by apply H2, Hf.
Qed.

Lemma same_blob_refl p : same_blob p p.
Proof. done. Qed.

Lemma save_index_same io now s :
  hashvector (save_index sha1 io now s) = hashvector s /\ flush_queue (save_index sha1 io now s) = flush_queue s /\ files (save_index sha1 io now s) = files s /\
  current_cache_size (save_index sha1 io now s) = current_cache_size s.
Proof. unfold save_index. destruct (index_dirty s); [|done]. by destruct io. Qed.

(** The pruning loop takes items from the front, with their files. *)
Lemma prune_loop_spec maxsize sv : forall s kept s', prune_loop maxsize sv s = (kept, s') -> exists pre, sv = pre ++ kept /\
  hashvector s' = hashvector s /\ flush_queue s' = flush_queue s /\ bcstate s' = bcstate s /\
  files s' = foldl (fun fs p => delete (bi_key_hash p) fs) (files s) pre /\
  current_cache_size s' = foldl (fun n p => u64 (n - bi_size p)) (current_cache_size s) pre /\
  (kept = [] \/ current_cache_size s' < maxsize) /\
  (forall a p, pre = a ++ [p] -> maxsize <= foldl (fun n p => u64 (n - bi_size p)) (current_cache_size s) a).
Proof.
  induction sv as [|q sv IH]; intros s kept s' H; simpl in H.
  - simplify_eq. exists []. split_and!; try done; [by left|]. intros [|? ?] ? ?; done.
  - destruct (Z.ltb_spec (current_cache_size s) maxsize) as [Hlt|Hge].
    + simplify_eq. exists []. split_and!; try done; [by right|]. intros [|? ?] ? ?; done.
    + destruct (IH _ _ _ H) as (pre & -> & H1 & H2 & H3 & H4 & H5 & H6 & H7). simpl in *. exists (q :: pre).
      split_and!; try done. intros [|q' a] p E; simplify_eq/=; [lia|]. by apply (H7 a p).
Qed.

Lemma foldl_delete_sub pre : forall (fs : gmap Z (list Z)) dk f, foldl (fun fs p => delete (bi_key_hash p) fs) fs pre !! dk = Some f -> fs !! dk = Some f.
Proof.
  induction pre as [|p pre IH]; intros fs dk f H; simpl in *; [done|]. apply IH in H. by apply lookup_delete_Some in H as [_ H].
Qed.

Lemma prune_table hv : table_ok hv -> forall pre kept, qsort accesstimecmp (concat hv) = pre ++ kept ->
  table_ok (foldl (fun hv p => hash_add p hv) hash_empty kept) /\
  forall dk p, lookup_item (foldl (fun hv p => hash_add p hv) hash_empty kept) dk = Some p <-> p ∈ kept /\ bi_key_hash p = dk.
Proof using Hsort.
  intros [Hok Hn] pre kept Eq. pose proof (Hsort accesstimecmp (concat hv)) as Hperm. rewrite Eq in Hperm.
  destruct (table_fill kept hash_empty) as [H1 H2]; [apply table_empty| | |].
  - rewrite <- Hperm, map_app in Hn. by apply NoDup_app in Hn as (_ & _ & Hn).
  - intros p _. unfold lookup_item. by rewrite hash_bucket_empty.
  - split; [done|]. intros dk p. assert (lookup_item hash_empty dk = None) as E0 by (unfold lookup_item; by rewrite hash_bucket_empty).
    rewrite H2, E0. naive_solver.
Qed.

Lemma prune_ok last s fl maxsize io now : cache_ok last s -> flusher_ok s fl ->
  cache_ok last (prune_to_size sha1 qsort maxsize io now s) /\ flusher_ok (prune_to_size sha1 qsort maxsize io now s) fl.
Proof using Hsort.
  intros Hs Hfl. pose proof (ck_table _ _ Hs) as Ht. unfold prune_to_size.
  destruct (prune_loop maxsize (qsort accesstimecmp (concat (hashvector s))) _) as [kept s'] eqn:E.
  destruct (prune_loop_spec _ _ _ _ _ E) as (pre & Epre & H1 & H2 & H3 & H4 & _). simpl in *.
  destruct (prune_table (hashvector s) Ht pre kept Epre) as [Ht' Hl'].
  set (s2 := with_hash _ s'). destruct (save_index_same io now s2) as (F1 & F2 & F3 & _).
  assert (hashvector s2 = foldl (fun hv p => hash_add p hv) hash_empty kept) as F4 by (simpl; by rewrite H1). rewrite F4 in F1.
  apply (cache_less last s); [done|done|by rewrite F1|by rewrite F2|rewrite F3; simpl; rewrite H4; apply foldl_delete_sub|].
  intros dk p Hp. rewrite F1 in Hp. simpl in Hp. apply Hl' in Hp as [Hk <-]. exists p. split; [|done].
  apply lookup_item_iff; [done|]. split; [|done]. rewrite <- (Hsort accesstimecmp), Epre. apply elem_of_app. by right.
Qed.

Lemma clear_ok last s fl io now : cache_ok last s -> flusher_ok s fl -> cache_ok last (cache_clear sha1 io now s) /\ flusher_ok (cache_clear sha1 io now s) fl.
Proof.
  intros Hs Hfl. unfold cache_clear. set (s1 := foldl _ s _).
  assert (flush_queue s1 = flush_queue s /\ forall dk f, files s1 !! dk = Some f -> files s !! dk = Some f) as [Eq Ef].
  { unfold s1. generalize (concat (hashvector s)) as ps. clear. intros ps. revert s. induction ps as [|p ps IH]; intros s; simpl; [done|].
    destruct (IH (with_dirty true (prune_item p s))) as [H1 H2]. split; [done|]. intros dk f H. apply H2 in H. simpl in H. by apply lookup_delete_Some in H as [_ H]. }
  destruct (save_index_same io now (with_size 0 (with_hash hash_empty s1))) as (F1 & F2 & F3 & _).
  apply (cache_less last s); [done|done|rewrite F1; apply table_empty|by rewrite F2|by rewrite F3|].
  intros dk p Hp. rewrite F1 in Hp. unfold lookup_item in Hp. simpl in Hp. by rewrite hash_bucket_empty in Hp.
Qed.

Lemma get_ok last s fl key stash ignore now : cache_ok last s -> flusher_ok s fl ->
  cache_ok last (blobcache_get_locked sha1 key stash ignore now s).2 /\ flusher_ok (blobcache_get_locked sha1 key stash ignore now s).2 fl.
Proof.
  intros Hs Hfl. pose proof (ck_table _ _ Hs) as Ht. unfold blobcache_get_locked. set (dk := digest_key sha1 key stash).
  assert (cache_ok last s /\ flusher_ok s fl) as Hsame by done.
  destruct (table_unlink dk (hashvector s) Ht) as [Hu1 Hu2].
  assert (forall fs, (forall h f, fs !! h = Some f -> files s !! h = Some f) ->
    cache_ok last (with_files fs (with_hash (hash_unlink dk (hashvector s)) s)) /\ flusher_ok (with_files fs (with_hash (hash_unlink dk (hashvector s)) s)) fl) as Hbad.
  { intros fs Hfs. apply (cache_less last s); [done..|]. intros h p Hp. simpl in Hp. rewrite Hu2 in Hp. case_decide; [done|]. exists p. split; [done|apply same_blob_refl]. }
  set (f := fun p => BI _ _ _ _ _ _ _ _ _). destruct (table_update dk f (hashvector s) Ht) as [Hf1 Hf2]; [intros p; by left|].
  assert (forall hv, hv = (if decide (bcstate s = BLOBCACHE_RUN) then hash_update dk f (hashvector s) else hashvector s) ->
    cache_ok last (with_dirty true (with_hash hv s)) /\ flusher_ok (with_dirty true (with_hash hv s)) fl) as Hfound.
  { intros hv ->. apply (cache_less last s); simpl; [done|done|by case_decide|done|done|]. intros h p Hp. case_decide; [|exists p; split; [done|apply same_blob_refl]].
    rewrite Hf2 in Hp. case_decide; [|exists p; split; [done|apply same_blob_refl]]. apply fmap_Some in Hp as (q & Hq & ->). by exists q. }
  destruct (if decide (bcstate s = BLOBCACHE_STOPPING) then None else lookup_item (hashvector s) dk) as [p|]; [|done].
  destruct (bool_decide (bcstate s = BLOBCACHE_RUN) && (bi_expiry p <? now) && negb ignore); [by apply (Hbad (files s))|].
  destruct (queued dk (flush_queue s)); [by apply Hfound|]. destruct (files s !! dk) as [fl0|]; [|by apply (Hbad (files s))].
  destruct (negb (Z.of_nat (length fl0) =? u32 (bi_size p + bi_content_type_len p))); [|by apply Hfound].
  apply Hbad. intros h g Hg. by apply lookup_delete_Some in Hg as [_ Hg].
Qed.

(** A new buffer under a key. *)
Lemma put_new_ok last s fl dk b hv item n : cache_ok last s -> flusher_ok s fl -> b_size b < 4294967040 ->
  table_ok hv -> (forall h, lookup_item hv h = if decide (h = dk) then Some item else lookup_item (hashvector s) h) -> stored item b ->
  let s' := with_size n (with_hash hv (with_queue (flush_queue s ++ [(dk, b)]) (with_dirty true s))) in
  cache_ok (<[dk := (digest_content md5 (b_data b), b_size b)]> last) s' /\ flusher_ok s' fl.
Proof.
  intros [Ht Hl Hs] Hfl Hb Ht' Hlk Hst. split; [split; [done|..]|].
  - intros h p Hp. simpl in Hp. rewrite Hlk in Hp. case_decide as E; simplify_eq.
    + rewrite lookup_insert_eq. destruct Hst as (-> & -> & _). done.
    + rewrite lookup_insert_ne by done. by apply Hl.
  - intros h p Hp. simpl in Hp |- *. rewrite Hlk in Hp. rewrite queued_app. case_decide as E; simplify_eq.
    + by rewrite Z.eqb_refl.
    + rewrite (proj2 (Z.eqb_neq dk h)) by done. by apply Hs.
  - unfold flusher_ok in *. simpl. destruct fl as [|bf|bf]; [done| |]; destruct (flush_queue s); simpl in *; try done; by destruct Hfl.
Qed.

Lemma put_ok last s fl key stash b maxage etag mtime flags now : cache_ok last s -> flusher_ok s fl -> b_size b < 4294967040 ->
  let s' := (blobcache_put sha1 md5 key stash b maxage etag mtime flags now s).2 in
  cache_ok (if decide (bcstate s = BLOBCACHE_RUN) then <[digest_key sha1 key stash := (digest_content md5 (b_data b), b_size b)]> last else last) s' /\
  flusher_ok s' fl.
Proof.
  intros Hs Hfl Hb. pose proof (ck_table _ _ Hs) as Ht. unfold blobcache_put. set (dk := digest_key sha1 key stash).
  destruct (decide (bcstate s = BLOBCACHE_RUN)) as [Er|Er]; [|by rewrite bool_decide_eq_false_2 by done].
  rewrite bool_decide_eq_true_2 by done. cbn [negb]. assert (0 <= b_size b) by (unfold b_size; lia).
  set (et := match etag with Some e => _ | None => None end).
  set (item := BI et dk _ _ _ _ _ _ _). assert (stored item b) as Hitem.
  { split_and!; [done| |done|done]. simpl. rewrite u32_id by lia. done. }
  destruct (lookup_item (hashvector s) dk) as [p|] eqn:El.
  - destruct ((bi_content_hash p =? _) && (bi_size p =? b_size b)) eqn:Ec.
    + apply andb_prop in Ec as [Ec1%Z.eqb_eq Ec2%Z.eqb_eq]. set (f := fun p => BI _ _ _ _ _ _ _ _ _).
      destruct (table_update dk f (hashvector s) Ht) as [Hf1 Hf2]; [intros q; by left|].
      assert (<[dk := (digest_content md5 (b_data b), b_size b)]> last = last) as ->.
      { apply insert_id. rewrite (ck_last _ _ Hs dk p El). by rewrite Ec1, Ec2. }
      apply (cache_less last s); [done..|]. intros h q Hq. simpl in Hq. rewrite Hf2 in Hq.
      case_decide; [|exists q; split; [done|apply same_blob_refl]]. apply fmap_Some in Hq as (q' & Hq & ->). by exists q'.
    + destruct (table_update dk (fun _ => item) (hashvector s) Ht) as [Hf1 Hf2]; [intros q; by right|].
      refine (put_new_ok last s fl dk b _ item _ Hs Hfl Hb Hf1 _ Hitem). intros h. rewrite Hf2. case_decide as E; [|done]. by rewrite E, El.
  - destruct (table_add item (hashvector s) Ht) as [Hf1 Hf2]; [done|].
    refine (put_new_ok last s fl dk b _ item _ Hs Hfl Hb Hf1 _ Hitem). intros h. rewrite Hf2. simpl. repeat case_decide; congruence.
Qed.

(** While an entry is written, or has been, its file does not matter. *)
Lemma written_ok last s bf fs : cache_ok last s -> head (flush_queue s) = Some bf -> (forall h, h <> bf.1 -> fs !! h = files s !! h) ->
  cache_ok last (with_files fs s).
Proof.
  intros [Ht Hl Hs] Hh Hfs. destruct (flush_queue s) as [|bf' q] eqn:Eq; simplify_eq/=.
  assert (is_Some (queued bf.1 (flush_queue s))) as [b Hq].
  { rewrite Eq, queued_cons, Z.eqb_refl. destruct (queued bf.1 q); by eexists. }
  split; [done|done|]. intros h p Hp. specialize (Hs h p Hp). simpl in *.
  rewrite <- Eq in Hs. destruct (decide (h = bf.1)) as [->|Hne]; [by rewrite Hq in Hs |- *|]. destruct (queued h (flush_queue s)); [done|]. by rewrite Hfs.
Qed.

Lemma part_ok last s bf n : cache_ok last s -> flusher_ok s (FlushWriting bf) ->
  let s' := with_files (<[bf.1 := take n (blob_file bf.2)]> (files s)) s in cache_ok last s' /\ flusher_ok s' (FlushWriting bf).
Proof. intros Hck Hfl. split; [|done]. apply (written_ok last s bf); [done|done|]. intros h Hh. by apply lookup_insert_ne. Qed.

Lemma write_ok last s bf io : cache_ok last s -> flusher_ok s (FlushWriting bf) -> (io = FlushClosed -> files s !! bf.1 = None) ->
  cache_ok last (flush_write io bf s) /\ flusher_ok (flush_write io bf s) (FlushWritten bf).
Proof.
  intros Hck Hfl Hio. simpl in Hfl. destruct io; simpl.
  - split; [apply (written_ok last s bf); [done|done|]; intros h Hh; by apply lookup_insert_ne|]. split; [done|]. intros f. rewrite lookup_insert_eq. congruence.
  - split; [apply (written_ok last s bf); [done|done|]; intros h Hh; by apply lookup_delete_ne|]. split; [done|]. intros f. by rewrite lookup_delete_eq.
  - split; [done|]. split; [done|]. intros f. by rewrite Hio.
Qed.

Lemma done_ok last s bf maxsize io now : cache_ok last s -> flusher_ok s (FlushWritten bf) ->
  cache_ok last (flush_done sha1 qsort maxsize io now s) /\ flusher_ok (flush_done sha1 qsort maxsize io now s) FlushIdle.
Proof using Hsort.
  intros Hs Hfl. unfold flush_done. set (s1 := with_queue (tail (flush_queue s)) s).
  assert (cache_ok last s1) as Hs1.
  { destruct Hs as [Ht Hl Hs]. destruct Hfl as [Hq Hf]. split; [done|done|]. intros h p Hp. specialize (Hs h p Hp). simpl.
    destruct (flush_queue s) as [|bf' q] eqn:Eq; simplify_eq/=. rewrite queued_cons in Hs. destruct (queued h q); [done|].
    destruct (Z.eqb_spec bf.1 h) as [E|E]; [|done]. intros f Hff. exists bf.2. split; [done|]. apply Hf. by rewrite E. }
  destruct (maxsize <? current_cache_size s1); [by apply prune_ok|done].
Qed.

Lemma step_ok last x last' x' : step sha1 md5 qsort last x last' x' -> cache_ok last (sys_cache x) /\ flusher_ok (sys_cache x) (sys_flush x) ->
  cache_ok last' (sys_cache x') /\ flusher_ok (sys_cache x') (sys_flush x').
Proof using Hsort.
  destruct 1 as [last s fl Hb|last s fl|last s fl key stash b maxage etag mtime flags now Hb|last s fl key stash ignore now
    |last s fl io now|last s fl io now|last s bf q Hq|last s bf n|last s bf io Hio|last s bf maxsize io now]; intros [H1 H2]; cbn [sys_cache sys_flush] in *.
  - split; [by destruct H1|by destruct fl].
  - split; [by destruct H1|by destruct fl].
  - by apply put_ok.
  - by apply get_ok.
  - by apply clear_ok.
  - destruct (save_index_same io now s) as (F1 & F2 & F3 & _).
    apply (cache_less last s); [done|done|rewrite F1; apply H1|done|by rewrite F3|]. intros dk p Hp. rewrite F1 in Hp. by exists p.
  - split; [done|]. simpl. by rewrite Hq.
  - by apply part_ok.
  - by apply write_ok.
  - by apply (done_ok last s bf).
Qed.

Lemma cache_reach_ok last x : reach sha1 md5 qsort last x -> cache_ok last (sys_cache x) /\ flusher_ok (sys_cache x) (sys_flush x).
Proof using Hsort.
  induction 1 as [fs dat|last x last' x' _ IH Hx]; [|by apply (step_ok last x)]. split; [|done].
  split; [apply table_empty|..]; intros dk p Hp; unfold lookup_item in Hp; simpl in Hp; by rewrite hash_bucket_empty in Hp.
Qed.

(** Undisturbed, a file is as it was, and so is the content of its item. *)
Lemma undisturbed_same dk last x last' x' : reach sha1 md5 qsort last x -> undisturbed sha1 md5 qsort dk last x last' x' ->
  reach sha1 md5 qsort last' x' /\ files (sys_cache x') !! dk = files (sys_cache x) !! dk /\ blob_at dk (sys_cache x') = blob_at dk (sys_cache x).
Proof.
  intros Hr. induction 1 as [|last1 x1 last2 x2 _ (IH1 & IH2 & IH3) Hs Hf Hb _]; [done|]. split; [by eapply reach_step|]. by rewrite Hf, Hb.
Qed.

(** The file of a buffer that has the size of its item. *)
Lemma read_blob_ok p b pad : stored p b -> Z.of_nat (length (blob_file b)) = u32 (bi_size p + bi_content_type_len p) ->
  exists b', read_blob p (blob_file b) pad = Some b' /\ b_data b' = b_data b ++ replicate pad 0.
Proof.
  intros (Hh & Hs & Hb & Hc) Hl. assert (0 <= b_size b) by (unfold b_size; lia).
  assert (0 <= u8 (content_type_len b) < 256) as Hu by (unfold u8; apply Z.mod_pos_bound; lia).
  rewrite Hs, Hc, u32_id in Hl by lia. unfold blob_file in *. rewrite length_app in Hl.
  assert (content_type_len b = Z.of_nat (length (default [] (b_content_type b)))) as Ect by (unfold content_type_len; by destruct (b_content_type b)).
  unfold b_size in *. unfold read_blob. rewrite Hs, Hc. rewrite decide_True by (rewrite length_app; lia). eexists. split; [done|]. simpl. f_equal.
  replace (Z.to_nat (u8 (content_type_len b))) with (length (default [] (b_content_type b))) by lia.
  rewrite drop_app_length, take_ge; [done|]. lia.
Qed.
End coherence.

Lemma total_size_perm a b : a ≡ₚ b -> total_size a = total_size b.
Proof. induction 1; simpl; lia. Qed.

Lemma sizes_minus pre : forall n, Forall item_ok pre -> total_size pre <= n < 2 ^ 64 -> foldl (fun n p => u64 (n - bi_size p)) n pre = n - total_size pre.
Proof.
  induction pre as [|p pre IH]; intros n Hp Hn; simpl in *; [lia|]. apply Forall_cons in Hp as [Hp Hps].
  pose proof (io_size _ Hp). pose proof (items_size_bound pre Hps). unfold u64 at 2. rewrite Z.mod_small by lia. rewrite IH by (done || lia). lia.
Qed.

Lemma foldl_delete_lookup pre : forall (fs : gmap Z (list Z)) dk,
  foldl (fun fs p => delete (bi_key_hash p) fs) fs pre !! dk = if decide (dk ∈ map bi_key_hash pre) then None else fs !! dk.
Proof.
  induction pre as [|p pre IH]; intros fs dk; cbn [map foldl]; [by rewrite decide_False by (apply not_elem_of_nil)|]. rewrite IH.
  destruct (decide (bi_key_hash p = dk)) as [E|E].
  - rewrite E, lookup_delete_eq. rewrite (decide_True (P := dk ∈ dk :: _)) by (apply list_elem_of_here). by case_decide.
  - rewrite lookup_delete_ne by done. destruct (decide (dk ∈ map bi_key_hash pre)) as [Hi|Hi].
    + by rewrite decide_True by (by apply list_elem_of_further).
    + rewrite decide_False; [done|]. rewrite elem_of_cons. intros [?|?]; congruence.
Qed.

(** * Properties *)


(** A run: a buffer is put and written to its file, and then asked for; before
    the file is read another buffer is put. *)
Definition toy_digest (d : list Z) : list Z := take 20 (d ++ replicate 20 0).
Definition toy_sort (cmp : blobcache_item -> blobcache_item -> Z) (l : list blobcache_item) : list blobcache_item := l.
Definition toy_buf : buf_t := Buf [1; 2; 3] None.
Definition toy_start : cache := with_state BLOBCACHE_RUN (Cache hash_empty [] BLOBCACHE_RUN_BAD_CLOCK false 0 ∅ []).
Definition toy_put : cache := (blobcache_put toy_digest toy_digest [107] [] toy_buf 60 (Some [65]) 50 0 1000 toy_start).2.
Definition toy_done : cache := flush_done toy_digest toy_sort 1000000 IndexWritten 1001 (flush_write FlushOk (107, toy_buf) toy_put).
Definition toy_last : gmap Z (Z * Z) :=
  if decide (bcstate toy_start = BLOBCACHE_RUN) then <[digest_key toy_digest [107] [] := (digest_content toy_digest (b_data toy_buf), b_size toy_buf)]> ∅ else ∅.
Definition toy_got : cache := (blobcache_get_locked toy_digest [107] [] false 1002 toy_done).2.
Definition toy_later : cache := (blobcache_put toy_digest toy_digest [108] [] toy_buf 60 None 50 0 1003 toy_got).2.


(** What has just been put is what the cache answers, with its etag, if that is
    not too long, and its modification time, until it expires. *)
Theorem blobcache_put_get sha1 md5 qsort last s fl key stash b maxage etag mtime flags now s' pad ignore now' :
  (forall cmp l, qsort cmp l ≡ₚ l) -> reach sha1 md5 qsort last (Sys s fl) -> bcstate s = BLOBCACHE_RUN ->
  blobcache_put sha1 md5 key stash b maxage etag mtime flags now s = (0, s') -> 0 <= maxage + now -> now' <= Z.min INT32_MAX (maxage + now) ->
  exists s'', blobcache_get sha1 key stash pad ignore now' s' =
    (Some (BlobAnswer b (match etag with Some e => if Z.of_nat (length e) <=? 255 then Some e else None | None => None end) (u32 mtime) false), s'').
Proof.
  intros Hsort Hr Hrun Hput Hage Hnow. destruct (cache_reach_ok Hsort last (Sys s fl) Hr) as [[Ht _ _] _]. cbn [sys_cache] in *.
  unfold blobcache_put in Hput. rewrite bool_decide_eq_true_2 in Hput by done. cbn [negb] in Hput. set (dk := digest_key sha1 key stash) in *.
  set (et := match etag with Some e => _ | None => None end) in *.
  set (item := BI et dk (digest_content md5 (b_data b)) now (u32 (Z.min INT32_MAX (maxage + now))) (u32 mtime) (u32 (b_size b)) (u8 (content_type_len b)) (u8 flags)) in *.
  assert (lookup_item (hashvector s') dk = Some item /\ queued dk (flush_queue s') = Some b /\ bcstate s' = BLOBCACHE_RUN) as (Hl & Hq & Hst).
  { destruct (lookup_item (hashvector s) dk) as [p|] eqn:El; [destruct (_ && _); [done|]|]; simplify_eq/=.
    - split_and!; [|by rewrite queued_app, Z.eqb_refl|done]. destruct (table_update dk (fun _ => item) (hashvector s) Ht) as [_ Hf2]; [intros q; by right|].
      by rewrite Hf2, decide_True, El.
    - split_and!; [|by rewrite queued_app, Z.eqb_refl|done]. destruct (table_add item (hashvector s) Ht) as [_ Hf2]; [done|].
      by rewrite Hf2, decide_True. }
  unfold blobcache_get, blobcache_get_locked. fold dk. rewrite Hst, decide_False, Hl, Hq by done. rewrite bool_decide_eq_true_2 by done.
  assert ((bi_expiry item <? now') = false) as ->; [|by eexists].
  apply Z.ltb_ge. unfold item. cbn [bi_expiry]. unfold INT32_MAX in *. rewrite u32_id by lia. lia.
Qed.

Lemma blobcache_put_get_witness : exists s'',
  blobcache_get toy_digest [107] [] 0 false 1060 toy_put = (Some (BlobAnswer toy_buf (Some [65]) (u32 50) false), s'').
Proof.
  apply (blobcache_put_get toy_digest toy_digest toy_sort ∅ toy_start FlushIdle [107] [] toy_buf 60 (Some [65]) 50 0 1000 toy_put).
  - done.
  - eapply reach_step; [apply reach_start|]. by apply step_clock.
  - reflexivity.
  - vm_compute. reflexivity.
  - lia.
  - vm_compute. discriminate.
Defined.

(** C25: Pruning takes out the items that are least worth keeping, with their
    files: the first ones in the order of accesstimecmp (those that are not
    important before those that are, and of these the least recently used
    first), if qsort does sort by it, until the rest is smaller than the limit,
    and no item more; the size of the cache is that of what is left. *)
Theorem prune_to_size_spec sha1 (qsort : (blobcache_item -> blobcache_item -> Z) -> list blobcache_item -> list blobcache_item) maxsize io now s :
  (forall cmp l, qsort cmp l ≡ₚ l) ->
  StronglySorted (fun a b => accesstimecmp a b <= 0) (qsort accesstimecmp (concat (hashvector s))) ->
  table_ok (hashvector s) -> Forall item_ok (concat (hashvector s)) -> Z.of_nat (length (concat (hashvector s))) <= int_max ->
  let s' := prune_to_size sha1 qsort maxsize io now s in
  exists pre kept, concat (hashvector s) ≡ₚ pre ++ kept /\
    (forall dk p, lookup_item (hashvector s') dk = Some p <-> p ∈ kept /\ bi_key_hash p = dk) /\
    current_cache_size s' = total_size kept /\ (kept = [] \/ total_size kept < maxsize) /\
    (forall a p, pre = a ++ [p] -> maxsize <= total_size (p :: kept)) /\
    (forall p q, p ∈ pre -> q ∈ kept -> accesstimecmp p q <= 0) /\
    (forall dk, files s' !! dk = if decide (dk ∈ map bi_key_hash pre) then None else files s !! dk).
Proof.
  intros Hsort Hss Ht Hok Hcount s'. unfold int_max in Hcount. pose proof (items_size_bound _ Hok) as [Hb1 Hb2].
  unfold s', prune_to_size. destruct (prune_loop maxsize (qsort accesstimecmp (concat (hashvector s))) _) as [kept s1] eqn:E.
  destruct (prune_loop_spec _ _ _ _ _ E) as (pre & Epre & H1 & H2 & H3 & H4 & H5 & H6 & H7). cbn [current_cache_size with_size with_hash files] in *.
  destruct (prune_table Hsort (hashvector s) Ht pre kept Epre) as [Ht' Hl'].
  pose proof (Hsort accesstimecmp (concat (hashvector s))) as Hperm. rewrite Epre in Hperm, Hss.
  assert (Forall item_ok (pre ++ kept)) as Hok' by (by rewrite Hperm). apply Forall_app in Hok' as [Hokp Hokk].
  rewrite sizes_sum in H5, H7 by (done || lia). rewrite <- (total_size_perm _ _ Hperm), total_size_app in H5, H7, Hb2.
  pose proof (items_size_bound _ Hokp). pose proof (items_size_bound _ Hokk).
  rewrite sizes_minus in H5 by (done || lia).
  set (s2 := with_hash _ s1). destruct (save_index_same (sha1 := sha1) io now s2) as (F1 & F2 & F3 & F4).
  assert (hashvector s2 = foldl (fun hv p => hash_add p hv) hash_empty kept) as F5 by (simpl; by rewrite H1). rewrite F5 in F1.
  exists pre, kept. rewrite F1, F4, F3. split_and!.
  - by rewrite Hperm.
  - done.
  - simpl. rewrite H5. lia.
  - destruct H6 as [?|H6]; [by left|right]. lia.
  - intros a p ->. specialize (H7 a p eq_refl). apply Forall_app in Hokp as [Hoka Hp]. apply Forall_cons in Hp as [Hp _].
    pose proof (items_size_bound _ Hoka). pose proof (io_size _ Hp). rewrite ?total_size_app in *. simpl in *.
    rewrite sizes_minus in H7 by (done || lia). lia.
  - by apply sorted_app in Hss as (_ & _ & Hss).
  - intros dk. simpl. rewrite H4. apply foldl_delete_lookup.
Qed.

Definition toy_items : hashtable :=
  hash_add (BI None 3 0 30 0 0 40 0 0) (hash_add (BI None 2 0 10 0 0 50 0 1) (hash_add (BI None 1 0 20 0 0 60 0 0) hash_empty)).
Definition toy_full : cache := Cache toy_items [] BLOBCACHE_RUN false 150 ∅ [].

(** The order that the code asks for: 1, 3, 2. *)
Definition toy_order (cmp : blobcache_item -> blobcache_item -> Z) (l : list blobcache_item) : list blobcache_item :=
  merge_sort (H := fun a b => decide (cmp a b <= 0)) (fun a b => cmp a b <= 0) l.

Lemma prune_to_size_spec_witness : let s' := prune_to_size toy_digest toy_order 100 IndexWritten 0 toy_full in
  exists pre kept, concat toy_items ≡ₚ pre ++ kept /\
    (forall dk p, lookup_item (hashvector s') dk = Some p <-> p ∈ kept /\ bi_key_hash p = dk) /\
    current_cache_size s' = total_size kept /\ (kept = [] \/ total_size kept < 100) /\
    (forall a p, pre = a ++ [p] -> 100 <= total_size (p :: kept)) /\
    (forall p q, p ∈ pre -> q ∈ kept -> accesstimecmp p q <= 0) /\
    (forall dk, files s' !! dk = if decide (dk ∈ map bi_key_hash pre) then None else files toy_full !! dk).
Proof.
  apply (prune_to_size_spec toy_digest toy_order 100 IndexWritten 0 toy_full).
  - intros cmp l. apply merge_sort_Permutation.
  - assert (toy_order accesstimecmp (concat (hashvector toy_full)) = [BI None 1 0 20 0 0 60 0 0; BI None 3 0 30 0 0 40 0 0; BI None 2 0 10 0 0 50 0 1]) as -> by (vm_compute; reflexivity).
    repeat constructor; vm_compute; discriminate.
  - split; [apply hash_add_ok, hash_add_ok, hash_add_ok, hash_empty_ok|]. vm_compute. repeat constructor; rewrite ?elem_of_cons, ?elem_of_nil; naive_solver.
  - assert (concat (hashvector toy_full) = [BI None 1 0 20 0 0 60 0 0; BI None 2 0 10 0 0 50 0 1; BI None 3 0 30 0 0 40 0 0]) as -> by (vm_compute; reflexivity).
    repeat (apply Forall_cons; split; [split; simpl; try lia; done|]). apply Forall_nil_2.
  - vm_compute. discriminate.
Defined.
