(* ===== verification/GlwToken.v ===== *)
(** The tokens of the view language (ui/glw/glw_view.h, glw_view_support.c), the
    language the user interface is written in, with the tables of attribute and
    function names (glw_view_attrib.c, glw_view_eval.c). *)
From S2P Require Import Prelude.
From Stdlib Require Import SpecFloat.

Local Open Scope Z_scope.

(** * Tokens *)

Inductive token_type :=
| TOKEN_START | TOKEN_END | TOKEN_HASH | TOKEN_ASSIGNMENT | TOKEN_COND_ASSIGNMENT
| TOKEN_DEBUG_ASSIGNMENT | TOKEN_END_OF_EXPR | TOKEN_SEPARATOR | TOKEN_BLOCK_OPEN
| TOKEN_BLOCK_CLOSE | TOKEN_LEFT_PARENTHESIS | TOKEN_RIGHT_PARENTHESIS | TOKEN_LEFT_BRACKET
| TOKEN_RIGHT_BRACKET | TOKEN_DOT | TOKEN_ADD | TOKEN_SUB | TOKEN_MULTIPLY | TOKEN_DIVIDE
| TOKEN_MODULO | TOKEN_DOLLAR | TOKEN_AMPERSAND | TOKEN_BOOLEAN_AND | TOKEN_BOOLEAN_OR
| TOKEN_BOOLEAN_XOR | TOKEN_EQ | TOKEN_NEQ | TOKEN_BOOLEAN_NOT | TOKEN_NULL_COALESCE | TOKEN_LT
| TOKEN_GT | TOKEN_COLON | TOKEN_RSTRING | TOKEN_CSTRING | TOKEN_FLOAT | TOKEN_EM | TOKEN_INT
| TOKEN_IDENTIFIER | TOKEN_FUNCTION | TOKEN_PROPERTY_REF | TOKEN_PROPERTY_OWNER
| TOKEN_PROPERTY_NAME | TOKEN_PROPERTY_SUBSCRIPTION | TOKEN_RESOLVED_ATTRIBUTE
| TOKEN_UNRESOLVED_ATTRIBUTE | TOKEN_VOID | TOKEN_DIRECTORY | TOKEN_EXPR | TOKEN_RPN
| TOKEN_PURE_RPN | TOKEN_BLOCK | TOKEN_NOP | TOKEN_VECTOR_FLOAT | TOKEN_EVENT | TOKEN_URI
| TOKEN_VECTOR | TOKEN_MOD_FLAGS.

(** The numbers of the enumeration: the place in this list. *)
Definition token_types: list token_type := [
  TOKEN_START; TOKEN_END; TOKEN_HASH; TOKEN_ASSIGNMENT; TOKEN_COND_ASSIGNMENT;
  TOKEN_DEBUG_ASSIGNMENT; TOKEN_END_OF_EXPR; TOKEN_SEPARATOR; TOKEN_BLOCK_OPEN; TOKEN_BLOCK_CLOSE;
  TOKEN_LEFT_PARENTHESIS; TOKEN_RIGHT_PARENTHESIS; TOKEN_LEFT_BRACKET; TOKEN_RIGHT_BRACKET;
  TOKEN_DOT; TOKEN_ADD; TOKEN_SUB; TOKEN_MULTIPLY; TOKEN_DIVIDE; TOKEN_MODULO; TOKEN_DOLLAR;
  TOKEN_AMPERSAND; TOKEN_BOOLEAN_AND; TOKEN_BOOLEAN_OR; TOKEN_BOOLEAN_XOR; TOKEN_EQ; TOKEN_NEQ;
  TOKEN_BOOLEAN_NOT; TOKEN_NULL_COALESCE; TOKEN_LT; TOKEN_GT; TOKEN_COLON; TOKEN_RSTRING;
  TOKEN_CSTRING; TOKEN_FLOAT; TOKEN_EM; TOKEN_INT; TOKEN_IDENTIFIER; TOKEN_FUNCTION;
  TOKEN_PROPERTY_REF; TOKEN_PROPERTY_OWNER; TOKEN_PROPERTY_NAME; TOKEN_PROPERTY_SUBSCRIPTION;
  TOKEN_RESOLVED_ATTRIBUTE; TOKEN_UNRESOLVED_ATTRIBUTE; TOKEN_VOID; TOKEN_DIRECTORY; TOKEN_EXPR;
  TOKEN_RPN; TOKEN_PURE_RPN; TOKEN_BLOCK; TOKEN_NOP; TOKEN_VECTOR_FLOAT; TOKEN_EVENT; TOKEN_URI;
  TOKEN_VECTOR; TOKEN_MOD_FLAGS].

Definition token_number (ty : token_type) : nat :=
  match ty with
  | TOKEN_START => 0 | TOKEN_END => 1 | TOKEN_HASH => 2 | TOKEN_ASSIGNMENT => 3
  | TOKEN_COND_ASSIGNMENT => 4 | TOKEN_DEBUG_ASSIGNMENT => 5 | TOKEN_END_OF_EXPR => 6
  | TOKEN_SEPARATOR => 7 | TOKEN_BLOCK_OPEN => 8 | TOKEN_BLOCK_CLOSE => 9
  | TOKEN_LEFT_PARENTHESIS => 10 | TOKEN_RIGHT_PARENTHESIS => 11 | TOKEN_LEFT_BRACKET => 12
  | TOKEN_RIGHT_BRACKET => 13 | TOKEN_DOT => 14 | TOKEN_ADD => 15 | TOKEN_SUB => 16
  | TOKEN_MULTIPLY => 17 | TOKEN_DIVIDE => 18 | TOKEN_MODULO => 19 | TOKEN_DOLLAR => 20
  | TOKEN_AMPERSAND => 21 | TOKEN_BOOLEAN_AND => 22 | TOKEN_BOOLEAN_OR => 23
  | TOKEN_BOOLEAN_XOR => 24 | TOKEN_EQ => 25 | TOKEN_NEQ => 26 | TOKEN_BOOLEAN_NOT => 27
  | TOKEN_NULL_COALESCE => 28 | TOKEN_LT => 29 | TOKEN_GT => 30 | TOKEN_COLON => 31
  | TOKEN_RSTRING => 32 | TOKEN_CSTRING => 33 | TOKEN_FLOAT => 34 | TOKEN_EM => 35 | TOKEN_INT => 36
  | TOKEN_IDENTIFIER => 37 | TOKEN_FUNCTION => 38 | TOKEN_PROPERTY_REF => 39
  | TOKEN_PROPERTY_OWNER => 40 | TOKEN_PROPERTY_NAME => 41 | TOKEN_PROPERTY_SUBSCRIPTION => 42
  | TOKEN_RESOLVED_ATTRIBUTE => 43 | TOKEN_UNRESOLVED_ATTRIBUTE => 44 | TOKEN_VOID => 45
  | TOKEN_DIRECTORY => 46 | TOKEN_EXPR => 47 | TOKEN_RPN => 48 | TOKEN_PURE_RPN => 49
  | TOKEN_BLOCK => 50 | TOKEN_NOP => 51 | TOKEN_VECTOR_FLOAT => 52 | TOKEN_EVENT => 53
  | TOKEN_URI => 54 | TOKEN_VECTOR => 55 | TOKEN_MOD_FLAGS => 56
  end.

(** What [glw_view_attrib_optimize] tells the handlers of an attribute apart by. *)
Inductive attrib_fn := ModFlags2 | ModImgFlags | ModTextFlags | ModOther.

(** A row of [attribtab]: its name, the flag it stands for when it is one of the
    flags that the optimizer merges, and its handler. *)
Record token_attrib := Attrib { at_name : list Z; at_attrib : Z; at_fn : attrib_fn }.

(** The union [u] of a token. *)
Inductive tval :=
| VNone
| VRstring (s : list Z) (type : Z)
| VFloat (f : spec_float)
| VInt (i : Z)
| VPnvec (names : list (list Z))
| VFunc (name : list Z) (arg : option (list Z))
| VProp (nls : list Z)
| VModFlags (set clr : Z).

Definition PROP_STR_UTF8 : Z := 0.
Definition PROP_STR_RICH : Z := 1.
Definition TOKEN_F_CANONICAL_PATH : Z := 2.

(** [next] is the place in a list of tokens. *)
Inductive token := Token {
  t_type : token_type;
  t_val : tval;
  t_num_args : Z;
  t_flags : Z;
  t_attrib : option token_attrib;
  t_file : list Z;
  t_line : Z;
  t_child : list token
}.

(** A token of the pool, zeroed, with the fields [lexer_link_token] sets. *)
Definition new_token (file : list Z) (line : Z) (ty : token_type) (v : tval) : token :=
  Token ty v 0 0 None file line [].

Definition set_type (ty : token_type) (t : token) : token :=
  Token ty (t_val t) (t_num_args t) (t_flags t) (t_attrib t) (t_file t) (t_line t) (t_child t).
Definition set_tval (v : tval) (t : token) : token :=
  Token (t_type t) v (t_num_args t) (t_flags t) (t_attrib t) (t_file t) (t_line t) (t_child t).
Definition set_num_args (n : Z) (t : token) : token :=
  Token (t_type t) (t_val t) n (t_flags t) (t_attrib t) (t_file t) (t_line t) (t_child t).
Definition set_tflags (fl : Z) (t : token) : token :=
  Token (t_type t) (t_val t) (t_num_args t) fl (t_attrib t) (t_file t) (t_line t) (t_child t).
Definition set_attrib (a : option token_attrib) (t : token) : token :=
  Token (t_type t) (t_val t) (t_num_args t) (t_flags t) a (t_file t) (t_line t) (t_child t).
Definition set_child (c : list token) (t : token) : token :=
  Token (t_type t) (t_val t) (t_num_args t) (t_flags t) (t_attrib t) (t_file t) (t_line t) c.

(** [rstr_get] of [t_rstring]: what the union holds otherwise is not a string. *)
Definition t_rstring (t : token) : res (list Z) :=
  match t_val t with VRstring s _ => Ok s | _ => Fault Uninitialised end.

(** * Tables *)

Definition attribtab : list token_attrib := [
  Attrib (lit "style") 0 ModOther; Attrib (lit "id") 0 ModOther; Attrib (lit "how") 0 ModOther;
  Attrib (lit "description") 0 ModOther; Attrib (lit "parentUrl") 0 ModOther;
  Attrib (lit "caption") 0 ModOther; Attrib (lit "font") 0 ModOther;
  Attrib (lit "fragmentShader") 0 ModOther; Attrib (lit "source") 0 ModOther;
  Attrib (lit "alt") 0 ModOther; Attrib (lit "hidden") 0 ModOther;
  Attrib (lit "filterConstraintX") 1 ModFlags2; Attrib (lit "filterConstraintY") 2 ModFlags2;
  Attrib (lit "filterConstraintWeight") 4 ModFlags2; Attrib (lit "debug") 262144 ModFlags2;
  Attrib (lit "noInitialTransform") 8192 ModFlags2; Attrib (lit "focusOnClick") 16384 ModFlags2;
  Attrib (lit "autoRefocusable") 32768 ModFlags2; Attrib (lit "navFocusable") 65536 ModFlags2;
  Attrib (lit "homogenous") 131072 ModFlags2; Attrib (lit "enabled") 16 ModFlags2;
  Attrib (lit "alwaysLayout") 32 ModFlags2; Attrib (lit "alwaysGrabKnob") 64 ModFlags2;
  Attrib (lit "autohide") 128 ModFlags2; Attrib (lit "shadow") 256 ModFlags2;
  Attrib (lit "autofade") 512 ModFlags2; Attrib (lit "automargin") 2048 ModFlags2;
  Attrib (lit "expediteSubscriptions") 1024 ModFlags2; Attrib (lit "reverseRender") 4096 ModFlags2;
  Attrib (lit "navWrap") 2097152 ModFlags2; Attrib (lit "autoFocusLimit") 4194304 ModFlags2;
  Attrib (lit "cursor") 8388608 ModFlags2; Attrib (lit "navPositional") 16777216 ModFlags2;
  Attrib (lit "clickable") 33554432 ModFlags2; Attrib (lit "fixedSize") 256 ModImgFlags;
  Attrib (lit "bevelLeft") 512 ModImgFlags; Attrib (lit "bevelTop") 1024 ModImgFlags;
  Attrib (lit "bevelRight") 2048 ModImgFlags; Attrib (lit "bevelBottom") 4096 ModImgFlags;
  Attrib (lit "aspectConstraint") 8192 ModImgFlags; Attrib (lit "additive") 16384 ModImgFlags;
  Attrib (lit "borderOnly") 32768 ModImgFlags; Attrib (lit "leftBorder") 65536 ModImgFlags;
  Attrib (lit "rightBorder") 131072 ModImgFlags; Attrib (lit "cornerTopLeft") 1 ModImgFlags;
  Attrib (lit "cornerTopRight") 2 ModImgFlags; Attrib (lit "cornerBottomLeft") 4 ModImgFlags;
  Attrib (lit "cornerBottomRight") 8 ModImgFlags; Attrib (lit "password") 1 ModTextFlags;
  Attrib (lit "ellipsize") 2 ModTextFlags; Attrib (lit "bold") 4 ModTextFlags;
  Attrib (lit "italic") 8 ModTextFlags; Attrib (lit "outline") 16 ModTextFlags;
  Attrib (lit "permanentCursor") 32 ModTextFlags; Attrib (lit "oskPassword") 64 ModTextFlags;
  Attrib (lit "primary") 0 ModOther; Attrib (lit "noAudio") 0 ModOther;
  Attrib (lit "alpha") 0 ModOther; Attrib (lit "blur") 0 ModOther;
  Attrib (lit "weight") 0 ModOther; Attrib (lit "focusable") 0 ModOther;
  Attrib (lit "height") 0 ModOther; Attrib (lit "width") 0 ModOther;
  Attrib (lit "divider") 0 ModOther; Attrib (lit "zoffset") 0 ModOther;
  Attrib (lit "maxlines") 0 ModOther; Attrib (lit "sizeScale") 0 ModOther;
  Attrib (lit "size") 0 ModOther; Attrib (lit "minSize") 0 ModOther;
  Attrib (lit "alphaSelf") 0 ModOther; Attrib (lit "saturation") 0 ModOther;
  Attrib (lit "time") 0 ModOther; Attrib (lit "transitionTime") 0 ModOther;
  Attrib (lit "angle") 0 ModOther; Attrib (lit "expansion") 0 ModOther;
  Attrib (lit "min") 0 ModOther; Attrib (lit "max") 0 ModOther; Attrib (lit "step") 0 ModOther;
  Attrib (lit "value") 0 ModOther; Attrib (lit "childAspect") 0 ModOther;
  Attrib (lit "center") 0 ModOther; Attrib (lit "audioVolume") 0 ModOther;
  Attrib (lit "aspect") 0 ModOther; Attrib (lit "alphaFallOff") 0 ModOther;
  Attrib (lit "blurFallOff") 0 ModOther; Attrib (lit "fill") 0 ModOther;
  Attrib (lit "childScale") 0 ModOther; Attrib (lit "childWidth") 0 ModOther;
  Attrib (lit "childHeight") 0 ModOther; Attrib (lit "childTilesX") 0 ModOther;
  Attrib (lit "childTilesY") 0 ModOther; Attrib (lit "alphaEdges") 0 ModOther;
  Attrib (lit "priority") 0 ModOther; Attrib (lit "spacing") 0 ModOther;
  Attrib (lit "Xspacing") 0 ModOther; Attrib (lit "Yspacing") 0 ModOther;
  Attrib (lit "scrollThreshold") 0 ModOther; Attrib (lit "cornerRadius") 0 ModOther;
  Attrib (lit "page") 0 ModOther; Attrib (lit "color") 0 ModOther;
  Attrib (lit "translation") 0 ModOther; Attrib (lit "scaling") 0 ModOther;
  Attrib (lit "color1") 0 ModOther; Attrib (lit "color2") 0 ModOther;
  Attrib (lit "rotation") 0 ModOther; Attrib (lit "clipping") 0 ModOther;
  Attrib (lit "plane") 0 ModOther; Attrib (lit "padding") 0 ModOther;
  Attrib (lit "border") 0 ModOther; Attrib (lit "margin") 0 ModOther;
  Attrib (lit "align") 0 ModOther; Attrib (lit "effect") 0 ModOther;
  Attrib (lit "args") 0 ModOther; Attrib (lit "parent") 0 ModOther; Attrib (lit "self") 0 ModOther;
  Attrib (lit "model") 0 ModOther; Attrib (lit "origin") 0 ModOther].

Definition funcvec : list (list Z) := [
  lit "widget"; lit "cloner"; lit "style"; lit "newstyle"; lit "space"; lit "onEvent";
  lit "navOpen"; lit "playTrackFromSource"; lit "enqueuetrack"; lit "selectAudioTrack";
  lit "selectSubtitleTrack"; lit "targetedEvent"; lit "fireEvent"; lit "event"; lit "changed";
  lit "iir"; lit "scurve"; lit "translate"; lit "strftime"; lit "isSet"; lit "isVoid";
  lit "value2duration"; lit "value2size"; lit "createChild"; lit "delete"; lit "isFocused";
  lit "isNavFocused"; lit "isHovered"; lit "isPressed"; lit "focusedChild"; lit "focusedClone";
  lit "focusedIndex"; lit "getCaption"; lit "bind"; lit "delta"; lit "isVisible"; lit "canScroll";
  lit "select"; lit "trace"; lit "browse"; lit "isLink"; lit "sin"; lit "sinewave"; lit "monotime";
  lit "delay"; lit "isReady"; lit "suggestFocus"; lit "count"; lit "vectorize"; lit "deliverEvent";
  lit "deliverRef"; lit "propGrouper"; lit "propSorter"; lit "propWindow"; lit "getLayer";
  lit "getWidth"; lit "getHeight"; lit "preferTentative"; lit "ignoreTentative"; lit "int";
  lit "clamp"; lit "join"; lit "fmt"; lit "_pl"; lit "multiopt"; lit "link"; lit "canSelectNext";
  lit "canSelectPrevious"; lit "setDefaultFont"; lit "rand"; lit "selectedElement"; lit "set";
  lit "cloneIndex"; lit "abs"; lit "propName"; lit "propSelect"; lit "focus";
  lit "dumpDynamicStatements"].

(** * Errors *)

(** [errorinfo_t]: where, and a message that is cut to its buffer. *)
Record errorinfo := ErrorInfo { ei_file : list Z; ei_line : Z; ei_error : list Z }.

(** A computation that faults, fails, with the error it reports if it does, or
    has a result. *)
Notation pres A := (res (option errorinfo + A)).
Definition pret {A} (a : A) : pres A := Ok (inr a).
Definition pbind {A B} (m : pres A) (k : A -> pres B) : pres B :=
  x ← m; match x with inl e => Ok (inl e) | inr a => k a end.
Notation "'let!' x := m 'in' k" := (pbind m (fun x => k)) (at level 10, x pattern, m at level 100, k at level 200).

Definition ei_set {A} (file : list Z) (line : Z) (msg : list Z) : pres A :=
  Ok (inl (Some (ErrorInfo (take 4095 file) line (take 127 msg)))).
(** [glw_view_seterr], which asserts that there is a token to blame. *)
Definition glw_view_seterr {A} (b : option token) (msg : list Z) : pres A :=
  match b with
  | None => Fault AssertFailed
  | Some b => ei_set (t_file b) (t_line b) msg
  end.

(** * Lemmas *)

Lemma token_number_inv ty : token_types !! token_number ty = Some ty.
Proof. by destruct ty. Qed.

#[export] Instance token_type_eq_dec : EqDecision token_type.
Proof.
  intros a b. destruct (decide (token_number a = token_number b)) as [E|E]; [left|right; by intros ->].
  apply (inj Some). by rewrite <- (token_number_inv a), <- (token_number_inv b), E.
Defined.

Lemma pbind_ret {A B} (a : A) (k : A -> pres B) : pbind (pret a) k = k a.
Proof. done. Qed.
Lemma pbind_Ok {A B} (a : A) (k : A -> pres B) : pbind (Ok (inr a)) k = k a.
Proof. done. Qed.
