(* ===== verification/GlwLexer.v ===== *)
(** The lexer of the view language (ui/glw/glw_view_lexer.c): the text of a view
    as a list of tokens. *)
From S2P Require Import Prelude Clib Str GlwToken.
From Stdlib Require Import SpecFloat.

Local Open Scope Z_scope.

Section lexer.
Context {cs : CharSign}.
(** [pow(10, -m)] of the C library. *)
Variable pow10_neg : nat -> spec_float.

(** * Tokens *)

(** The content of a string or the name: a copy of the text without its
    escapes. *)
Definition lexer_add_token_string (f : list Z) (line : Z) (text : list Z) (ty : token_type) (rstrtype : Z) : res token :=
  mem ← deescape_cstyle (text ++ [0]);
  s ← cstr_at mem;
  Ok (new_token f line ty (VRstring s rstrtype)).

(** The loop over digits: the value, the character that was read last (0 if
    none was) and the text behind it. *)
Fixpoint float_digits (n s m : Z) (text : list Z) : res (Z * Z * Z * list Z) :=
  match text with
  | [] => Ok (n, s, m, [])
  | s :: text =>
      if (cchar s <? 48) || (57 <? cchar s) then Ok (n, cchar s, m, text)
      else
        a ← chk_int (n * 10); b ← chk_int (a + cchar s); n ← chk_int (b - 48);
        float_digits n (cchar s) (m + 1) text
  end.

(** [t_float] for the text of a number; the arithmetic is that of [float], but
    for the sum with the fraction, which is that of [double]. *)
Definition lexer_float (text : list Z) : res spec_float :=
  let '(sign, start) :=
    match text with
    | c :: r => if cchar c =? 45 then (f32_of_int (-1), r) else (f32_of_int 1, text)
    | [] => (f32_of_int 1, [])
    end in
  match start with
  | [] => Ok (f32_of_int (-1))
  | _ =>
      r ← float_digits 0 0 0 start;
      let '(n, s, _, rest) := r in
      let t_float := f32_of_int n in
      match rest with
      | [] => Ok (SFmul 24 128 t_float sign)
      | _ =>
          if negb (s =? 46) then Ok (SFmul 24 128 t_float sign)
          else
            r ← float_digits 0 s 0 rest;
            let '(n, _, m, _) := r in
            let t_float := f32_of_f64 (SFadd 53 1024 t_float
                             (SFmul 53 1024 (pow10_neg (Z.to_nat m)) (f64_of_int n))) in
            Ok (SFmul 24 128 t_float sign)
      end
  end.

Definition lexer_add_token_float (f : list Z) (line : Z) (text : list Z) : res token :=
  v ← lexer_float text; Ok (new_token f line TOKEN_FLOAT (VFloat v)).

Definition single_char (s : Z) : option token_type :=
  match s with
  | 35 => Some TOKEN_HASH
  | 61 => Some TOKEN_ASSIGNMENT
  | 40 => Some TOKEN_LEFT_PARENTHESIS
  | 41 => Some TOKEN_RIGHT_PARENTHESIS
  | 91 => Some TOKEN_LEFT_BRACKET
  | 93 => Some TOKEN_RIGHT_BRACKET
  | 123 => Some TOKEN_BLOCK_OPEN
  | 125 => Some TOKEN_BLOCK_CLOSE
  | 59 => Some TOKEN_END_OF_EXPR
  | 44 => Some TOKEN_SEPARATOR
  | 46 => Some TOKEN_DOT
  | 43 => Some TOKEN_ADD
  | 45 => Some TOKEN_SUB
  | 42 => Some TOKEN_MULTIPLY
  | 47 => Some TOKEN_DIVIDE
  | 37 => Some TOKEN_MODULO
  | 36 => Some TOKEN_DOLLAR
  | 33 => Some TOKEN_BOOLEAN_NOT
  | 38 => Some TOKEN_AMPERSAND
  | 62 => Some TOKEN_GT
  | 60 => Some TOKEN_LT
  | 58 => Some TOKEN_COLON
  | _ => None
  end.
Definition lexer_single_char (f : list Z) (line s : Z) : option token :=
  match single_char s with Some ty => Some (new_token f line ty VNone) | None => None end.

Definition lex_isalpha (v : Z) : bool :=
  ((97 <=? v) && (v <=? 122)) || ((65 <=? v) && (v <=? 90)) || (v =? 95).
(** A minus counts as a digit. *)
Definition lex_isdigit (v : Z) : bool := ((48 <=? v) && (v <=? 57)) || (v =? 45).
Definition lex_isalnum (v : Z) : bool := lex_isalpha v || lex_isdigit v.

(** * Scanning *)

(** The rest of a line behind [//]; the loop looks for the newline only. *)
Fixpoint line_comment (src : list Z) : res (list Z) :=
  match src with
  | [] => Fault OobRead
  | c :: src => if c =? 10 then Ok src else line_comment src
  end.

(** A comment behind its opening; [p] is the character before [src]. *)
Fixpoint block_comment (p : Z) (src : list Z) (line : Z) : res (list Z * Z) :=
  match src with
  | [] => Fault OobRead
  | c :: src =>
      if (c =? 47) && (p =? 42) then Ok (src, line)
      else block_comment c src (if c =? 10 then line + 1 else line)
  end.

(** A quoted string behind its opening quote: its text, unless it is not
    terminated, what follows the closing quote, and the line reached.  [q] and
    [p] are the two characters before [src]. *)
Fixpoint quoted (stop q p : Z) (src : list Z) (line : Z) : option (list Z * list Z) * Z :=
  match src with
  | [] => (None, line)
  | c :: src =>
      if (c =? stop) && negb ((p =? 92) && negb (q =? 92)) then (Some ([], src), line)
      else
        let '(r, line) := quoted stop p c src (if c =? 10 then line + 1 else line) in
        (match r with Some (text, rest) => Some (c :: text, rest) | None => None end, line)
  end.

(** The longest prefix of characters a predicate holds of, and the rest. *)
Fixpoint span (P : Z -> bool) (src : list Z) : list Z * list Z :=
  match src with
  | c :: src' => if P c then let '(a, b) := span P src' in (c :: a, b) else ([], src)
  | [] => ([], [])
  end.

(** The text behind a character, when it is the next one. *)
Definition eat (c : Z) (src : list Z) : option (list Z) :=
  match src with d :: src => if d =? c then Some src else None | [] => None end.

(** An integer, or a float, perhaps with a postfix. *)
Definition number (src : list Z) : list Z * list Z :=
  let digits := span (fun c => lex_isdigit (cchar c)) in
  let '(a, src) := digits src in
  let '(b, src) :=
    match eat 46 src with
    | Some src => let '(b, src) := digits src in (46 :: b, src)
    | None => ([], src)
    end in
  match eat 102 src with
  | Some src => (a ++ b ++ [102], src)
  | None => (a ++ b, src)
  end.

(** The operators of several characters, in the order they are tried in. *)
Definition long_operators : list (list Z * token_type) :=
  [(lit "&&", TOKEN_BOOLEAN_AND); (lit "?=", TOKEN_COND_ASSIGNMENT); (lit "_=_", TOKEN_DEBUG_ASSIGNMENT);
   (lit "||", TOKEN_BOOLEAN_OR); (lit "^^", TOKEN_BOOLEAN_XOR); (lit "==", TOKEN_EQ);
   (lit "!=", TOKEN_NEQ); (lit "??", TOKEN_NULL_COALESCE)].
Fixpoint long_operator (ops : list (list Z * token_type)) (src : list Z) : option (token_type * list Z) :=
  match ops with
  | [] => None
  | (text, ty) :: ops =>
      if has_prefix text src then Some (ty, drop (length text) src) else long_operator ops src
  end.

(** * One turn of the loop *)

(** What a turn leaves: the token it adds, if any, the text, and the line. *)
Notation turn := (option token * list Z * Z)%type.

(** From the quotes on. *)
Definition lexer_word (f : list Z) (c : Z) (src : list Z) (line : Z) : pres turn :=
  let s := c :: src in
  if (c =? 34) || (c =? 39) then
    match quoted c 0 c src line with
    | (None, line) => ei_set f line (lit "Unterminated quote")
    | (Some (text, rest), line) =>
        t ← lexer_add_token_string f line text TOKEN_RSTRING (if c =? 39 then PROP_STR_RICH else PROP_STR_UTF8);
        pret (Some t, rest, line)
    end
  else if lex_isalpha (cchar c) then
    let '(text, rest) := span (fun c => lex_isalnum (cchar c)) s in
    t ← lexer_add_token_string f line text TOKEN_IDENTIFIER PROP_STR_UTF8;
    pret (Some t, rest, line)
  else if lex_isdigit (cchar c) then
    let '(text, rest) := number s in
    t ← lexer_add_token_float f line text;
    pret (Some t, rest, line)
  else ei_set f line (lit "Invalid char '" ++ [if 31 <? cchar c then c else 32] ++ lit "'").

Definition lexer_turn (f : list Z) (c : Z) (src : list Z) (line : Z) : pres turn :=
  let s := c :: src in
  let simple ty v rest := pret (Some (new_token f line ty v), rest, line) in
  if c =? 10 then pret (None, src, line + 1)
  else if cchar c <=? 32 then pret (None, src, line)
  else if has_prefix (lit "void") s then simple TOKEN_VOID VNone (drop 4 s)
  else if has_prefix (lit "true") s then simple TOKEN_INT (VInt 1) (drop 4 s)
  else if has_prefix (lit "false") s then simple TOKEN_INT (VInt 0) (drop 5 s)
  else if has_prefix (lit "//") s then
    r ← line_comment (drop 2 s); pret (None, r, line + 1)
  else if has_prefix [47; 42] s then
    r ← block_comment 42 (drop 2 s) line; pret (None, r.1, r.2)
  else match long_operator long_operators s with
  | Some (ty, rest) => simple ty VNone rest
  | None =>
      if negb ((c =? 45) && match src with d :: _ => lex_isdigit (cchar d) | [] => false end) then
        match lexer_single_char f line c with
        | Some t => pret (Some t, src, line)
        | None => lexer_word f c src line
        end
      else lexer_word f c src line
  end.

Fixpoint glw_view_lexer_loop (fuel : nat) (f src : list Z) (line : Z) : pres (list token) :=
  match fuel with
  | O => Fault NoFuel
  | S fuel =>
      match src with
      | [] => pret []
      | c :: src =>
          let! x := lexer_turn f c src line in
          let '(t, src, line) := x in
          let! ts := glw_view_lexer_loop fuel f src line in
          pret (match t with Some t => t :: ts | None => ts end)
      end
  end.

(** The tokens that are linked behind [prev]. *)
Definition glw_view_lexer (f src : list Z) : pres (list token) :=
  glw_view_lexer_loop (S (length src)) f src 1.

End lexer.

(** * Texts of tokens *)

(** What may stand between tokens. *)
Inductive gap :=
| GapBlank (c : Z)
| GapNewline
| GapLine (text : list Z)
| GapBlock (text : list Z).

Definition gap_text (g : gap) : list Z :=
  match g with
  | GapBlank c => [c]
  | GapNewline => [10]
  | GapLine text => [47; 47] ++ text ++ [10]
  | GapBlock text => [47; 42] ++ text ++ [42; 47]
  end.

Fixpoint newlines (s : list Z) : Z :=
  match s with [] => 0 | c :: s => (if c =? 10 then 1 else 0) + newlines s end.

(** No end of a comment in the text, which follows the character [p]. *)
Fixpoint no_close (p : Z) (text : list Z) : bool :=
  match text with [] => true | c :: text => negb ((c =? 47) && (p =? 42)) && no_close c text end.

(** The tokens of a text. *)
Inductive lexeme :=
| LexOp (ty : token_type)
| LexVoid
| LexBool (b : bool)
| LexName (name : list Z)
| LexText (rich : bool) (s : list Z)
| LexNumber (neg : bool) (digits : list Z) (fraction : option (list Z)) (suffix : bool).

Definition single_operators : list (list Z * token_type) :=
  [(lit "#", TOKEN_HASH); (lit "=", TOKEN_ASSIGNMENT); (lit "(", TOKEN_LEFT_PARENTHESIS);
   (lit ")", TOKEN_RIGHT_PARENTHESIS); (lit "[", TOKEN_LEFT_BRACKET); (lit "]", TOKEN_RIGHT_BRACKET);
   (lit "{", TOKEN_BLOCK_OPEN); (lit "}", TOKEN_BLOCK_CLOSE); (lit ";", TOKEN_END_OF_EXPR);
   (lit ",", TOKEN_SEPARATOR); (lit ".", TOKEN_DOT); (lit "+", TOKEN_ADD); (lit "-", TOKEN_SUB);
   ([42], TOKEN_MULTIPLY); (lit "/", TOKEN_DIVIDE); (lit "%", TOKEN_MODULO); (lit "$", TOKEN_DOLLAR);
   (lit "!", TOKEN_BOOLEAN_NOT); (lit "&", TOKEN_AMPERSAND); (lit ">", TOKEN_GT); (lit "<", TOKEN_LT);
   (lit ":", TOKEN_COLON)].

Definition op_text (ty : token_type) : option (list Z) :=
  match list_find (fun x => x.2 = ty) (long_operators ++ single_operators) with
  | Some (_, (text, _)) => Some text
  | None => None
  end.

Definition quote (rich : bool) : Z := if rich then 39 else 34.

Definition lexeme_text (l : lexeme) : list Z :=
  match l with
  | LexOp ty => default [] (op_text ty)
  | LexVoid => lit "void"
  | LexBool b => if b then lit "true" else lit "false"
  | LexName name => name
  | LexText rich s => [quote rich] ++ cstyle_escape s ++ [quote rich]
  | LexNumber neg digits fraction suffix =>
      (if neg then [45] else []) ++ digits ++
      match fraction with Some fs => 46 :: fs | None => [] end ++ (if suffix then [102] else [])
  end.

Section spec.
Context {cs : CharSign}.
Variable pow10_neg : nat -> spec_float.

Definition gap_ok (g : gap) : bool :=
  match g with
  | GapBlank c => (cchar c <=? 32) && negb (c =? 10)
  | GapNewline => true
  | GapLine text => forallb (fun c => negb (c =? 10)) text
  | GapBlock text => no_close 42 text
  end.

(** A decimal numeral the lexer reads without an overflow. *)
Definition numeral_ok (ds : list Z) : bool :=
  negb (bool_decide (ds = [])) && forallb is_digit ds && (dec_fold 0 ds + 48 <=? int_max).

Definition lexeme_ok (l : lexeme) : bool :=
  match l with
  | LexOp ty => bool_decide (is_Some (op_text ty))
  | LexVoid | LexBool _ => true
  | LexName name => match name with c :: name => lex_isalpha c && forallb lex_isalnum name | [] => false end
  | LexText rich s => forallb (fun c => (0 <? c) && (c <? 256) && negb (c =? quote rich)) s
  | LexNumber _ digits fraction _ =>
      numeral_ok digits && match fraction with Some fs => numeral_ok fs | None => true end
  end.

(** The next character does not continue the token. *)
Definition head_not (P : Z -> bool) (r : list Z) : bool :=
  match r with [] => true | c :: _ => negb (P (cchar c)) end.
Definition no_long_operator (s : list Z) : bool :=
  match long_operator long_operators s with None => true | Some _ => false end.
Definition lexeme_stops (l : lexeme) (r : list Z) : bool :=
  let s := lexeme_text l ++ r in
  match l with
  | LexOp ty =>
      bool_decide (single_char (hd 0 (lexeme_text l)) <> Some ty) ||
      (no_long_operator s && negb (has_prefix (lit "//") s) && negb (has_prefix [47; 42] s) &&
       (bool_decide (ty <> TOKEN_SUB) || head_not lex_isdigit r))
  | LexVoid | LexBool _ | LexText _ _ => true
  | LexName _ =>
      head_not lex_isalnum r && no_long_operator s && negb (has_prefix (lit "void") s) &&
      negb (has_prefix (lit "true") s) && negb (has_prefix (lit "false") s)
  | LexNumber _ _ fraction suffix =>
      suffix || head_not (fun c => lex_isdigit c || (c =? 102) || (bool_decide (fraction = None) && (c =? 46))) r
  end.

(** The number that is meant. *)
Definition number_value (neg : bool) (digits : list Z) (fraction : option (list Z)) : spec_float :=
  let n := f32_of_int (dec_fold 0 digits) in
  SFmul 24 128
    match fraction with
    | None => n
    | Some fs => f32_of_f64 (SFadd 53 1024 n (SFmul 53 1024 (pow10_neg (length fs)) (f64_of_int (dec_fold 0 fs))))
    end (f32_of_int (if neg then -1 else 1)).

Definition lexeme_token (f : list Z) (line : Z) (l : lexeme) : token :=
  match l with
  | LexOp ty => new_token f line ty VNone
  | LexVoid => new_token f line TOKEN_VOID VNone
  | LexBool b => new_token f line TOKEN_INT (VInt (if b then 1 else 0))
  | LexName name => new_token f line TOKEN_IDENTIFIER (VRstring name PROP_STR_UTF8)
  | LexText rich s =>
      new_token f line TOKEN_RSTRING (VRstring s (if rich then PROP_STR_RICH else PROP_STR_UTF8))
  | LexNumber neg digits fraction _ => new_token f line TOKEN_FLOAT (VFloat (number_value neg digits fraction))
  end.

(** A text: tokens, each behind what may stand between them, and an end. *)
Definition gaps_text (gs : list gap) : list Z := concat (map gap_text gs).
Definition source := (list (list gap * lexeme) * list gap)%type.
Fixpoint source_text (items : list (list gap * lexeme)) (last : list gap) : list Z :=
  match items with
  | [] => gaps_text last
  | (gs, l) :: items => gaps_text gs ++ lexeme_text l ++ source_text items last
  end.
Fixpoint source_ok (items : list (list gap * lexeme)) (last : list gap) : bool :=
  match items with
  | [] => forallb gap_ok last
  | (gs, l) :: items =>
      forallb gap_ok gs && lexeme_ok l && lexeme_stops l (source_text items last) && source_ok items last
  end.
Fixpoint source_tokens (f : list Z) (line : Z) (items : list (list gap * lexeme)) : list token :=
  match items with
  | [] => []
  | (gs, l) :: items =>
      let line := line + newlines (gaps_text gs) in lexeme_token f line l :: source_tokens f line items
  end.

End spec.

(** * Lemmas: scanning *)

Section lemmas.
Context {cs : CharSign}.
Variable pow10_neg : nat -> spec_float.

Lemma newlines_app a b : newlines (a ++ b) = newlines a + newlines b.
Proof. induction a as [|c a IH]; [done|]. cbn [app newlines]. lia. Qed.

Lemma line_comment_spec text r : forallb (fun c => negb (c =? 10)) text = true ->
  line_comment (text ++ 10 :: r) = Ok r /\ newlines text = 0.
Proof.
  induction text as [|c text IH]; [done|]. cbn [forallb app line_comment newlines].
  rewrite andb_true_iff, negb_true_iff. intros [-> H]. apply IH in H. by destruct H as [-> ->].
Qed.

Lemma block_comment_spec text r : forall p line, no_close p text = true ->
  block_comment p (text ++ 42 :: 47 :: r) line = Ok (r, line + newlines text).
Proof.
  induction text as [|c text IH]; intros p line; cbn [no_close app block_comment newlines].
  - intros _. cbn. by rewrite Z.add_0_r.
  - rewrite andb_true_iff, negb_true_iff. intros [-> H]. rewrite IH by done.
    destruct (c =? 10); eq_lia.
Qed.

(** A quoted text without the quote, whose last character is not a backslash
    or is one that another one escapes. *)
Fixpoint closes (q p : Z) (w : list Z) : bool :=
  match w with
  | [] => negb ((p =? 92) && negb (q =? 92))
  | c :: w => closes p c w
  end.

Lemma quoted_spec stop r w : forall q p line,
  forallb (fun c => negb (c =? stop)) w = true -> closes q p w = true ->
  quoted stop q p (w ++ stop :: r) line = (Some (w, r), line + newlines w).
Proof.
  induction w as [|c w IH]; intros q p line; cbn [forallb closes app quoted newlines].
  - intros _ ->. by rewrite Z.eqb_refl, Z.add_0_r.
  - rewrite andb_true_iff, negb_true_iff. intros [-> H] Hc. cbn [andb]. rewrite IH by done.
    destruct (c =? 10); eq_lia.
Qed.

Lemma closes_escape s : forall q p, negb ((p =? 92) && negb (q =? 92)) = true -> closes q p (cstyle_escape s) = true.
Proof.
  induction s as [|c s IH]; intros q p Hp; [done|].
  unfold cstyle_escape in *. cbn [map concat]. unfold cstyle_escape_byte at 1.
  destruct (Z.eqb_spec c 10) as [->|]; [by apply IH|].
  destruct (Z.eqb_spec c 92) as [->|Hc]; apply IH; [done|]. by rewrite (proj2 (Z.eqb_neq c 92)).
Qed.

Lemma escape_forall (P : Z -> bool) s : P 92 = true -> P 110 = true -> forallb P s = true ->
  forallb P (cstyle_escape s) = true.
Proof.
  intros H1 H2. induction s as [|c s IH]; [done|]. unfold cstyle_escape in *. cbn [forallb map concat].
  rewrite andb_true_iff, forallb_app. intros [Hc Hs]. rewrite IH by done.
  unfold cstyle_escape_byte. destruct (c =? 10); [|destruct (c =? 92)]; cbn [forallb]; by rewrite ?H1, ?H2, ?Hc.
Qed.

(** A text that is followed by something a predicate does not hold of. *)
Lemma span_spec (P : Z -> bool) a r : forallb P a = true ->
  match r with [] => true | c :: _ => negb (P c) end = true -> span P (a ++ r) = (a, r).
Proof.
  intros Ha Hr. induction a as [|c a IH]; cbn [app span].
  - destruct r as [|c r]; [done|]. apply negb_true_iff in Hr. cbn [span]. by rewrite Hr.
  - apply andb_true_iff in Ha as [-> Ha]. by rewrite IH.
Qed.

Lemma newlines_escape s : newlines (cstyle_escape s) = 0.
Proof.
  induction s as [|c s IH]; [done|]. unfold cstyle_escape in *. cbn [map concat]. rewrite newlines_app, IH.
  unfold cstyle_escape_byte. destruct (Z.eqb_spec c 10); [done|]. destruct (c =? 92); [done|].
  cbn [newlines]. by rewrite (proj2 (Z.eqb_neq c 10)).
Qed.

(** ** Numbers *)

Lemma dec_fold_grows ds : forallb is_digit ds = true -> forall a, 0 <= a -> a <= dec_fold a ds.
Proof.
  induction ds as [|d ds IH]; intros H a Ha; [done|]. cbn [forallb] in H.
  apply andb_true_iff in H as [Hd%is_digit_spec Hs]. change (dec_fold a (d :: ds)) with (dec_fold (a * 10 + d - 48) ds).
  specialize (IH Hs (a * 10 + d - 48)). lia.
Qed.

Lemma float_digits_spec ds r : forallb is_digit ds = true -> forall n s m, 0 <= n -> dec_fold n ds + 48 <= int_max ->
  exists s', float_digits n s m (ds ++ r) = float_digits (dec_fold n ds) s' (m + Z.of_nat (length ds)) r /\
    (ds = [] -> s' = s) /\ (ds <> [] -> 48 <= s' <= 57).
Proof.
  induction ds as [|d ds IH]; intros H n s m Hn Hb.
  { exists s. rewrite Z.add_0_r. by split_and!. }
  cbn [forallb] in H. apply andb_true_iff in H as [Hd Hs]. pose proof Hd as Hd'%is_digit_spec.
  change (dec_fold n (d :: ds)) with (dec_fold (n * 10 + d - 48) ds) in *.
  pose proof (dec_fold_grows ds Hs (n * 10 + d - 48) ltac:(lia)).
  cbn [app float_digits]. rewrite cchar_ascii by lia.
  rewrite (proj2 (Z.ltb_ge d 48)), (proj2 (Z.ltb_ge 57 d)) by lia. cbn [orb].
  rewrite chk_int_Ok by ilia. rewrite ok_bind, chk_int_Ok by ilia. rewrite ok_bind, chk_int_Ok by ilia. rewrite ok_bind.
  destruct (IH Hs (n * 10 + d - 48) d (m + 1)) as (s' & E & H1 & H2); [lia..|].
  exists s'. split_and!; [|done|].
  - rewrite E. cbn [length]. f_equal. lia.
  - intros _. destruct (decide (ds = [])) as [E'|E']; [rewrite H1 by done; lia|by apply H2].
Qed.

(** What the text of a number means. *)
Definition fraction_text (fraction : option (list Z)) : list Z :=
  match fraction with Some fs => 46 :: fs | None => [] end.

Lemma numeral_ok_spec ds : numeral_ok ds = true ->
  ds <> [] /\ forallb is_digit ds = true /\ dec_fold 0 ds + 48 <= int_max.
Proof.
  unfold numeral_ok. rewrite !andb_true_iff, negb_true_iff, bool_decide_eq_false, Z.leb_le. tauto.
Qed.

Lemma float_value digits fraction (suffix : bool) sign :
  numeral_ok digits = true -> match fraction with Some fs => numeral_ok fs | None => true end = true ->
  (r ← float_digits 0 0 0 (digits ++ fraction_text fraction ++ (if suffix then [102] else []));
   let '(n, s, _, rest) := r in
   match rest with
   | [] => Ok (SFmul 24 128 (f32_of_int n) sign)
   | _ =>
       if negb (s =? 46) then Ok (SFmul 24 128 (f32_of_int n) sign)
       else
         r ← float_digits 0 s 0 rest;
         let '(n', _, m, _) := r in
         Ok (SFmul 24 128 (f32_of_f64 (SFadd 53 1024 (f32_of_int n)
              (SFmul 53 1024 (pow10_neg (Z.to_nat m)) (f64_of_int n')))) sign)
   end) =
  Ok (SFmul 24 128
    match fraction with
    | None => f32_of_int (dec_fold 0 digits)
    | Some fs => f32_of_f64 (SFadd 53 1024 (f32_of_int (dec_fold 0 digits))
                   (SFmul 53 1024 (pow10_neg (length fs)) (f64_of_int (dec_fold 0 fs))))
    end sign).
Proof.
  intros (Hne & Hd & Hb)%numeral_ok_spec Hf.
  destruct (float_digits_spec digits (fraction_text fraction ++ (if suffix then [102] else [])) Hd 0 0 0) as (s1 & -> & _ & H1); [lia..|].
  specialize (H1 Hne). destruct fraction as [fs|]; cbn [fraction_text app].
  - apply numeral_ok_spec in Hf as (Hne' & Hd' & Hb'). cbn [float_digits]. rewrite cchar_ascii by lia. cbn [Z.ltb Z.compare Pos.compare Pos.compare_cont orb].
    rewrite ok_bind. destruct fs as [|x fs]; [done|]. cbn [app]. cbn [negb Z.eqb Pos.eqb].
    change (x :: fs ++ (if suffix then [102] else [])) with ((x :: fs) ++ (if suffix then [102] else [])).
    destruct (float_digits_spec (x :: fs) (if suffix then [102] else []) Hd' 0 46 0) as (s2 & -> & _ & H2); [lia..|].
    rewrite Z.add_0_l. destruct suffix; cbn [float_digits]; rewrite ?cchar_ascii by lia;
      cbn [Z.ltb Z.compare Pos.compare Pos.compare_cont orb]; rewrite ok_bind, Nat2Z.id; done.
  - destruct suffix; cbn [float_digits]; rewrite ?cchar_ascii by lia;
      cbn [Z.ltb Z.compare Pos.compare Pos.compare_cont orb]; rewrite ok_bind; done.
Qed.

Lemma lexer_float_spec neg digits fraction suffix :
  lexeme_ok (LexNumber neg digits fraction suffix) = true ->
  lexer_float pow10_neg (lexeme_text (LexNumber neg digits fraction suffix)) = Ok (number_value pow10_neg neg digits fraction).
Proof.
  cbn [lexeme_ok lexeme_text]. rewrite andb_true_iff. intros [Hd Hf].
  pose proof (float_value digits fraction suffix (f32_of_int (if neg then -1 else 1)) Hd Hf) as E.
  apply numeral_ok_spec in Hd as (Hne & Hd & _). destruct digits as [|d ds]; [done|].
  cbn [forallb] in Hd. apply andb_true_iff in Hd as [Hd%is_digit_spec _].
  unfold lexer_float, number_value. fold (fraction_text fraction). destruct neg.
  - cbn [app] in *. rewrite (cchar_ascii 45) by lia. cbn [Z.eqb Pos.eqb]. exact E.
  - cbn [app] in *. rewrite (cchar_ascii d) by lia. rewrite (proj2 (Z.eqb_neq d 45)) by lia. exact E.
Qed.

Lemma digits_lex ds : forallb is_digit ds = true -> forallb (fun c => lex_isdigit (cchar c)) ds = true.
Proof.
  rewrite !forallb_forall. intros H x Hx. apply H, is_digit_spec in Hx. rewrite cchar_ascii by lia.
  unfold lex_isdigit. by rewrite !(proj2 (Z.leb_le _ _)) by lia.
Qed.

Lemma head_not_mono (P Q : Z -> bool) r : (forall c, P c = true -> Q c = true) ->
  head_not Q r = true -> head_not P r = true.
Proof.
  destruct r as [|c r]; [done|]. cbn [head_not]. rewrite !negb_true_iff. intros H HQ.
  destruct (P (cchar c)) eqn:E; [|done]. apply H in E. congruence.
Qed.

Lemma number_spec neg digits fraction suffix r :
  lexeme_ok (LexNumber neg digits fraction suffix) = true ->
  lexeme_stops (LexNumber neg digits fraction suffix) r = true ->
  number (lexeme_text (LexNumber neg digits fraction suffix) ++ r) = (lexeme_text (LexNumber neg digits fraction suffix), r).
Proof.
  cbn [lexeme_ok lexeme_text lexeme_stops]. rewrite andb_true_iff. intros [(_ & Hd & _)%numeral_ok_spec Hf] Hs.
  fold (fraction_text fraction). unfold number.
  set (a := (if neg then [45] else []) ++ digits). set (z := if suffix then [102] else []) in *.
  assert (head_not (fun c => lex_isdigit c || (bool_decide (fraction = None) && (c =? 46))) (z ++ r) = true) as Hz.
  { unfold z. destruct suffix; cbn [app head_not orb] in *; [by rewrite cchar_ascii, andb_false_r by lia|].
    eapply head_not_mono; [|exact Hs]. intros c. cbn. destruct (lex_isdigit c), (c =? 102); done. }
  replace (((if neg then [45] else []) ++ digits ++ fraction_text fraction ++ z) ++ r)
    with (a ++ fraction_text fraction ++ z ++ r) by (unfold a; by rewrite <- !app_assoc).
  rewrite (span_spec _ a); [|unfold a; rewrite forallb_app, (digits_lex digits) by done; destruct neg; cbn; by rewrite ?cchar_ascii by lia|].
  2: { destruct fraction; cbn [fraction_text app]; [by rewrite cchar_ascii by lia|]. destruct (z ++ r) as [|c l]; [done|].
       cbn [head_not] in Hz. rewrite negb_true_iff, orb_false_iff in Hz. by destruct Hz as [-> _]. }
  assert (forall c, c = 46 \/ c = 102 -> head_not (fun c' => c' =? c) r = true -> eat c r = None) as Heat.
  { intros c Hc. destruct r as [|d l]; [done|]. cbn [head_not eat]. rewrite negb_true_iff.
    destruct (Z.eqb_spec d c) as [->|]; [|done]. by rewrite cchar_ascii, Z.eqb_refl by lia. }
  assert (match eat 102 (z ++ r) with Some src => (a ++ fraction_text fraction ++ [102], src) | None => (a ++ fraction_text fraction, z ++ r) end
    = (a ++ fraction_text fraction ++ z, r)) as Hend.
  { unfold z in *. destruct suffix; [done|]. cbn [app orb] in *. rewrite Heat; [by rewrite app_nil_r|by right|].
    eapply head_not_mono; [|exact Hs]. intros c. cbn. intros ->. by rewrite orb_true_r. }
  replace ((if neg then [45] else []) ++ digits ++ fraction_text fraction ++ z) with (a ++ fraction_text fraction ++ z)
    by (unfold a; by rewrite <- !app_assoc).
  rewrite <- Hend. destruct fraction as [fs|]; cbn [fraction_text app eat].
  - apply numeral_ok_spec in Hf as (_ & Hfs & _). cbn [Z.eqb Pos.eqb]. rewrite (span_spec _ fs); [done|by apply digits_lex|].
    destruct (z ++ r) as [|c l]; [done|]. cbn [head_not] in Hz. rewrite negb_true_iff, orb_false_iff in Hz. by destruct Hz as [-> _].
  - assert (eat 46 (z ++ r) = None) as ->; [|by rewrite !app_nil_r]. unfold z in *. destruct suffix; [done|]. cbn [app orb] in *.
    apply Heat; [by left|]. eapply head_not_mono; [|exact Hs]. intros c. cbn. intros ->. by rewrite !orb_true_r.
Qed.

(** ** Turns of the loop *)

Lemma gap_turn f g r line : gap_ok g = true -> exists c src, gap_text g ++ r = c :: src /\
  lexer_turn pow10_neg f c src line = pret (None, r, line + newlines (gap_text g)).
Proof.
  destruct g as [c| |text|text]; cbn [gap_ok gap_text app]; intros H; eexists _, _; (split; [reflexivity|]); unfold lexer_turn.
  - apply andb_true_iff in H as [H1 H2%negb_true_iff]. cbn [newlines]. by rewrite H2, H1, !Z.add_0_r.
  - done.
  - destruct (line_comment_spec text r H) as [E1 E2]. rewrite cchar_ascii by lia.
    cbn. rewrite drop_0, <- app_assoc. cbn [app]. rewrite E1. cbn. rewrite newlines_app, E2. done.
  - rewrite cchar_ascii by lia. cbn. rewrite drop_0, <- app_assoc. cbn [app]. rewrite block_comment_spec by done.
    cbn. rewrite newlines_app. cbn. by rewrite Z.add_0_r.
Qed.

(** Past the comments and the operators of several characters. *)
Lemma plain_turn f c r line : 32 < cchar c -> c <> 10 ->
  has_prefix (lit "void") (c :: r) = false -> has_prefix (lit "true") (c :: r) = false ->
  has_prefix (lit "false") (c :: r) = false ->
  has_prefix (lit "//") (c :: r) = false -> has_prefix [47; 42] (c :: r) = false -> no_long_operator (c :: r) = true ->
  lexer_turn pow10_neg f c r line =
    if negb ((c =? 45) && match r with d :: _ => lex_isdigit (cchar d) | [] => false end) then
      match lexer_single_char f line c with
      | Some t => pret (Some t, r, line)
      | None => lexer_word pow10_neg f c r line
      end
    else lexer_word pow10_neg f c r line.
Proof.
  intros H1 H2 H3 H4 H5 H6 H7 H8. unfold lexer_turn. rewrite (proj2 (Z.eqb_neq c 10)) by done.
  rewrite (proj2 (Z.leb_gt (cchar c) 32)) by done. rewrite H3, H4, H5, H6, H7.
  unfold no_long_operator in H8. by destruct (long_operator _ _).
Qed.

Lemma single_turn f c ty r line : 32 < c < 128 -> c <> 118 -> c <> 116 -> c <> 102 -> single_char c = Some ty ->
  (c = 45 -> ty = TOKEN_SUB) ->
  no_long_operator (c :: r) && negb (has_prefix (lit "//") (c :: r)) && negb (has_prefix [47; 42] (c :: r)) &&
    (bool_decide (ty <> TOKEN_SUB) || head_not lex_isdigit r) = true ->
  lexer_turn pow10_neg f c r line = pret (Some (new_token f line ty VNone), r, line).
Proof.
  rewrite !andb_true_iff, !negb_true_iff. intros Hc H1 H2 H3 Hty H45 [[[H4 H5] H6] H7].
  assert (forall d s, d <> c -> has_prefix (d :: s) (c :: r) = false) as Hp.
  { intros d s Hd. cbn [has_prefix]. by rewrite (proj2 (Z.eqb_neq d c)). }
  rewrite plain_turn; [|rewrite ?cchar_ascii by lia; first [lia | done | by apply Hp]..].
  unfold lexer_single_char. rewrite Hty. destruct (Z.eqb_spec c 45) as [->|]; [|done].
  rewrite H45 in H7 by done. rewrite bool_decide_eq_false_2 in H7 by (intros []; done).
  cbn [orb andb] in *. destruct r as [|d r]; [done|]. cbn [head_not] in H7. apply negb_true_iff in H7. by rewrite H7.
Qed.

Lemma op_turn f ty r line : lexeme_ok (LexOp ty) = true -> lexeme_stops (LexOp ty) r = true -> exists c src,
  lexeme_text (LexOp ty) ++ r = c :: src /\ lexer_turn pow10_neg f c src line = pret (Some (new_token f line ty VNone), r, line).
Proof.
  destruct ty; intros Hok H; vm_compute in Hok; try discriminate Hok; clear Hok; eexists _, _; (split; [vm_compute; reflexivity|]).
  all: apply orb_true_iff in H as [H|H]; [vm_compute in H; try discriminate H; clear H|]; try (apply single_turn; [lia..|done|done|exact H]).
  all: unfold lexer_turn; rewrite cchar_ascii by lia; done.
Qed.

Lemma token_string f line text ty k : cstring_ok text ->
  lexer_add_token_string f line text ty k = Ok (new_token f line ty (VRstring (cstyle_decode text) k)).
Proof.
  intros H. unfold lexer_add_token_string. destruct (deescape_cstyle_spec text H) as [tl ->].
  rewrite ok_bind, cstr_at_app by (by apply cstyle_decode_ok). done.
Qed.

Lemma forallb_cstring (P : Z -> bool) s : (forall c, P c = true -> 0 < c < 256) -> forallb P s = true -> cstring_ok s.
Proof. intros HP H. rewrite forallb_forall in H. apply Forall_forall. intros c Hc. by apply HP, H, list_elem_of_In. Qed.

Lemma alnum_range c : lex_isalnum c = true -> 45 <= c <= 122 /\ c <> 92 /\ (lex_isalpha c = true -> 65 <= c).
Proof.
  unfold lex_isalnum, lex_isalpha, lex_isdigit. rewrite !orb_true_iff, !andb_true_iff, !Z.leb_le, !Z.eqb_eq. lia.
Qed.

Lemma decode_plain s : forallb (fun c => negb (c =? 92)) s = true -> cstyle_decode s = s.
Proof.
  induction s as [|c s IH]; [done|]. cbn [forallb cstyle_decode]. rewrite andb_true_iff, negb_true_iff.
  intros [-> H]. by rewrite IH.
Qed.

Lemma name_turn f name r line : lexeme_ok (LexName name) = true -> lexeme_stops (LexName name) r = true -> exists c src,
  name ++ r = c :: src /\ lexer_turn pow10_neg f c src line = pret (Some (lexeme_token pow10_neg f line (LexName name)), r, line).
Proof.
  destruct name as [|c name]; [done|]. cbn [lexeme_ok lexeme_stops lexeme_text app]. rewrite !andb_true_iff, !negb_true_iff.
  intros [Hc Hn] [[[[Hr Hl] H1] H2] H3]. eexists _, _. split; [reflexivity|].
  assert (lex_isalnum c = true) as Hc' by (unfold lex_isalnum; by rewrite Hc).
  pose proof (alnum_range c Hc') as (Hb & _ & Hb'). specialize (Hb' Hc).
  assert (forall s, has_prefix (47 :: s) (c :: name ++ r) = false) as Hp.
  { intros s. cbn [has_prefix]. by rewrite (proj2 (Z.eqb_neq 47 c)) by lia. }
  rewrite plain_turn; [|rewrite ?cchar_ascii by lia; first [lia | done | by apply Hp]..].
  rewrite (proj2 (Z.eqb_neq c 45)) by lia. cbn [negb andb]. unfold lexer_single_char.
  assert (single_char c = None) as ->.
  { revert Hc. clear -Hb. revert c Hb. assert (forall c, is_byte c -> implb (lex_isalpha c) (match single_char c with None => true | _ => false end) = true) as H.
    { apply (byte_forall (fun c => implb (lex_isalpha c) (match single_char c with None => true | _ => false end))). by vm_compute. }
    intros c Hb Hc. specialize (H c ltac:(unfold is_byte; lia)). rewrite Hc in H. by destruct (single_char c). }
  unfold lexer_word. rewrite (proj2 (Z.eqb_neq c 34)), (proj2 (Z.eqb_neq c 39)) by lia. cbn [orb].
  rewrite cchar_ascii by lia. rewrite Hc.
  assert (forallb lex_isalnum (c :: name) = true) as Hall by (cbn [forallb]; by rewrite Hc').
  change (c :: name ++ r) with ((c :: name) ++ r). rewrite span_spec; [|..].
  - rewrite token_string.
    + cbn [lexeme_token]. rewrite decode_plain; [done|]. revert Hall. rewrite !forallb_forall. intros H x Hx.
      apply H, alnum_range in Hx. rewrite (proj2 (Z.eqb_neq x 92)) by lia. done.
    + eapply forallb_cstring; [|exact Hall]. intros x Hx. apply alnum_range in Hx. lia.
  - revert Hall. rewrite !forallb_forall. intros H x Hx. specialize (H x Hx). apply alnum_range in H as Hx'.
    by rewrite cchar_ascii by lia.
  - exact Hr.
Qed.

Lemma text_turn f rich s r line : lexeme_ok (LexText rich s) = true -> exists c src,
  lexeme_text (LexText rich s) ++ r = c :: src /\
  lexer_turn pow10_neg f c src line = pret (Some (lexeme_token pow10_neg f line (LexText rich s)), r, line).
Proof.
  cbn [lexeme_ok lexeme_text]. intros Hs. exists (quote rich), (cstyle_escape s ++ quote rich :: r).
  split; [cbn [app]; by rewrite <- app_assoc|].
  assert (quote rich = 39 \/ quote rich = 34) as Hq by (destruct rich; auto).
  assert (forall d t, d <> 34 -> d <> 39 -> forall l, has_prefix (d :: t) (quote rich :: l) = false) as Hp.
  { intros d t H1 H2 l. cbn [has_prefix]. by rewrite (proj2 (Z.eqb_neq d (quote rich))) by lia. }
  rewrite plain_turn; [|rewrite ?cchar_ascii by lia; first [lia | done | by apply Hp | by destruct rich]..].
  rewrite (proj2 (Z.eqb_neq (quote rich) 45)) by lia. cbn [negb andb].
  unfold lexer_single_char. replace (single_char (quote rich)) with (@None token_type) by (by destruct rich).
  unfold lexer_word. replace ((quote rich =? 34) || (quote rich =? 39)) with true by (by destruct rich).
  assert (forallb (fun c => negb (c =? quote rich)) s = true /\ cstring_ok s) as [H1 H2].
  { rewrite forallb_forall in Hs. split.
    - apply forallb_forall. intros c Hc. apply Hs in Hc. rewrite !andb_true_iff in Hc. tauto.
    - apply Forall_forall. intros c Hc%list_elem_of_In. apply Hs in Hc. rewrite !andb_true_iff, !Z.ltb_lt in Hc. lia. }
  rewrite quoted_spec; [|by apply escape_forall; [destruct rich|destruct rich|]|apply closes_escape; by destruct rich].
  rewrite newlines_escape, Z.add_0_r, token_string.
  - rewrite ok_bind, cstyle_decode_escape. cbn [lexeme_token]. by destruct rich.
  - clear -H2. induction H2 as [|c s Hc Hs IH]; [constructor|]. unfold cstyle_escape in *. cbn [map concat].
    apply Forall_app. split; [|exact IH]. unfold cstyle_escape_byte.
    destruct (c =? 10); [|destruct (c =? 92)]; repeat constructor; lia.
Qed.

Lemma no_long_operator_start c r : is_byte c -> is_digit c || (c =? 45) = true -> no_long_operator (c :: r) = true.
Proof.
  set (start := fun c (x : list Z * token_type) => match x.1 with d :: _ => negb (d =? c) | [] => false end).
  intros Hb Hc. assert (forallb (start c) long_operators = true) as H.
  { assert (implb (is_digit c || (c =? 45)) (forallb (start c) long_operators) = true) as H; [|by rewrite Hc in H].
    apply (byte_forall (fun c => implb (is_digit c || (c =? 45)) (forallb (start c) long_operators))); [by vm_compute|done]. }
  unfold no_long_operator. assert (forall ops, forallb (start c) ops = true -> long_operator ops (c :: r) = None) as ->; [|done..].
  induction ops as [|[[|d t] ty] ops IH]; [done..|]. cbn [forallb start]. rewrite andb_true_iff. unfold start at 1. cbn [fst].
  rewrite negb_true_iff. intros [Hd Hops]. cbn [long_operator has_prefix]. rewrite Hd. by apply IH.
Qed.

Lemma number_turn f neg digits fraction suffix r line (l := LexNumber neg digits fraction suffix) :
  lexeme_ok l = true -> lexeme_stops l r = true -> exists c src,
  lexeme_text l ++ r = c :: src /\ lexer_turn pow10_neg f c src line = pret (Some (lexeme_token pow10_neg f line l), r, line).
Proof.
  intros Hok Hstop. pose proof (number_spec neg digits fraction suffix r Hok Hstop) as Hnum. fold l in Hnum.
  pose proof (lexer_float_spec neg digits fraction suffix Hok) as Hval. fold l in Hval.
  assert (exists c t, lexeme_text l = c :: t /\ (48 <= c <= 57 \/
    (c = 45 /\ match t with d :: _ => 48 <= d <= 57 | [] => False end))) as (c & t & E & Hc).
  { unfold l in Hok. cbn [lexeme_ok] in Hok. apply andb_true_iff in Hok as [(Hne & Hd & _)%numeral_ok_spec _].
    destruct digits as [|d ds]; [done|]. cbn [forallb] in Hd. apply andb_true_iff in Hd as [Hd%is_digit_spec _].
    unfold l. cbn [lexeme_text]. destruct neg; eexists _, _; (split; [reflexivity|]); [right; split; [done|]; exact Hd|left; exact Hd]. }
  rewrite E in *. exists c, (t ++ r). split; [done|].
  assert (forall d s, d <> c -> has_prefix (d :: s) (c :: t ++ r) = false) as Hp.
  { intros d s Hd. cbn [has_prefix]. by rewrite (proj2 (Z.eqb_neq d c)). }
  assert (no_long_operator (c :: t ++ r) = true) as Hno.
  { apply no_long_operator_start; unfold is_byte; [lia|]. unfold is_digit. destruct Hc as [Hc|[-> _]]; [|done].
    by rewrite !(proj2 (Z.leb_le _ _)) by lia. }
  rewrite plain_turn; [|rewrite ?cchar_ascii by lia; first [lia | done | apply (Hp 118); lia | apply (Hp 116); lia | apply (Hp 102); lia | apply (Hp 47); lia]..].
  assert (lexer_word pow10_neg f c (t ++ r) line = pret (Some (lexeme_token pow10_neg f line l), r, line)) as Hw.
  { unfold lexer_word. rewrite (proj2 (Z.eqb_neq c 34)), (proj2 (Z.eqb_neq c 39)) by lia. cbn [orb].
    rewrite cchar_ascii by lia. assert (lex_isalpha c = false) as ->.
    { unfold lex_isalpha. rewrite (proj2 (Z.leb_gt 97 c)), (proj2 (Z.leb_gt 65 c)), (proj2 (Z.eqb_neq c 95)) by lia. done. }
    assert (lex_isdigit c = true) as ->.
    { unfold lex_isdigit. destruct Hc as [Hc|[-> _]]; [|done]. by rewrite !(proj2 (Z.leb_le _ _)) by lia. }
    cbn [app] in Hnum. rewrite Hnum. unfold lexer_add_token_float. by rewrite Hval. }
  destruct Hc as [Hc|[-> Hd]].
  - rewrite (proj2 (Z.eqb_neq c 45)) by lia. cbn [andb negb]. unfold lexer_single_char.
    assert (single_char c = None) as ->; [|exact Hw].
    assert (forall c, is_byte c -> implb (is_digit c) (match single_char c with None => true | _ => false end) = true) as H.
    { apply (byte_forall (fun c => implb (is_digit c) (match single_char c with None => true | _ => false end))). by vm_compute. }
    specialize (H c ltac:(unfold is_byte; lia)). rewrite (proj2 (is_digit_spec c) Hc) in H. by destruct (single_char c).
  - destruct t as [|d t]; [done|]. cbn [app]. rewrite (cchar_ascii d) by lia.
    assert (lex_isdigit d = true) as ->; [unfold lex_isdigit; by rewrite !(proj2 (Z.leb_le _ _)) by lia|]. exact Hw.
Qed.

Lemma lexeme_turn f l r line : lexeme_ok l = true -> lexeme_stops l r = true -> exists c src,
  lexeme_text l ++ r = c :: src /\ lexer_turn pow10_neg f c src line = pret (Some (lexeme_token pow10_neg f line l), r, line).
Proof.
  destruct l as [ty| |b|name|rich s|neg ds fr su]; intros Hok Hstop.
  - by apply op_turn.
  - eexists _, _. split; [reflexivity|]. unfold lexer_turn. rewrite cchar_ascii by (vm_compute; done). done.
  - destruct b; (eexists _, _; split; [reflexivity|]; unfold lexer_turn; rewrite cchar_ascii by (vm_compute; done); done).
  - by apply name_turn.
  - by apply text_turn.
  - by apply number_turn.
Qed.

(** ** The loop *)

Lemma gap_text_length g : (0 < length (gap_text g))%nat.
Proof. destruct g; simpl; lia. Qed.

Lemma lexeme_text_length l : lexeme_ok l = true -> (0 < length (lexeme_text l))%nat.
Proof.
  destruct l as [ty| |b|name|rich s|neg ds fr su]; cbn [lexeme_ok lexeme_text]; intros H; try (simpl; lia).
  - destruct ty; vm_compute in H; try discriminate H; vm_compute; lia.
  - destruct b; simpl; lia.
  - destruct name; [done|simpl; lia].
  - apply andb_true_iff in H as [(Hne & _)%numeral_ok_spec _]. destruct ds; [done|]. rewrite !length_app. simpl. lia.
Qed.

Lemma lexer_gaps f gs : forall fuel r line, forallb gap_ok gs = true -> (length (gaps_text gs ++ r) < fuel)%nat ->
  exists fuel', (length r < fuel')%nat /\
  glw_view_lexer_loop pow10_neg fuel f (gaps_text gs ++ r) line =
  glw_view_lexer_loop pow10_neg fuel' f r (line + newlines (gaps_text gs)).
Proof.
  induction gs as [|g gs IH]; intros fuel r line.
  - intros _ H. exists fuel. rewrite Z.add_0_r. by split.
  - cbn [forallb]. rewrite andb_true_iff. intros [Hg Hgs] Hf. unfold gaps_text in *. cbn [map concat] in *.
    rewrite <- app_assoc in Hf |- *. pose proof (gap_text_length g) as Hl.
    destruct (gap_turn f g (concat (map gap_text gs) ++ r) line Hg) as (c & src & E & Ht).
    rewrite E. destruct fuel as [|fuel]; [lia|]. cbn [glw_view_lexer_loop]. rewrite Ht, pbind_ret.
    destruct (IH fuel r (line + newlines (gap_text g)) Hgs) as (fuel' & Hf' & ->).
    { rewrite length_app in Hf. lia. }
    exists fuel'. split; [done|]. rewrite newlines_app, Z.add_assoc.
    destruct (glw_view_lexer_loop _ _ _ _ _) as [[e|ts]|]; done.
Qed.

Lemma lexer_items f items last : forall fuel line, source_ok items last = true ->
  (length (source_text items last) < fuel)%nat ->
  glw_view_lexer_loop pow10_neg fuel f (source_text items last) line = pret (source_tokens pow10_neg f line items).
Proof.
  induction items as [|[gs l] items IH]; intros fuel line; cbn [source_ok source_text source_tokens].
  - intros Hg Hf. rewrite <- (app_nil_r (gaps_text last)) in Hf |- *.
    destruct (lexer_gaps f last fuel [] line Hg Hf) as (fuel' & Hf' & ->). destruct fuel'; [simpl in Hf'; lia|done].
  - rewrite !andb_true_iff. intros [[[Hg Hl] Hs] Hi] Hf.
    destruct (lexer_gaps f gs fuel (lexeme_text l ++ source_text items last) line Hg Hf) as (fuel' & Hf' & ->).
    destruct (lexeme_turn f l (source_text items last) (line + newlines (gaps_text gs)) Hl Hs) as (c & src & E & Ht).
    pose proof (lexeme_text_length l Hl). rewrite length_app in Hf'. destruct fuel' as [|fuel']; [lia|].
    rewrite E. cbn [glw_view_lexer_loop]. rewrite Ht, pbind_ret, IH by (done || lia). done.
Qed.

(** C9: The lexer reads the text of every list of tokens, with blanks and comments
    between them where the grammar needs them, as these tokens, with the values
    and the lines they have in the text: names, strings with escapes, numbers,
    keywords and operators. *)
Theorem glw_view_lexer_reads f items last : source_ok items last = true ->
  glw_view_lexer pow10_neg f (source_text items last) = Ok (inr (source_tokens pow10_neg f 1 items)).
Proof. intros H. unfold glw_view_lexer. rewrite lexer_items by (done || lia). done. Qed.

End lemmas.

Example lexer_example :
  glw_view_lexer (cs := false) (fun m => S754_zero false) (lit "v") (lit "caption: _('Hi') + $ui.x; // end
") = Ok (inr [new_token (lit "v") 1 TOKEN_IDENTIFIER (VRstring (lit "caption") 0);
  new_token (lit "v") 1 TOKEN_COLON VNone; new_token (lit "v") 1 TOKEN_IDENTIFIER (VRstring (lit "_") 0);
  new_token (lit "v") 1 TOKEN_LEFT_PARENTHESIS VNone; new_token (lit "v") 1 TOKEN_RSTRING (VRstring (lit "Hi") 1);
  new_token (lit "v") 1 TOKEN_RIGHT_PARENTHESIS VNone; new_token (lit "v") 1 TOKEN_ADD VNone;
  new_token (lit "v") 1 TOKEN_DOLLAR VNone; new_token (lit "v") 1 TOKEN_IDENTIFIER (VRstring (lit "ui") 0);
  new_token (lit "v") 1 TOKEN_DOT VNone; new_token (lit "v") 1 TOKEN_IDENTIFIER (VRstring (lit "x") 0);
  new_token (lit "v") 1 TOKEN_END_OF_EXPR VNone]).
Proof. vm_compute. reflexivity. Qed.

(** Two lines of a view. *)
Definition demo_source : list (list gap * lexeme) :=
  [([], LexName (lit "alpha")); ([], LexOp TOKEN_COLON); ([GapBlank 32], LexNumber true (lit "1") (Some (lit "5")) true);
   ([], LexOp TOKEN_END_OF_EXPR); ([GapLine (lit " text"); GapBlank 9], LexName (lit "caption"));
   ([], LexOp TOKEN_COLON); ([GapBlock (lit " a "); GapNewline], LexText false [72; 10; 92]);
   ([], LexOp TOKEN_NULL_COALESCE); ([], LexVoid); ([], LexOp TOKEN_END_OF_EXPR)].

Lemma glw_view_lexer_reads_witness :
  glw_view_lexer (cs := false) (fun _ => f64_of_int 1) (lit "a.view") (source_text demo_source [GapNewline]) =
  Ok (inr (source_tokens (fun _ => f64_of_int 1) (lit "a.view") 1 demo_source)) /\
  map t_line (source_tokens (fun _ => f64_of_int 1) (lit "a.view") 1 demo_source) = [1; 1; 1; 1; 2; 2; 3; 3; 3; 3].
Proof.
  split; [|vm_compute; reflexivity].
  apply (glw_view_lexer_reads (cs := false) (fun _ => f64_of_int 1) (lit "a.view") demo_source [GapNewline]). vm_compute. reflexivity.
Defined.
