(* ===== verification/GlwParser.v ===== *)
(** The parser of the view language (ui/glw/glw_view_parser.c): expressions in
    reverse Polish notation by the shunting yard algorithm, the abbreviations of
    the language, blocks of statements, and what is merged in them
    (glw_view_attrib.c). *)
From S2P Require Import Prelude Clib GlwToken.

Local Open Scope Z_scope.

(** * The shunting yard *)

Definition tokenprecedence (ty : token_type) : Z :=
  match ty with
  | TOKEN_ASSIGNMENT | TOKEN_COND_ASSIGNMENT | TOKEN_DEBUG_ASSIGNMENT => 1
  | TOKEN_NULL_COALESCE => 2
  | TOKEN_BOOLEAN_OR => 3
  | TOKEN_BOOLEAN_AND => 4
  | TOKEN_BOOLEAN_XOR => 5
  | TOKEN_EQ | TOKEN_NEQ | TOKEN_LT | TOKEN_GT => 6
  | TOKEN_ADD | TOKEN_SUB => 7
  | TOKEN_MULTIPLY | TOKEN_DIVIDE => 8
  | TOKEN_MODULO => 9
  | TOKEN_BLOCK => 10
  | TOKEN_BOOLEAN_NOT => 11
  | _ => 0
  end.

(** A token is identified by its place in the expression, which stands for its
    address: [curfunc] and the [tmp] links behind it are places, and the
    [t_num_args] that are counted through them are kept by place. *)
Notation item := (nat * token)%type.
Record yard := Yard {
  y_outq : list item;
  y_stack : list item;
  y_curfunc : list nat;
  y_num_args : gmap nat Z;
  y_type : token_type
}.

Definition num_args (args : gmap nat Z) (f : nat) : Z := default 0 (args !! f).

(** [tokenqueue_enqueue]: the queue, and the function whose argument this is. *)
Definition count_arg (f : option nat) (args : gmap nat Z) : gmap nat Z :=
  match f with
  | Some f => if Z.even (num_args args f) then <[f := s16 (num_args args f + 1)]> args else args
  | None => args
  end.
Definition enqueue (x : item) (f : option nat) (y : yard) : yard :=
  Yard (y_outq y ++ [x]) (y_stack y) (y_curfunc y) (count_arg f (y_num_args y)) (y_type y).
Definition push (x : item) (y : yard) : yard :=
  Yard (y_outq y) (x :: y_stack y) (y_curfunc y) (y_num_args y) (y_type y).
Definition set_stack (s : list item) (y : yard) : yard :=
  Yard (y_outq y) s (y_curfunc y) (y_num_args y) (y_type y).
Definition set_ytype (ty : token_type) (y : yard) : yard :=
  Yard (y_outq y) (y_stack y) (y_curfunc y) (y_num_args y) ty.
Definition set_args (f : nat) (n : Z) (y : yard) : yard :=
  Yard (y_outq y) (y_stack y) (y_curfunc y) (<[f := n]> (y_num_args y)) (y_type y).
Definition set_curfunc (c : list nat) (y : yard) : yard :=
  Yard (y_outq y) (y_stack y) c (y_num_args y) (y_type y).

(** The loops that pop the stack [s] to the queue. *)
Fixpoint pop_while (P : token -> bool) (f : option nat) (s : list item) (y : yard) : yard :=
  match s with
  | [] => set_stack [] y
  | x :: s' => if P x.2 then pop_while P f s' (enqueue x f y) else set_stack s y
  end.

Definition is_type (ty : token_type) (t : token) : bool := bool_decide (t_type t = ty).

(** The closing of a function or a vector that is on the top of the stack, at
    the closing token [t]. *)
Definition close_function (t : token) (y : yard) : pres yard :=
  match y_stack y with
  | [] => Fault NullDeref
  | x :: s =>
      match y_curfunc y with
      | f :: c =>
          if decide (x.1 = f) then
            let n := num_args (y_num_args y) f in
            if negb (n =? 0) && Z.even n then glw_view_seterr (Some t) (lit "Unexpected separator '',''")
            else
              pret (enqueue x (head c) (set_curfunc c (set_stack s (set_args f (s16 (Z.quot (1 + n) 2)) y))))
          else Fault AssertFailed
      | [] => Fault AssertFailed
      end
  end.

(** One token, at its place. *)
Definition yard_step (i : nat) (t : token) (y : yard) : pres yard :=
  let cur := head (y_curfunc y) in
  match t_type t with
  | TOKEN_BLOCK | TOKEN_PROPERTY_REF | TOKEN_PROPERTY_NAME =>
      pret (enqueue (i, t) cur (set_ytype TOKEN_RPN y))
  | TOKEN_RESOLVED_ATTRIBUTE | TOKEN_UNRESOLVED_ATTRIBUTE | TOKEN_RSTRING | TOKEN_CSTRING
  | TOKEN_FLOAT | TOKEN_EM | TOKEN_INT | TOKEN_IDENTIFIER | TOKEN_VOID =>
      pret (enqueue (i, t) cur y)
  | TOKEN_SEPARATOR =>
      let y := pop_while (fun x => negb (is_type TOKEN_LEFT_PARENTHESIS x) && negb (is_type TOKEN_LEFT_BRACKET x))
                 cur (y_stack y) y in
      match cur with
      | Some f =>
          let n := num_args (y_num_args y) f in
          if Z.even n then glw_view_seterr (Some t) (lit "Unexpected separator '',''")
          else pret (set_args f (s16 (n + 1)) y)
      | None => pret y
      end
  | TOKEN_ADD | TOKEN_SUB | TOKEN_MULTIPLY | TOKEN_DIVIDE | TOKEN_MODULO | TOKEN_BOOLEAN_OR
  | TOKEN_BOOLEAN_AND | TOKEN_BOOLEAN_XOR | TOKEN_ASSIGNMENT | TOKEN_COND_ASSIGNMENT
  | TOKEN_DEBUG_ASSIGNMENT | TOKEN_EQ | TOKEN_NULL_COALESCE | TOKEN_NEQ | TOKEN_LT | TOKEN_GT
  | TOKEN_BOOLEAN_NOT =>
      pret (push (i, t)
        (pop_while (fun x => tokenprecedence (t_type t) <=? tokenprecedence (t_type x)) None (y_stack y) y))
  | TOKEN_LEFT_PARENTHESIS => pret (push (i, t) y)
  | TOKEN_FUNCTION =>
      pret (push (i, t) (set_args i (t_num_args t) (set_curfunc (i :: y_curfunc y) (set_ytype TOKEN_RPN y))))
  | TOKEN_LEFT_BRACKET =>
      pret (push (i, t) (set_args i (t_num_args t) (set_curfunc (i :: y_curfunc y) y)))
  | TOKEN_RIGHT_PARENTHESIS =>
      let y := pop_while (fun x => negb (is_type TOKEN_LEFT_PARENTHESIS x)) cur (y_stack y) y in
      match y_stack y with
      | [] => glw_view_seterr (Some t) (lit "Unbalanced parentheses")
      | _ :: s =>
          let y := set_stack s y in
          match s with
          | x :: _ => if is_type TOKEN_FUNCTION x.2 then close_function t y else pret y
          | [] => pret y
          end
      end
  | TOKEN_RIGHT_BRACKET =>
      let y := pop_while (fun x => negb (is_type TOKEN_LEFT_BRACKET x)) cur (y_stack y) y in
      match y_stack y with
      | [] => glw_view_seterr (Some t) (lit "Unbalanced brackets")
      | _ => close_function t y
      end
  | _ => glw_view_seterr (Some t) (lit "Unexpected symbol")
  end.

Fixpoint yard_run (i : nat) (ts : list token) (y : yard) : pres yard :=
  match ts with
  | [] => pret y
  | t :: ts => let! y := yard_step i t y in yard_run (S i) ts y
  end.

(** The rest of the stack. *)
Fixpoint yard_finish (s : list item) (y : yard) : pres yard :=
  match s with
  | [] => pret y
  | x :: s =>
      if is_type TOKEN_LEFT_PARENTHESIS x.2 || is_type TOKEN_RIGHT_PARENTHESIS x.2 then
        glw_view_seterr (Some x.2) (lit "Unbalanced parentheses")
      else yard_finish s (enqueue x (head (y_curfunc y)) y)
  end.

(** A token with the arguments that were counted for it. *)
Definition with_args (args : gmap nat Z) (x : item) : token :=
  match args !! x.1 with Some n => set_num_args n x.2 | None => x.2 end.

Definition yard_start : yard := Yard [] [] [] ∅ TOKEN_PURE_RPN.

(** The type the expression becomes, and its tokens. *)
Definition parse_shunting_yard (ts : list token) : pres (token_type * list token) :=
  let! y := yard_run 0 ts yard_start in
  let! y := yard_finish (y_stack y) y in
  match y_outq y with
  | [] => Fault NullDeref
  | x :: _ =>
      let out := map (with_args (y_num_args y)) (y_outq y) in
      if is_type TOKEN_RESOLVED_ATTRIBUTE x.2 then
        match t_attrib x.2 with
        | None => Fault NullDeref
        | Some a => pret (if bool_decide (at_name a = lit "style") then TOKEN_PURE_RPN else y_type y, out)
        end
      else pret (y_type y, out)
  end.

(** * Names *)

(** [glw_view_attrib_resolve] *)
Definition glw_view_attrib_resolve (t : token) : res token :=
  s ← t_rstring t;
  match list_find (fun a => at_name a = s) attribtab with
  | Some (_, a) => Ok (set_attrib (Some a) (set_type TOKEN_RESOLVED_ATTRIBUTE t))
  | None => Ok (set_type TOKEN_UNRESOLVED_ATTRIBUTE t)
  end.

Section parser.
(** The names of the registered classes of widgets, and how many names a token
    of a property holds (16 by the size of a pointer). *)
Variable classes : list (list Z).
Variable pnvec_size : nat.

(** [glwf_resolve_widget_class]: [t] is the function, [r] what follows its
    parenthesis; the class and the token behind it are removed. *)
Definition glwf_resolve_widget_class (t : token) (r : list token) : pres (token * list token) :=
  match r with
  | [] => Fault NullDeref
  | a :: r =>
      if is_type TOKEN_IDENTIFIER a then
        name ← t_rstring a;
        if decide (name ∈ classes) then
          match r with
          | [] => Fault NullDeref
          | _ :: r => pret (set_tval (VFunc (lit "widget") (Some name)) t, r)
          end
        else glw_view_seterr (Some t) (lit "widget: No such widget: " ++ name)
      else glw_view_seterr (Some t) (lit "widget: Invalid first argument, expected widget class")
  end.

(** [glw_view_function_resolve] for a name that a parenthesis and [r] follow:
    the function, and where to go on; a failure without a report when there is
    nothing to go on with. *)
Definition glw_view_function_resolve (t : token) (r : list token) : pres (token * list token) :=
  fname ← t_rstring t;
  if decide (fname ∈ funcvec) then
    let t := set_tval (VFunc fname None) (set_type TOKEN_FUNCTION t) in
    let! x := (if decide (fname = lit "widget") then glwf_resolve_widget_class t r else pret (t, r)) in
    match x.2 with [] => Ok (inl None) | _ => pret x end
  else glw_view_seterr (Some t) (lit "Unknown function: " ++ fname).

(** The names behind [$name], collected by the token [t2], with a chain of
    further tokens as its child when it is full. *)
Fixpoint prop_chain (t2 : token) (ts : list token) : pres (token * list token) :=
  match ts with
  | [] => pret (t2, [])
  | t :: r =>
      if is_type TOKEN_DOT t then
        match r with
        | [] => glw_view_seterr None (lit "Invalid object dereference")
        | t1 :: r =>
            if is_type TOKEN_IDENTIFIER t1 then
              name ← t_rstring t1;
              match t_val t2 with
              | VPnvec names =>
                  if decide (length names < pnvec_size)%nat then
                    prop_chain (set_tval (VPnvec (names ++ [name])) t2) r
                  else
                    let! x := prop_chain (set_tval (VPnvec [name]) (set_type TOKEN_PROPERTY_NAME t1)) r in
                    pret (set_child [x.1] t2, x.2)
              | _ => Fault Uninitialised
              end
            else glw_view_seterr (Some t1) (lit "Invalid object dereference")
        end
      else pret (t2, ts)
  end.

(** [glw_view_nls_string] *)
Definition glw_view_nls_string (t : token) (str : list Z) : token :=
  set_tval (VProp str) (set_type TOKEN_PROPERTY_REF t).

(** [_("text")]: whether it is one behind the parenthesis, with the text and
    what follows. *)
Definition nls_call (r : list token) : res (option (list Z * list token)) :=
  match r with
  | [] => Fault NullDeref
  | a :: r =>
      if is_type TOKEN_RSTRING a then
        match r with
        | [] => Fault NullDeref
        | b :: r => if is_type TOKEN_RIGHT_PARENTHESIS b then str ← t_rstring a; Ok (Some (str, r)) else Ok None
        end
      else Ok None
  end.

(** What [parse_prep_expression] does at a token: the token as it becomes and
    where to go on. *)
Definition prep_property (t : token) (r : list token) : pres (token * list token) :=
  match r with
  | t1 :: r =>
      name ← t_rstring t1;
      let t := if is_type TOKEN_AMPERSAND t then set_tflags (Z.lor (t_flags t) TOKEN_F_CANONICAL_PATH) t else t in
      prop_chain (set_tval (VPnvec [name]) (set_type TOKEN_PROPERTY_NAME t)) r
  | [] => Fault NullDeref
  end.
Definition is_em (t : token) (r : list token) : res bool :=
  match r with
  | t1 :: _ =>
      if (is_type TOKEN_FLOAT t || is_type TOKEN_INT t) && is_type TOKEN_IDENTIFIER t1 then
        name ← t_rstring t1; Ok (bool_decide (name = lit "em"))
      else Ok false
  | [] => Ok false
  end.
Definition prep_attribute (t : token) (r : list token) : pres (token * list token) :=
  match r with
  | t1 :: r =>
      if is_type TOKEN_IDENTIFIER t1 then
        name ← t_rstring t1;
        t ← glw_view_attrib_resolve (set_tval (VRstring name PROP_STR_UTF8) t);
        pret (t, r)
      else glw_view_seterr (Some t) (lit "Invalid object attribute reference")
  | [] => glw_view_seterr (Some t) (lit "Invalid object attribute reference")
  end.
Definition prep_call (t t1 : token) (r : list token) : pres (token * list token) :=
  name ← t_rstring t;
  nls ← (if decide (name = lit "_") then nls_call r else Ok None);
  match nls with
  | Some (str, r) => pret (glw_view_nls_string t str, r)
  | None => let! x := glw_view_function_resolve t r in pret (x.1, t1 :: x.2)
  end.
Definition prep_token (t : token) (r : list token) : pres (token * list token) :=
  let ident := match r with t1 :: _ => is_type TOKEN_IDENTIFIER t1 | [] => false end in
  if (is_type TOKEN_DOLLAR t || is_type TOKEN_AMPERSAND t) && ident then prep_property t r
  else
    em ← is_em t r;
    if em : bool then
      let v := match t_val t with VInt i => VFloat (f32_of_int i) | v => v end in
      pret (set_tval v (set_type TOKEN_EM t), tail r)
    else if is_type TOKEN_DOT t then prep_attribute t r
    else
      match r with
      | t1 :: r' =>
          if is_type TOKEN_IDENTIFIER t && is_type TOKEN_COLON t1 then
            t ← glw_view_attrib_resolve t; pret (t, set_type TOKEN_ASSIGNMENT t1 :: r')
          else if is_type TOKEN_IDENTIFIER t && is_type TOKEN_LEFT_PARENTHESIS t1 then prep_call t t1 r'
          else pret (t, r)
      | [] => pret (t, r)
      end.

Fixpoint prep_loop (fuel : nat) (ts : list token) : pres (list token) :=
  match fuel with
  | O => Fault NoFuel
  | S fuel =>
      match ts with
      | [] => pret []
      | t :: r => let! x := prep_token t r in let! ts := prep_loop fuel x.2 in pret (x.1 :: ts)
      end
  end.
Definition parse_prep_expression (ts : list token) : pres (token_type * list token) :=
  let! ts := prep_loop (S (length ts)) ts in parse_shunting_yard ts.

(** * Statements and blocks *)

Definition is_static_value (t : token) : bool :=
  match t_type t with
  | TOKEN_FLOAT | TOKEN_INT | TOKEN_VECTOR_FLOAT | TOKEN_VOID | TOKEN_CSTRING | TOKEN_RSTRING | TOKEN_IDENTIFIER => true
  | _ => false
  end.
(** [optimize_attribute_assignment]: the statement, or the value with its
    attribute when it is a plain assignment. *)
Definition optimize_attribute_assignment (t : token) : res token :=
  match t_child t with
  | [att; val; ass] =>
      if is_type TOKEN_PURE_RPN t && is_type TOKEN_RESOLVED_ATTRIBUTE att && is_type TOKEN_ASSIGNMENT ass && is_static_value val then
        match t_attrib att with
        | None => Fault AssertFailed
        | Some a => Ok (set_attrib (Some a) val)
        end
      else Ok t
  | _ => Ok t
  end.

(** [merge_token] and [glw_view_attrib_optimize]: the flags that are set and
    cleared are collected in the first statement of each of the three kinds,
    which is found by its place. *)
Definition merge_first (a : token_attrib) (t : token) (at_ : token_attrib) (i : Z) : token :=
  set_type TOKEN_MOD_FLAGS (set_attrib (Some a)
    (set_tval (if i =? 0 then VModFlags 0 (at_attrib at_) else VModFlags (at_attrib at_) 0) t)).
Definition merge_next (at_ : token_attrib) (i : Z) (t : token) : token :=
  match t_val t with
  | VModFlags set clr =>
      set_tval (if i =? 0 then VModFlags set (Z.lor clr (at_attrib at_)) else VModFlags (Z.lor set (at_attrib at_)) clr) t
  | _ => t
  end.
Definition or_flags2 : token_attrib := Attrib (lit "or_flags2") 0 ModOther.
Definition or_img_flags : token_attrib := Attrib (lit "or_img_flags") 0 ModOther.
Definition or_txt_flags : token_attrib := Attrib (lit "or_txt_flags") 0 ModOther.

(** The pointers [f2], [img] and [txt]. *)
Record merged := Merged { m_f2 : option nat; m_img : option nat; m_txt : option nat }.
Definition merged_of (k : attrib_fn) (m : merged) : option nat :=
  match k with ModFlags2 => m_f2 m | ModImgFlags => m_img m | ModTextFlags => m_txt m | ModOther => None end.
Definition set_merged (k : attrib_fn) (n : nat) (m : merged) : merged :=
  match k with
  | ModFlags2 => Merged (Some n) (m_img m) (m_txt m)
  | ModImgFlags => Merged (m_f2 m) (Some n) (m_txt m)
  | ModTextFlags => Merged (m_f2 m) (m_img m) (Some n)
  | ModOther => m
  end.
Definition or_attrib (k : attrib_fn) : option token_attrib :=
  match k with
  | ModFlags2 => Some or_flags2 | ModImgFlags => Some or_img_flags | ModTextFlags => Some or_txt_flags
  | ModOther => None
  end.

Fixpoint attrib_optimize_loop (out : list token) (m : merged) (ts : list token) : res (list token) :=
  match ts with
  | [] => Ok out
  | t :: ts =>
      if is_type TOKEN_INT t then
        match t_attrib t, t_val t with
        | Some at_, VInt i =>
            match or_attrib (at_fn at_) with
            | None => attrib_optimize_loop (out ++ [t]) m ts
            | Some a =>
                match merged_of (at_fn at_) m with
                | None => attrib_optimize_loop (out ++ [merge_first a t at_ i]) (set_merged (at_fn at_) (length out) m) ts
                | Some n => attrib_optimize_loop (alter (merge_next at_ i) n out) m ts
                end
            end
        | None, _ => Fault NullDeref
        | _, _ => Fault Uninitialised
        end
      else attrib_optimize_loop (out ++ [t]) m ts
  end.
Definition glw_view_attrib_optimize (ts : list token) : res (list token) :=
  attrib_optimize_loop [] (Merged None None None) ts.

(** [parse_block] of the token [first] and what is linked behind it: the block
    and what follows it.  [parse_stmts] is its loop, with the statements parsed
    so far.  [parse_one_expression] has the tokens from [start] up to where its
    loop is in [acc]. *)
Fixpoint parse_block (fuel : nat) (first : token) (ts : list token) (term : token_type) {struct fuel} : pres (token * list token) :=
  match fuel with
  | O => Fault NoFuel
  | S fuel =>
      let first := set_type TOKEN_BLOCK first in
      match ts with
      | [] => Fault NullDeref
      | t :: r => if is_type term t then pret (first, r) else parse_stmts fuel first [] ts term
      end
  end
with parse_stmts (fuel : nat) (first : token) (stmts ts : list token) (term : token_type) {struct fuel} : pres (token * list token) :=
  match fuel with
  | O => Fault NoFuel
  | S fuel =>
      match ts with
      | [] => glw_view_seterr (Some first) (lit "Unbalanced block")
      | t :: r =>
          if is_type term t then
            c ← glw_view_attrib_optimize stmts; pret (set_child c first, r)
          else
            let! x := parse_one_expression fuel t [] ts in
            parse_stmts fuel first (stmts ++ [x.1]) x.2 term
      end
  end
with parse_one_expression (fuel : nat) (start : token) (acc ts : list token) {struct fuel} : pres (token * list token) :=
  match fuel with
  | O => Fault NoFuel
  | S fuel =>
      match ts with
      | [] => Ok (inl None)
      | t :: r =>
          match t_type t with
          | TOKEN_END => glw_view_seterr (Some start) (lit "Unexpected end of file")
          | TOKEN_BLOCK_OPEN =>
              let! x := parse_block fuel t r TOKEN_BLOCK_CLOSE in
              parse_one_expression fuel start (acc ++ [x.1]) x.2
          | TOKEN_END_OF_EXPR =>
              match acc with
              | [] => pret (set_type TOKEN_NOP t, r)
              | _ =>
                  let! x := parse_prep_expression acc in
                  t ← optimize_attribute_assignment (set_child x.2 (set_type x.1 t));
                  pret (t, r)
              end
          | TOKEN_BLOCK_CLOSE => glw_view_seterr (Some t) (lit "Unexpected '}'")
          | _ => parse_one_expression fuel start (acc ++ [t]) r
          end
      end
  end.

Definition glw_view_parse (sof : token) (ts : list token) : pres token :=
  let! x := parse_block (3 * length ts + 3) sof ts TOKEN_END in pret x.1.

End parser.
