(* ===== verification/GlwYard.v ===== *)
(** What the shunting yard of the view language computes: for the tokens of an
    expression whose parentheses are where the precedences ask for them, its
    reverse Polish notation, with the number of arguments of each function and
    vector. *)
From S2P Require Import Prelude Clib GlwToken GlwParser.

Local Open Scope Z_scope.

(** * Expressions *)

(** Expressions as they come to the shunting yard, with all their tokens. *)
Inductive pexpr :=
| PLeaf (t : token)
| PBin (l : pexpr) (op : token) (r : pexpr)
| PNot (op : token) (e : pexpr)
| PParen (lp : token) (e : pexpr) (rp : token)
| PCall (f lp : token) (a : pargs) (rp : token)
| PVec (lb : token) (a : pargs) (rb : token)
with pargs :=
| PNil
| POne (e : pexpr)
| PMore (e : pexpr) (sep : token) (a : pargs).

Scheme pexpr_ind' := Induction for pexpr Sort Prop
with pargs_ind' := Induction for pargs Sort Prop.
Combined Scheme pexpr_pargs_ind from pexpr_ind', pargs_ind'.

Fixpoint ptoks (e : pexpr) : list token :=
  match e with
  | PLeaf t => [t]
  | PBin l op r => ptoks l ++ op :: ptoks r
  | PNot op e => op :: ptoks e
  | PParen lp e rp => lp :: ptoks e ++ [rp]
  | PCall f lp a rp => f :: lp :: ptoks_args a ++ [rp]
  | PVec lb a rb => lb :: ptoks_args a ++ [rb]
  end
with ptoks_args (a : pargs) : list token :=
  match a with
  | PNil => []
  | POne e => ptoks e
  | PMore e sep a => ptoks e ++ sep :: ptoks_args a
  end.

Fixpoint count_args (a : pargs) : Z :=
  match a with PNil => 0 | POne _ => 1 | PMore _ _ a => 1 + count_args a end.

(** The reverse Polish notation. *)
Fixpoint rpn (e : pexpr) : list token :=
  match e with
  | PLeaf t => [t]
  | PBin l op r => rpn l ++ rpn r ++ [op]
  | PNot op e => rpn e ++ [op]
  | PParen _ e _ => rpn e
  | PCall f _ a _ => rpn_args a ++ [set_num_args (count_args a) f]
  | PVec lb a _ => rpn_args a ++ [set_num_args (count_args a) lb]
  end
with rpn_args (a : pargs) : list token :=
  match a with
  | PNil => []
  | POne e => rpn e
  | PMore e _ a => rpn e ++ rpn_args a
  end.

Definition is_value (t : token) : bool :=
  match t_type t with
  | TOKEN_BLOCK | TOKEN_PROPERTY_REF | TOKEN_PROPERTY_NAME
  | TOKEN_RESOLVED_ATTRIBUTE | TOKEN_UNRESOLVED_ATTRIBUTE | TOKEN_RSTRING | TOKEN_CSTRING
  | TOKEN_FLOAT | TOKEN_EM | TOKEN_INT | TOKEN_IDENTIFIER | TOKEN_VOID => true
  | _ => false
  end.
(** The values that depend on where the expression is evaluated. *)
Definition is_bound (t : token) : bool :=
  match t_type t with TOKEN_BLOCK | TOKEN_PROPERTY_REF | TOKEN_PROPERTY_NAME => true | _ => false end.
Definition is_binop (t : token) : bool :=
  match t_type t with
  | TOKEN_ADD | TOKEN_SUB | TOKEN_MULTIPLY | TOKEN_DIVIDE | TOKEN_MODULO | TOKEN_BOOLEAN_OR
  | TOKEN_BOOLEAN_AND | TOKEN_BOOLEAN_XOR | TOKEN_ASSIGNMENT | TOKEN_COND_ASSIGNMENT
  | TOKEN_DEBUG_ASSIGNMENT | TOKEN_EQ | TOKEN_NULL_COALESCE | TOKEN_NEQ | TOKEN_LT | TOKEN_GT => true
  | _ => false
  end.

Fixpoint pure (e : pexpr) : bool :=
  match e with
  | PLeaf t => negb (is_bound t)
  | PBin l _ r => pure l && pure r
  | PNot _ e | PParen _ e _ => pure e
  | PCall _ _ _ _ => false
  | PVec _ a _ => pure_args a
  end
with pure_args (a : pargs) : bool :=
  match a with PNil => true | POne e => pure e | PMore e _ a => pure e && pure_args a end.

(** How tightly an expression binds. *)
Definition level (e : pexpr) : Z :=
  match e with PBin _ op _ => tokenprecedence (t_type op) | PNot _ _ => 11 | _ => 12 end.

(** Tokens of the right kinds, operands that bind tightly enough: binary
    operators are grouped from the left, and a negation needs parentheses in a
    negation. *)
Fixpoint pexpr_ok (e : pexpr) : bool :=
  match e with
  | PLeaf t => is_value t
  | PBin l op r =>
      is_binop op && (level (PBin l op r) <=? level l) && (level (PBin l op r) <? level r) && pexpr_ok l && pexpr_ok r
  | PNot op e => is_type TOKEN_BOOLEAN_NOT op && (11 <? level e) && pexpr_ok e
  | PParen lp e rp => is_type TOKEN_LEFT_PARENTHESIS lp && is_type TOKEN_RIGHT_PARENTHESIS rp && pexpr_ok e
  | PCall f lp a rp =>
      is_type TOKEN_FUNCTION f && (t_num_args f =? 0) && is_type TOKEN_LEFT_PARENTHESIS lp &&
      is_type TOKEN_RIGHT_PARENTHESIS rp && (count_args a <=? 16384) && pargs_ok a
  | PVec lb a rb =>
      is_type TOKEN_LEFT_BRACKET lb && (t_num_args lb =? 0) && is_type TOKEN_RIGHT_BRACKET rb &&
      (count_args a <=? 16384) && pargs_ok a
  end
with pargs_ok (a : pargs) : bool :=
  match a with
  | PNil => true
  | POne e => pexpr_ok e
  | PMore e sep a =>
      is_type TOKEN_SEPARATOR sep && pexpr_ok e && pargs_ok a && match a with PNil => false | _ => true end
  end.

(** * Counting arguments *)

Lemma s16_small z : -32768 <= z <= 32767 -> s16 z = z.
Proof.
  intros H. unfold s16, u16. cbv zeta. destruct (Z.ltb_spec (z mod 65536) 32768) as [E|E].
  - destruct (Z.le_gt_cases 0 z); [by rewrite Z.mod_small by lia|].
    pose proof (Z.div_mod z 65536 ltac:(lia)); pose proof (Z.mod_pos_bound z 65536 ltac:(lia)). lia.
  - destruct (Z.le_gt_cases 0 z); [rewrite Z.mod_small in E by lia; lia|].
    pose proof (Z.div_mod z 65536 ltac:(lia)); pose proof (Z.mod_pos_bound z 65536 ltac:(lia)). lia.
Qed.

Lemma s16_even z : Z.even (s16 z) = Z.even z.
Proof.
  unfold s16, u16. cbv zeta.
  assert (Z.even (z mod 65536) = Z.even z) as E.
  { rewrite (Z.mod_eq z 65536) by lia. rewrite Z.even_sub, Z.even_mul. by destruct (Z.even z). }
  destruct (z mod 65536 <? 32768); [done|]. rewrite Z.even_sub, E. by destruct (Z.even z).
Qed.

Definition agree (i : nat) (a b : gmap nat Z) : Prop := forall k, (k < i)%nat -> a !! k = b !! k.

Lemma count_arg_other f args k : f <> Some k -> count_arg f args !! k = args !! k.
Proof.
  destruct f as [f|]; [|done]. cbn [count_arg]. intros H. destruct (Z.even _); [|done].
  rewrite lookup_insert_ne; [done|congruence].
Qed.

Lemma num_args_insert f n args : num_args (<[f := n]> args) f = n.
Proof. unfold num_args. by rewrite lookup_insert_eq. Qed.

Lemma count_arg_idemp f args : count_arg f (count_arg f args) = count_arg f args.
Proof.
  destruct f as [f|]; [|done]. cbn [count_arg]. destruct (Z.even (num_args args f)) eqn:E; [|by rewrite E].
  by rewrite num_args_insert, s16_even, Z.even_add, E.
Qed.

Lemma count_arg_agree i f a b : (forall k, f = Some k -> (k < i)%nat) -> agree i a b ->
  agree i (count_arg f a) (count_arg f b).
Proof.
  intros Hf H. destruct f as [f|]; [|done]. cbn [count_arg]. specialize (Hf f eq_refl). unfold num_args.
  rewrite (H f Hf). destruct (Z.even _); [|done]. intros k Hk. destruct (decide (k = f)) as [->|].
  - by rewrite !lookup_insert_eq.
  - rewrite !lookup_insert_ne by done. by apply H.
Qed.

(** * Popping *)

Lemma pop_while_spec P f y ops s : (ops <> [] -> count_arg f (y_num_args y) = y_num_args y) ->
  Forall (fun x => P x.2 = true) ops -> match s with x :: _ => P x.2 = false | [] => True end ->
  pop_while P f (ops ++ s) y = Yard (y_outq y ++ ops) s (y_curfunc y) (y_num_args y) (y_type y).
Proof.
  intros Hm Hops Hs. revert y Hm. induction Hops as [|x ops Hx Hops IH]; intros y Hm; cbn [app pop_while].
  - rewrite app_nil_r. destruct s as [|x s]; [done|]. cbn [pop_while]. by rewrite Hs.
  - specialize (Hm ltac:(done)). rewrite Hx, IH; cbn [enqueue y_num_args y_outq y_curfunc y_type]; rewrite Hm; [|done].
    by rewrite <- app_assoc.
Qed.

(** The precedence of what is on the top of the stack. *)
Definition top_prec (s : list item) : Z :=
  match s with x :: _ => tokenprecedence (t_type x.2) | [] => 0 end.
Definition no_function_top (s : list item) : Prop :=
  match s with x :: _ => t_type x.2 <> TOKEN_FUNCTION | [] => True end.

(** The operators that stay on the stack behind an expression of level [p]. *)
Definition pending (p : Z) (x : item) : Prop := 1 <= p /\ p <= tokenprecedence (t_type x.2).

Lemma pending_not ty p x : pending p x -> tokenprecedence ty = 0 -> is_type ty x.2 = false.
Proof. intros [H1 H2] H. unfold is_type. apply bool_decide_eq_false. intros <-. lia. Qed.

(** What an expression, or its arguments, leave in the yard: items for its
    places, in two parts, whose tokens are [out]. *)
Record left_by (i n : nat) (p : Z) (args : gmap nat Z) (q ops : list item) (out : list token) : Prop := {
  lb_out : map (with_args args) (q ++ ops) = out;
  lb_places : Forall (fun x => (i <= x.1 < i + n)%nat) (q ++ ops);
  lb_ops : Forall (pending p) ops;
  lb_dom : forall k, (i + n <= k)%nat -> args !! k = None
}.

Lemma with_args_ext a b l : Forall (fun x : item => a !! x.1 = b !! x.1) l ->
  map (with_args a) l = map (with_args b) l.
Proof. induction 1 as [|x l Hx Hl IH]; [done|]. cbn [map]. by rewrite IH; unfold with_args; rewrite Hx. Qed.

(** The tokens stay what they are when the counters of other places change. *)
Lemma left_out i n p a b q ops out : left_by i n p a q ops out ->
  (forall k, (i <= k < i + n)%nat -> b !! k = a !! k) -> map (with_args b) (q ++ ops) = out.
Proof.
  intros [<- Hp _ _] H. apply with_args_ext. eapply Forall_impl; [exact Hp|]. cbn. intros x Hx. by apply H.
Qed.

Lemma places_weaken (l : list item) i n i' n' : Forall (fun x => (i <= x.1 < i + n)%nat) l ->
  (i' <= i)%nat -> (i + n <= i' + n')%nat -> Forall (fun x => (i' <= x.1 < i' + n')%nat) l.
Proof. intros H H1 H2. eapply Forall_impl; [exact H|]. cbn. lia. Qed.

Lemma pending_weaken p p' ops : Forall (pending p) ops -> 1 <= p' <= p -> Forall (pending p') ops.
Proof. intros H Hp. eapply Forall_impl; [exact H|]. unfold pending. lia. Qed.

Lemma level_pos e : pexpr_ok e = true -> 1 <= level e <= 12.
Proof.
  destruct e; cbn [level pexpr_ok]; try lia. rewrite !andb_true_iff. intros [[[[H _] _] _] _].
  unfold is_binop in H. by destruct (t_type op).
Qed.

(** An expression marks the argument it is in. *)
Lemma agree_marked i f a b : (forall k, f = Some k -> (k < i)%nat) -> agree i a (count_arg f b) -> count_arg f a = a.
Proof.
  intros Hf H. destruct f as [f|]; [|done]. specialize (H f (Hf f eq_refl)).
  assert (num_args a f = num_args (count_arg (Some f) b) f) as E by (unfold num_args; by rewrite H).
  cbn [count_arg]. rewrite E. cbn [count_arg]. destruct (Z.even (num_args b f)) eqn:Ev.
  - by rewrite num_args_insert, s16_even, Z.even_add, Ev.
  - by rewrite Ev.
Qed.

(** * Running *)

Lemma yard_run_cons i t ts y y' : yard_step i t y = pret y' -> yard_run i (t :: ts) y = yard_run (S i) ts y'.
Proof. intros H. cbn [yard_run]. by rewrite H, pbind_ret. Qed.

Lemma is_type_eq ty t : is_type ty t = true -> t_type t = ty.
Proof. unfold is_type. by rewrite bool_decide_eq_true. Qed.

(** A binary operator pops what binds at least as tightly. *)
Lemma binop_step i op ops s y : is_binop op = true -> y_stack y = ops ++ s ->
  Forall (pending (tokenprecedence (t_type op))) ops -> top_prec s < tokenprecedence (t_type op) ->
  yard_step i op y = pret (Yard (y_outq y ++ ops) ((i, op) :: s) (y_curfunc y) (y_num_args y) (y_type y)).
Proof.
  intros Hop Hs Hops Htop.
  assert (yard_step i op y = pret (push (i, op) (pop_while (fun x => tokenprecedence (t_type op) <=? tokenprecedence (t_type x)) None (y_stack y) y))) as ->.
  { unfold yard_step, is_binop in *. by destruct (t_type op). }
  rewrite Hs, pop_while_spec; [done|done|..].
  - eapply Forall_impl; [exact Hops|]. intros x [_ Hx]. by apply Z.leb_le.
  - destruct s as [|x s]; [done|]. cbn [top_prec] in Htop. by apply Z.leb_gt.
Qed.

Lemma not_step i op y : is_type TOKEN_BOOLEAN_NOT op = true -> top_prec (y_stack y) < 11 ->
  yard_step i op y = pret (push (i, op) y).
Proof.
  intros Hop%is_type_eq Htop. unfold yard_step. rewrite Hop.
  assert (forall s, top_prec s < 11 -> pop_while (fun x => tokenprecedence TOKEN_BOOLEAN_NOT <=? tokenprecedence (t_type x)) None s y
    = set_stack s y) as E.
  { intros [|x s] H; [done|]. cbn [pop_while]. cbn [top_prec] in H. cbn [tokenprecedence] in *.
    by rewrite (proj2 (Z.leb_gt 11 _) H). }
  rewrite E by done. by destruct y.
Qed.

Lemma value_yard_step i t y : is_value t = true ->
  yard_step i t y = pret (enqueue (i, t) (head (y_curfunc y)) (if negb (is_bound t) then y else set_ytype TOKEN_RPN y)).
Proof. unfold yard_step, is_value, is_bound. by destruct (t_type t). Qed.

(** The tokens that close. *)
Lemma pops_to ty f y ops x s : tokenprecedence ty = 0 -> t_type x.2 = ty ->
  (ops <> [] -> count_arg f (y_num_args y) = y_num_args y) -> Forall (pending 1) ops ->
  pop_while (fun x => negb (is_type ty x)) f (ops ++ x :: s) y =
  Yard (y_outq y ++ ops) (x :: s) (y_curfunc y) (y_num_args y) (y_type y).
Proof.
  intros Hty Hx Hm Hops. apply pop_while_spec; [done|..].
  - eapply Forall_impl; [exact Hops|]. intros z Hz. by rewrite (pending_not ty 1 z Hz Hty).
  - apply negb_false_iff. unfold is_type. by rewrite Hx, bool_decide_eq_true_2.
Qed.

Lemma paren_step i rp y ops x s : is_type TOKEN_RIGHT_PARENTHESIS rp = true -> t_type x.2 = TOKEN_LEFT_PARENTHESIS ->
  y_stack y = ops ++ x :: s -> count_arg (head (y_curfunc y)) (y_num_args y) = y_num_args y ->
  Forall (pending 1) ops -> no_function_top s ->
  yard_step i rp y = pret (Yard (y_outq y ++ ops) s (y_curfunc y) (y_num_args y) (y_type y)).
Proof.
  intros Hrp%is_type_eq Hx Hs Hm Hops Hf. unfold yard_step. rewrite Hrp, Hs, pops_to by done.
  cbn [y_stack]. destruct s as [|z s]; [done|]. cbn [no_function_top] in Hf. unfold is_type.
  by rewrite bool_decide_eq_false_2.
Qed.

(** The number of commas and arguments as it is counted. *)
Definition counted (n c : Z) : Prop := (n = 0 /\ c = 0) \/ (1 <= n <= 16384 /\ c = 2 * n - 1).

Lemma counted_args n c : counted n c ->
  negb (c =? 0) && Z.even c = false /\ s16 (Z.quot (1 + c) 2) = n.
Proof.
  intros [[-> ->]|[Hn ->]]; [done|]. split.
  - rewrite (proj2 (Z.eqb_neq _ 0)) by lia. cbn [negb andb]. rewrite Z.even_sub, Z.even_mul. done.
  - replace (1 + (2 * n - 1)) with (n * 2) by lia. rewrite Z.quot_mul by lia. apply s16_small. lia.
Qed.

Lemma close_step t x s f c y n : y_stack y = x :: s -> y_curfunc y = f :: c -> x.1 = f ->
  counted n (num_args (y_num_args y) f) ->
  close_function t y = pret (Yard (y_outq y ++ [x]) s c (count_arg (head c) (<[f := n]> (y_num_args y))) (y_type y)).
Proof.
  intros Hs Hc Hx [H1 H2]%counted_args. unfold close_function. rewrite Hs, Hc, decide_True by done.
  cbv zeta. rewrite H1, H2. done.
Qed.

Lemma call_step i rp y ops lp x s f c n : is_type TOKEN_RIGHT_PARENTHESIS rp = true -> t_type lp.2 = TOKEN_LEFT_PARENTHESIS ->
  y_stack y = ops ++ lp :: x :: s -> t_type x.2 = TOKEN_FUNCTION -> y_curfunc y = f :: c -> x.1 = f ->
  (ops <> [] -> count_arg (Some f) (y_num_args y) = y_num_args y) -> Forall (pending 1) ops ->
  counted n (num_args (y_num_args y) f) ->
  yard_step i rp y = pret (Yard (y_outq y ++ ops ++ [x]) s c (count_arg (head c) (<[f := n]> (y_num_args y))) (y_type y)).
Proof.
  intros Hrp%is_type_eq Hlp Hs Hxt Hc Hx Hm Hops Hn. unfold yard_step. rewrite Hrp, Hs, Hc. cbn [head].
  rewrite pops_to by done. cbn [y_stack]. unfold is_type. rewrite bool_decide_eq_true_2 by done.
  erewrite close_step; [|reflexivity|exact Hc|exact Hx|exact Hn]. cbn [set_stack y_outq y_num_args y_type]. by rewrite <- app_assoc.
Qed.

Lemma vector_step i rb y ops x s f c n : is_type TOKEN_RIGHT_BRACKET rb = true -> t_type x.2 = TOKEN_LEFT_BRACKET ->
  y_stack y = ops ++ x :: s -> y_curfunc y = f :: c -> x.1 = f ->
  (ops <> [] -> count_arg (Some f) (y_num_args y) = y_num_args y) -> Forall (pending 1) ops ->
  counted n (num_args (y_num_args y) f) ->
  yard_step i rb y = pret (Yard (y_outq y ++ ops ++ [x]) s c (count_arg (head c) (<[f := n]> (y_num_args y))) (y_type y)).
Proof.
  intros Hrb%is_type_eq Hxt Hs Hc Hx Hm Hops Hn. unfold yard_step. rewrite Hrb, Hs, Hc. cbn [head].
  rewrite pops_to by done. cbn [y_stack].
  erewrite close_step; [|reflexivity|exact Hc|exact Hx|exact Hn]. cbn [set_stack y_outq y_num_args y_type]. by rewrite <- app_assoc.
Qed.

(** A comma. *)
Definition opener (x : item) : Prop := t_type x.2 = TOKEN_LEFT_PARENTHESIS \/ t_type x.2 = TOKEN_LEFT_BRACKET.

Lemma separator_step i sep y ops x s f c n : is_type TOKEN_SEPARATOR sep = true -> opener x ->
  y_stack y = ops ++ x :: s -> y_curfunc y = f :: c ->
  count_arg (Some f) (y_num_args y) = y_num_args y -> Forall (pending 1) ops ->
  num_args (y_num_args y) f = 2 * n - 1 -> 1 <= n < 16384 ->
  yard_step i sep y = pret (Yard (y_outq y ++ ops) (x :: s) (f :: c) (<[f := 2 * n]> (y_num_args y)) (y_type y)).
Proof.
  intros Hsep%is_type_eq Hx Hs Hc Hm Hops Hn Hb. unfold yard_step. rewrite Hsep, Hs, Hc. cbn [head].
  rewrite pop_while_spec; [|done|..].
  - cbn [y_num_args]. rewrite Hn, Z.even_sub, Z.even_mul. cbn [Z.even orb eqb]. rewrite s16_small by lia.
    replace (2 * n - 1 + 1) with (2 * n) by lia. by rewrite <- Hc.
  - eapply Forall_impl; [exact Hops|]. intros z Hz. by rewrite !(pending_not _ 1 z Hz).
  - unfold is_type. by destruct Hx as [-> | ->].
Qed.

(** * Expressions *)

(** Where an expression may begin. *)
Record ready (i : nat) (y : yard) : Prop := {
  rd_top : no_function_top (y_stack y);
  rd_cur : Forall (fun c => (c < i)%nat) (y_curfunc y);
  rd_dom : forall k, (i <= k)%nat -> y_num_args y !! k = None
}.

Definition runs_expr (e : pexpr) : Prop := forall i y rest, pexpr_ok e = true -> ready i y ->
  top_prec (y_stack y) < level e ->
  exists q ops args,
    yard_run i (ptoks e ++ rest) y =
      yard_run (i + length (ptoks e)) rest
        (Yard (y_outq y ++ q) (ops ++ y_stack y) (y_curfunc y) args (if pure e then y_type y else TOKEN_RPN)) /\
    left_by i (length (ptoks e)) (level e) args q ops (rpn e) /\
    agree i args (count_arg (head (y_curfunc y)) (y_num_args y)).

Definition runs_args (a : pargs) : Prop := forall i y rest x s f c n, pargs_ok a = true -> ready i y ->
  y_stack y = x :: s -> opener x -> y_curfunc y = f :: c ->
  num_args (y_num_args y) f = 2 * n -> 0 <= n -> n + count_args a <= 16384 ->
  exists q ops args,
    yard_run i (ptoks_args a ++ rest) y =
      yard_run (i + length (ptoks_args a)) rest
        (Yard (y_outq y ++ q) (ops ++ y_stack y) (y_curfunc y) args (if pure_args a then y_type y else TOKEN_RPN)) /\
    left_by i (length (ptoks_args a)) 1 args q ops (rpn_args a) /\
    match a with
    | PNil => args = y_num_args y
    | _ => num_args args f = 2 * (n + count_args a) - 1 /\ count_arg (Some f) args = args /\
           (forall k, (k < i)%nat -> k <> f -> args !! k = y_num_args y !! k)
    end.

Lemma head_lt i (l : list nat) : Forall (fun c => (c < i)%nat) l -> forall k, head l = Some k -> (k < i)%nat.
Proof. destruct 1; [done|]. by intros k [= <-]. Qed.

Lemma with_args_none args i t : args !! i = None -> with_args args (i, t) = t.
Proof. intros H. unfold with_args. cbn. by rewrite H. Qed.

Lemma count_arg_none f args i k : (forall k, f = Some k -> (k < i)%nat) -> (i <= k)%nat -> args !! k = None ->
  count_arg f args !! k = None.
Proof. intros Hf Hk H. rewrite count_arg_other; [done|]. intros E. specialize (Hf k E). lia. Qed.

Lemma run_leaf t : runs_expr (PLeaf t).
Proof.
  intros i y rest Hok [Htop Hcur Hdom] _. cbn [pexpr_ok ptoks level rpn pure app length] in *.
  exists [(i, t)], [], (count_arg (head (y_curfunc y)) (y_num_args y)). split_and!.
  - rewrite (yard_run_cons i t rest y _ (value_yard_step i t y Hok)). rewrite Nat.add_1_r.
    by destruct (negb (is_bound t)).
  - split; [|by repeat constructor; cbn; lia|done|].
    + cbn [app map]. rewrite with_args_none; [done|].
      eapply count_arg_none; [by apply head_lt|done|by apply Hdom].
    + intros k Hk. eapply count_arg_none; [by apply head_lt| |apply Hdom]; lia.
  - done.
Qed.

Lemma run_bin l op r : runs_expr l -> runs_expr r -> runs_expr (PBin l op r).
Proof.
  intros IHl IHr i y rest Hok Hy Htop. cbn [pexpr_ok] in Hok. rewrite !andb_true_iff, Z.leb_le, Z.ltb_lt in Hok.
  destruct Hok as [[[[Hop Hl] Hr] Hokl] Hokr]. pose proof Hy as [Htop0 Hcur Hdom].
  set (p := level (PBin l op r)) in *. change (tokenprecedence (t_type op)) with p in *.
  cbn [ptoks rpn pure]. rewrite <- app_assoc. cbn [app]. pose proof (level_pos l Hokl) as Hpl.
  assert (1 <= p) as Hp1 by (unfold p; cbn [level]; unfold is_binop in Hop; by destruct (t_type op)).
  destruct (IHl i y (op :: ptoks r ++ rest) Hokl Hy) as (q1 & ops1 & a1 & E1 & L1 & A1); [lia|].
  set (j := (i + length (ptoks l))%nat) in *. set (ty1 := if pure l then y_type y else TOKEN_RPN) in *.
  destruct L1 as [Ho1 Hp1' Hs1 Hd1].
  assert (yard_step j op (Yard (y_outq y ++ q1) (ops1 ++ y_stack y) (y_curfunc y) a1 ty1) =
    pret (Yard ((y_outq y ++ q1) ++ ops1) ((j, op) :: y_stack y) (y_curfunc y) a1 ty1)) as Eop.
  { apply (binop_step j op ops1 (y_stack y)); [done|done| |exact Htop]. eapply pending_weaken; [exact Hs1|]. change (tokenprecedence (t_type op)) with p. lia. }
  assert (ready (S j) (Yard ((y_outq y ++ q1) ++ ops1) ((j, op) :: y_stack y) (y_curfunc y) a1 ty1)) as Hy1.
  { split; cbn.
    - intros Ht. unfold is_binop in Hop. by rewrite Ht in Hop.
    - eapply Forall_impl; [exact Hcur|]. cbn. unfold j. lia.
    - intros k Hk. apply Hd1. unfold j in Hk. lia. }
  destruct (IHr (S j) _ rest Hokr Hy1) as (q2 & ops2 & a2 & E2 & L2 & A2); [cbn; exact Hr|].
  cbn [y_outq y_stack y_curfunc y_num_args y_type] in *.
  assert (forall k, (i <= k < S j)%nat -> a2 !! k = a1 !! k) as Ha2.
  { intros k Hk. rewrite A2 by lia. apply count_arg_other. intros E. apply (head_lt i) in E; [lia|done]. }
  exists (q1 ++ ops1 ++ q2), (ops2 ++ [(j, op)]), a2. split_and!.
  - rewrite E1, (yard_run_cons j op _ _ _ Eop), E2. f_equal; [rewrite length_app; cbn; lia|].
    rewrite <- !app_assoc. f_equal. unfold ty1. by destruct (pure l), (pure r).
  - destruct L2 as [Ho2 Hp2 Hs2 Hd2]. split.
    + rewrite <- !app_assoc, (app_assoc q1), (app_assoc q2), (map_app _ (q1 ++ ops1)), (map_app _ (q2 ++ ops2)), Ho2, <- Ho1.
      f_equal; [|f_equal; cbn; rewrite with_args_none; [done|rewrite Ha2 by lia; apply Hd1; unfold j; lia]].
      apply with_args_ext. eapply Forall_impl; [exact Hp1'|]. cbn. intros x Hx. apply Ha2. unfold j. lia.
    + rewrite <- !app_assoc, (app_assoc q1), (app_assoc q2). rewrite length_app. cbn [length]. apply Forall_app. split.
      { eapply places_weaken; [exact Hp1'|lia..]. }
      apply Forall_app. split; [eapply places_weaken; [exact Hp2|unfold j; lia..]|]. apply Forall_singleton. cbn. unfold j. lia.
    + apply Forall_app. split; [eapply pending_weaken; [exact Hs2|lia]|]. apply Forall_singleton. split; [lia|]. unfold p. cbn [level snd]. lia.
    + intros k Hk. apply Hd2. rewrite length_app in Hk. cbn in Hk. unfold j. lia.
  - intros k Hk. rewrite A2 by (unfold j; lia).
    transitivity (count_arg (head (y_curfunc y)) (count_arg (head (y_curfunc y)) (y_num_args y)) !! k); [|by rewrite count_arg_idemp].
    apply (count_arg_agree i); [by apply head_lt|exact A1|done].
Qed.

Lemma run_not op e : runs_expr e -> runs_expr (PNot op e).
Proof.
  intros IH i y rest Hok [Htop0 Hcur Hdom] Htop. cbn [pexpr_ok] in Hok. rewrite !andb_true_iff, Z.ltb_lt in Hok.
  destruct Hok as [[Hop Hlev] Hok]. cbn [level ptoks rpn pure app] in *. pose proof (is_type_eq _ _ Hop) as Hty.
  assert (ready (S i) (push (i, op) y)) as Hy1.
  { split; cbn; [by rewrite Hty|eapply Forall_impl; [exact Hcur|]; cbn; lia|intros k Hk; apply Hdom; lia]. }
  destruct (IH (S i) (push (i, op) y) rest Hok Hy1) as (q & ops & a & E & [Ho Hp Hs Hd] & A); [cbn; rewrite Hty; cbn; lia|].
  cbn [push y_outq y_stack y_curfunc y_num_args y_type] in *.
  exists q, (ops ++ [(i, op)]), a. split_and!.
  - rewrite (yard_run_cons i op _ _ _ (not_step i op y Hop Htop)), E. f_equal; [cbn; lia|]. by rewrite <- app_assoc.
  - split.
    + rewrite app_assoc, map_app, Ho. cbn [map]. rewrite with_args_none; [done|]. rewrite A by lia.
      eapply count_arg_none; [by apply head_lt|done|]. apply Hdom. lia.
    + rewrite app_assoc. cbn [length]. apply Forall_app. split; [eapply places_weaken; [exact Hp|lia..]|].
      apply Forall_singleton. cbn. lia.
    + apply Forall_app. split; [eapply pending_weaken; [exact Hs|lia]|]. apply Forall_singleton.
      split; [lia|]. cbn. rewrite Hty. cbn. lia.
    + intros k Hk. apply Hd. cbn [length] in Hk. lia.
  - intros k Hk. apply A. lia.
Qed.

Lemma run_paren lp e rp : runs_expr e -> runs_expr (PParen lp e rp).
Proof.
  intros IH i y rest Hok [Htop0 Hcur Hdom] _. cbn [pexpr_ok] in Hok. rewrite !andb_true_iff in Hok.
  destruct Hok as [[Hlp Hrp] Hok]. cbn [level ptoks rpn pure app] in *. rewrite <- app_assoc. cbn [app].
  pose proof (is_type_eq _ _ Hlp) as Hty. pose proof (level_pos e Hok) as Hlev.
  assert (yard_step i lp y = pret (push (i, lp) y)) as Elp by (unfold yard_step; by rewrite Hty).
  assert (ready (S i) (push (i, lp) y)) as Hy1.
  { split; cbn; [by rewrite Hty|eapply Forall_impl; [exact Hcur|]; cbn; lia|intros k Hk; apply Hdom; lia]. }
  destruct (IH (S i) (push (i, lp) y) (rp :: rest) Hok Hy1) as (q & ops & a & E & L & A); [cbn; rewrite Hty; cbn; lia|].
  cbn [push y_outq y_stack y_curfunc y_num_args y_type] in *.
  rewrite (yard_run_cons i lp _ _ _ Elp), E. pose proof L as [Ho Hp Hs Hd].
  erewrite yard_run_cons; [|eapply (paren_step _ rp _ ops (i, lp) (y_stack y)); try done].
  2: { cbn. eapply agree_marked; [|exact A]. intros k Hk. apply (head_lt i) in Hk; [lia|done]. }
  2: { eapply pending_weaken; [exact Hs|lia]. }
  exists (q ++ ops), [], a. split_and!.
  - cbn [y_outq y_curfunc y_num_args y_type app length]. rewrite length_app. cbn [length]. rewrite <- app_assoc. f_equal. lia.
  - split; rewrite ?app_nil_r; [done| |done|].
    + cbn [length]. rewrite length_app. cbn. eapply places_weaken; [exact Hp|lia..].
    + intros k Hk. cbn [length] in Hk. rewrite length_app in Hk. cbn in Hk. apply Hd. lia.
  - intros k Hk. apply A. lia.
Qed.

(** A function or vector that is closed at the end of its arguments. *)
Lemma closed i d n args a2 q ops out x cnt f : x.1 = i -> (1 <= d)%nat -> (forall k, f = Some k -> (k < i)%nat) ->
  left_by (i + d) n 1 a2 q ops out -> (forall k, (k < i)%nat -> a2 !! k = args !! k) ->
  left_by i (d + n + 1) 12 (count_arg f (<[i := cnt]> a2)) (q ++ ops ++ [x]) [] (out ++ [set_num_args cnt x.2]) /\
  agree i (count_arg f (<[i := cnt]> a2)) (count_arg f args).
Proof.
  intros Hx Hd Hf L Ha. pose proof L as [Ho Hp Hs Hdom].
  assert (forall k, f <> Some k -> k <> i -> count_arg f (<[i:=cnt]> a2) !! k = a2 !! k) as Hk.
  { intros k H1 H2. rewrite count_arg_other by done. by rewrite lookup_insert_ne. }
  split; [split|].
  - rewrite app_nil_r, app_assoc, map_app. f_equal.
    + eapply left_out; [exact L|]. intros k Hk'. apply Hk; [|lia]. intros E. apply Hf in E. lia.
    + cbn. unfold with_args. rewrite Hx. rewrite count_arg_other by (intros E; apply Hf in E; lia). by rewrite lookup_insert_eq.
  - rewrite app_nil_r, app_assoc. apply Forall_app. split; [eapply places_weaken; [exact Hp|lia..]|].
    apply Forall_singleton. lia.
  - constructor.
  - intros k Hk'. rewrite Hk; [apply Hdom; lia| |lia]. intros E. apply Hf in E. lia.
  - apply count_arg_agree; [done|]. intros k Hk'. rewrite lookup_insert_ne by lia. by apply Ha.
Qed.

(** What the arguments leave for the token that closes them. *)
Lemma args_counted a f args args0 q ops i n : num_args args0 f = 0 -> count_args a <= 16384 ->
  left_by i n 1 args q ops (rpn_args a) ->
  match a with
  | PNil => args = args0
  | _ => num_args args f = 2 * (0 + count_args a) - 1 /\ count_arg (Some f) args = args /\
         (forall k, (k < i)%nat -> k <> f -> args !! k = args0 !! k)
  end ->
  counted (count_args a) (num_args args f) /\ (ops <> [] -> count_arg (Some f) args = args) /\
  (forall k, (k < i)%nat -> k <> f -> args !! k = args0 !! k).
Proof.
  intros H0 Hc L H. assert (forall a, 0 <= count_args a) as Hpos by (clear; induction a; cbn; lia).
  destruct a as [|e|e sep a].
  - subst args. split_and!; [left; by rewrite H0| |done]. intros Hops. destruct L as [Ho _ _ _]. cbn in Ho.
    apply map_eq_nil in Ho. apply app_eq_nil in Ho as [_ ->]. done.
  - destruct H as (H1 & H2 & H3). split_and!; [right; cbn in *; lia|done|done].
  - destruct H as (H1 & H2 & H3). specialize (Hpos a). split_and!; [right; cbn [count_args] in *; lia|done|done].
Qed.

Lemma head_not_self i (l : list nat) : Forall (fun c => (c < i)%nat) l -> forall k, head l = Some k -> k <> i.
Proof. intros H k Hk. apply (head_lt i) in Hk; [lia|done]. Qed.

Lemma run_call f lp a rp : runs_args a -> runs_expr (PCall f lp a rp).
Proof.
  intros IH i y rest Hok [Htop0 Hcur Hdom] _. cbn [pexpr_ok] in Hok. rewrite !andb_true_iff, Z.eqb_eq, Z.leb_le in Hok.
  destruct Hok as [[[[[Hf Hf0] Hlp] Hrp] Hcnt] Hok]. pose proof (is_type_eq _ _ Hf) as Htf. pose proof (is_type_eq _ _ Hlp) as Htl.
  cbn [level ptoks rpn pure app] in *. rewrite <- app_assoc. cbn [app].
  set (y1 := push (S i, lp) (push (i, f) (set_args i 0 (set_curfunc (i :: y_curfunc y) (set_ytype TOKEN_RPN y))))).
  assert (yard_run i (f :: lp :: ptoks_args a ++ rp :: rest) y = yard_run (S (S i)) (ptoks_args a ++ rp :: rest) y1) as ->.
  { erewrite yard_run_cons; [|unfold yard_step; rewrite Htf; reflexivity].
    erewrite yard_run_cons; [|unfold yard_step; rewrite Htl; reflexivity]. by rewrite Hf0. }
  assert (ready (S (S i)) y1) as Hy1.
  { split; cbn; [by rewrite Htl| |intros k Hk; rewrite lookup_insert_ne by lia; apply Hdom; lia].
    constructor; [lia|]. eapply Forall_impl; [exact Hcur|]. cbn. lia. }
  destruct (IH (S (S i)) y1 (rp :: rest) (S i, lp) ((i, f) :: y_stack y) i (y_curfunc y) 0 Hok Hy1) as (q & ops & a2 & E & L & A);
    [done|by left|done|by apply num_args_insert|done|done|].
  unfold y1 in A. cbn [push set_args set_curfunc set_ytype y_outq y_stack y_curfunc y_num_args y_type] in A.
  rewrite E. unfold y1. cbn [push set_args set_curfunc set_ytype y_outq y_stack y_curfunc y_num_args y_type].
  destruct (args_counted a i a2 _ q ops _ _ (num_args_insert i 0 _) Hcnt L A) as (Hn & Hm & Ha).
  pose proof L as [Ho Hp Hs Hd]. set (m := length (ptoks_args a)) in *.
  erewrite yard_run_cons; [|eapply (call_step _ rp _ ops (S i, lp) (i, f) (y_stack y) i (y_curfunc y) (count_args a)); try done].
  cbn [y_outq y_num_args y_type].
  destruct (closed i 2 m (y_num_args y) a2 q ops (rpn_args a) (i, f) (count_args a) (head (y_curfunc y)))
    as [Hl Hag]; [done|lia|by apply head_lt| |intros k Hk; rewrite Ha by lia; by rewrite lookup_insert_ne by lia|].
  { replace (i + 2)%nat with (S (S i)) by lia. exact L. }
  exists (q ++ ops ++ [(i, f)]), [], (count_arg (head (y_curfunc y)) (<[i:=count_args a]> a2)).
  assert (length (f :: lp :: ptoks_args a ++ [rp]) = 2 + m + 1)%nat as Hlen by (cbn [length]; rewrite length_app; cbn; lia).
  rewrite Hlen. split_and!; [|exact Hl|exact Hag].
  cbn [app]. rewrite <- app_assoc. replace (S (S (S i) + m)) with (i + (2 + m + 1))%nat by lia. by destruct (pure_args a).
Qed.

Lemma run_vec lb a rb : runs_args a -> runs_expr (PVec lb a rb).
Proof.
  intros IH i y rest Hok [Htop0 Hcur Hdom] _. cbn [pexpr_ok] in Hok. rewrite !andb_true_iff, Z.eqb_eq, Z.leb_le in Hok.
  destruct Hok as [[[[Hf Hf0] Hrb] Hcnt] Hok]. pose proof (is_type_eq _ _ Hf) as Htf.
  cbn [level ptoks rpn pure app] in *. rewrite <- app_assoc. cbn [app].
  set (y1 := push (i, lb) (set_args i 0 (set_curfunc (i :: y_curfunc y) y))).
  assert (yard_run i (lb :: ptoks_args a ++ rb :: rest) y = yard_run (S i) (ptoks_args a ++ rb :: rest) y1) as ->.
  { erewrite yard_run_cons; [|unfold yard_step; rewrite Htf; reflexivity]. by rewrite Hf0. }
  assert (ready (S i) y1) as Hy1.
  { split; cbn; [by rewrite Htf| |intros k Hk; rewrite lookup_insert_ne by lia; apply Hdom; lia].
    constructor; [lia|]. eapply Forall_impl; [exact Hcur|]. cbn. lia. }
  destruct (IH (S i) y1 (rb :: rest) (i, lb) (y_stack y) i (y_curfunc y) 0 Hok Hy1) as (q & ops & a2 & E & L & A);
    [done|by right|done|by apply num_args_insert|done|done|].
  unfold y1 in A. cbn [push set_args set_curfunc y_outq y_stack y_curfunc y_num_args y_type] in A.
  rewrite E. unfold y1. cbn [push set_args set_curfunc y_outq y_stack y_curfunc y_num_args y_type].
  destruct (args_counted a i a2 _ q ops _ _ (num_args_insert i 0 _) Hcnt L A) as (Hn & Hm & Ha).
  pose proof L as [Ho Hp Hs Hd]. set (m := length (ptoks_args a)) in *.
  erewrite yard_run_cons; [|eapply (vector_step _ rb _ ops (i, lb) (y_stack y) i (y_curfunc y) (count_args a)); try done].
  cbn [y_outq y_num_args y_type].
  destruct (closed i 1 m (y_num_args y) a2 q ops (rpn_args a) (i, lb) (count_args a) (head (y_curfunc y)))
    as [Hl Hag]; [done|lia|by apply head_lt| |intros k Hk; rewrite Ha by lia; by rewrite lookup_insert_ne by lia|].
  { replace (i + 1)%nat with (S i) by lia. exact L. }
  exists (q ++ ops ++ [(i, lb)]), [], (count_arg (head (y_curfunc y)) (<[i:=count_args a]> a2)).
  assert (length (lb :: ptoks_args a ++ [rb]) = 1 + m + 1)%nat as Hlen by (cbn [length]; rewrite length_app; cbn; lia).
  rewrite Hlen. split_and!; [|exact Hl|exact Hag].
  cbn [app]. rewrite <- app_assoc. replace (S (S i + m)) with (i + (1 + m + 1))%nat by lia. by destruct (pure_args a).
Qed.

Lemma run_nil : runs_args PNil.
Proof.
  intros i y rest x s f c n _ [Htop Hcur Hdom] Hs Hx Hc Hn H0 Hb. exists [], [], (y_num_args y). split_and!; [|split|done].
  - cbn. rewrite app_nil_r, Nat.add_0_r. by destruct y.
  - done.
  - constructor.
  - constructor.
  - intros k Hk. apply Hdom. cbn in Hk. lia.
Qed.

(** An expression as an argument. *)
Lemma run_arg e i y rest x s f c n : runs_expr e -> pexpr_ok e = true -> ready i y ->
  y_stack y = x :: s -> opener x -> y_curfunc y = f :: c ->
  num_args (y_num_args y) f = 2 * n -> 0 <= n < 16384 ->
  exists q ops args,
    yard_run i (ptoks e ++ rest) y =
      yard_run (i + length (ptoks e)) rest
        (Yard (y_outq y ++ q) (ops ++ x :: s) (f :: c) args (if pure e then y_type y else TOKEN_RPN)) /\
    left_by i (length (ptoks e)) 1 args q ops (rpn e) /\
    num_args args f = 2 * (n + 1) - 1 /\ count_arg (Some f) args = args /\
    (forall k, (k < i)%nat -> k <> f -> args !! k = y_num_args y !! k).
Proof.
  intros IH Hok Hy Hs Hx Hc Hn Hb. pose proof (level_pos e Hok) as Hlev. pose proof Hy as [_ Hcur _].
  destruct (IH i y rest Hok Hy) as (q & ops & a & E & L & A).
  { rewrite Hs. cbn. destruct Hx as [-> | ->]; cbn; lia. }
  rewrite Hs, Hc in *. cbn [head] in A. exists q, ops, a. apply Forall_cons in Hcur as [Hf _].
  assert (agree i a (<[f := 2 * n + 1]> (y_num_args y))) as A'.
  { cbn [count_arg] in A. rewrite Hn, Z.even_mul in A. cbn [Z.even orb] in A. by rewrite s16_small in A by lia. }
  split_and!; [done| | | |].
  - destruct L as [H1 H2 H3 H4]. split; [done|done| |done]. eapply pending_weaken; [exact H3|lia].
  - unfold num_args. rewrite (A' f Hf), lookup_insert_eq. cbn. lia.
  - eapply agree_marked; [|exact A]. by intros k [= <-].
  - intros k Hk Hkf. rewrite (A' k Hk). by rewrite lookup_insert_ne.
Qed.

Lemma run_one e : runs_expr e -> runs_args (POne e).
Proof.
  intros IH i y rest x s f c n Hok Hy Hs Hx Hc Hn H0 Hb. cbn [count_args pargs_ok ptoks_args rpn_args pure_args] in *.
  destruct (run_arg e i y rest x s f c n IH Hok Hy Hs Hx Hc Hn) as (q & ops & a & E & L & A); [lia|].
  exists q, ops, a. by rewrite Hs, Hc.
Qed.

Lemma run_more e sep a : runs_expr e -> runs_args a -> runs_args (PMore e sep a).
Proof.
  intros IHe IHa i y rest x s f c n Hok Hy Hs Hx Hc Hn H0 Hb. cbn [pargs_ok] in Hok. rewrite !andb_true_iff in Hok.
  destruct Hok as [[[Hsep Hoke] Hoka] Hne]. cbn [count_args ptoks_args rpn_args pure_args] in *.
  pose proof Hy as [_ Hcur Hdom]. rewrite Hc in Hcur. pose proof Hcur as [Hf _]%Forall_cons.
  assert (1 <= count_args a) as Ha1.
  { assert (forall a, 0 <= count_args a) as Hpos by (clear; induction a; cbn; lia).
    destruct a as [| |? ? a]; [done|cbn; lia|cbn; specialize (Hpos a); lia]. }
  rewrite <- app_assoc. cbn [app].
  destruct (run_arg e i y (sep :: ptoks_args a ++ rest) x s f c n IHe Hoke Hy Hs Hx Hc Hn) as (q1 & ops1 & a1 & E1 & L1 & N1 & M1 & A1); [lia|].
  pose proof L1 as [Ho1 Hp1 Hs1 Hd1]. set (j := (i + length (ptoks e))%nat) in *.
  set (ty1 := if pure e then y_type y else TOKEN_RPN) in *.
  set (y2 := Yard ((y_outq y ++ q1) ++ ops1) (x :: s) (f :: c) (<[f := 2 * (n + 1)]> a1) ty1).
  assert (yard_step j sep (Yard (y_outq y ++ q1) (ops1 ++ x :: s) (f :: c) a1 ty1) = pret y2) as Esep.
  { apply (separator_step j sep (Yard (y_outq y ++ q1) (ops1 ++ x :: s) (f :: c) a1 ty1) ops1 x s f c (n + 1)); try done. lia. }
  assert (ready (S j) y2) as Hy2.
  { split; cbn.
    - destruct Hx as [-> | ->]; done.
    - eapply Forall_impl; [exact Hcur|]. cbn. unfold j. lia.
    - intros k Hk. rewrite lookup_insert_ne by (unfold j in Hk; lia). apply Hd1. unfold j in Hk. lia. }
  destruct (IHa (S j) y2 rest x s f c (n + 1) Hoka Hy2) as (q2 & ops2 & a2 & E2 & L2 & A2);
    [done|done|done|by apply num_args_insert|lia|lia|].
  assert (num_args a2 f = 2 * (n + 1 + count_args a) - 1 /\ count_arg (Some f) a2 = a2 /\
    (forall k, (k < S j)%nat -> k <> f -> a2 !! k = a1 !! k)) as (N2 & M2 & A2').
  { assert (forall k, (k < S j)%nat -> k <> f -> (<[f:=2 * (n + 1)]> a1) !! k = a1 !! k) as Hi by (intros; by rewrite lookup_insert_ne).
    destruct a; [done|..]; destruct A2 as (N2 & M2 & A2); split_and!; try done;
      intros k Hk Hkf; (rewrite A2 by done; apply Hi; done). }
  exists (q1 ++ ops1 ++ q2), ops2, a2. split_and!.
  - rewrite E1, (yard_run_cons j sep _ _ _ Esep), E2. unfold y2. cbn [y_outq y_stack y_curfunc y_type].
    rewrite Hs, Hc, <- !app_assoc. f_equal; [rewrite length_app; cbn; unfold j; lia|]. f_equal. unfold ty1. by destruct (pure e), (pure_args a).
  - destruct L2 as [Ho2 Hp2 Hs2 Hd2]. split.
    + rewrite <- !app_assoc, (app_assoc q1), map_app, Ho2. f_equal. eapply left_out; [exact L1|].
      intros k Hk. apply A2'; unfold j; lia.
    + rewrite <- !app_assoc, (app_assoc q1). rewrite length_app. cbn [length]. apply Forall_app. split.
      { eapply places_weaken; [exact Hp1|lia..]. } eapply places_weaken; [exact Hp2|unfold j; lia..].
    + done.
    + intros k Hk. apply Hd2. rewrite length_app in Hk. cbn in Hk. unfold j. lia.
  - rewrite N2. lia.
  - done.
  - intros k Hk Hkf. rewrite A2' by (unfold j; lia). by apply A1.
Qed.

Lemma run_pexpr : (forall e, runs_expr e) /\ (forall a, runs_args a).
Proof.
  apply pexpr_pargs_ind; intros.
  - apply run_leaf.
  - by apply run_bin.
  - by apply run_not.
  - by apply run_paren.
  - by apply run_call.
  - by apply run_vec.
  - apply run_nil.
  - by apply run_one.
  - by apply run_more.
Qed.

(** * The whole expression *)

Lemma yard_finish_spec ops y : Forall (pending 1) ops -> count_arg (head (y_curfunc y)) (y_num_args y) = y_num_args y ->
  exists y', yard_finish ops y = pret y' /\ y_outq y' = y_outq y ++ ops /\ y_num_args y' = y_num_args y /\ y_type y' = y_type y.
Proof.
  intros Hops. revert y. induction Hops as [|x ops Hx Hops IH]; intros y Hm; cbn [yard_finish].
  - exists y. by rewrite app_nil_r.
  - rewrite !(pending_not _ 1 x Hx) by done. cbn [orb].
    destruct (IH (enqueue x (head (y_curfunc y)) y)) as (y' & E & H1 & H2 & H3); [cbn; by rewrite !Hm|].
    exists y'. rewrite E, H1, H2, H3. cbn. by rewrite Hm, <- app_assoc.
Qed.

(** The type of an expression whose notation is known: assignments to the style
    are always pure. *)
Definition expr_type (pure : bool) (out : list token) : token_type :=
  match out with
  | t :: _ =>
      if is_type TOKEN_RESOLVED_ATTRIBUTE t &&
         match t_attrib t with Some a => bool_decide (at_name a = lit "style") | None => false end
      then TOKEN_PURE_RPN else if pure then TOKEN_PURE_RPN else TOKEN_RPN
  | [] => TOKEN_RPN
  end.
(** A resolved attribute has one. *)
Definition attrib_ok (t : token) : bool :=
  negb (is_type TOKEN_RESOLVED_ATTRIBUTE t) || match t_attrib t with Some _ => true | None => false end.

Lemma rpn_nonempty : (forall e, rpn e <> []) /\ (forall a : pargs, True).
Proof.
  apply pexpr_pargs_ind; cbn; try done; intros; intros E; repeat (apply app_eq_nil in E as [? E]); done.
Qed.

(** C8: For the tokens of an expression, with operands that bind as tightly as the
    operators around them ask for, the shunting yard gives its reverse Polish
    notation, with the number of arguments of each function and vector (up to
    what the counter holds, 16384), and finds it pure exactly when nothing in it
    depends on the place it is evaluated at. *)
Theorem parse_shunting_yard_rpn e : pexpr_ok e = true -> forallb attrib_ok (rpn e) = true ->
  parse_shunting_yard (ptoks e) = Ok (inr (expr_type (pure e) (rpn e), rpn e)).
Proof.
  intros Hok Hatt. pose proof (level_pos e Hok) as Hlev. unfold parse_shunting_yard.
  destruct (proj1 run_pexpr e 0%nat yard_start [] Hok) as (q & ops & a & E & [Ho Hp Hs Hd] & A).
  { split; [done|constructor|]. intros k _. apply lookup_empty. }
  { cbn. lia. }
  rewrite app_nil_r in E. rewrite E. cbn [yard_run]. rewrite pbind_ret. cbn [y_stack yard_start y_outq y_curfunc y_type app].
  rewrite app_nil_r.
  destruct (yard_finish_spec ops (Yard q ops [] a (if pure e then TOKEN_PURE_RPN else TOKEN_RPN))) as (y' & -> & H1 & H2 & H3); [|done|].
  { eapply pending_weaken; [exact Hs|lia]. }
  cbn [y_outq y_num_args y_type] in *. rewrite pbind_ret, H1, H2, H3, Ho.
  destruct (q ++ ops) as [|x l] eqn:El; [by destruct (proj1 rpn_nonempty e)|].
  rewrite <- Ho in *. cbn [map expr_type forallb] in *. apply andb_true_iff in Hatt as [Hx _].
  assert (t_type (with_args a x) = t_type x.2 /\ t_attrib (with_args a x) = t_attrib x.2) as [Et Ea].
  { unfold with_args. by destruct (a !! x.1). }
  unfold attrib_ok, is_type in *. rewrite Et, Ea in *. destruct (bool_decide (t_type x.2 = TOKEN_RESOLVED_ATTRIBUTE)); [|done].
  destruct (t_attrib x.2); [|done]. cbn [andb]. by destruct (bool_decide _).
Qed.

(** [f(1, [2]) == ($a + 1) * !1] *)
Definition demo_expr : pexpr :=
  let tok ty := new_token [] 1 ty VNone in
  let num := PLeaf (tok TOKEN_FLOAT) in
  let a := PLeaf (tok TOKEN_PROPERTY_NAME) in
  PBin (PCall (tok TOKEN_FUNCTION) (tok TOKEN_LEFT_PARENTHESIS)
         (PMore num (tok TOKEN_SEPARATOR) (POne (PVec (tok TOKEN_LEFT_BRACKET) (POne num) (tok TOKEN_RIGHT_BRACKET))))
         (tok TOKEN_RIGHT_PARENTHESIS))
    (tok TOKEN_EQ)
    (PBin (PParen (tok TOKEN_LEFT_PARENTHESIS) (PBin a (tok TOKEN_ADD) num) (tok TOKEN_RIGHT_PARENTHESIS))
      (tok TOKEN_MULTIPLY) (PNot (tok TOKEN_BOOLEAN_NOT) num)).

Lemma parse_shunting_yard_rpn_witness :
  parse_shunting_yard (ptoks demo_expr) = Ok (inr (expr_type (pure demo_expr) (rpn demo_expr), rpn demo_expr)) /\
  map t_num_args (rpn demo_expr) = [0; 0; 1; 2; 0; 0; 0; 0; 0; 0; 0].
Proof.
  split; [|vm_compute; reflexivity]. apply (parse_shunting_yard_rpn demo_expr); vm_compute; reflexivity.
Defined.
