(* ===== verification/GlwFlags.v ===== *)
(** What the merging of flags does to a view (glw_view_attrib.c): the statements
    that set and clear flags of a widget are collected in one, which does the
    same when no flag is both set and cleared.  Statements are evaluated as
    [glw_view_eval_block] does (glw_view_eval.c); what an expression and an
    attribute that is no flag do to the flags of the widget is a parameter. *)
From S2P Require Import Prelude Clib GlwToken GlwParser.
From Stdlib Require Import SpecFloat.

Local Open Scope Z_scope.

(** * The flags of a widget *)

#[export] Instance attrib_fn_eq_dec : EqDecision attrib_fn.
Proof. solve_decision. Defined.
#[export] Instance token_attrib_eq_dec : EqDecision token_attrib.
Proof. solve_decision. Defined.

(** The kind of flags of a merged statement, by the attribute it was given. *)
Definition or_kind (a : token_attrib) : option attrib_fn :=
  List.find (fun k => bool_decide (or_attrib k = Some a)) [ModFlags2; ModImgFlags; ModTextFlags].

(** [t_float > 0.5]. *)
Definition above_half (f : spec_float) : bool :=
  match f with
  | S754_finite false m e => if -1 <=? e then 1 <? Z.pos m * 2 ^ (e + 1) else 2 ^ (- (e + 1)) <? Z.pos m
  | S754_infinity false => true
  | _ => false
  end.

(** What a statement does to the flags of a kind: it fails, or sets some and
    clears some. *)
Notation effect := (res (option (Z * Z))).

(** [mod_flag]: the flag [flag] of its kind, by a value. *)
Definition mod_flag (flag : Z) (t : token) : effect :=
  let change v := Ok (Some (if v : bool then (flag, 0) else (0, flag))) in
  match t_type t, t_val t with
  | TOKEN_INT, VInt i => change (negb (i =? 0))
  | TOKEN_FLOAT, VFloat f => change (above_half f)
  | TOKEN_VOID, _ => change false
  | TOKEN_INT, _ | TOKEN_FLOAT, _ => Fault Uninitialised
  | _, _ => Ok None
  end.

(** [or_flags2_fn], [or_img_flags_fn] and [or_txt_flags_fn]. *)
Definition or_flags_fn (t : token) : effect :=
  match t_val t with VModFlags set clr => Ok (Some (set, clr)) | _ => Fault Uninitialised end.

(** [mod_flags] of the kind at hand, of what is done to those of another. *)
Definition of_kind (same : bool) (e : effect) : effect :=
  if same then e else match e with Ok (Some _) => Ok (Some (0, 0)) | _ => e end.

(** [mod_flags] and [mod_flags2], on the word of flags. *)
Definition mod_flags (w : Z) (sc : Z * Z) : Z :=
  let set := Z.ldiff sc.1 w in
  let w := Z.lor w set in
  let clr := Z.land sc.2 w in
  Z.ldiff w clr.

Section eval.
Variable rpn other : attrib_fn -> token -> effect.

(** The attribute of a statement is set. *)
Definition set_flags_of (k : attrib_fn) (t : token) : effect :=
  match t_attrib t with
  | None => Fault NullDeref
  | Some a =>
      match at_fn a with
      | ModOther =>
          match or_kind a with
          | Some k' => of_kind (bool_decide (k' = k)) (or_flags_fn t)
          | None => other k t
          end
      | k' => of_kind (bool_decide (k' = k)) (mod_flag (at_attrib a) t)
      end
  end.

(** One round of [glw_view_eval_block]. *)
Definition eval_statement (k : attrib_fn) (t : token) : effect :=
  match t_type t with
  | TOKEN_NOP => Ok (Some (0, 0))
  | TOKEN_RPN | TOKEN_PURE_RPN => rpn k t
  | TOKEN_FLOAT | TOKEN_INT | TOKEN_VECTOR_FLOAT | TOKEN_VOID | TOKEN_CSTRING | TOKEN_RSTRING | TOKEN_IDENTIFIER
  | TOKEN_MOD_FLAGS => set_flags_of k t
  | _ => Fault AssertFailed
  end.

(** The statements of a block, in order: the flags of a kind that a widget has
    after them, unless one fails. *)
Fixpoint eval_flags (k : attrib_fn) (ts : list token) (w : Z) : res (option Z) :=
  match ts with
  | [] => Ok (Some w)
  | t :: ts => e ← eval_statement k t; match e with Some sc => eval_flags k ts (mod_flags w sc) | None => Ok None end
  end.

(** The flags of kind [k] that a statement sets and clears. *)
Definition flags_of (k : attrib_fn) (t : token) : Z * Z :=
  match eval_statement k t with Ok (Some sc) => sc | _ => (0, 0) end.

(** All the flags that are set, and cleared. *)
Definition all_set (k : attrib_fn) (ts : list token) : Z := foldr (fun t s => Z.lor (flags_of k t).1 s) 0 ts.
Definition all_clr (k : attrib_fn) (ts : list token) : Z := foldr (fun t s => Z.lor (flags_of k t).2 s) 0 ts.

(** * Lemmas *)

Lemma mod_flags_spec w sc : mod_flags w sc = Z.ldiff (Z.lor w sc.1) sc.2.
Proof.
  unfold mod_flags. cbv zeta. apply Z.bits_inj'. intros n Hn. rewrite !Z.ldiff_spec, !Z.land_spec, !Z.lor_spec, !Z.ldiff_spec.
  by destruct (Z.testbit w n), (Z.testbit sc.1 n), (Z.testbit sc.2 n).
Qed.

Lemma all_app (f : token -> Z) a b : foldr (fun t s => Z.lor (f t) s) 0 (a ++ b) =
  Z.lor (foldr (fun t s => Z.lor (f t) s) 0 a) (foldr (fun t s => Z.lor (f t) s) 0 b).
Proof. induction a as [|t a IH]; cbn; [done|]. by rewrite IH, Z.lor_assoc. Qed.

Lemma disjoint_lor a b c d : Z.land (Z.lor a b) (Z.lor c d) = 0 ->
  Z.land a c = 0 /\ Z.land a d = 0 /\ Z.land b c = 0 /\ Z.land b d = 0.
Proof.
  intros H. assert (forall n, 0 <= n -> (Z.testbit a n || Z.testbit b n) && (Z.testbit c n || Z.testbit d n) = false) as Hb.
  { intros n Hn. rewrite <- !Z.lor_spec, <- Z.land_spec, H. apply Z.bits_0. }
  split_and!; apply Z.bits_inj'; intros n Hn; specialize (Hb n Hn); rewrite Z.land_spec, Z.bits_0;
    by destruct (Z.testbit a n), (Z.testbit b n), (Z.testbit c n), (Z.testbit d n).
Qed.

(** Whether a list of statements fails, and how. *)
Fixpoint fails (k : attrib_fn) (ts : list token) : option (res (option Z)) :=
  match ts with
  | [] => None
  | t :: ts => match eval_statement k t with Ok (Some _) => fails k ts | Ok None => Some (Ok None) | Fault f => Some (Fault f) end
  end.

(** The order does not matter when no flag is both set and cleared. *)
Lemma eval_flags_disjoint k ts w : Z.land (all_set k ts) (all_clr k ts) = 0 ->
  eval_flags k ts w = match fails k ts with Some e => e | None => Ok (Some (Z.ldiff (Z.lor w (all_set k ts)) (all_clr k ts))) end.
Proof.
  revert w. induction ts as [|t ts IH]; intros w H; cbn [eval_flags fails all_set all_clr foldr] in *.
  - do 2 f_equal. apply Z.bits_inj'. intros n Hn. by rewrite Z.ldiff_spec, Z.lor_spec, Z.bits_0, orb_false_r, andb_true_r.
  - fold (all_set k ts) in *. fold (all_clr k ts) in *. apply disjoint_lor in H as (H1 & H2 & H3 & H4).
    assert (forall sc, eval_statement k t = Ok (Some sc) -> flags_of k t = sc) as Hf by (intros sc E; unfold flags_of; by rewrite E).
    destruct (eval_statement k t) as [[sc|]|f] eqn:Et; simpl; [|done..]. rewrite <- (Hf sc eq_refl). rewrite IH, mod_flags_spec by done.
    destruct (fails k ts); [done|]. do 2 f_equal. set (s := (flags_of k t).1) in *. set (c := (flags_of k t).2) in *.
    apply Z.bits_inj'. intros n Hn. assert (Z.testbit (all_set k ts) n && Z.testbit c n = false) as H5.
    { by rewrite <- Z.land_spec, H3, Z.bits_0. }
    rewrite !Z.ldiff_spec, !Z.lor_spec, Z.ldiff_spec, Z.lor_spec.
    by destruct (Z.testbit w n), (Z.testbit s n), (Z.testbit c n), (Z.testbit (all_set k ts) n), (Z.testbit (all_clr k ts) n).
Qed.

(** The places that are kept hold merged statements of their kinds. *)
Definition places_ok (out : list token) (m : merged) : Prop := forall k n, merged_of k m = Some n ->
  exists t a set clr, out !! n = Some t /\ t_type t = TOKEN_MOD_FLAGS /\ t_attrib t = Some a /\ or_attrib k = Some a /\
    t_val t = VModFlags set clr.

Lemma or_kind_spec k a : or_attrib k = Some a -> or_kind a = Some k.
Proof. destruct k; intros H; try discriminate H; injection H as <-; vm_compute; reflexivity. Qed.

Lemma eval_int k t a i : is_type TOKEN_INT t = true -> t_attrib t = Some a -> t_val t = VInt i -> or_attrib (at_fn a) <> None ->
  eval_statement k t = Ok (Some (if bool_decide (at_fn a = k) then if i =? 0 then (0, at_attrib a) else (at_attrib a, 0) else (0, 0))).
Proof.
  intros H1%bool_decide_eq_true H2 H3 H4. unfold eval_statement, set_flags_of, mod_flag. rewrite H1, H2, H3.
  destruct (at_fn a); try done; case_bool_decide; cbn; by destruct (i =? 0).
Qed.

Lemma eval_mod k k' t a s c : t_type t = TOKEN_MOD_FLAGS -> t_attrib t = Some a -> or_attrib k' = Some a -> t_val t = VModFlags s c ->
  eval_statement k t = Ok (Some (if bool_decide (k' = k) then (s, c) else (0, 0))).
Proof.
  intros H1 H2 Ha H3. unfold eval_statement, set_flags_of, or_flags_fn. rewrite H1, H2, H3, (or_kind_spec k' a Ha).
  assert (at_fn a = ModOther) as -> by (by destruct k'; simplify_eq/=). by case_bool_decide.
Qed.

Lemma flags_of_int k t a i : is_type TOKEN_INT t = true -> t_attrib t = Some a -> t_val t = VInt i -> or_attrib (at_fn a) <> None ->
  flags_of k t = if bool_decide (at_fn a = k) then if i =? 0 then (0, at_attrib a) else (at_attrib a, 0) else (0, 0).
Proof. intros. unfold flags_of. by erewrite eval_int. Qed.

Lemma flags_of_mod k k' t a s c : t_type t = TOKEN_MOD_FLAGS -> t_attrib t = Some a -> or_attrib k' = Some a -> t_val t = VModFlags s c ->
  flags_of k t = if bool_decide (k' = k) then (s, c) else (0, 0).
Proof. intros. unfold flags_of. by erewrite eval_mod. Qed.

Lemma merge_first_flags k a t at_ i : or_attrib (at_fn at_) = Some a ->
  flags_of k (merge_first a t at_ i) =
  if bool_decide (at_fn at_ = k) then if i =? 0 then (0, at_attrib at_) else (at_attrib at_, 0) else (0, 0).
Proof. intros Ha. unfold merge_first. by destruct (i =? 0); erewrite flags_of_mod. Qed.

Lemma merge_next_flags k at_ i t a s c : t_type t = TOKEN_MOD_FLAGS -> t_attrib t = Some a -> or_attrib (at_fn at_) = Some a ->
  t_val t = VModFlags s c ->
  flags_of k (merge_next at_ i t) =
  (Z.lor (flags_of k t).1 (if bool_decide (at_fn at_ = k) then if i =? 0 then 0 else at_attrib at_ else 0),
   Z.lor (flags_of k t).2 (if bool_decide (at_fn at_ = k) then if i =? 0 then at_attrib at_ else 0 else 0)).
Proof.
  intros Ht Hat Ha Hv. rewrite (flags_of_mod k (at_fn at_) t a s c Ht Hat Ha Hv). unfold merge_next. rewrite Hv.
  destruct (i =? 0); erewrite flags_of_mod by done; case_bool_decide; cbn; by rewrite ?Z.lor_0_r.
Qed.

(** A change at one place of a list of words. *)
Lemma all_alter (f : token -> Z) g l n t x : l !! n = Some t -> f (g t) = Z.lor (f t) x ->
  foldr (fun t s => Z.lor (f t) s) 0 (alter g n l) = Z.lor (foldr (fun t s => Z.lor (f t) s) 0 l) x.
Proof.
  revert n. induction l as [|u l IH]; intros [|n] H Hg; try done; cbn in H |- *.
  - injection H as ->. rewrite Hg, <- !Z.lor_assoc. f_equal. apply Z.lor_comm.
  - change (alter g (S n) (u :: l)) with (u :: alter g n l). cbn. by rewrite (IH n H Hg), Z.lor_assoc.
Qed.

(** The statements that only set and clear flags, by a number or merged. *)
Definition is_flag (t : token) : bool :=
  match t_type t, t_attrib t, t_val t with
  | TOKEN_INT, Some a, VInt _ => bool_decide (at_fn a <> ModOther)
  | TOKEN_MOD_FLAGS, Some a, VModFlags _ _ => bool_decide (at_fn a = ModOther /\ is_Some (or_kind a))
  | _, _, _ => false
  end.
Lemma is_flag_mod k t a s c : t_type t = TOKEN_MOD_FLAGS -> t_attrib t = Some a -> or_attrib k = Some a -> t_val t = VModFlags s c -> is_flag t = true.
Proof.
  intros H1 H2 Ha H3. unfold is_flag. rewrite H1, H2, H3, (or_kind_spec k a Ha). apply bool_decide_eq_true_2. split; [|by eexists].
  by destruct k; simplify_eq/=.
Qed.

Definition others (ts : list token) : list token := filter (fun t => is_flag t = false) ts.

Lemma others_app a b : others (a ++ b) = others a ++ others b.
Proof. apply filter_app. Qed.

Lemma others_alter g l n t : l !! n = Some t -> is_flag t = true -> is_flag (g t) = true -> others (alter g n l) = others l.
Proof.
  revert n. induction l as [|u l IH]; intros [|n] H Ht Hg; try done; cbn in H; unfold others in *.
  - injection H as ->. change (alter g 0%nat (t :: l)) with (g t :: l). by rewrite !filter_cons_False by congruence.
  - change (alter g (S n) (u :: l)) with (u :: alter g n l). rewrite !filter_cons. by rewrite (IH n H Ht Hg).
Qed.

Lemma merged_set_same k n m : or_attrib k <> None -> merged_of k (set_merged k n m) = Some n.
Proof. by destruct k. Qed.
Lemma merged_set_other k k' n m : k <> k' -> merged_of k (set_merged k' n m) = merged_of k m.
Proof. by destruct k, k'. Qed.

(** A statement that is not merged. *)
Lemma places_snoc out m t : places_ok out m -> places_ok (out ++ [t]) m.
Proof.
  intros H k n Hn. destruct (H k n Hn) as (u & a & s & c & Hu & R). exists u, a, s, c. split; [|done]. by apply lookup_app_l_Some.
Qed.

Lemma places_first out m a t at_ i : places_ok out m -> or_attrib (at_fn at_) = Some a ->
  places_ok (out ++ [merge_first a t at_ i]) (set_merged (at_fn at_) (length out) m).
Proof.
  intros H Ha k n Hn. destruct (decide (k = at_fn at_)) as [->|Hk].
  - rewrite merged_set_same in Hn by congruence. injection Hn as <-.
    exists (merge_first a t at_ i). unfold merge_first. destruct (i =? 0); eexists a, _, _; (split; [by apply list_lookup_middle|done]).
  - rewrite merged_set_other in Hn by done. eapply places_snoc; [exact H|exact Hn].
Qed.

Lemma places_next out m at_ i n : places_ok out m -> places_ok (alter (merge_next at_ i) n out) m.
Proof.
  intros H k j Hj. destruct (H k j Hj) as (u & a & s & c & Hu & Ht & Hat & Ha & Hv). destruct (decide (n = j)) as [->|Hne].
  - exists (merge_next at_ i u). rewrite list_lookup_alter_eq, Hu. cbn [fmap option_fmap option_map].
    assert (exists s c, merge_next at_ i u = set_tval (VModFlags s c) u) as (s' & c' & ->).
    { unfold merge_next. rewrite Hv. by destruct (i =? 0); eexists _, _. }
    by exists a, s', c'.
  - exists u, a, s, c. by rewrite list_lookup_alter_ne.
Qed.

Lemma merge_loop k ts : forall out m l, places_ok out m -> attrib_optimize_loop out m ts = Ok l ->
  all_set k l = Z.lor (all_set k out) (all_set k ts) /\ all_clr k l = Z.lor (all_clr k out) (all_clr k ts) /\
  others l = others out ++ others ts.
Proof.
  induction ts as [|t ts IH]; intros out m l Hm; cbn [attrib_optimize_loop].
  { intros [= <-]. by rewrite !Z.lor_0_r, app_nil_r. }
  assert (all_set k (t :: ts) = Z.lor (flags_of k t).1 (all_set k ts) /\ all_clr k (t :: ts) = Z.lor (flags_of k t).2 (all_clr k ts)) as [-> ->] by done.
  change (t :: ts) with ([t] ++ ts) at 1. rewrite others_app. rewrite !Z.lor_assoc, app_assoc.
  assert (attrib_optimize_loop (out ++ [t]) m ts = Ok l ->
    all_set k l = Z.lor (Z.lor (all_set k out) (flags_of k t).1) (all_set k ts) /\
    all_clr k l = Z.lor (Z.lor (all_clr k out) (flags_of k t).2) (all_clr k ts) /\
    others l = (others out ++ others [t]) ++ others ts) as Hskip.
  { intros E. destruct (IH _ m l (places_snoc out m t Hm) E) as (-> & -> & ->).
    unfold all_set, all_clr. rewrite !all_app, others_app. cbn. by rewrite !Z.lor_0_r. }
  destruct (is_type TOKEN_INT t) eqn:Ht; [|exact Hskip].
  destruct (t_attrib t) as [at_|] eqn:Hat; [|done]. destruct (t_val t) as [| | |i| | | |] eqn:Hv; try done.
  destruct (or_attrib (at_fn at_)) as [a|] eqn:Ha; [|exact Hskip].
  pose proof Ht as Ht'%bool_decide_eq_true. assert (at_fn at_ <> ModOther) as Hno by (intros E; by rewrite E in Ha).
  assert (others [t] = []) as ->.
  { unfold others. rewrite filter_cons_False; [done|]. unfold is_flag. by rewrite Ht', Hat, Hv, bool_decide_eq_true_2. }
  assert (or_attrib (at_fn at_) <> None) as Hf%(flags_of_int k t at_ i Ht Hat Hv) by congruence. rewrite app_nil_r.
  destruct (merged_of (at_fn at_) m) as [n|] eqn:Hn; intros E.
  - destruct (Hm _ _ Hn) as (u & a' & s & c & Hu & Hut & Hua & Ha' & Huv). assert (a' = a) as -> by congruence.
    pose proof (merge_next_flags k at_ i u a s c Hut Hua Ha Huv) as Hnext.
    destruct (IH _ m l (places_next out m at_ i n Hm) E) as (-> & -> & ->). split_and!.
    + unfold all_set. erewrite (all_alter (fun t => (flags_of k t).1)); [|exact Hu|by rewrite Hnext].
      rewrite Hf. by destruct (bool_decide _), (i =? 0).
    + unfold all_clr. erewrite (all_alter (fun t => (flags_of k t).2)); [|exact Hu|by rewrite Hnext].
      rewrite Hf. by destruct (bool_decide _), (i =? 0).
    + f_equal. apply (others_alter _ _ _ u); [done|by eapply is_flag_mod|].
      unfold merge_next. rewrite Huv. by destruct (i =? 0); eapply is_flag_mod.
  - destruct (IH _ _ l (places_first out m a t at_ i Hm Ha) E) as (-> & -> & ->).
    unfold all_set, all_clr. rewrite !all_app, others_app. cbn [foldr]. rewrite !Z.lor_0_r, (merge_first_flags k a t at_ i Ha), Hf.
    split_and!; [done..|]. unfold others at 2. rewrite filter_cons_False; [by rewrite app_nil_r|].
    unfold merge_first. by destruct (i =? 0); erewrite is_flag_mod.
Qed.

(** A flag does not fail; so only the other statements can. *)
Lemma is_flag_eval k t : is_flag t = true -> exists sc, eval_statement k t = Ok (Some sc).
Proof.
  unfold is_flag. destruct (t_type t) eqn:Ht; try done; destruct (t_attrib t) as [a|] eqn:Ha; try done; destruct (t_val t) as [| | |i| | | |s c] eqn:Hv; try done;
    intros Hb%bool_decide_eq_true.
  - erewrite eval_int; [by eexists|unfold is_type; by rewrite Ht|done|done|]. by destruct (at_fn a).
  - destruct Hb as [Ho [k' Hk]]. unfold eval_statement, set_flags_of, or_flags_fn. rewrite Ht, Ha, Ho, Hk, Hv. cbn. case_bool_decide; by eexists.
Qed.

Lemma fails_others k ts : fails k ts = fails k (others ts).
Proof.
  induction ts as [|t ts IH]; [done|]. unfold others. rewrite filter_cons. case_decide as Hf; cbn [fails].
  - fold (others ts). by rewrite IH.
  - apply not_false_is_true in Hf. destruct (is_flag_eval k t Hf) as [sc ->]. exact IH.
Qed.
End eval.

(** C10: When no flag of a kind is both set and cleared by the statements of a
    block, be it by a number, by void or by an expression, evaluating the block
    with its flags merged leaves a widget with the same flags of that kind as
    evaluating the block that was written, or fails as that does, whatever
    flags it had, and whatever the other statements do to them; and those are
    all there, in their order. *)
Theorem glw_view_attrib_optimize_same rpn other k ts l w : glw_view_attrib_optimize ts = Ok l ->
  Z.land (all_set rpn other k ts) (all_clr rpn other k ts) = 0 ->
  eval_flags rpn other k l w = eval_flags rpn other k ts w /\ others l = others ts.
Proof.
  intros E Hd. destruct (merge_loop rpn other k ts [] (Merged None None None) l) as (H1 & H2 & H3); [by intros []|exact E|].
  cbn in H1, H2, H3. split; [|exact H3]. rewrite !eval_flags_disjoint; rewrite ?H1, ?H2; [|done..].
  by rewrite (fails_others _ _ k l), H3, <- fails_others.
Qed.

(** [shadow: true; bold: false; autohide: void; debug: false; clickable: 0.75; hidden: x;]
    where the last is an expression that sets nothing. *)
Definition demo_flags_view : list token :=
  let stm name b k ty v := set_attrib (Some (Attrib (lit name) b k)) (new_token [] 1 ty v) in
  [stm "shadow" 256 ModFlags2 TOKEN_INT (VInt 1); stm "bold" 4 ModTextFlags TOKEN_INT (VInt 0); stm "autohide" 128 ModFlags2 TOKEN_VOID VNone;
   stm "debug" 262144 ModFlags2 TOKEN_INT (VInt 0); stm "clickable" 33554432 ModFlags2 TOKEN_FLOAT (VFloat (S754_finite false 3 (-2)));
   new_token [] 1 TOKEN_RPN VNone].

Lemma glw_view_attrib_optimize_same_witness : let quiet := fun _ _ => Ok (Some (0, 0)) in
  exists l, glw_view_attrib_optimize demo_flags_view = Ok l /\ length l = 5%nat /\
    eval_flags quiet quiet ModFlags2 demo_flags_view 262273 = Ok (Some 33554689) /\
    (eval_flags quiet quiet ModFlags2 l 262273 = eval_flags quiet quiet ModFlags2 demo_flags_view 262273 /\ others l = others demo_flags_view).
Proof.
  intros quiet. eexists. split; [vm_compute; reflexivity|]. split; [reflexivity|]. split; [vm_compute; reflexivity|].
  apply (glw_view_attrib_optimize_same quiet quiet ModFlags2 demo_flags_view); vm_compute; reflexivity.
Defined.
