(* ===== verification/GlwView.v ===== *)
(** The grammar of the view language, with the meaning of its abbreviations, and
    the proof that the parser accepts it with this meaning, from the tokens and
    from the text. *)
From S2P Require Import Prelude Clib Str GlwToken GlwLexer GlwParser GlwYard.
From Stdlib Require Import SpecFloat.

Local Open Scope Z_scope.

(** * Views as written *)

(** Expressions and statements with all their tokens: values, [1em],
    [$a.b.c] or [&a.b.c], [.name], [_("text")], blocks, operators, calls,
    [widget(class, ...)] and vectors. *)
Inductive expr :=
| EValue (t : token)
| EEm (t unit : token)
| EProp (t name : token) (path : list (token * token))
| EAttr (dot name : token)
| EText (name lp str rp : token)
| EBlock (op : token) (ss : stmts) (cl : token)
| EBin (l : expr) (op : token) (r : expr)
| ENot (op : token) (e : expr)
| EParen (lp : token) (e : expr) (rp : token)
| ECall (name lp : token) (a : args) (rp : token)
| EWidget (name lp class sep : token) (a : args) (rp : token)
| EVec (lb : token) (a : args) (rb : token)
with args :=
| ANil
| AOne (e : expr)
| AMore (e : expr) (sep : token) (a : args)
with stmts :=
| SNil
| SEmpty (semi : token) (ss : stmts)
| SExpr (e : expr) (semi : token) (ss : stmts)
| SAssign (name colon : token) (e : expr) (semi : token) (ss : stmts).

Scheme expr_ind' := Induction for expr Sort Prop
with args_ind' := Induction for args Sort Prop
with stmts_ind' := Induction for stmts Sort Prop.
Combined Scheme expr_args_stmts_ind from expr_ind', args_ind', stmts_ind'.

Definition path_toks (path : list (token * token)) : list token := concat (map (fun x => [x.1; x.2]) path).

(** The tokens of the source. *)
Fixpoint toks (e : expr) : list token :=
  match e with
  | EValue t => [t]
  | EEm t u => [t; u]
  | EProp t name path => t :: name :: path_toks path
  | EAttr dot name => [dot; name]
  | EText name lp str rp => [name; lp; str; rp]
  | EBlock op ss cl => op :: toks_stmts ss ++ [cl]
  | EBin l op r => toks l ++ op :: toks r
  | ENot op e => op :: toks e
  | EParen lp e rp => lp :: toks e ++ [rp]
  | ECall name lp a rp => name :: lp :: toks_args a ++ [rp]
  | EWidget name lp class sep a rp => name :: lp :: class :: sep :: toks_args a ++ [rp]
  | EVec lb a rb => lb :: toks_args a ++ [rb]
  end
with toks_args (a : args) : list token :=
  match a with
  | ANil => []
  | AOne e => toks e
  | AMore e sep a => toks e ++ sep :: toks_args a
  end
with toks_stmts (ss : stmts) : list token :=
  match ss with
  | SNil => []
  | SEmpty semi ss => semi :: toks_stmts ss
  | SExpr e semi ss => toks e ++ semi :: toks_stmts ss
  | SAssign name colon e semi ss => name :: colon :: toks e ++ semi :: toks_stmts ss
  end.

(** * Meaning *)

Definition rname (t : token) : list Z := match t_val t with VRstring s _ => s | _ => [] end.

(** The attribute a name stands for. *)
Definition resolved (t : token) : token :=
  match list_find (fun a => at_name a = rname t) attribtab with
  | Some (_, a) => set_attrib (Some a) (set_type TOKEN_RESOLVED_ATTRIBUTE t)
  | None => set_type TOKEN_UNRESOLVED_ATTRIBUTE t
  end.

Definition em_token (t : token) : token :=
  set_tval (match t_val t with VInt i => VFloat (f32_of_int i) | v => v end) (set_type TOKEN_EM t).

(** What a program has where a result is expected. *)
Definition or_else {A} (d : A) (m : res A) : A := match m with Ok a => a | Fault _ => d end.

(** A statement: its notation, or its value when it sets an attribute to one. *)
Definition statement (p : pexpr) (semi : token) : token :=
  let t := set_child (rpn p) (set_type (expr_type (pure p) (rpn p)) semi) in
  or_else t (optimize_attribute_assignment t).

Section grammar.
Variable classes : list (list Z).
Variable pnvec_size : nat.

(** A path of names: a token for each [pnvec_size] of them, each the child of
    the one before. *)
Fixpoint name_chain (t : token) (path : list (token * token)) : token :=
  match path with
  | [] => t
  | (_, n) :: path =>
      match t_val t with
      | VPnvec names =>
          if decide (length names < pnvec_size)%nat then name_chain (set_tval (VPnvec (names ++ [rname n])) t) path
          else set_child [name_chain (set_tval (VPnvec [rname n]) (set_type TOKEN_PROPERTY_NAME n)) path] t
      | _ => t
      end
  end.
Definition prop_token (t name : token) (path : list (token * token)) : token :=
  let t := if is_type TOKEN_AMPERSAND t then set_tflags (Z.lor (t_flags t) TOKEN_F_CANONICAL_PATH) t else t in
  name_chain (set_tval (VPnvec [rname name]) (set_type TOKEN_PROPERTY_NAME t)) path.
Definition func_token (name : token) (class : option token) : token :=
  set_tval (VFunc (rname name) (rname <$> class)) (set_type TOKEN_FUNCTION name).

(** Without the abbreviations; blocks hold the statements they are made of. *)
Fixpoint prep (e : expr) : pexpr :=
  match e with
  | EValue t => PLeaf t
  | EEm t _ => PLeaf (em_token t)
  | EProp t name path => PLeaf (prop_token t name path)
  | EAttr dot name => PLeaf (resolved (set_tval (VRstring (rname name) PROP_STR_UTF8) dot))
  | EText name _ str _ => PLeaf (glw_view_nls_string name (rname str))
  | EBlock op ss _ => PLeaf (set_child (or_else [] (glw_view_attrib_optimize (meaning ss))) (set_type TOKEN_BLOCK op))
  | EBin l op r => PBin (prep l) op (prep r)
  | ENot op e => PNot op (prep e)
  | EParen lp e rp => PParen lp (prep e) rp
  | ECall name lp a rp => PCall (func_token name None) lp (prep_args a) rp
  | EWidget name lp class _ a rp => PCall (func_token name (Some class)) lp (prep_args a) rp
  | EVec lb a rb => PVec lb (prep_args a) rb
  end
with prep_args (a : args) : pargs :=
  match a with
  | ANil => PNil
  | AOne e => POne (prep e)
  | AMore e sep a => PMore (prep e) sep (prep_args a)
  end
with meaning (ss : stmts) : list token :=
  match ss with
  | SNil => []
  | SEmpty semi ss => set_type TOKEN_NOP semi :: meaning ss
  | SExpr e semi ss => statement (prep e) semi :: meaning ss
  | SAssign name colon e semi ss =>
      statement (PBin (PLeaf (resolved name)) (set_type TOKEN_ASSIGNMENT colon) (prep e)) semi :: meaning ss
  end.

(** The block of a list of statements. *)
Definition block (op : token) (ss : stmts) : token :=
  set_child (or_else [] (glw_view_attrib_optimize (meaning ss))) (set_type TOKEN_BLOCK op).

(** * Well formed views *)

Definition is_name (t : token) : bool :=
  is_type TOKEN_IDENTIFIER t && match t_val t with VRstring _ _ => true | _ => false end.
Definition is_number (t : token) : bool := is_type TOKEN_FLOAT t || is_type TOKEN_INT t.
Definition is_constant (t : token) : bool :=
  match t_type t, t_val t with
  | TOKEN_FLOAT, _ | TOKEN_RSTRING, _ | TOKEN_VOID, _ | TOKEN_IDENTIFIER, _ => true
  | TOKEN_INT, VInt _ => true
  | _, _ => false
  end.

(** The kinds of the tokens, and the names of functions and classes; operators,
    commas and closing parentheses are left to [pexpr_ok]. *)
Fixpoint expr_ok (e : expr) : bool :=
  match e with
  | EValue t => is_constant t
  | EEm t u => is_number t && is_name u && bool_decide (rname u = lit "em")
  | EProp t name path =>
      (is_type TOKEN_DOLLAR t || is_type TOKEN_AMPERSAND t) && is_name name &&
      forallb (fun x => is_type TOKEN_DOT x.1 && is_name x.2) path
  | EAttr dot name => is_type TOKEN_DOT dot && is_name name
  | EText name lp str rp =>
      is_name name && bool_decide (rname name = lit "_") && is_type TOKEN_LEFT_PARENTHESIS lp &&
      is_type TOKEN_RSTRING str && match t_val str with VRstring _ _ => true | _ => false end &&
      is_type TOKEN_RIGHT_PARENTHESIS rp
  | EBlock op ss cl =>
      is_type TOKEN_BLOCK_OPEN op && bool_decide (t_child op = []) && is_type TOKEN_BLOCK_CLOSE cl && stmts_ok ss
  | EBin l op r => expr_ok l && expr_ok r
  | ENot op e => expr_ok e
  | EParen lp e rp => expr_ok e
  | ECall name lp a rp =>
      is_name name && bool_decide (rname name ∈ funcvec) && bool_decide (rname name <> lit "widget") && args_ok a
  | EWidget name lp class sep a rp =>
      is_name name && bool_decide (rname name = lit "widget") && is_name class && bool_decide (rname class ∈ classes) &&
      is_type TOKEN_SEPARATOR sep && args_ok a
  | EVec lb a rb => args_ok a
  end
with args_ok (a : args) : bool :=
  match a with
  | ANil => true
  | AOne e => expr_ok e
  | AMore e sep a => expr_ok e && args_ok a
  end
with stmts_ok (ss : stmts) : bool :=
  match ss with
  | SNil => true
  | SEmpty semi ss => is_type TOKEN_END_OF_EXPR semi && stmts_ok ss
  | SExpr e semi ss => is_type TOKEN_END_OF_EXPR semi && expr_ok e && pexpr_ok (prep e) && stmts_ok ss
  | SAssign name colon e semi ss =>
      is_type TOKEN_END_OF_EXPR semi && is_name name && is_type TOKEN_COLON colon && expr_ok e &&
      pexpr_ok (PBin (PLeaf (resolved name)) (set_type TOKEN_ASSIGNMENT colon) (prep e)) && stmts_ok ss
  end.

End grammar.

(** * Lemmas: abbreviations *)

Section prep.
Variable classes : list (list Z).
Variable pnvec_size : nat.
Notation prep := (prep pnvec_size).
Notation prep_args := (prep_args pnvec_size).
Notation prep_token := (prep_token classes pnvec_size).
Notation prep_loop := (prep_loop classes pnvec_size).

(** The tokens of an expression whose blocks have been parsed. *)
Fixpoint btoks (e : expr) : list token :=
  match e with
  | EBlock op ss _ => [block pnvec_size op ss]
  | EBin l op r => btoks l ++ op :: btoks r
  | ENot op e => op :: btoks e
  | EParen lp e rp => lp :: btoks e ++ [rp]
  | ECall name lp a rp => name :: lp :: btoks_args a ++ [rp]
  | EWidget name lp class sep a rp => name :: lp :: class :: sep :: btoks_args a ++ [rp]
  | EVec lb a rb => lb :: btoks_args a ++ [rb]
  | e => toks e
  end
with btoks_args (a : args) : list token :=
  match a with
  | ANil => []
  | AOne e => btoks e
  | AMore e sep a => btoks e ++ sep :: btoks_args a
  end.

(** What follows a name or a number without changing it. *)
Definition follows (r : list token) : bool :=
  match r with
  | t :: _ =>
      match t_type t with TOKEN_IDENTIFIER | TOKEN_COLON | TOKEN_LEFT_PARENTHESIS | TOKEN_DOT => false | _ => true end
  | [] => true
  end.
(** Tokens that are left alone whatever follows. *)
Definition is_plain (t : token) : bool :=
  match t_type t with
  | TOKEN_DOLLAR | TOKEN_AMPERSAND | TOKEN_FLOAT | TOKEN_INT | TOKEN_DOT | TOKEN_IDENTIFIER => false
  | _ => true
  end.

Lemma is_type_false ty t : is_type ty t = false <-> t_type t <> ty.
Proof. unfold is_type. by rewrite bool_decide_eq_false. Qed.

Lemma is_type_refl ty t : t_type t = ty -> is_type ty t = true.
Proof. intros H. unfold is_type. by rewrite bool_decide_eq_true. Qed.

Lemma prep_plain t r : is_plain t = true -> prep_token t r = pret (t, r).
Proof.
  intros H. assert (forall ty, is_plain (new_token [] 0 ty VNone) = false -> is_type ty t = false) as Hty.
  { intros ty Hp. apply is_type_false. intros E. unfold is_plain in *. cbn in Hp. rewrite E in H. by rewrite Hp in H. }
  unfold GlwParser.prep_token, is_em. rewrite !Hty by done. cbn [orb andb]. destruct r; done.
Qed.

Lemma prep_constant t r : is_constant t = true -> follows r = true -> prep_token t r = pret (t, r).
Proof.
  intros H Hr. assert (is_type TOKEN_DOLLAR t = false /\ is_type TOKEN_AMPERSAND t = false /\ is_type TOKEN_DOT t = false) as (H1 & H2 & H3).
  { split_and!; apply is_type_false; intros E; unfold is_constant in H; by rewrite E in H. }
  unfold GlwParser.prep_token, is_em. rewrite H1, H2, H3. cbn [orb andb].
  destruct r as [|t1 r]; [done|]. unfold follows in Hr.
  assert (is_type TOKEN_IDENTIFIER t1 = false /\ is_type TOKEN_COLON t1 = false /\ is_type TOKEN_LEFT_PARENTHESIS t1 = false) as (H4 & H5 & H6).
  { split_and!; apply is_type_false; intros E; by rewrite E in Hr. }
  by rewrite H4, H5, H6, !andb_false_r.
Qed.

Lemma is_name_spec t : is_name t = true -> t_type t = TOKEN_IDENTIFIER /\ t_rstring t = Ok (rname t).
Proof.
  unfold is_name, t_rstring, rname. rewrite andb_true_iff. intros [H1%is_type_eq H2]. by destruct (t_val t).
Qed.

Lemma attrib_resolve t : t_rstring t = Ok (rname t) -> glw_view_attrib_resolve t = Ok (resolved t).
Proof.
  intros H. unfold glw_view_attrib_resolve, resolved. rewrite H, ok_bind. by destruct (list_find _ _) as [[? ?]|].
Qed.

Lemma prop_chain_spec path : forall t r, (exists names, t_val t = VPnvec names) ->
  forallb (fun x => is_type TOKEN_DOT x.1 && is_name x.2) path = true ->
  match r with t1 :: _ => is_type TOKEN_DOT t1 = false | [] => True end ->
  prop_chain pnvec_size t (path_toks path ++ r) = pret (name_chain pnvec_size t path, r).
Proof.
  induction path as [|[d n] path IH]; intros t r [names Hv] Hp Hr.
  - unfold path_toks. cbn [map concat app]. destruct r as [|t1 r]; [done|]. cbn [prop_chain]. by rewrite Hr.
  - cbn [forallb fst snd] in Hp. rewrite !andb_true_iff in Hp. destruct Hp as [[Hd Hn] Hp].
    apply is_name_spec in Hn as [Hn1 Hn2]. unfold path_toks in *. cbn [map concat fst snd app prop_chain name_chain].
    rewrite Hd, (is_type_refl _ n Hn1), Hn2, ok_bind, Hv. destruct (decide _).
    + apply IH; [by eexists|done..].
    + rewrite IH; [done|by eexists|done..].
Qed.

Lemma t_rstring_val s k t : t_rstring (set_tval (VRstring s k) t) = Ok s /\ rname (set_tval (VRstring s k) t) = s.
Proof. done. Qed.

(** The loop passes [ts], leaves [out] for what it passed, and goes on at [rest]. *)
Definition reaches (ts out rest : list token) : Prop := forall fuel, (length ts < fuel)%nat ->
  exists fuel', (length rest < fuel')%nat /\
    prep_loop fuel ts = pbind (prep_loop fuel' rest) (fun l => pret (out ++ l)).

Lemma prep_reaches_trans ts o1 r1 o2 r2 : reaches ts o1 r1 -> reaches r1 o2 r2 -> reaches ts (o1 ++ o2) r2.
Proof.
  intros H1 H2 fuel Hf. destruct (H1 fuel Hf) as (f1 & Hf1 & E1). destruct (H2 f1 Hf1) as (f2 & Hf2 & E2).
  exists f2. split; [done|]. rewrite E1, E2. destruct (prep_loop f2 r2) as [[e|l]|]; [done| |done].
  cbn. by rewrite <- app_assoc.
Qed.

Lemma reaches_step t t' r r' : prep_token t r = pret (t', r') -> (length r' <= length r)%nat -> reaches (t :: r) [t'] r'.
Proof.
  intros H Hl fuel Hf. cbn [length] in Hf. destruct fuel as [|fuel]; [lia|]. exists fuel. split; [lia|].
  cbn [GlwParser.prep_loop]. by rewrite H, pbind_ret.
Qed.

Lemma reaches_plain t r : is_plain t = true -> reaches (t :: r) [t] r.
Proof. intros H. apply reaches_step; [by apply prep_plain|done]. Qed.

Lemma reaches_cons t t' r r' out rest : prep_token t r = pret (t', r') -> (length r' <= length r)%nat ->
  reaches r' out rest -> reaches (t :: r) (t' :: out) rest.
Proof. intros H Hl Hr. change (t' :: out) with ([t'] ++ out). eapply prep_reaches_trans; [by eapply reaches_step|done]. Qed.

Lemma reaches_plain_cons t r out rest : is_plain t = true -> reaches r out rest -> reaches (t :: r) (t :: out) rest.
Proof. intros H Hr. eapply reaches_cons; [by apply prep_plain|done|done]. Qed.

Lemma binop_plain t : is_binop t = true -> is_plain t = true /\ forall r, follows (t :: r) = true.
Proof. unfold is_binop, is_plain, follows. by destruct (t_type t). Qed.

Lemma typed_plain ty t : is_type ty t = true -> is_plain (new_token [] 0 ty VNone) = true -> is_plain t = true.
Proof. intros H%is_type_eq Hp. unfold is_plain in *. by rewrite H. Qed.
Lemma typed_follows ty t r : is_type ty t = true -> follows [new_token [] 0 ty VNone] = true -> follows (t :: r) = true.
Proof. intros H%is_type_eq Hp. unfold follows in *. by rewrite H. Qed.

Lemma prep_name name r : is_name name = true ->
  prep_token name r =
    match r with
    | t1 :: r' =>
        if is_type TOKEN_COLON t1 then t ← glw_view_attrib_resolve name; pret (t, set_type TOKEN_ASSIGNMENT t1 :: r')
        else if is_type TOKEN_LEFT_PARENTHESIS t1 then prep_call classes name t1 r'
        else pret (name, r)
    | [] => pret (name, [])
    end.
Proof.
  intros [Ht _]%is_name_spec. unfold GlwParser.prep_token.
  assert (forall ty, TOKEN_IDENTIFIER <> ty -> is_type ty name = false) as Hty by (intros ty H; apply is_type_false; by rewrite Ht).
  unfold is_em. rewrite (is_type_refl TOKEN_IDENTIFIER) by done. rewrite !Hty by done. cbn [orb andb]. by destruct r.
Qed.

Lemma prep_dot name dot r : is_type TOKEN_DOT dot = true -> is_name name = true ->
  prep_token dot (name :: r) = pret (resolved (set_tval (VRstring (rname name) PROP_STR_UTF8) dot), r).
Proof.
  intros Hd Hn. pose proof Hd as Ht%is_type_eq. apply is_name_spec in Hn as [Hn1 Hn2]. unfold GlwParser.prep_token.
  assert (forall ty, TOKEN_DOT <> ty -> is_type ty dot = false) as Hty by (intros ty H; apply is_type_false; by rewrite Ht).
  unfold is_em. rewrite Hd. rewrite !Hty by done. cbn [orb andb]. rewrite ok_bind. unfold prep_attribute.
  by rewrite (is_type_refl _ name Hn1), Hn2, ok_bind, attrib_resolve, ok_bind by done.
Qed.

Lemma prep_prop t name path r : is_type TOKEN_DOLLAR t || is_type TOKEN_AMPERSAND t = true -> is_name name = true ->
  forallb (fun x => is_type TOKEN_DOT x.1 && is_name x.2) path = true -> follows r = true ->
  prep_token t (name :: path_toks path ++ r) = pret (prop_token pnvec_size t name path, r).
Proof.
  intros Ht Hn Hp Hr. apply is_name_spec in Hn as [Hn1 Hn2]. unfold GlwParser.prep_token.
  rewrite Ht, (is_type_refl _ name Hn1). cbn [andb]. unfold prep_property. rewrite Hn2, ok_bind.
  apply prop_chain_spec; [by eexists|done|]. destruct r as [|t1 r]; [done|]. apply is_type_false.
  unfold follows in Hr. by destruct (t_type t1).
Qed.

Lemma prep_em t u r : is_number t = true -> is_name u = true -> rname u = lit "em" ->
  prep_token t (u :: r) = pret (em_token t, r).
Proof.
  intros Ht Hu Hn. apply is_name_spec in Hu as [Hu1 Hu2]. unfold GlwParser.prep_token.
  assert (is_type TOKEN_DOLLAR t = false /\ is_type TOKEN_AMPERSAND t = false) as [H1 H2].
  { unfold is_number in Ht. apply orb_true_iff in Ht as [Ht%is_type_eq|Ht%is_type_eq]; split; apply is_type_false; congruence. }
  rewrite H1, H2. cbn [orb andb]. unfold is_em. fold (is_number t). rewrite Ht, (is_type_refl _ u Hu1). cbn [andb].
  by rewrite Hu2, ok_bind, Hn.
Qed.

Lemma prep_text name lp str rp r : is_name name = true -> rname name = lit "_" -> is_type TOKEN_LEFT_PARENTHESIS lp = true ->
  is_type TOKEN_RSTRING str = true -> (exists s k, t_val str = VRstring s k) -> is_type TOKEN_RIGHT_PARENTHESIS rp = true ->
  prep_token name (lp :: str :: rp :: r) = pret (glw_view_nls_string name (rname str), r).
Proof.
  intros Hn Hu Hlp Hs (s & k & Hv) Hrp. rewrite prep_name by done. pose proof Hlp as Ht%is_type_eq.
  assert (is_type TOKEN_COLON lp = false) as -> by (apply is_type_false; by rewrite Ht).
  rewrite Hlp. unfold prep_call. apply is_name_spec in Hn as [_ Hn]. rewrite Hn, ok_bind, decide_True by done.
  unfold nls_call. rewrite Hs, Hrp. unfold t_rstring, rname. by rewrite Hv.
Qed.

Lemma prep_function name lp r out : is_name name = true -> is_type TOKEN_LEFT_PARENTHESIS lp = true ->
  rname name <> lit "_" -> glw_view_function_resolve classes name r = pret out ->
  prep_token name (lp :: r) = pret (out.1, lp :: out.2).
Proof.
  intros Hn Hlp Hu H. rewrite prep_name by done. pose proof Hlp as Ht%is_type_eq.
  assert (is_type TOKEN_COLON lp = false) as -> by (apply is_type_false; by rewrite Ht).
  rewrite Hlp. unfold prep_call. apply is_name_spec in Hn as [_ Hn]. rewrite Hn, ok_bind, decide_False by done.
  rewrite ok_bind. by rewrite H.
Qed.

Lemma underscore_no_function : lit "_" ∉ funcvec.
Proof. apply (bool_decide_unpack _). by vm_compute. Qed.
Lemma widget_function : lit "widget" ∈ funcvec.
Proof. apply (bool_decide_unpack _). by vm_compute. Qed.

Definition preps_expr (e : expr) : Prop := forall rest, expr_ok classes pnvec_size e = true -> pexpr_ok (prep e) = true ->
  follows rest = true -> reaches (btoks e ++ rest) (ptoks (prep e)) rest.
Definition preps_args (a : args) : Prop := forall rest, args_ok classes pnvec_size a = true -> pargs_ok (prep_args a) = true ->
  follows rest = true -> reaches (btoks_args a ++ rest) (ptoks_args (prep_args a)) rest.

(** What goes before and behind the arguments of a call. *)
Lemma preps_call name lp a rp rest r t : preps_args a -> args_ok classes pnvec_size a = true -> pargs_ok (prep_args a) = true ->
  is_type TOKEN_LEFT_PARENTHESIS lp = true -> is_type TOKEN_RIGHT_PARENTHESIS rp = true ->
  prep_token name r = pret (t, lp :: btoks_args a ++ rp :: rest) -> (length (lp :: btoks_args a ++ rp :: rest) <= length r)%nat ->
  reaches (name :: r) (t :: lp :: ptoks_args (prep_args a) ++ [rp]) rest.
Proof.
  intros IH Ha Hpa Hlp Hrp Ht Hl. eapply reaches_cons; [exact Ht|exact Hl|].
  apply reaches_plain_cons; [by eapply typed_plain|].
  eapply prep_reaches_trans; [apply IH; [done|done|by eapply typed_follows]|].
  apply reaches_plain. by eapply typed_plain.
Qed.

Lemma preps_all : (forall e, preps_expr e) /\ (forall a, preps_args a) /\ (forall ss : stmts, True).
Proof.
  apply expr_args_stmts_ind; try done.
  - intros t rest Hok _ Hr. cbn in *. eapply reaches_step; [by apply prep_constant|done].
  - intros t u rest Hok _ Hr. cbn in *. rewrite !andb_true_iff, bool_decide_eq_true in Hok. destruct Hok as [[Ht Hu] Hn].
    eapply reaches_step; [by apply prep_em|cbn; lia].
  - intros t name path rest Hok _ Hr. cbn in *. rewrite !andb_true_iff in Hok. destruct Hok as [[Ht Hn] Hp].
    eapply reaches_step; [by apply prep_prop|cbn; rewrite length_app; lia].
  - intros dot name rest Hok _ Hr. cbn in *. rewrite !andb_true_iff in Hok. destruct Hok as [Hd Hn].
    eapply reaches_step; [by apply prep_dot|cbn; lia].
  - intros name lp str rp rest Hok _ Hr. cbn in *. rewrite !andb_true_iff, bool_decide_eq_true in Hok.
    destruct Hok as [[[[[Hn Hu] Hlp] Hs] Hv] Hrp].
    eapply reaches_step; [apply prep_text; try done|cbn; lia]. destruct (t_val str); try done. by eexists _, _.
  - intros op ss _ cl rest Hok _ Hr. apply reaches_plain. done.
  - intros l IHl op r IHr rest Hok Hp Hr. cbn in Hok, Hp |- *. rewrite !andb_true_iff in Hok. rewrite !andb_true_iff in Hp.
    destruct Hok as [Hl Hr']. destruct Hp as [[[[Hop _] _] Hpl] Hpr]. destruct (binop_plain op Hop) as [H1 H2].
    rewrite <- app_assoc. cbn [app]. eapply prep_reaches_trans; [apply IHl; [done|done|apply H2]|].
    apply reaches_plain_cons; [done|]. by apply IHr.
  - intros op e IH rest Hok Hp Hr. cbn in Hok, Hp |- *. rewrite !andb_true_iff in Hp. destruct Hp as [[Hop _] Hp].
    apply reaches_plain_cons; [by eapply typed_plain|]. by apply IH.
  - intros lp e IH rp rest Hok Hp Hr. cbn in Hok, Hp |- *. rewrite !andb_true_iff in Hp. destruct Hp as [[Hlp Hrp] Hp].
    rewrite <- app_assoc. cbn [app]. apply reaches_plain_cons; [by eapply typed_plain|].
    eapply prep_reaches_trans; [apply IH; [done|done|by eapply typed_follows]|]. apply reaches_plain. by eapply typed_plain.
  - intros name lp a IH rp rest Hok Hp Hr. cbn in Hok, Hp |- *. rewrite !andb_true_iff, !bool_decide_eq_true in Hok. rewrite !andb_true_iff in Hp.
    destruct Hok as [[[Hn Hf] Hw] Ha]. destruct Hp as [[[[_ Hlp] Hrp] _] Hpa]. rewrite <- app_assoc. cbn [app].
    apply (preps_call name lp a rp rest _ _ IH Ha Hpa Hlp Hrp); [|done].
    apply (prep_function name lp _ (func_token name None, btoks_args a ++ rp :: rest) Hn Hlp).
    { intros E. apply underscore_no_function. by rewrite <- E. }
    unfold glw_view_function_resolve. pose proof (is_name_spec name Hn) as [_ Hs]. rewrite Hs, ok_bind, decide_True, decide_False by done.
    rewrite pbind_ret. cbn [snd]. by destruct (btoks_args a).
  - intros name lp class sep a IH rp rest Hok Hp Hr. cbn in Hok, Hp |- *. rewrite !andb_true_iff, !bool_decide_eq_true in Hok.
    rewrite !andb_true_iff in Hp. destruct Hok as [[[[[Hn Hf] Hc] Hcl] Hsep] Ha]. destruct Hp as [[[[_ Hlp] Hrp] _] Hpa].
    rewrite <- app_assoc. cbn [app].
    apply (preps_call name lp a rp rest _ _ IH Ha Hpa Hlp Hrp); [|cbn; lia].
    apply (prep_function name lp _ (func_token name (Some class), btoks_args a ++ rp :: rest) Hn Hlp); [by rewrite Hf|].
    unfold glw_view_function_resolve. pose proof (is_name_spec name Hn) as [_ Hs]. rewrite Hs, ok_bind, Hf.
    rewrite decide_True by apply widget_function. rewrite decide_True by done. unfold glwf_resolve_widget_class.
    pose proof (is_name_spec class Hc) as [Hc1 Hc2]. rewrite (is_type_refl _ class Hc1), Hc2, ok_bind, decide_True by done.
    rewrite pbind_ret. cbn [snd]. unfold func_token. rewrite Hf. by destruct (btoks_args a).
  - intros lb a IH rb rest Hok Hp Hr. cbn in Hok, Hp |- *. rewrite !andb_true_iff in Hp. destruct Hp as [[[[Hlb _] Hrb] _] Hpa].
    rewrite <- app_assoc. cbn [app]. apply reaches_plain_cons; [by eapply typed_plain|].
    eapply prep_reaches_trans; [apply IH; [done|done|by eapply typed_follows]|]. apply reaches_plain. by eapply typed_plain.
  - intros rest _ _ _ fuel Hf. exists fuel. split; [done|]. cbn. by destruct (prep_loop fuel rest) as [[?|?]|].
  - intros e IH sep a IHa rest Hok Hp Hr. cbn in Hok, Hp |- *. rewrite !andb_true_iff in Hok. rewrite !andb_true_iff in Hp.
    destruct Hok as [He Ha]. destruct Hp as [[[Hsep Hpe] Hpa] _]. rewrite <- app_assoc. cbn [app].
    eapply prep_reaches_trans; [apply IH; [done|done|by eapply typed_follows]|].
    apply reaches_plain_cons; [by eapply typed_plain|]. by apply IHa.
Qed.

(** The whole of an expression. *)
Lemma prep_spec e : expr_ok classes pnvec_size e = true -> pexpr_ok (prep e) = true ->
  prep_loop (S (length (btoks e))) (btoks e) = pret (ptoks (prep e)).
Proof.
  intros He Hp. destruct (proj1 preps_all e [] He Hp eq_refl (S (length (btoks e ++ [])))) as (f & Hf & E); [lia|].
  rewrite app_nil_r in E. rewrite E. destruct f; [simpl in Hf; lia|]. cbn. by rewrite app_nil_r.
Qed.

(** * Lemmas: statements *)

(** Attributes that are resolved have a row, integers a value. *)
Definition good_token (t : token) : bool :=
  attrib_ok t && (negb (is_type TOKEN_INT t) || match t_val t with VInt _ => true | _ => false end).

Lemma good_by_type t ty : t_type t = ty -> good_token (new_token [] 0 ty VNone) = true -> good_token t = true.
Proof.
  intros H. unfold good_token, attrib_ok, is_type. cbn. rewrite H.
  destruct (bool_decide (ty = TOKEN_RESOLVED_ATTRIBUTE)), (bool_decide (ty = TOKEN_INT)); done.
Qed.

Lemma good_resolved t : good_token (resolved t) = true.
Proof. unfold resolved. by destruct (list_find _ _) as [[? ?]|]. Qed.

Lemma name_chain_type t path : t_type (name_chain pnvec_size t path) = t_type t.
Proof.
  revert t. induction path as [|[d n] path IH]; intros t; [done|]. cbn [name_chain].
  destruct (t_val t); try done. destruct (decide _); [|done]. by rewrite IH.
Qed.

Lemma good_constant t : is_constant t = true -> good_token t = true.
Proof.
  intros H. unfold is_constant in H. unfold good_token, attrib_ok, is_type. destruct (t_type t); try done; by destruct (t_val t).
Qed.

Lemma good_binop t : is_binop t = true -> good_token t = true.
Proof. intros H. eapply good_by_type; [done|]. unfold is_binop in H. by destruct (t_type t). Qed.

Lemma good_typed ty t : is_type ty t = true -> good_token (new_token [] 0 ty VNone) = true -> good_token t = true.
Proof. intros H%is_type_eq. by apply good_by_type. Qed.

Lemma rpn_good : (forall e, expr_ok classes pnvec_size e = true -> pexpr_ok (prep e) = true -> forallb good_token (rpn (prep e)) = true) /\
  (forall a, args_ok classes pnvec_size a = true -> pargs_ok (prep_args a) = true -> forallb good_token (rpn_args (prep_args a)) = true) /\
  (forall ss : stmts, True).
Proof.
  assert (forall t n, good_token t = true -> good_token (set_num_args n t) = true) as Hargs by done.
  apply expr_args_stmts_ind; try done; cbn [expr_ok args_ok GlwView.prep GlwView.prep_args rpn rpn_args pexpr_ok pargs_ok forallb].
  - intros t H _. by rewrite good_constant.
  - intros t name path _ _. rewrite andb_true_r. eapply good_by_type; [apply name_chain_type|done].
  - intros dot name _ _. by rewrite good_resolved.
  - intros l IHl op r IHr H Hp. rewrite !andb_true_iff in H. rewrite !andb_true_iff in Hp. rewrite !forallb_app, IHl, IHr by tauto.
    cbn [forallb]. rewrite good_binop; tauto.
  - intros op e IH H Hp. rewrite !andb_true_iff in Hp. rewrite forallb_app, IH by tauto. cbn [forallb].
    destruct Hp as [[Hop _] _]. by erewrite good_typed.
  - intros lp e IH rp H Hp. rewrite !andb_true_iff in Hp. apply IH; tauto.
  - intros name lp a IH rp H Hp. rewrite !andb_true_iff in H. rewrite !andb_true_iff in Hp. rewrite forallb_app, IH by tauto. done.
  - intros name lp class sep a IH rp H Hp. rewrite !andb_true_iff in H. rewrite !andb_true_iff in Hp. rewrite forallb_app, IH by tauto. done.
  - intros lb a IH rb H Hp. rewrite !andb_true_iff in Hp. rewrite forallb_app, IH by tauto. cbn [forallb]. rewrite andb_true_r.
    apply Hargs. destruct Hp as [[[[Hlb _] _] _] _]. by eapply good_typed.
  - intros e IH sep a IHa H Hp. rewrite !andb_true_iff in H. rewrite !andb_true_iff in Hp. rewrite forallb_app, IH, IHa by tauto. done.
Qed.

(** Statements the optimizer can look at. *)
Definition mergeable (t : token) : Prop :=
  t_type t = TOKEN_INT -> (exists a, t_attrib t = Some a) /\ (exists i, t_val t = VInt i).

Lemma expr_type_cases p out : expr_type p out = TOKEN_RPN \/ expr_type p out = TOKEN_PURE_RPN.
Proof.
  unfold expr_type. destruct out; [by left|]. destruct (_ && _); [by right|]. destruct p; [by right|by left].
Qed.

Lemma statement_spec p semi : forallb good_token (rpn p) = true ->
  optimize_attribute_assignment (set_child (rpn p) (set_type (expr_type (pure p) (rpn p)) semi)) = Ok (statement p semi) /\
  mergeable (statement p semi).
Proof.
  intros Hg. unfold statement. cbv zeta. set (t := set_child _ _).
  assert (mergeable t) as Ht.
  { unfold mergeable, t. cbn. by destruct (expr_type_cases (pure p) (rpn p)) as [-> | ->]. }
  unfold optimize_attribute_assignment. change (t_child t) with (rpn p).
  destruct (rpn p) as [|att [|val [|ass [|? ?]]]]; try (by split).
  destruct (_ && _ && _ && _) eqn:E; [|by split]. rewrite !andb_true_iff in E. destruct E as [[[_ Ha] _] _].
  cbn [forallb] in Hg. rewrite !andb_true_iff in Hg. destruct Hg as (Hga & Hgv & _).
  unfold good_token, attrib_ok in Hga. rewrite Ha in Hga. destruct (t_attrib att) as [a|]; [|done]. split; [done|].
  intros Hv. cbn in Hv. split; [by eexists|]. cbn. unfold good_token in Hgv. rewrite andb_true_iff in Hgv. destruct Hgv as [_ Hgv].
  rewrite (is_type_refl _ _ Hv) in Hgv. destruct (t_val val); try done. by eexists.
Qed.

Lemma good_attrib l : forallb good_token l = true -> forallb attrib_ok l = true.
Proof. rewrite !forallb_forall. intros H x Hx. apply H in Hx. unfold good_token in Hx. by apply andb_true_iff in Hx as [? _]. Qed.

Lemma parse_expr e : expr_ok classes pnvec_size e = true -> pexpr_ok (prep e) = true ->
  parse_prep_expression classes pnvec_size (btoks e) = pret (expr_type (pure (prep e)) (rpn (prep e)), rpn (prep e)).
Proof.
  intros He Hp. unfold parse_prep_expression. rewrite prep_spec, pbind_ret by done.
  rewrite parse_shunting_yard_rpn; [done|done|]. by apply good_attrib, rpn_good.
Qed.

Lemma parse_assign name colon e (p := PBin (PLeaf (resolved name)) (set_type TOKEN_ASSIGNMENT colon) (prep e)) :
  is_name name = true -> is_type TOKEN_COLON colon = true -> expr_ok classes pnvec_size e = true -> pexpr_ok p = true ->
  parse_prep_expression classes pnvec_size (name :: colon :: btoks e) = pret (expr_type (pure p) (rpn p), rpn p) /\
  forallb good_token (rpn p) = true.
Proof.
  intros Hn Hc He Hp. assert (pexpr_ok (prep e) = true) as Hpe.
  { unfold p in Hp. cbn [pexpr_ok] in Hp. rewrite !andb_true_iff in Hp. tauto. }
  assert (forallb good_token (rpn p) = true) as Hg.
  { unfold p. cbn [rpn]. rewrite !forallb_app. cbn [forallb]. rewrite good_resolved, (proj1 rpn_good e) by done. done. }
  split; [|done]. unfold parse_prep_expression.
  assert (reaches (name :: colon :: btoks e ++ []) (ptoks p) []) as H.
  { unfold p. cbn [ptoks app]. eapply reaches_cons; [| |].
    - rewrite prep_name by done. rewrite Hc. apply is_name_spec in Hn as [_ Hn]. by rewrite attrib_resolve, ok_bind by done.
    - done.
    - apply reaches_plain_cons; [done|]. by apply preps_all. }
  rewrite app_nil_r in H. destruct (H (S (length (name :: colon :: btoks e)))) as (f & Hf & ->); [lia|].
  destruct f; [simpl in Hf; lia|]. cbn [GlwParser.prep_loop]. rewrite !pbind_ret, app_nil_r.
  rewrite parse_shunting_yard_rpn; [done|done|by apply good_attrib].
Qed.

(** * Lemmas: blocks *)

Lemma optimize_total ts : forall out m, Forall mergeable ts -> exists l, attrib_optimize_loop out m ts = Ok l.
Proof.
  induction ts as [|t ts IH]; intros out m H; [by eexists|]. apply Forall_cons in H as [Ht H]. cbn [attrib_optimize_loop].
  destruct (is_type TOKEN_INT t) eqn:E; [|by apply IH]. apply is_type_eq in E.
  destruct (Ht E) as [[a ->] [i ->]]. destruct (or_attrib (at_fn a)); [|by apply IH].
  destruct (merged_of (at_fn a) m); by apply IH.
Qed.

Notation parse_block := (parse_block classes pnvec_size).
Notation parse_stmts := (parse_stmts classes pnvec_size).
Notation parse_one := (parse_one_expression classes pnvec_size).

Lemma parse_block_eq F first ts term : parse_block (S F) first ts term =
  match ts with
  | [] => Fault NullDeref
  | t :: r =>
      if is_type term t then pret (set_type TOKEN_BLOCK first, r)
      else parse_stmts F (set_type TOKEN_BLOCK first) [] ts term
  end.
Proof. done. Qed.
Lemma parse_stmts_eq F first acc ts term : parse_stmts (S F) first acc ts term =
  match ts with
  | [] => glw_view_seterr (Some first) (lit "Unbalanced block")
  | t :: r =>
      if is_type term t then c ← glw_view_attrib_optimize acc; pret (set_child c first, r)
      else let! x := parse_one F t [] ts in parse_stmts F first (acc ++ [x.1]) x.2 term
  end.
Proof. done. Qed.

Lemma parse_one_open F start acc t r : t_type t = TOKEN_BLOCK_OPEN -> parse_one (S F) start acc (t :: r) =
  let! x := parse_block F t r TOKEN_BLOCK_CLOSE in parse_one F start (acc ++ [x.1]) x.2.
Proof. intros H. cbn [GlwParser.parse_one_expression]. by rewrite H. Qed.
Lemma parse_one_empty F start t r : t_type t = TOKEN_END_OF_EXPR -> parse_one (S F) start [] (t :: r) =
  pret (set_type TOKEN_NOP t, r).
Proof. intros H. cbn [GlwParser.parse_one_expression]. by rewrite H. Qed.

(** The loop of an expression passes [ts], of which it keeps [bts]. *)
Definition scans (ts bts rest : list token) : Prop := forall F start acc, (3 * length ts <= F)%nat ->
  exists F', (F <= F' + length ts)%nat /\ parse_one F start acc (ts ++ rest) = parse_one F' start (acc ++ bts) rest.

Lemma scans_app ts1 b1 ts2 b2 rest : scans ts1 b1 (ts2 ++ rest) -> scans ts2 b2 rest -> scans (ts1 ++ ts2) (b1 ++ b2) rest.
Proof.
  intros H1 H2 F start acc HF. rewrite length_app in *. destruct (H1 F start acc) as (F1 & HF1 & E1); [lia|].
  destruct (H2 F1 start (acc ++ b1)) as (F2 & HF2 & E2); [lia|]. exists F2. split; [lia|].
  by rewrite <- app_assoc, E1, E2, <- app_assoc.
Qed.

Definition scanned (t : token) : bool :=
  match t_type t with TOKEN_END | TOKEN_BLOCK_OPEN | TOKEN_END_OF_EXPR | TOKEN_BLOCK_CLOSE => false | _ => true end.

Lemma scans_one t rest : scanned t = true -> scans [t] [t] rest.
Proof.
  intros H F start acc HF. cbn [length] in HF. destruct F as [|F]; [lia|]. exists F. split; [cbn; lia|].
  cbn [app GlwParser.parse_one_expression]. unfold scanned in H. by destruct (t_type t).
Qed.

Lemma scans_cons t ts bts rest : scanned t = true -> scans ts bts rest -> scans (t :: ts) (t :: bts) rest.
Proof. intros H1 H2. apply (scans_app [t] [t] ts bts rest); [by apply scans_one|done]. Qed.

Lemma scans_typed ty t : is_type ty t = true -> scanned (new_token [] 0 ty VNone) = true -> scanned t = true.
Proof. intros H%is_type_eq Hs. unfold scanned in *. by rewrite H. Qed.

Lemma scans_path path rest : forallb (fun x => is_type TOKEN_DOT x.1 && is_name x.2) path = true ->
  scans (path_toks path) (path_toks path) rest.
Proof.
  induction path as [|[d n] path IH]; unfold path_toks; cbn [map concat forallb fst snd].
  - intros _ F start acc HF. exists F. split; [cbn; lia|]. by rewrite app_nil_r.
  - rewrite !andb_true_iff. intros [[Hd Hn] Hp]. cbn [app]. apply is_name_spec in Hn as [Hn _].
    apply scans_cons; [by eapply scans_typed|]. apply scans_cons; [unfold scanned; by rewrite Hn|]. by apply IH.
Qed.

Definition scans_expr (e : expr) : Prop := expr_ok classes pnvec_size e = true -> pexpr_ok (prep e) = true ->
  (forall rest, scans (toks e) (btoks e) rest) /\
  exists t r, toks e = t :: r /\ t_type t <> TOKEN_END /\ t_type t <> TOKEN_BLOCK_CLOSE /\ t_type t <> TOKEN_END_OF_EXPR.
Definition scans_args (a : args) : Prop := args_ok classes pnvec_size a = true -> pargs_ok (prep_args a) = true ->
  forall rest, scans (toks_args a) (btoks_args a) rest.
Definition parses_stmts (ss : stmts) : Prop := stmts_ok classes pnvec_size ss = true ->
  Forall mergeable (meaning pnvec_size ss) /\
  (ss <> SNil -> exists t r, toks_stmts ss = t :: r /\ t_type t <> TOKEN_END /\ t_type t <> TOKEN_BLOCK_CLOSE) /\
  forall F first acc cl rest term, (3 * length (toks_stmts ss) + 1 <= F)%nat -> is_type term cl = true ->
  term = TOKEN_END \/ term = TOKEN_BLOCK_CLOSE ->
  parse_stmts F first acc (toks_stmts ss ++ cl :: rest) term =
    (c ← glw_view_attrib_optimize (acc ++ meaning pnvec_size ss); pret (set_child c first, rest)).

Lemma parse_block_spec op ss cl rest F term : parses_stmts ss -> stmts_ok classes pnvec_size ss = true -> t_child op = [] ->
  is_type term cl = true -> term = TOKEN_END \/ term = TOKEN_BLOCK_CLOSE ->
  (3 * length (toks_stmts ss) + 2 <= F)%nat ->
  parse_block F op (toks_stmts ss ++ cl :: rest) term = pret (block pnvec_size op ss, rest).
Proof.
  intros Hss Hok Hop Hcl Hterm HF. destruct (Hss Hok) as (Hm & Hhd & Hp). destruct F as [|F]; [lia|].
  unfold block. destruct (optimize_total (meaning pnvec_size ss) [] (Merged None None None) Hm) as [l El].
  fold (glw_view_attrib_optimize (meaning pnvec_size ss)) in El. rewrite El. cbn [or_else].
  assert (ss = SNil \/ ss <> SNil) as [-> | Hne] by (destruct ss; [by left|by right..]).
  - cbn [toks_stmts app GlwParser.parse_block]. rewrite Hcl. cbn in El. injection El as <-.
    destruct op; cbn in Hop. by subst.
  - destruct (Hhd Hne) as (t & r & E & H1 & H2). rewrite parse_block_eq.
    specialize (Hp F (set_type TOKEN_BLOCK op) [] cl rest term ltac:(lia) Hcl Hterm). cbn [app] in Hp. rewrite El, ok_bind in Hp.
    rewrite E in *. cbn [app] in *. rewrite Hp.
    assert (is_type term t = false) as ->; [|done]. apply is_type_false. intros E'. destruct Hterm; congruence.
Qed.

Lemma head_app (ts : list token) r (P : token -> Prop) : (exists t l, ts = t :: l /\ P t) -> exists t l, ts ++ r = t :: l /\ P t.
Proof. intros (t & l & -> & H). by exists t, (l ++ r). Qed.

Lemma scanned_head t : scanned t = true -> t_type t <> TOKEN_END /\ t_type t <> TOKEN_BLOCK_CLOSE /\ t_type t <> TOKEN_END_OF_EXPR.
Proof. unfold scanned. by destruct (t_type t). Qed.

Lemma scanned_name t : is_name t = true -> scanned t = true.
Proof. intros [H _]%is_name_spec. unfold scanned. by rewrite H. Qed.

Lemma scanned_binop t : is_binop t = true -> scanned t = true.
Proof. unfold is_binop, scanned. by destruct (t_type t). Qed.

Lemma scanned_constant t : is_constant t = true -> scanned t = true.
Proof. unfold is_constant, scanned. by destruct (t_type t). Qed.

(** An expression whose first token is scanned. *)
Lemma scans_head t ts bts : scanned t = true -> (forall rest, scans ts bts rest) ->
  (forall rest, scans (t :: ts) (t :: bts) rest) /\
  exists u r, t :: ts = u :: r /\ t_type u <> TOKEN_END /\ t_type u <> TOKEN_BLOCK_CLOSE /\ t_type u <> TOKEN_END_OF_EXPR.
Proof.
  intros Ht H. split; [intros rest; by apply scans_cons|]. exists t, ts. split; [done|]. by apply scanned_head.
Qed.

Lemma scans_nil rest : scans [] [] rest.
Proof. intros F start acc HF. exists F. split; [simpl; lia|]. by rewrite app_nil_r. Qed.

(** One turn of the loop of a block. *)
Lemma stmts_turn F first acc ts t r cl rest term : ts = t :: r -> t_type t <> TOKEN_END -> t_type t <> TOKEN_BLOCK_CLOSE ->
  term = TOKEN_END \/ term = TOKEN_BLOCK_CLOSE ->
  parse_stmts (S F) first acc (ts ++ cl :: rest) term =
    let! x := parse_one F t [] (ts ++ cl :: rest) in parse_stmts F first (acc ++ [x.1]) x.2 term.
Proof.
  intros -> H1 H2 Hterm. cbn [app]. rewrite parse_stmts_eq.
  assert (is_type term t = false) as ->; [|done]. apply is_type_false. intros E. destruct Hterm; congruence.
Qed.

(** The end of an expression. *)
Lemma one_end F start acc semi rest p : is_type TOKEN_END_OF_EXPR semi = true -> acc <> [] ->
  parse_prep_expression classes pnvec_size acc = pret (expr_type (pure p) (rpn p), rpn p) ->
  forallb good_token (rpn p) = true ->
  parse_one (S F) start acc (semi :: rest) = pret (statement p semi, rest).
Proof.
  intros Hs%is_type_eq Hne Hp Hg. cbn [GlwParser.parse_one_expression]. rewrite Hs. destruct acc as [|a acc]; [done|].
  rewrite Hp, pbind_ret. cbn [fst snd]. by rewrite (proj1 (statement_spec p semi Hg)), ok_bind.
Qed.

Lemma scans_call name lp mid a rp : scans_args a -> args_ok classes pnvec_size a = true -> pargs_ok (prep_args a) = true ->
  forallb scanned (name :: lp :: mid) = true -> is_type TOKEN_RIGHT_PARENTHESIS rp = true ->
  (forall rest, scans (name :: lp :: mid ++ toks_args a ++ [rp]) (name :: lp :: mid ++ btoks_args a ++ [rp]) rest) /\
  exists u r, name :: lp :: mid ++ toks_args a ++ [rp] = u :: r /\
    t_type u <> TOKEN_END /\ t_type u <> TOKEN_BLOCK_CLOSE /\ t_type u <> TOKEN_END_OF_EXPR.
Proof.
  intros IH Ha Hp Hm Hrp. cbn [forallb] in Hm. rewrite !andb_true_iff in Hm. destruct Hm as (Hn & Hlp & Hm).
  apply scans_head; [done|]. intros rest. apply scans_cons; [done|].
  assert (forall rest, scans (toks_args a ++ [rp]) (btoks_args a ++ [rp]) rest) as Ht.
  { intros r. apply scans_app; [by apply IH|]. apply scans_one. by eapply scans_typed. }
  clear Hn Hlp. induction mid as [|m mid IHm]; [apply Ht|]. cbn [forallb] in Hm. apply andb_true_iff in Hm as [Hm Hms].
  cbn [app]. apply scans_cons; [done|by apply IHm].
Qed.

Lemma scans_all : (forall e, scans_expr e) /\ (forall a, scans_args a) /\ (forall ss, parses_stmts ss).
Proof.
  apply expr_args_stmts_ind.
  - intros t Hok _. cbn in *. apply scans_head; [by apply scanned_constant|]. apply scans_nil.
  - intros t u Hok _. cbn in *. rewrite !andb_true_iff in Hok. destruct Hok as [[Ht Hu] _]. apply scans_head.
    + unfold is_number in Ht. apply orb_true_iff in Ht as [Ht|Ht]; by eapply scans_typed.
    + intros rest. apply scans_one. by apply scanned_name.
  - intros t name path Hok _. cbn in *. rewrite !andb_true_iff, orb_true_iff in Hok. destruct Hok as [[Ht Hn] Hp]. apply scans_head.
    + destruct Ht as [Ht|Ht]; by eapply scans_typed.
    + intros rest. apply scans_cons; [by apply scanned_name|by apply scans_path].
  - intros dot name Hok _. cbn in *. rewrite !andb_true_iff in Hok. destruct Hok as [Hd Hn]. apply scans_head; [by eapply scans_typed|].
    intros rest. apply scans_one. by apply scanned_name.
  - intros name lp str rp Hok _. cbn in *. rewrite !andb_true_iff in Hok. destruct Hok as [[[[[Hn _] Hlp] Hs] _] Hrp].
    apply scans_head; [by apply scanned_name|]. intros rest.
    apply scans_cons; [by eapply scans_typed|]. apply scans_cons; [by eapply scans_typed|]. apply scans_one. by eapply scans_typed.
  - intros op ss IH cl Hok _. cbn [expr_ok toks btoks] in *. rewrite !andb_true_iff, bool_decide_eq_true in Hok.
    destruct Hok as [[[Hop Hc] Hcl] Hss]. pose proof Hop as Ht%is_type_eq. split; [|exists op; eexists; split; [done|by rewrite Ht]].
    intros rest F start acc HF. cbn [length] in HF. rewrite length_app in HF. cbn [length] in HF. destruct F as [|F]; [lia|].
    exists F. split; [cbn; lia|]. cbn [app]. rewrite <- app_assoc. cbn [app]. rewrite parse_one_open by done.
    rewrite (parse_block_spec op ss cl rest F TOKEN_BLOCK_CLOSE IH Hss Hc Hcl); [done|by right|lia].
  - intros l IHl op r IHr Hok Hp. cbn in Hok, Hp |- *. rewrite !andb_true_iff in Hok. rewrite !andb_true_iff in Hp.
    destruct (IHl ltac:(tauto) ltac:(tauto)) as [Hl Hh]. destruct (IHr ltac:(tauto) ltac:(tauto)) as [Hr _]. split.
    + intros rest. apply scans_app; [done|]. apply scans_cons; [apply scanned_binop; tauto|done].
    + by apply head_app.
  - intros op e IH Hok Hp. cbn in Hok, Hp |- *. rewrite !andb_true_iff in Hp. destruct Hp as [[Hop _] Hp].
    apply scans_head; [by eapply scans_typed|]. by apply IH.
  - intros lp e IH rp Hok Hp. cbn in Hok, Hp |- *. rewrite !andb_true_iff in Hp. destruct Hp as [[Hlp Hrp] Hp].
    apply scans_head; [by eapply scans_typed|]. intros rest. apply scans_app; [by apply IH|]. apply scans_one. by eapply scans_typed.
  - intros name lp a IH rp Hok Hp. cbn in Hok, Hp |- *. rewrite !andb_true_iff in Hok. rewrite !andb_true_iff in Hp.
    apply (scans_call name lp []); try tauto. cbn [forallb]. rewrite scanned_name by tauto.
    rewrite (scans_typed TOKEN_LEFT_PARENTHESIS lp) by (done || tauto). done.
  - intros name lp class sep a IH rp Hok Hp. cbn in Hok, Hp |- *. rewrite !andb_true_iff in Hok. rewrite !andb_true_iff in Hp.
    destruct Hok as [[[[[Hn _] Hc] _] Hsep] Ha].
    apply (scans_call name lp [class; sep]); try tauto. cbn [forallb]. rewrite (scanned_name name), (scanned_name class) by done.
    rewrite (scans_typed TOKEN_LEFT_PARENTHESIS lp), (scans_typed TOKEN_SEPARATOR sep) by (done || tauto). done.
  - intros lb a IH rb Hok Hp. cbn in Hok, Hp |- *. rewrite !andb_true_iff in Hp. apply scans_head; [eapply scans_typed; [apply Hp|done]|].
    intros rest. apply scans_app; [apply IH; tauto|]. apply scans_one. eapply scans_typed; [apply Hp|done].
  - intros _ _ rest. apply scans_nil.
  - intros e IH Hok Hp. cbn in Hok, Hp |- *. by apply IH.
  - intros e IH sep a IHa Hok Hp. cbn in Hok, Hp |- *. rewrite !andb_true_iff in Hok. rewrite !andb_true_iff in Hp.
    intros rest. apply scans_app; [apply IH; tauto|]. apply scans_cons; [eapply scans_typed; [apply Hp|done]|]. apply IHa; tauto.
  - intros _. split_and!; [constructor|done|]. intros F first acc cl rest term HF Hcl Hterm. destruct F as [|F]; [simpl in HF; lia|].
    cbn [toks_stmts app meaning]. rewrite parse_stmts_eq, Hcl. by rewrite app_nil_r.
  - intros semi ss IH Hok. cbn [stmts_ok toks_stmts meaning] in *. apply andb_true_iff in Hok as [Hs Hok].
    destruct (IH Hok) as (Hm & Hh & Hp). pose proof Hs as Ht%is_type_eq. split_and!.
    + constructor; [done|exact Hm].
    + intros _. exists semi, (toks_stmts ss). by rewrite Ht.
    + intros F first acc cl rest term HF Hcl Hterm. cbn [length] in HF. destruct F as [|[|F]]; [lia..|].
      erewrite stmts_turn; [|done|by rewrite Ht|by rewrite Ht|done]. cbn [app]. rewrite parse_one_empty, pbind_ret by done.
      cbn [fst snd]. rewrite (Hp (S F)) by (done || lia). by rewrite <- app_assoc.
  - intros e IHe semi ss IH Hok. cbn [stmts_ok toks_stmts meaning] in *. rewrite !andb_true_iff in Hok.
    destruct Hok as [[[Hs He] Hpe] Hok]. destruct (IH Hok) as (Hm & Hh & Hp). destruct (IHe He Hpe) as (Hsc & t & r & Et & H1 & H2 & H3).
    pose proof (proj1 rpn_good e He Hpe) as Hg. split_and!.
    + constructor; [by apply statement_spec|exact Hm].
    + intros _. rewrite Et. by exists t, (r ++ semi :: toks_stmts ss).
    + intros F first acc cl rest term HF Hcl Hterm. rewrite length_app in HF. cbn [length] in HF. destruct F as [|F]; [lia|].
      erewrite stmts_turn; [|rewrite Et; done|done|done|done]. rewrite <- app_assoc. cbn [app].
      destruct (Hsc (semi :: toks_stmts ss ++ cl :: rest) F t []) as (F' & HF' & E); [lia|]. rewrite E. cbn [app].
      destruct F' as [|F']; [lia|]. rewrite (one_end F' t (btoks e) semi _ (prep e)); [|done| |by apply parse_expr|done].
      2: { intros E0. pose proof (parse_expr e He Hpe) as E1. rewrite E0 in E1. discriminate E1. }
      rewrite pbind_ret. cbn [fst snd]. rewrite Hp by (done || lia). by rewrite <- app_assoc.
  - intros name colon e IHe semi ss IH Hok. cbn [stmts_ok toks_stmts meaning] in *. rewrite !andb_true_iff in Hok.
    destruct Hok as [[[[[Hs Hn] Hc] He] Hpe] Hok]. destruct (IH Hok) as (Hm & Hh & Hp).
    destruct (parse_assign name colon e Hn Hc He Hpe) as [Epar Hg].
    assert (pexpr_ok (prep e) = true) as Hpe'. { cbn [pexpr_ok] in Hpe. rewrite !andb_true_iff in Hpe. tauto. }
    destruct (IHe He Hpe') as (Hsc & _). pose proof (scanned_name name Hn) as Hsn. pose proof (scanned_head name Hsn) as (H1 & H2 & _).
    split_and!.
    + constructor; [by apply statement_spec|exact Hm].
    + intros _. by exists name, (colon :: toks e ++ semi :: toks_stmts ss).
    + intros F first acc cl rest term HF Hcl Hterm. cbn [length] in HF. rewrite length_app in HF. cbn [length] in HF. destruct F as [|F]; [lia|].
      erewrite stmts_turn; [|done|done|done|done]. cbn [app]. rewrite <- app_assoc. cbn [app].
      assert (scans (name :: colon :: toks e) (name :: colon :: btoks e) (semi :: toks_stmts ss ++ cl :: rest)) as Hsc'.
      { apply scans_cons; [done|]. apply scans_cons; [by eapply scans_typed|done]. }
      destruct (Hsc' F name []) as (F' & HF' & E); [cbn; lia|]. cbn [app] in E. rewrite E. cbn [length] in HF'.
      destruct F' as [|F']; [lia|]. rewrite (one_end F' name (name :: colon :: btoks e) semi _ _ Hs ltac:(done) Epar Hg).
      rewrite pbind_ret. cbn [fst snd]. rewrite Hp by (done || lia). by rewrite <- app_assoc.
Qed.

(** C7: The parser accepts every well formed view, nested blocks included, and
    makes it the block of the statements it means: expressions in reverse Polish
    notation with the arguments counted, names resolved, paths, elements, texts
    and widget classes expanded, assignments of plain values and of flags in
    their optimized forms. *)
Theorem glw_view_parse_view sof ss eof : stmts_ok classes pnvec_size ss = true -> t_child sof = [] ->
  is_type TOKEN_END eof = true ->
  glw_view_parse classes pnvec_size sof (toks_stmts ss ++ [eof]) = Ok (inr (block pnvec_size sof ss)).
Proof.
  intros Hok Hsof Heof. unfold glw_view_parse. set (F := (3 * length _ + 3)%nat).
  rewrite (parse_block_spec sof ss eof [] F TOKEN_END (proj2 (proj2 scans_all) ss) Hok Hsof Heof); [done|by left|].
  unfold F. rewrite length_app. cbn [length]. lia.
Qed.

End prep.

(** * A view *)

Section demo.
Let f : list Z := lit "demo.view".
Let tok (ty : token_type) (v : tval) : token := new_token f 1 ty v.
Let op (ty : token_type) : token := tok ty VNone.
Let name (s : string) : token := tok TOKEN_IDENTIFIER (VRstring (lit s) PROP_STR_UTF8).
Let semi : token := op TOKEN_END_OF_EXPR.

(** [shadow: true; bold: false; widget(label, { alpha: 1 + $ui.a.b * 2; caption: _("Hi"); size: [1em, !.time]; }); ] *)
Definition demo_view : stmts :=
  let one := EValue (tok TOKEN_FLOAT (VFloat (f32_of_int 1))) in
  let lp := op TOKEN_LEFT_PARENTHESIS in
  let rp := op TOKEN_RIGHT_PARENTHESIS in
  let colon := op TOKEN_COLON in
  let sum := EBin one (op TOKEN_ADD)
    (EBin (EProp (op TOKEN_DOLLAR) (name "ui") [(op TOKEN_DOT, name "a"); (op TOKEN_DOT, name "b")]) (op TOKEN_MULTIPLY) one) in
  let hi := EText (name "_") lp (tok TOKEN_RSTRING (VRstring (lit "Hi") PROP_STR_UTF8)) rp in
  let pair := EVec (op TOKEN_LEFT_BRACKET)
    (AMore (EEm (tok TOKEN_FLOAT (VFloat (f32_of_int 1))) (name "em")) (op TOKEN_SEPARATOR)
      (AOne (ENot (op TOKEN_BOOLEAN_NOT) (EAttr (op TOKEN_DOT) (name "time"))))) (op TOKEN_RIGHT_BRACKET) in
  let inner := SAssign (name "alpha") colon sum semi (SAssign (name "caption") colon hi semi
    (SAssign (name "size") colon pair semi SNil)) in
  SAssign (name "shadow") colon (EValue (tok TOKEN_INT (VInt 1))) semi
    (SAssign (name "bold") colon (EValue (tok TOKEN_INT (VInt 0))) semi
      (SExpr (EWidget (name "widget") lp (name "label") (op TOKEN_SEPARATOR)
        (AOne (EBlock (op TOKEN_BLOCK_OPEN) inner (op TOKEN_BLOCK_CLOSE))) rp) semi (SEmpty semi SNil))).

Definition demo_sof : token := tok TOKEN_START VNone.
Definition demo_eof : token := tok TOKEN_END VNone.
End demo.

Lemma glw_view_parse_view_witness :
  glw_view_parse [lit "label"] 2 demo_sof (toks_stmts demo_view ++ [demo_eof]) = Ok (inr (block 2 demo_sof demo_view)) /\
  map t_type (t_child (block 2 demo_sof demo_view)) = [TOKEN_MOD_FLAGS; TOKEN_MOD_FLAGS; TOKEN_RPN; TOKEN_NOP].
Proof.
  split; [|vm_compute; reflexivity].
  apply (glw_view_parse_view [lit "label"] 2 demo_sof demo_view demo_eof); vm_compute; reflexivity.
Defined.
