(* ===== verification/Json.v ===== *)
(** JSON (src/src/misc/json.c, src/src/htsmsg/htsmsg_json.c and the number
    reader of src/src/misc/dbl.c): the parser, over the callbacks of a
    deserializer; the deserializer that builds htsmsgs; and the writer, over a
    sink of bytes.  Floating point arithmetic is a parameter: the value of a
    number with a fraction or an exponent, and the text of a double. *)
From S2P Require Import Prelude Clib Utf8 Htsmsg Htsbuf.

Local Open Scope Z_scope.

(** * Strings *)

Section json.
Context {cs : CharSign}.

(** The loop that skips blanks before a token. *)
Fixpoint json_ws (s : list Z) : res (list Z) :=
  match s with
  | [] => Fault OobRead
  | c :: s' => if (0 <? cchar c) && (cchar c <? 33) then json_ws s' else Ok s
  end.

Definition peek (s : list Z) : res Z :=
  match s with [] => Fault OobRead | c :: _ => Ok c end.

(** The digits of a [\u] escape. *)
Fixpoint json_hex (n : nat) (v : Z) (s : list Z) : res (option (Z * list Z)) :=
  match n with
  | O => Ok (Some (v, s))
  | S n =>
      c ← peek s;
      let v := Z.shiftl v 4 in
      if (48 <=? c) && (c <=? 57) then json_hex n (Z.lor v (c - 48)) (tail s)
      else if (97 <=? c) && (c <=? 102) then json_hex n (Z.lor v (c - 97 + 10)) (tail s)
      else if (65 <=? c) && (c <=? 70) then json_hex n (Z.lor v (c - 70 + 10)) (tail s)
      else Ok None
  end.

(** The character, -1 at the end and -2 for a bad escape, and [*ptr]. *)
Definition json_str_read_char (s : list Z) : res (Z * list Z) :=
  c ← peek s;
  if c =? 0 then Ok (-1, s)
  else if negb (c =? 92) then utf8_get s
  else
    c ← peek (tail s);
    let ptr := tail (tail s) in
    if c =? 0 then Ok (-1, ptr)
    else if c =? 98 then Ok (8, ptr)
    else if c =? 102 then Ok (12, ptr)
    else if c =? 110 then Ok (10, ptr)
    else if c =? 114 then Ok (13, ptr)
    else if c =? 116 then Ok (9, ptr)
    else if c =? 117 then
      x ← json_hex 4 0 ptr;
      Ok (match x with Some (v, s) => (v, s) | None => (-2, ptr) end)
    else Ok (cchar c, ptr).

(** Results of the parsing functions: [NOT_THIS_TYPE], [NULL] with [*failmsg]
    and [*failp], or a value with [*endp]. *)
Inductive jres (A : Type) :=
| JNot
| JFail (failmsg failp : list Z)
| JOk (a : A) (endp : list Z).
Arguments JNot {A}.
Arguments JFail {A} _ _.
Arguments JOk {A} _ _.

(** The first pass: the length of the string. *)
Fixpoint json_string_len (fuel : nat) (s : list Z) (len : Z) : res (jres Z) :=
  match fuel with
  | O => Fault NoFuel
  | S fuel =>
      c ← peek s;
      if c =? 34 then Ok (JOk len s)
      else
        x ← json_str_read_char s;
        let '(v, s) := x in
        if v =? -1 then Ok (JFail (lit "Unexpected end of JSON message") s)
        else if v =? -2 then Ok (JFail (lit "Incorrect escape sequence") s)
        else
          len ← chk_int (len + Z.of_nat (length (utf8_put v)));
          json_string_len fuel s len
  end.

(** The second pass writes to the [len] bytes that were allocated. *)
Fixpoint json_string_write (fuel : nat) (s : list Z) (len : Z) (dst : list Z)
    : res (list Z * list Z) :=
  match fuel with
  | O => Fault NoFuel
  | S fuel =>
      c ← peek s;
      if c =? 34 then Ok (dst, tail s)
      else
        x ← json_str_read_char s;
        let '(v, s) := x in
        if negb (0 <? v) then Fault AssertFailed
        else
          let dst := dst ++ utf8_put v in
          if len <? Z.of_nat (length dst) then Fault OobWrite
          else json_string_write fuel s len dst
  end.

Definition json_parse_string (start : list Z) : res (jres (list Z)) :=
  start ← json_ws start;
  c ← peek start;
  if negb (c =? 34) then Ok JNot
  else
    let start := tail start in
    x ← json_string_len (S (length start)) start 0;
    match x with
    | JNot => Ok JNot
    | JFail m p => Ok (JFail m p)
    | JOk len _ =>
        r ← json_string_write (S (length start)) start len [];
        Ok (JOk r.1 r.2)
    end.

(** * Numbers *)

(** What [my_str2double] reads: the sign, the integer part, minus the number of
    fraction digits and the fraction as an integer, and the exponent. *)
Record dbl_parts := Dbl {
  dbl_neg : bool; dbl_n : Z; dbl_m : Z; dbl_o : Z; dbl_e : Z }.

Context (dbl_value : dbl_parts -> Z).

(** [n = n * 10 + *str++ - '0'] over the digits, which [count] counts. *)
Fixpoint int_digits (n count : Z) (s : list Z) : res (Z * Z * list Z) :=
  match s with
  | [] => Fault OobRead
  | c :: s' =>
      if is_digit c then
        a ← chk_int (n * 10);
        b ← chk_int (a + c);
        n ← chk_int (b - 48);
        int_digits n (count + 1) s'
      else Ok (n, count, s)
  end.

Fixpoint dbl_ws (s : list Z) : res (list Z) :=
  match s with
  | [] => Fault OobRead
  | c :: s' => if negb (c =? 0) && (cchar c <? 33) then dbl_ws s' else Ok s
  end.

Definition my_str2double (str : list Z) : res (Z * list Z) :=
  str ← dbl_ws str;
  c ← peek str;
  let neg := c =? 45 in
  let str := if neg then tail str else str in
  x ← int_digits 0 0 str;
  let '(n, _, str) := x in
  c ← peek str;
  x ← (if negb (c =? 46) then Ok (0, 0, str)
       else y ← int_digits 0 0 (tail str); let '(o, k, s) := y in Ok (o, - k, s));
  let '(o, m, str) := x in
  c ← peek str;
  x ← (if (c =? 101) || (c =? 69) then
         c ← peek (tail str);
         let esign := if c =? 45 then -1 else 1 in
         let str := if (c =? 43) || (c =? 45) then tail (tail str) else tail str in
         y ← int_digits 0 0 str;
         let '(e, _, s) := y in Ok (e * esign, s)
       else Ok (0, str));
  let '(e, str) := x in
  Ok (dbl_value (Dbl neg n m o e), str).

(** [None] for [NULL]. *)
Definition json_parse_double (s : list Z) : res (option (Z * list Z)) :=
  s ← json_ws s;
  x ← my_str2double s;
  let '(d, ep) := x in
  Ok (if (length ep =? length s)%nat then None else Some (d, ep)).

Fixpoint skip_digits (s : list Z) : res (list Z) :=
  match s with
  | [] => Fault OobRead
  | c :: s' => if is_digit c then skip_digits s' else Ok s
  end.

(** [strtol] reads up to the terminator; [tl] is what follows it in memory. *)
Definition json_parse_integer (s : list Z) : res (option (Z * list Z)) :=
  s ← json_ws s;
  c ← peek s;
  s2 ← skip_digits (if c =? 45 then tail s else s);
  c ← peek s2;
  if c =? 0 then Ok None
  else if (c =? 46) || (c =? 101) || (c =? 69) then Ok None
  else
    str ← cstr_at s;
    let '(v, ep) := strtol str 10 in
    if (v =? i64_min) || (v =? i64_max) then Ok None
    else if (length ep =? length str)%nat then Ok None
    else Ok (Some (v, drop (length str - length ep) s)).

(** * The parser *)

(** The callbacks; a parent object is passed and returned instead of mutated. *)
Record json_deserializer (T : Type) := {
  jd_create_map : T;
  jd_create_list : T;
  jd_add_obj : T -> option (list Z) -> T -> res T;
  jd_add_string : T -> option (list Z) -> list Z -> res T;
  jd_add_long : T -> option (list Z) -> Z -> res T;
  jd_add_double : T -> option (list Z) -> Z -> res T;
  jd_add_bool : T -> option (list Z) -> Z -> res T;
  jd_add_null : T -> option (list Z) -> res T }.

Context {T : Type} (jd : json_deserializer T).

Definition str_token (t : list Z) (s : list Z) : bool := has_prefix t s.

Fixpoint json_parse_value (fuel : nat) (s : list Z) (parent : T) (name : option (list Z))
    : res (jres T) :=
  match fuel with
  | O => Fault NoFuel
  | S fuel =>
      c ← json_parse_map fuel s;
      match c with
      | JFail m p => Ok (JFail m p)
      | JOk c s2 => parent ← jd_add_obj _ jd parent name c; Ok (JOk parent s2)
      | JNot =>
      c ← json_parse_list fuel s;
      match c with
      | JFail m p => Ok (JFail m p)
      | JOk c s2 => parent ← jd_add_obj _ jd parent name c; Ok (JOk parent s2)
      | JNot =>
      str ← json_parse_string s;
      match str with
      | JFail m p => Ok (JFail m p)
      | JOk str s2 => parent ← jd_add_string _ jd parent name str; Ok (JOk parent s2)
      | JNot =>
      l ← json_parse_integer s;
      match l with
      | Some (l, s2) => parent ← jd_add_long _ jd parent name l; Ok (JOk parent s2)
      | None =>
      d ← json_parse_double s;
      match d with
      | Some (d, s2) => parent ← jd_add_double _ jd parent name d; Ok (JOk parent s2)
      | None =>
      s ← json_ws s;
      if str_token (lit "true") s then
        parent ← jd_add_bool _ jd parent name 1; Ok (JOk parent (drop 4 s))
      else if str_token (lit "false") s then
        parent ← jd_add_bool _ jd parent name 0; Ok (JOk parent (drop 5 s))
      else if str_token (lit "null") s then
        parent ← jd_add_null _ jd parent name; Ok (JOk parent (drop 4 s))
      else Ok (JFail (lit "Unknown token") s)
      end end end end end
  end
with json_parse_map (fuel : nat) (s : list Z) : res (jres T) :=
  match fuel with
  | O => Fault NoFuel
  | S fuel =>
      s ← json_ws s;
      c ← peek s;
      if negb (c =? 123) then Ok JNot
      else
        s ← json_ws (tail s);
        c ← peek s;
        if c =? 125 then Ok (JOk (jd_create_map _ jd) (tail s))
        else json_parse_map_loop fuel s (jd_create_map _ jd)
  end
with json_parse_map_loop (fuel : nat) (s : list Z) (r : T) : res (jres T) :=
  match fuel with
  | O => Fault NoFuel
  | S fuel =>
      name ← json_parse_string s;
      match name with
      | JNot => Ok (JFail (lit "Expected string") s)
      | JFail m p => Ok (JFail m p)
      | JOk name s2 =>
          s ← json_ws s2;
          c ← peek s;
          if negb (c =? 58) then Ok (JFail (lit "Expected ':'") s)
          else
            v ← json_parse_value fuel (tail s) r (Some name);
            match v with
            | JNot => Ok JNot
            | JFail m p => Ok (JFail m p)
            | JOk r s2 =>
                s ← json_ws s2;
                c ← peek s;
                if c =? 125 then Ok (JOk r (tail s))
                else if negb (c =? 44) then Ok (JFail (lit "Expected ','") s)
                else json_parse_map_loop fuel (tail s) r
            end
      end
  end
with json_parse_list (fuel : nat) (s : list Z) : res (jres T) :=
  match fuel with
  | O => Fault NoFuel
  | S fuel =>
      s ← json_ws s;
      c ← peek s;
      if negb (c =? 91) then Ok JNot
      else
        s ← json_ws (tail s);
        c ← peek s;
        if c =? 93 then Ok (JOk (jd_create_list _ jd) (tail s))
        else json_parse_list_loop fuel s (jd_create_list _ jd)
  end
with json_parse_list_loop (fuel : nat) (s : list Z) (r : T) : res (jres T) :=
  match fuel with
  | O => Fault NoFuel
  | S fuel =>
      v ← json_parse_value fuel s r None;
      match v with
      | JNot => Ok JNot
      | JFail m p => Ok (JFail m p)
      | JOk r s2 =>
          s ← json_ws s2;
          c ← peek s;
          if c =? 93 then Ok (JOk r (tail s))
          else if negb (c =? 44) then Ok (JFail (lit "Expected ','") s)
          else json_parse_list_loop fuel (tail s) r
      end
  end.

(** The text for [errbuf], before it is cut to its size. *)
Definition json_error (src errmsg errp : list Z) : res (list Z) :=
  str ← cstr_at src;
  let offset := Z.of_nat (length src) - Z.of_nat (length errp) in
  if (Z.of_nat (length str) <? offset) || (offset <? 0) then
    Ok (errmsg ++ lit " at (bad) offset " ++ dec_of_Z offset)
  else
    let offset := if offset - 10 <? 0 then 0 else offset - 10 in
    Ok (errmsg ++ lit " at offset " ++ dec_of_Z offset ++ lit " : '" ++
        take 20 (drop (Z.to_nat offset) str) ++ lit "'").

(** An object or a list, or the error text.  Every round of a loop and every
    nested value reads at least a byte, so the fuel is enough. *)
Definition json_deserialize (src : list Z) : res (list Z + T) :=
  let fuel := (4 * length src + 4)%nat in
  c ← json_parse_map fuel src;
  c ← match c with JNot => json_parse_list fuel src | c => Ok c end;
  match c with
  | JNot => Ok (inl (lit "Invalid JSON, expected '{' or '['"))
  | JFail m p => e ← json_error src m p; Ok (inl e)
  | JOk c _ => Ok (inr c)
  end.
End json.
Arguments JNot {A}.
Arguments JFail {A} _ _.
Arguments JOk {A} _ _.

(** * The htsmsg deserializer *)

Definition json_to_htsmsg : json_deserializer htsmsg := {|
  jd_create_map := htsmsg_create_map;
  jd_create_list := htsmsg_create_list;
  jd_add_obj parent name child := htsmsg_add_msg parent name child;
  jd_add_string parent name str := htsmsg_add_str parent name str;
  jd_add_long parent name v := htsmsg_add_s64 parent name v;
  jd_add_double parent name v := htsmsg_add_dbl parent name v;
  jd_add_bool parent name v := htsmsg_add_u32 parent name v;
  jd_add_null parent name := Ok parent |}.

Definition htsmsg_json_deserialize {cs : CharSign} (dbl_value : dbl_parts -> Z) (src : list Z)
    : res (list Z + htsmsg) := json_deserialize dbl_value json_to_htsmsg src.

(** * The writer *)

Section writer.
Context `{ByteSink Q} (dbl_text : Z -> list Z).

(** A newline and sixteen tabs. *)
Definition indentor : list Z := 10 :: repeat 9 16.

Definition write_indent (indent : Z) (q : Q) : res Q :=
  sink_append q (take (Z.to_nat (Z.min indent 16)) indentor).

(** The value of a field; a sub message is written by the inner loop, which is
    [json_write_fields] below. *)
Fixpoint json_write_value (indent : Z) (pretty : bool) (f : hfield) (q : Q) {struct f} : res Q :=
  let 'HField _ _ _ v c := f in
  let sub (isarray : bool) : res Q :=
    match c with
    | None => Fault NullDeref
    | Some (Msg _ fs) =>
        q ← sink_append q (if isarray then [91] else [123]);
        q ← (fix go (fs : list hfield) (q : Q) {struct fs} : res Q :=
               match fs with
               | [] => Ok q
               | g :: fs' =>
                   q ← (if pretty then write_indent (indent + 1) q else Ok q);
                   q ← (if isarray then Ok q
                        else q ← sink_jsonstr q (default (lit "noname") (hmf_name g));
                             sink_append q (lit ": "));
                   q ← json_write_value (indent + 1) pretty g q;
                   q ← match fs' with [] => Ok q | _ => sink_append q (lit ",") end;
                   go fs' q
               end) fs q;
        q ← (if pretty then write_indent (indent + 1 - 1) q else Ok q);
        sink_append q (if isarray then [93] else [125])
    end in
  match v with
  | HMap => sub false
  | HList => sub true
  | HStr s => sink_jsonstr q s
  | HBin _ => sink_jsonstr q (lit "binary")
  | HS64 z => sink_append q (dec_of_Z z)
  | HDbl d => sink_append q (dbl_text d)
  end.

Definition json_write_fields (isarray : bool) (indent : Z) (pretty : bool)
    : list hfield -> Q -> res Q :=
  fix go (fs : list hfield) (q : Q) {struct fs} : res Q :=
    match fs with
    | [] => Ok q
    | g :: fs' =>
        q ← (if pretty then write_indent indent q else Ok q);
        q ← (if isarray then Ok q
             else q ← sink_jsonstr q (default (lit "noname") (hmf_name g));
                  sink_append q (lit ": "));
        q ← json_write_value indent pretty g q;
        q ← match fs' with [] => Ok q | _ => sink_append q (lit ",") end;
        go fs' q
    end.

Definition htsmsg_json_write (msg : htsmsg) (q : Q) (isarray : bool) (indent : Z) (pretty : bool)
    : res Q :=
  q ← sink_append q (if isarray then [91] else [123]);
  q ← json_write_fields isarray indent pretty (hm_fields msg) q;
  q ← (if pretty then write_indent (indent - 1) q else Ok q);
  sink_append q (if isarray then [93] else [125]).

Definition htsmsg_json_serialize (msg : htsmsg) (q : Q) (pretty : bool) : res Q :=
  q ← htsmsg_json_write msg q (hm_islist msg) 2 pretty;
  if pretty then sink_append q [10] else Ok q.
End writer.

Definition htsmsg_json_serialize_to_str {cs : CharSign} (dbl_text : Z -> list Z) (msg : htsmsg)
    (pretty : bool) : res (list Z) :=
  hq ← htsmsg_json_serialize dbl_text msg (htsbuf_queue_init 0) pretty;
  r ← htsbuf_to_string hq;
  Ok r.1.

(** [None] for [NULL]. *)
Definition htsmsg_json_serialize_to_rstr {cs : CharSign} (dbl_text : Z -> list Z)
    (msg : option htsmsg) (prefix : option (list Z)) : res (option (list Z)) :=
  match msg with
  | Some (Msg il (f :: fs)) =>
      hq ← htsmsg_json_serialize dbl_text (Msg il (f :: fs)) (htsbuf_queue_init 0) false;
      r ← htsbuf_to_rstr hq prefix;
      Ok (Some r.1)
  | _ => Ok None
  end.


(** * Specification of the text *)

Section text.
Context (dbl_text : Z -> list Z) (pretty : bool).

Definition ind (indent : Z) : list Z :=
  if pretty then take (Z.to_nat (Z.min indent 16)) indentor else [].

Definition jname (isarray : bool) (f : hfield) : list Z :=
  if isarray then [] else json_quoted (default (lit "noname") (hmf_name f)) ++ lit ": ".

Definition brackets (isarray : bool) (body : list Z) : list Z :=
  (if isarray then [91] else [123]) ++ body ++ (if isarray then [93] else [125]).

(** The text of a field's value, and of a list of fields. *)
Fixpoint jv (indent : Z) (f : hfield) {struct f} : list Z :=
  let 'HField _ _ _ v c := f in
  let sub (isarray : bool) : list Z :=
    match c with
    | None => []
    | Some (Msg _ fs) =>
        brackets isarray
          ((fix go (fs : list hfield) : list Z :=
              match fs with
              | [] => []
              | g :: fs' =>
                  ind (indent + 1) ++ jname isarray g ++ jv (indent + 1) g ++
                  (match fs' with [] => [] | _ => lit "," end) ++ go fs'
              end) fs ++ ind (indent + 1 - 1))
    end in
  match v with
  | HMap => sub false
  | HList => sub true
  | HStr s => json_quoted s
  | HBin _ => json_quoted (lit "binary")
  | HS64 z => dec_of_Z z
  | HDbl d => dbl_text d
  end.

Definition jfields (isarray : bool) (indent : Z) : list hfield -> list Z :=
  fix go (fs : list hfield) : list Z :=
    match fs with
    | [] => []
    | g :: fs' =>
        ind indent ++ jname isarray g ++ jv indent g ++
        (match fs' with [] => [] | _ => lit "," end) ++ go fs'
    end.

Definition jmsg (isarray : bool) (indent : Z) (fs : list hfield) : list Z :=
  brackets isarray (jfields isarray indent fs ++ ind (indent - 1)).

Lemma jv_msg indent n a ns v il fs :
  v = HMap \/ v = HList ->
  jv indent (HField n a ns v (Some (Msg il fs))) =
    jmsg (match v with HList => true | _ => false end) (indent + 1) fs.
Proof. intros [-> | ->]; reflexivity. Qed.

(** ** The writer writes the text *)

Context `{ByteSink Q}.

Lemma write_step q b s (k : Q -> res Q) t :
  sink_holds q b -> Z.of_nat (length b) + Z.of_nat (length s) <= int_max ->
  (forall q1, sink_holds q1 (b ++ s) -> exists q', k q1 = Ok q' /\ sink_holds q' t) ->
  exists q', (q1 ← sink_append q s; k q1) = Ok q' /\ sink_holds q' t.
Proof.
  intros Hq Hl Hk. destruct (sink_append_ok q b s Hq Hl) as (q1 & -> & H1). rewrite ok_bind. auto.
Qed.

Definition writes (f : hfield) : Prop := forall indent q b,
  sink_holds q b -> Z.of_nat (length b) + Z.of_nat (length (jv indent f)) <= int_max ->
  exists q', json_write_value dbl_text indent pretty f q = Ok q' /\ sink_holds q' (b ++ jv indent f).

(** Names and strings are bytes, and a sub message is there when the type says
    so. *)
Inductive json_ok : hfield -> Prop :=
| JsonOk n a ns v c :
    (forall s, n = Some s -> Forall is_byte s) -> (forall s, v = HStr s -> Forall is_byte s) ->
    (v = HMap \/ v = HList -> c <> None) ->
    (forall il fs, c = Some (Msg il fs) -> Forall json_ok fs) ->
    json_ok (HField n a ns v c).

Lemma write_name_ok isarray f q b :
  sink_holds q b -> json_ok f -> Z.of_nat (length b) + Z.of_nat (length (jname isarray f)) <= int_max ->
  exists q', (if isarray then Ok q
     else q ← sink_jsonstr q (default (lit "noname") (hmf_name f)); sink_append q (lit ": ")) = Ok q' /\
    sink_holds q' (b ++ jname isarray f).
Proof.
  intros Hq Hf Hl. unfold jname in *. destruct isarray; [exists q; by rewrite app_nil_r|].
  rewrite length_app in Hl. inversion Hf as [n a ns v c Hn]; subst. cbn [hmf_name] in *.
  assert (Forall is_byte (default (lit "noname") n)) as Hb.
  { destruct n as [n|]; [by apply Hn|]. cbn [default from_option]. apply (bool_decide_unpack _). vm_compute. exact I. }
  destruct (sink_jsonstr_ok q b _ Hq Hb ltac:(lia)) as (q1 & -> & G1). rewrite ok_bind.
  destruct (sink_append_ok q1 _ (lit ": ") G1) as (q2 & -> & G2); [rewrite length_app; lia|].
  exists q2. by rewrite <- app_assoc in G2.
Qed.

Lemma write_ind_ok indent q b :
  sink_holds q b -> Z.of_nat (length b) + Z.of_nat (length (ind indent)) <= int_max ->
  exists q', (if pretty then write_indent indent q else Ok q) = Ok q' /\ sink_holds q' (b ++ ind indent).
Proof.
  unfold ind, write_indent. destruct pretty; intros Hq Hl; [by apply sink_append_ok|].
  exists q. by rewrite app_nil_r.
Qed.

Lemma json_write_fields_ok isarray indent fs :
  Forall writes fs -> Forall json_ok fs -> forall q b, sink_holds q b ->
  Z.of_nat (length b) + Z.of_nat (length (jfields isarray indent fs)) <= int_max ->
  exists q', json_write_fields dbl_text isarray indent pretty fs q = Ok q' /\
    sink_holds q' (b ++ jfields isarray indent fs).
Proof.
  induction fs as [|f fs IH]; intros HW Hok q b Hq Hl; cbn [json_write_fields jfields].
  { exists q. by rewrite app_nil_r. }
  inversion_clear HW as [|? ? Wf Wfs]. inversion_clear Hok as [|? ? Of Ofs].
  cbn [jfields] in Hl. rewrite !length_app in Hl.
  destruct (write_ind_ok indent q b Hq ltac:(lia)) as (q1 & -> & H1). rewrite ok_bind.
  destruct (write_name_ok isarray f q1 _ H1 Of) as (q2 & -> & H2); [rewrite length_app; lia|]. rewrite ok_bind.
  destruct (Wf indent q2 _ H2) as (q3 & -> & H3); [rewrite !length_app; lia|]. rewrite ok_bind.
  assert (exists q4, (match fs with [] => Ok q3 | _ => sink_append q3 (lit ",") end) = Ok q4 /\
    sink_holds q4 ((((b ++ ind indent) ++ jname isarray f) ++ jv indent f) ++
      match fs with [] => [] | _ => lit "," end)) as (q4 & -> & H4).
  { destruct fs; [exists q3; by rewrite app_nil_r|]. apply sink_append_ok; [done|]. rewrite !length_app. lia. }
  rewrite ok_bind. destruct (IH Wfs Ofs q4 _ H4) as (q5 & -> & H5); [rewrite !length_app; lia|].
  exists q5. split; [done|]. by rewrite <- !app_assoc in H5.
Qed.

Lemma json_write_msg_ok isarray indent fs :
  Forall writes fs -> Forall json_ok fs -> forall q b, sink_holds q b ->
  Z.of_nat (length b) + Z.of_nat (length (jmsg isarray indent fs)) <= int_max ->
  exists q', (q ← sink_append q (if isarray then [91] else [123]);
              q ← json_write_fields dbl_text isarray indent pretty fs q;
              q ← (if pretty then write_indent (indent - 1) q else Ok q);
              sink_append q (if isarray then [93] else [125])) = Ok q' /\
    sink_holds q' (b ++ jmsg isarray indent fs).
Proof.
  intros HW Hok q b Hq Hl. unfold jmsg, brackets in *. rewrite !length_app in Hl.
  destruct (sink_append_ok q b (if isarray then [91] else [123]) Hq ltac:(lia)) as (q1 & -> & H1).
  rewrite ok_bind. destruct (json_write_fields_ok isarray indent fs HW Hok q1 _ H1) as (q2 & -> & H2);
    [rewrite !length_app; lia|]. rewrite ok_bind.
  destruct (write_ind_ok (indent - 1) q2 _ H2) as (q3 & -> & H3); [rewrite !length_app; lia|]. rewrite ok_bind.
  destruct (sink_append_ok q3 _ (if isarray then [93] else [125]) H3) as (q4 & -> & H4);
    [rewrite !length_app; lia|].
  exists q4. split; [done|]. by rewrite <- !app_assoc in *.
Qed.

Lemma json_writes f : json_ok f -> writes f.
Proof.
  induction f as [n a ns v|n a ns v il fs IH] using hfield_ind'; intros Hok indent q b Hq Hl;
    inversion Hok as [? ? ? ? ? Hn Hs Hc Hfs]; subst.
  - destruct v as [|z|s|d| |d]; try (by destruct Hc; auto); cbn [json_write_value jv] in *;
      try (by apply sink_append_ok); apply sink_jsonstr_ok; auto.
    apply (bool_decide_unpack _). vm_compute. exact I.
  - assert (Forall writes fs) as HW.
    { pose proof (Hfs _ _ eq_refl) as Hok'. clear - IH Hok'. induction IH; inversion_clear Hok'; constructor; auto. }
    destruct v as [|z|s|d| |d]; try (by apply sink_append_ok); try (apply sink_jsonstr_ok; auto;
      apply (bool_decide_unpack _); vm_compute; exact I).
    + rewrite (jv_msg indent n a ns HMap il fs) in * by auto. apply (json_write_msg_ok false); eauto.
    + rewrite (jv_msg indent n a ns HList il fs) in * by auto. apply (json_write_msg_ok true); eauto.
Qed.
End text.

(** * Reading printed text back *)

(** Folds the calls of the mutual fixpoint back after a step. *)
Ltac jfold d :=
  fold (json_parse_value d json_to_htsmsg); fold (json_parse_map d json_to_htsmsg);
  fold (json_parse_map_loop d json_to_htsmsg); fold (json_parse_list d json_to_htsmsg);
  fold (json_parse_list_loop d json_to_htsmsg).

Section reading.
Context {sg : CharSign}.

Definition blank (c : Z) : Prop := c = 9 \/ c = 10 \/ c = 32.

Lemma json_ws_blanks w s : Forall blank w -> json_ws (w ++ s) = json_ws s.
Proof.
  induction 1 as [|c w Hc _ IH]; [done|]. cbn [app json_ws]. rewrite <- IH.
  destruct sg; by destruct Hc as [-> | [-> | ->]].
Qed.

Lemma json_ws_stop c s : 33 <= c < 128 -> json_ws (c :: s) = Ok (c :: s).
Proof.
  intros Hc. cbn [json_ws]. rewrite cchar_ascii by lia.
  by rewrite (proj2 (Z.ltb_ge c 33)), andb_false_r by lia.
Qed.

Lemma esc_bytes_app esc a b : esc_bytes esc (a ++ b) = esc_bytes esc a ++ esc_bytes esc b.
Proof. unfold esc_bytes. by rewrite map_app, concat_app. Qed.

Lemma json_esc_high s : Forall (fun x => 128 <= x) s -> esc_bytes json_esc s = s.
Proof.
  induction 1 as [|x s Hx _ IH]; [done|]. rewrite esc_bytes_cons, IH.
  assert (json_esc x = None) as ->; [|done].
  unfold json_esc. rewrite !(proj2 (Z.eqb_neq x _)) by lia. done.
Qed.

Lemma utf8_enc_high c : 128 <= c <= int_max -> Forall (fun x => 128 <= x) (utf8_enc c).
Proof.
  intros Hc. unfold utf8_enc. rewrite (proj2 (Z.ltb_ge c 128)) by lia. constructor.
  - assert (128 <= lead_base (seq_len c)) by (destruct (seq_len c) as [|[|[|[|[|]]]]]; done).
    assert (0 <= c / 64 ^ Z.of_nat (seq_len c)) by (apply Z.div_pos; [lia|apply Z.pow_pos_nonneg; lia]). lia.
  - induction (seq_len c) as [|l IH]; [constructor|]. cbn [conts]. constructor; [|done].
    pose proof (Z.mod_pos_bound (c / 64 ^ Z.of_nat l) 64 eq_refl). lia.
Qed.

(** One escaped code point is read back, and it is not the closing quote. *)
Lemma read_char_put c r : cp_ok c -> c <> 0 ->
  json_str_read_char (esc_bytes json_esc (utf8_put c) ++ r) = Ok (c, r) /\
  exists x t, esc_bytes json_esc (utf8_put c) = x :: t /\ x <> 34.
Proof.
  intros Hc H0. rewrite (utf8_enc_put c Hc). assert (0 < c <= int_max) as Hr by (destruct Hc; lia).
  destruct (Z.lt_ge_cases c 128) as [Hl|Hl].
  - unfold utf8_enc. rewrite (proj2 (Z.ltb_lt c 128)) by lia.
    unfold esc_bytes, json_esc. cbn [map concat app].
    destruct (Z.eqb_spec c 34) as [->|H34]; [by split; [destruct sg|eexists _, _]|].
    destruct (Z.eqb_spec c 10) as [->|H10]; [by split; [destruct sg|eexists _, _]|].
    destruct (Z.eqb_spec c 13) as [->|H13]; [by split; [destruct sg|eexists _, _]|].
    destruct (Z.eqb_spec c 9) as [->|H9]; [by split; [destruct sg|eexists _, _]|].
    destruct (Z.eqb_spec c 92) as [->|H92]; [by split; [destruct sg|eexists _, _]|].
    split; [|by eexists _, _]. cbn [default from_option app json_str_read_char peek]. unfold json_str_read_char.
    cbn [peek]. rewrite ok_bind, (proj2 (Z.eqb_neq c 0)), (proj2 (Z.eqb_neq c 92)) by done. cbn [negb].
    rewrite <- (utf8_get_enc c r) by lia. unfold utf8_enc. by rewrite (proj2 (Z.ltb_lt c 128)) by lia.
  - pose proof (utf8_enc_high c ltac:(lia)) as Hh. rewrite json_esc_high by done.
    destruct (utf8_enc c) as [|x t] eqn:E; [unfold utf8_enc in E; by destruct (c <? 128)|].
    inversion Hh; subst. split; [|eexists _, _; split; [done|lia]].
    unfold json_str_read_char. cbn [app peek]. rewrite ok_bind.
    rewrite (proj2 (Z.eqb_neq x 0)), (proj2 (Z.eqb_neq x 92)) by lia. cbn [negb].
    rewrite app_comm_cons, <- E. apply utf8_get_enc. lia.
Qed.

Definition json_text (cs : list Z) : Prop := Forall (fun c => cp_ok c /\ c <> 0) cs.

Lemma put_all_cons c cs : put_all (c :: cs) = utf8_put c ++ put_all cs.
Proof. done. Qed.

Lemma string_len_put cs r fuel : forall len,
  json_text cs -> (length cs < fuel)%nat -> 0 <= len ->
  len + Z.of_nat (length (put_all cs)) <= int_max ->
  json_string_len fuel (esc_bytes json_esc (put_all cs) ++ 34 :: r) len =
    Ok (JOk (len + Z.of_nat (length (put_all cs))) (34 :: r)).
Proof.
  revert fuel. induction cs as [|c cs IH]; intros fuel len Hcs Hf H0 Hl;
    (destruct fuel as [|fuel]; [simpl in Hf; lia|]).
  { cbn. do 2 f_equal. lia. }
  apply Forall_cons in Hcs as [[Hc Hn] Hcs']. rewrite put_all_cons in *. rewrite length_app in *.
  destruct (read_char_put c (esc_bytes json_esc (put_all cs) ++ 34 :: r) Hc Hn) as (E & x & t & Ex & Hx).
  rewrite esc_bytes_app, <- app_assoc. cbn [json_string_len]. rewrite Ex in *. cbn [app peek] in *.
  rewrite ok_bind, (proj2 (Z.eqb_neq x 34)) by done. rewrite E, ok_bind. cbn beta iota.
  rewrite (proj2 (Z.eqb_neq c (-1))), (proj2 (Z.eqb_neq c (-2))) by (destruct Hc; lia).
  rewrite chk_int_Ok by ilia. rewrite ok_bind, IH by (done || ilia || (simpl in Hf; lia)).
  do 2 f_equal. lia.
Qed.

Lemma string_write_put cs r fuel len : forall dst,
  json_text cs -> (length cs < fuel)%nat ->
  Z.of_nat (length dst) + Z.of_nat (length (put_all cs)) <= len ->
  json_string_write fuel (esc_bytes json_esc (put_all cs) ++ 34 :: r) len dst =
    Ok (dst ++ put_all cs, r).
Proof.
  revert fuel. induction cs as [|c cs IH]; intros fuel dst Hcs Hf Hl;
    (destruct fuel as [|fuel]; [simpl in Hf; lia|]).
  { cbn. by rewrite app_nil_r. }
  apply Forall_cons in Hcs as [[Hc Hn] Hcs']. rewrite put_all_cons in *. rewrite length_app in *.
  destruct (read_char_put c (esc_bytes json_esc (put_all cs) ++ 34 :: r) Hc Hn) as (E & x & t & Ex & Hx).
  rewrite esc_bytes_app, <- app_assoc. cbn [json_string_write]. rewrite Ex in *. cbn [app peek] in *.
  rewrite ok_bind, (proj2 (Z.eqb_neq x 34)) by done. rewrite E, ok_bind. cbn beta iota.
  rewrite (proj2 (Z.ltb_lt 0 c)) by (destruct Hc; lia). cbn [negb].
  rewrite length_app, (proj2 (Z.ltb_ge _ _)) by lia.
  rewrite IH; [by rewrite <- app_assoc|done|simpl in Hf; lia|rewrite length_app; lia].
Qed.

Lemma put_all_length cs : json_text cs -> (length cs <= length (esc_bytes json_esc (put_all cs)))%nat.
Proof.
  induction 1 as [|c cs [Hc Hn] _ IH]; [done|]. rewrite put_all_cons, esc_bytes_app, length_app.
  destruct (read_char_put c [] Hc Hn) as (_ & x & t & -> & _). simpl. lia.
Qed.

Lemma parse_string_quoted cs w r :
  Forall blank w -> json_text cs -> Z.of_nat (length (put_all cs)) <= int_max ->
  json_parse_string (w ++ json_quoted (put_all cs) ++ r) = Ok (JOk (put_all cs) r).
Proof.
  intros Hw Hcs Hl. unfold json_parse_string. rewrite json_ws_blanks by done.
  unfold json_quoted. cbn [app]. rewrite json_ws_stop by lia. rewrite !ok_bind.
  cbn [peek Z.eqb Pos.eqb negb tail]. rewrite <- app_assoc. cbn [app].
  pose proof (put_all_length cs Hcs).
  rewrite string_len_put by (rewrite ?length_app; done || lia). rewrite ok_bind.
  change (negb (34 =? 34)) with false. cbn beta iota. rewrite ok_bind.
  rewrite string_write_put by (rewrite ?length_app; done || (cbn [length]; lia)). done.
Qed.

(** What follows a value: a comma, a closing bracket or the newline of the
    indentation; there is a terminator further on. *)
Definition ends_value (r : list Z) : Prop :=
  0 ∈ r /\ exists c t, r = c :: t /\ (c = 44 \/ c = 93 \/ c = 125 \/ c = 10).

Lemma cstr_at_in r : 0 ∈ r -> exists str, cstr_at r = Ok str.
Proof.
  induction r as [|c r IH]; [by intros ?%elem_of_nil|]. intros Hin. cbn [cstr_at].
  destruct (Z.eqb_spec c 0) as [->|Hc]; [by eexists|].
  destruct IH as [str ->]; [set_solver|]. by eexists.
Qed.

Lemma cstr_at_nonzero a r str :
  Forall (fun c => c <> 0) a -> cstr_at r = Ok str -> cstr_at (a ++ r) = Ok (a ++ str).
Proof.
  intros Ha Hr. induction Ha as [|c a Hc _ IH]; [done|]. cbn [app cstr_at].
  by rewrite (proj2 (Z.eqb_neq c 0)), IH by done.
Qed.

Lemma ends_value_cstr r : ends_value r ->
  exists c t, cstr_at r = Ok (c :: t) /\ (c = 44 \/ c = 93 \/ c = 125 \/ c = 10).
Proof.
  intros (Hin & c & t & -> & Hc). destruct (cstr_at_in t) as [str E].
  { apply elem_of_cons in Hin as [?|?]; [lia|done]. }
  exists c, str. cbn [cstr_at]. by rewrite (proj2 (Z.eqb_neq c 0)), E by lia.
Qed.

(** The bytes of a printed integer: an optional sign and digits. *)
Lemma dec_of_Z_shape z : exists sg ds,
  dec_of_Z z = sg ++ ds /\ (sg = [] \/ sg = [45]) /\ ds <> [] /\ Forall (fun c => 48 <= c <= 57) ds.
Proof.
  unfold dec_of_Z. destruct (Z.ltb_spec z 0).
  - exists [45], (dec_nat (- z)). split_and!; [done|by right|apply dec_nat_nonempty|apply dec_nat_digits]; lia.
  - exists [], (dec_nat z). split_and!; [done|by left|apply dec_nat_nonempty|apply dec_nat_digits]; lia.
Qed.

Lemma skip_digits_run ds r : Forall (fun c => 48 <= c <= 57) ds ->
  (exists c t, r = c :: t /\ (c = 44 \/ c = 93 \/ c = 125 \/ c = 10)) -> skip_digits (ds ++ r) = Ok r.
Proof.
  intros Hds (c & t & -> & Hc). induction Hds as [|x ds Hx _ IH]; cbn [app skip_digits].
  - rewrite is_digit_false by lia. done.
  - by rewrite (proj2 (is_digit_spec x)).
Qed.

Lemma parse_integer_dec z w r :
  Forall blank w -> i64_min < z < i64_max -> ends_value r ->
  json_parse_integer (w ++ dec_of_Z z ++ r) = Ok (Some (z, r)).
Proof.
  intros Hw Hz Hr. destruct (ends_value_cstr r Hr) as (c & t & Ec & Hc). destruct Hr as [_ Hr].
  destruct (dec_of_Z_shape z) as (sn & ds & E & Hsn & Hne & Hds).
  unfold json_parse_integer. rewrite json_ws_blanks by done.
  assert (exists x y, dec_of_Z z = x :: y /\ 33 <= x < 128) as (x & y & Ex & Hx).
  { rewrite E. destruct Hsn as [-> | ->]; [|eexists _, _; split; [done|lia]].
    destruct Hds as [|x ds Hx]; [done|]. eexists _, _. split; [done|lia]. }
  assert (json_ws (dec_of_Z z ++ r) = Ok (dec_of_Z z ++ r)) as ->.
  { rewrite Ex. by apply json_ws_stop. }
  rewrite ok_bind. assert (peek (dec_of_Z z ++ r) = Ok x) as -> by by rewrite Ex. rewrite ok_bind.
  assert (skip_digits (if x =? 45 then tail (dec_of_Z z ++ r) else dec_of_Z z ++ r) = Ok r) as ->.
  { rewrite E in *. destruct Hsn as [-> | ->]; cbn [app] in *.
    - pose proof Hds as Hd. rewrite Ex in Hd. apply Forall_cons in Hd as [Hd _].
      rewrite (proj2 (Z.eqb_neq x 45)) by lia. by apply skip_digits_run.
    - injection Ex as <- <-. by apply skip_digits_run. }
  rewrite ok_bind. destruct Hr as (c' & t' & -> & Hc'). cbn [peek]. rewrite ok_bind.
  rewrite (proj2 (Z.eqb_neq c' 0)), (proj2 (Z.eqb_neq c' 46)), (proj2 (Z.eqb_neq c' 101)),
    (proj2 (Z.eqb_neq c' 69)) by lia. cbn [orb].
  rewrite (cstr_at_nonzero (dec_of_Z z) _ (c :: t)); [|rewrite E|done].
  2: { apply Forall_app. split; [destruct Hsn as [-> | ->]; repeat constructor; lia|].
       eapply Forall_impl; [exact Hds|]. simpl. lia. }
  rewrite ok_bind, strtol_dec; [|unfold i64_min, i64_max in *; lia|by right| |].
  - cbn beta iota. rewrite (proj2 (Z.eqb_neq z i64_min)), (proj2 (Z.eqb_neq z i64_max)) by lia. cbn [orb].
    rewrite length_app. rewrite (proj2 (Nat.eqb_neq _ _)) by (rewrite Ex; simpl; lia).
    do 3 f_equal. rewrite drop_app_length'; [done|lia].
  - unfold digit_val. rewrite is_digit_false by lia. by destruct Hc as [-> | [-> | [-> | ->]]].
  - right. exists c, t. split; [done|]. lia.
Qed.

(** The fields the text represents: names exactly in maps, names and strings
    that are text, no binary data and no double, and no integer at the ends of
    its range, which the parser takes for an overflow. *)
Inductive json_rt (isarray : bool) : hfield -> Prop :=
| JsonRt n a ns v c :
    (if isarray then n = None else exists cs, n = Some (put_all cs) /\ json_text cs) ->
    match v with
    | HStr s => c = None /\ exists cs, s = put_all cs /\ json_text cs
    | HS64 z => c = None /\ i64_min < z < i64_max
    | HMap => exists fs, c = Some (Msg false fs)
    | HList => exists fs, c = Some (Msg true fs)
    | _ => False
    end ->
    (forall il fs, c = Some (Msg il fs) -> Forall (json_rt il) fs) ->
    json_rt isarray (HField n a ns v c).

Context (dbl_value : dbl_parts -> Z) (dbl_text : Z -> list Z) (pretty : bool).

Abbreviation jdh := json_to_htsmsg.
Abbreviation text := (jv dbl_text pretty).
Abbreviation fields_text := (jfields dbl_text pretty).

Definition stripped (m : htsmsg) (fs : list hfield) : htsmsg :=
  Msg (hm_islist m) (hm_fields m ++ map strip_field fs).

(** The text of [f] as a value is read as the stripped field. *)
Definition value_reads (f : hfield) : Prop := forall isarray indent fuel w r parent,
  json_rt isarray f -> Forall blank w -> ends_value r -> hm_islist parent = isarray ->
  Z.of_nat (length (text indent f)) <= int_max -> (4 * length (text indent f) < fuel)%nat ->
  json_parse_value dbl_value jdh fuel (w ++ text indent f ++ r) parent (hmf_name f) =
    Ok (JOk (stripped parent [f]) r).

Lemma blank_ind indent : Forall blank (ind pretty indent).
Proof.
  unfold ind. destruct pretty; [|constructor]. apply Forall_take. unfold indentor, blank.
  cbn [repeat]. repeat (constructor; [lia|]). constructor.
Qed.

Lemma ends_close indent (isarray : bool) r : 0 ∈ r ->
  ends_value (ind pretty indent ++ (if isarray then [93] else [125]) ++ r).
Proof.
  intros Hr. split; [set_solver|]. unfold ind. destruct pretty; [|destruct isarray; eexists _, _; split; naive_solver].
  destruct (Z.to_nat (Z.min indent 16)); [destruct isarray; eexists _, _; split; naive_solver|].
  eexists _, _. split; [reflexivity|]. by do 3 right.
Qed.

Lemma json_rt_parts isarray f : json_rt isarray f ->
  (if isarray then hmf_name f = None else exists cs, hmf_name f = Some (put_all cs) /\ json_text cs) /\
  name_ok isarray (hmf_name f).
Proof.
  intros Hf. inversion Hf as [n a ns v c Hn]; subst. cbn [hmf_name]. split; [done|].
  destruct isarray; [by subst|]. destruct Hn as (cs & -> & Hcs). split; [done|]. by apply put_all_bytes.
Qed.

Lemma peek_cons c s : peek (c :: s) = Ok c.
Proof. done. Qed.

(** The parsers of other types refuse a value by its first byte. *)
Lemma parse_map_not fuel w c s :
  Forall blank w -> 33 <= c < 128 -> c <> 123 ->
  json_parse_map dbl_value jdh (S fuel) (w ++ c :: s) = Ok JNot.
Proof.
  intros Hw Hc Hn. cbn [json_parse_map]. rewrite json_ws_blanks, json_ws_stop by done.
  rewrite ok_bind, peek_cons, ok_bind. by rewrite (proj2 (Z.eqb_neq c 123)).
Qed.

Lemma parse_list_not fuel w c s :
  Forall blank w -> 33 <= c < 128 -> c <> 91 ->
  json_parse_list dbl_value jdh (S fuel) (w ++ c :: s) = Ok JNot.
Proof.
  intros Hw Hc Hn. cbn [json_parse_list]. rewrite json_ws_blanks, json_ws_stop by done.
  rewrite ok_bind, peek_cons, ok_bind. by rewrite (proj2 (Z.eqb_neq c 91)).
Qed.

Lemma parse_string_not w c s :
  Forall blank w -> 33 <= c < 128 -> c <> 34 -> json_parse_string (w ++ c :: s) = Ok JNot.
Proof.
  intros Hw Hc Hn. unfold json_parse_string. rewrite json_ws_blanks, json_ws_stop by done.
  rewrite ok_bind, peek_cons, ok_bind. by rewrite (proj2 (Z.eqb_neq c 34)).
Qed.

Lemma stripped_cons m f fs : stripped (stripped m [f]) fs = stripped m (f :: fs).
Proof. unfold stripped. cbn [map hm_fields]. by rewrite <- app_assoc. Qed.

(** The text of a field without its indentation. *)
Definition field_text (isarray : bool) (indent : Z) (f : hfield) : list Z :=
  jname isarray f ++ text indent f.

Lemma fields_text_cons isarray indent f fs :
  fields_text isarray indent (f :: fs) =
    ind pretty indent ++ field_text isarray indent f ++
    (match fs with [] => [] | _ => lit "," end) ++ fields_text isarray indent fs.
Proof. unfold field_text. by rewrite <- app_assoc. Qed.

Lemma ends_comma r : 0 ∈ r -> ends_value (lit "," ++ r).
Proof. intros Hr. split; [set_solver|]. eexists _, _. split; [reflexivity|by left]. Qed.

(** What follows the value of a field. *)
Definition loop_rest (isarray : bool) indent fs r : list Z :=
  (match fs with [] => [] | _ => lit "," end) ++ fields_text isarray indent fs ++
  ind pretty (indent - 1) ++ (if isarray then [93] else [125]) ++ r.

Lemma fields_text_rest isarray indent f fs r :
  fields_text isarray indent (f :: fs) ++ ind pretty (indent - 1) ++
    (if isarray then [93] else [125]) ++ r =
  ind pretty indent ++ field_text isarray indent f ++ loop_rest isarray indent fs r.
Proof. unfold loop_rest. by rewrite fields_text_cons, <- !app_assoc. Qed.

(** What the list and the map loop do after a value. *)
Lemma after_value (isarray : bool) indent fs r (k1 : list Z -> res (jres htsmsg)) k2 :
  0 ∈ r ->
  (s ← json_ws (loop_rest isarray indent fs r);
   c ← peek s;
   if c =? (if isarray then 93 else 125) then k1 (tail s)
   else if negb (c =? 44) then Ok (JFail (lit "Expected ','") s)
   else k2 (tail s)) =
  match fs with
  | [] => k1 r
  | _ => k2 (fields_text isarray indent fs ++ ind pretty (indent - 1) ++
             (if isarray then [93] else [125]) ++ r)
  end.
Proof.
  intros Hr. unfold loop_rest. destruct fs as [|f fs].
  - cbn [jfields app]. rewrite json_ws_blanks by apply blank_ind.
    destruct isarray; cbn [app]; by rewrite json_ws_stop, ok_bind, peek_cons, ok_bind by lia.
  - change (lit ",") with [44]. cbn [app]. rewrite json_ws_stop, ok_bind, peek_cons, ok_bind by lia.
    by destruct isarray.
Qed.

(** The first byte of a value says what it is. *)
Lemma text_first isarray indent f : json_rt isarray f ->
  exists c t, text indent f = c :: t /\ 33 <= c < 128 /\ c <> 93 /\ c <> 125.
Proof.
  intros Hf. inversion Hf as [n a ns v c _ Hv _]; subst. destruct v as [|z|s|b| |d]; try done.
  - destruct Hv as [fs ->]. eexists _, _. split; [reflexivity|lia].
  - destruct Hv as [-> _]. cbn [jv]. destruct (dec_of_Z_shape z) as (sn & ds & -> & Hsn & Hne & Hds).
    destruct Hsn as [-> | ->]; [|eexists _, _; split; [reflexivity|lia]].
    destruct ds as [|d ds]; [done|]. apply Forall_cons in Hds as [Hd _]. eexists _, _. split; [reflexivity|lia].
  - destruct Hv as (-> & _). eexists _, _. split; [reflexivity|lia].
  - destruct Hv as [fs ->]. eexists _, _. split; [reflexivity|lia].
Qed.

Lemma loop_rest_ends isarray indent fs r : 0 ∈ r -> ends_value (loop_rest isarray indent fs r).
Proof.
  intros Hr. unfold loop_rest. destruct fs as [|g fs]; [by apply ends_close|].
  apply ends_comma. rewrite !elem_of_app. auto.
Qed.

Lemma json_list_loop_reads fs : Forall value_reads fs ->
  forall f indent fuel w r parent,
  value_reads f -> Forall (json_rt true) (f :: fs) -> Forall blank w -> 0 ∈ r -> hm_islist parent = true ->
  Z.of_nat (length (fields_text true indent (f :: fs))) <= int_max ->
  (4 * length (fields_text true indent (f :: fs)) + 1 < fuel)%nat ->
  json_parse_list_loop dbl_value jdh fuel
    (w ++ field_text true indent f ++ loop_rest true indent fs r) parent =
    Ok (JOk (stripped parent (f :: fs)) r).
Proof.
  induction 1 as [|g fs Hg _ IH]; intros f indent fuel w r parent Hf Hrt Hw Hr Hp Hl Hfuel;
    (destruct fuel as [|fuel]; [lia|]); cbn [json_parse_list_loop]; jfold dbl_value; apply Forall_cons in Hrt as [Hrf Hrt];
    rewrite fields_text_cons, !length_app in Hl, Hfuel; change (field_text true indent f) with (text indent f) in *;
    destruct (json_rt_parts true f Hrf) as [Hn _]; rewrite <- Hn;
    rewrite (Hf true) by (done || lia || by apply loop_rest_ends); rewrite ok_bind;
    refine (eq_trans (after_value true indent _ r (fun s => Ok (JOk (stripped parent [f]) s))
      (fun s => json_parse_list_loop dbl_value jdh fuel s (stripped parent [f])) Hr) _); [done|].
  destruct (text_first true indent f Hrf) as (c & t & Et & _ & _).
  cbn beta iota. rewrite (fields_text_rest true).
  rewrite IH; [by rewrite stripped_cons|done..|apply blank_ind|done|done|lia|].
  rewrite Et in *. cbn [length] in *. lia.
Qed.

Lemma quoted_length cs : json_text cs -> (length (put_all cs) <= length (json_quoted (put_all cs)))%nat.
Proof.
  intros _. unfold json_quoted. rewrite !length_app. cbn [length].
  assert (length (put_all cs) <= length (esc_bytes json_esc (put_all cs)))%nat; [|lia].
  induction (put_all cs) as [|x l IH]; [done|]. rewrite esc_bytes_cons, length_app.
  assert (1 <= length (default [x] (json_esc x)))%nat; [|simpl; lia].
  unfold json_esc. repeat case_match; simpl; lia.
Qed.

Lemma json_map_loop_reads fs : Forall value_reads fs ->
  forall f indent fuel w r parent,
  value_reads f -> Forall (json_rt false) (f :: fs) -> Forall blank w -> 0 ∈ r -> hm_islist parent = false ->
  Z.of_nat (length (fields_text false indent (f :: fs))) <= int_max ->
  (4 * length (fields_text false indent (f :: fs)) + 1 < fuel)%nat ->
  json_parse_map_loop dbl_value jdh fuel
    (w ++ field_text false indent f ++ loop_rest false indent fs r) parent =
    Ok (JOk (stripped parent (f :: fs)) r).
Proof.
  induction 1 as [|g fs Hg _ IH]; intros f indent fuel w r parent Hf Hrt Hw Hr Hp Hl Hfuel;
    (destruct fuel as [|fuel]; [lia|]); cbn [json_parse_map_loop]; jfold dbl_value; apply Forall_cons in Hrt as [Hrf Hrt];
    destruct (json_rt_parts false f Hrf) as [(cs & Hn & Hcs) _];
    rewrite fields_text_cons in Hl, Hfuel;
    assert (field_text false indent f = json_quoted (put_all cs) ++ lit ": " ++ text indent f) as E
      by (unfold field_text, jname; by rewrite Hn, <- app_assoc);
    rewrite E in *; rewrite !length_app in Hl, Hfuel; pose proof (quoted_length cs Hcs);
    rewrite <- !app_assoc, parse_string_quoted by (done || lia); rewrite ok_bind; cbn iota beta;
    change (lit ": ") with [58; 32] in *; cbn [app length] in *;
    rewrite json_ws_stop, ok_bind, peek_cons, ok_bind by lia; cbn [Z.eqb Pos.eqb negb tail];
    change (32 :: text indent f ++ ?z) with ([32] ++ text indent f ++ z);
    rewrite <- Hn, (Hf false) by (done || lia || (by apply loop_rest_ends) || (constructor; [unfold blank; lia|done]));
    rewrite ok_bind;
    refine (eq_trans (after_value false indent _ r (fun s => Ok (JOk (stripped parent [f]) s))
      (fun s => json_parse_map_loop dbl_value jdh fuel s (stripped parent [f])) Hr) _); [done|].
  cbn beta iota. rewrite (fields_text_rest false).
  rewrite IH; [by rewrite stripped_cons|done..|apply blank_ind|done|done|lia|lia].
Qed.

Lemma field_first isarray indent f fs : Forall (json_rt isarray) (f :: fs) ->
  exists c t, field_text isarray indent f = c :: t /\ 33 <= c < 128 /\ c <> 93 /\ c <> 125.
Proof.
  intros Hrt. apply Forall_cons in Hrt as [Hf _]. unfold field_text, jname. destruct isarray.
  - by apply (text_first true).
  - eexists _, _. split; [reflexivity|lia].
Qed.

Definition parse_brackets (isarray : bool) := 
  if isarray then json_parse_list dbl_value jdh else json_parse_map dbl_value jdh.

Lemma brackets_read (isarray : bool) fs indent fuel w r :
  Forall value_reads fs -> Forall (json_rt isarray) fs -> Forall blank w -> 0 ∈ r ->
  Z.of_nat (length (jmsg dbl_text pretty isarray indent fs)) <= int_max ->
  (4 * length (jmsg dbl_text pretty isarray indent fs) < S fuel)%nat ->
  parse_brackets isarray fuel (w ++ jmsg dbl_text pretty isarray indent fs ++ r) =
    Ok (JOk (Msg isarray (map strip_field fs)) r).
Proof.
  intros HR Hrt Hw Hr Hl Hf. unfold jmsg, brackets in *. rewrite !length_app in *.
  destruct fuel as [|fuel]; [destruct isarray; simpl in *; lia|].
  unfold parse_brackets. rewrite <- !app_assoc.
  destruct isarray; cbn [json_parse_list json_parse_map]; jfold dbl_value;
    rewrite json_ws_blanks by done; cbn [app length] in *;
    rewrite json_ws_stop, ok_bind, peek_cons, ok_bind by lia; cbn [Z.eqb Pos.eqb negb tail];
    (destruct fs as [|f fs];
      [cbn [jfields app]; rewrite json_ws_blanks by apply blank_ind;
       by rewrite json_ws_stop, ok_bind, peek_cons, ok_bind by lia|]);
    apply Forall_cons in HR as [HRf HR]; [pose proof (fields_text_rest true indent f fs r) as E|
      pose proof (fields_text_rest false indent f fs r) as E]; cbn [app] in E; rewrite E;
    rewrite json_ws_blanks by apply blank_ind.
  - destruct (field_first true indent f fs Hrt) as (c & t & Et & Hc & Hn). rewrite Et at 1. cbn [app].
    rewrite json_ws_stop, ok_bind, peek_cons, ok_bind by done.
    rewrite (proj2 (Z.eqb_neq c 93)), app_comm_cons, <- Et by lia.
    apply (json_list_loop_reads fs HR f indent fuel []); done || constructor || lia.
  - destruct (field_first false indent f fs Hrt) as (c & t & Et & Hc & Hn). rewrite Et at 1. cbn [app].
    rewrite json_ws_stop, ok_bind, peek_cons, ok_bind by done.
    rewrite (proj2 (Z.eqb_neq c 125)), app_comm_cons, <- Et by lia.
    apply (json_map_loop_reads fs HR f indent fuel []); done || constructor || lia.
Qed.

Lemma dec_first z : exists c t, dec_of_Z z = c :: t /\ (c = 45 \/ 48 <= c <= 57).
Proof.
  destruct (dec_of_Z_shape z) as (sn & ds & -> & Hsn & Hne & Hds).
  destruct Hsn as [-> | ->]; [|eexists _, _; split; [reflexivity|by left]].
  destruct ds as [|d ds]; [done|]. apply Forall_cons in Hds as [Hd _].
  eexists _, _. split; [reflexivity|by right].
Qed.

Lemma value_int_reads fuel w r z parent n :
  Forall blank w -> ends_value r -> i64_min < z < i64_max -> name_ok (hm_islist parent) n ->
  json_parse_value dbl_value jdh (S (S fuel)) (w ++ dec_of_Z z ++ r) parent n =
    Ok (JOk (stripped parent [HField n false None (HS64 z) None]) r).
Proof.
  intros Hw Hr Hz Hn. destruct (dec_first z) as (c & t & E & Hc).
  remember (S fuel) as fuel1 eqn:Ef. cbn [json_parse_value]. jfold dbl_value. rewrite Ef.
  pose proof (parse_integer_dec z w r Hw Hz Hr) as Hi. rewrite E in *. cbn [app] in *.
  rewrite parse_map_not, ok_bind by (done || lia). rewrite parse_list_not, ok_bind by (done || lia).
  rewrite parse_string_not, ok_bind by (done || lia). rewrite Hi, ok_bind.
  cbn [jd_add_long json_to_htsmsg]. unfold htsmsg_add_s64.
  rewrite field_add_ok, ok_bind, s64_id by (done || lia). done.
Qed.

Lemma value_str_reads fuel w r cs parent n :
  Forall blank w -> json_text cs -> name_ok (hm_islist parent) n ->
  Z.of_nat (length (put_all cs)) <= int_max ->
  json_parse_value dbl_value jdh (S (S fuel)) (w ++ json_quoted (put_all cs) ++ r) parent n =
    Ok (JOk (stripped parent [HField n false None (HStr (put_all cs)) None]) r).
Proof.
  intros Hw Hcs Hn Hl.
  remember (S fuel) as fuel1 eqn:Ef. cbn [json_parse_value]. jfold dbl_value. rewrite Ef.
  pose proof (parse_string_quoted cs w r Hw Hcs Hl) as Hs. unfold json_quoted in *. cbn [app] in *.
  rewrite parse_map_not, ok_bind by (done || lia). rewrite parse_list_not, ok_bind by (done || lia).
  rewrite Hs, ok_bind. cbn [jd_add_string json_to_htsmsg]. unfold htsmsg_add_str.
  rewrite field_add_ok, ok_bind by done. done.
Qed.

Lemma value_sub_reads fuel w r (isarray : bool) indent fs parent n :
  Forall value_reads fs -> Forall (json_rt isarray) fs -> Forall blank w -> 0 ∈ r ->
  name_ok (hm_islist parent) n ->
  Z.of_nat (length (jmsg dbl_text pretty isarray indent fs)) <= int_max ->
  (4 * length (jmsg dbl_text pretty isarray indent fs) < S (S fuel))%nat ->
  json_parse_value dbl_value jdh (S (S fuel)) (w ++ jmsg dbl_text pretty isarray indent fs ++ r) parent n =
    Ok (JOk (stripped parent [HField n false None (if isarray then HList else HMap)
      (Some (Msg isarray fs))]) r).
Proof.
  intros HR Hrt Hw Hr Hn Hl Hf.
  pose proof (brackets_read isarray fs indent (S fuel) w r HR Hrt Hw Hr Hl Hf) as Hb.
  remember (S fuel) as fuel1 eqn:Ef. cbn [json_parse_value]. jfold dbl_value. rewrite Ef in *.
  destruct isarray; cbn [parse_brackets] in Hb.
  - unfold jmsg, brackets in *. cbn [app] in *.
    rewrite parse_map_not, ok_bind by (done || lia). rewrite Hb, ok_bind.
    cbn [jd_add_obj json_to_htsmsg]. unfold htsmsg_add_msg. rewrite field_add_ok, ok_bind by done. reflexivity.
  - rewrite Hb, ok_bind.
    cbn [jd_add_obj json_to_htsmsg]. unfold htsmsg_add_msg. rewrite field_add_ok, ok_bind by done. reflexivity.
Qed.

Lemma value_reads_all f : value_reads f.
Proof.
  induction f as [n a ns v|n a ns v il fs IH] using hfield_ind';
    intros isarray indent fuel w r parent Hrt Hw Hr Hp Hl Hf;
    destruct (json_rt_parts _ _ Hrt) as [_ Hname];
    (assert (exists fuel', fuel = S (S fuel')) as [fuel' ->];
      [destruct (text_first _ indent _ Hrt) as (? & ? & E & _); rewrite E in Hf; cbn [length] in Hf;
       destruct fuel as [|[|fuel]]; [lia..|by eexists]|]);
    inversion Hrt as [? ? ? ? ? _ Hv Hfs]; subst; cbn [hmf_name] in *.
  - destruct v as [|z|s|b| |d]; try done; try (destruct Hv as [? [=]]; done); destruct Hv as [_ Hv].
    + by apply value_int_reads.
    + destruct Hv as (cs & -> & Hcs). apply value_str_reads; [done..|].
      cbn [jv] in Hl. pose proof (quoted_length cs Hcs). lia.
  - destruct Hr as [Hr _]. pose proof (Hfs _ _ eq_refl) as Hrt'.
    destruct v as [|z|s|b| |d]; try done; try (by destruct Hv as [[=] _]); destruct Hv as [gs [= -> ->]].
    + rewrite (jv_msg dbl_text pretty indent n a ns HMap false gs) in * by auto.
      by apply (value_sub_reads fuel' w r false).
    + rewrite (jv_msg dbl_text pretty indent n a ns HList true gs) in * by auto.
      by apply (value_sub_reads fuel' w r true).
Qed.
End reading.

Lemma json_rt_ok isarray f : json_rt isarray f -> json_ok f.
Proof.
  revert isarray. induction f as [n a ns v|n a ns v il fs IH] using hfield_ind'; intros isarray Hf;
    pose proof (json_rt_parts _ _ Hf) as [_ Hn]; inversion Hf as [? ? ? ? ? _ Hv Hfs]; subst;
    cbn [hmf_name] in Hn.
  - constructor; [intros s ->; destruct Hn; by apply cstring_bytes| | |done].
    + intros s ->. destruct Hv as (_ & cs & -> & Hcs). by apply cstring_bytes, put_all_bytes.
    + intros [-> | ->]; by destruct Hv.
  - constructor; [intros s ->; destruct Hn; by apply cstring_bytes|intros s ->; by destruct Hv|done|].
    intros il' fs' [= <- <-]. specialize (Hfs _ _ eq_refl). clear - IH Hfs.
    induction IH; [constructor|]. apply Forall_cons in Hfs as [? ?]. constructor; eauto.
Qed.

(** ** Any C string is parsed within its bounds *)

(** The digits that a text begins with. *)
Fixpoint digit_run (s : list Z) : nat :=
  match s with c :: s => if is_digit c then S (digit_run s) else O | [] => O end.

(** An escape of the character 0, or of a byte that is not ASCII. *)
Definition bad_escape (s : list Z) : bool :=
  match s with
  | b :: c :: r => (b =? 92) && ((128 <=? c) || has_prefix (lit "u0000") (c :: r))
  | _ => false
  end.

(** A text without those, and without ten digits in a row. *)
Fixpoint tame (s : list Z) : bool :=
  match s with
  | [] => true
  | _ :: s' => (digit_run s <=? 9)%nat && negb (bad_escape s) && tame s'
  end.

Definition text_ok (s : list Z) : Prop := cstring_ok s /\ tame s = true /\ 6 * Z.of_nat (length s) <= int_max.

Lemma text_cons c s : text_ok (c :: s) -> 0 < c < 256 /\ (digit_run (c :: s) <= 9)%nat /\ bad_escape (c :: s) = false /\ text_ok s.
Proof.
  intros ([Hc Hs]%Forall_cons & Ht & Hl). cbn [tame] in Ht. apply andb_true_iff in Ht as [[H1%Nat.leb_le H2%negb_true_iff]%andb_true_iff H3].
  simpl in Hl. split_and!; [lia|lia|done|done|]. split_and!; [done|done|lia].
Qed.

Lemma text_drop n s : text_ok s -> text_ok (drop n s).
Proof. revert s. induction n as [|n IH]; intros [|c s] H; [done..|]. simpl. apply IH. by apply text_cons in H as (_ & _ & _ & H). Qed.

Lemma text_digits s : text_ok s -> (digit_run s <= 9)%nat.
Proof. destruct s as [|c s]; [simpl; lia|]. by intros (_ & H & _)%text_cons. Qed.

(** A computation without a fault. *)
Definition okf {A} (Q : A -> Prop) (m : res A) : Prop :=
  match m with Ok a => Q a | Fault _ => False end.

Lemma okf_bind {A B} (P : A -> Prop) (Q : B -> Prop) (m : res A) (k : A -> res B) :
  okf P m -> (forall a, P a -> okf Q (k a)) -> okf Q (m ≫= k).
Proof. destruct m; simpl; auto. Qed.

Lemma okf_mono {A} (P Q : A -> Prop) (m : res A) : okf P m -> (forall a, P a -> Q a) -> okf Q m.
Proof. destruct m; simpl; auto. Qed.

Lemma okf_chk_int {B} (Q : B -> Prop) z (k : Z -> res B) : int_min <= z <= int_max -> okf Q (k z) -> okf Q (z ← chk_int z; k z).
Proof. intros Hz H. by rewrite chk_int_Ok. Qed.

Section safety.
Context {sg : CharSign} (rest : list Z).

(** [p] points into a C string, with at most [n] bytes before its end. *)
Definition pos (n : nat) (p : list Z) : Prop :=
  exists s, p = s ++ 0 :: rest /\ text_ok s /\ (length s <= n)%nat.

Lemma pos_mono n m p : pos n p -> (n <= m)%nat -> pos m p.
Proof. intros (s & -> & Hs & Hl) Hm. exists s. split_and!; [done..|lia]. Qed.

Lemma pos_end n : pos n (0 :: rest).
Proof. exists []. split_and!; [done|split_and!; [constructor|done|simpl; ilia]|simpl; lia]. Qed.

Definition next (n : nat) (p : list Z) : Prop := exists n', n = S n' /\ pos n' p.

Lemma next_pos n p : next n p -> pos n p.
Proof. intros (n' & -> & Hp). eapply pos_mono; [done|lia]. Qed.

Lemma pos_cases n p : pos n p ->
  (p = 0 :: rest) \/ (exists c p', p = c :: p' /\ 0 < c < 256 /\ next n p').
Proof.
  intros ([|c s] & -> & Hs & Hl); [by left|]. right. apply text_cons in Hs as (Hc & _ & _ & Hs).
  destruct n as [|n]; [simpl in Hl; lia|].
  exists c, (s ++ 0 :: rest). split_and!; [done|lia..|]. exists n. split; [done|].
  exists s. split_and!; [done..|]. simpl in Hl. lia.
Qed.

Lemma peek_pos n p : pos n p ->
  exists c, peek p = Ok c /\ 0 <= c < 256 /\ (c <> 0 -> next n (tail p)).
Proof.
  intros [-> | (c & p' & -> & Hc & Hp)]%pos_cases.
  - exists 0. split_and!; [done|lia..|done].
  - exists c. split_and!; [done|lia..|]. by intros _.
Qed.

Lemma ws_pos n p : pos n p -> okf (pos n) (json_ws p).
Proof.
  revert p. induction n as [n IH] using lt_wf_ind; intros p Hp.
  destruct (pos_cases n p Hp) as [-> | (c & p' & -> & Hc & n' & -> & Hp')]; cbn [json_ws].
  - change (okf (pos n) (if (0 <? cchar 0) && (cchar 0 <? 33) then json_ws rest else Ok (0 :: rest))).
    assert (cchar 0 = 0) as -> by (by apply cchar_ascii). done.
  - destruct (_ && _); [|done]. eapply okf_mono; [apply IH, Hp'; lia|].
    intros a Ha. eapply pos_mono; [exact Ha|lia].
Qed.

(** [json_hex] of up to four digits; only zeros give 0. *)
Lemma hex_pos k n v p : pos n p -> 0 <= v -> (v + 1) * 16 ^ Z.of_nat k <= int_max ->
  okf (fun o => match o with
       | Some (w, q) => 0 <= w <= int_max /\ pos n q /\ (w = 0 -> v = 0 /\ has_prefix (replicate k 48) p = true)
       | None => True end)
    (json_hex k v p).
Proof.
  revert n v p. induction k as [|k IH]; intros n v p Hp Hv Hk; cbn [json_hex].
  { simpl. split; [|done]. rewrite Z.pow_0_r in Hk. lia. }
  destruct (peek_pos n p Hp) as (c & Ec & Hc & Hn). rewrite Ec, ok_bind.
  rewrite Nat2Z.inj_succ, Z.pow_succ_r in Hk by lia.
  assert (forall d, 0 <= d < 16 -> (d = 0 -> c = 48) -> pos n (tail p) ->
    okf (fun o => match o with
         | Some (w, q) => 0 <= w <= int_max /\ pos n q /\ (w = 0 -> v = 0 /\ has_prefix (replicate (S k) 48) p = true)
         | None => True end)
      (json_hex k (Z.lor (Z.shiftl v 4) d) (tail p))) as Hd.
  { intros d Hd Hd0 Hp'. rewrite lor_shiftl by lia. eapply okf_mono; [apply IH; [done|lia|]|].
    - assert (0 < 16 ^ Z.of_nat k) by (apply Z.pow_pos_nonneg; lia). nia.
    - intros [[w q]|] Hq; [|done]. destruct Hq as (H1 & H2 & H3). split; [done|]. split; [done|]. intros Hw.
      destruct (H3 Hw) as [H4 H5]. split; [lia|]. destruct p as [|c' p]; [done|]. simpl in Ec. injection Ec as ->.
      cbn [replicate has_prefix]. rewrite (Hd0 ltac:(lia)). exact H5. }
  repeat match goal with |- context [(?a <=? c) && (c <=? ?b)] =>
    destruct ((a <=? c) && (c <=? b)) eqn:?E end; [..|done];
    apply andb_true_iff in E as [?%Z.leb_le ?%Z.leb_le] || apply andb_true_iff in E0 as [?%Z.leb_le ?%Z.leb_le]
    || apply andb_true_iff in E1 as [?%Z.leb_le ?%Z.leb_le]; apply Hd; try lia; apply next_pos, Hn; lia.
Qed.

(** A step of a proof along a function: the character at a position. *)
Lemma okf_peek {A} n p (Q : A -> Prop) (k : Z -> res A) :
  pos n p -> (forall c, 0 <= c < 256 -> (c <> 0 -> next n (tail p)) -> okf Q (k c)) ->
  okf Q (c ← peek p; k c).
Proof. intros Hp Hk. destruct (peek_pos n p Hp) as (c & -> & Hc & Hn). rewrite ok_bind. auto. Qed.

Lemma okf_ws {A} n p (Q : A -> Prop) (k : list Z -> res A) :
  pos n p -> (forall p, pos n p -> okf Q (k p)) -> okf Q (p ← json_ws p; k p).
Proof. intros Hp Hk. eapply okf_bind; [by apply ws_pos|done]. Qed.

Lemma has_prefix_text t s : Forall (fun c => c <> 0) t -> has_prefix t (s ++ 0 :: rest) = true -> has_prefix t s = true.
Proof.
  intros Ht. revert s. induction Ht as [|a t Ha _ IH]; intros s; [done|]. destruct s as [|b s]; cbn [app has_prefix].
  - by rewrite (proj2 (Z.eqb_neq a 0)).
  - intros [-> H]%andb_true_iff. by apply IH.
Qed.

Lemma read_char_pos n p : pos n p ->
  okf (fun '(v, p) => v = -1 \/ v = -2 \/ (0 < v <= int_max /\ next n p)) (json_str_read_char p).
Proof.
  intros Hp. unfold json_str_read_char. destruct Hp as ([|c s] & -> & Hs & Hl); [by left|].
  cbn [app]. rewrite peek_cons, ok_bind. pose proof (text_cons c s Hs) as (Hc & _ & Hbad & Hs').
  rewrite (proj2 (Z.eqb_neq c 0)) by lia. destruct n as [|n']; [simpl in Hl; lia|].
  assert (pos n' (s ++ 0 :: rest)) as Hp' by (exists s; split_and!; [done..|simpl in Hl; lia]).
  destruct (Z.eqb_spec c 92) as [->|H92]; cbn [negb tail].
  - destruct s as [|d s]; [by left|]. cbn [app]. rewrite peek_cons, ok_bind. pose proof (text_cons d s Hs') as (Hd & _ & _ & Hs2).
    rewrite (proj2 (Z.eqb_neq d 0)) by lia. cbn [bad_escape] in Hbad. apply orb_false_iff in Hbad as [Hb1%Z.leb_gt Hb2].
    destruct n' as [|n2]; [simpl in Hl; lia|]. cbn [tail].
    assert (pos n2 (s ++ 0 :: rest)) as Hp2 by (exists s; split_and!; [done..|simpl in Hl; lia]).
    assert (forall v, 0 < v <= int_max -> 0 < v <= int_max /\ next (S (S n2)) (s ++ 0 :: rest)) as Hv.
    { intros v Hv. split; [done|]. exists (S n2). split; [done|]. eapply pos_mono; [done|lia]. }
    repeat match goal with |- context [if d =? ?a then Ok _ else _] =>
      destruct (d =? a); [right; right; by apply Hv|] end.
    destruct (Z.eqb_spec d 117) as [->|]; [|right; right; apply Hv; rewrite cchar_ascii by lia; ilia].
    eapply okf_bind; [apply (hex_pos 4 n2); [done|lia|unfold int_max; simpl; lia]|].
    intros [[v q]|] Hq; [|by right; left]. destruct Hq as (Hv1 & Hv2 & Hv3). right; right. split.
    + assert (v <> 0); [|lia]. intros ->. destruct (Hv3 eq_refl) as [_ Hpre]. apply has_prefix_text in Hpre; [|by repeat constructor].
      change (has_prefix (lit "u0000") (117 :: s)) with (has_prefix (replicate 4 48) s) in Hb2. congruence.
    + exists (S n2). split; [done|]. eapply pos_mono; [exact Hv2|lia].
  - destruct (utf8_get_string (c :: s) rest (proj1 Hs)) as (v & s2 & E & Hs2 & Hsuf & Hv).
    cbn [app] in E. rewrite E. right; right. split; [lia|]. exists n'. split; [done|]. pose proof (suffix_length _ _ Hsuf) as Hsl.
    exists s2. split_and!; [done| |simpl in *; lia]. destruct Hsuf as [k Ek]. cbn [tail] in Ek. rewrite Ek in Hs'.
    rewrite <- (drop_app_length k s2). by apply text_drop.
Qed.

Lemma put_cstring v : 0 < v <= int_max -> cstring_ok (utf8_put v).
Proof.
  intros Hv. destruct (decide (v = 65534 \/ v = 65535 \/ 55296 <= v < 57344)) as [Hbad|Hok].
  - unfold utf8_put. assert ((v =? 65534) || (v =? 65535) || ((55296 <=? v) && (v <? 57344)) = true) as ->; [|constructor].
    destruct (Z.eqb_spec v 65534), (Z.eqb_spec v 65535), (Z.leb_spec 55296 v), (Z.ltb_spec v 57344); done || lia.
  - rewrite utf8_enc_put by (unfold cp_ok; lia). by apply utf8_enc_bytes.
Qed.

(** The second pass writes what the first one counted. *)
Lemma string_passes n : forall p fuel1 fuel2 len,
  pos n p -> (n < fuel1)%nat -> (n < fuel2)%nat -> 0 <= len -> len + 6 * Z.of_nat n <= int_max ->
  okf (fun r => match r with
       | JOk l _ => len <= l /\ forall L dst,
           Z.of_nat (length dst) + (l - len) <= L -> cstring_ok dst ->
           okf (fun '(d, p') => cstring_ok d /\ next n p') (json_string_write fuel2 p L dst)
       | _ => True end) (json_string_len fuel1 p len).
Proof.
  induction n as [n IH] using lt_wf_ind; intros p fuel1 fuel2 len Hp H1 H2 Hlen Hmax.
  destruct fuel1 as [|fuel1]; [lia|]. destruct fuel2 as [|fuel2]; [lia|].
  cbn [json_string_len json_string_write]. destruct (peek_pos n p Hp) as (c & -> & Hc & Hn). rewrite ok_bind.
  destruct (Z.eqb_spec c 34) as [->|H34].
  { simpl. split; [lia|]. intros L dst _ Hdst. split; [done|]. by apply Hn. }
  pose proof (read_char_pos n p Hp) as Hr.
  destruct (json_str_read_char p) as [[v p']|f] eqn:E; [|by simpl in *]. cbn [okf] in Hr. rewrite ok_bind.
  destruct (Z.eqb_spec v (-1)) as [|Hm1]; [done|]. destruct (Z.eqb_spec v (-2)) as [|Hm2]; [done|].
  destruct Hr as [?|[?|[Hv (n' & -> & Hp')]]]; [done..|].
  pose proof (utf8_put_length v) as Hput. apply okf_chk_int; [ilia|].
  eapply okf_mono; [apply (IH n' ltac:(lia) p' fuel1 fuel2); [done|lia..]|].
  intros [| |l q] Hq; [done..|]. destruct Hq as [Hl HW]. split; [lia|]. intros L dst HL Hdst.
  rewrite ok_bind, (proj2 (Z.eqb_neq c 34)), ok_bind by done. cbn beta iota.
  rewrite (proj2 (Z.ltb_lt 0 v)) by lia. cbn [negb].
  rewrite length_app. rewrite (proj2 (Z.ltb_ge _ _)) by lia.
  eapply okf_mono; [apply HW; [rewrite length_app; lia|apply Forall_app; split; [done|apply put_cstring; lia]]|].
  intros [d p2] [Hd Hp2]. split; [done|]. apply next_pos in Hp2. by exists n'.
Qed.

(** The outcome of a parser at most [n] bytes before the end: it moves on. *)
Definition parsed {A} (Q : A -> Prop) (n : nat) (r : jres A) : Prop :=
  match r with JOk a p => Q a /\ next n p | _ => True end.

Lemma parse_string_pos n p : pos n p -> okf (parsed cstring_ok n) (json_parse_string p).
Proof.
  intros Hp. unfold json_parse_string. apply (okf_ws n); [done|]. clear p Hp. intros p Hp.
  apply (okf_peek n); [done|]. intros c Hc Hn. destruct (Z.eqb_spec c 34) as [->|]; cbn [negb]; [|done].
  destruct (Hn ltac:(done)) as (n' & -> & (s & E & Hs & Hl)).
  pose proof (string_passes (length s) (tail p) (S (length (tail p))) (S (length (tail p))) 0) as HP.
  assert (length s < S (length (tail p)))%nat by (rewrite E, length_app; simpl; lia).
  eapply okf_bind; [apply HP; [by exists s|lia|lia|lia|]|]. { destruct Hs as (_ & _ & Hs). lia. }
  intros [| |l q] Hq; [done..|]. destruct Hq as [Hl0 HW].
  eapply okf_bind; [apply HW; [simpl; lia|constructor]|].
  intros [d p'] [Hd Hp']. simpl. split; [done|]. apply next_pos in Hp'. exists n'. split; [done|].
  eapply pos_mono; [exact Hp'|lia].
Qed.

(** ** Numbers *)

Lemma int_digits_pos n p v k : pos n p -> v = 0 -> okf (fun '(_, _, p) => pos n p) (int_digits v k p).
Proof.
  intros (s & -> & Hs & Hl) ->.
  assert (forall j s n v k, text_ok s -> (length s <= n)%nat -> (digit_run s + j <= 9)%nat -> 0 <= v < 10 ^ Z.of_nat j ->
    okf (fun '(_, _, p) => pos n p) (int_digits v k (s ++ 0 :: rest))) as Hgen.
  { clear. intros j s. revert j. induction s as [|c s IH]; intros j n v k Hs Hl Hj Hv; cbn [app int_digits digit_run] in *; [exact (pos_end n)|].
    destruct (is_digit c) eqn:Ed; [|exists (c :: s); done]. pose proof (text_cons c s Hs) as (Hc & _ & _ & Hs').
    assert (10 ^ Z.of_nat j <= 10 ^ 8) as Hpow by (apply Z.pow_le_mono_r; lia). change (10 ^ 8) with 100000000 in Hpow.
    unfold is_digit in Ed. apply andb_true_iff in Ed as [H48%Z.leb_le H57%Z.leb_le].
    do 3 (apply okf_chk_int; [ilia|]). simpl in Hl.
    eapply okf_mono; [apply (IH (S j) n); [done|lia|lia|]|by intros [[a b] q]].
    rewrite Nat2Z.inj_succ, Z.pow_succ_r by lia. lia. }
  apply (Hgen 0%nat); [done|done| |simpl; lia]. pose proof (text_digits s Hs). lia.
Qed.

Lemma dbl_ws_pos n p : pos n p -> okf (pos n) (dbl_ws p).
Proof.
  revert p. induction n as [n IH] using lt_wf_ind; intros p Hp.
  destruct (pos_cases n p Hp) as [-> | (c & p' & -> & Hc & n' & -> & Hp')]; cbn [dbl_ws]; [exact (pos_end n)|].
  destruct (_ && _); [|done]. eapply okf_mono; [apply (IH n'); [lia|done]|].
  intros q Hq. eapply pos_mono; [exact Hq|lia].
Qed.

Lemma skip_digits_pos n p : pos n p -> okf (pos n) (skip_digits p).
Proof.
  revert p. induction n as [n IH] using lt_wf_ind; intros p Hp.
  destruct (pos_cases n p Hp) as [-> | (c & p' & -> & Hc & n' & -> & Hp')]; cbn [skip_digits]; [exact (pos_end n)|].
  destruct (is_digit c); [|done]. eapply okf_mono; [apply (IH n'); [lia|done]|].
  intros q Hq. eapply pos_mono; [exact Hq|lia].
Qed.

Lemma str2double_pos dbl_value n p : pos n p -> okf (fun '(_, p) => pos n p) (my_str2double dbl_value p).
Proof.
  intros Hp. unfold my_str2double. eapply okf_bind; [by apply dbl_ws_pos|]. clear p Hp. intros p Hp.
  apply (okf_peek n); [done|]. intros c Hc Hn.
  assert (pos n (if c =? 45 then tail p else p)) as Hp1.
  { destruct (Z.eqb_spec c 45); [apply next_pos, Hn; lia|done]. }
  eapply okf_bind; [by apply int_digits_pos|]. intros [[v k] p1] Hq1.
  apply (okf_peek n); [done|]. intros d Hd Hm.
  eapply (okf_bind (fun '(_, _, p) => pos n p)).
  { destruct (Z.eqb_spec d 46); cbn [negb]; [|done].
    eapply okf_bind; [apply int_digits_pos; [|done]; apply next_pos, Hm; lia|]. by intros [[o j] q] Hq. }
  intros [[o m] p2] Hq2. apply (okf_peek n); [done|]. intros e He Hme.
  eapply (okf_bind (fun '(_, p) => pos n p)); [|by intros [x q] Hq].
  destruct ((e =? 101) || (e =? 69)) eqn:Ee; [|done].
  destruct (Hme ltac:(intros ->; discriminate)) as (n' & -> & Hp3).
  apply (okf_peek n'); [done|]. intros g Hg Hmg.
  eapply okf_bind; [apply (int_digits_pos (S n')); [|done]|by intros [[x y] q] Hq].
  destruct ((g =? 43) || (g =? 45)) eqn:Eg; [|eapply pos_mono; [exact Hp3|lia]].
  eapply pos_mono; [apply next_pos, Hmg; intros ->; discriminate|lia].
Qed.

Lemma pos_length n p : pos n p -> (length p <= n + 1 + length rest)%nat.
Proof. intros (s & -> & _ & Hl). rewrite length_app. simpl. lia. Qed.

Lemma parse_double_pos dbl_value n p : pos n p ->
  okf (fun o => match o with Some (_, p) => next n p | None => True end) (json_parse_double dbl_value p).
Proof.
  intros Hp. unfold json_parse_double. apply (okf_ws n); [done|]. clear p Hp. intros p (s & -> & Hs & Hl).
  eapply okf_bind; [apply (str2double_pos dbl_value (length s)); by exists s|].
  intros [d ep] (s2 & -> & Hs2 & Hl2). simpl. rewrite !length_app.
  destruct (Nat.eqb_spec (length s2 + length (0 :: rest)) (length s + length (0 :: rest))); [done|].
  destruct n as [|n]; [lia|]. exists n. split; [done|]. exists s2. split_and!; [done..|lia].
Qed.

Lemma parse_integer_pos n p : pos n p ->
  okf (fun o => match o with Some (v, p) => i64_min <= v <= i64_max /\ next n p | None => True end)
    (json_parse_integer p).
Proof.
  intros Hp. unfold json_parse_integer. apply (okf_ws n); [done|]. clear p Hp. intros p Hp.
  apply (okf_peek n); [done|]. intros c Hc Hn.
  assert (pos n (if c =? 45 then tail p else p)) as Hp1.
  { destruct (Z.eqb_spec c 45); [apply next_pos, Hn; lia|done]. }
  eapply okf_bind; [by apply skip_digits_pos|]. intros p2 Hp2.
  apply (okf_peek n); [done|]. intros d _ _. destruct (d =? 0); [done|].
  destruct ((d =? 46) || (d =? 101) || (d =? 69)); [done|].
  destruct Hp as (s & -> & Hs & Hl). rewrite cstr_at_app, ok_bind by apply Hs.
  pose proof (strtol_range s 10). pose proof (strtol_length s 10).
  destruct (strtol s 10) as [v ep]. simpl in *.
  destruct ((v =? i64_min) || (v =? i64_max)); [done|].
  destruct (Nat.eqb_spec (length ep) (length s)); [done|]. split; [done|].
  destruct n as [|n']; [lia|]. exists n'. split; [done|].
  rewrite drop_app_le by lia. eexists. split_and!; [reflexivity| |rewrite length_drop; lia].
  by apply text_drop.
Qed.

Lemma has_prefix_length t s : Forall (fun c => c <> 0) t ->
  has_prefix t (s ++ 0 :: rest) = true -> (length t <= length s)%nat.
Proof.
  intros Ht. revert s. induction Ht as [|a t Ha _ IH]; intros s; [simpl; lia|].
  destruct s as [|b s]; cbn [app has_prefix].
  - by rewrite (proj2 (Z.eqb_neq a 0)).
  - intros [_ H]%andb_true_iff. apply IH in H. simpl. lia.
Qed.

Lemma token_pos t n p : Forall (fun c => c <> 0) t -> t <> [] -> pos n p ->
  str_token t p = true -> next n (drop (length t) p).
Proof.
  intros Ht Hne (s & -> & Hs & Hl) H. pose proof (has_prefix_length t s Ht H) as Hle.
  assert (0 < length t)%nat by (destruct t; simpl; [done|lia]).
  destruct n as [|n]; [lia|]. exists n. split; [done|]. rewrite drop_app_le by lia.
  eexists. split_and!; [reflexivity|by apply text_drop|rewrite length_drop; lia].
Qed.

(** ** The mutually recursive parsers *)

Context (dbl_value : dbl_parts -> Z).
Abbreviation jdh := json_to_htsmsg.

Definition like (il : bool) (m : htsmsg) : Prop := msg_ok m /\ hm_islist m = il.

Lemma add_like il m n v c : like il m -> name_ok il n -> val_ok v c ->
  (forall il fs, c = Some (Msg il fs) -> Forall (field_ok il) fs) ->
  okf (like il) (htsmsg_field_add m n v c).
Proof.
  intros [Hm <-] Hn Hv Hc. rewrite field_add_ok by done. split; [|done].
  unfold msg_ok. cbn [hm_islist hm_fields]. apply Forall_app. split; [done|].
  constructor; [by constructor|constructor].
Qed.

Lemma add_scalar_like il m n v : like il m -> name_ok il n -> val_ok v None ->
  okf (like il) (htsmsg_field_add m n v None).
Proof. intros. by apply add_like. Qed.

Lemma add_msg_like il m n c : like il m -> name_ok il n -> msg_ok c ->
  okf (like il) (htsmsg_add_msg m n c).
Proof.
  intros Hm Hn Hc. apply add_like; [done..| |].
  - destruct c as [[] fs]; by exists fs.
  - by intros il' fs [= ->].
Qed.

(** The callback, and the position behind the value. *)
Lemma okf_add {A} (R : A -> Prop) n p (m : res A) : okf R m -> next n p ->
  okf (parsed R n) (a ← m; Ok (JOk a p)).
Proof. intros Hm Hp. eapply okf_bind; [exact Hm|]. by intros a Ha. Qed.

Definition value_safe fuel := forall n p il parent name,
  pos n p -> like il parent -> name_ok il name -> (3 * n + 3 <= fuel)%nat ->
  okf (parsed (like il) n) (json_parse_value dbl_value jdh fuel p parent name).
Definition map_safe fuel := forall n p, pos n p -> (3 * n + 2 <= fuel)%nat ->
  okf (parsed (like false) n) (json_parse_map dbl_value jdh fuel p).
Definition list_safe fuel := forall n p, pos n p -> (3 * n + 2 <= fuel)%nat ->
  okf (parsed (like true) n) (json_parse_list dbl_value jdh fuel p).
Definition map_loop_safe fuel := forall n p r, pos n p -> like false r -> (3 * n + 4 <= fuel)%nat ->
  okf (parsed (like false) n) (json_parse_map_loop dbl_value jdh fuel p r).
Definition list_loop_safe fuel := forall n p r, pos n p -> like true r -> (3 * n + 4 <= fuel)%nat ->
  okf (parsed (like true) n) (json_parse_list_loop dbl_value jdh fuel p r).

Lemma value_step fuel : map_safe fuel -> list_safe fuel -> value_safe (S fuel).
Proof.
  intros HM HL n p il parent name Hp Hpar Hname Hf. cbn [json_parse_value]. jfold dbl_value.
  eapply okf_bind; [apply (HM n); [done|lia]|]. intros [| |c q] Hc; [|done|].
  2: { destruct Hc as [[Hc _] Hq]. apply okf_add; [by apply add_msg_like|done]. }
  eapply okf_bind; [apply (HL n); [done|lia]|]. intros [| |c q] Hc'; [|done|].
  2: { destruct Hc' as [[Hc' _] Hq]. apply okf_add; [by apply add_msg_like|done]. }
  eapply okf_bind; [by apply (parse_string_pos n)|]. intros [| |str q] Hs; [|done|].
  2: { destruct Hs as [Hs Hq]. apply okf_add; [by apply add_scalar_like|done]. }
  eapply okf_bind; [by apply (parse_integer_pos n)|]. intros [[l q]|] Hl.
  { destruct Hl as [Hl Hq]. apply okf_add; [|done]. cbn [jd_add_long json_to_htsmsg].
    unfold htsmsg_add_s64. rewrite s64_id by done. by apply add_scalar_like. }
  eapply okf_bind; [by apply (parse_double_pos dbl_value n)|]. intros [[d q]|] Hd.
  { apply okf_add; [by apply add_scalar_like|done]. }
  apply (okf_ws n); [done|]. clear p Hp Hc Hc' Hs Hl Hd. intros p Hp.
  assert (forall v, 0 <= v <= 1 -> okf (like il) (htsmsg_add_u32 parent name v)) as Hb.
  { intros v Hv. unfold htsmsg_add_u32. rewrite u32_id by lia. apply add_scalar_like; [done..|].
    split; [done|]. unfold i64_min, i64_max. lia. }
  destruct (str_token (lit "true") p) eqn:E1.
  { apply okf_add; [by apply Hb|]. apply (token_pos (lit "true")); [|done..]. repeat constructor; discriminate. }
  destruct (str_token (lit "false") p) eqn:E2.
  { apply okf_add; [by apply Hb|]. apply (token_pos (lit "false")); [|done..]. repeat constructor; discriminate. }
  destruct (str_token (lit "null") p) eqn:E3; [|done].
  apply (okf_add (like il) n _ (Ok parent)); [done|].
  apply (token_pos (lit "null")); [|done..]. repeat constructor; discriminate.
Qed.

Lemma create_like il : like il (Msg il []).
Proof. split; [constructor|done]. Qed.

Lemma brackets_step fuel (il : bool) (loop : list Z -> htsmsg -> res (jres htsmsg)) op cl :
  op <> 0 -> cl <> 0 ->
  (forall n p r, pos n p -> like il r -> (3 * n + 4 <= fuel)%nat -> okf (parsed (like il) n) (loop p r)) ->
  forall n p, pos n p -> (3 * n + 2 <= S fuel)%nat ->
  okf (parsed (like il) n)
    (s ← json_ws p; c ← peek s;
     if negb (c =? op) then Ok JNot
     else s ← json_ws (tail s); c ← peek s;
          if c =? cl then Ok (JOk (Msg il []) (tail s)) else loop s (Msg il [])).
Proof.
  intros Hop Hcl HL n p Hp Hf. apply (okf_ws n); [done|]. clear p Hp. intros p Hp.
  apply (okf_peek n); [done|]. intros c _ Hn. destruct (Z.eqb_spec c op) as [->|]; cbn [negb]; [|done].
  destruct (Hn Hop) as (n' & -> & Hp'). apply (okf_ws n'); [done|]. clear p Hp Hn Hp'. intros p Hp.
  apply (okf_peek n'); [done|]. intros c _ Hn. destruct (Z.eqb_spec c cl) as [->|].
  - simpl. split; [apply create_like|]. exists n'. split; [done|]. by apply next_pos, Hn.
  - eapply okf_mono; [apply (HL n'); [done|apply create_like|lia]|].
    intros [| |m q] Hq; [done..|]. destruct Hq as [Hm Hq]. split; [done|]. exists n'. split; [done|].
    by apply next_pos.
Qed.

Lemma after_safe fuel (il : bool) (loop : list Z -> htsmsg -> res (jres htsmsg)) cl :
  cl <> 0 ->
  (forall n p r, pos n p -> like il r -> (3 * n + 4 <= fuel)%nat -> okf (parsed (like il) n) (loop p r)) ->
  forall n v, parsed (like il) n v -> (3 * n + 4 <= S fuel)%nat ->
  okf (parsed (like il) n)
    match v with
    | JNot => Ok JNot
    | JFail m p => Ok (JFail m p)
    | JOk r s2 =>
        s ← json_ws s2; c ← peek s;
        if c =? cl then Ok (JOk r (tail s))
        else if negb (c =? 44) then Ok (JFail (lit "Expected ','") s)
        else loop (tail s) r
    end.
Proof.
  intros Hcl HL n v Hv Hf. destruct v as [| |r p]; [done..|]. destruct Hv as [Hr (n' & -> & Hp)].
  apply (okf_ws n'); [done|]. clear p Hp. intros p Hp. apply (okf_peek n'); [done|]. intros c _ Hn.
  destruct (Z.eqb_spec c cl) as [->|].
  - simpl. split; [done|]. exists n'. split; [done|]. by apply next_pos, Hn.
  - destruct (Z.eqb_spec c 44) as [->|]; cbn [negb]; [|done].
    destruct (Hn ltac:(done)) as (n2 & -> & Hp2).
    eapply okf_mono; [apply (HL n2); [done..|lia]|].
    intros [| |m q] Hq; [done..|]. destruct Hq as [Hm Hq]. split; [done|]. exists (S n2). split; [done|].
    eapply pos_mono; [by apply next_pos|lia].
Qed.

Lemma loops_step fuel : value_safe fuel -> map_loop_safe fuel -> list_loop_safe fuel ->
  map_loop_safe (S fuel) /\ list_loop_safe (S fuel).
Proof.
  intros HV HM HL. split; intros n p r Hp Hr Hf.
  - cbn [json_parse_map_loop]. jfold dbl_value. eapply okf_bind; [by apply (parse_string_pos n)|].
    intros [| |name q] Hq; [done..|]. destruct Hq as [Hname (n' & -> & Hq)].
    apply (okf_ws n'); [done|]. clear q Hq. intros q Hq. apply (okf_peek n'); [done|]. intros c _ Hn.
    destruct (Z.eqb_spec c 58) as [->|]; cbn [negb]; [|done]. destruct (Hn ltac:(done)) as (n2 & -> & Hq2).
    eapply okf_bind; [apply (HV n2 _ false); [done..|lia]|]. intros v Hv.
    eapply okf_mono; [apply (after_safe fuel false _ 125 ltac:(done) HM n2 v Hv ltac:(lia))|].
    intros [| |m q'] Hq'; [done..|]. destruct Hq' as [Hm Hq']. split; [done|]. exists (S n2). split; [done|].
    eapply pos_mono; [by apply next_pos|lia].
  - cbn [json_parse_list_loop]. jfold dbl_value.
    eapply okf_bind; [apply (HV n _ true); [done..|lia]|]. intros v Hv.
    by apply (after_safe fuel true _ 93 ltac:(done) HL n v Hv).
Qed.

Lemma parsers_safe fuel :
  value_safe fuel /\ map_safe fuel /\ list_safe fuel /\ map_loop_safe fuel /\ list_loop_safe fuel.
Proof.
  induction fuel as [|fuel (HV & HM & HL & HML & HLL)].
  { split_and!; unfold value_safe, map_safe, list_safe, map_loop_safe, list_loop_safe; lia. }
  destruct (loops_step fuel HV HML HLL) as [H1 H2]. split_and!; [by apply value_step| | |done..].
  - intros n p Hp Hf. cbn [json_parse_map]. jfold dbl_value.
    by apply (brackets_step fuel false (json_parse_map_loop dbl_value jdh fuel) 123 125).
  - intros n p Hp Hf. cbn [json_parse_list]. jfold dbl_value.
    by apply (brackets_step fuel true (json_parse_list_loop dbl_value jdh fuel) 91 93).
Qed.
End safety.

(** ** Properties *)

(** C35: the text of a message of maps, lists, integers and strings, printed
    with or without indentation and read back, is the message, less the XML
    attributes and namespaces JSON has no place for: its fields, in order, with
    their names, types and values. *)
Theorem htsmsg_json_roundtrip {sg : CharSign} (dbl_value : dbl_parts -> Z) (dbl_text : Z -> list Z)
    (msg : htsmsg) (pretty : bool) :
  Forall (json_rt (hm_islist msg)) (hm_fields msg) ->
  Z.of_nat (length (jmsg dbl_text pretty (hm_islist msg) 2 (hm_fields msg))) < int_max ->
  exists text, htsmsg_json_serialize_to_str dbl_text msg pretty = Ok text /\
    forall rest, htsmsg_json_deserialize dbl_value (text ++ 0 :: rest) =
      Ok (inr (Msg (hm_islist msg) (map strip_field (hm_fields msg)))).
Proof.
  intros Hrt Hl. destruct msg as [il fs]. cbn [hm_islist hm_fields] in *.
  assert (Forall json_ok fs) as Hok by (eapply Forall_impl; [exact Hrt|apply json_rt_ok]).
  assert (Forall (writes dbl_text pretty) fs) as HW by (eapply Forall_impl; [exact Hok|apply json_writes]).
  destruct (json_write_msg_ok (Q := htsbuf_queue) dbl_text pretty il 2 fs HW Hok (htsbuf_queue_init 0) [])
    as (q & Eq & Hq); [apply htsbuf_init_holds|cbn [length]; lia|].
  set (t := jmsg dbl_text pretty il 2 fs) in *.
  assert (exists q', htsmsg_json_serialize dbl_text (Msg il fs) (htsbuf_queue_init 0) pretty = Ok q' /\
    holds q' (t ++ if pretty then [10] else [])) as (q' & Eq' & Hq').
  { unfold htsmsg_json_serialize, htsmsg_json_write. cbn [hm_islist hm_fields]. rewrite Eq, ok_bind.
    destruct pretty; [|exists q; by rewrite app_nil_r]. apply (htsbuf_append_holds q t [10]); [done|cbn [length]; lia]. }
  destruct (htsbuf_to_string_holds _ _ Hq') as (q2 & E2 & _).
  exists (t ++ if pretty then [10] else []). split.
  { unfold htsmsg_json_serialize_to_str. by rewrite Eq', ok_bind, E2. }
  intros rest. unfold htsmsg_json_deserialize, json_deserialize. rewrite <- app_assoc.
  set (r := (if pretty then [10] else []) ++ 0 :: rest).
  set (fuel := (4 * length (t ++ r) + 4)%nat).
  assert (parse_brackets dbl_value il fuel (t ++ r) = Ok (JOk (Msg il (map strip_field fs)) r)) as E.
  { apply (brackets_read dbl_value dbl_text pretty il fs 2 fuel []); [|done|constructor| |fold t; lia|].
    - apply Forall_true. apply value_reads_all.
    - unfold r. set_solver.
    - fold t. unfold fuel. rewrite length_app. lia. }
  unfold parse_brackets in E. destruct il; [|by rewrite E].
  assert (json_parse_map dbl_value json_to_htsmsg fuel (t ++ r) = Ok JNot) as ->; [|by rewrite ok_bind, E].
  unfold fuel. rewrite Nat.add_comm. cbn [Nat.add]. by apply (parse_map_not _ _ []).
Qed.

Definition ex_json : htsmsg :=
  Msg false [HField (Some (lit "ids")) true None HList (Some (Msg true
               [HField None false None (HS64 (-5)) None;
                HField None false None (HStr [34; 195; 169; 10]) None]));
             HField (Some (lit "e")) false None HMap (Some (Msg false []))].

Lemma htsmsg_json_roundtrip_witness :
  exists text, htsmsg_json_serialize_to_str (cs := false) (fun _ => []) ex_json true = Ok text /\
    htsmsg_json_deserialize (cs := false) (fun _ => 0) (text ++ [0]) =
      Ok (inr (Msg false (map strip_field (hm_fields ex_json)))).
Proof.
  destruct (htsmsg_json_roundtrip (sg := false) (fun _ => 0) (fun _ => []) ex_json true) as (text & E & H).
  - assert (forall n cs, n = put_all cs -> json_text cs ->
      exists cs, Some n = Some (put_all cs) /\ json_text cs) as HN by (intros ? ? -> ?; eauto).
    assert (forall cs, bool_decide (Forall (fun c => 0 < c < 1000) cs) = true -> json_text cs) as HT.
    { intros cs Hcs%bool_decide_eq_true. eapply Forall_impl; [exact Hcs|]. unfold cp_ok. intros. simpl in *. ilia. }
    repeat constructor; try (intros il fs [=]; subst; repeat constructor); try discriminate.
    all: try (by eexists).
    all: try (by apply (HN _ (lit "ids")); [|apply HT]).
    all: try (by apply (HN _ (lit "e")); [|apply HT]).
    all: try (by exists [34; 233; 10]; split; [|apply HT]).
  - vm_compute. reflexivity.
  - exists text. split; [exact E|]. apply H.
Defined.

(** C36: the parser reads a C string within its bounds, terminates and does
    nothing undefined: the result is an error message or a well-formed message
    (names in maps only and in all of them, 64-bit integers, strings without
    NUL).  The text is at most a sixth of the largest [int] long, has no ten
    digits in a row, and no escape of the character 0 or of a byte that is not
    ASCII. *)
Theorem htsmsg_json_deserialize_safe {sg : CharSign} (dbl_value : dbl_parts -> Z) (s rest : list Z) :
  cstring_ok s -> tame s = true -> 6 * Z.of_nat (length s) <= int_max ->
  exists r, htsmsg_json_deserialize dbl_value (s ++ 0 :: rest) = Ok r /\
    match r with inl _ => True | inr m => msg_ok m end.
Proof.
  intros Hc Ht Hsize.
  cut (okf (fun r => match r with inl _ => True | inr m => msg_ok m end) (htsmsg_json_deserialize dbl_value (s ++ 0 :: rest))).
  { destruct (htsmsg_json_deserialize dbl_value (s ++ 0 :: rest)) as [r|]; [|done]. intros H. by exists r. }
  assert (text_ok s) as Hs by done. clear Ht Hsize.
  unfold htsmsg_json_deserialize, json_deserialize.
  set (m := s ++ 0 :: rest). set (fuel := (4 * length m + 4)%nat).
  assert (pos rest (length s) m) as Hp by (by exists s).
  assert (3 * length s + 2 <= fuel)%nat as Hf by (unfold fuel, m; rewrite length_app; lia).
  destruct (parsers_safe rest dbl_value fuel) as (_ & HM & HL & _).
  change (okf (fun r => match r with inl _ => True | inr c => msg_ok c end)
    (c ← json_parse_map dbl_value json_to_htsmsg fuel m;
     c ← match c with JNot => json_parse_list dbl_value json_to_htsmsg fuel m | c => Ok c end;
     match c with
     | JNot => Ok (inl (lit "Invalid JSON, expected '{' or '['"))
     | JFail msg p => e ← json_error m msg p; Ok (inl e)
     | JOk c _ => Ok (inr c)
     end)).
  assert (forall msg p, okf (fun r : list Z + htsmsg => match r with inl _ => True | inr c => msg_ok c end)
    (e ← json_error m msg p; Ok (inl e))) as He.
  { intros msg p. unfold json_error, m. rewrite cstr_at_app, ok_bind by done. by destruct (_ || _). }
  eapply okf_bind; [by apply (HM (length s))|]. intros r Hr.
  eapply (okf_bind (fun c => match c with JOk a _ => msg_ok a | _ => True end)).
  - destruct r as [| |a p]; [|done|apply Hr].
    eapply okf_mono; [by apply (HL (length s))|]. intros [| |a p] Hq; [done..|]. apply Hq.
  - intros [| |a p] Ha; [done|apply He|done].
Qed.

Lemma htsmsg_json_deserialize_safe_witness : let text := lit "[null, {x: 1}, 12.5e3]" in
  exists r, htsmsg_json_deserialize (cs := false) (fun _ => 0) (text ++ [0]) = Ok r /\
    match r with inl _ => True | inr m => msg_ok m end.
Proof.
  intros text. apply (htsmsg_json_deserialize_safe (sg := false) (fun _ => 0) text []).
  - apply (bool_decide_unpack _). vm_compute. exact I.
  - vm_compute. reflexivity.
  - vm_compute. discriminate.
Defined.

(** The largest number [int_digits] reads: the addition of the character comes
    before the subtraction of ['0']. *)
Definition digits_max : Z := 2147483599.

Lemma dec_fold_cons a c ds : dec_fold a (c :: ds) = dec_fold (a * 10 + (c - 48)) ds.
Proof. unfold dec_fold. cbn [fold_left]. f_equal. lia. Qed.

Lemma dec_fold_bounds a ds : 0 <= a -> Forall (fun c => 48 <= c <= 57) ds -> a <= dec_fold a ds.
Proof.
  intros Ha Hds. revert a Ha. induction Hds as [|c ds Hc _ IH]; intros a Ha; [done|].
  rewrite dec_fold_cons.
  specialize (IH (a * 10 + (c - 48)) ltac:(lia)). lia.
Qed.

Lemma int_digits_run a k ds r :
  0 <= a <= digits_max -> Forall (fun c => 48 <= c <= 57) ds ->
  (exists c t, r = c :: t /\ ~ 48 <= c <= 57) ->
  int_digits a k (ds ++ r) =
    if dec_fold a ds <=? digits_max then Ok (dec_fold a ds, k + Z.of_nat (length ds), r)
    else Fault SignedOverflow.
Proof.
  intros Ha Hds (x & t & -> & Hx). revert a k Ha. induction Hds as [|c ds Hc Hds IH]; intros a k Ha.
  - cbn [app int_digits length]. rewrite is_digit_false by done. change (dec_fold a []) with a.
    rewrite (proj2 (Z.leb_le _ _)) by lia. do 3 f_equal. lia.
  - cbn [app int_digits length]. rewrite (proj2 (is_digit_spec c)) by done.
    rewrite dec_fold_cons.
    unfold digits_max in *. destruct (Z.le_gt_cases (a * 10 + (c - 48)) 2147483599) as [Hle|Hgt].
    + rewrite (chk_int_Ok (a * 10)), ok_bind by ilia. rewrite (chk_int_Ok (a * 10 + c)), ok_bind by ilia.
      rewrite chk_int_Ok, ok_bind by ilia. replace (a * 10 + c - 48) with (a * 10 + (c - 48)) by lia.
      rewrite IH by lia. destruct (_ <=? _); [|done]. do 3 f_equal. lia.
    + pose proof (dec_fold_bounds (a * 10 + (c - 48)) ds ltac:(lia) Hds).
      rewrite (proj2 (Z.leb_gt _ _)) by lia. destruct (chk_int (a * 10)) as [v|f] eqn:E.
      * apply chk_int_inv in E as [-> E]. rewrite ok_bind.
        destruct (chk_int (a * 10 + c)) as [v|f] eqn:E2; [|by apply chk_int_fault in E2 as ->].
        apply chk_int_inv in E2 as [-> E2]. ilia.
      * by apply chk_int_fault in E as ->.
Qed.

(** A printed number: sign, digits, optional fraction and optional exponent,
    whose marker and sign are [em] and [es]. *)
Definition digits (ds : list Z) : Prop := Forall (fun c => 48 <= c <= 57) ds.

Definition num_frac (fs : option (list Z)) : list Z :=
  match fs with Some fs => 46 :: fs | None => [] end.
Definition num_exp (ex : option (Z * list Z * list Z)) : list Z :=
  match ex with Some (em, es, ds) => em :: es ++ ds | None => [] end.

Definition frac_ok (fs : option (list Z)) : Prop := match fs with Some fs => digits fs | None => True end.
Definition exp_ok (ex : option (Z * list Z * list Z)) : Prop :=
  match ex with
  | Some (em, es, ds) => (em = 101 \/ em = 69) /\ (es = [] \/ es = [43] \/ es = [45]) /\ ds <> [] /\ digits ds
  | None => True
  end.

Definition frac_value (fs : option (list Z)) : Z := dec_fold 0 (default [] fs).
Definition exp_value (ex : option (Z * list Z * list Z)) : Z :=
  match ex with Some (_, es, ds) => dec_fold 0 ds * (if bool_decide (es = [45]) then -1 else 1) | None => 0 end.
Definition exp_digits (ex : option (Z * list Z * list Z)) : Z :=
  match ex with Some (_, _, ds) => dec_fold 0 ds | None => 0 end.

(** What [my_str2double] does at the fraction and at the exponent. *)
Lemma frac_step fs e :
  frac_ok fs -> (exists y t, e = y :: t /\ ~ 48 <= y <= 57 /\ y <> 46) ->
  exists c, peek (num_frac fs ++ e) = Ok c /\
  (if negb (c =? 46) then Ok (0, 0, num_frac fs ++ e)
   else y ← int_digits 0 0 (tail (num_frac fs ++ e)); let '(o, k, s) := y in Ok (o, - k, s)) =
  if frac_value fs <=? digits_max then Ok (frac_value fs, - Z.of_nat (length (default [] fs)), e)
  else Fault SignedOverflow.
Proof.
  intros Hfs (y & t & -> & Hy & H46). destruct fs as [fs|]; cbn [num_frac app tail].
  - exists 46. split; [done|]. cbn [Z.eqb Pos.eqb negb].
    rewrite int_digits_run by (done || (unfold digits_max; lia) || by exists y, t).
    unfold frac_value. cbn [default from_option]. destruct (_ <=? _); [|done]. rewrite ok_bind. by rewrite Z.add_0_l.
  - exists y. split; [done|]. by rewrite (proj2 (Z.eqb_neq y 46)).
Qed.

Lemma exp_step ex x r :
  exp_ok ex -> ~ 48 <= x <= 57 -> x <> 101 -> x <> 69 ->
  exists c, peek (num_exp ex ++ x :: r) = Ok c /\
  (let str := num_exp ex ++ x :: r in
   if (c =? 101) || (c =? 69) then
     c ← peek (tail str);
     let esign := if c =? 45 then -1 else 1 in
     let str := if (c =? 43) || (c =? 45) then tail (tail str) else tail str in
     y ← int_digits 0 0 str;
     let '(e, _, s) := y in Ok (e * esign, s)
   else Ok (0, str)) =
  if exp_digits ex <=? digits_max then Ok (exp_value ex, x :: r) else Fault SignedOverflow.
Proof.
  intros Hex Hx H101 H69. destruct ex as [[[em es] ds]|]; cbn [num_exp app].
  2: { exists x. split; [done|]. by rewrite (proj2 (Z.eqb_neq x 101)), (proj2 (Z.eqb_neq x 69)). }
  destruct Hex as (Hem & Hes & Hne & Hds). exists em. split; [done|].
  assert ((em =? 101) || (em =? 69) = true) as -> by by destruct Hem as [-> | ->].
  cbv zeta. cbn [tail]. rewrite <- app_assoc.
  pose proof (int_digits_run 0 0 ds (x :: r) ltac:(unfold digits_max; lia) Hds
    ltac:(by exists x, r)) as E.
  destruct Hes as [-> | [-> | ->]]; cbn [app].
  - destruct ds as [|d ds]; [done|]. pose proof Hds as [Hd _]%Forall_cons. cbn [app] in *.
    rewrite peek_cons, ok_bind, (proj2 (Z.eqb_neq d 43)), (proj2 (Z.eqb_neq d 45)) by lia. cbn [orb].
    rewrite E. cbn [exp_digits exp_value]. by destruct (_ <=? _).
  - rewrite peek_cons, ok_bind. cbn [tail Z.eqb Pos.eqb orb]. rewrite E. cbn [exp_digits exp_value].
    by destruct (_ <=? _).
  - rewrite peek_cons, ok_bind. cbn [tail Z.eqb Pos.eqb orb]. rewrite E. cbn [exp_digits exp_value].
    by destruct (_ <=? _).
Qed.

(** The number reader reads a sign, the digits of the integer part, those
    of an optional fraction with their number, and an optional exponent with
    its sign, and stops at the first other character; when any of the three
    numbers exceeds 2147483599, an [int] overflows. *)
Theorem my_str2double_spec {sg : CharSign} (dbl_value : dbl_parts -> Z) (neg : bool) (ds : list Z)
    (fs : option (list Z)) (ex : option (Z * list Z * list Z)) (x : Z) (r : list Z) :
  ds <> [] -> digits ds -> frac_ok fs -> exp_ok ex ->
  ~ 48 <= x <= 57 -> x <> 46 -> x <> 101 -> x <> 69 ->
  my_str2double dbl_value ((if neg then [45] else []) ++ ds ++ num_frac fs ++ num_exp ex ++ x :: r) =
    if (dec_fold 0 ds <=? digits_max) && (frac_value fs <=? digits_max) && (exp_digits ex <=? digits_max)
    then Ok (dbl_value (Dbl neg (dec_fold 0 ds) (- Z.of_nat (length (default [] fs))) (frac_value fs)
               (exp_value ex)), x :: r)
    else Fault SignedOverflow.
Proof.
  intros Hne Hds Hfs Hex Hx H46 H101 H69. unfold my_str2double.
  set (e := num_exp ex ++ x :: r).
  assert (exists y t, e = y :: t /\ ~ 48 <= y <= 57 /\ y <> 46) as He.
  { unfold e, num_exp. destruct ex as [[[em es] es']|]; [|by exists x, r].
    destruct Hex as [Hem _]. eexists _, _. split; [reflexivity|]. lia. }
  set (f := num_frac fs ++ e).
  assert (exists y t, f = y :: t /\ ~ 48 <= y <= 57) as Hf.
  { unfold f, num_frac. destruct fs; [eexists _, _; split; [reflexivity|lia]|]. destruct He as (y & t & -> & Hy & _). by exists y, t. }
  assert (exists d t, ds = d :: t /\ 48 <= d <= 57) as (d & t & Ed & Hd).
  { destruct Hds as [|d t Hd _]; [done|]. by exists d, t. }
  assert (forall c t, c = 45 \/ 48 <= c <= 57 -> dbl_ws (c :: t) = Ok (c :: t)) as Hws.
  { intros c t' Hc. cbn [dbl_ws]. rewrite cchar_ascii, (proj2 (Z.ltb_ge c 33)), andb_false_r by lia. done. }
  assert (dbl_ws ((if neg then [45] else []) ++ ds ++ f) = Ok ((if neg then [45] else []) ++ ds ++ f)) as ->.
  { destruct neg; [|rewrite Ed]; apply Hws; auto. }
  rewrite ok_bind.
  assert (peek ((if neg then [45] else []) ++ ds ++ f) = Ok (if neg then 45 else d)) as -> by (destruct neg; [done|by rewrite Ed]).
  rewrite ok_bind. assert (((if neg then 45 else d) =? 45) = neg) as -> by (destruct neg; [done|apply Z.eqb_neq; lia]).
  assert ((if neg then tail ((if neg then [45] else []) ++ ds ++ f) else (if neg then [45] else []) ++ ds ++ f)
    = ds ++ f) as -> by by destruct neg.
  rewrite int_digits_run by (done || (unfold digits_max; lia)).
  destruct (dec_fold 0 ds <=? digits_max); [|done]. rewrite ok_bind. cbn [andb].
  destruct (frac_step fs e Hfs He) as (c & Ec & Efrac). unfold f. rewrite Ec, ok_bind, Efrac.
  destruct (frac_value fs <=? digits_max); [|done]. rewrite ok_bind. cbn [andb].
  destruct (exp_step ex x r Hex Hx H101 H69) as (c2 & Ec2 & Eexp). cbv zeta in Eexp.
  unfold e. rewrite Ec2, ok_bind, Eexp. by destruct (exp_digits ex <=? digits_max).
Qed.

Lemma my_str2double_spec_witness :
  my_str2double (cs := false) (fun p => dbl_o p) (lit "-3.25e-7,") = Ok (25, lit ",") /\
  my_str2double (cs := false) (fun p => dbl_o p) (lit "0.2147483600 ") = Fault SignedOverflow.
Proof.
  split.
  - refine (my_str2double_spec (sg := false) (fun p => dbl_o p) true (lit "3") (Some (lit "25"))
      (Some (101, [45], lit "7")) 44 [] _ _ _ _ _ _ _ _); try discriminate; try lia;
      apply (bool_decide_unpack _); vm_compute; exact I.
  - refine (my_str2double_spec (sg := false) (fun p => dbl_o p) false (lit "0") (Some (lit "2147483600"))
      None 32 [] _ _ _ _ _ _ _ _); try discriminate; try lia; try done;
      apply (bool_decide_unpack _); vm_compute; exact I.
Defined.

(** Texts the parser gets wrong: the digits A to F of a [\u] escape are read
    five too low; [\u0000] fails the assertion; a fraction of ten digits can
    overflow an [int]; and a sign alone, or an exponent mark alone, is a number. *)
Definition in_list (t : list Z) : list Z := [91] ++ t ++ [93; 0].
Definition in_quotes (t : list Z) : list Z := [34] ++ t ++ [34].

Lemma json_defects (dbl_value : dbl_parts -> Z) :
  let run t := htsmsg_json_deserialize (cs := false) dbl_value (in_list t) in
  let number d := Ok (inr (Msg true [HField None false None (HDbl (dbl_value d)) None])) in
  run (in_quotes (lit "\u00A9")) = Ok (inr (Msg true [HField None false None (HStr (lit "Y")) None])) /\
  run (in_quotes (lit "\u0000")) = Fault AssertFailed /\
  run (lit "0.1234567890") = number (Dbl false 0 (-10) 1234567890 0) /\
  run (lit "0.9876543210") = Fault SignedOverflow /\
  run (lit "-") = number (Dbl true 0 0 0 0) /\
  run (lit "e") = number (Dbl false 0 0 0 0).
Proof. cbv zeta. split_and!; vm_compute; reflexivity. Qed.
