(* ===== verification/Collate.v ===== *)
(** Comparing and searching text (src/src/misc/str.c and the table of
    src/src/misc/unicode_casefolding.h): case folding, the order of titles that
    the browser sorts by, and the search that ignores case. *)
From S2P Require Import Prelude Utf8.

Local Open Scope Z_scope.

(** * Case folding *)

Definition unicode_casefolding : list (Z * Z) :=
  [(65, 97); (66, 98); (67, 99); (68, 100); (69, 101); (70, 102); (71, 103); (72, 104);
   (73, 105); (74, 106); (75, 107); (76, 108); (77, 109); (78, 110); (79, 111); (80, 112);
   (81, 113); (82, 114); (83, 115); (84, 116); (85, 117); (86, 118); (87, 119); (88, 120);
   (89, 121); (90, 122); (181, 956); (192, 224); (193, 225); (194, 226); (195, 227); (196, 228);
   (197, 229); (198, 230); (199, 231); (200, 232); (201, 233); (202, 234); (203, 235);
   (204, 236); (205, 237); (206, 238); (207, 239); (208, 240); (209, 241); (210, 242);
   (211, 243); (212, 244); (213, 245); (214, 246); (216, 248); (217, 249); (218, 250);
   (219, 251); (220, 252); (221, 253); (222, 254); (256, 257); (258, 259); (260, 261);
   (262, 263); (264, 265); (266, 267); (268, 269); (270, 271); (272, 273); (274, 275);
   (276, 277); (278, 279); (280, 281); (282, 283); (284, 285); (286, 287); (288, 289);
   (290, 291); (292, 293); (294, 295); (296, 297); (298, 299); (300, 301); (302, 303);
   (306, 307); (308, 309); (310, 311); (313, 314); (315, 316); (317, 318); (319, 320);
   (321, 322); (323, 324); (325, 326); (327, 328); (330, 331); (332, 333); (334, 335);
   (336, 337); (338, 339); (340, 341); (342, 343); (344, 345); (346, 347); (348, 349);
   (350, 351); (352, 353); (354, 355); (356, 357); (358, 359); (360, 361); (362, 363);
   (364, 365); (366, 367); (368, 369); (370, 371); (372, 373); (374, 375); (376, 255);
   (377, 378); (379, 380); (381, 382); (383, 115); (385, 595); (386, 387); (388, 389);
   (390, 596); (391, 392); (393, 598); (394, 599); (395, 396); (398, 477); (399, 601);
   (400, 603); (401, 402); (403, 608); (404, 611); (406, 617); (407, 616); (408, 409);
   (412, 623); (413, 626); (415, 629); (416, 417); (418, 419); (420, 421); (422, 640);
   (423, 424); (425, 643); (428, 429); (430, 648); (431, 432); (433, 650); (434, 651);
   (435, 436); (437, 438); (439, 658); (440, 441); (444, 445); (452, 454); (453, 454);
   (455, 457); (456, 457); (458, 460); (459, 460); (461, 462); (463, 464); (465, 466);
   (467, 468); (469, 470); (471, 472); (473, 474); (475, 476); (478, 479); (480, 481);
   (482, 483); (484, 485); (486, 487); (488, 489); (490, 491); (492, 493); (494, 495);
   (497, 499); (498, 499); (500, 501); (502, 405); (503, 447); (504, 505); (506, 507);
   (508, 509); (510, 511); (512, 513); (514, 515); (516, 517); (518, 519); (520, 521);
   (522, 523); (524, 525); (526, 527); (528, 529); (530, 531); (532, 533); (534, 535);
   (536, 537); (538, 539); (540, 541); (542, 543); (544, 414); (546, 547); (548, 549);
   (550, 551); (552, 553); (554, 555); (556, 557); (558, 559); (560, 561); (562, 563);
   (570, 11365); (571, 572); (573, 410); (574, 11366); (577, 578); (579, 384); (580, 649);
   (581, 652); (582, 583); (584, 585); (586, 587); (588, 589); (590, 591); (837, 953);
   (880, 881); (882, 883); (886, 887); (902, 940); (904, 941); (905, 942); (906, 943);
   (908, 972); (910, 973); (911, 974); (913, 945); (914, 946); (915, 947); (916, 948);
   (917, 949); (918, 950); (919, 951); (920, 952); (921, 953); (922, 954); (923, 955);
   (924, 956); (925, 957); (926, 958); (927, 959); (928, 960); (929, 961); (931, 963);
   (932, 964); (933, 965); (934, 966); (935, 967); (936, 968); (937, 969); (938, 970);
   (939, 971); (962, 963); (975, 983); (976, 946); (977, 952); (981, 966); (982, 960);
   (984, 985); (986, 987); (988, 989); (990, 991); (992, 993); (994, 995); (996, 997);
   (998, 999); (1000, 1001); (1002, 1003); (1004, 1005); (1006, 1007); (1008, 954); (1009, 961);
   (1012, 952); (1013, 949); (1015, 1016); (1017, 1010); (1018, 1019); (1021, 891); (1022, 892);
   (1023, 893); (1024, 1104); (1025, 1105); (1026, 1106); (1027, 1107); (1028, 1108);
   (1029, 1109); (1030, 1110); (1031, 1111); (1032, 1112); (1033, 1113); (1034, 1114);
   (1035, 1115); (1036, 1116); (1037, 1117); (1038, 1118); (1039, 1119); (1040, 1072);
   (1041, 1073); (1042, 1074); (1043, 1075); (1044, 1076); (1045, 1077); (1046, 1078);
   (1047, 1079); (1048, 1080); (1049, 1081); (1050, 1082); (1051, 1083); (1052, 1084);
   (1053, 1085); (1054, 1086); (1055, 1087); (1056, 1088); (1057, 1089); (1058, 1090);
   (1059, 1091); (1060, 1092); (1061, 1093); (1062, 1094); (1063, 1095); (1064, 1096);
   (1065, 1097); (1066, 1098); (1067, 1099); (1068, 1100); (1069, 1101); (1070, 1102);
   (1071, 1103); (1120, 1121); (1122, 1123); (1124, 1125); (1126, 1127); (1128, 1129);
   (1130, 1131); (1132, 1133); (1134, 1135); (1136, 1137); (1138, 1139); (1140, 1141);
   (1142, 1143); (1144, 1145); (1146, 1147); (1148, 1149); (1150, 1151); (1152, 1153);
   (1162, 1163); (1164, 1165); (1166, 1167); (1168, 1169); (1170, 1171); (1172, 1173);
   (1174, 1175); (1176, 1177); (1178, 1179); (1180, 1181); (1182, 1183); (1184, 1185);
   (1186, 1187); (1188, 1189); (1190, 1191); (1192, 1193); (1194, 1195); (1196, 1197);
   (1198, 1199); (1200, 1201); (1202, 1203); (1204, 1205); (1206, 1207); (1208, 1209);
   (1210, 1211); (1212, 1213); (1214, 1215); (1216, 1231); (1217, 1218); (1219, 1220);
   (1221, 1222); (1223, 1224); (1225, 1226); (1227, 1228); (1229, 1230); (1232, 1233);
   (1234, 1235); (1236, 1237); (1238, 1239); (1240, 1241); (1242, 1243); (1244, 1245);
   (1246, 1247); (1248, 1249); (1250, 1251); (1252, 1253); (1254, 1255); (1256, 1257);
   (1258, 1259); (1260, 1261); (1262, 1263); (1264, 1265); (1266, 1267); (1268, 1269);
   (1270, 1271); (1272, 1273); (1274, 1275); (1276, 1277); (1278, 1279); (1280, 1281);
   (1282, 1283); (1284, 1285); (1286, 1287); (1288, 1289); (1290, 1291); (1292, 1293);
   (1294, 1295); (1296, 1297); (1298, 1299); (1300, 1301); (1302, 1303); (1304, 1305);
   (1306, 1307); (1308, 1309); (1310, 1311); (1312, 1313); (1314, 1315); (1316, 1317);
   (1329, 1377); (1330, 1378); (1331, 1379); (1332, 1380); (1333, 1381); (1334, 1382);
   (1335, 1383); (1336, 1384); (1337, 1385); (1338, 1386); (1339, 1387); (1340, 1388);
   (1341, 1389); (1342, 1390); (1343, 1391); (1344, 1392); (1345, 1393); (1346, 1394);
   (1347, 1395); (1348, 1396); (1349, 1397); (1350, 1398); (1351, 1399); (1352, 1400);
   (1353, 1401); (1354, 1402); (1355, 1403); (1356, 1404); (1357, 1405); (1358, 1406);
   (1359, 1407); (1360, 1408); (1361, 1409); (1362, 1410); (1363, 1411); (1364, 1412);
   (1365, 1413); (1366, 1414); (4256, 11520); (4257, 11521); (4258, 11522); (4259, 11523);
   (4260, 11524); (4261, 11525); (4262, 11526); (4263, 11527); (4264, 11528); (4265, 11529);
   (4266, 11530); (4267, 11531); (4268, 11532); (4269, 11533); (4270, 11534); (4271, 11535);
   (4272, 11536); (4273, 11537); (4274, 11538); (4275, 11539); (4276, 11540); (4277, 11541);
   (4278, 11542); (4279, 11543); (4280, 11544); (4281, 11545); (4282, 11546); (4283, 11547);
   (4284, 11548); (4285, 11549); (4286, 11550); (4287, 11551); (4288, 11552); (4289, 11553);
   (4290, 11554); (4291, 11555); (4292, 11556); (4293, 11557); (7680, 7681); (7682, 7683);
   (7684, 7685); (7686, 7687); (7688, 7689); (7690, 7691); (7692, 7693); (7694, 7695);
   (7696, 7697); (7698, 7699); (7700, 7701); (7702, 7703); (7704, 7705); (7706, 7707);
   (7708, 7709); (7710, 7711); (7712, 7713); (7714, 7715); (7716, 7717); (7718, 7719);
   (7720, 7721); (7722, 7723); (7724, 7725); (7726, 7727); (7728, 7729); (7730, 7731);
   (7732, 7733); (7734, 7735); (7736, 7737); (7738, 7739); (7740, 7741); (7742, 7743);
   (7744, 7745); (7746, 7747); (7748, 7749); (7750, 7751); (7752, 7753); (7754, 7755);
   (7756, 7757); (7758, 7759); (7760, 7761); (7762, 7763); (7764, 7765); (7766, 7767);
   (7768, 7769); (7770, 7771); (7772, 7773); (7774, 7775); (7776, 7777); (7778, 7779);
   (7780, 7781); (7782, 7783); (7784, 7785); (7786, 7787); (7788, 7789); (7790, 7791);
   (7792, 7793); (7794, 7795); (7796, 7797); (7798, 7799); (7800, 7801); (7802, 7803);
   (7804, 7805); (7806, 7807); (7808, 7809); (7810, 7811); (7812, 7813); (7814, 7815);
   (7816, 7817); (7818, 7819); (7820, 7821); (7822, 7823); (7824, 7825); (7826, 7827);
   (7828, 7829); (7835, 7777); (7838, 223); (7840, 7841); (7842, 7843); (7844, 7845);
   (7846, 7847); (7848, 7849); (7850, 7851); (7852, 7853); (7854, 7855); (7856, 7857);
   (7858, 7859); (7860, 7861); (7862, 7863); (7864, 7865); (7866, 7867); (7868, 7869);
   (7870, 7871); (7872, 7873); (7874, 7875); (7876, 7877); (7878, 7879); (7880, 7881);
   (7882, 7883); (7884, 7885); (7886, 7887); (7888, 7889); (7890, 7891); (7892, 7893);
   (7894, 7895); (7896, 7897); (7898, 7899); (7900, 7901); (7902, 7903); (7904, 7905);
   (7906, 7907); (7908, 7909); (7910, 7911); (7912, 7913); (7914, 7915); (7916, 7917);
   (7918, 7919); (7920, 7921); (7922, 7923); (7924, 7925); (7926, 7927); (7928, 7929);
   (7930, 7931); (7932, 7933); (7934, 7935); (7944, 7936); (7945, 7937); (7946, 7938);
   (7947, 7939); (7948, 7940); (7949, 7941); (7950, 7942); (7951, 7943); (7960, 7952);
   (7961, 7953); (7962, 7954); (7963, 7955); (7964, 7956); (7965, 7957); (7976, 7968);
   (7977, 7969); (7978, 7970); (7979, 7971); (7980, 7972); (7981, 7973); (7982, 7974);
   (7983, 7975); (7992, 7984); (7993, 7985); (7994, 7986); (7995, 7987); (7996, 7988);
   (7997, 7989); (7998, 7990); (7999, 7991); (8008, 8000); (8009, 8001); (8010, 8002);
   (8011, 8003); (8012, 8004); (8013, 8005); (8025, 8017); (8027, 8019); (8029, 8021);
   (8031, 8023); (8040, 8032); (8041, 8033); (8042, 8034); (8043, 8035); (8044, 8036);
   (8045, 8037); (8046, 8038); (8047, 8039); (8072, 8064); (8073, 8065); (8074, 8066);
   (8075, 8067); (8076, 8068); (8077, 8069); (8078, 8070); (8079, 8071); (8088, 8080);
   (8089, 8081); (8090, 8082); (8091, 8083); (8092, 8084); (8093, 8085); (8094, 8086);
   (8095, 8087); (8104, 8096); (8105, 8097); (8106, 8098); (8107, 8099); (8108, 8100);
   (8109, 8101); (8110, 8102); (8111, 8103); (8120, 8112); (8121, 8113); (8122, 8048);
   (8123, 8049); (8124, 8115); (8126, 953); (8136, 8050); (8137, 8051); (8138, 8052);
   (8139, 8053); (8140, 8131); (8152, 8144); (8153, 8145); (8154, 8054); (8155, 8055);
   (8168, 8160); (8169, 8161); (8170, 8058); (8171, 8059); (8172, 8165); (8184, 8056);
   (8185, 8057); (8186, 8060); (8187, 8061); (8188, 8179); (8486, 969); (8490, 107); (8491, 229);
   (8498, 8526); (8544, 8560); (8545, 8561); (8546, 8562); (8547, 8563); (8548, 8564);
   (8549, 8565); (8550, 8566); (8551, 8567); (8552, 8568); (8553, 8569); (8554, 8570);
   (8555, 8571); (8556, 8572); (8557, 8573); (8558, 8574); (8559, 8575); (8579, 8580);
   (9398, 9424); (9399, 9425); (9400, 9426); (9401, 9427); (9402, 9428); (9403, 9429);
   (9404, 9430); (9405, 9431); (9406, 9432); (9407, 9433); (9408, 9434); (9409, 9435);
   (9410, 9436); (9411, 9437); (9412, 9438); (9413, 9439); (9414, 9440); (9415, 9441);
   (9416, 9442); (9417, 9443); (9418, 9444); (9419, 9445); (9420, 9446); (9421, 9447);
   (9422, 9448); (9423, 9449); (11264, 11312); (11265, 11313); (11266, 11314); (11267, 11315);
   (11268, 11316); (11269, 11317); (11270, 11318); (11271, 11319); (11272, 11320);
   (11273, 11321); (11274, 11322); (11275, 11323); (11276, 11324); (11277, 11325);
   (11278, 11326); (11279, 11327); (11280, 11328); (11281, 11329); (11282, 11330);
   (11283, 11331); (11284, 11332); (11285, 11333); (11286, 11334); (11287, 11335);
   (11288, 11336); (11289, 11337); (11290, 11338); (11291, 11339); (11292, 11340);
   (11293, 11341); (11294, 11342); (11295, 11343); (11296, 11344); (11297, 11345);
   (11298, 11346); (11299, 11347); (11300, 11348); (11301, 11349); (11302, 11350);
   (11303, 11351); (11304, 11352); (11305, 11353); (11306, 11354); (11307, 11355);
   (11308, 11356); (11309, 11357); (11310, 11358); (11360, 11361); (11362, 619); (11363, 7549);
   (11364, 637); (11367, 11368); (11369, 11370); (11371, 11372); (11373, 593); (11374, 625);
   (11375, 592); (11376, 594); (11378, 11379); (11381, 11382); (11390, 575); (11391, 576);
   (11392, 11393); (11394, 11395); (11396, 11397); (11398, 11399); (11400, 11401);
   (11402, 11403); (11404, 11405); (11406, 11407); (11408, 11409); (11410, 11411);
   (11412, 11413); (11414, 11415); (11416, 11417); (11418, 11419); (11420, 11421);
   (11422, 11423); (11424, 11425); (11426, 11427); (11428, 11429); (11430, 11431);
   (11432, 11433); (11434, 11435); (11436, 11437); (11438, 11439); (11440, 11441);
   (11442, 11443); (11444, 11445); (11446, 11447); (11448, 11449); (11450, 11451);
   (11452, 11453); (11454, 11455); (11456, 11457); (11458, 11459); (11460, 11461);
   (11462, 11463); (11464, 11465); (11466, 11467); (11468, 11469); (11470, 11471);
   (11472, 11473); (11474, 11475); (11476, 11477); (11478, 11479); (11480, 11481);
   (11482, 11483); (11484, 11485); (11486, 11487); (11488, 11489); (11490, 11491);
   (11499, 11500); (11501, 11502)].

(** [casefoldtable], whose length is [casefoldtablelen]. *)
Fixpoint unicode_init_loop (ps : list (Z * Z)) (t : list Z) : res (list Z) :=
  match ps with
  | [] => Ok t
  | (from, to) :: ps => t ← mwrite t (Z.to_nat from) to; unicode_init_loop ps t
  end.

Definition unicode_init : res (list Z) :=
  let x := default 0 (snd <$> last unicode_casefolding) in
  unicode_init_loop unicode_casefolding (repeat 0 (Z.to_nat x)).

Section collate.
Context (casefoldtable : list Z).

Definition unicode_casefold (i : Z) : Z :=
  if i <? Z.of_nat (length casefoldtable) then
    match casefoldtable !! Z.to_nat i with
    | Some r => if r =? 0 then i else r
    | None => i
    end
  else i.

(** * The order of titles *)

Fixpoint skip_the_blanks (a : list Z) : res (list Z) :=
  match a with
  | [] => Fault OobRead
  | c :: a' => if (c =? 32) || (c =? 46) then skip_the_blanks a' else Ok a
  end.

(** A character of [a] compared with a letter and its capital. *)
Definition is_letter (a : list Z) (i : nat) (lower upper : Z) : res bool :=
  c ← mread a i; Ok ((c =? lower) || (c =? upper)).

Definition no_the (ignore_the_prefix : bool) (a : list Z) : res (list Z) :=
  if negb ignore_the_prefix then Ok a
  else
    t ← is_letter a 0 116 84;
    if negb t then Ok a
    else
      h ← is_letter a 1 104 72;
      if negb h then Ok a
      else
        e ← is_letter a 2 101 69;
        if negb e then Ok a
        else skip_the_blanks (drop 3 a).

(** The digits that follow, as a [long]. *)
Fixpoint more_digits (da : Z) (a : list Z) : res (Z * list Z) :=
  match a with
  | [] => Fault OobRead
  | c :: a' =>
      if is_digit c then
        x ← chk_i64 (da * 10);
        x ← chk_i64 (x + c);
        da ← chk_i64 (x - 48);
        more_digits da a'
      else Ok (da, a)
  end.

Fixpoint dictcmp_loop (fuel : nat) (a b : list Z) : res Z :=
  match fuel with
  | O => Fault NoFuel
  | S fuel =>
      x ← utf8_get a;
      y ← utf8_get b;
      let '(ua, a) := x in
      let '(ub, b) := y in
      match is_digit ua, is_digit ub with
      | false, false =>
          if ua =? ub then if ua =? 0 then Ok 0 else dictcmp_loop fuel a b
          else
            let ua := unicode_casefold ua in
            let ub := unicode_casefold ub in
            if negb (ua =? ub) then chk_int (ua - ub)
            else if ua =? 0 then Ok 0 else dictcmp_loop fuel a b
      | true, false | false, true => chk_int (ua - ub)
      | true, true =>
          x ← more_digits (ua - 48) a;
          y ← more_digits (ub - 48) b;
          let '(da, a) := x in
          let '(db, b) := y in
          if negb (da =? db) then d ← chk_i64 (da - db); Ok (s32 d)
          else dictcmp_loop fuel a b
      end
  end.

(** Every round reads a character of both strings. *)
Definition dictcmp (ignore_the_prefix : bool) (a b : list Z) : res Z :=
  a ← no_the ignore_the_prefix a;
  b ← no_the ignore_the_prefix b;
  dictcmp_loop (S (length a)) a b.

(** * Searching *)

(** The inner loop of [mystrstr]: whether the rest [n1] of the needle is at
    [h1], and the last character [n] it read. *)
Fixpoint mystrstr_match (fuel : nat) (n1 h1 : list Z) : res (bool * Z) :=
  match fuel with
  | O => Fault NoFuel
  | S fuel =>
      x ← utf8_get n1;
      let '(c, n1) := x in
      let n := unicode_casefold c in
      if n =? 0 then Ok (true, n)
      else
        y ← utf8_get h1;
        let '(c, h1) := y in
        let h := unicode_casefold c in
        if negb (n =? h) then Ok (false, n)
        else mystrstr_match fuel n1 h1
  end.

(** The position found, or [None] for [NULL].  The comparison of the rest of the
    needle leaves its last character in [n]. *)
Fixpoint mystrstr_loop (fuel : nat) (n : Z) (haystack needle : list Z) : res (option (list Z)) :=
  match fuel with
  | O => Fault NoFuel
  | S fuel =>
      let r := haystack in
      x ← utf8_get haystack;
      let '(c, haystack) := x in
      let h := unicode_casefold c in
      if h =? 0 then Ok None
      else if n =? h then
        m ← mystrstr_match (S (length needle)) needle haystack;
        let '(found, n) := m in
        if (found : bool) then Ok (Some r) else mystrstr_loop fuel n haystack needle
      else mystrstr_loop fuel n haystack needle
  end.

Definition mystrstr (haystack needle : list Z) : res (option (list Z)) :=
  x ← utf8_get needle;
  let '(c, needle) := x in
  mystrstr_loop (S (length haystack)) (unicode_casefold c) haystack needle.
End collate.

(** * The table *)

(** What a case folding has to satisfy for the order to be one: it keeps the
    characters below and above the digits apart and never gives zero. *)
Definition fold_class (c r : Z) : bool :=
  if c <? 48 then (0 <? r) && (r <? 48) else if c <=? 57 then r =? c else 57 <? r.

(** The pairs: sorted by the character they fold, within the table. *)
Fixpoint pairs_ok (n prev : Z) (ps : list (Z * Z)) : bool :=
  match ps with
  | [] => true
  | (from, to) :: ps =>
      (prev <? from) && (from <? n) && fold_class from to && (to <=? 65535) && pairs_ok n from ps
  end.

Definition table_len : Z := default 0 (snd <$> last unicode_casefolding).

Lemma table_pairs_ok : pairs_ok table_len 0 unicode_casefolding = true.
Proof. vm_compute. reflexivity. Qed.

Lemma pairs_ok_in n prev ps from to : pairs_ok n prev ps = true -> (from, to) ∈ ps ->
  prev < from < n /\ fold_class from to = true /\ to <= 65535.
Proof.
  revert prev. induction ps as [|[f t] ps IH]; intros prev H Hin; [by apply elem_of_nil in Hin|].
  cbn [pairs_ok] in H. rewrite !andb_true_iff in H. destruct H as ((((H1 & H2) & H3) & H4) & H5).
  apply Z.ltb_lt in H1, H2. apply Z.leb_le in H4.
  apply elem_of_cons in Hin as [[= -> ->]|Hin]; [done|]. destruct (IH f H5 Hin) as (? & ? & ?).
  split_and!; [lia..|done|done].
Qed.

(** The table that results: the characters of the pairs are set. *)
Lemma init_loop_spec n ps : forall prev t, pairs_ok n prev ps = true -> 0 <= prev -> n = Z.of_nat (length t) ->
  exists t', unicode_init_loop ps t = Ok t' /\ length t' = length t /\
    (forall from to, (from, to) ∈ ps -> t' !! Z.to_nat from = Some to) /\
    (forall c, 0 <= c -> (forall to, (c, to) ∉ ps) -> t' !! Z.to_nat c = t !! Z.to_nat c).
Proof.
  induction ps as [|[f to] ps IH]; intros prev t H Hp Hn; cbn [unicode_init_loop].
  { exists t. split_and!; [done..|set_solver|done]. }
  pose proof H as H0. cbn [pairs_ok] in H. rewrite !andb_true_iff in H. destruct H as ((((H1 & H2) & H3) & H4) & H5).
  apply Z.ltb_lt in H1, H2. rewrite mwrite_Ok by lia. rewrite ok_bind.
  destruct (IH f (<[Z.to_nat f := to]> t) H5 ltac:(lia)) as (t' & -> & Hl & Hin & Hout); [by rewrite length_insert|].
  rewrite length_insert in Hl. exists t'. split_and!; [done..| |].
  - intros from to' [[= -> ->]|Hin']%elem_of_cons; [|by apply Hin].
    rewrite Hout; [|lia|].
    + apply list_lookup_insert_eq. lia.
    + intros to' Hin'. pose proof (pairs_ok_in _ _ _ _ _ H5 Hin'). lia.
  - intros c Hc Hno. rewrite Hout; [|done|intros to' Hin'; apply (Hno to'); by right].
    apply list_lookup_insert_ne. intros E. apply (Hno to). assert (c = f) as -> by lia. by left.
Qed.

Lemma init_spec : exists t, unicode_init = Ok t /\
  (forall from to, (from, to) ∈ unicode_casefolding -> unicode_casefold t from = to) /\
  (forall c, 0 <= c -> (forall to, (c, to) ∉ unicode_casefolding) -> unicode_casefold t c = c).
Proof.
  destruct (init_loop_spec table_len unicode_casefolding 0 (repeat 0 (Z.to_nat table_len)) table_pairs_ok ltac:(lia))
    as (t & E & Hl & Hin & Hout).
  { rewrite repeat_length, Z2Nat.id; [done|]. vm_compute. discriminate. }
  exists t. split; [exact E|]. rewrite repeat_length in Hl. split.
  - intros from to H. destruct (pairs_ok_in _ _ _ _ _ table_pairs_ok H) as (Hf & Hc & _).
    unfold unicode_casefold. rewrite (Hin _ _ H), Hl, (proj2 (Z.ltb_lt _ _)) by lia.
    assert (to <> 0); [|by rewrite (proj2 (Z.eqb_neq to 0))]. intros ->. unfold fold_class in Hc.
    destruct (Z.ltb_spec from 48); [done|]. destruct (Z.leb_spec from 57); [apply Z.eqb_eq in Hc; lia|done].
  - intros c Hc Hno. unfold unicode_casefold. destruct (_ <? _); [|done]. rewrite (Hout c Hc Hno).
    destruct (repeat 0 (Z.to_nat table_len) !! Z.to_nat c) as [r|] eqn:Er; [|done].
    apply list_elem_of_lookup_2, list_elem_of_In, repeat_spec in Er. by subst.
Qed.

(** * The order as keys *)

Section order.
Context (t : list Z).

Definition folds : Prop :=
  (forall from to, (from, to) ∈ unicode_casefolding -> unicode_casefold t from = to) /\
  (forall c, 0 <= c -> (forall to, (c, to) ∉ unicode_casefolding) -> unicode_casefold t c = c).

Lemma folds_class c : folds -> 0 < c <= int_max ->
  fold_class c (unicode_casefold t c) = true /\ 0 < unicode_casefold t c <= int_max.
Proof.
  intros [Hin Hout] Hc.
  assert (fold_class c (unicode_casefold t c) = true /\ unicode_casefold t c <= int_max) as [H1 H2].
  { destruct (decide (c ∈ map fst unicode_casefolding)) as [(p & -> & Hp)%list_elem_of_fmap|Hno].
    - destruct p as [from to]. cbn [fst] in *. rewrite (Hin _ _ Hp). destruct (pairs_ok_in _ _ _ _ _ table_pairs_ok Hp) as (? & ? & ?).
      split; [done|ilia].
    - rewrite Hout; [|lia|intros to Hp; apply Hno, list_elem_of_fmap; by exists (c, to)].
      split; [|lia]. unfold fold_class. destruct (Z.ltb_spec c 48); [|destruct (Z.leb_spec c 57)].
      + rewrite andb_true_r. apply Z.ltb_lt. lia.
      + apply Z.eqb_refl.
      + apply Z.ltb_lt. lia. }
  split; [done|]. split; [|done]. unfold fold_class in H1.
  destruct (Z.ltb_spec c 48); [|destruct (Z.leb_spec c 57)].
  - by apply andb_true_iff in H1 as [?%Z.ltb_lt _].
  - apply Z.eqb_eq in H1. lia.
  - apply Z.ltb_lt in H1. lia.
Qed.

Lemma folds_zero : folds -> unicode_casefold t 0 = 0.
Proof.
  intros [_ Hout]. apply Hout; [done|]. intros to Hp.
  destruct (pairs_ok_in _ _ _ _ _ table_pairs_ok Hp). lia.
Qed.

(** The key of a text: its folded characters, with every run of digits replaced
    by its value; [acc] is the value of the digits just read. *)
Fixpoint keys (acc : option Z) (cs : list Z) : list (Z * Z) :=
  match cs with
  | [] => match acc with Some v => [(48, v)] | None => [] end
  | c :: cs =>
      if is_digit c then keys (Some (default 0 acc * 10 + (c - 48))) cs
      else match acc with Some v => [(48, v)] | None => [] end ++ (unicode_casefold t c, 0) :: keys None cs
  end.

Fixpoint lex (x y : list (Z * Z)) : comparison :=
  match x, y with
  | [], [] => Eq
  | [], _ :: _ => Lt
  | _ :: _, [] => Gt
  | (a, b) :: x, (c, d) :: y =>
      match a ?= c with
      | Eq => match b ?= d with Eq => lex x y | r => r end
      | r => r
      end
  end.

(** No number is too large for the difference to fit an [int]. *)
Definition nums_ok (ks : list (Z * Z)) : Prop := Forall (fun k => k.2 <= int_max) ks.

Lemma get_digit x s c s' : utf8_get (x :: s) = Ok (c, s') ->
  is_digit x = is_digit c /\ (is_digit c = true -> x = c /\ s' = s).
Proof.
  cbn [utf8_get]. destruct ((0 <=? x) && (x <=? 127)) eqn:Ex; [by intros [= -> ->]|].
  assert (is_digit x = false) as ->.
  { apply is_digit_false. apply andb_false_iff in Ex as [?%Z.leb_gt|?%Z.leb_gt]; lia. }
  intros H. assert (is_digit c = false) as ->; [|by split].
  destruct (utf8_lead x) as [[[r l] m]|] eqn:El; [|by injection H as <- <-].
  apply bind_Ok in H as ([o s1] & _ & H). destruct o as [v|]; [|by injection H as <- <-].
  destruct (Z.ltb_spec v m); injection H as <- <-; [done|].
  apply is_digit_false. enough (128 <= m) by lia. clear - El. unfold utf8_lead in El.
  repeat case_match; simplify_eq; lia.
Qed.

Lemma reads_head rest s c cs : reads rest s (c :: cs) -> exists x s0 s',
  s = x :: s0 /\ utf8_get (x :: s0 ++ 0 :: rest) = Ok (c, s' ++ 0 :: rest) /\ reads rest s' cs /\
  0 < c <= int_max /\ is_digit x = is_digit c /\ (is_digit c = true -> x = c /\ s' = s0).
Proof.
  intros H. inversion H as [|? ? s' ? E Hne Hsuf Hc Hr]; subst. destruct s as [|x s]; [done|].
  destruct (get_digit x (s ++ 0 :: rest) c _ E) as [Hd He]. destruct Hc as [Hc1 Hc2]. exists x, s, s'. split_and!; [done..|].
  intros Hdc. destruct (He Hdc) as [-> E']. split; [done|]. by apply app_inv_tail in E'.
Qed.

Lemma more_digits_reads rest cs : forall v s, reads rest s cs -> 0 <= v -> nums_ok (keys (Some v) cs) ->
  exists n s' cs', more_digits v (s ++ 0 :: rest) = Ok (n, s' ++ 0 :: rest) /\ reads rest s' cs' /\
    keys (Some v) cs = (48, n) :: keys None cs' /\ (length cs' <= length cs)%nat /\ v <= n <= int_max.
Proof.
  induction cs as [|c cs IH]; intros v s Hs Hv Hn.
  - inversion Hs; subst. exists v, [], []. split_and!; [done..|]. by apply Forall_cons in Hn as [? _].
  - pose proof Hs as Hs0. apply reads_head in Hs as (x & s0 & s' & -> & E & Hs' & Hc & Hd & He).
    cbn [app more_digits keys] in *. rewrite Hd. destruct (is_digit c) eqn:Edc.
    + destruct (He eq_refl) as [-> ->]. apply is_digit_spec in Edc. cbn [default from_option] in *.
      destruct (IH (v * 10 + (c - 48)) s0 Hs' ltac:(lia) Hn) as (n & s1 & cs1 & E1 & H1 & H2 & H3 & H4).
      rewrite (chk_i64_Ok (v * 10)), ok_bind by (unfold i64_min, i64_max; ilia).
      rewrite (chk_i64_Ok (v * 10 + c)), ok_bind by (unfold i64_min, i64_max; ilia).
      rewrite chk_i64_Ok, ok_bind by (unfold i64_min, i64_max; ilia).
      replace (v * 10 + c - 48) with (v * 10 + (c - 48)) by lia.
      exists n, s1, cs1. split_and!; [done..|simpl; lia|lia|lia].
    + exists v, (x :: s0), (c :: cs). split_and!; [done..| |done| |].
      * cbn [keys]. by rewrite Edc.
      * done.
      * by apply Forall_cons in Hn as [? _].
Qed.

Lemma keys_cons_num c cs : is_digit c = true -> exists n ks, keys None (c :: cs) = (48, n) :: ks.
Proof.
  intros Hd. cbn [keys default from_option]. rewrite Hd. generalize (0 * 10 + (c - 48)) as v.
  induction cs as [|d cs IH]; intros v; cbn [keys]; [by eexists _, _|].
  destruct (is_digit d); [apply IH|by eexists _, _].
Qed.

Lemma keys_cons_char c cs : is_digit c = false ->
  keys None (c :: cs) = (unicode_casefold t c, 0) :: keys None cs.
Proof. intros Hd. cbn [keys]. by rewrite Hd. Qed.

(** A character that is no digit, against the key of a number. *)
Lemma char_class c : folds -> 0 < c <= int_max -> is_digit c = false ->
  (c < 48 /\ 0 < unicode_casefold t c < 48) \/ (57 < c /\ 57 < unicode_casefold t c <= int_max).
Proof.
  intros Hf Hc Hd. destruct (folds_class c Hf Hc) as [H1 H2]. unfold fold_class in H1.
  assert (c < 48 \/ 57 < c).
  { destruct (Z.lt_ge_cases c 48); [by left|]. right. destruct (Z.lt_ge_cases 57 c); [done|].
    rewrite (proj2 (is_digit_spec c)) in Hd by lia. done. }
  destruct (Z.ltb_spec c 48); [left; apply andb_true_iff in H1 as [_ ?%Z.ltb_lt]; lia|].
  destruct (Z.leb_spec c 57); [lia|]. right. apply Z.ltb_lt in H1. lia.
Qed.

Lemma sign_lt v : v < 0 -> (v ?= 0) = Lt.
Proof. apply Z.compare_lt_iff. Qed.
Lemma sign_gt v : 0 < v -> (v ?= 0) = Gt.
Proof. intros H. apply Z.compare_gt_iff. lia. Qed.

Lemma lex_cons_eq k x y : lex (k :: x) (k :: y) = lex x y.
Proof. destruct k as [a b]. cbn [lex]. by rewrite !Z.compare_refl. Qed.

(** The result of one round, by the kinds of the two characters; [d] is 0 at the
    end of a string. *)
Definition head_key (d : Z) (cs : list Z) : list (Z * Z) := if d =? 0 then [] else keys None (d :: cs).

Lemma num_char_sign c ca d cb : folds -> 0 <= d <= int_max -> is_digit c = true -> is_digit d = false ->
  exists v w, chk_int (c - d) = Ok v /\ chk_int (d - c) = Ok w /\
    (v ?= 0) = lex (keys None (c :: ca)) (head_key d cb) /\
    (w ?= 0) = lex (head_key d cb) (keys None (c :: ca)) /\ int_min < v <= int_max /\ int_min < w <= int_max.
Proof.
  intros Hf Hd Hc Hdd. pose proof Hc as Hc'%is_digit_spec.
  rewrite !chk_int_Ok by ilia. eexists _, _. split_and!; [done|done|..|ilia|ilia|ilia|ilia];
    destruct (keys_cons_num c ca Hc) as (n & ks & ->); unfold head_key;
    destruct (Z.eqb_spec d 0) as [->|H0]; try (apply sign_gt; lia); try (apply sign_lt; lia);
    rewrite keys_cons_char by done; cbn [lex];
    (destruct (char_class d Hf ltac:(lia) Hdd) as [[H1 H2]|[H1 H2]];
     [rewrite ?(proj2 (Z.compare_gt_iff 48 _)), ?(proj2 (Z.compare_lt_iff _ 48)) by lia
     |rewrite ?(proj2 (Z.compare_lt_iff 48 _)), ?(proj2 (Z.compare_gt_iff _ 48)) by lia]);
    apply sign_gt || apply sign_lt; lia.
Qed.

Lemma chars_sign c ca d cb : folds -> 0 <= c <= int_max -> 0 <= d <= int_max ->
  is_digit c = false -> is_digit d = false -> unicode_casefold t c <> unicode_casefold t d ->
  exists v, chk_int (unicode_casefold t c - unicode_casefold t d) = Ok v /\
    (v ?= 0) = lex (head_key c ca) (head_key d cb) /\ int_min < v <= int_max.
Proof.
  intros Hf Hc Hd Hcc Hdd Hne.
  assert (forall e, 0 <= e <= int_max -> 0 <= unicode_casefold t e <= int_max /\ (e <> 0 -> unicode_casefold t e <> 0)) as Hr.
  { intros e He. destruct (Z.eq_dec e 0) as [->|]; [rewrite folds_zero by done; ilia|].
    destruct (folds_class e Hf ltac:(lia)). lia. }
  destruct (Hr c Hc) as [Rc Zc]. destruct (Hr d Hd) as [Rd Zd]. rewrite chk_int_Ok by ilia. eexists. split; [done|]. split; [|ilia].
  rewrite <- Z.compare_sub. unfold head_key. destruct (Z.eqb_spec c 0) as [->|Hc0], (Z.eqb_spec d 0) as [->|Hd0];
    rewrite ?folds_zero in * by done; rewrite ?keys_cons_char by done; cbn [lex].
  - done.
  - apply Z.compare_lt_iff. specialize (Zd Hd0). lia.
  - apply Z.compare_gt_iff. specialize (Zc Hc0). lia.
  - destruct (Z.compare_spec (unicode_casefold t c) (unicode_casefold t d)); done.
Qed.

Lemma fold_zero_iff c d : folds -> 0 <= c <= int_max -> 0 <= d <= int_max ->
  unicode_casefold t c = unicode_casefold t d -> c = 0 <-> d = 0.
Proof.
  intros Hf Hc Hd E. pose proof (folds_zero Hf).
  destruct (Z.eq_dec c 0) as [->|C0], (Z.eq_dec d 0) as [->|D0]; try done.
  - destruct (folds_class d Hf ltac:(lia)). lia.
  - destruct (folds_class c Hf ltac:(lia)). lia.
Qed.

Lemma reads_first rest s cs : reads rest s cs -> exists u p cs',
  utf8_get (s ++ 0 :: rest) = Ok (u, p) /\ 0 <= u <= int_max /\ keys None cs = head_key u cs' /\
  (u = 0 \/ (cs = u :: cs' /\ exists s', p = s' ++ 0 :: rest /\ reads rest s' cs')).
Proof.
  intros H. destruct cs as [|c cs].
  - inversion H; subst. exists 0, rest, []. split_and!; [done|done|ilia|done|by left].
  - apply reads_head in H as (x & s0 & s' & -> & E & Hs' & Hc & _). exists c, (s' ++ 0 :: rest), cs.
    split_and!; [done|lia|lia| |right; eauto]. unfold head_key. by rewrite (proj2 (Z.eqb_neq c 0)) by lia.
Qed.

Lemma dictcmp_loop_sign ra rb (Hf : folds) fuel : forall a b ca cb,
  reads ra a ca -> reads rb b cb -> nums_ok (keys None ca) -> nums_ok (keys None cb) ->
  (length ca < fuel)%nat ->
  exists v, dictcmp_loop t fuel (a ++ 0 :: ra) (b ++ 0 :: rb) = Ok v /\
    (v ?= 0) = lex (keys None ca) (keys None cb) /\ int_min < v <= int_max.
Proof.
  induction fuel as [|fuel IH]; intros a b ca cb Ha Hb Na Nb Hl; [lia|]. cbn [dictcmp_loop].
  destruct (reads_first _ _ _ Ha) as (c & p & ca' & -> & Hc & Ka & Ca).
  destruct (reads_first _ _ _ Hb) as (d & q & cb' & -> & Hd & Kb & Cb). rewrite !ok_bind. cbn iota beta.
  destruct (is_digit c) eqn:Ec, (is_digit d) eqn:Ed.
  - assert (c <> 0 /\ d <> 0) as [C0 D0] by (split; intros ->; done).
    destruct Ca as [|(-> & a' & -> & Ha')]; [done|]. destruct Cb as [|(-> & b' & -> & Hb')]; [done|].
    apply is_digit_spec in Ec as Hc'. apply is_digit_spec in Ed as Hd'.
    cbn [keys default from_option] in *. rewrite Ec, Ed, !Z.mul_0_l, !Z.add_0_l in *.
    destruct (more_digits_reads ra ca' (c - 48) a' Ha' ltac:(lia) Na) as (n & a2 & ca2 & -> & Ha2 & EKa & La & Ln).
    destruct (more_digits_reads rb cb' (d - 48) b' Hb' ltac:(lia) Nb) as (m & b2 & cb2 & -> & Hb2 & EKb & Lb & Lm).
    rewrite EKa, EKb in *. rewrite !ok_bind. cbn iota beta. apply Forall_cons in Na as [_ Na]. apply Forall_cons in Nb as [_ Nb].
    destruct (Z.eqb_spec n m) as [->|Hnm]; cbn [negb].
    + rewrite lex_cons_eq. apply IH; try done. simpl in Hl. lia.
    + rewrite chk_i64_Ok, ok_bind, s32_id by (unfold i64_min, i64_max; ilia). eexists. split; [done|]. split; [|ilia].
      rewrite <- Z.compare_sub. cbn [lex]. rewrite Z.compare_refl.
      destruct (Z.compare_spec n m); done.
  - destruct Ca as [->|(-> & _)]; [done|]. rewrite Kb.
    destruct (num_char_sign c ca' d cb' Hf Hd Ec Ed) as (v & w & -> & _ & Hv & _ & Hm & _). eauto.
  - destruct Cb as [->|(-> & _)]; [done|]. rewrite Ka.
    destruct (num_char_sign d cb' c ca' Hf Hc Ed Ec) as (v & w & _ & -> & _ & Hw & _ & Hm). eauto.
  - destruct (Z.eq_dec (unicode_casefold t c) (unicode_casefold t d)) as [Efold|Efold].
    + assert (c = 0 <-> d = 0) as H0 by by apply fold_zero_iff.
      destruct Ca as [->|(-> & a' & -> & Ha')].
      { destruct H0 as [H0 _]. rewrite (H0 eq_refl) in *. exists 0. split; [done|]. split; [by rewrite Ka, Kb|done]. }
      destruct Cb as [->|(-> & b' & -> & Hb')].
      { destruct H0 as [_ H0]. rewrite (H0 eq_refl) in *. apply reads_range in Ha. apply Forall_cons in Ha as [Ha _]. lia. }
      apply reads_range in Ha. apply Forall_cons in Ha as [Hc0 _].
      pose proof (folds_class c Hf Hc0) as [_ Fc].
      rewrite !keys_cons_char, Efold, lex_cons_eq in * by done.
      destruct (IH a' b' ca' cb' Ha' Hb') as (v & E & Hv); [by apply Forall_cons in Na as [_ ?]|by apply Forall_cons in Nb as [_ ?]|simpl in Hl; lia|].
      exists v. split; [|done]. rewrite Z.eqb_refl, (proj2 (Z.eqb_neq c 0)), (proj2 (Z.eqb_neq (unicode_casefold t d) 0)) by lia.
      cbn [negb]. by destruct (c =? d).
    + rewrite Ka, Kb. rewrite (proj2 (Z.eqb_neq c d)) by congruence.
      rewrite (proj2 (Z.eqb_neq _ _) Efold). cbn [negb]. by apply chars_sign.
Qed.
End order.

Lemma lex_opp x : forall y, lex y x = CompOpp (lex x y).
Proof.
  induction x as [|[a b] x IH]; intros [|[c d] y]; cbn [lex]; [done..|].
  rewrite (Z.compare_antisym a c), (Z.compare_antisym b d). destruct (a ?= c); [|done..].
  cbn [CompOpp]. destruct (b ?= d); [|done..]. apply IH.
Qed.

Lemma lex_refl x : lex x x = Eq.
Proof. induction x as [|k x IH]; [done|]. by rewrite lex_cons_eq. Qed.

Lemma lex_le_trans x : forall y z, lex x y <> Gt -> lex y z <> Gt -> lex x z <> Gt.
Proof.
  induction x as [|[a b] x IH]; intros [|[c d] y] [|[e f] z]; cbn [lex]; try done.
  destruct (Z.compare_spec a c) as [->|Hac|Hac], (Z.compare_spec c e) as [->|Hce|Hce]; try done;
    repeat match goal with |- context [?u ?= ?v] =>
      destruct (Z.compare_spec u v) as [?|?|?]; subst; try done; try lia end; eauto.
Qed.

(** * [no_the] *)

Fixpoint drop_blanks (a : list Z) : list Z :=
  match a with
  | c :: a' => if (c =? 32) || (c =? 46) then drop_blanks a' else a
  | [] => []
  end.

Definition letter (c lower upper : Z) : bool := (c =? lower) || (c =? upper).

(** The title without the article, and the blanks and dots behind it. *)
Definition skip_the (ignore : bool) (a : list Z) : list Z :=
  match a with
  | c0 :: c1 :: c2 :: r =>
      if ignore && letter c0 116 84 && letter c1 104 72 && letter c2 101 69 then drop_blanks r else a
  | _ => a
  end.

Lemma skip_blanks_ok a r : skip_the_blanks (a ++ 0 :: r) = Ok (drop_blanks a ++ 0 :: r).
Proof.
  induction a as [|c a IH]; [done|]. cbn [app skip_the_blanks drop_blanks]. by destruct (_ || _).
Qed.

Lemma no_the_ok ignore a r : no_the ignore (a ++ 0 :: r) = Ok (skip_the ignore a ++ 0 :: r).
Proof.
  unfold no_the. destruct ignore; cbn [negb andb]; [|by destruct a as [|? [|? [|? ?]]]].
  destruct a as [|c0 a]; [done|]. unfold is_letter, mread. cbn [app lookup list_lookup]. rewrite !ok_bind.
  unfold skip_the, letter. destruct ((c0 =? 116) || (c0 =? 84)) eqn:E0; cbn [negb andb];
    [|by destruct a as [|? [|? ?]]].
  destruct a as [|c1 a]; [done|]. cbn [app lookup list_lookup]. rewrite !ok_bind.
  destruct ((c1 =? 104) || (c1 =? 72)) eqn:E1; cbn [negb andb]; [|by destruct a].
  destruct a as [|c2 a]; [done|]. cbn [app lookup list_lookup]. rewrite !ok_bind.
  destruct ((c2 =? 101) || (c2 =? 69)) eqn:E2; cbn [negb andb]; [|done].
  cbn [drop]. apply skip_blanks_ok.
Qed.

Lemma reads_ascii_lit rest cs : bool_decide (Forall (fun c => 0 < c < 128) cs) = true -> reads rest cs cs.
Proof.
  intros Hcs%bool_decide_eq_true.
  assert (put_all cs = cs) as E.
  { clear rest. induction Hcs as [|c cs Hc _ IH]; [done|]. change (put_all (c :: cs)) with (utf8_put c ++ put_all cs).
    rewrite IH. unfold utf8_put. rewrite (proj2 (Z.eqb_neq c 65534)), (proj2 (Z.eqb_neq c 65535)) by lia.
    rewrite (proj2 (Z.leb_gt 55296 c)) by lia. cbn [orb andb]. rewrite (proj2 (Z.ltb_lt c 128)) by lia.
    by rewrite u8_id by (unfold is_byte; lia). }
  rewrite <- E at 1. apply reads_put_all. eapply Forall_impl; [exact Hcs|]. unfold cp_ok. intros c Hc. simpl in Hc. ilia.
Qed.

(** * Properties *)

(** The table of case foldings is built within its bounds, and folding is
    the one of the table: a character of the table becomes its pair's other
    half, any other character stays. *)
Theorem unicode_init_spec : exists t, unicode_init = Ok t /\ folds t.
Proof. exact init_spec. Qed.

(** A title whose numbers fit an [int], with its key. *)
Definition title_key (t : list Z) (ignore : bool) (a : list Z) (k : list (Z * Z)) : Prop :=
  exists cs, reads [] (skip_the ignore a) cs /\ k = keys t None cs /\ nums_ok k.

Lemma dictcmp_keys t ignore a b ka kb : folds t ->
  title_key t ignore a ka -> title_key t ignore b kb ->
  exists v, dictcmp t ignore (a ++ [0]) (b ++ [0]) = Ok v /\ (v ?= 0) = lex ka kb /\ int_min < v <= int_max.
Proof.
  intros Hf (ca & Ha & -> & Na) (cb & Hb & -> & Nb). unfold dictcmp. rewrite !no_the_ok, !ok_bind.
  apply dictcmp_loop_sign; try done. apply reads_length in Ha. rewrite length_app. simpl. lia.
Qed.

Lemma init_folds t : unicode_init = Ok t -> folds t.
Proof. intros E. destruct init_spec as (t' & E' & Hf). rewrite E in E'. by injection E' as <-. Qed.

(** C37: for titles whose numbers fit an [int], [dictcmp] compares keys: the
    titles without the article, when it is to be ignored, their characters
    folded and their numbers by value.  The order is the lexicographic one with
    numbers in the place of the digits, so it is one a sort can use: exchanging
    the titles changes the sign, it is transitive, and a title equals itself. *)
Theorem dictcmp_order (t : list Z) (ignore : bool) (a b c : list Z) (ka kb kc : list (Z * Z)) :
  unicode_init = Ok t ->
  title_key t ignore a ka -> title_key t ignore b kb -> title_key t ignore c kc ->
  exists ab ba bc ac,
    dictcmp t ignore (a ++ [0]) (b ++ [0]) = Ok ab /\ dictcmp t ignore (b ++ [0]) (a ++ [0]) = Ok ba /\
    dictcmp t ignore (b ++ [0]) (c ++ [0]) = Ok bc /\ dictcmp t ignore (a ++ [0]) (c ++ [0]) = Ok ac /\
    (ab ?= 0) = lex ka kb /\ (ba ?= 0) = CompOpp (ab ?= 0) /\
    (ab <= 0 -> bc <= 0 -> ac <= 0) /\ dictcmp t ignore (a ++ [0]) (a ++ [0]) = Ok 0.
Proof.
  intros Ht%init_folds Ha Hb Hc.
  destruct (dictcmp_keys t ignore a b ka kb Ht Ha Hb) as (ab & Eab & Sab & _).
  destruct (dictcmp_keys t ignore b a kb ka Ht Hb Ha) as (ba & Eba & Sba & _).
  destruct (dictcmp_keys t ignore b c kb kc Ht Hb Hc) as (bc & Ebc & Sbc & _).
  destruct (dictcmp_keys t ignore a c ka kc Ht Ha Hc) as (ac & Eac & Sac & _).
  destruct (dictcmp_keys t ignore a a ka ka Ht Ha Ha) as (aa & Eaa & Saa & _).
  exists ab, ba, bc, ac. split_and!; [done..| | |].
  - by rewrite Sab, Sba, lex_opp.
  - unfold Z.le. rewrite Sab, Sbc, Sac. apply lex_le_trans.
  - rewrite lex_refl in Saa. apply Z.compare_eq in Saa. by subst.
Qed.

Lemma dictcmp_order_witness :
  exists t ab ba, unicode_init = Ok t /\
    dictcmp t true (lit "The X2" ++ [0]) (lit "x10" ++ [0]) = Ok ab /\
    dictcmp t true (lit "x10" ++ [0]) (lit "The X2" ++ [0]) = Ok ba /\ (ba ?= 0) = CompOpp (ab ?= 0).
Proof.
  destruct init_spec as (t & Ht & _).
  assert (title_key t true (lit "The X2") (keys t None (lit "X2"))) as H1.
  { exists (lit "X2"). split_and!; [by apply reads_ascii_lit|done|]. change (lit "X2") with [88; 50]. cbn. repeat (apply Forall_cons_2; [simpl; ilia|]). constructor. }
  assert (title_key t true (lit "x10") (keys t None (lit "x10"))) as H2.
  { exists (lit "x10"). split_and!; [by apply reads_ascii_lit|done|]. change (lit "x10") with [120; 49; 48]. cbn. repeat (apply Forall_cons_2; [simpl; ilia|]). constructor. }
  destruct (dictcmp_order t true (lit "The X2") (lit "x10") (lit "x10") _ _ _ Ht H1 H2 H2)
    as (ab & ba & bc & ac & E1 & E2 & _ & _ & _ & E & _).
  exists t, ab, ba. auto.
Defined.

(** ** Searching *)

Section search.
Context (t : list Z) (Hf : folds t) (rh rn : list Z).
Abbreviation fold := (unicode_casefold t).

Lemma fold_pos c : 0 < c <= int_max -> fold c <> 0.
Proof. intros Hc. destruct (folds_class t c Hf Hc). lia. Qed.

Lemma match_prefix cn : forall fuel n1 h1 ch,
  reads rn n1 cn -> reads rh h1 ch -> map fold cn `prefix_of` map fold ch -> (length cn < fuel)%nat ->
  mystrstr_match t fuel (n1 ++ 0 :: rn) (h1 ++ 0 :: rh) = Ok (true, 0).
Proof.
  induction cn as [|n cn IH]; intros fuel n1 h1 ch Hn Hh Hp Hl; (destruct fuel as [|fuel]; [simpl in Hl; lia|]);
    cbn [mystrstr_match].
  { inversion Hn; subst. change (utf8_get ([] ++ 0 :: rn)) with (Ok (0, rn)). rewrite ok_bind. cbn iota beta. by rewrite (folds_zero t Hf). }
  destruct ch as [|h ch]; [by apply prefix_nil_inv in Hp|]. cbn [map] in Hp.
  pose proof (prefix_cons_inv_1 _ _ _ _ Hp) as E. apply prefix_cons_inv_2 in Hp.
  apply reads_head in Hn as (x & s0 & n2 & -> & En & Hn2 & Hc & _).
  apply reads_head in Hh as (y & s1 & h2 & -> & Eh & Hh2 & _). cbn [app]. rewrite En, Eh, !ok_bind. cbn iota beta.
  rewrite (proj2 (Z.eqb_neq (fold n) 0)) by by apply fold_pos.
  rewrite E, Z.eqb_refl. cbn [negb]. apply (IH _ _ _ ch); try done. simpl in Hl. lia.
Qed.

(** The search ends, within the two strings. *)
Lemma match_ends cn : forall fuel n1 h1 ch, reads rn n1 cn -> reads rh h1 ch -> (length cn < fuel)%nat ->
  exists r, mystrstr_match t fuel (n1 ++ 0 :: rn) (h1 ++ 0 :: rh) = Ok r.
Proof.
  induction cn as [|n cn IH]; intros fuel n1 h1 ch Hn Hh Hl; (destruct fuel as [|fuel]; [simpl in Hl; lia|]); cbn [mystrstr_match].
  { inversion Hn; subst. change (utf8_get ([] ++ 0 :: rn)) with (Ok (0, rn)). rewrite ok_bind. cbn iota beta. rewrite (folds_zero t Hf). by eexists. }
  apply reads_head in Hn as (x & s0 & n2 & -> & En & Hn2 & Hc & _). cbn [app]. rewrite En, ok_bind. cbn iota beta.
  destruct (fold n =? 0); [by eexists|]. destruct ch as [|h ch].
  - inversion Hh; subst. change (utf8_get ([] ++ 0 :: rh)) with (Ok (0, rh)). rewrite ok_bind. cbn iota beta. rewrite (folds_zero t Hf).
    rewrite (proj2 (Z.eqb_neq (fold n) 0)) by by apply fold_pos. by eexists.
  - apply reads_head in Hh as (y & s1 & h2 & -> & Eh & Hh2 & _). cbn [app]. rewrite Eh, ok_bind. cbn iota beta.
    destruct (negb (fold n =? fold h)); [by eexists|]. apply (IH _ _ _ ch); try done. simpl in Hl. lia.
Qed.

Lemma loop_ends needle cn : reads rn needle cn -> forall fuel hay ch n, reads rh hay ch -> (length ch < fuel)%nat ->
  exists r, mystrstr_loop t fuel n (hay ++ 0 :: rh) (needle ++ 0 :: rn) = Ok r.
Proof.
  intros Hn fuel. induction fuel as [|fuel IH]; intros hay ch n Hh Hl; [lia|]. cbn [mystrstr_loop]. destruct ch as [|c ch].
  - inversion Hh; subst. change (utf8_get ([] ++ 0 :: rh)) with (Ok (0, rh)). rewrite ok_bind. cbn iota beta. rewrite (folds_zero t Hf). by eexists.
  - apply reads_head in Hh as (y & s1 & h2 & -> & Eh & Hh2 & _). cbn [app length] in *. rewrite Eh, ok_bind. cbn iota beta.
    destruct (fold c =? 0); [by eexists|]. destruct (n =? fold c); [|apply (IH h2 ch); [done|lia]].
    destruct (match_ends cn (S (length (needle ++ 0 :: rn))) needle h2 ch Hn Hh2) as [[[] m] Em].
    { apply reads_length in Hn. rewrite length_app. simpl. lia. }
    + rewrite Em, ok_bind. cbn iota beta. by eexists.
    + rewrite Em, ok_bind. cbn iota beta. apply (IH h2 ch); [done|lia].
Qed.

Lemma loop_skip c1 : forall fuel n hay needle c2,
  reads rh hay (c1 ++ c2) -> Forall (fun c => fold c <> n) c1 -> (length c1 < fuel)%nat ->
  exists s2 fuel', reads rh s2 c2 /\ (0 < fuel')%nat /\
    mystrstr_loop t fuel n (hay ++ 0 :: rh) needle = mystrstr_loop t fuel' n (s2 ++ 0 :: rh) needle.
Proof.
  induction c1 as [|c c1 IH]; intros fuel n hay needle c2 Hh Hc Hl; [exists hay, fuel; split_and!; [done|simpl in Hl; lia|done]|].
  destruct fuel as [|fuel]; [simpl in Hl; lia|]. apply Forall_cons in Hc as [Hc Hcs]. cbn [app] in Hh.
  apply reads_head in Hh as (y & s1 & h2 & -> & Eh & Hh2 & Hr & _). cbn [mystrstr_loop app]. rewrite Eh, ok_bind. cbn iota beta.
  rewrite (proj2 (Z.eqb_neq (fold c) 0)), (proj2 (Z.eqb_neq n (fold c))) by (congruence || by apply fold_pos).
  apply (IH fuel n h2 needle c2 Hh2 Hcs). simpl in Hl. lia.
Qed.
End search.

(** The search of any text for any other ends. *)
Lemma mystrstr_ends (t : list Z) (hay needle : list Z) : folds t -> cstring_ok hay -> cstring_ok needle -> needle <> [] ->
  exists r, mystrstr t (hay ++ [0]) (needle ++ [0]) = Ok r.
Proof.
  intros Hf Hh Hn Hne. destruct (reads_total [] hay Hh) as [ch Rh]. destruct (reads_total [] needle Hn) as [cn Rn].
  destruct cn as [|n cn]; [inversion Rn; by subst|]. apply reads_head in Rn as (x & s0 & n2 & -> & En & Hn2 & _).
  unfold mystrstr. cbn [app]. rewrite En, ok_bind. cbn iota beta. apply (loop_ends t Hf [] [] n2 cn Hn2 _ hay ch); [done|].
  apply reads_length in Rh. rewrite length_app. simpl. lia.
Qed.

(** When no character before some point of a text folds to the first
    character of the needle, [mystrstr] finds the needle there if it is there,
    up to the folding of characters, and finds nothing if the text ends there. *)
Theorem mystrstr_spec (t hay needle rh rn : list Z) (n : Z) (cn c1 c2 : list Z) :
  unicode_init = Ok t ->
  reads rh hay (c1 ++ c2) -> reads rn needle (n :: cn) ->
  Forall (fun c => unicode_casefold t c <> unicode_casefold t n) c1 ->
  (c2 = [] -> mystrstr t (hay ++ 0 :: rh) (needle ++ 0 :: rn) = Ok None) /\
  (map (unicode_casefold t) (n :: cn) `prefix_of` map (unicode_casefold t) c2 ->
   exists s2, mystrstr t (hay ++ 0 :: rh) (needle ++ 0 :: rn) = Ok (Some (s2 ++ 0 :: rh)) /\ reads rh s2 c2).
Proof.
  intros Hf%init_folds Hh Hn Hc1. apply reads_head in Hn as (x & s0 & n2 & -> & En & Hn2 & Hr & _).
  unfold mystrstr. cbn [app]. rewrite En, ok_bind. cbn iota beta.
  pose proof (reads_length _ _ _ Hh) as Hl. rewrite length_app in Hl.
  destruct (loop_skip t Hf rh c1 (S (length (hay ++ 0 :: rh))) (unicode_casefold t n) hay (n2 ++ 0 :: rn) c2 Hh Hc1)
    as (s2 & fuel & Hs2 & Hfuel & ->); [rewrite length_app; simpl; lia|].
  destruct fuel as [|fuel]; [lia|]. cbn [mystrstr_loop]. split.
  - intros ->. inversion Hs2; subst. change (utf8_get ([] ++ 0 :: rh)) with (Ok (0, rh)). rewrite ok_bind. cbn iota beta. by rewrite (folds_zero t Hf).
  - intros Hp. destruct c2 as [|c c2]; [by apply prefix_nil_inv in Hp|]. cbn [map] in Hp.
    pose proof (prefix_cons_inv_1 _ _ _ _ Hp) as E. apply prefix_cons_inv_2 in Hp. exists s2. split; [|done].
    pose proof Hs2 as (y & s1 & h2 & -> & Eh & Hh2 & Hcr & _)%reads_head. cbn [app]. rewrite Eh, ok_bind. cbn iota beta.
    rewrite (proj2 (Z.eqb_neq (unicode_casefold t c) 0)) by (by apply (fold_pos t Hf)). rewrite E, Z.eqb_refl.
    rewrite (match_prefix t Hf rh rn cn _ n2 h2 c2); [done|done|done|done|].
    apply reads_length in Hn2. rewrite length_app. simpl. lia.
Qed.

(** The characters of a concrete text that the table leaves alone. *)
Definition plain (c : Z) : bool := (0 <=? c) && negb (existsb (fun p => p.1 =? c) unicode_casefolding).

Lemma fold_plain t c : folds t -> plain c = true -> unicode_casefold t c = c.
Proof.
  intros [_ Hout] [Hc Hp]%andb_true_iff. apply Z.leb_le in Hc. apply Hout; [done|]. intros to Hin.
  apply negb_true_iff in Hp. rewrite <- not_true_iff_false, existsb_exists in Hp. apply Hp.
  exists (c, to). split; [by apply list_elem_of_In|]. apply Z.eqb_refl.
Qed.

Lemma mystrstr_spec_witness :
  exists t s2, unicode_init = Ok t /\
    mystrstr t (lit "Size=7" ++ [0]) (lit "size=" ++ [0]) = Ok (Some (s2 ++ [0])) /\ reads [] s2 (lit "Size=7").
Proof.
  destruct init_spec as (t & Ht & Hf).
  destruct (mystrstr_spec t (lit "Size=7") (lit "size=") [] [] 115 (lit "ize=") [] (lit "Size=7") Ht) as [_ H];
    [by apply reads_ascii_lit|by apply reads_ascii_lit|constructor|].
  destruct H as (s2 & E & Hr); [|exists t, s2; auto].
  change (lit "Size=7") with ([83] ++ lit "ize=7"). change (115 :: lit "ize=") with ([115] ++ lit "ize=").
  rewrite !map_app. change (lit "ize=7") with (lit "ize=" ++ [55]). rewrite map_app.
  assert (unicode_casefold t 83 = 115) as E1.
  { destruct Hf as [Hin _]. apply Hin. apply (bool_decide_unpack _). vm_compute. exact I. }
  assert (unicode_casefold t 115 = 115) as E2 by (apply fold_plain; [done|vm_compute; reflexivity]).
  cbn [map]. rewrite E1, E2. apply prefix_app, prefix_app_r. reflexivity.
Defined.

(** What [mystrstr] gets wrong: a partial match leaves another character of the
    needle in the place of the first, so that a match behind it is missed, or
    something else is found; and [dictcmp] returns a difference of numbers that
    an [int] does not hold. *)
Lemma collate_defects t : unicode_init = Ok t ->
  mystrstr t (lit "aab" ++ [0]) (lit "ab" ++ [0]) = Ok None /\
  mystrstr t (lit "axbb" ++ [0]) (lit "ab" ++ [0]) = Ok (Some (lit "bb" ++ [0])) /\
  dictcmp t false (lit "4294967296" ++ [0]) (lit "0" ++ [0]) = Ok 0.
Proof.
  intros Hf%init_folds.
  assert (unicode_casefold t 97 = 97 /\ unicode_casefold t 98 = 98 /\ unicode_casefold t 120 = 120) as (Ha & Hb & Hx)
    by (split_and!; apply fold_plain; try done; vm_compute; reflexivity).
  pose proof (folds_zero t Hf) as H0.
  repeat match goal with |- context [lit ?x] => let l := eval vm_compute in (lit x) in change (lit x) with l end.
  split_and!; [unfold mystrstr; cbn -[unicode_casefold]; rewrite ?Ha, ?Hb, ?Hx, ?H0; reflexivity..|].
  vm_compute. reflexivity.
Qed.
