(* ===== verification/Charset.v ===== *)
(** Character sets (src/src/misc/str.c and src/src/misc/big5.c): the sets the
    player knows, their lookup by name, the choice of the set of a text that is
    not UTF-8, and the conversion of BIG5.  The mapping tables are arguments, and
    so are the set chosen by the user and the statistical detector. *)
From S2P Require Import Prelude Clib Utf8.

Local Open Scope Z_scope.

(** * The sets *)

Inductive convert_fn := ConvertTable | ConvertIso8859_1 | Big5Convert.

(** [table] is the name of the array. *)
Record charset := Charset {
  cs_id : string; cs_title : string; cs_table : option string;
  cs_convert : convert_fn; cs_aliases : list string }.

Definition charsets : list charset :=
  [Charset "ISO-8859-1" "ISO-8859-1 (Latin-1)" (None) ConvertIso8859_1
     ["iso-ir-100"; "ISO_8859-1"; "latin1"; "latin-1"; "l1"; "IBM819"; "CP819"; "csISOLatin1"];
   Charset "ISO-8859-2" "ISO-8859-2 (Latin-2)" (Some "ISO_8859_2") ConvertTable
     ["iso-ir-101"; "ISO_8859-2"; "latin2"; "l2"; "csISOLatin2"];
   Charset "ISO-8859-3" "ISO-8859-3 (Latin-3)" (Some "ISO_8859_3") ConvertTable
     ["iso-ir-109"; "ISO_8859-3"; "latin3"; "l3"; "csISOLatin3"];
   Charset "ISO-8859-4" "ISO-8859-4 (Latin-4)" (Some "ISO_8859_4") ConvertTable
     ["iso-ir-110"; "ISO_8859-4"; "latin4"; "l4"; "csISOLatin4"];
   Charset "ISO-8859-5" "ISO-8859-5 (Latin/Cyrillic)" (Some "ISO_8859_5") ConvertTable
     ["iso-ir-144"; "ISO_8859-5"; "cyrillic"; "csISOLatinCyrillic"];
   Charset "ISO-8859-6" "ISO-8859-6 (Latin/Arabic)" (Some "ISO_8859_6") ConvertTable
     ["iso-ir-127"; "ISO_8859-6"; "ECMA-114"; "ASMO-708"; "arabic"; "csISOLatinArabic"];
   Charset "ISO-8859-7" "ISO-8859-7 (Latin/Greek)" (Some "ISO_8859_7") ConvertTable
     ["iso-ir-126"; "ISO_8859-7"; "ELOT_928";
      "ECMA-118"; "greek"; "greek8"; "csISOLatinGreek"];
   Charset "ISO-8859-8" "ISO-8859-8 (Latin/Hebrew)" (Some "ISO_8859_8") ConvertTable
     ["iso-ir-138"; "ISO_8859-8"; "hebrew"; "csISOLatinHebrew"];
   Charset "ISO-8859-9" "ISO-8859-9 (Latin-5/Turkish)" (Some "ISO_8859_9") ConvertTable
     ["iso-ir-148"; "ISO_8859-9"; "latin5"; "l5"; "csISOLatin5"];
   Charset "ISO-8859-10" "ISO-8859-10 (Latin-6)" (Some "ISO_8859_10") ConvertTable
     ["iso-ir-157"; "l6"; "ISO_8859-10:1992"; "csISOLatin6"; "latin6"];
   Charset "ISO-8859-11" "ISO-8859-11 (Latin/Thai)" (Some "ISO_8859_11") ConvertTable
     [];
   Charset "ISO-8859-13" "ISO-8859-13 (Baltic Rim)" (Some "ISO_8859_13") ConvertTable
     [];
   Charset "ISO-8859-14" "ISO-8859-14 (Celtic)" (Some "ISO_8859_14") ConvertTable
     [];
   Charset "ISO-8859-15" "ISO-8859-15 (Latin-9)" (Some "ISO_8859_15") ConvertTable
     [];
   Charset "ISO-8859-16" "ISO-8859-16 (Latin-10)" (Some "ISO_8859_16") ConvertTable
     [];
   Charset "CP1250" "Windows 1250" (Some "CP1250") ConvertTable
     ["windows-1250"; "cswindows1250"];
   Charset "CP1251" "Windows 1251" (Some "CP1251") ConvertTable
     ["windows-1251"; "cswindows1251"];
   Charset "CP1252" "Windows 1252" (Some "CP1252") ConvertTable
     ["windows-1252"; "cswindows1252"];
   Charset "CP1253" "Windows 1253" (Some "CP1253") ConvertTable
     ["windows-1253"; "cswindows1253"];
   Charset "CP1254" "Windows 1254" (Some "CP1254") ConvertTable
     ["windows-1254"; "cswindows1254"];
   Charset "CP1255" "Windows 1255" (Some "CP1255") ConvertTable
     ["windows-1255"; "cswindows1255"];
   Charset "CP1256" "Windows 1256" (Some "CP1256") ConvertTable
     ["windows-1256"; "cswindows1256"];
   Charset "CP1257" "Windows 1257" (Some "CP1257") ConvertTable
     ["windows-1257"; "cswindows1257"];
   Charset "CP1258" "Windows 1258" (Some "CP1258") ConvertTable
     ["windows-1258"; "cswindows1258"];
   Charset "BIG5" "BIG5" (None) Big5Convert
     []]%string.

Definition charset_get_idx (i : Z) : option charset :=
  if i <? Z.of_nat (length charsets) then charsets !! Z.to_nat i else None.

Definition charset_named (id : list Z) (cs : charset) : bool :=
  strcaseeq id (lit (cs_id cs)) || existsb (fun a => strcaseeq id (lit a)) (cs_aliases cs).

Definition charset_get (id : option (list Z)) : option charset :=
  match id with
  | None => charsets !! 0%nat
  | Some id => List.find (charset_named id) charsets
  end.

(** The argument is the mapping table, [None] for [NULL]. *)
Definition charset_get_name (p : option string) : string :=
  match List.find (fun cs => bool_decide (p = cs_table cs)) charsets with
  | Some cs => cs_title cs
  | None => "???"
  end.

(** * BIG5 *)

Section convert.
Context {sg : CharSign} (big5table : list Z).

Definition BIG5_TABLE_OFFSET : Z := 41216.

(** The loop, from the [src] at index [i]; [rem] is [len - i], but the
    test for the last byte looks at [len].  [None] is the result -1. *)
Fixpoint big5_loop (fuel : nat) (src : list Z) (rem len : Z) (strict : bool) (out : list Z)
    : res (option (list Z)) :=
  if rem <=? 0 then Ok (Some out)
  else match fuel with
  | O => Fault NoFuel
  | S fuel =>
      match src with
      | [] => Fault OobRead
      | s0 :: src1 =>
          if cchar s0 <? 128 then big5_loop fuel src1 (rem - 1) len strict (out ++ [s0])
          else
            x ← (if len =? 1 then Ok (u32 (-1), src1, rem)
                 else match src1 with
                 | [] => Fault OobRead
                 | s1 :: src2 =>
                     Ok (u32 (Z.lor (Z.shiftl (cchar s0) 8) (cchar s1) - BIG5_TABLE_OFFSET),
                         src2, rem - 1)
                 end);
            let '(i, src, rem) := x in
            if Z.of_nat (length big5table) <? i then
              if strict then Ok None
              else big5_loop fuel src (rem - 1) len strict (out ++ utf8_put 65533)
            else
              match big5table !! Z.to_nat i with
              | None => Fault OobRead
              | Some o =>
                  if o =? 0 then
                    if strict then Ok None
                    else big5_loop fuel src (rem - 1) len strict (out ++ utf8_put 65533)
                  else big5_loop fuel src (rem - 1) len strict (out ++ utf8_put o)
              end
      end
  end.

Definition big5_convert (src : list Z) (len : Z) (strict : bool) : res (option (list Z)) :=
  big5_loop (Z.to_nat len) src len len strict [].

(** * Text of unknown encoding *)

Context (tables : string -> list Z) (default_charset : option charset)
  (charset_detector : list Z -> option (string * option string)).

(** [cs->convert(cs, dst, src, len, 0)] *)
Definition cs_run (cs : charset) (src : list Z) (len : Z) : res (option (list Z)) :=
  match cs_convert cs with
  | ConvertTable => Ok (Some (convert_table (default [] (tables <$> cs_table cs)) (take (Z.to_nat len) src)))
  | ConvertIso8859_1 => Ok (Some (convert_iso_8859_1 (take (Z.to_nat len) src)))
  | Big5Convert => big5_convert src len false
  end.

(** The set [utf8_from_bytes] chooses, with the text for [how], when there is
    one.  A detected set that is unknown leaves [cs] null. *)
Definition choose_charset (str : list Z) (cs : option charset) : option charset * option (list Z) :=
  match cs with
  | Some cs => (Some cs, Some (lit "Decoded as " ++ lit (cs_title cs) ++ lit " (specified by request)"))
  | None =>
      match default_charset with
      | Some cs => (Some cs, Some (lit "Decoded as " ++ lit (cs_title cs) ++ lit " (specified by user)"))
      | None =>
          match charset_detector str with
          | Some (name, lang) =>
              match charset_get (Some (lit name)) with
              | Some cs => (Some cs, Some (lit "Decoded as " ++ lit name ++ lit " (detected language: " ++
                              lit (default "<Unknown>"%string lang) ++ lit ")"))
              | None => (None, None)
              end
          | None =>
              (charsets !! 0%nat,
               (fun cs => lit "Unable to determine character encoding, decoding as " ++ lit (cs_title cs)) <$>
                 charsets !! 0%nat)
          end
      end
  end.

(** [m] is the memory at [str]; [len] 0 stands for the length of the string. *)
Definition utf8_from_bytes (m : list Z) (len : Z) (cs : option charset)
    : res (list Z * option (list Z)) :=
  len ← (if len =? 0 then strlen m else Ok len);
  let '(cs, how) := choose_charset (take (Z.to_nat len) m) cs in
  match cs with
  | None => Fault NullDeref
  | Some cs =>
      olen ← cs_run cs m len;
      match olen with
      | None => Fault OobWrite
      | Some out => Ok (out, how)
      end
  end.

(** The string of the result, and [how]. *)
Definition rstr_from_bytes (m : list Z) : res (list Z * option (list Z)) :=
  ok ← utf8_verify m;
  str ← cstr_at m;
  if (ok : bool) then Ok (str, Some (lit "Decoding as UTF-8"))
  else
    r ← utf8_from_bytes m (Z.of_nat (length str)) None;
    s ← cstr_at (r.1 ++ [0]);
    Ok (s, r.2).

Definition rstr_from_bytes_len (str : list Z) (len : Z) : res (list Z * option (list Z)) :=
  if Z.of_nat (length str) <? len then Fault OobRead
  else rstr_from_bytes (take (Z.to_nat len) str ++ [0]).
End convert.

(** * Lookup by name *)

(** Every name of every set, with the position of the set. *)
Definition all_names : list (nat * string) :=
  concat (imap (fun i cs => map (pair i) (cs_id cs :: cs_aliases cs)) charsets).

(** The first set that has a name. *)
Fixpoint find_index (f : charset -> bool) (i : nat) (l : list charset) : option nat :=
  match l with
  | [] => None
  | cs :: l => if f cs then Some i else find_index f (S i) l
  end.

Lemma names_found :
  forallb (fun p => bool_decide (find_index (charset_named (lit p.2)) 0 charsets = Some p.1)) all_names = true.
Proof. vm_compute. reflexivity. Qed.

Lemma find_index_find f i l : List.find f l = (find_index f i l ≫= fun k => l !! (k - i)%nat).
Proof.
  revert i. induction l as [|cs l IH]; intros i; [done|]. cbn [List.find find_index].
  destruct (f cs); [by cbn [mbind option_bind]; rewrite Nat.sub_diag|]. rewrite (IH (S i)).
  assert (forall k, find_index f (S i) l = Some k -> (S i <= k)%nat) as Hk.
  { clear. generalize (S i) as j. induction l as [|c l IH]; intros j k; [done|]. cbn [find_index].
    destruct (f c); [intros [= ->]; lia|]. intros H%IH. lia. }
  destruct (find_index f (S i) l) as [k|] eqn:E; [|done]. specialize (Hk k eq_refl). cbn [mbind option_bind].
  replace (k - i)%nat with (S (k - S i)) by lia. done.
Qed.

Lemma named_lower s s' cs : map tolower s = map tolower s' -> charset_named s cs = charset_named s' cs.
Proof.
  intros E. unfold charset_named, strcaseeq. by rewrite E.
Qed.

Lemma find_ext {A} (f g : A -> bool) l : (forall c, f c = g c) -> List.find f l = List.find g l.
Proof. intros E. induction l as [|c l IH]; [done|]. cbn [List.find]. by rewrite E, IH. Qed.

(** A set is found by its identifier and by each of its aliases, in any
    letter case, and no name belongs to two sets; without a name the set is
    ISO-8859-1. *)
Theorem charset_get_names (i : nat) (cs : charset) (name : string) (s : list Z) :
  charsets !! i = Some cs -> name ∈ cs_id cs :: cs_aliases cs ->
  map tolower s = map tolower (lit name) -> charset_get (Some s) = Some cs.
Proof.
  intros Hi Hn Hs. unfold charset_get.
  assert (List.find (charset_named s) charsets = List.find (charset_named (lit name)) charsets) as ->.
  { apply find_ext. intros c. by apply named_lower. }
  rewrite (find_index_find _ 0). pose proof names_found as H. rewrite forallb_forall in H.
  specialize (H (i, name)). rewrite bool_decide_eq_true in H. cbn [fst snd] in H. rewrite H.
  - cbn [mbind option_bind]. by rewrite Nat.sub_0_r.
  - unfold all_names. apply in_concat. exists (map (pair i) (cs_id cs :: cs_aliases cs)). split.
    + apply list_elem_of_In, elem_of_lookup_imap. by exists i, cs.
    + by apply in_map, list_elem_of_In.
Qed.

Lemma charset_get_names_witness :
  cs_id <$> charset_get (Some (lit "WINDOWS-1252")) = Some "CP1252"%string.
Proof.
  rewrite (charset_get_names 17 (Charset "CP1252" "Windows 1252" (Some "CP1252"%string) ConvertTable
    ["windows-1252"; "cswindows1252"]%string) "windows-1252" (lit "WINDOWS-1252")); [reflexivity|reflexivity| |reflexivity].
  apply list_elem_of_further, list_elem_of_here.
Defined.

(** * BIG5 text *)

(** A unit of the text: an ASCII byte, or a lead byte and the byte behind it. *)
Inductive big5_unit := Ascii7 (c : Z) | Pair (s0 s1 : Z).

Definition unit_bytes (u : big5_unit) : list Z :=
  match u with Ascii7 c => [c] | Pair s0 s1 => [s0; s1] end.

Definition pair_index (s0 s1 : Z) : Z := u32 (s0 * 256 + s1 - BIG5_TABLE_OFFSET).

(** The code point of a pair, U+FFFD when the table has none. *)
Definition pair_point (table : list Z) (s0 s1 : Z) : Z :=
  let o := default 0 (table !! Z.to_nat (pair_index s0 s1)) in if o =? 0 then 65533 else o.

Definition unit_text (table : list Z) (u : big5_unit) : list Z :=
  match u with Ascii7 c => [c] | Pair s0 s1 => utf8_put (pair_point table s0 s1) end.

Definition unit_ok (table : list Z) (u : big5_unit) : Prop :=
  match u with
  | Ascii7 c => 0 <= c < 128
  | Pair s0 s1 => 128 <= s0 < 256 /\ is_byte s1 /\ pair_index s0 s1 <> Z.of_nat (length table)
  end.

Lemma big5_units table us : forall fuel rest len out,
  Forall (unit_ok table) us -> len <> 1 \/ Forall (fun u => exists c, u = Ascii7 c) us ->
  (length (concat (map unit_bytes us)) <= fuel)%nat ->
  big5_loop (sg := false) table fuel (concat (map unit_bytes us) ++ rest)
    (Z.of_nat (length (concat (map unit_bytes us)))) len false out =
    Ok (Some (out ++ concat (map (unit_text table) us))).
Proof.
  induction us as [|u us IH]; intros fuel rest len out Hus Hlen Hf.
  { cbn [map concat app length]. rewrite app_nil_r. by destruct fuel. }
  apply Forall_cons in Hus as [Hu Hus]. cbn [map concat] in *. rewrite length_app in *.
  destruct u as [c|s0 s1]; cbn [unit_bytes length unit_text unit_ok app] in *;
    (destruct fuel as [|fuel]; [lia|]); cbn [big5_loop]; rewrite (proj2 (Z.leb_gt _ 0)) by lia;
    unfold cchar, char_signed.
  - rewrite (proj2 (Z.ltb_lt c 128)) by lia.
    replace (Z.of_nat (1 + length (concat (map unit_bytes us))) - 1)
      with (Z.of_nat (length (concat (map unit_bytes us)))) by lia.
    rewrite IH; [by rewrite <- app_assoc|done| |lia]. destruct Hlen as [|H]; [by left|right].
    by apply Forall_cons in H as [_ ?].
  - destruct Hlen as [Hlen|H]; [|by apply Forall_cons in H as [[? ?] _]].
    destruct Hu as (H0 & H1 & Hi). rewrite (proj2 (Z.ltb_ge s0 128)), (proj2 (Z.eqb_neq len 1)) by lia.
    rewrite ok_bind. cbn iota beta.
    assert (u32 (Z.lor (Z.shiftl s0 8) s1 - BIG5_TABLE_OFFSET) = pair_index s0 s1) as ->.
    { unfold pair_index. by rewrite lor_shiftl by (unfold is_byte in H1; lia). }
    assert (0 <= pair_index s0 s1) as Hp by (unfold pair_index, u32; apply Z.mod_pos_bound; lia).
    replace (Z.of_nat (2 + length (concat (map unit_bytes us))) - 1 - 1)
      with (Z.of_nat (length (concat (map unit_bytes us)))) by lia.
    unfold pair_point. cbv zeta. destruct (Z.ltb_spec (Z.of_nat (length table)) (pair_index s0 s1)) as [Hout|Hin].
    + rewrite (lookup_ge_None_2 table (Z.to_nat (pair_index s0 s1))) by lia. cbn [default from_option].
      rewrite IH by (done || lia || by left). by rewrite <- app_assoc.
    + destruct (lookup_lt_is_Some_2 table (Z.to_nat (pair_index s0 s1))) as [o Ho]; [lia|].
      rewrite Ho. change (default 0 (Some o)) with o. destruct (o =? 0); rewrite IH by (done || lia || by left);
        by rewrite <- app_assoc.
Qed.

(** BIG5 text of ASCII bytes and pairs converts to the UTF-8 encoding of
    its characters, U+FFFD for a pair that stands for none.  One index is not
    covered: the one equal to the size of the table is read from behind it. *)
Theorem big5_convert_spec (table : list Z) (us : list big5_unit) (rest : list Z) :
  Forall (unit_ok table) us ->
  let src := concat (map unit_bytes us) in
  big5_convert (sg := false) table (src ++ rest) (Z.of_nat (length src)) false =
    Ok (Some (concat (map (unit_text table) us))) /\
  (forall s0 s1, 128 <= s0 < 256 -> is_byte s1 -> pair_index s0 s1 = Z.of_nat (length table) ->
    big5_convert (sg := false) table (s0 :: s1 :: rest) 2 false = Fault OobRead).
Proof.
  intros Hus src. split.
  - unfold big5_convert. apply (big5_units table us _ rest _ []); [done| |subst src; lia].
    destruct (Z.eq_dec (Z.of_nat (length src)) 1) as [E|]; [right|by left].
    apply Forall_forall. intros [c|s0 s1] Hin; [by exists c|]. exfalso.
    apply list_elem_of_split in Hin as (l1 & l2 & ->). subst src.
    rewrite map_app, concat_app, length_app in E. cbn [map concat unit_bytes] in E. rewrite length_app in E.
    cbn [length] in E. lia.
  - intros s0 s1 H0 H1 Hi. unfold big5_convert. change (Z.to_nat 2) with 2%nat. cbn [big5_loop].
    change (2 <=? 0) with false. cbn iota. unfold cchar, char_signed.
    rewrite (proj2 (Z.ltb_ge s0 128)) by lia. change (2 =? 1) with false. cbn iota. rewrite ok_bind. cbn iota beta.
    rewrite lor_shiftl by (unfold is_byte in H1; lia). change (2 ^ 8) with 256.
    change (u32 (s0 * 256 + s1 - BIG5_TABLE_OFFSET)) with (pair_index s0 s1). rewrite Hi, Z.ltb_irrefl.
    by rewrite (lookup_ge_None_2 table) by lia.
Qed.

Lemma big5_convert_spec_witness :
  big5_convert (sg := false) [0; 12288] ([65; 161; 1] ++ [0]) 3 false = Ok (Some [65; 227; 128; 128]).
Proof.
  refine (proj1 (big5_convert_spec [0; 12288] [Ascii7 65; Pair 161 1] [0] _)).
  repeat constructor; try (unfold is_byte; lia); simpl; try lia. vm_compute. discriminate.
Defined.

(** * Text of unknown encoding *)

Section from_bytes.
Context (big5table : list Z) (tables : string -> list Z) (default_charset : option charset)
  (charset_detector : list Z -> option (string * option string)).
Hypothesis tables_ok : forall n, Forall cp_ok (tables n).
Hypothesis detector_known : forall str n lang,
  charset_detector str = Some (n, lang) -> charset_get (Some (lit n)) <> None.

Lemma choose_charset_some str : exists cs how,
  choose_charset default_charset charset_detector str None = (Some cs, how) /\ how <> None.
Proof using detector_known.
  unfold choose_charset. destruct default_charset as [cs|]; [by eexists _, _|].
  destruct (charset_detector str) as [[n lang]|] eqn:E; [|by eexists _, _].
  specialize (detector_known str n lang E). destruct (charset_get (Some (lit n))); [by eexists _, _|done].
Qed.

Lemma from_bytes_run s rest : cstring_ok s -> exists cs how,
  choose_charset default_charset charset_detector s None = (Some cs, how) /\
  utf8_from_bytes (sg := false) big5table tables default_charset charset_detector
      (s ++ 0 :: rest) (Z.of_nat (length s)) None =
    (olen ← cs_run (sg := false) big5table tables cs (s ++ 0 :: rest) (Z.of_nat (length s));
     match olen with None => Fault OobWrite | Some out => Ok (out, how) end).
Proof using detector_known.
  intros Hs. destruct (choose_charset_some s) as (cs & how & E & _). exists cs, how. split; [done|].
  unfold utf8_from_bytes.
  assert ((if Z.of_nat (length s) =? 0 then strlen (s ++ 0 :: rest) else Ok (Z.of_nat (length s)))
    = Ok (Z.of_nat (length s))) as -> by (rewrite strlen_app by done; by destruct (_ =? _)).
  rewrite ok_bind, Nat2Z.id, take_app_length, E. done.
Qed.

(** A C string that is valid UTF-8 is returned as it is; any other one is
    converted from the set the user chose, else the set the detector named, else
    ISO-8859-1, and from a single byte set every byte becomes the UTF-8 encoding
    of its code point. *)
Theorem rstr_from_bytes_spec s rest : cstring_ok s ->
  let run := rstr_from_bytes (sg := false) big5table tables default_charset charset_detector
    (s ++ 0 :: rest) in
  (utf8_verify (s ++ 0 :: rest) = Ok true /\ run = Ok (s, Some (lit "Decoding as UTF-8"))) \/
  (utf8_verify (s ++ 0 :: rest) = Ok false /\ exists cs how,
    choose_charset default_charset charset_detector s None = (Some cs, how) /\
    match cs_convert cs, cs_table cs with
    | ConvertTable, Some t => run = Ok (put_all (map (table_point (tables t)) s), how)
    | ConvertIso8859_1, _ => run = Ok (put_all s, how)
    | _, _ => True
    end).
Proof using tables_ok detector_known.
  intros Hs run. subst run. unfold rstr_from_bytes. rewrite cstr_at_app by done.
  destruct (reads_total rest s Hs) as [cps Hr].
  assert (exists ok, utf8_verify (s ++ 0 :: rest) = Ok ok) as [ok ->].
  { eexists. apply (reads_verify rest s cps); [done|]. apply reads_length in Hr. rewrite length_app. simpl. lia. }
  rewrite !ok_bind. destruct ok; [by left|right]. split; [done|].
  destruct (from_bytes_run s rest Hs) as (cs & how & E & ->). exists cs, how. split; [done|].
  unfold cs_run. rewrite Nat2Z.id, take_app_length.
  destruct (cs_convert cs), (cs_table cs) as [t|] eqn:Et; try done; rewrite !ok_bind.
  - destruct (convert_table_put (sg := false) (tables t) s Hs (tables_ok t)) as [Ep Hp].
    cbn [fst snd]. change (default [] (tables <$> Some t)) with (tables t). rewrite Ep, cstr_at_app; [done|].
    by apply put_all_bytes.
  - destruct (convert_iso_put s Hs) as [Ep Hp]. cbn [fst snd]. rewrite Ep, cstr_at_app; [done|]. by apply put_all_bytes.
  - destruct (convert_iso_put s Hs) as [Ep Hp]. cbn [fst snd]. rewrite Ep, cstr_at_app; [done|]. by apply put_all_bytes.
Qed.
End from_bytes.

Lemma rstr_from_bytes_spec_witness :
  exists how, rstr_from_bytes (sg := false) [] (fun _ => []) None (fun _ => None) ([233; 65] ++ [0]) =
    Ok ([195; 169; 65], how).
Proof.
  destruct (rstr_from_bytes_spec [] (fun _ => []) None (fun _ => None) ltac:(constructor) ltac:(discriminate)
    [233; 65] []) as [[H _]|(_ & cs & how & E & H)].
  - repeat constructor; lia.
  - vm_compute in H. discriminate.
  - injection E as <- <-. eexists. exact H.
Defined.
