(* ===== verification/DetectorTables.v ===== *)
(** The tables of the character set detector
    (src/src/misc/charset_detector.c): for every single byte set the map of its
    bytes to lower case letters, with 0x20 for a separator and 0 for a byte that
    is left out, and for every language the 64 most frequent triples. *)
From S2P Require Import Prelude.

Local Open Scope Z_scope.

Definition charMap_8859_1 : list Z :=
  [32; 32; 32; 32; 32; 32; 32; 32; 32; 32; 32; 32; 32; 32; 32; 32; 32; 32; 32; 32; 32; 32; 32;
   32; 32; 32; 32; 32; 32; 32; 32; 32; 32; 32; 32; 32; 32; 32; 32; 0; 32; 32; 32; 32; 32; 32;
   32; 32; 32; 32; 32; 32; 32; 32; 32; 32; 32; 32; 32; 32; 32; 32; 32; 32; 32; 97; 98; 99; 100;
   101; 102; 103; 104; 105; 106; 107; 108; 109; 110; 111; 112; 113; 114; 115; 116; 117; 118;
   119; 120; 121; 122; 32; 32; 32; 32; 32; 32; 97; 98; 99; 100; 101; 102; 103; 104; 105; 106;
   107; 108; 109; 110; 111; 112; 113; 114; 115; 116; 117; 118; 119; 120; 121; 122; 32; 32; 32;
   32; 32; 32; 32; 32; 32; 32; 32; 32; 32; 32; 32; 32; 32; 32; 32; 32; 32; 32; 32; 32; 32; 32;
   32; 32; 32; 32; 32; 32; 32; 32; 32; 32; 32; 32; 32; 32; 32; 32; 32; 32; 32; 32; 32; 170; 32;
   32; 32; 32; 32; 32; 32; 32; 32; 32; 181; 32; 32; 32; 32; 186; 32; 32; 32; 32; 32; 224; 225;
   226; 227; 228; 229; 230; 231; 232; 233; 234; 235; 236; 237; 238; 239; 240; 241; 242; 243;
   244; 245; 246; 32; 248; 249; 250; 251; 252; 253; 254; 223; 224; 225; 226; 227; 228; 229;
   230; 231; 232; 233; 234; 235; 236; 237; 238; 239; 240; 241; 242; 243; 244; 245; 246; 32;
   248; 249; 250; 251; 252; 253; 254; 255].

Definition charMap_8859_2 : list Z :=
  [32; 32; 32; 32; 32; 32; 32; 32; 32; 32; 32; 32; 32; 32; 32; 32; 32; 32; 32; 32; 32; 32; 32;
   32; 32; 32; 32; 32; 32; 32; 32; 32; 32; 32; 32; 32; 32; 32; 32; 0; 32; 32; 32; 32; 32; 32;
   32; 32; 32; 32; 32; 32; 32; 32; 32; 32; 32; 32; 32; 32; 32; 32; 32; 32; 32; 97; 98; 99; 100;
   101; 102; 103; 104; 105; 106; 107; 108; 109; 110; 111; 112; 113; 114; 115; 116; 117; 118;
   119; 120; 121; 122; 32; 32; 32; 32; 32; 32; 97; 98; 99; 100; 101; 102; 103; 104; 105; 106;
   107; 108; 109; 110; 111; 112; 113; 114; 115; 116; 117; 118; 119; 120; 121; 122; 32; 32; 32;
   32; 32; 32; 32; 32; 32; 32; 32; 32; 32; 32; 32; 32; 32; 32; 32; 32; 32; 32; 32; 32; 32; 32;
   32; 32; 32; 32; 32; 32; 32; 32; 32; 32; 32; 32; 177; 32; 179; 32; 181; 182; 32; 32; 185;
   186; 187; 188; 32; 190; 191; 32; 177; 32; 179; 32; 181; 182; 183; 32; 185; 186; 187; 188;
   32; 190; 191; 224; 225; 226; 227; 228; 229; 230; 231; 232; 233; 234; 235; 236; 237; 238;
   239; 240; 241; 242; 243; 244; 245; 246; 32; 248; 249; 250; 251; 252; 253; 254; 223; 224;
   225; 226; 227; 228; 229; 230; 231; 232; 233; 234; 235; 236; 237; 238; 239; 240; 241; 242;
   243; 244; 245; 246; 32; 248; 249; 250; 251; 252; 253; 254; 32].

Definition charMap_8859_5 : list Z :=
  [32; 32; 32; 32; 32; 32; 32; 32; 32; 32; 32; 32; 32; 32; 32; 32; 32; 32; 32; 32; 32; 32; 32;
   32; 32; 32; 32; 32; 32; 32; 32; 32; 32; 32; 32; 32; 32; 32; 32; 0; 32; 32; 32; 32; 32; 32;
   32; 32; 32; 32; 32; 32; 32; 32; 32; 32; 32; 32; 32; 32; 32; 32; 32; 32; 32; 97; 98; 99; 100;
   101; 102; 103; 104; 105; 106; 107; 108; 109; 110; 111; 112; 113; 114; 115; 116; 117; 118;
   119; 120; 121; 122; 32; 32; 32; 32; 32; 32; 97; 98; 99; 100; 101; 102; 103; 104; 105; 106;
   107; 108; 109; 110; 111; 112; 113; 114; 115; 116; 117; 118; 119; 120; 121; 122; 32; 32; 32;
   32; 32; 32; 32; 32; 32; 32; 32; 32; 32; 32; 32; 32; 32; 32; 32; 32; 32; 32; 32; 32; 32; 32;
   32; 32; 32; 32; 32; 32; 32; 32; 32; 32; 32; 32; 241; 242; 243; 244; 245; 246; 247; 248; 249;
   250; 251; 252; 32; 254; 255; 208; 209; 210; 211; 212; 213; 214; 215; 216; 217; 218; 219;
   220; 221; 222; 223; 224; 225; 226; 227; 228; 229; 230; 231; 232; 233; 234; 235; 236; 237;
   238; 239; 208; 209; 210; 211; 212; 213; 214; 215; 216; 217; 218; 219; 220; 221; 222; 223;
   224; 225; 226; 227; 228; 229; 230; 231; 232; 233; 234; 235; 236; 237; 238; 239; 32; 241;
   242; 243; 244; 245; 246; 247; 248; 249; 250; 251; 252; 32; 254; 255].

Definition charMap_8859_6 : list Z :=
  [32; 32; 32; 32; 32; 32; 32; 32; 32; 32; 32; 32; 32; 32; 32; 32; 32; 32; 32; 32; 32; 32; 32;
   32; 32; 32; 32; 32; 32; 32; 32; 32; 32; 32; 32; 32; 32; 32; 32; 0; 32; 32; 32; 32; 32; 32;
   32; 32; 32; 32; 32; 32; 32; 32; 32; 32; 32; 32; 32; 32; 32; 32; 32; 32; 32; 97; 98; 99; 100;
   101; 102; 103; 104; 105; 106; 107; 108; 109; 110; 111; 112; 113; 114; 115; 116; 117; 118;
   119; 120; 121; 122; 32; 32; 32; 32; 32; 32; 97; 98; 99; 100; 101; 102; 103; 104; 105; 106;
   107; 108; 109; 110; 111; 112; 113; 114; 115; 116; 117; 118; 119; 120; 121; 122; 32; 32; 32;
   32; 32; 32; 32; 32; 32; 32; 32; 32; 32; 32; 32; 32; 32; 32; 32; 32; 32; 32; 32; 32; 32; 32;
   32; 32; 32; 32; 32; 32; 32; 32; 32; 32; 32; 32; 32; 32; 32; 32; 32; 32; 32; 32; 32; 32; 32;
   32; 32; 32; 32; 32; 32; 32; 32; 32; 32; 32; 32; 32; 32; 32; 32; 32; 32; 32; 32; 32; 193;
   194; 195; 196; 197; 198; 199; 200; 201; 202; 203; 204; 205; 206; 207; 208; 209; 210; 211;
   212; 213; 214; 215; 216; 217; 218; 32; 32; 32; 32; 32; 224; 225; 226; 227; 228; 229; 230;
   231; 232; 233; 234; 32; 32; 32; 32; 32; 32; 32; 32; 32; 32; 32; 32; 32; 32; 32; 32; 32; 32;
   32; 32; 32].

Definition charMap_8859_7 : list Z :=
  [32; 32; 32; 32; 32; 32; 32; 32; 32; 32; 32; 32; 32; 32; 32; 32; 32; 32; 32; 32; 32; 32; 32;
   32; 32; 32; 32; 32; 32; 32; 32; 32; 32; 32; 32; 32; 32; 32; 32; 0; 32; 32; 32; 32; 32; 32;
   32; 32; 32; 32; 32; 32; 32; 32; 32; 32; 32; 32; 32; 32; 32; 32; 32; 32; 32; 97; 98; 99; 100;
   101; 102; 103; 104; 105; 106; 107; 108; 109; 110; 111; 112; 113; 114; 115; 116; 117; 118;
   119; 120; 121; 122; 32; 32; 32; 32; 32; 32; 97; 98; 99; 100; 101; 102; 103; 104; 105; 106;
   107; 108; 109; 110; 111; 112; 113; 114; 115; 116; 117; 118; 119; 120; 121; 122; 32; 32; 32;
   32; 32; 32; 32; 32; 32; 32; 32; 32; 32; 32; 32; 32; 32; 32; 32; 32; 32; 32; 32; 32; 32; 32;
   32; 32; 32; 32; 32; 32; 32; 32; 32; 32; 32; 32; 161; 162; 32; 32; 32; 32; 32; 32; 32; 32;
   32; 32; 32; 32; 32; 32; 32; 32; 32; 32; 32; 220; 32; 221; 222; 223; 32; 252; 32; 253; 254;
   192; 225; 226; 227; 228; 229; 230; 231; 232; 233; 234; 235; 236; 237; 238; 239; 240; 241;
   32; 243; 244; 245; 246; 247; 248; 249; 250; 251; 220; 221; 222; 223; 224; 225; 226; 227;
   228; 229; 230; 231; 232; 233; 234; 235; 236; 237; 238; 239; 240; 241; 242; 243; 244; 245;
   246; 247; 248; 249; 250; 251; 252; 253; 254; 32].

Definition charMap_8859_8 : list Z :=
  [32; 32; 32; 32; 32; 32; 32; 32; 32; 32; 32; 32; 32; 32; 32; 32; 32; 32; 32; 32; 32; 32; 32;
   32; 32; 32; 32; 32; 32; 32; 32; 32; 32; 32; 32; 32; 32; 32; 32; 0; 32; 32; 32; 32; 32; 32;
   32; 32; 32; 32; 32; 32; 32; 32; 32; 32; 32; 32; 32; 32; 32; 32; 32; 32; 32; 97; 98; 99; 100;
   101; 102; 103; 104; 105; 106; 107; 108; 109; 110; 111; 112; 113; 114; 115; 116; 117; 118;
   119; 120; 121; 122; 32; 32; 32; 32; 32; 32; 97; 98; 99; 100; 101; 102; 103; 104; 105; 106;
   107; 108; 109; 110; 111; 112; 113; 114; 115; 116; 117; 118; 119; 120; 121; 122; 32; 32; 32;
   32; 32; 32; 32; 32; 32; 32; 32; 32; 32; 32; 32; 32; 32; 32; 32; 32; 32; 32; 32; 32; 32; 32;
   32; 32; 32; 32; 32; 32; 32; 32; 32; 32; 32; 32; 32; 32; 32; 32; 32; 32; 32; 32; 32; 32; 32;
   32; 32; 32; 32; 32; 32; 32; 32; 32; 181; 32; 32; 32; 32; 32; 32; 32; 32; 32; 32; 32; 32; 32;
   32; 32; 32; 32; 32; 32; 32; 32; 32; 32; 32; 32; 32; 32; 32; 32; 32; 32; 32; 32; 32; 32; 32;
   32; 32; 32; 32; 32; 32; 224; 225; 226; 227; 228; 229; 230; 231; 232; 233; 234; 235; 236;
   237; 238; 239; 240; 241; 242; 243; 244; 245; 246; 247; 248; 249; 250; 32; 32; 32; 32; 32].

Definition charMap_8859_9 : list Z :=
  [32; 32; 32; 32; 32; 32; 32; 32; 32; 32; 32; 32; 32; 32; 32; 32; 32; 32; 32; 32; 32; 32; 32;
   32; 32; 32; 32; 32; 32; 32; 32; 32; 32; 32; 32; 32; 32; 32; 32; 0; 32; 32; 32; 32; 32; 32;
   32; 32; 32; 32; 32; 32; 32; 32; 32; 32; 32; 32; 32; 32; 32; 32; 32; 32; 32; 97; 98; 99; 100;
   101; 102; 103; 104; 105; 106; 107; 108; 109; 110; 111; 112; 113; 114; 115; 116; 117; 118;
   119; 120; 121; 122; 32; 32; 32; 32; 32; 32; 97; 98; 99; 100; 101; 102; 103; 104; 105; 106;
   107; 108; 109; 110; 111; 112; 113; 114; 115; 116; 117; 118; 119; 120; 121; 122; 32; 32; 32;
   32; 32; 32; 32; 32; 32; 32; 32; 32; 32; 32; 32; 32; 32; 32; 32; 32; 32; 32; 32; 32; 32; 32;
   32; 32; 32; 32; 32; 32; 32; 32; 32; 32; 32; 32; 32; 32; 32; 32; 32; 32; 32; 32; 32; 170; 32;
   32; 32; 32; 32; 32; 32; 32; 32; 32; 181; 32; 32; 32; 32; 186; 32; 32; 32; 32; 32; 224; 225;
   226; 227; 228; 229; 230; 231; 232; 233; 234; 235; 236; 237; 238; 239; 240; 241; 242; 243;
   244; 245; 246; 32; 248; 249; 250; 251; 252; 105; 254; 223; 224; 225; 226; 227; 228; 229;
   230; 231; 232; 233; 234; 235; 236; 237; 238; 239; 240; 241; 242; 243; 244; 245; 246; 32;
   248; 249; 250; 251; 252; 253; 254; 255].

Definition charMap_windows_1251 : list Z :=
  [32; 32; 32; 32; 32; 32; 32; 32; 32; 32; 32; 32; 32; 32; 32; 32; 32; 32; 32; 32; 32; 32; 32;
   32; 32; 32; 32; 32; 32; 32; 32; 32; 32; 32; 32; 32; 32; 32; 32; 0; 32; 32; 32; 32; 32; 32;
   32; 32; 32; 32; 32; 32; 32; 32; 32; 32; 32; 32; 32; 32; 32; 32; 32; 32; 32; 97; 98; 99; 100;
   101; 102; 103; 104; 105; 106; 107; 108; 109; 110; 111; 112; 113; 114; 115; 116; 117; 118;
   119; 120; 121; 122; 32; 32; 32; 32; 32; 32; 97; 98; 99; 100; 101; 102; 103; 104; 105; 106;
   107; 108; 109; 110; 111; 112; 113; 114; 115; 116; 117; 118; 119; 120; 121; 122; 32; 32; 32;
   32; 32; 144; 131; 32; 131; 32; 32; 32; 32; 32; 32; 154; 32; 156; 157; 158; 159; 144; 32; 32;
   32; 32; 32; 32; 32; 32; 32; 154; 32; 156; 157; 158; 159; 32; 162; 162; 188; 32; 180; 32; 32;
   184; 32; 186; 32; 32; 32; 32; 191; 32; 32; 179; 179; 180; 181; 32; 32; 184; 32; 186; 32;
   188; 190; 190; 191; 224; 225; 226; 227; 228; 229; 230; 231; 232; 233; 234; 235; 236; 237;
   238; 239; 240; 241; 242; 243; 244; 245; 246; 247; 248; 249; 250; 251; 252; 253; 254; 255;
   224; 225; 226; 227; 228; 229; 230; 231; 232; 233; 234; 235; 236; 237; 238; 239; 240; 241;
   242; 243; 244; 245; 246; 247; 248; 249; 250; 251; 252; 253; 254; 255].

Definition charMap_windows_1256 : list Z :=
  [32; 32; 32; 32; 32; 32; 32; 32; 32; 32; 32; 32; 32; 32; 32; 32; 32; 32; 32; 32; 32; 32; 32;
   32; 32; 32; 32; 32; 32; 32; 32; 32; 32; 32; 32; 32; 32; 32; 32; 0; 32; 32; 32; 32; 32; 32;
   32; 32; 32; 32; 32; 32; 32; 32; 32; 32; 32; 32; 32; 32; 32; 32; 32; 32; 32; 97; 98; 99; 100;
   101; 102; 103; 104; 105; 106; 107; 108; 109; 110; 111; 112; 113; 114; 115; 116; 117; 118;
   119; 120; 121; 122; 32; 32; 32; 32; 32; 32; 97; 98; 99; 100; 101; 102; 103; 104; 105; 106;
   107; 108; 109; 110; 111; 112; 113; 114; 115; 116; 117; 118; 119; 120; 121; 122; 32; 32; 32;
   32; 32; 32; 129; 32; 131; 32; 32; 32; 32; 136; 32; 138; 32; 156; 141; 142; 143; 144; 32; 32;
   32; 32; 32; 32; 32; 152; 32; 154; 32; 156; 32; 32; 159; 32; 32; 32; 32; 32; 32; 32; 32; 32;
   32; 170; 32; 32; 32; 32; 32; 32; 32; 32; 32; 32; 181; 32; 32; 32; 32; 32; 32; 32; 32; 32;
   32; 192; 193; 194; 195; 196; 197; 198; 199; 200; 201; 202; 203; 204; 205; 206; 207; 208;
   209; 210; 211; 212; 213; 214; 32; 216; 217; 218; 219; 220; 221; 222; 223; 224; 225; 226;
   227; 228; 229; 230; 231; 232; 233; 234; 235; 236; 237; 238; 239; 32; 32; 32; 32; 244; 32;
   32; 32; 32; 249; 32; 251; 252; 32; 32; 255].

Definition ngrams_windows_1251 : list (list Z * string) :=
  [([2155040; 2155246; 2155758; 2156512; 2156576; 2157280; 2157294; 2158048; 2158053; 2158305;
    2158574; 2158576; 2158816; 2159086; 2159090; 2159342; 2160626; 2162162; 14740968; 14742268;
    14937632; 15068156; 15068648; 15069682; 15069728; 15212783; 15263008; 15263776; 15269664;
    15459821; 15460384; 15465709; 15589408; 15590688; 15591653; 15591679; 15592992; 15593186;
    15605986; 15605999; 15606001; 15655456; 15655648; 15655918; 15657248; 15657980; 15658016;
    15659506; 15724267; 15724773; 15724776; 15724782; 15786210; 15787492; 15856352; 15856354;
    15856360; 15859488; 15918571; 15920672; 15920880; 15924256; 16249582; 16512288],
    "ru"%string)].

Definition ngrams_windows_1256 : list (list Z * string) :=
  [([2148321; 2148324; 2148551; 2153185; 2153965; 2154977; 2155492; 2156231; 13050055; 13091104;
    13093408; 13095200; 13099296; 13099459; 13099463; 13099464; 13099466; 13099468; 13099469;
    13099471; 13099475; 13099482; 13099486; 13099491; 13099494; 13099501; 13099808; 13100064;
    13100234; 13115591; 13181127; 13181149; 13181153; 13181155; 13181158; 13246663; 13574343;
    13617440; 13705415; 13748512; 13836487; 14295239; 14344684; 14544160; 14753991; 14797088;
    14806048; 14806304; 14885063; 14927648; 14928160; 14935072; 14950599; 15016135; 15058720;
    15124449; 15131680; 15474887; 15540423; 15540451; 15540454; 15583520; 15585568; 15590432],
    "ar"%string)].

Definition ngrams_8859_1 : list (list Z * string) :=
  [([2122016; 2122094; 2122341; 2122607; 2123375; 2123873; 2123877; 2124142; 2125153; 2125670;
    2125938; 2126437; 2126689; 2126708; 2126952; 2126959; 2127720; 6383972; 6384672; 6385184;
    6385252; 6386464; 6386720; 6386789; 6386793; 6561889; 6561908; 6627425; 6627443; 6627444;
    6644768; 6647412; 6648352; 6648608; 6713202; 6840692; 6841632; 6841714; 6906912; 6909472;
    6909543; 6909806; 6910752; 7217249; 7217268; 7234592; 7235360; 7238688; 7300640; 7302688;
    7303712; 7496992; 7500576; 7544929; 7544948; 7561577; 7566368; 7610484; 7628146; 7628897;
    7628901; 7629167; 7630624; 7631648],
    "en"%string);
   ([2122086; 2122100; 2122853; 2123118; 2123122; 2123375; 2123873; 2124064; 2125157; 2125671;
    2126053; 2126697; 2126708; 2126953; 2127465; 6383136; 6385184; 6385252; 6386208; 6386720;
    6579488; 6579566; 6579570; 6579572; 6627443; 6644768; 6644837; 6647328; 6647396; 6648352;
    6648421; 6648608; 6648864; 6713202; 6776096; 6776174; 6776178; 6907749; 6908960; 6909543;
    7038240; 7039845; 7103858; 7104871; 7105637; 7169380; 7234661; 7234848; 7235360; 7235429;
    7300896; 7302432; 7303712; 7398688; 7479396; 7479397; 7479411; 7496992; 7566437; 7610483;
    7628064; 7628146; 7629164; 7759218],
    "da"%string);
   ([2122094; 2122101; 2122341; 2122849; 2122853; 2122857; 2123113; 2123621; 2123873; 2124142;
    2125161; 2126691; 2126693; 2127214; 2127461; 2127471; 2127717; 2128501; 6448498; 6514720;
    6514789; 6514804; 6578547; 6579566; 6579570; 6580581; 6627428; 6627443; 6646126; 6646132;
    6647328; 6648352; 6648608; 6776174; 6841710; 6845472; 6906728; 6907168; 6909472; 6909541;
    6911008; 7104867; 7105637; 7217249; 7217252; 7217267; 7234592; 7234661; 7234848; 7235360;
    7235429; 7238757; 7479396; 7496805; 7497065; 7562088; 7566437; 7610468; 7628064; 7628142;
    7628146; 7695972; 7695975; 7759218],
    "de"%string);
   ([2122016; 2122593; 2122607; 2122853; 2123116; 2123118; 2123123; 2124142; 2124897; 2124911;
    2125921; 2125935; 2125938; 2126197; 2126437; 2126693; 2127214; 2128160; 6365283; 6365284;
    6365285; 6365292; 6365296; 6382441; 6382703; 6384672; 6386208; 6386464; 6515187; 6516590;
    6579488; 6579564; 6582048; 6627428; 6627429; 6627436; 6646816; 6647328; 6647412; 6648608;
    6648692; 6907246; 6943598; 7102752; 7106419; 7217253; 7238757; 7282788; 7282789; 7302688;
    7303712; 7303968; 7364978; 7435621; 7495968; 7497075; 7544932; 7544933; 7544944; 7562528;
    7628064; 7630624; 7693600; 15953440],
    "es"%string);
   ([2122101; 2122607; 2122849; 2122853; 2122869; 2123118; 2123124; 2124897; 2124901; 2125921;
    2125935; 2125938; 2126197; 2126693; 2126703; 2127214; 2154528; 6385268; 6386793; 6513952;
    6516590; 6579488; 6579571; 6583584; 6627425; 6627427; 6627428; 6627429; 6627436; 6627440;
    6627443; 6647328; 6647412; 6648352; 6648608; 6648864; 6649202; 6909806; 6910752; 6911008;
    7102752; 7103776; 7103859; 7169390; 7217252; 7234848; 7238432; 7238688; 7302688; 7302772;
    7304562; 7435621; 7479404; 7496992; 7544929; 7544932; 7544933; 7544940; 7544944; 7610468;
    7628064; 7629167; 7693600; 7696928],
    "fr"%string);
   ([2122092; 2122600; 2122607; 2122853; 2122857; 2123040; 2124140; 2124142; 2124897; 2125925;
    2125938; 2127214; 6365283; 6365284; 6365296; 6365299; 6386799; 6514789; 6516590; 6579564;
    6580512; 6627425; 6627427; 6627428; 6627433; 6627436; 6627440; 6627443; 6646816; 6646892;
    6647412; 6648352; 6841632; 6889569; 6889571; 6889572; 6889587; 6906144; 6908960; 6909472;
    6909806; 7102752; 7103776; 7104800; 7105633; 7234848; 7235872; 7237408; 7238757; 7282785;
    7282788; 7282793; 7282803; 7302688; 7302757; 7366002; 7495968; 7496992; 7563552; 7627040;
    7628064; 7629088; 7630624; 8022383],
    "it"%string);
   ([2122092; 2122341; 2122849; 2122853; 2122857; 2123109; 2123118; 2123621; 2123877; 2124142;
    2125153; 2125157; 2125680; 2126949; 2127457; 2127461; 2127471; 2127717; 2128489; 6381934;
    6381938; 6385184; 6385252; 6386208; 6386720; 6514804; 6579488; 6579566; 6579570; 6627426;
    6627446; 6645102; 6645106; 6647328; 6648352; 6648435; 6648864; 6776174; 6841716; 6907168;
    6909472; 6909543; 6910752; 7217250; 7217252; 7217253; 7217256; 7217263; 7217270; 7234661;
    7235360; 7302756; 7303026; 7303200; 7303712; 7562088; 7566437; 7610468; 7628064; 7628142;
    7628146; 7758190; 7759218; 7761775],
    "nl"%string);
   ([2122100; 2122102; 2122853; 2123118; 2123122; 2123375; 2123873; 2124064; 2125157; 2125671;
    2126053; 2126693; 2126699; 2126703; 2126708; 2126953; 2127465; 2155808; 6385252; 6386208;
    6386720; 6579488; 6579566; 6579572; 6627443; 6644768; 6647328; 6647397; 6648352; 6648421;
    6648864; 6648948; 6713202; 6776174; 6908779; 6908960; 6909543; 7038240; 7039845; 7103776;
    7105637; 7169380; 7169390; 7217267; 7234848; 7235360; 7235429; 7237221; 7300896; 7302432;
    7303712; 7398688; 7479411; 7496992; 7565165; 7566437; 7610483; 7628064; 7628142; 7628146;
    7629164; 7631904; 7631973; 7759218],
    "no"%string);
   ([2122016; 2122607; 2122849; 2122853; 2122863; 2123040; 2123123; 2125153; 2125423; 2125600;
    2125921; 2125935; 2125938; 2126197; 2126437; 2126693; 2127213; 6365281; 6365283; 6365284;
    6365296; 6382693; 6382703; 6384672; 6386208; 6386273; 6386464; 6516589; 6516590; 6578464;
    6579488; 6582048; 6582131; 6627425; 6627428; 6647072; 6647412; 6648608; 6648692; 6906144;
    6906721; 7169390; 7238757; 7238767; 7282785; 7282787; 7282788; 7282789; 7282800; 7303968;
    7364978; 7435621; 7495968; 7497075; 7544929; 7544932; 7544933; 7544944; 7566433; 7628064;
    7630624; 7693600; 14905120; 15197039],
    "pt"%string);
   ([2122100; 2122102; 2122853; 2123118; 2123510; 2123873; 2124064; 2124142; 2124655; 2125157;
    2125667; 2126053; 2126699; 2126703; 2126708; 2126953; 2127457; 2127465; 2155634; 6382693;
    6385184; 6385252; 6386208; 6386804; 6514720; 6579488; 6579566; 6579570; 6579572; 6644768;
    6647328; 6648352; 6648864; 6747762; 6776174; 6909036; 6909543; 7037216; 7105568; 7169380;
    7217267; 7233824; 7234661; 7235360; 7235429; 7235950; 7299944; 7302432; 7302688; 7398688;
    7479393; 7479411; 7495968; 7564129; 7565165; 7610483; 7627040; 7628064; 7628146; 7629164;
    7631904; 7758194; 14971424; 16151072],
    "sv"%string)].

Definition ngrams_8859_2 : list (list Z * string) :=
  [([2122016; 2122361; 2122863; 2124389; 2125409; 2125413; 2125600; 2125668; 2125935; 2125938;
    2126072; 2126447; 2126693; 2126703; 2126708; 2126959; 2127392; 2127481; 2128481; 6365296;
    6513952; 6514720; 6627440; 6627443; 6627446; 6647072; 6647533; 6844192; 6844260; 6910836;
    6972704; 7042149; 7103776; 7104800; 7233824; 7268640; 7269408; 7269664; 7282800; 7300206;
    7301737; 7304052; 7304480; 7304801; 7368548; 7368554; 7369327; 7403621; 7562528; 7565173;
    7566433; 7566441; 7566446; 7628146; 7630573; 7630624; 7676016; 12477728; 14773997;
    15296623; 15540336; 15540339; 15559968; 16278884],
    "cs"%string);
   ([2122016; 2122106; 2122341; 2123111; 2123116; 2123365; 2123873; 2123887; 2124147; 2124645;
    2124649; 2124790; 2124901; 2125153; 2125157; 2125161; 2125413; 2126714; 2126949; 2156915;
    6365281; 6365291; 6365293; 6365299; 6384416; 6385184; 6388256; 6447470; 6448494; 6645625;
    6646560; 6646816; 6646885; 6647072; 6647328; 6648421; 6648864; 6648933; 6648948; 6781216;
    6844263; 6909556; 6910752; 7020641; 7075450; 7169383; 7170414; 7217249; 7233899; 7234923;
    7234925; 7238688; 7300985; 7544929; 7567973; 7567988; 7568097; 7596391; 7610465; 7631904;
    7659891; 8021362; 14773792; 15299360],
    "hu"%string);
   ([2122618; 2122863; 2124064; 2124389; 2124655; 2125153; 2125161; 2125409; 2125417; 2125668;
    2125935; 2125938; 2126697; 2127648; 2127721; 2127737; 2128416; 2128481; 6365296; 6365303;
    6385257; 6514720; 6519397; 6519417; 6582048; 6584937; 6627440; 6627443; 6627447; 6627450;
    6645615; 6646304; 6647072; 6647401; 6778656; 6906144; 6907168; 6907242; 7037216; 7039264;
    7039333; 7170405; 7233824; 7235937; 7235941; 7282800; 7305057; 7305065; 7368556; 7369313;
    7369327; 7369338; 7502437; 7502457; 7563754; 7564137; 7566433; 7825765; 7955304; 7957792;
    8021280; 8022373; 8026400; 15955744],
    "pl"%string);
   ([2122016; 2122083; 2122593; 2122597; 2122607; 2122613; 2122853; 2122857; 2124897; 2125153;
    2125925; 2125938; 2126693; 2126819; 2127214; 2144873; 2158190; 6365283; 6365284; 6386277;
    6386720; 6386789; 6386976; 6513010; 6516590; 6518048; 6546208; 6579488; 6627425; 6627427;
    6627428; 6627440; 6627443; 6644000; 6646048; 6646885; 6647412; 6648692; 6889569; 6889571;
    6889572; 6889584; 6907168; 6908192; 6909472; 7102752; 7103776; 7106418; 7107945; 7234848;
    7238770; 7303712; 7365998; 7496992; 7497057; 7501088; 7594784; 7628064; 7631477; 7660320;
    7694624; 7695392; 12216608; 15625760],
    "ro"%string)].

Definition ngrams_8859_5 : list (list Z * string) :=
  [([2150944; 2151134; 2151646; 2152400; 2152480; 2153168; 2153182; 2153936; 2153941; 2154193;
    2154462; 2154464; 2154704; 2154974; 2154978; 2155230; 2156514; 2158050; 13688280; 13689580;
    13884960; 14015468; 14015960; 14016994; 14017056; 14164191; 14210336; 14211104; 14216992;
    14407133; 14407712; 14413021; 14536736; 14538016; 14538965; 14538991; 14540320; 14540498;
    14557394; 14557407; 14557409; 14602784; 14602960; 14603230; 14604576; 14605292; 14605344;
    14606818; 14671579; 14672085; 14672088; 14672094; 14733522; 14734804; 14803664; 14803666;
    14803672; 14806816; 14865883; 14868000; 14868192; 14871584; 15196894; 15459616],
    "ru"%string)].

Definition ngrams_8859_6 : list (list Z * string) :=
  [([2148324; 2148326; 2148551; 2152932; 2154986; 2155748; 2156006; 2156743; 13050055; 13091104;
    13093408; 13095200; 13100064; 13100227; 13100231; 13100232; 13100234; 13100236; 13100237;
    13100239; 13100243; 13100249; 13100258; 13100261; 13100264; 13100266; 13100320; 13100576;
    13100746; 13115591; 13181127; 13181153; 13181156; 13181157; 13181160; 13246663; 13574343;
    13617440; 13705415; 13748512; 13836487; 14229703; 14279913; 14805536; 14950599; 14993696;
    15001888; 15002144; 15016135; 15058720; 15059232; 15066656; 15081671; 15147207; 15189792;
    15255524; 15263264; 15278279; 15343815; 15343845; 15343848; 15386912; 15388960; 15394336],
    "ar"%string)].

Definition ngrams_8859_7 : list (list Z * string) :=
  [([2154989; 2154992; 2155497; 2155753; 2156016; 2156320; 2157281; 2157797; 2158049; 2158368;
    2158817; 2158831; 2158833; 2159604; 2159605; 2159847; 2159855; 14672160; 14754017;
    14754036; 14805280; 14806304; 14807292; 14807584; 14936545; 15067424; 15069728; 15147252;
    15199520; 15200800; 15278324; 15327520; 15330014; 15331872; 15393257; 15393268; 15525152;
    15540449; 15540453; 15540464; 15589664; 15725088; 15725856; 15790069; 15790575; 15793184;
    15868129; 15868133; 15868138; 15868144; 15868148; 15983904; 15984416; 15987951; 16048416;
    16048617; 16050157; 16050162; 16050666; 16052000; 16052213; 16054765; 16379168; 16706848],
    "el"%string)].

Definition ngrams_8859_8 : list (list Z * string) :=
  [([2154725; 2154727; 2154729; 2154746; 2154985; 2154990; 2155744; 2155749; 2155753; 2155758;
    2155762; 2155769; 2155770; 2157792; 2157796; 2158304; 2159340; 2161132; 14744096; 14950624;
    14950625; 14950628; 14950636; 14950638; 14950649; 15001056; 15065120; 15068448; 15068960;
    15071264; 15071776; 15278308; 15328288; 15328762; 15329773; 15330592; 15331104; 15333408;
    15333920; 15474912; 15474916; 15523872; 15524896; 15540448; 15540449; 15540452; 15540460;
    15540462; 15540473; 15655968; 15671524; 15787040; 15788320; 15788525; 15920160; 16261348;
    16312813; 16378912; 16392416; 16392417; 16392420; 16392428; 16392430; 16392441],
    "he"%string);
   ([2154725; 2154732; 2155753; 2155756; 2155758; 2155760; 2157040; 2157810; 2157817; 2158053;
    2158057; 2158565; 2158569; 2160869; 2160873; 2161376; 2161381; 2161385; 14688484; 14688492;
    14688493; 14688506; 14738464; 14738916; 14740512; 14741024; 14754020; 14754029; 14754042;
    14950628; 14950633; 14950636; 14950637; 14950639; 14950648; 14950650; 15002656; 15065120;
    15066144; 15196192; 15327264; 15327520; 15328288; 15474916; 15474925; 15474938; 15528480;
    15530272; 15591913; 15591920; 15591928; 15605988; 15605997; 15606010; 15655200; 15655968;
    15918112; 16326884; 16326893; 16326906; 16376864; 16441376; 16442400; 16442857],
    "he"%string)].

Definition ngrams_8859_9 : list (list Z * string) :=
  [([2122337; 2122345; 2122357; 2122849; 2122853; 2123621; 2123873; 2124140; 2124641; 2124655;
    2125153; 2125676; 2126689; 2126945; 2127461; 2128225; 6365282; 6384416; 6384737; 6384993;
    6385184; 6385405; 6386208; 6386273; 6386429; 6386685; 6388065; 6449522; 6578464; 6579488;
    6580512; 6627426; 6627435; 6644841; 6647328; 6648352; 6648425; 6648681; 6909029; 6909472;
    6909545; 6910496; 7102830; 7102834; 7103776; 7103858; 7217249; 7217250; 7217259; 7234657;
    7234661; 7234848; 7235872; 7235950; 7273760; 7498094; 7535982; 7759136; 7954720; 7958386;
    16608800; 16608868; 16609021; 16642301],
    "tr"%string)].
