(* ===== verification/Detector.v ===== *)
(** The character set detector (src/src/misc/charset_detector.c): text is
    compared with tables of frequent byte triples; the score is a [float], which
    is computed exactly (binary32, by the standard library's SpecFloat). *)
From Stdlib Require Import SpecFloat Sorted.
From S2P Require Import Prelude Utf8 Charset DetectorTables.

Local Open Scope Z_scope.

Record detector_row := Row {
  encoding : string; encoding_alt : option string;
  det_map : list Z; ngram_lang : list (list Z * string) }.

Definition detector_table : list detector_row :=
  [Row "ISO-8859-1" (Some "windows-1252") charMap_8859_1 ngrams_8859_1;
   Row "ISO-8859-2" (Some "windows-1250") charMap_8859_2 ngrams_8859_2;
   Row "ISO-8859-5" None charMap_8859_5 ngrams_8859_5;
   Row "ISO-8859-6" None charMap_8859_6 ngrams_8859_6;
   Row "ISO-8859-7" (Some "windows-1253") charMap_8859_7 ngrams_8859_7;
   Row "ISO-8859-8" (Some "windows-1255") charMap_8859_8 ngrams_8859_8;
   Row "ISO-8859-9" (Some "windows-1254") charMap_8859_9 ngrams_8859_9;
   Row "windows-1256" None charMap_windows_1256 ngrams_windows_1256;
   Row "windows-1251" None charMap_windows_1251 ngrams_windows_1251]%string.

(** One of the six steps of the search: [if(table[index + k] <= value) index += k]. *)
Definition search_step (table : list Z) (value : Z) (k index : Z) : res Z :=
  t ← mread table (Z.to_nat (index + k)); Ok (if t <=? value then index + k else index).

Definition ngram_search (table : list Z) (value : Z) : res Z :=
  index ← search_step table value 32 0;
  index ← search_step table value 16 index;
  index ← search_step table value 8 index;
  index ← search_step table value 4 index;
  index ← search_step table value 2 index;
  index ← search_step table value 1 index;
  t ← mread table (Z.to_nat index);
  let index := if value <? t then index - 1 else index in
  if index <? 0 then Ok (-1)
  else t ← mread table (Z.to_nat index); Ok (if negb (t =? value) then -1 else index).

Definition N_GRAM_MASK : Z := 16777215.

(** The loop over the text: [ngram], [ign_spc] and the two counters. *)
Fixpoint parse_ngram_loop (n map str : list Z) (ign_spc : bool) (ngram count hit : Z)
    : res (Z * Z * Z) :=
  match str with
  | [] => Ok (ngram, count, hit)
  | c :: str =>
      mb ← mread map (Z.to_nat (u8 c));
      if mb =? 0 then parse_ngram_loop n map str ign_spc ngram count hit
      else if (mb =? 32) && ign_spc then parse_ngram_loop n map str true ngram count hit
      else
        let ngram := Z.land (u32 (u32 (Z.shiftl ngram 8) + mb)) N_GRAM_MASK in
        count ← chk_int (count + 1);
        r ← ngram_search n ngram;
        hit ← (if 0 <=? r then chk_int (hit + 1) else Ok hit);
        parse_ngram_loop n map str (mb =? 32) ngram count hit
  end.

(** [ngram_hit] and [ngram_count] at the end. *)
Definition parse_ngram_counts (n map str : list Z) : res (Z * Z) :=
  x ← parse_ngram_loop n map str false 0 0 0;
  let '(ngram, count, hit) := x in
  let ngram := Z.land (u32 (u32 (Z.shiftl ngram 8) + 32)) N_GRAM_MASK in
  count ← chk_int (count + 1);
  r ← ngram_search n ngram;
  hit ← (if 0 <=? r then chk_int (hit + 1) else Ok hit);
  Ok (hit, count).

Definition float_of_int (n : Z) : spec_float := binary_normalize 24 128 n 0 false.

Definition parse_ngram (n map str : list Z) : res spec_float :=
  x ← parse_ngram_counts n map str;
  Ok (SFdiv 24 128 (float_of_int x.1) (float_of_int x.2)).

(** The best language so far: its score, and the name and the language. *)
Definition det_best : Type := spec_float * option (string * option string).

(** The loop over the languages of a row. *)
Fixpoint detector_langs (row : detector_row) (c1bytes : bool) (str : list Z)
    (nl : list (list Z * string)) (b : det_best) : res det_best :=
  match nl with
  | [] => Ok b
  | (n, lang) :: nl =>
      c ← parse_ngram n (det_map row) str;
      let b :=
        if SFltb (S754_zero false) c && SFltb b.1 c then
          let best := match c1bytes, encoding_alt row with
                      | true, Some alt => alt | _, _ => encoding row end in
          (c, Some (best, Some lang))
        else b in
      detector_langs row c1bytes str nl b
  end.

Fixpoint detector_rows (c1bytes : bool) (str : list Z) (rows : list detector_row) (b : det_best)
    : res det_best :=
  match rows with
  | [] => Ok b
  | row :: rows => b ← detector_langs row c1bytes str (ngram_lang row) b; detector_rows c1bytes str rows b
  end.

(** [histogram[(unsigned int)str[i]]++] over the text. *)
Fixpoint histogram_loop {sg : CharSign} (str h : list Z) : res (list Z) :=
  match str with
  | [] => Ok h
  | c :: str =>
      let i := Z.to_nat (u32 (cchar c)) in
      n ← mread h i;
      n ← chk_int (n + 1);
      h ← mwrite h i n;
      histogram_loop str h
  end.

(** The name of the set and the language; [m] is the memory at [str]. *)
Definition charset_detector {sg : CharSign} (big5table m : list Z) (len : Z)
    : res (option (string * option string)) :=
  let str := take (Z.to_nat len) m in
  h ← histogram_loop str (repeat 0 256);
  let c1bytes := existsb (fun i => negb (default 0 (h !! i) =? 0)) (seq 128 32) in
  b5 ← (if negb c1bytes then big5_convert big5table m len true else Ok None);
  match b5 with
  | Some (_ :: _) => Ok (Some ("BIG5"%string, None))
  | _ => b ← detector_rows c1bytes str detector_table (S754_zero false, None); Ok b.2
  end.

(** * The search *)

Section search.
Context (table : list Z) (v : Z).
Hypothesis table_len : length table = 64%nat.
Hypothesis table_sorted : StronglySorted Z.lt table.

Abbreviation entry j := (default 0 (table !! Z.to_nat j)).

Lemma entry_read j : 0 <= j < 64 -> mread table (Z.to_nat j) = Ok (entry j).
Proof using table_len.
  intros Hj. unfold mread. destruct (lookup_lt_is_Some_2 table (Z.to_nat j)) as [x ->]; [lia|]. done.
Qed.

Lemma sorted_lookup l i j x y : StronglySorted Z.lt l ->
  l !! i = Some x -> l !! j = Some y -> (i < j)%nat -> x < y.
Proof.
  clear. intros Hl. revert i j. induction Hl as [|a l Hl IH Ha]; intros i j Hi Hj Hij; [done|].
  destruct j as [|j]; [lia|]. destruct i as [|i]; simpl in Hi, Hj.
  - simplify_eq. rewrite Forall_forall in Ha. apply Ha; by apply list_elem_of_lookup_2 in Hj.
  - apply (IH i j); [done..|lia].
Qed.

Lemma entry_mono i j : 0 <= i < j -> j < 64 -> entry i < entry j.
Proof using table_len table_sorted.
  intros Hij Hj. destruct (lookup_lt_is_Some_2 table (Z.to_nat i)) as [x Hx]; [lia|].
  destruct (lookup_lt_is_Some_2 table (Z.to_nat j)) as [y Hy]; [lia|]. rewrite Hx, Hy.
  apply (sorted_lookup table (Z.to_nat i) (Z.to_nat j)); [done..|lia].
Qed.

(** The entries from [i + w] on are too large, the one at [i] is not, unless
    [i] is 0. *)
Definition narrowed (i w : Z) : Prop :=
  0 <= i /\ i + w <= 64 /\ (i = 0 \/ entry i <= v) /\ forall j, i + w <= j < 64 -> v < entry j.

Lemma search_step_narrows i k : 0 < k -> narrowed i (2 * k) ->
  exists i', search_step table v k i = Ok i' /\ narrowed i' k.
Proof using table_len table_sorted.
  intros Hk (Hi & Hw & Hl & Hu). unfold search_step. rewrite entry_read by lia. rewrite ok_bind.
  eexists. split; [done|]. destruct (Z.leb_spec (entry (i + k)) v) as [Hle|Hgt]; unfold narrowed.
  - split_and!; [lia|lia|by right|]. intros j Hj. apply Hu. lia.
  - split_and!; [lia|lia|done|]. intros j Hj. destruct (Z.eq_dec j (i + k)) as [->|]; [done|].
    pose proof (entry_mono (i + k) j). lia.
Qed.

Lemma ngram_search_ok :
  exists i, ngram_search table v = Ok i /\ -1 <= i < 64 /\ (0 <= i <-> v ∈ table) /\
    (0 <= i -> table !! Z.to_nat i = Some v).
Proof using table_len table_sorted.
  unfold ngram_search. assert (narrowed 0 (2 * 32)) as H by (unfold narrowed; split_and!; lia || by left).
  destruct (search_step_narrows 0 32 ltac:(done) H) as (i1 & -> & H1). rewrite ok_bind.
  destruct (search_step_narrows i1 16 ltac:(done) H1) as (i2 & -> & H2). rewrite ok_bind.
  destruct (search_step_narrows i2 8 ltac:(done) H2) as (i3 & -> & H3). rewrite ok_bind.
  destruct (search_step_narrows i3 4 ltac:(done) H3) as (i4 & -> & H4). rewrite ok_bind.
  destruct (search_step_narrows i4 2 ltac:(done) H4) as (i5 & -> & H5). rewrite ok_bind.
  destruct (search_step_narrows i5 1 ltac:(done) H5) as (i & -> & Hi & Hw & Hl & Hu). rewrite ok_bind.
  rewrite entry_read, ok_bind by lia. clear H H1 H2 H3 H4 H5.
  assert (forall j, 0 <= j < 64 -> table !! Z.to_nat j = Some (entry j)) as Hlk.
  { intros j Hj. destruct (lookup_lt_is_Some_2 table (Z.to_nat j)) as [x Hx]; [lia|]. by rewrite Hx. }
  assert (v ∈ table -> exists j, 0 <= j <= i /\ entry j = v) as Hin.
  { intros [j Hj]%list_elem_of_lookup_1. pose proof (lookup_lt_Some _ _ _ Hj). exists (Z.of_nat j).
    rewrite Nat2Z.id, Hj. split; [|done]. destruct (Z.lt_ge_cases i (Z.of_nat j)); [|lia].
    specialize (Hu (Z.of_nat j) ltac:(lia)). rewrite Nat2Z.id, Hj in Hu. simpl in Hu. lia. }
  destruct (Z.ltb_spec v (entry i)) as [Hlt|Hge].
  - destruct Hl as [->|]; [|lia]. cbn [Z.sub Z.add Z.opp Z.ltb Z.compare]. exists (-1).
    split_and!; [done|lia|lia| |lia]. split; [lia|]. intros (j & Hj & E)%Hin. assert (j = 0) as -> by lia. lia.
  - rewrite (proj2 (Z.ltb_ge i 0)), entry_read, ok_bind by lia.
    destruct (Z.eqb_spec (entry i) v) as [E|Hne]; cbn [negb].
    + exists i. split_and!; [done|lia|lia| |]; rewrite <- E; [|by intros; apply Hlk; lia].
      split; [|lia]. intros _. apply list_elem_of_lookup_2 with (Z.to_nat i), Hlk. lia.
    + exists (-1). split_and!; [done|lia|lia| |lia]. split; [lia|]. intros (j & Hj & E)%Hin.
      destruct (Z.eq_dec j i) as [->|]; [done|]. pose proof (entry_mono j i). lia.
Qed.
End search.

(** * Counting *)

(** The letters of a text: bytes without a letter are left out and a run of
    separators is one. *)
Fixpoint letters (map str : list Z) (ign_spc : bool) : list Z :=
  match str with
  | [] => []
  | c :: str =>
      let mb := default 0 (map !! Z.to_nat c) in
      if mb =? 0 then letters map str ign_spc
      else if (mb =? 32) && ign_spc then letters map str true
      else mb :: letters map str (mb =? 32)
  end.

(** The triples of a sequence of letters that follows the triple [g]. *)
Fixpoint triples (g : Z) (ls : list Z) : list Z :=
  match ls with
  | [] => []
  | mb :: ls => let g := (g * 256 + mb) mod 16777216 in g :: triples g ls
  end.

Definition hits (n gs : list Z) : Z := Z.of_nat (length (filter (.∈ n) gs)).

Definition table_ok (n : list Z) : Prop := length n = 64%nat /\ StronglySorted Z.lt n.
Definition map_ok (map : list Z) : Prop := length map = 256%nat /\ Forall is_byte map.

Lemma triple_step g mb : 0 <= g < 16777216 -> is_byte mb ->
  Z.land (u32 (u32 (Z.shiftl g 8) + mb)) N_GRAM_MASK = (g * 256 + mb) mod 16777216.
Proof.
  unfold is_byte. intros Hg Hb. rewrite Z.shiftl_mul_pow2 by done. change (2 ^ 8) with 256.
  rewrite !u32_id by (rewrite ?u32_id; lia). apply (Z.land_ones _ 24). done.
Qed.

Lemma hits_cons n g gs : hits n (g :: gs) = (if bool_decide (g ∈ n) then 1 else 0) + hits n gs.
Proof.
  unfold hits. rewrite filter_cons. case_bool_decide; [rewrite decide_True by done|rewrite decide_False by done];
    cbn [length]; lia.
Qed.

Lemma hits_bound n gs : 0 <= hits n gs <= Z.of_nat (length gs).
Proof. unfold hits. pose proof (length_filter (.∈ n) gs). lia. Qed.

(** One triple is counted. *)
Lemma count_step {A} n g count hit gs (k : Z -> Z -> res A) :
  table_ok n -> 0 <= count -> 0 <= hit <= count -> count + Z.of_nat (length (g :: gs)) <= int_max ->
  (count ← chk_int (count + 1);
   r ← ngram_search n g;
   hit ← (if 0 <=? r then chk_int (hit + 1) else Ok hit);
   k count hit) = k (count + 1) (hit + (if bool_decide (g ∈ n) then 1 else 0)).
Proof.
  intros [Hl Hs] Hc Hh Hb. cbn [length] in Hb. rewrite (chk_int_Ok (count + 1)), ok_bind by ilia.
  destruct (ngram_search_ok n g Hl Hs) as (i & -> & _ & Hi & _). rewrite ok_bind.
  destruct (Z.leb_spec 0 i) as [H0|H0].
  - rewrite bool_decide_true by by apply Hi. by rewrite chk_int_Ok, ok_bind by ilia.
  - rewrite bool_decide_false by (intros ?%Hi; lia). by rewrite ok_bind, Z.add_0_r.
Qed.

Lemma map_byte map c : map_ok map -> is_byte c -> exists mb,
  mread map (Z.to_nat (u8 c)) = Ok mb /\ default 0 (map !! Z.to_nat c) = mb /\ is_byte mb.
Proof.
  intros [Hl Hm] Hc. rewrite u8_id by done. unfold mread. unfold is_byte in Hc.
  destruct (lookup_lt_is_Some_2 map (Z.to_nat c)) as [mb E]; [lia|]. rewrite E. exists mb. split_and!; [done..|].
  rewrite Forall_forall in Hm. by apply Hm, list_elem_of_lookup_2 in E || (apply Hm; by apply list_elem_of_lookup_2 in E).
Qed.

Lemma parse_loop_ok n map (Hn : table_ok n) (Hm : map_ok map) str : forall ign g count hit,
  Forall is_byte str -> 0 <= g < 16777216 -> 0 <= hit <= count ->
  count + Z.of_nat (length str) < int_max ->
  exists g', 0 <= g' < 16777216 /\
    triples g (letters map str ign ++ [32]) = triples g (letters map str ign) ++ triples g' [32] /\
    parse_ngram_loop n map str ign g count hit =
      Ok (g', count + Z.of_nat (length (letters map str ign)), hit + hits n (triples g (letters map str ign))) /\
    (length (letters map str ign) <= length str)%nat /\
    length (triples g (letters map str ign)) = length (letters map str ign).
Proof.
  induction str as [|c str IH]; intros ign g count hit Hstr Hg Hh Hb.
  { exists g. change (hits n (triples g (letters map [] ign))) with 0. rewrite Z.add_0_r.
    split_and!; [lia|lia|done|by rewrite Z.add_0_r|done|done]. }
  apply Forall_cons in Hstr as [Hc Hstr]. cbn [parse_ngram_loop letters length] in *.
  destruct (map_byte map c Hm Hc) as (mb & -> & -> & Hmb). rewrite ok_bind.
  destruct (Z.eqb_spec mb 0) as [->|Hmb0].
  { destruct (IH ign g count hit Hstr Hg Hh ltac:(lia)) as (g' & H1 & H2 & H3 & H4 & H5).
    exists g'. split_and!; [lia|lia|done|done|lia|done]. }
  destruct ((mb =? 32) && ign) eqn:Eign.
  { destruct (IH true g count hit Hstr Hg Hh ltac:(lia)) as (g' & H1 & H2 & H3 & H4 & H5).
    exists g'. split_and!; [lia|lia|done|done|lia|done]. }
  rewrite triple_step by done. set (g1 := (g * 256 + mb) mod 16777216).
  assert (0 <= g1 < 16777216) as Hg1 by (apply Z.mod_pos_bound; lia).
  rewrite (count_step n g1 count hit []) by (done || simpl; lia).
  destruct (IH (mb =? 32) g1 (count + 1) (hit + (if bool_decide (g1 ∈ n) then 1 else 0)) Hstr Hg1)
    as (g' & H1 & H2 & H3 & H4 & H5); [case_bool_decide; lia|lia|].
  exists g'. cbn [app triples length]. fold g1. rewrite H2, H3, hits_cons.
  split_and!; [lia|lia|done| |lia|lia]. do 2 f_equal; [f_equal; lia|lia].
Qed.

Lemma parse_ngram_counts_ok (n map str : list Z) :
  table_ok n -> map_ok map -> Forall is_byte str -> Z.of_nat (length str) < int_max ->
  let gs := triples 0 (letters map str false ++ [32]) in
  parse_ngram_counts n map str = Ok (hits n gs, Z.of_nat (length gs)) /\
  0 < Z.of_nat (length gs) <= Z.of_nat (length str) + 1.
Proof.
  intros Hn Hm Hs Hl gs.
  destruct (parse_loop_ok n map Hn Hm str false 0 0 0 Hs ltac:(lia) ltac:(lia) ltac:(lia))
    as (g & Hg & Egs & E & Hle & Hlen).
  assert (length gs = S (length (letters map str false))) as Hgs.
  { subst gs. rewrite Egs, length_app, Hlen. cbn [triples length]. lia. }
  split; [|lia].
  unfold parse_ngram_counts. rewrite E, ok_bind. cbn iota beta. rewrite triple_step by (done || (unfold is_byte; lia)).
  set (g1 := (g * 256 + 32) mod 16777216).
  pose proof (hits_bound n (triples 0 (letters map str false))) as Hb. rewrite Hlen in Hb.
  rewrite (count_step n g1 _ _ [] (fun count hit => Ok (hit, count)) Hn) by (cbn [length]; lia).
  assert (hits n gs = hits n (triples 0 (letters map str false)) + (if bool_decide (g1 ∈ n) then 1 else 0)) as ->.
  { subst gs. rewrite Egs. cbn [triples]. fold g1. unfold hits. rewrite filter_app, length_app, Nat2Z.inj_add. f_equal.
    rewrite filter_cons, filter_nil. case_bool_decide; [by rewrite decide_True|by rewrite decide_False]. }
  rewrite Hgs. do 2 f_equal. lia.
Qed.



(** * The tables are what the search needs *)

Fixpoint increasing (l : list Z) : bool :=
  match l with
  | x :: (y :: _) as l' => (x <? y) && increasing l'
  | _ => true
  end.

Lemma increasing_sorted l : increasing l = true -> StronglySorted Z.lt l.
Proof.
  intros H. apply Sorted_StronglySorted; [intros ? ? ?; lia|].
  induction l as [|x [|y l] IH]; [constructor|by repeat constructor|].
  cbn [increasing] in H. apply andb_true_iff in H as [Hxy%Z.ltb_lt H]. constructor; [by apply IH|by constructor].
Qed.

Definition table_check (n : list Z) : bool := (length n =? 64)%nat && increasing n.
Definition row_check (row : detector_row) : bool :=
  (length (det_map row) =? 256)%nat && forallb (fun b => (0 <=? b) && (b <? 256)) (det_map row) &&
  forallb (fun p => table_check p.1) (ngram_lang row).

Lemma table_check_ok n : table_check n = true -> table_ok n.
Proof. intros [?%Nat.eqb_eq ?]%andb_true_iff. split; [done|by apply increasing_sorted]. Qed.

Definition row_ok (row : detector_row) : Prop :=
  map_ok (det_map row) /\ Forall (fun p => table_ok p.1) (ngram_lang row).

Lemma rows_checked : forallb row_check detector_table = true.
Proof. vm_compute. reflexivity. Qed.

Lemma rows_ok row : row ∈ detector_table -> row_ok row.
Proof.
  intros Hin%list_elem_of_In. pose proof rows_checked as H. rewrite forallb_forall in H. specialize (H row Hin).
  unfold row_check in H. rewrite !andb_true_iff in H. destruct H as [[Hl%Nat.eqb_eq Hb] Hn].
  rewrite forallb_forall in Hb, Hn. split; [split; [done|]|].
  - apply Forall_forall. intros b Hb'%list_elem_of_In. apply Hb, andb_true_iff in Hb' as [?%Z.leb_le ?%Z.ltb_lt].
    unfold is_byte. lia.
  - apply Forall_forall. intros p Hp%list_elem_of_In. by apply table_check_ok, Hn.
Qed.

(** * The detector *)

(** The name a row gives, and every name is known. *)
Definition row_name (c1bytes : bool) (row : detector_row) : string :=
  match c1bytes, encoding_alt row with true, Some alt => alt | _, _ => encoding row end.

Definition candidate (c1bytes : bool) (r : string * option string) : Prop :=
  exists row n lang, row ∈ detector_table /\ (n, lang) ∈ ngram_lang row /\
    r = (row_name c1bytes row, Some lang).

Lemma names_known : forallb (fun row => forallb (fun c1 =>
  bool_decide (charset_get (Some (lit (row_name c1 row))) <> None)) [true; false]) detector_table = true.
Proof. vm_compute. reflexivity. Qed.

Lemma candidate_known c1 name lang : candidate c1 (name, lang) -> charset_get (Some (lit name)) <> None.
Proof.
  intros (row & n & l & Hrow & _ & [= -> _]). pose proof names_known as H. rewrite forallb_forall in H.
  specialize (H row (proj1 (list_elem_of_In _ _) Hrow)). rewrite forallb_forall in H.
  assert (In c1 [true; false]) as Hc by (destruct c1; simpl; auto).
  specialize (H c1 Hc). by apply bool_decide_eq_true in H.
Qed.

Section rows.
Context (c1 : bool) (str : list Z).
Hypothesis str_bytes : Forall is_byte str.
Hypothesis str_len : Z.of_nat (length str) < int_max.

Definition best_ok (b : det_best) : Prop := match b.2 with Some r => candidate c1 r | None => True end.

Lemma langs_ok row nl : row ∈ detector_table -> (forall p, p ∈ nl -> p ∈ ngram_lang row) ->
  forall b, best_ok b -> exists b', detector_langs row c1 str nl b = Ok b' /\ best_ok b'.
Proof using str_bytes str_len.
  intros Hrow. destruct (rows_ok row Hrow) as [Hm Hn].
  induction nl as [|[n lang] nl IH]; intros Hsub b Hb; cbn [detector_langs]; [by exists b|].
  assert ((n, lang) ∈ ngram_lang row) as Hin by (apply Hsub, list_elem_of_here).
  rewrite Forall_forall in Hn. pose proof (Hn _ Hin) as Ht. unfold parse_ngram.
  destruct (parse_ngram_counts_ok n (det_map row) str Ht Hm str_bytes str_len) as [-> _]. rewrite !ok_bind.
  apply IH; [intros p Hp; apply Hsub; by apply list_elem_of_further|].
  destruct (_ && _); [|done]. exists row, n, lang. done.
Qed.

Lemma rows_run rows : (forall row, row ∈ rows -> row ∈ detector_table) ->
  forall b, best_ok b -> exists b', detector_rows c1 str rows b = Ok b' /\ best_ok b'.
Proof using str_bytes str_len.
  induction rows as [|row rows IH]; intros Hsub b Hb; cbn [detector_rows]; [by exists b|].
  destruct (langs_ok row (ngram_lang row) (Hsub _ ltac:(apply list_elem_of_here)) ltac:(done) b Hb)
    as (b' & -> & Hb'). rewrite ok_bind. apply IH; [|done]. intros r Hr. apply Hsub. by apply list_elem_of_further.
Qed.
End rows.

(** ** The histogram *)

Lemma repeat_default n i : default 0 (repeat 0 n !! i) = 0.
Proof.
  destruct (repeat 0 n !! i) as [x|] eqn:E; [|done].
  by apply list_elem_of_lookup_2, list_elem_of_In, repeat_spec in E.
Qed.

Definition count (c : Z) (s : list Z) : Z := Z.of_nat (length (filter (c =.) s)).

Lemma histogram_ok s : forall h, length h = 256%nat -> Forall is_byte s ->
  (forall i n, h !! i = Some n -> 0 <= n /\ n + Z.of_nat (length s) <= int_max) ->
  exists h', histogram_loop (sg := false) s h = Ok h' /\
    forall c, is_byte c -> default 0 (h' !! Z.to_nat c) = default 0 (h !! Z.to_nat c) + count c s.
Proof.
  induction s as [|x s IH]; intros h Hh Hs Hn; cbn [histogram_loop].
  { exists h. split; [done|]. intros c _. unfold count. rewrite filter_nil. cbn [length]. lia. }
  apply Forall_cons in Hs as [Hx Hs]. unfold cchar, char_signed.
  rewrite u32_id by (unfold is_byte in Hx; lia).
  destruct (lookup_lt_is_Some_2 h (Z.to_nat x)) as [n En]; [unfold is_byte in Hx; lia|].
  unfold mread at 1. rewrite En, ok_bind. destruct (Hn _ _ En) as [H0 Hb]. cbn [length] in Hn, Hb.
  rewrite chk_int_Ok, ok_bind by ilia. rewrite mwrite_Ok, ok_bind by (unfold is_byte in Hx; lia).
  destruct (IH (<[Z.to_nat x := n + 1]> h)) as (h' & E' & Hh'); [by rewrite length_insert|done| |].
  - intros i m [(<- & <- & _)|[Hne Hi]]%list_lookup_insert_Some; [lia|]. destruct (Hn _ _ Hi). lia.
  - exists h'. split; [done|]. intros c Hc. rewrite Hh' by done. unfold count. rewrite filter_cons.
    destruct (Z.eq_dec c x) as [->|Hne].
    + rewrite decide_True by done. rewrite list_lookup_insert_eq by (unfold is_byte in Hx; lia). rewrite En.
      cbn [default from_option length id]. lia.
    + rewrite decide_False by done. rewrite list_lookup_insert_ne; [done|]. unfold is_byte in *. lia.
Qed.

Lemma count_pos c s : 0 <= count c s /\ (count c s <> 0 <-> c ∈ s).
Proof.
  unfold count. split; [lia|]. split.
  - intros H. destruct (filter (c =.) s) as [|x l] eqn:E; [done|].
    assert (x ∈ filter (c =.) s) as [-> Hx]%list_elem_of_filter by (rewrite E; apply list_elem_of_here). done.
  - intros H. assert (c ∈ filter (c =.) s) as Hf by by apply list_elem_of_filter.
    destruct (filter (c =.) s); [by apply elem_of_nil in Hf|]. cbn [length]. lia.
Qed.

(** Whether the text has a C1 control byte. *)
Definition has_c1 (s : list Z) : bool := existsb (fun c => (128 <=? c) && (c <=? 159)) s.

Lemma c1bytes_ok (s h : list Z) : Forall is_byte s ->
  (forall c, is_byte c -> default 0 (h !! Z.to_nat c) = count c s) ->
  existsb (fun i => negb (default 0 (h !! i) =? 0)) (seq 128 32) = has_c1 s.
Proof.
  intros Hs Hh. unfold has_c1. apply eq_true_iff_eq. rewrite !existsb_exists. split.
  - intros (i & Hi%in_seq & Hne%negb_true_iff%Z.eqb_neq). rewrite <- (Nat2Z.id i), Hh in Hne by (unfold is_byte; lia).
    apply count_pos in Hne. exists (Z.of_nat i). split; [by apply list_elem_of_In|].
    apply andb_true_iff. rewrite !Z.leb_le. lia.
  - intros (c & Hc & [H1%Z.leb_le H2%Z.leb_le]%andb_true_iff). apply list_elem_of_In in Hc.
    exists (Z.to_nat c). split; [apply in_seq; lia|]. rewrite Hh by (unfold is_byte; lia).
    apply negb_true_iff, Z.eqb_neq. by apply count_pos.
Qed.

(** The score of a text for a language counts the triples of its letters,
    ended by a separator: the second number is how many there are, the first how
    many of them the language's table has; the unrolled binary search finds
    exactly the members of the sorted table, and no index leaves a table. *)
Theorem parse_ngram_counts_spec (n map str : list Z) :
  table_ok n -> map_ok map -> Forall is_byte str -> Z.of_nat (length str) < int_max ->
  let gs := triples 0 (letters map str false ++ [32]) in
  parse_ngram_counts n map str = Ok (hits n gs, Z.of_nat (length gs)) /\
  0 <= hits n gs <= Z.of_nat (length gs) /\ 0 < Z.of_nat (length gs) <= Z.of_nat (length str) + 1.
Proof.
  intros Hn Hm Hs Hl gs. destruct (parse_ngram_counts_ok n map str Hn Hm Hs Hl) as [E Hlen].
  split_and!; [exact E|apply hits_bound..|apply Hlen|apply Hlen].
Qed.

(** "an error" has nine triples, two of them frequent in English. *)
Lemma parse_ngram_counts_spec_witness :
  exists n lang, head ngrams_8859_1 = Some (n, lang) /\    parse_ngram_counts n charMap_8859_1 (lit "an error") = Ok (2, 9).
Proof.
  destruct (rows_ok (Row "ISO-8859-1" (Some "windows-1252") charMap_8859_1 ngrams_8859_1)%string) as [Hm Hn];
    [apply list_elem_of_here|]. unfold ngrams_8859_1 in *. cbn [ngram_lang det_map] in *.
  eexists _, _. split; [reflexivity|]. apply Forall_cons in Hn as [Ht _].
  destruct (parse_ngram_counts_spec _ charMap_8859_1 (lit "an error") Ht Hm) as [E _].
  - apply (bool_decide_unpack _). vm_compute. exact I.
  - vm_compute. reflexivity.
  - cbn [fst] in E. rewrite E. vm_compute. reflexivity.
Defined.

(** For a C string the detector answers BIG5 exactly when the string has no
    C1 control byte and converts as BIG5 without an error; otherwise it answers
    nothing, or the language of a row of its table with the row's encoding, or
    its Windows variant when there are C1 control bytes.  Every name it answers
    is one [charset_get] knows.  Only the BIG5 conversion can read out of
    bounds. *)
Theorem charset_detector_spec (big5table s rest : list Z) :
  cstring_ok s -> Z.of_nat (length s) < int_max ->
  let big5 := big5_convert (sg := false) big5table (s ++ 0 :: rest) (Z.of_nat (length s)) true in
  match charset_detector (sg := false) big5table (s ++ 0 :: rest) (Z.of_nat (length s)) with
  | Fault f => has_c1 s = false /\ big5 = Fault f
  | Ok None => True
  | Ok (Some (name, lang)) =>
      charset_get (Some (lit name)) <> None /\
      ((has_c1 s = false /\ (exists c t, big5 = Ok (Some (c :: t))) /\ name = "BIG5"%string /\ lang = None) \/
       candidate (has_c1 s) (name, lang))
  end.
Proof.
  intros Hs Hl big5. pose proof (cstring_bytes s Hs) as Hb. unfold charset_detector. rewrite Nat2Z.id, take_app_length.
  destruct (histogram_ok s (repeat 0 256) eq_refl Hb) as (h & -> & Hh).
  { intros i n Hi%list_elem_of_lookup_2%list_elem_of_In%repeat_spec. subst. lia. }
  rewrite ok_bind. cbv zeta. rewrite (c1bytes_ok s h Hb).
  2: { intros c Hc. rewrite Hh by done. by rewrite repeat_default. }
  fold big5.
  destruct (rows_run (has_c1 s) s Hb Hl detector_table ltac:(done) (S754_zero false, None) I) as ([f r] & Er & Hr).
  assert (match Ok r with
    | Ok (Some (name, lang)) => charset_get (Some (lit name)) <> None /\
      ((has_c1 s = false /\ (exists c t, big5 = Ok (Some (c :: t))) /\ name = "BIG5"%string /\ lang = None) \/
       candidate (has_c1 s) (name, lang))
    | _ => True end) as Hres.
  { destruct r as [[name lang]|]; [|done]. split; [by apply (candidate_known (has_c1 s) name lang)|by right]. }
  destruct (has_c1 s) eqn:Hc1; cbn [negb]; rewrite ?ok_bind.
  { rewrite Er, ok_bind. by destruct r as [[name lang]|]. }
  destruct big5 as [[[|c t]|]|f'] eqn:E5; rewrite ?ok_bind; [|..|done].
  - rewrite Er, ok_bind. by destruct r as [[name lang]|].
  - split; [vm_compute; discriminate|]. left. split_and!; eauto.
  - rewrite Er, ok_bind. by destruct r as [[name lang]|].
Qed.

Lemma charset_detector_spec_witness :
  exists lang, charset_detector (sg := false) [] (lit "the other" ++ [233; 10] ++ [0]) 11 =
    Ok (Some ("ISO-8859-1"%string, lang)) /\ charset_get (Some (lit "ISO-8859-1")) <> None.
Proof.
  pose proof (charset_detector_spec [] (lit "the other" ++ [233; 10]) []) as H.
  assert (cstring_ok (lit "the other" ++ [233; 10])) as Hs by (apply (bool_decide_unpack _); vm_compute; exact I).
  specialize (H Hs ltac:(vm_compute; reflexivity)). cbv zeta in H.
  assert (charset_detector (sg := false) [] ((lit "the other" ++ [233; 10]) ++ [0]) 11 =
    Ok (Some ("ISO-8859-1", Some "en")%string)) as E by (vm_compute; reflexivity).
  change (Z.of_nat (length (lit "the other" ++ [233; 10]))) with 11 in H. rewrite E in H.
  exists (Some "en"%string). split; [exact E|apply H].
Defined.
