(* ===== verification/HtsmsgXml.v ===== *)
(** The XML reader (src/src/htsmsg/htsmsg_xml.c): an XML document becomes an
    htsmsg whose fields point into the buffer that is parsed.  The buffer is
    written while it is read: the byte behind every name, attribute value and
    unbroken body becomes its terminator.

    A [char *] into the buffer is an offset.  Every definition takes a flag
    [copy], which is [false] in the program; with [true] a string is always
    allocated, as the source does where a line ending would be overwritten, and
    the buffer is never written.  That reading is the reference the in-place
    one is compared with. *)
From S2P Require Import Prelude Clib Htsmsg Utf8 Html.

Local Open Scope Z_scope.

(** * The buffer *)

(** [while(!(p *src)) src++] *)
Fixpoint scan_from (p : Z -> bool) (m : list Z) (i : nat) : res nat :=
  match m with
  | [] => Fault OobRead
  | c :: m => if p c then Ok i else scan_from p m (S i)
  end.
Definition scan (p : Z -> bool) (mem : list Z) (src : nat) : res nat :=
  scan_from p (drop src mem) src.

(** Comparison with a constant that has no NUL, up to the first difference. *)
Fixpoint mstarts (t m : list Z) : res bool :=
  match t, m with
  | [], _ => Ok true
  | _, [] => Fault OobRead
  | c :: t, d :: m => if d =? c then mstarts t m else Ok false
  end.
Definition starts (t : list Z) (mem : list Z) (src : nat) : res bool :=
  mstarts t (drop src mem).

(** The bytes between two pointers. *)
Definition mslice (mem : list Z) (start len : nat) : res (list Z) :=
  if decide (start + len <= length mem)%nat then Ok (take len (drop start mem))
  else Fault OobRead.

(** The [%.10s] conversion: up to [n] bytes of a string. *)
Fixpoint cstr_n (n : nat) (m : list Z) : res (list Z) :=
  match n, m with
  | O, _ => Ok []
  | S _, [] => Fault OobRead
  | S n, c :: m => if c =? 0 then Ok [] else r ← cstr_n n m; Ok (c :: r)
  end.

(** * State *)

(** A string of the message: in the buffer, or allocated. *)
Inductive xstr :=
| XBuf (off : nat)
| XHeap (s : list Z).

(** A field: [val] is [None] while its type is HMF_MAP, the string of the body
    once it is HMF_STR. *)
Inductive xfield :=
| XField (name : xstr) (xmlattr : bool) (ns : option (list Z)) (val : option xstr)
         (childs : option (list xfield)).

(** The lists link nodes by address; the number stands for it. *)
Record xmlns := Xmlns {
  xmlns_addr : nat;
  xmlns_prefix : list Z;
  xmlns_normalized : list Z
}.

Record xmlerr := Xmlerr { xp_errmsg : list Z; xp_errpos : nat; xp_parser_err_line : Z }.

Record xmlparser := Xp {
  xp_mem : list Z;                (* the buffer [buf->b_ptr] *)
  xp_latin1 : bool;               (* [xp_encoding] is XML_ENCODING_8859_1 *)
  xp_err : option xmlerr;
  xp_namespaces : list xmlns;
  xp_addr : nat                   (* the next address *)
}.

Definition xp_set_mem (xp : xmlparser) (mem : list Z) : xmlparser :=
  Xp mem (xp_latin1 xp) (xp_err xp) (xp_namespaces xp) (xp_addr xp).
Definition xp_set_namespaces (xp : xmlparser) (l : list xmlns) : xmlparser :=
  Xp (xp_mem xp) (xp_latin1 xp) (xp_err xp) l (xp_addr xp).
Definition xp_set_latin1 (xp : xmlparser) (b : bool) : xmlparser :=
  Xp (xp_mem xp) b (xp_err xp) (xp_namespaces xp) (xp_addr xp).

(** The message is cut to the 127 characters of its buffer.  [line] is
    [__LINE__], the first line of the invocation. *)
Definition xmlerr2 (xp : xmlparser) (pos : nat) (line : Z) (msg : list Z) : xmlparser :=
  Xp (xp_mem xp) (xp_latin1 xp) (Some (Xmlerr (take 127 msg) pos line)) (xp_namespaces xp)
     (xp_addr xp).

(** A segment of the text of an element.  [cc_end] has no value until it is
    assigned; [CcUni] is the segment of [add_unicode], whose text is in the
    node. *)
Inductive cdata_content :=
| CcSrc (latin1 : bool) (cc_start : nat) (cc_end : option nat)
| CcUni (cc_buf : list Z).

Definition cc_set_end (e : nat) (cc : cdata_content) : cdata_content :=
  match cc with CcSrc l s _ => CcSrc l s (Some e) | CcUni _ => cc end.
(** [if(cc != NULL) cc->cc_end = src] *)
Definition cc_close (ccq : list cdata_content) (cc : option nat) (src : nat) : list cdata_content :=
  match cc with Some i => alter (cc_set_end src) i ccq | None => ccq end.

Definition cc_bytes (mem : list Z) (cc : cdata_content) : res (list Z) :=
  match cc with
  | CcUni bs => Ok bs
  | CcSrc _ s None => Fault Uninitialised
  | CcSrc _ s (Some e) => if (s <=? e)%nat then mslice mem s (e - s) else Fault OobRead
  end.

Definition xml_is_cc_ws (mem : list Z) (cc : cdata_content) : res bool :=
  bs ← cc_bytes mem cc; Ok (forallb (fun c => c <=? 32) bs).

Definition is_xmlws (c : Z) : bool := (0 <? c) && (c <=? 32).

(** [add_unicode]: the node has room for 6 bytes. *)
Definition add_unicode (ccq : list cdata_content) (c : Z) : res (list cdata_content) :=
  if (length (utf8_put c) <=? 6)%nat then Ok (ccq ++ [CcUni (utf8_put c)]) else Fault OobWrite.

(** The digits after [base]; the result is 0 for a malformed reference. *)
Fixpoint char_ref_digits (hex : bool) (m : list Z) (src : nat) (v : Z) : res (Z * nat) :=
  match m with
  | [] => Fault OobRead
  | c :: m =>
      let base := if hex then 16 else 10 in
      let digit k :=
        v ← chk_int (v * base);
        v ← chk_int (v + c);
        char_ref_digits hex m (S src) (v - k) in
      if is_digit c then digit 48
      else if hex && (97 <=? c) && (c <=? 102) then digit (97 - 10)
      else if hex && (65 <=? c) && (c <=? 70) then digit (65 - 10)
      else if c =? 59 then Ok (v, S src)
      else Ok (0, src)
  end.

Definition decode_character_reference (mem : list Z) (src : nat) : res (Z * nat) :=
  c ← mread mem src;
  if c =? 120 then char_ref_digits true (drop (S src) mem) (S src) 0
  else char_ref_digits false (drop src mem) src 0.

(** * Fields *)

Definition xstr_get (mem : list Z) (x : xstr) : res (list Z) :=
  match x with XBuf off => cstr_at (drop off mem) | XHeap s => Ok s end.
(** [p + n] *)
Definition xstr_adv (n : nat) (x : xstr) : xstr :=
  match x with XBuf off => XBuf (off + n) | XHeap s => XHeap (drop n s) end.

Fixpoint xmlns_find (l : list xmlns) (prefix : list Z) : option (list Z) :=
  match l with
  | [] => None
  | ns :: l =>
      if decide (xmlns_prefix ns = prefix) then Some (xmlns_normalized ns) else xmlns_find l prefix
  end.

(** The new field; the callers append it and fill in what they add. *)
Definition add_xml_field (xp : xmlparser) (tagname : xstr) (xmlattr : bool) (val : option xstr)
    : res xfield :=
  name ← xstr_get (xp_mem xp) tagname;
  match strchr 58 name with
  | Some (prefix, _ :: _) =>
      match xmlns_find (xp_namespaces xp) prefix with
      | Some ns => Ok (XField (xstr_adv (length prefix + 1) tagname) xmlattr (Some ns) val None)
      | None => Ok (XField tagname xmlattr None val None)
      end
  | _ => Ok (XField tagname xmlattr None val None)
  end.

Definition xmlns_destroy (ids : list nat) (l : list xmlns) : list xmlns :=
  filter (fun ns => xmlns_addr ns ∉ ids) l.

(** [int] from the distance of two pointers. *)
Definition ptrdiff (q p : nat) : Z := s32 (Z.of_nat q - Z.of_nat p).

(** The end of [htsmsg_xml_parse_attrib]: a namespace declaration, or a new
    field whose strings are allocated or left in the buffer. *)
Definition attrib_add (copy : bool) (xp : xmlparser) (msg : list xfield) (src : nat)
    (scope : option (list nat)) (attribname an payload pn : nat)
    : res (option nat * list xfield * option (list nat) * xmlparser) :=
  let mem := xp_mem xp in
  isns ← (match scope with
          | Some _ => if (6 <? an)%nat then starts (lit "xmlns:") mem attribname else Ok false
          | None => Ok false
          end);
  if isns : bool then
    prefix ← mslice mem (attribname + 6) (an - 6);
    uri ← mslice mem payload pn;
    Ok (Some src, msg, (fun ids => xp_addr xp :: ids) <$> scope,
        Xp mem (xp_latin1 xp) (xp_err xp) (Xmlns (xp_addr xp) prefix uri :: xp_namespaces xp)
           (S (xp_addr xp)))
  else
    a ← mread mem (attribname + an);
    b ← mread mem (payload + pn);
    if copy || (a =? 10) || (b =? 10) then
      name ← mslice mem attribname an;
      value ← mslice mem payload pn;
      f ← add_xml_field xp (XHeap name) true (Some (XHeap value));
      Ok (Some src, msg ++ [f], scope, xp)
    else
      mem ← mwrite mem (attribname + an) 0;
      mem ← mwrite mem (payload + pn) 0;
      let xp := xp_set_mem xp mem in
      f ← add_xml_field xp (XBuf attribname) true (Some (XBuf payload));
      Ok (Some src, msg ++ [f], scope, xp).

(** The result: the new position ([None] for NULL), the fields, the namespaces
    declared so far when there is a list for them, and the parser. *)
Definition htsmsg_xml_parse_attrib (copy : bool) (xp : xmlparser) (msg : list xfield) (src : nat)
    (scope : option (list nat)) : res (option nat * list xfield * option (list nat) * xmlparser) :=
  let fail pos line text := Ok (None, msg, scope, xmlerr2 xp pos line text) in
  let mem := xp_mem xp in
  let attribname := src in
  src ← scan (fun c => (c =? 0) || is_xmlws c || (c =? 61)) mem src;
  c ← mread mem src;
  if c =? 0 then fail src 253 (lit "Unexpected end of file during attribute name parsing") else
  let attriblen := ptrdiff src attribname in
  if (attriblen <? 1) || (65535 <? attriblen) then fail attribname 264 (lit "Invalid attribute name") else
  src ← scan (fun c => negb (is_xmlws c)) mem src;
  c ← mread mem src;
  if negb (c =? 61) then fail src 272 (lit "Expected '=' in attribute parsing") else
  src ← scan (fun c => negb (is_xmlws c)) mem (S src);
  quote ← mread mem src;
  let src := S src in
  if negb (quote =? 34) && negb (quote =? 39)
  then fail (src - 1)%nat 284 (lit "Expected ' or " ++ [34] ++ lit " before attribute value") else
  let payload := src in
  src ← scan (fun c => (c =? 0) || (c =? quote)) mem src;
  c ← mread mem src;
  if c =? 0 then fail src 291 (lit "Unexpected end of file during attribute value parsing") else
  let payloadlen := ptrdiff src payload in
  if (payloadlen <? 0) || (65535 <? payloadlen) then fail payload 301 (lit "Invalid attribute value") else
  src ← scan (fun c => negb (is_xmlws c)) mem (S src);
  attrib_add copy xp msg src scope attribname (Z.to_nat attriblen) payload (Z.to_nat payloadlen).

(** The loop of a start tag: the attributes up to the closing bracket.  The
    flag of the result is [empty]. *)
Fixpoint parse_tag_attribs (copy : bool) (fuel : nat) (xp : xmlparser) (m : list xfield) (src : nat)
    (nslist : list nat) : res (option (nat * bool) * list xfield * list nat * xmlparser) :=
  match fuel with
  | O => Fault NoFuel
  | S fuel =>
      src ← scan (fun c => negb (is_xmlws c)) (xp_mem xp) src;
      c ← mread (xp_mem xp) src;
      if c =? 0 then
        Ok (None, m, nslist, xmlerr2 xp src 396 (lit "Unexpected end of file in tag"))
      else
      empty ← starts (lit "/>") (xp_mem xp) src;
      if empty : bool then Ok (Some ((src + 2)%nat, true), m, nslist, xp)
      else if c =? 62 then Ok (Some (S src, false), m, nslist, xp)
      else
        '(r, m, scope, xp) ← htsmsg_xml_parse_attrib copy xp m src (Some nslist);
        match r with
        | None => Ok (None, m, default [] scope, xp)
        | Some src => parse_tag_attribs copy fuel xp m src (default [] scope)
        end
  end.

(** The same loop of a processing instruction. *)
Fixpoint parse_pi_attribs (copy : bool) (fuel : nat) (xp : xmlparser) (attrs : list xfield) (src : nat)
    : res (option nat * list xfield * xmlparser) :=
  match fuel with
  | O => Fault NoFuel
  | S fuel =>
      src ← scan (fun c => negb (is_xmlws c)) (xp_mem xp) src;
      c ← mread (xp_mem xp) src;
      if c =? 0 then
        Ok (None, attrs, xmlerr2 xp src 493
              (lit "Unexpected end of file during parsing of Processing instructions"))
      else
      stop ← starts (lit "?>") (xp_mem xp) src;
      if stop : bool then Ok (Some (src + 2)%nat, attrs, xp)
      else
        '(r, attrs, _, xp) ← htsmsg_xml_parse_attrib copy xp attrs src None;
        match r with
        | None => Ok (None, attrs, xp)
        | Some src => parse_pi_attribs copy fuel xp attrs src
        end
  end.

(** [parent] is [None] inside of an element. *)
Definition htsmsg_xml_parse_pi (copy : bool) (xp : xmlparser) (parent : option (list xfield))
    (src : nat) : res (option nat * option (list xfield) * xmlparser) :=
  let s := src in
  src ← scan (fun c => (c =? 0) || is_xmlws c || (c =? 63)) (xp_mem xp) src;
  c ← mread (xp_mem xp) src;
  if c =? 0 then
    Ok (None, parent, xmlerr2 xp src 465
          (lit "Unexpected end of file during parsing of Processing instructions"))
  else
  let l := ptrdiff src s in
  if (l <? 1) || (1024 <? l) then
    Ok (None, parent, xmlerr2 xp src 477 (lit "Invalid 'Processing instructions' name"))
  else
  piname ← mslice (xp_mem xp) s (Z.to_nat l);
  '(r, attrs, xp) ← parse_pi_attribs copy (length (xp_mem xp)) xp [] src;
  match r with
  | None => Ok (None, parent, xp)
  | Some src =>
      Ok (Some src,
          match attrs, parent with
          | _ :: _, Some fs => Some (fs ++ [XField (XHeap piname) false None None (Some attrs)])
          | _, _ => parent
          end, xp)
  end.

Fixpoint comment_end (m : list Z) (src : nat) : res (option nat) :=
  match m with
  | [] => Fault OobRead
  | c :: m' =>
      if c =? 0 then Ok None
      else
        stop ← mstarts (lit "-->") m;
        if stop : bool then Ok (Some (src + 3)%nat) else comment_end m' (S src)
  end.
Definition xml_parse_comment (xp : xmlparser) (src : nat) : res (option nat * xmlparser) :=
  r ← comment_end (drop src (xp_mem xp)) src;
  match r with
  | None => Ok (None, xmlerr2 xp src 529 (lit "Unexpected end of file inside a comment"))
  | Some src => Ok (Some src, xp)
  end.

Definition decode_label_reference (xp : xmlparser) (ccq : list cdata_content) (src : nat)
    : res (option nat * list cdata_content * xmlparser) :=
  let s := src in
  src ← scan (fun c => (c =? 0) || (c =? 59)) (xp_mem xp) src;
  c ← mread (xp_mem xp) src;
  if c =? 0 then
    Ok (None, ccq, xmlerr2 xp s 555
          (lit "Unexpected end of file during parsing of label reference"))
  else
  let l := ptrdiff src s in
  if l <? 1 then Ok (None, ccq, xmlerr2 xp s 562 (lit "Too short label reference"))
  else if 1024 <? l then Ok (None, ccq, xmlerr2 xp s 567 (lit "Too long label reference"))
  else
  label ← mslice (xp_mem xp) s (Z.to_nat l);
  let code := html_entity_lookup label in
  if negb (code =? -1) then
    ccq ← add_unicode ccq code;
    Ok (Some (S src), ccq, xp)
  else
    Ok (None, ccq, xmlerr2 xp s 580
          (lit "Unknown label referense: " ++ [34; 38] ++ label ++ [59; 34; 10])).

(** * Elements *)

(** A message without fields is released instead. *)
Definition set_childs (m : list xfield) (f : xfield) : xfield :=
  match m with _ :: _ => let 'XField n a ns v _ := f in XField n a ns v (Some m) | [] => f end.
Definition xf_set_str (x : xstr) (f : xfield) : xfield :=
  let 'XField n a ns _ c := f in XField n a ns (Some x) c.

Fixpoint trim_ws (mem : list Z) (ccq : list cdata_content) : res (list cdata_content) :=
  match ccq with
  | [] => Ok []
  | cc :: ccq' =>
      w ← xml_is_cc_ws mem cc;
      if w : bool then trim_ws mem ccq' else Ok ccq
  end.

(** The bytes a segment takes in the body, with Latin-1 converted. *)
Definition cc_encode (mem : list Z) (cc : cdata_content) : res (list Z) :=
  bs ← cc_bytes mem cc;
  Ok (match cc with CcSrc true _ _ => concat (map utf8_put bs) | _ => bs end).

(** The first pass over the segments: [c] bytes in [y] pieces. *)
Fixpoint cd_measure (mem : list Z) (ccq : list cdata_content) (c y : Z) : res (Z * Z) :=
  match ccq with
  | [] => Ok (c, y)
  | cc :: ccq =>
      bs ← cc_bytes mem cc;
      let n := Z.of_nat (length bs) in
      match cc with
      | CcSrc true _ _ =>
          l ← chk_int (n + Z.of_nat (length (filter (fun x => 128 <= x) bs)));
          c ← chk_int (c + l);
          cd_measure mem ccq c (y + (1 + (if l =? n then 0 else 1)))
      | _ => cd_measure mem ccq (s32 (c + n)) (y + 1)
      end
  end.

Fixpoint cd_concat (mem : list Z) (ccq : list cdata_content) : res (list Z) :=
  match ccq with
  | [] => Ok []
  | cc :: ccq => bs ← cc_encode mem cc; r ← cd_concat mem ccq; Ok (bs ++ r)
  end.

(** The byte at [cc_end].  Behind the text of a reference it is a byte of the
    node that nothing has written (6 bytes of text still leave the padding of
    the node); what follows in the source keeps a pointer into the node and
    frees it. *)
Definition cc_end_byte (mem : list Z) (cc : cdata_content) : res Z :=
  match cc with
  | CcSrc _ _ (Some e) => mread mem e
  | CcSrc _ _ None | CcUni _ => Fault Uninitialised
  end.

(** [*cc->cc_end = 0], and the string that starts at [cc_start]. *)
Definition cc_terminate (mem : list Z) (cc : cdata_content) : res (xstr * list Z) :=
  match cc with
  | CcSrc _ s (Some e) => mem ← mwrite mem e 0; Ok (XBuf s, mem)
  | CcSrc _ s None => Fault Uninitialised
  | CcUni bs => Fault Uninitialised
  end.

(** The body of an element, or nothing. *)
Definition cd_body (copy : bool) (mem : list Z) (ccq : list cdata_content)
    : res (option xstr * list Z) :=
  '(c, y) ← cd_measure mem ccq 0 0;
  let alloced :=
    body ← cd_concat mem ccq;
    if Z.of_nat (length body) <=? c then Ok (Some (XHeap body), mem) else Fault OobWrite in
  match ccq with
  | cc :: _ =>
      if (y =? 1) && (0 <? c) then
        e ← cc_end_byte mem cc;
        if negb (e =? 10) then
          if copy then alloced
          else '(x, mem) ← cc_terminate mem cc; Ok (Some x, mem)
        else if 1 <? c then alloced else Ok (None, mem)
      else if 1 <? c then alloced else Ok (None, mem)
  | [] => Ok (None, mem)
  end.

(** The field of an element; [e] is the byte behind the name. *)
Definition tag_field (copy : bool) (xp : xmlparser) (tagname tn : nat) (e : Z)
    : res (xfield * xmlparser) :=
  if copy || (e =? 10) then
    name ← mslice (xp_mem xp) tagname tn;
    f ← add_xml_field xp (XHeap name) false None;
    Ok (f, xp)
  else
    mem ← mwrite (xp_mem xp) (tagname + tn) 0;
    let xp := xp_set_mem xp mem in
    f ← add_xml_field xp (XBuf tagname) false None;
    Ok (f, xp).

Section parse_tag.
Variable copy : bool.
(** [htsmsg_xml_parse_cd0] with its first segment still to come. *)
Variable cd0 : xmlparser -> list cdata_content -> list xfield -> nat -> bool ->
  res (option nat * list cdata_content * list xfield * xmlparser).

(** [field] is [None] for the document itself. *)
Definition parse_cd (xp : xmlparser) (msg : list xfield) (field : option xfield) (src : nat)
    : res (option nat * list xfield * option xfield * xmlparser) :=
  '(r, ccq, msg, xp) ← cd0 xp [] msg src false;
  ccq ← trim_ws (xp_mem xp) ccq;
  ccq ← trim_ws (xp_mem xp) (reverse ccq);
  let ccq := reverse ccq in
  match field with
  | None =>
      _ ← cd_measure (xp_mem xp) ccq 0 0;
      Ok (r, msg, None, xp)
  | Some f =>
      '(body, mem) ← cd_body copy (xp_mem xp) ccq;
      Ok (r, msg, Some (match body with Some x => xf_set_str x f | None => f end),
          xp_set_mem xp mem)
  end.

Definition htsmsg_xml_parse_tag (xp : xmlparser) (parent : list xfield) (src : nat)
    : res (option nat * list xfield * xmlparser) :=
  let tagname := src in
  src ← scan (fun c => (c =? 0) || is_xmlws c || (c =? 62) || (c =? 47)) (xp_mem xp) src;
  c ← mread (xp_mem xp) src;
  if c =? 0 then
    Ok (None, parent, xmlerr2 xp src 376 (lit "Unexpected end of file during tag name parsing"))
  else
  let taglen := ptrdiff src tagname in
  if (taglen <? 1) || (65535 <? taglen) then
    Ok (None, parent, xmlerr2 xp tagname 386 (lit "Invalid tag name"))
  else
  '(r, m, nslist, xp) ← parse_tag_attribs copy (length (xp_mem xp)) xp [] src [];
  match r with
  | None => Ok (None, parent, xp)
  | Some (src, empty) =>
      let tn := Z.to_nat taglen in
      e ← mread (xp_mem xp) (tagname + tn);
      '(f, xp) ← tag_field copy xp tagname tn e;
      '(r, m, f, xp) ← (if empty : bool then Ok (Some src, m, Some f, xp)
                        else parse_cd xp m (Some f) src);
      let f := match f with Some f => [set_childs m f] | None => [] end in
      Ok (r, parent ++ f, xp_set_namespaces xp (xmlns_destroy nslist (xp_namespaces xp)))
  end.

End parse_tag.

(** The loop of [htsmsg_xml_parse_cd0]: [loop] is its next iteration, [cc] the
    index of the open segment. *)
Section cd0.
Variable copy : bool.
Variable loop : xmlparser -> list cdata_content -> option nat -> list xfield -> nat -> bool ->
  res (option nat * list cdata_content * list xfield * xmlparser).

(** [continue] with [cc] NULL *)
Definition cd0_continue (r : option nat) (ccq : list cdata_content) (tags : list xfield)
    (xp : xmlparser) (raw : bool) :=
  match r with
  | Some src => loop xp ccq None tags src raw
  | None => Ok (None, ccq, tags, xp)
  end.

(** Behind a [<]. *)
Definition cd0_markup (xp : xmlparser) (ccq : list cdata_content) (tags : list xfield) (src : nat)
    : res (option nat * list cdata_content * list xfield * xmlparser) :=
  let mem := xp_mem xp in
  let cd0 xp ccq tags src raw := loop xp ccq None tags src raw in
  c ← mread mem src;
  if c =? 63 then
    '(r, _, xp) ← htsmsg_xml_parse_pi copy xp None (S src);
    cd0_continue r ccq tags xp false
  else if c =? 33 then
    let src := S src in
    comment ← starts (lit "--") mem src;
    if comment : bool then
      '(r, xp) ← xml_parse_comment xp (src + 2);
      cd0_continue r ccq tags xp false
    else
    cdata ← starts (lit "[CDATA[") mem src;
    if cdata : bool then
      '(r, ccq, tags, xp) ← cd0 xp ccq tags (src + 7)%nat true;
      cd0_continue r ccq tags xp false
    else
      what ← cstr_n 10 (drop src mem);
      Ok (None, ccq, tags, xmlerr2 xp src 635 (lit "Unknown syntatic element: <!" ++ what))
  else if c =? 47 then
    src ← scan (fun c => (c =? 62) || (c =? 0)) mem (S src);
    c ← mread mem src;
    if c =? 0 then
      Ok (None, ccq, tags, xmlerr2 xp src 644 (lit "Unexpected end of file inside close tag"))
    else Ok (Some (S src), ccq, tags, xp)
  else
    '(r, tags, xp) ← htsmsg_xml_parse_tag copy cd0 xp tags src;
    cd0_continue r ccq tags xp false.

(** Behind a [&]. *)
Definition cd0_reference (xp : xmlparser) (ccq : list cdata_content) (cc : option nat)
    (tags : list xfield) (src : nat)
    : res (option nat * list cdata_content * list xfield * xmlparser) :=
  let mem := xp_mem xp in
  c ← mread mem src;
  if c =? 35 then
    '(v, src') ← decode_character_reference mem (S src);
    if negb (v =? 0) then
      ccq ← add_unicode ccq v;
      cd0_continue (Some src') ccq tags xp false
    else Ok (None, ccq, tags, xmlerr2 xp src 670 (lit "Invalid character reference"))
  else
    '(x, ccq, xp) ← decode_label_reference xp ccq src;
    match x with
    | Some src => cd0_continue (Some src) ccq tags xp false
    | None => loop xp ccq cc tags src false
    end.

End cd0.

Fixpoint cd0_loop (copy : bool) (fuel : nat) (xp : xmlparser) (ccq : list cdata_content)
    (cc : option nat) (tags : list xfield) (src : nat) (raw : bool)
    : res (option nat * list cdata_content * list xfield * xmlparser) :=
  match fuel with
  | O => Fault NoFuel
  | S fuel =>
      let loop := cd0_loop copy fuel in
      let mem := xp_mem xp in
      c ← mread mem src;
      if c =? 0 then Ok (Some src, cc_close ccq cc src, tags, xp) else
      stop ← (if raw then starts (lit "]]>") mem src else Ok false);
      if stop : bool then Ok (Some (src + 3)%nat, cc_close ccq cc src, tags, xp)
      else if (c =? 60) && negb raw then cd0_markup copy loop xp (cc_close ccq cc src) tags (S src)
      else if (c =? 38) && negb raw then cd0_reference loop xp (cc_close ccq cc src) cc tags (S src)
      else
        match cc with
        | None =>
            if c <? 32 then loop xp ccq None tags (S src) raw
            else
              loop xp (ccq ++ [CcSrc (xp_latin1 xp) src None]) (Some (length ccq)) tags (S src) raw
        | Some _ => loop xp ccq cc tags (S src) raw
        end
  end.

Definition htsmsg_xml_parse_cd0 (copy : bool) (fuel : nat) (xp : xmlparser)
    (ccq : list cdata_content) (tags : list xfield) (src : nat) (raw : bool) :=
  cd0_loop copy fuel xp ccq None tags src raw.
Definition htsmsg_xml_parse_cd (copy : bool) (fuel : nat) :=
  parse_cd copy (htsmsg_xml_parse_cd0 copy fuel).

(** * Documents *)

(** The DOCTYPE is skipped by counting brackets.  A closing bracket that is not
    the last one moves [src] twice. *)
Fixpoint doctype_end (m : list Z) (src : nat) (depth : Z) : res nat :=
  match m with
  | [] => Fault OobRead
  | c :: m =>
      if c =? 0 then Ok src
      else if c =? 60 then doctype_end m (S src) (depth + 1)
      else if c =? 62 then
        if depth - 1 =? 0 then Ok (S src)
        else match m with [] => Fault OobRead | _ :: m => doctype_end m (S (S src)) (depth - 1) end
      else doctype_end m (S src) depth
  end.

(** [src] is NULL after a malformed instruction or comment, and the loop reads
    through it. *)
Fixpoint prolog_loop (copy : bool) (fuel : nat) (xp : xmlparser) (pis : list xfield)
    (src : option nat) : res (nat * list xfield * xmlparser) :=
  match fuel with
  | O => Fault NoFuel
  | S fuel =>
      match src with
      | None => Fault NullDeref
      | Some src =>
          c ← mread (xp_mem xp) src;
          if c =? 0 then Ok (src, pis, xp) else
          src ← scan (fun c => negb (is_xmlws c)) (xp_mem xp) src;
          pi ← starts (lit "<?") (xp_mem xp) src;
          if pi : bool then
            '(r, pis, xp) ← htsmsg_xml_parse_pi copy xp (Some pis) (src + 2)%nat;
            prolog_loop copy fuel xp (default [] pis) r
          else
          comment ← starts (lit "<!--") (xp_mem xp) src;
          if comment : bool then
            '(r, xp) ← xml_parse_comment xp (src + 4);
            prolog_loop copy fuel xp pis r
          else
          doctype ← starts (lit "<!DOCTYPE") (xp_mem xp) src;
          if doctype : bool then
            src ← doctype_end (drop src (xp_mem xp)) src 0;
            prolog_loop copy fuel xp pis (Some src)
          else Ok (src, pis, xp)
      end
  end.

(** What the fields are for a client: every string read from the buffer. *)
Fixpoint xf_resolve (mem : list Z) (f : xfield) : res hfield :=
  let 'XField n a ns v c := f in
  n ← xstr_get mem n;
  v ← match v with None => Ok HMap | Some x => s ← xstr_get mem x; Ok (HStr s) end;
  c ← match c with
      | None => Ok None
      | Some fs =>
          fs ← (fix go (fs : list xfield) : res (list hfield) :=
                  match fs with
                  | [] => Ok []
                  | f :: fs => f ← xf_resolve mem f; fs ← go fs; Ok (f :: fs)
                  end) fs;
          Ok (Some (Msg false fs))
      end;
  Ok (HField (Some n) a ns v c).
Definition xfs_resolve (mem : list Z) : list xfield -> res (list hfield) :=
  fix go (fs : list xfield) : res (list hfield) :=
    match fs with
    | [] => Ok []
    | f :: fs => f ← xf_resolve mem f; fs ← go fs; Ok (f :: fs)
    end.

Definition latin1_names : list (list Z) :=
  [lit "iso-8859-1"; lit "iso-8859_1"; lit "iso_8859-1"; lit "iso_8859_1"].

Definition htsmsg_parse_prolog (copy : bool) (xp : xmlparser) (src : nat) : res (nat * xmlparser) :=
  '(src, pis, xp) ← prolog_loop copy (length (xp_mem xp)) xp [] (Some src);
  pis ← xfs_resolve (xp_mem xp) pis;
  let encoding :=
    xmlpi ← htsmsg_get_map (Msg false pis) (ByName (lit "xml"));
    (htsmsg_get_str xmlpi (ByName (lit "encoding"))).1 in
  Ok (src,
      match encoding with
      | Some e => if existsb (strcaseeq e) latin1_names then xp_set_latin1 xp true else xp
      | None => xp
      end).

Fixpoint get_line_col (m : list Z) (i pos : nat) (line column : Z) : Z * Z :=
  match m with
  | [] => (line, column)
  | c :: m =>
      let column := column + 1 in
      let '(line, column) :=
        if c =? 10 then (line + 1, 0) else if c =? 13 then (line, 0) else (line, column) in
      if (i =? pos)%nat then (line, column) else get_line_col m (S i) pos line column
  end.

Fixpoint until_odd (s : list Z) : list Z :=
  match s with
  | [] => []
  | c :: s => if c <? 32 then [] else c :: until_odd s
  end.

(** The text left in [errbuf]. *)
Definition xml_error_text (xp : xmlparser) (b_size errbufsize : nat) : res (list Z) :=
  match xp_err xp with
  | None => Fault Uninitialised
  | Some e =>
      let '(line, col) := get_line_col (take b_size (xp_mem xp)) 0 (xp_errpos e) 1 0 in
      Ok (until_odd (take (errbufsize - 1)
            (xp_errmsg e ++ lit " at line " ++ dec_of_Z line ++ lit " column " ++ dec_of_Z col
             ++ lit " (XML error " ++ dec_of_Z (xp_parser_err_line e)
             ++ lit " at byte " ++ dec_of_Z (Z.of_nat (xp_errpos e)) ++ lit ")")))
  end.

(** [mem] is the buffer with the byte behind its [b_size] bytes.  The result is
    the message and the buffer its strings are in, or the error text. *)
Definition xml_deserialize (copy : bool) (mem : list Z) (errbufsize : nat)
    : res (list Z + list xfield * list Z) :=
  let xp := Xp mem false None [] 0 in
  let b_size := (length mem - 1)%nat in
  let fuel := S (length mem) in
  '(src, xp) ← htsmsg_parse_prolog copy xp 0;
  '(r, m, _, xp) ← htsmsg_xml_parse_cd copy fuel xp [] None src;
  match r with
  | None => e ← xml_error_text xp b_size errbufsize; Ok (inl e)
  | Some _ => Ok (inr (m, xp_mem xp))
  end.

Definition htsmsg_xml_deserialize_buf (mem : list Z) (errbufsize : nat) : res (list Z + htsmsg) :=
  r ← xml_deserialize false mem errbufsize;
  match r with
  | inl e => Ok (inl e)
  | inr (fs, mem) => fs ← xfs_resolve mem fs; Ok (inr (Msg false fs))
  end.

Definition htsmsg_xml_deserialize_cstr (str : list Z) (errbufsize : nat) : res (list Z + htsmsg) :=
  htsmsg_xml_deserialize_buf (str ++ [0]) errbufsize.
