(* ===== verification/XmlInplace.v ===== *)
(** The XML reader against its copying variant: terminating the strings of a
    message in the document that is still being parsed is invisible.  Both
    parsers run side by side; the buffer ahead of the position is the text,
    what is behind it is only written in the span of the call, and the strings
    of the fields avoid the segments of text that are still to be terminated. *)
From S2P Require Import Prelude Clib Htsmsg Utf8 Html HtsmsgXml.

Local Open Scope Z_scope.

(** * The in-place reading against the copying one *)

(** The first computation does what the second one does, and their common faults are in
    [F]. *)
Definition sim {A B} (F : fault -> Prop) (R : A -> B -> Prop) (m1 : res A) (m2 : res B) : Prop :=
  match m1, m2 with
  | Ok a, Ok b => R a b
  | Fault f, Fault g => f = g /\ F f
  | _, _ => False
  end.

Lemma sim_bind {A B A' B'} F (R : A -> B -> Prop) (S : A' -> B' -> Prop) m1 m2 k1 k2 :
  sim F R m1 m2 -> (forall a b, R a b -> sim F S (k1 a) (k2 b)) ->
  sim F S (m1 ≫= k1) (m2 ≫= k2).
Proof. destruct m1 as [a|f], m2 as [b|g]; cbn; intros H K; by auto. Qed.

Lemma sim_mono {A B} F (R S : A -> B -> Prop) m1 m2 :
  sim F R m1 m2 -> (forall a b, R a b -> S a b) -> sim F S m1 m2.
Proof. destruct m1 as [a|f], m2 as [b|g]; cbn; auto. Qed.

Lemma sim_ok {A B} F (R : A -> B -> Prop) a b : R a b -> sim F R (Ok a) (Ok b).
Proof. done. Qed.

(** A field that holds its strings in the buffer and one that owns them. *)
Section frel.
Variable P : xstr -> xstr -> Prop.
Inductive frel : xfield -> xfield -> Prop :=
| FRel n1 n2 a ns v1 v2 c1 c2 :
    P n1 n2 -> option_Forall2 P v1 v2 -> option_Forall2 (Forall2 frel) c1 c2 ->
    frel (XField n1 a ns v1 c1) (XField n2 a ns v2 c2).
End frel.

Lemma frel_mono (P Q : xstr -> xstr -> Prop) :
  (forall x y, P x y -> Q x y) -> forall f g, frel P f g -> frel Q f g.
Proof.
  intros HPQ. fix IH 3. intros f g [n1 n2 a ns v1 v2 c1 c2 Hn Hv Hc]. constructor; [auto| |].
  - destruct Hv; constructor; auto.
  - destruct Hc as [l1 l2 Hl|]; constructor.
    induction Hl as [|f1 f2 l1 l2 Hf Hl IHl]; constructor; [apply IH, Hf|apply IHl].
Qed.

Lemma frels_mono (P Q : xstr -> xstr -> Prop) l1 l2 :
  (forall x y, P x y -> Q x y) -> Forall2 (frel P) l1 l2 -> Forall2 (frel Q) l1 l2.
Proof. intros HPQ H. eapply Forall2_impl; [exact H|]. by apply frel_mono. Qed.

(** A string of the buffer [m] in the positions [D], terminated. *)
Definition srel (m : list Z) (D : nat -> Prop) (x y : xstr) : Prop :=
  exists s, y = XHeap s /\ (0 ∉ s) /\
    (x = XHeap s \/
     exists off, x = XBuf off /\
       forall j, (j <= length s)%nat -> D (off + j)%nat /\ m !! (off + j)%nat = (s ++ [0]) !! j).

Lemma srel_mono m m' (D D' : nat -> Prop) x y :
  (forall i, D i -> D' i) -> (forall i, D i -> m' !! i = m !! i) ->
  srel m D x y -> srel m' D' x y.
Proof.
  intros HD Hm (s & -> & H0 & Hx). exists s. split; [done|]. split; [done|].
  destruct Hx as [|(off & -> & Hj)]; [by left|right]. exists off. split; [done|].
  intros j Hl. destruct (Hj j Hl) as [Hd <-]. eauto.
Qed.

Lemma cstr_at_pointwise (s m : list Z) off :
  0 ∉ s -> (forall j, (j <= length s)%nat -> m !! (off + j)%nat = (s ++ [0]) !! j) ->
  cstr_at (drop off m) = Ok s.
Proof.
  revert off. induction s as [|c s IH]; intros off H0 Hm.
  - specialize (Hm O ltac:(simpl; lia)). rewrite Nat.add_0_r in Hm. simpl in Hm.
    by rewrite (drop_S _ _ _ Hm).
  - rewrite not_elem_of_cons in H0. destruct H0 as [Hc H0].
    pose proof (Hm O ltac:(simpl; lia)) as Hh. rewrite Nat.add_0_r in Hh. simpl in Hh.
    rewrite (drop_S _ _ _ Hh). simpl. rewrite (proj2 (Z.eqb_neq c 0)) by done.
    rewrite (IH (S off)); [done|done|]. intros j Hj.
    specialize (Hm (S j) ltac:(simpl; lia)). by rewrite Nat.add_succ_r in Hm.
Qed.

Lemma srel_get m D x s : srel m D x (XHeap s) -> xstr_get m x = Ok s.
Proof.
  intros (s' & [= <-] & H0 & [->|(off & -> & Hj)]); [done|]. simpl.
  apply cstr_at_pointwise; [done|]. intros j Hl. by apply Hj.
Qed.

Lemma srel_adv m D x n s : srel m D x (XHeap s) -> (n <= length s)%nat ->
  srel m D (xstr_adv n x) (XHeap (drop n s)).
Proof.
  intros (s' & [= <-] & H0 & Hx) Hn. exists (drop n s). split; [done|]. split.
  { intros Hin. apply H0. rewrite <- (take_drop n s). apply elem_of_app. by right. }
  destruct Hx as [->|(off & -> & Hj)]; [by left|right]. exists (off + n)%nat. split; [done|].
  intros j Hl. rewrite length_drop in Hl. destruct (Hj (n + j)%nat ltac:(lia)) as [Hd Hm].
  replace (off + n + j)%nat with (off + (n + j))%nat by lia. split; [done|]. rewrite Hm.
  rewrite <- (take_drop n s) at 1. rewrite <- app_assoc, lookup_app_r; rewrite length_take; [|lia].
  f_equal. lia.
Qed.

(** Both give the client the same fields. *)
Lemma frel_resolve m D T : forall f g, frel (srel m D) f g ->
  exists h, xf_resolve m f = Ok h /\ xf_resolve T g = Ok h.
Proof.
  fix IH 3. intros f g [n1 n2 a ns v1 v2 c1 c2 Hn Hv Hc].
  pose proof Hn as (s & -> & _). apply srel_get in Hn. simpl. rewrite Hn, !ok_bind.
  assert (exists v, match v1 with None => Ok HMap | Some x => s ← xstr_get m x; Ok (HStr s) end = Ok v
      /\ match v2 with None => Ok HMap | Some x => s ← xstr_get T x; Ok (HStr s) end = Ok v) as (v & E1 & E2).
  { destruct Hv as [x y Hx|]; [|by eexists]. pose proof Hx as (s' & -> & _). apply srel_get in Hx.
    rewrite Hx. by eexists. }
  cbn [mbind res_bind] in E1, E2 |- *. rewrite E1, E2.
  fold (xfs_resolve m) (xfs_resolve T).
  assert (match c1, c2 with
          | Some l1, Some l2 => exists l, xfs_resolve m l1 = Ok l /\ xfs_resolve T l2 = Ok l
          | None, None => True | _, _ => False end) as Hl.
  { destruct Hc as [l1 l2 Hl|]; [|done].
    induction Hl as [|f1 f2 l1 l2 Hf Hl (l & El1 & El2)]; [by exists []|].
    destruct (IH _ _ Hf) as (h & Eh1 & Eh2). exists (h :: l). simpl. fold (xfs_resolve m) (xfs_resolve T).
    by rewrite Eh1, Eh2, !ok_bind, El1, El2. }
  destruct c1 as [l1|], c2 as [l2|]; try done; [|by eexists].
  destruct Hl as (l & -> & ->). by eexists.
Qed.

Lemma frels_resolve m D T fs gs : Forall2 (frel (srel m D)) fs gs ->
  exists hs, xfs_resolve m fs = Ok hs /\ xfs_resolve T gs = Ok hs.
Proof.
  induction 1 as [|f g fs gs Hf _ (hs & E1 & E2)]; [by exists []|].
  destruct (frel_resolve m D T _ _ Hf) as (h & Eh1 & Eh2). exists (h :: hs). simpl.
  fold (xfs_resolve m) (xfs_resolve T). by rewrite Eh1, Eh2, !ok_bind, E1, E2.
Qed.

(** ** Reading a text *)

Lemma scan_from_spec p m i : (exists c, c ∈ m /\ p c = true) ->
  exists k c, scan_from p m i = Ok (i + k)%nat /\ m !! k = Some c /\ p c = true /\
    (forall j d, (j < k)%nat -> m !! j = Some d -> p d = false).
Proof.
  revert i. induction m as [|x m IH]; intros i (c & Hin & Hp); [by apply elem_of_nil in Hin|].
  simpl. destruct (p x) eqn:Ex.
  - exists O, x. rewrite Nat.add_0_r. split; [done|]. split; [done|]. split; [done|]. lia.
  - apply elem_of_cons in Hin as [->|Hin]; [congruence|].
    destruct (IH (S i)) as (k & c' & E & Hl & Hc & Hb); [by exists c|].
    exists (S k), c'. rewrite E. split; [f_equal; lia|]. split; [done|]. split; [done|].
    intros [|j] d Hj Hd; [simpl in Hd; congruence|]. apply (Hb j d); [lia|done].
Qed.

Lemma drop_lookup_eq (m T : list Z) src : drop src m = drop src T ->
  forall i, (src <= i)%nat -> m !! i = T !! i.
Proof.
  intros E i Hi. replace i with (src + (i - src))%nat by lia. by rewrite <- !lookup_drop, E.
Qed.

Lemma drop_le (m T : list Z) a b : drop a m = drop a T -> (a <= b)%nat -> drop b m = drop b T.
Proof.
  intros E H. replace b with (a + (b - a))%nat by lia. by rewrite <- !drop_drop, E.
Qed.

Lemma mread_lookup m i c : m !! i = Some c -> mread m i = Ok c.
Proof. intros E. unfold mread. by rewrite E. Qed.

Section text.
Variable s : list Z.
Hypothesis Hs : cstring_ok s.
Let T := s ++ [0].
Let N := length s.

Lemma text_length : length T = S N.
Proof using Hs. unfold T, N. rewrite length_app. simpl. lia. Qed.

Lemma text_end : T !! N = Some 0.
Proof using Hs. unfold T, N. rewrite lookup_app_r by lia. by rewrite Nat.sub_diag. Qed.

Lemma text_char i c : T !! i = Some c -> ((i < N)%nat /\ 0 < c < 256) \/ (i = N /\ c = 0).
Proof using Hs.
  intros E. pose proof (lookup_lt_Some _ _ _ E) as Hi. rewrite text_length in Hi.
  destruct (decide (i = N)) as [->|]; [rewrite text_end in E; right; naive_solver|left].
  split; [lia|]. unfold T in E. rewrite lookup_app_l in E by (fold N; lia).
  eapply Forall_lookup in E; [|exact Hs]. done.
Qed.

Lemma text_nonzero i c : T !! i = Some c -> c <> 0 -> (i < N)%nat.
Proof using Hs. intros E Hc. destruct (text_char i c E); lia. Qed.

Lemma text_at i : (i <= N)%nat -> exists c, T !! i = Some c /\ (c = 0 <-> i = N).
Proof using Hs.
  intros Hi. destruct (lookup_lt_is_Some_2 T i) as [c E]; [rewrite text_length; lia|].
  exists c. split; [done|]. destruct (text_char i c E); lia.
Qed.

Lemma scan_text p src : (src <= N)%nat -> p 0 = true ->
  exists i c, scan p T src = Ok i /\ (src <= i <= N)%nat /\ T !! i = Some c /\ p c = true /\
    (forall j d, (src <= j < i)%nat -> T !! j = Some d -> p d = false).
Proof using Hs.
  intros Hsrc Hp. destruct (scan_from_spec p (drop src T) src) as (k & c & E & Hl & Hc & Hb).
  { exists 0. split; [|done]. unfold T. rewrite drop_app_le by done. apply elem_of_app. right.
    by apply list_elem_of_here. }
  rewrite lookup_drop in Hl. exists (src + k)%nat, c. split; [done|]. split.
  { apply lookup_lt_Some in Hl. rewrite text_length in Hl. lia. }
  split; [done|]. split; [done|]. intros j d Hj Hd. apply (Hb (j - src)%nat d); [lia|].
  rewrite lookup_drop. by replace (src + (j - src))%nat with j by lia.
Qed.

Lemma starts_text t src : cstring_ok t -> (src <= N)%nat ->
  exists b, starts t T src = Ok b /\ (b = true -> (src + length t <= N)%nat).
Proof using Hs.
  unfold starts. revert src. induction t as [|c t IH]; intros src Ht Hsrc.
  { exists true. split; [done|]. simpl. lia. }
  apply Forall_cons in Ht as [Hc Ht]. destruct (text_at src Hsrc) as (d & E & Hd).
  rewrite (drop_S _ _ _ E). simpl. destruct (Z.eqb_spec d c) as [->|]; [|by exists false].
  destruct (IH (S src)) as (b & Eb & Hb); [done|lia|]. exists b. rewrite Eb. split; [done|].
  intros Ht'. apply Hb in Ht'. lia.
Qed.

Lemma slice_text src n : (src + n <= N)%nat ->
  mslice T src n = Ok (take n (drop src T)) /\ (0 ∉ take n (drop src T)) /\
  length (take n (drop src T)) = n.
Proof using Hs.
  intros Hn. unfold mslice. rewrite decide_True by (rewrite text_length; lia).
  split; [done|]. split; [|rewrite length_take, length_drop, text_length; lia].
  intros Hin. apply list_elem_of_lookup_1 in Hin as [j E].
  rewrite lookup_take_Some, lookup_drop in E. destruct E as [E Hj].
  destruct (text_char _ _ E); lia.
Qed.

(** ** The two parsers side by side *)

(** The buffer is the text with some of its bytes cleared, no line feed among them. *)
Definition near (m : list Z) : Prop := Forall2 (fun a b => a = b \/ a = 0 /\ b <> 10) m T.

Lemma near_length m : near m -> length m = length T.
Proof using Hs. apply Forall2_length. Qed.

Lemma near_clear m i : near m -> T !! i <> Some 10 -> near (<[i := 0]> m).
Proof using Hs.
  intros H Hi. apply Forall2_same_length_lookup. rewrite length_insert.
  apply Forall2_same_length_lookup in H as [Hl H]. split; [done|]. intros j a b Ha Hb.
  destruct (decide (j = i)) as [->|]; [|rewrite list_lookup_insert_ne in Ha by done; by eapply H].
  rewrite list_lookup_insert_eq in Ha by (rewrite Hl; by eapply lookup_lt_Some).
  right. split; [congruence|]. intros ->. done.
Qed.

Lemma near_refl : near T.
Proof using Hs. apply Forall_Forall2_diag, Forall_forall. by left. Qed.

(** Everything but the buffer is equal; the reference has the text itself. *)
Definition same (x1 x2 : xmlparser) : Prop :=
  x2 = xp_set_mem x1 T /\ near (xp_mem x1).

(** The buffer ahead of [src] is the text. *)
Definition synced (src : nat) (x1 x2 : xmlparser) : Prop :=
  same x1 x2 /\ (src <= N)%nat /\ drop src (xp_mem x1) = drop src T.

(** What a call that starts at [src] leaves: nothing behind [src] is written,
    and a new position is ahead or an error is set. *)
Definition stepped (src : nat) (r : option nat) (x x1 x2 : xmlparser) : Prop :=
  same x1 x2 /\
  (forall i, (i < src)%nat -> xp_mem x1 !! i = xp_mem x !! i) /\
  match r with Some src' => (src <= src')%nat /\ synced src' x1 x2 | None => is_Some (xp_err x1) end.

Lemma same_err x1 x2 pos line msg : same x1 x2 -> same (xmlerr2 x1 pos line msg) (xmlerr2 x2 pos line msg).
Proof using Hs. intros [-> Hl]. split; [by destruct x1|done]. Qed.

Lemma stepped_err src x1 x2 pos line msg : same x1 x2 ->
  stepped src None x1 (xmlerr2 x1 pos line msg) (xmlerr2 x2 pos line msg).
Proof using Hs. intros H. split; [by apply same_err|]. split; [done|]. done. Qed.

Lemma stepped_refl lo src src' x1 x2 : synced src x1 x2 -> (lo <= src')%nat -> (src <= src' <= N)%nat ->
  stepped lo (Some src') x1 x1 x2.
Proof using Hs.
  intros (H & _ & E) Hlo Hs'. split; [done|]. split; [done|]. split; [lia|]. split; [done|].
  split; [lia|]. apply (drop_le _ _ src); [done|lia].
Qed.

Lemma stepped_trans src src' r x x1 x2 y1 y2 :
  stepped src (Some src') x x1 x2 -> stepped src' r x1 y1 y2 -> stepped src r x y1 y2.
Proof using Hs.
  intros (_ & H1 & Hle & Hy) (Hs2 & H2 & H3). split; [done|]. split.
  { intros i Hi. rewrite H2 by lia. by apply H1. }
  destruct r as [src2|]; [|done]. destruct H3 as [? ?]. split; [lia|done].
Qed.

Lemma stepped_weaken a b r x x1 x2 : stepped a r x x1 x2 -> (b <= a)%nat -> stepped b r x x1 x2.
Proof using Hs.
  intros (? & H & Hr) Hb. split; [done|]. split; [intros i Hi; apply H; lia|].
  destruct r; [|done]. split; [lia|apply Hr].
Qed.

(** The span a call has consumed. *)
Definition span (lo hi : nat) (i : nat) : Prop := (lo <= i < hi)%nat.

(** New fields of a call from [src]. *)
Definition grown (P : nat -> Prop) (x1 : xmlparser) (f1 g1 f2 g2 : list xfield) : Prop :=
  exists n1 n2, g1 = f1 ++ n1 /\ g2 = f2 ++ n2 /\
    Forall2 (frel (srel (xp_mem x1) P)) n1 n2.

Lemma grown_refl P x1 f1 f2 : grown P x1 f1 f1 f2 f2.
Proof using Hs. exists [], []. rewrite !app_nil_r. split_and!; by try constructor. Qed.

Lemma grown_trans (P Q R : nat -> Prop) x1 y1 f1 g1 h1 f2 g2 h2 :
  grown P x1 f1 g1 f2 g2 -> grown Q y1 g1 h1 g2 h2 ->
  (forall i, P i -> R i /\ xp_mem y1 !! i = xp_mem x1 !! i) -> (forall i, Q i -> R i) ->
  grown R y1 f1 h1 f2 h2.
Proof using Hs.
  intros (n1 & n2 & -> & -> & Hn) (k1 & k2 & -> & -> & Hk) HP HQ.
  exists (n1 ++ k1), (n2 ++ k2). rewrite !app_assoc. split_and!; [done|done|].
  apply Forall2_app.
  - eapply frels_mono; [|exact Hn]. intros x y. apply srel_mono; naive_solver.
  - eapply frels_mono; [|exact Hk]. intros x y. apply srel_mono; naive_solver.
Qed.

Lemma mslice_drop m i n : drop i m = drop i T -> length m = length T ->
  mslice m i n = mslice T i n.
Proof using Hs. intros E El. unfold mslice. by rewrite E, El. Qed.

Lemma mread_drop m i j : drop i m = drop i T -> (i <= j)%nat -> mread m j = mread T j.
Proof using Hs. intros E Hj. unfold mread. by rewrite (drop_lookup_eq m T i). Qed.

Lemma ptrdiff_le i j : (j <= i)%nat -> 0 <= ptrdiff i j -> (j + Z.to_nat (ptrdiff i j) <= i)%nat.
Proof using Hs.
  intros Hij H. unfold ptrdiff, s32, u32 in *. cbv zeta in *.
  pose proof (Z.mod_le (Z.of_nat i - Z.of_nat j) 4294967296 ltac:(lia) ltac:(lia)).
  destruct (Z.ltb_spec ((Z.of_nat i - Z.of_nat j) mod 4294967296) 2147483648); lia.
Qed.

(** A name or value the reference copies and the program leaves in place. *)
Lemma srel_slice m (D : nat -> Prop) i n : (i + n <= N)%nat ->
  (forall j, (j < n)%nat -> m !! (i + j)%nat = T !! (i + j)%nat) -> m !! (i + n)%nat = Some 0 ->
  (forall j, (j <= n)%nat -> D (i + j)%nat) ->
  srel m D (XBuf i) (XHeap (take n (drop i T))).
Proof using Hs.
  intros Hn Hm H0 HD. destruct (slice_text i n Hn) as (_ & Hz & Hl).
  exists (take n (drop i T)). split; [done|]. split; [done|]. right. exists i. split; [done|].
  rewrite Hl. intros j Hj. split; [auto|]. destruct (decide (j = n)) as [->|].
  - rewrite H0, lookup_app_r by lia. by rewrite Hl, Nat.sub_diag.
  - rewrite Hm, lookup_app_l by lia. by rewrite lookup_take_lt, lookup_drop by lia.
Qed.

Lemma srel_heap m D i n : (i + n <= N)%nat ->
  srel m D (XHeap (take n (drop i T))) (XHeap (take n (drop i T))).
Proof using Hs.
  intros Hn. destruct (slice_text i n Hn) as (_ & Hz & _). eexists. split; [done|]. by split; [|left].
Qed.

Lemma add_field_sim F D x1 x2 x y a v w : same x1 x2 ->
  srel (xp_mem x1) D x y -> option_Forall2 (srel (xp_mem x1) D) v w ->
  sim F (frel (srel (xp_mem x1) D)) (add_xml_field x1 x a v) (add_xml_field x2 y a w).
Proof using Hs.
  intros [-> _] Hx Hv. pose proof Hx as (n & -> & _). pose proof (srel_get _ _ _ _ Hx) as E.
  unfold add_xml_field. rewrite E. cbn [xstr_get]. rewrite !ok_bind.
  destruct (strchr 58 n) as [[p q]|] eqn:Ec; [|by repeat constructor].
  destruct q as [|q0 q]; [by repeat constructor|].
  destruct (strchr_Some _ _ _ _ Ec) as [En _].
  cbn. destruct (xmlns_find (xp_namespaces x1) p); [|by repeat constructor].
  constructor; [|done|constructor]. apply srel_adv; [done|]. rewrite En, length_app. simpl. lia.
Qed.

Lemma scan_drop p m i j : drop i m = drop i T -> (i <= j)%nat -> scan p m j = scan p T j.
Proof using Hs. intros E Hj. unfold scan. by rewrite (drop_le m T i j). Qed.

Lemma starts_drop t m i j : drop i m = drop i T -> (i <= j)%nat -> starts t m j = starts t T j.
Proof using Hs. intros E Hj. unfold starts. by rewrite (drop_le m T i j). Qed.

(** Both parsers run the same scan; both read the same byte. *)
Ltac xscan HE i c :=
  match goal with
  | |- sim _ _ (scan ?p ?m ?j ≫= _) _ =>
      let E := fresh "E" in
      rewrite (scan_drop p m _ j HE) by lia;
      destruct (scan_text p j) as (i & c & E & ?Hi & ?Ec & ?Hc & ?Hb); [lia|reflexivity|];
      rewrite E, !ok_bind; clear E
  end.
Ltac xread HE :=
  match goal with
  | H : T !! ?i = Some ?c |- sim _ _ (mread ?m ?i ≫= _) _ =>
      rewrite (mread_drop _ _ i HE), (mread_lookup _ _ _ H), !ok_bind by lia
  end.

Definition attrib_post (x1 : xmlparser) (f1 f2 : list xfield) (src : nat)
    (o1 o2 : option nat * list xfield * option (list nat) * xmlparser) : Prop :=
  let '(r1, g1, sc1, y1) := o1 in
  let '(r2, g2, sc2, y2) := o2 in
  r1 = r2 /\ sc1 = sc2 /\ stepped (S src) r1 x1 y1 y2 /\
  match r1 with
  | Some src' => (src < src')%nat /\ grown (span src src') y1 f1 g1 f2 g2
  | None => True
  end.

Lemma attrib_err x1 x2 f1 f2 src scope pos line msg F : same x1 x2 ->
  sim F (attrib_post x1 f1 f2 src) (Ok (None, f1, scope, xmlerr2 x1 pos line msg))
    (Ok (None, f2, scope, xmlerr2 x2 pos line msg)).
Proof using Hs. intros H. simpl. split_and!; try done. by apply stepped_err. Qed.

(** Writing a terminator. *)
Lemma terminate x1 x2 p z : same x1 x2 -> T !! p <> Some 10 -> (p < z)%nat -> (z <= N)%nat ->
  exists m, mwrite (xp_mem x1) p 0 = Ok m /\ same (xp_set_mem x1 m) x2 /\ m !! p = Some 0 /\
    (forall i, i <> p -> m !! i = xp_mem x1 !! i).
Proof using Hs.
  intros [-> Hm] Hnl Hp Hz. exists (<[p := 0]> (xp_mem x1)).
  assert (p < length (xp_mem x1))%nat by (rewrite (near_length _ Hm), text_length; lia).
  split; [by apply mwrite_Ok|]. split; [split; [done|by apply near_clear]|].
  split; [by apply list_lookup_insert_eq|]. intros i Hi. by rewrite list_lookup_insert_ne.
Qed.

Lemma attrib_field_sim F x1 y x2 f1 f2 src z scope n v n' v' :
  stepped (S src) (Some z) x1 y x2 ->
  srel (xp_mem y) (span src z) n n' -> srel (xp_mem y) (span src z) v v' -> (src < z)%nat ->
  sim F (attrib_post x1 f1 f2 src)
    (f ← add_xml_field y n true (Some v); Ok (Some z, f1 ++ [f], scope, y))
    (f ← add_xml_field x2 n' true (Some v'); Ok (Some z, f2 ++ [f], scope, x2)).
Proof using Hs.
  intros Hy Hn Hv Hz. eapply sim_bind; [eapply add_field_sim; [apply Hy|exact Hn|constructor; exact Hv]|].
  intros g1 g2 Hg. simpl. split_and!; try done. exists [g1], [g2]. split_and!; try done. by constructor.
Qed.

Lemma attrib_add_sim F x1 x2 f1 f2 src z scope an q pn :
  synced src x1 x2 -> (0 < an)%nat -> (src + an < q)%nat -> (q + pn < z)%nat -> (z <= N)%nat ->
  sim F (attrib_post x1 f1 f2 src) (attrib_add false x1 f1 z scope src an q pn)
    (attrib_add true x2 f2 z scope src an q pn).
Proof using Hs.
  intros (Hsame & Hsrc & HE) Han0 Han Hpn Hz. pose proof Hsame as [-> Hlen%near_length].
  unfold attrib_add. cbn [xp_mem xp_set_mem xp_addr xp_latin1 xp_err xp_namespaces].
  set (isns := match scope with Some _ => _ | None => _ end).
  set (isns2 := match scope with Some _ => _ | None => _ end).
  assert (isns = isns2) as ->.
  { unfold isns, isns2. destruct scope; [|done]. destruct (6 <? an)%nat; [|done].
    by rewrite (starts_drop _ _ _ src HE). }
  assert (exists b, isns2 = Ok b /\ (b = true -> (6 < an)%nat)) as (b & -> & Hb).
  { unfold isns2. destruct scope; [|by exists false].
    destruct (Nat.ltb_spec 6 an); [|by exists false].
    destruct (starts_text (lit "xmlns:") src) as (b & Eb & _); [by apply (bool_decide_unpack _)|done|].
    fold T in Eb. rewrite Eb. by exists b. }
  rewrite !ok_bind.
  assert (stepped (S src) (Some z) x1 x1 (xp_set_mem x1 T)) as Hst.
  { apply (stepped_refl _ src); [split_and!; done|lia..]. }
  destruct (slice_text src an ltac:(lia)) as (En & _). destruct (slice_text q pn ltac:(lia)) as (Ev & _).
  fold T in En, Ev. destruct b.
  { specialize (Hb eq_refl). destruct (slice_text (src + 6) (an - 6) ltac:(lia)) as (Ep & _). fold T in Ep.
    rewrite (mslice_drop _ (src + 6)), (mslice_drop _ q), Ep, Ev, !ok_bind by (done || by apply (drop_le _ _ src); [|lia]).
    rewrite ?ok_bind. simpl. split_and!; try done; try lia; [|apply grown_refl].
    destruct Hst as ([_ ?] & ? & ? & _ & ? & ?). split_and!; done. }
  destruct (text_at (src + an) ltac:(lia)) as (a & Ea & _).
  destruct (text_at (q + pn) ltac:(lia)) as (b & Eb & _).
  rewrite !(mread_drop _ _ _ HE) by lia. rewrite (mread_lookup _ _ _ Ea), (mread_lookup _ _ _ Eb), !ok_bind.
  cbn [orb]. rewrite En, Ev, !ok_bind.
  destruct ((a =? 10) || (b =? 10)) eqn:Hnl.
  - rewrite (mslice_drop _ src), (mslice_drop _ q), En, Ev, !ok_bind by (done || by apply (drop_le _ _ src); [|lia]).
    apply attrib_field_sim; [done|by apply srel_heap; lia..|lia].
  - apply orb_false_iff in Hnl as [Ha%Z.eqb_neq Hb10%Z.eqb_neq].
    destruct (terminate x1 (xp_set_mem x1 T) (src + an) z) as (m1 & -> & Hs1 & H0 & H1); [done|congruence|lia..|].
    rewrite ok_bind.
    destruct (terminate (xp_set_mem x1 m1) (xp_set_mem x1 T) (q + pn) z) as (m & Em & Hs2 & H2 & H3);
      [done|congruence|lia..|]. cbn [xp_mem xp_set_mem] in Em, H3. rewrite Em, ok_bind. cbv zeta.
    assert (forall i, (src <= i)%nat -> (i <> src + an)%nat -> (i <> q + pn)%nat -> m !! i = T !! i) as Hm.
    { intros i ? ? ?. rewrite H3, H1 by done. by apply (drop_lookup_eq _ _ src). }
    apply attrib_field_sim with (y := xp_set_mem x1 m); [..|lia].
    + split; [apply Hs2|]. split; [intros i Hi; simpl; rewrite H3, H1 by lia; done|]. split; [lia|]. split_and!; [apply Hs2|done|].
      apply list_eq. intros i. rewrite !lookup_drop. apply Hm; lia.
    + apply srel_slice; [lia|intros j Hj; apply Hm; lia|simpl; rewrite H3 by lia; done|unfold span; lia].
    + apply srel_slice; [lia|intros j Hj; apply Hm; lia|done|unfold span; lia].
Qed.

Lemma attrib_sim F x1 x2 f1 f2 src scope : synced src x1 x2 ->
  sim F (attrib_post x1 f1 f2 src)
    (htsmsg_xml_parse_attrib false x1 f1 src scope) (htsmsg_xml_parse_attrib true x2 f2 src scope).
Proof using Hs.
  intros (Hsame & Hsrc & HE). pose proof Hsame as [-> Hlen%near_length].
  unfold htsmsg_xml_parse_attrib. cbn [xp_mem xp_set_mem].
  xscan HE i c. xread HE.
  destruct (Z.eqb_spec c 0) as [|Hc0]; [by apply attrib_err|].
  pose proof (text_nonzero i c Ec Hc0) as HiN.
  destruct ((ptrdiff i src <? 1) || (65535 <? ptrdiff i src)) eqn:Hal; [by apply attrib_err|].
  apply orb_false_iff in Hal as [Hal _]. apply Z.ltb_ge in Hal.
  pose proof (ptrdiff_le i src ltac:(lia) ltac:(lia)) as Han.
  xscan HE e ce. xread HE.
  destruct (Z.eqb_spec ce 61) as [->|]; [|by apply attrib_err]. cbn [negb].
  pose proof (text_nonzero e 61 Ec0 ltac:(lia)) as HeN.
  xscan HE q cq. xread HE.
  destruct (negb (cq =? 34) && negb (cq =? 39)) eqn:Hq; [by apply attrib_err|].
  assert (cq <> 0) as Hq0. { intros ->. discriminate. }
  pose proof (text_nonzero q cq Ec1 Hq0) as HqN.
  xscan HE b cb. xread HE.
  destruct (Z.eqb_spec cb 0) as [|Hcb]; [by apply attrib_err|].
  pose proof (text_nonzero b cb Ec2 Hcb) as HbN.
  destruct ((ptrdiff b (S q) <? 0) || (65535 <? ptrdiff b (S q))) eqn:Hpl; [by apply attrib_err|].
  apply orb_false_iff in Hpl as [Hpl _]. apply Z.ltb_ge in Hpl.
  pose proof (ptrdiff_le b (S q) ltac:(lia) ltac:(lia)) as Hpn.
  xscan HE z cz.
  apply attrib_add_sim; [split_and!; done|lia..].
Qed.

Lemma grown_later x1 y1 y2 f1 g1 h1 f2 g2 h2 a b c : (a <= b)%nat -> (b <= c)%nat ->
  grown (span a b) x1 f1 g1 f2 g2 -> (forall i, (i < b)%nat -> xp_mem y1 !! i = xp_mem x1 !! i) ->
  grown (span b c) y1 g1 h1 g2 h2 -> y2 = y1 -> grown (span a c) y2 f1 h1 f2 h2.
Proof using Hs.
  intros Hab Hbc H1 Hm H2 ->. eapply grown_trans; [exact H1|exact H2| |]; unfold span.
  - intros i Hi. split; [lia|apply Hm; lia].
  - intros i Hi. lia.
Qed.

Definition loop_post {A} (x1 : xmlparser) (f1 f2 : list xfield) (src : nat)
    (r1 r2 : option (nat * A)) (g1 g2 : list xfield) (y1 y2 : xmlparser) : Prop :=
  r1 = r2 /\ stepped (S src) (fst <$> r1) x1 y1 y2 /\
  match r1 with
  | Some (src', _) => (src < src')%nat /\ grown (span src src') y1 f1 g1 f2 g2
  | None => True
  end.

(** A call of [htsmsg_xml_parse_attrib] and what follows it. *)
Lemma loop_step {A} x1 z1 z2 f1 g1 f2 g2 src i src' (r1 r2 : option (nat * A)) h1 h2 y1 y2 :
  (src <= i < src')%nat ->
  stepped (S i) (Some src') x1 z1 z2 -> grown (span i src') z1 f1 g1 f2 g2 ->
  loop_post z1 g1 g2 src' r1 r2 h1 h2 y1 y2 -> loop_post x1 f1 f2 src r1 r2 h1 h2 y1 y2.
Proof using Hs.
  intros Hi Hst Hg (-> & Hst2 & Hr). split; [done|]. split.
  { destruct Hst as (? & H1 & H2 & ?), Hst2 as (? & H3 & H4). split; [done|]. split.
    - intros j Hj. rewrite H3, H1 by lia. done.
    - destruct r2 as [[? ?]|]; [|done]. simpl in *. split; [lia|apply H4]. }
  destruct r2 as [[e b]|]; [|done]. destruct Hr as [He Hg2]. split; [lia|].
  eapply (grown_later z1 y1 y1 f1 g1 h1 f2 g2 h2 src src' e);
    [lia|lia| |intros j Hj; apply Hst2; lia|done|done].
  destruct Hg as (n1 & n2 & -> & -> & Hn). exists n1, n2. split_and!; [done|done|].
  eapply frels_mono; [|exact Hn]. intros x y. apply srel_mono; unfold span; [lia|done].
Qed.

Lemma parse_tag_attribs_sim F fuel x1 x2 f1 f2 src nslist :
  synced src x1 x2 -> (N - src < fuel)%nat ->
  sim F (fun '(r1, g1, sc1, y1) '(r2, g2, sc2, y2) =>
           sc1 = sc2 /\ loop_post x1 f1 f2 src r1 r2 g1 g2 y1 y2)
    (parse_tag_attribs false fuel x1 f1 src nslist) (parse_tag_attribs true fuel x2 f2 src nslist).
Proof using Hs.
  revert x1 x2 f1 f2 src nslist. induction fuel as [|fuel IH]; intros x1 x2 f1 f2 src nslist Hsy Hf; [lia|].
  pose proof Hsy as (Hsame & Hsrc & HE). pose proof Hsame as [-> _].
  cbn [parse_tag_attribs]. cbn [xp_mem xp_set_mem].
  xscan HE i c. xread HE.
  destruct (Z.eqb_spec c 0) as [|Hc0].
  { simpl. split; [done|]. split; [done|]. split; [by apply stepped_err|done]. }
  rewrite (starts_drop _ _ _ i HE) by lia.
  destruct (starts_text (lit "/>") i) as (b & Eb & Hbe); [by apply (bool_decide_unpack _)|lia|].
  fold T in Eb. rewrite Eb, !ok_bind. destruct b.
  { specialize (Hbe eq_refl). change (length (lit "/>")) with 2%nat in Hbe. simpl. split; [done|]. split; [done|].
    split; [apply (stepped_refl _ src (i + 2)); [done|lia..]|]. split; [lia|apply grown_refl]. }
  pose proof (text_nonzero i c Ec Hc0) as HiN.
  destruct (Z.eqb_spec c 62) as [->|].
  { simpl. split; [done|]. split; [done|].
    split; [apply (stepped_refl _ src (S i)); [done|lia..]|]. split; [lia|apply grown_refl]. }
  pose proof (stepped_refl src src i x1 _ Hsy ltac:(lia) ltac:(lia)) as (_ & _ & _ & Hsy').
  eapply sim_bind; [by apply attrib_sim|].
  intros [[[r1 g1] sc1] z1] [[[r2 g2] sc2] z2] (-> & -> & Hst & Hr).
  destruct r2 as [src'|].
  - destruct Hr as [Hlt Hg]. eapply sim_mono; [apply IH; [apply Hst|lia]|].
    intros [[[r1 h1] k1] y1] [[[r2 h2] k2] y2] (-> & Hl). split; [done|].
    eapply (loop_step x1 z1 z2); [|exact Hst|exact Hg|exact Hl]. lia.
  - simpl. split; [done|]. split; [done|]. split; [|done].
    eapply stepped_weaken; [exact Hst|lia].
Qed.

(** [parse_pi_attribs] is the same loop without a list of namespaces. *)
Definition pi_post (x1 : xmlparser) (f1 f2 : list xfield) (src : nat)
    (o1 o2 : option nat * list xfield * xmlparser) : Prop :=
  let '(r1, g1, y1) := o1 in
  let '(r2, g2, y2) := o2 in
  loop_post x1 f1 f2 src ((fun i => (i, tt)) <$> r1) ((fun i => (i, tt)) <$> r2) g1 g2 y1 y2.

Lemma pi_err x1 x2 f1 f2 src pos line msg F : same x1 x2 ->
  sim F (pi_post x1 f1 f2 src) (Ok (None, f1, xmlerr2 x1 pos line msg)) (Ok (None, f2, xmlerr2 x2 pos line msg)).
Proof using Hs. intros H. split; [done|]. split; [|done]. by apply stepped_err. Qed.

Lemma parse_pi_attribs_sim F fuel x1 x2 f1 f2 src :
  synced src x1 x2 -> (N - src < fuel)%nat ->
  sim F (pi_post x1 f1 f2 src)
    (parse_pi_attribs false fuel x1 f1 src) (parse_pi_attribs true fuel x2 f2 src).
Proof using Hs.
  revert x1 x2 f1 f2 src. induction fuel as [|fuel IH]; intros x1 x2 f1 f2 src Hsy Hf; [lia|].
  pose proof Hsy as (Hsame & Hsrc & HE). pose proof Hsame as [-> _].
  cbn [parse_pi_attribs]. cbn [xp_mem xp_set_mem].
  xscan HE i c. xread HE.
  destruct (Z.eqb_spec c 0) as [|Hc0]; [by apply pi_err|].
  rewrite (starts_drop _ _ _ i HE) by lia.
  destruct (starts_text (lit "?>") i) as (b & Eb & Hbe); [by apply (bool_decide_unpack _)|lia|].
  fold T in Eb. rewrite Eb, !ok_bind. destruct b.
  { specialize (Hbe eq_refl). change (length (lit "?>")) with 2%nat in Hbe. split; [done|].
    split; [apply (stepped_refl _ src (i + 2)); [done|lia..]|]. simpl. split; [lia|apply grown_refl]. }
  pose proof (text_nonzero i c Ec Hc0) as HiN.
  pose proof (stepped_refl src src i x1 _ Hsy ltac:(lia) ltac:(lia)) as (_ & _ & _ & Hsy').
  eapply sim_bind; [by apply attrib_sim|].
  intros [[[r1 g1] sc1] z1] [[[r2 g2] sc2] z2] (-> & -> & Hst & Hr).
  destruct r2 as [src'|].
  - destruct Hr as [Hlt Hg]. eapply sim_mono; [apply IH; [apply Hst|lia]|].
    intros [[r1 h1] y1] [[r2 h2] y2] Hl. eapply (loop_step x1 z1 z2); [|exact Hst|exact Hg|exact Hl]. lia.
  - split; [done|]. split; [|done].
    eapply stepped_weaken; [exact Hst|lia].
Qed.

(** The fields of an instruction, where there is a place for them. *)
Definition parse_pi_post (x1 : xmlparser) (p1 p2 : option (list xfield)) (src : nat)
    (o1 o2 : option nat * option (list xfield) * xmlparser) : Prop :=
  let '(r1, q1, y1) := o1 in
  let '(r2, q2, y2) := o2 in
  r1 = r2 /\ stepped src r1 x1 y1 y2 /\
  match r1 with
  | Some src' =>
      (src < src')%nat /\
      match p1, p2 with
      | Some f1, Some f2 => exists g1 g2, q1 = Some g1 /\ q2 = Some g2 /\ grown (span src src') y1 f1 g1 f2 g2
      | _, _ => True
      end
  | None => True
  end.

Lemma parse_pi_sim F x1 x2 p1 p2 src : synced src x1 x2 -> (is_Some p1 <-> is_Some p2) ->
  sim F (parse_pi_post x1 p1 p2 src)
    (htsmsg_xml_parse_pi false x1 p1 src) (htsmsg_xml_parse_pi true x2 p2 src).
Proof using Hs.
  intros Hsy Hp. pose proof Hsy as (Hsame & Hsrc & HE). pose proof Hsame as [-> Hlen%near_length].
  unfold htsmsg_xml_parse_pi. cbn [xp_mem xp_set_mem].
  xscan HE i c. xread HE.
  destruct (Z.eqb_spec c 0) as [|Hc0]. { split; [done|]. split; [by apply stepped_err|done]. }
  pose proof (text_nonzero i c Ec Hc0) as HiN.
  destruct ((ptrdiff i src <? 1) || (1024 <? ptrdiff i src)) eqn:Hl.
  { split; [done|]. split; [by apply stepped_err|done]. }
  apply orb_false_iff in Hl as [Hl _]. apply Z.ltb_ge in Hl.
  pose proof (ptrdiff_le i src ltac:(lia) ltac:(lia)) as Hn.
  rewrite (mslice_drop _ _ _ HE Hlen). destruct (slice_text src (Z.to_nat (ptrdiff i src)) ltac:(lia)) as (En & Hn0 & _).
  fold T in En. rewrite En, !ok_bind.
  pose proof (stepped_refl src src i x1 _ Hsy ltac:(lia) ltac:(lia)) as (_ & _ & _ & Hsy').
  rewrite Hlen. eapply sim_bind; [apply parse_pi_attribs_sim; [done|rewrite text_length; lia]|].
  intros [[r1 g1] y1] [[r2 g2] y2] (Er & Hst & Hg).
  assert (r1 = r2) as -> by (destruct r1, r2; naive_solver). clear Er.
  destruct r2 as [src'|]; simpl in Hst, Hg.
  - destruct Hg as [Hlt (n1 & n2 & -> & -> & Hg)]. simpl. split; [done|]. split.
    { destruct Hst as (? & H1 & H2 & ?). split; [done|]. split; [|split; [lia|done]]. intros j Hj. apply H1. lia. }
    split; [lia|]. destruct p1 as [f1|], p2 as [f2|]; try done.
    assert (Forall2 (frel (srel (xp_mem y1) (span src src'))) n1 n2) as Hg'.
    { eapply frels_mono; [|exact Hg]. intros x y. apply srel_mono; unfold span; [lia|done]. }
    destruct Hg; [exists f1, f2; split_and!; try done; apply grown_refl|].
    do 2 eexists. split; [done|]. split; [done|]. do 2 eexists. split; [done|]. split; [done|].
    constructor; [|done]. constructor; [|constructor|by constructor]. eexists. split; [done|]. by split; [|left].
  - simpl. split; [done|]. split; [|done]. eapply stepped_weaken; [exact Hst|lia].
Qed.

Lemma comment_end_text src : (src <= N)%nat ->
  exists r, comment_end (drop src T) src = Ok r /\ (forall e, r = Some e -> (src < e <= N)%nat).
Proof using Hs.
  remember (N - src)%nat as k eqn:Hk. revert src Hk. induction k as [|k IH]; intros src Hk Hsrc.
  all: destruct (text_at src Hsrc) as (c & E & Hc).
  - assert (src = N) by lia. rewrite (drop_S _ _ _ E). simpl. rewrite (proj2 (Z.eqb_eq c 0)) by tauto.
    by exists None.
  - pose proof (drop_S _ _ _ E) as Ed. rewrite Ed. cbn [comment_end].
    rewrite (proj2 (Z.eqb_neq c 0)) by (rewrite Hc; lia).
    destruct (starts_text (lit "-->") src) as (b & Eb & Hb); [by apply (bool_decide_unpack _)|done|].
    unfold starts in Eb. fold T in Eb. rewrite Ed in Eb. rewrite Eb, ok_bind. destruct b.
    + specialize (Hb eq_refl). change (length (lit "-->")) with 3%nat in Hb. eexists. split; [done|]. intros ? [= <-]. lia.
    + destruct (IH (S src)) as (r & Er & Hr); [lia|lia|]. exists r. split; [done|]. intros e He.
      specialize (Hr e He). lia.
Qed.

Lemma comment_sim F x1 x2 src : synced src x1 x2 ->
  sim F (fun '(r1, y1) '(r2, y2) => r1 = r2 /\ stepped src r1 x1 y1 y2 /\ xp_mem y1 = xp_mem x1)
    (xml_parse_comment x1 src) (xml_parse_comment x2 src).
Proof using Hs.
  intros Hsy. pose proof Hsy as (Hsame & Hsrc & HE). pose proof Hsame as [-> Hlen%near_length].
  unfold xml_parse_comment. cbn [xp_mem xp_set_mem]. rewrite HE.
  destruct (comment_end_text src Hsrc) as (r & -> & Hr). rewrite !ok_bind. destruct r as [e|].
  - split; [done|]. split; [|done]. specialize (Hr e eq_refl). by apply (stepped_refl _ src); [|lia..].
  - split; [done|]. split; [|done]. by apply stepped_err.
Qed.

(** ** Segments *)

(** What a call from [lo] to [hi] has written: the terminator of a body that the
    end of the text ends is at [N]. *)
Definition upto (lo hi i : nat) : Prop := (lo <= i)%nat /\ ((i < hi)%nat \/ i = N /\ hi = N).

Definition seg_ok (m : list Z) (lo hi : nat) (cc : cdata_content) : Prop :=
  match cc with
  | CcUni bs => (0 ∉ bs) /\ 38 ∈ s
  | CcSrc _ a None => False
  | CcSrc _ a (Some e) =>
      (lo <= a <= e)%nat /\ ((e < hi)%nat \/ e = N /\ hi = N) /\ (hi <= N)%nat /\
      (forall i, (a <= i <= e)%nat -> m !! i = T !! i) /\ T !! e <> Some 10
  end.

Definition cc_len (cc : cdata_content) : nat :=
  match cc with
  | CcUni bs => length bs
  | CcSrc _ a (Some e) => (e - a)%nat
  | CcSrc _ _ None => O
  end.
Definition ccq_len (ccq : list cdata_content) : nat := sum_list_with cc_len ccq.

Lemma seg_ok_weaken m m' lo hi hi' cc : seg_ok m lo hi cc -> (hi <= hi' <= N)%nat ->
  (forall i, upto lo hi i -> m' !! i = m !! i) -> seg_ok m' lo hi' cc.
Proof using Hs.
  destruct cc as [l a [e|]|]; simpl; [|done|done]. unfold upto. intros (? & ? & ? & H & ?) Hh Hm.
  split_and!; try lia; [|done]. intros i Hi. rewrite Hm by lia. apply H. lia.
Qed.

Lemma segs_weaken m m' lo hi hi' ccq : Forall (seg_ok m lo hi) ccq -> (hi <= hi' <= N)%nat ->
  (forall i, upto lo hi i -> m' !! i = m !! i) -> Forall (seg_ok m' lo hi') ccq.
Proof using Hs. intros H Hh Hm. eapply Forall_impl; [exact H|]. intros cc Hc. by eapply seg_ok_weaken. Qed.

Lemma seg_bytes m lo hi cc : seg_ok m lo hi cc -> length m = length T ->
  exists bs, cc_bytes m cc = Ok bs /\ cc_bytes T cc = Ok bs /\ length bs = cc_len cc /\ (0 ∉ bs) /\
    match cc with CcSrc _ a _ => bs = take (cc_len cc) (drop a T) | _ => True end.
Proof using Hs.
  destruct cc as [l a [e|]|bs]; [|done|intros [? _] _; by exists bs]. unfold seg_ok, upto. intros (Ha & He & HN & Hm & _) Hl. cbn [cc_bytes cc_len].
  destruct (slice_text a (e - a) ltac:(lia)) as (E & H0 & Hn). fold T in E, H0, Hn.
  rewrite (proj2 (Nat.leb_le a e)) by lia. exists (take (e - a) (drop a T)). split_and!; [|done..].
  rewrite <- E. unfold mslice. rewrite Hl. destruct (decide _); [|done]. f_equal. apply list_eq. intros i.
  destruct (decide (i < e - a)%nat).
  - rewrite !lookup_take_lt, !lookup_drop by lia. apply Hm. lia.
  - by rewrite !lookup_take_ge by lia.
Qed.

Lemma ws_same m lo hi cc : seg_ok m lo hi cc -> length m = length T ->
  exists b, xml_is_cc_ws m cc = Ok b /\ xml_is_cc_ws T cc = Ok b.
Proof using Hs.
  intros H Hl. destruct (seg_bytes _ _ _ _ H Hl) as (bs & E1 & E2 & _).
  unfold xml_is_cc_ws. rewrite E1, E2. by eexists.
Qed.

Lemma trim_same m lo hi ccq : Forall (seg_ok m lo hi) ccq -> length m = length T ->
  exists q, trim_ws m ccq = Ok q /\ trim_ws T ccq = Ok q /\ q `suffix_of` ccq.
Proof using Hs.
  induction 1 as [|cc ccq H _ IH]; intros Hl; [by exists []|].
  destruct (ws_same _ _ _ _ H Hl) as (b & E1 & E2). simpl. rewrite E1, E2, !ok_bind.
  destruct b; [|by exists (cc :: ccq)]. destruct (IH Hl) as (q & Eq1 & Eq2 & Hq).
  exists q. split_and!; [done|done|by apply suffix_cons_r].
Qed.

Lemma ccq_len_app a b : ccq_len (a ++ b) = (ccq_len a + ccq_len b)%nat.
Proof using Hs. apply sum_list_with_app. Qed.

Lemma ccq_len_reverse q : ccq_len (reverse q) = ccq_len q.
Proof using Hs. apply sum_list_with_reverse. Qed.

(** Trimming on both sides, in both buffers. *)
Lemma trims_same m lo hi ccq : Forall (seg_ok m lo hi) ccq -> length m = length T ->
  exists q1 q2, trim_ws m ccq = Ok q1 /\ trim_ws T ccq = Ok q1 /\
    trim_ws m (reverse q1) = Ok q2 /\ trim_ws T (reverse q1) = Ok q2 /\
    (forall cc, cc ∈ q2 -> cc ∈ ccq) /\ Forall (seg_ok m lo hi) (reverse q2) /\
    (ccq_len (reverse q2) <= ccq_len ccq)%nat.
Proof using Hs.
  intros H Hl. destruct (trim_same _ _ _ _ H Hl) as (q1 & E1 & E2 & [p1 Hp1]). subst ccq.
  apply Forall_app in H as [_ H]. pose proof H as Hr. apply Forall_reverse in Hr.
  destruct (trim_same _ _ _ _ Hr Hl) as (q2 & E3 & E4 & [p2 Hp2]).
  exists q1, q2. split_and!; try done.
  - intros cc Hc. apply elem_of_app. right. rewrite <- elem_of_reverse, Hp2. apply elem_of_app. by right.
  - apply Forall_reverse. rewrite Hp2 in Hr. by apply Forall_app in Hr as [_ Hr].
  - rewrite ccq_len_reverse, ccq_len_app, <- (ccq_len_reverse q1), Hp2, ccq_len_app. lia.
Qed.

(** The first pass counts what the second one copies. *)
Lemma encode_latin bs : 0 ∉ bs -> Forall is_byte bs ->
  Z.of_nat (length (concat (map utf8_put bs))) =
    Z.of_nat (length bs) + Z.of_nat (length (filter (fun x => 128 <= x) bs)).
Proof using Hs.
  intros _. induction 1 as [|x bs Hx _ IH]; [done|]. simpl map. simpl concat. rewrite length_app.
  rewrite filter_cons. unfold is_byte in Hx.
  assert (length (utf8_put x) = if decide (128 <= x) then 2%nat else 1%nat) as ->.
  { unfold utf8_put. rewrite !(proj2 (Z.eqb_neq x _)), (proj2 (Z.leb_gt 55296 x)) by lia. cbn [orb andb].
    destruct (decide _).
    - by rewrite (proj2 (Z.ltb_ge x 128)), (proj2 (Z.ltb_lt x 2048)) by lia.
    - by rewrite (proj2 (Z.ltb_lt x 128)) by lia. }
  destruct (decide (128 <= x)); simpl length; lia.
Qed.

Lemma latin_nonzero bs : 0 ∉ bs -> Forall is_byte bs -> 0 ∉ concat (map utf8_put bs).
Proof using Hs.
  intros H0 H. induction H as [|x bs Hx _ IH]; [done|]. apply not_elem_of_cons in H0 as [Hx0 H0].
  simpl. rewrite not_elem_of_app. split; [|auto]. clear -Hx Hx0. unfold is_byte in Hx.
  pose proof (byte_forall (fun x => (x =? 0) || forallb (fun b => negb (b =? 0)) (utf8_put x)) eq_refl x) as Hb.
  specialize (Hb Hx). apply orb_true_iff in Hb as [Hb|Hb]; [apply Z.eqb_eq in Hb; lia|].
  intros Hin. rewrite forallb_forall in Hb. specialize (Hb 0). rewrite <- list_elem_of_In in Hb.
  by specialize (Hb Hin).
Qed.

Lemma latin_ascii bs : Forall is_byte bs -> filter (fun x => 128 <= x) bs = [] ->
  concat (map utf8_put bs) = bs.
Proof using Hs.
  induction 1 as [|x bs Hx _ IH]; [done|]. rewrite filter_cons. destruct (decide (128 <= x)); [done|].
  intros Hf. simpl. rewrite IH by done. unfold utf8_put, is_byte in *.
  rewrite !(proj2 (Z.eqb_neq x _)), (proj2 (Z.leb_gt 55296 x)) by lia. cbn [orb andb].
  rewrite (proj2 (Z.ltb_lt x 128)) by lia. by rewrite u8_id.
Qed.

Lemma text_bytes a n : Forall is_byte (take n (drop a T)).
Proof using Hs.
  apply Forall_take, Forall_drop. unfold T. apply Forall_app. split; [by apply cstring_bytes|].
  repeat constructor; done.
Qed.

(** Both buffers give the same bytes. *)
Definition readable (m : list Z) (cc : cdata_content) : Prop :=
  exists bs, cc_bytes m cc = Ok bs /\ cc_bytes T cc = Ok bs /\ length bs = cc_len cc /\ (0 ∉ bs) /\
    match cc with CcSrc _ a _ => bs = take (cc_len cc) (drop a T) | _ => True end.

Lemma segs_readable m lo hi ccq : Forall (seg_ok m lo hi) ccq -> length m = length T -> Forall (readable m) ccq.
Proof using Hs. intros H Hl. eapply Forall_impl; [exact H|]. intros cc Hcc. by apply (seg_bytes m lo hi). Qed.

Lemma measure_spec m ccq c y : Forall (readable m) ccq ->
  0 <= c -> c + 2 * Z.of_nat (ccq_len ccq) <= int_max ->
  exists bs k, cd_measure m ccq c y = Ok (c + Z.of_nat (length bs), y + k) /\
    cd_measure T ccq c y = Ok (c + Z.of_nat (length bs), y + k) /\
    cd_concat m ccq = Ok bs /\ cd_concat T ccq = Ok bs /\ (0 ∉ bs) /\
    Z.of_nat (length ccq) <= k /\
    (forall cc, ccq = [cc] -> (k = 1 -> cc_bytes T cc = Ok bs) /\ (k = 1 \/ (2 <= length bs)%nat)).
Proof using Hs.
  intros H. revert c y. induction H as [|cc ccq H _ IH]; intros c y Hc Hmax.
  { exists [], 0. simpl. rewrite !Z.add_0_r. split_and!; try done; set_solver. }
  destruct H as (bs & E1 & E2 & Hn & H0 & Hbs).
  change (ccq_len (cc :: ccq)) with (cc_len cc + ccq_len ccq)%nat in Hmax. rewrite <- Hn in *.
  pose proof (length_filter (fun x => 128 <= x) bs) as Hfl.
  assert (exists enc k, cc_encode T cc = Ok enc /\ cc_encode m cc = Ok enc /\ (0 ∉ enc) /\
    (length enc <= 2 * length bs)%nat /\ 1 <= k /\ ((k = 1 -> enc = bs) /\ (k = 1 \/ (2 <= length enc)%nat)) /\
    (forall mm, cc_bytes mm cc = Ok bs -> cd_measure mm (cc :: ccq) c y
      = cd_measure mm ccq (c + Z.of_nat (length enc)) (y + k))) as (enc & k & F1 & F2 & F0 & Fl & Fk & (F3 & F4) & Hstep).
  { unfold cc_encode. rewrite E1, E2, !ok_bind. destruct cc as [[|] a e|b].
    - assert (Forall is_byte bs) as Hby by (rewrite Hbs; apply text_bytes).
      pose proof (encode_latin bs H0 Hby) as He.
      exists (concat (map utf8_put bs)),
        (1 + (if Z.of_nat (length bs) + Z.of_nat (length (filter (fun x => 128 <= x) bs)) =? Z.of_nat (length bs) then 0 else 1)).
      split_and!; try done.
      + apply latin_nonzero; done.
      + lia.
      + destruct (_ =? _); lia.
      + destruct (Z.eqb_spec (Z.of_nat (length bs) + Z.of_nat (length (filter (fun x => 128 <= x) bs)))
          (Z.of_nat (length bs))) as [Hz|]; [|lia]. intros _. apply latin_ascii; [done|].
        apply nil_length_inv. lia.
      + destruct (Z.eqb_spec (Z.of_nat (length bs) + Z.of_nat (length (filter (fun x => 128 <= x) bs)))
          (Z.of_nat (length bs))); [by left|right; lia].
      + intros mm Em. cbn [cd_measure]. rewrite Em, ok_bind. rewrite chk_int_Ok, ok_bind by ilia.
        rewrite chk_int_Ok, ok_bind by ilia. by rewrite He.
    - exists bs, 1. split_and!; try done; try lia. intros mm Em. cbn [cd_measure]. rewrite Em, ok_bind.
      rewrite s32_id by ilia. done.
    - exists bs, 1. split_and!; try done; try lia. intros mm Em. cbn [cd_measure]. rewrite Em, ok_bind.
      rewrite s32_id by ilia. done. }
  destruct (IH (c + Z.of_nat (length enc)) (y + k)) as (rest & k' & G1 & G2 & G3 & G4 & G5 & G6 & _); [lia|lia|].
  exists (enc ++ rest), (k + k'). rewrite !Hstep, G1, G2 by done. cbn [cd_concat].
  rewrite F1, F2, G3, G4, !ok_bind, length_app. split_and!; try done.
  - by rewrite Nat2Z.inj_add, !Z.add_assoc.
  - by rewrite Nat2Z.inj_add, !Z.add_assoc.
  - set_solver.
  - simpl length. lia.
  - intros cc' [= -> ->]. cbn in G1, G3. injection G3 as <-. injection G1 as _ Hk'. rewrite app_nil_r.
    split; [intros Hk; rewrite F3 by lia; done|]. destruct F4; [left|right]; lia.
Qed.

Definition body_post (m : list Z) (lo hi : nat) (ccq : list cdata_content)
    (o1 o2 : option xstr * list Z) : Prop :=
  let '(b1, m1) := o1 in
  let '(b2, m2) := o2 in
  m2 = T /\ near m1 /\
  option_Forall2 (srel m1 (upto lo hi)) b1 b2 /\
  (m1 = m \/ exists l a e, CcSrc l a (Some e) ∈ ccq /\ m1 = <[e := 0]> m).

Lemma body_sim F m lo hi ccq : (38 ∈ s -> F Uninitialised) -> near m -> Forall (seg_ok m lo hi) ccq ->
  2 * Z.of_nat (ccq_len ccq) <= int_max ->
  sim F (body_post m lo hi ccq) (cd_body false m ccq) (cd_body true T ccq).
Proof using Hs.
  intros HU Hnm H Hmax. pose proof (near_length _ Hnm) as Hl. destruct (measure_spec m ccq 0 0) as (bs & k & E1 & E2 & E3 & E4 & H0 & Hk & H1);
    [by apply (segs_readable _ lo hi)|lia|lia|].
  assert (forall x, srel x (upto lo hi) (XHeap bs) (XHeap bs)) as Hheap.
  { intros x. eexists. split; [done|]. by split; [|left]. }
  destruct ccq as [|cc ccq]; [by repeat constructor|]. unfold cd_body.
  rewrite E1, E2, E3, E4, !ok_bind, !Z.add_0_l, Z.leb_refl.
  destruct (Z.eqb_spec k 1) as [->|]; cbn [andb].
  2:{ destruct (1 <? _); (split; [done|]; split; [done|]; split; [|by left]); by constructor. }
  destruct ccq as [|cc' ccq]; [|simpl in Hk; lia]. destruct (H1 cc eq_refl) as [H1' _]. specialize (H1' eq_refl). clear H1. rename H1' into H1.
  destruct (Z.ltb_spec 0 (Z.of_nat (length bs))) as [Hpos|].
  2:{ rewrite (proj2 (Z.ltb_ge 1 _)) by lia. split; [done|]. split; [done|]. split; [constructor|by left]. }
  apply Forall_cons in H as [H _]. destruct (seg_bytes _ _ _ _ H Hl) as (bs' & _ & F2 & F3 & _ & F4).
  rewrite H1 in F2. injection F2 as <-. destruct cc as [l a [e|]|b]; [|done|by split; [|exact (HU (proj2 H))]].
  destruct H as (Ha & He & HN & Hm & Hnl). unfold upto in He. cbn [cc_end_byte cc_terminate].
  destruct (text_at e ltac:(lia)) as (c & Ec & _).
  rewrite (mread_lookup m e c) by (rewrite Hm by lia; done). rewrite (mread_lookup T e c Ec), !ok_bind.
  destruct (Z.eqb_spec c 10) as [->|]; [done|]. cbn [negb].
  rewrite mwrite_Ok, !ok_bind by (rewrite Hl, text_length; lia).
  split; [done|]. split; [by apply near_clear|]. split.
  - constructor. rewrite F4. cbn [cc_len]. apply srel_slice; [lia| | |unfold upto; lia].
    + intros j Hj. rewrite list_lookup_insert_ne by lia. apply Hm. lia.
    + replace (a + (e - a))%nat with e by lia. apply list_lookup_insert_eq. rewrite Hl, text_length. lia.
  - right. exists l, a, e. split; [by apply list_elem_of_here|done].
Qed.

(** Positions of a call that no segment of its text covers. *)
Definition free (lo hi : nat) (ccq : list cdata_content) (i : nat) : Prop :=
  upto lo hi i /\ (forall l a e, CcSrc l a (Some e) ∈ ccq -> ~ (a <= i <= e)%nat).

Definition cd0_post (src : nat) (x : xmlparser) (f1 f2 : list xfield)
    (o1 o2 : option nat * list cdata_content * list xfield * xmlparser) : Prop :=
  let '(r1, q1, g1, y1) := o1 in
  let '(r2, q2, g2, y2) := o2 in
  r1 = r2 /\ q1 = q2 /\ stepped src r1 x y1 y2 /\ (ccq_len q1 <= 3 * N)%nat /\
  match r1 with
  | Some src' =>
      Forall (seg_ok (xp_mem y1) src src') q1 /\ grown (free src src' q1) y1 f1 g1 f2 g2 /\
      (ccq_len q1 <= 3 * (src' - src))%nat
  | None => Forall (seg_ok (xp_mem y1) src N) q1
  end.

Definition set_body (b : option xstr) (f : xfield) : xfield :=
  match b with Some x => xf_set_str x f | None => f end.

Definition cd_post (src : nat) (x : xmlparser) (f1 f2 : list xfield) (h1 h2 : option xfield)
    (o1 o2 : option nat * list xfield * option xfield * xmlparser) : Prop :=
  let '(r1, g1, k1, y1) := o1 in
  let '(r2, g2, k2, y2) := o2 in
  r1 = r2 /\ stepped src r1 x y1 y2 /\
  exists b1 b2, k1 = set_body b1 <$> h1 /\ k2 = set_body b2 <$> h2 /\
  match r1 with
  | Some src' => grown (upto src src') y1 f1 g1 f2 g2 /\
      option_Forall2 (srel (xp_mem y1) (upto src src')) b1 b2
  | None => True
  end.

(** Terminating a body leaves everything but its segment. *)
Lemma body_stepped src r x1 y1 m1 q : stepped src r x1 y1 (xp_set_mem y1 T) ->
  Forall (seg_ok (xp_mem y1) src (default N r)) q -> near m1 ->
  (m1 = xp_mem y1 \/ exists l a e, CcSrc l a (Some e) ∈ q /\ m1 = <[e := 0]> (xp_mem y1)) ->
  stepped src r x1 (xp_set_mem y1 m1) (xp_set_mem y1 T) /\
  (forall i, (forall l a e, CcSrc l a (Some e) ∈ q -> ~ (a <= i <= e)%nat) -> m1 !! i = xp_mem y1 !! i).
Proof using Hs.
  intros ([_ Hl%near_length] & Hfr & Hr) Hq Hl1 Hm.
  assert (forall i, m1 !! i = xp_mem y1 !! i \/ m1 !! i = Some 0 /\
    exists l a e, CcSrc l a (Some e) ∈ q /\ i = e /\ (src <= a <= e)%nat /\
      ((e < default N r)%nat \/ e = N)) as Hcase.
  { intros i. destruct Hm as [->|(l & a & e & Hin & ->)]; [by left|].
    destruct (decide (i = e)) as [->|]; [right|left; by rewrite list_lookup_insert_ne].
    rewrite Forall_forall in Hq. pose proof (Hq _ Hin) as (? & ? & ? & _).
    rewrite list_lookup_insert_eq by (rewrite Hl, text_length; lia). split; [done|].
    exists l, a, e. split_and!; try done; lia. }
  split.
  - split; [done|]. split.
    { intros i Hi. simpl. destruct (Hcase i) as [->|(_ & l & a & e & _ & -> & ? & _)]; [by apply Hfr|]. lia. }
    destruct r as [src'|]; [|done]. destruct Hr as (Hle & _ & HN & HE). split; [done|]. split; [done|]. split; [done|].
    apply list_eq. intros i. rewrite !lookup_drop. simpl.
    destruct (Hcase (src' + i)%nat) as [->|(-> & l & a & e & _ & He & _ & He')].
    + apply (drop_lookup_eq _ _ src'); [done|lia].
    + simpl in He'. destruct He' as [| ->]; [lia|]. rewrite He. symmetry. apply text_end.
  - intros i Hi. destruct (Hcase i) as [|(_ & l & a & e & Hin & -> & ? & _)]; [done|].
    destruct (Hi l a e Hin). lia.
Qed.

Lemma parse_cd_sim F cd1 cd2 x1 x2 f1 f2 h1 h2 src : (38 ∈ s -> F Uninitialised) -> 6 * Z.of_nat N <= int_max -> (src <= N)%nat ->
  (is_Some h1 <-> is_Some h2) ->
  sim F (cd0_post src x1 f1 f2) (cd1 x1 [] f1 src false) (cd2 x2 [] f2 src false) ->
  sim F (cd_post src x1 f1 f2 h1 h2) (parse_cd false cd1 x1 f1 h1 src) (parse_cd true cd2 x2 f2 h2 src).
Proof using Hs.
  intros HU HN Hsrc Hh H. unfold parse_cd. eapply sim_bind; [exact H|]. clear H.
  intros [[[r1 q1] g1] y1] [[[r2 q2] g2] y2] (-> & -> & Hst & Hlen & Hr).
  pose proof Hst as ([-> Hnear] & Hfr & Hsrc'). pose proof (near_length _ Hnear) as Hl. cbn [xp_mem xp_set_mem].
  set (hi := default N r2). assert (hi <= N)%nat as Hhi.
  { unfold hi. destruct r2 as [e|]; simpl; [|done]. destruct Hsrc' as (? & _ & ? & _). lia. }
  assert (Forall (seg_ok (xp_mem y1) src hi) q2) as Hseg by (destruct r2; [apply Hr|done]).
  destruct (trims_same _ _ _ _ Hseg Hl) as (t1 & t2 & -> & -> & E3 & E4 & Hin & Hseg' & Hlen').
  rewrite !ok_bind, E3, E4, !ok_bind. set (q := reverse t2) in *.
  destruct h1 as [h1|], h2 as [h2|];
    [|by destruct Hh as [Hh _]; destruct Hh|by destruct Hh as [_ Hh]; destruct Hh|].
  - eapply sim_bind; [apply (body_sim F _ src hi); [done|done|done|]|].
    { lia. }
    intros [b1 m1] [b2 m2] (-> & Hl1 & Hb & Hm). split; [done|].
    destruct (body_stepped src r2 x1 y1 m1 q Hst Hseg' Hl1 Hm) as [Hst' Hne].
    split; [by destruct y1|]. exists b1, b2. split; [done|]. split; [done|].
    destruct r2 as [src'|]; [|done]. destruct Hr as (_ & Hg & _). split; [|exact Hb].
    eapply grown_trans; [exact Hg|apply (grown_refl (fun _ => False))| |done].
    intros i [Hu Hi]. split; [done|]. apply Hne. intros l a e Hc. apply (Hi l a e), Hin.
    by rewrite <- elem_of_reverse.
  - destruct (measure_spec _ q 0 0 (segs_readable _ _ _ _ Hseg' Hl)) as (bs & k & -> & -> & _); [lia|lia|].
    rewrite !ok_bind. split; [done|]. split; [done|]. exists None, None. split; [done|]. split; [done|].
    destruct r2 as [src'|]; [|done]. destruct Hr as (_ & Hg & _). split; [|constructor].
    eapply grown_trans; [exact Hg|apply (grown_refl (fun _ => False))| |done]. by intros i [Hu _].
Qed.

(** ** Elements *)

(** Between a tag name and the closing bracket.  Directly behind the name a
    slash closes the element: the terminator of the name would otherwise
    overwrite the first byte of an attribute name. *)
Definition tag_stop (i : nat) : Prop :=
  exists c, T !! i = Some c /\ (is_xmlws c = true \/ c = 62 \/ c = 47 /\ T !! S i = Some 62).

Lemma scan_skip p i c : T !! i = Some c -> p c = false -> scan p T i = scan p T (S i).
Proof using Hs. intros E Hp. unfold scan. rewrite (drop_S _ _ _ E). simpl. by rewrite Hp. Qed.

Lemma tag_attribs_sim F fuel x1 x2 i :
  synced i x1 x2 -> (N - i < fuel)%nat -> tag_stop i ->
  sim F (fun '(r1, g1, sc1, y1) '(r2, g2, sc2, y2) =>
           sc1 = sc2 /\ r1 = r2 /\ stepped (S i) (fst <$> r1) x1 y1 y2 /\
           match r1 with
           | Some (src', _) => (i < src')%nat /\ grown (span (S i) src') y1 [] g1 [] g2
           | None => True
           end)
    (parse_tag_attribs false fuel x1 [] i []) (parse_tag_attribs true fuel x2 [] i []).
Proof using Hs.
  intros Hsy Hf (c & Ec & Hc). pose proof Hsy as (Hsame & Hi & HE). pose proof Hsame as [-> Hl%near_length].
  assert (c <> 0) as Hc0. { intros ->. destruct Hc as [[=]|[[=]|[[=] _]]]. }
  pose proof (text_nonzero i c Ec Hc0) as HiN.
  destruct Hc as [Hw|Hc].
  - assert (forall cp x, drop i (xp_mem x) = drop i T ->
      parse_tag_attribs cp fuel x [] i [] = parse_tag_attribs cp fuel x [] (S i) []) as Hskip.
    { intros cp x Ex. destruct fuel; [done|]. cbn [parse_tag_attribs]. rewrite !(scan_drop _ _ _ _ Ex) by lia.
      rewrite (scan_skip _ i c Ec); [done|]. by rewrite Hw. }
    rewrite !Hskip by done. eapply sim_mono.
    + apply parse_tag_attribs_sim; [|lia]. split; [done|]. split; [lia|]. apply (drop_le _ _ i); [done|lia].
    + intros [[[r1 g1] s1] y1] [[[r2 g2] s2] y2] (-> & -> & Hst & Hr). split; [done|]. split; [done|].
      split; [eapply stepped_weaken; [done|lia]|]. destruct r2 as [[? ?]|]; [|done]. split; [lia|apply Hr].
  - destruct fuel as [|fuel]; [lia|]. cbn [parse_tag_attribs]. cbn [xp_mem xp_set_mem].
    xscan HE k d. assert (k = i) as ->.
    { destruct (decide (k = i)); [done|]. assert (is_xmlws c = false) as Hx by (destruct Hc as [->|[-> _]]; done).
      specialize (Hb i c ltac:(lia) Ec). by rewrite Hx in Hb. }
    rewrite Ec in Ec0. injection Ec0 as <-. xread HE. rewrite (proj2 (Z.eqb_neq c 0) Hc0).
    rewrite (starts_drop _ _ _ _ HE) by lia. unfold starts. rewrite (drop_S _ _ _ Ec).
    destruct Hc as [->|[-> E1]].
    + simpl. split; [done|]. split; [done|]. split; [apply (stepped_refl _ i (S i)); [done|lia..]|].
      split; [lia|apply grown_refl].
    + rewrite (drop_S _ _ _ E1). pose proof (text_nonzero _ _ E1 ltac:(done)).
      change (lit "/>") with [47; 62]. simpl. split; [done|]. split; [done|].
      split; [apply (stepped_refl _ i (i + 2)); [done|lia..]|]. split; [lia|apply grown_refl].
Qed.

Lemma tag_field_sim F x1 z1 z2 src tn i src' e : (tn > 0)%nat -> T !! (src + tn)%nat = Some e ->
  (src <= N)%nat -> drop src (xp_mem x1) = drop src T -> length (xp_mem x1) = length T ->
  stepped (S i) (Some src') x1 z1 z2 -> (src + tn <= i)%nat -> (i < src')%nat ->
  sim F (fun '(f1, w1) '(f2, w2) => stepped src (Some src') x1 w1 w2 /\
           frel (srel (xp_mem w1) (span src (S i))) f1 f2 /\
           (forall j, (i < j)%nat -> xp_mem w1 !! j = xp_mem z1 !! j))
    (tag_field false z1 src tn e) (tag_field true z2 src tn e).
Proof using Hs.
  intros Htn Ee Hsrc HE Hlx Hst Hn Hi. pose proof Hst as ([-> Hl%near_length] & Hfr & Hle & _ & HN & HE').
  destruct (slice_text src tn ltac:(lia)) as (En & _). fold T in En.
  assert (forall j, (src <= j <= i)%nat -> xp_mem z1 !! j = T !! j) as Hz.
  { intros j Hj. rewrite Hfr by lia. apply (drop_lookup_eq _ _ src); [done|lia]. }
  assert (mslice (xp_mem z1) src tn = mslice T src tn) as Ez.
  { unfold mslice. rewrite Hl. destruct (decide _); [|done]. f_equal. apply list_eq. intros j.
    destruct (decide (j < tn)%nat); [|by rewrite !lookup_take_ge by lia].
    rewrite !lookup_take_lt, !lookup_drop by lia. apply Hz. lia. }
  unfold tag_field. cbn [orb xp_mem xp_set_mem]. rewrite Ez, En, !ok_bind. destruct (Z.eqb_spec e 10).
  - eapply sim_bind; [eapply (add_field_sim F (span src (S i))); [apply Hst|by apply srel_heap; lia|constructor]|].
    intros g1 g2 Hg. split; [|by split]. eapply stepped_weaken; [exact Hst|lia].
  - destruct (terminate z1 (xp_set_mem z1 T) (src + tn) src') as (m & -> & Hsm & H0 & Hm); [apply Hst|congruence|lia|lia|].
    rewrite ok_bind. eapply sim_bind; [eapply (add_field_sim F (span src (S i))); [exact Hsm| |constructor]|].
    { apply srel_slice; [lia| |done|unfold span; lia]. intros j Hj. simpl. rewrite Hm by lia. apply Hz. lia. }
    intros g1 g2 Hg. split; [|split; [done|intros j Hj; simpl; apply Hm; lia]].
    split; [done|]. split; [intros j Hj; simpl; rewrite Hm by lia; apply Hfr; lia|].
    split; [lia|]. split; [done|]. split; [done|]. simpl. apply list_eq. intros j. rewrite !lookup_drop, Hm by lia.
    apply (drop_lookup_eq _ _ src'); [done|lia].
Qed.

Definition tag_post (src : nat) (x : xmlparser) (f1 f2 : list xfield)
    (o1 o2 : option nat * list xfield * xmlparser) : Prop :=
  let '(r1, g1, y1) := o1 in
  let '(r2, g2, y2) := o2 in
  r1 = r2 /\ stepped src r1 x y1 y2 /\
  match r1 with
  | Some src' => (src < src')%nat /\ grown (upto src src') y1 f1 g1 f2 g2
  | None => True
  end.

Lemma tag_err x1 x2 f1 f2 src pos line msg F : same x1 x2 ->
  sim F (tag_post src x1 f1 f2) (Ok (None, f1, xmlerr2 x1 pos line msg)) (Ok (None, f2, xmlerr2 x2 pos line msg)).
Proof using Hs. intros H. split; [done|]. split; [|done]. by apply stepped_err. Qed.

(** A name that starts at [src] and is cut by a slash belongs to an empty tag. *)
Definition name_stop (c : Z) : bool := (c =? 0) || is_xmlws c || (c =? 62) || (c =? 47).
Definition name_closed (src : nat) : Prop :=
  forall i, (src <= i)%nat -> (forall j d, (src <= j < i)%nat -> T !! j = Some d -> name_stop d = false) ->
    T !! i = Some 47 -> T !! S i = Some 62.

Lemma frel_set_body P b1 b2 f1 f2 : option_Forall2 P b1 b2 -> frel P f1 f2 ->
  frel P (set_body b1 f1) (set_body b2 f2).
Proof using Hs.
  intros Hb [n1 n2 a ns v1 v2 c1 c2 Hn Hv Hc]. destruct Hb; simpl; constructor; auto. by constructor.
Qed.

Lemma frel_set_childs P m1 m2 f1 f2 : Forall2 (frel P) m1 m2 -> frel P f1 f2 ->
  frel P (set_childs m1 f1) (set_childs m2 f2).
Proof using Hs.
  intros Hm [n1 n2 a ns v1 v2 c1 c2 Hn Hv Hc]. destruct Hm; simpl; constructor; auto.
  constructor. by constructor.
Qed.

Section tag_sim.
Variable F : fault -> Prop.
Hypothesis Hamp : 38 ∈ s -> F Uninitialised.
Variables cd1 cd2 : xmlparser -> list cdata_content -> list xfield -> nat -> bool ->
  res (option nat * list cdata_content * list xfield * xmlparser).
Hypothesis Hsmall : 6 * Z.of_nat N <= int_max.

Lemma grown_all P x1 g1 g2 : grown P x1 [] g1 [] g2 -> Forall2 (frel (srel (xp_mem x1) P)) g1 g2.
Proof using Hs. by intros (n1 & n2 & -> & -> & H). Qed.

Lemma tag_content_sim w1 w2 g1 g2 h1 h2 src src' (empty : bool) :
  synced src' w1 w2 -> (src < src')%nat ->
  (forall src' x1 x2 f1 f2, (src < src')%nat -> synced src' x1 x2 ->
    sim F (cd0_post src' x1 f1 f2) (cd1 x1 [] f1 src' false) (cd2 x2 [] f2 src' false)) ->
  sim F (cd_post src' w1 g1 g2 (Some h1) (Some h2))
    (if empty then Ok (Some src', g1, Some h1, w1) else parse_cd false cd1 w1 g1 (Some h1) src')
    (if empty then Ok (Some src', g2, Some h2, w2) else parse_cd true cd2 w2 g2 (Some h2) src').
Proof using Hs Hamp Hsmall.
  intros Hsy Hlt Hcd. pose proof Hsy as (_ & HN & _). destruct empty.
  - split; [done|]. split; [by apply (stepped_refl _ src')|]. exists None, None.
    split; [done|]. split; [done|]. split; [apply grown_refl|constructor].
  - apply parse_cd_sim; [done|done|done|done|]. by apply Hcd.
Qed.

Lemma parse_tag_sim x1 x2 f1 f2 src : synced src x1 x2 -> name_closed src ->
  (forall src' x1 x2 f1 f2, (src < src')%nat -> synced src' x1 x2 ->
    sim F (cd0_post src' x1 f1 f2) (cd1 x1 [] f1 src' false) (cd2 x2 [] f2 src' false)) ->
  sim F (tag_post src x1 f1 f2)
    (htsmsg_xml_parse_tag false cd1 x1 f1 src) (htsmsg_xml_parse_tag true cd2 x2 f2 src).
Proof using Hs Hamp Hsmall.
  intros Hsy Hclosed Hcd. pose proof Hsy as (Hsame & Hsrc & HE). pose proof Hsame as [-> Hlen%near_length].
  unfold htsmsg_xml_parse_tag. cbn [xp_mem xp_set_mem].
  xscan HE i c. xread HE.
  destruct (Z.eqb_spec c 0) as [|Hc0]; [by apply tag_err|].
  pose proof (text_nonzero i c Ec Hc0) as HiN.
  destruct ((ptrdiff i src <? 1) || (65535 <? ptrdiff i src)) eqn:Htl; [by apply tag_err|].
  apply orb_false_iff in Htl as [Htl _]. apply Z.ltb_ge in Htl.
  pose proof (ptrdiff_le i src ltac:(lia) ltac:(lia)) as Htn.
  set (tn := Z.to_nat (ptrdiff i src)) in *. assert (tn > 0)%nat as Htn0 by lia.
  assert (tag_stop i) as Hstop.
  { exists c. split; [done|]. rewrite !orb_true_iff, !Z.eqb_eq in Hc.
    destruct Hc as [[Hc| ->]| ->]; [left; naive_solver|by right; left|right; right].
    split; [done|]. by apply (Hclosed i); [lia|exact Hb|]. }
  assert (synced i x1 (xp_set_mem x1 T)) as Hsyi.
  { split; [done|]. split; [lia|]. apply (drop_le _ _ src); [done|lia]. }
  rewrite Hlen. eapply sim_bind; [apply (tag_attribs_sim F _ _ _ _ Hsyi); [rewrite text_length; lia|done]|].
  intros [[[r1 g1] s1] z1] [[[r2 g2] s2] z2] (-> & -> & Hst & Hr).
  destruct r2 as [[src' empty]|]; simpl in Hst.
  2:{ split; [done|]. split; [|done]. eapply stepped_weaken; [exact Hst|lia]. }
  destruct Hr as [Hlt Hg]. pose proof Hst as ([-> _] & Hfr & _).
  assert (mread (xp_mem z1) (src + tn) = mread T (src + tn)) as ->.
  { unfold mread. rewrite Hfr by lia. by rewrite (drop_lookup_eq _ _ src HE) by lia. }
  cbn [xp_mem xp_set_mem]. destruct (text_at (src + tn) ltac:(lia)) as (e & Ee & _).
  rewrite (mread_lookup _ _ _ Ee), !ok_bind.
  eapply sim_bind; [by apply (tag_field_sim F x1 z1 _ src tn i src')|].
  intros [h1 w1] [h2 w2] (Hst2 & Hh & Hw).
  assert (grown (span (S i) src') w1 [] g1 [] g2) as Hg'.
  { eapply grown_trans; [exact Hg|apply (grown_refl (fun _ => False))| |done].
    intros j Hj. split; [done|]. apply Hw. unfold span in Hj. lia. }
  clear Hg. eapply sim_bind; [apply (tag_content_sim w1 w2 g1 g2 h1 h2 src src' empty); [apply Hst2|lia|exact Hcd]|].
  intros [[[r1 m1] k1] y1] [[[r2 m2] k2] y2] (-> & Hst3 & b1 & b2 & -> & -> & Hr).
  split; [done|]. split.
  { destruct (stepped_trans _ _ _ _ _ _ _ _ Hst2 Hst3) as ([-> ?] & ? & Hsr). split; [done|]. split; [done|].
    destruct r2; [|done]. split; [lia|]. destruct Hsr as (_ & ? & ? & ?). by split_and!. }
  destruct r2 as [e2|]; [|done]. destruct Hr as [Hm Hb2]. destruct Hst3 as (_ & Hfr3 & Hle3 & Hsy3).
  split; [lia|]. exists [set_childs m1 (set_body b1 h1)], [set_childs m2 (set_body b2 h2)].
  split; [done|]. split; [done|]. constructor; [|done]. simpl.
  apply frel_set_childs; [|apply frel_set_body].
  - eapply grown_all, (grown_trans _ _ _ _ _ _ _ _ _ _ _ Hg' Hm).
    + unfold span, upto. intros j Hj. split; [lia|]. apply Hfr3. lia.
    + unfold upto. lia.
  - destruct Hb2 as [x y Hxy|]; constructor. eapply srel_mono; [| |exact Hxy]; [unfold upto; lia|done].
  - eapply frel_mono; [|exact Hh]. intros x y. apply srel_mono; unfold span, upto; [lia|].
    intros j Hj. apply Hfr3. lia.
Qed.

End tag_sim.

(** ** References *)

Lemma put_nonzero v : 0 < v -> 0 ∉ utf8_put v.
Proof using Hs.
  intros Hv. unfold utf8_put, u8. repeat case_match; rewrite ?not_elem_of_cons; split_and?; try set_solver;
    zbool; try (intros E; symmetry in E; apply Z.lor_eq_0_iff in E; lia).
  rewrite Z.mod_small by lia. lia.
Qed.

Lemma char_ref_text hex k : forall src v, (N - src <= k)%nat -> (src <= N)%nat -> 0 <= v ->
  char_ref_digits hex (drop src T) src v = Fault SignedOverflow \/
  exists v' e, char_ref_digits hex (drop src T) src v = Ok (v', e) /\ (src <= e <= N)%nat /\ 0 <= v' /\
    (v' <> 0 -> (src < e)%nat).
Proof using Hs.
  induction k as [|k IH]; intros src v Hk Hsrc Hv; destruct (text_at src Hsrc) as (c & E & Hc);
    rewrite (drop_S _ _ _ E); cbn [char_ref_digits].
  { assert (c = 0) as -> by (apply Hc; lia). cbn. right. do 2 eexists. split; [by rewrite !andb_false_r|]. lia. }
  assert (forall k0, 0 <= c - k0 -> (src < N)%nat ->
    (x ← chk_int (v * (if hex then 16 else 10)); y ← chk_int (x + c);
      char_ref_digits hex (drop (S src) T) (S src) (y - k0)) = Fault SignedOverflow \/
    exists v' e, (x ← chk_int (v * (if hex then 16 else 10)); y ← chk_int (x + c);
      char_ref_digits hex (drop (S src) T) (S src) (y - k0)) = Ok (v', e) /\ (src <= e <= N)%nat /\ 0 <= v' /\
      (v' <> 0 -> (src < e)%nat)) as Hdigit.
  { intros k0 Hk0 HsN. unfold chk_int. destruct (_ && _); cbn; [|by left]. destruct (_ && _); cbn; [|by left].
    destruct (IH (S src) (v * (if hex then 16 else 10) + c - k0)) as [->|(v' & e & -> & ? & ? & _)]; [lia|lia| |by left|].
    - destruct hex; lia.
    - right. exists v', e. split; [done|lia]. }
  assert (c <> 0 -> (src < N)%nat) as HN by (intros Hne; by apply (text_nonzero src c)).
  destruct (is_digit c) eqn:Hd; [apply is_digit_spec in Hd; apply Hdigit; [lia|apply HN; lia]|].
  destruct (hex && (97 <=? c) && (c <=? 102)) eqn:Ha; [zbool; apply Hdigit; [lia|apply HN; lia]|].
  destruct (hex && (65 <=? c) && (c <=? 70)) eqn:Hb; [zbool; apply Hdigit; [lia|apply HN; lia]|].
  right. destruct (Z.eqb_spec c 59) as [->|]; do 2 eexists; (split; [done|]); [|lia].
  specialize (HN ltac:(done)). lia.
Qed.

Lemma char_ref_spec src : (src <= N)%nat ->
  decode_character_reference T src = Fault SignedOverflow \/
  exists v e, decode_character_reference T src = Ok (v, e) /\ (src <= e <= N)%nat /\ 0 <= v /\
    (v <> 0 -> (src < e)%nat).
Proof using Hs.
  intros Hsrc. unfold decode_character_reference. destruct (text_at src Hsrc) as (c & E & _).
  rewrite (mread_lookup _ _ _ E), ok_bind. destruct (Z.eqb_spec c 120) as [->|].
  - pose proof (text_nonzero _ _ E ltac:(done)).
    destruct (char_ref_text true N (S src) 0) as [->|(v & e & -> & ? & ? & ?)]; [lia..|by left|].
    right. exists v, e. split; [done|lia].
  - apply (char_ref_text false N); lia.
Qed.

Lemma char_ref_drop m src : drop src m = drop src T -> decode_character_reference m src = decode_character_reference T src.
Proof using Hs.
  intros HE. unfold decode_character_reference.
  by rewrite (mread_drop _ _ _ HE), HE, (drop_le _ _ _ (S src) HE) by lia.
Qed.

Lemma entity_positive name : head name <> Some 35 -> html_entity_lookup name <> -1 -> 0 < html_entity_lookup name.
Proof using Hs.
  intros Hh. unfold html_entity_lookup. rewrite decide_False by done.
  assert (forallb (fun e => 0 <? e.2) html_entities = true) as Hall by reflexivity. revert Hall.
  generalize html_entities. intros l. induction l as [|[n c] l IH]; [done|]. simpl. intros [Hc Hl]%andb_true_iff.
  destruct (decide (n = name)); [|by apply IH]. intros _. by apply Z.ltb_lt.
Qed.

Definition label_post (src : nat) (x : xmlparser) (ccq : list cdata_content)
    (o1 o2 : option nat * list cdata_content * xmlparser) : Prop :=
  let '(r1, q1, y1) := o1 in
  let '(r2, q2, y2) := o2 in
  r1 = r2 /\ q1 = q2 /\ same y1 y2 /\ xp_mem y1 = xp_mem x /\ xp_latin1 y1 = xp_latin1 x /\
  match r1 with
  | Some e => (S src < e <= N)%nat /\ exists bs, q1 = ccq ++ [CcUni bs] /\ (0 ∉ bs) /\ (length bs <= 6)%nat
  | None => q1 = ccq
  end.

Lemma label_sim F x1 x2 ccq src c : synced src x1 x2 -> T !! src = Some c -> c <> 35 ->
  sim F (label_post src x1 ccq) (decode_label_reference x1 ccq src) (decode_label_reference x2 ccq src).
Proof using Hs.
  intros Hsy Ec0 Hc35. pose proof Hsy as (Hsame & Hsrc & HE). pose proof Hsame as [-> Hlen%near_length].
  unfold decode_label_reference. cbn [xp_mem xp_set_mem].
  assert (forall pos line msg, sim F (label_post src x1 ccq) (Ok (None, ccq, xmlerr2 x1 pos line msg))
    (Ok (None, ccq, xmlerr2 (xp_set_mem x1 T) pos line msg))) as Herr.
  { intros. do 2 (split; [done|]). split; [by apply same_err|done]. }
  xscan HE i d. xread HE. destruct (Z.eqb_spec d 0) as [|Hd]; [by apply Herr|].
  pose proof (text_nonzero _ _ Ec Hd) as HiN.
  destruct (Z.ltb_spec (ptrdiff i src) 1) as [|Hl]; [by apply Herr|].
  destruct (1024 <? ptrdiff i src); [by apply Herr|].
  pose proof (ptrdiff_le i src ltac:(lia) ltac:(lia)) as Hn.
  rewrite (mslice_drop _ _ _ HE Hlen). destruct (slice_text src (Z.to_nat (ptrdiff i src)) ltac:(lia)) as (En & _).
  fold T in En. rewrite En, !ok_bind. set (label := take _ _).
  assert (head label <> Some 35) as Hhd.
  { unfold label. rewrite (drop_S _ _ _ Ec0). destruct (Z.to_nat (ptrdiff i src)) eqn:Ez; [lia|]. simpl. congruence. }
  destruct (Z.eqb_spec (html_entity_lookup label) (-1)) as [|Hcode]; cbn [negb]; [by apply Herr|].
  unfold add_unicode. pose proof (utf8_put_length (html_entity_lookup label)) as Hput.
  rewrite (proj2 (Nat.leb_le _ _)) by done. rewrite !ok_bind. do 5 (split; [done|]). split; [lia|].
  eexists. split; [done|]. split; [|done]. by apply put_nonzero, entity_positive.
Qed.

(** ** The content loop *)

(** [src] positions after the call at [lo] started with parser [x] and fields
    [f1], [f2]; the open segment has not come to an end. *)
Definition cd_inv (lo : nat) (x : xmlparser) (f1 f2 : list xfield) (ccq : list cdata_content)
    (cc : option nat) (g1 g2 : list xfield) (src : nat) (y1 y2 : xmlparser) : Prop :=
  stepped lo (Some src) x y1 y2 /\
  match cc with
  | None =>
      Forall (seg_ok (xp_mem y1) lo src) ccq /\ grown (free lo src ccq) y1 f1 g1 f2 g2 /\
      (ccq_len ccq <= 3 * (src - lo))%nat
  | Some k => exists q l a e, ccq = q ++ [CcSrc l a e] /\ k = length q /\
      (lo <= a < src)%nat /\ (forall i, (a <= i < src)%nat -> xp_mem y1 !! i = T !! i) /\
      Forall (seg_ok (xp_mem y1) lo a) q /\ grown (free lo a q) y1 f1 g1 f2 g2 /\
      (ccq_len q <= 3 * (a - lo))%nat
  end.

Definition strict (ccq : list cdata_content) (hi : nat) : Prop :=
  forall l a e, CcSrc l a (Some e) ∈ ccq -> (e < hi)%nat.

Lemma free_weaken lo hi hi' q i : free lo hi q i -> (hi <= hi' <= N)%nat -> free lo hi' q i.
Proof using Hs. intros [Hu Hq] Hh. split; [unfold upto in *; lia|done]. Qed.

Lemma grown_weaken P Q y1 f1 g1 f2 g2 : grown P y1 f1 g1 f2 g2 -> (forall i, P i -> Q i) ->
  grown Q y1 f1 g1 f2 g2.
Proof using Hs.
  intros H HP. eapply grown_trans; [exact H|apply (grown_refl (fun _ => False))| |done]. naive_solver.
Qed.

Lemma segs_strict m lo hi ccq : Forall (seg_ok m lo hi) ccq -> (hi < N)%nat -> strict ccq hi.
Proof using Hs.
  intros H Hh l a e Hin. rewrite Forall_forall in H. pose proof (H _ Hin) as (_ & ? & _). lia.
Qed.

Lemma segs_frame m m' lo hi hi' ccq : Forall (seg_ok m lo hi) ccq -> strict ccq hi ->
  (hi <= hi' <= N)%nat -> (forall i, (i < hi)%nat -> m' !! i = m !! i) -> Forall (seg_ok m' lo hi') ccq.
Proof using Hs.
  intros H Hstr Hh Hm. rewrite Forall_forall in H |- *. intros cc Hin. specialize (H cc Hin).
  destruct cc as [l a [e|]|]; [|done|done]. pose proof (Hstr _ _ _ Hin) as He.
  destruct H as (Ha & _ & _ & Ht & Hnl). split; [done|]. split; [lia|]. split; [lia|]. split; [|done].
  intros i Hi. rewrite Hm by lia. by apply Ht.
Qed.

Lemma stepped_forward lo src src' x y1 y2 : stepped lo (Some src) x y1 y2 -> (src <= src' <= N)%nat ->
  stepped lo (Some src') x y1 y2.
Proof using Hs.
  intros (? & ? & ? & Hsy) Hf. split; [done|]. split; [done|]. split; [lia|].
  destruct Hsy as (? & ? & HE). split; [done|]. split; [lia|]. by apply (drop_le _ _ src); [|lia].
Qed.

Lemma close_last q l a e src : cc_close (q ++ [CcSrc l a e]) (Some (length q)) src = q ++ [CcSrc l a (Some src)].
Proof using Hs. simpl. induction q; simpl; [done|]. by f_equal. Qed.

Lemma inv_close lo x f1 f2 ccq cc g1 g2 src src' y1 y2 c :
  cd_inv lo x f1 f2 ccq cc g1 g2 src y1 y2 -> T !! src = Some c -> c <> 10 ->
  (src < src' <= N)%nat \/ (src' = src /\ src = N) ->
  cd_inv lo x f1 f2 (cc_close ccq cc src) None g1 g2 src' y1 y2 /\
  ((src < src')%nat -> strict (cc_close ccq cc src) src').
Proof using Hs.
  intros [Hst Hinv] Ec Hc Hs'. pose proof Hst as (_ & _ & Hle & _ & _ & HE).
  assert (stepped lo (Some src') x y1 y2) as Hst' by (eapply stepped_forward; [done|lia]).
  destruct cc as [k|].
  - destruct Hinv as (q & l & a & e & -> & -> & Ha & Hm & Hq & Hg & Hn). rewrite close_last.
    assert (Forall (seg_ok (xp_mem y1) lo src') (q ++ [CcSrc l a (Some src)])) as Hq'.
    { apply Forall_app. split; [eapply segs_weaken; [done|lia|done]|]. apply Forall_singleton.
      do 3 (split; [lia|]). split; [|congruence]. intros i Hi.
      destruct (decide (i = src)) as [->|]; [apply (drop_lookup_eq _ _ src HE); lia|apply Hm; lia]. }
    split; [split; [done|]; split; [done|]; split|].
    + eapply grown_weaken; [exact Hg|]. intros i [Hu Hi]. unfold upto in Hu. split; [unfold upto; lia|].
      intros l' a' e' [Hin|Hin]%elem_of_app; [by apply (Hi _ _ _ Hin)|].
      apply list_elem_of_singleton in Hin as [= -> -> ->]. lia.
    + rewrite ccq_len_app. simpl. unfold ccq_len. simpl. fold (ccq_len q). lia.
    + intros Hlt l' a' e' [Hin|Hin]%elem_of_app.
      * rewrite Forall_forall in Hq. pose proof (Hq _ Hin) as (_ & ? & _). lia.
      * apply list_elem_of_singleton in Hin as [= -> -> ->]. lia.
  - destruct Hinv as (Hq & Hg & Hn). simpl. split; [split; [done|]; split; [|split; [|lia]]|].
    + eapply segs_weaken; [done|lia|done].
    + eapply grown_weaken; [exact Hg|]. intros i Hi. eapply free_weaken; [done|lia].
    + intros Hlt l' a' e' Hin. rewrite Forall_forall in Hq. pose proof (Hq _ Hin) as (_ & ? & _). lia.
Qed.

(** The text goes on, or starts at [src]. *)
Lemma inv_extend lo x f1 f2 ccq k g1 g2 src y1 y2 :
  cd_inv lo x f1 f2 ccq (Some k) g1 g2 src y1 y2 -> (src < N)%nat ->
  cd_inv lo x f1 f2 ccq (Some k) g1 g2 (S src) y1 y2.
Proof using Hs.
  intros [Hst (q & l & a & e & Hq & Hk & Ha & Hm & Hrest)] Hlt.
  split; [eapply stepped_forward; [done|lia]|]. exists q, l, a, e. do 2 (split; [done|]). split; [lia|]. split; [|done].
  intros i Hi. destruct (decide (i = src)) as [->|]; [|apply Hm; lia].
  destruct Hst as (_ & _ & _ & _ & _ & HE). apply (drop_lookup_eq _ _ src HE); lia.
Qed.

Lemma inv_open lo x f1 f2 ccq l g1 g2 src y1 y2 :
  cd_inv lo x f1 f2 ccq None g1 g2 src y1 y2 -> (src < N)%nat ->
  cd_inv lo x f1 f2 (ccq ++ [CcSrc l src None]) (Some (length ccq)) g1 g2 (S src) y1 y2.
Proof using Hs.
  intros [Hst (Hq & Hg & Hn)] Hlt. pose proof Hst as (_ & _ & Hle & _ & _ & HE).
  split; [eapply stepped_forward; [done|lia]|]. exists ccq, l, src, None. do 2 (split; [done|]). split; [lia|].
  split; [|done]. intros i Hi. apply (drop_lookup_eq _ _ src HE); lia.
Qed.

(** After an unknown reference the segment stays open with an end that is
    overwritten later. *)
Lemma inv_stale lo x f1 f2 ccq cc g1 g2 src y1 y2 z1 z2 c :
  cd_inv lo x f1 f2 ccq cc g1 g2 src y1 y2 -> T !! src = Some c -> c <> 10 -> (src < N)%nat ->
  same z1 z2 -> xp_mem z1 = xp_mem y1 ->
  cd_inv lo x f1 f2 (cc_close ccq cc src) cc g1 g2 (S src) z1 z2.
Proof using Hs.
  intros Hinv Ec Hc Hlt Hz Em.
  assert (forall r, stepped lo (Some r) x y1 y2 -> stepped lo (Some r) x z1 z2) as Hst'.
  { intros r (_ & H1 & H2). split; [done|]. split; [by rewrite Em|].
    destruct H2 as (? & _ & ? & HE). rewrite <- Em in HE. split_and!; by try apply Hz. }
  destruct cc as [k|].
  - apply inv_extend in Hinv; [|done]. destruct Hinv as [Hst (q & l & a & e & -> & -> & Ha & Hm & Hq & Hg & Hn)].
    rewrite close_last. split; [by apply Hst'|]. exists q, l, a, (Some src). unfold grown. rewrite Em. done.
  - destruct (inv_close _ _ _ _ _ _ _ _ _ (S src) _ _ _ Hinv Ec Hc) as [[Hst (Hq & Hg & Hn)] _]; [lia|].
    split; [by apply Hst'|]. unfold grown. rewrite Em. done.
Qed.

(** A call between two segments. *)
Lemma inv_child lo x f1 f2 ccq g1 g2 h1 h2 src src' y1 y2 z1 z2 :
  cd_inv lo x f1 f2 ccq None g1 g2 src y1 y2 -> strict ccq src ->
  stepped src (Some src') y1 z1 z2 -> grown (upto src src') z1 g1 h1 g2 h2 ->
  cd_inv lo x f1 f2 ccq None h1 h2 src' z1 z2.
Proof using Hs.
  intros [Hst (Hq & Hg & Hn)] Hstr Hst2 Hg2. pose proof (stepped_trans _ _ _ _ _ _ _ _ Hst Hst2) as Hst3.
  pose proof Hst as (_ & _ & Hlo & _). pose proof Hst2 as (_ & Hfr & Hle & _ & HN & _). split; [done|]. split; [|split; [|lia]].
  - eapply segs_frame; [exact Hq|exact Hstr|lia|exact Hfr].
  - eapply grown_trans; [exact Hg|exact Hg2| |].
    + intros i Hi. split; [eapply free_weaken; [exact Hi|lia]|]. destruct Hi as [Hu _]. unfold upto in Hu.
      destruct (decide (i < src)%nat); [by apply Hfr|].
      destruct Hst as (_ & _ & _ & _ & _ & HE1), Hst2 as (_ & _ & _ & _ & _ & HE2).
      by rewrite (drop_lookup_eq _ _ _ HE1), (drop_lookup_eq _ _ _ HE2) by lia.
    + intros i Hi. split; [unfold upto in *; lia|]. intros l a e Hin. specialize (Hstr _ _ _ Hin).
      unfold upto in Hi. lia.
Qed.

Lemma inv_uni lo x f1 f2 ccq g1 g2 bs src src' y1 y2 :
  cd_inv lo x f1 f2 ccq None g1 g2 src y1 y2 -> (src + 2 <= src' <= N)%nat ->
  0 ∉ bs -> (length bs <= 6)%nat -> 38 ∈ s ->
  cd_inv lo x f1 f2 (ccq ++ [CcUni bs]) None g1 g2 src' y1 y2.
Proof using Hs.
  intros [Hst (Hq & Hg & Hn)] Hs' H0 Hl Hamp38. pose proof Hst as (_ & _ & Hlo & _).
  split; [eapply stepped_forward; [done|lia]|]. split; [|split].
  - apply Forall_app. split; [eapply segs_weaken; [done|lia|done]|]. by apply Forall_singleton.
  - eapply grown_weaken; [exact Hg|]. intros i Hi. eapply free_weaken in Hi; [|split; [|apply Hs']; lia].
    destruct Hi as [Hu Hi]. split; [done|]. intros l a e [Hin|Hin]%elem_of_app; [by apply (Hi _ _ _ Hin)|].
    apply list_elem_of_singleton in Hin. done.
  - rewrite ccq_len_app. unfold ccq_len at 2. simpl. lia.
Qed.

(** The end of the loop. *)
Lemma inv_done lo x f1 f2 ccq g1 g2 src y1 y2 : cd_inv lo x f1 f2 ccq None g1 g2 src y1 y2 ->
  cd0_post lo x f1 f2 (Some src, ccq, g1, y1) (Some src, ccq, g2, y2).
Proof using Hs.
  intros [Hst (Hq & Hg & Hn)]. pose proof Hst as (_ & _ & Hlo & _ & HN & _).
  do 2 (split; [done|]). split; [done|]. split; [lia|done].
Qed.

Lemma inv_fail lo x f1 f2 ccq g1 g2 h1 h2 src y1 y2 z1 z2 :
  cd_inv lo x f1 f2 ccq None g1 g2 src y1 y2 -> strict ccq src -> stepped src None y1 z1 z2 ->
  cd0_post lo x f1 f2 (None, ccq, h1, z1) (None, ccq, h2, z2).
Proof using Hs.
  intros [Hst (Hq & Hg & Hn)] Hstr Hst2. pose proof Hst as (_ & _ & Hlo & _ & HN & _).
  do 2 (split; [done|]). split; [by eapply stepped_trans|]. split; [lia|].
  eapply segs_frame; [exact Hq|exact Hstr|lia|apply Hst2].
Qed.

Section cd0_sim.
Variable F : fault -> Prop.
Hypothesis Hover : F SignedOverflow.
Hypothesis Hamp : 38 ∈ s -> F Uninitialised.
Hypothesis Hsmall : 6 * Z.of_nat N <= int_max.
(** No tag name is cut by a slash that does not close the tag. *)
Hypothesis Hclosed : forall i c, T !! i = Some 60 -> T !! S i = Some c ->
  c <> 33 -> c <> 63 -> c <> 47 -> name_closed (S i).

Definition loop_out (lo : nat) (x : xmlparser) (f1 f2 : list xfield) (src : nat)
    (o1 o2 : option nat * list cdata_content * list xfield * xmlparser) : Prop :=
  cd0_post lo x f1 f2 o1 o2 /\ match o1.1.1.1 with Some e => (src <= e)%nat | None => True end.

Lemma loop_out_later lo x f1 f2 src src' m1 m2 : (src <= src')%nat ->
  sim F (loop_out lo x f1 f2 src') m1 m2 -> sim F (loop_out lo x f1 f2 src) m1 m2.
Proof using Hs.
  intros Hle H. eapply sim_mono; [exact H|]. intros o1 o2 [Ho Ha]. split; [done|].
  destruct o1.1.1.1; [lia|done].
Qed.

Definition loop_sim (fuel : nat) : Prop :=
  forall x f1 f2 lo ccq cc g1 g2 src y1 y2 raw,
    cd_inv lo x f1 f2 ccq cc g1 g2 src y1 y2 -> (N - src < fuel)%nat ->
    sim F (loop_out lo x f1 f2 src) (cd0_loop false fuel y1 ccq cc g1 src raw)
      (cd0_loop true fuel y2 ccq cc g2 src raw).

(** The branches that call another function and continue behind it. *)
Lemma continue_sim fuel x f1 f2 lo ccq g1 g2 src y1 y2 z1 z2 h1 h2 r raw : loop_sim fuel ->
  cd_inv lo x f1 f2 ccq None g1 g2 src y1 y2 -> strict ccq src -> (N - src <= fuel)%nat ->
  stepped src r y1 z1 z2 ->
  match r with Some src' => (src < src')%nat /\ grown (upto src src') z1 g1 h1 g2 h2 | None => True end ->
  sim F (loop_out lo x f1 f2 src)
    (match r with Some src => cd0_loop false fuel z1 ccq None h1 src raw | None => Ok (None, ccq, h1, z1) end)
    (match r with Some src => cd0_loop true fuel z2 ccq None h2 src raw | None => Ok (None, ccq, h2, z2) end).
Proof using Hs.
  intros IH Hinv Hstr Hf Hst Hr. destruct r as [src'|].
  - destruct Hr as [Hlt Hg]. pose proof Hst as (_ & _ & _ & _ & HN & _).
    eapply loop_out_later; [|apply IH; [by eapply inv_child|lia]]. lia.
  - split; [by eapply inv_fail|done].
Qed.

Lemma strict_uni ccq bs hi : strict ccq hi -> strict (ccq ++ [CcUni bs]) hi.
Proof using Hs.
  intros H l a e [Hin|Hin]%elem_of_app; [by apply (H _ _ _ Hin)|]. by apply list_elem_of_singleton in Hin.
Qed.

(** Character and label references; [src] is the position behind the ampersand. *)
Lemma reference_sim fuel x f1 f2 lo ccq cc g1 g2 src y1 y2 : loop_sim fuel ->
  cd_inv lo x f1 f2 ccq cc g1 g2 src y1 y2 -> T !! src = Some 38 -> (N - S src < fuel)%nat ->
  sim F (loop_out lo x f1 f2 src)
    (cd0_reference (cd0_loop false fuel) y1 (cc_close ccq cc src) cc g1 (S src))
    (cd0_reference (cd0_loop true fuel) y2 (cc_close ccq cc src) cc g2 (S src)).
Proof using Hs Hover Hamp.
  intros IH Hinv Ec Hf. pose proof (text_nonzero src 38 Ec ltac:(done)) as HsN.
  assert (38 ∈ s) as H38.
  { apply (list_elem_of_lookup_2 _ src). unfold T in Ec. by rewrite lookup_app_l in Ec by exact HsN. }
  destruct (inv_close _ _ _ _ _ _ _ _ _ (S src) _ _ _ Hinv Ec ltac:(done)) as [Hcl Hstr]; [lia|].
  specialize (Hstr ltac:(lia)). pose proof Hcl as [(_ & _ & _ & Hsy) _].
  pose proof Hsy as (Hsame & _ & HE). pose proof Hsame as [-> Hlen%near_length].
  unfold cd0_reference. cbn [xp_mem xp_set_mem].
  destruct (text_at (S src) ltac:(lia)) as (c & Ec' & _). xread HE.
  destruct (Z.eqb_spec c 35) as [->|Hc35].
  - pose proof (text_nonzero _ _ Ec' ltac:(done)).
    rewrite char_ref_drop by (apply (drop_le _ _ (S src)); [done|lia]).
    destruct (char_ref_spec (S (S src))) as [->|(v & e & -> & He & Hv & Hve)]; [lia|by split|].
    rewrite !ok_bind. destruct (Z.eqb_spec v 0) as [->|Hv0]; cbn [negb].
    + split; [|done]. eapply inv_fail; [exact Hcl|done|]. by apply stepped_err.
    + unfold add_unicode. pose proof (utf8_put_length v) as Hput.
      rewrite (proj2 (Nat.leb_le _ _)) by done. rewrite !ok_bind. specialize (Hve Hv0). unfold cd0_continue.
      eapply loop_out_later; [|apply IH; [|lia]]; [lia|]. eapply inv_uni; [exact Hcl|lia|apply put_nonzero; lia|done|done].
  - eapply sim_bind; [by eapply label_sim|].
    intros [[r1 q1] z1] [[r2 q2] z2] (-> & -> & Hz & Hm & Hlat & Hr).
    destruct r2 as [e|].
    + destruct Hr as (He & bs & -> & H0 & Hl). unfold cd0_continue.
      eapply loop_out_later; [|apply IH; [|lia]]; [lia|].
      assert (stepped (S src) (Some (S src)) y1 z1 z2) as Hst.
      { split; [done|]. split; [by rewrite Hm|]. split; [done|]. split; [done|]. split; [lia|]. by rewrite Hm. }
      apply (inv_uni _ _ _ _ _ _ _ _ (S src) e); [|lia|done|done|done].
      eapply inv_child; [exact Hcl|done|exact Hst|apply grown_refl].
    + subst q2. eapply loop_out_later; [|apply IH; [|lia]]; [lia|]. by eapply inv_stale.
Qed.

Lemma end_tag_text src : (src <= N)%nat ->
  exists i c, scan (fun c => (c =? 62) || (c =? 0)) T src = Ok i /\ (src <= i <= N)%nat /\ T !! i = Some c.
Proof using Hs.
  intros H. destruct (scan_text (fun c => (c =? 62) || (c =? 0)) src H eq_refl) as (i & c & ? & ? & ? & _).
  by exists i, c.
Qed.

Lemma cstr_n_text n src : (src <= N)%nat -> exists t, cstr_n n (drop src T) = Ok t.
Proof using Hs.
  revert src. induction n as [|n IH]; intros src Hsrc; [by exists []|].
  destruct (text_at src Hsrc) as (c & E & Hc). rewrite (drop_S _ _ _ E). simpl.
  destruct (Z.eqb_spec c 0) as [|H0]; [by exists []|]. pose proof (text_nonzero _ _ E H0).
  destruct (IH (S src)) as [t ->]; [lia|]. by eexists.
Qed.

(** A nested CDATA section works on the segments and fields of its element. *)
Lemma cdata_sim fuel x f1 f2 lo ccq g1 g2 src y1 y2 : loop_sim fuel ->
  cd_inv lo x f1 f2 ccq None g1 g2 src y1 y2 -> (N - src < fuel)%nat ->
  sim F (loop_out lo x f1 f2 src)
    ('(r, ccq, tags, xp) ← cd0_loop false fuel y1 ccq None g1 src true;
     cd0_continue (cd0_loop false fuel) r ccq tags xp false)
    ('(r, ccq, tags, xp) ← cd0_loop true fuel y2 ccq None g2 src true;
     cd0_continue (cd0_loop true fuel) r ccq tags xp false).
Proof using Hs.
  intros IH Hinv Hf. eapply sim_bind; [by apply IH|].
  intros [[[r1 q1] h1] z1] [[[r2 q2] h2] z2] [Hpost Ha]. pose proof Hpost as (-> & -> & Hst & Hlen & Hr).
  destruct r2 as [e|]; [|by split]. destruct Hr as (Hq & Hg & Hl). simpl in Ha.
  eapply loop_out_later; [exact Ha|]. apply IH; [by split|].
  destruct Hst as (_ & _ & _ & _ & ? & _). lia.
Qed.

Lemma xp_set_mem_same x1 x2 : same x1 x2 -> x2 = xp_set_mem x1 T.
Proof using Hs. by intros [-> _]. Qed.

(** [src] is the position of the opening bracket. *)
Lemma markup_sim fuel x f1 f2 lo ccq g1 g2 src y1 y2 : loop_sim fuel ->
  cd_inv lo x f1 f2 ccq None g1 g2 (S src) y1 y2 -> strict ccq (S src) -> T !! src = Some 60 ->
  (N - src <= fuel)%nat ->
  sim F (loop_out lo x f1 f2 src)
    (cd0_markup false (cd0_loop false fuel) y1 ccq g1 (S src))
    (cd0_markup true (cd0_loop true fuel) y2 ccq g2 (S src)).
Proof using Hs Hamp Hsmall Hclosed.
  intros IH Hinv Hstr Ec Hf. pose proof (text_nonzero src 60 Ec ltac:(done)) as HsN.
  pose proof Hinv as [(_ & _ & Hlo & Hsy) _].
  pose proof Hsy as (Hsame & _ & HE). pose proof Hsame as [-> Hlen%near_length].
  unfold cd0_markup. cbn [xp_mem xp_set_mem].
  destruct (text_at (S src) ltac:(lia)) as (c & Ec' & _). xread HE.
  destruct (Z.eqb_spec c 63) as [->|H63]; [|destruct (Z.eqb_spec c 33) as [->|H33]; [|destruct (Z.eqb_spec c 47) as [->|H47]]].
  - pose proof (text_nonzero _ _ Ec' ltac:(done)) as HsN'.
    pose proof (stepped_refl (S src) (S src) (S (S src)) y1 _ Hsy ltac:(lia) ltac:(lia)) as (_ & _ & _ & Hsy').
    eapply sim_bind; [by apply parse_pi_sim|].
    intros [[r1 p1] z1] [[r2 p2] z2] (-> & Hst & Hr). unfold cd0_continue.
    eapply loop_out_later; [|eapply (continue_sim _ _ _ _ _ _ _ _ (S src)); [exact IH|exact Hinv|done|lia| |]]; [lia| |].
    + eapply stepped_weaken; [exact Hst|lia].
    + destruct r2; [|done]. split; [lia|apply grown_refl].
  - pose proof (text_nonzero _ _ Ec' ltac:(done)) as HsN'.
    rewrite (starts_drop (lit "--") _ _ (S (S src)) HE) by lia.
    destruct (starts_text (lit "--") (S (S src))) as (b & Eb & Hb); [by apply (bool_decide_unpack _)|lia|].
    fold T in Eb. rewrite Eb, !ok_bind. destruct b.
    { specialize (Hb eq_refl). change (length (lit "--")) with 2%nat in Hb.
      pose proof (stepped_refl (S src) (S src) (S (S src) + 2) y1 _ Hsy ltac:(lia) ltac:(lia)) as (_ & _ & _ & Hsy').
      eapply sim_bind; [by apply comment_sim|].
      intros [r1 z1] [r2 z2] (-> & Hst & Hm). unfold cd0_continue.
      eapply loop_out_later; [|eapply (continue_sim _ _ _ _ _ _ _ _ (S src)); [exact IH|exact Hinv|done|lia| |]]; [lia| |].
      + eapply stepped_weaken; [exact Hst|lia].
      + destruct r2; [|done]. destruct Hst as (_ & _ & ? & _). split; [lia|apply grown_refl]. }
    rewrite (starts_drop _ _ _ (S (S src)) HE) by lia.
    destruct (starts_text (lit "[CDATA[") (S (S src))) as (b & Eb' & Hb'); [by apply (bool_decide_unpack _)|lia|].
    fold T in Eb'. rewrite Eb', !ok_bind. destruct b.
    { specialize (Hb' eq_refl). change (length (lit "[CDATA[")) with 7%nat in Hb'.
      eapply loop_out_later; [|apply (cdata_sim fuel x f1 f2 lo ccq g1 g2 (S (S src) + 7)); [exact IH| |lia]]; [lia|].
      eapply inv_child; [exact Hinv|done|apply (stepped_refl _ (S src)); [done|lia..]|apply grown_refl]. }
    rewrite (drop_le _ _ _ (S (S src)) HE) by lia. destruct (cstr_n_text 10 (S (S src))) as [t ->]; [lia|].
    rewrite !ok_bind. split; [|done]. eapply inv_fail; [exact Hinv|done|]. by apply stepped_err.
  - pose proof (text_nonzero _ _ Ec' ltac:(done)) as HsN'.
    rewrite (scan_drop _ _ _ (S (S src)) HE) by lia.
    destruct (end_tag_text (S (S src))) as (i & d & -> & Hi & Ed); [lia|]. rewrite !ok_bind. xread HE.
    destruct (Z.eqb_spec d 0) as [|Hd].
    { split; [|done]. eapply inv_fail; [exact Hinv|done|]. by apply stepped_err. }
    pose proof (text_nonzero _ _ Ed Hd). split; [|simpl; lia]. apply inv_done.
    eapply inv_child; [exact Hinv|done|apply (stepped_refl _ (S src)); [done|lia..]|apply grown_refl].
  - eapply sim_bind.
    { apply parse_tag_sim; [done|done|done|by apply (Hclosed src c)|]. intros src' z1 z2 h1 h2 Hlt Hsz.
      eapply sim_mono; [apply (IH z1 h1 h2 src' [] None h1 h2 src' z1 z2)|].
      - split; [apply (stepped_refl _ src'); [done|lia|]; destruct Hsz as (_ & ? & _); lia|].
        split; [done|]. split; [apply grown_refl|]. unfold ccq_len. simpl. lia.
      - destruct Hsz as (_ & ? & _). lia.
      - by intros o1 o2 [Ho _]. }
    intros [[r1 h1] z1] [[r2 h2] z2] (-> & Hst & Hr). unfold cd0_continue.
    eapply loop_out_later; [|eapply (continue_sim _ _ _ _ _ _ _ _ (S src)); [exact IH|exact Hinv|done|lia| |]]; [lia|done|].
    destruct r2; [|done]. done.
Qed.

Lemma cd0_loop_sim fuel : loop_sim fuel.
Proof using Hs Hover Hamp Hsmall Hclosed.
  induction fuel as [|fuel IH]; intros x f1 f2 lo ccq cc g1 g2 src y1 y2 raw Hinv Hf; [lia|].
  pose proof Hinv as [(_ & _ & Hlo & Hsy) _].
  pose proof Hsy as (Hsame & Hsrc & HE). pose proof Hsame as [Ey2 Hlen%near_length]. subst y2.
  cbn [cd0_loop]. cbv zeta. cbn [xp_mem xp_set_mem xp_latin1].
  destruct (text_at src Hsrc) as (c & Ec & Hc). xread HE.
  destruct (Z.eqb_spec c 0) as [->|Hc0].
  { split; [|simpl; lia]. apply inv_done.
    apply (inv_close _ _ _ _ _ _ _ _ src src _ _ 0 Hinv Ec); [done|]. right. split; [done|by apply Hc]. }
  pose proof (text_nonzero _ _ Ec Hc0) as HsN.
  assert (exists b, (if raw then starts (lit "]]>") (xp_mem y1) src else Ok false) = Ok b /\
    (if raw then starts (lit "]]>") T src else Ok false) = Ok b /\
    (b = true -> c = 93 /\ (src + 3 <= N)%nat)) as (b & -> & -> & Hb).
  { destruct raw; [|by exists false]. rewrite (starts_drop _ _ _ src HE) by lia.
    destruct (starts_text (lit "]]>") src) as (b & Eb & Hb); [by apply (bool_decide_unpack _)|lia|]. fold T in Eb.
    exists b. rewrite Eb. do 2 (split; [done|]). intros ->. split; [|by apply Hb].
    unfold starts in Eb. rewrite (drop_S _ _ _ Ec) in Eb. change (lit "]]>") with [93; 93; 62] in Eb. simpl in Eb.
    by destruct (Z.eqb_spec c 93). }
  rewrite !ok_bind. destruct b.
  { destruct (Hb eq_refl) as [-> H3]. split; [|simpl; lia]. apply inv_done.
    apply (inv_close _ _ _ _ _ _ _ _ src (src + 3) _ _ 93 Hinv Ec); [done|lia]. }
  clear Hb. destruct ((c =? 60) && negb raw) eqn:Hlt.
  { apply andb_true_iff in Hlt as [->%Z.eqb_eq _].
    destruct (inv_close _ _ _ _ _ _ _ _ src (S src) _ _ 60 Hinv Ec) as [Hcl Hstr]; [done|lia|].
    apply markup_sim; [done|done|apply Hstr; lia|done|lia]. }
  destruct ((c =? 38) && negb raw) eqn:H38.
  { apply andb_true_iff in H38 as [->%Z.eqb_eq _]. apply reference_sim; [done|done|done|lia]. }
  destruct cc as [k|].
  - eapply loop_out_later; [|apply IH; [by apply inv_extend|lia]]. lia.
  - destruct (c <? 32).
    + eapply loop_out_later; [|apply IH; [|lia]]; [lia|].
      destruct Hinv as [Hst (Hq & Hg & Hn)] eqn:Heq. clear Heq.
      eapply (inv_child _ _ _ _ _ _ _ _ _ src); [by split|by eapply segs_strict| |apply grown_refl].
      apply (stepped_refl _ src); [done|lia..].
    + eapply loop_out_later; [|apply IH; [by apply inv_open|lia]]. lia.
Qed.

Lemma parse_cd0_sim fuel x1 x2 f1 f2 src : synced src x1 x2 -> (N - src < fuel)%nat ->
  sim F (cd0_post src x1 f1 f2) (htsmsg_xml_parse_cd0 false fuel x1 [] f1 src false)
    (htsmsg_xml_parse_cd0 true fuel x2 [] f2 src false).
Proof using Hs Hover Hamp Hsmall Hclosed.
  intros Hsy Hf. pose proof Hsy as (_ & HN & _).
  eapply sim_mono; [apply cd0_loop_sim; [|exact Hf]|by intros o1 o2 [Ho _]].
  split; [by apply (stepped_refl _ src)|]. split; [done|]. split; [apply grown_refl|]. unfold ccq_len. simpl. lia.
Qed.

End cd0_sim.


(** ** Documents *)

Definition has_doctype : Prop := exists i, starts (lit "<!DOCTYPE") T i = Ok true.

(** The faults a document can end in besides the indeterminate byte. *)
Definition xml_fault (f : fault) : Prop :=
  f = SignedOverflow \/ f = NullDeref \/ (f = OobRead /\ has_doctype) \/
  (f = Uninitialised /\ 38 ∈ s).

Lemma doctype_text k : forall src d, (N - src <= k)%nat ->
  doctype_end (drop src T) src d = Fault OobRead \/
  exists e, doctype_end (drop src T) src d = Ok e /\ (src <= e <= N)%nat.
Proof using Hs.
  induction k as [|k IH]; intros src d Hk.
  all: destruct (decide (src <= N)%nat) as [Hsrc|];
    [|left; by rewrite drop_ge by (rewrite text_length; lia)].
  all: destruct (text_at src Hsrc) as (c & E & Hc); pose proof (drop_S _ _ _ E) as Ed; rewrite Ed; cbn [doctype_end].
  { rewrite (proj2 (Z.eqb_eq c 0)) by (apply Hc; lia). right. exists src. split; [done|lia]. }
  destruct (Z.eqb_spec c 0); [right; exists src; split; [done|lia]|].
  assert (forall n d, (0 < n)%nat -> (src + n <= N + 2)%nat ->
    doctype_end (drop (src + n) T) (src + n) d = Fault OobRead \/
    exists e, doctype_end (drop (src + n) T) (src + n) d = Ok e /\ (src <= e <= N)%nat) as Hnext.
  { intros m d' Hm _. destruct (IH (src + m)%nat d') as [->|(e & -> & He)]; [lia|by left|].
    right. exists e. split; [done|lia]. }
  pose proof (Hnext 1%nat) as H1. pose proof (Hnext 2%nat) as H2.
  replace (src + 1)%nat with (S src) in H1 by lia. replace (src + 2)%nat with (S (S src)) in H2 by lia.
  pose proof (text_nonzero _ _ E ltac:(done)).
  destruct (c =? 60); [apply H1; lia|]. destruct (c =? 62); [|apply H1; lia].
  destruct (d - 1 =? 0); [right; exists (S src); split; [done|lia]|].
  destruct (text_at (S src) ltac:(lia)) as (c' & E' & _). rewrite (drop_S _ _ _ E'). apply H2; lia.
Qed.

Definition prolog_post (x : xmlparser) (f1 f2 : list xfield)
    (o1 o2 : nat * list xfield * xmlparser) : Prop :=
  let '(src1, h1, z1) := o1 in
  let '(src2, h2, z2) := o2 in
  src1 = src2 /\ stepped 0 (Some src1) x z1 z2 /\ grown (span 0 src1) z1 f1 h1 f2 h2.

(** The prolog, from [r] with the instructions [g1], [g2] read so far. *)
Lemma prolog_loop_sim fuel x y1 y2 f1 f2 g1 g2 r :
  stepped 0 r x y1 y2 ->
  match r with Some src => (N - src < fuel)%nat /\ grown (span 0 src) y1 f1 g1 f2 g2 | None => (0 < fuel)%nat end ->
  sim xml_fault (prolog_post x f1 f2)
    (prolog_loop false fuel y1 g1 r) (prolog_loop true fuel y2 g2 r).
Proof using Hs.
  revert y1 y2 g1 g2 r. induction fuel as [|fuel IH]; intros y1 y2 g1 g2 r Hst Hr; [destruct r; lia|].
  cbn [prolog_loop]. destruct r as [src|]; [|by split; [|right; left]].
  destruct Hr as [Hf Hg]. pose proof Hst as (_ & _ & _ & Hsy).
  pose proof Hsy as (Hsame & Hsrc & HE). pose proof Hsame as [-> Hlen%near_length]. cbn [xp_mem xp_set_mem].
  destruct (text_at src Hsrc) as (c0 & Ec0 & Hc0). xread HE.
  destruct (Z.eqb_spec c0 0); [by split|]. pose proof (text_nonzero _ _ Ec0 ltac:(done)) as HsN.
  xscan HE i c. rewrite (starts_drop (lit "<?") _ _ i HE) by lia.
  assert (forall j, (i <= j <= N)%nat -> stepped 0 (Some j) x y1 (xp_set_mem y1 T)) as Hfwd.
  { intros j Hj. eapply stepped_forward; [exact Hst|lia]. }
  assert (forall j, (i <= j <= N)%nat -> grown (span 0 j) y1 f1 g1 f2 g2) as Hgf.
  { intros j Hj. eapply grown_weaken; [exact Hg|]. unfold span. lia. }
  assert (forall j, (i <= j <= N)%nat -> synced j y1 (xp_set_mem y1 T)) as Hsyf.
  { intros j Hj. apply (Hfwd j Hj). }
  destruct (starts_text (lit "<?") i) as (b & Eb & Hpi); [by apply (bool_decide_unpack _)|lia|].
  fold T in Eb. rewrite Eb, !ok_bind. destruct b.
  { specialize (Hpi eq_refl). change (length (lit "<?")) with 2%nat in Hpi.
    eapply sim_bind; [apply parse_pi_sim; [apply Hsyf; lia|done]|].
    intros [[r1 q1] z1] [[r2 q2] z2] (-> & Hst2 & Hr). apply IH.
    - apply (stepped_trans 0 (i + 2) _ y1 y1 (xp_set_mem y1 T)) in Hst2; [|apply (stepped_refl _ i); [apply Hsyf|..]; lia].
      destruct Hst2 as (? & Hfr & ?). destruct Hst as (_ & Hfr0 & _). split; [done|]. split; [lia|].
      destruct r2; [|done]. split; [lia|]. tauto.
    - destruct r2 as [e|]; [|lia]. destruct Hr as (He & h1 & h2 & -> & -> & Hg2). split; [lia|]. simpl.
      eapply grown_trans; [apply (Hgf (i + 2)%nat); lia|exact Hg2| |]; unfold span; [|lia].
      intros j Hj. split; [lia|]. apply Hst2. lia. }
  rewrite (starts_drop (lit "<!--") _ _ i HE) by lia.
  destruct (starts_text (lit "<!--") i) as (b & Eb2 & Hcm); [by apply (bool_decide_unpack _)|lia|].
  fold T in Eb2. rewrite Eb2, !ok_bind. destruct b.
  { specialize (Hcm eq_refl). change (length (lit "<!--")) with 4%nat in Hcm.
    eapply sim_bind; [apply comment_sim, Hsyf; lia|].
    intros [r1 z1] [r2 z2] (-> & Hst2 & Hm). apply IH.
    - destruct Hst2 as (? & Hfr & ?). destruct Hst as (_ & Hfr0 & _). split; [done|]. split; [lia|].
      destruct r2; [|done]. split; [lia|]. tauto.
    - destruct r2 as [e|]; [|lia]. destruct Hst2 as (_ & _ & ? & _ & ? & _). split; [lia|].
      unfold grown. rewrite Hm. apply Hgf. lia. }
  rewrite (starts_drop (lit "<!DOCTYPE") _ _ i HE) by lia.
  destruct (starts_text (lit "<!DOCTYPE") i) as (b & Eb3 & Hdt); [by apply (bool_decide_unpack _)|lia|].
  fold T in Eb3. rewrite Eb3, !ok_bind. destruct b.
  { specialize (Hdt eq_refl). change (length (lit "<!DOCTYPE")) with 9%nat in Hdt.
    assert (c = 60) as ->.
    { unfold starts in Eb3. rewrite (drop_S _ _ _ Ec) in Eb3. change (lit "<!DOCTYPE") with (60 :: lit "!DOCTYPE") in Eb3.
      cbn [mstarts] in Eb3. by destruct (Z.eqb_spec c 60). }
    rewrite (drop_le _ _ _ i HE), (drop_S _ _ _ Ec) by lia. cbn [doctype_end]. rewrite (proj2 (Z.eqb_neq 60 0)), Z.eqb_refl by done.
    destruct (doctype_text N (S i) (0 + 1)) as [->|(e & -> & He)]; [lia| |].
    { split; [done|]. right. right. left. split; [done|]. by exists i. }
    rewrite !ok_bind. apply IH; [apply Hfwd; lia|]. split; [lia|]. apply Hgf. lia. }
  split; [done|]. split; [apply Hfwd; lia|]. apply Hgf. lia.
Qed.

Lemma parse_prolog_sim x1 x2 : synced 0 x1 x2 ->
  sim xml_fault (fun '(src1, y1) '(src2, y2) => src1 = src2 /\ stepped 0 (Some src1) x1 y1 y2)
    (htsmsg_parse_prolog false x1 0) (htsmsg_parse_prolog true x2 0).
Proof using Hs.
  intros Hsy. pose proof Hsy as ([-> Hl%near_length] & _ & _). unfold htsmsg_parse_prolog.
  cbn [xp_mem xp_set_mem]. rewrite Hl.
  eapply sim_bind; [apply (prolog_loop_sim _ x1 x1 _ [] [] [] [] (Some O))|].
  { apply (stepped_refl _ 0); [done|lia..]. }
  { rewrite text_length. split; [lia|apply grown_refl]. }
  intros [[src1 h1] y1] [[src2 h2] y2] (-> & Hst & Hg). pose proof Hst as ([-> Hl'] & Hst').
  destruct (frels_resolve _ _ T _ _ (grown_all _ _ _ _ Hg)) as (hs & E1 & E2). cbn [xp_mem xp_set_mem].
  rewrite E1, E2, !ok_bind. cbv zeta.
  set (enc := mbind _ _). destruct enc as [e|]; [destruct (existsb _ _)|];
    (split; [done|]; split; [split; [done|exact Hl']|]; destruct Hst' as (? & ? & _ & ? & ?); by split_and!).
Qed.

(** Every open tag name that a slash cuts belongs to an empty tag. *)
Fixpoint name_ok (l : list Z) : bool :=
  match l with
  | [] => true
  | c :: l =>
      if c =? 47 then match l with d :: _ => d =? 62 | [] => false end
      else name_stop c || name_ok l
  end.

Lemma name_ok_spec k : forall src, (length T - src <= k)%nat -> name_ok (drop src T) = true -> name_closed src.
Proof using Hs.
  induction k as [|k IH]; intros src Hk Hok i Hi Hb E.
  { apply lookup_lt_Some in E. lia. }
  destruct (decide (i = src)) as [->|Hne].
  - rewrite (drop_S _ _ _ E) in Hok. cbn [name_ok] in Hok. rewrite Z.eqb_refl in Hok.
    destruct (drop (S src) T) as [|d l] eqn:Ed; [done|]. apply Z.eqb_eq in Hok. subst d.
    rewrite <- (Nat.add_0_r (S src)), <- lookup_drop, Ed. done.
  - destruct (lookup_lt_is_Some_2 T src) as [c Ec]; [apply lookup_lt_Some in E; lia|].
    rewrite (drop_S _ _ _ Ec) in Hok. cbn [name_ok] in Hok. pose proof (Hb src c ltac:(lia) Ec) as Hstop.
    rewrite Hstop in Hok. unfold name_stop in Hstop. apply orb_false_iff in Hstop as [_ H47]. rewrite H47 in Hok.
    apply (IH (S src)); [lia|exact Hok|lia| |exact E]. intros j d Hj. apply Hb. lia.
Qed.

End text.

Fixpoint tags_ok (l : list Z) : bool :=
  match l with
  | [] => true
  | c :: l' =>
      (if c =? 60 then
         match l' with
         | d :: _ => (d =? 33) || (d =? 63) || (d =? 47) || name_ok l'
         | [] => true
         end
       else true) && tags_ok l'
  end.

Lemma tags_ok_drop l i : tags_ok l = true -> tags_ok (drop i l) = true.
Proof.
  revert l. induction i as [|i IH]; intros [|c l]; try done. simpl. intros [_ H]%andb_true_iff. by apply IH.
Qed.

Lemma tags_ok_spec s : cstring_ok s -> tags_ok (s ++ [0]) = true -> forall i c,
  (s ++ [0]) !! i = Some 60 -> (s ++ [0]) !! S i = Some c -> c <> 33 -> c <> 63 -> c <> 47 ->
  name_closed s (S i).
Proof.
  intros Hs H i c Ei Ec H33 H63 H47. apply (tags_ok_drop _ i) in H.
  rewrite (drop_S _ _ _ Ei) in H. cbn [tags_ok] in H. rewrite Z.eqb_refl, (drop_S _ _ _ Ec) in H.
  apply andb_true_iff in H as [H _]. rewrite <- (drop_S _ _ _ Ec) in H.
  rewrite !(proj2 (Z.eqb_neq c _)) in H by done. by eapply name_ok_spec.
Qed.

(** The reference reading of a document, with the text of its error. *)
Definition xml_copying (s : list Z) (n : nat) : res (list Z + htsmsg) :=
  r ← xml_deserialize true (s ++ [0]) n;
  match r with
  | inl e => Ok (inl e)
  | inr (fs, mem) => fs ← xfs_resolve mem fs; Ok (inr (Msg false fs))
  end.

Definition document_ok (s : list Z) : Prop :=
  cstring_ok s /\ 6 * Z.of_nat (length s) <= int_max /\ tags_ok (s ++ [0]) = true.

(** Cleared bytes do not count as lines or columns: none of them was a line feed,
    and there are no carriage returns. *)
Lemma get_line_col_near m t i pos line col :
  Forall2 (fun a b => a = b \/ a = 0 /\ b <> 10) m t -> 13 ∉ t ->
  get_line_col m i pos line col = get_line_col t i pos line col.
Proof.
  intros H. revert i line col. induction H as [|a b m t Hab _ IH]; intros i line col Hcr; [done|].
  apply not_elem_of_cons in Hcr as [Hb Hcr]. cbn [get_line_col].
  assert ((a =? 10) = (b =? 10) /\ (a =? 13) = (b =? 13)) as [-> ->].
  { destruct Hab as [->|[-> Hb10]]; [done|]. by rewrite !(proj2 (Z.eqb_neq b _)). }
  destruct (b =? 10), (b =? 13); by rewrite IH.
Qed.

Lemma error_text_near s x1 x2 n : cstring_ok s -> same s x1 x2 -> is_Some (xp_err x1) ->
  exists e1 e2, xml_error_text x1 (length s) n = Ok e1 /\ xml_error_text x2 (length s) n = Ok e2 /\
    (13 ∉ s -> e1 = e2).
Proof.
  intros Hs [-> Hnear] [er Her]. unfold xml_error_text. cbn [xp_err xp_set_mem xp_mem]. rewrite Her.
  destruct (get_line_col _ _ _ _ _) as [l1 c1] eqn:E1.
  destruct (get_line_col (take _ (s ++ _)) _ _ _ _) as [l2 c2] eqn:E2.
  do 2 eexists. split; [done|]. split; [done|]. intros Hcr.
  rewrite (get_line_col_near _ (take (length s) (s ++ [0]))), E2 in E1; [by simplify_eq| |].
  - by apply Forall2_take.
  - by rewrite take_app_length.
Qed.

Lemma deserialize_sim s n : document_ok s ->
  sim (xml_fault s)
    (fun r1 r2 => match r1, r2 with
                  | inl e1, inl e2 => 13 ∉ s -> e1 = e2
                  | inr (f1, m1), inr (f2, m2) => exists D, Forall2 (frel (srel m1 D)) f1 f2
                  | _, _ => False
                  end)
    (xml_deserialize false (s ++ [0]) n) (xml_deserialize true (s ++ [0]) n).
Proof.
  intros (Hs & Hmax & Htags). unfold xml_deserialize.
  set (x := Xp (s ++ [0]) false None [] 0).
  assert (synced s 0 x x) as Hsy.
  { split; [split; [done|by apply near_refl]|]. split; [lia|done]. }
  eapply sim_bind; [by apply parse_prolog_sim|].
  intros [src1 y1] [src2 y2] (-> & Hst). pose proof Hst as (_ & _ & _ & Hsy1).
  pose proof Hsy1 as (_ & HN & _).
  eapply sim_bind.
  { apply (parse_cd_sim s Hs _ _ _ _ _ [] []); [|done|done|done|].
    - intros H38. right. right. right. done.
    - apply parse_cd0_sim; [done|by left|intros H38; right; right; by right|done|by apply tags_ok_spec|done|].
      rewrite length_app. simpl. lia. }
  intros [[[r1 g1] k1] z1] [[[r2 g2] k2] z2] (-> & Hst2 & b1 & b2 & _ & _ & Hr).
  destruct r2 as [e|].
  - destruct Hr as [Hg _]. eexists. by apply (grown_all s Hs).
  - destruct Hst2 as (Hsame & _ & Her).
    replace (length (s ++ [0%Z]) - 1)%nat with (length s) by (rewrite length_app; simpl; lia).
    destruct (error_text_near s z1 z2 n Hs Hsame Her) as (e1 & e2 & -> & -> & He). exact He.
Qed.

Lemma xml_inplace s n : document_ok s ->
  match htsmsg_xml_deserialize_cstr s n with
  | Ok (inr m) => xml_copying s n = Ok (inr m)
  | Ok (inl e) => exists e', xml_copying s n = Ok (inl e') /\ (13 ∉ s -> e' = e)
  | Fault f => xml_copying s n = Fault f /\ xml_fault s f
  end.
Proof.
  intros Hd. pose proof (deserialize_sim s n Hd) as H.
  unfold htsmsg_xml_deserialize_cstr, htsmsg_xml_deserialize_buf, xml_copying.
  destruct (xml_deserialize false (s ++ [0]) n) as [[e|[f1 m1]]|f], (xml_deserialize true (s ++ [0]) n) as [[e'|[f2 m2]]|f'];
    try done; simpl in H.
  - exists e'. split; [done|]. intros Hcr. by rewrite H.
  - destruct H as [D H]. destruct (frels_resolve _ _ m2 _ _ H) as (hs & E1 & E2). simpl. by rewrite E1, E2.
  - simpl. naive_solver.
Qed.

(** C39: htsmsg_xml_deserialize_cstr terminates the strings of the message by
    writing into the document it is still parsing.  For a document of less
    than 2^31/6 bytes in which no tag name runs into a slash that does not
    close the tag, this is invisible: the message, read through its pointers
    after the parse, is the one a parser that copies every string would
    return, and the same documents are rejected.  The error texts agree as
    well, with their lines and columns, which are counted after the parse in
    the buffer that has been written to: a terminator never replaces a line
    feed.  It does replace carriage returns, so a document with one is only
    rejected by both, perhaps with another column.  A run that does not
    return overflows an int (a character reference), follows NULL (an
    unterminated instruction or comment in the prolog), reads behind the
    buffer in a DOCTYPE, or reads the indeterminate byte behind a reference
    (only in a document with an ampersand); it never exhausts its fuel,
    stores outside of an object or fails an assertion. *)
Theorem htsmsg_xml_inplace s n : document_ok s ->
  match htsmsg_xml_deserialize_cstr s n with
  | Ok (inr m) => xml_copying s n = Ok (inr m)
  | Ok (inl e) => exists e', xml_copying s n = Ok (inl e') /\ (13 ∉ s -> e' = e)
  | Fault f => xml_copying s n = Fault f /\ xml_fault s f
  end.
Proof. apply xml_inplace. Qed.

(** Reused names, an attribute with a prefix, text on both sides of a child. *)
Definition sample_document : list Z :=
  lit "<?xml version='1.0'?><r xmlns:p='u'><a p:k='v' > x <b/>y</a><p:a>1</p:a></r>".

Lemma htsmsg_xml_inplace_witness :
  document_ok sample_document /\
  match htsmsg_xml_deserialize_cstr sample_document 100 with
  | Ok (inr m) => xml_copying sample_document 100 = Ok (inr m)
  | Ok (inl e) => exists e', xml_copying sample_document 100 = Ok (inl e') /\ (13 ∉ sample_document -> e' = e)
  | Fault f => xml_copying sample_document 100 = Fault f /\ xml_fault sample_document f
  end.
Proof.
  assert (document_ok sample_document) as H.
  { split; [apply (bool_decide_unpack _); vm_compute; exact I|]. split; [vm_compute; discriminate|reflexivity]. }
  split; [exact H|apply (htsmsg_xml_inplace sample_document 100 H)].
Defined.

(** A rejected document in which an attribute name and a tag name end a line. *)
Lemma line_feeds_counted :
  htsmsg_xml_deserialize_cstr (lit "<a b='c'><d" ++ [10] ++ lit "e" ++ [10] ++ lit "='f' g") 100
  = xml_copying (lit "<a b='c'><d" ++ [10] ++ lit "e" ++ [10] ++ lit "='f' g") 100.
Proof. reflexivity. Qed.

(** A carriage return behind a name: the column differs. *)
Lemma carriage_return_lost :
  htsmsg_xml_deserialize_cstr (lit "<a b" ++ [13] ++ lit "='c' d") 200
  <> xml_copying (lit "<a b" ++ [13] ++ lit "='c' d") 200.
Proof. vm_compute. discriminate. Qed.
