(* ===== verification/XmlDocument.v ===== *)
(** XML documents and the message they stand for: a document is a tree that is
    printed ([xdoc], [xdoc_ok]), and [htsmsg_xml_deserialize_cstr] returns the
    fields its elements, attributes, references and CDATA sections mean, with
    the prefixes of namespaces resolved and Latin-1 text converted.  What is left
    out is in [xml_defects]. *)
From S2P Require Import Prelude Clib Htsmsg Utf8 Html HtsmsgXml XmlInplace.

Local Open Scope Z_scope.

(** * Documents *)

(** [name="value"] with the blanks behind it. *)
Record xattr := Xattr {
  xa_name : list Z;
  xa_single : bool;              (* which quote *)
  xa_value : list Z;
  xa_ws : list Z
}.

(** An element has no content when it is an empty tag; the content is a text
    and then markup, each with the text behind it. *)
Inductive xnode :=
| XElem (name ws : list Z) (attrs : list xattr) (content : option (list Z * list (xnode * list Z)))
| XCdata (s : list Z)
| XComment (s : list Z)
| XPi (name ws : list Z) (attrs : list xattr)
| XCharRef (v : Z)
| XHexRef (digits : list Z)
| XEntity (name : list Z).

Definition quote_of (a : xattr) : Z := if xa_single a then 39 else 34.
Definition print_attr (a : xattr) : list Z :=
  xa_name a ++ 61 :: quote_of a :: xa_value a ++ quote_of a :: xa_ws a.
Definition print_attrs (l : list xattr) : list Z := concat (map print_attr l).

(** An instruction, or the declaration of the document. *)
Definition print_pi (name ws : list Z) (attrs : list xattr) : list Z :=
  lit "<?" ++ name ++ ws ++ print_attrs attrs ++ lit "?>".

Fixpoint print_node (d : xnode) : list Z :=
  match d with
  | XElem name ws attrs content =>
      60 :: name ++ ws ++ print_attrs attrs ++
      match content with
      | None => lit "/>"
      | Some (t, items) =>
          62 :: t ++
          (fix go items := match items with
                           | [] => []
                           | (d, t) :: items => print_node d ++ t ++ go items
                           end) items
          ++ lit "</" ++ name ++ [62]
      end
  | XCdata s => lit "<![CDATA[" ++ s ++ lit "]]>"
  | XComment s => lit "<!--" ++ s ++ lit "-->"
  | XPi name ws attrs => print_pi name ws attrs
  | XCharRef v => lit "&#" ++ dec_nat v ++ [59]
  | XHexRef ds => lit "&#x" ++ ds ++ [59]
  | XEntity name => 38 :: name ++ [59]
  end.
Fixpoint print_items (items : list (xnode * list Z)) : list Z :=
  match items with
  | [] => []
  | (d, t) :: items => print_node d ++ t ++ print_items items
  end.

(** * Meaning *)

(** The namespaces in scope, innermost first. *)
Definition nsenv := list (list Z * list Z).

Fixpoint env_find (env : nsenv) (p : list Z) : option (list Z) :=
  match env with
  | [] => None
  | (q, uri) :: env => if decide (q = p) then Some uri else env_find env p
  end.

(** The local part of a name and its namespace, when its prefix has one. *)
Definition qname (env : nsenv) (n : list Z) : list Z * option (list Z) :=
  match strchr 58 n with
  | Some (p, _ :: _) =>
      match env_find env p with Some uri => (drop (length p + 1) n, Some uri) | None => (n, None) end
  | _ => (n, None)
  end.

Definition declares_ns (a : xattr) : bool :=
  (6 <? length (xa_name a))%nat && has_prefix (lit "xmlns:") (xa_name a).

Definition attr_field (env : nsenv) (a : xattr) : hfield :=
  let '(n, ns) := qname env (xa_name a) in HField (Some n) true ns (HStr (xa_value a)) None.

(** A declaration is in force for the attributes behind it. *)
Fixpoint attrs_spec (env : nsenv) (l : list xattr) : nsenv * list hfield :=
  match l with
  | [] => (env, [])
  | a :: l =>
      if declares_ns a then attrs_spec ((drop 6 (xa_name a), xa_value a) :: env) l
      else let '(env', fs) := attrs_spec env l in (env', attr_field env a :: fs)
  end.

(** The value of hexadecimal digits. *)
Definition is_hex (c : Z) : bool := is_digit c || (97 <=? c) && (c <=? 102) || (65 <=? c) && (c <=? 70).
Definition hex_value (c : Z) : Z :=
  if is_digit c then c - 48 else if 97 <=? c then c - 87 else c - 55.
Definition hex_fold (v : Z) (ds : list Z) : Z := fold_left (fun v c => v * 16 + hex_value c) ds v.

(** A piece of text: from the document, or the encoding of a reference. *)
Inductive seg := SText (s : list Z) | SRef (s : list Z).

Fixpoint skip_ctrl (t : list Z) : list Z :=
  match t with c :: t' => if c <? 32 then skip_ctrl t' else t | [] => [] end.
(** Control characters at the start of a text are skipped. *)
Definition text_segs (t : list Z) : list seg :=
  match skip_ctrl t with [] => [] | t' => [SText t'] end.

Definition seg_bytes_of (g : seg) : list Z := match g with SText s | SRef s => s end.
Definition seg_text (latin1 : bool) (g : seg) : list Z :=
  match g with
  | SText s => if latin1 then concat (map utf8_put s) else s
  | SRef s => s
  end.
Definition seg_blank (g : seg) : bool := forallb (fun c => c <=? 32) (seg_bytes_of g).

Fixpoint drop_blank (l : list seg) : list seg :=
  match l with g :: l' => if seg_blank g then drop_blank l' else l | [] => [] end.
(** Blank pieces are dropped at both ends of an element. *)
Definition trim_segs (l : list seg) : list seg := reverse (drop_blank (reverse (drop_blank l))).

Definition elem_val (latin1 : bool) (l : list seg) : hval :=
  match trim_segs l with [] => HMap | l => HStr (concat (map (seg_text latin1) l)) end.
Definition elem_childs (fs : list hfield) : option htsmsg :=
  match fs with [] => None | _ => Some (Msg false fs) end.

Section meaning.
Variable latin1 : bool.

(** The pieces of text and the fields a node adds to its element. *)
Fixpoint node_spec (env : nsenv) (d : xnode) : list seg * list hfield :=
  match d with
  | XElem name _ attrs content =>
      let '(env, afs) := attrs_spec env attrs in
      let '(segs, fs) :=
        match content with
        | None => ([], [])
        | Some (t, items) =>
            let '(segs, fs) :=
              (fix go items : list seg * list hfield :=
                 match items with
                 | [] => ([], [])
                 | (d, t) :: items =>
                     let '(s1, f1) := node_spec env d in
                     let '(s2, f2) := go items in
                     (s1 ++ text_segs t ++ s2, f1 ++ f2)
                 end) items in
            (text_segs t ++ segs, fs)
        end in
      let '(n, ns) := qname env name in
      ([], [HField (Some n) false ns (elem_val latin1 segs) (elem_childs (afs ++ fs))])
  | XCdata s => (text_segs s, [])
  | XComment _ => ([], [])
  | XPi _ _ _ => ([], [])
  | XCharRef v => ([SRef (utf8_put v)], [])
  | XHexRef ds => ([SRef (utf8_put (hex_fold 0 ds))], [])
  | XEntity name => ([SRef (utf8_put (html_entity_lookup name))], [])
  end.
Definition items_spec (env : nsenv) : list (xnode * list Z) -> list seg * list hfield :=
  fix go items :=
    match items with
    | [] => ([], [])
    | (d, t) :: items =>
        let '(s1, f1) := node_spec env d in
        let '(s2, f2) := go items in
        (s1 ++ text_segs t ++ s2, f1 ++ f2)
    end.

(** * The documents *)

Definition name_char (c : Z) : Prop :=
  0 < c < 256 /\ is_xmlws c = false /\ c <> 61 /\ c <> 62 /\ c <> 47.
Definition xname_ok (n : list Z) : Prop :=
  n <> [] /\ Forall name_char n /\ Z.of_nat (length n) <= 65535.
Definition ws_ok (t : list Z) : Prop := Forall (fun c => is_xmlws c = true) t.
Definition attr_ok (a : xattr) : Prop :=
  xname_ok (xa_name a) /\ cstring_ok (xa_value a) /\ (quote_of a ∉ xa_value a) /\
  Z.of_nat (length (xa_value a)) <= 65535 /\ ws_ok (xa_ws a).
(** The value of an attribute of an element stands for itself: no references,
    and none of the blanks that would have to be normalised. *)
Definition value_ok (a : xattr) : Prop := Forall (fun c => 32 <= c) (xa_value a) /\ (38 ∉ xa_value a).
Definition pi_ok (name ws : list Z) (attrs : list xattr) : Prop :=
  name <> [] /\ Forall (fun c => (c =? 0) || is_xmlws c || (c =? 63) = false) name /\
  Z.of_nat (length name) <= 1024 /\ ws_ok ws /\ (attrs <> [] -> ws <> []) /\
  Forall attr_ok attrs /\ Forall (fun a => head (xa_name a) <> Some 63) attrs.
Definition text_ok (t : list Z) : Prop := cstring_ok t /\ (60 ∉ t) /\ (38 ∉ t).

(** A sequence of bytes that does not contain [t], or would with the [t] behind
    it begin one early. *)
Fixpoint free_of (t s : list Z) : bool :=
  match s with [] => true | _ :: s' => negb (has_prefix t (s ++ t)) && free_of t s' end.

(** An element whose text is a single reference is left out: see [xml_defects]. *)
Definition body_ok (l : list seg) : Prop := forall s, trim_segs l <> [SRef s].

Inductive node_ok (env : nsenv) : xnode -> Prop :=
| ElemOk name ws attrs content :
    xname_ok name -> head name <> Some 33 -> head name <> Some 63 ->
    ws_ok ws -> (attrs <> [] -> ws <> []) -> Forall attr_ok attrs -> Forall value_ok attrs ->
    (forall t items, content = Some (t, items) ->
       text_ok t /\ Forall (fun i => node_ok (attrs_spec env attrs).1 i.1 /\ text_ok i.2) items /\
       body_ok (text_segs t ++ (items_spec (attrs_spec env attrs).1 items).1)) ->
    node_ok env (XElem name ws attrs content)
| CdataOk s : cstring_ok s -> free_of (lit "]]>") s = true -> node_ok env (XCdata s)
| CommentOk s : cstring_ok s -> free_of (lit "-->") s = true -> node_ok env (XComment s)
| PiOk name ws attrs : pi_ok name ws attrs -> node_ok env (XPi name ws attrs)
| HexRefOk ds : Forall (fun c => is_hex c = true) ds -> cp_ok (hex_fold 0 ds) ->
    0 < hex_fold 0 ds <= 1114111 -> node_ok env (XHexRef ds)
| CharRefOk v : cp_ok v -> 0 < v <= 1114111 -> node_ok env (XCharRef v)
| EntityOk name : name <> [] -> cstring_ok name -> 59 ∉ name -> head name <> Some 35 ->
    Z.of_nat (length name) <= 1024 -> html_entity_lookup name <> -1 -> node_ok env (XEntity name).
End meaning.

(** What may stand before the root element; the DOCTYPE has no internal subset. *)
Inductive xmisc :=
| MComment (s : list Z)
| MPi (name ws : list Z) (attrs : list xattr)
| MDoctype (s : list Z).

Definition print_misc (m : xmisc) : list Z :=
  match m with
  | MComment s => lit "<!--" ++ s ++ lit "-->"
  | MPi name ws attrs => print_pi name ws attrs
  | MDoctype s => lit "<!DOCTYPE" ++ s ++ [62]
  end.
Definition misc_ok (m : xmisc) : Prop :=
  match m with
  | MComment s => cstring_ok s /\ free_of (lit "-->") s = true
  | MPi name ws attrs => pi_ok name ws attrs
  | MDoctype s => cstring_ok s /\ (60 ∉ s) /\ (62 ∉ s)
  end.

(** Blanks and markup. *)
Definition print_miscs (l : list (list Z * xmisc)) : list Z :=
  concat (map (fun wm => wm.1 ++ print_misc wm.2) l).

(** The declaration, what stands before the root element, the root element, and
    what follows it. *)
Record xdoc := Xdoc {
  xd_decl : option (list Z * list xattr);
  xd_misc : list (list Z * xmisc);
  xd_space : list Z;
  xd_root : xnode;
  xd_trail : list Z;
  xd_after : list (xnode * list Z)
}.

Definition decl_misc (d : option (list Z * list xattr)) : list (list Z * xmisc) :=
  match d with Some (ws, attrs) => [([], MPi (lit "xml") ws attrs)] | None => [] end.
Definition xd_prolog (d : xdoc) : list (list Z * xmisc) := decl_misc (xd_decl d) ++ xd_misc d.

Definition print_doc (d : xdoc) : list Z :=
  print_miscs (xd_prolog d) ++ xd_space d ++ print_node (xd_root d) ++ xd_trail d ++ print_items (xd_after d).

(** The encoding the declaration names. *)
Definition doc_latin1 (d : xdoc) : bool :=
  match xd_decl d with
  | Some (_, attrs) =>
      match find (fun a => bool_decide (xa_name a = lit "encoding")) attrs with
      | Some a => existsb (strcaseeq (xa_value a)) latin1_names
      | None => false
      end
  | None => false
  end.

Definition xdoc_ok (d : xdoc) : Prop :=
  (forall ws attrs, xd_decl d = Some (ws, attrs) -> pi_ok (lit "xml") ws attrs) /\
  Forall (fun wm => ws_ok wm.1 /\ misc_ok wm.2 /\
            forall ws attrs, wm.2 <> MPi (lit "xml") ws attrs) (xd_misc d) /\
  ws_ok (xd_space d) /\ (exists n ws attrs c, xd_root d = XElem n ws attrs c) /\
  node_ok (doc_latin1 d) [] (xd_root d) /\ text_ok (xd_trail d) /\
  Forall (fun i => ((exists u, i.1 = XComment u) \/ (exists n ws attrs, i.1 = XPi n ws attrs)) /\
            node_ok (doc_latin1 d) [] i.1 /\ text_ok i.2) (xd_after d) /\
  (13 ∉ print_doc d).

Definition doc_message (d : xdoc) : htsmsg := Msg false (node_spec (doc_latin1 d) [] (xd_root d)).2.

Lemma cdata_ok_inv latin1 env u : node_ok latin1 env (XCdata u) -> cstring_ok u /\ free_of (lit "]]>") u = true.
Proof. by inversion 1. Qed.
Lemma comment_ok_inv latin1 env u : node_ok latin1 env (XComment u) -> cstring_ok u /\ free_of (lit "-->") u = true.
Proof. by inversion 1. Qed.
Lemma pi_ok_inv latin1 env n ws attrs : node_ok latin1 env (XPi n ws attrs) -> pi_ok n ws attrs.
Proof. by inversion 1. Qed.
Lemma hexref_ok_inv latin1 env ds : node_ok latin1 env (XHexRef ds) ->
  Forall (fun c => is_hex c = true) ds /\ cp_ok (hex_fold 0 ds) /\ 0 < hex_fold 0 ds <= 1114111.
Proof. by inversion 1. Qed.
Lemma charref_ok_inv latin1 env v : node_ok latin1 env (XCharRef v) -> cp_ok v /\ 0 < v <= 1114111.
Proof. by inversion 1. Qed.
Lemma entity_ok_inv latin1 env n : node_ok latin1 env (XEntity n) ->
  n <> [] /\ cstring_ok n /\ (59 ∉ n) /\ head n <> Some 35 /\ Z.of_nat (length n) <= 1024 /\
  html_entity_lookup n <> -1.
Proof. by inversion 1. Qed.
Lemma elem_ok_inv latin1 env name ws attrs content : node_ok latin1 env (XElem name ws attrs content) ->
  xname_ok name /\ head name <> Some 33 /\ head name <> Some 63 /\
  ws_ok ws /\ (attrs <> [] -> ws <> []) /\ Forall attr_ok attrs /\
  (forall t items, content = Some (t, items) ->
     text_ok t /\ Forall (fun i => node_ok latin1 (attrs_spec env attrs).1 i.1 /\ text_ok i.2) items /\
     body_ok (text_segs t ++ (items_spec latin1 (attrs_spec env attrs).1 items).1)).
Proof. by inversion 1. Qed.

(** * Reading a piece of the text *)

Section reading.
Variable s : list Z.
Hypothesis Hs : cstring_ok s.
Let T := s ++ [0].
Let N := length s.

(** At [src] the text goes on with [t]. *)
Definition at_text (src : nat) (t : list Z) : Prop := exists rest, drop src T = t ++ rest.

Lemma drop_at src a b : drop src T = a ++ b -> drop (src + length a) T = b.
Proof using Hs. intros E. by rewrite <- drop_drop, E, drop_app_length. Qed.

Lemma lookup_at src a c b : drop src T = a ++ c :: b -> T !! (src + length a)%nat = Some c.
Proof using Hs. intros E. by rewrite <- lookup_drop, E, list_lookup_middle. Qed.

Lemma mread_at_drop src a c b i : drop src T = a ++ c :: b -> i = (src + length a)%nat -> mread T i = Ok c.
Proof using Hs. intros E ->. by apply mread_lookup, (lookup_at _ _ _ b). Qed.

Lemma scan_at p src a c b : drop src T = a ++ c :: b -> Forall (fun d => p d = false) a -> p c = true ->
  scan p T src = Ok (src + length a)%nat.
Proof using Hs.
  intros E Ha Hc. unfold scan. rewrite E. clear E. revert src. induction Ha as [|d a Hd _ IH]; intros src; simpl.
  - by rewrite Hc, Nat.add_0_r.
  - rewrite Hd, IH. f_equal. lia.
Qed.

Lemma mread_head i c b : drop i T = c :: b -> mread T i = Ok c.
Proof using Hs. intros E. apply (mread_at_drop i [] c b); [done|simpl; lia]. Qed.

Lemma scan_here p i c b : drop i T = c :: b -> p c = true -> scan p T i = Ok i.
Proof using Hs. intros E Hp. rewrite (scan_at p i [] c b E (Forall_nil_2 _) Hp). simpl. by rewrite Nat.add_0_r. Qed.

Lemma slice_at src a c b n : drop src T = a ++ c :: b -> n = length a -> mslice T src n = Ok a.
Proof using Hs.
  intros E ->. unfold mslice. rewrite E, take_app_length. rewrite decide_True; [done|].
  apply (f_equal length) in E. rewrite length_drop, length_app in E. simpl in E. lia.
Qed.

Lemma starts_at t src b : drop src T = t ++ b -> starts t T src = Ok true.
Proof using Hs.
  intros E. unfold starts. rewrite E. clear E. induction t as [|c t IH]; [done|]. simpl. by rewrite Z.eqb_refl.
Qed.

Lemma starts_not c t src d b : drop src T = d :: b -> d <> c -> starts (c :: t) T src = Ok false.
Proof using Hs. intros E Hd. unfold starts. rewrite E. simpl. by rewrite (proj2 (Z.eqb_neq d c)). Qed.

Lemma ptrdiff_at src n : Z.of_nat n <= 65535 -> ptrdiff (src + n) src = Z.of_nat n.
Proof using Hs. intros H. unfold ptrdiff. rewrite s32_id by ilia. lia. Qed.

(** ** Attributes *)

Definition env_of (l : list xmlns) : nsenv := map (fun ns => (xmlns_prefix ns, xmlns_normalized ns)) l.

(** A field of the reference parser. *)
Fixpoint heap_field (f : hfield) : xfield :=
  let 'HField n a ns v c := f in
  XField (XHeap (default [] n)) a ns (match v with HStr t => Some (XHeap t) | _ => None end)
    (match c with Some (Msg _ fs) => Some (map heap_field fs) | None => None end).

Lemma env_find_of l p : xmlns_find l p = env_find (env_of l) p.
Proof using Hs. induction l as [|ns l IH]; [done|]. simpl. by rewrite IH. Qed.

Lemma add_field_at x n a v : add_xml_field x (XHeap n) a v =
  Ok (XField (XHeap (qname (env_of (xp_namespaces x)) n).1) a (qname (env_of (xp_namespaces x)) n).2 v None).
Proof using Hs.
  unfold add_xml_field, qname. cbn [xstr_get]. rewrite ok_bind. destruct (strchr 58 n) as [[p q]|]; [|done].
  destruct q; [done|]. rewrite env_find_of. by destruct (env_find _ p).
Qed.

Lemma name_scan n : xname_ok n -> Forall (fun d => (d =? 0) || is_xmlws d || (d =? 61) = false) n.
Proof using Hs.
  intros (_ & H & _). eapply Forall_impl; [exact H|]. intros c ((H0 & _) & Hw & H61 & _).
  by rewrite Hw, !(proj2 (Z.eqb_neq c _)) by lia.
Qed.

Lemma name_not_ws n c : xname_ok n -> head n = Some c -> is_xmlws c = false.
Proof using Hs. intros (_ & H & _) Hh. destruct n; [done|]. injection Hh as ->. apply Forall_cons in H as [H _]. apply H. Qed.

Definition attrib_next (env : nsenv) (a : xattr) : nsenv :=
  if declares_ns a then (drop 6 (xa_name a), xa_value a) :: env else env.

Lemma quote_cases a : quote_of a = 34 \/ quote_of a = 39.
Proof using Hs. unfold quote_of. destruct (xa_single a); auto. Qed.

Lemma mstarts_prefix t n b : (length t <= length n)%nat -> mstarts t (n ++ b) = Ok (has_prefix t n).
Proof using Hs.
  revert n. induction t as [|c t IH]; intros n Hl; [done|]. destruct n as [|d n]; simpl in *; [lia|].
  rewrite (Z.eqb_sym c d). destruct (d =? c); [|done]. apply IH. lia.
Qed.

Lemma value_scan v q : cstring_ok v -> q ∉ v -> Forall (fun d => (d =? 0) || (d =? q) = false) v.
Proof using Hs.
  intros Hv Hq. rewrite Forall_forall. intros d Hd. rewrite !(proj2 (Z.eqb_neq d _)); [done|by intros ->|].
  unfold cstring_ok in Hv. rewrite Forall_forall in Hv. specialize (Hv d Hd). lia.
Qed.

Lemma ws_scan w : ws_ok w -> Forall (fun d => negb (is_xmlws d) = false) w.
Proof using Hs. intros H. eapply Forall_impl; [exact H|]. intros d Hd. cbn beta in Hd |- *. by rewrite Hd. Qed.

(** Whether an attribute declares a namespace; those of an instruction do not. *)
Definition ns_decl (scope : option (list nat)) (a : xattr) : bool :=
  match scope with Some _ => declares_ns a | None => false end.
(** The parser behind an attribute, and the fields it adds. *)
Definition attrib_parser (scope : option (list nat)) (x : xmlparser) (a : xattr) : xmlparser :=
  if ns_decl scope a
  then Xp (xp_mem x) (xp_latin1 x) (xp_err x)
         (Xmlns (xp_addr x) (drop 6 (xa_name a)) (xa_value a) :: xp_namespaces x) (S (xp_addr x))
  else x.
Definition attrib_scope (scope : option (list nat)) (x : xmlparser) (a : xattr) : option (list nat) :=
  if ns_decl scope a then (fun ids => xp_addr x :: ids) <$> scope else scope.
Definition attrib_fields (scope : option (list nat)) (x : xmlparser) (a : xattr) : list hfield :=
  if ns_decl scope a then [] else [attr_field (env_of (xp_namespaces x)) a].

Lemma attrib_add_at x msg src z scope a rest : xp_mem x = T -> drop src T = print_attr a ++ rest -> attr_ok a ->
  attrib_add true x msg z scope src (length (xa_name a))
    (src + length (xa_name a) + 2) (length (xa_value a)) =
  Ok (Some z, msg ++ map heap_field (attrib_fields scope x a), attrib_scope scope x a, attrib_parser scope x a).
Proof using Hs.
  intros Hm E (Hn & Hv & Hq & Hvl & Hw). unfold attrib_add. rewrite Hm.
  unfold print_attr in E. rewrite <- app_assoc in E. cbn [app] in E.
  assert (drop (src + length (xa_name a) + 2) T = xa_value a ++ (quote_of a :: xa_ws a) ++ rest) as Ev.
  { rewrite <- Nat.add_assoc, <- !drop_drop, E, drop_app_length. cbn [drop]. by rewrite <- app_assoc. }
  rewrite (slice_at _ _ _ _ _ Ev), (slice_at _ _ _ _ _ E) by done.
  rewrite (mread_at_drop _ _ _ _ (src + length (xa_name a)) E) by done.
  rewrite (mread_at_drop _ _ _ _ (src + length (xa_name a) + 2 + length (xa_value a)) Ev) by done.
  assert (match scope with
          | Some _ => if (6 <? length (xa_name a))%nat then starts (lit "xmlns:") T src else Ok false
          | None => Ok false end = Ok (ns_decl scope a)) as ->.
  { destruct scope; [|done]. unfold ns_decl, declares_ns. destruct (Nat.ltb_spec 6 (length (xa_name a))); [|done].
    unfold starts. by rewrite E, mstarts_prefix by (change (length (lit "xmlns:")) with 6%nat; lia). }
  rewrite ok_bind. unfold attrib_fields, attrib_scope, attrib_parser. destruct (ns_decl scope a) eqn:Hns.
  - assert (6 < length (xa_name a))%nat as Hl.
    { destruct scope; [|done]. unfold ns_decl, declares_ns in Hns. by apply andb_true_iff in Hns as [?%Nat.ltb_lt _]. }
    rewrite app_nil_r, Hm. rewrite (slice_at (src + 6) (drop 6 (xa_name a)) 61
      ((quote_of a :: xa_value a ++ quote_of a :: xa_ws a) ++ rest)).
    + done.
    + rewrite <- drop_drop, E, drop_app_le by lia. done.
    + by rewrite length_drop.
  - rewrite !ok_bind, add_field_at. unfold attr_field. by destruct (qname _ _) as [n ns].
Qed.

Lemma attrib_at x msg src scope a c rest : xp_mem x = T -> drop src T = print_attr a ++ c :: rest -> attr_ok a ->
  is_xmlws c = false ->
  htsmsg_xml_parse_attrib true x msg src scope =
  Ok (Some (src + length (print_attr a))%nat, msg ++ map heap_field (attrib_fields scope x a),
      attrib_scope scope x a, attrib_parser scope x a).
Proof using Hs.
  intros Hm E Ha Hc. pose proof Ha as (Hn & Hv & Hq & Hvl & Hw). unfold htsmsg_xml_parse_attrib. rewrite Hm.
  pose proof E as E0. unfold print_attr in E. rewrite <- app_assoc in E. cbn [app] in E. rewrite <- app_assoc in E.
  set (i := (src + length (xa_name a))%nat).
  pose proof (drop_at _ _ _ E) as E1. fold i in E1.
  assert (drop (S i) T = quote_of a :: xa_value a ++ (quote_of a :: xa_ws a) ++ c :: rest) as E2
    by (by rewrite <- Nat.add_1_r, <- drop_drop, E1).
  assert (drop (S (S i)) T = xa_value a ++ quote_of a :: xa_ws a ++ c :: rest) as E3
    by (by rewrite <- (Nat.add_1_r (S i)), <- drop_drop, E2).
  assert (drop (S (S (S i) + length (xa_value a))) T = xa_ws a ++ c :: rest) as E4.
  { apply drop_at in E3. rewrite <- Nat.add_1_r, <- drop_drop, E3. done. }
  assert (quote_of a <> 0 /\ is_xmlws (quote_of a) = false /\ negb (quote_of a =? 34) && negb (quote_of a =? 39) = false)
    as (Hq0 & Hqw & Hqq) by (destruct (quote_cases a) as [->| ->]; done).
  rewrite (scan_at _ _ _ _ _ E (name_scan _ Hn) eq_refl). fold i. rewrite !ok_bind.
  rewrite (mread_head _ _ _ E1), !ok_bind. cbn [Z.eqb].
  unfold i at 1 2. rewrite ptrdiff_at by apply Hn.
  assert (1 <= Z.of_nat (length (xa_name a))) as Hn1 by (destruct Hn as (Hne & _); destruct (xa_name a); [done|simpl; lia]).
  rewrite (proj2 (Z.ltb_ge _ 1)), (proj2 (Z.ltb_ge 65535 _)) by (done || apply Hn). cbn [orb].
  rewrite (scan_here _ _ _ _ E1 eq_refl), !ok_bind, (mread_head _ _ _ E1), !ok_bind. cbn [Z.eqb negb Pos.eqb].
  rewrite (scan_here _ _ _ _ E2) by (by rewrite Hqw). rewrite ok_bind, (mread_head _ _ _ E2), ok_bind, Hqq.
  rewrite (scan_at _ _ _ _ _ E3); [|apply (value_scan _ _ Hv Hq)|by rewrite Z.eqb_refl, orb_true_r].
  rewrite ok_bind, (mread_at_drop _ _ _ _ _ E3), ok_bind, (proj2 (Z.eqb_neq _ 0) Hq0) by done.
  rewrite ptrdiff_at by done. rewrite (proj2 (Z.ltb_ge _ 0)), (proj2 (Z.ltb_ge 65535 _)) by lia. cbn [orb].
  rewrite (scan_at _ _ _ _ _ E4); [|apply (ws_scan _ Hw)|by rewrite Hc]. rewrite ok_bind, !Nat2Z.id.
  replace (S (S i)) with (src + length (xa_name a) + 2)%nat by lia.
  unfold i at 1. rewrite ptrdiff_at, Nat2Z.id by apply Hn.
  rewrite (attrib_add_at _ _ _ _ _ _ _ Hm E0 Ha). do 5 f_equal.
  unfold print_attr, i. rewrite length_app. simpl. rewrite length_app. simpl. lia.
Qed.

(** All attributes of a tag. *)
Definition attribs_parser (x : xmlparser) (l : list xattr) : xmlparser :=
  fold_left (attrib_parser (Some [])) l x.
Fixpoint attribs_scope (ids : list nat) (x : xmlparser) (l : list xattr) : list nat :=
  match l with
  | [] => ids
  | a :: l =>
      attribs_scope (if declares_ns a then xp_addr x :: ids else ids) (attrib_parser (Some []) x a) l
  end.
Fixpoint attribs_fields (x : xmlparser) (l : list xattr) : list hfield :=
  match l with
  | [] => []
  | a :: l => attrib_fields (Some []) x a ++ attribs_fields (attrib_parser (Some []) x a) l
  end.

Lemma attribs_spec x l : attrs_spec (env_of (xp_namespaces x)) l =
  (env_of (xp_namespaces (attribs_parser x l)), attribs_fields x l).
Proof using Hs.
  revert x. induction l as [|a l IH]; intros x; [done|]. cbn [attrs_spec attribs_fields]. unfold attribs_parser. cbn [fold_left].
  fold (attribs_parser (attrib_parser (Some []) x a) l). specialize (IH (attrib_parser (Some []) x a)).
  unfold attrib_fields, attrib_parser in *. cbn [ns_decl] in *. destruct (declares_ns a); [exact IH|]. by rewrite IH.
Qed.

Lemma attrib_parser_mem scope x a : xp_mem (attrib_parser scope x a) = xp_mem x.
Proof using Hs. unfold attrib_parser. by destruct (ns_decl scope a). Qed.

(** What a tag does to the rest of the parser: namespaces come and go. *)
Definition addrs_below (x : xmlparser) : Prop := Forall (fun ns => (xmlns_addr ns < xp_addr x)%nat) (xp_namespaces x).

Lemma attribs_restore x l : addrs_below x ->
  let y := attribs_parser x l in
  xp_mem y = xp_mem x /\ xp_latin1 y = xp_latin1 x /\ xp_err y = xp_err x /\ (xp_addr x <= xp_addr y)%nat /\
  addrs_below y /\
  exists new, xp_namespaces y = new ++ xp_namespaces x /\
    (forall ids, attribs_scope ids x l = map xmlns_addr new ++ ids) /\
    Forall (fun ns => (xp_addr x <= xmlns_addr ns)%nat) new.
Proof using Hs.
  revert x. induction l as [|a l IH]; intros x Hx; cbv zeta.
  { do 3 (split; [done|]). split; [done|]. split; [done|]. exists []. by repeat split. }
  unfold attribs_parser. cbn [fold_left attribs_scope]. fold (attribs_parser (attrib_parser (Some []) x a) l).
  assert (addrs_below (attrib_parser (Some []) x a)) as Hy.
  { unfold attrib_parser, addrs_below in *. cbn [ns_decl]. destruct (declares_ns a); [|done].
    cbn [xp_namespaces xp_addr]. constructor; [simpl; lia|]. eapply Forall_impl; [exact Hx|]. simpl. lia. }
  destruct (IH _ Hy) as (E1 & E2 & E3 & E4 & E5 & new & E6 & E7 & E8).
  unfold attrib_parser in *. cbn [ns_decl] in *. destruct (declares_ns a).
  - cbn [xp_mem xp_latin1 xp_err xp_addr xp_namespaces] in *. do 3 (split; [done|]). split; [lia|]. split; [done|].
    exists (new ++ [Xmlns (xp_addr x) (drop 6 (xa_name a)) (xa_value a)]).
    split; [by rewrite E6, <- app_assoc|]. split.
    + intros ids. rewrite E7, map_app. simpl. by rewrite <- app_assoc.
    + apply Forall_app. split; [|by repeat constructor; simpl]. eapply Forall_impl; [exact E8|]. simpl. lia.
  - do 3 (split; [done|]). split; [done|]. split; [done|]. by exists new.
Qed.

Lemma destroy_restores x l : addrs_below x ->
  xmlns_destroy (attribs_scope [] x l) (xp_namespaces (attribs_parser x l)) = xp_namespaces x.
Proof using Hs.
  intros Hx. destruct (attribs_restore x l Hx) as (_ & _ & _ & _ & _ & new & E & Es & Hnew). rewrite Es, E, app_nil_r.
  unfold xmlns_destroy. rewrite filter_app, filter_none, filter_all; [done| |].
  - eapply Forall_impl; [exact Hx|]. intros ns Hns Hin. simpl in Hns.
    apply list_elem_of_In, in_map_iff in Hin as (n' & En & Hin). apply list_elem_of_In in Hin.
    rewrite Forall_forall in Hnew. specialize (Hnew _ Hin). lia.
  - apply Forall_forall. intros ns Hin Hnot. apply Hnot. by apply list_elem_of_In, in_map, list_elem_of_In.
Qed.

Definition tag_close (empty : bool) : list Z := if empty then lit "/>" else [62].

Lemma print_attr_head a : attr_ok a -> exists c t, print_attr a = c :: t /\ name_char c.
Proof using Hs.
  intros ((Hne & Hn & _) & _). unfold print_attr. destruct (xa_name a) as [|c n]; [done|].
  apply Forall_cons in Hn as [Hc _]. by exists c, (n ++ 61 :: quote_of a :: xa_value a ++ quote_of a :: xa_ws a).
Qed.

(** What follows an attribute is no blank. *)
Lemma attrs_tail_head attrs tl : Forall attr_ok attrs -> (exists c t, tl = c :: t /\ is_xmlws c = false) ->
  exists c t, print_attrs attrs ++ tl = c :: t /\ is_xmlws c = false.
Proof using Hs.
  intros H Ht. destruct H as [|a l Ha _]; [done|]. destruct (print_attr_head a Ha) as (c & t & E & Hc).
  exists c, (t ++ print_attrs l ++ tl). split; [|apply Hc]. unfold print_attrs. simpl. rewrite E. simpl.
  by rewrite <- app_assoc.
Qed.

Lemma drop_pos src a b : drop src T = a ++ b -> b <> [] -> (src + length a <= N)%nat.
Proof using Hs.
  intros E Hb. apply (f_equal length) in E. rewrite length_drop, length_app in E. unfold T in E.
  rewrite length_app in E. destruct b; [done|]. simpl in E. unfold N. lia.
Qed.

Lemma tag_attribs_at attrs : forall fuel x m src w ids empty rest,
  xp_mem x = T -> drop src T = w ++ print_attrs attrs ++ tag_close empty ++ rest -> ws_ok w ->
  Forall attr_ok attrs -> (N - src < fuel)%nat ->
  parse_tag_attribs true fuel x m src ids =
  Ok (Some ((src + length w + length (print_attrs attrs) + length (tag_close empty))%nat, empty),
      m ++ map heap_field (attribs_fields x attrs), attribs_scope ids x attrs, attribs_parser x attrs).
Proof using Hs.
  induction attrs as [|a attrs IH]; intros fuel x m src w ids empty rest Hm E Hw Hok Hf;
    (destruct fuel as [|fuel]; [lia|]); cbn [parse_tag_attribs]; rewrite Hm.
  - cbn [print_attrs map concat app] in E. pose proof (drop_at _ _ _ E) as E1.
    destruct empty; cbn [tag_close] in E, E1; change (lit "/>") with [47; 62] in *; cbn [app] in E, E1.
    + rewrite (scan_at _ _ _ _ _ E (ws_scan _ Hw) eq_refl), ok_bind, (mread_head _ _ _ E1), ok_bind. cbn [Z.eqb].
      rewrite (starts_at [47; 62] _ rest E1), ok_bind. simpl. rewrite app_nil_r. eq_lia.
    + rewrite (scan_at _ _ _ _ _ E (ws_scan _ Hw) eq_refl), ok_bind, (mread_head _ _ _ E1), ok_bind. cbn [Z.eqb].
      rewrite (starts_not 47 [62] _ _ _ E1), ok_bind by done. simpl. rewrite app_nil_r. eq_lia.
  - apply Forall_cons in Hok as [Ha Hok].
    destruct (print_attr_head a Ha) as (c & t & Ea & Hc).
    cbn [print_attrs map concat] in E. fold (print_attrs attrs) in E. rewrite <- app_assoc in E.
    pose proof (drop_at _ _ _ E) as E1.
    destruct (attrs_tail_head attrs (tag_close empty ++ rest) Hok) as (d & r & Et & Hd).
    { destruct empty; do 2 eexists; split; try reflexivity. }
    pose proof E as E0. rewrite Ea in E0. cbn [app] in E0.
    assert (drop (src + length w) T = c :: t ++ print_attrs attrs ++ tag_close empty ++ rest) as E2
      by (by rewrite E1, Ea).
    destruct Hc as (Hc0 & Hcw & _ & Hc62 & Hc47).
    rewrite (scan_at _ _ _ _ _ E0 (ws_scan _ Hw)) by (by rewrite Hcw). rewrite ok_bind.
    rewrite (mread_head _ _ _ E2), ok_bind, (proj2 (Z.eqb_neq c 0)) by lia.
    change (lit "/>") with [47; 62] at 1. rewrite (starts_not 47 [62] _ _ _ E2), ok_bind by done.
    rewrite (proj2 (Z.eqb_neq c 62)) by done.
    rewrite Et in E1. rewrite (attrib_at x m _ (Some ids) a d r Hm E1 Ha Hd), ok_bind.
    rewrite <- Et in E1. pose proof (drop_at _ _ _ E1) as E3.
    pose proof (drop_pos _ _ _ E1) as Hpos. rewrite Et in Hpos. specialize (Hpos ltac:(done)).
    assert (0 < length (print_attr a))%nat by (rewrite Ea; simpl; lia).
    unfold attrib_scope. cbn [ns_decl]. replace (default [] _) with (if declares_ns a then xp_addr x :: ids else ids)
      by (by destruct (declares_ns a)).
    change (attrib_parser (Some ids) x a) with (attrib_parser (Some []) x a).
    rewrite (IH fuel _ _ _ [] _ empty rest); [|by rewrite attrib_parser_mem|exact E3|constructor|done|lia].
    cbn [attribs_fields attribs_scope]. change (attrib_fields (Some ids) x a) with (attrib_fields (Some []) x a).
    unfold print_attrs. cbn [map concat]. rewrite map_app, <- app_assoc, length_app.
    match goal with |- Ok (Some (?a, _), _, _, _) = Ok (Some (?b, _), _, _, _) => replace a with b by (simpl; lia) end.
    done.
Qed.

(** ** Instructions *)

Lemma pi_attribs_at attrs : forall fuel x m src w rest,
  xp_mem x = T -> drop src T = w ++ print_attrs attrs ++ lit "?>" ++ rest -> ws_ok w ->
  Forall attr_ok attrs -> Forall (fun a => head (xa_name a) <> Some 63) attrs -> (N - src < fuel)%nat ->
  parse_pi_attribs true fuel x m src =
  Ok (Some (src + length w + length (print_attrs attrs) + 2)%nat,
      m ++ map heap_field (map (attr_field (env_of (xp_namespaces x))) attrs), x).
Proof using Hs.
  change (lit "?>") with [63; 62].
  induction attrs as [|a attrs IH]; intros fuel x m src w rest Hm E Hw Hok H63 Hf;
    (destruct fuel as [|fuel]; [lia|]); cbn [parse_pi_attribs]; rewrite Hm.
  - cbn [print_attrs map concat app] in E. pose proof (drop_at _ _ _ E) as E1.
    rewrite (scan_at _ _ _ _ _ E (ws_scan _ Hw) eq_refl), ok_bind, (mread_head _ _ _ E1), ok_bind. cbn [Z.eqb].
    change (lit "?>") with [63; 62]. rewrite (starts_at [63; 62] _ rest E1), ok_bind. simpl. rewrite app_nil_r.
    match goal with |- Ok (Some ?a, _, _) = Ok (Some ?b, _, _) => replace a with b by lia end. done.
  - apply Forall_cons in Hok as [Ha Hok]. apply Forall_cons in H63 as [Ha63 H63].
    destruct (print_attr_head a Ha) as (c & t & Ea & Hc).
    cbn [print_attrs map concat] in E. fold (print_attrs attrs) in E. rewrite <- app_assoc in E.
    pose proof (drop_at _ _ _ E) as E1.
    destruct (attrs_tail_head attrs ([63; 62] ++ rest) Hok) as (d & r & Et & Hd); [by do 2 eexists|].
    pose proof E as E0. rewrite Ea in E0. cbn [app] in E0.
    assert (drop (src + length w) T = c :: t ++ print_attrs attrs ++ [63; 62] ++ rest) as E2 by (by rewrite E1, Ea).
    assert (c <> 63) as Hc63.
    { intros ->. unfold print_attr in Ea. destruct Ha as ((Hne & _) & _). destruct (xa_name a); [done|].
      injection Ea as -> _. by apply Ha63. }
    destruct Hc as (Hc0 & Hcw & _ & _ & _).
    rewrite (scan_at _ _ _ _ _ E0 (ws_scan _ Hw)) by (by rewrite Hcw). rewrite ok_bind.
    rewrite (mread_head _ _ _ E2), ok_bind, (proj2 (Z.eqb_neq c 0)) by lia.
    change (lit "?>") with [63; 62] at 1. rewrite (starts_not 63 [62] _ _ _ E2), ok_bind by done.
    rewrite Et in E1. rewrite (attrib_at x m _ None a d r Hm E1 Ha Hd), ok_bind. rewrite <- Et in E1.
    pose proof (drop_at _ _ _ E1) as E3.
    pose proof (drop_pos _ _ _ E1) as Hpos. rewrite Et in Hpos. specialize (Hpos ltac:(done)).
    assert (0 < length (print_attr a))%nat by (rewrite Ea; simpl; lia).
    change (attrib_parser None x a) with x. change (attrib_fields None x a) with [attr_field (env_of (xp_namespaces x)) a].
    rewrite (IH fuel x _ _ [] rest); [|done|exact E3|constructor|done|done|lia].
    unfold print_attrs. cbn [map concat]. rewrite <- app_assoc, length_app.
    match goal with |- Ok (Some ?a, _, _) = Ok (Some ?b, _, _) => replace a with b by (simpl; lia) end. done.
Qed.

(** The field of an instruction, which needs attributes. *)
Definition pi_fields (env : nsenv) (name : list Z) (attrs : list xattr) : list hfield :=
  match attrs with
  | [] => []
  | _ => [HField (Some name) false None HMap (Some (Msg false (map (attr_field env) attrs)))]
  end.

Lemma pi_at x parent name ws attrs rest src : xp_mem x = T -> rest <> [] ->
  drop src T = name ++ ws ++ print_attrs attrs ++ lit "?>" ++ rest -> pi_ok name ws attrs ->
  htsmsg_xml_parse_pi true x parent src =
  Ok (Some (src + (length name + (length ws + (length (print_attrs attrs) + 2))))%nat,
      (fun fs => fs ++ map heap_field (pi_fields (env_of (xp_namespaces x)) name attrs)) <$> parent, x).
Proof using Hs.
  intros Hm Hrest E (Hname & Hscan & Hlen & Hws & Hne & Hattrs & Ha63).
  assert (exists d r, ws ++ print_attrs attrs ++ lit "?>" ++ rest = d :: r /\ d <> 0 /\
    (d =? 0) || is_xmlws d || (d =? 63) = true) as (e & r & Ee & He0 & He).
  { destruct Hws as [|e ws He Hws]; [destruct attrs; [by do 2 eexists|by destruct (Hne ltac:(done))]|].
    do 2 eexists. split; [reflexivity|]. split; [by intros ->|]. by rewrite He, orb_true_r. }
  pose proof E as E3. rewrite Ee in E3. pose proof (drop_at _ _ _ E) as E4.
  pose proof (drop_pos _ name _ E) as Hpos. rewrite Ee in Hpos. specialize (Hpos ltac:(done)).
  unfold htsmsg_xml_parse_pi. rewrite Hm.
  rewrite (scan_at _ _ _ _ _ E3 Hscan He), ok_bind.
  rewrite (mread_at_drop _ _ _ _ _ E3 eq_refl), ok_bind, (proj2 (Z.eqb_neq e 0) He0).
  assert (1 <= Z.of_nat (length name)) by (destruct name; [done|simpl; lia]).
  rewrite ptrdiff_at, (proj2 (Z.ltb_ge _ 1)), (proj2 (Z.ltb_ge 1024 _)) by lia. cbn [orb]. rewrite Nat2Z.id.
  rewrite (slice_at _ _ _ _ _ E3 eq_refl), ok_bind.
  rewrite (pi_attribs_at attrs _ x [] _ ws rest Hm E4 Hws Hattrs Ha63)
    by (unfold T; rewrite length_app; simpl; unfold N in *; lia).
  rewrite ok_bind. cbn [app].
  match goal with |- Ok (Some ?a, _, _) = Ok (Some ?b, _, _) => replace a with b by lia end.
  destruct attrs, parent; simpl; rewrite ?app_nil_r; done.
Qed.

Lemma print_pi_app name ws attrs rest : print_pi name ws attrs ++ rest =
  60 :: 63 :: name ++ ws ++ print_attrs attrs ++ lit "?>" ++ rest.
Proof using Hs. unfold print_pi. by rewrite <- !app_assoc. Qed.

Lemma print_pi_length name ws attrs : length (print_pi name ws attrs) =
  (2 + (length name + (length ws + (length (print_attrs attrs) + 2))))%nat.
Proof using Hs. unfold print_pi. by rewrite !length_app. Qed.

(** ** Text *)

(** A segment of the parser and the piece of text it stands for. *)
Definition seg_at (latin1 : bool) (cc : cdata_content) (g : seg) : Prop :=
  match cc, g with
  | CcSrc l a (Some e), SText b =>
      l = latin1 /\ (a + length b = e)%nat /\ b <> [] /\
      exists c rest, drop a T = b ++ c :: rest /\ c <> 10
  | CcUni b, SRef b' => b = b' /\ b <> [] /\ (0 ∉ b)
  | _, _ => False
  end.

Lemma seg_at_bytes latin1 cc g : seg_at latin1 cc g -> cc_bytes T cc = Ok (seg_bytes_of g).
Proof using Hs.
  destruct cc as [l a [e|]|b], g as [t|t]; try done.
  - intros (_ & <- & _ & c & rest & E & _). cbn [cc_bytes seg_bytes_of].
    rewrite (proj2 (Nat.leb_le a _)) by lia. apply (slice_at a t c rest); [done|lia].
  - by intros (-> & _).
Qed.

Lemma seg_at_readable latin1 cc g : seg_at latin1 cc g -> readable s T cc.
Proof using Hs.
  intros H. pose proof (seg_at_bytes _ _ _ H) as E. exists (seg_bytes_of g). split; [done|]. split; [done|].
  destruct cc as [l a [e|]|b], g as [t|t]; try done; cbn [seg_bytes_of cc_len].
  - destruct H as (_ & <- & _ & c & rest & Ed & _). replace (a + length t - a)%nat with (length t) by lia.
    split; [done|]. split; [|fold T; by rewrite Ed, take_app_length].
    intros H0. destruct (slice_text s Hs a (length t)) as (_ & Hz & _).
    + apply (drop_pos _ _ _ Ed). done.
    + apply Hz. fold T. by rewrite Ed, take_app_length.
  - by destruct H as (-> & _ & ?).
Qed.

Lemma seg_at_encode latin1 cc g : seg_at latin1 cc g -> cc_encode T cc = Ok (seg_text latin1 g).
Proof using Hs.
  intros H. unfold cc_encode. rewrite (seg_at_bytes _ _ _ H), ok_bind.
  destruct cc as [l a [e|]|b], g as [t|t]; try done. destruct H as (-> & _). by destruct latin1.
Qed.

Definition segs_at (latin1 : bool) : list cdata_content -> list seg -> Prop := Forall2 (seg_at latin1).

Lemma trim_at latin1 ccq l : segs_at latin1 ccq l ->
  exists q, trim_ws T ccq = Ok q /\ segs_at latin1 q (drop_blank l) /\ (ccq_len q <= ccq_len ccq)%nat.
Proof using Hs.
  induction 1 as [|cc g ccq l H Hl IH]; [by exists []; split; [|split; [constructor|]]|]. cbn [trim_ws drop_blank].
  unfold xml_is_cc_ws. rewrite (seg_at_bytes _ _ _ H), !ok_bind. unfold seg_blank.
  destruct (forallb _ _); [|by exists (cc :: ccq); split; [|split; [constructor|]]].
  destruct IH as (q & E & Hq & Hn). exists q. split; [done|]. split; [done|]. unfold ccq_len in *. simpl. lia.
Qed.

Lemma trims_at latin1 ccq l : segs_at latin1 ccq l ->
  exists q1 q2, trim_ws T ccq = Ok q1 /\ trim_ws T (reverse q1) = Ok q2 /\ segs_at latin1 (reverse q2) (trim_segs l) /\
    (ccq_len (reverse q2) <= ccq_len ccq)%nat.
Proof using Hs.
  intros H. destruct (trim_at _ _ _ H) as (q1 & E1 & H1 & Hn1). apply Forall2_reverse in H1.
  destruct (trim_at _ _ _ H1) as (q2 & E2 & H2 & Hn2). exists q1, q2. split; [done|]. split; [done|].
  split; [by apply Forall2_reverse|]. unfold ccq_len in *. rewrite !sum_list_with_reverse in *. lia.
Qed.

Lemma concat_at latin1 ccq l : segs_at latin1 ccq l -> cd_concat T ccq = Ok (concat (map (seg_text latin1) l)).
Proof using Hs.
  induction 1 as [|cc g ccq l H _ IH]; [done|]. simpl. by rewrite (seg_at_encode _ _ _ H), ok_bind, IH.
Qed.

Lemma seg_text_nonempty latin1 cc g : seg_at latin1 cc g -> (1 <= length (seg_text latin1 g))%nat.
Proof using Hs.
  destruct cc as [l a [e|]|b], g as [t|t]; try done.
  - intros (_ & _ & Hne & c & rest & E & _). destruct latin1; simpl; [|destruct t; [done|simpl; lia]].
    assert (0 ∉ t) as H0.
    { destruct (slice_text s Hs a (length t)) as (_ & Hz & _); [by apply (drop_pos _ _ _ E)|].
      fold T in Hz. by rewrite E, take_app_length in Hz. }
    pose proof (text_bytes s Hs a (length t)) as Hb. fold T in Hb. rewrite E, take_app_length in Hb.
    pose proof (encode_latin s Hs t H0 Hb). destruct t; [done|]. simpl length in *. lia.
  - intros (-> & Hne & _). simpl. destruct t; [done|simpl; lia].
Qed.

Lemma body_at latin1 ccq l : segs_at latin1 ccq l -> (forall r, l <> [SRef r]) ->
  2 * Z.of_nat (ccq_len ccq) <= int_max ->
  cd_body true T ccq =
  Ok (match l with [] => None | _ => Some (XHeap (concat (map (seg_text latin1) l))) end, T).
Proof using Hs.
  intros H Href Hmax. destruct (measure_spec s Hs T ccq 0 0) as (bs & k & E & _ & Ec & _ & _ & Hk & H1); [|lia|lia|].
  { clear Href Hmax. induction H as [|cc g ccq l Hc _ IH]; constructor; [by eapply seg_at_readable|done]. }
  pose proof (concat_at _ _ _ H) as Ec'. rewrite Ec in Ec'. injection Ec' as ->.
  unfold cd_body. rewrite E, Ec, !ok_bind, !Z.add_0_l, Z.leb_refl.
  destruct H as [|cc g ccq l Hg Hl]; [done|]. pose proof (seg_text_nonempty _ _ _ Hg) as Hne.
  cbn [map concat]. rewrite length_app. destruct (Z.eqb_spec k 1) as [->|Hk1]; cbn [andb].
  - destruct Hl as [|]; [|simpl in Hk; lia]. rewrite (proj2 (Z.ltb_lt 0 _)) by lia.
    destruct cc as [la a [e|]|b], g as [t|t]; try done; [|by destruct (Href t)].
    destruct Hg as (_ & He & _ & c & rest & Ed & Hc). cbn [cc_end_byte].
    rewrite (mread_at_drop _ _ _ _ e Ed) by lia. rewrite ok_bind, (proj2 (Z.eqb_neq c 10)) by done. done.
  - assert (1 < length (seg_text latin1 g) + length (concat (map (seg_text latin1) l)))%nat as Hlen.
    { destruct Hl as [|cc' g' ccq l Hg' _].
      - destruct (H1 cc eq_refl) as [_ [|H2]]; [done|]. cbn [map concat] in H2. rewrite length_app in H2. exact H2.
      - pose proof (seg_text_nonempty _ _ _ Hg'). cbn [map concat]. rewrite length_app. lia. }
    rewrite (proj2 (Z.ltb_lt 1 _)) by lia. done.
Qed.

(** ** The content loop *)

(** The loop gets from one state to another. *)
Definition reaches (raw : bool) (x : xmlparser) (ccq : list cdata_content) (cc : option nat)
    (tags : list xfield) (src : nat) (x' : xmlparser) (ccq' : list cdata_content) (cc' : option nat)
    (tags' : list xfield) (src' : nat) : Prop :=
  forall fuel, (N - src < fuel)%nat -> exists fuel', (N - src' < fuel')%nat /\
    cd0_loop true fuel x ccq cc tags src raw = cd0_loop true fuel' x' ccq' cc' tags' src' raw.

Lemma reaches_refl raw x ccq cc tags src : reaches raw x ccq cc tags src x ccq cc tags src.
Proof using Hs. intros fuel Hf. by exists fuel. Qed.

Lemma reaches_trans raw x1 q1 c1 t1 s1 x2 q2 c2 t2 s2 x3 q3 c3 t3 s3 :
  reaches raw x1 q1 c1 t1 s1 x2 q2 c2 t2 s2 -> reaches raw x2 q2 c2 t2 s2 x3 q3 c3 t3 s3 ->
  reaches raw x1 q1 c1 t1 s1 x3 q3 c3 t3 s3.
Proof using Hs.
  intros H1 H2 fuel Hf. destruct (H1 fuel Hf) as (f1 & Hf1 & ->). by apply H2.
Qed.

(** A byte that is text. *)
Definition plain (raw : bool) (src : nat) : Prop :=
  exists c, T !! src = Some c /\ c <> 0 /\
    (if raw then starts (lit "]]>") T src = Ok false else c <> 60 /\ c <> 38).

Lemma plain_step raw fuel x ccq cc tags src c : T !! src = Some c -> plain raw src -> xp_mem x = T ->
  cd0_loop true (S fuel) x ccq cc tags src raw =
  match cc with
  | None =>
      if c <? 32 then cd0_loop true fuel x ccq None tags (S src) raw
      else cd0_loop true fuel x (ccq ++ [CcSrc (xp_latin1 x) src None]) (Some (length ccq)) tags (S src) raw
  | Some _ => cd0_loop true fuel x ccq cc tags (S src) raw
  end.
Proof using Hs.
  intros Ec (c' & E' & H0 & Hr) Hm. rewrite Ec in E'. injection E' as <-. cbn [cd0_loop]. rewrite Hm.
  rewrite (mread_lookup _ _ _ Ec), ok_bind, (proj2 (Z.eqb_neq c 0)) by done. destruct raw.
  - rewrite Hr, ok_bind. by rewrite !andb_false_r.
  - destruct Hr as [H60 H38]. rewrite ok_bind, (proj2 (Z.eqb_neq c 60)), (proj2 (Z.eqb_neq c 38)) by done. done.
Qed.

Lemma plain_bound raw src : plain raw src -> (src < N)%nat.
Proof using Hs. intros (c & E & H0 & _). by apply (text_nonzero s Hs src c). Qed.

Lemma run_open raw x ccq k tags n : forall src, (forall i, (i < n)%nat -> plain raw (src + i)) -> xp_mem x = T ->
  reaches raw x ccq (Some k) tags src x ccq (Some k) tags (src + n).
Proof using Hs.
  induction n as [|n IH]; intros src Hp Hm; [rewrite Nat.add_0_r; apply reaches_refl|].
  pose proof (Hp O ltac:(lia)) as H0. rewrite Nat.add_0_r in H0. pose proof (plain_bound _ _ H0).
  destruct H0 as (c & Ec & Hc). intros [|fuel] Hf; [lia|].
  rewrite (plain_step _ _ _ _ _ _ _ c Ec) by (done || by exists c).
  destruct (IH (S src)) with (fuel := fuel) as (f' & Hf' & ->); [|done|lia|].
  - intros i Hi. replace (S src + i)%nat with (src + S i)%nat by lia. apply Hp. lia.
  - exists f'. split; [lia|]. by replace (S src + n)%nat with (src + S n)%nat by lia.
Qed.

Lemma text_run raw x ccq tags c rest t : forall src, xp_mem x = T -> drop src T = t ++ c :: rest -> c <> 10 ->
  (forall i, (i < length t)%nat -> plain raw (src + i)) ->
  exists ccq' cc' new, reaches raw x ccq None tags src x ccq' cc' tags (src + length t) /\
    cc_close ccq' cc' (src + length t) = ccq ++ new /\ segs_at (xp_latin1 x) new (text_segs t) /\
    (ccq_len new <= length t)%nat.
Proof using Hs.
  induction t as [|d t IH]; intros src Hm E Hc Hp.
  { exists ccq, None, []. rewrite Nat.add_0_r, app_nil_r. repeat split; [apply reaches_refl|constructor|done]. }
  pose proof (Hp O ltac:(simpl; lia)) as H0. rewrite Nat.add_0_r in H0. pose proof (plain_bound _ _ H0).
  assert (T !! src = Some d) as Ed.
  { rewrite <- (Nat.add_0_r src), <- lookup_drop, E. done. }
  assert (forall i, (i < length t)%nat -> plain raw (S src + i)) as Hp'.
  { intros i Hi. replace (S src + i)%nat with (src + S i)%nat by lia. apply Hp. simpl. lia. }
  assert (drop (S src) T = t ++ c :: rest) as E' by (by rewrite <- Nat.add_1_r, <- drop_drop, E).
  unfold text_segs. cbn [skip_ctrl]. replace (src + length (d :: t))%nat with (S src + length t)%nat by (simpl; lia).
  destruct (d <? 32) eqn:H32.
  - destruct (IH (S src) Hm E' Hc Hp') as (q & k & new & Hr & Hcl & Hn & Hl).
    exists q, k, new. split; [|split; [done|split; [done|simpl; lia]]].
    intros [|fuel] Hf; [lia|]. rewrite (plain_step _ _ _ _ _ _ _ d Ed), H32 by done.
    destruct (Hr fuel) as (f' & Hf' & ->); [lia|]. by exists f'.
  - exists (ccq ++ [CcSrc (xp_latin1 x) src None]), (Some (length ccq)), [CcSrc (xp_latin1 x) src (Some (S src + length t)%nat)].
    split; [|split; [by apply (close_last s Hs)|split]].
    + intros [|fuel] Hf; [lia|]. rewrite (plain_step _ _ _ _ _ _ _ d Ed), H32 by done.
      destruct (run_open raw x (ccq ++ [CcSrc (xp_latin1 x) src None]) (length ccq) tags (length t) (S src) Hp' Hm fuel)
        as (f' & Hf' & ->); [lia|]. by exists f'.
    + repeat constructor; [simpl; lia|done|]. exists c, rest. by rewrite E.
    + unfold ccq_len. simpl. lia.
Qed.

(** ** Markup without content *)

(** The parts of the parser that a node leaves as they were. *)
Definition kept (x x' : xmlparser) : Prop :=
  xp_mem x' = xp_mem x /\ xp_latin1 x' = xp_latin1 x /\ xp_namespaces x' = xp_namespaces x /\
  (xp_addr x <= xp_addr x')%nat.

Lemma kept_refl x : kept x x.
Proof using Hs. by repeat split. Qed.

Lemma kept_trans x y z : kept x y -> kept y z -> kept x z.
Proof using Hs.
  intros (A1 & A2 & A3 & A4) (B1 & B2 & B3 & B4). unfold kept. rewrite B1, B2, B3. split_and!; try done. lia.
Qed.

Lemma kept_below x x' : kept x x' -> addrs_below x -> addrs_below x'.
Proof using Hs.
  intros (_ & _ & E & H) Hx. unfold addrs_below in *. rewrite E. eapply Forall_impl; [exact Hx|]. simpl. lia.
Qed.

Definition node_reaches (latin1 : bool) (d : xnode) : Prop :=
  forall env x ccq cc tags src rest, node_ok latin1 env d -> xp_mem x = T -> xp_latin1 x = latin1 ->
    env_of (xp_namespaces x) = env -> addrs_below x -> drop src T = print_node d ++ rest -> rest <> [] ->
    exists x' new,
      reaches false x ccq cc tags src x' (cc_close ccq cc src ++ new) None
        (tags ++ map heap_field (node_spec latin1 env d).2) (src + length (print_node d)) /\
      kept x x' /\ segs_at latin1 new (node_spec latin1 env d).1 /\
      (ccq_len new <= 3 * length (print_node d))%nat.

(** The same for the fuel the loop has. *)
Definition gets (fuel : nat) (x : xmlparser) (ccq : list cdata_content) (cc : option nat)
    (tags : list xfield) (src : nat) (x' : xmlparser) (ccq' : list cdata_content) (cc' : option nat)
    (tags' : list xfield) (src' : nat) : Prop :=
  exists fuel', (N - src' < fuel')%nat /\
    cd0_loop true fuel x ccq cc tags src false = cd0_loop true fuel' x' ccq' cc' tags' src' false.

Definition node_at (latin1 : bool) (d : xnode) : Prop :=
  forall env x ccq cc tags src rest fuel, node_ok latin1 env d -> xp_mem x = T -> xp_latin1 x = latin1 ->
    env_of (xp_namespaces x) = env -> addrs_below x -> drop src T = print_node d ++ rest -> rest <> [] ->
    (N - src < fuel)%nat ->
    exists x' new,
      gets fuel x ccq cc tags src x' (cc_close ccq cc src ++ new) None
        (tags ++ map heap_field (node_spec latin1 env d).2) (src + length (print_node d)) /\
      kept x x' /\ segs_at latin1 new (node_spec latin1 env d).1 /\
      (ccq_len new <= 3 * length (print_node d))%nat.

Lemma node_reaches_at latin1 d : node_reaches latin1 d -> node_at latin1 d.
Proof using Hs.
  intros H env x ccq cc tags src rest fuel Hok Hm Hlat Henv Hx E Hrest Hf.
  destruct (H env x ccq cc tags src rest Hok Hm Hlat Henv Hx E Hrest) as (x' & new & Hr & ?).
  exists x', new. split; [by apply Hr|done].
Qed.

Lemma gets_reaches fuel x1 q1 c1 t1 s1 x2 q2 c2 t2 s2 x3 q3 c3 t3 s3 :
  gets fuel x1 q1 c1 t1 s1 x2 q2 c2 t2 s2 -> reaches false x2 q2 c2 t2 s2 x3 q3 c3 t3 s3 ->
  gets fuel x1 q1 c1 t1 s1 x3 q3 c3 t3 s3.
Proof using Hs. intros (f & Hf & E) H. destruct (H f Hf) as (f' & Hf' & E'). exists f'. by rewrite E. Qed.

Lemma gets_trans fuel x1 q1 c1 t1 s1 x2 q2 c2 t2 s2 f2 x3 q3 c3 t3 s3 :
  cd0_loop true fuel x1 q1 c1 t1 s1 false = cd0_loop true f2 x2 q2 c2 t2 s2 false ->
  gets f2 x2 q2 c2 t2 s2 x3 q3 c3 t3 s3 -> gets fuel x1 q1 c1 t1 s1 x3 q3 c3 t3 s3.
Proof using Hs. intros E (f & Hf & E'). exists f. by rewrite E. Qed.

Lemma markup_step fuel x ccq cc tags src b : xp_mem x = T -> drop src T = 60 :: b ->
  cd0_loop true (S fuel) x ccq cc tags src false =
  cd0_markup true (cd0_loop true fuel) x (cc_close ccq cc src) tags (S src).
Proof using Hs. intros Hm E. cbn [cd0_loop]. rewrite Hm, (mread_head _ _ _ E), !ok_bind. done. Qed.

Lemma drop_next src c b : drop src T = c :: b -> drop (S src) T = b.
Proof using Hs. intros E. by rewrite <- Nat.add_1_r, <- drop_drop, E. Qed.

Lemma free_of_spec t u i rest : free_of t u = true -> (i < length u)%nat ->
  mstarts t (drop i u ++ t ++ rest) = Ok false.
Proof using Hs.
  revert i. induction u as [|c u IH]; intros i Hf Hi; [simpl in Hi; lia|]. simpl in Hf.
  apply andb_true_iff in Hf as [Hc Hf]. destruct i as [|i]; [|apply (IH i); [done|simpl in Hi; lia]].
  cbn [drop]. rewrite app_assoc, mstarts_prefix by (rewrite length_app; lia). apply negb_true_iff in Hc. by f_equal.
Qed.

Lemma text_lookup src u b i c : drop src T = u ++ b -> u !! i = Some c -> T !! (src + i)%nat = Some c.
Proof using Hs. intros E Hi. rewrite <- lookup_drop, E. by apply lookup_app_l_Some. Qed.

Lemma cdata_at latin1 u : node_reaches latin1 (XCdata u).
Proof using Hs.
  intros env x ccq cc tags src rest Hok Hm Hlat _ _ E Hrest. destruct (cdata_ok_inv _ _ _ Hok) as [Hu Hf].
  cbn [print_node] in E. rewrite <- !app_assoc in E. set (a := (src + 9)%nat).
  change (lit "<![CDATA[") with (60 :: 33 :: lit "[CDATA[") in E. cbn [app] in E.
  pose proof (drop_next _ _ _ E) as E1. pose proof (drop_next _ _ _ E1) as E2.
  assert (drop a T = u ++ lit "]]>" ++ rest) as Ea.
  { unfold a. replace (src + 9)%nat with (S (S src) + length (lit "[CDATA["))%nat by (change (length (lit "[CDATA[")) with 7%nat; lia).
    by apply (drop_at _ (lit "[CDATA[")). }
  change (lit "]]>") with [93; 93; 62] in Ea. cbn [app] in Ea.
  assert (forall i, (i < length u)%nat -> plain true (a + i)) as Hp.
  { intros i Hi. destruct (lookup_lt_is_Some_2 u i Hi) as [c Ec]. exists c.
    split; [by apply (text_lookup _ _ _ _ _ Ea)|]. unfold cstring_ok in Hu. rewrite Forall_forall in Hu.
    pose proof (Hu c (list_elem_of_lookup_2 _ _ _ Ec)). split; [lia|]. unfold starts.
    rewrite <- drop_drop, Ea, drop_app_le by lia. by apply (free_of_spec (lit "]]>")). }
  destruct (text_run true x (cc_close ccq cc src) tags 93 (93 :: 62 :: rest) u a Hm Ea ltac:(done) Hp)
    as (q & k & new & Hr & Hcl & Hn & Hl).
  exists x, new. rewrite Hlat in Hn. split; [|split; [apply kept_refl|split; [done|]]].
  2:{ cbn [print_node]. rewrite !length_app. lia. }
  pose proof (drop_at _ _ _ Ea) as Eb. pose proof (drop_pos _ [] _ Eb) as Hpos. simpl in Hpos. specialize (Hpos ltac:(done)).
  intros [|fuel] Hfu; [lia|]. rewrite (markup_step _ _ _ _ _ _ _ Hm E).
  unfold cd0_markup. rewrite Hm, (mread_head _ _ _ E1), ok_bind. cbn [Z.eqb Pos.eqb].
  change (lit "--") with [45; 45]. rewrite (starts_not 45 [45] _ _ _ E2), ok_bind by done.
  rewrite (starts_at _ _ _ E2), ok_bind. replace (S (S src) + 7)%nat with a by lia.
  destruct (Hr fuel) as ([|f'] & Hf' & ->); [lia|lia|]. cbn [cd0_loop]. rewrite Hm, (mread_head _ _ _ Eb), ok_bind.
  cbn [Z.eqb]. change (lit "]]>") with [93; 93; 62]. rewrite (starts_at [93; 93; 62] _ rest Eb), !ok_bind, Hcl.
  cbn [cd0_continue node_spec snd map]. rewrite app_nil_r. exists fuel. cbn [print_node]. rewrite !length_app.
  change (length (lit "<![CDATA[")) with 9%nat. change (length (lit "]]>")) with 3%nat.
  replace (a + length u + 3)%nat with (src + (9 + (length u + 3)))%nat by lia. split; [lia|done].
Qed.

Lemma comment_at_end u : forall src rest, drop src T = u ++ lit "-->" ++ rest -> cstring_ok u ->
  free_of (lit "-->") u = true -> comment_end (drop src T) src = Ok (Some (src + length u + 3)%nat).
Proof using Hs.
  induction u as [|c u IH]; intros src rest E Hu Hf.
  - rewrite E. change (lit "-->") with [45; 45; 62]. simpl. by rewrite Nat.add_0_r.
  - pose proof (free_of_spec _ _ O rest Hf ltac:(simpl; lia)) as H0. cbn [drop] in H0. rewrite <- E in H0.
    apply Forall_cons in Hu as [Hc Hu]. simpl in Hf. apply andb_true_iff in Hf as [_ Hf].
    cbn [app] in E. pose proof (drop_next _ _ _ E) as E'.
    specialize (IH (S src) rest E' Hu Hf). rewrite E' in IH.
    rewrite E in H0 |- *. cbn [comment_end]. rewrite H0, ok_bind, (proj2 (Z.eqb_neq c 0)), IH by lia.
    simpl length. do 2 f_equal. lia.
Qed.

Lemma comment_at latin1 u : node_reaches latin1 (XComment u).
Proof using Hs.
  intros env x ccq cc tags src rest Hok Hm Hlat _ _ E Hrest. destruct (comment_ok_inv _ _ _ Hok) as [Hu Hf].
  cbn [print_node] in E. rewrite <- !app_assoc in E.
  change (lit "<!--") with (60 :: 33 :: lit "--") in E. cbn [app] in E.
  pose proof (drop_next _ _ _ E) as E1. pose proof (drop_next _ _ _ E1) as E2.
  pose proof (drop_at _ _ _ E2) as E3. change (length (lit "--")) with 2%nat in E3.
  exists x, []. split; [|split; [apply kept_refl|split; [constructor|simpl; lia]]].
  intros [|fuel] Hfu; [lia|]. rewrite (markup_step _ _ _ _ _ _ _ Hm E).
  unfold cd0_markup. rewrite Hm, (mread_head _ _ _ E1), ok_bind. cbn [Z.eqb Pos.eqb].
  rewrite (starts_at _ _ _ E2), ok_bind. unfold xml_parse_comment.
  rewrite Hm, (comment_at_end u _ _ E3 Hu Hf), !ok_bind. cbn [cd0_continue node_spec snd map]. rewrite !app_nil_r.
  exists fuel. cbn [print_node]. rewrite !length_app.
  change (length (lit "<!--")) with 4%nat. change (length (lit "-->")) with 3%nat.
  replace (S (S src) + 2 + length u + 3)%nat with (src + (4 + (length u + 3)))%nat by lia. split; [|done].
  pose proof (drop_pos src [60] (33 :: lit "--" ++ u ++ lit "-->" ++ rest) E ltac:(done)). simpl in *. lia.
Qed.

Lemma pi_node_at latin1 name ws attrs : node_reaches latin1 (XPi name ws attrs).
Proof using Hs.
  intros env x ccq cc tags src rest Hok%pi_ok_inv Hm Hlat _ _ E Hrest.
  cbn [print_node] in E. rewrite print_pi_app in E.
  pose proof (drop_next _ _ _ E) as E1. pose proof (drop_next _ _ _ E1) as E2.
  exists x, []. split; [|split; [apply kept_refl|split; [constructor|simpl; lia]]].
  intros [|fuel] Hfu; [lia|]. rewrite (markup_step _ _ _ _ _ _ _ Hm E).
  unfold cd0_markup. rewrite Hm, (mread_head _ _ _ E1), ok_bind. cbn [Z.eqb Pos.eqb].
  rewrite (pi_at x None name ws attrs rest _ Hm Hrest E2 Hok), ok_bind.
  cbn [cd0_continue node_spec snd map]. rewrite !app_nil_r.
  exists fuel. cbn [print_node]. rewrite print_pi_length.
  match goal with |- _ /\ cd0_loop _ _ _ _ _ _ ?a _ = cd0_loop _ _ _ _ _ _ ?b _ => replace a with b by lia end.
  split; [|done]. pose proof (drop_pos src [60] _ E ltac:(done)). simpl in *. lia.
Qed.

Lemma reference_step fuel x ccq cc tags src b : xp_mem x = T -> drop src T = 38 :: b ->
  cd0_loop true (S fuel) x ccq cc tags src false =
  cd0_reference (cd0_loop true fuel) x (cc_close ccq cc src) cc tags (S src).
Proof using Hs. intros Hm E. cbn [cd0_loop]. rewrite Hm, (mread_head _ _ _ E), !ok_bind. done. Qed.

Lemma digits_at ds : forall src v rest, Forall (fun c => 48 <= c <= 57) ds -> 0 <= v ->
  (forall n, (n <= length ds)%nat -> 10 * dec_fold v (take n ds) + 57 <= int_max) ->
  char_ref_digits false (ds ++ 59 :: rest) src v = Ok (dec_fold v ds, (src + length ds + 1)%nat).
Proof using Hs.
  induction ds as [|d ds IH]; intros src v rest Hd Hv Hmax.
  { simpl. do 2 f_equal. lia. }
  apply Forall_cons in Hd as [Hd Hds]. cbn [app char_ref_digits]. rewrite (proj2 (is_digit_spec d)) by done.
  pose proof (Hmax O ltac:(lia)) as H0. change (dec_fold v (take 0 (d :: ds))) with v in H0.
  rewrite chk_int_Ok, ok_bind by ilia. rewrite chk_int_Ok, ok_bind by ilia.
  rewrite IH; [|done|lia|].
  - simpl. do 2 f_equal. lia.
  - intros n Hn. apply (Hmax (S n)). simpl. lia.
Qed.

Lemma dec_fold_mono ds v n : Forall (fun c => 48 <= c <= 57) ds -> 0 <= v ->
  0 <= dec_fold v (take n ds) <= dec_fold v ds.
Proof using Hs.
  revert v n. induction ds as [|d ds IH]; intros v n Hd Hv; [rewrite take_nil; change (dec_fold v []) with v; lia|].
  apply Forall_cons in Hd as [Hd Hds]. destruct n as [|n].
  - change (dec_fold v (take 0 (d :: ds))) with v. change (dec_fold v (d :: ds)) with (dec_fold (v * 10 + d - 48) ds).
    specialize (IH (v * 10 + d - 48) O Hds ltac:(lia)). change (dec_fold _ (take 0 ds)) with (v * 10 + d - 48) in IH. lia.
  - apply (IH (v * 10 + d - 48) n Hds). lia.
Qed.

Lemma put_some v : cp_ok v -> utf8_put v <> [].
Proof using Hs.
  intros (Hc & H1 & H2 & H3). unfold utf8_put.
  rewrite !(proj2 (Z.eqb_neq v _)) by done. destruct ((55296 <=? v) && (v <? 57344)) eqn:Hsur; [zbool; lia|].
  cbn [orb]. repeat case_match; done.
Qed.

(** The piece of text of a reference. *)
Lemma reference_segs latin1 v : 0 < v -> utf8_put v <> [] ->
  segs_at latin1 [CcUni (utf8_put v)] [SRef (utf8_put v)].
Proof using Hs. intros Hv Hne. repeat constructor; [done|by apply (put_nonzero s Hs)]. Qed.

Lemma hex_value_range c : is_hex c = true -> 0 <= hex_value c < 16 /\ 48 <= c <= 102.
Proof using Hs.
  unfold is_hex, hex_value. destruct (is_digit c) eqn:Hd; [apply is_digit_spec in Hd; intros _; lia|].
  cbn [orb]. intros H. destruct (Z.leb_spec 97 c); zbool; lia.
Qed.

Lemma hex_fold_mono ds v n : Forall (fun c => is_hex c = true) ds -> 0 <= v ->
  0 <= hex_fold v (take n ds) <= hex_fold v ds.
Proof using Hs.
  revert v n. induction ds as [|d ds IH]; intros v n Hd Hv; [rewrite take_nil; change (hex_fold v []) with v; lia|].
  apply Forall_cons in Hd as [Hd Hds]. pose proof (hex_value_range d Hd). destruct n as [|n].
  - change (hex_fold v (take 0 (d :: ds))) with v. change (hex_fold v (d :: ds)) with (hex_fold (v * 16 + hex_value d) ds).
    specialize (IH (v * 16 + hex_value d) O Hds ltac:(lia)).
    change (hex_fold _ (take 0 ds)) with (v * 16 + hex_value d) in IH. lia.
  - apply (IH (v * 16 + hex_value d) n Hds). lia.
Qed.

Lemma hex_digit_at d ds src v : is_hex d = true -> 0 <= v -> 16 * v + 102 <= int_max ->
  char_ref_digits true (d :: ds) src v = char_ref_digits true ds (S src) (v * 16 + hex_value d).
Proof using Hs.
  intros Hd Hv Hmax. pose proof (hex_value_range d Hd) as [_ Hr]. cbn [char_ref_digits].
  rewrite !chk_int_Ok, !ok_bind by ilia. rewrite !chk_int_Ok, !ok_bind by ilia. cbn [andb].
  unfold is_hex in Hd. unfold hex_value. destruct (is_digit d); [f_equal; lia|]. cbn [orb] in Hd.
  destruct ((97 <=? d) && (d <=? 102)) eqn:Ha.
  - zbool. rewrite (proj2 (Z.leb_le 97 d)) by lia. f_equal. lia.
  - rewrite orb_false_l in Hd. rewrite Hd. zbool. rewrite (proj2 (Z.leb_gt 97 d)) by lia. f_equal. lia.
Qed.

Lemma hex_digits_at ds : forall src v rest, Forall (fun c => is_hex c = true) ds -> 0 <= v ->
  16 * hex_fold v ds + 102 <= int_max ->
  char_ref_digits true (ds ++ 59 :: rest) src v = Ok (hex_fold v ds, (src + length ds + 1)%nat).
Proof using Hs.
  induction ds as [|d ds IH]; intros src v rest Hd Hv Hmax.
  { simpl. do 2 f_equal. lia. }
  pose proof (hex_fold_mono _ v O Hd Hv) as H0. change (hex_fold v (take 0 (d :: ds))) with v in H0.
  apply Forall_cons in Hd as [Hd Hds]. pose proof (hex_value_range d Hd). cbn [app].
  rewrite hex_digit_at by (done || lia). rewrite IH; [|done|lia|exact Hmax].
  simpl. do 2 f_equal. lia.
Qed.

Lemma hexref_at latin1 ds : node_reaches latin1 (XHexRef ds).
Proof using Hs.
  intros env x ccq cc tags src rest Hok Hm Hlat _ _ E Hrest. destruct (hexref_ok_inv _ _ _ Hok) as (Hds & Hcp & Hv).
  set (v := hex_fold 0 ds) in *.
  cbn [print_node] in E. rewrite <- !app_assoc in E.
  change (lit "&#x") with [38; 35; 120] in E. cbn [app] in E.
  pose proof (drop_next _ _ _ E) as E1. pose proof (drop_next _ _ _ E1) as E2. pose proof (drop_next _ _ _ E2) as E3.
  pose proof (drop_at _ _ _ E3) as E4. pose proof (drop_pos _ [] _ E4 ltac:(done)) as Hpos. simpl in Hpos.
  assert (decode_character_reference T (S (S src)) = Ok (v, (S (S (S src)) + length ds + 1)%nat)) as Hdec.
  { unfold decode_character_reference. rewrite (mread_head _ _ _ E2), ok_bind. cbn [Z.eqb Pos.eqb].
    rewrite E3. apply hex_digits_at; [done|done|]. fold v. ilia. }
  exists x, [CcUni (utf8_put v)]. split; [|split; [apply kept_refl|split]].
  - intros [|fuel] Hfu; [lia|]. rewrite (reference_step _ _ _ _ _ _ _ Hm E). unfold cd0_reference.
    rewrite Hm, (mread_head _ _ _ E1), ok_bind. cbn [Z.eqb Pos.eqb]. rewrite Hdec, ok_bind, (proj2 (Z.eqb_neq v 0)) by lia.
    cbn [negb]. unfold add_unicode. rewrite (proj2 (Nat.leb_le _ _)) by apply utf8_put_length. rewrite ok_bind.
    cbn [cd0_continue node_spec snd map]. rewrite app_nil_r. exists fuel. cbn [print_node]. rewrite !length_app.
    change (length (lit "&#x")) with 3%nat. simpl length.
    replace (S (S (S src)) + length ds + 1)%nat with (src + (3 + (length ds + 1)))%nat by lia. split; [lia|done].
  - apply reference_segs; [lia|by apply put_some].
  - unfold ccq_len. cbn [sum_list_with cc_len print_node]. rewrite !length_app. pose proof (utf8_put_length v).
    change (length (lit "&#x")) with 3%nat. simpl length. lia.
Qed.

Lemma charref_at latin1 v : node_reaches latin1 (XCharRef v).
Proof using Hs.
  intros env x ccq cc tags src rest Hok Hm Hlat _ _ E Hrest. destruct (charref_ok_inv _ _ _ Hok) as [Hcp Hv].
  cbn [print_node] in E. rewrite <- !app_assoc in E.
  change (lit "&#") with [38; 35] in E. cbn [app] in E.
  pose proof (drop_next _ _ _ E) as E1. pose proof (drop_next _ _ _ E1) as E2.
  destruct (dec_nat_ex v ltac:(lia)) as (ds & Ed & Hds & Hfold & d & ds' & Eds & Hd). rewrite Ed in E2.
  pose proof (drop_at _ _ _ E2) as E3. pose proof (drop_pos _ [] _ E3 ltac:(done)) as Hpos. simpl in Hpos.
  assert (decode_character_reference T (S (S src)) = Ok (v, (S (S src) + length ds + 1)%nat)) as Hdec.
  { unfold decode_character_reference. pose proof E2 as E4. rewrite Eds in E4. cbn [app] in E4.
    rewrite (mread_head _ _ _ E4), ok_bind, (proj2 (Z.eqb_neq d 120)) by lia.
    rewrite E2, digits_at; [by rewrite Hfold|done|done|].
    intros n _. pose proof (dec_fold_mono ds 0 n Hds ltac:(done)). ilia. }
  exists x, [CcUni (utf8_put v)]. split; [|split; [apply kept_refl|split]].
  - intros [|fuel] Hfu; [lia|]. rewrite (reference_step _ _ _ _ _ _ _ Hm E). unfold cd0_reference.
    rewrite Hm, (mread_head _ _ _ E1), ok_bind. cbn [Z.eqb Pos.eqb]. rewrite Hdec, ok_bind, (proj2 (Z.eqb_neq v 0)) by lia.
    cbn [negb]. unfold add_unicode. rewrite (proj2 (Nat.leb_le _ _)) by apply utf8_put_length. rewrite ok_bind.
    cbn [cd0_continue node_spec snd map]. rewrite app_nil_r. exists fuel. cbn [print_node]. rewrite !length_app, Ed.
    change (length (lit "&#")) with 2%nat. simpl length.
    replace (S (S src) + length ds + 1)%nat with (src + (2 + (length ds + 1)))%nat by lia. split; [lia|done].
  - apply reference_segs; [lia|by apply put_some].
  - unfold ccq_len. cbn [sum_list_with cc_len print_node]. rewrite !length_app. pose proof (utf8_put_length v).
    change (length (lit "&#")) with 2%nat. simpl length. lia.
Qed.

Lemma entity_some name : html_entity_lookup name <> -1 -> head name <> Some 35 ->
  utf8_put (html_entity_lookup name) <> [].
Proof using Hs.
  intros H Hh. unfold html_entity_lookup in *. rewrite decide_False in H |- * by done.
  assert (forallb (fun e => match utf8_put e.2 with [] => false | _ => true end) html_entities = true) as Hall
    by reflexivity.
  revert H Hall. generalize html_entities. intros l. induction l as [|[n c] l IH]; [done|]. simpl.
  destruct (decide (n = name)); intros H [Hc Hl]%andb_true_iff; [by destruct (utf8_put c)|by apply IH].
Qed.

Lemma entity_at latin1 name : node_reaches latin1 (XEntity name).
Proof using Hs.
  intros env x ccq cc tags src rest Hok Hm Hlat _ _ E Hrest.
  destruct (entity_ok_inv _ _ _ Hok) as (Hne & Hn & H59 & H35 & Hlen & Hcode).
  cbn [print_node] in E. cbn [app] in E. rewrite <- app_assoc in E. cbn [app] in E.
  pose proof (drop_next _ _ _ E) as E1. pose proof (drop_at _ _ _ E1) as E2.
  pose proof (drop_pos _ [] _ E2 ltac:(done)) as Hpos. simpl in Hpos.
  pose proof (entity_positive s Hs name H35 Hcode) as Hpositive.
  destruct name as [|c name']; [done|]. set (name := c :: name') in *.
  exists x, [CcUni (utf8_put (html_entity_lookup name))]. split; [|split; [apply kept_refl|split]].
  - intros [|fuel] Hfu; [lia|]. rewrite (reference_step _ _ _ _ _ _ _ Hm E). unfold cd0_reference.
    rewrite Hm, (mread_head _ c _ E1), ok_bind, (proj2 (Z.eqb_neq c 35)) by (intros ->; by apply H35).
    unfold decode_label_reference. rewrite Hm.
    rewrite (scan_at _ _ _ _ _ E1 (value_scan _ _ Hn H59)) by done. rewrite ok_bind, (mread_head _ _ _ E2), ok_bind.
    cbn [Z.eqb Pos.eqb]. rewrite ptrdiff_at by lia.
    rewrite (proj2 (Z.ltb_ge _ 1)), (proj2 (Z.ltb_ge 1024 _)) by (unfold name in *; simpl length in *; lia).
    rewrite Nat2Z.id, (slice_at _ _ _ _ _ E1), ok_bind, (proj2 (Z.eqb_neq _ (-1))) by done. cbn [negb].
    unfold add_unicode. rewrite (proj2 (Nat.leb_le _ _)) by apply utf8_put_length. rewrite !ok_bind.
    cbn [cd0_continue node_spec snd map]. rewrite app_nil_r. exists fuel. cbn [print_node length]. rewrite length_app.
    simpl (length [59]). replace (S (S src + length name))%nat with (src + S (length name + 1))%nat by lia. split; [lia|done].
  - apply reference_segs; [done|by apply entity_some].
  - unfold ccq_len. cbn [sum_list_with cc_len print_node length]. rewrite length_app. pose proof (utf8_put_length (html_entity_lookup name)).
    simpl (length [59]). unfold name at 2. simpl (length (c :: name')). lia.
Qed.

(** ** Elements *)

Lemma text_plain src t rest : drop src T = t ++ rest -> text_ok t ->
  forall i, (i < length t)%nat -> plain false (src + i).
Proof using Hs.
  intros E (Ht & H60 & H38) i Hi. destruct (lookup_lt_is_Some_2 t i Hi) as [c Ec]. exists c.
  split; [by apply (text_lookup _ _ _ _ _ E)|]. unfold cstring_ok in Ht. rewrite Forall_forall in Ht.
  pose proof (list_elem_of_lookup_2 _ _ _ Ec) as Hin. pose proof (Ht c Hin). split; [lia|]. split; by intros ->.
Qed.

Lemma node_head d : exists t c, print_node d = c :: t /\ c <> 10.
Proof using Hs. destruct d; do 2 eexists; (split; [reflexivity|done]). Qed.

Lemma items_head items c rest : c <> 10 -> exists d r, print_items items ++ c :: rest = d :: r /\ d <> 10.
Proof using Hs.
  intros Hc. destruct items as [|[d t] items]; [by exists c, rest|]. destruct (node_head d) as (u & e & E & He).
  cbn [print_items]. rewrite E. cbn [app]. by do 2 eexists.
Qed.

Lemma ccq_len_cat a b : ccq_len (a ++ b) = (ccq_len a + ccq_len b)%nat.
Proof using Hs. apply sum_list_with_app. Qed.

Lemma items_spec_cons latin1 env d t items : items_spec latin1 env ((d, t) :: items) =
  ((node_spec latin1 env d).1 ++ text_segs t ++ (items_spec latin1 env items).1,
   (node_spec latin1 env d).2 ++ (items_spec latin1 env items).2).
Proof using Hs. simpl. destruct (node_spec latin1 env d). by destruct (items_spec latin1 env items). Qed.

Lemma items_at latin1 env items : Forall (fun i => node_at latin1 i.1) items ->
  forall x ccq cc tags src c rest fuel, Forall (fun i => node_ok latin1 env i.1 /\ text_ok i.2) items ->
    xp_mem x = T -> xp_latin1 x = latin1 -> env_of (xp_namespaces x) = env -> addrs_below x ->
    drop src T = print_items items ++ c :: rest -> c <> 10 -> (N - src < fuel)%nat ->
    exists x' q k new,
      gets fuel x ccq cc tags src x' q k
        (tags ++ map heap_field (items_spec latin1 env items).2) (src + length (print_items items)) /\
      cc_close q k (src + length (print_items items)) = cc_close ccq cc src ++ new /\ kept x x' /\
      segs_at latin1 new (items_spec latin1 env items).1 /\ (ccq_len new <= 3 * length (print_items items))%nat.
Proof using Hs.
  induction 1 as [|[d t] items Hd Hitems IH]; intros x ccq cc tags src c rest fuel Hok Hm Hlat Henv Hx E Hc Hfuel.
  { exists x, ccq, cc, []. simpl. rewrite !app_nil_r, Nat.add_0_r.
    split_and!; [by exists fuel|done|apply kept_refl|constructor|done]. }
  apply Forall_cons in Hok as [[Hdok Htok] Hok]. cbn [fst snd] in *. cbn [print_items] in E |- *.
  rewrite <- !app_assoc in E. destruct (items_head items c rest Hc) as (c1 & r1 & E1 & Hc1).
  destruct (Hd env x ccq cc tags src _ fuel Hdok Hm Hlat Henv Hx E) as (x1 & n1 & Hr1 & Hk1 & Hn1 & Hl1).
  { rewrite E1. by destruct t. }
  { done. }
  pose proof Hk1 as (Hm1 & Hlat1 & Hns1 & _). pose proof (drop_at _ _ _ E) as E2.
  pose proof (text_plain _ _ _ E2 Htok) as Hp. pose proof (drop_at _ _ _ E2) as E3. rewrite E1 in E2.
  destruct (text_run false x1 (cc_close ccq cc src ++ n1) (tags ++ map heap_field (node_spec latin1 env d).2)
    c1 r1 t _ ltac:(congruence) E2 Hc1 Hp) as (q1 & k1 & n2 & Hr2 & Hcl2 & Hn2 & Hl2).
  destruct (gets_reaches _ _ _ _ _ _ _ _ _ _ _ _ _ _ _ _ Hr1 Hr2) as (f2 & Hf2 & Eq2).
  destruct (IH x1 q1 k1 (tags ++ map heap_field (node_spec latin1 env d).2)
    (src + length (print_node d) + length t)%nat c rest f2 Hok) as (x2 & q2 & k2 & n3 & Hr3 & Hcl3 & Hk3 & Hn3 & Hl3);
    [congruence|congruence|by rewrite Hns1|by eapply kept_below|exact E3|done|done|].
  exists x2, q2, k2, (n1 ++ n2 ++ n3). rewrite !length_app.
  replace (src + (length (print_node d) + (length t + length (print_items items))))%nat
    with (src + length (print_node d) + length t + length (print_items items))%nat by lia.
  rewrite items_spec_cons. cbn [fst snd] in *. split_and!.
  - rewrite map_app, app_assoc. eapply gets_trans; [exact Eq2|exact Hr3].
  - by rewrite Hcl3, Hcl2, <- !app_assoc.
  - by eapply kept_trans.
  - rewrite Hlat1, Hlat in Hn2. by repeat apply Forall2_app.
  - rewrite !ccq_len_cat. lia.
Qed.

(** The content of an element with its end tag. *)
Lemma content_at latin1 env t items name x tags src rest fuel :
  Forall (fun i => node_at latin1 i.1) items -> text_ok t ->
  Forall (fun i => node_ok latin1 env i.1 /\ text_ok i.2) items -> Forall name_char name ->
  xp_mem x = T -> xp_latin1 x = latin1 -> env_of (xp_namespaces x) = env -> addrs_below x ->
  drop src T = t ++ print_items items ++ lit "</" ++ name ++ 62 :: rest -> (N - src < fuel)%nat ->
  exists x' ccq,
    cd0_loop true fuel x [] None tags src false =
      Ok (Some (src + length t + length (print_items items) + length name + 3)%nat, ccq,
          tags ++ map heap_field (items_spec latin1 env items).2, x') /\
    kept x x' /\ segs_at latin1 ccq (text_segs t ++ (items_spec latin1 env items).1) /\
    (ccq_len ccq <= 3 * (length t + length (print_items items)))%nat.
Proof using Hs.
  intros Hnodes Ht Hok Hname Hm Hlat Henv Hx E Hfuel. change (lit "</") with [60; 47] in E. cbn [app] in E.
  destruct (items_head items 60 (47 :: name ++ 62 :: rest) ltac:(done)) as (c1 & r1 & E1 & Hc1).
  pose proof (text_plain _ _ _ E Ht) as Hp. pose proof (drop_at _ _ _ E) as E2. rewrite E1 in E.
  destruct (text_run false x [] tags c1 r1 t src Hm E Hc1 Hp) as (q1 & k1 & n1 & Hr1 & Hcl1 & Hn1 & Hl1).
  destruct (Hr1 fuel Hfuel) as (f1 & Hf1 & Eq1).
  destruct (items_at latin1 env items Hnodes x q1 k1 tags _ 60 _ f1 Hok Hm Hlat Henv Hx E2 ltac:(done) Hf1)
    as (x' & q & k & n2 & Hr2 & Hcl2 & Hk & Hn2 & Hl2).
  pose proof (drop_at _ _ _ E2) as E3. pose proof (drop_next _ _ _ E3) as E4. pose proof (drop_next _ _ _ E4) as E5.
  destruct (gets_trans _ _ _ _ _ _ _ _ _ _ _ _ _ _ _ _ _ Eq1 Hr2) as ([|f'] & Hf' & ->); [lia|].
  pose proof Hk as (Hm' & _). rewrite Hm in Hm'.
  exists x', (n1 ++ n2). rewrite (markup_step _ _ _ _ _ _ _ Hm' E3). unfold cd0_markup.
  rewrite Hm', (mread_head _ _ _ E4), ok_bind. cbn [Z.eqb Pos.eqb].
  rewrite (scan_at _ _ _ _ _ E5); [|clear -Hname|done].
  2:{ eapply Forall_impl; [exact Hname|]. intros c (Hc & _ & _ & H62 & _). by rewrite !(proj2 (Z.eqb_neq c _)) by lia. }
  rewrite ok_bind, (mread_head _ _ _ (drop_at _ _ _ E5)), ok_bind. cbn [Z.eqb].
  rewrite Hcl2, Hcl1. cbn [app]. split_and!; [|done| |].
  - match goal with |- Ok (Some ?a, _, _, _) = Ok (Some ?b, _, _, _) => replace a with b by lia end. done.
  - apply Forall2_app; [by rewrite <- Hlat|done].
  - rewrite ccq_len_cat. lia.
Qed.

Lemma map_items name ws attrs t items : print_node (XElem name ws attrs (Some (t, items))) =
  60 :: name ++ ws ++ print_attrs attrs ++ 62 :: t ++ print_items items ++ lit "</" ++ name ++ [62].
Proof using Hs. done. Qed.

Definition content_spec (latin1 : bool) (env : nsenv) (content : option (list Z * list (xnode * list Z)))
    : list seg * list hfield :=
  match content with
  | None => ([], [])
  | Some (t, items) => (text_segs t ++ (items_spec latin1 env items).1, (items_spec latin1 env items).2)
  end.

Lemma elem_spec latin1 env name ws attrs content : node_spec latin1 env (XElem name ws attrs content) =
  let '(env, afs) := attrs_spec env attrs in
  ([], [HField (Some (qname env name).1) false (qname env name).2
          (elem_val latin1 (content_spec latin1 env content).1)
          (elem_childs (afs ++ (content_spec latin1 env content).2))]).
Proof using Hs.
  cbn [node_spec]. destruct (attrs_spec env attrs) as [env' afs]. destruct content as [[t items]|].
  - fold (items_spec latin1 env'). cbn [content_spec]. destruct (items_spec latin1 env' items). by destruct (qname env' name).
  - by destruct (qname env' name).
Qed.

(** The field of an element with its body and children. *)
Lemma heap_elem latin1 n ns l fs :
  heap_field (HField (Some n) false ns (elem_val latin1 l) (elem_childs fs)) =
  set_childs (map heap_field fs)
    (set_body (match trim_segs l with [] => None | q => Some (XHeap (concat (map (seg_text latin1) q))) end)
      (XField (XHeap n) false ns None None)).
Proof using Hs. unfold elem_val, elem_childs. destruct (trim_segs l), fs; done. Qed.

(** What is between the name of an element and its end. *)
Definition print_content (content : option (list Z * list (xnode * list Z))) (name : list Z) : list Z :=
  match content with
  | None => []
  | Some (t, items) => t ++ print_items items ++ lit "</" ++ name ++ [62]
  end.
Definition is_empty (content : option (list Z * list (xnode * list Z))) : bool :=
  match content with None => true | Some _ => false end.

Lemma print_elem name ws attrs content : print_node (XElem name ws attrs content) =
  60 :: name ++ ws ++ print_attrs attrs ++ tag_close (is_empty content) ++ print_content content name.
Proof using Hs. destruct content as [[t items]|]; [done|]. simpl. done. Qed.

(** The element behind its start tag. *)
Lemma body_content_at latin1 env content name x m f src rest fuel :
  6 * Z.of_nat N <= int_max ->
  (forall t items, content = Some (t, items) -> Forall (fun i => node_at latin1 i.1) items) ->
  (forall t items, content = Some (t, items) ->
     text_ok t /\ Forall (fun i => node_ok latin1 env i.1 /\ text_ok i.2) items /\
     body_ok (text_segs t ++ (items_spec latin1 env items).1)) ->
  Forall name_char name -> xp_mem x = T -> xp_latin1 x = latin1 -> env_of (xp_namespaces x) = env ->
  addrs_below x -> drop src T = print_content content name ++ rest -> rest <> [] -> (N - src < fuel)%nat ->
  exists x',
    (if is_empty content then Ok (Some src, m, Some f, x)
     else parse_cd true (fun xp ccq tags src raw => cd0_loop true fuel xp ccq None tags src raw) x m (Some f) src)
    = Ok (Some (src + length (print_content content name))%nat,
          m ++ map heap_field (content_spec latin1 env content).2,
          Some (set_body (match trim_segs (content_spec latin1 env content).1 with
                          | [] => None
                          | q => Some (XHeap (concat (map (seg_text latin1) q))) end) f), x') /\
    kept x x'.
Proof using Hs.
  intros Hsmall Hnodes Hok Hname Hm Hlat Henv Hx E Hrest Hfuel. destruct content as [[t items]|].
  2:{ exists x. simpl. rewrite Nat.add_0_r, app_nil_r. split; [done|apply kept_refl]. }
  specialize (Hnodes t items eq_refl). destruct (Hok t items eq_refl) as (Ht & Hi & Hbody). cbn [is_empty print_content content_spec fst snd] in *.
  rewrite <- !app_assoc in E. cbn [app] in E.
  destruct (content_at latin1 env t items name x m src rest fuel Hnodes Ht Hi Hname Hm Hlat Henv Hx E Hfuel)
    as (x' & ccq & Ecd & Hk & Hseg & Hlen).
  exists x'. split; [|done]. unfold parse_cd. rewrite Ecd, ok_bind. pose proof Hk as (Hm' & _). rewrite Hm', Hm.
  destruct (trims_at _ _ _ Hseg) as (q1 & q2 & E1 & E2 & Hq & Hn). rewrite E1, ok_bind, E2, ok_bind. cbv zeta.
  rewrite (body_at latin1 _ _ Hq Hbody).
  2:{ pose proof (drop_at _ _ _ E) as E'. change (lit "</") with [60; 47] in E'.
      pose proof (drop_pos _ _ _ E' ltac:(done)) as Hpos. lia. }
  rewrite ok_bind. assert (xp_set_mem x' T = x') as ->.
  { rewrite <- Hm, <- Hm'. by destruct x'. }
  rewrite !length_app. change (length (lit "</")) with 2%nat. simpl (length [62]).
  match goal with |- Ok (Some ?a, _, _, _) = Ok (Some ?b, _, _, _) => replace a with b by lia end.
  by destruct (trim_segs _).
Qed.

(** A tag, its attributes, its content and its end. *)
Definition name_end (c : Z) : bool := (c =? 0) || is_xmlws c || (c =? 62) || (c =? 47).

Lemma tag_name_end ws attrs empty rest : ws_ok ws -> (attrs <> [] -> ws <> []) ->
  exists c r, ws ++ print_attrs attrs ++ tag_close empty ++ rest = c :: r /\ name_end c = true /\ c <> 0.
Proof using Hs.
  intros Hw Hne. destruct ws as [|w ws].
  - destruct attrs; [|by destruct (Hne ltac:(done))]. by destruct empty; do 2 eexists.
  - apply Forall_cons in Hw as [Hw _]. exists w, (ws ++ print_attrs attrs ++ tag_close empty ++ rest).
    split; [done|]. unfold name_end. rewrite Hw, orb_true_r. split; [done|]. by intros ->.
Qed.

Lemma name_end_scan n : Forall name_char n -> Forall (fun c => name_end c = false) n.
Proof using Hs.
  intros H. eapply Forall_impl; [exact H|]. intros c ((H0 & _) & Hw & _ & H62 & H47). unfold name_end.
  by rewrite Hw, !(proj2 (Z.eqb_neq c _)) by lia.
Qed.

Lemma tag_at latin1 name ws attrs content x tags src rest fuel :
  6 * Z.of_nat N <= int_max ->
  (forall t items, content = Some (t, items) -> Forall (fun i => node_at latin1 i.1) items) ->
  node_ok latin1 (env_of (xp_namespaces x)) (XElem name ws attrs content) ->
  xp_mem x = T -> xp_latin1 x = latin1 -> addrs_below x ->
  drop src T = tail (print_node (XElem name ws attrs content)) ++ rest -> rest <> [] -> (N - src < fuel)%nat ->
  exists x',
    htsmsg_xml_parse_tag true (fun xp ccq tags src raw => cd0_loop true fuel xp ccq None tags src raw) x tags src
    = Ok (Some (src + length (tail (print_node (XElem name ws attrs content))))%nat,
          tags ++ map heap_field (node_spec latin1 (env_of (xp_namespaces x)) (XElem name ws attrs content)).2, x') /\
    kept x x'.
Proof using Hs.
  intros Hsmall Hnodes Hok Hm Hlat Hx E Hrest Hfuel.
  destruct (elem_ok_inv _ _ _ _ _ _ Hok) as (Hn & _ & _ & Hw & Haw & Hattrs & Hc).
  rewrite print_elem in E |- *. rewrite elem_spec. cbn [tail] in E |- *. rewrite <- !app_assoc in E.
  rewrite attribs_spec in Hc |- *. cbn [fst] in Hc.
  destruct (attribs_restore x attrs Hx) as (Am & Al & _ & Aa & Ab & _).
  pose proof (destroy_restores x attrs Hx) as Hdes.
  set (y := attribs_parser x attrs) in *.
  destruct (tag_name_end ws attrs (is_empty content) (print_content content name ++ rest) Hw Haw) as (c & r & Ec & Hce & Hc0).
  pose proof (drop_at _ _ _ E) as E1. pose proof E as E0. rewrite Ec in E0.
  assert (1 <= Z.of_nat (length name) <= 65535) as Hlen.
  { destruct Hn as (Hne & _ & ?). destruct name; [done|simpl length in *; lia]. }
  unfold htsmsg_xml_parse_tag. rewrite Hm. fold name_end.
  rewrite (scan_at name_end _ _ _ _ E0 (name_end_scan _ (proj1 (proj2 Hn))) Hce), ok_bind.
  rewrite (mread_at_drop _ _ _ _ _ E0 eq_refl), ok_bind, (proj2 (Z.eqb_neq c 0) Hc0).
  rewrite ptrdiff_at, (proj2 (Z.ltb_ge _ 1)), (proj2 (Z.ltb_ge 65535 _)) by lia. cbn [orb].
  pose proof (drop_pos _ _ _ E1) as Hpos1.
  rewrite (tag_attribs_at attrs _ x [] _ ws [] (is_empty content) (print_content content name ++ rest) Hm E1 Hw Hattrs)
    by (unfold T; rewrite length_app; simpl; unfold N in *; lia). rewrite ok_bind. fold y. rewrite Nat2Z.id, Am, Hm.
  rewrite (mread_at_drop _ _ _ _ _ E0 eq_refl), ok_bind. unfold tag_field. cbn [orb].
  rewrite Am, Hm, (slice_at _ _ _ _ _ E0 eq_refl), ok_bind, add_field_at, !ok_bind.
  pose proof (drop_at _ _ _ (drop_at _ _ _ (drop_at _ _ _ E1))) as E2.
  destruct (body_content_at latin1 (env_of (xp_namespaces y)) content name y (map heap_field (attribs_fields x attrs))
    (XField (XHeap (qname (env_of (xp_namespaces y)) name).1) false (qname (env_of (xp_namespaces y)) name).2 None None)
    _ rest fuel Hsmall Hnodes Hc (proj1 (proj2 Hn)) ltac:(congruence) ltac:(congruence) eq_refl Ab E2 Hrest ltac:(lia)) as (x' & Eb & Hk).
  cbn [app] in Eb |- *. rewrite Eb, ok_bind. rewrite <- map_app, <- heap_elem.
  exists (xp_set_namespaces x' (xmlns_destroy (attribs_scope [] x attrs) (xp_namespaces x'))). cbn [snd map].
  rewrite !length_app. split.
  - match goal with |- Ok (Some ?a, _, _) = Ok (Some ?b, _, _) => replace a with b by lia end. done.
  - destruct Hk as (K1 & K2 & K3 & K4). split_and!; cbn [xp_set_namespaces xp_mem xp_latin1 xp_namespaces xp_addr];
      [congruence|congruence|by rewrite K3|lia].
Qed.

Lemma elem_at latin1 name ws attrs content : 6 * Z.of_nat N <= int_max ->
  (forall t items, content = Some (t, items) -> Forall (fun i => node_at latin1 i.1) items) ->
  node_at latin1 (XElem name ws attrs content).
Proof using Hs.
  intros Hsmall Hnodes env x ccq cc tags src rest [|fuel] Hok Hm Hlat <- Hx E Hrest Hfuel; [lia|].
  destruct (elem_ok_inv _ _ _ _ _ _ Hok) as ((Hne & Hn & _) & H33 & H63 & _).
  pose proof E as E0. rewrite print_elem in E0. cbn [app] in E0. pose proof (drop_next _ _ _ E0) as E1.
  set (d := XElem name ws attrs content) in *.
  assert (print_node d = 60 :: tail (print_node d)) as Ed by (unfold d; by rewrite print_elem).
  assert (drop (S src) T = tail (print_node d) ++ rest) as E2 by (unfold d; rewrite print_elem; exact E1).
  assert (length (print_node d) = S (length (tail (print_node d)))) as El by (by rewrite Ed at 1).
  pose proof (drop_at _ _ _ E) as E3. pose proof (drop_pos _ [] _ E3 Hrest) as Hpos. simpl in Hpos.
  destruct name as [|c name']; [done|]. apply Forall_cons in Hn as [(Hc0 & _ & _ & _ & H47) _]. cbn [app] in E1.
  destruct (tag_at latin1 _ ws attrs content x tags (S src) rest fuel Hsmall Hnodes Hok Hm Hlat Hx E2 Hrest ltac:(lia))
    as (x' & Et & Hk). fold d in Et. rewrite Nat.add_succ_l, <- Nat.add_succ_r, <- El in Et.
  exists x', []. split; [|split; [done|split; [|simpl; lia]]].
  - exists fuel. split; [lia|]. rewrite (markup_step _ _ _ _ _ _ _ Hm E0). unfold cd0_markup.
    rewrite Hm, (mread_head _ c _ E1), ok_bind.
    rewrite (proj2 (Z.eqb_neq c 63)), (proj2 (Z.eqb_neq c 33)), (proj2 (Z.eqb_neq c 47)) by (done || by intros ->).
    rewrite Et, ok_bind. by rewrite app_nil_r.
  - unfold d. rewrite elem_spec. destruct (attrs_spec _ attrs). constructor.
Qed.

(** Induction over the nodes of an element. *)
Lemma xnode_nested (P : xnode -> Prop) :
  (forall name ws attrs content,
     (forall t items, content = Some (t, items) -> Forall (fun i => P i.1) items) ->
     P (XElem name ws attrs content)) ->
  (forall u, P (XCdata u)) -> (forall u, P (XComment u)) -> (forall n ws attrs, P (XPi n ws attrs)) ->
  (forall v, P (XCharRef v)) -> (forall ds, P (XHexRef ds)) -> (forall n, P (XEntity n)) -> forall d, P d.
Proof using Hs.
  intros He Hd Hc Hp Hr Hh Hn. fix IH 1. intros [name ws attrs [[t items]|]|u|u|n ws attrs|v|ds|n]; [| |auto..].
  - apply He. intros t' items' [= <- <-]. induction items as [|[d u] items IHi]; constructor; [apply IH|exact IHi].
  - apply He. done.
Qed.

Lemma nodes_at latin1 : 6 * Z.of_nat N <= int_max -> forall d, node_at latin1 d.
Proof using Hs.
  intros Hsmall. apply xnode_nested; intros.
  - by apply elem_at.
  - apply node_reaches_at, cdata_at.
  - apply node_reaches_at, comment_at.
  - apply node_reaches_at, pi_node_at.
  - apply node_reaches_at, charref_at.
  - apply node_reaches_at, hexref_at.
  - apply node_reaches_at, entity_at.
Qed.

(** ** The fields a client reads *)

Inductive shaped : hfield -> Prop :=
| Shaped n a ns v c :
    v = HMap \/ (exists t, v = HStr t) ->
    (forall il fs, c = Some (Msg il fs) -> il = false /\ Forall shaped fs) ->
    shaped (HField (Some n) a ns v c).

Lemma heap_resolve m : forall f, shaped f -> xf_resolve m (heap_field f) = Ok f.
Proof using Hs.
  fix IH 2. intros f [n a ns v c Hv Hc]. cbn [heap_field xf_resolve default from_option]. cbn [xstr_get].
  change (default [] (Some n)) with n. rewrite !ok_bind.
  replace (match match v with HStr t => Some (XHeap t) | _ => None end with
     | None => Ok HMap | Some x => t ← xstr_get m x; Ok (HStr t) end) with (@Ok hval v)
    by (destruct Hv as [->|[t ->]]; done).
  rewrite ok_bind. destruct c as [[il fs]|]; [|done]. destruct (Hc il fs eq_refl) as [-> Hfs].
  fold (xfs_resolve m). assert (xfs_resolve m (map heap_field fs) = Ok fs) as ->; [|done].
  clear Hc. induction Hfs as [|g gs Hg _ IHg]; [done|]. cbn [map xfs_resolve].
  fold (xfs_resolve m). rewrite (IH g Hg), ok_bind. by rewrite IHg.
Qed.

Lemma heaps_resolve m fs : Forall shaped fs -> xfs_resolve m (map heap_field fs) = Ok fs.
Proof using Hs.
  induction 1 as [|f fs Hf _ IH]; [done|]. cbn [map xfs_resolve]. fold (xfs_resolve m).
  rewrite (heap_resolve m f Hf), ok_bind. by rewrite IH.
Qed.

Lemma attr_shaped env a : shaped (attr_field env a).
Proof using Hs. unfold attr_field. destruct (qname env (xa_name a)). constructor; [right; by eexists|done]. Qed.

Lemma attrs_shaped l : forall env, Forall shaped (attrs_spec env l).2.
Proof using Hs.
  induction l as [|a l IH]; intros env; [constructor|]. cbn [attrs_spec]. destruct (declares_ns a); [apply IH|].
  specialize (IH env). destruct (attrs_spec env l). constructor; [apply attr_shaped|done].
Qed.

Lemma items_shaped latin1 items : Forall (fun i => forall env, Forall shaped (node_spec latin1 env i.1).2) items ->
  forall env, Forall shaped (items_spec latin1 env items).2.
Proof using Hs.
  induction 1 as [|[d t] items Hd _ IH]; intros env; [constructor|]. rewrite items_spec_cons. simpl.
  apply Forall_app. by split; [apply Hd|].
Qed.

Lemma node_shaped latin1 : forall d env, Forall shaped (node_spec latin1 env d).2.
Proof using Hs.
  apply (xnode_nested (fun d => forall env, Forall shaped (node_spec latin1 env d).2)); try constructor.
  intros name ws attrs content Hi env. rewrite elem_spec. pose proof (attrs_shaped attrs env) as Ha.
  destruct (attrs_spec env attrs) as [env' afs]. simpl. apply Forall_singleton. constructor.
  - unfold elem_val. destruct (trim_segs _); [by left|right; by eexists].
  - unfold elem_childs. intros il fs. case_match eqn:E; [done|]. intros [= <- <-]. split; [done|]. rewrite <- E.
    apply Forall_app. split; [done|]. destruct content as [[t items]|]; [|constructor].
    by apply items_shaped, (Hi t items).
Qed.

(** ** The prolog *)

(** The fields the instructions of the prolog leave. *)
Definition misc_fields (m : xmisc) : list hfield :=
  match m with MPi name _ attrs => pi_fields [] name attrs | _ => [] end.
Definition prolog_fields (l : list (list Z * xmisc)) : list hfield :=
  concat (map (fun wm => misc_fields wm.2) l).
Definition misc_fits (wm : list Z * xmisc) : Prop := ws_ok wm.1 /\ misc_ok wm.2.

Lemma blank_head w c b : ws_ok w -> c <> 0 -> exists d r, w ++ c :: b = d :: r /\ d <> 0.
Proof using Hs.
  intros Hw Hc. destruct Hw as [|d w Hd Hw]; [by do 2 eexists|]. exists d, (w ++ c :: b). split; [done|]. by intros ->.
Qed.

(** Blanks and then the root element: the prolog is over. *)
Lemma prolog_stop fuel x pis src w c b : (0 < fuel)%nat -> xp_mem x = T -> drop src T = w ++ 60 :: c :: b -> ws_ok w ->
  c <> 63 -> c <> 33 -> prolog_loop true fuel x pis (Some src) = Ok ((src + length w)%nat, pis, x).
Proof using Hs.
  intros Hf Hm E Hw H63 H33. destruct fuel as [|fuel]; [lia|]. cbn [prolog_loop]. rewrite Hm.
  destruct (blank_head w 60 (c :: b) Hw ltac:(done)) as (d & r & Ed & Hd). rewrite <- E in Ed.
  rewrite (mread_head _ _ _ Ed), ok_bind, (proj2 (Z.eqb_neq d 0) Hd).
  rewrite (scan_at _ _ _ _ _ E (ws_scan _ Hw) eq_refl), ok_bind.
  pose proof (drop_at _ _ _ E) as E1.
  assert (forall e t, e <> c -> starts (60 :: e :: t) T (src + length w) = Ok false) as Hno.
  { intros e t He. unfold starts. rewrite E1. simpl. by rewrite (proj2 (Z.eqb_neq c e)). }
  change (lit "<?") with [60; 63]. rewrite (Hno 63 []), ok_bind by done.
  change (lit "<!--") with [60; 33; 45; 45]. rewrite (Hno 33), ok_bind by done.
  change (lit "<!DOCTYPE") with (60 :: 33 :: lit "DOCTYPE"). by rewrite (Hno 33), ok_bind by done.
Qed.

Lemma doctype_at u : forall i rest, Forall (fun c => c <> 0 /\ c <> 60 /\ c <> 62) u ->
  doctype_end (u ++ 62 :: rest) i 1 = Ok (i + length u + 1)%nat.
Proof using Hs.
  induction u as [|c u IH]; intros i rest Hu; [cbn; f_equal; lia|]. apply Forall_cons in Hu as [(H0 & H60 & H62) Hu].
  cbn [app doctype_end]. rewrite !(proj2 (Z.eqb_neq c _)) by done. rewrite IH by done. f_equal. simpl. lia.
Qed.

(** One round of the loop. *)
Lemma prolog_step fuel x pis src w m rest : xp_mem x = T -> xp_namespaces x = [] -> misc_fits (w, m) ->
  drop src T = w ++ print_misc m ++ rest -> rest <> [] ->
  prolog_loop true (S fuel) x pis (Some src) =
  prolog_loop true fuel x (pis ++ map heap_field (misc_fields m)) (Some (src + length (w ++ print_misc m))%nat).
Proof using Hs.
  intros Hm Hns [Hw Hok] E Hrest. cbn [fst snd] in *. cbn [prolog_loop]. rewrite Hm.
  assert (exists b, print_misc m ++ rest = 60 :: b) as [b Eb] by (by destruct m; eexists).
  destruct (blank_head w 60 b Hw ltac:(done)) as (d & r & Ed & Hd). rewrite <- Eb, <- E in Ed.
  rewrite (mread_head _ _ _ Ed), ok_bind, (proj2 (Z.eqb_neq d 0) Hd). clear d r Ed Hd.
  pose proof (drop_at _ _ _ E) as E1. rewrite Eb in E.
  rewrite (scan_at _ _ _ _ _ E (ws_scan _ Hw) eq_refl), ok_bind. clear E Eb b. rewrite length_app, Nat.add_assoc.
  set (i := (src + length w)%nat) in *. change (lit "<?") with [60; 63]. change (lit "<!--") with [60; 33; 45; 45].
  assert (forall e t a c l, drop i T = a :: c :: l -> e <> c -> starts (60 :: e :: t) T i = Ok false) as Hno.
  { intros e t a c l El He. unfold starts. rewrite El. simpl. rewrite (proj2 (Z.eqb_neq c e)) by done. by destruct (_ =? _). }
  destruct m as [u|name ws attrs|u]; cbn [print_misc misc_ok misc_fields map] in *; rewrite ?app_nil_r.
  - destruct Hok as [Hu Hf]. rewrite <- !app_assoc in E1. change (lit "<!--") with [60; 33; 45; 45] in E1.
    rewrite (Hno 63 [] _ _ _ E1), ok_bind by done. rewrite (starts_at [60; 33; 45; 45] i _ E1), ok_bind.
    pose proof (drop_at _ _ _ E1) as E2. change (length [60; 33; 45; 45]) with 4%nat in E2.
    unfold xml_parse_comment. rewrite Hm, (comment_at_end u _ _ E2 Hu Hf), !ok_bind.
    rewrite !length_app. change (length (lit "<!--")) with 4%nat. change (length (lit "-->")) with 3%nat.
    by replace (i + 4 + length u + 3)%nat with (i + (4 + (length u + 3)))%nat by lia.
  - rewrite print_pi_app in E1. rewrite (starts_at [60; 63] i _ E1), ok_bind.
    pose proof (drop_next _ _ _ (drop_next _ _ _ E1)) as E2.
    replace (i + 2)%nat with (S (S i)) by lia.
    rewrite (pi_at x (Some pis) name ws attrs rest _ Hm Hrest E2 Hok), ok_bind, Hns, print_pi_length.
    cbn [default fmap option_fmap option_map env_of map from_option]. do 2 f_equal. lia.
  - destruct Hok as (Hu & H60 & H62). rewrite <- !app_assoc in E1.
    change (lit "<!DOCTYPE") with (60 :: 33 :: lit "DOCTYPE") in E1. cbn [app] in E1.
    rewrite (Hno 63 [] _ _ _ E1), ok_bind by done.
    assert (starts [60; 33; 45; 45] T i = Ok false) as ->.
    { unfold starts. by rewrite E1. }
    rewrite ok_bind. change (lit "<!DOCTYPE") with (60 :: 33 :: lit "DOCTYPE").
    rewrite (starts_at (60 :: 33 :: lit "DOCTYPE") i (u ++ 62 :: rest) E1), ok_bind, E1. cbn [doctype_end Z.eqb Pos.eqb].
    change (lit "DOCTYPE" ++ u ++ 62 :: rest) with ((lit "DOCTYPE" ++ u) ++ 62 :: rest).
    replace (33 :: lit "DOCTYPE" ++ u ++ 62 :: rest) with ((33 :: lit "DOCTYPE" ++ u) ++ 62 :: rest)
      by (cbn [app]; by rewrite <- app_assoc).
    change (0 + 1) with 1. rewrite doctype_at, ok_bind.
    + cbn [length]. rewrite !length_app. cbn [length]. do 2 f_equal. change (length (lit "DOCTYPE")) with 7%nat. lia.
    + change (33 :: lit "DOCTYPE" ++ u) with ((33 :: lit "DOCTYPE") ++ u). apply Forall_app.
      split; [by apply (bool_decide_unpack _)|]. apply Forall_forall. intros c Hc.
      unfold cstring_ok in Hu. rewrite Forall_forall in Hu. specialize (Hu c Hc). split; [lia|]. by split; intros ->.
Qed.

Lemma print_misc_length m : (0 < length (print_misc m))%nat.
Proof using Hs. destruct m; simpl; lia. Qed.

Lemma prolog_at x l : forall fuel pis src w c b, xp_mem x = T -> xp_namespaces x = [] -> Forall misc_fits l ->
  drop src T = print_miscs l ++ w ++ 60 :: c :: b -> ws_ok w -> c <> 63 -> c <> 33 -> (N - src < fuel)%nat ->
  prolog_loop true fuel x (map heap_field pis) (Some src) =
  Ok (src + length (print_miscs l ++ w), map heap_field (pis ++ prolog_fields l), x)%nat.
Proof using Hs.
  induction l as [|[v m] l IH]; intros fuel pis src w c b Hm Hns Hl E Hw H63 H33 Hf.
  { rewrite (prolog_stop _ _ _ _ w c b); [|lia|done|exact E|done..]. by rewrite app_nil_r. }
  apply Forall_cons in Hl as [Hv Hl]. unfold print_miscs in E. cbn [map concat fst snd] in E. fold (print_miscs l) in E.
  rewrite <- !app_assoc in E. destruct fuel as [|fuel]; [lia|].
  rewrite (prolog_step fuel x _ src v m _ Hm Hns Hv E) by (by destruct (print_miscs l), w).
  rewrite <- map_app. rewrite app_assoc in E. pose proof (drop_at _ _ _ E) as E1.
  pose proof (drop_pos _ _ _ E) as Hpos. pose proof (print_misc_length m) as Hlen.
  rewrite (IH fuel _ _ w c b); [|done|done|done|exact E1|done|done|done|].
  - unfold print_miscs, prolog_fields. cbn [map concat fst snd]. rewrite <- !app_assoc, !length_app.
    match goal with |- Ok (?a, _, _) = Ok (?b, _, _) => replace a with b by lia end. done.
  - rewrite length_app in Hpos |- *. specialize (Hpos ltac:(by destruct (print_miscs l), w)). lia.
Qed.

(** The encoding a declaration names. *)
Lemma qname_nil n : qname [] n = (n, None).
Proof using Hs. unfold qname. destruct (strchr 58 n) as [[p [|c q]]|]; done. Qed.

Lemma attr_field_nil a : attr_field [] a = HField (Some (xa_name a)) true None (HStr (xa_value a)) None.
Proof using Hs. unfold attr_field. by rewrite qname_nil. Qed.

Lemma attrs_find name attrs : forall i,
  snd <$> field_find_from i (map (attr_field []) attrs) name =
  attr_field [] <$> find (fun a => bool_decide (xa_name a = name)) attrs.
Proof using Hs.
  induction attrs as [|a attrs IH]; intros i; [done|]. cbn [map field_find_from find].
  assert (hmf_name (attr_field [] a) = Some (xa_name a)) as -> by (by rewrite attr_field_nil).
  replace (bool_decide (Some (xa_name a) = Some name)) with (bool_decide (xa_name a = name))
    by (apply bool_decide_ext; naive_solver).
  destruct (bool_decide _); [done|apply IH].
Qed.

Definition decl_latin1 (d : option (list Z * list xattr)) : bool :=
  match d with
  | Some (_, attrs) =>
      match find (fun a => bool_decide (xa_name a = lit "encoding")) attrs with
      | Some a => existsb (strcaseeq (xa_value a)) latin1_names
      | None => false
      end
  | None => false
  end.

Lemma field_absent fs name : Forall (fun f => hmf_name f <> Some name) fs -> forall i, field_find_from i fs name = None.
Proof using Hs.
  induction 1 as [|f fs Hf _ IH]; intros i; [done|]. cbn [field_find_from]. by rewrite bool_decide_false.
Qed.

Lemma misc_unnamed l : Forall (fun wm : list Z * xmisc => forall ws attrs, wm.2 <> MPi (lit "xml") ws attrs) l ->
  Forall (fun f => hmf_name f <> Some (lit "xml")) (prolog_fields l).
Proof using Hs.
  unfold prolog_fields. induction 1 as [|[w m] l Hm _ IH]; [constructor|]. cbn [map concat]. apply Forall_app. split; [|done].
  destruct m as [u|name ws attrs|u]; [constructor| |constructor]. cbn [misc_fields snd].
  destruct attrs as [|a attrs]; [constructor|]. apply Forall_singleton. intros [= ->].
  by apply (Hm ws (a :: attrs)).
Qed.

(** Only the declaration names an encoding. *)
Lemma decl_encoding d l : Forall (fun wm : list Z * xmisc => forall ws attrs, wm.2 <> MPi (lit "xml") ws attrs) l ->
  match (xmlpi ← htsmsg_get_map (Msg false (prolog_fields (decl_misc d ++ l))) (ByName (lit "xml"));
         (htsmsg_get_str xmlpi (ByName (lit "encoding"))).1) with
  | Some e => existsb (strcaseeq e) latin1_names
  | None => false
  end = decl_latin1 d.
Proof using Hs.
  intros Hl%misc_unnamed. pose proof (field_absent _ _ Hl) as Habs.
  unfold prolog_fields in *. rewrite map_app, concat_app. set (fs := concat (map _ l)) in *. clearbody fs.
  unfold htsmsg_get_map, htsmsg_get_str, htsmsg_field_find.
  destruct d as [[ws attrs]|]; [|cbn [decl_misc map concat app hm_fields]; by rewrite Habs].
  cbn [decl_misc map concat snd misc_fields decl_latin1]. rewrite app_nil_r.
  destruct attrs as [|a attrs]; [cbn [pi_fields app hm_fields]; by rewrite Habs|].
  unfold pi_fields. generalize (a :: attrs). clear a attrs. intros attrs.
  cbn [app hm_fields field_find_from hmf_name].
  rewrite bool_decide_true by done. cbn [hmf_val hmf_childs mbind option_bind hm_fields].
  pose proof (attrs_find (lit "encoding") attrs 0) as E.
  destruct (find _ attrs) as [a|], (field_find_from 0 (map _ attrs) _) as [[k f]|]; try done.
  simpl in E. injection E as ->. by rewrite attr_field_nil.
Qed.

Lemma prolog_shaped l : Forall shaped (prolog_fields l).
Proof using Hs.
  unfold prolog_fields. apply Forall_concat, Forall_map, Forall_true. intros [w m].
  destruct m as [u|name ws [|a attrs]|u]; [constructor|constructor| |constructor]. cbn [snd misc_fields pi_fields].
  apply Forall_singleton. constructor; [by left|].
  intros il fs [= <- <-]. split; [done|]. change (Forall shaped (map (attr_field []) (a :: attrs))).
  apply Forall_map, Forall_true. intros b. apply attr_shaped.
Qed.

(** What is behind the root element, and the end of the document. *)
Lemma trail_at latin1 x ccq tags t items src fuel : 6 * Z.of_nat N <= int_max -> xp_mem x = T -> xp_latin1 x = latin1 ->
  xp_namespaces x = [] -> addrs_below x -> drop src T = t ++ print_items items ++ [0] -> text_ok t ->
  Forall (fun i => node_ok latin1 [] i.1 /\ text_ok i.2) items -> (N - src < fuel)%nat ->
  exists new x',
    cd0_loop true fuel x ccq None tags src false =
      Ok (Some (src + length (t ++ print_items items))%nat, ccq ++ new,
          tags ++ map heap_field (items_spec latin1 [] items).2, x') /\
    kept x x' /\ segs_at latin1 new (text_segs t ++ (items_spec latin1 [] items).1) /\
    (ccq_len new <= 3 * length (t ++ print_items items))%nat.
Proof using Hs.
  intros Hsmall Hm Hlat Hns Hx E Ht Hok Hf. pose proof (text_plain _ _ _ E Ht) as Hp. pose proof (drop_at _ _ _ E) as E1.
  destruct (items_head items 0 [] ltac:(done)) as (c & r & Ec & Hc). rewrite Ec in E.
  destruct (text_run false x ccq tags c r t src Hm E Hc Hp) as (q & k & n1 & Hr & Hcl & Hn & Hl).
  destruct (Hr fuel Hf) as (f1 & Hf1 & Eq1).
  destruct (items_at latin1 [] items ltac:(apply Forall_true; intros; by apply nodes_at)
    x q k tags _ 0 [] f1 Hok Hm Hlat ltac:(by rewrite Hns) Hx E1 ltac:(done) Hf1)
    as (x' & q2 & k2 & n2 & Hr2 & Hcl2 & Hk & Hn2 & Hl2).
  destruct (gets_trans _ _ _ _ _ _ _ _ _ _ _ _ _ _ _ _ _ Eq1 Hr2) as ([|f'] & Hf' & ->); [lia|].
  pose proof Hk as (Hm' & _). exists (n1 ++ n2), x'. cbn [cd0_loop].
  rewrite Hm', Hm, (mread_head _ _ _ (drop_at _ _ _ E1)), ok_bind. cbn [Z.eqb].
  rewrite Hcl2, Hcl, length_app, <- app_assoc, Nat.add_assoc. split; [done|]. split; [done|].
  split; [rewrite Hlat in Hn; by apply Forall2_app|]. rewrite ccq_len_cat. lia.
Qed.
End reading.

(** * The document *)

(** Comments and instructions mean nothing. *)
Lemma items_nothing latin1 env items :
  Forall (fun i : xnode * list Z => ((exists u, i.1 = XComment u) \/ (exists n ws attrs, i.1 = XPi n ws attrs))) items ->
  (items_spec latin1 env items).2 = [].
Proof.
  induction 1 as [|[d t] items Hd _ IH]; [done|]. cbn [fst] in Hd.
  simpl. destruct Hd as [[u ->]|(n & ws & attrs & ->)]; simpl; by destruct (items_spec latin1 env items).
Qed.

Lemma root_head d n ws attrs c latin1 env : d = XElem n ws attrs c -> node_ok latin1 env d ->
  exists e b, print_node d = 60 :: e :: b /\ e <> 63 /\ e <> 33.
Proof.
  intros -> ((Hne & _) & H33 & H63 & _)%elem_ok_inv. destruct n as [|e n]; [done|].
  do 2 eexists. split; [reflexivity|]. split; intros ->; [by apply H63|by apply H33].
Qed.

(** The parser that copies every string reads the message of the document. *)
Lemma xml_copying_document d : xdoc_ok d -> cstring_ok (print_doc d) ->
  6 * Z.of_nat (length (print_doc d)) <= int_max ->
  forall n, xml_copying (print_doc d) n = Ok (inr (doc_message d)).
Proof.
  intros (Hdecl & Hmisc & Hsp & (n & ws & attrs & c & Er) & Hroot & Htr & Hafter & _) Hs Hmax k0.
  set (s := print_doc d) in *. set (T := s ++ [0]).
  destruct (root_head _ _ _ _ _ _ _ Er Hroot) as (e & b & Ee & H63 & H33).
  assert (T = print_miscs (xd_prolog d) ++ xd_space d ++ print_node (xd_root d) ++ xd_trail d ++
    print_items (xd_after d) ++ [0]) as ET.
  { unfold T, s, print_doc. by rewrite <- !app_assoc. }
  set (x := Xp T false None [] 0).
  set (y := if doc_latin1 d then xp_set_latin1 x true else x).
  assert (xp_mem y = T /\ xp_latin1 y = doc_latin1 d /\ xp_namespaces y = [] /\ addrs_below y) as (Hym & Hyl & Hyn & Hyb).
  { unfold y, addrs_below. destruct (doc_latin1 d); by repeat split. }
  set (src := length (print_miscs (xd_prolog d) ++ xd_space d)).
  assert (htsmsg_parse_prolog true x 0 = Ok (src, y)) as Epro.
  { unfold htsmsg_parse_prolog.
    assert (Forall misc_fits (xd_prolog d)) as Hfits.
    { unfold xd_prolog. apply Forall_app. split.
      - destruct (xd_decl d) as [[dws dattrs]|]; [|constructor]. apply Forall_singleton.
        split; [constructor|]. by apply Hdecl.
      - eapply Forall_impl; [exact Hmisc|]. intros wm (Hw & Hok & _). by split. }
    pose proof (prolog_at s Hs x (xd_prolog d) (length T) [] 0 (xd_space d) e
      (b ++ xd_trail d ++ print_items (xd_after d) ++ [0])) as Hp.
    change (xp_mem x) with T. fold T in Hp. cbn [map app] in Hp.
    rewrite Hp; [|done|done|exact Hfits|by rewrite drop_0, ET, Ee|done..|unfold T; rewrite length_app; simpl; lia].
    rewrite ok_bind. rewrite (heaps_resolve s Hs) by apply (prolog_shaped s Hs). rewrite ok_bind.
    pose proof (decl_encoding s Hs (xd_decl d) (xd_misc d)) as Henc. change (decl_latin1 (xd_decl d)) with (doc_latin1 d) in Henc.
    unfold y. rewrite <- Henc by (eapply Forall_impl; [exact Hmisc|]; by intros wm (_ & _ & Hx)).
    unfold xd_prolog. by case_match. }
  assert (drop src T = print_node (xd_root d) ++ xd_trail d ++ print_items (xd_after d) ++ [0]) as Esrc.
  { unfold src. rewrite ET, app_assoc. apply drop_app_length. }
  unfold xml_copying, xml_deserialize. fold T x. rewrite Epro, ok_bind.
  unfold htsmsg_xml_parse_cd, parse_cd, htsmsg_xml_parse_cd0.
  destruct (nodes_at s Hs (doc_latin1 d) Hmax (xd_root d) [] y [] None [] src (xd_trail d ++ print_items (xd_after d) ++ [0]) (S (length T)))
    as (x1 & n1 & (f1 & Hf1 & E1) & Hk1 & Hn1 & Hc1); [done|done|done|by rewrite Hyn|done|done|by destruct (xd_trail d), (print_items _)|unfold T; rewrite length_app; simpl; lia|].
  cbn [cc_close app] in E1. rewrite E1.
  pose proof (drop_at s Hs _ _ _ Esrc) as Etr.
  pose proof Hk1 as (Hm1 & Hl1 & Hns1 & _).
  destruct (trail_at s Hs (doc_latin1 d) x1 n1 (map heap_field (node_spec (doc_latin1 d) [] (xd_root d)).2) (xd_trail d)
    (xd_after d) _ f1 Hmax (eq_trans Hm1 Hym) (eq_trans Hl1 Hyl) (eq_trans Hns1 Hyn) ltac:(by eapply (kept_below s Hs)) Etr Htr
    ltac:(eapply Forall_impl; [exact Hafter|]; by intros i (_ & ? & ?)) Hf1) as (n2 & x2 & E2 & (Hm2 & _) & Hn2 & Hc2).
  rewrite (items_nothing (doc_latin1 d) [] (xd_after d)), app_nil_r in E2
    by (eapply Forall_impl; [exact Hafter|]; by intros i (? & _)).
  rewrite E2, ok_bind. rewrite Hm2, Hm1, Hym.
  assert (segs_at s (doc_latin1 d) (n1 ++ n2) ((node_spec (doc_latin1 d) [] (xd_root d)).1 ++
    text_segs (xd_trail d) ++ (items_spec (doc_latin1 d) [] (xd_after d)).1)) as Hq
    by (by apply Forall2_app).
  destruct (trims_at s Hs _ _ _ Hq) as (q1 & q2 & Eq1 & Eq2 & Hq2 & Hlen). fold T in Eq1, Eq2.
  rewrite Eq1, ok_bind, Eq2, ok_bind. cbv zeta.
  destruct (measure_spec s Hs T (reverse q2) 0 0) as (bs & k & Em & _).
  { clear - Hs Hq2. induction Hq2 as [|cc g q l Hc _ IH]; constructor; [by eapply seg_at_readable|done]. }
  { done. }
  { rewrite (ccq_len_cat s Hs) in Hlen. pose proof (f_equal length ET) as HT. unfold T in HT.
    rewrite !length_app in HT. rewrite length_app in Hc2. simpl in HT. lia. }
  rewrite Em, !ok_bind. cbn [app]. rewrite (heaps_resolve s Hs) by apply (node_shaped s Hs).
  by rewrite ok_bind.
Qed.

(** C38: htsmsg_xml_deserialize_cstr reads a document that is printed from a
    tree and returns the message the tree stands for: a field for each element
    with the text and references between its tags (control characters skipped
    at the start of a piece, blank pieces dropped at both ends, Latin-1 recoded
    when the declaration names it), the attributes before the child elements,
    CDATA taken literally, and a name whose prefix is declared in an enclosing
    element split into its local part and namespace; comments, instructions,
    the declaration and the DOCTYPE add nothing.  This is the program, which
    writes its terminators into the document while it is parsing it.

    The trees ([xdoc_ok]) have one root element; elements and empty tags with
    attributes; text, decimal, hexadecimal and named references, CDATA sections,
    comments and instructions in elements; a declaration, comments,
    instructions and a DOCTYPE without internal subset before the root element,
    comments and instructions behind it.  Left out are the documents on which
    the code does something else ([xml_defects]): an element whose text is a
    single reference, and a value of an attribute with a reference; and those
    for which XML asks for a normalisation: carriage returns, and control
    characters in values.  Instructions have attributes as their content.
    [document_ok] bounds the length, and leaves out text in CDATA sections,
    comments and values that looks like a tag whose name runs into a slash. *)
Theorem htsmsg_xml_document d n : xdoc_ok d -> document_ok (print_doc d) ->
  htsmsg_xml_deserialize_cstr (print_doc d) n = Ok (inr (doc_message d)).
Proof.
  intros Hd Hok. pose proof Hok as (Hs & Hmax & _). pose proof (xml_copying_document d Hd Hs Hmax n) as E.
  pose proof (xml_inplace (print_doc d) n Hok) as H. rewrite E in H.
  destruct (htsmsg_xml_deserialize_cstr (print_doc d) n) as [[e|m]|f];
    [by destruct H as (e' & [=] & _)|by injection H as <-|by destruct H].
Qed.

Definition example_doc : xdoc :=
  Xdoc (Some ([32], [Xattr (lit "version") false (lit "1.0") [32];
                     Xattr (lit "encoding") true (lit "ISO-8859-1") []]))
    [([10], MComment (lit " <x> ")); ([], MPi (lit "style") [32] [Xattr (lit "href") false (lit "a?b") []]);
     ([10], MDoctype (lit " r SYSTEM 'r.dtd'"))]
    [10]
    (XElem (lit "r") [32]
       [Xattr (lit "xmlns:p") false (lit "urn:x") [32]; Xattr (lit "p:k") true (lit "v>") []]
       (Some ([10],
          [(XElem (lit "p:a") [] [] (Some (lit " caf" ++ [233],
              [(XEntity (lit "amp"), lit " b"); (XComment (lit "-"), []); (XPi (lit "go") [] [], []);
               (XCharRef 8364, []); (XHexRef (lit "20aC"), []); (XCdata (lit "<x>]]"), [32])])), [10]);
           (XElem (lit "b") [9] [Xattr (lit "k") false [] []] None, lit "tail")])))
    [10] [(XComment (lit "end"), [10])].

Definition example_message : htsmsg :=
  Msg false
    [HField (Some (lit "r")) false None (HStr (lit "tail"))
       (Some (Msg false
          [HField (Some (lit "k")) true (Some (lit "urn:x")) (HStr (lit "v>")) None;
           HField (Some (lit "a")) false (Some (lit "urn:x"))
             (HStr (lit " caf" ++ [195; 169] ++ lit "& b" ++ [226; 130; 172; 226; 130; 172] ++ lit "<x>]]")) None;
           HField (Some (lit "b")) false None HMap
             (Some (Msg false [HField (Some (lit "k")) true None (HStr []) None]))]))].

Ltac xml_text := apply (bool_decide_unpack _); vm_compute; exact I.
Ltac xml_ok :=
  repeat match goal with
  | |- _ /\ _ => split
  | |- Forall _ (_ :: _) => constructor
  | |- Forall _ [] => constructor
  | |- body_ok _ => intros ?; vm_compute; discriminate
  | |- node_ok _ _ _ => constructor
  | |- attr_ok _ => unfold attr_ok, xname_ok
  | |- value_ok _ => unfold value_ok
  | |- pi_ok _ _ _ => unfold pi_ok
  | |- misc_ok _ => unfold misc_ok
  | |- ws_ok _ => unfold ws_ok
  | |- text_ok _ => unfold text_ok
  | |- forall t items, _ = Some (t, items) -> _ => intros ? ? E; first [discriminate E | injection E as <- <-]
  | |- [] <> [] -> _ => intros H; by destruct H
  | |- _ -> _ <> _ => intros _
  end.

Lemma htsmsg_xml_document_witness :
  xdoc_ok example_doc /\ document_ok (print_doc example_doc) /\
  htsmsg_xml_deserialize_cstr (print_doc example_doc) 100 = Ok (inr example_message).
Proof.
  assert (xdoc_ok example_doc) as H1.
  { split; [|split; [|split; [|split; [|split; [|split; [|split]]]]]].
    - intros ws attrs [= <- <-]. xml_ok; try xml_text; try done.
    - cbn [xd_misc example_doc]. xml_ok; try xml_text; done.
    - xml_text.
    - do 4 eexists. reflexivity.
    - cbn [xd_root example_doc]. xml_ok. all: try xml_text; done.
    - xml_ok; try xml_text; done.
    - cbn [xd_after example_doc]. xml_ok; try xml_text; try done. left. by eexists.
    - xml_text. }
  assert (document_ok (print_doc example_doc)) as H2.
  { split; [xml_text|]. split; [vm_compute; discriminate|reflexivity]. }
  split; [exact H1|]. split; [exact H2|].
  rewrite (htsmsg_xml_document example_doc 100 H1 H2). vm_compute. reflexivity.
Defined.

(** What the program does with some documents that are left out above. *)
Lemma xml_defects :
  (* the body of the element points into a node that has been freed *)
  htsmsg_xml_deserialize_cstr (lit "<a>&amp;</a>") 200 = Fault Uninitialised /\
  (* the prolog goes on behind a NULL pointer *)
  htsmsg_xml_deserialize_cstr (lit "<!-- <a/>") 200 = Fault NullDeref /\
  htsmsg_xml_deserialize_cstr (lit "<?xml <a/>") 200 = Fault NullDeref /\
  (* a bracket that does not end the DOCTYPE skips the byte behind it *)
  htsmsg_xml_deserialize_cstr (lit "<!DOCTYPE <a>") 200 = Fault OobRead /\
  (* a reference is converted to an int without a bound *)
  htsmsg_xml_deserialize_cstr (lit "<a>&#99999999999;</a>") 200 = Fault SignedOverflow /\
  (* the terminator of a tag name overwrites the name of an attribute *)
  htsmsg_xml_deserialize_cstr (lit "<a/b='c'>d</a>") 200 =
    Ok (inr (Msg false [HField (Some (lit "a")) false None (HStr (lit "d"))
      (Some (Msg false [HField (Some []) true None (HStr (lit "c")) None]))])) /\
  (* references in the value of an attribute stay as they are *)
  htsmsg_xml_deserialize_cstr (lit "<a k='&amp;'/>") 200 =
    Ok (inr (Msg false [HField (Some (lit "a")) false None HMap
      (Some (Msg false [HField (Some (lit "k")) true None (HStr (lit "&amp;")) None]))])) /\
  (* an element need not be closed, nor by its own name *)
  htsmsg_xml_deserialize_cstr (lit "<a>x</b>") 200 = htsmsg_xml_deserialize_cstr (lit "<a>x") 200.
Proof. by vm_compute. Qed.
