(* ===== verification/PropStore.v ===== *)
(** The property tree: its objects (properties, subscriptions, couriers), the
    computations on them, and how notifications are built, queued and
    delivered (prop_core.c, prop_i.h).  The store is everything behind
    [prop_mutex]; a pointer is the number of its object.  What a callback does
    is its client's affair: the store records the calls in order. *)
From S2P Require Import Prelude.
From Stdlib Require Import SpecFloat.

Local Open Scope Z_scope.

Notation pid := nat (only parsing).
Notation sid := nat (only parsing).
Notation cid := nat (only parsing).

(** * Objects *)

(** The type of a property and its payload.  The bounds of a number are
    indeterminate until a clipping range is set. *)
Inductive pval :=
| PVoid
| PDir (childs : list pid) (selected : option pid)
| PRstring (s : list Z) (ty : Z)
| PCstring (s : list Z)
| PFloat (v : spec_float) (range : option (spec_float * spec_float))
| PInt (v : Z) (range : option (Z * Z))
| PUri (title uri : option (list Z))
| PProp (target : option pid)
| PZombie.

Record prop := Prop_ {
  hp_refcount : Z;
  hp_name : option (list Z);
  hp_parent : option pid;
  hp_originator : option pid;
  hp_targets : list pid;
  hp_value_subscriptions : list sid;
  hp_canonical_subscriptions : list sid;
  hp_val : pval;
  hp_xref : Z;
  hp_clipped : bool;             (* PROP_CLIPPED_VALUE *)
  hp_noalloc : bool;             (* PROP_NAME_NOT_ALLOCATED *)
  hp_xrefed_originator : bool;   (* PROP_XREFED_ORIGINATOR *)
  hp_monitored : bool;           (* PROP_MONITORED *)
  hp_multi_sub : bool;           (* PROP_MULTI_SUB *)
  hp_multi_notify : bool;        (* PROP_MULTI_NOTIFY *)
  hp_marked : bool               (* PROP_MARKED *)
}.

Record sub_flags := SubFlags {
  sf_direct_update : bool;
  sf_no_initial_update : bool;
  sf_track_destroy : bool;
  sf_monitor : bool;
  sf_expedite : bool;
  sf_multi : bool;
  sf_internal : bool;
  sf_ignore_void : bool;
  sf_track_destroy_exp : bool;
  sf_singleton : bool
}.

(** [hps_origins] is [hps_origin], one element, or the list [hps_pots] of
    several; [hps_client] stands for the callback and its opaque value. *)
Record sub := Sub {
  hps_client : Z;
  hps_flags : sub_flags;
  hps_courier : option cid;
  hps_value_prop : option pid;
  hps_canonical_prop : option pid;
  hps_origins : list pid;
  hps_refcount : Z;
  hps_zombie : bool;
  hps_pending_unlink : bool
}.

(** What a callback is told.  The second property of [SelectChild] is [None]
    when the notification was built without one being stored. *)
Inductive pevent :=
| SetVoid (p : option pid)
| SetDir (p : option pid)
| SetRstring (s : list Z) (p : pid) (ty : Z)
| SetCstring (s : list Z) (p : pid)
| SetInt (v : Z) (p : pid)
| SetFloat (v : spec_float) (p : pid) (how : Z)
| SetUri (title uri : option (list Z)) (p : pid)
| SetProp (target : option pid) (p : pid)
| AddChild (c : pid) (selected : bool)
| AddChildBefore (c : pid) (before : option pid)
| AddChildVectorDirect (cs : list pid)
| DelChild (c : pid)
| MoveChild (c : pid) (before : option pid)
| ReqMoveChild (c : pid) (before : option pid)
| SelectChild (c : option pid) (extra : option (option pid))
| ReqNewChild
| SuggestFocus (c : pid)
| Destroyed
| MonitorActive
| WantMoreChilds
| HaveMoreChilds (yes : bool).

Record notify := Notify { hpn_sub : sid; hpn_event : pevent }.

Record courier := Courier {
  pc_queue_exp : list notify;
  pc_queue_nor : list notify;
  pc_refcount : Z
}.

(** [st_global] is the queue of the global dispatch, a list of notifications
    for each subscription that has some; [st_calls] the calls of callbacks;
    [st_pnq] the queue [pnq] of a call of [prop_link0]. *)
Record store := Store {
  st_props : gmap pid prop;
  st_subs : gmap sid sub;
  st_couriers : gmap cid courier;
  st_global : list (sid * list notify);
  st_calls : list (sid * pevent);
  st_pnq : list notify;
  st_next : nat;
  st_root : pid
}.

(** * Computations *)

Definition M (A : Type) : Type := store -> res (A * store).

#[export] Instance M_ret : MRet M := fun A a st => Ok (a, st).
#[export] Instance M_bind : MBind M := fun A B k m st =>
  match m st with Ok (a, st) => k a st | Fault f => Fault f end.

Definition fail {A} (f : fault) : M A := fun _ => Fault f.
Definition lift {A} (r : res A) : M A := fun st =>
  match r with Ok a => Ok (a, st) | Fault f => Fault f end.
Definition passert (b : bool) : M unit := if b then mret tt else fail AssertFailed.

Definition get_prop (p : pid) : M prop := fun st =>
  match st_props st !! p with Some x => Ok (x, st) | None => Fault UseAfterFree end.
Definition get_sub (s : sid) : M sub := fun st =>
  match st_subs st !! s with Some x => Ok (x, st) | None => Fault UseAfterFree end.

Definition set_props (f : gmap pid prop -> gmap pid prop) (st : store) : store :=
  Store (f (st_props st)) (st_subs st) (st_couriers st) (st_global st) (st_calls st) (st_pnq st)
    (st_next st) (st_root st).
Definition set_subs (f : gmap sid sub -> gmap sid sub) (st : store) : store :=
  Store (st_props st) (f (st_subs st)) (st_couriers st) (st_global st) (st_calls st) (st_pnq st)
    (st_next st) (st_root st).
Definition set_couriers (f : gmap cid courier -> gmap cid courier) (st : store) : store :=
  Store (st_props st) (st_subs st) (f (st_couriers st)) (st_global st) (st_calls st) (st_pnq st)
    (st_next st) (st_root st).
Definition set_global (g : list (sid * list notify)) (st : store) : store :=
  Store (st_props st) (st_subs st) (st_couriers st) g (st_calls st) (st_pnq st) (st_next st) (st_root st).
Definition add_call (s : sid) (e : pevent) (st : store) : store :=
  Store (st_props st) (st_subs st) (st_couriers st) (st_global st) (st_calls st ++ [(s, e)]) (st_pnq st)
    (st_next st) (st_root st).
Definition set_pnq (q : list notify) (st : store) : store :=
  Store (st_props st) (st_subs st) (st_couriers st) (st_global st) (st_calls st) q (st_next st) (st_root st).

Definition modify (f : store -> store) : M unit := fun st => Ok (tt, f st).
Definition gets {A} (f : store -> A) : M A := fun st => Ok (f st, st).

Definition put_prop (p : pid) (x : prop) : M unit := modify (set_props (insert p x)).
Definition put_sub (s : sid) (x : sub) : M unit := modify (set_subs (insert s x)).
Definition upd_prop (p : pid) (f : prop -> prop) : M unit := x ← get_prop p; put_prop p (f x).
Definition upd_sub (s : sid) (f : sub -> sub) : M unit := x ← get_sub s; put_sub s (f x).

(** A new object. *)
Definition new_id : M nat := fun st =>
  Ok (st_next st,
      Store (st_props st) (st_subs st) (st_couriers st) (st_global st) (st_calls st) (st_pnq st)
        (S (st_next st)) (st_root st)).

(** A recursion over the tree is given the number of properties as fuel. *)
Definition here {A} (k : nat -> M A) : M A := fun st => k (S (size (st_props st))) st.

Fixpoint forM {A} (l : list A) (f : A -> M unit) : M unit :=
  match l with
  | [] => mret tt
  | x :: l => _ ← f x; forM l f
  end.

(** * Fields *)

Definition set_refcount (n : Z) (x : prop) : prop :=
  Prop_ n (hp_name x) (hp_parent x) (hp_originator x) (hp_targets x) (hp_value_subscriptions x)
    (hp_canonical_subscriptions x) (hp_val x) (hp_xref x) (hp_clipped x) (hp_noalloc x)
    (hp_xrefed_originator x) (hp_monitored x) (hp_multi_sub x) (hp_multi_notify x) (hp_marked x).
Definition set_name (n : option (list Z)) (noalloc : bool) (x : prop) : prop :=
  Prop_ (hp_refcount x) n (hp_parent x) (hp_originator x) (hp_targets x) (hp_value_subscriptions x)
    (hp_canonical_subscriptions x) (hp_val x) (hp_xref x) (hp_clipped x) noalloc
    (hp_xrefed_originator x) (hp_monitored x) (hp_multi_sub x) (hp_multi_notify x) (hp_marked x).
Definition set_parent (q : option pid) (x : prop) : prop :=
  Prop_ (hp_refcount x) (hp_name x) q (hp_originator x) (hp_targets x) (hp_value_subscriptions x)
    (hp_canonical_subscriptions x) (hp_val x) (hp_xref x) (hp_clipped x) (hp_noalloc x)
    (hp_xrefed_originator x) (hp_monitored x) (hp_multi_sub x) (hp_multi_notify x) (hp_marked x).
Definition set_originator (o : option pid) (x : prop) : prop :=
  Prop_ (hp_refcount x) (hp_name x) (hp_parent x) o (hp_targets x) (hp_value_subscriptions x)
    (hp_canonical_subscriptions x) (hp_val x) (hp_xref x) (hp_clipped x) (hp_noalloc x)
    (hp_xrefed_originator x) (hp_monitored x) (hp_multi_sub x) (hp_multi_notify x) (hp_marked x).
Definition set_targets (l : list pid) (x : prop) : prop :=
  Prop_ (hp_refcount x) (hp_name x) (hp_parent x) (hp_originator x) l (hp_value_subscriptions x)
    (hp_canonical_subscriptions x) (hp_val x) (hp_xref x) (hp_clipped x) (hp_noalloc x)
    (hp_xrefed_originator x) (hp_monitored x) (hp_multi_sub x) (hp_multi_notify x) (hp_marked x).
Definition set_vsubs (l : list sid) (x : prop) : prop :=
  Prop_ (hp_refcount x) (hp_name x) (hp_parent x) (hp_originator x) (hp_targets x) l
    (hp_canonical_subscriptions x) (hp_val x) (hp_xref x) (hp_clipped x) (hp_noalloc x)
    (hp_xrefed_originator x) (hp_monitored x) (hp_multi_sub x) (hp_multi_notify x) (hp_marked x).
Definition set_csubs (l : list sid) (x : prop) : prop :=
  Prop_ (hp_refcount x) (hp_name x) (hp_parent x) (hp_originator x) (hp_targets x)
    (hp_value_subscriptions x) l (hp_val x) (hp_xref x) (hp_clipped x) (hp_noalloc x)
    (hp_xrefed_originator x) (hp_monitored x) (hp_multi_sub x) (hp_multi_notify x) (hp_marked x).
Definition set_val (v : pval) (x : prop) : prop :=
  Prop_ (hp_refcount x) (hp_name x) (hp_parent x) (hp_originator x) (hp_targets x)
    (hp_value_subscriptions x) (hp_canonical_subscriptions x) v (hp_xref x) (hp_clipped x)
    (hp_noalloc x) (hp_xrefed_originator x) (hp_monitored x) (hp_multi_sub x) (hp_multi_notify x)
    (hp_marked x).
Definition set_xref (n : Z) (x : prop) : prop :=
  Prop_ (hp_refcount x) (hp_name x) (hp_parent x) (hp_originator x) (hp_targets x)
    (hp_value_subscriptions x) (hp_canonical_subscriptions x) (hp_val x) n (hp_clipped x)
    (hp_noalloc x) (hp_xrefed_originator x) (hp_monitored x) (hp_multi_sub x) (hp_multi_notify x)
    (hp_marked x).
(** The flags of a property; [None] leaves one as it is. *)
Definition set_flags (clipped xrefed monitored multi_sub multi_notify marked : option bool) (x : prop) : prop :=
  Prop_ (hp_refcount x) (hp_name x) (hp_parent x) (hp_originator x) (hp_targets x)
    (hp_value_subscriptions x) (hp_canonical_subscriptions x) (hp_val x) (hp_xref x)
    (default (hp_clipped x) clipped) (hp_noalloc x) (default (hp_xrefed_originator x) xrefed)
    (default (hp_monitored x) monitored) (default (hp_multi_sub x) multi_sub)
    (default (hp_multi_notify x) multi_notify) (default (hp_marked x) marked).

Definition sub_set_value (v : option pid) (x : sub) : sub :=
  Sub (hps_client x) (hps_flags x) (hps_courier x) v (hps_canonical_prop x) (hps_origins x)
    (hps_refcount x) (hps_zombie x) (hps_pending_unlink x).
Definition sub_set_canonical (v : option pid) (x : sub) : sub :=
  Sub (hps_client x) (hps_flags x) (hps_courier x) (hps_value_prop x) v (hps_origins x)
    (hps_refcount x) (hps_zombie x) (hps_pending_unlink x).
Definition sub_set_origins (l : list pid) (x : sub) : sub :=
  Sub (hps_client x) (hps_flags x) (hps_courier x) (hps_value_prop x) (hps_canonical_prop x) l
    (hps_refcount x) (hps_zombie x) (hps_pending_unlink x).
Definition sub_set_refcount (n : Z) (x : sub) : sub :=
  Sub (hps_client x) (hps_flags x) (hps_courier x) (hps_value_prop x) (hps_canonical_prop x)
    (hps_origins x) n (hps_zombie x) (hps_pending_unlink x).
Definition sub_set_zombie (x : sub) : sub :=
  Sub (hps_client x) (hps_flags x) (hps_courier x) (hps_value_prop x) (hps_canonical_prop x)
    (hps_origins x) (hps_refcount x) true (hps_pending_unlink x).
Definition sub_set_pending (b : bool) (x : sub) : sub :=
  Sub (hps_client x) (hps_flags x) (hps_courier x) (hps_value_prop x) (hps_canonical_prop x)
    (hps_origins x) (hps_refcount x) (hps_zombie x) b.

(** Taking an element out of a list. *)
Definition unlink (x : nat) (l : list nat) : list nat := filter (fun y => y <> x) l.

(** * References *)

(** [prop_ref_inc], [prop_ref_dec] and [prop_ref_dec_locked]: the memory goes
    with the last reference. *)
Definition prop_ref_inc (p : option pid) : M (option pid) :=
  match p with
  | None => mret None
  | Some q => _ ← upd_prop q (fun x => set_refcount (hp_refcount x + 1) x); mret p
  end.

Definition is_zombie (v : pval) : bool := match v with PZombie => true | _ => false end.

Definition prop_ref_dec (p : option pid) : M unit :=
  match p with
  | None => mret tt
  | Some q =>
      x ← get_prop q;
      if hp_refcount x =? 1 then
        _ ← passert (is_zombie (hp_val x));
        modify (set_props (delete q))
      else put_prop q (set_refcount (hp_refcount x - 1) x)
  end.

Definition prop_xref_addref (p : option pid) : M (option pid) :=
  match p with
  | None => mret None
  | Some q =>
      x ← get_prop q;
      _ ← passert (hp_xref x <? 255);
      _ ← put_prop q (set_xref (hp_xref x + 1) x);
      mret p
  end.

Definition prop_sub_ref_dec_locked (s : sid) : M unit :=
  x ← get_sub s;
  if hps_refcount x =? 1 then modify (set_subs (delete s))
  else put_sub s (sub_set_refcount (hps_refcount x - 1) x).

(** * Queues *)

Definition get_courier (c : cid) : M courier := fun st =>
  match st_couriers st !! c with Some x => Ok (x, st) | None => Fault UseAfterFree end.
Definition put_courier (c : cid) (x : courier) : M unit := modify (set_couriers (insert c x)).

(** The notifications of a subscription in the global dispatch stay in order. *)
Fixpoint psd_append (n : notify) (g : list (sid * list notify)) : list (sid * list notify) :=
  match g with
  | [] => [(hpn_sub n, [n])]
  | (s, q) :: g =>
      if decide (s = hpn_sub n) then (s, q ++ [n]) :: g else (s, q) :: psd_append n g
  end.

Definition courier_enqueue0 (n : notify) (expedite : bool) : M unit :=
  s ← get_sub (hpn_sub n);
  match hps_courier s with
  | None => g ← gets st_global; modify (set_global (psd_append n g))
  | Some c =>
      pc ← get_courier c;
      put_courier c
        (if expedite then Courier (pc_queue_exp pc ++ [n]) (pc_queue_nor pc) (pc_refcount pc)
         else Courier (pc_queue_exp pc) (pc_queue_nor pc ++ [n]) (pc_refcount pc))
  end.

Definition courier_enqueue (n : notify) : M unit :=
  s ← get_sub (hpn_sub n); courier_enqueue0 n (sf_expedite (hps_flags s)).

(** A notification holds a reference on its subscription. *)
Definition get_notify (s : sid) (e : pevent) : M notify :=
  _ ← upd_sub s (fun x => sub_set_refcount (hps_refcount x + 1) x); mret (Notify s e).

Definition call (s : sid) (e : pevent) : M unit := modify (add_call s e).

(** * Notifications *)

(** [prop_build_notify_value]: [direct] asks for a call, [deferred] for the
    queue of [prop_link0]. *)
Definition value_event (p : pid) (v : pval) (how : Z) : option pevent :=
  match v with
  | PRstring s ty => Some (SetRstring s p ty)
  | PCstring s => Some (SetCstring s p)
  | PUri t u => Some (SetUri t u p)
  | PFloat f _ => Some (SetFloat f p how)
  | PInt i _ => Some (SetInt i p)
  | PDir _ _ => Some (SetDir (Some p))
  | PVoid => Some (SetVoid (Some p))
  | PProp t => Some (SetProp t p)
  | PZombie => None
  end.
(** A call reports a reference to a property as a directory. *)
Definition direct_event (p : pid) (v : pval) (how : Z) : option pevent :=
  match v with
  | PProp t => Some (SetDir t)
  | _ => value_event p v how
  end.

Definition is_void (v : pval) : bool := match v with PVoid => true | _ => false end.

Definition prop_build_notify_value (s : sid) (direct : bool) (p : pid) (deferred : bool) (how : Z) : M unit :=
  y ← get_sub s;
  x ← get_prop p;
  if sf_ignore_void (hps_flags y) && is_void (hp_val x) then mret tt
  else if (direct || sf_internal (hps_flags y)) && negb deferred then
    match direct_event p (hp_val x) how with
    | Some e => call s e
    | None => fail AssertFailed
    end
  else
    match value_event p (hp_val x) how with
    | None => fail AssertFailed
    | Some e =>
        n ← get_notify s e;
        _ ← prop_ref_inc (Some p);
        _ ← match hp_val x with PProp t => prop_ref_inc t | _ => mret None end;
        if deferred then q ← gets st_pnq; modify (set_pnq (q ++ [n]))
        else courier_enqueue n
    end.

Definition prop_notify_void (s : sid) : M unit :=
  y ← get_sub s;
  if sf_ignore_void (hps_flags y) then mret tt
  else if sf_internal (hps_flags y) then call s (SetVoid (hps_value_prop y))
  else n ← get_notify s (SetVoid None); courier_enqueue n.

Definition prop_notify_destroyed (s : sid) : M unit :=
  y ← get_sub s;
  if sf_internal (hps_flags y) then call s Destroyed
  else
    n ← get_notify s Destroyed;
    courier_enqueue0 n (sf_expedite (hps_flags y) || sf_track_destroy_exp (hps_flags y)).

(** The subscribers of [p], and those of several levels above it. *)
Fixpoint notify_multi (fuel : nat) (p : pid) : M unit :=
  match fuel with
  | O => fail NoFuel
  | S fuel =>
      x ← get_prop p;
      match hp_parent x with
      | None => mret tt
      | Some q =>
          y ← get_prop q;
          _ ← (if hp_multi_sub y then
                 forM (hp_value_subscriptions y) (fun s =>
                   z ← get_sub s;
                   if sf_multi (hps_flags z) then prop_build_notify_value s false q false 0 else mret tt)
               else mret tt);
          notify_multi fuel q
      end
  end.

Definition skipped (s : sid) (skipme : option sid) : bool := bool_decide (skipme = Some s).

Definition prop_notify_value (p : pid) (skipme : option sid) (how : Z) : M unit :=
  x ← get_prop p;
  _ ← forM (hp_value_subscriptions x) (fun s =>
        if skipped s skipme then mret tt
        else
          y ← get_sub s;
          match hps_value_prop y with
          | Some v => prop_build_notify_value s false v false how
          | None => fail NullDeref
          end);
  if hp_multi_notify x then here (fun n => notify_multi n p) else mret tt.

(** The properties of an event a notification takes references on. *)
Definition event_props (e : pevent) : list (option pid) :=
  match e with
  | AddChild c _ | DelChild c | SuggestFocus c => [Some c]
  | AddChildBefore c b | MoveChild c b | ReqMoveChild c b => [Some c; b]
  | SelectChild c None => [c]
  | SelectChild c (Some x) => [c; x]
  | _ => []
  end.

(** [prop_build_notify_child] and [prop_build_notify_child2]. *)
Definition prop_build_notify_child (s : sid) (e : pevent) (direct : bool) : M unit :=
  y ← get_sub s;
  if direct || sf_internal (hps_flags y) then call s e
  else
    n ← get_notify s e;
    _ ← forM (event_props e) (fun p => _ ← prop_ref_inc p; mret tt);
    courier_enqueue n.

(** [prop_notify_child] and [prop_notify_child2] *)
Definition prop_notify_child (parent : pid) (e : pevent) (skipme : option sid) : M unit :=
  x ← get_prop parent;
  forM (hp_value_subscriptions x) (fun s =>
    if skipped s skipme then mret tt else prop_build_notify_child s e false).

(** Events without a property. *)
Definition prop_send_event (p : pid) (e : pevent) : M unit :=
  x ← get_prop p;
  forM (hp_value_subscriptions x) (fun s =>
    y ← get_sub s;
    if sf_internal (hps_flags y) then call s e
    else n ← get_notify s e; courier_enqueue n).

Definition prop_send_subscription_monitor_active (p : pid) : M unit :=
  x ← get_prop p;
  forM (hp_value_subscriptions x) (fun s =>
    y ← get_sub s;
    if sf_monitor (hps_flags y) then n ← get_notify s MonitorActive; courier_enqueue n else mret tt).

(** * Delivery *)

(** The references dropped with a notification.  [SET_PROP] drops the one on
    the target only. *)
Definition payload_props (e : pevent) : res (list (option pid)) :=
  match e with
  | SetDir p | SetVoid p => Ok [p]
  | SetRstring _ p _ | SetCstring _ p | SetInt _ p | SetFloat _ p _ | SetUri _ _ p => Ok [Some p]
  | SetProp t _ => Ok [t]
  | AddChild c _ | DelChild c | SuggestFocus c => Ok [Some c]
  | AddChildBefore c b | MoveChild c b | ReqMoveChild c b => Ok [b; Some c]
  | SelectChild _ None => Fault Uninitialised
  | SelectChild c (Some x) => Ok [x; c]
  | AddChildVectorDirect _ | ReqNewChild | Destroyed | MonitorActive | WantMoreChilds
  | HaveMoreChilds _ => Ok []
  end.

Definition prop_notify_free_payload (n : notify) : M unit :=
  ps ← lift (payload_props (hpn_event n)); forM ps prop_ref_dec.

Definition prop_notify_free (n : notify) : M unit :=
  _ ← prop_notify_free_payload n; prop_sub_ref_dec_locked (hpn_sub n).

Definition notify_invoke (n : notify) : M unit :=
  ps ← lift (payload_props (hpn_event n));
  _ ← call (hpn_sub n) (hpn_event n);
  forM ps prop_ref_dec.

Definition prop_dispatch_one (n : notify) : M unit :=
  s ← get_sub (hpn_sub n);
  _ ← passert (negb (sf_internal (hps_flags s)));
  if hps_zombie s then prop_notify_free_payload n else notify_invoke n.

Definition prop_notify_dispatch (q : list notify) : M unit :=
  _ ← forM q prop_dispatch_one;
  forM q (fun n => prop_sub_ref_dec_locked (hpn_sub n)).

Definition prop_courier_poll (c : cid) : M unit :=
  pc ← get_courier c;
  _ ← put_courier c (Courier [] [] (pc_refcount pc));
  prop_notify_dispatch (pc_queue_exp pc ++ pc_queue_nor pc).

(** One round of the thread [prop_courier]: all expedited notifications and one
    of the others. *)
Definition prop_courier_round (c : cid) : M unit :=
  pc ← get_courier c;
  let '(first, rest) := match pc_queue_nor pc with n :: q => ([n], q) | [] => ([], []) end in
  _ ← put_courier c (Courier [] rest (pc_refcount pc));
  _ ← prop_notify_dispatch (pc_queue_exp pc);
  prop_notify_dispatch first.

Definition prop_courier_create : M cid :=
  c ← new_id; _ ← put_courier c (Courier [] [] 0); mret c.
