(* ===== verification/PropTree.v ===== *)
(** The operations of the property tree (prop_core.c): creation, destruction,
    the order of children, links between properties, values with their clipping
    ranges, look-up of paths, and subscriptions. *)
From S2P Require Import Prelude Clib PropStore.
From Stdlib Require Import SpecFloat.

Local Open Scope Z_scope.

(** * Children *)

Definition childs (v : pval) : list pid := match v with PDir cs _ => cs | _ => [] end.

(** [TAILQ_NEXT]: the successor of an element; the field of one that is in no
    list is stale. *)
Fixpoint after (c : pid) (l : list pid) : option (option pid) :=
  match l with
  | [] => None
  | d :: l => if decide (d = c) then Some (head l) else after c l
  end.
Definition next_child (p c : pid) : M (option pid) :=
  x ← get_prop p;
  match after c (childs (hp_val x)) with Some n => mret n | None => fail UseAfterFree end.

Fixpoint insert_before (b c : pid) (l : list pid) : option (list pid) :=
  match l with
  | [] => None
  | d :: l => if decide (d = b) then Some (c :: d :: l) else l ← insert_before b c l; Some (d :: l)
  end.
Fixpoint insert_after (a c : pid) (l : list pid) : option (list pid) :=
  match l with
  | [] => None
  | d :: l => if decide (d = a) then Some (d :: c :: l) else l ← insert_after a c l; Some (d :: l)
  end.

(** The links of an element of another list would be overwritten. *)
Definition edit_childs (p : pid) (f : list pid -> option (list pid)) : M unit :=
  x ← get_prop p;
  match hp_val x with
  | PDir cs sel =>
      match f cs with
      | Some cs => put_prop p (set_val (PDir cs sel) x)
      | None => fail OobWrite
      end
  | _ => fail OobWrite
  end.
Definition insert_tail (c : pid) (l : list pid) : option (list pid) := Some (l ++ [c]).
Definition remove_child (c : pid) (l : list pid) : option (list pid) :=
  if decide (c ∈ l) then Some (unlink c l) else None.
Definition place (b : option pid) (c : pid) : list pid -> option (list pid) :=
  match b with Some b => insert_before b c | None => insert_tail c end.

Definition deselect (p c : pid) : M unit :=
  x ← get_prop p;
  match hp_val x with
  | PDir cs (Some d) => if decide (d = c) then put_prop p (set_val (PDir cs None) x) else mret tt
  | _ => mret tt
  end.

(** [TAILQ_FOREACH], and the loops that read the successor first. *)
Fixpoint foreach_child (fuel : nat) (p : pid) (c : option pid) (body : pid -> M unit) : M unit :=
  match c with
  | None => mret tt
  | Some c =>
      match fuel with
      | O => fail NoFuel
      | S fuel => _ ← body c; n ← next_child p c; foreach_child fuel p n body
      end
  end.
Fixpoint foreach_child_safe (fuel : nat) (p : pid) (c : option pid) (body : pid -> M unit) : M unit :=
  match c with
  | None => mret tt
  | Some c =>
      match fuel with
      | O => fail NoFuel
      | S fuel => n ← next_child p c; _ ← body c; foreach_child_safe fuel p n body
      end
  end.
Definition first_child (p : pid) : M (option pid) := x ← get_prop p; mret (head (childs (hp_val x))).

(** A child by its name. *)
Fixpoint child_named (name : list Z) (cs : list pid) : M (option pid) :=
  match cs with
  | [] => mret None
  | c :: cs =>
      x ← get_prop c;
      if decide (hp_name x = Some name) then mret (Some c) else child_named name cs
  end.

(** * Flags *)

Fixpoint prop_flood_flag (fuel : nat) (p : pid) (b : bool) : M unit :=
  match fuel with
  | O => fail NoFuel
  | S fuel =>
      x ← get_prop p;
      _ ← put_prop p (set_flags None None None None (Some b) None x);
      forM (childs (hp_val x)) (fun c => prop_flood_flag fuel c b)
  end.
Definition prop_flood_flag_on_childs (p : pid) (b : bool) : M unit :=
  x ← get_prop p; forM (childs (hp_val x)) (fun c => here (fun n => prop_flood_flag n c b)).

Definition prop_set_multi (p : pid) : M unit :=
  x ← get_prop p;
  if hp_multi_sub x then mret tt
  else
    _ ← put_prop p (set_flags None None None (Some true) None None x);
    prop_flood_flag_on_childs p true.
Definition prop_clr_multi (p : pid) : M unit :=
  x ← get_prop p;
  _ ← put_prop p (set_flags None None None (Some false) None None x);
  if hp_multi_notify x then mret tt else prop_flood_flag_on_childs p false.

(** * Destruction *)

(** The first subscription that names a property below [p]. *)
Fixpoint prop_check_canonical_subs_descending (fuel : nat) (p : pid) : M (option sid) :=
  match fuel with
  | O => fail NoFuel
  | S fuel =>
      x ← get_prop p;
      (fix go (cs : list pid) : M (option sid) :=
         match cs with
         | [] => mret None
         | c :: cs =>
             y ← get_prop c;
             match hp_canonical_subscriptions y with
             | s :: _ => mret (Some s)
             | [] =>
                 r ← prop_check_canonical_subs_descending fuel c;
                 match r with Some s => mret (Some s) | None => go cs end
             end
         end) (childs (hp_val x))
  end.

(** [destroy] is [prop_destroy0], which the functions of this section call and
    which calls them. *)
Section destroy.
Variable destroy : pid -> M bool.

Definition prop_destroy_childs0 (p : pid) : M unit :=
  x ← get_prop p;
  _ ← put_prop p (set_val PVoid x);
  _ ← prop_notify_value p None 0;
  forM (childs (hp_val x)) (fun c =>
    _ ← upd_prop c (set_parent None);
    _ ← destroy c; mret tt).

(** The value of [p] is given up, unless that is refused. *)
Definition prop_clean (p : pid) : M bool :=
  x ← get_prop p;
  if hp_clipped x then mret true else
  match hp_val x with
  | PDir _ _ =>
      s ← here (fun n => prop_check_canonical_subs_descending n p);
      match s with
      | Some _ => mret true
      | None => _ ← prop_destroy_childs0 p; mret false
      end
  | PZombie => mret true
  | PProp t => _ ← prop_ref_dec t; mret false
  | PVoid | PInt _ _ | PFloat _ _ | PCstring _ | PRstring _ _ | PUri _ _ => mret false
  end.

Definition is_dir (v : pval) : bool := match v with PDir _ _ => true | _ => false end.

Definition prop_make_dir (p : pid) (skipme : option sid) : M unit :=
  x ← get_prop p;
  if is_dir (hp_val x) then mret tt
  else
    refused ← prop_clean p;
    _ ← passert (negb refused);
    _ ← upd_prop p (set_val (PDir [] None));
    prop_notify_value p skipme 0.

Definition prop_insert (c parent : pid) (before : option pid) (skipme : option sid) : M unit :=
  match before with
  | Some b =>
      y ← get_prop b;
      _ ← passert (bool_decide (hp_parent y = Some parent));
      _ ← edit_childs parent (insert_before b c);
      prop_notify_child parent (AddChildBefore c (Some b)) skipme
  | None =>
      _ ← edit_childs parent (insert_tail c);
      prop_notify_child parent (AddChild c false) skipme
  end.

Definition prop_make (name : option (list Z)) (noalloc : bool) (parent : option pid) : M pid :=
  p ← new_id;
  _ ← put_prop p (Prop_ 1 name parent None [] [] [] PVoid 1 false noalloc false false false false false);
  mret p.

Definition prop_create0 (parent : pid) (name : option (list Z)) (skipme : option sid) (noalloc : bool) : M pid :=
  x ← get_prop parent;
  _ ← passert (negb (is_zombie (hp_val x)));
  _ ← prop_make_dir parent skipme;
  x ← get_prop parent;
  old ← match name with Some n => child_named n (childs (hp_val x)) | None => mret None end;
  match old with
  | Some c =>
      y ← get_prop c;
      _ ← (if negb (hp_noalloc y) && noalloc then put_prop c (set_name name true y) else mret tt);
      mret c
  | None =>
      c ← prop_make name noalloc (Some parent);
      _ ← (if hp_multi_sub x || hp_multi_notify x then here (fun n => prop_flood_flag n c true) else mret tt);
      _ ← prop_insert c parent None skipme;
      mret c
  end.

Definition prop_destroy_child (p c : pid) : M unit :=
  r ← destroy c;
  if r : bool then mret tt
  else
    _ ← prop_notify_child p (DelChild c) None;
    _ ← edit_childs p (remove_child c);
    upd_prop c (set_parent None).

(** ** Links *)

Definition same_str (a b : option (list Z)) : bool := bool_decide (a = b).

Definition prop_value_compare (a b : pval) : bool :=
  match a, b with
  | PRstring s _, PRstring t _ => bool_decide (s = t)
  | PCstring s, PCstring t => bool_decide (s = t)
  | PUri t u, PUri t' u' => same_str t t' && same_str u u'
  | PFloat x _, PFloat y _ => SFeqb x y
  | PInt x _, PInt y _ => x =? y
  | PVoid, PVoid | PZombie, PZombie => true
  | _, _ => false
  end.

Definition gen_add_flags (c : pid) (v : pval) : bool :=
  match v with PDir _ sel => bool_decide (sel = Some c) | _ => false end.

Definition retarget_subscription (p : pid) (s : sid) (skipme : option sid) (deferred : bool) : M unit :=
  y ← get_sub s;
  if bool_decide (hps_value_prop y = Some p) then mret tt else
  equal ← match hps_value_prop y with
          | Some q =>
              x ← get_prop q;
              _ ← (if is_dir (hp_val x) && negb (skipped s skipme) then prop_notify_void s else mret tt);
              _ ← upd_prop q (fun x => set_vsubs (unlink s (hp_value_subscriptions x)) x);
              x ← get_prop q; z ← get_prop p;
              mret (prop_value_compare (hp_val x) (hp_val z))
          | None => mret false
          end;
  _ ← upd_prop p (fun x => set_vsubs (s :: hp_value_subscriptions x) x);
  _ ← upd_sub s (sub_set_value (Some p));
  x ← get_prop p;
  _ ← (if hp_monitored x then prop_send_subscription_monitor_active p else mret tt);
  if skipped s skipme || equal then mret tt
  else
    _ ← upd_sub s (sub_set_pending deferred);
    _ ← prop_build_notify_value s false p deferred 0;
    x ← get_prop p;
    forM (childs (hp_val x)) (fun c =>
      prop_build_notify_child s (AddChild c (gen_add_flags c (hp_val x))) false).

Definition prepend_origin (s : sid) (o : pid) : M unit :=
  y ← get_sub s;
  if decide (o ∈ hps_origins y) then mret tt
  else _ ← prop_ref_inc (Some o); upd_sub s (sub_set_origins (o :: hps_origins y)).
Definition prepend_origins (s : sid) (l : list pid) : M unit := forM l (prepend_origin s).

(** [while((s = LIST_FIRST(...)))] over the subscribers of [dst]. *)
Fixpoint move_subscribers (fuel : nat) (src dst : pid) (skipme : option sid) (origins : list pid) : M unit :=
  match fuel with
  | O => fail NoFuel
  | S fuel =>
      x ← get_prop dst;
      match hp_value_subscriptions x with
      | [] => mret tt
      | s :: l =>
          _ ← put_prop dst (set_vsubs l x);
          _ ← retarget_subscription src s skipme false;
          _ ← prepend_origins s origins;
          move_subscribers fuel src dst skipme origins
      end
  end.

Fixpoint relink_subscriptions (fuel : nat) (src dst : pid) (skipme : option sid) (origins : list pid) : M unit :=
  match fuel with
  | O => fail NoFuel
  | S fuel =>
      x ← get_prop src;
      match hp_originator x with
      | Some o => relink_subscriptions fuel o dst skipme (origins ++ [src])
      | None =>
          _ ← passert (negb (bool_decide (src = dst)));
          y ← get_prop dst;
          _ ← move_subscribers (S (length (hp_value_subscriptions y))) src dst skipme origins;
          y ← get_prop dst;
          if negb (is_dir (hp_val y)) then mret tt else
          x ← get_prop src;
          if negb (is_dir (hp_val x) || is_void (hp_val x)) then mret tt else
          _ ← prop_make_dir src skipme;
          c ← first_child dst;
          foreach_child fuel dst c (fun c =>
            z ← get_prop c;
            match hp_name z with
            | None => mret tt
            | Some _ =>
                d ← prop_create0 src (hp_name z) None (hp_noalloc z);
                _ ← (if is_dir (hp_val z) then prop_make_dir d skipme else mret tt);
                relink_subscriptions fuel d c skipme origins
            end)
      end
  end.

Fixpoint follow_originator (fuel : nat) (p : pid) : M pid :=
  match fuel with
  | O => fail NoFuel
  | S fuel =>
      x ← get_prop p;
      match hp_originator x with Some o => follow_originator fuel o | None => mret p end
  end.

Fixpoint any_sub (l : list sid) (link : pid) : M bool :=
  match l with
  | [] => mret false
  | s :: l =>
      y ← get_sub s;
      if decide (link ∈ hps_origins y) then mret true else any_sub l link
  end.

Fixpoint search_for_linkage (fuel : nat) (src link : pid) : M bool :=
  match fuel with
  | O => fail NoFuel
  | S fuel =>
      src ← follow_originator fuel src;
      x ← get_prop src;
      b ← any_sub (hp_value_subscriptions x) link;
      if b : bool then mret true else
      (fix go (cs : list pid) : M bool :=
         match cs with
         | [] => mret false
         | c :: cs =>
             y ← get_prop c;
             match hp_name y with
             | None => go cs
             | Some _ => b ← search_for_linkage fuel c link; if b : bool then mret true else go cs
             end
         end) (childs (hp_val x))
  end.

(** The subscriptions of [src] that came over [broken], and then those of its
    children. *)
Definition restore_subscription (dst : pid) (s : sid) (skipme : option sid) (deferred : bool)
    (broken : pid) (origins : list pid) : M unit :=
  y ← get_sub s;
  if decide (broken ∈ hps_origins y) then
    _ ← upd_sub s (sub_set_origins (unlink broken (hps_origins y)));
    _ ← prop_ref_dec (Some broken);
    _ ← retarget_subscription dst s skipme deferred;
    prepend_origins s origins
  else mret tt.

Fixpoint restore_and_descend (fuel : nat) (dst src : pid) (skipme : option sid) (deferred : bool)
    (broken : pid) (origins : list pid) : M unit :=
  match fuel with
  | O => fail NoFuel
  | S fuel =>
      x ← get_prop src;
      _ ← forM (hp_value_subscriptions x) (fun s =>
            restore_subscription dst s skipme deferred broken origins);
      c ← first_child src;
      foreach_child fuel src c (fun c =>
        y ← get_prop c;
        match hp_name y with
        | None => mret tt
        | Some _ =>
            s ← follow_originator fuel c;
            b ← search_for_linkage fuel s broken;
            if b : bool then
              z ← prop_create0 dst (hp_name y) None (hp_noalloc y);
              _ ← (if is_dir (hp_val y) then prop_make_dir z skipme else mret tt);
              restore_and_descend fuel z s skipme deferred broken origins
            else mret tt
        end)
  end.

Fixpoint prop_follow_and_unlink (fuel : nat) (dst src : pid) (skipme : option sid) (deferred : bool)
    (origins : list pid) : M unit :=
  match fuel with
  | O => fail NoFuel
  | S fuel =>
      x ← get_prop src;
      match hp_originator x with
      | Some o => prop_follow_and_unlink fuel dst o skipme deferred (origins ++ [src])
      | None =>
          b ← here (fun n => search_for_linkage n src dst);
          if b : bool then here (fun n => restore_and_descend n dst src skipme deferred dst origins)
          else mret tt
      end
  end.

Definition prop_unlink0 (dst : pid) (skipme : option sid) (deferred : bool) : M unit :=
  x ← get_prop dst;
  match hp_originator x with
  | None => fail NullDeref
  | Some src =>
      _ ← put_prop dst (set_originator None x);
      _ ← upd_prop src (fun y => set_targets (unlink dst (hp_targets y)) y);
      _ ← here (fun n => prop_follow_and_unlink n dst src skipme deferred []);
      x ← get_prop dst;
      if hp_xrefed_originator x then
        _ ← destroy src;
        upd_prop dst (set_flags None (Some false) None None None None)
      else mret tt
  end.

Definition prop_remove_from_originator (p : pid) : M unit :=
  x ← get_prop p;
  match hp_originator x with
  | None => fail NullDeref
  | Some o =>
      _ ← upd_prop o (fun y => set_targets (unlink p (hp_targets y)) y);
      _ ← (if hp_xrefed_originator x then
             _ ← destroy o; upd_prop p (set_flags None (Some false) None None None None)
           else mret tt);
      upd_prop p (set_originator None)
  end.

Fixpoint recursive_unlink (fuel : nat) (p : pid) : M unit :=
  match fuel with
  | O => fail NoFuel
  | S fuel =>
      x ← get_prop p;
      match hp_targets x with
      | [] => mret tt
      | c :: _ =>
          _ ← recursive_unlink fuel c;
          _ ← prop_unlink0 c None false;
          recursive_unlink fuel p
      end
  end.

(** ** The end of a property *)

Definition lose_canonical (p : pid) (s : sid) : M unit :=
  _ ← upd_prop p (fun x => set_csubs (unlink s (hp_canonical_subscriptions x)) x);
  _ ← upd_sub s (sub_set_canonical None);
  y ← get_sub s;
  if sf_track_destroy (hps_flags y) || sf_track_destroy_exp (hps_flags y)
  then prop_notify_destroyed s else mret tt.

Definition lose_value (p : pid) (s : sid) : M unit :=
  _ ← prop_notify_void s;
  _ ← upd_prop p (fun x => set_vsubs (unlink s (hp_value_subscriptions x)) x);
  upd_sub s (sub_set_value None).

(** What is left when its children have gone. *)
Definition bury (p : pid) : M bool :=
  _ ← upd_prop p (set_val PZombie);
  x ← get_prop p;
  _ ← forM (hp_canonical_subscriptions x) (lose_canonical p);
  x ← get_prop p;
  _ ← forM (hp_value_subscriptions x) (lose_value p);
  x ← get_prop p;
  _ ← match hp_originator x with Some _ => prop_remove_from_originator p | None => mret tt end;
  x ← get_prop p;
  _ ← match hp_parent x with
      | Some parent =>
          _ ← prop_notify_child parent (DelChild p) None;
          _ ← edit_childs parent (remove_child p);
          _ ← upd_prop p (set_parent None);
          deselect parent p
      | None => mret tt
      end;
  _ ← upd_prop p (fun x => set_name None (hp_noalloc x) x);
  _ ← prop_ref_dec (Some p);
  mret true.

Definition destroy_body (p : pid) : M bool :=
  x ← get_prop p;
  if is_zombie (hp_val x) then mret false else
  let xref := u8 (hp_xref x - 1) in
  _ ← put_prop p (set_xref xref x);
  if negb (xref =? 0) then mret false else
  _ ← here (fun n => recursive_unlink n p);
  x ← get_prop p;
  _ ← match hp_val x with
      | PDir cs _ =>
          here (fun n => foreach_child_safe n p (head cs) (prop_destroy_child p))
      | PProp t => prop_ref_dec t
      | PZombie => fail AssertFailed
      | PVoid | PInt _ _ | PFloat _ _ | PCstring _ | PRstring _ _ | PUri _ _ => mret tt
      end;
  bury p.

End destroy.

Fixpoint prop_destroy_n (fuel : nat) (p : pid) : M bool :=
  match fuel with
  | O => fail NoFuel
  | S fuel => destroy_body (prop_destroy_n fuel) p
  end.
Definition prop_destroy0 (p : pid) : M bool := here (fun n => prop_destroy_n n p).

(** * Creation *)

Definition prop_create_ex (parent : option pid) (name : option (list Z)) (skipme : option sid)
    (noalloc incref : bool) : M (option pid) :=
  p ← match parent with
      | None => mret None
      | Some q =>
          x ← get_prop q;
          if is_zombie (hp_val x) then mret None
          else c ← prop_create0 prop_destroy0 q name skipme noalloc; mret (Some c)
      end;
  if incref then prop_ref_inc p else mret p.

Definition prop_create_root_ex (name : option (list Z)) (noalloc : bool) : M pid := prop_make name noalloc None.

(** The test is the wrong way round: a live property is returned as it is. *)
Fixpoint create_path (p : pid) (names : list (list Z)) : M pid :=
  match names with
  | [] => mret p
  | n :: names => c ← prop_create0 prop_destroy0 p (Some n) None false; create_path c names
  end.
Definition prop_create_multi (p : option pid) (names : list (list Z)) : M (option pid) :=
  match p with
  | None => mret None
  | Some q =>
      x ← get_prop q;
      if negb (is_zombie (hp_val x)) then mret p
      else c ← create_path q names; prop_ref_inc (Some c)
  end.

(** The element before, and behind, a child. *)
Fixpoint pred_of (c : pid) (l : list pid) : option pid :=
  match l with
  | a :: (d :: _) as l => if decide (d = c) then Some a else pred_of c l
  | _ => None
  end.
Definition put_after (a : option pid) (c : pid) : list pid -> option (list pid) :=
  match a with Some a => insert_after a c | None => fun l => Some (c :: l) end.

Definition prop_create_after (parent : option pid) (name : list Z) (aft : option pid)
    (skipme : option sid) : M (option pid) :=
  match parent with
  | None => mret None
  | Some q =>
      x ← get_prop q;
      if is_zombie (hp_val x) then mret None else
      _ ← prop_make_dir prop_destroy0 q skipme;
      x ← get_prop q;
      old ← child_named name (childs (hp_val x));
      match old with
      | None =>
          p ← prop_make (Some name) false (Some q);
          _ ← edit_childs q (put_after aft p);
          next ← next_child q p;
          _ ← match next with
              | None => prop_notify_child q (AddChildBefore p None) skipme
              | Some _ => prop_notify_child q (AddChild p false) skipme
              end;
          mret (Some p)
      | Some p =>
          if bool_decide (pred_of p (childs (hp_val x)) = aft) then mret (Some p)
          else
            _ ← edit_childs q (remove_child p);
            _ ← edit_childs q (put_after aft p);
            next ← next_child q p;
            _ ← prop_notify_child q (MoveChild p next) skipme;
            mret (Some p)
      end
  end.

(** * Order and parents *)

Definition prop_move0 (p : pid) (before : option pid) (skipme : option sid) : M unit :=
  _ ← passert (negb (bool_decide (before = Some p)));
  x ← get_prop p;
  same ← match before with
         | Some b => y ← get_prop b; mret (bool_decide (hp_parent x = hp_parent y))
         | None => mret true
         end;
  if negb same then mret tt else
  match hp_parent x with
  | None => mret tt
  | Some parent =>
      next ← next_child parent p;
      if bool_decide (next = before) then mret tt
      else
        _ ← edit_childs parent (remove_child p);
        _ ← edit_childs parent (place before p);
        prop_notify_child parent (MoveChild p before) skipme
  end.

Definition prop_req_move0 (p : pid) (before : option pid) (skipme : option sid) : M unit :=
  if bool_decide (before = Some p) then mret tt else
  x ← get_prop p;
  match hp_parent x with
  | None => fail NullDeref
  | Some parent =>
      next ← next_child parent p;
      if bool_decide (next = before) then mret tt
      else prop_notify_child parent (ReqMoveChild p before) skipme
  end.

Definition prop_unparent0 (p : pid) (skipme : option sid) : M unit :=
  x ← get_prop p;
  match hp_parent x with
  | None => mret tt
  | Some parent =>
      _ ← passert (negb (hp_multi_notify x));
      _ ← prop_notify_child parent (DelChild p) None;
      _ ← edit_childs parent (remove_child p);
      _ ← upd_prop p (set_parent None);
      deselect parent p
  end.

(** The loop visits each child and unparents [p] itself. *)
Definition prop_unparent_childs (p : pid) : M unit :=
  x ← get_prop p;
  match hp_val x with
  | PDir cs _ => here (fun n => foreach_child_safe n p (head cs) (fun _ => prop_unparent0 p None))
  | _ => mret tt
  end.

Definition prop_set_parent0 (p parent : pid) (before : option pid) (skipme : option sid) : M Z :=
  x ← get_prop parent;
  if is_zombie (hp_val x) then mret (-1) else
  _ ← prop_make_dir prop_destroy0 parent skipme;
  y ← get_prop p;
  _ ← (if negb (bool_decide (hp_parent y = Some parent)) then
         _ ← prop_unparent0 p skipme;
         _ ← upd_prop p (set_parent (Some parent));
         x ← get_prop parent;
         _ ← (if hp_multi_sub x || hp_multi_notify x then here (fun n => prop_flood_flag n p true) else mret tt);
         prop_insert p parent before skipme
       else prop_move0 p before skipme);
  mret 0.

(** * Destruction, from outside *)

Definition prop_destroy (p : option pid) : M unit :=
  match p with None => mret tt | Some p => _ ← prop_destroy0 p; mret tt end.

Definition prop_destroy_childs (p : option pid) : M unit :=
  match p with
  | None => mret tt
  | Some p =>
      x ← get_prop p;
      if is_dir (hp_val x) then prop_destroy_childs0 prop_destroy0 p else mret tt
  end.

Fixpoint prop_void_childs0 (fuel : nat) (p : pid) : M unit :=
  match fuel with
  | O => fail NoFuel
  | S fuel =>
      x ← get_prop p;
      match hp_val x with
      | PZombie => mret tt
      | PDir cs _ => forM cs (prop_void_childs0 fuel)
      | _ =>
          refused ← prop_clean prop_destroy0 p;
          if refused : bool then mret tt
          else _ ← upd_prop p (set_val PVoid); prop_notify_value p None 0
      end
  end.
Definition prop_void_childs (p : option pid) : M unit :=
  match p with None => mret tt | Some p => here (fun n => prop_void_childs0 n p) end.

Definition prop_destroy_by_name (p : pid) (name : option (list Z)) : M unit :=
  x ← get_prop p;
  match hp_val x, name with
  | PDir cs _, None =>
      here (fun n => foreach_child_safe n p (head cs) (fun c =>
        y ← get_prop c;
        match hp_name y with None => prop_destroy_child prop_destroy0 p c | Some _ => mret tt end))
  | PDir cs _, Some n =>
      c ← child_named n cs;
      match c with Some c => prop_destroy_child prop_destroy0 p c | None => mret tt end
  | _, _ => mret tt
  end.

Definition prop_destroy_first (p : pid) : M unit :=
  x ← get_prop p;
  match hp_val x with
  | PDir (c :: _) _ => prop_destroy_child prop_destroy0 p c
  | _ => mret tt
  end.

Definition prop_mark_childs (p : pid) : M unit :=
  x ← get_prop p;
  forM (childs (hp_val x)) (fun c => upd_prop c (set_flags None None None None None (Some true))).
Definition prop_unmark (p : option pid) : M unit :=
  match p with
  | None => mret tt
  | Some p => upd_prop p (set_flags None None None None None (Some false))
  end.
Definition prop_destroy_marked_childs (p : pid) : M unit :=
  x ← get_prop p;
  match hp_val x with
  | PDir cs _ =>
      here (fun n => foreach_child_safe n p (head cs) (fun c =>
        y ← get_prop c;
        if hp_marked y then _ ← prop_destroy0 c; mret tt else mret tt))
  | _ => mret tt
  end.

(** * Values *)

(** [prop_set_xxx_exl]: a value that is already there is not set again. *)
Definition set_value (p : pid) (skipme : option sid) (same : pval -> bool) (keep : pval -> bool) (v : pval) : M unit :=
  x ← get_prop p;
  if is_zombie (hp_val x) then mret tt else
  refused ← (if keep (hp_val x) then mret (same (hp_val x)) else prop_clean prop_destroy0 p);
  if refused : bool then mret tt
  else _ ← upd_prop p (set_val v); prop_notify_value p skipme 0.

Definition is_rstring (v : pval) : bool := match v with PRstring _ _ => true | _ => false end.
Definition is_cstring (v : pval) : bool := match v with PCstring _ => true | _ => false end.
Definition is_uri (v : pval) : bool := match v with PUri _ _ => true | _ => false end.
Definition same_string (s : list Z) (v : pval) : bool :=
  match v with PRstring t _ | PCstring t => bool_decide (t = s) | _ => false end.
Definition same_uri (t u : option (list Z)) (v : pval) : bool :=
  match v with
  | PUri t' u' => bool_decide (default [] t' = default [] t) && bool_decide (default [] u' = default [] u)
  | _ => false
  end.

Definition prop_set_void_exl (p : pid) (skipme : option sid) : M unit :=
  set_value p skipme (fun _ => true) is_void PVoid.
Definition prop_set_void_ex (p : option pid) (skipme : option sid) : M unit :=
  match p with None => mret tt | Some p => prop_set_void_exl p skipme end.

Definition prop_set_string_exl (p : pid) (skipme : option sid) (s : list Z) (ty : Z) : M unit :=
  set_value p skipme (same_string s) is_rstring (PRstring s ty).
Definition prop_set_string_ex (p : option pid) (skipme : option sid) (s : option (list Z)) (ty : Z) : M unit :=
  match p, s with
  | None, _ => mret tt
  | _, None => prop_set_void_ex p skipme
  | Some p, Some s => prop_set_string_exl p skipme s ty
  end.
Definition prop_set_rstring_exl (p : pid) (skipme : option sid) (s : list Z) : M unit :=
  set_value p skipme (same_string s) is_rstring (PRstring s 0).
Definition prop_set_cstring_exl (p : pid) (skipme : option sid) (s : list Z) : M unit :=
  set_value p skipme (same_string s) is_cstring (PCstring s).

Definition prop_set_uri_ex (p : option pid) (skipme : option sid) (title url : option (list Z)) : M unit :=
  match p with
  | None => mret tt
  | Some q =>
      match title, url with
      | None, None => prop_set_void_ex p skipme
      | _, _ => set_value q skipme (same_uri title url) is_uri (PUri title url)
      end
  end.

(** The reference on the old target goes before the one on the new is taken. *)
Definition prop_set_prop_exl (p : pid) (skipme : option sid) (target : option pid) : M unit :=
  x ← get_prop p;
  if is_zombie (hp_val x) then mret tt else
  refused ← match hp_val x with
            | PProp t => if bool_decide (t = target) then mret true else _ ← prop_ref_dec t; mret false
            | _ => prop_clean prop_destroy0 p
            end;
  if refused : bool then mret tt
  else
    _ ← prop_ref_inc target;
    _ ← upd_prop p (set_val (PProp target));
    prop_notify_value p skipme 0.

(** ** Numbers *)

(** Conversion to [int]: towards zero, and undefined beyond its range. *)
Definition f32_to_int (f : spec_float) : res Z :=
  match f with
  | S754_zero _ => Ok 0
  | S754_finite s m e =>
      let v := if 0 <=? e then Z.shiftl (Zpos m) e else Z.shiftr (Zpos m) (- e) in
      chk_int (if s then - v else v)
  | _ => Fault SignedOverflow
  end.
Definition f32_zero : spec_float := S754_zero false.

(** A number within the clipping range, which has to be set when the flag is. *)
Definition clip_int (clipped : bool) (range : option (Z * Z)) (v : Z) : M Z :=
  if clipped then
    match range with
    | Some (lo, hi) =>
        let v := if hi <? v then hi else v in
        mret (if v <? lo then lo else v)
    | None => fail Uninitialised
    end
  else mret v.
Definition clip_float (clipped : bool) (range : option (spec_float * spec_float)) (v : spec_float) : M spec_float :=
  if clipped then
    match range with
    | Some (lo, hi) =>
        let v := if SFltb hi v then hi else v in
        mret (if SFltb v lo then lo else v)
    | None => fail Uninitialised
    end
  else mret v.

Definition prop_int_to_float (p : pid) : M unit :=
  x ← get_prop p;
  match hp_val x with
  | PInt v r =>
      put_prop p (set_val (PFloat (f32_of_int v)
        (match r with Some (a, b) => Some (f32_of_int a, f32_of_int b) | None => None end)) x)
  | _ => mret tt
  end.
Definition prop_float_to_int (p : pid) : M unit :=
  x ← get_prop p;
  match hp_val x with
  | PFloat v r =>
      v ← lift (f32_to_int v);
      r ← match r with
          | Some (a, b) => a ← lift (f32_to_int a); b ← lift (f32_to_int b); mret (Some (a, b))
          | None => mret None
          end;
      put_prop p (set_val (PInt v r) x)
  | _ => mret tt
  end.

(** The property as a float, or nothing, and whether it has changed its type. *)
Definition prop_get_float_locked (p : option pid) : M (option (pid * bool)) :=
  match p with
  | None => mret None
  | Some q =>
      x ← get_prop q;
      match hp_val x with
      | PZombie => mret None
      | PInt _ _ => _ ← prop_int_to_float q; mret (Some (q, true))
      | PFloat _ _ => mret (Some (q, false))
      | _ =>
          refused ← prop_clean prop_destroy0 q;
          if refused : bool then mret None
          else _ ← upd_prop q (set_val (PFloat f32_zero None)); mret (Some (q, true))
      end
  end.
Definition get_float (p : pid) : M (bool * (spec_float * option (spec_float * spec_float))) :=
  x ← get_prop p;
  match hp_val x with PFloat v r => mret (hp_clipped x, (v, r)) | _ => fail Uninitialised end.

Definition prop_set_float_exl (p : option pid) (skipme : option sid) (v : spec_float) (how : Z) : M unit :=
  q ← prop_get_float_locked p;
  match q with
  | None => mret tt
  | Some (q, changed) =>
      '(clipped, (old, r)) ← get_float q;
      if negb (how =? 0) || changed || negb (SFeqb old v) then
        v ← clip_float clipped r v;
        _ ← upd_prop q (set_val (PFloat v r));
        prop_notify_value q skipme how
      else mret tt
  end.

Definition prop_add_float_ex (p : option pid) (skipme : option sid) (v : spec_float) : M unit :=
  q ← prop_get_float_locked p;
  match q with
  | None => mret tt
  | Some (q, _) =>
      '(clipped, (old, r)) ← get_float q;
      n ← clip_float clipped r (SFadd 24 128 old v);
      if SFeqb old n then mret tt
      else _ ← upd_prop q (set_val (PFloat n r)); prop_notify_value q skipme 0
  end.

Definition prop_set_float_clipping_range (p : option pid) (lo hi : spec_float) : M unit :=
  q ← prop_get_float_locked p;
  match q with
  | None => mret tt
  | Some (q, _) =>
      '(_, (old, _)) ← get_float q;
      _ ← upd_prop q (fun x => set_flags (Some true) None None None None None (set_val (PFloat old (Some (lo, hi))) x));
      n ← clip_float true (Some (lo, hi)) old;
      if SFeqb n old then mret tt
      else _ ← upd_prop q (set_val (PFloat n (Some (lo, hi)))); prop_notify_value q None 0
  end.

(** The property as an int, or nothing; one that held something else is 0. *)
Definition get_int_locked (p : pid) : M bool :=
  x ← get_prop p;
  match hp_val x with
  | PZombie => mret false
  | PInt _ _ => mret true
  | PFloat _ _ => _ ← prop_float_to_int p; mret true
  | _ =>
      refused ← prop_clean prop_destroy0 p;
      if refused : bool then mret false else _ ← upd_prop p (set_val (PInt 0 None)); mret true
  end.
Definition get_int (p : pid) : M (bool * (Z * option (Z * Z))) :=
  x ← get_prop p;
  match hp_val x with PInt v r => mret (hp_clipped x, (v, r)) | _ => fail Uninitialised end.

(** A property that was no int takes the value without clipping. *)
Definition prop_set_int_exl (p : pid) (skipme : option sid) (v : Z) : M unit :=
  x ← get_prop p;
  if is_zombie (hp_val x) then mret tt else
  r ← match hp_val x with
      | PInt old r =>
          if old =? v then mret None else v ← clip_int (hp_clipped x) r v; mret (Some (v, r))
      | PFloat _ _ => _ ← prop_float_to_int p; '(_, (_, r)) ← get_int p; mret (Some (v, r))
      | _ =>
          refused ← prop_clean prop_destroy0 p;
          mret (if refused : bool then None else Some (v, None))
      end;
  match r with
  | None => mret tt
  | Some (v, r) => _ ← upd_prop p (set_val (PInt v r)); prop_notify_value p skipme 0
  end.
Definition prop_set_int_ex (p : option pid) (skipme : option sid) (v : Z) : M unit :=
  match p with None => mret tt | Some p => prop_set_int_exl p skipme v end.

Definition prop_add_int_ex (p : option pid) (skipme : option sid) (v : Z) : M unit :=
  match p with
  | None => mret tt
  | Some p =>
      ok ← get_int_locked p;
      if negb ok then mret tt else
      '(clipped, (old, r)) ← get_int p;
      n ← lift (chk_int (old + v));
      n ← clip_int clipped r n;
      if n =? old then mret tt
      else _ ← upd_prop p (set_val (PInt n r)); prop_notify_value p skipme 0
  end.

Definition prop_toggle_int_ex (p : option pid) (skipme : option sid) : M unit :=
  match p with
  | None => mret tt
  | Some p =>
      ok ← get_int_locked p;
      if negb ok then mret tt else
      '(_, (old, r)) ← get_int p;
      _ ← upd_prop p (set_val (PInt (if old =? 0 then 1 else 0) r));
      prop_notify_value p skipme 0
  end.

Definition prop_set_int_clipping_range (p : option pid) (lo hi : Z) : M unit :=
  match p with
  | None => mret tt
  | Some p =>
      ok ← get_int_locked p;
      if negb ok then mret tt else
      '(_, (old, _)) ← get_int p;
      _ ← upd_prop p (fun x => set_flags (Some true) None None None None None (set_val (PInt old (Some (lo, hi))) x));
      n ← clip_int true (Some (lo, hi)) old;
      if n =? old then mret tt
      else _ ← upd_prop p (set_val (PInt n (Some (lo, hi)))); prop_notify_value p None 0
  end.

Definition prop_copy_ex (dst : option pid) (skipme : option sid) (src : option pid) : M unit :=
  match dst with
  | None => mret tt
  | Some d =>
      match src with
      | None => prop_set_void_exl d skipme
      | Some s =>
          x ← get_prop s;
          match hp_val x with
          | PInt v _ => prop_set_int_exl d skipme v
          | PFloat v _ => prop_set_float_exl dst skipme v 0
          | PRstring s _ => prop_set_rstring_exl d skipme s
          | PCstring s => prop_set_cstring_exl d skipme s
          | _ => prop_set_void_exl d skipme
          end
      end
  end.
