(* ===== verification/PropSub.v ===== *)
(** Subscriptions, paths, links and the selection of the property tree
    (prop_core.c), and the commands a client gives. *)
From S2P Require Import Prelude Clib PropStore PropTree.
From Stdlib Require Import SpecFloat.

Local Open Scope Z_scope.

(** * Links, from outside *)

(** Notifications held back while a link was replaced. *)
Fixpoint flush_pnq (q : list notify) : M unit :=
  match q with
  | [] => mret tt
  | n :: q =>
      y ← get_sub (hpn_sub n);
      _ ← (if hps_pending_unlink y then
             _ ← upd_sub (hpn_sub n) (sub_set_pending false);
             if sf_internal (hps_flags y) then
               _ ← notify_invoke n; prop_sub_ref_dec_locked (hpn_sub n)
             else courier_enqueue n
           else prop_notify_free n);
      flush_pnq q
  end.

(** How a link holds on to its source. *)
Inductive linkmode := PROP_LINK_NORMAL | PROP_LINK_XREFED | PROP_LINK_XREFED_IF_ORPHANED.

Definition prop_link0 (src dst : pid) (skipme : option sid) (hard : linkmode) : M unit :=
  _ ← passert (negb (bool_decide (src = dst)));
  x ← get_prop src;
  y ← get_prop dst;
  if is_zombie (hp_val x) || is_zombie (hp_val y) then mret tt else
  if bool_decide (hp_originator y = Some src) then mret tt else
  _ ← modify (set_pnq []);
  _ ← match hp_originator y with Some _ => prop_unlink0 prop_destroy0 dst skipme true | None => mret tt end;
  q ← gets st_pnq;
  _ ← modify (set_pnq []);
  x ← get_prop src;
  _ ← (if match hard with
          | PROP_LINK_XREFED => true
          | PROP_LINK_XREFED_IF_ORPHANED => bool_decide (hp_parent x = None)
          | PROP_LINK_NORMAL => false
          end
       then
         _ ← upd_prop dst (set_flags None (Some true) None None None None);
         _ ← prop_xref_addref (Some src); mret tt
       else mret tt);
  _ ← upd_prop dst (set_originator (Some src));
  _ ← upd_prop src (fun x => set_targets (dst :: hp_targets x) x);
  _ ← here (fun n => relink_subscriptions prop_destroy0 n src dst skipme [dst]);
  flush_pnq q.

Definition prop_link_ex (src dst : option pid) (skipme : option sid) (hard : linkmode) : M unit :=
  match src, dst with Some src, Some dst => prop_link0 src dst skipme hard | _, _ => mret tt end.

Definition prop_unlink_ex (p : option pid) (skipme : option sid) : M unit :=
  match p with
  | None => mret tt
  | Some p =>
      x ← get_prop p;
      if is_zombie (hp_val x) then mret tt
      else match hp_originator x with
           | Some _ => prop_unlink0 prop_destroy0 p skipme false
           | None => mret tt
           end
  end.

Definition prop_follow (p : pid) : M (option pid) :=
  q ← here (fun n => follow_originator n p); prop_ref_inc (Some q).
Definition prop_compare (a b : pid) : M bool :=
  a ← here (fun n => follow_originator n a);
  b ← here (fun n => follow_originator n b);
  mret (bool_decide (a = b)).

(** * Selection *)

Definition set_selected (p : pid) (c : option pid) : M unit :=
  upd_prop p (fun x => match hp_val x with PDir cs _ => set_val (PDir cs c) x | _ => x end).

Definition prop_select_ex (p : pid) (extra : option pid) (skipme : option sid) : M unit :=
  x ← get_prop p;
  if is_zombie (hp_val x) then mret tt else
  match hp_parent x with
  | None => mret tt
  | Some parent =>
      y ← get_prop parent;
      _ ← passert (is_dir (hp_val y));
      _ ← prop_notify_child parent (SelectChild (Some p) (Some extra)) skipme;
      set_selected parent (Some p)
  end.

(** The notifications are built without their second property. *)
Definition prop_unselect_ex (parent : pid) (skipme : option sid) : M unit :=
  x ← get_prop parent;
  if is_dir (hp_val x) then
    _ ← prop_notify_child parent (SelectChild None None) skipme; set_selected parent None
  else mret tt.
Definition prop_select_by_value_ex (p : pid) (name : list Z) (skipme : option sid) : M unit :=
  x ← get_prop p;
  if is_dir (hp_val x) then
    c ← child_named name (childs (hp_val x));
    _ ← prop_notify_child p (SelectChild c None) skipme;
    set_selected p c
  else mret tt.

Definition prop_suggest_focus (p : pid) : M unit :=
  x ← get_prop p;
  if is_zombie (hp_val x) then mret tt else
  match hp_parent x with
  | None => mret tt
  | Some parent =>
      y ← get_prop parent;
      _ ← passert (is_dir (hp_val y));
      prop_notify_child parent (SuggestFocus p) None
  end.

Definition prop_request_new_child (p : pid) : M unit :=
  x ← get_prop p;
  if is_dir (hp_val x) || is_void (hp_val x) then prop_notify_child p ReqNewChild None else mret tt.
Definition prop_want_more_childs (s : sid) : M unit :=
  y ← get_sub s;
  match hps_value_prop y with Some p => prop_send_event p WantMoreChilds | None => fail NullDeref end.
Definition prop_have_more_childs (p : pid) (yes : bool) : M unit := prop_send_event p (HaveMoreChilds yes).

(** * Paths *)

(** [a.b.c] taken apart: empty segments are dropped but for the last. *)
Fixpoint split_dots (s cur : list Z) : list (list Z) :=
  match s with
  | [] => [reverse cur]
  | c :: s =>
      if c =? 46 then match cur with [] => split_dots s [] | _ => reverse cur :: split_dots s [] end
      else split_dots s (c :: cur)
  end.
Definition name_segments (s : list Z) : list (list Z) := split_dots s [].

(** The root a name stands for: roots are searched from the last one given. *)
Fixpoint root_named (name : list Z) (roots : list (pid * option (list Z))) : M (option pid) :=
  match roots with
  | [] => mret None
  | (p, alias) :: roots =>
      x ← get_prop p;
      if bool_decide (hp_name x = Some name) || bool_decide (alias = Some name)
      then mret (if is_zombie (hp_val x) then None else Some p)
      else root_named name roots
  end.
Definition prop_resolve_tree (name : list Z) (roots : list (pid * option (list Z))) : M (option pid) :=
  if decide (name = lit "global") then
    p ← gets st_root;
    x ← get_prop p;
    mret (if is_zombie (hp_val x) then None else Some p)
  else root_named name roots.

(** The child an index [*n] of a path selects. *)
Definition index_of (name : list Z) : option Z :=
  match name with 42 :: ds => Some (u32 (strtol ds 10).1) | _ => None end.
Definition child_at (cs : list pid) (i : Z) : option pid :=
  if i <? Z.of_nat (length cs) then cs !! Z.to_nat i else None.

Fixpoint walk_originators (fuel : nat) (p : pid) (chain : list pid) : M (pid * list pid) :=
  match fuel with
  | O => fail NoFuel
  | S fuel =>
      x ← get_prop p;
      match hp_originator x with
      | Some o => walk_originators fuel o (chain ++ [p])
      | None => mret (p, chain)
      end
  end.

(** The path is created where it ends. *)
Fixpoint prop_subfind (p : pid) (names : list (list Z)) (follow index : bool) (chain : list pid)
    : M (option (pid * list pid)) :=
  '(p, chain) ← (if follow then here (fun n => walk_originators n p chain) else mret (p, chain));
  match names with
  | [] => mret (Some (p, chain))
  | n :: names =>
      x ← get_prop p;
      if negb (is_dir (hp_val x)) && negb (is_void (hp_val x)) then mret None else
      _ ← (if is_dir (hp_val x) then mret tt
           else _ ← put_prop p (set_val (PDir [] None) x); prop_notify_value p None 0);
      x ← get_prop p;
      match (if index then index_of n else None) with
      | Some i =>
          match child_at (childs (hp_val x)) i with
          | None => mret None
          | Some c => prop_subfind c names follow index chain
          end
      | None =>
          c ← child_named n (childs (hp_val x));
          c ← match c with
              | Some c => mret c
              | None => prop_create0 prop_destroy0 p (Some n) None false
              end;
          prop_subfind c names follow index chain
      end
  end.

(** [prop_find0], which creates nothing. *)
Fixpoint prop_find0 (p : pid) (names : list (list Z)) : M (option pid) :=
  match names with
  | [] => mret (Some p)
  | n :: names =>
      x ← get_prop p;
      if negb (is_dir (hp_val x)) then mret None else
      c ← child_named n (childs (hp_val x));
      match c with Some c => prop_find0 c names | None => mret None end
  end.
Definition prop_find (p : pid) (names : list (list Z)) : M (option pid) :=
  c ← prop_find0 p names; prop_ref_inc c.

Definition prop_first_child (p : option pid) : M (option pid) :=
  match p with
  | None => mret None
  | Some p => x ← get_prop p; prop_ref_inc (head (childs (hp_val x)))
  end.

(** * Subscriptions *)

(** The properties passed on the way fill an array of 16 that ends with NULL. *)
Definition check_chain (chain : list pid) : M unit :=
  if (15 <? length chain)%nat then fail OobWrite else mret tt.

(** Where the search for the property of a subscription starts. *)
Inductive where_ :=
| ByProp (p : option pid)                       (* PROP_TAG_ROOT alone *)
| ByPath (p : option pid) (names : list (list Z)).

Fixpoint has_plain_sub (l : list sid) : M bool :=
  match l with
  | [] => mret false
  | s :: l =>
      y ← get_sub s;
      if negb (sf_monitor (hps_flags y)) then mret true else has_plain_sub l
  end.

Fixpoint has_client (l : list sid) (client : Z) : M bool :=
  match l with
  | [] => mret false
  | s :: l => y ← get_sub s; if hps_client y =? client then mret true else has_client l client
  end.

Definition not_zombie (p : option pid) : M (option pid) :=
  match p with
  | None => mret None
  | Some q => x ← get_prop q; mret (if is_zombie (hp_val x) then None else p)
  end.

Definition locate (w : where_) : M (option pid * option pid * list pid) :=
  match w with
  | ByProp p => mret (p, p, [])
  | ByPath None _ => mret (None, None, [])
  | ByPath (Some p) names =>
      c ← prop_subfind p names false false [];
      v ← prop_subfind p names true false [];
      match v with
      | Some (v, chain) => _ ← check_chain chain; mret (fst <$> c, Some v, chain)
      | None => mret (fst <$> c, None, [])
      end
  end.

Definition initial_update (s : sid) (direct : bool) (value : pid) : M unit :=
  y ← get_sub s;
  _ ← prop_build_notify_value s direct value false 0;
  x ← get_prop value;
  match hp_val x with
  | PDir cs sel =>
      if sf_multi (hps_flags y) then mret tt
      else
        match sel with
        | None =>
            if direct then
              _ ← forM cs (fun c => _ ← prop_ref_inc (Some c); mret tt);
              _ ← call s (AddChildVectorDirect cs);
              forM cs (fun c => prop_ref_dec (Some c))
            else forM cs (fun c => prop_build_notify_child s (AddChild c (gen_add_flags c (hp_val x))) direct)
        | Some _ =>
            forM cs (fun c => prop_build_notify_child s (AddChild c (gen_add_flags c (hp_val x))) direct)
        end
  | _ => mret tt
  end.

Definition attach_canonical (s : sid) (canonical : option pid) (f : sub_flags) : M bool :=
  match canonical with
  | None => mret false
  | Some p =>
      _ ← upd_prop p (fun x => set_csubs (s :: hp_canonical_subscriptions x) x);
      x ← get_prop p;
      b ← (if sf_monitor f && negb (hp_monitored x) then
             _ ← put_prop p (set_flags None None (Some true) None None None x);
             has_plain_sub (hp_value_subscriptions x)
           else mret false);
      _ ← (if sf_multi f then prop_set_multi p else mret tt);
      mret b
  end.

Definition attach_value (s : sid) (value : option pid) (f : sub_flags) (direct : bool) : M unit :=
  match value with
  | None => mret tt
  | Some p =>
      _ ← upd_prop p (fun x => set_vsubs (s :: hp_value_subscriptions x) x);
      _ ← (if sf_no_initial_update f then mret tt else initial_update s direct p);
      x ← get_prop p;
      if negb (sf_monitor f) && hp_monitored x then prop_send_subscription_monitor_active p else mret tt
  end.

(** [prop_subscribe] behind the parsing of its arguments. *)
Definition prop_subscribe (f : sub_flags) (client : Z) (c : option cid) (w : where_) : M (option sid) :=
  let direct := sf_direct_update f || sf_internal f in
  '(canonical, value, chain) ← locate w;
  dup ← (if sf_singleton f then
           match value with
           | None => fail NullDeref
           | Some p => x ← get_prop p; has_client (hp_value_subscriptions x) client
           end
         else mret false);
  if dup : bool then mret None else
  value ← not_zombie value;
  canonical ← not_zombie canonical;
  s ← new_id;
  _ ← forM chain (fun p => _ ← prop_ref_inc (Some p); mret tt);
  _ ← match c with
      | None => mret tt
      | Some c => pc ← get_courier c;
                  put_courier c (Courier (pc_queue_exp pc) (pc_queue_nor pc) (pc_refcount pc + 1))
      end;
  _ ← put_sub s (Sub client f c value canonical chain 1 false false);
  activate ← attach_canonical s canonical f;
  _ ← attach_value s value f direct;
  _ ← match canonical with
      | Some p => if activate : bool then prop_send_subscription_monitor_active p else mret tt
      | None => mret tt
      end;
  match canonical with
  | Some _ => mret (Some s)
  | None =>
      if sf_track_destroy f || sf_track_destroy_exp f then
        if direct then _ ← call s Destroyed; mret None
        else _ ← prop_notify_destroyed s; mret (Some s)
      else mret (Some s)
  end.

(** The flags other subscriptions of [l] still need. *)
Fixpoint still_needed (l : list sid) : M (bool * bool) :=
  match l with
  | [] => mret (false, false)
  | s :: l =>
      y ← get_sub s;
      '(mon, multi) ← still_needed l;
      mret (sf_monitor (hps_flags y) || mon, sf_multi (hps_flags y) || multi)
  end.

Definition prop_unsubscribe0 (s : sid) : M unit :=
  y ← get_sub s;
  _ ← passert (negb (hps_zombie y));
  _ ← put_sub s (sub_set_zombie y);
  _ ← match hps_courier y with
      | None => mret tt
      | Some c => pc ← get_courier c;
                  put_courier c (Courier (pc_queue_exp pc) (pc_queue_nor pc) (pc_refcount pc - 1))
      end;
  _ ← match hps_value_prop y with
      | None => mret tt
      | Some p =>
          _ ← upd_prop p (fun x => set_vsubs (unlink s (hp_value_subscriptions x)) x);
          upd_sub s (sub_set_value None)
      end;
  _ ← forM (hps_origins y) (fun p => prop_ref_dec (Some p));
  _ ← match hps_canonical_prop y with
      | None => mret tt
      | Some p =>
          _ ← upd_prop p (fun x => set_csubs (unlink s (hp_canonical_subscriptions x)) x);
          _ ← (if sf_monitor (hps_flags y) || sf_multi (hps_flags y) then
                 x ← get_prop p;
                 _ ← passert (hp_monitored x || hp_multi_sub x);
                 '(mon, multi) ← still_needed (hp_canonical_subscriptions x);
                 _ ← (if mon : bool then mret tt else upd_prop p (set_flags None None (Some false) None None None));
                 if multi : bool then mret tt else prop_clr_multi p
               else mret tt);
          upd_sub s (sub_set_canonical None)
      end;
  prop_sub_ref_dec_locked s.

Definition prop_unsubscribe (s : option sid) : M unit :=
  match s with None => mret tt | Some s => prop_unsubscribe0 s end.

Definition prop_sub_reemit (s : option sid) : M unit :=
  match s with
  | None => mret tt
  | Some s =>
      y ← get_sub s;
      match hps_value_prop y with
      | Some p => prop_build_notify_value s false p false 0
      | None => fail NullDeref
      end
  end.

(** The store of [prop_init], with the property [global]. *)
Definition prop_init : store :=
  Store {[ O := Prop_ 1 (Some (lit "global")) None None [] [] [] PVoid 1 false true false false false false false ]}
    ∅ ∅ [] [] [] 1%nat 0%nat.
