(* ===== verification/PropCourier.v ===== *)
(** No computation on the property tree takes a courier away: what a path, a
    new property or a destruction does leaves those there are. *)
From S2P Require Import Prelude PropStore PropTree PropSub.

Local Open Scope Z_scope.

Definition kc {B} (m : M B) : Prop := forall st r st' c,
  m st = Ok (r, st') -> is_Some (st_couriers st !! c) -> is_Some (st_couriers st' !! c).

Create HintDb kc.

(** * Primitives *)

Lemma kc_ret {B} (b : B) : kc (mret b).
Proof. by intros st r st' c [= <- <-]. Qed.
Lemma kc_fail {B} f : kc (fail (A := B) f).
Proof. done. Qed.
Lemma kc_bind {B C} (m : M B) (k : B -> M C) : kc m -> (forall b, kc (k b)) -> kc (m ≫= k).
Proof.
  intros Hm Hk st r st' c. unfold mbind, M_bind. destruct (m st) as [[b st1]|] eqn:E; [|done]. intros H Hc.
  by apply (Hk b st1 r st'), (Hm st b).
Qed.
Lemma kc_lift {B} (r : res B) : kc (lift r).
Proof. intros st b st' c. unfold lift. destruct r; [by intros [= <- <-]|done]. Qed.
Lemma kc_passert b : kc (passert b).
Proof. destruct b; [apply kc_ret|apply kc_fail]. Qed.
Lemma kc_get_prop p : kc (get_prop p).
Proof. intros st b st' c. unfold get_prop. destruct (st_props st !! p); [by intros [= <- <-]|done]. Qed.
Lemma kc_get_sub s : kc (get_sub s).
Proof. intros st b st' c. unfold get_sub. destruct (st_subs st !! s); [by intros [= <- <-]|done]. Qed.
Lemma kc_get_courier s : kc (get_courier s).
Proof. intros st b st' c. unfold get_courier. destruct (st_couriers st !! s); [by intros [= <- <-]|done]. Qed.
Lemma kc_gets {B} (f : store -> B) : kc (gets f).
Proof. by intros st b st' c [= <- <-]. Qed.
Lemma kc_modify f : (forall st, st_couriers (f st) = st_couriers st) -> kc (modify f).
Proof. intros H st b st' c [= <- <-]. by rewrite H. Qed.
Lemma kc_put_courier i x : kc (put_courier i x).
Proof.
  intros st b st' c [= <- <-]. cbn [st_couriers set_couriers]. destruct (decide (i = c)) as [<-|Hne].
  - rewrite lookup_insert_eq. by eexists.
  - by rewrite lookup_insert_ne.
Qed.
Lemma kc_new_id : kc new_id.
Proof. by intros st b st' c [= <- <-]. Qed.
Lemma kc_here {B} (k : nat -> M B) : (forall n, kc (k n)) -> kc (here k).
Proof. intros H st. apply H. Qed.
Lemma kc_forM {B} (l : list B) f : (forall b, kc (f b)) -> kc (forM l f).
Proof. intros H. induction l as [|b l IH]; [apply kc_ret|]. apply kc_bind; auto. Qed.

#[export] Hint Resolve kc_ret kc_fail kc_lift kc_passert kc_get_prop kc_get_sub kc_get_courier kc_gets kc_put_courier kc_new_id : kc.

(** ** Loops over children *)

Lemma kc_next p c : kc (next_child p c).
Proof. unfold next_child. apply kc_bind; [apply kc_get_prop|]. intros x. destruct (after _ _); [apply kc_ret|apply kc_fail]. Qed.
Lemma kc_foreach n p c body : (forall c, kc (body c)) -> kc (foreach_child n p c body).
Proof.
  intros H. revert c. induction n as [|n IH]; intros [c|]; simpl; try apply kc_ret; [apply kc_fail|].
  apply kc_bind; [apply H|]. intros _. apply kc_bind; [apply kc_next|]. auto.
Qed.
Lemma kc_foreach_safe n p c body : (forall c, kc (body c)) -> kc (foreach_child_safe n p c body).
Proof.
  intros H. revert c. induction n as [|n IH]; intros [c|]; simpl; try apply kc_ret; [apply kc_fail|].
  apply kc_bind; [apply kc_next|]. intros o. apply kc_bind; auto.
Qed.

(** The steps of a computation, one by one. *)
Ltac kc_step :=
  match goal with
  | |- kc (_ ≫= _) => apply kc_bind; [|intros ?]
  | |- kc (forM _ _) => apply kc_forM; intros ?
  | |- kc (here _) => apply kc_here; intros ?
  | |- kc (foreach_child _ _ _ _) => apply kc_foreach; intros ?
  | |- kc (foreach_child_safe _ _ _ _) => apply kc_foreach_safe; intros ?
  | |- kc (modify _) => apply kc_modify; done
  | |- kc (put_prop _ _) => apply kc_modify; done
  | |- kc (put_sub _ _) => apply kc_modify; done
  | |- kc (upd_prop _ _) => unfold upd_prop
  | |- kc (upd_sub _ _) => unfold upd_sub
  | |- kc (match ?x with _ => _ end) => destruct x
  | |- kc (let '(_, _) := ?x in _) => destruct x
  end.
Ltac kc := intros; repeat first [solve [auto with kc nocore] | progress kc_step].

(** * Notifications *)

Lemma kc_ref_inc p : kc (prop_ref_inc p). Proof. unfold prop_ref_inc. kc. Qed.
Lemma kc_ref_dec p : kc (prop_ref_dec p). Proof. unfold prop_ref_dec. kc. Qed.
Lemma kc_sub_ref_dec s : kc (prop_sub_ref_dec_locked s). Proof. unfold prop_sub_ref_dec_locked. kc. Qed.
Lemma kc_enqueue0 n b : kc (courier_enqueue0 n b). Proof. unfold courier_enqueue0. kc. Qed.
#[export] Hint Resolve kc_ref_inc kc_ref_dec kc_sub_ref_dec kc_enqueue0 : kc.
Lemma kc_enqueue n : kc (courier_enqueue n). Proof. unfold courier_enqueue. kc. Qed.
Lemma kc_get_notify s e : kc (get_notify s e). Proof. unfold get_notify. kc. Qed.
Lemma kc_call s e : kc (call s e). Proof. unfold call. kc. Qed.
#[export] Hint Resolve kc_enqueue kc_get_notify kc_call : kc.
Lemma kc_build_value s d p f h : kc (prop_build_notify_value s d p f h). Proof. unfold prop_build_notify_value. kc. Qed.
Lemma kc_notify_void s : kc (prop_notify_void s). Proof. unfold prop_notify_void. kc. Qed.
Lemma kc_notify_destroyed s : kc (prop_notify_destroyed s). Proof. unfold prop_notify_destroyed. kc. Qed.
Lemma kc_build_child s e d : kc (prop_build_notify_child s e d). Proof. unfold prop_build_notify_child. kc. Qed.
#[export] Hint Resolve kc_build_value kc_notify_void kc_notify_destroyed kc_build_child : kc.
Lemma kc_multi n : forall p, kc (notify_multi n p). Proof. induction n; simpl; kc. Qed.
#[export] Hint Resolve kc_multi : kc.
Lemma kc_notify_value p s h : kc (prop_notify_value p s h). Proof. unfold prop_notify_value. kc. Qed.
Lemma kc_notify_child p e s : kc (prop_notify_child p e s). Proof. unfold prop_notify_child. kc. Qed.
Lemma kc_monitor p : kc (prop_send_subscription_monitor_active p). Proof. unfold prop_send_subscription_monitor_active. kc. Qed.
#[export] Hint Resolve kc_notify_value kc_notify_child kc_monitor : kc.

(** * The tree *)

Lemma kc_edit p f : kc (edit_childs p f). Proof. unfold edit_childs. kc. Qed.
Lemma kc_deselect p c : kc (deselect p c). Proof. unfold deselect. kc. Qed.
Lemma kc_first p : kc (first_child p). Proof. unfold first_child. kc. Qed.
#[export] Hint Resolve kc_next kc_edit kc_deselect kc_first : kc.
Lemma kc_child_named n cs : kc (child_named n cs). Proof. induction cs; simpl; kc. Qed.
Lemma kc_flood n : forall p b, kc (prop_flood_flag n p b). Proof. induction n; simpl; kc. Qed.
Lemma kc_check n : forall p, kc (prop_check_canonical_subs_descending n p).
Proof.
  induction n as [|n IH]; intros p; simpl; [apply kc_fail|]. apply kc_bind; [apply kc_get_prop|]. intros x.
  induction (childs (hp_val x)) as [|c cs IHcs]; kc.
Qed.
#[export] Hint Resolve kc_child_named kc_flood kc_check : kc.
Lemma kc_make n b p : kc (prop_make n b p). Proof. unfold prop_make. kc. Qed.
Lemma kc_insert c p b s : kc (prop_insert c p b s). Proof. unfold prop_insert. kc. Qed.
#[export] Hint Resolve kc_make kc_insert : kc.
Lemma kc_follow n : forall p, kc (follow_originator n p). Proof. induction n; simpl; kc. Qed.
Lemma kc_any_sub l o : kc (any_sub l o). Proof. induction l; simpl; kc. Qed.
#[export] Hint Resolve kc_follow kc_any_sub : kc.
Lemma kc_search n : forall p l, kc (search_for_linkage n p l).
Proof.
  induction n as [|n IH]; intros p l; simpl; [apply kc_fail|]. do 3 (apply kc_bind; [kc|]; intros ?). destruct b1; [kc|].
  induction (childs _) as [|c cs IHcs]; kc.
Qed.
Lemma kc_prepend s l : kc (prepend_origins s l). Proof. unfold prepend_origins, prepend_origin. kc. Qed.
Lemma kc_retarget p s k d : kc (retarget_subscription p s k d). Proof. unfold retarget_subscription. kc. Qed.
#[export] Hint Resolve kc_search kc_prepend kc_retarget : kc.
Lemma kc_restore_sub d s k f b o : kc (restore_subscription d s k f b o). Proof. unfold restore_subscription. kc. Qed.
Lemma kc_lose_canonical p s : kc (lose_canonical p s). Proof. unfold lose_canonical. kc. Qed.
Lemma kc_lose_value p s : kc (lose_value p s). Proof. unfold lose_value. kc. Qed.
#[export] Hint Resolve kc_restore_sub kc_lose_canonical kc_lose_value : kc.

Section destroy.
Variable destroy : pid -> M bool.
Hypothesis Hd : forall p, kc (destroy p).
#[local] Hint Resolve Hd : kc.

Lemma kc_destroy_childs0 p : kc (prop_destroy_childs0 destroy p). Proof using Hd. unfold prop_destroy_childs0. kc. Qed.
#[local] Hint Resolve kc_destroy_childs0 : kc.
Lemma kc_clean p : kc (prop_clean destroy p). Proof using Hd. unfold prop_clean. kc. Qed.
#[local] Hint Resolve kc_clean : kc.
Lemma kc_make_dir p s : kc (prop_make_dir destroy p s). Proof using Hd. unfold prop_make_dir. kc. Qed.
#[local] Hint Resolve kc_make_dir : kc.
Lemma kc_create0 p n s b : kc (prop_create0 destroy p n s b). Proof using Hd. unfold prop_create0. kc. Qed.
#[local] Hint Resolve kc_create0 : kc.
Lemma kc_restore n : forall d p s f b o, kc (restore_and_descend destroy n d p s f b o). Proof using Hd. induction n; simpl; kc. Qed.
#[local] Hint Resolve kc_restore : kc.
Lemma kc_follow_unlink n : forall d p s f o, kc (prop_follow_and_unlink destroy n d p s f o). Proof using Hd. induction n; simpl; kc. Qed.
#[local] Hint Resolve kc_follow_unlink : kc.
Lemma kc_unlink0 d s f : kc (prop_unlink0 destroy d s f). Proof using Hd. unfold prop_unlink0. kc. Qed.
Lemma kc_remove_origin p : kc (prop_remove_from_originator destroy p). Proof using Hd. unfold prop_remove_from_originator. kc. Qed.
#[local] Hint Resolve kc_unlink0 kc_remove_origin : kc.
Lemma kc_recursive n : forall p, kc (recursive_unlink destroy n p). Proof using Hd. induction n; simpl; kc. Qed.
Lemma kc_destroy_child p c : kc (prop_destroy_child destroy p c). Proof using Hd. unfold prop_destroy_child. kc. Qed.
Lemma kc_bury p : kc (bury destroy p). Proof using Hd. unfold bury. kc. Qed.
#[local] Hint Resolve kc_recursive kc_destroy_child kc_bury : kc.
Lemma kc_body p : kc (destroy_body destroy p). Proof using Hd. unfold destroy_body. kc. Qed.
End destroy.

Lemma kc_destroy_n n : forall p, kc (prop_destroy_n n p).
Proof. induction n; simpl; [kc|]. intros p. by apply kc_body. Qed.
Lemma kc_destroy0 p : kc (prop_destroy0 p).
Proof. unfold prop_destroy0. apply kc_here. intros n. apply kc_destroy_n. Qed.

Lemma kc_walk n : forall p l, kc (walk_originators n p l). Proof. induction n; simpl; kc. Qed.
#[export] Hint Resolve kc_walk : kc.
Lemma kc_subfind ns : forall p f i l, kc (prop_subfind p ns f i l).
Proof.
  pose proof (kc_create0 _ kc_destroy0) as Hcr. induction ns as [|n ns IH]; intros p f i l; simpl; kc.
Qed.
Lemma kc_locate w : kc (locate w).
Proof. pose proof kc_subfind as Hs. unfold locate, check_chain. kc. Qed.
