(* ===== verification/PropLogic.v ===== *)
(** Reasoning about the property tree: weakest preconditions of its
    computations, the tree without its reference counts, the events a
    subscription has seen, and what a notification does to them. *)
From S2P Require Import Prelude PropStore PropTree PropSub.

Local Open Scope Z_scope.

(** * Weakest preconditions *)

(** The computation ends without a fault and in a result with [Q]. *)
Definition wp {A} (m : M A) (Q : A -> store -> Prop) (st : store) : Prop :=
  match m st with Ok (a, st') => Q a st' | Fault _ => False end.

Lemma wp_bind {A B} (m : M A) (k : A -> M B) Q st :
  wp m (fun a => wp (k a) Q) st -> wp (m ≫= k) Q st.
Proof. unfold wp, mbind, M_bind. by destruct (m st) as [[a st']|f]. Qed.

Lemma wp_mono {A} (m : M A) (P Q : A -> store -> Prop) st :
  wp m P st -> (forall a st', P a st' -> Q a st') -> wp m Q st.
Proof. unfold wp. destruct (m st) as [[a st']|f]; naive_solver. Qed.

Lemma wp_Ok {A} (m : M A) Q st : wp m Q st <-> exists a st', m st = Ok (a, st') /\ Q a st'.
Proof. unfold wp. destruct (m st) as [[a st']|f]; naive_solver. Qed.

Lemma wp_ret {A} (a : A) (Q : A -> store -> Prop) st : Q a st -> wp (mret a) Q st.
Proof. done. Qed.

Lemma wp_gets {A} (f : store -> A) (Q : A -> store -> Prop) st : Q (f st) st -> wp (gets f) Q st.
Proof. done. Qed.

Lemma wp_modify f (Q : unit -> store -> Prop) st : Q tt (f st) -> wp (modify f) Q st.
Proof. done. Qed.

Lemma wp_here {A} (k : nat -> M A) Q st : wp (k (S (size (st_props st)))) Q st -> wp (here k) Q st.
Proof. done. Qed.

Lemma wp_passert b (Q : unit -> store -> Prop) st : b = true -> Q tt st -> wp (passert b) Q st.
Proof. by intros ->. Qed.

Lemma wp_lift {A} (r : res A) a (Q : A -> store -> Prop) st : r = Ok a -> Q a st -> wp (lift r) Q st.
Proof. by intros ->. Qed.

Lemma wp_get_prop p x (Q : prop -> store -> Prop) st :
  st_props st !! p = Some x -> Q x st -> wp (get_prop p) Q st.
Proof. unfold wp, get_prop. by intros ->. Qed.

Lemma wp_get_sub s y (Q : sub -> store -> Prop) st :
  st_subs st !! s = Some y -> Q y st -> wp (get_sub s) Q st.
Proof. unfold wp, get_sub. by intros ->. Qed.

Lemma wp_get_courier c y (Q : courier -> store -> Prop) st :
  st_couriers st !! c = Some y -> Q y st -> wp (get_courier c) Q st.
Proof. unfold wp, get_courier. by intros ->. Qed.

Lemma wp_upd_prop p x f (Q : unit -> store -> Prop) st :
  st_props st !! p = Some x -> Q tt (set_props (insert p (f x)) st) -> wp (upd_prop p f) Q st.
Proof. intros E H. by apply wp_bind, (wp_get_prop p x). Qed.

Lemma wp_upd_sub s y f (Q : unit -> store -> Prop) st :
  st_subs st !! s = Some y -> Q tt (set_subs (insert s (f y)) st) -> wp (upd_sub s f) Q st.
Proof. intros E H. by apply wp_bind, (wp_get_sub s y). Qed.

(** A loop keeps an invariant over the part of the list it has visited. *)
Lemma wp_forM {A} (l : list A) (f : A -> M unit) (I : list A -> store -> Prop) (Q : unit -> store -> Prop) st :
  (forall l1 x l2 st, l = l1 ++ x :: l2 -> I l1 st -> wp (f x) (fun _ => I (l1 ++ [x])) st) ->
  I [] st -> (forall st, I l st -> Q tt st) -> wp (forM l f) Q st.
Proof.
  intros Hstep H0 HQ.
  assert (forall l2 l1 st, l = l1 ++ l2 -> I l1 st -> wp (forM l2 f) Q st) as H; [|by apply (H l [])].
  clear st H0. induction l2 as [|x l2 IH]; intros l1 st E HI; simpl.
  - apply wp_ret, HQ. by rewrite E, app_nil_r.
  - apply wp_bind. eapply wp_mono; [by apply (Hstep l1 x l2)|]. intros [] st' HI'.
    apply (IH (l1 ++ [x])); [by rewrite <- app_assoc|done].
Qed.

(** * The tree *)

(** Reference counts and the flag of a pending unlink are left out. *)
Definition tprop (x : prop) : prop := set_refcount 0 x.
Definition tsub (y : sub) : sub := sub_set_pending false (sub_set_refcount 0 y).
Definition tree (st : store) : gmap pid prop := tprop <$> st_props st.
Definition stree (st : store) : gmap sid sub := tsub <$> st_subs st.

Lemma tree_lookup st p x : st_props st !! p = Some x -> tree st !! p = Some (tprop x).
Proof. intros E. unfold tree. by rewrite lookup_fmap, E. Qed.

Lemma tree_inv st p x : tree st !! p = Some x -> exists x0, st_props st !! p = Some x0 /\ x = tprop x0.
Proof. unfold tree. rewrite lookup_fmap. destruct (st_props st !! p); naive_solver. Qed.

Lemma stree_lookup st s y : st_subs st !! s = Some y -> stree st !! s = Some (tsub y).
Proof. intros E. unfold stree. by rewrite lookup_fmap, E. Qed.

Lemma stree_inv st s y : stree st !! s = Some y -> exists y0, st_subs st !! s = Some y0 /\ y = tsub y0.
Proof. unfold stree. rewrite lookup_fmap. destruct (st_subs st !! s); naive_solver. Qed.

Lemma tree_insert st p x : tree (set_props (insert p x) st) = <[p := tprop x]> (tree st).
Proof. unfold tree. simpl. by rewrite fmap_insert. Qed.

Lemma stree_insert st s y : stree (set_subs (insert s y) st) = <[s := tsub y]> (stree st).
Proof. unfold stree. simpl. by rewrite fmap_insert. Qed.

(** * Sums over maps *)

Definition msum {V} (f : V -> nat) (m : gmap nat V) : nat := map_fold (fun _ v n => (f v + n)%nat) O m.

Lemma msum_empty {V} (f : V -> nat) : msum f ∅ = O.
Proof. done. Qed.

Lemma msum_new {V} (f : V -> nat) m i v : m !! i = None -> msum f (<[i := v]> m) = (f v + msum f m)%nat.
Proof. intros H. unfold msum. rewrite map_fold_insert_L; [done|lia|done]. Qed.

Lemma msum_insert {V} (f : V -> nat) m i v w : m !! i = Some v ->
  (msum f (<[i := w]> m) + f v = msum f m + f w)%nat.
Proof.
  intros H. rewrite <- (insert_delete_id m i v H) at 2. rewrite <- insert_delete_eq, !msum_new by apply lookup_delete_eq. lia.
Qed.

Lemma msum_ge {V} (f : V -> nat) m i v : m !! i = Some v -> (f v <= msum f m)%nat.
Proof. intros H. rewrite <- (insert_delete_id m i v H), msum_new by apply lookup_delete_eq. lia. Qed.

(** * References in queues *)

(** How often a notification refers to a property, and to a subscription. *)
Definition prefs (l : list (option pid)) (p : pid) : nat := length (filter (fun q => q = Some p) l).
Definition nrefs (p : pid) (n : notify) : nat :=
  match payload_props (hpn_event n) with Ok l => prefs l p | Fault _ => O end.
Definition srefs (s : sid) (n : notify) : nat := if decide (hpn_sub n = s) then 1%nat else O.

Definition qsum (f : notify -> nat) (q : list notify) : nat := sum_list_with f q.
Definition csum (f : notify -> nat) (c : courier) : nat := (qsum f (pc_queue_exp c) + qsum f (pc_queue_nor c))%nat.
Definition held (f : notify -> nat) (st : store) : nat :=
  (msum (csum f) (st_couriers st) + sum_list_with (fun e => qsum f e.2) (st_global st))%nat.

Lemma qsum_app f a b : qsum f (a ++ b) = (qsum f a + qsum f b)%nat.
Proof. apply sum_list_with_app. Qed.

Lemma qsum_one f n : qsum f [n] = f n.
Proof. unfold qsum. simpl. lia. Qed.
#[global] Arguments qsum : simpl never.

Lemma psd_append_sum f n g : sum_list_with (fun e => qsum f e.2) (psd_append n g) =
  (sum_list_with (fun e => qsum f e.2) g + f n)%nat.
Proof.
  induction g as [|[s q] g IH]; simpl; [rewrite qsum_one; lia|]. destruct (decide (s = hpn_sub n)); simpl; [|rewrite IH; lia].
  rewrite qsum_app, qsum_one. lia.
Qed.

(** * Events *)

Definition is_destroyed (e : pevent) : bool := match e with Destroyed => true | _ => false end.
(** Destruction is announced out of order when it is expedited; the other
    events of a subscription come in the order they were caused. *)
Definition keep_event (s : sid) (x : sid * pevent) : Prop := x.1 = s /\ is_destroyed x.2 = false.
#[export] Instance keep_event_dec s x : Decision (keep_event s x).
Proof. unfold keep_event. apply _. Defined.

Definition calls_of (s : sid) (l : list (sid * pevent)) : list pevent := map snd (filter (keep_event s) l).
Definition queued_of (s : sid) (q : list notify) : list pevent :=
  calls_of s (map (fun n => (hpn_sub n, hpn_event n)) q).

Fixpoint psd_of (s : sid) (g : list (sid * list notify)) : list notify :=
  match g with
  | [] => []
  | (s', q) :: g => if decide (s' = s) then q else psd_of s g
  end.

(** What is on its way to a subscription. *)
Definition pending (st : store) (s : sid) (c : option cid) : list pevent :=
  match c with
  | Some c =>
      match st_couriers st !! c with
      | Some pc => queued_of s (pc_queue_exp pc) ++ queued_of s (pc_queue_nor pc)
      | None => []
      end
  | None => queued_of s (psd_of s (st_global st))
  end.
(** All events of a subscription, those it has been told first. *)
Definition events (st : store) (s : sid) : list pevent :=
  calls_of s (st_calls st) ++
  match st_subs st !! s with Some y => pending st s (hps_courier y) | None => [] end.

Lemma calls_of_app s a b : calls_of s (a ++ b) = calls_of s a ++ calls_of s b.
Proof. unfold calls_of. by rewrite filter_app, map_app. Qed.

Lemma calls_of_one s s' e : calls_of s [(s', e)] = if decide (s' = s) then if is_destroyed e then [] else [e] else [].
Proof.
  unfold calls_of. destruct (decide (s' = s)) as [->|Hne].
  - destruct (is_destroyed e) eqn:E.
    + rewrite filter_cons_False; [done|]. intros [_ H]. simpl in H. congruence.
    + by rewrite filter_cons_True.
  - rewrite filter_cons_False; [done|]. by intros [H _].
Qed.

Lemma queued_of_app s a b : queued_of s (a ++ b) = queued_of s a ++ queued_of s b.
Proof. unfold queued_of. by rewrite map_app, calls_of_app. Qed.

Lemma queued_of_one s n : queued_of s [n] =
  if decide (hpn_sub n = s) then if is_destroyed (hpn_event n) then [] else [hpn_event n] else [].
Proof. apply calls_of_one. Qed.

Lemma psd_append_of s n g : psd_of s (psd_append n g) =
  if decide (hpn_sub n = s) then psd_of s g ++ [n] else psd_of s g.
Proof.
  induction g as [|[s' q] g IH]; simpl.
  - destruct (decide _); done.
  - destruct (decide (s' = hpn_sub n)) as [->|Hne]; simpl.
    + by destruct (decide (hpn_sub n = s)).
    + rewrite IH. destruct (decide (s' = s)) as [->|]; [|done]. by rewrite decide_False by congruence.
Qed.

(** * Queues and reference counts *)

Definition live (v : pval) : nat := if is_zombie v then O else 1%nat.
Definition slive (y : sub) : nat := if hps_zombie y then O else 1%nat.
Definition scount (l : list sid) (s : sid) : nat := length (filter (fun t => t = s) l).

(** A notification that can be delivered to the subscription it is for. *)
Definition sent_to (st : store) (c : option cid) (n : notify) : Prop :=
  (exists ps, payload_props (hpn_event n) = Ok ps) /\
  exists y, st_subs st !! hpn_sub n = Some y /\ hps_courier y = c /\ sf_internal (hps_flags y) = false.

(** Every reference is counted: one for a live object, those of the queues, and
    the ones in [LP] and [LS], which the caller or a computation under way
    holds.  So an object somebody refers to is still there. *)
Record counted (LP : list (option pid)) (LS : list sid) (st : store) : Prop := {
  c_props p :
    match st_props st !! p with
    | Some x => Z.of_nat (live (hp_val x) + held (nrefs p) st + prefs LP p) <= hp_refcount x /\ 1 <= hp_refcount x
    | None => (held (nrefs p) st + prefs LP p = 0)%nat
    end;
  c_subs s :
    match st_subs st !! s with
    | Some y => Z.of_nat (slive y + held (srefs s) st + scount LS s) <= hps_refcount y /\ 1 <= hps_refcount y
    | None => (held (srefs s) st + scount LS s = 0)%nat
    end;
  c_couriers c pc : st_couriers st !! c = Some pc -> Forall (sent_to st (Some c)) (pc_queue_exp pc ++ pc_queue_nor pc);
  c_global s q : (s, q) ∈ st_global st -> Forall (fun n => hpn_sub n = s /\ sent_to st None n) q;
  c_expedite s y c pc : st_subs st !! s = Some y -> hps_courier y = Some c -> st_couriers st !! c = Some pc ->
    sf_expedite (hps_flags y) = true -> queued_of s (pc_queue_nor pc) = [];
  c_courier s y c : st_subs st !! s = Some y -> hps_courier y = Some c -> is_Some (st_couriers st !! c);
  c_fresh : (forall p, is_Some (st_props st !! p) -> (p < st_next st)%nat) /\
            (forall s, is_Some (st_subs st !! s) -> (s < st_next st)%nat) /\
            (forall c, is_Some (st_couriers st !! c) -> (c < st_next st)%nat) /\
            Forall (fun e => (e.1 < st_next st)%nat) (st_calls st)
}.

(** Nothing but notifications has changed. *)
Record notified (st st' : store) (f : sid -> list pevent) : Prop := {
  n_tree : tree st' = tree st;
  n_stree : stree st' = stree st;
  n_next : st_next st' = st_next st;
  n_root : st_root st' = st_root st;
  n_events s : events st' s = events st s ++ f s
}.

Lemma notified_refl st : notified st st (fun _ => []).
Proof. split; [done..|]. intros s. by rewrite app_nil_r. Qed.

Lemma notified_trans st1 st2 st3 f g :
  notified st1 st2 f -> notified st2 st3 g -> notified st1 st3 (fun s => f s ++ g s).
Proof.
  intros [A1 A2 A3 A4 A5] [B1 B2 B3 B4 B5]. split; [congruence..|]. intros s. by rewrite B5, A5, app_assoc.
Qed.

Lemma notified_ext st st' f g : notified st st' f -> (forall s, f s = g s) -> notified st st' g.
Proof. intros [A1 A2 A3 A4 A5] H. split; [done..|]. intros s. by rewrite A5, H. Qed.

(** What subscription [t] gets when only [s], or only those of [l], get
    something, and the part of that which is kept. *)
Definition only (s : sid) (l : list pevent) (t : sid) : list pevent := if decide (s = t) then l else [].
Definition among (l : list sid) (g : sid -> list pevent) (t : sid) : list pevent :=
  if decide (t ∈ l) then g t else [].
Definition vis (e : pevent) : list pevent := if is_destroyed e then [] else [e].

Lemma prefs_cons q l p : prefs (q :: l) p = ((if decide (q = Some p) then 1 else 0) + prefs l p)%nat.
Proof. unfold prefs. rewrite filter_cons. by destruct (decide (q = Some p)). Qed.
Lemma prefs_app a b p : prefs (a ++ b) p = (prefs a p + prefs b p)%nat.
Proof. unfold prefs. by rewrite filter_app, length_app. Qed.
Lemma prefs_perm a b p : a ≡ₚ b -> prefs a p = prefs b p.
Proof. intros H. unfold prefs. by rewrite H. Qed.
Lemma scount_cons t l s : scount (t :: l) s = ((if decide (t = s) then 1 else 0) + scount l s)%nat.
Proof. unfold scount. rewrite filter_cons. by destruct (decide (t = s)). Qed.

Lemma held_props f st g : held f (set_props g st) = held f st.
Proof. done. Qed.
Lemma held_subs f st g : held f (set_subs g st) = held f st.
Proof. done. Qed.

(** ** One reference more, or less *)

Lemma events_props st g s : events (set_props g st) s = events st s.
Proof. done. Qed.

Lemma sent_to_props st g c n : sent_to (set_props g st) c n <-> sent_to st c n.
Proof. done. Qed.

(** Subscriptions keep their courier and flags. *)
Lemma sent_to_subs st c n s y y' : st_subs st !! s = Some y ->
  hps_courier y' = hps_courier y -> hps_flags y' = hps_flags y ->
  sent_to st c n -> sent_to (set_subs (insert s y') st) c n.
Proof.
  intros E Hc Hf [Hp (z & Ez & H1 & H2)]. split; [done|]. cbn [st_subs set_subs].
  destruct (decide (s = hpn_sub n)) as [->|Hne].
  - exists y'. rewrite lookup_insert_eq. split; [done|]. assert (z = y) as -> by congruence. by rewrite Hc, Hf.
  - exists z. by rewrite lookup_insert_ne.
Qed.

Lemma events_subs st s y y' t : st_subs st !! s = Some y -> hps_courier y' = hps_courier y ->
  events (set_subs (insert s y') st) t = events st t.
Proof.
  intros E Hc. unfold events. cbn [st_subs set_subs st_calls]. destruct (decide (s = t)) as [<-|Hne].
  - by rewrite lookup_insert_eq, E, Hc.
  - by rewrite lookup_insert_ne by done.
Qed.

(** A property changes: its count covers what refers to it. *)
Lemma counted_prop LP LP' LS st p x x' : counted LP LS st -> st_props st !! p = Some x ->
  (forall q, q <> p -> prefs LP' q = prefs LP q) ->
  Z.of_nat (live (hp_val x') + held (nrefs p) st + prefs LP' p) <= hp_refcount x' -> 1 <= hp_refcount x' ->
  counted LP' LS (set_props (insert p x') st).
Proof.
  intros [H1 H2 H3 H4 H5 H6 (F1 & F2 & F3)] E HL Hc Hp. split; [|exact H2|exact H3|exact H4|exact H5|exact H6|].
  - intros q. rewrite held_props. cbn [st_props set_props]. destruct (decide (p = q)) as [<-|Hne].
    + by rewrite lookup_insert_eq.
    + rewrite lookup_insert_ne, HL by done. apply H1.
  - split; [|done]. intros q. cbn [st_props set_props st_next]. intros Hq. apply F1.
    destruct (decide (p = q)) as [<-|Hne]; [by eexists|]. by rewrite lookup_insert_ne in Hq.
Qed.

Lemma counted_sub LP LS LS' st s y y' : counted LP LS st -> st_subs st !! s = Some y ->
  hps_courier y' = hps_courier y -> hps_flags y' = hps_flags y ->
  (forall t, t <> s -> scount LS' t = scount LS t) ->
  Z.of_nat (slive y' + held (srefs s) st + scount LS' s) <= hps_refcount y' -> 1 <= hps_refcount y' ->
  counted LP LS' (set_subs (insert s y') st).
Proof.
  intros [H1 H2 H3 H4 H5 H6 (F1 & F2 & F3)] E Hcr Hf HL Hc Hp. split; [exact H1| | | | | |].
  - intros t. rewrite held_subs. cbn [st_subs set_subs]. destruct (decide (s = t)) as [<-|Hne].
    + by rewrite lookup_insert_eq.
    + rewrite lookup_insert_ne, HL by done. apply H2.
  - intros c pc Epc. eapply Forall_impl; [exact (H3 c pc Epc)|]. intros n. by apply sent_to_subs with y.
  - intros t q Hq. eapply Forall_impl; [exact (H4 t q Hq)|]. intros n [-> Hn]. split; [done|]. by apply sent_to_subs with y.
  - intros t z c pc Ez Hz Epc He. cbn [st_subs set_subs] in Ez. destruct (decide (s = t)) as [<-|Hne].
    + rewrite lookup_insert_eq in Ez. injection Ez as <-. apply (H5 s y c pc); [done|congruence|done|congruence].
    + rewrite lookup_insert_ne in Ez by done. by apply (H5 t z c pc).
  - intros t z c Ez Hz. cbn [st_subs set_subs] in Ez. destruct (decide (s = t)) as [<-|Hne].
    + rewrite lookup_insert_eq in Ez. injection Ez as <-. apply (H6 s y c); [done|congruence].
    + rewrite lookup_insert_ne in Ez by done. by apply (H6 t z c).
  - split; [done|]. split; [|done]. intros t. cbn [st_subs set_subs st_next]. intros Ht. apply F2.
    destruct (decide (s = t)) as [<-|Hne]; [by eexists|]. by rewrite lookup_insert_ne in Ht.
Qed.

(** References in another order are the same. *)
Lemma counted_refs LP LP' LS st : counted LP LS st -> (forall p, (prefs LP' p <= prefs LP p)%nat) -> counted LP' LS st.
Proof.
  intros [H1 H2 H3 H4 H5 H6 H7] HL. split; [|done..]. intros p. specialize (H1 p). specialize (HL p).
  destruct (st_props st !! p); lia.
Qed.

Lemma counted_held LP LS st p : counted LP LS st -> (0 < prefs LP p)%nat -> is_Some (tree st !! p).
Proof.
  intros [H1 _ _ _ _ _ _] Hp. specialize (H1 p). destruct (st_props st !! p) as [x|] eqn:E; [|lia].
  rewrite (tree_lookup _ _ _ E). by eexists.
Qed.

Lemma tree_same st p x x' : st_props st !! p = Some x -> tprop x' = tprop x ->
  tree (set_props (insert p x') st) = tree st.
Proof. intros E Ex. rewrite tree_insert, Ex. apply insert_id, tree_lookup, E. Qed.

Lemma stree_same st s y y' : st_subs st !! s = Some y -> tsub y' = tsub y ->
  stree (set_subs (insert s y') st) = stree st.
Proof. intros E Ex. rewrite stree_insert, Ex. apply insert_id, stree_lookup, E. Qed.

Lemma wp_ref_inc LP LS st p : counted LP LS st -> is_Some (tree st !! p) ->
  wp (prop_ref_inc (Some p)) (fun r st' => r = Some p /\ counted (Some p :: LP) LS st' /\ notified st st' (fun _ => [])) st.
Proof.
  intros H (x & Ex). destruct (tree_inv _ _ _ Ex) as (x0 & E & ->). unfold prop_ref_inc.
  apply wp_bind, (wp_upd_prop p x0), wp_ret; [done|]. split; [done|]. split.
  - pose proof (c_props _ _ _ H p) as Hp. rewrite E in Hp.
    apply (counted_prop LP _ _ _ _ x0); [done|done| | |]; cbn [hp_val hp_refcount set_refcount].
    + intros q Hq. rewrite prefs_cons, decide_False by congruence. done.
    + rewrite prefs_cons, decide_True by done. lia.
    + lia.
  - split; [by apply (tree_same _ _ x0)|done..|]. intros s. by rewrite app_nil_r.
Qed.

Lemma wp_ref_inc_opt LP LS st q : counted LP LS st -> (forall p, q = Some p -> is_Some (tree st !! p)) ->
  wp (prop_ref_inc q) (fun r st' => r = q /\ counted (q :: LP) LS st' /\ notified st st' (fun _ => [])) st.
Proof.
  intros H Hq. destruct q as [p|]; [apply wp_ref_inc; [done|by apply Hq]|]. apply wp_ret. split; [done|].
  split; [|apply notified_refl]. apply (counted_refs LP); [done|]. intros p. rewrite prefs_cons, decide_False; done.
Qed.

Lemma wp_ref_incs LP LS l st : counted LP LS st -> (forall p, Some p ∈ l -> is_Some (tree st !! p)) ->
  wp (forM l (fun p => _ ← prop_ref_inc p; mret tt))
    (fun _ st' => counted (l ++ LP) LS st' /\ notified st st' (fun _ => [])) st.
Proof.
  intros H Hl. apply wp_forM with (I := fun l1 st' => counted (l1 ++ LP) LS st' /\ notified st st' (fun _ => [])); [| |done].
  - intros l1 q l2 st' -> [H' Hn]. apply wp_bind. eapply wp_mono; [apply (wp_ref_inc_opt _ _ _ _ H')|].
    + intros p ->. rewrite (n_tree _ _ _ Hn). apply Hl. set_solver.
    + intros r st2 (_ & H2 & Hn2). apply wp_ret. split.
      * eapply counted_refs; [exact H2|]. intros p. rewrite <- app_assoc. cbn [app]. by rewrite prefs_cons, !prefs_app, prefs_cons; lia.
      * eapply notified_ext; [by eapply notified_trans|done].
  - split; [done|apply notified_refl].
Qed.

(** ** Putting a notification in its queue *)

Lemma nrefs_payload n ps p : payload_props (hpn_event n) = Ok ps -> nrefs p n = prefs ps p.
Proof. unfold nrefs. by intros ->. Qed.

(** A queue with one notification more takes over its references. *)
Lemma counted_queued LP LS st st' n ps :
  counted (ps ++ LP) (hpn_sub n :: LS) st -> payload_props (hpn_event n) = Ok ps ->
  st_props st' = st_props st -> st_subs st' = st_subs st -> st_next st' = st_next st -> st_calls st' = st_calls st ->
  (forall f, held f st' = (held f st + f n)%nat) ->
  (forall c pc, st_couriers st' !! c = Some pc -> Forall (sent_to st (Some c)) (pc_queue_exp pc ++ pc_queue_nor pc)) ->
  (forall s q, (s, q) ∈ st_global st' -> Forall (fun n => hpn_sub n = s /\ sent_to st None n) q) ->
  (forall s y c pc, st_subs st !! s = Some y -> hps_courier y = Some c -> st_couriers st' !! c = Some pc ->
     sf_expedite (hps_flags y) = true -> queued_of s (pc_queue_nor pc) = []) ->
  (forall c, is_Some (st_couriers st' !! c) <-> is_Some (st_couriers st !! c)) ->
  counted LP LS st'.
Proof.
  intros [H1 H2 H3 H4 H5 H6 (F1 & F2 & F3 & F4)] Hps Ep Es En El Hh Hc Hg He Hd. split.
  - intros p. specialize (H1 p). rewrite Ep, Hh, (nrefs_payload _ _ p Hps). rewrite prefs_app in H1.
    destruct (st_props st !! p); lia.
  - intros s. specialize (H2 s). rewrite Es, Hh. rewrite scount_cons in H2. unfold srefs at 2 4.
    destruct (st_subs st !! s), (decide (hpn_sub n = s)); lia.
  - intros c pc Epc. eapply Forall_impl; [exact (Hc c pc Epc)|]. intros m. unfold sent_to. by rewrite Es.
  - intros s q Hq. eapply Forall_impl; [exact (Hg s q Hq)|]. intros m. unfold sent_to. by rewrite Es.
  - intros s y c pc. rewrite Es. apply He.
  - intros s y c. rewrite Es, Hd. apply H6.
  - rewrite Ep, Es, En, El. split; [done|]. split; [done|]. split; [|done]. intros c. rewrite Hd. apply F3.
Qed.

Lemma psd_append_in n g s q : (s, q) ∈ psd_append n g ->
  (s, q) ∈ g \/ s = hpn_sub n /\ exists q0, q = q0 ++ [n] /\ (q0 = [] \/ (s, q0) ∈ g).
Proof.
  induction g as [|[t r] g IH]; simpl.
  - intros H. apply list_elem_of_singleton in H as [= -> ->]. right. split; [done|]. exists []. by split; [|left].
  - destruct (decide (t = hpn_sub n)) as [->|Hne]; intros H; apply elem_of_cons in H as [[= -> ->]|H].
    + right. split; [done|]. exists r. split; [done|]. right. by left.
    + left. by right.
    + left. by left.
    + destruct (IH H) as [H'|(-> & q0 & -> & [->|H'])].
      * left. by right.
      * right. split; [done|]. exists []. by split; [|left].
      * right. split; [done|]. exists q0. split; [done|]. right. by right.
Qed.

Lemma wp_enqueue0 LP LS st n (b : bool) y ps :
  counted (ps ++ LP) (hpn_sub n :: LS) st -> payload_props (hpn_event n) = Ok ps ->
  st_subs st !! hpn_sub n = Some y -> sf_internal (hps_flags y) = false ->
  (if b then sf_expedite (hps_flags y) || is_destroyed (hpn_event n) else negb (sf_expedite (hps_flags y))) = true ->
  wp (courier_enqueue0 n b)
    (fun _ st' => counted LP LS st' /\ notified st st' (only (hpn_sub n) (vis (hpn_event n)))) st.
Proof.
  intros H Hps E Hi Hb. unfold courier_enqueue0. apply wp_bind, (wp_get_sub _ y); [done|].
  pose proof H as [H1 H2 H3 H4 H5 H6 (F1 & F2 & F3)].
  assert (sent_to st (hps_courier y) n) as Hn by (split; [by eexists|by exists y]).
  destruct (hps_courier y) as [c|] eqn:Ec.
  - destruct (H6 _ _ _ E Ec) as [pc Epc]. apply wp_bind, (wp_get_courier _ pc), wp_modify; [done|].
    set (pc' := if b then _ else _). set (st' := set_couriers _ st).
    assert (Forall (sent_to st (Some c)) (pc_queue_exp pc' ++ pc_queue_nor pc')) as Hpc'.
    { pose proof (H3 c pc Epc) as Hf. apply Forall_app in Hf as [Hf1 Hf2]. unfold pc'.
      destruct b; simpl; rewrite !Forall_app, ?Forall_singleton; auto. }
    split.
    + apply (counted_queued LP LS st st' n ps); try done.
      * intros f. unfold held, st'. cbn [st_couriers set_couriers st_global].
        pose proof (msum_insert (csum f) _ c pc pc' Epc) as Hm.
        assert (csum f pc' = (csum f pc + f n)%nat); [|lia]. unfold csum, pc'.
        destruct b; simpl; rewrite qsum_app, qsum_one; lia.
      * intros c' q. unfold st'. cbn [st_couriers set_couriers]. destruct (decide (c = c')) as [<-|Hne].
        { rewrite lookup_insert_eq. by intros [= <-]. }
        { rewrite lookup_insert_ne by done. apply H3. }
      * intros s z c' q Ez Hz. unfold st'. cbn [st_couriers set_couriers]. destruct (decide (c = c')) as [<-|Hne].
        { rewrite lookup_insert_eq. intros [= <-] He. pose proof (H5 s z c pc Ez Hz Epc He) as Hq.
          unfold pc'. destruct b; [done|]. simpl. rewrite queued_of_app, Hq, queued_of_one.
          destruct (decide (hpn_sub n = s)) as [<-|]; [|done]. assert (z = y) as -> by congruence. by rewrite He in Hb. }
        { rewrite lookup_insert_ne by done. by apply (H5 s z). }
      * intros c'. unfold st'. cbn [st_couriers set_couriers]. destruct (decide (c = c')) as [<-|Hne].
        { rewrite lookup_insert_eq. split; by eexists. }
        { by rewrite lookup_insert_ne. }
    + split; [done..|]. intros s. unfold events, st'. cbn [st_couriers set_couriers st_calls st_subs]. rewrite <- app_assoc. f_equal.
      destruct (decide (hpn_sub n = s)) as [<-|Hne].
      * rewrite E, Ec. unfold pending. cbn [st_couriers set_couriers]. rewrite lookup_insert_eq, Epc.
        unfold only, vis. rewrite decide_True by done. unfold pc'. destruct b; simpl.
        { rewrite queued_of_app, queued_of_one, decide_True by done. destruct (is_destroyed (hpn_event n)) eqn:Ed.
          - by rewrite !app_nil_r.
          - rewrite orb_false_r in Hb. rewrite (H5 _ _ c pc E Ec Epc Hb). by rewrite !app_nil_r. }
        { by rewrite queued_of_app, queued_of_one, decide_True, app_assoc. }
      * unfold only, vis. rewrite decide_False, app_nil_r by done. destruct (st_subs st !! s) as [z|]; [|done].
        unfold pending. destruct (hps_courier z) as [c'|]; [|done]. cbn [st_couriers set_couriers].
        destruct (decide (c = c')) as [<-|Hc]; [|by rewrite lookup_insert_ne]. rewrite lookup_insert_eq, Epc.
        unfold pc'. destruct b; simpl; rewrite queued_of_app, queued_of_one, decide_False, app_nil_r; done.
  - apply wp_bind, wp_gets, wp_modify. split.
    + apply (counted_queued LP LS st _ n ps); try done.
      * intros f. unfold held. cbn [st_couriers set_global st_global]. rewrite psd_append_sum. lia.
      * cbn [st_global set_global]. intros s q [Hq|(-> & q0 & -> & [->|Hq])]%psd_append_in.
        { by apply H4. }
        { by apply Forall_singleton. }
        { apply Forall_app. split; [by apply H4|by apply Forall_singleton]. }
    + split; [done..|]. intros s. unfold events. cbn [st_couriers set_global st_calls st_subs]. rewrite <- app_assoc. f_equal.
      unfold pending, only, vis. cbn [st_global set_global st_couriers]. destruct (decide (hpn_sub n = s)) as [<-|Hne].
      * rewrite E, Ec, psd_append_of, decide_True by done. rewrite queued_of_app, queued_of_one, decide_True by done. done.
      * rewrite app_nil_r. destruct (st_subs st !! s) as [z|]; [|done]. destruct (hps_courier z); [done|].
        by rewrite psd_append_of, decide_False.
Qed.

(** ** Telling a subscription *)

Lemma queued_of_nobody s q : Forall (fun n => hpn_sub n <> s) q -> queued_of s q = [].
Proof.
  induction 1 as [|n q Hn _ IH]; [done|]. change (n :: q) with ([n] ++ q).
  by rewrite queued_of_app, IH, queued_of_one, decide_False.
Qed.

Lemma psd_of_in s g : psd_of s g = [] \/ (s, psd_of s g) ∈ g.
Proof.
  induction g as [|[t q] g IH]; simpl; [by left|]. destruct (decide (t = s)) as [->|]; [right; by left|].
  destruct IH as [IH|IH]; [by left|right; by right].
Qed.

(** Nothing is queued for a subscription that is called. *)
Lemma internal_pending LP LS st s y : counted LP LS st -> st_subs st !! s = Some y ->
  sf_internal (hps_flags y) = true -> pending st s (hps_courier y) = [].
Proof.
  intros [_ _ H3 H4 _ _ _] E Hi. assert (forall c n, sent_to st c n -> hpn_sub n <> s) as Hno.
  { intros c n [_ (z & Ez & _ & Hz)] Hs. rewrite Hs in Ez. congruence. }
  unfold pending. destruct (hps_courier y) as [c|].
  - destruct (st_couriers st !! c) as [pc|] eqn:Epc; [|done]. rewrite <- queued_of_app.
    apply queued_of_nobody. eapply Forall_impl; [by apply H3|]. intros n. apply Hno.
  - destruct (psd_of_in s (st_global st)) as [->|Hin]; [done|]. apply queued_of_nobody.
    eapply Forall_impl; [by apply (H4 s)|]. intros n [_ Hn]. by apply (Hno None).
Qed.

Lemma wp_call LP LS st s e y : counted LP LS st -> st_subs st !! s = Some y ->
  pending st s (hps_courier y) = [] ->
  wp (call s e) (fun _ st' => counted LP LS st' /\ notified st st' (only s (vis e))) st.
Proof.
  intros H E Hp. apply wp_modify. split.
  - destruct H as [H1 H2 H3 H4 H5 H6 (F1 & F2 & F3 & F4)]. split; try done. split; [done|]. split; [done|]. split; [done|].
    apply Forall_app. split; [done|]. apply Forall_singleton, F2. by eexists.
  - split; [done..|]. intros t. unfold events. cbn [add_call st_calls st_subs]. rewrite calls_of_app, calls_of_one.
    unfold only, vis. destruct (decide (s = t)) as [<-|Hne].
    + rewrite E. change (pending (add_call s e st)) with (pending st). by rewrite Hp, !app_nil_r.
    + by rewrite !app_nil_r.
Qed.

Lemma wp_get_notify LP LS st s e y : counted LP LS st -> st_subs st !! s = Some y ->
  wp (get_notify s e)
    (fun n st' => n = Notify s e /\ counted LP (s :: LS) st' /\ notified st st' (fun _ => []) /\
       exists y', st_subs st' !! s = Some y' /\ hps_flags y' = hps_flags y) st.
Proof.
  intros H E. unfold get_notify. apply wp_bind, (wp_upd_sub s y), wp_ret; [done|]. split; [done|].
  set (y' := sub_set_refcount (hps_refcount y + 1) y). pose proof (c_subs _ _ _ H s) as Hs. rewrite E in Hs. split; [|split].
  - apply (counted_sub _ LS _ _ _ y); [done|done|done|done| | |].
    + intros t Ht. rewrite scount_cons, decide_False by done. done.
    + rewrite scount_cons, decide_True by done. unfold y', slive in *. simpl in *. lia.
    + unfold y'. simpl. lia.
  - split; [done|by apply (stree_same _ _ y)|done|done|]. intros t. rewrite app_nil_r.
    by apply (events_subs _ _ y).
  - exists y'. split; [|done]. apply lookup_insert_eq.
Qed.

(** A notification that is built and queued. *)
Lemma wp_enqueue LP LS st n y ps :
  counted (ps ++ LP) (hpn_sub n :: LS) st -> payload_props (hpn_event n) = Ok ps ->
  st_subs st !! hpn_sub n = Some y -> sf_internal (hps_flags y) = false ->
  wp (courier_enqueue n)
    (fun _ st' => counted LP LS st' /\ notified st st' (only (hpn_sub n) (vis (hpn_event n)))) st.
Proof.
  intros H Hps E Hi. unfold courier_enqueue. apply wp_bind, (wp_get_sub _ y); [done|].
  apply (wp_enqueue0 _ _ _ _ _ y ps); try done. by destruct (sf_expedite (hps_flags y)).
Qed.

Definition child_event (e : pevent) : Prop := exists ps, payload_props e = Ok ps /\ ps ≡ₚ event_props e.

Lemma wp_build_child LP LS st s e direct y :
  counted LP LS st -> stree st !! s = Some y -> (direct = true -> pending st s (hps_courier y) = []) ->
  child_event e -> (forall p, Some p ∈ event_props e -> is_Some (tree st !! p)) ->
  wp (prop_build_notify_child s e direct)
    (fun _ st' => counted LP LS st' /\ notified st st' (only s (vis e))) st.
Proof.
  intros H E Hd (ps & Hps & Hperm) Hin. destruct (stree_inv _ _ _ E) as (y0 & E0 & ->).
  unfold prop_build_notify_child. apply wp_bind, (wp_get_sub _ y0); [done|].
  destruct (direct || sf_internal (hps_flags y0)) eqn:Hcall.
  - apply (wp_call LP LS _ _ _ y0); [done|done|]. apply orb_true_iff in Hcall as [Hc|Hc]; [by apply Hd|].
    by apply (internal_pending LP LS _ _ y0).
  - apply orb_false_iff in Hcall as [_ Hi]. apply wp_bind.
    eapply wp_mono; [by apply (wp_get_notify LP LS _ _ _ y0)|]. intros n st1 (-> & H1 & N1 & y1 & E1 & Hf1).
    apply wp_bind. eapply wp_mono; [apply (wp_ref_incs _ _ _ _ H1)|].
    { intros p. rewrite (n_tree _ _ _ N1). apply Hin. }
    intros [] st2 (H2 & N2). assert (exists y2, st_subs st2 !! s = Some y2 /\ hps_flags y2 = hps_flags y0) as (y2 & E2 & Hf2).
    { destruct (stree_inv st2 s (tsub y1)) as (y2 & E2 & Hy2).
      - by rewrite (n_stree _ _ _ N2), (stree_lookup _ _ _ E1).
      - exists y2. split; [done|]. assert (hps_flags (tsub y1) = hps_flags (tsub y2)) as Hf by (by rewrite Hy2).
        cbn in Hf. congruence. }
    eapply wp_mono; [apply (wp_enqueue LP LS st2 (Notify s e) y2 ps)|].
    + eapply counted_refs; [exact H2|]. intros p. by rewrite !prefs_app, (prefs_perm _ _ p Hperm).
    + done.
    + done.
    + congruence.
    + intros [] st3 (H3 & N3). split; [done|]. eapply notified_ext; [eapply notified_trans; [exact N1|eapply notified_trans; [exact N2|exact N3]]|done].
Qed.

(** ** All subscribers of a property *)

Lemma among_step l s l' g t : NoDup (l ++ s :: l') ->
  among (l ++ [s]) g t = among l g t ++ only s (g s) t.
Proof.
  intros Hnd. apply NoDup_app in Hnd as (_ & Hnot & _). unfold among, only.
  destruct (decide (s = t)) as [->|Hne].
  - assert (t ∉ l) as Ht by (intros Hin; apply (Hnot t Hin); left).
    rewrite (decide_False (P := t ∈ l)) by done. rewrite decide_True by set_solver. done.
  - rewrite app_nil_r. destruct (decide (t ∈ l)) as [Hin|Hin].
    + by rewrite decide_True by set_solver.
    + rewrite decide_False; [done|]. set_solver.
Qed.

Lemma wp_each LP LS st l body g :
  counted LP LS st -> NoDup l ->
  (forall s st', s ∈ l -> counted LP LS st' -> tree st' = tree st -> stree st' = stree st ->
     wp (body s) (fun _ st2 => counted LP LS st2 /\ notified st' st2 (only s (g s))) st') ->
  wp (forM l body) (fun _ st' => counted LP LS st' /\ notified st st' (among l g)) st.
Proof.
  intros H Hnd Hbody.
  apply wp_forM with (I := fun l1 st' => counted LP LS st' /\ notified st st' (among l1 g)); [| |done].
  - intros l1 s l2 st' -> [H' N']. eapply wp_mono.
    { apply Hbody; [set_solver|done|apply (n_tree _ _ _ N')|apply (n_stree _ _ _ N')]. }
    intros [] st2 [H2 N2]. split; [done|]. eapply notified_ext; [by eapply notified_trans|]. intros t. simpl.
    by rewrite (among_step l1 s l2).
  - split; [done|]. eapply notified_ext; [apply notified_refl|]. intros t. unfold among.
    by rewrite decide_False by set_solver.
Qed.

(** What a subscriber is told, unless it is the one to skip. *)
Definition unless (skipme : option sid) (l : list pevent) (s : sid) : list pevent :=
  if skipped s skipme then [] else l.

Lemma wp_notify_child LP LS st p x e skipme :
  counted LP LS st -> tree st !! p = Some x -> NoDup (hp_value_subscriptions x) ->
  (forall s, s ∈ hp_value_subscriptions x -> is_Some (stree st !! s)) ->
  child_event e -> (forall q, Some q ∈ event_props e -> is_Some (tree st !! q)) ->
  wp (prop_notify_child p e skipme)
    (fun _ st' => counted LP LS st' /\
       notified st st' (among (hp_value_subscriptions x) (unless skipme (vis e)))) st.
Proof.
  intros H E Hnd Hs He Hp. destruct (tree_inv _ _ _ E) as (x0 & E0 & ->).
  unfold prop_notify_child. apply wp_bind, (wp_get_prop _ x0); [done|].
  apply wp_each; [done..|]. intros s st' Hin H' Et Es. unfold unless. destruct (skipped s skipme) eqn:Hk.
  - apply wp_ret. split; [done|]. eapply notified_ext; [apply notified_refl|]. intros t. unfold only. by destruct (decide _).
  - destruct (Hs s Hin) as [y Ey]. rewrite <- Es in Ey. rewrite <- Et in Hp. by apply (wp_build_child LP LS _ _ _ _ y).
Qed.

(** ** Values *)

(** A value that is announced as it is. *)
Definition simple_val (v : pval) : Prop := match v with PProp _ | PZombie => False | _ => True end.

Lemma value_event_simple p v how : simple_val v ->
  exists e, value_event p v how = Some e /\ direct_event p v how = Some e /\
    payload_props e = Ok [Some p] /\ is_destroyed e = false.
Proof. by destruct v; simpl; try done; intros _; eexists. Qed.

(** What a subscription is told of a value. *)
Definition value_note (y : sub) (p : pid) (v : pval) (how : Z) : list pevent :=
  if sf_ignore_void (hps_flags y) && is_void v then [] else option_list (value_event p v how).

Lemma wp_build_value LP LS st s direct p how y x :
  counted LP LS st -> stree st !! s = Some y -> (direct = true -> pending st s (hps_courier y) = []) ->
  tree st !! p = Some x -> simple_val (hp_val x) ->
  wp (prop_build_notify_value s direct p false how)
    (fun _ st' => counted LP LS st' /\ notified st st' (only s (value_note y p (hp_val x) how))) st.
Proof.
  intros H E Hd Ex Hv. destruct (stree_inv _ _ _ E) as (y0 & E0 & ->). destruct (tree_inv _ _ _ Ex) as (x0 & Ex0 & ->).
  change (hp_val (tprop x0)) with (hp_val x0) in *. change (hps_courier (tsub y0)) with (hps_courier y0) in *.
  unfold prop_build_notify_value, value_note. change (hps_flags (tsub y0)) with (hps_flags y0).
  apply wp_bind, (wp_get_sub _ y0), wp_bind, (wp_get_prop _ x0); [done..|].
  destruct (sf_ignore_void _ && is_void _).
  { apply wp_ret. split; [done|]. eapply notified_ext; [apply notified_refl|]. intros t. unfold only. by destruct (decide _). }
  destruct (value_event_simple p (hp_val x0) how Hv) as (e & -> & -> & Hps & Hde). simpl.
  assert (forall t, only s [e] t = only s (vis e) t) as Ho by (intros t; unfold only, vis; by rewrite Hde).
  rewrite andb_true_r. destruct (direct || sf_internal (hps_flags y0)) eqn:Hcall.
  - eapply wp_mono; [apply (wp_call LP LS _ _ _ y0); [done..|]|].
    + apply orb_true_iff in Hcall as [Hc|Hc]; [by apply Hd|]. by apply (internal_pending LP LS _ _ y0).
    + intros _ st' [H' N']. split; [done|]. by eapply notified_ext.
  - apply orb_false_iff in Hcall as [_ Hi]. apply wp_bind.
    eapply wp_mono; [by apply (wp_get_notify LP LS _ _ _ y0)|]. intros n st1 (-> & H1 & N1 & y1 & E1 & Hf1).
    apply wp_bind. eapply wp_mono; [apply (wp_ref_inc _ _ _ _ H1)|].
    { rewrite (n_tree _ _ _ N1), Ex. by eexists. }
    intros r st2 (_ & H2 & N2). apply wp_bind.
    assert (match hp_val x0 with PProp t => prop_ref_inc t | _ => mret None end = mret None) as -> by by destruct (hp_val x0).
    apply wp_ret. destruct (stree_inv st2 s (tsub y1)) as (y2 & E2 & Hy2).
    { by rewrite (n_stree _ _ _ N2), (stree_lookup _ _ _ E1). }
    assert (hps_flags y2 = hps_flags y0) as Hf2.
    { assert (hps_flags (tsub y1) = hps_flags (tsub y2)) as Hf by (by rewrite Hy2). cbn in Hf. congruence. }
    eapply wp_mono; [apply (wp_enqueue LP LS st2 (Notify s e) y2 [Some p]); [done..|congruence]|].
    intros [] st3 (H3 & N3). split; [done|].
    eapply notified_ext; [eapply notified_trans; [exact N1|eapply notified_trans; [exact N2|exact N3]]|].
    intros t. by rewrite Ho.
Qed.

(** The subscriptions of a property, each of which knows it. *)
Definition subscribed (S : gmap sid sub) (p : pid) (l : list sid) : Prop :=
  NoDup l /\ forall s, s ∈ l -> exists y, S !! s = Some y /\ hps_value_prop y = Some p.
(** What the subscribers of a property are told of its value. *)
Definition value_notes (S : gmap sid sub) (p : pid) (v : pval) (how : Z) (s : sid) : list pevent :=
  match S !! s with Some y => value_note y p v how | None => [] end.

Lemma wp_notify_value LP LS st p x skipme how :
  counted LP LS st -> tree st !! p = Some x -> simple_val (hp_val x) -> hp_multi_notify x = false ->
  subscribed (stree st) p (hp_value_subscriptions x) ->
  wp (prop_notify_value p skipme how)
    (fun _ st' => counted LP LS st' /\
       notified st st' (among (hp_value_subscriptions x)
         (fun s => unless skipme (value_notes (stree st) p (hp_val x) how s) s))) st.
Proof.
  intros H E Hv Hm [Hnd Hs]. destruct (tree_inv _ _ _ E) as (x0 & E0 & ->).
  unfold prop_notify_value. apply wp_bind, (wp_get_prop _ x0); [done|].
  change (hp_multi_notify (tprop x0)) with (hp_multi_notify x0) in Hm. rewrite Hm. apply wp_bind.
  eapply wp_mono; [|intros u st' H'; apply wp_ret; exact H'].
  apply wp_each; [done..|]. intros s st' Hin H' Et Es. unfold unless. destruct (skipped s skipme) eqn:Hk.
  - apply wp_ret. split; [done|]. eapply notified_ext; [apply notified_refl|]. intros t. unfold only. by destruct (decide _).
  - destruct (Hs s Hin) as (y & Ey & Hy). unfold value_notes. rewrite Ey. rewrite <- Es in Ey.
    destruct (stree_inv _ _ _ Ey) as (y0 & Ey0 & ->). apply wp_bind, (wp_get_sub _ y0); [done|].
    change (hps_value_prop (tsub y0)) with (hps_value_prop y0) in Hy. rewrite Hy.
    apply (wp_build_value LP LS st' s false p how (tsub y0) (tprop x0)); [done|done|done|by rewrite Et|done].
Qed.

(** ** Events without a property *)

Definition bare_event (e : pevent) : Prop :=
  match e with
  | ReqNewChild | Destroyed | MonitorActive | WantMoreChilds | HaveMoreChilds _ | SetVoid None => True
  | _ => False
  end.

Lemma wp_bare LP LS st s e y (b : bool) :
  counted LP LS st -> st_subs st !! s = Some y -> sf_internal (hps_flags y) = false -> bare_event e ->
  (if b then sf_expedite (hps_flags y) || is_destroyed e else negb (sf_expedite (hps_flags y))) = true ->
  wp (n ← get_notify s e; courier_enqueue0 n b)
    (fun _ st' => counted LP LS st' /\ notified st st' (only s (vis e))) st.
Proof.
  intros H E Hi He Hb. apply wp_bind.
  eapply wp_mono; [by apply (wp_get_notify LP LS _ _ _ y)|]. intros n st1 (-> & H1 & N1 & y1 & E1 & Hf1).
  assert (exists ps, payload_props e = Ok ps /\ (ps = [] \/ ps = [None])) as (ps & Hps & Hps').
  { destruct e; try destruct p; try done; eexists; split; try done; auto. }
  eapply wp_mono; [apply (wp_enqueue0 LP LS st1 (Notify s e) b y1 ps)|].
  - eapply counted_refs; [exact H1|]. intros q. rewrite prefs_app. destruct Hps' as [-> | ->]; [done|].
    rewrite prefs_cons. by rewrite decide_False.
  - done.
  - done.
  - simpl. congruence.
  - simpl. by rewrite Hf1.
  - intros _ st2 [H2 N2]. split; [done|]. eapply notified_ext; [by eapply notified_trans|done].
Qed.

Lemma wp_bare' LP LS st s e y :
  counted LP LS st -> st_subs st !! s = Some y -> sf_internal (hps_flags y) = false -> bare_event e ->
  wp (n ← get_notify s e; courier_enqueue n)
    (fun _ st' => counted LP LS st' /\ notified st st' (only s (vis e))) st.
Proof.
  intros H E Hi He. apply wp_bind. pose proof (wp_bare LP LS st s e y (sf_expedite (hps_flags y)) H E Hi He) as Hw.
  unfold get_notify in *. eapply wp_mono; [|intros n st' Hn; exact Hn].
  apply wp_bind, (wp_upd_sub s y), wp_ret; [done|]. unfold courier_enqueue. cbn [hpn_sub].
  apply wp_bind. eapply wp_get_sub; [apply lookup_insert_eq|]. cbn [hps_flags sub_set_refcount].
  specialize (Hw ltac:(by destruct (sf_expedite _))). unfold wp, mbind, M_bind in Hw. unfold upd_sub in Hw.
  unfold mbind, M_bind, get_sub in Hw. rewrite E in Hw. done.
Qed.

(** What a subscription is told when its property goes. *)
Definition void_note (y : sub) : list pevent :=
  if sf_ignore_void (hps_flags y) then []
  else [SetVoid (if sf_internal (hps_flags y) then hps_value_prop y else None)].

Lemma wp_notify_void LP LS st s y : counted LP LS st -> stree st !! s = Some y ->
  wp (prop_notify_void s) (fun _ st' => counted LP LS st' /\ notified st st' (only s (void_note y))) st.
Proof.
  intros H E. destruct (stree_inv _ _ _ E) as (y0 & E0 & ->). unfold prop_notify_void, void_note.
  apply wp_bind, (wp_get_sub _ y0); [done|]. cbn [hps_flags hps_value_prop tsub sub_set_pending sub_set_refcount].
  destruct (sf_ignore_void _).
  { apply wp_ret. split; [done|]. eapply notified_ext; [apply notified_refl|]. intros t. unfold only. by destruct (decide _). }
  destruct (sf_internal _) eqn:Hi.
  - apply (wp_call LP LS st s (SetVoid (hps_value_prop y0)) y0); [done..|]. by apply (internal_pending LP LS _ _ y0).
  - by apply (wp_bare' LP LS st s (SetVoid None) y0).
Qed.

Lemma wp_notify_destroyed LP LS st s : counted LP LS st -> is_Some (stree st !! s) ->
  wp (prop_notify_destroyed s) (fun _ st' => counted LP LS st' /\ notified st st' (fun _ => [])) st.
Proof.
  intros H [y E]. destruct (stree_inv _ _ _ E) as (y0 & E0 & ->). unfold prop_notify_destroyed.
  apply wp_bind, (wp_get_sub _ y0); [done|].
  assert (forall st', notified st st' (only s (vis Destroyed)) -> notified st st' (fun _ => [])) as Hn.
  { intros st' N. eapply notified_ext; [exact N|]. intros t. unfold only. by destruct (decide _). }
  destruct (sf_internal _) eqn:Hi.
  - eapply wp_mono; [apply (wp_call LP LS _ _ _ y0); [done..|]|].
    + by apply (internal_pending LP LS _ _ y0).
    + intros _ st' [H' N']. split; [done|]. by apply Hn.
  - eapply wp_mono; [apply (wp_bare LP LS st s Destroyed y0); [done..|]|].
    + destruct (sf_expedite _), (sf_track_destroy_exp _); done.
    + intros _ st' [H' N']. split; [done|]. by apply Hn.
Qed.

Lemma wp_send_event LP LS st p x e : counted LP LS st -> tree st !! p = Some x ->
  subscribed (stree st) p (hp_value_subscriptions x) -> bare_event e ->
  wp (prop_send_event p e)
    (fun _ st' => counted LP LS st' /\ notified st st' (among (hp_value_subscriptions x) (fun _ => vis e))) st.
Proof.
  intros H E [Hnd Hs] He. destruct (tree_inv _ _ _ E) as (x0 & E0 & ->). unfold prop_send_event.
  apply wp_bind, (wp_get_prop _ x0); [done|].
  apply (wp_each LP LS st _ _ (fun _ => vis e)); [done..|]. intros s st' Hin H' Et Es.
  destruct (Hs s Hin) as (y & Ey & _). rewrite <- Es in Ey. destruct (stree_inv _ _ _ Ey) as (y0 & Ey0 & ->).
  apply wp_bind, (wp_get_sub _ y0); [done|]. destruct (sf_internal _) eqn:Hi.
  - apply (wp_call LP LS _ _ _ y0); [done..|]. by apply (internal_pending LP LS _ _ y0).
  - by apply (wp_bare' LP LS st' s e y0).
Qed.
