(* ===== verification/PropWorld.v ===== *)
(** The property tree as its clients see it: the live properties, the live
    subscriptions and the events of each.  A computation is described by what
    it makes of these three; reference counts, queues and what is left of
    destroyed objects stay behind [at_]. *)
From S2P Require Import Prelude PropStore PropTree PropSub PropLogic.

Local Open Scope Z_scope.

(** * Worlds *)

Definition live_prop (e : pid * prop) : Prop := is_zombie (hp_val e.2) = false.
Definition live_sub (e : sid * sub) : Prop := hps_zombie e.2 = false.
#[export] Instance live_prop_dec e : Decision (live_prop e).
Proof. unfold live_prop. apply _. Defined.
#[export] Instance live_sub_dec e : Decision (live_sub e).
Proof. unfold live_sub. apply _. Defined.
Definition alive (st : store) : gmap pid prop := filter live_prop (tree st).
Definition asubs (st : store) : gmap sid sub := filter live_sub (stree st).

(** Nothing refers to what is left of a property but references. *)
Record clean (x : prop) : Prop := {
  cl_parent : hp_parent x = None;
  cl_vsubs : hp_value_subscriptions x = [];
  cl_csubs : hp_canonical_subscriptions x = []
}.

(** The live properties are [A], the live subscriptions [S] and their events
    [E]; [D] holds a property that is being destroyed. *)
Record at_ (D : gmap pid prop) (LP : list (option pid)) (LS : list sid)
    (A : gmap pid prop) (S : gmap sid sub) (E : sid -> list pevent) (st : store) : Prop := {
  at_counted : counted LP LS st;
  at_alive : alive st = A;
  at_subs : asubs st = S;
  at_events s : is_Some (S !! s) -> events st s = E s;
  at_dying p x : D !! p = Some x -> tree st !! p = Some x /\ is_zombie (hp_val x) = true;
  at_zombies p x : tree st !! p = Some x -> is_zombie (hp_val x) = true -> is_Some (D !! p) \/ clean x
}.

Lemma alive_Some st p x : alive st !! p = Some x <-> tree st !! p = Some x /\ is_zombie (hp_val x) = false.
Proof. apply map_lookup_filter_Some. Qed.
Lemma asubs_Some st s y : asubs st !! s = Some y <-> stree st !! s = Some y /\ hps_zombie y = false.
Proof. apply map_lookup_filter_Some. Qed.

Section at_.
Context {D : gmap pid prop} {LP : list (option pid)} {LS : list sid}.
Context {A : gmap pid prop} {S : gmap sid sub} {E : sid -> list pevent}.

Lemma at_tree st p x : at_ D LP LS A S E st -> A !! p = Some x -> tree st !! p = Some x.
Proof. intros H Hp. rewrite <- (at_alive _ _ _ _ _ _ _ H) in Hp. by apply alive_Some in Hp as [? _]. Qed.

Lemma at_live st p x : at_ D LP LS A S E st -> A !! p = Some x -> is_zombie (hp_val x) = false.
Proof. intros H Hp. rewrite <- (at_alive _ _ _ _ _ _ _ H) in Hp. by apply alive_Some in Hp as [_ ?]. Qed.

Lemma at_stree st s y : at_ D LP LS A S E st -> S !! s = Some y -> stree st !! s = Some y.
Proof. intros H Hs. rewrite <- (at_subs _ _ _ _ _ _ _ H) in Hs. by apply asubs_Some in Hs as [? _]. Qed.

Lemma at_slive st s y : at_ D LP LS A S E st -> S !! s = Some y -> hps_zombie y = false.
Proof. intros H Hs. rewrite <- (at_subs _ _ _ _ _ _ _ H) in Hs. by apply asubs_Some in Hs as [_ ?]. Qed.

Lemma at_props st p x : at_ D LP LS A S E st -> A !! p = Some x ->
  exists x0, st_props st !! p = Some x0 /\ x = tprop x0.
Proof. intros H Hp. by eapply tree_inv, at_tree. Qed.

Lemma at_ext E' st : at_ D LP LS A S E st -> (forall s, is_Some (S !! s) -> E s = E' s) -> at_ D LP LS A S E' st.
Proof. intros [H1 H2 H3 H4 H5 H6] HE. split; [done..| |done|done]. intros s Hs. by rewrite <- HE, H4. Qed.

(** What a notification does. *)
Lemma at_notified LP' LS' st st' f :
  at_ D LP LS A S E st -> counted LP' LS' st' -> notified st st' f ->
  at_ D LP' LS' A S (fun s => E s ++ f s) st'.
Proof.
  intros [H1 H2 H3 H4 H5 H6] Hc [N1 N2 N3 N4 N5]. split; [done| | | | |].
  - unfold alive. by rewrite N1.
  - unfold asubs. by rewrite N2.
  - intros s Hs. by rewrite N5, H4.
  - rewrite N1. done.
  - rewrite N1. done.
Qed.

Lemma wp_at_notify {B} LP' LS' (m : M B) f (P : B -> Prop) Q st :
  at_ D LP LS A S E st ->
  wp m (fun r st' => counted LP' LS' st' /\ notified st st' f /\ P r) st ->
  (forall r st', P r -> at_ D LP' LS' A S (fun s => E s ++ f s) st' -> Q r st') -> wp m Q st.
Proof.
  intros H Hm HQ. eapply wp_mono; [exact Hm|]. intros r st' (Hc & Hn & Hp). apply HQ; [done|]. by eapply at_notified.
Qed.

(** ** Reading *)

Lemma wp_at_get p x (Q : prop -> store -> Prop) st : at_ D LP LS A S E st -> A !! p = Some x ->
  (forall x0, st_props st !! p = Some x0 -> x = tprop x0 -> Q x0 st) -> wp (get_prop p) Q st.
Proof. intros H Hp HQ. destruct (at_props _ _ _ H Hp) as (x0 & E0 & ->). apply (wp_get_prop _ x0); auto. Qed.

Lemma wp_at_get_sub s y (Q : sub -> store -> Prop) st : at_ D LP LS A S E st -> S !! s = Some y ->
  (forall y0, st_subs st !! s = Some y0 -> y = tsub y0 -> Q y0 st) -> wp (get_sub s) Q st.
Proof.
  intros H Hs HQ. destruct (stree_inv _ _ _ (at_stree _ _ _ H Hs)) as (y0 & E0 & ->). apply (wp_get_sub _ y0); auto.
Qed.

Lemma wp_at_get_dying p x (Q : prop -> store -> Prop) st : at_ D LP LS A S E st -> D !! p = Some x ->
  (forall x0, st_props st !! p = Some x0 -> x = tprop x0 -> Q x0 st) -> wp (get_prop p) Q st.
Proof.
  intros H Hp HQ. destruct (at_dying _ _ _ _ _ _ _ H _ _ Hp) as [Ht _].
  destruct (tree_inv _ _ _ Ht) as (x0 & E0 & ->). apply (wp_get_prop _ x0); auto.
Qed.

(** ** Writing a property *)

Lemma alive_insert st p x : is_zombie (hp_val x) = false ->
  alive (set_props (insert p x) st) = <[p := tprop x]> (alive st).
Proof. intros Hx. unfold alive. rewrite tree_insert. by apply map_filter_insert_True. Qed.

Lemma alive_insert_zombie st p x : is_zombie (hp_val x) = true ->
  alive (set_props (insert p x) st) = delete p (alive st).
Proof.
  intros Hx. unfold alive. rewrite tree_insert, map_filter_insert_False.
  - by rewrite map_filter_delete.
  - unfold live_prop. simpl. congruence.
Qed.

Lemma wp_at_put p x0 x1 (Q : unit -> store -> Prop) st : at_ D LP LS A S E st -> st_props st !! p = Some x0 ->
  is_zombie (hp_val x0) = false -> is_zombie (hp_val x1) = false -> hp_refcount x1 = hp_refcount x0 ->
  (forall st', at_ D LP LS (<[p := tprop x1]> A) S E st' -> Q tt st') -> wp (put_prop p x1) Q st.
Proof.
  intros [H1 H2 H3 H4 H5 H6] E0 Hz0 Hz1 Hr HQ. apply wp_modify, HQ. split.
  - pose proof (c_props _ _ _ H1 p) as Hp. rewrite E0 in Hp.
    apply (counted_prop LP LP LS st p x0 x1); [done|done|done| |lia]. unfold live in *. rewrite Hz0 in Hp. rewrite Hz1. lia.
  - by rewrite alive_insert, H2.
  - done.
  - done.
  - intros q x Hq. rewrite tree_insert. destruct (H5 q x Hq) as [Ht Hz]. rewrite lookup_insert_ne; [done|].
    intros <-. rewrite (tree_lookup _ _ _ E0) in Ht. injection Ht as <-. cbn in Hz. congruence.
  - intros q x. rewrite tree_insert. destruct (decide (p = q)) as [<-|Hne].
    + rewrite lookup_insert_eq. intros [= <-]. cbn. congruence.
    + rewrite lookup_insert_ne by done. apply H6.
Qed.

Definition setter (f : prop -> prop) : Prop :=
  forall x, hp_refcount (f x) = hp_refcount x /\ tprop (f x) = f (tprop x).

Lemma wp_at_upd p x f (Q : unit -> store -> Prop) st : at_ D LP LS A S E st -> A !! p = Some x -> setter f ->
  is_zombie (hp_val (f x)) = false ->
  (forall st', at_ D LP LS (<[p := f x]> A) S E st' -> Q tt st') -> wp (upd_prop p f) Q st.
Proof.
  intros H Hp Hf Hz HQ. apply wp_bind. eapply wp_at_get; [done..|]. intros x0 E0 ->.
  destruct (Hf x0) as [Hr Ht]. rewrite <- Ht in Hz.
  apply (wp_at_put p x0 (f x0)); [done|done|by apply (at_live _ _ _ H Hp)|exact Hz|done|].
  intros st'. rewrite Ht. apply HQ.
Qed.

(** A property dies: the reference it held on itself is left. *)
Lemma wp_at_kill p x f (Q : unit -> store -> Prop) st : at_ D LP LS A S E st -> A !! p = Some x -> setter f ->
  is_zombie (hp_val (f x)) = true ->
  (forall st', at_ (<[p := f x]> D) (Some p :: LP) LS (delete p A) S E st' -> Q tt st') -> wp (upd_prop p f) Q st.
Proof.
  intros H Hp Hf Hz HQ. apply wp_bind. eapply wp_at_get; [done..|]. intros x0 E0 ->.
  destruct (Hf x0) as [Hr Ht]. pose proof (at_live _ _ _ H Hp) as Hl. destruct H as [H1 H2 H3 H4 H5 H6]. apply wp_modify, HQ. split.
  - pose proof (c_props _ _ _ H1 p) as Hc. rewrite E0 in Hc.
    apply (counted_prop LP _ LS st p x0); [done|done| | |lia].
    + intros q Hq. by rewrite prefs_cons, decide_False by congruence.
    + rewrite prefs_cons, decide_True by done. unfold live in *. rewrite <- Ht in Hz.
      change (hp_val (tprop (f x0))) with (hp_val (f x0)) in Hz. change (hp_val (tprop x0)) with (hp_val x0) in Hl.
      rewrite Hz. rewrite Hl in Hc. lia.
  - rewrite alive_insert_zombie, H2; [done|]. by rewrite <- Ht in Hz.
  - done.
  - done.
  - intros q x. rewrite tree_insert, Ht. destruct (decide (p = q)) as [<-|Hne].
    + rewrite !lookup_insert_eq. intros [= <-]. done.
    + rewrite !lookup_insert_ne by done. apply H5.
  - intros q x. rewrite tree_insert. destruct (decide (p = q)) as [<-|Hne].
    + intros _ _. left. rewrite lookup_insert_eq. by eexists.
    + rewrite !lookup_insert_ne by done. apply H6.
Qed.

Lemma wp_at_upd_dying p x f (Q : unit -> store -> Prop) st : at_ D LP LS A S E st -> D !! p = Some x -> setter f ->
  is_zombie (hp_val (f x)) = true ->
  (forall st', at_ (<[p := f x]> D) LP LS A S E st' -> Q tt st') -> wp (upd_prop p f) Q st.
Proof.
  intros H Hp Hf Hz HQ. apply wp_bind. eapply wp_at_get_dying; [done..|]. intros x0 E0 ->.
  destruct (Hf x0) as [Hr Ht]. destruct H as [H1 H2 H3 H4 H5 H6]. destruct (H5 _ _ Hp) as [Htr Hz0]. apply wp_modify, HQ.
  rewrite <- Ht in Hz. change (hp_val (tprop (f x0))) with (hp_val (f x0)) in Hz. change (hp_val (tprop x0)) with (hp_val x0) in Hz0.
  assert (A !! p = None) as HA.
  { destruct (A !! p) as [z|] eqn:Ez; [|done]. rewrite <- H2 in Ez. apply alive_Some in Ez as [Ez Hzz].
    rewrite Htr in Ez. injection Ez as <-. cbn in Hzz. congruence. }
  split.
  - pose proof (c_props _ _ _ H1 p) as Hc. rewrite E0 in Hc.
    apply (counted_prop LP LP LS st p x0); [done|done|done| |lia]. unfold live in *. rewrite Hz. rewrite Hz0 in Hc. lia.
  - rewrite alive_insert_zombie, H2, delete_id; done.
  - done.
  - done.
  - intros q x. rewrite tree_insert, Ht. destruct (decide (p = q)) as [<-|Hne].
    + rewrite !lookup_insert_eq. intros [= <-]. split; [done|]. by rewrite <- Ht.
    + rewrite !lookup_insert_ne by done. apply H5.
  - intros q x. rewrite tree_insert. destruct (decide (p = q)) as [<-|Hne].
    + intros _ _. left. rewrite lookup_insert_eq. by eexists.
    + rewrite !lookup_insert_ne by done. apply H6.
Qed.

(** ** Writing a subscription *)

Definition ssetter (f : sub -> sub) : Prop :=
  forall y, hps_refcount (f y) = hps_refcount y /\ hps_courier (f y) = hps_courier y /\
    hps_flags (f y) = hps_flags y /\ tsub (f y) = f (tsub y).

Lemma asubs_insert st s y : hps_zombie y = false -> asubs (set_subs (insert s y) st) = <[s := tsub y]> (asubs st).
Proof. intros Hy. unfold asubs. rewrite stree_insert. by apply map_filter_insert_True. Qed.

Lemma asubs_insert_zombie st s y : hps_zombie y = true -> asubs (set_subs (insert s y) st) = delete s (asubs st).
Proof.
  intros Hy. unfold asubs. rewrite stree_insert, map_filter_insert_False.
  - by rewrite map_filter_delete.
  - unfold live_sub. simpl. congruence.
Qed.

Lemma wp_at_upd_sub s y f (Q : unit -> store -> Prop) st : at_ D LP LS A S E st -> S !! s = Some y -> ssetter f ->
  hps_zombie (f y) = false ->
  (forall st', at_ D LP LS A (<[s := f y]> S) E st' -> Q tt st') -> wp (upd_sub s f) Q st.
Proof.
  intros H Hs Hf Hz HQ. apply wp_bind. eapply wp_at_get_sub; [done..|]. intros y0 E0 ->.
  destruct (Hf y0) as (Hr & Hc & Hfl & Ht). rewrite <- Ht in Hz. pose proof (at_slive _ _ _ H Hs) as Hl.
  change (hps_zombie (f y0) = false) in Hz. change (hps_zombie y0 = false) in Hl.
  destruct H as [H1 H2 H3 H4 H5 H6]. apply wp_modify, HQ. split; [|done| | |done|done].
  - pose proof (c_subs _ _ _ H1 s) as Hp. rewrite E0 in Hp.
    apply (counted_sub LP LS LS st s y0); [done|done|done|done|done| |lia]. unfold slive in *. rewrite Hl in Hp. rewrite Hz. lia.
  - by rewrite asubs_insert, H3, Ht.
  - intros t Ht'. rewrite (events_subs _ _ y0) by done. apply H4.
    destruct (decide (s = t)) as [<-|Hne]; [by eexists|by rewrite lookup_insert_ne in Ht'].
Qed.

(** A subscription ends: the reference it held on itself is left. *)
Lemma wp_at_kill_sub s y0 (Q : unit -> store -> Prop) st : at_ D LP LS A S E st -> st_subs st !! s = Some y0 ->
  hps_zombie y0 = false ->
  (forall st', at_ D LP (s :: LS) A (delete s S) E st' -> st_couriers st' = st_couriers st -> Q tt st') ->
  wp (put_sub s (sub_set_zombie y0)) Q st.
Proof.
  intros [H1 H2 H3 H4 H5 H6] E0 Hl HQ. apply wp_modify, HQ; [|done]. split; [|done| | |done|done].
  - pose proof (c_subs _ _ _ H1 s) as Hp. rewrite E0 in Hp.
    apply (counted_sub LP LS _ st s y0); [done|done|done|done| | |cbn; lia].
    + intros t Ht. by rewrite scount_cons, decide_False.
    + rewrite scount_cons, decide_True by done. unfold slive in *. rewrite Hl in Hp. cbn. lia.
  - by rewrite asubs_insert_zombie, H3.
  - intros t Ht. rewrite (events_subs _ _ y0) by done. apply H4. destruct Ht as [z Hz].
    apply lookup_delete_Some in Hz as [_ Hz]. by eexists.
Qed.

Lemma wp_at_upd_dead s f (Q : unit -> store -> Prop) st : at_ D LP LS A S E st -> S !! s = None -> s ∈ LS -> ssetter f ->
  (forall y, hps_zombie (f y) = hps_zombie y) ->
  (forall st', at_ D LP LS A S E st' -> Q tt st') -> wp (upd_sub s f) Q st.
Proof.
  intros [H1 H2 H3 H4 H5 H6] Hs Hin Hf Hz HQ. pose proof (c_subs _ _ _ H1 s) as Hp.
  destruct (st_subs st !! s) as [y0|] eqn:E0.
  2: { apply elem_of_Permutation in Hin as [l Hl]. unfold scount in Hp. rewrite Hl, filter_cons_True in Hp by done. simpl in Hp. lia. }
  destruct (Hf y0) as (Hr & Hc & Hfl & Ht).
  assert (hps_zombie y0 = true) as Hzz.
  { destruct (hps_zombie y0) eqn:Ez; [done|]. assert (asubs st !! s = Some (tsub y0)) as Ha.
    - apply asubs_Some. by rewrite (stree_lookup _ _ _ E0).
    - congruence. }
  apply wp_bind, (wp_get_sub _ y0), wp_modify, HQ; [done|]. split; [|done| | |done|done].
  - apply (counted_sub LP LS LS st s y0); [done|done|done|done|done| |lia]. unfold slive in *. rewrite Hz. lia.
  - rewrite asubs_insert_zombie by by rewrite Hz. rewrite H3. by apply delete_id.
  - intros t Ht'. rewrite (events_subs _ _ y0) by done. by apply H4.
Qed.

(** ** New objects *)

(** [n] names nothing. *)
Definition fresh (n : nat) (st : store) : Prop :=
  st_props st !! n = None /\ st_subs st !! n = None /\ st_couriers st !! n = None /\ (n < st_next st)%nat /\
  Forall (fun e => e.1 <> n) (st_calls st).

Lemma wp_at_new (Q : nat -> store -> Prop) st : at_ D LP LS A S E st ->
  (forall n st', at_ D LP LS A S E st' -> fresh n st' -> st_couriers st' = st_couriers st -> Q n st') -> wp new_id Q st.
Proof.
  intros [[C1 C2 C3 C4 C5 C6 (F1 & F2 & F3 & F4)] H2 H3 H4 H5 H6] HQ. unfold wp, new_id.
  assert (forall B (m : gmap nat B), (forall q, is_Some (m !! q) -> (q < st_next st)%nat) -> m !! st_next st = None) as Hn.
  { intros B m Hm. destruct (m !! st_next st) as [b|] eqn:Eb; [|done].
    assert (st_next st < st_next st)%nat by (apply Hm; by eexists). lia. }
  apply HQ; [|split; [by apply Hn|split; [by apply Hn|split; [by apply Hn|split; [simpl; lia|]]]]|done].
  - split; [|done..]. split; try done. cbn [st_props st_subs st_couriers st_next st_calls].
    split; [|split; [|split]].
    + intros q Hq. specialize (F1 q Hq). lia.
    + intros q Hq. specialize (F2 q Hq). lia.
    + intros q Hq. specialize (F3 q Hq). lia.
    + eapply Forall_impl; [exact F4|]. simpl. intros e He. lia.
  - eapply Forall_impl; [exact F4|]. simpl. intros e He. lia.
Qed.

Lemma fresh_alive n st : at_ D LP LS A S E st -> fresh n st -> A !! n = None.
Proof.
  intros H (Hp & _). destruct (A !! n) as [x|] eqn:Ex; [|done]. destruct (at_props _ _ _ H Ex) as (x0 & E0 & _). congruence.
Qed.
Lemma fresh_subs n st : at_ D LP LS A S E st -> fresh n st -> S !! n = None.
Proof.
  intros H (_ & Hs & _). destruct (S !! n) as [x|] eqn:Ex; [|done].
  destruct (stree_inv _ _ _ (at_stree _ _ _ H Ex)) as (x0 & E0 & _). congruence.
Qed.

Lemma wp_at_new_prop p x (Q : unit -> store -> Prop) st : at_ D LP LS A S E st -> fresh p st ->
  is_zombie (hp_val x) = false -> hp_refcount x = 1 ->
  (forall st', at_ D LP LS (<[p := tprop x]> A) S E st' -> Q tt st') -> wp (put_prop p x) Q st.
Proof.
  intros H (Hn & _ & _ & Hlt & _) Hz Hr HQ. destruct H as [[C1 C2 C3 C4 C5 C6 (F1 & F2 & F3 & F4)] H2 H3 H4 H5 H6].
  pose proof (C1 p) as Hp. rewrite Hn in Hp. apply wp_modify, HQ. split; [| | | | |].
  - split; try done.
    + intros q. rewrite held_props. cbn [st_props set_props]. destruct (decide (p = q)) as [<-|Hne].
      * rewrite lookup_insert_eq. unfold live. rewrite Hz. lia.
      * rewrite lookup_insert_ne by done. apply C1.
    + split; [|done]. intros q. cbn [st_props set_props st_next]. destruct (decide (p = q)) as [<-|Hne]; [done|].
      rewrite lookup_insert_ne by done. apply F1.
  - by rewrite alive_insert, H2.
  - done.
  - done.
  - intros q z Hq. rewrite tree_insert. destruct (H5 q z Hq) as [Ht Hzz]. rewrite lookup_insert_ne; [done|].
    intros <-. destruct (tree_inv _ _ _ Ht) as (z0 & Ez & _). congruence.
  - intros q z. rewrite tree_insert. destruct (decide (p = q)) as [<-|Hne].
    + rewrite lookup_insert_eq. intros [= <-]. cbn. congruence.
    + rewrite lookup_insert_ne by done. apply H6.
Qed.

(** Nobody has told a new subscription anything. *)
Lemma fresh_events n st c : counted LP LS st -> fresh n st -> calls_of n (st_calls st) ++ pending st n c = [].
Proof.
  intros [_ _ H3 H4 _ _ _] (_ & Hn & _ & _ & Hc).
  assert (forall c m, sent_to st c m -> hpn_sub m <> n) as Hno by (intros c' m [_ (z & Ez & _)] <-; congruence).
  assert (calls_of n (st_calls st) = []) as ->.
  { unfold calls_of. induction Hc as [|e l He _ IH]; [done|]. rewrite filter_cons_False; [done|]. by intros [? _]. }
  simpl. unfold pending. destruct c as [c|].
  - destruct (st_couriers st !! c) as [pc|] eqn:Epc; [|done]. rewrite <- queued_of_app.
    apply queued_of_nobody. eapply Forall_impl; [by apply H3|]. intros m. apply Hno.
  - destruct (psd_of_in n (st_global st)) as [->|Hin]; [done|]. apply queued_of_nobody.
    eapply Forall_impl; [by apply (H4 n)|]. intros m [_ Hm]. by apply (Hno None).
Qed.

Lemma wp_at_new_sub s y (Q : unit -> store -> Prop) st : at_ D LP LS A S E st -> fresh s st ->
  hps_zombie y = false -> hps_refcount y = 1 -> (forall c, hps_courier y = Some c -> is_Some (st_couriers st !! c)) ->
  E s = [] ->
  (forall st', at_ D LP LS A (<[s := tsub y]> S) E st' -> Q tt st') -> wp (put_sub s y) Q st.
Proof.
  intros H Hfr Hz Hr Hcr HE HQ. pose proof (fresh_events s st (hps_courier y) (at_counted _ _ _ _ _ _ _ H) Hfr) as Hev.
  destruct Hfr as (_ & Hn & _ & Hlt & _). destruct H as [[C1 C2 C3 C4 C5 C6 (F1 & F2 & F3 & F4)] H2 H3 H4 H5 H6].
  pose proof (C2 s) as Hp. rewrite Hn in Hp. apply wp_modify, HQ.
  assert (forall c n, sent_to st c n -> sent_to (set_subs (insert s y) st) c n) as Hst.
  { intros c n [Hps (z & Ez & Hr1)]. split; [done|]. exists z. cbn [st_subs set_subs]. rewrite lookup_insert_ne; [done|]. congruence. }
  split; [|done| | |done|done].
  - split; try done.
    + intros t. rewrite held_subs. cbn [st_subs set_subs]. destruct (decide (s = t)) as [<-|Hne].
      * rewrite lookup_insert_eq. unfold slive. rewrite Hz. lia.
      * rewrite lookup_insert_ne by done. apply C2.
    + intros c pc Epc. eapply Forall_impl; [exact (C3 c pc Epc)|]. intros n. apply Hst.
    + intros t q Hq. eapply Forall_impl; [exact (C4 t q Hq)|]. intros n [-> Hm]. split; [done|]. by apply Hst.
    + intros t z c pc Ez Hzc Epc He. cbn [st_subs set_subs] in Ez. destruct (decide (s = t)) as [<-|Hne].
      * apply queued_of_nobody. pose proof (C3 c pc Epc) as Hf. apply Forall_app in Hf as [_ Hf].
        eapply Forall_impl; [exact Hf|]. intros n [_ (w & Ew & _)] <-. congruence.
      * rewrite lookup_insert_ne in Ez by done. by apply (C5 t z c pc).
    + intros t z c Ez Hzc. cbn [st_subs set_subs] in Ez. destruct (decide (s = t)) as [<-|Hne].
      * rewrite lookup_insert_eq in Ez. injection Ez as <-. by apply Hcr.
      * rewrite lookup_insert_ne in Ez by done. by apply (C6 t z c).
    + split; [done|]. split; [|done]. intros t. cbn [st_subs set_subs st_next]. destruct (decide (s = t)) as [<-|Hne]; [done|].
      rewrite lookup_insert_ne by done. apply F2.
  - by rewrite asubs_insert, H3.
  - intros t Ht. unfold events. cbn [st_subs set_subs st_calls]. destruct (decide (s = t)) as [<-|Hne].
    + rewrite lookup_insert_eq, HE. exact Hev.
    + rewrite lookup_insert_ne in * by done. by rewrite <- H4.
Qed.

(** ** Couriers *)

Lemma wp_at_courier c pc n (Q : unit -> store -> Prop) st : at_ D LP LS A S E st -> st_couriers st !! c = Some pc ->
  (forall st', at_ D LP LS A S E st' -> is_Some (st_couriers st' !! c) ->
     (forall m, fresh m st -> fresh m st') -> Q tt st') ->
  wp (put_courier c (Courier (pc_queue_exp pc) (pc_queue_nor pc) n)) Q st.
Proof.
  intros [[C1 C2 C3 C4 C5 C6 (F1 & F2 & F3 & F4)] H2 H3 H4 H5 H6] Epc HQ. set (pc' := Courier _ _ n).
  assert (forall f, held f (set_couriers (insert c pc') st) = held f st) as Hh.
  { intros f. unfold held. cbn [st_couriers st_global set_couriers]. pose proof (msum_insert (csum f) _ c pc pc' Epc) as Hm.
    assert (csum f pc = csum f pc') by done. lia. }
  assert (forall c' pc1, st_couriers (set_couriers (insert c pc') st) !! c' = Some pc1 ->
    exists pc2, st_couriers st !! c' = Some pc2 /\ pc_queue_exp pc2 = pc_queue_exp pc1 /\ pc_queue_nor pc2 = pc_queue_nor pc1) as Hq.
  { intros c' pc1. cbn [st_couriers set_couriers]. destruct (decide (c = c')) as [<-|Hne].
    - rewrite lookup_insert_eq. intros [= <-]. by exists pc.
    - rewrite lookup_insert_ne by done. by exists pc1. }
  apply wp_modify, HQ.
  - split; [|done|done| |done|done].
    + split; try done.
      * intros p. rewrite Hh. apply C1.
      * intros s. rewrite Hh. apply C2.
      * intros c' pc1 E1. destruct (Hq _ _ E1) as (pc2 & E2 & <- & <-). by apply (C3 c' pc2).
      * intros s y c' pc1 Ey Hy E1 He. destruct (Hq _ _ E1) as (pc2 & E2 & _ & <-). by apply (C5 s y c' pc2).
      * intros s y c' Ey Hy. cbn [st_couriers set_couriers]. destruct (decide (c = c')) as [<-|Hne].
        { rewrite lookup_insert_eq. by eexists. } { rewrite lookup_insert_ne by done. by apply (C6 s y). }
      * split; [done|]. split; [done|]. split; [|done]. intros c' [pc1 E1]. destruct (Hq _ _ E1) as (pc2 & E2 & _). apply F3. by eexists.
    + intros s Hs. rewrite <- H4 by done. unfold events. f_equal. cbn [st_subs set_couriers].
      destruct (st_subs st !! s) as [y|]; [|done]. unfold pending. destruct (hps_courier y) as [c'|]; [|done].
      cbn [st_couriers set_couriers]. destruct (decide (c = c')) as [<-|Hne].
      * by rewrite lookup_insert_eq, Epc.
      * by rewrite lookup_insert_ne.
  - cbn [st_couriers set_couriers]. rewrite lookup_insert_eq. by eexists.
  - intros m (M1 & M2 & M3 & M4 & M5). split; [done|]. split; [done|]. split; [|done]. cbn [st_couriers set_couriers].
    rewrite lookup_insert_ne; [done|]. congruence.
Qed.

End at_.

(** Nothing of the property is left to be cleared. *)
Lemma at_clean LP LS A S E p x st : at_ {[p := x]} LP LS A S E st -> clean x -> at_ ∅ LP LS A S E st.
Proof.
  intros [H1 H2 H3 H4 H5 H6] Hx. split; [done|done|done|done| |].
  - intros q z Hq. by rewrite lookup_empty in Hq.
  - intros q z Hq Hz. right. destruct (H6 q z Hq Hz) as [[w Hw]|]; [|done].
    apply lookup_singleton_Some in Hw as [<- <-]. destruct (H5 p x (lookup_singleton_eq _ _)) as [Ht _]. by simplify_eq.
Qed.
