(* ===== verification/PropQueue.v ===== *)
(** References that are dropped, and the delivery of notifications: emptying a
    queue leaves the world of the property tree as it is. *)
From S2P Require Import Prelude PropStore PropTree PropSub PropLogic PropWorld.

Local Open Scope Z_scope.

(** * Dropping references *)

(** Only what nobody refers to has gone. *)
Record drops (st st' : store) : Prop := {
  dr_alive : alive st' = alive st;
  dr_tree : tree st' ⊆ tree st;
  dr_asubs : asubs st' = asubs st;
  dr_stree : stree st' ⊆ stree st;
  dr_couriers : st_couriers st' = st_couriers st;
  dr_global : st_global st' = st_global st;
  dr_next : st_next st' = st_next st;
  dr_root : st_root st' = st_root st
}.

Lemma drops_refl st : drops st st.
Proof. by split. Qed.
Lemma drops_trans st1 st2 st3 : drops st1 st2 -> drops st2 st3 -> drops st1 st3.
Proof. intros [A1 A2 A3 A4 A5 A6 A7 A8] [B1 B2 B3 B4 B5 B6 B7 B8]. split; try congruence; by etrans. Qed.

Lemma drops_events st st' s : drops st st' -> is_Some (asubs st !! s) ->
  events st' s = calls_of s (st_calls st') ++ match st_subs st !! s with Some y => pending st s (hps_courier y) | None => [] end.
Proof.
  intros [_ _ D3 _ D5 D6 _ _] [y Hy]. unfold events. f_equal. pose proof Hy as Hy'. rewrite <- D3 in Hy'.
  apply asubs_Some in Hy as [Hy _]. apply asubs_Some in Hy' as [Hy' _].
  destruct (stree_inv _ _ _ Hy) as (y0 & E0 & ->). destruct (stree_inv _ _ _ Hy') as (y1 & E1 & Hyy).
  rewrite E0, E1. assert (hps_courier y1 = hps_courier y0) as -> by (change (hps_courier (tsub y1) = hps_courier (tsub y0)); by rewrite Hyy).
  unfold pending. by rewrite D5, D6.
Qed.

(** The last reference to a property. *)
Lemma counted_delete LP LS st p x : counted (Some p :: LP) LS st -> st_props st !! p = Some x -> hp_refcount x = 1 ->
  is_zombie (hp_val x) = true /\ counted LP LS (set_props (delete p) st).
Proof.
  intros [H1 H2 H3 H4 H5 H6 (F1 & F2 & F3)] E Hr. pose proof (H1 p) as Hp. rewrite E, prefs_cons, decide_True in Hp by done. split.
  - unfold live in Hp. destruct (is_zombie (hp_val x)); [done|lia].
  - split; [|exact H2|exact H3|exact H4|exact H5|exact H6|].
    + intros q. rewrite held_props. cbn [st_props set_props]. destruct (decide (p = q)) as [<-|Hne].
      * rewrite lookup_delete_eq. lia.
      * rewrite lookup_delete_ne by done. specialize (H1 q). rewrite prefs_cons, decide_False in H1 by congruence. done.
    + split; [|done]. intros q [z Hz]. cbn [st_props set_props] in Hz. apply lookup_delete_Some in Hz as [_ Hz]. apply F1. by eexists.
Qed.

Lemma wp_ref_dec LP LS st p : counted (Some p :: LP) LS st ->
  wp (prop_ref_dec (Some p))
    (fun _ st' => counted LP LS st' /\ drops st st' /\ st_calls st' = st_calls st /\ stree st' = stree st) st.
Proof.
  intros H. pose proof (c_props _ _ _ H p) as Hp. rewrite prefs_cons, decide_True in Hp by done.
  destruct (st_props st !! p) as [x|] eqn:E; [|lia]. unfold prop_ref_dec. apply wp_bind, (wp_get_prop _ x); [done|].
  destruct (Z.eqb_spec (hp_refcount x) 1) as [Hr|Hr].
  - destruct (counted_delete _ _ _ _ _ H E Hr) as [Hz Hc]. rewrite Hz. apply wp_bind, wp_passert, wp_modify; [done|].
    split; [done|]. split; [|done].
    assert (tree (set_props (delete p) st) = delete p (tree st)) as Ht by (unfold tree; simpl; apply fmap_delete).
    split; try done; [|rewrite Ht; apply delete_subseteq].
    unfold alive. rewrite Ht, map_filter_delete. apply delete_id. apply map_lookup_filter_None. right.
    intros z Hzz. rewrite (tree_lookup _ _ _ E) in Hzz. injection Hzz as <-. unfold live_prop. cbn. congruence.
  - apply wp_modify. assert (tree (set_props (insert p (set_refcount (hp_refcount x - 1) x)) st) = tree st) as Ht by (by apply (tree_same _ _ x)).
    split; [|split; [|done]].
    + apply (counted_prop (Some p :: LP) LP LS st p x); [done|done| |cbn; lia|cbn; lia].
      intros q Hq. by rewrite prefs_cons, decide_False by congruence.
    + split; try done; [|by rewrite Ht]. unfold alive. by rewrite Ht.
Qed.

Lemma wp_ref_decs LP LS l st : counted (l ++ LP) LS st ->
  wp (forM l prop_ref_dec)
    (fun _ st' => counted LP LS st' /\ drops st st' /\ st_calls st' = st_calls st /\ stree st' = stree st) st.
Proof.
  revert st. induction l as [|[p|] l IH]; intros st H.
  - apply wp_ret. split; [done|]. split; [apply drops_refl|done].
  - apply wp_bind. eapply wp_mono; [apply (wp_ref_dec (l ++ LP) LS st p H)|]. intros u st1 (H1 & D1 & C1 & T1).
    eapply wp_mono; [by apply IH|]. intros v st2 (H2 & D2 & C2 & T2). split; [done|]. split; [by eapply drops_trans|]. by rewrite C2, C1, T2, T1.
  - apply wp_bind, wp_ret, IH. eapply counted_refs; [exact H|]. intros p. rewrite <- app_comm_cons, prefs_cons. lia.
Qed.

Lemma at_drops LP LS LP' LS' A S E st st' : at_ ∅ LP LS A S E st -> counted LP' LS' st' -> drops st st' -> st_calls st' = st_calls st ->
  at_ ∅ LP' LS' A S E st'.
Proof.
  intros [H1 H2 H3 H4 H5 H6] Hc Hd Hcalls. split; [done| | | |done|].
  - by rewrite (dr_alive _ _ Hd).
  - by rewrite (dr_asubs _ _ Hd).
  - intros s Hs. rewrite (drops_events st st' s Hd) by by rewrite H3. rewrite Hcalls. by apply H4.
  - intros p x Hp Hz. apply H6; [|done]. by eapply lookup_weaken; [|apply Hd].
Qed.

Lemma wp_at_ref_dec LP LS A S E p (Q : unit -> store -> Prop) st : at_ ∅ (Some p :: LP) LS A S E st ->
  (forall st', at_ ∅ LP LS A S E st' -> Q tt st') -> wp (prop_ref_dec (Some p)) Q st.
Proof.
  intros H HQ. eapply wp_mono; [apply (wp_ref_dec LP LS), H|]. intros [] st' (Hc & Hd & Hcalls & _). apply HQ. by apply (at_drops (Some p :: LP) LS LP LS A S E st st').
Qed.

(** ** References to subscriptions *)

Lemma sum_zero {B} (f : B -> nat) l x : sum_list_with f l = O -> x ∈ l -> f x = O.
Proof.
  intros H Hx. revert H. induction l as [|y l IH]; simpl; intros H; [by apply elem_of_nil in Hx|].
  apply elem_of_cons in Hx as [->|Hx]; [lia|]. apply IH; [done|lia].
Qed.

Lemma qsum_zero f q n : qsum f q = O -> n ∈ q -> f n = O.
Proof. apply sum_zero. Qed.

Lemma held_zero_courier f st c pc n : held f st = O -> st_couriers st !! c = Some pc ->
  n ∈ pc_queue_exp pc ++ pc_queue_nor pc -> f n = O.
Proof.
  intros H E Hn. pose proof (msum_ge (csum f) _ _ _ E) as Hm. unfold held in H.
  apply (qsum_zero f (pc_queue_exp pc ++ pc_queue_nor pc)); [|done]. rewrite qsum_app.
  change (csum f pc) with (qsum f (pc_queue_exp pc) + qsum f (pc_queue_nor pc))%nat in Hm. lia.
Qed.

Lemma held_zero_global f st s q n : held f st = O -> (s, q) ∈ st_global st -> n ∈ q -> f n = O.
Proof.
  intros H Hq Hn. unfold held in H. apply (qsum_zero f q); [|done].
  apply (sum_zero (fun e => qsum f e.2) (st_global st) (s, q)); [lia|done].
Qed.

Lemma srefs_zero s n : srefs s n = O -> hpn_sub n <> s.
Proof. unfold srefs. by destruct (decide (hpn_sub n = s)). Qed.

Lemma sent_to_delete st c n s : hpn_sub n <> s -> sent_to st c n -> sent_to (set_subs (delete s) st) c n.
Proof.
  intros Hne [Hp (z & Ez & H1)]. split; [done|]. exists z. cbn [st_subs set_subs]. by rewrite lookup_delete_ne.
Qed.

Lemma counted_sub_delete LP LS st s y : counted LP (s :: LS) st -> st_subs st !! s = Some y -> hps_refcount y = 1 ->
  hps_zombie y = true /\ counted LP LS (set_subs (delete s) st).
Proof.
  intros [H1 H2 H3 H4 H5 H6 (F1 & F2 & F3)] E Hr. pose proof (H2 s) as Hs. rewrite E, scount_cons, decide_True in Hs by done.
  assert (held (srefs s) st = O) as H0 by lia. split.
  - unfold slive in Hs. destruct (hps_zombie y); [done|lia].
  - split; [exact H1| | | | | |].
    + intros t. rewrite held_subs. cbn [st_subs set_subs]. destruct (decide (s = t)) as [<-|Hne].
      * rewrite lookup_delete_eq. lia.
      * rewrite lookup_delete_ne by done. specialize (H2 t). rewrite scount_cons, decide_False in H2 by done. done.
    + intros c pc Epc. specialize (H3 c pc Epc). rewrite Forall_forall in *. intros n Hn.
      apply sent_to_delete; [|by apply H3]. by apply srefs_zero, (held_zero_courier _ st c pc).
    + intros t q Hq. specialize (H4 t q Hq). rewrite Forall_forall in *. intros n Hn. split; [by apply H4|].
      apply sent_to_delete; [|by apply H4]. by apply srefs_zero, (held_zero_global _ st t q).
    + intros t z c pc Ez. cbn [st_subs set_subs] in Ez. apply lookup_delete_Some in Ez as [_ Ez]. by apply H5.
    + intros t z c Ez. cbn [st_subs set_subs] in Ez. apply lookup_delete_Some in Ez as [_ Ez]. by apply (H6 t).
    + split; [done|]. split; [|done]. intros t [z Hz]. cbn [st_subs set_subs] in Hz. apply lookup_delete_Some in Hz as [_ Hz].
      apply F2. by eexists.
Qed.

Lemma wp_sub_ref_dec LP LS st s : counted LP (s :: LS) st ->
  wp (prop_sub_ref_dec_locked s) (fun _ st' => counted LP LS st' /\ drops st st' /\ st_calls st' = st_calls st) st.
Proof.
  intros H. pose proof (c_subs _ _ _ H s) as Hs. rewrite scount_cons, decide_True in Hs by done.
  destruct (st_subs st !! s) as [y|] eqn:E; [|lia]. apply wp_bind, (wp_get_sub _ y); [done|].
  destruct (Z.eqb_spec (hps_refcount y) 1) as [Hr|Hr]; apply wp_modify.
  - destruct (counted_sub_delete _ _ _ _ _ H E Hr) as [Hz Hc]. split; [done|]. split; [|done].
    assert (stree (set_subs (delete s) st) = delete s (stree st)) as Ht by (unfold stree; simpl; apply fmap_delete).
    split; try done; [|rewrite Ht; apply delete_subseteq].
    unfold asubs. rewrite Ht, map_filter_delete. apply delete_id. apply map_lookup_filter_None. right.
    intros z Hzz. rewrite (stree_lookup _ _ _ E) in Hzz. injection Hzz as <-. unfold live_sub. cbn. congruence.
  - assert (stree (set_subs (insert s (sub_set_refcount (hps_refcount y - 1) y)) st) = stree st) as Ht by (by apply (stree_same _ _ y)).
    split; [|split; [|done]].
    + apply (counted_sub LP (s :: LS) LS st s y); [done|done|done|done| |unfold slive in *; cbn; lia|cbn; lia].
      intros t Hts. by rewrite scount_cons, decide_False by done.
    + split; try done; [|by rewrite Ht]. unfold asubs. by rewrite Ht.
Qed.

Lemma wp_sub_ref_decs LP LS q st : counted LP (map hpn_sub q ++ LS) st ->
  wp (forM q (fun n => prop_sub_ref_dec_locked (hpn_sub n)))
    (fun _ st' => counted LP LS st' /\ drops st st' /\ st_calls st' = st_calls st) st.
Proof.
  revert st. induction q as [|n q IH]; intros st H.
  - apply wp_ret. split; [done|]. split; [apply drops_refl|done].
  - apply wp_bind. eapply wp_mono; [apply (wp_sub_ref_dec LP (map hpn_sub q ++ LS) st _ H)|]. intros u st1 (H1 & D1 & C1).
    eapply wp_mono; [by apply IH|]. intros v st2 (H2 & D2 & C2). split; [done|]. split; [by eapply drops_trans|congruence].
Qed.

(** * Delivery *)

(** The properties a queue of notifications holds references on. *)
Definition payload_of (n : notify) : list (option pid) :=
  match payload_props (hpn_event n) with Ok ps => ps | Fault _ => [] end.
Definition payloads (q : list notify) : list (option pid) := mjoin (map payload_of q).

(** What delivery calls: nothing for a subscription that is gone. *)
Definition told (S : gmap sid sub) (n : notify) : list (sid * pevent) :=
  match S !! hpn_sub n with
  | Some y => if hps_zombie y then [] else [(hpn_sub n, hpn_event n)]
  | None => []
  end.

Definition deliverable (S : gmap sid sub) (n : notify) : Prop :=
  (exists ps, payload_props (hpn_event n) = Ok ps) /\
  exists y, S !! hpn_sub n = Some y /\ sf_internal (hps_flags y) = false.

Lemma wp_dispatch_one LP LS st n : counted (payload_of n ++ LP) LS st -> deliverable (stree st) n ->
  wp (prop_dispatch_one n)
    (fun _ st' => counted LP LS st' /\ drops st st' /\ stree st' = stree st /\
       st_calls st' = st_calls st ++ told (stree st) n) st.
Proof.
  intros H [[ps Hps] (y & Ey & Hi)]. destruct (stree_inv _ _ _ Ey) as (y0 & E0 & ->).
  unfold told. rewrite Ey. unfold payload_of in H. rewrite Hps in H.
  change (sf_internal (hps_flags y0) = false) in Hi. change (hps_zombie (tsub y0)) with (hps_zombie y0).
  unfold prop_dispatch_one. apply wp_bind, (wp_get_sub _ y0), wp_bind, wp_passert; [done|by rewrite Hi|].
  destruct (hps_zombie y0).
  - unfold prop_notify_free_payload. apply wp_bind, (wp_lift _ ps); [done|].
    eapply wp_mono; [by apply wp_ref_decs|]. intros u st' (H1 & D1 & C1 & T1). by rewrite app_nil_r.
  - unfold notify_invoke. apply wp_bind, (wp_lift _ ps), wp_bind, wp_modify; [done|].
    eapply wp_mono; [apply (wp_ref_decs LP LS)|].
    + destruct H as [H1 H2 H3 H4 H5 H6 (F1 & F2 & F3 & F4)]. split; try done. split; [done|]. split; [done|]. split; [done|].
      apply Forall_app. split; [done|]. apply Forall_singleton, F2. by eexists.
    + intros u st' (H1 & [D1 D2 D3 D4 D5 D6 D7 D8] & C1 & T1). done.
Qed.

Lemma wp_dispatch_all LP LS q st : counted (payloads q ++ LP) LS st -> Forall (deliverable (stree st)) q ->
  wp (forM q prop_dispatch_one)
    (fun _ st' => counted LP LS st' /\ drops st st' /\ stree st' = stree st /\
       st_calls st' = st_calls st ++ mjoin (map (told (stree st)) q)) st.
Proof.
  revert st. induction q as [|n q IH]; intros st H Hq.
  - apply wp_ret. split; [done|]. split; [apply drops_refl|]. simpl. by rewrite app_nil_r.
  - apply Forall_cons in Hq as [Hn Hq]. apply wp_bind. eapply wp_mono.
    { apply (wp_dispatch_one (payloads q ++ LP) LS st n); [|done]. unfold payloads in H. simpl in H. by rewrite <- app_assoc in H. }
    intros u st1 (H1 & D1 & T1 & C1). rewrite <- T1 in Hq. eapply wp_mono; [by apply IH|].
    intros v st2 (H2 & D2 & T2 & C2). split; [done|]. split; [by eapply drops_trans|]. split; [congruence|].
    rewrite C2, C1, T1. simpl. by rewrite <- app_assoc.
Qed.

Lemma wp_notify_dispatch LP LS q st : counted (payloads q ++ LP) (map hpn_sub q ++ LS) st ->
  Forall (deliverable (stree st)) q ->
  wp (prop_notify_dispatch q)
    (fun _ st' => counted LP LS st' /\ drops st st' /\
       st_calls st' = st_calls st ++ mjoin (map (told (stree st)) q)) st.
Proof.
  intros H Hq. apply wp_bind. eapply wp_mono; [by apply (wp_dispatch_all LP (map hpn_sub q ++ LS))|].
  intros u st1 (H1 & D1 & T1 & C1). eapply wp_mono; [by apply (wp_sub_ref_decs LP LS)|].
  intros v st2 (H2 & D2 & C2). split; [done|]. split; [by eapply drops_trans|congruence].
Qed.

(** Delivery calls those that are there, in the order of the queue. *)
Lemma told_those_left st q : mjoin (map (told (stree st)) q) =
  map (fun n => (hpn_sub n, hpn_event n)) (filter (fun n => is_Some (asubs st !! hpn_sub n)) q).
Proof.
  induction q as [|n q IH]; [done|]. simpl. rewrite IH. unfold told, asubs.
  destruct (stree st !! hpn_sub n) as [y|] eqn:E.
  - destruct (hps_zombie y) eqn:Hz.
    + rewrite filter_cons_False; [done|]. intros [y' H]. apply map_lookup_filter_Some in H as [H Hl]. unfold live_sub in Hl. cbn in Hl. congruence.
    + rewrite filter_cons_True; [done|]. exists y. apply map_lookup_filter_Some. by split.
  - rewrite filter_cons_False; [done|]. intros [y' H]. apply map_lookup_filter_Some in H as [H _]. congruence.
Qed.

(** A live subscription is told what was queued for it. *)
Lemma told_live S s q : match S !! s with Some y => hps_zombie y = false | None => False end ->
  calls_of s (mjoin (map (told S) q)) = queued_of s q.
Proof.
  intros Hs. induction q as [|n q IH]; [done|]. simpl. rewrite calls_of_app, IH.
  change (n :: q) with ([n] ++ q). rewrite queued_of_app, queued_of_one. f_equal. unfold told.
  destruct (decide (hpn_sub n = s)) as [->|Hne].
  - destruct (S !! s) as [y|]; [|done]. rewrite Hs, calls_of_one. by rewrite decide_True.
  - destruct (S !! hpn_sub n) as [y|]; [|done]. destruct (hps_zombie y); [done|]. by rewrite calls_of_one, decide_False.
Qed.

(** ** Taking notifications from a queue *)

Lemma prefs_payloads p q : Forall (fun n => exists ps, payload_props (hpn_event n) = Ok ps) q ->
  prefs (payloads q) p = qsum (nrefs p) q.
Proof.
  induction 1 as [|n q [ps Hps] _ IH]; [done|]. change (n :: q) with ([n] ++ q).
  rewrite qsum_app, qsum_one, (nrefs_payload _ _ _ Hps), <- IH. unfold payloads. simpl. rewrite prefs_app.
  unfold payload_of at 1. by rewrite Hps.
Qed.

Lemma scount_app s a b : scount (a ++ b) s = (scount a s + scount b s)%nat.
Proof. unfold scount. by rewrite filter_app, length_app. Qed.

Lemma scount_subs s q : scount (map hpn_sub q) s = qsum (srefs s) q.
Proof.
  induction q as [|n q IH]; [done|]. change (n :: q) with ([n] ++ q). rewrite qsum_app, qsum_one. simpl.
  rewrite scount_cons, IH. unfold srefs at 2. by destruct (decide (hpn_sub n = s)).
Qed.

Lemma sent_to_couriers st f c n : sent_to (set_couriers f st) c n <-> sent_to st c n.
Proof. done. Qed.

Lemma counted_take LP LS st c pc first rest : counted LP LS st -> st_couriers st !! c = Some pc ->
  pc_queue_nor pc = first ++ rest ->
  counted (payloads (pc_queue_exp pc ++ first) ++ LP) (map hpn_sub (pc_queue_exp pc ++ first) ++ LS)
    (set_couriers (insert c (Courier [] rest (pc_refcount pc))) st).
Proof.
  intros [H1 H2 H3 H4 H5 H6 (F1 & F2 & F3)] E Hn. set (q := pc_queue_exp pc ++ first). set (pc' := Courier [] rest _).
  pose proof (H3 c pc E) as Hq. rewrite Hn, app_assoc in Hq. fold q in Hq. apply Forall_app in Hq as [Hq Hrest].
  assert (forall f, (held f (set_couriers (insert c pc') st) + qsum f q = held f st)%nat) as Hh.
  { intros f. unfold held. cbn [st_couriers st_global set_couriers]. pose proof (msum_insert (csum f) _ c pc pc' E) as Hm.
    assert (csum f pc = (qsum f q + csum f pc')%nat); [|lia]. unfold csum, pc', q. simpl.
    rewrite Hn, !qsum_app. change (qsum f []) with O. lia. }
  split.
  - intros p. specialize (H1 p). cbn [st_props set_couriers]. specialize (Hh (nrefs p)).
    rewrite prefs_app, (prefs_payloads p q); [destruct (st_props st !! p); lia|].
    eapply Forall_impl; [exact Hq|]. by intros n [? _].
  - intros s. specialize (H2 s). cbn [st_subs set_couriers]. specialize (Hh (srefs s)).
    rewrite scount_app, scount_subs. destruct (st_subs st !! s); lia.
  - intros c' pc1. cbn [st_couriers set_couriers]. destruct (decide (c = c')) as [<-|Hne].
    + rewrite lookup_insert_eq. by intros [= <-].
    + rewrite lookup_insert_ne by done. apply H3.
  - exact H4.
  - intros s y c' pc1 Ey Hy. cbn [st_couriers set_couriers]. destruct (decide (c = c')) as [<-|Hne].
    + rewrite lookup_insert_eq. intros [= <-] He. pose proof (H5 s y c pc Ey Hy E He) as Hx.
      rewrite Hn, queued_of_app in Hx. by apply app_eq_nil in Hx as [_ Hx].
    + rewrite lookup_insert_ne by done. by apply (H5 s y).
  - intros s y c' Ey Hy. cbn [st_couriers set_couriers]. destruct (decide (c = c')) as [<-|Hne].
    + rewrite lookup_insert_eq. by eexists.
    + rewrite lookup_insert_ne by done. by apply (H6 s y).
  - split; [done|]. split; [done|]. split; [|apply F3]. intros c'. cbn [st_couriers set_couriers st_next]. destruct (decide (c = c')) as [<-|Hne].
    + intros _. apply F3. by eexists.
    + rewrite lookup_insert_ne by done. apply F3.
Qed.

Lemma sent_deliverable st c q : Forall (sent_to st c) q -> Forall (deliverable (stree st)) q.
Proof.
  intros H. eapply Forall_impl; [exact H|]. intros n [Hp (y & Ey & _ & Hi)]. split; [done|].
  exists (tsub y). by rewrite (stree_lookup _ _ _ Ey).
Qed.

Lemma deliverable_drops S S' n y : S' ⊆ S -> S' !! hpn_sub n = Some y -> deliverable S n -> deliverable S' n.
Proof.
  intros Hs E [Hp (z & Ez & Hi)]. split; [done|]. exists y. split; [done|].
  pose proof (lookup_weaken _ _ _ _ E Hs). by simplify_eq.
Qed.

(** What was taken has been told, so nothing has changed. *)
Lemma at_delivered LP LS A S E st c pc first rest st' :
  at_ ∅ LP LS A S E st -> st_couriers st !! c = Some pc -> pc_queue_nor pc = first ++ rest ->
  counted LP LS st' -> drops (set_couriers (insert c (Courier [] rest (pc_refcount pc))) st) st' ->
  (forall s, is_Some (S !! s) -> calls_of s (st_calls st') =
     calls_of s (st_calls st) ++ queued_of s (pc_queue_exp pc ++ first)) ->
  at_ ∅ LP LS A S E st'.
Proof.
  intros [H1 H2 H3 H4 _ H6] Epc Hn Hc Hd Hcalls. set (st1 := set_couriers _ st) in Hd.
  split; [done| | | |done|].
  - by rewrite (dr_alive _ _ Hd).
  - by rewrite (dr_asubs _ _ Hd).
  - intros s Hs. change (asubs st1 = S) in H3. rewrite (drops_events _ _ s Hd), Hcalls, <- H4 by (try rewrite H3; done).
    unfold events. rewrite <- app_assoc. f_equal. cbn [st1 st_subs set_couriers].
    rewrite <- H3 in Hs. destruct Hs as [y Hy]. apply asubs_Some in Hy as [Hy _].
    destruct (stree_inv _ _ _ Hy) as (y0 & E0 & _). cbn [st1 st_subs set_couriers] in E0. rewrite E0.
    assert (forall c', hps_courier y0 = c' -> c' <> Some c -> queued_of s (pc_queue_exp pc ++ first) = []) as Hother.
    { intros c' Ey Hne. apply queued_of_nobody. pose proof (c_couriers _ _ _ H1 c pc Epc) as Hf.
      rewrite Hn, app_assoc in Hf. apply Forall_app in Hf as [Hf _]. eapply Forall_impl; [exact Hf|].
      intros n [_ (z & Ez & Hz & _)] <-. congruence. }
    unfold pending. destruct (hps_courier y0) as [c'|] eqn:Ey.
    + cbn [st1 st_couriers set_couriers]. destruct (decide (c = c')) as [<-|Hne].
      * rewrite lookup_insert_eq, Epc. simpl. by rewrite Hn, !queued_of_app, <- app_assoc.
      * rewrite lookup_insert_ne by done. rewrite (Hother (Some c')); [done|done|congruence].
    + by rewrite (Hother None).
  - intros p x Hp Hz. right. destruct (H6 p x) as [[? ?]|]; [|done|done|done].
    pose proof (lookup_weaken _ _ _ _ Hp (dr_tree _ _ Hd)). done.
Qed.

Lemma wp_poll LP LS A S E st c (Q : unit -> store -> Prop) :
  at_ ∅ LP LS A S E st -> is_Some (st_couriers st !! c) ->
  (forall st' pc, at_ ∅ LP LS A S E st' -> st_couriers st !! c = Some pc ->
     st_couriers st' = <[c := Courier [] [] (pc_refcount pc)]> (st_couriers st) ->
     st_calls st' = st_calls st ++ mjoin (map (told (stree st)) (pc_queue_exp pc ++ pc_queue_nor pc)) ->
     (forall s y, S !! s = Some y -> hps_courier y = Some c -> calls_of s (st_calls st') = E s) -> Q tt st') ->
  wp (prop_courier_poll c) Q st.
Proof.
  intros H [pc Epc] HQ. unfold prop_courier_poll. apply wp_bind, (wp_get_courier _ pc), wp_bind, wp_modify; [done|].
  pose proof (at_counted _ _ _ _ _ _ _ H) as Hc. set (st1 := set_couriers _ st).
  assert (pc_queue_nor pc = pc_queue_nor pc ++ []) as Hn by by rewrite app_nil_r.
  pose proof (counted_take _ _ _ _ _ _ _ Hc Epc Hn) as Ht. fold st1 in Ht.
  eapply wp_mono; [apply (wp_notify_dispatch LP LS), (sent_deliverable _ (Some c)); [done|by apply (c_couriers _ _ _ Hc)]|].
  intros [] st' (Hc' & Hd & Hcalls).
  assert (forall s, is_Some (S !! s) -> calls_of s (st_calls st') =
     calls_of s (st_calls st) ++ queued_of s (pc_queue_exp pc ++ pc_queue_nor pc)) as Hcs.
  { intros s [y Hy]. rewrite Hcalls, calls_of_app, told_live; [done|]. change (stree st1) with (stree st).
    rewrite (at_stree _ _ _ H Hy). by apply (at_slive _ _ _ H Hy). }
  pose proof (at_delivered _ _ _ _ _ _ _ _ _ _ _ H Epc Hn Hc' Hd Hcs) as H'.
  apply (HQ st' pc); [done|done|by rewrite (dr_couriers _ _ Hd)|done|].
  intros s y Hy Hyc. rewrite <- (at_events _ _ _ _ _ _ _ H' s) by by eexists. unfold events.
  destruct (stree_inv _ _ _ (at_stree _ _ _ H' Hy)) as (y0 & E0 & ->). rewrite E0.
  change (hps_courier y0 = Some c) in Hyc. unfold pending. rewrite Hyc, (dr_couriers _ _ Hd).
  unfold st1. cbn [st_couriers set_couriers]. rewrite lookup_insert_eq. simpl. by rewrite app_nil_r.
Qed.

Lemma wp_round LP LS A S E st c (Q : unit -> store -> Prop) :
  at_ ∅ LP LS A S E st -> is_Some (st_couriers st !! c) ->
  (forall st', at_ ∅ LP LS A S E st' -> Q tt st') -> wp (prop_courier_round c) Q st.
Proof.
  intros H [pc Epc] HQ. unfold prop_courier_round. apply wp_bind, (wp_get_courier _ pc); [done|].
  destruct (match pc_queue_nor pc with n :: q => ([n], q) | [] => ([], []) end) as [first rest] eqn:Ef.
  assert (pc_queue_nor pc = first ++ rest) as Hn by (destruct (pc_queue_nor pc); by injection Ef as <- <-).
  pose proof (at_counted _ _ _ _ _ _ _ H) as Hc. pose proof (counted_take _ _ _ _ _ _ _ Hc Epc Hn) as Ht.
  apply wp_bind, wp_modify. set (st1 := set_couriers _ st) in *. pose proof (c_couriers _ _ _ Hc c pc Epc) as Hq.
  rewrite Hn, app_assoc in Hq. apply Forall_app in Hq as [Hq _]. apply sent_deliverable in Hq.
  change (stree st) with (stree st1) in Hq. pose proof Hq as [Hq1 Hq2]%Forall_app. apply wp_bind.
  eapply wp_mono; [apply (wp_notify_dispatch (payloads first ++ LP) (map hpn_sub first ++ LS)); [|done]|].
  { unfold payloads in *. rewrite !map_app, join_app, <- !app_assoc in Ht. exact Ht. }
  intros u st2 (H2 & D2 & C2).
  eapply wp_mono; [apply (wp_notify_dispatch LP LS); [exact H2|]|].
  { rewrite Forall_forall in *. intros n Hin. pose proof (c_subs _ _ _ H2 (hpn_sub n)) as Hs. rewrite scount_app, scount_subs in Hs.
    assert (0 < qsum (srefs (hpn_sub n)) first)%nat as Hpos.
    { apply elem_of_Permutation in Hin as [l' Hl]. unfold qsum. rewrite Hl. simpl. unfold srefs at 1. rewrite decide_True by done. lia. }
    destruct (st_subs st2 !! hpn_sub n) as [y|] eqn:Ey; [|lia].
    apply (deliverable_drops (stree st1) _ _ (tsub y)); [apply D2|by apply stree_lookup|by apply Hq2]. }
  intros [] st3 (H3 & D3 & C3). apply HQ.
  apply (at_delivered LP LS A S E st c pc first rest st3); [done..|by eapply drops_trans|].
  intros s [y Hy]. rewrite C3, C2, !calls_of_app, !told_live.
  - by rewrite queued_of_app, app_assoc.
  - pose proof Hy as Hy'. rewrite <- (at_subs _ _ _ _ _ _ _ H) in Hy'. change (asubs st) with (asubs st1) in Hy'.
    rewrite <- (dr_asubs _ _ D2) in Hy'. apply asubs_Some in Hy' as [-> ?]. done.
  - change (stree st1) with (stree st). rewrite (at_stree _ _ _ H Hy). by apply (at_slive _ _ _ H Hy).
Qed.
