(* ===== verification/PropWf.v ===== *)
(** The shape of the property tree: parents and children agree, there are no
    cycles, and a property and its subscriptions know each other.  The
    changes the operations make keep it. *)
From S2P Require Import Prelude PropStore PropTree PropLogic PropWorld.

Local Open Scope Z_scope.

Notation ptree := (gmap pid prop).
Notation psubs := (gmap sid sub).

(** * Shape *)

Definition kids (A : ptree) (p : pid) : list pid := match A !! p with Some x => childs (hp_val x) | None => [] end.
Definition vsubs (A : ptree) (p : pid) : list sid :=
  match A !! p with Some x => hp_value_subscriptions x | None => [] end.
Definition csubs (A : ptree) (p : pid) : list sid :=
  match A !! p with Some x => hp_canonical_subscriptions x | None => [] end.

(** A property without links or multi-level subscriptions. *)
Record ok_prop (x : prop) : Prop := {
  ok_val : simple_val (hp_val x);
  ok_clipped : hp_clipped x = true ->
    match hp_val x with PInt _ (Some _) | PFloat _ (Some _) => True | _ => False end;
  ok_originator : hp_originator x = None;
  ok_targets : hp_targets x = [];
  ok_xrefed : hp_xrefed_originator x = false;
  ok_monitored : hp_monitored x = false;
  ok_multi_sub : hp_multi_sub x = false;
  ok_multi_notify : hp_multi_notify x = false
}.

(** The tree below [p] has at most [n] levels. *)
Fixpoint hb (A : ptree) (n : nat) (p : pid) : Prop :=
  match n with O => False | S n => Forall (hb A n) (kids A p) end.

Definition child_of (A : ptree) (p c : pid) : Prop := c ∈ kids A p.
Definition below (A : ptree) : pid -> pid -> Prop := rtc (child_of A).

(** [O] are the properties a computation has taken out of their parents'
    lists, or not yet put there. *)
Record wf_tree (O : list pid) (A : ptree) : Prop := {
  t_ok p x : A !! p = Some x -> ok_prop x;
  t_nodup p : NoDup (kids A p);
  t_child p c : c ∈ kids A p -> (c ∉ O) /\ exists y, A !! c = Some y /\ hp_parent y = Some p;
  t_parent p x q : A !! p = Some x -> hp_parent x = Some q -> p ∈ O \/ p ∈ kids A q;
  t_height p : exists n, hb A n p;
  t_orphans : NoDup O /\ forall c, c ∈ O -> is_Some (A !! c)
}.

Record ok_sub (y : sub) : Prop := {
  oks_origins : hps_origins y = [];
  oks_monitor : sf_monitor (hps_flags y) = false;
  oks_multi : sf_multi (hps_flags y) = false
}.

Record wf_subs (A : ptree) (S : psubs) : Prop := {
  s_ok s y : S !! s = Some y -> ok_sub y;
  s_vnodup p : NoDup (vsubs A p);
  s_cnodup p : NoDup (csubs A p);
  s_value p s : s ∈ vsubs A p <-> exists y, S !! s = Some y /\ hps_value_prop y = Some p;
  s_canonical p s : s ∈ csubs A p <-> exists y, S !! s = Some y /\ hps_canonical_prop y = Some p
}.

Lemma kids_Some A p x : A !! p = Some x -> kids A p = childs (hp_val x).
Proof. unfold kids. by intros ->. Qed.
Lemma kids_insert A p x q : kids (<[p := x]> A) q = if decide (p = q) then childs (hp_val x) else kids A q.
Proof. unfold kids. destruct (decide (p = q)) as [<-|Hne]; [by rewrite lookup_insert_eq|by rewrite lookup_insert_ne]. Qed.
Lemma kids_delete A p q : kids (delete p A) q = if decide (p = q) then [] else kids A q.
Proof. unfold kids. destruct (decide (p = q)) as [<-|Hne]; [by rewrite lookup_delete_eq|by rewrite lookup_delete_ne]. Qed.
Lemma vsubs_insert A p x q : vsubs (<[p := x]> A) q = if decide (p = q) then hp_value_subscriptions x else vsubs A q.
Proof. unfold vsubs. destruct (decide (p = q)) as [<-|Hne]; [by rewrite lookup_insert_eq|by rewrite lookup_insert_ne]. Qed.
Lemma csubs_insert A p x q : csubs (<[p := x]> A) q = if decide (p = q) then hp_canonical_subscriptions x else csubs A q.
Proof. unfold csubs. destruct (decide (p = q)) as [<-|Hne]; [by rewrite lookup_insert_eq|by rewrite lookup_insert_ne]. Qed.
Lemma vsubs_delete A p q : vsubs (delete p A) q = if decide (p = q) then [] else vsubs A q.
Proof. unfold vsubs. destruct (decide (p = q)) as [<-|Hne]; [by rewrite lookup_delete_eq|by rewrite lookup_delete_ne]. Qed.
Lemma csubs_delete A p q : csubs (delete p A) q = if decide (p = q) then [] else csubs A q.
Proof. unfold csubs. destruct (decide (p = q)) as [<-|Hne]; [by rewrite lookup_delete_eq|by rewrite lookup_delete_ne]. Qed.

(** ** Heights *)

Lemma hb_mono A n m p : hb A n p -> (n <= m)%nat -> hb A m p.
Proof.
  revert m p. induction n as [|n IH]; intros m p H Hm; [done|]. destruct m as [|m]; [lia|]. simpl in *.
  eapply Forall_impl; [exact H|]. intros c Hc. apply IH; [done|lia].
Qed.

Lemma hb_kids A A' n p : (forall x, kids A' x ⊆ kids A x) -> hb A n p -> hb A' n p.
Proof.
  intros Hk. revert p. induction n as [|n IH]; intros p H; [done|]. simpl in *. rewrite Forall_forall in *.
  intros c Hc. by apply IH, H, Hk.
Qed.

Lemma hb_child A n p c : hb A (S n) p -> c ∈ kids A p -> hb A n c.
Proof. simpl. rewrite Forall_forall. auto. Qed.

Lemma hb_below A n p x : hb A n p -> below A p x -> hb A n x.
Proof.
  intros H Hx. revert H. induction Hx as [|p c x Hc _ IH]; intros H; [done|]. apply IH.
  destruct n as [|n]; [done|]. eapply hb_mono; [by apply (hb_child _ _ p)|lia].
Qed.

(** No property is below its own children. *)
Lemma hb_acyclic A n p c : hb A n p -> c ∈ kids A p -> below A c p -> False.
Proof.
  revert p c. induction n as [|n IH]; intros p c H Hc Hb; [done|]. pose proof (hb_child _ _ _ _ H Hc) as Hn.
  pose proof (hb_below _ _ _ _ Hn Hb) as Hp. by apply (IH p c).
Qed.

Lemma hb_set A n p (X : gset pid) : hb A n p -> (forall x, below A p x -> x ∈ X) -> hb A (size X) p.
Proof.
  revert p X. induction n as [|n IH]; intros p X H HX; [done|].
  assert (p ∈ X) as Hp by (apply HX; apply rtc_refl).
  assert (size X = S (size (X ∖ {[p]}))) as ->.
  { rewrite (union_difference_singleton_L p X Hp) at 1. rewrite size_union by set_solver. by rewrite size_singleton. }
  simpl. rewrite Forall_forall. intros c Hc. apply IH; [by apply (hb_child _ _ p)|]. intros x Hx.
  assert (x ∈ X) by (apply HX; eapply rtc_l; [exact Hc|done]).
  assert (x <> p) by (intros ->; by apply (hb_acyclic A (S n) p c)). set_solver.
Qed.

Lemma kid_alive O A p c : wf_tree O A -> c ∈ kids A p -> is_Some (A !! c).
Proof. intros H Hc. apply (t_child _ _ H) in Hc as (_ & y & -> & _). by eexists. Qed.

Lemma below_alive O A p x : wf_tree O A -> is_Some (A !! p) -> below A p x -> is_Some (A !! x).
Proof. intros H Hp Hx. induction Hx as [|p c x Hc _ IH]; [done|]. apply IH. by apply (kid_alive O A p). Qed.

(** So the number of properties is fuel enough. *)
Lemma hb_bound O A p : wf_tree O A -> is_Some (A !! p) -> hb A (size A) p.
Proof.
  intros H Hp. destruct (t_height _ _ H p) as [n Hn]. rewrite <- size_dom. apply (hb_set A n); [done|].
  intros x Hx. apply elem_of_dom. by apply (below_alive O A p).
Qed.

(** A new child. *)
Lemma hb_adopt A A' c q n0 : (forall x, x <> q -> kids A' x ⊆ kids A x) -> kids A' q ⊆ c :: kids A q ->
  ~ below A c q -> hb A n0 c -> forall n p, hb A n p -> hb A' (n + n0) p.
Proof.
  intros Hk Hq Hc H0.
  assert (forall m x, below A c x -> hb A m x -> hb A' m x) as Hbelow.
  { induction m as [|m IH]; intros x Hx Hm; [done|]. simpl in *. rewrite Forall_forall in *. intros d Hd.
    assert (x <> q) as Hne by (intros ->; done). apply (Hk x Hne) in Hd. apply IH; [|by apply Hm].
    eapply rtc_r; [exact Hx|exact Hd]. }
  induction n as [|n IH]; intros p Hp; [done|]. simpl in *. rewrite Forall_forall in *. intros d Hd.
  destruct (decide (p = q)) as [->|Hne].
  - apply Hq, elem_of_cons in Hd as [->|Hd].
    + eapply hb_mono; [apply Hbelow; [apply rtc_refl|exact H0]|lia].
    + by apply IH, Hp.
  - apply (Hk p Hne) in Hd. by apply IH, Hp.
Qed.

(** ** Changes of the tree *)

(** A property changes, but not its place. *)
Lemma wf_update O A p x x' : wf_tree O A -> A !! p = Some x -> ok_prop x' ->
  childs (hp_val x') = childs (hp_val x) -> hp_parent x' = hp_parent x -> wf_tree O (<[p := x']> A).
Proof.
  intros [T1 T2 T3 T4 T5 T6] E Hok Hc Hp.
  assert (forall q, kids (<[p := x']> A) q = kids A q) as Hk.
  { intros q. rewrite kids_insert. destruct (decide (p = q)) as [<-|]; [|done]. by rewrite (kids_Some _ _ _ E). }
  split.
  - intros q z. destruct (decide (p = q)) as [<-|Hne]; [|rewrite lookup_insert_ne by done; apply T1].
    rewrite lookup_insert_eq. by intros [= <-].
  - intros q. by rewrite Hk.
  - intros q c. rewrite Hk. intros H. destruct (T3 q c H) as (HO & y & Ey & Hy). split; [done|].
    destruct (decide (p = c)) as [<-|Hne]; [|exists y; by rewrite lookup_insert_ne].
    exists x'. rewrite lookup_insert_eq. split; [done|]. rewrite Hp. by simplify_eq.
  - intros q z r. destruct (decide (p = q)) as [<-|Hne].
    + rewrite lookup_insert_eq. intros [= <-]. rewrite Hk, Hp. by apply T4.
    + rewrite lookup_insert_ne by done. rewrite Hk. apply T4.
  - intros q. destruct (T5 q) as [n Hn]. exists n. eapply hb_kids; [|exact Hn]. intros z. by rewrite Hk.
  - destruct T6 as [T6 T7]. split; [done|]. intros c Hco. destruct (decide (p = c)) as [<-|Hne].
    + rewrite lookup_insert_eq. by eexists.
    + rewrite lookup_insert_ne by done. by apply T7.
Qed.

(** A property loses some children, and may order the others anew. *)
Lemma wf_shrink O A p x x' rs : wf_tree O A -> A !! p = Some x -> ok_prop x' ->
  childs (hp_val x) ≡ₚ rs ++ childs (hp_val x') -> hp_parent x' = hp_parent x ->
  wf_tree (rs ++ O) (<[p := x']> A).
Proof.
  intros [T1 T2 T3 T4 T5 [T6 T7]] E Hok Hc Hp. pose proof (kids_Some _ _ _ E) as Hkp.
  assert (NoDup (rs ++ childs (hp_val x'))) as Hnd by (rewrite <- Hc, <- Hkp; apply T2).
  apply NoDup_app in Hnd as (Hrs & Hdisj & Hcs).
  assert (forall c, c ∈ rs -> c ∈ kids A p) as Hin by (intros c Hin; rewrite Hkp, Hc; set_solver).
  assert (forall q, kids (<[p := x']> A) q ⊆ kids A q) as Hk.
  { intros q. rewrite kids_insert. destruct (decide (p = q)) as [<-|]; [|done]. rewrite Hkp, Hc. set_solver. }
  assert (forall q d z, A !! q = Some z -> hp_parent z = Some d ->
    exists z', <[p := x']> A !! q = Some z' /\ hp_parent z' = Some d) as Hpar.
  { intros q d z Ez Hz. destruct (decide (p = q)) as [<-|Hne].
    - exists x'. rewrite lookup_insert_eq. split; [done|]. rewrite Hp. by simplify_eq.
    - exists z. by rewrite lookup_insert_ne. }
  split.
  - intros q z. destruct (decide (p = q)) as [<-|Hne]; [|rewrite lookup_insert_ne by done; apply T1].
    rewrite lookup_insert_eq. by intros [= <-].
  - intros q. rewrite kids_insert. destruct (decide (p = q)); [done|apply T2].
  - intros q c Hq. pose proof (Hk q c Hq) as Hq'. destruct (T3 q c Hq') as (HO & y & Ey & Hy). split; [|by apply (Hpar c q y)].
    intros [Hr|?]%elem_of_app; [|done]. pose proof (Hin c Hr) as Hcp. destruct (T3 p c Hcp) as (_ & y' & Ey' & Hy').
    assert (p = q) as <- by congruence. rewrite kids_insert, decide_True in Hq by done. by apply (Hdisj c).
  - intros q z r Ez Hz.
    assert (exists z0, A !! q = Some z0 /\ hp_parent z0 = Some r) as (z0 & Ez0 & Hz0).
    { destruct (decide (p = q)) as [<-|Hne].
      - rewrite lookup_insert_eq in Ez. injection Ez as <-. exists x. split; [done|]. congruence.
      - rewrite lookup_insert_ne in Ez by done. by exists z. }
    destruct (T4 q z0 r Ez0 Hz0) as [HO|Hk']; [left; set_solver|]. rewrite kids_insert.
    destruct (decide (p = r)) as [<-|]; [|by right]. rewrite Hkp, Hc in Hk'. apply elem_of_app in Hk' as [?|?]; [left; set_solver|by right].
  - intros q. destruct (T5 q) as [n Hn]. exists n. by eapply hb_kids.
  - split.
    + apply NoDup_app. split; [done|]. split; [|done]. intros c Hr. by apply (T3 p), Hin.
    + intros c [Hr|Hr]%elem_of_app.
      * destruct (T3 p c (Hin c Hr)) as (_ & y & Ey & Hy). destruct (Hpar c p y Ey Hy) as (z & -> & _). by eexists.
      * destruct (decide (p = c)) as [<-|Hne]; [rewrite lookup_insert_eq; by eexists|]. rewrite lookup_insert_ne by done. by apply T7.
Qed.

(** What has been taken out gets another parent, or none. *)
Lemma wf_reparent O A p x q : wf_tree (p :: O) A -> A !! p = Some x ->
  wf_tree (p :: O) (<[p := set_parent q x]> A).
Proof.
  intros [T1 T2 T3 T4 T5 [T6 T7]] E.
  assert (forall r, kids (<[p := set_parent q x]> A) r = kids A r) as Hk.
  { intros r. rewrite kids_insert. destruct (decide (p = r)) as [<-|]; [|done]. by rewrite (kids_Some _ _ _ E). }
  split.
  - intros r z. destruct (decide (p = r)) as [<-|Hne]; [|rewrite lookup_insert_ne by done; apply T1].
    rewrite lookup_insert_eq. intros [= <-]. destruct (T1 p x E). by split.
  - intros r. by rewrite Hk.
  - intros r c. rewrite Hk. intros H. destruct (T3 r c H) as (HO & y & Ey & Hy). split; [done|].
    exists y. rewrite lookup_insert_ne; [done|]. set_solver.
  - intros r z t. destruct (decide (p = r)) as [<-|Hne]; [left; by left|]. rewrite lookup_insert_ne by done. rewrite Hk. apply T4.
  - intros r. destruct (T5 r) as [n Hn]. exists n. eapply hb_kids; [|exact Hn]. intros z. by rewrite Hk.
  - split; [done|]. intros c Hco. destruct (decide (p = c)) as [<-|Hne].
    + rewrite lookup_insert_eq. by eexists.
    + rewrite lookup_insert_ne by done. by apply T7.
Qed.

Lemma wf_root O A p x : wf_tree (p :: O) A -> A !! p = Some x -> hp_parent x = None -> wf_tree O A.
Proof.
  intros [T1 T2 T3 T4 T5 [T6 T7]] E Hp. split; [done|done| | |done|].
  - intros q c Hc. destruct (T3 q c Hc) as [HO Hy]. split; [set_solver|done].
  - intros q z r Ez Hz. destruct (T4 q z r Ez Hz) as [HO|]; [|by right]. apply elem_of_cons in HO as [->|]; [congruence|by left].
  - split; [by apply NoDup_cons in T6 as [_ T6]|]. intros c Hc. apply T7. by right.
Qed.

Lemma wf_unroot O A p x : wf_tree O A -> A !! p = Some x -> hp_parent x = None -> p ∉ O -> wf_tree (p :: O) A.
Proof.
  intros [T1 T2 T3 T4 T5 [T6 T7]] E Hp HO. split; [done|done| | |done|].
  - intros q c Hc. destruct (T3 q c Hc) as (HcO & y & Ey & Hy). split; [|by exists y].
    intros [->|?]%elem_of_cons; [congruence|done].
  - intros q z r Ez Hz. destruct (T4 q z r Ez Hz) as [?|]; [|by right]. left. by right.
  - split; [by apply NoDup_cons|]. intros c [->|Hc]%elem_of_cons; [by eexists|by apply T7].
Qed.

(** It is put into the list of its parent. *)
Lemma wf_adopt O A q y y' c x : wf_tree (c :: O) A -> A !! q = Some y -> A !! c = Some x -> hp_parent x = Some q ->
  ok_prop y' -> childs (hp_val y') ≡ₚ c :: childs (hp_val y) -> hp_parent y' = hp_parent y -> ~ below A c q ->
  wf_tree O (<[q := y']> A).
Proof.
  intros [T1 T2 T3 T4 T5 [T6 T7]] E Ec Hx Hok Hch Hp Hnb. pose proof (kids_Some _ _ _ E) as Hkq.
  apply NoDup_cons in T6 as [HcO T6].
  assert (q <> c) as Hqc by (intros ->; apply Hnb, rtc_refl).
  assert (forall p, c ∉ kids A p) as Hno.
  { intros p Hin. apply T3 in Hin as [Hin _]. set_solver. }
  assert (forall p d z, A !! p = Some z -> hp_parent z = Some d ->
    exists z', <[q := y']> A !! p = Some z' /\ hp_parent z' = Some d) as Hpar.
  { intros p d z Ez Hz. destruct (decide (q = p)) as [<-|Hne].
    - exists y'. rewrite lookup_insert_eq. split; [done|]. rewrite Hp. by simplify_eq.
    - exists z. by rewrite lookup_insert_ne. }
  split.
  - intros p z. destruct (decide (q = p)) as [<-|Hne]; [|rewrite lookup_insert_ne by done; apply T1].
    rewrite lookup_insert_eq. by intros [= <-].
  - intros p. rewrite kids_insert. destruct (decide (q = p)) as [<-|]; [|apply T2]. rewrite Hch, <- Hkq.
    apply NoDup_cons. split; [apply Hno|apply T2].
  - intros p d. rewrite kids_insert. destruct (decide (q = p)) as [<-|Hne].
    + rewrite Hch, <- Hkq. intros [->|Hd]%elem_of_cons.
      * split; [done|]. by apply (Hpar _ _ x).
      * destruct (T3 q d Hd) as (HO & z & Ez & Hz). split; [set_solver|]. by apply (Hpar _ _ z).
    + intros Hd. destruct (T3 p d Hd) as (HO & z & Ez & Hz). split; [set_solver|]. by apply (Hpar _ _ z).
  - intros p z r Ez Hz.
    assert (exists z0, A !! p = Some z0 /\ hp_parent z0 = Some r) as (z0 & Ez0 & Hz0).
    { destruct (decide (q = p)) as [<-|Hne].
      - rewrite lookup_insert_eq in Ez. injection Ez as <-. exists y. split; [done|]. congruence.
      - rewrite lookup_insert_ne in Ez by done. by exists z. }
    rewrite kids_insert. destruct (T4 p z0 r Ez0 Hz0) as [HO|Hk'].
    + apply elem_of_cons in HO as [->|HO]; [|by left]. right. assert (r = q) as -> by congruence.
      rewrite decide_True by done. rewrite Hch. by left.
    + right. destruct (decide (q = r)) as [<-|]; [|done]. rewrite Hch, <- Hkq. by right.
  - intros p. destruct (T5 p) as [n Hn]. destruct (T5 c) as [n0 Hn0]. exists (n + n0)%nat.
    apply (hb_adopt A _ c q n0); [| |done|done|done].
    + intros z Hz. rewrite kids_insert, decide_False by done. done.
    + rewrite kids_insert, decide_True by done. rewrite Hch, <- Hkq. done.
  - split; [done|]. intros d Hd. destruct (decide (q = d)) as [<-|Hne]; [rewrite lookup_insert_eq; by eexists|].
    rewrite lookup_insert_ne by done. apply T7. by right.
Qed.

(** A new property. *)
Lemma wf_new O A p x : wf_tree O A -> A !! p = None -> ok_prop x -> childs (hp_val x) = [] ->
  wf_tree (p :: O) (<[p := x]> A).
Proof.
  intros [T1 T2 T3 T4 T5 [T6 T7]] E Hok Hc.
  assert (forall q, kids (<[p := x]> A) q = kids A q) as Hk.
  { intros q. rewrite kids_insert. destruct (decide (p = q)) as [<-|]; [|done]. unfold kids. by rewrite E. }
  split.
  - intros q z. destruct (decide (p = q)) as [<-|Hne]; [|rewrite lookup_insert_ne by done; apply T1].
    rewrite lookup_insert_eq. by intros [= <-].
  - intros q. by rewrite Hk.
  - intros q c. rewrite Hk. intros H. destruct (T3 q c H) as (HO & y & Ey & Hy).
    assert (p <> c) by (intros ->; congruence). split; [set_solver|]. exists y. by rewrite lookup_insert_ne.
  - intros q z r. destruct (decide (p = q)) as [<-|Hne]; [left; by left|]. rewrite lookup_insert_ne by done.
    rewrite Hk. intros Ez Hz. destruct (T4 q z r Ez Hz); [left; by right|by right].
  - intros q. destruct (T5 q) as [n Hn]. exists n. eapply hb_kids; [|exact Hn]. intros z. by rewrite Hk.
  - split.
    + apply NoDup_cons. split; [|done]. intros Hp. apply T7 in Hp as [z Hz]. congruence.
    + intros c [->|Hco]%elem_of_cons; [rewrite lookup_insert_eq; by eexists|].
      rewrite lookup_insert_ne; [by apply T7|]. intros ->. apply T7 in Hco as [z Hz]. congruence.
Qed.

(** A property without children goes. *)
Lemma wf_delete O A p : wf_tree (p :: O) A -> kids A p = [] -> wf_tree O (delete p A).
Proof.
  intros [T1 T2 T3 T4 T5 [T6 T7]] Hkp. apply NoDup_cons in T6 as [HpO T6].
  assert (forall q, kids (delete p A) q = kids A q) as Hk.
  { intros q. rewrite kids_delete. by destruct (decide (p = q)) as [<-|]. }
  split.
  - intros q z Ez. apply lookup_delete_Some in Ez as [_ Ez]. by apply (T1 q).
  - intros q. by rewrite Hk.
  - intros q c. rewrite Hk. intros H. destruct (T3 q c H) as (HO & y & Ey & Hy).
    split; [set_solver|]. exists y. rewrite lookup_delete_ne by set_solver. done.
  - intros q z r Ez Hz. apply lookup_delete_Some in Ez as [Hne Ez]. rewrite Hk.
    destruct (T4 q z r Ez Hz) as [HO|]; [|by right]. apply elem_of_cons in HO as [->|]; [done|by left].
  - intros q. destruct (T5 q) as [n Hn]. exists n. eapply hb_kids; [|exact Hn]. intros z. by rewrite Hk.
  - split; [done|]. intros c Hc. rewrite lookup_delete_ne by (intros ->; done). apply T7. by right.
Qed.

(** ** Changes of the subscriptions *)

Lemma wf_subs_ext A A' S : wf_subs A S -> (forall p, vsubs A' p = vsubs A p) -> (forall p, csubs A' p = csubs A p) ->
  wf_subs A' S.
Proof.
  intros [S1 S2 S3 S4 S5] Hv Hc. split; intros *; rewrite ?Hv, ?Hc; [apply S1|apply S2|apply S3|apply S4|apply S5].
Qed.

Lemma subs_update A S p x x' : wf_subs A S -> A !! p = Some x ->
  hp_value_subscriptions x' = hp_value_subscriptions x ->
  hp_canonical_subscriptions x' = hp_canonical_subscriptions x -> wf_subs (<[p := x']> A) S.
Proof.
  intros H E Hv Hc. apply (wf_subs_ext A); [done| |]; intros q; rewrite ?vsubs_insert, ?csubs_insert;
    destruct (decide (p = q)) as [<-|]; [|done| |done]; unfold vsubs, csubs; by rewrite E.
Qed.

Lemma subs_new A S p x : wf_subs A S -> A !! p = None -> hp_value_subscriptions x = [] ->
  hp_canonical_subscriptions x = [] -> wf_subs (<[p := x]> A) S.
Proof.
  intros H E Hv Hc. apply (wf_subs_ext A); [done| |]; intros q; rewrite ?vsubs_insert, ?csubs_insert;
    destruct (decide (p = q)) as [<-|]; [|done| |done]; unfold vsubs, csubs; by rewrite E.
Qed.

(** The subscriptions of a property that goes. *)
Definition forget (p : pid) (y : sub) : sub :=
  let y := if decide (hps_value_prop y = Some p) then sub_set_value None y else y in
  if decide (hps_canonical_prop y = Some p) then sub_set_canonical None y else y.

Lemma forget_value p y : hps_value_prop (forget p y) = if decide (hps_value_prop y = Some p) then None else hps_value_prop y.
Proof. unfold forget. by destruct (decide (hps_value_prop y = Some p)), (decide _). Qed.
Lemma forget_canonical p y :
  hps_canonical_prop (forget p y) = if decide (hps_canonical_prop y = Some p) then None else hps_canonical_prop y.
Proof. unfold forget. by destruct (decide (hps_value_prop y = Some p)); cbn [hps_canonical_prop sub_set_value]; destruct (decide _). Qed.
Lemma forget_flags p y : hps_flags (forget p y) = hps_flags y /\ hps_origins (forget p y) = hps_origins y /\
  hps_courier (forget p y) = hps_courier y.
Proof. unfold forget. by destruct (decide (hps_value_prop y = Some p)), (decide _). Qed.

Lemma subs_forget A S p : wf_subs A S -> wf_subs (delete p A) (forget p <$> S).
Proof.
  intros [S1 S2 S3 S4 S5]. split.
  - intros s y Hy. rewrite lookup_fmap in Hy. apply fmap_Some in Hy as (z & Ez & ->).
    destruct (S1 s z Ez), (forget_flags p z) as (Hf & Ho & _). split; congruence.
  - intros q. rewrite vsubs_delete. destruct (decide (p = q)); [constructor|apply S2].
  - intros q. rewrite csubs_delete. destruct (decide (p = q)); [constructor|apply S3].
  - intros q s. rewrite vsubs_delete, lookup_fmap. destruct (decide (p = q)) as [<-|Hne].
    + split; [by intros ?%elem_of_nil|]. intros (y & Hy & Hv). apply fmap_Some in Hy as (z & Ez & ->).
      rewrite forget_value in Hv. by destruct (decide _).
    + rewrite S4. split; intros (y & Hy & Hv).
      * exists (forget p y). rewrite Hy. split; [done|]. rewrite forget_value, decide_False; [done|]. congruence.
      * apply fmap_Some in Hy as (z & Ez & ->). exists z. split; [done|]. rewrite forget_value in Hv. by destruct (decide _).
  - intros q s. rewrite csubs_delete, lookup_fmap. destruct (decide (p = q)) as [<-|Hne].
    + split; [by intros ?%elem_of_nil|]. intros (y & Hy & Hv). apply fmap_Some in Hy as (z & Ez & ->).
      rewrite forget_canonical in Hv. by destruct (decide _).
    + rewrite S5. split; intros (y & Hy & Hv).
      * exists (forget p y). rewrite Hy. split; [done|]. rewrite forget_canonical, decide_False; [done|]. congruence.
      * apply fmap_Some in Hy as (z & Ez & ->). exists z. split; [done|]. rewrite forget_canonical in Hv. by destruct (decide _).
Qed.
