(* ===== verification/PropMirror.v ===== *)
(** What a subscription can make of the events it is told, and the promise of
    the property tree: it is the value of the property, children in order. *)
From S2P Require Import Prelude PropStore PropTree PropLogic PropWorld PropWf.
From Stdlib Require Import SpecFloat.

Local Open Scope Z_scope.

(** * The view of a client *)

Inductive pview :=
| VVoid
| VDir (cs : list pid)
| VString (s : list Z) (ty : Z)
| VCstring (s : list Z)
| VInt (v : Z)
| VFloat (v : spec_float)
| VUri (title uri : option (list Z)).

Definition view_val (v : pval) : pview :=
  match v with
  | PDir cs _ => VDir cs
  | PRstring s ty => VString s ty
  | PCstring s => VCstring s
  | PInt v _ => VInt v
  | PFloat v _ => VFloat v
  | PUri t u => VUri t u
  | PVoid | PProp _ | PZombie => VVoid
  end.

Definition with_dir (w : pview) (f : list pid -> option (list pid)) : pview :=
  match w with
  | VDir cs => match f cs with Some cs => VDir cs | None => w end
  | _ => w
  end.

(** What an event makes of it. *)
Definition view_event (w : pview) (e : pevent) : pview :=
  match e with
  | SetVoid _ => VVoid
  | SetDir _ => VDir []
  | SetRstring s _ ty => VString s ty
  | SetCstring s _ => VCstring s
  | SetInt v _ => VInt v
  | SetFloat v _ _ => VFloat v
  | SetUri t u _ => VUri t u
  | AddChild c _ => with_dir w (fun cs => Some (cs ++ [c]))
  | AddChildBefore c b => with_dir w (place b c)
  | AddChildVectorDirect l => with_dir w (fun cs => Some (cs ++ l))
  | DelChild c => with_dir w (fun cs => Some (unlink c cs))
  | MoveChild c b => with_dir w (fun cs => place b c (unlink c cs))
  | _ => w
  end.

Definition replay (w : pview) (es : list pevent) : pview := foldl view_event w es.

Lemma replay_app w a b : replay w (a ++ b) = replay (replay w a) b.
Proof. apply foldl_app. Qed.

Definition view_of (A : ptree) (p : option pid) : pview :=
  match p with
  | Some p => match A !! p with Some x => view_val (hp_val x) | None => VVoid end
  | None => VVoid
  end.

(** ** The promise *)

Section mirror.
(** The subscriptions whose own changes are kept from them. *)
Variable K : sid -> Prop.

(** Those that are told everything. *)
Definition watched (s : sid) (y : sub) : Prop :=
  ~ K s /\ sf_ignore_void (hps_flags y) = false /\ sf_no_initial_update (hps_flags y) = false.

Definition mirror (A : ptree) (S : psubs) (E : sid -> list pevent) : Prop :=
  forall s y, S !! s = Some y -> watched s y -> replay VVoid (E s) = view_of A (hps_value_prop y).

(** A change is announced to the subscribers of the property. *)
Lemma mirror_among A S E p x x' g : mirror A S E -> wf_subs A S -> A !! p = Some x ->
  (forall s y, S !! s = Some y -> hps_value_prop y = Some p -> watched s y ->
     replay (view_val (hp_val x)) (g s) = view_val (hp_val x')) ->
  mirror (<[p := x']> A) S (fun s => E s ++ among (hp_value_subscriptions x) g s).
Proof.
  intros H HS Ex Hg s y Hy Hw. rewrite replay_app, (H s y Hy Hw). unfold among.
  assert (s ∈ hp_value_subscriptions x <-> hps_value_prop y = Some p) as Hin.
  { pose proof (s_value _ _ HS p s) as Hv. unfold vsubs in Hv. rewrite Ex in Hv. rewrite Hv. naive_solver. }
  destruct (decide (hps_value_prop y = Some p)) as [Hv|Hv].
  - rewrite decide_True by by apply Hin. rewrite Hv. unfold view_of. rewrite lookup_insert_eq, Ex. by apply (Hg s y).
  - rewrite decide_False by by rewrite Hin. simpl. unfold view_of. destruct (hps_value_prop y) as [q|]; [|done].
    rewrite lookup_insert_ne; [done|congruence].
Qed.

(** Nobody can see the change. *)
Lemma mirror_same A A' S E : mirror A S E -> (forall p, view_of A' (Some p) = view_of A (Some p)) -> mirror A' S E.
Proof. intros H HA s y Hy Hw. rewrite (H s y Hy Hw). destruct (hps_value_prop y) as [p|]; [by rewrite HA|done]. Qed.

Lemma mirror_update A S E p x x' : mirror A S E -> A !! p = Some x -> view_val (hp_val x') = view_val (hp_val x) ->
  mirror (<[p := x']> A) S E.
Proof.
  intros H Ex Hv. apply (mirror_same A); [done|]. intros q. unfold view_of. destruct (decide (p = q)) as [<-|Hne].
  - by rewrite lookup_insert_eq, Ex.
  - by rewrite lookup_insert_ne.
Qed.

Lemma mirror_new A S E p x : mirror A S E -> A !! p = None -> view_val (hp_val x) = VVoid -> mirror (<[p := x]> A) S E.
Proof.
  intros H Ex Hv. apply (mirror_same A); [done|]. intros q. unfold view_of. destruct (decide (p = q)) as [<-|Hne].
  - by rewrite lookup_insert_eq, Ex.
  - by rewrite lookup_insert_ne.
Qed.

Lemma mirror_ext A S E E' : mirror A S E -> (forall s, is_Some (S !! s) -> E s = E' s) -> mirror A S E'.
Proof. intros H HE s y Hy Hw. rewrite <- HE by (by eexists). by apply H. Qed.

(** ** Events and values *)

Lemma view_value w p v how y : simple_val v -> sf_ignore_void (hps_flags y) = false ->
  replay w (value_note y p v how) = match v with PDir _ _ => VDir [] | _ => view_val v end.
Proof. intros Hv Hy. unfold value_note. rewrite Hy. by destruct v. Qed.

End mirror.
