(* ===== verification/PropList.v ===== *)
(** What the helpers that derive lists of properties from lists share
    (prop_concat.c, prop_reorder.c, prop_grouper.c, prop_nodefilter.c,
    prop_window.c): the tags by which they find their own data at a property
    (prop_tags.c), the children of the property they fill, and the events a
    subscription to a directory can be told, with the children it has seen. *)
From S2P Require Import Prelude PropStore PropTree PropMirror.

Local Open Scope Z_scope.

(** * Tags (prop_tags.c) *)

(** [hp_tags] of each property: the newest first.  A key is the address of the
    helper, its number here. *)
Notation tags V := (gmap pid (list (nat * V))).

Section tags.
Context {V : Type}.
Implicit Types (T : tags V) (p : pid) (key : nat).

Definition hp_tags T p : list (nat * V) := default [] (T !! p).

Fixpoint tag_find key (l : list (nat * V)) : option V :=
  match l with [] => None | (k, v) :: l => if decide (k = key) then Some v else tag_find key l end.
Definition prop_tag_get T p key : option V := tag_find key (hp_tags T p).

Definition prop_tag_set p key (v : V) T : tags V := <[p := (key, v) :: hp_tags T p]> T.

Fixpoint tag_remove key (l : list (nat * V)) : option V * list (nat * V) :=
  match l with
  | [] => (None, [])
  | (k, v) :: l =>
      if decide (k = key) then (Some v, l) else let '(r, l) := tag_remove key l in (r, (k, v) :: l)
  end.
Definition prop_tag_clear p key T : option V * tags V :=
  let '(r, l) := tag_remove key (hp_tags T p) in (r, <[p := l]> T).

End tags.

(** * The children of a property *)

(** [prop_move0] for the child [p] of a directory with the children [l];
    nothing happens when [b] is not a child of it, or [p] is not. *)
Definition list_move (p : pid) (b : option pid) (l : list pid) : res (list pid) :=
  if bool_decide (b = Some p) then Fault AssertFailed
  else if match b with Some b => bool_decide (b ∉ l) | None => false end then Ok l
  else
    match after p l with
    | None => Ok l
    | Some n =>
        if bool_decide (n = b) then Ok l
        else match place b p (unlink p l) with Some l => Ok l | None => Fault OobWrite end
    end.

(** [prop_set_parent0]. *)
Definition list_set_parent (p : pid) (b : option pid) (l : list pid) : res (list pid) :=
  if decide (p ∈ l) then list_move p b l
  else
    match place b p l with
    | Some l => Ok l
    | None => Fault AssertFailed
    end.

(** * Computations *)

(** A computation of a helper, on its own state. *)
Definition H (S A : Type) : Type := S -> res (A * S).
#[export] Instance H_ret {S} : MRet (H S) := fun A a x => Ok (a, x).
#[export] Instance H_bind {S} : MBind (H S) := fun A B k m x =>
  match m x with Ok (a, x) => k a x | Fault f => Fault f end.

Section computations.
Context {S : Type}.

Definition fault {A} (f : fault) : H S A := fun _ => Fault f.
Definition passert (b : bool) : H S unit := if b then mret tt else fault AssertFailed.
Definition gets {A} (f : S -> A) : H S A := fun x => Ok (f x, x).
Definition modify (f : S -> S) : H S unit := fun x => Ok (tt, f x).
Definition lift {A} (r : res A) : H S A := fun x => match r with Ok a => Ok (a, x) | Fault f => Fault f end.
Definition not_null {A} (o : option A) : H S A := match o with Some a => mret a | None => fault NullDeref end.
Fixpoint for_each {A} (l : list A) (f : A -> H S unit) : H S unit :=
  match l with [] => mret tt | a :: l => _ ← f a; for_each l f end.

Lemma h_bind {A B} (m : H S A) (k : A -> H S B) v x x' : m x = Ok (v, x') -> (m ≫= k) x = k v x'.
Proof. intros E. unfold mbind, H_bind. by rewrite E. Qed.
End computations.

(** * Events *)

(** The children that a view has. *)
Definition kids_of (w : pview) : list pid := match w with VDir cs => cs | _ => [] end.

Definition is_view_dir (w : pview) : Prop := match w with VDir _ => True | _ => False end.

(** The events on children that a subscription with the view [w] can be told. *)
Definition told_kids (w : pview) (e : pevent) : Prop :=
  match e with
  | AddChild c _ => is_view_dir w /\ c ∉ kids_of w
  | AddChildBefore c b =>
      is_view_dir w /\ match b with Some b => b ∈ kids_of w | None => False end /\ c ∉ kids_of w
  | AddChildVectorDirect l => is_view_dir w /\ NoDup (kids_of w ++ l)
  | DelChild c => c ∈ kids_of w
  | MoveChild c b => c ∈ kids_of w /\ match b with Some b => b ∈ kids_of w /\ b <> c | None => True end
  | SetDir _ => kids_of w = []
  | SetVoid _ | HaveMoreChilds _ | WantMoreChilds => True
  | _ => False
  end.

#[export] Instance is_view_dir_dec w : Decision (is_view_dir w).
Proof. destruct w; apply _. Defined.
#[export] Instance told_kids_dec w e : Decision (told_kids w e).
Proof. destruct e as [| | | | | | | |? ?|? []| | |? []| | | | | | | |]; cbn [told_kids]; apply _. Defined.

(** * Lemmas *)

Lemma view_dir w : is_view_dir w -> w = VDir (kids_of w).
Proof. by destruct w. Qed.

Section tag_lemmas.
Context {V : Type}.
Implicit Types (T : tags V) (p q : pid) (key k : nat).

Lemma tag_get_set p key v T : prop_tag_get (prop_tag_set p key v T) p key = Some v.
Proof. unfold prop_tag_get, prop_tag_set, hp_tags. rewrite lookup_insert_eq. cbn. by rewrite decide_True. Qed.

Lemma tag_get_set_ne p key v T q k : q <> p \/ k <> key ->
  prop_tag_get (prop_tag_set p key v T) q k = prop_tag_get T q k.
Proof.
  intros H. unfold prop_tag_get, prop_tag_set, hp_tags. destruct (decide (q = p)) as [->|Hne].
  - rewrite lookup_insert_eq. cbn. destruct H as [H|H]; [done|]. by rewrite decide_False.
  - by rewrite lookup_insert_ne.
Qed.

Lemma tag_remove_find key l : (tag_remove (V:=V) key l).1 = tag_find key l.
Proof. induction l as [|[k v] l IH]; cbn; [done|]. destruct (decide (k = key)); [done|]. by destruct (tag_remove key l). Qed.

Lemma tag_remove_other key k l : k <> key -> tag_find k (tag_remove (V:=V) key l).2 = tag_find k l.
Proof.
  intros H. induction l as [|[k' v] l IH]; cbn; [done|]. destruct (decide (k' = key)) as [->|]; cbn.
  - by rewrite decide_False.
  - destruct (tag_remove key l) as [r l'] eqn:E. cbn in *. by rewrite IH.
Qed.

Lemma tag_clear_get p key T : (prop_tag_clear p key T).1 = prop_tag_get T p key.
Proof. unfold prop_tag_clear, prop_tag_get. rewrite <- tag_remove_find. by destruct (tag_remove key (hp_tags T p)). Qed.

Lemma tag_clear_ne p key T q k : q <> p \/ k <> key ->
  prop_tag_get (prop_tag_clear p key T).2 q k = prop_tag_get T q k.
Proof.
  intros H. unfold prop_tag_get, prop_tag_clear. pose proof (tag_remove_other key k (hp_tags T p)) as Ho.
  destruct (tag_remove key (hp_tags T p)) as [r l]. cbn [snd] in *. destruct (decide (q = p)) as [->|Hne].
  - destruct H as [H|H]; [done|]. rewrite <- Ho by done. unfold hp_tags. by rewrite lookup_insert_eq.
  - unfold hp_tags. by rewrite lookup_insert_ne.
Qed.

End tag_lemmas.

Lemma unlink_notin c l : c ∉ l -> unlink c l = l.
Proof.
  induction l as [|d l IH]; intros H; [done|]. apply not_elem_of_cons in H as [H1 H2]. unfold unlink in *.
  rewrite filter_cons_True by congruence. by rewrite IH.
Qed.

Lemma unlink_app2 c l r : unlink c (l ++ r) = unlink c l ++ unlink c r.
Proof. apply filter_app. Qed.

Lemma unlink_mid c l r : c ∉ l -> c ∉ r -> unlink c (l ++ c :: r) = l ++ r.
Proof.
  intros H1 H2. rewrite unlink_app2, (unlink_notin c l) by done. unfold unlink at 1.
  rewrite filter_cons_False by naive_solver. f_equal. by apply (unlink_notin c r).
Qed.

Lemma elem_unlink x c l : x ∈ unlink c l <-> x ∈ l /\ x <> c.
Proof. unfold unlink. rewrite list_elem_of_filter. naive_solver. Qed.

Lemma NoDup_unlink c l : NoDup l -> NoDup (unlink c l).
Proof. apply NoDup_filter. Qed.

(** A child is inserted before the first element of what follows. *)
Lemma place_head c l r : (forall b, head r = Some b -> b ∉ l) -> place (head r) c (l ++ r) = Some (l ++ c :: r).
Proof.
  destruct r as [|b r]; cbn; intros H.
  - unfold insert_tail. by rewrite app_nil_r.
  - specialize (H b eq_refl). induction l as [|d l IH]; cbn; [by rewrite decide_True|].
    apply not_elem_of_cons in H as [H1 H2]. rewrite decide_False by congruence. by rewrite IH.
Qed.

Lemma place_before c b l r : b ∉ l -> place (Some b) c (l ++ b :: r) = Some (l ++ c :: b :: r).
Proof. intros H. apply (place_head c l (b :: r)). by intros ? [= <-]. Qed.

Lemma place_perm' b c l l' : place b c l = Some l' -> l' ≡ₚ c :: l.
Proof.
  destruct b as [b|]; cbn.
  - revert l'. induction l as [|d l IH]; cbn; intros l' H; [done|]. destruct (decide (d = b)); [by injection H as <-|].
    apply bind_Some in H as (l2 & H & [= <-]). rewrite (IH _ H). apply perm_swap.
  - intros [= <-]. by rewrite Permutation_app_comm.
Qed.

Lemma place_Some_in b c l l' : place (Some b) c l = Some l' -> b ∈ l.
Proof.
  revert l'. induction l as [|d l IH]; cbn; intros l' H; [done|]. destruct (decide (d = b)) as [->|].
  - apply list_elem_of_here.
  - apply bind_Some in H as (l2 & H & _). apply list_elem_of_further. by eapply IH.
Qed.

Lemma place_some b c l : b ∈ l -> exists l', place (Some b) c l = Some l'.
Proof.
  intros Hb. apply list_elem_of_split_l in Hb as (l1 & l2 & -> & Hn). exists (l1 ++ c :: b :: l2). by apply place_before.
Qed.

Lemma perm_unlink c l : c ∈ l -> NoDup l -> l ≡ₚ c :: unlink c l.
Proof.
  intros Hc Hd. apply list_elem_of_split in Hc as (l1 & l2 & ->). apply NoDup_app in Hd as (_ & N1 & [N2 _]%NoDup_cons).
  rewrite unlink_mid; [by rewrite <- Permutation_middle| |done]. intros H. apply (N1 c H), list_elem_of_here.
Qed.

Lemma after_notin c l : c ∉ l -> after c l = None.
Proof.
  induction l as [|d l IH]; intros H; cbn; [done|]. apply not_elem_of_cons in H as [H1 H2].
  by rewrite decide_False, IH by congruence.
Qed.

Lemma after_mid c l r : c ∉ l -> after c (l ++ c :: r) = Some (head r).
Proof.
  induction l as [|d l IH]; intros H; cbn; [by rewrite decide_True|]. apply not_elem_of_cons in H as [H1 H2].
  rewrite decide_False by congruence. by apply IH.
Qed.

Lemma list_set_parent_head c l r : c ∉ l ++ r -> (forall b, head r = Some b -> b ∉ l) ->
  list_set_parent c (head r) (l ++ r) = Ok (l ++ c :: r).
Proof. intros H1 H2. unfold list_set_parent. rewrite decide_False by done. by rewrite place_head. Qed.

Lemma NoDup_split_unique {A} (b : A) l r l' r' : NoDup (l ++ b :: r) -> l ++ b :: r = l' ++ b :: r' -> l = l' /\ r = r'.
Proof.
  revert l'. induction l as [|d l IH]; intros [|d' l'] H E; cbn in *.
  - by injection E as ->.
  - injection E as -> E. apply NoDup_cons in H as [H _]. set_solver.
  - injection E as -> E. apply NoDup_cons in H as [H _]. set_solver.
  - injection E as -> E. apply NoDup_cons in H as [_ H]. by destruct (IH _ H E) as [-> ->].
Qed.

(** A child is moved before the first element of what is to follow it. *)
Lemma list_move_to c l r P Q : NoDup (l ++ c :: r) -> l ++ r = P ++ Q ->
  list_move c (head Q) (l ++ c :: r) = Ok (P ++ c :: Q).
Proof.
  intros Hnd E. assert (NoDup (P ++ Q)) as HPQ.
  { rewrite <- E. apply NoDup_app in Hnd as (N1 & N2 & [N3 N4]%NoDup_cons). apply NoDup_app. split; [done|split; [|done]]. set_solver. }
  assert ((c ∉ l) /\ (c ∉ r)) as [Hl Hr].
  { apply NoDup_app in Hnd as (_ & N2 & [N3 _]%NoDup_cons). split; [|done]. intros H. apply (N2 _ H), list_elem_of_here. }
  assert (forall b, head Q = Some b -> (b ∈ l ++ r) /\ (b ∉ P)) as Hb.
  { intros b Hb. destruct Q; [done|]. injection Hb as ->. split; [rewrite E; set_solver|].
    apply NoDup_app in HPQ as (_ & N2 & _). intros H. apply (N2 _ H), list_elem_of_here. }
  unfold list_move. rewrite bool_decide_false.
  2: { intros H. destruct (Hb _ H) as [H1 _]. set_solver. }
  assert (match head Q with Some b => bool_decide (b ∉ l ++ c :: r) | None => false end = false) as ->.
  { destruct (head Q) as [b|]; [|done]. destruct (Hb b eq_refl) as [H1 _]. apply bool_decide_false. set_solver. }
  rewrite after_mid by done. case_bool_decide as Hh.
  - f_equal. destruct r as [|b r], Q as [|b' Q]; try discriminate; cbn in *.
    + rewrite !app_nil_r in E. by subst.
    + injection Hh as <-. destruct (NoDup_split_unique b P Q l r) as [-> ->]; [done..|].  done.
  - rewrite unlink_mid, E by done. rewrite place_head; [done|]. intros b H. by destruct (Hb b H).
Qed.

(** A part of a list without duplicates that has all of its elements. *)
Lemma sublist_same {A} (l k : list A) : sublist l k -> NoDup k -> (forall a, a ∈ k -> a ∈ l) -> l = k.
Proof.
  induction 1 as [|a l k H IH|a l k H IH]; intros Hd Hin; [done|..]; apply NoDup_cons in Hd as [Ha Hd].
  - f_equal. apply IH; [done|]. intros b Hb. specialize (Hin b (list_elem_of_further _ _ _ Hb)). apply elem_of_cons in Hin as [->|?]; done.
  - exfalso. apply Ha. eapply sublist_subseteq; [exact H|]. apply Hin, list_elem_of_here.
Qed.
