(* ===== verification/PropConcat.v ===== *)
(** The concatenation of lists (prop_concat.c): a property that shows the
    children of several others, those of one source after those of the one
    before, each with a header while it has any. *)
From S2P Require Import Prelude PropStore PropTree PropMirror PropList.

Local Open Scope Z_scope.

(** * Data *)

(** [prop_concat_source_t]; [pcs_id] is its address, by which tags are found. *)
Record source := Source {
  pcs_id : nat;
  pcs_first : option pid;
  pcs_header : option pid;
  pcs_count : Z;
  pcs_index : Z
}.

(** [prop_concat_t], with what it changes of the tree: the children of
    [pc_dst], the tags of properties, the properties it has made (their
    addresses count up from [pc_next]) with their originators, and the calls of
    [prop_req_move0], by the source that asks. *)
Record concat := Concat {
  pc_queue : list source;
  pc_dst : list pid;
  pc_index_tally : Z;
  pc_sources : nat;
  pc_tags : tags pid;
  pc_links : gmap pid pid;
  pc_next : nat;
  pc_reqs : list (nat * pid * option pid)
}.

Definition set_queue q pc := Concat q (pc_dst pc) (pc_index_tally pc) (pc_sources pc) (pc_tags pc) (pc_links pc) (pc_next pc) (pc_reqs pc).
Definition set_dst d pc := Concat (pc_queue pc) d (pc_index_tally pc) (pc_sources pc) (pc_tags pc) (pc_links pc) (pc_next pc) (pc_reqs pc).
Definition set_tags t pc := Concat (pc_queue pc) (pc_dst pc) (pc_index_tally pc) (pc_sources pc) t (pc_links pc) (pc_next pc) (pc_reqs pc).
Definition set_links l pc := Concat (pc_queue pc) (pc_dst pc) (pc_index_tally pc) (pc_sources pc) (pc_tags pc) l (pc_next pc) (pc_reqs pc).
Definition set_next n pc := Concat (pc_queue pc) (pc_dst pc) (pc_index_tally pc) (pc_sources pc) (pc_tags pc) (pc_links pc) n (pc_reqs pc).
Definition add_req r pc := Concat (pc_queue pc) (pc_dst pc) (pc_index_tally pc) (pc_sources pc) (pc_tags pc) (pc_links pc) (pc_next pc) (pc_reqs pc ++ [r]).
Definition set_tally n m pc := Concat (pc_queue pc) (pc_dst pc) n m (pc_tags pc) (pc_links pc) (pc_next pc) (pc_reqs pc).

(** * Computations on it *)

Notation C := (H concat).

(** A change of the children of [pc_dst]. *)
Definition on_dst (f : list pid -> res (list pid)) : C unit :=
  d ← gets pc_dst; d ← lift (f d); modify (set_dst d).

Definition get_source (i : nat) : C source :=
  q ← gets pc_queue;
  match List.find (fun s => bool_decide (pcs_id s = i)) q with Some s => mret s | None => fault UseAfterFree end.
Definition upd_source (i : nat) (f : source -> source) : C unit :=
  q ← gets pc_queue;
  modify (set_queue (map (fun s => if decide (pcs_id s = i) then f s else s) q)).
Definition set_first f s := Source (pcs_id s) f (pcs_header s) (pcs_count s) (pcs_index s).
Definition set_count n s := Source (pcs_id s) (pcs_first s) (pcs_header s) n (pcs_index s).
Definition set_index n s := Source (pcs_id s) (pcs_first s) (pcs_header s) (pcs_count s) n.

(** * Sources *)

Fixpoint next_out (q : list source) : option pid :=
  match q with
  | [] => None
  | s :: q => match pcs_first s with Some f => Some (default f (pcs_header s)) | None => next_out q end
  end.
Fixpoint sources_after (i : nat) (q : list source) : list source :=
  match q with [] => [] | s :: q => if decide (pcs_id s = i) then q else sources_after i q end.
Definition find_next_out (i : nat) : C (option pid) := q ← gets pc_queue; mret (next_out (sources_after i q)).

Definition pcs_destroy (i : nat) : C unit :=
  s ← get_source i;
  _ ← passert (pcs_count s =? 0);
  _ ← passert (bool_decide (pcs_first s = None));
  q ← gets pc_queue;
  _ ← modify (set_queue (filter (fun s => pcs_id s <> i) q));
  match pcs_header s with Some h => on_dst (fun d => Ok (unlink h d)) | None => mret tt end.

(** [prop_make], the tags and [prop_link0]. *)
Definition make_out (i : nat) (p : pid) : C pid :=
  out ← gets pc_next;
  _ ← modify (set_next (S out));
  T ← gets pc_tags;
  _ ← modify (set_tags (prop_tag_set out i p (prop_tag_set p i out T)));
  L ← gets pc_links;
  _ ← modify (set_links (<[out := p]> L));
  mret out.

Definition add_child (i : nat) (p : pid) : C unit :=
  out ← make_out i p;
  before ← find_next_out i;
  _ ← on_dst (list_set_parent out before);
  s ← get_source i;
  _ ← (if pcs_count s =? 0 then
         _ ← upd_source i (set_first (Some out));
         match pcs_header s with Some h => on_dst (list_set_parent h (Some out)) | None => mret tt end
       else mret tt);
  n ← lift (chk_int (pcs_count s + 1));
  upd_source i (set_count n).

Fixpoint add_children (i : nat) (ps : list pid) : C unit :=
  match ps with [] => mret tt | p :: ps => _ ← add_child i p; add_children i ps end.

Definition add_child_before (i : nat) (p : pid) (q : option pid) : C unit :=
  out ← make_out i p;
  q ← not_null q;
  T ← gets pc_tags;
  match prop_tag_get T q i with
  | None => fault AssertFailed
  | Some before =>
      _ ← on_dst (list_set_parent out (Some before));
      s ← get_source i;
      n ← lift (chk_int (pcs_count s + 1));
      upd_source i (set_count n)
  end.

Definition clear_tag (p : pid) (i : nat) : C (option pid) :=
  T ← gets pc_tags;
  let '(r, T) := prop_tag_clear p i T in
  _ ← modify (set_tags T); mret r.

Definition del_child (i : nat) (p : pid) : C unit :=
  out ← clear_tag p i;
  out ← not_null out;
  _ ← clear_tag out i;
  d ← gets pc_dst;
  match after out d with
  | None => fault UseAfterFree
  | Some before =>
      _ ← on_dst (fun d => Ok (unlink out d));
      L ← gets pc_links;
      _ ← modify (set_links (delete out L));
      s ← get_source i;
      n ← lift (chk_int (pcs_count s - 1));
      _ ← upd_source i (set_count n);
      if n =? 0 then
        _ ← upd_source i (set_first None);
        match pcs_header s with Some h => on_dst (fun d => Ok (unlink h d)) | None => mret tt end
      else if bool_decide (pcs_first s = Some out) then upd_source i (set_first before)
      else mret tt
  end.

Definition move_child (i : nat) (p : pid) (q : option pid) : C unit :=
  T ← gets pc_tags;
  out ← not_null (prop_tag_get T p i);
  before ← match q with Some q => mret (prop_tag_get T q i) | None => find_next_out i end;
  on_dst (list_move out before).

Definition src_cb (i : nat) (e : pevent) : C unit :=
  match e with
  | AddChild p _ => add_child i p
  | AddChildBefore p q => add_child_before i p q
  | AddChildVectorDirect ps => add_children i ps
  | DelChild p => del_child i p
  | MoveChild p q => move_child i p q
  | SetVoid _ | SetDir _ | HaveMoreChilds _ | WantMoreChilds => mret tt
  | Destroyed => pcs_destroy i
  | _ => fault AssertFailed
  end.

(** * Requests for moves *)

(** The loop over [bs]: the source [b] belongs to, and the child it shows. *)
Fixpoint find_before (T : tags pid) (b : pid) (prev : option source) (q : list source) : option source * option pid :=
  match q with
  | [] => (None, None)
  | bs :: q =>
      if bool_decide (pcs_header bs = Some b) then (prev, None)
      else
        match prop_tag_get T b (pcs_id bs) with
        | Some bb => (Some bs, Some bb)
        | None => find_before T b (Some bs) q
        end
  end.

Section requests.
(** The children of the parent of a property. *)
Variable siblings : pid -> list pid.

Fixpoint req_move_from (q : list source) (p : pid) (b : option pid) : C unit :=
  match q with
  | [] => mret tt
  | ps :: q =>
      T ← gets pc_tags;
      match prop_tag_get T p (pcs_id ps) with
      | None => req_move_from q p b
      | Some pp =>
          match b with
          | None => modify (add_req (pcs_id ps, pp, None))
          | Some b =>
              queue ← gets pc_queue;
              let '(bs, bb) := find_before T b None queue in
              match bs with
              | None => modify (add_req (pcs_id ps, pp, head (siblings pp)))
              | Some bs =>
                  if pcs_index bs <? pcs_index ps then modify (add_req (pcs_id ps, pp, head (siblings pp)))
                  else if pcs_index ps <? pcs_index bs then modify (add_req (pcs_id ps, pp, None))
                  else modify (add_req (pcs_id ps, pp, bb))
              end
          end
      end
  end.
Definition req_move (p : pid) (b : option pid) : C unit := q ← gets pc_queue; req_move_from q p b.

Definition dst_cb (e : pevent) : C unit :=
  match e with ReqMoveChild p b => req_move p b | _ => mret tt end.
End requests.

(** * Life *)

(** [prop_subscribe] tells the source as it is before it returns. *)
Fixpoint src_events (i : nat) (es : list pevent) : C unit :=
  match es with [] => mret tt | e :: es => _ ← src_cb i e; src_events i es end.

Definition prop_concat_add_source (header : option pid) (initial : list pevent) : C nat :=
  i ← gets pc_sources;
  q ← gets pc_queue;
  _ ← modify (set_queue (q ++ [Source i None header 0 0]));
  tally ← gets pc_index_tally;
  _ ← modify (set_tally tally (S i));
  _ ← src_events i initial;
  tally ← gets pc_index_tally;
  _ ← upd_source i (set_index tally);
  tally' ← lift (chk_int (tally + 1));
  m ← gets pc_sources;
  _ ← modify (set_tally tally' m);
  mret i.

Definition prop_concat_create (next : nat) : concat := Concat [] [] 0 O ∅ ∅ next [].

(** * What is shown *)

(** A source as the concatenation sees it: its children, each with the property
    that stands for it. *)
Record part := Part {
  pt_id : nat;
  pt_header : option pid;
  pt_index : Z;
  pt_kids : list (pid * pid)
}.

Definition header_of (a : part) : list pid := option_list (pt_header a).
Definition ins (a : part) : list pid := map fst (pt_kids a).
Definition outs (a : part) : list pid := map snd (pt_kids a).
Definition shown (a : part) : list pid := match pt_kids a with [] => [] | _ => header_of a ++ outs a end.
Definition source_of (a : part) : source :=
  Source (pt_id a) (head (outs a)) (pt_header a) (Z.of_nat (length (pt_kids a))) (pt_index a).
Definition with_kids (ks : list (pid * pid)) (a : part) : part := Part (pt_id a) (pt_header a) (pt_index a) ks.

(** The properties made by the concatenation have the addresses from [base]. *)
Record tagged (base : nat) (T : tags pid) (L : gmap pid pid) (next : nat) (a : part) : Prop := {
  tg_in : forall c o, (c, o) ∈ pt_kids a -> prop_tag_get T c (pt_id a) = Some o;
  tg_out : forall c o, (c, o) ∈ pt_kids a -> prop_tag_get T o (pt_id a) = Some c;
  tg_link : forall c o, (c, o) ∈ pt_kids a -> L !! o = Some c;
  tg_low : forall c o, (c, o) ∈ pt_kids a -> (c < base)%nat;
  tg_high : forall c o, (c, o) ∈ pt_kids a -> (base <= o < next)%nat;
  tg_header : forall h, pt_header a = Some h -> (h < base)%nat
}.

Record repr (base : nat) (ps : list part) (pc : concat) : Prop := {
  rp_queue : pc_queue pc = map source_of ps;
  rp_dst : pc_dst pc = mjoin (map shown ps);
  rp_tags : forall a, a ∈ ps -> tagged base (pc_tags pc) (pc_links pc) (pc_next pc) a;
  rp_outs : NoDup (mjoin (map outs ps));
  rp_headers : NoDup (mjoin (map header_of ps));
  rp_ids : NoDup (map pt_id ps);
  rp_next : (base <= pc_next pc)%nat;
  rp_links : forall o c, pc_links pc !! o = Some c -> (base <= o)%nat
}.

(** * Lemmas *)

Lemma shown_sub x a : x ∈ shown a -> x ∈ header_of a \/ x ∈ outs a.
Proof. unfold shown. destruct (pt_kids a); [by intros ?%elem_of_nil|]. by rewrite elem_of_app. Qed.

Lemma elem_shown x ps : x ∈ mjoin (map shown ps) -> exists a, a ∈ ps /\ (x ∈ header_of a \/ x ∈ outs a).
Proof.
  intros (l & Hx & Hl)%list_elem_of_join. apply list_elem_of_In, in_map_iff in Hl as (a & <- & Ha).
  exists a. split; [by apply list_elem_of_In|]. by apply shown_sub.
Qed.

Lemma elem_outs x a : x ∈ outs a <-> exists c, (c, x) ∈ pt_kids a.
Proof.
  unfold outs. rewrite list_elem_of_fmap. split.
  - intros ([c o] & -> & H). by exists c.
  - intros [c H]. by exists (c, x).
Qed.

Lemma elem_header x a : x ∈ header_of a <-> pt_header a = Some x.
Proof. unfold header_of. destruct (pt_header a); cbn; rewrite ?list_elem_of_singleton; [naive_solver|]. split; [by intros ?%elem_of_nil|done]. Qed.

Lemma next_out_shown ps : next_out (map source_of ps) = head (mjoin (map shown ps)).
Proof.
  induction ps as [|a ps IH]; cbn; [done|]. unfold shown, outs, header_of. destruct (pt_kids a) as [|[c o] ks]; cbn; [done|].
  by destruct (pt_header a).
Qed.

(** A source in the queue, of which the others are known. *)
Section middle.
Context (l1 l2 : list part) (i : nat) (s : source).
Hypotheses (Hs : pcs_id s = i) (H1 : i ∉ map pt_id l1) (H2 : i ∉ map pt_id l2).

Lemma sources_after_mid : sources_after i (map source_of l1 ++ s :: map source_of l2) = map source_of l2.
Proof.
  clear H2. induction l1 as [|b l IH]; cbn in *; [by rewrite decide_True|]. apply not_elem_of_cons in H1 as [Hb Hl].
  rewrite decide_False by done. by apply IH.
Qed.

Lemma find_source :
  List.find (fun s => bool_decide (pcs_id s = i)) (map source_of l1 ++ s :: map source_of l2) = Some s.
Proof.
  clear H2. induction l1 as [|b l IH]; cbn in *; [by rewrite bool_decide_true|]. apply not_elem_of_cons in H1 as [Hb Hl].
  rewrite bool_decide_false by done. by apply IH.
Qed.

Lemma upd_source_map f :
  map (fun s => if decide (pcs_id s = i) then f s else s) (map source_of l1 ++ s :: map source_of l2) =
  map source_of l1 ++ f s :: map source_of l2.
Proof.
  assert (forall l, i ∉ map pt_id l ->
    map (fun s => if decide (pcs_id s = i) then f s else s) (map source_of l) = map source_of l) as Hne.
  { induction l as [|b l IH]; cbn; [done|]. intros [Hb Hl]%not_elem_of_cons. by rewrite decide_False, IH. }
  rewrite map_app. cbn. rewrite decide_True by done. by rewrite !Hne.
Qed.

Lemma filter_source : filter (fun s => pcs_id s <> i) (map source_of l1 ++ s :: map source_of l2) =
  map source_of (l1 ++ l2).
Proof.
  assert (forall l, i ∉ map pt_id l -> filter (fun s => pcs_id s <> i) (map source_of l) = map source_of l) as Hne.
  { induction l as [|b l IH]; [done|]. cbn [map]. intros [Hb Hl]%not_elem_of_cons. rewrite filter_cons_True by (cbn; congruence). by rewrite IH. }
  rewrite filter_app, filter_cons_False by (intros Hn; by apply Hn). by rewrite !Hne, map_app.
Qed.

End middle.

Section steps.
Context (base : nat) (l1 l2 : list part) (a : part).
Implicit Types (pc : concat) (ks P Q : list (pid * pid)).

Let before_a := mjoin (map shown l1).
Let behind_a := mjoin (map shown l2).

Lemma repr_dst pc : repr base (l1 ++ a :: l2) pc -> pc_dst pc = before_a ++ shown a ++ behind_a.
Proof. intros H. rewrite (rp_dst _ _ _ H), map_app, join_app. cbn. done. Qed.

Lemma mjoin_mid {B} (f : part -> list B) b :
  mjoin (map f (l1 ++ b :: l2)) = mjoin (map f l1) ++ f b ++ mjoin (map f l2).
Proof. rewrite map_app, join_app. done. Qed.

(** What the tags and links of the other sources need. *)
Lemma tagged_other T T' L L' n n' b :
  tagged base T L n b -> (n <= n')%nat ->
  (forall p, prop_tag_get T' p (pt_id b) = prop_tag_get T p (pt_id b)) ->
  (forall o, o ∈ outs b -> L' !! o = L !! o) -> tagged base T' L' n' b.
Proof.
  intros [H1 H2 H3 H4 H5 H6] Hn HT HL. split; [..|done].
  - intros c o H. rewrite HT. by eapply H1.
  - intros c o H. rewrite HT. by eapply H2.
  - intros c o H. rewrite HL; [by eapply H3|]. apply elem_outs. by exists c.
  - intros c o H. by eapply H4.
  - intros c o H. specialize (H5 c o H). lia.
Qed.

Lemma other_id b : NoDup (map pt_id (l1 ++ a :: l2)) -> b ∈ l1 \/ b ∈ l2 -> pt_id b <> pt_id a.
Proof.
  rewrite map_app. cbn. intros (H1 & H2 & [H3 H4]%NoDup_cons)%NoDup_app [Hb|Hb] E.
  - apply (H2 (pt_id a)); [|apply list_elem_of_here]. rewrite <- E. by apply list_elem_of_fmap_2.
  - apply H3. rewrite <- E. by apply list_elem_of_fmap_2.
Qed.

(** A fresh property is in no list. *)
Lemma fresh_out pc b : repr base (l1 ++ a :: l2) pc -> b ∈ l1 ++ a :: l2 -> (pc_next pc ∉ outs b) /\ (pc_next pc ∉ header_of b).
Proof.
  intros H Hb. pose proof (rp_tags _ _ _ H b Hb) as Ht. split.
  - intros [c Hc]%elem_outs. pose proof (tg_high _ _ _ _ _ Ht _ _ Hc). lia.
  - intros Hh%elem_header. pose proof (tg_header _ _ _ _ _ Ht _ Hh). pose proof (rp_next _ _ _ H). lia.
Qed.

Lemma fresh_dst pc : repr base (l1 ++ a :: l2) pc -> pc_next pc ∉ before_a ++ shown a ++ behind_a.
Proof.
  intros H Hin. rewrite <- (repr_dst _ H), (rp_dst _ _ _ H) in Hin. apply elem_shown in Hin as (b & Hb & Hx).
  destruct (fresh_out pc b H Hb) as [H1 H2]. tauto.
Qed.

Lemma fresh_outs pc : repr base (l1 ++ a :: l2) pc -> pc_next pc ∉ mjoin (map outs (l1 ++ a :: l2)).
Proof.
  intros H (l & Hx & Hl)%list_elem_of_join. apply list_elem_of_In, in_map_iff in Hl as (b & <- & Hb).
  apply list_elem_of_In in Hb. by destruct (fresh_out pc b H Hb).
Qed.

(** Everything the concatenation can show at once is different. *)
Lemma whole_NoDup pc : repr base (l1 ++ a :: l2) pc -> NoDup (before_a ++ (header_of a ++ outs a) ++ behind_a).
Proof.
  intros H. assert (forall ps, (forall b, b ∈ ps -> tagged base (pc_tags pc) (pc_links pc) (pc_next pc) b) ->
    NoDup (mjoin (map outs ps)) -> NoDup (mjoin (map header_of ps)) ->
    NoDup (mjoin (map (fun b => header_of b ++ outs b) ps))) as Hall.
  { clear H. induction ps as [|b ps IH]; intros Ht Ho Hh; cbn in *; [constructor|].
    apply NoDup_app in Ho as (O1 & O2 & O3). apply NoDup_app in Hh as (H1 & H2 & H3).
    assert (forall b x, tagged base (pc_tags pc) (pc_links pc) (pc_next pc) b -> x ∈ outs b -> (base <= x)%nat) as Hup.
    { intros b' x Hb [c Hc]%elem_outs. pose proof (tg_high _ _ _ _ _ Hb _ _ Hc). lia. }
    assert (forall b x, tagged base (pc_tags pc) (pc_links pc) (pc_next pc) b -> x ∈ header_of b -> (x < base)%nat) as Hlow.
    { intros b' x Hb Hc%elem_header. by apply (tg_header _ _ _ _ _ Hb). }
    assert (tagged base (pc_tags pc) (pc_links pc) (pc_next pc) b) as Hb by (apply Ht; apply list_elem_of_here).
    apply NoDup_app. split; [|split].
    - apply NoDup_app. split; [done|split; [|done]]. intros x Hx Hx'. specialize (Hup b x Hb Hx'). specialize (Hlow b x Hb Hx). lia.
    - intros x Hx (l & Hxl & Hl)%list_elem_of_join. apply list_elem_of_In, in_map_iff in Hl as (d & <- & Hd%list_elem_of_In).
      assert (tagged base (pc_tags pc) (pc_links pc) (pc_next pc) d) as Htd by (apply Ht; by apply list_elem_of_further).
      apply elem_of_app in Hx as [Hx|Hx], Hxl as [Hxl|Hxl].
      + apply (H2 _ Hx), list_elem_of_join. exists (header_of d). split; [done|]. by apply list_elem_of_fmap_2.
      + specialize (Hup d x Htd Hxl). specialize (Hlow b x Hb Hx). lia.
      + specialize (Hup b x Hb Hx). specialize (Hlow d x Htd Hxl). lia.
      + apply (O2 _ Hx), list_elem_of_join. exists (outs d). split; [done|]. by apply list_elem_of_fmap_2.
    - apply IH; [|done..]. intros d Hd. apply Ht. by apply list_elem_of_further. }
  specialize (Hall _ (rp_tags _ _ _ H) (rp_outs _ _ _ H) (rp_headers _ _ _ H)). rewrite mjoin_mid in Hall. cbn in Hall.
  assert (forall ps, sublist (mjoin (map shown ps)) (mjoin (map (fun b => header_of b ++ outs b) ps))) as Hsub.
  { induction ps as [|b ps IH]; cbn; [constructor|]. apply sublist_app; [|done]. unfold shown.
    destruct (pt_kids b) eqn:E; [apply sublist_nil_l|done]. }
  eapply sublist_NoDup; [exact Hall|]. apply sublist_app; [apply Hsub|]. apply sublist_app; [done|apply Hsub].
Qed.

Lemma repr_ids pc : repr base (l1 ++ a :: l2) pc -> NoDup (map pt_id (l1 ++ a :: l2)).
Proof. apply rp_ids. Qed.

Lemma ids_with_kids ks : map pt_id (l1 ++ with_kids ks a :: l2) = map pt_id (l1 ++ a :: l2).
Proof. by rewrite !map_app. Qed.

Lemma in_mid b ks : b ∈ l1 ++ with_kids ks a :: l2 -> b = with_kids ks a \/ b ∈ l1 \/ b ∈ l2.
Proof. rewrite elem_of_app, elem_of_cons. tauto. Qed.

Lemma in_others b : b ∈ l1 \/ b ∈ l2 -> b ∈ l1 ++ a :: l2.
Proof. rewrite elem_of_app, elem_of_cons. tauto. Qed.

(** The source has a new child with its property. *)
Lemma repr_insert pc pc' c P Q : repr base (l1 ++ a :: l2) pc -> pt_kids a = P ++ Q -> (c < base)%nat -> c ∉ ins a ->
  pc_queue pc' = map source_of (l1 ++ with_kids (P ++ (c, pc_next pc) :: Q) a :: l2) ->
  pc_dst pc' = mjoin (map shown (l1 ++ with_kids (P ++ (c, pc_next pc) :: Q) a :: l2)) ->
  pc_tags pc' = prop_tag_set (pc_next pc) (pt_id a) c (prop_tag_set c (pt_id a) (pc_next pc) (pc_tags pc)) ->
  pc_links pc' = <[pc_next pc := c]> (pc_links pc) -> pc_next pc' = S (pc_next pc) ->
  repr base (l1 ++ with_kids (P ++ (c, pc_next pc) :: Q) a :: l2) pc'.
Proof.
  intros H Hk Hc Hca Hq Hd HT HL Hn. pose proof (rp_next _ _ _ H) as Hbase.
  split; [done|done|..].
  - intros b Hb. apply in_mid in Hb as [->|Hb].
    + pose proof (rp_tags _ _ _ H a ltac:(set_solver)) as Ht. rewrite HT, HL, Hn.
      assert (forall c' o', (c', o') ∈ P ++ (c, pc_next pc) :: Q -> (c' = c /\ o' = pc_next pc) \/ ((c', o') ∈ pt_kids a /\ c' <> c)) as Hold.
      { intros c' o'. rewrite Hk, !elem_of_app, elem_of_cons. intros Hin.
        destruct (decide (c' = c /\ o' = pc_next pc)) as [|Hne]; [by left|right].
        assert ((c', o') ∈ pt_kids a) as Hin' by (rewrite Hk, elem_of_app; naive_solver).
        split; [rewrite Hk, elem_of_app in Hin'; done|]. intros ->. apply Hca. unfold ins.
        change c with ((c, o').1). by apply list_elem_of_fmap_2. }
      split; cbn [pt_kids with_kids pt_id pt_header].
      * intros c' o' [[-> ->]|[Hin Hne]]%Hold.
        -- rewrite tag_get_set_ne by (left; lia). apply tag_get_set.
        -- pose proof (tg_low _ _ _ _ _ Ht _ _ Hin). rewrite !tag_get_set_ne by (left; lia). by apply (tg_in _ _ _ _ _ Ht).
      * intros c' o' [[-> ->]|[Hin Hne]]%Hold; [apply tag_get_set|].
        pose proof (tg_high _ _ _ _ _ Ht _ _ Hin). rewrite !tag_get_set_ne by (left; lia). by apply (tg_out _ _ _ _ _ Ht).
      * intros c' o' [[-> ->]|[Hin Hne]]%Hold; [apply lookup_insert_eq|].
        pose proof (tg_high _ _ _ _ _ Ht _ _ Hin). rewrite lookup_insert_ne by lia. by apply (tg_link _ _ _ _ _ Ht).
      * intros c' o' [[-> ->]|[Hin Hne]]%Hold; [done|]. by apply (tg_low _ _ _ _ _ Ht c' o').
      * intros c' o' [[-> ->]|[Hin Hne]]%Hold; [lia|]. pose proof (tg_high _ _ _ _ _ Ht _ _ Hin). lia.
      * apply (tg_header _ _ _ _ _ Ht).
    + eapply tagged_other; [apply (rp_tags _ _ _ H); by apply in_others|lia|..].
      * intros p. rewrite HT, !tag_get_set_ne; [done|right; by apply other_id, Hb; apply (repr_ids _ H)..].
      * intros o Ho. rewrite HL, lookup_insert_ne; [done|]. intros <-.
        by destruct (fresh_out pc b H (in_others _ Hb)).
  - pose proof (fresh_outs pc H) as Hf. pose proof (rp_outs _ _ _ H) as Ho. rewrite mjoin_mid in *.
    assert (outs a = map snd P ++ map snd Q) as Ea by (unfold outs; by rewrite Hk, map_app).
    assert (outs (with_kids (P ++ (c, pc_next pc) :: Q) a) = map snd P ++ pc_next pc :: map snd Q) as ->.
    { unfold outs. cbn. by rewrite map_app. }
    rewrite Ea in *. rewrite <- !app_assoc in *. rewrite <- app_comm_cons.
    assert (forall (X Y Z W : list pid) o, X ++ Y ++ o :: Z ++ W ≡ₚ o :: X ++ Y ++ Z ++ W) as Hp by (intros; solve_Permutation).
    rewrite Hp. by constructor.
  - pose proof (rp_headers _ _ _ H) as Hh. by rewrite mjoin_mid in *.
  - rewrite ids_with_kids. apply (rp_ids _ _ _ H).
  - lia.
  - intros o d. rewrite HL. intros [[<- _]|[_ Ho]]%lookup_insert_Some; [done|]. by apply (rp_links _ _ _ H _ _ Ho).
Qed.

End steps.

(** ** Running the callbacks *)

Definition made (i : nat) (p : pid) (pc : concat) : concat :=
  Concat (pc_queue pc) (pc_dst pc) (pc_index_tally pc) (pc_sources pc)
    (prop_tag_set (pc_next pc) i p (prop_tag_set p i (pc_next pc) (pc_tags pc)))
    (<[pc_next pc := p]> (pc_links pc)) (S (pc_next pc)) (pc_reqs pc).

Lemma make_out_run i p pc : make_out i p pc = Ok (pc_next pc, made i p pc).
Proof. done. Qed.

Lemma on_dst_run f d pc : f (pc_dst pc) = Ok d -> on_dst f pc = Ok (tt, set_dst d pc).
Proof. intros H. unfold on_dst, mbind, H_bind, gets, lift. by rewrite H. Qed.

Section calls.
Context (base : nat) (l1 l2 : list part) (a : part).
Implicit Types (pc : concat) (s : source).

(** The queue around the source. *)
Definition around s : list source := map source_of l1 ++ s :: map source_of l2.

Lemma around_part ks : map source_of (l1 ++ with_kids ks a :: l2) = around (source_of (with_kids ks a)).
Proof. unfold around. by rewrite map_app. Qed.

Lemma ids_around : NoDup (map pt_id (l1 ++ a :: l2)) -> (pt_id a ∉ map pt_id l1) /\ (pt_id a ∉ map pt_id l2).
Proof.
  rewrite map_app. cbn. intros (H1 & H2 & [H3 H4]%NoDup_cons)%NoDup_app. split; [|done].
  intros H. apply (H2 _ H), list_elem_of_here.
Qed.

Section run.
Context (pc : concat) (s : source).
Hypotheses (Hids : NoDup (map pt_id (l1 ++ a :: l2))) (Hq : pc_queue pc = around s) (Hs : pcs_id s = pt_id a).

Lemma get_source_run : get_source (pt_id a) pc = Ok (s, pc).
Proof. unfold get_source, mbind, H_bind, gets. rewrite Hq. unfold around. rewrite find_source; [done..|apply ids_around, Hids]. Qed.

Lemma upd_source_run f : upd_source (pt_id a) f pc = Ok (tt, set_queue (around (f s)) pc).
Proof.
  unfold upd_source, mbind, H_bind, gets, modify. rewrite Hq. unfold around. rewrite upd_source_map; [done..|apply ids_around, Hids|].
  apply ids_around, Hids.
Qed.

Lemma find_next_out_run : find_next_out (pt_id a) pc = Ok (head (mjoin (map shown l2)), pc).
Proof.
  unfold find_next_out, mbind, H_bind, gets. rewrite Hq. unfold around. rewrite sources_after_mid; [|done|apply ids_around, Hids].
  by rewrite next_out_shown.
Qed.
End run.

Lemma repr_around pc : repr base (l1 ++ a :: l2) pc -> pc_queue pc = around (source_of a).
Proof. intros H. rewrite (rp_queue _ _ _ H). unfold around. by rewrite map_app. Qed.

Lemma shown_with ks : ks <> [] -> shown (with_kids ks a) = header_of a ++ map snd ks.
Proof. by destruct ks. Qed.

Lemma mjoin_with ks : ks <> [] ->
  mjoin (map shown (l1 ++ with_kids ks a :: l2)) = mjoin (map shown l1) ++ (header_of a ++ map snd ks) ++ mjoin (map shown l2).
Proof. intros H. by rewrite mjoin_mid, shown_with. Qed.

Lemma source_of_with ks : source_of (with_kids ks a) =
  Source (pt_id a) (head (map snd ks)) (pt_header a) (Z.of_nat (length ks)) (pt_index a).
Proof. done. Qed.

Lemma add_child_spec pc c : repr base (l1 ++ a :: l2) pc -> (c < base)%nat -> c ∉ ins a ->
  Z.of_nat (length (pt_kids a)) + 1 <= int_max ->
  exists pc', add_child (pt_id a) c pc = Ok (tt, pc') /\
    repr base (l1 ++ with_kids (pt_kids a ++ [(c, pc_next pc)]) a :: l2) pc'.
Proof.
  intros H Hc Hca Hlen. set (out := pc_next pc). set (X := mjoin (map shown l1)). set (Y := mjoin (map shown l2)).
  pose proof (rp_ids _ _ _ H) as Hids. pose proof (whole_NoDup base l1 l2 a pc H) as Hnd.
  pose proof (fresh_dst base l1 l2 a pc H) as Hfr. pose proof (repr_dst base l1 l2 a pc H) as Hd.
  pose proof (repr_around _ H) as Hq. fold X Y out in Hnd, Hfr, Hd.
  unfold add_child. rewrite (h_bind _ _ _ _ _ (make_out_run (pt_id a) c pc)). fold out.
  rewrite (h_bind _ _ _ _ _ (find_next_out_run (made (pt_id a) c pc) _ Hids Hq eq_refl)). fold Y.
  assert (list_set_parent out (head Y) (pc_dst pc) = Ok ((X ++ shown a) ++ out :: Y)) as Hset.
  { rewrite Hd, app_assoc. apply list_set_parent_head; [by rewrite <- app_assoc|].
    intros b Hb Hin. rewrite app_assoc in Hnd. apply NoDup_app in Hnd as (_ & Hdis & _). apply (Hdis b).
    - apply elem_of_app in Hin as [Hin|Hin]; apply elem_of_app; [by left|right]. apply elem_of_app. by apply shown_sub.
    - destruct Y; [done|]. injection Hb as ->. apply list_elem_of_here. }
  rewrite (h_bind _ _ _ _ _ (on_dst_run _ _ (made (pt_id a) c pc) Hset)).
  rewrite (h_bind _ _ _ _ _ (get_source_run (set_dst _ (made (pt_id a) c pc)) _ Hids Hq eq_refl)).
  cbn [source_of pcs_count pcs_header].
  assert (chk_int (Z.of_nat (length (pt_kids a)) + 1) = Ok (Z.of_nat (length (pt_kids a)) + 1)) as Hchk.
  { apply chk_int_Ok. unfold int_min, int_max in *. lia. }
  set (pc1 := set_dst ((X ++ shown a) ++ out :: Y) (made (pt_id a) c pc)).
  assert (exists pc2, (if Z.of_nat (length (pt_kids a)) =? 0 then
      _ ← upd_source (pt_id a) (set_first (Some out));
      match pt_header a with Some h => on_dst (list_set_parent h (Some out)) | None => mret tt end
    else mret tt) pc1 = Ok (tt, pc2) /\
    pc_queue pc2 = around (Source (pt_id a) (head (outs a ++ [out])) (pt_header a) (Z.of_nat (length (pt_kids a))) (pt_index a)) /\
    pc_dst pc2 = X ++ (header_of a ++ outs a ++ [out]) ++ Y /\ pc_tags pc2 = pc_tags pc1 /\ pc_links pc2 = pc_links pc1 /\
    pc_next pc2 = S out) as (pc2 & Hm & Hq2 & Hd2 & HT2 & HL2 & Hn2).
  { unfold shown, outs in *. destruct (pt_kids a) as [|k ks] eqn:Ek; cbn [length map app] in *.
    - change (Z.of_nat 0 =? 0) with true. cbn match.
      rewrite (h_bind _ _ _ _ _ (upd_source_run pc1 _ Hids Hq eq_refl _)). unfold header_of in *.
      destruct (pt_header a) as [h|] eqn:Eh; cbn [option_list app] in *.
      + assert (h <> out) as Hne.
        { pose proof (tg_header _ _ _ _ _ (rp_tags _ _ _ H a ltac:(set_solver)) _ Eh). pose proof (rp_next _ _ _ H). unfold out. lia. }
        eexists. split; [apply on_dst_run|split; [cbn; unfold set_first, source_of; cbn; by rewrite Ek, Eh|split; [reflexivity|done]]].
        cbn [set_queue pc_dst pc1 set_dst]. rewrite app_nil_r. unfold list_set_parent.
        rewrite decide_False by (apply NoDup_app in Hnd as (? & ? & [? ?]%NoDup_cons); set_solver).
        rewrite place_before; [done|set_solver].
      + eexists. split; [done|]. split; [|split; [|done]].
        * cbn. unfold set_first, source_of. cbn. by rewrite Ek, Eh.
        * cbn. by rewrite app_nil_r.
    - rewrite (proj2 (Z.eqb_neq _ 0)) by lia. eexists. split; [done|]. split; [cbn; rewrite Hq; unfold source_of, outs; by rewrite Ek|].
      split; [|done]. cbn [pc1 set_dst pc_dst]. rewrite <- !app_assoc. cbn [app]. by rewrite <- !app_assoc. }
  rewrite (h_bind _ _ _ _ _ Hm), Hchk, (h_bind _ _ _ _ _ (eq_refl : lift (Ok _) pc2 = Ok (_, pc2))).
  rewrite (upd_source_run pc2 _ Hids Hq2 eq_refl). eexists. split; [done|].
  apply (repr_insert base l1 l2 a pc _ c (pt_kids a) []); [done|by rewrite app_nil_r|done|done|..]; cbn.
  - rewrite around_part. unfold set_count, source_of, outs. cbn. by rewrite map_app, length_app, Nat2Z.inj_add.
  - rewrite mjoin_with by (by destruct (pt_kids a)). rewrite Hd2, map_app. done.
  - by rewrite HT2.
  - by rewrite HL2.
  - done.
Qed.

Lemma repr_split pc P c o Q : repr base (l1 ++ a :: l2) pc -> pt_kids a = P ++ (c, o) :: Q ->
  outs a = map snd P ++ o :: map snd Q /\ shown a = header_of a ++ map snd P ++ o :: map snd Q.
Proof.
  intros H Hk. unfold shown, outs. rewrite Hk. split; [by rewrite map_app|]. destruct (P ++ (c, o) :: Q) eqn:E; [by destruct P|].
  rewrite <- E. by rewrite map_app.
Qed.

Lemma add_child_before_spec pc c P b ob Q : repr base (l1 ++ a :: l2) pc -> (c < base)%nat -> c ∉ ins a ->
  Z.of_nat (length (pt_kids a)) + 1 <= int_max -> pt_kids a = P ++ (b, ob) :: Q -> P <> [] ->
  exists pc', add_child_before (pt_id a) c (Some b) pc = Ok (tt, pc') /\
    repr base (l1 ++ with_kids (P ++ (c, pc_next pc) :: (b, ob) :: Q) a :: l2) pc'.
Proof.
  intros H Hc Hca Hlen Hk HP. set (out := pc_next pc). set (X := mjoin (map shown l1)). set (Y := mjoin (map shown l2)).
  pose proof (rp_ids _ _ _ H) as Hids. pose proof (whole_NoDup base l1 l2 a pc H) as Hnd.
  pose proof (fresh_dst base l1 l2 a pc H) as Hfr. pose proof (repr_dst base l1 l2 a pc H) as Hd.
  pose proof (repr_around _ H) as Hq. fold X Y out in Hnd, Hfr, Hd. pose proof (rp_next _ _ _ H) as Hbase.
  pose proof (rp_tags _ _ _ H a ltac:(set_solver)) as Ht.
  destruct (repr_split _ _ _ _ _ H Hk) as [Eo Es].
  assert ((b, ob) ∈ pt_kids a) as Hb by (rewrite Hk; set_solver).
  unfold add_child_before. rewrite (h_bind _ _ _ _ _ (make_out_run (pt_id a) c pc)). fold out.
  rewrite (h_bind _ _ _ _ _ (eq_refl : not_null (Some b) (made (pt_id a) c pc) = Ok (b, _))).
  rewrite (h_bind _ _ _ _ _ (eq_refl : gets pc_tags (made (pt_id a) c pc) = Ok (_, _))).
  assert (prop_tag_get (pc_tags (made (pt_id a) c pc)) b (pt_id a) = Some ob) as ->.
  { cbn. fold out. pose proof (tg_low _ _ _ _ _ Ht _ _ Hb). rewrite !tag_get_set_ne; [by apply (tg_in _ _ _ _ _ Ht)|left..].
    - intros ->. apply Hca. unfold ins. change c with ((c, ob).1). by apply list_elem_of_fmap_2.
    - unfold out. lia. }
  assert (list_set_parent out (Some ob) (pc_dst pc) = Ok ((X ++ header_of a ++ map snd P) ++ out :: (ob :: map snd Q) ++ Y)) as Hset.
  { rewrite Es in Hd. rewrite Hd. replace (X ++ (header_of a ++ map snd P ++ ob :: map snd Q) ++ Y)
      with ((X ++ header_of a ++ map snd P) ++ (ob :: map snd Q) ++ Y) by (by rewrite <- !app_assoc).
    apply (list_set_parent_head out _ ((ob :: map snd Q) ++ Y)).
    - rewrite Es in Hfr. intros Hin. apply Hfr. set_solver.
    - intros ? [= <-] Hin. rewrite Eo in Hnd.
      replace (X ++ (header_of a ++ map snd P ++ ob :: map snd Q) ++ Y)
        with ((X ++ header_of a ++ map snd P) ++ (ob :: map snd Q) ++ Y) in Hnd by (by rewrite <- !app_assoc).
      apply NoDup_app in Hnd as (_ & Hdis & _). apply (Hdis ob Hin). apply list_elem_of_here. }
  rewrite (h_bind _ _ _ _ _ (on_dst_run _ _ (made (pt_id a) c pc) Hset)).
  rewrite (h_bind _ _ _ _ _ (get_source_run (set_dst _ (made (pt_id a) c pc)) _ Hids Hq eq_refl)).
  cbn [source_of pcs_count pcs_header]. rewrite chk_int_Ok by (unfold int_min; lia).
  rewrite (h_bind _ _ _ _ _ (eq_refl : lift (Ok _) _ = Ok (_, _))).
  rewrite (upd_source_run (set_dst _ (made (pt_id a) c pc)) _ Hids Hq eq_refl). eexists. split; [done|].
  apply (repr_insert base l1 l2 a pc _ c P ((b, ob) :: Q)); [done..| | |done|done|done]; cbn.
  - rewrite around_part. unfold set_count, source_of, outs. rewrite Hk. cbn. rewrite !map_app, !length_app. cbn [length].
    f_equal. f_equal; [by destruct P|lia].
  - rewrite mjoin_with by (by destruct P). rewrite map_app. cbn. by rewrite <- !app_assoc.
Qed.

Lemma ins_split P c o Q : pt_kids a = P ++ (c, o) :: Q -> ins a = map fst P ++ c :: map fst Q.
Proof. intros H. unfold ins. by rewrite H, map_app. Qed.

Lemma outs_NoDup pc : repr base (l1 ++ a :: l2) pc -> NoDup (outs a).
Proof. intros H. pose proof (rp_outs _ _ _ H) as Ho. rewrite mjoin_mid in Ho. apply NoDup_app in Ho as (_ & _ & Ho). by apply NoDup_app in Ho as [? _]. Qed.

(** The source has lost a child. *)
Lemma repr_delete pc pc' P c o Q : repr base (l1 ++ a :: l2) pc -> pt_kids a = P ++ (c, o) :: Q ->
  pc_queue pc' = map source_of (l1 ++ with_kids (P ++ Q) a :: l2) ->
  pc_dst pc' = mjoin (map shown (l1 ++ with_kids (P ++ Q) a :: l2)) ->
  pc_tags pc' = (prop_tag_clear o (pt_id a) (prop_tag_clear c (pt_id a) (pc_tags pc)).2).2 ->
  pc_links pc' = delete o (pc_links pc) -> pc_next pc' = pc_next pc ->
  repr base (l1 ++ with_kids (P ++ Q) a :: l2) pc'.
Proof.
  intros H Hk Hq Hd HT HL Hn. pose proof (rp_next _ _ _ H) as Hbase. pose proof (rp_ids _ _ _ H) as Hids.
  pose proof (rp_tags _ _ _ H a ltac:(set_solver)) as Ht. destruct (repr_split _ _ _ _ _ H Hk) as [Eo _].
  pose proof (outs_NoDup _ H) as Hno. rewrite Eo in Hno.
  assert ((c, o) ∈ pt_kids a) as Hco by (rewrite Hk; set_solver).
  pose proof (tg_low _ _ _ _ _ Ht _ _ Hco) as Hc. pose proof (tg_high _ _ _ _ _ Ht _ _ Hco) as Ho.
  split; [done|done|..].
  - intros b Hb. apply in_mid in Hb as [->|Hb].
    + rewrite HT, HL, Hn.
      assert (forall c' o', (c', o') ∈ P ++ Q -> (c', o') ∈ pt_kids a /\ o' <> o /\ c' <> c) as Hold.
      { intros c' o' Hin. assert ((c', o') ∈ pt_kids a) as Hin' by (rewrite Hk; set_solver).
        assert (o' <> o) as Hne.
        { intros ->. apply NoDup_app in Hno as (_ & N2 & [N3 _]%NoDup_cons). apply elem_of_app in Hin as [Hin|Hin].
          - apply (N2 o); [|apply list_elem_of_here]. change o with ((c', o).2). by apply list_elem_of_fmap_2.
          - apply N3. change o with ((c', o).2). by apply list_elem_of_fmap_2. }
        split; [done|split; [done|]]. intros ->. apply Hne.
        pose proof (tg_in _ _ _ _ _ Ht _ _ Hin'). pose proof (tg_in _ _ _ _ _ Ht _ _ Hco). congruence. }
      split; cbn [pt_kids with_kids pt_id pt_header].
      * intros c' o' (Hin & Hne1 & Hne2)%Hold. pose proof (tg_low _ _ _ _ _ Ht _ _ Hin).
        rewrite !tag_clear_ne by (left; lia). by apply (tg_in _ _ _ _ _ Ht).
      * intros c' o' (Hin & Hne1 & Hne2)%Hold. pose proof (tg_high _ _ _ _ _ Ht _ _ Hin).
        rewrite !tag_clear_ne by (left; lia). by apply (tg_out _ _ _ _ _ Ht).
      * intros c' o' (Hin & Hne1 & Hne2)%Hold. rewrite lookup_delete_ne by done. by apply (tg_link _ _ _ _ _ Ht).
      * intros c' o' (Hin & Hne1 & Hne2)%Hold. by apply (tg_low _ _ _ _ _ Ht c' o').
      * intros c' o' (Hin & Hne1 & Hne2)%Hold. by apply (tg_high _ _ _ _ _ Ht c' o').
      * apply (tg_header _ _ _ _ _ Ht).
    + eapply tagged_other; [apply (rp_tags _ _ _ H); by apply in_others|lia|..].
      * intros p. rewrite HT, !tag_clear_ne; [done|right; by apply (other_id l1 l2 a)..].
      * intros o' Ho'. rewrite HL, lookup_delete_ne; [done|]. intros <-.
        pose proof (rp_outs _ _ _ H) as Hall. rewrite mjoin_mid, Eo in Hall.
        assert (forall l, b ∈ l -> o ∈ mjoin (map outs l)) as Hin.
        { intros l Hl. apply list_elem_of_join. exists (outs b). split; [done|]. by apply list_elem_of_fmap_2. }
        apply NoDup_app in Hall as (_ & A2 & (_ & A3 & _)%NoDup_app).
        destruct Hb as [Hb|Hb]; [apply (A2 o (Hin _ Hb)); set_solver|]. apply (A3 o); [set_solver|by apply Hin].
  - pose proof (rp_outs _ _ _ H) as Hall. rewrite mjoin_mid, Eo in *. unfold outs at 2. cbn [with_kids pt_kids]. rewrite map_app.
    apply (sublist_NoDup _ _ Hall). apply sublist_app; [done|]. apply sublist_app; [|done]. apply sublist_app; [done|by constructor].
  - pose proof (rp_headers _ _ _ H) as Hh. by rewrite mjoin_mid in *.
  - by rewrite ids_with_kids.
  - lia.
  - intros o' d. rewrite HL. intros [_ Ho']%lookup_delete_Some. by apply (rp_links _ _ _ H _ _ Ho').
Qed.

Lemma del_child_spec pc P c o Q : repr base (l1 ++ a :: l2) pc -> pt_kids a = P ++ (c, o) :: Q ->
  Z.of_nat (length (P ++ Q)) <= int_max ->
  exists pc', del_child (pt_id a) c pc = Ok (tt, pc') /\ repr base (l1 ++ with_kids (P ++ Q) a :: l2) pc'.
Proof.
  intros H Hk Hlen. set (X := mjoin (map shown l1)). set (Y := mjoin (map shown l2)).
  pose proof (rp_ids _ _ _ H) as Hids. pose proof (whole_NoDup base l1 l2 a pc H) as Hnd.
  pose proof (repr_dst base l1 l2 a pc H) as Hd. pose proof (repr_around _ H) as Hq. fold X Y in Hnd, Hd.
  pose proof (rp_next _ _ _ H) as Hbase. pose proof (rp_tags _ _ _ H a ltac:(set_solver)) as Ht.
  destruct (repr_split _ _ _ _ _ H Hk) as [Eo Es]. rewrite Es in Hd. rewrite Eo in Hnd.
  assert ((c, o) ∈ pt_kids a) as Hco by (rewrite Hk; set_solver).
  assert (X ++ (header_of a ++ map snd P ++ o :: map snd Q) ++ Y =
    (X ++ header_of a ++ map snd P) ++ o :: map snd Q ++ Y) as Ed by (by rewrite <- !app_assoc).
  rewrite Ed in Hd, Hnd.
  assert ((o ∉ X ++ header_of a ++ map snd P) /\ (o ∉ map snd Q ++ Y)) as [Ho1 Ho2].
  { apply NoDup_app in Hnd as (_ & N2 & [N3 _]%NoDup_cons). split; [|done]. intros Hin. apply (N2 _ Hin), list_elem_of_here. }
  unfold del_child. set (T1 := (prop_tag_clear c (pt_id a) (pc_tags pc)).2).
  assert (clear_tag c (pt_id a) pc = Ok (Some o, set_tags T1 pc)) as H1.
  { unfold clear_tag, mbind, H_bind, gets, modify. pose proof (tag_clear_get c (pt_id a) (pc_tags pc)) as Hg.
    rewrite (tg_in _ _ _ _ _ Ht _ _ Hco) in Hg. unfold T1. destruct (prop_tag_clear c (pt_id a) (pc_tags pc)). cbn in *. by subst. }
  rewrite (h_bind _ _ _ _ _ H1), (h_bind _ _ _ _ _ (eq_refl : not_null (Some o) _ = Ok (o, _))).
  set (T2 := (prop_tag_clear o (pt_id a) T1).2).
  assert (clear_tag o (pt_id a) (set_tags T1 pc) = Ok ((prop_tag_clear o (pt_id a) T1).1, set_tags T2 pc)) as H2.
  { unfold clear_tag, mbind, H_bind, gets, modify, T2. cbn. by destruct (prop_tag_clear o (pt_id a) T1). }
  rewrite (h_bind _ _ _ _ _ H2), (h_bind _ _ _ _ _ (eq_refl : gets pc_dst _ = Ok (_, _))). cbn [set_tags pc_dst].
  rewrite Hd, after_mid by done.
  set (D := (X ++ header_of a ++ map snd P) ++ map snd Q ++ Y).
  assert (unlink o (pc_dst pc) = D) as Hun by (by rewrite Hd, unlink_mid).
  rewrite (h_bind _ _ _ _ _ (on_dst_run (fun d => Ok (unlink o d)) D (set_tags T2 pc) (f_equal Ok Hun))).
  rewrite (h_bind _ _ _ _ _ (eq_refl : gets pc_links _ = Ok (_, _))).
  set (pc1 := set_links (delete o (pc_links pc)) (set_dst D (set_tags T2 pc))).
  rewrite (h_bind _ _ _ _ _ (eq_refl : modify _ _ = Ok (tt, pc1))).
  rewrite (h_bind _ _ _ _ _ (get_source_run pc1 _ Hids Hq eq_refl)). cbn [source_of pcs_count pcs_header].
  assert (Z.of_nat (length (pt_kids a)) - 1 = Z.of_nat (length (P ++ Q))) as Hn.
  { rewrite Hk, !length_app. cbn [length]. lia. }
  rewrite Hn, chk_int_Ok by (unfold int_min, int_max in *; lia).
  rewrite (h_bind _ _ _ _ _ (eq_refl : lift (Ok _) _ = Ok (_, _))).
  rewrite (h_bind _ _ _ _ _ (upd_source_run pc1 _ Hids Hq eq_refl _)).
  set (s1 := set_count _ (source_of a)). set (pc2 := set_queue (around s1) pc1).
  match goal with |- exists pc', ?m = _ /\ _ => assert (exists pc', m = Ok (tt, pc') /\
    pc_queue pc' = around (source_of (with_kids (P ++ Q) a)) /\
    pc_dst pc' = X ++ shown (with_kids (P ++ Q) a) ++ Y /\ pc_tags pc' = T2 /\
    pc_links pc' = pc_links pc1 /\ pc_next pc' = pc_next pc) as (pc' & Hm & Hq' & Hd' & HT' & HL' & Hn') end.
  { rewrite source_of_with. destruct (P ++ Q) as [|k ks] eqn:Epq.
    - apply app_nil in Epq as [-> ->]. change (Z.of_nat (length []) =? 0) with true. cbn match.
      rewrite (h_bind _ _ _ _ _ (upd_source_run pc2 s1 Hids eq_refl eq_refl _)).
      unfold D, pc2, pc1. cbn [map app shown with_kids pt_kids] in *. rewrite app_nil_r in *. unfold header_of in *.
      destruct (pt_header a) as [h|] eqn:Eh; cbn [option_list app] in *.
      + eexists. split; [apply on_dst_run; reflexivity|]. split; [unfold s1, set_count, source_of; cbn; by rewrite Eh|].
        split; [|done]. cbn [pc_dst set_dst set_queue set_links set_tags]. rewrite <- app_assoc in *. cbn [app] in *.
        apply NoDup_app in Hnd as (_ & N2 & [N3 _]%NoDup_cons).
        replace D with (X ++ h :: Y) by (unfold D; cbn; by rewrite <- app_assoc). apply unlink_mid; [|set_solver].
        intros Hin. apply (N2 _ Hin). cbn. apply list_elem_of_here.
      + eexists. split; [done|]. split; [unfold s1, set_count, source_of; cbn; by rewrite Eh|]. split; [|done].
        cbn. unfold D. cbn. by rewrite app_nil_r.
    - rewrite (proj2 (Z.eqb_neq _ 0)) by (cbn [length]; lia).
      assert (shown (with_kids (P ++ Q) a) = header_of a ++ map snd P ++ map snd Q) as Es'.
      { rewrite shown_with by (by rewrite Epq). by rewrite map_app. }
      assert (X ++ (header_of a ++ map snd P ++ map snd Q) ++ Y = D) as Ed' by (unfold D; by rewrite <- !app_assoc).
      unfold s1 in *. clear s1. rewrite <- Epq in *. rewrite Es', Ed'. cbn [source_of pcs_first]. rewrite Eo. destruct P as [|[c' o'] P]; cbn [map head app].
      + rewrite bool_decide_true by done. rewrite (upd_source_run pc2 _ Hids eq_refl eq_refl _). eexists. split; [done|].
        split; [|done]. unfold set_first, set_count, source_of. cbn [set_queue pc_queue pcs_id pcs_first pcs_header pcs_count pcs_index].
        cbn [app] in Epq. rewrite <- Epq. by destruct Q.
      + rewrite bool_decide_false.
        * eexists. split; [done|]. split; [|done]. unfold pc2, set_count, source_of. cbn [set_queue pc_queue pcs_id pcs_first pcs_header pcs_count pcs_index].
          by rewrite Eo, <- Epq.
        * intros [= ->]. apply Ho1. cbn. set_solver. }
  exists pc'. split; [done|]. apply (repr_delete pc pc' P c o Q); [done..| | |done|done|done].
  - by rewrite around_part.
  - by rewrite mjoin_mid.
Qed.

(** The children of the source are in another order. *)
Lemma repr_permute pc pc' ks : repr base (l1 ++ a :: l2) pc -> ks ≡ₚ pt_kids a ->
  pc_queue pc' = map source_of (l1 ++ with_kids ks a :: l2) ->
  pc_dst pc' = mjoin (map shown (l1 ++ with_kids ks a :: l2)) ->
  pc_tags pc' = pc_tags pc -> pc_links pc' = pc_links pc -> pc_next pc' = pc_next pc ->
  repr base (l1 ++ with_kids ks a :: l2) pc'.
Proof.
  intros H Hp Hq Hd HT HL Hn. split; [done|done|..].
  - rewrite HT, HL, Hn. intros b Hb. apply in_mid in Hb as [->|Hb]; [|apply (rp_tags _ _ _ H); by apply in_others].
    pose proof (rp_tags _ _ _ H a ltac:(set_solver)) as [T1 T2 T3 T4 T5 T6].
    split; cbn; try setoid_rewrite Hp; done.
  - pose proof (rp_outs _ _ _ H) as Ho. rewrite mjoin_mid in *. unfold outs at 2. cbn. by rewrite Hp.
  - pose proof (rp_headers _ _ _ H) as Hh. by rewrite mjoin_mid in *.
  - rewrite ids_with_kids. apply (rp_ids _ _ _ H).
  - rewrite Hn. apply (rp_next _ _ _ H).
  - rewrite HL. apply (rp_links _ _ _ H).
Qed.
Lemma move_child_spec pc A c o B q P Q : repr base (l1 ++ a :: l2) pc -> pt_kids a = A ++ (c, o) :: B ->
  A <> [] -> P <> [] -> A ++ B = P ++ Q -> match q with Some b => head (map fst Q) = Some b | None => Q = [] end ->
  exists pc', move_child (pt_id a) c q pc = Ok (tt, pc') /\
    repr base (l1 ++ with_kids (P ++ (c, o) :: Q) a :: l2) pc'.
Proof.
  intros H Hk HA HP E HQ. set (X := mjoin (map shown l1)). set (Y := mjoin (map shown l2)).
  pose proof (rp_ids _ _ _ H) as Hids. pose proof (whole_NoDup base l1 l2 a pc H) as Hnd.
  pose proof (repr_dst base l1 l2 a pc H) as Hd. pose proof (repr_around _ H) as Hq. fold X Y in Hnd, Hd.
  pose proof (rp_tags _ _ _ H a ltac:(set_solver)) as Ht.
  destruct (repr_split _ _ _ _ _ H Hk) as [Eo Es]. rewrite Es in Hd. rewrite Eo in Hnd.
  assert ((c, o) ∈ pt_kids a) as Hco by (rewrite Hk; set_solver).
  assert (X ++ (header_of a ++ map snd A ++ o :: map snd B) ++ Y =
    (X ++ header_of a ++ map snd A) ++ o :: map snd B ++ Y) as Ed by (by rewrite <- !app_assoc).
  rewrite Ed in Hd, Hnd. unfold move_child.
  rewrite (h_bind _ _ _ _ _ (eq_refl : gets pc_tags _ = Ok (_, _))).
  rewrite (tg_in _ _ _ _ _ Ht _ _ Hco), (h_bind _ _ _ _ _ (eq_refl : not_null (Some o) _ = Ok (o, _))).
  assert (match q with Some q => mret (prop_tag_get (pc_tags pc) q (pt_id a)) | None => find_next_out (pt_id a) end pc =
    Ok (head (map snd Q ++ Y), pc)) as Hb.
  { destruct q as [b|].
    - destruct Q as [|[b' ob] Q]; [done|]. injection HQ as ->. cbn.
      assert ((b, ob) ∈ pt_kids a) as Hin by (rewrite Hk; assert ((b, ob) ∈ A ++ B) by (rewrite E; set_solver); set_solver).
      by rewrite (tg_in _ _ _ _ _ Ht _ _ Hin).
    - subst Q. cbn. by rewrite (find_next_out_run pc _ Hids Hq eq_refl). }
  rewrite (h_bind _ _ _ _ _ Hb).
  assert (list_move o (head (map snd Q ++ Y)) (pc_dst pc) = Ok ((X ++ header_of a ++ map snd P) ++ o :: map snd Q ++ Y)) as Hm.
  { rewrite Hd. apply list_move_to; [done|]. rewrite <- !app_assoc. do 2 f_equal.
    rewrite !app_assoc, <- !map_app. by rewrite E. }
  rewrite (on_dst_run _ _ pc Hm). eexists. split; [done|].
  assert (P ++ (c, o) :: Q ≡ₚ pt_kids a) as Hp by (rewrite Hk, <- !Permutation_middle; by rewrite E).
  apply (repr_permute pc); [done..| | |done|done|done]; cbn.
  - rewrite Hq, around_part. f_equal. unfold source_of. cbn. f_equal; [|by rewrite Hp].
    unfold outs. cbn. rewrite Hk. destruct A as [|k A], P as [|k' P]; try done. by injection E as -> _.
  - rewrite mjoin_with by (by destruct P). rewrite map_app. cbn. by rewrite <- !app_assoc.
Qed.
End calls.

(** ** Events of a source *)

(** The child that is first stays so, unless it goes away: [pcs_first] follows
    no other change.  A directory is emptied child by child. *)
Definition keeps_first (cs : list pid) (e : pevent) : Prop :=
  match e with
  | AddChildBefore _ b => b <> head cs
  | MoveChild c b => head cs <> Some c /\ (b = None \/ b <> head cs)
  | SetVoid _ => cs = []
  | _ => True
  end.

Record tell_ok (base : nat) (w : pview) (e : pevent) : Prop := {
  tl_told : told_kids w e;
  tl_first : keeps_first (kids_of w) e;
  tl_low : Forall (fun c => (c < base)%nat) (kids_of (view_event w e));
  tl_fits : Z.of_nat (length (kids_of (view_event w e))) <= int_max
}.

Section events.
Context (base : nat) (l1 l2 : list part).
Implicit Types (a : part) (pc : concat) (w : pview).

Lemma with_same a : with_kids (pt_kids a) a = a.
Proof. by destruct a. Qed.

Lemma ins_with ks a : ins (with_kids ks a) = map fst ks.
Proof. done. Qed.

(** After the call the source has the children [cs]. *)
Definition tells a (m : C unit) (cs : list pid) (pc : concat) : Prop :=
  exists pc' ks, m pc = Ok (tt, pc') /\ map fst ks = cs /\ repr base (l1 ++ with_kids ks a :: l2) pc'.

Lemma tells_stay a pc : repr base (l1 ++ a :: l2) pc -> tells a (mret tt) (ins a) pc.
Proof. intros H. exists pc, (pt_kids a). split; [done|split; [done|]]. by rewrite with_same. Qed.

Lemma tells_add a pc c : repr base (l1 ++ a :: l2) pc -> (c < base)%nat -> c ∉ ins a ->
  Z.of_nat (length (ins a)) + 1 <= int_max -> tells a (add_child (pt_id a) c) (ins a ++ [c]) pc.
Proof.
  intros H Hc Hn Hl. unfold ins in Hl. rewrite length_map in Hl. destruct (add_child_spec base l1 l2 a pc c) as (pc' & E & R); [done..|].
  exists pc'. eexists. split; [done|split; [|done]]. by rewrite map_app.
Qed.

Lemma tells_bind a (m : C unit) (k : C unit) cs cs' pc : tells a m cs pc ->
  (forall ks pc', map fst ks = cs -> repr base (l1 ++ with_kids ks a :: l2) pc' -> tells (with_kids ks a) k cs' pc') ->
  tells a (_ ← m; k) cs' pc.
Proof.
  intros (pc1 & ks & E & Hk & H) Hg. destruct (Hg ks pc1 Hk H) as (pc2 & ks2 & E2 & Hk2 & H2).
  exists pc2, ks2. split; [|done]. by rewrite (h_bind _ _ _ _ _ E).
Qed.

Lemma tells_add_all cs a pc : repr base (l1 ++ a :: l2) pc -> Forall (fun c => (c < base)%nat) cs -> NoDup (ins a ++ cs) ->
  Z.of_nat (length (ins a ++ cs)) <= int_max -> tells a (add_children (pt_id a) cs) (ins a ++ cs) pc.
Proof.
  revert a pc. induction cs as [|c cs IH]; intros a pc H Hc Hn Hl; cbn [add_children].
  - rewrite app_nil_r. by apply tells_stay.
  - apply Forall_cons in Hc as [Hc Hcs]. rewrite length_app in Hl. cbn [length] in Hl.
    eapply tells_bind; [apply tells_add; [done|done| |lia]|].
    + apply NoDup_app in Hn as (_ & Hn & _). intros Hin. apply (Hn _ Hin), list_elem_of_here.
    + intros ks pc' Hk H'. replace (ins a ++ c :: cs) with (ins (with_kids ks a) ++ cs) by (rewrite ins_with, Hk; by rewrite <- app_assoc).
      change (pt_id a) with (pt_id (with_kids ks a)). apply IH; rewrite ?ins_with, ?Hk; [done|done|by rewrite <- app_assoc|].
      rewrite !length_app. cbn [length]. lia.
Qed.

Lemma kids_split a c : c ∈ ins a -> exists P o Q, pt_kids a = P ++ (c, o) :: Q.
Proof.
  unfold ins. intros ([c' o] & -> & Hin)%list_elem_of_fmap. apply list_elem_of_split in Hin as (P & Q & E). by exists P, o, Q.
Qed.

Lemma tells_before a pc c b : repr base (l1 ++ a :: l2) pc -> (c < base)%nat -> c ∉ ins a -> b ∈ ins a ->
  head (ins a) <> Some b -> NoDup (ins a) -> Z.of_nat (length (ins a)) + 1 <= int_max ->
  exists cs, place (Some b) c (ins a) = Some cs /\ tells a (add_child_before (pt_id a) c (Some b)) cs pc.
Proof.
  intros H Hc Hn Hb Hh Hd Hl. destruct (kids_split a b Hb) as (P & ob & Q & Hk). rewrite (ins_split _ _ _ _ _ Hk) in *.
  rewrite <- (ins_split _ _ _ _ _ Hk) in Hn. rewrite length_app in Hl. cbn [length] in Hl. rewrite !length_map in Hl.
  assert (P <> []) as HP by (intros ->; done).
  eexists. split; [apply place_before; apply NoDup_app in Hd as (_ & Hd & _); intros Hin; apply (Hd _ Hin), list_elem_of_here|].
  destruct (add_child_before_spec base l1 l2 a pc c P b ob Q) as (pc' & E & R); [done..| |done|done|].
  { rewrite Hk, length_app. cbn [length]. lia. }
  exists pc'. eexists. split; [done|split; [|done]]. by rewrite map_app.
Qed.

Lemma tells_del a pc c : repr base (l1 ++ a :: l2) pc -> c ∈ ins a -> NoDup (ins a) -> Z.of_nat (length (unlink c (ins a))) <= int_max ->
  tells a (del_child (pt_id a) c) (unlink c (ins a)) pc.
Proof.
  intros H Hc Hd Hl. destruct (kids_split a c Hc) as (P & o & Q & Hk).
  assert (unlink c (ins a) = map fst (P ++ Q)) as Eu.
  { rewrite (ins_split _ _ _ _ _ Hk) in *. apply NoDup_app in Hd as (_ & D2 & [D3 _]%NoDup_cons).
    rewrite map_app, unlink_mid; [done| |done]. intros Hin. apply (D2 _ Hin), list_elem_of_here. }
  rewrite Eu in *. destruct (del_child_spec base l1 l2 a pc P c o Q H Hk) as (pc' & E & R); [by rewrite length_map in Hl|].
  exists pc'. by eexists.
Qed.

Lemma tells_move a pc c q : repr base (l1 ++ a :: l2) pc -> c ∈ ins a -> NoDup (ins a) -> head (ins a) <> Some c ->
  match q with Some b => b ∈ ins a /\ b <> c | None => True end -> q = None \/ q <> head (ins a) ->
  exists cs, place q c (unlink c (ins a)) = Some cs /\ tells a (move_child (pt_id a) c q) cs pc.
Proof.
  intros H Hc Hd Hh Hq Hqh. destruct (kids_split a c Hc) as (A & o & B & Hk). rewrite (ins_split _ _ _ _ _ Hk) in *.
  assert (A <> []) as HA by (intros ->; done).
  assert ((c ∉ map fst A) /\ (c ∉ map fst B)) as [HcA HcB].
  { apply NoDup_app in Hd as (_ & D2 & [D3 _]%NoDup_cons). split; [|done]. intros Hin. apply (D2 _ Hin), list_elem_of_here. }
  assert (exists P Q, A ++ B = P ++ Q /\ P <> [] /\ match q with Some b => head (map fst Q) = Some b | None => Q = [] end) as (P & Q & E & HP & HQ).
  { destruct q as [b|].
    - destruct Hq as [Hb Hbc]. assert (b ∈ map fst (A ++ B)) as Hin by (rewrite map_app; set_solver).
      apply list_elem_of_fmap in Hin as ([b' ob] & Eb & Hin). cbn in Eb. subst b'.
      apply list_elem_of_split in Hin as (P & Q & E).
      exists P, ((b, ob) :: Q). split; [done|split; [|done]]. intros ->. destruct A as [|k A]; [done|]. cbn in E. injection E as -> _.
      cbn in Hqh. destruct Hqh; done.
    - exists (A ++ B), []. rewrite app_nil_r. split; [done|split; [|done]]. by destruct A. }
  exists (map fst P ++ c :: map fst Q). split.
  - rewrite unlink_mid, <- map_app, E, map_app by done.
    assert (q = head (map fst Q)) as -> by (destruct q; [done|by subst]). apply place_head. intros b Hb Hin.
    assert (NoDup (map fst P ++ map fst Q)) as Hpq.
    { rewrite <- map_app, <- E, map_app. apply NoDup_app in Hd as (D1 & D2 & [D3 D4]%NoDup_cons). apply NoDup_app. split; [done|split; [|done]]. set_solver. }
    apply NoDup_app in Hpq as (_ & N & _). apply (N _ Hin). destruct (map fst Q); [done|]. injection Hb as ->. apply list_elem_of_here.
  - destruct (move_child_spec base l1 l2 a pc A c o B q P Q) as (pc' & E' & R); [done..|].
    exists pc'. eexists. split; [done|split; [|done]]. by rewrite map_app.
Qed.


Lemma NoDup_fst (ks : list (pid * pid)) (f : pid -> option pid) : NoDup (map snd ks) ->
  (forall c o, (c, o) ∈ ks -> f c = Some o) -> NoDup (map fst ks).
Proof.
  induction ks as [|[c o] ks IH]; cbn; intros Hd Hf; [constructor|]. apply NoDup_cons in Hd as [H1 H2]. constructor.
  - intros ([c' o'] & E & Hin)%list_elem_of_fmap. cbn in E. subst c'. apply H1.
    assert (o = o') as ->; [|change o' with ((c, o').2); by apply list_elem_of_fmap_2].
    pose proof (Hf c o ltac:(set_solver)). pose proof (Hf c o' ltac:(set_solver)). congruence.
  - apply IH; [done|]. intros c' o' Hin. apply Hf. by apply list_elem_of_further.
Qed.

Lemma ins_NoDup a pc : repr base (l1 ++ a :: l2) pc -> NoDup (ins a).
Proof.
  intros H. eapply NoDup_fst; [exact (outs_NoDup base l1 l2 a pc H)|].
  intros c o Hin. by apply (tg_in _ _ _ _ _ (rp_tags _ _ _ H a ltac:(set_solver))).
Qed.

(** An event makes of the source what it makes of the view. *)
Lemma src_cb_tells a w e pc : repr base (l1 ++ a :: l2) pc -> kids_of w = ins a -> tell_ok base w e ->
  tells a (src_cb (pt_id a) e) (kids_of (view_event w e)) pc.
Proof.
  intros H Hw [Ht Hf Hlow Hlen]. pose proof (ins_NoDup a pc H) as Hd.
  assert (kids_of (view_event w e) = ins a -> tells a (mret tt) (kids_of (view_event w e)) pc) as Hstay.
  { intros ->. by apply tells_stay. }
  destruct e; cbn [told_kids src_cb keeps_first] in *; try done.
  - apply Hstay. cbn. by rewrite <- Hw.
  - apply Hstay. cbn. by rewrite <- Hw.
  - destruct Ht as [Hv%view_dir Hc]. rewrite Hw in *. subst w. cbn in *. rewrite length_app in Hlen. cbn [length] in Hlen.
    apply Forall_app in Hlow as [_ Hlow]. apply Forall_cons in Hlow as [Hlow _]. apply tells_add; [done..|lia].
  - destruct before as [b|]; [|tauto]. destruct Ht as (Hv%view_dir & Hb & Hc). rewrite Hw in *. subst w.
    cbn [kids_of view_event with_dir] in *.
    destruct (place (Some b) c (ins a)) as [cs|] eqn:Ep.
    2: { apply list_elem_of_split in Hb as (P & Q & E). rewrite E, place_before in Ep; [done|].
         rewrite E in Hd. apply NoDup_app in Hd as (_ & Hd & _). intros Hin. apply (Hd _ Hin), list_elem_of_here. }
    pose proof (place_perm' _ _ _ _ Ep) as Hp. cbn [kids_of] in *. rewrite Hp in Hlow, Hlen. apply Forall_cons in Hlow as [Hlow _].
    destruct (tells_before a pc c b) as (cs' & Ep' & Hgo); [done..|congruence|done|cbn [length] in Hlen; lia|].
    rewrite Ep in Ep'. by injection Ep' as ->.
  - destruct Ht as [Hv%view_dir Hc]. rewrite Hw in *. subst w. cbn in *. apply Forall_app in Hlow as [_ Hlow]. by apply tells_add_all.
  - unfold kids_of in Ht. destruct w as [|cs| | | | |]; try by apply elem_of_nil in Ht. cbn in *. subst cs.
    by apply tells_del.
  - destruct Ht as [Hc Hb]. unfold kids_of in Hc. destruct w as [|cs| | | | |]; try by apply elem_of_nil in Hc. cbn [kids_of view_event with_dir] in *.
    subst cs. destruct Hf as [Hf1 Hf2]. destruct (tells_move a pc c before) as (cs' & -> & Hgo); done.
  - apply Hstay. by rewrite <- Hw.
  - apply Hstay. by rewrite <- Hw.
Qed.
End events.

(** ** What the callbacks leave alone *)

Definition same_rest (pc pc' : concat) : Prop :=
  pc_index_tally pc' = pc_index_tally pc /\ pc_sources pc' = pc_sources pc /\ pc_reqs pc' = pc_reqs pc.
Definition framed {A} (m : C A) : Prop := forall pc x pc', m pc = Ok (x, pc') -> same_rest pc pc'.

#[export] Instance same_rest_preorder : PreOrder same_rest.
Proof. split; [done|]. intros x y z (H1 & H2 & H3) (H4 & H5 & H6). repeat split; congruence. Qed.

Create HintDb framed discriminated.

Lemma framed_bind {A B} (m : C A) (k : A -> C B) : framed m -> (forall x, framed (k x)) -> framed (m ≫= k).
Proof.
  intros Hm Hk pc y pc'. unfold mbind, H_bind. destruct (m pc) as [[x pc1]|] eqn:E; [|done]. intros E'.
  etransitivity; [by eapply Hm|by eapply Hk].
Qed.
Lemma framed_ret {A} (x : A) : framed (mret x).
Proof. by intros pc y pc' [= _ <-]. Qed.
Lemma framed_gets {A} (f : concat -> A) : framed (gets f).
Proof. by intros pc y pc' [= _ <-]. Qed.
Lemma framed_fault {A} f : framed (A:=A) (fault f).
Proof. done. Qed.
Lemma framed_lift {A} (r : res A) : framed (lift r).
Proof. intros pc y pc'. unfold lift. destruct r; [|done]. by intros [= _ <-]. Qed.
Lemma framed_modify f : (forall pc, same_rest pc (f pc)) -> framed (modify f).
Proof. by intros H pc y pc' [= _ <-]. Qed.

#[export] Hint Resolve framed_bind framed_ret framed_gets framed_fault framed_lift : framed.

Ltac framed :=
  repeat first
    [ done
    | progress intros
    | apply framed_bind | apply framed_ret | apply framed_gets | apply framed_fault | apply framed_lift
    | apply framed_modify
    | match goal with |- framed (match ?x with _ => _ end) => destruct x end ].

Lemma framed_source i : framed (get_source i).
Proof. unfold get_source. framed. Qed.
Lemma framed_upd i f : framed (upd_source i f).
Proof. unfold upd_source. framed. Qed.
Lemma framed_dst f : framed (on_dst f).
Proof. unfold on_dst. framed. Qed.
Lemma framed_clear p i : framed (clear_tag p i).
Proof. unfold clear_tag. framed. Qed.

Ltac framed_calls :=
  repeat first [ apply framed_source | apply framed_upd | apply framed_dst | apply framed_clear | progress framed ].

Lemma framed_add i p : framed (add_child i p).
Proof. unfold add_child, make_out, find_next_out. framed_calls. Qed.

Lemma src_cb_framed i e : framed (src_cb i e).
Proof.
  destruct e; cbn [src_cb]; unfold add_child_before, make_out, del_child, move_child, pcs_destroy, passert, not_null, find_next_out;
    try solve [framed_calls].
  induction cs as [|c cs IH]; cbn [add_children]; [framed|]. apply framed_bind; [apply framed_add|intros _; exact IH].
Qed.

Lemma src_events_framed i es : framed (src_events i es).
Proof.
  induction es as [|e es IH]; cbn [src_events]; [apply framed_ret|]. apply framed_bind; [apply src_cb_framed|intros _; exact IH].
Qed.

(** ** Programs *)

(** A source that is added, with the events of its subscription, and an event
    of the source [i]. *)
Inductive ccall :=
| CAdd (header : option pid) (initial : list pevent)
| CTell (i : nat) (e : pevent).

Definition run_call (c : ccall) : C unit :=
  match c with
  | CAdd header initial => _ ← prop_concat_add_source header initial; mret tt
  | CTell i e => src_cb i e
  end.
Fixpoint run_calls (cs : list ccall) : C unit :=
  match cs with [] => mret tt | c :: cs => _ ← run_call c; run_calls cs end.

(** The specification: the sources in order, with their numbers, headers and
    what the subscription has been told. *)
Record cspec := CSpec { cs_sources : list (nat * option pid * pview); cs_count : nat }.

Definition spec_call (c : ccall) (sp : cspec) : cspec :=
  match c with
  | CAdd header initial => CSpec (cs_sources sp ++ [(cs_count sp, header, replay VVoid initial)]) (S (cs_count sp))
  | CTell i Destroyed => CSpec (filter (fun s => s.1.1 <> i) (cs_sources sp)) (cs_count sp)
  | CTell i e =>
      CSpec (map (fun s => if decide (s.1.1 = i) then (s.1, view_event s.2 e) else s) (cs_sources sp)) (cs_count sp)
  end.

(** Each source with its header, if it has children. *)
Definition spec_shows (sp : cspec) : list pid :=
  mjoin (map (fun s => match kids_of s.2 with [] => [] | cs => option_list s.1.2 ++ cs end) (cs_sources sp)).

(** The children of [pc_dst], by what they are linked to. *)
Definition shows (pc : concat) : list pid := map (fun o => default o (pc_links pc !! o)) (pc_dst pc).

Fixpoint tells_ok (base : nat) (w : pview) (es : list pevent) : Prop :=
  match es with [] => True | e :: es => tell_ok base w e /\ tells_ok base (view_event w e) es end.

Definition call_ok (base : nat) (sp : cspec) (c : ccall) : Prop :=
  match c with
  | CAdd header initial =>
      match header with
      | Some h => (h < base)%nat /\ Forall (fun s => s.1.2 <> Some h) (cs_sources sp)
      | None => True
      end /\ tells_ok base VVoid initial /\ Z.of_nat (S (cs_count sp)) <= int_max
  | CTell i e =>
      exists s, s ∈ cs_sources sp /\ s.1.1 = i /\
        match e with Destroyed => kids_of s.2 = [] | _ => tell_ok base s.2 e end
  end.
Fixpoint calls_ok (base : nat) (sp : cspec) (cs : list ccall) : Prop :=
  match cs with [] => True | c :: cs => call_ok base sp c /\ calls_ok base (spec_call c sp) cs end.

#[export] Instance keeps_first_dec cs e : Decision (keeps_first cs e).
Proof. destruct e; cbn [keeps_first]; apply _. Defined.
#[export] Instance tell_ok_dec base w e : Decision (tell_ok base w e).
Proof.
  refine (cast_if (decide ((told_kids w e /\ keeps_first (kids_of w) e) /\
    Forall (fun c => (c < base)%nat) (kids_of (view_event w e)) /\ Z.of_nat (length (kids_of (view_event w e))) <= int_max))).
  all: abstract (first [by split; tauto|intros []; tauto]).
Defined.
#[export] Instance tells_ok_dec base w es : Decision (tells_ok base w es).
Proof. revert w. induction es as [|e es IH]; intros w; cbn; apply _. Defined.
#[export] Instance call_ok_dec base sp c : Decision (call_ok base sp c).
Proof.
  destruct c as [[h|] es|i e]; cbn; [apply _..|].
  assert (forall w, Decision (match e with Destroyed => kids_of w = [] | _ => tell_ok base w e end)) as Hdec by (intros w; destruct e; apply _).
  refine (cast_if (decide (Exists (fun s => s.1.1 = i /\ match e with Destroyed => kids_of s.2 = [] | _ => tell_ok base s.2 e end) (cs_sources sp)))).
  all: abstract (match goal with H : _ |- _ => first [exact (proj1 (Exists_exists _ _) H)|intros H'; apply H, Exists_exists, H'] end).
Defined.
#[export] Instance calls_ok_dec base sp cs : Decision (calls_ok base sp cs).
Proof. revert sp. induction cs as [|c cs IH]; intros sp; cbn; apply _. Defined.

(** ** The specification holds *)

Definition is_part (a : part) (s : nat * option pid * pview) : Prop :=
  pt_id a = s.1.1 /\ pt_header a = s.1.2 /\ ins a = kids_of s.2.

Record models (base : nat) (sp : cspec) (pc : concat) : Prop := {
  md_parts : exists ps, repr base ps pc /\ Forall2 is_part ps (cs_sources sp);
  md_count : pc_sources pc = cs_count sp;
  md_tally : pc_index_tally pc = Z.of_nat (cs_count sp);
  md_ids : Forall (fun s => (s.1.1 < cs_count sp)%nat) (cs_sources sp)
}.

Lemma src_events_tells base l1 l2 es a w pc : repr base (l1 ++ a :: l2) pc -> kids_of w = ins a -> tells_ok base w es ->
  tells base l1 l2 a (src_events (pt_id a) es) (kids_of (replay w es)) pc.
Proof.
  revert a w pc. induction es as [|e es IH]; intros a w pc H Hw Ht; cbn [src_events replay foldl].
  - rewrite Hw. by apply tells_stay.
  - destruct Ht as [Ht Hts]. eapply tells_bind; [by apply src_cb_tells|]. intros ks pc' Hk H'.
    by apply (IH (with_kids ks a) (view_event w e) pc').
Qed.

Lemma repr_app_nil base ps i h pc : repr base ps pc -> (forall s, s ∈ map pt_id ps -> s <> i) ->
  match h with Some h => (h < base)%nat /\ h ∉ mjoin (map header_of ps) | None => True end ->
  forall pc', pc_queue pc' = pc_queue pc ++ [Source i None h 0 0] -> pc_dst pc' = pc_dst pc -> pc_tags pc' = pc_tags pc ->
  pc_links pc' = pc_links pc -> pc_next pc' = pc_next pc -> repr base (ps ++ [Part i h 0 []]) pc'.
Proof.
  intros H Hi Hh pc' Hq Hd HT HL Hn. split.
  - by rewrite Hq, map_app, (rp_queue _ _ _ H).
  - rewrite map_app, join_app. cbn. by rewrite app_nil_r, Hd, (rp_dst _ _ _ H).
  - rewrite HT, HL, Hn. intros a [Ha| ->%list_elem_of_singleton]%elem_of_app; [by apply (rp_tags _ _ _ H)|].
    split; cbn; try by intros ? ? ?%elem_of_nil. intros h' ->. tauto.
  - rewrite map_app, join_app. cbn. rewrite app_nil_r. apply (rp_outs _ _ _ H).
  - rewrite map_app, join_app. cbn. rewrite app_nil_r. apply NoDup_app. split; [apply (rp_headers _ _ _ H)|].
    change (header_of (Part i h 0 [])) with (option_list h). destruct h as [h|]; cbn; [|split; [set_solver|constructor]]. destruct Hh as [_ Hh].
    split; [set_solver|apply NoDup_singleton].
  - rewrite map_app. cbn. apply NoDup_app. split; [apply (rp_ids _ _ _ H)|]. split; [|apply NoDup_singleton].
    intros x Hx ->%list_elem_of_singleton. by apply (Hi i).
  - rewrite Hn. apply (rp_next _ _ _ H).
  - rewrite HL. apply (rp_links _ _ _ H).
Qed.

Lemma repr_set_index base l1 l2 a n pc : repr base (l1 ++ a :: l2) pc ->
  repr base (l1 ++ Part (pt_id a) (pt_header a) n (pt_kids a) :: l2)
    (set_queue (around l1 l2 (set_index n (source_of a))) pc).
Proof.
  intros H. split; cbn.
  - unfold around. by rewrite map_app.
  - rewrite (rp_dst _ _ _ H). by rewrite !mjoin_mid.
  - intros b Hb. pose proof (rp_tags _ _ _ H) as Ht. rewrite elem_of_app, elem_of_cons in Hb.
    destruct Hb as [Hb|[->|Hb]]; [apply Ht; set_solver| |apply Ht; set_solver].
    destruct (Ht a ltac:(set_solver)) as [T1 T2 T3 T4 T5 T6]. by split.
  - pose proof (rp_outs _ _ _ H) as Ho. by rewrite mjoin_mid in *.
  - pose proof (rp_headers _ _ _ H) as Ho. by rewrite mjoin_mid in *.
  - pose proof (rp_ids _ _ _ H) as Ho. by rewrite map_app in *.
  - apply (rp_next _ _ _ H).
  - apply (rp_links _ _ _ H).
Qed.

Lemma headers_models ps ss h : Forall2 is_part ps ss -> Forall (fun s => s.1.2 <> Some h) ss ->
  h ∉ mjoin (map header_of ps).
Proof.
  induction 1 as [|a s ps ss (_ & Ha & _) H IH]; cbn; intros Hf; [by intros ?%elem_of_nil|].
  apply Forall_cons in Hf as [Hs Hf]. rewrite elem_of_app, elem_header. intros [Hh|Hh]; [congruence|by apply IH].
Qed.

Lemma ids_models ps ss : Forall2 is_part ps ss -> map pt_id ps = map (fun s => s.1.1) ss.
Proof. induction 1 as [|a s ps ss (Ha & _) H IH]; cbn; congruence. Qed.

Lemma add_source_models base sp pc h es : models base sp pc -> call_ok base sp (CAdd h es) ->
  exists pc', run_call (CAdd h es) pc = Ok (tt, pc') /\ models base (spec_call (CAdd h es) sp) pc'.
Proof.
  intros [(ps & H & H2) Hc Ht Hids] (Hh & Hes & Hn). cbn [run_call]. set (i := cs_count sp) in *.
  set (a := Part i h 0 []).
  set (pc1 := set_tally (pc_index_tally pc) (S i) (set_queue (pc_queue pc ++ [Source i None h 0 0]) pc)).
  assert (repr base (ps ++ a :: []) pc1) as H1.
  { apply (repr_app_nil base ps i h pc H); [| |done..].
    - rewrite (ids_models _ _ H2). intros s Hs ->. apply list_elem_of_fmap in Hs as (s' & E & Hs).
      apply (proj1 (Forall_forall _ _) Hids) in Hs. unfold i in *. lia.
    - destruct h as [h|]; [|done]. destruct Hh as [Hl Hh]. split; [done|]. by eapply headers_models. }
  destruct (src_events_tells base ps [] es a VVoid pc1 H1 eq_refl Hes) as (pc2 & ks & E & Hk & R).
  pose proof (repr_around base ps [] (with_kids ks a) pc2 R) as Hq2.
  pose proof (rp_ids _ _ _ R) as Hids2.
  assert (same_rest pc1 pc2) as (S1 & S2 & S3) by (by eapply src_events_framed).
  set (pc3 := set_queue (around ps [] (set_index (Z.of_nat i) (source_of (with_kids ks a)))) pc2).
  exists (set_tally (Z.of_nat i + 1) (S i) pc3). split.
  - unfold prop_concat_add_source. rewrite (h_bind _ _ i pc (set_tally (Z.of_nat i + 1) (S i) pc3)); [done|].
    rewrite (h_bind _ _ _ _ _ (eq_refl : gets pc_sources pc = Ok (_, pc))). rewrite Hc. fold i.
    rewrite (h_bind _ _ _ _ _ (eq_refl : gets pc_queue pc = Ok (_, pc))).
    rewrite (h_bind _ _ _ _ _ (eq_refl : modify _ pc = Ok (tt, _))).
    rewrite (h_bind _ _ _ _ _ (eq_refl : gets pc_index_tally _ = Ok (_, _))).
    rewrite (h_bind _ _ _ _ _ (eq_refl : modify _ _ = Ok (tt, pc1))).
    rewrite (h_bind _ _ _ _ _ E), (h_bind _ _ _ _ _ (eq_refl : gets pc_index_tally pc2 = Ok (_, pc2))).
    rewrite S1. cbn [pc1 set_tally pc_index_tally]. rewrite Ht. fold i.
    rewrite (h_bind _ _ _ _ _ (upd_source_run ps [] (with_kids ks a) pc2 _ Hids2 Hq2 eq_refl _)).
    rewrite chk_int_Ok by (unfold int_min, i in *; lia). rewrite (h_bind _ _ _ _ _ (eq_refl : lift (Ok _) _ = Ok (_, _))).
    rewrite (h_bind _ _ _ _ _ (eq_refl : gets pc_sources _ = Ok (_, _))). fold pc3.
    assert (pc_sources pc3 = S i) as -> by (cbn; by rewrite S2).
    by rewrite (h_bind _ _ _ _ _ (eq_refl : modify _ _ = Ok (tt, _))).
  - pose proof (repr_set_index base ps [] (with_kids ks a) (Z.of_nat i) pc2 R) as R3. split; cbn.
    + exists (ps ++ [Part i h (Z.of_nat i) ks]). split.
      * destruct R3. by split.
      * apply Forall2_app; [done|]. constructor; [|constructor]. done.
    + done.
    + lia.
    + apply Forall_app. split; [|constructor; [cbn; lia|constructor]]. eapply Forall_impl; [exact Hids|]. cbn. intros. lia.
Qed.

Lemma models_split ps ss s : Forall2 is_part ps ss -> s ∈ ss -> exists l1 a l2 s1 s2,
  ps = l1 ++ a :: l2 /\ ss = s1 ++ s :: s2 /\ is_part a s /\ Forall2 is_part l1 s1 /\ Forall2 is_part l2 s2.
Proof.
  intros H Hs. apply list_elem_of_split in Hs as (s1 & s2 & ->). apply Forall2_app_inv_r in H as (l1 & l2' & H1 & H2 & ->).
  apply Forall2_cons_inv_r in H2 as (a & l2 & Ha & H2 & ->). by exists l1, a, l2, s1, s2.
Qed.

Definition is_id (i : nat) (s : nat * option pid * pview) : Prop := s.1.1 = i.

(** The other sources have other numbers. *)
Lemma others_models l1 a l2 s1 s s2 : NoDup (map pt_id (l1 ++ a :: l2)) -> is_part a s ->
  Forall2 is_part l1 s1 -> Forall2 is_part l2 s2 ->
  Forall (fun t => t.1.1 <> s.1.1) s1 /\ Forall (fun t => t.1.1 <> s.1.1) s2.
Proof.
  intros H (Ha & _) H1 H2. rewrite map_app in H. cbn in H. rewrite (ids_models _ _ H1), (ids_models _ _ H2), Ha in H.
  apply NoDup_app in H as (_ & D2 & [D3 _]%NoDup_cons). split; apply Forall_forall; intros t Ht E.
  - apply (D2 (t.1.1)); [by apply (list_elem_of_fmap_2 (fun s => s.1.1))|]. rewrite E. apply list_elem_of_here.
  - apply D3. rewrite <- E. by apply (list_elem_of_fmap_2 (fun s => s.1.1)).
Qed.

Lemma map_others {B} i (f : nat * option pid * B -> nat * option pid * B) l : Forall (fun t => t.1.1 <> i) l ->
  map (fun t => if decide (t.1.1 = i) then f t else t) l = l.
Proof. induction 1 as [|t l Ht H IH]; cbn; [done|]. by rewrite decide_False, IH. Qed.

Lemma tell_models base sp pc i e : models base sp pc -> call_ok base sp (CTell i e) -> e <> Destroyed ->
  exists pc', run_call (CTell i e) pc = Ok (tt, pc') /\ models base (spec_call (CTell i e) sp) pc'.
Proof.
  intros [(ps & H & H2) Hc Ht Hids] (s & Hs & Hi & Hok) He.
  assert (tell_ok base s.2 e) as Htell by (by destruct e).
  destruct (models_split _ _ _ H2 Hs) as (l1 & a & l2 & s1 & s2 & -> & Ess & Ha & F1 & F2).
  pose proof Ha as (Ha1 & Ha2 & Ha3). destruct (src_cb_tells base l1 l2 a s.2 e pc H (eq_sym Ha3) Htell) as (pc' & ks & E & Hk & R).
  exists pc'. assert (pt_id a = i) as Ei by congruence. rewrite Ei in E. split; [done|].
  assert (same_rest pc pc') as (S1 & S2 & S3) by (by eapply src_cb_framed).
  destruct (others_models _ _ _ _ _ _ (rp_ids _ _ _ H) Ha F1 F2) as [O1 O2]. rewrite Hi in O1, O2.
  assert (spec_call (CTell i e) sp = CSpec (map (fun s => if decide (s.1.1 = i) then (s.1, view_event s.2 e) else s) (cs_sources sp)) (cs_count sp))
    as -> by (by destruct e).
  rewrite Ess, map_app in *. cbn [map] in *. rewrite decide_True by done. rewrite !map_others by done. split; cbn.
  - exists (l1 ++ with_kids ks a :: l2). split; [done|]. apply Forall2_app; [done|]. constructor; [|done]. by split.
  - by rewrite S2.
  - by rewrite S1.
  - rewrite Forall_app, Forall_cons in *. done.
Qed.

Lemma destroy_models base sp pc i : models base sp pc -> call_ok base sp (CTell i Destroyed) ->
  exists pc', run_call (CTell i Destroyed) pc = Ok (tt, pc') /\ models base (spec_call (CTell i Destroyed) sp) pc'.
Proof.
  intros [(ps & H & H2) Hc Ht Hids] (s & Hs & Hi & Hk).
  destruct (models_split _ _ _ H2 Hs) as (l1 & a & l2 & s1 & s2 & -> & Ess & Ha & F1 & F2).
  pose proof Ha as (Ha1 & Ha2 & Ha3). assert (pt_id a = i) as Ei by congruence.
  pose proof (rp_ids _ _ _ H) as Hnd. pose proof (repr_around _ _ _ _ _ H) as Hq.
  destruct (others_models _ _ _ _ _ _ Hnd Ha F1 F2) as [O1 O2]. rewrite Hi in O1, O2.
  assert (pt_kids a = []) as Hnil by (rewrite Hk in Ha3; unfold ins in Ha3; by destruct (pt_kids a)).
  pose proof (repr_dst _ _ _ _ _ H) as Hd. unfold shown in Hd. rewrite Hnil in Hd. cbn [app] in Hd.
  set (pc1 := set_queue (map source_of (l1 ++ l2)) pc).
  assert (pcs_destroy i pc = Ok (tt, set_dst (pc_dst pc) pc1)) as E.
  { unfold pcs_destroy. rewrite <- Ei, (h_bind _ _ _ _ _ (get_source_run l1 l2 a pc _ Hnd Hq eq_refl)).
    cbn [source_of pcs_count pcs_first pcs_header]. unfold outs. rewrite Hnil. cbn [length map head].
    change (Z.of_nat 0 =? 0) with true. rewrite bool_decide_true by done. cbn [passert].
    rewrite !(h_bind _ _ _ _ _ (eq_refl : (mret tt : C unit) pc = Ok (tt, pc))).
    rewrite (h_bind _ _ _ _ _ (eq_refl : gets pc_queue pc = Ok (_, pc))).
    rewrite (h_bind _ _ tt pc pc1).
    2: { unfold modify. rewrite Hq. unfold around. destruct (ids_around l1 l2 a Hnd). by rewrite filter_source. }
    destruct (pt_header a) as [h|] eqn:Eh; [|by destruct pc]. apply on_dst_run. f_equal. apply unlink_notin. cbn [pc1 set_queue pc_dst].
    rewrite Hd. pose proof (whole_NoDup _ _ _ _ _ H) as Hw. unfold header_of in Hw. rewrite Eh in Hw. cbn in Hw.
    apply NoDup_app in Hw as (_ & W2 & [W3 _]%NoDup_cons). intros [Hin|Hin]%elem_of_app; [by apply (W2 _ Hin), list_elem_of_here|].
    apply W3. unfold outs. rewrite Hnil. done. }
  exists (set_dst (pc_dst pc) pc1). split; [done|].
  assert (forall (l r : list (nat * option pid * pview)), Forall (fun t => t.1.1 <> i) l -> Forall (fun t => t.1.1 <> i) r ->
    filter (fun t => t.1.1 <> i) (l ++ s :: r) = l ++ r) as Hfil.
  { intros l r Hl Hr. rewrite filter_app, filter_cons_False by naive_solver. by rewrite !filter_all. }
  cbn [spec_call]. rewrite Ess, Hfil by done. split; cbn.
  - exists (l1 ++ l2). split; [|by apply Forall2_app]. split; cbn.
    + done.
    + rewrite Hd. by rewrite map_app, join_app.
    + intros b Hb. apply (rp_tags _ _ _ H). set_solver.
    + pose proof (rp_outs _ _ _ H) as Ho. rewrite mjoin_mid in Ho. rewrite map_app, join_app.
      apply (sublist_NoDup _ _ Ho). apply sublist_app; [done|]. by apply sublist_inserts_l.
    + pose proof (rp_headers _ _ _ H) as Ho. rewrite mjoin_mid in Ho. rewrite map_app, join_app.
      apply (sublist_NoDup _ _ Ho). apply sublist_app; [done|]. by apply sublist_inserts_l.
    + rewrite map_app in *. cbn in Hnd. apply (sublist_NoDup _ _ Hnd). apply sublist_app; [done|]. by constructor.
    + apply (rp_next _ _ _ H).
    + apply (rp_links _ _ _ H).
  - done.
  - done.
  - rewrite Ess in Hids. rewrite Forall_app, Forall_cons in *. tauto.
Qed.

Lemma calls_models base cs : forall sp pc, models base sp pc -> calls_ok base sp cs ->
  exists pc', run_calls cs pc = Ok (tt, pc') /\ models base (foldl (fun sp c => spec_call c sp) sp cs) pc'.
Proof.
  induction cs as [|c cs IH]; intros sp pc H Hok; cbn [run_calls foldl]; [by exists pc|].
  destruct Hok as [Hok Hoks].
  assert (exists pc', run_call c pc = Ok (tt, pc') /\ models base (spec_call c sp) pc') as (pc1 & E & H1).
  { destruct c as [h es|i e]; [by apply add_source_models|]. destruct e; first [by apply destroy_models|by apply tell_models]. }
  destruct (IH _ _ H1 Hoks) as (pc2 & E2 & H2). exists pc2. split; [|done]. by rewrite (h_bind _ _ _ _ _ E).
Qed.

(** What is shown is what the sources have. *)
Lemma models_shows base sp pc : models base sp pc -> shows pc = spec_shows sp.
Proof.
  intros [(ps & H & H2) _ _ _]. unfold shows. rewrite (rp_dst _ _ _ H). pose proof (rp_tags _ _ _ H) as Ht.
  pose proof (rp_links _ _ _ H) as Hl. unfold spec_shows. clear H. revert Ht.
  set (f := fun o => default o (pc_links pc !! o)).
  induction H2 as [|a s ps ss (Ha1 & Ha2 & Ha3) H2 IH]; cbn; intros Ht; [done|]. rewrite map_app. f_equal; [|apply IH; set_solver].
  pose proof (Ht a ltac:(set_solver)) as Hta. rewrite <- Ha2, <- Ha3. unfold shown, ins, outs.
  assert (map f (map snd (pt_kids a)) = map fst (pt_kids a)) as E.
  { pose proof (tg_link _ _ _ _ _ Hta) as Hlk. revert Hlk. generalize (pt_kids a). induction l as [|[c o] l IHl]; cbn; intros Hlk; [done|].
    unfold f at 1. rewrite (Hlk c o) by set_solver. cbn. rewrite IHl; [done|]. intros. apply Hlk. by apply list_elem_of_further. }
  destruct (pt_kids a) as [|k ks]; [done|]. rewrite map_app, E. unfold header_of.
  destruct (pt_header a) as [h|] eqn:Eh; [|done]. cbn. unfold f. destruct (pc_links pc !! h) as [d|] eqn:El; [|done].
  apply Hl in El. pose proof (tg_header _ _ _ _ _ Hta _ Eh). lia.
Qed.


(** Two sources, the second with a header: children come, move and go, and
    the second source is emptied. *)
Definition demo_calls : list ccall :=
  [CAdd None [SetDir None; AddChildVectorDirect [1; 2]%nat];
   CAdd (Some 9%nat) [];
   CTell 1 (SetDir None); CTell 1 (AddChild 5%nat false); CTell 1 (AddChild 6%nat false);
   CTell 0 (AddChild 3%nat false); CTell 0 (AddChildBefore 4%nat (Some 2%nat)); CTell 0 (MoveChild 2%nat None);
   CTell 0 (DelChild 1%nat); CTell 1 (DelChild 5%nat); CAdd (Some 8%nat) []; CTell 1 (DelChild 6%nat);
   CTell 1 Destroyed; CTell 2 (SetDir None); CTell 2 (AddChild 7%nat false)].

