(* ===== verification/PropNodefilter.v ===== *)
(** The filtered and sorted view of a list (prop_nodefilter.c): a property that
    shows those children of another that match a text and some predicates, in
    the order of up to four keys.  The view is maintained change by change; what
    is proved is that it is always what filtering and sorting all of the list
    would give. *)
From S2P Require Import Prelude Clib Collate PropStore PropTree PropMirror PropList.
From Stdlib Require Import SpecFloat.

Local Open Scope Z_scope.

(** * Data *)

Definition MAX_SORT_KEYS : nat := 4.

(** [sortkey_type] with [sk]. *)
Inductive sortkey :=
| SORTKEY_NONE
| SORTKEY_RSTR (s : option (list Z))
| SORTKEY_INT (i : Z)
| SORTKEY_FLOAT (f : spec_float)
| SORTKEY_CSTR (s : list Z)
| SORTKEY_VOID.

Definition sortkey_type (k : sortkey) : Z :=
  match k with
  | SORTKEY_NONE => 0 | SORTKEY_RSTR _ => 1 | SORTKEY_INT _ => 2 | SORTKEY_FLOAT _ => 3 | SORTKEY_CSTR _ => 4
  | SORTKEY_VOID => 5
  end.

(** A string map: the pairs, and the value of the terminator. *)
Definition sortmap : Type := list (list Z * Z) * Z.

Inductive prop_nf_cmp := PROP_NF_CMP_EQ | PROP_NF_CMP_NEQ.
Inductive prop_nf_mode := PROP_NF_MODE_INCLUDE | PROP_NF_MODE_EXCLUDE.

(** [prop_nf_pred_t]: compares with a string, or with an integer when there is
    none. *)
Record pred := Pred {
  pnp_path : list Z;
  pnp_cf : prop_nf_cmp;
  pnp_mode : prop_nf_mode;
  pnp_id : Z;
  pnp_enabled : bool;
  pnp_str : option (list Z);
  pnp_int : Z
}.

(** [nfnode_t]; of its predicates the number of the configuration and
    [nfnp_set], of its subscriptions whether there are. *)
Record nfnode := Nfnode {
  nn_in : pid;
  nn_out : option pid;
  nn_multisub : bool;
  nn_preds : list (Z * bool);
  nn_inserted : bool;
  nn_keys : list sortkey;
  nn_sortsub : list bool
}.

(** The texts below a property that a filter looks at. *)
Inductive ptext :=
| PText (s : list Z)
| PNode (l : list ptext)
| POther.

(** What the subscriptions to a child find when they are made: its texts, and
    by path the event for a sort key and the value for a predicate. *)
Record nodeworld := Nodeworld {
  w_text : ptext;
  w_key : list Z -> pevent;
  w_str : list Z -> option (list Z);
  w_int : list Z -> Z
}.

(** What is asked of other parts of the tree. *)
Inductive sent :=
| SentHaveMore (yes : bool)
| SentWantMore
| SentSuggestFocus (out : pid)
| SentDelete (ps : list pid)
| SentMove (p : pid) (before : option pid).

(** [prop_nf_t].  A node is known by its address; [nf_out] is [out_queue], or
    the nodes of [out_tree] from its first to its last.  Properties made for
    nodes count up from [nf_next]. *)
Record nf := Nf {
  nf_refcount : Z;
  nf_autodestroy : bool;
  nf_pred_tally : Z;
  nf_nodecount : Z;
  nf_sorted : bool;
  nf_srcsub : bool;
  nf_dst : list pid;
  nf_nodes : gmap nat nfnode;
  nf_in : list nat;
  nf_out : list nat;
  nf_filter : option (list Z);
  nf_sortkey : list (option (list Z));
  nf_sortmap : list (option sortmap);
  nf_preds : list pred;
  nf_pending : option bool;
  nf_sortorder : list Z;
  nf_hide : list bool;
  nf_tags : tags nat;
  nf_links : gmap pid pid;
  nf_next : nat;
  nf_world : pid -> nodeworld;
  nf_sent : list sent
}.

(** The record with some fields changed. *)
Definition upd_rest (refcount : Z) (tally : Z) (count : Z) (src : bool) (filter : option (list Z)) (ps : list pred)
    (pending : option bool) (sent : list sent) (x : nf) : nf :=
  Nf refcount (nf_autodestroy x) tally count (nf_sorted x) src (nf_dst x) (nf_nodes x) (nf_in x) (nf_out x) filter
    (nf_sortkey x) (nf_sortmap x) ps pending (nf_sortorder x) (nf_hide x) (nf_tags x) (nf_links x) (nf_next x)
    (nf_world x) sent.
Definition set_refcount v x := upd_rest v (nf_pred_tally x) (nf_nodecount x) (nf_srcsub x) (nf_filter x) (nf_preds x) (nf_pending x) (nf_sent x) x.
Definition set_tally v x := upd_rest (nf_refcount x) v (nf_nodecount x) (nf_srcsub x) (nf_filter x) (nf_preds x) (nf_pending x) (nf_sent x) x.
Definition set_nodecount v x := upd_rest (nf_refcount x) (nf_pred_tally x) v (nf_srcsub x) (nf_filter x) (nf_preds x) (nf_pending x) (nf_sent x) x.
Definition set_srcsub v x := upd_rest (nf_refcount x) (nf_pred_tally x) (nf_nodecount x) v (nf_filter x) (nf_preds x) (nf_pending x) (nf_sent x) x.
Definition set_filter v x := upd_rest (nf_refcount x) (nf_pred_tally x) (nf_nodecount x) (nf_srcsub x) v (nf_preds x) (nf_pending x) (nf_sent x) x.
Definition set_preds v x := upd_rest (nf_refcount x) (nf_pred_tally x) (nf_nodecount x) (nf_srcsub x) (nf_filter x) v (nf_pending x) (nf_sent x) x.
Definition set_pending v x := upd_rest (nf_refcount x) (nf_pred_tally x) (nf_nodecount x) (nf_srcsub x) (nf_filter x) (nf_preds x) v (nf_sent x) x.
Definition add_sent v x := upd_rest (nf_refcount x) (nf_pred_tally x) (nf_nodecount x) (nf_srcsub x) (nf_filter x) (nf_preds x) (nf_pending x) (nf_sent x ++ [v]) x.

(** The lists. *)
Definition upd_lists (dst : list pid) (nodes : gmap nat nfnode) (i o : list nat) (T : tags nat) (L : gmap pid pid) (n : nat) (x : nf) : nf :=
  Nf (nf_refcount x) (nf_autodestroy x) (nf_pred_tally x) (nf_nodecount x) (nf_sorted x) (nf_srcsub x) dst nodes i o
    (nf_filter x) (nf_sortkey x) (nf_sortmap x) (nf_preds x) (nf_pending x) (nf_sortorder x) (nf_hide x) T L n
    (nf_world x) (nf_sent x).
Definition set_dst v x := upd_lists v (nf_nodes x) (nf_in x) (nf_out x) (nf_tags x) (nf_links x) (nf_next x) x.
Definition set_nodes v x := upd_lists (nf_dst x) v (nf_in x) (nf_out x) (nf_tags x) (nf_links x) (nf_next x) x.
Definition set_in v x := upd_lists (nf_dst x) (nf_nodes x) v (nf_out x) (nf_tags x) (nf_links x) (nf_next x) x.
Definition set_out v x := upd_lists (nf_dst x) (nf_nodes x) (nf_in x) v (nf_tags x) (nf_links x) (nf_next x) x.
Definition set_tags v x := upd_lists (nf_dst x) (nf_nodes x) (nf_in x) (nf_out x) v (nf_links x) (nf_next x) x.
Definition set_links v x := upd_lists (nf_dst x) (nf_nodes x) (nf_in x) (nf_out x) (nf_tags x) v (nf_next x) x.
Definition set_next v x := upd_lists (nf_dst x) (nf_nodes x) (nf_in x) (nf_out x) (nf_tags x) (nf_links x) v x.

(** The order, and the world outside. *)
Definition upd_order (sorted : bool) (key : list (option (list Z))) (map : list (option sortmap)) (order : list Z) (hide : list bool)
    (w : pid -> nodeworld) (x : nf) : nf :=
  Nf (nf_refcount x) (nf_autodestroy x) (nf_pred_tally x) (nf_nodecount x) sorted (nf_srcsub x) (nf_dst x) (nf_nodes x)
    (nf_in x) (nf_out x) (nf_filter x) key map (nf_preds x) (nf_pending x) order hide (nf_tags x) (nf_links x) (nf_next x)
    w (nf_sent x).
Definition set_sorted v x := upd_order v (nf_sortkey x) (nf_sortmap x) (nf_sortorder x) (nf_hide x) (nf_world x) x.
Definition set_order (i : nat) (key : option (list Z)) (map : option sortmap) (order : Z) (hide : bool) x :=
  upd_order (nf_sorted x) (<[i := key]> (nf_sortkey x)) (<[i := map]> (nf_sortmap x)) (<[i := order]> (nf_sortorder x))
    (<[i := hide]> (nf_hide x)) (nf_world x) x.
Definition set_world p w x :=
  upd_order (nf_sorted x) (nf_sortkey x) (nf_sortmap x) (nf_sortorder x) (nf_hide x)
    (fun q => if decide (q = p) then w else nf_world x q) x.

(** A node with some fields changed. *)
Definition with_out o n := Nfnode (nn_in n) o (nn_multisub n) (nn_preds n) (nn_inserted n) (nn_keys n) (nn_sortsub n).
Definition with_multisub b n := Nfnode (nn_in n) (nn_out n) b (nn_preds n) (nn_inserted n) (nn_keys n) (nn_sortsub n).
Definition with_preds ps n := Nfnode (nn_in n) (nn_out n) (nn_multisub n) ps (nn_inserted n) (nn_keys n) (nn_sortsub n).
Definition with_inserted b n := Nfnode (nn_in n) (nn_out n) (nn_multisub n) (nn_preds n) b (nn_keys n) (nn_sortsub n).
Definition with_key i k n := Nfnode (nn_in n) (nn_out n) (nn_multisub n) (nn_preds n) (nn_inserted n) (<[i := k]> (nn_keys n)) (nn_sortsub n).
Definition with_sortsub i b n := Nfnode (nn_in n) (nn_out n) (nn_multisub n) (nn_preds n) (nn_inserted n) (nn_keys n) (<[i := b]> (nn_sortsub n)).

(** * Computations *)

Notation N := (H nf).

Definition on_dst (f : list pid -> res (list pid)) : N unit := d ← gets nf_dst; d ← lift (f d); modify (set_dst d).
Definition get_node (n : nat) : N nfnode :=
  m ← gets nf_nodes; match m !! n with Some x => mret x | None => fault UseAfterFree end.
Definition upd_node (n : nat) (f : nfnode -> nfnode) : N unit :=
  x ← get_node n; m ← gets nf_nodes; modify (set_nodes (<[n := f x]> m)).

(** What follows an element. *)
Fixpoint behind (n : nat) (l : list nat) : list nat :=
  match l with [] => [] | m :: l => if decide (m = n) then l else behind n l end.

(** * Filtering *)

Section nodefilter.
(** The table of [unicode_casefold], and the setting of [dictcmp]. *)
Context (casefoldtable : list Z) (ignore_the_prefix : bool).
(** The address that [calloc] returns when those in the list are in use. *)
Variable calloc : list nat -> nat.

Definition find_pred (id : Z) (ps : list pred) : option pred := List.find (fun p => pnp_id p =? id) ps.

(** A predicate that applies filters the node out, by its mode. *)
Definition pred_hides (p : pred) : bool :=
  match pnp_mode p with PROP_NF_MODE_INCLUDE => negb (pnp_enabled p) | PROP_NF_MODE_EXCLUDE => pnp_enabled p end.

Fixpoint eval_preds (ps : list pred) (l : list (Z * bool)) : res bool :=
  match l with
  | [] => Ok false
  | (id, set) :: l =>
      if negb set then eval_preds ps l
      else
        match find_pred id ps with
        | None => Fault UseAfterFree
        | Some p => if pred_hides p then Ok true else eval_preds ps l
        end
  end.

Definition filterstr (s q : list Z) : res bool :=
  r ← mystrstr casefoldtable (s ++ [0]) (q ++ [0]); Ok (bool_decide (is_Some r)).

Fixpoint nf_filtercheck (p : ptext) (q : list Z) : res bool :=
  match p with
  | PText s => filterstr s q
  | PNode l =>
      (fix any (l : list ptext) : res bool :=
         match l with [] => Ok false | c :: l => m ← nf_filtercheck c q; if m : bool then Ok true else any l end) l
  | POther => Ok false
  end.

(** ** Sorting *)

Definition key_at (i : nat) (n : nfnode) : sortkey := nth i (nn_keys n) SORTKEY_NONE.

(** The comparison of two keys of the same type. *)
Definition key_cmp (a b : sortkey) : res Z :=
  match a, b with
  | SORTKEY_RSTR (Some s), SORTKEY_RSTR (Some t) => dictcmp casefoldtable ignore_the_prefix (s ++ [0]) (t ++ [0])
  | SORTKEY_RSTR _, SORTKEY_RSTR _ => Fault NullDeref
  | SORTKEY_CSTR s, SORTKEY_CSTR t => dictcmp casefoldtable ignore_the_prefix (s ++ [0]) (t ++ [0])
  | SORTKEY_INT i, SORTKEY_INT j => chk_int (i - j)
  | SORTKEY_FLOAT f, SORTKEY_FLOAT g => Ok (if SFltb f g then -1 else if SFltb g f then 1 else 0)
  | _, _ => Ok 0
  end.

(** The keys from [i] on. *)
Fixpoint keys_cmp (fuel i : nat) (x : nf) (a b : nfnode) : res (option Z) :=
  match fuel with
  | O => Ok None
  | S fuel =>
      match nth i (nf_sortkey x) None with
      | None => keys_cmp fuel (S i) x a b
      | Some _ =>
          let ka := key_at i a in
          let kb := key_at i b in
          if negb (sortkey_type ka =? sortkey_type kb) then Ok (Some (sortkey_type ka - sortkey_type kb))
          else
            r ← key_cmp ka kb;
            if negb (r =? 0) then r ← chk_int (r * nth i (nf_sortorder x) 0); Ok (Some r)
            else keys_cmp fuel (S i) x a b
      end
  end.

Definition nf_egress_cmp (x : nf) (a b : nat) : res Z :=
  match nf_nodes x !! a, nf_nodes x !! b with
  | Some na, Some nb =>
      r ← keys_cmp MAX_SORT_KEYS 0 x na nb;
      Ok (match r with Some r => r | None => if (a <? b)%nat then -1 else 1 end)
  | _, _ => Fault UseAfterFree
  end.

(** [RB_INSERT_SORTED]: a search in a tree with the nodes [l] ends where the
    comparisons with [n] change their sign.  If they do so more than once the
    place depends on the shape of the tree, which is not modelled. *)
Fixpoint rb_insert_sorted (cmp : nat -> res Z) (n : nat) (l : list nat) : res (list nat) :=
  match l with
  | [] => Ok [n]
  | m :: l' =>
      r ← cmp m;
      if 0 <? r then l' ← rb_insert_sorted cmp n l'; Ok (m :: l')
      else if r <? 0 then
        (fix all_below (k : list nat) : res (list nat) :=
           match k with [] => Ok (n :: l) | m :: k => r ← cmp m; if r <? 0 then all_below k else Fault NoFuel end) l'
      else Fault AssertFailed
  end.

(** ** The view *)

(** The first node of a list that is shown, by its property. *)
Fixpoint first_out (m : gmap nat nfnode) (l : list nat) : option pid :=
  match l with
  | [] => None
  | n :: l => match m !! n ≫= nn_out with Some o => Some o | None => first_out m l end
  end.
Fixpoint first_inserted (m : gmap nat nfnode) (l : list nat) : option nat :=
  match l with
  | [] => None
  | n :: l => match m !! n with Some x => if nn_inserted x then Some n else first_inserted m l | None => first_inserted m l end
  end.

(** The property of the next node that is shown; the links of a node that is
    not in the list yet are null. *)
Definition next_shown (n : nat) : N (option pid) :=
  m ← gets nf_nodes; l ← gets nf_out; mret (first_out m (behind n l)).

(** The node is put where it belongs among those in the order. *)
Definition nf_place_node (n : nat) : N unit :=
  sorted ← gets nf_sorted;
  if sorted : bool then
    s ← gets id;
    l ← gets nf_out;
    l ← lift (rb_insert_sorted (nf_egress_cmp s n) n l);
    modify (set_out l)
  else
    m ← gets nf_nodes;
    i ← gets nf_in;
    l ← gets nf_out;
    match place (first_inserted m (behind n i)) n l with
    | Some l => modify (set_out l)
    | None => fault OobWrite
    end.

Definition nf_insert_node (n : nat) : N unit :=
  x ← get_node n;
  _ ← (if nn_inserted x then l ← gets nf_out; modify (set_out (unlink n l)) else mret tt);
  _ ← upd_node n (with_inserted true);
  _ ← nf_place_node n;
  x ← get_node n;
  match nn_out x with
  | None => mret tt
  | Some o => b ← next_shown n; on_dst (list_move o b)
  end.

(** A key is missing that the node has to have. *)
Fixpoint key_missing (i : nat) (keys : list (option (list Z))) (hide : list bool) (n : nfnode) : bool :=
  match keys, hide with
  | k :: keys, h :: hide =>
      (bool_decide (is_Some k) && (sortkey_type (key_at i n) =? 0) && h) || key_missing (S i) keys hide n
  | _, _ => false
  end.

(** Whether the node is to be shown. *)
Definition node_enabled (x : nf) (n : nfnode) : res bool :=
  let en := negb (key_missing 0 (nf_sortkey x) (nf_hide x) n) in
  en ← (if en then
          match nf_filter x with
          | Some q => nf_filtercheck (w_text (nf_world x (nn_in n))) q
          | None => Ok true
          end
        else Ok false);
  h ← eval_preds (nf_preds x) (nn_preds n);
  Ok (en && negb h).

Definition make_out (p : pid) : N pid :=
  o ← gets nf_next;
  _ ← modify (set_next (S o));
  L ← gets nf_links;
  _ ← modify (set_links (<[o := p]> L));
  mret o.

Definition nf_update_egress (n : nat) : N unit :=
  s ← gets id;
  x ← get_node n;
  en ← lift (node_enabled s x);
  match en : bool, nn_out x with
  | true, None =>
      o ← make_out (nn_in x);
      _ ← upd_node n (with_out (Some o));
      b ← next_shown n;
      on_dst (list_set_parent o b)
  | false, Some o =>
      _ ← on_dst (fun d => Ok (unlink o d));
      L ← gets nf_links;
      _ ← modify (set_links (delete o L));
      upd_node n (with_out None)
  | _, _ => mret tt
  end.

(** ** Subscriptions of a node *)

Definition nf_multi_filter (n : nat) : N unit := nf_update_egress n.

(** The subscription tells what is there before [prop_subscribe] returns. *)
Definition nf_update_multisub (n : nat) : N unit :=
  f ← gets nf_filter;
  x ← get_node n;
  match f, nn_multisub x with
  | Some _, false => _ ← nf_multi_filter n; upd_node n (with_multisub true)
  | None, true => upd_node n (with_multisub false)
  | _, _ => mret tt
  end.

Definition set_pred_flag (id : Z) (s : bool) (l : list (Z * bool)) : list (Z * bool) :=
  map (fun p => if p.1 =? id then (p.1, s) else p) l.
Definition pred_flag (id : Z) (l : list (Z * bool)) : option bool := snd <$> List.find (fun p => p.1 =? id) l.

(** [nfnp_update_str] and [nfnp_update_int], from the comparison on. *)
Definition nfnp_update (n : nat) (id : Z) (s : bool) : N unit :=
  x ← get_node n;
  match pred_flag id (nn_preds x) with
  | None => fault UseAfterFree
  | Some old =>
      if Bool.eqb old s then mret tt
      else _ ← upd_node n (fun x => with_preds (set_pred_flag id s (nn_preds x)) x); nf_update_egress n
  end.

Definition the_pred (id : Z) : N pred :=
  ps ← gets nf_preds; match find_pred id ps with Some p => mret p | None => fault UseAfterFree end.

Definition cmp_result (cf : prop_nf_cmp) (eq : bool) : bool :=
  match cf with PROP_NF_CMP_EQ => eq | PROP_NF_CMP_NEQ => negb eq end.

Definition nfnp_update_str (n : nat) (id : Z) (str : option (list Z)) : N unit :=
  p ← the_pred id;
  s ← not_null (pnp_str p);
  nfnp_update n id (cmp_result (pnp_cf p) (bool_decide (default [] str = s))).
Definition nfnp_update_int (n : nat) (id : Z) (val : Z) : N unit :=
  p ← the_pred id;
  nfnp_update n id (cmp_result (pnp_cf p) (val =? pnp_int p)).

Definition nfn_insert_pred (n : nat) (p : pred) : N unit :=
  _ ← upd_node n (fun x => with_preds ((pnp_id p, false) :: nn_preds x) x);
  x ← get_node n;
  w ← gets nf_world;
  match pnp_str p with
  | Some _ => nfnp_update_str n (pnp_id p) (w_str (w (nn_in x)) (pnp_path p))
  | None => nfnp_update_int n (pnp_id p) (w_int (w (nn_in x)) (pnp_path p))
  end.

Definition nfn_insert_preds (n : nat) : N unit := ps ← gets nf_preds; for_each ps (nfn_insert_pred n).

Definition map_find (m : sortmap) (s : list Z) : Z :=
  match List.find (fun p => bool_decide (p.1 = s)) m.1 with Some p => p.2 | None => m.2 end.

(** The key that an event gives. *)
Definition event_key (m : option sortmap) (e : pevent) : res sortkey :=
  match e with
  | SetRstring s _ _ => Ok (match m with Some m => SORTKEY_INT (map_find m s) | None => SORTKEY_RSTR (Some s) end)
  | SetUri t _ _ =>
      match m, t with
      | Some m, Some s => Ok (SORTKEY_INT (map_find m s))
      | Some m, None => if bool_decide (m.1 = []) then Ok (SORTKEY_INT m.2) else Fault NullDeref
      | None, _ => Ok (SORTKEY_RSTR t)
      end
  | SetInt v _ => Ok (SORTKEY_INT v)
  | SetFloat v _ _ => Ok (SORTKEY_FLOAT v)
  | _ => Ok SORTKEY_VOID
  end.

Definition nf_set_sortkey_x (i : nat) (n : nat) (e : pevent) : N unit :=
  maps ← gets nf_sortmap;
  k ← lift (event_key (nth i maps None) e);
  _ ← upd_node n (with_key i k);
  _ ← nf_insert_node n;
  nf_update_egress n.

Definition nf_update_order_x (n i : nat) : N unit :=
  _ ← upd_node n (with_sortsub i false);
  keys ← gets nf_sortkey;
  match nth i keys None with
  | None => _ ← upd_node n (with_key i SORTKEY_NONE); nf_insert_node n
  | Some path =>
      x ← get_node n;
      w ← gets nf_world;
      _ ← nf_set_sortkey_x i n (w_key (w (nn_in x)) path);
      upd_node n (with_sortsub i true)
  end.

Definition nf_update_order_all (n : nat) : N unit := for_each (seq 0 MAX_SORT_KEYS) (nf_update_order_x n).

(** ** Nodes *)

Definition new_node (p : pid) : nfnode :=
  Nfnode p None false [] false (replicate MAX_SORT_KEYS SORTKEY_NONE) (replicate MAX_SORT_KEYS false).

(** The new node of the child [p], before the node [b]. *)
Definition link_node (p : pid) (b : option nat) : N nat :=
  l ← gets nf_in;
  let n := calloc l in
  T ← gets nf_tags;
  _ ← modify (set_tags (prop_tag_set p 0 n T));
  m ← gets nf_nodes;
  _ ← modify (set_nodes (<[n := new_node p]> m));
  match place b n l with
  | Some l => _ ← modify (set_in l); mret n
  | None => fault OobWrite
  end.

Definition start_node (n : nat) : N unit :=
  _ ← nf_update_multisub n;
  _ ← nfn_insert_preds n;
  _ ← nf_update_order_all n;
  nf_update_egress n.

Definition nf_add_node (p : pid) (b : option nat) : N unit :=
  c ← gets nf_nodecount;
  c ← lift (chk_int (c + 1));
  _ ← modify (set_nodecount c);
  n ← link_node p b;
  start_node n.

Definition nf_add_nodes (ps : list pid) (b : option nat) : N unit :=
  c ← gets nf_nodecount;
  c ← lift (chk_int (c + Z.of_nat (length ps)));
  _ ← modify (set_nodecount c);
  for_each ps (fun p => n ← link_node p b; start_node n).

Definition nf_del_node (n : nat) : N unit :=
  c ← gets nf_nodecount;
  c ← lift (chk_int (c - 1));
  _ ← modify (set_nodecount c);
  i ← gets nf_in;
  _ ← modify (set_in (unlink n i));
  l ← gets nf_out;
  _ ← modify (set_out (unlink n l));
  x ← get_node n;
  _ ← match nn_out x with
      | Some o =>
          _ ← on_dst (fun d => Ok (unlink o d));
          L ← gets nf_links;
          modify (set_links (delete o L))
      | None => mret tt
      end;
  m ← gets nf_nodes;
  modify (set_nodes (delete n m)).

Definition nf_move_node (n : nat) (b : option nat) : N unit :=
  i ← gets nf_in;
  match place b n (unlink n i) with
  | Some i => _ ← modify (set_in i); nf_insert_node n
  | None => fault OobWrite
  end.

Definition nf_find_node (p : option pid) : N (option nat) :=
  match p with
  | None => mret None
  | Some p =>
      T ← gets nf_tags;
      match prop_tag_get T p 0 with Some n => mret (Some n) | None => fault AssertFailed end
  end.

Definition clear_tag (p : pid) : N (option nat) :=
  T ← gets nf_tags;
  let '(r, T) := prop_tag_clear p 0 T in
  _ ← modify (set_tags T); mret r.

(** The nodes of a list, each found first when its turn comes. *)
Definition nf_clear : N unit :=
  i ← gets nf_in;
  for_each i (fun n => x ← get_node n; _ ← clear_tag (nn_in x); nf_del_node n).

(** What is left of [prop_nf_release0] once the last reference goes: the
    assertions on the lists. *)
Definition prop_nf_release0 : N unit :=
  c ← gets nf_refcount;
  c ← lift (chk_int (c - 1));
  _ ← modify (set_refcount c);
  if 0 <? c then mret tt
  else
    _ ← modify (set_srcsub false);
    auto ← gets nf_autodestroy;
    _ ← (if negb auto then nf_clear else mret tt);
    _ ← modify (set_dst []);
    i ← gets nf_in;
    _ ← passert (bool_decide (i = []));
    o ← gets nf_out;
    _ ← passert (bool_decide (o = []));
    modify (fun x => set_filter None (set_preds [] x)).

Definition nf_suggest_focus (n : nat) : N unit :=
  x ← get_node n;
  match nn_out x with Some o => modify (add_sent (SentSuggestFocus o)) | None => mret tt end.

Definition prop_nf_src_cb (e : pevent) : N unit :=
  match e with
  | AddChild p _ => nf_add_node p None
  | AddChildBefore p b => b ← nf_find_node b; nf_add_node p b
  | AddChildVectorDirect ps => nf_add_nodes ps None
  | DelChild p => n ← clear_tag p; n ← not_null n; nf_del_node n
  | MoveChild p q =>
      n ← nf_find_node (Some p); n ← not_null n;
      b ← nf_find_node q;
      nf_move_node n b
  | SetDir _ => mret tt
  | SetVoid _ => nf_clear
  | Destroyed => _ ← modify (set_srcsub false); prop_nf_release0
  | HaveMoreChilds yes =>
      f ← gets nf_filter;
      match f with
      | None => modify (add_sent (SentHaveMore yes))
      | Some _ => modify (set_pending (Some yes))
      end
  | WantMoreChilds | ReqMoveChild _ _ | SelectChild _ _ => mret tt
  | SuggestFocus p => n ← nf_find_node (Some p); n ← not_null n; nf_suggest_focus n
  | _ => fault AssertFailed
  end.

(** ** Requests for the view *)

Section requests.
(** The origin of a property through all links. *)
Variable origin : pid -> pid.

Definition nf_translate_del_multi (ps : list pid) : N unit := modify (add_sent (SentDelete (map origin ps))).

Definition nf_translate_req_move_child (p : pid) (before : option pid) : N unit :=
  keys ← gets nf_sortkey;
  if existsb (fun k => bool_decide (is_Some k)) keys then mret tt
  else
    f ← gets nf_filter;
    if bool_decide (is_Some f) then mret tt
    else
      ps ← gets nf_preds;
      if existsb pnp_enabled ps then mret tt
      else
        L ← gets nf_links;
        c ← not_null (L !! p);
        modify (add_sent (SentMove c (before ≫= fun b => L !! b))).

Inductive dst_event := DstDelete (ps : list pid) | DstReqMove (p : pid) (before : option pid) | DstDestroyed | DstWantMore.
Definition prop_nf_dst_cb (e : dst_event) : N unit :=
  match e with
  | DstDelete ps => nf_translate_del_multi ps
  | DstDestroyed => fault AssertFailed
  | DstReqMove p b => nf_translate_req_move_child p b
  | DstWantMore => s ← gets nf_srcsub; if s : bool then modify (add_sent SentWantMore) else mret tt
  end.
End requests.

(** ** Filters, predicates, order *)

Definition nf_set_filter (str : option (list Z)) : N unit :=
  let str := match str with Some [] => None | _ => str end in
  _ ← modify (set_filter str);
  p ← gets nf_pending;
  _ ← match str, p with
      | None, Some yes => _ ← modify (add_sent (SentHaveMore yes)); modify (set_pending None)
      | _, _ => mret tt
      end;
  i ← gets nf_in;
  for_each i (fun n => _ ← nf_update_multisub n; nf_update_egress n).

Definition prop_nf_create (autodestroy : bool) (next : nat) (w : pid -> nodeworld) : nf :=
  Nf (if autodestroy then 2 else 1) autodestroy 0 0 false true [] ∅ [] [] None (replicate MAX_SORT_KEYS None)
    (replicate MAX_SORT_KEYS None) [] None (replicate MAX_SORT_KEYS 0) (replicate MAX_SORT_KEYS false) ∅ ∅ next w [].

Definition prop_nf_retain : N unit := c ← gets nf_refcount; c ← lift (chk_int (c + 1)); modify (set_refcount c).

Definition enable_pred (id : Z) (v : bool) (ps : list pred) : list pred :=
  map (fun p => if pnp_id p =? id then Pred (pnp_path p) (pnp_cf p) (pnp_mode p) (pnp_id p) v (pnp_str p) (pnp_int p) else p) ps.

Definition pnp_set_enable (id : Z) (v : Z) : N unit :=
  p ← the_pred id;
  let v := negb (v =? 0) in
  if Bool.eqb (pnp_enabled p) v then mret tt
  else
    ps ← gets nf_preds;
    _ ← modify (set_preds (enable_pred id v ps));
    i ← gets nf_in;
    for_each i nf_update_egress.

(** [prop_nf_pred_str_add] and [prop_nf_pred_int_add]; [enable] is the value of
    the property that enables the predicate, when there is one. *)
Definition prop_nf_pred_add (path : list Z) (cf : prop_nf_cmp) (str : option (list Z)) (val : Z) (enable : option Z)
    (mode : prop_nf_mode) : N Z :=
  id ← gets nf_pred_tally;
  id ← lift (chk_int (id + 1));
  _ ← modify (set_tally id);
  ps ← gets nf_preds;
  _ ← modify (set_preds (Pred path cf mode id (bool_decide (enable = None)) str val :: ps));
  _ ← match enable with Some v => pnp_set_enable id v | None => mret tt end;
  p ← the_pred id;
  i ← gets nf_in;
  _ ← for_each i (fun n => nfn_insert_pred n p);
  mret id.

(** The first of the node's predicates with that configuration goes. *)
Fixpoint drop_pred (id : Z) (l : list (Z * bool)) : list (Z * bool) :=
  match l with [] => [] | p :: l => if p.1 =? id then l else p :: drop_pred id l end.

Definition prop_nf_pred_remove (id : Z) : N unit :=
  if id =? 0 then mret tt
  else
    ps ← gets nf_preds;
    match find_pred id ps with
    | None => mret tt
    | Some _ =>
        i ← gets nf_in;
        _ ← for_each i (fun n =>
              x ← get_node n;
              _ ← passert (bool_decide (is_Some (pred_flag id (nn_preds x))));
              _ ← upd_node n (fun x => with_preds (drop_pred id (nn_preds x)) x);
              nf_update_egress n);
        ps ← gets nf_preds;
        modify (set_preds (filter (fun p => pnp_id p <> id) ps))
    end.

Definition chksorted (keys : list (option (list Z))) : bool := existsb (fun k => bool_decide (is_Some k)) keys.

(** The key is set that way already. *)
Definition sort_same (x : nf) (path : option (list Z)) (order : Z) (idx : nat) : bool :=
  match nth idx (nf_sortkey x) None with
  | Some k => bool_decide (path = Some k) && (nth idx (nf_sortorder x) 0 =? order)
  | None => bool_decide (path = None)
  end.

Definition prop_nf_sort (path : option (list Z)) (desc : bool) (idx : nat) (m : option sortmap) (hide_on_missing : bool) : N unit :=
  let order := if desc then -1 else 1 in
  _ ← passert (bool_decide (idx < MAX_SORT_KEYS)%nat);
  same ← gets (fun x => sort_same x path order idx);
  if same : bool
  then mret tt
  else
    _ ← modify (match path with
                | Some _ => set_order idx path m order hide_on_missing
                | None => set_order idx None m 0 false
                end);
    keys ← gets nf_sortkey;
    sorted ← gets nf_sorted;
    i ← gets nf_in;
    _ ← (if negb (Bool.eqb sorted (chksorted keys)) then
           _ ← for_each i (fun n => upd_node n (with_inserted false));
           _ ← modify (set_sorted (negb sorted));
           modify (set_out [])
         else mret tt);
    for_each i (fun n => nf_update_order_x n idx).

End nodefilter.
