(* ===== verification/PropNfOrder.v ===== *)
(** The order in which a sorted node filter keeps its nodes: the comparison of
    prop_nodefilter.c is one that a sort can use, as long as texts have titles
    whose numbers fit, numbers are not too large and floats are numbers. *)
From S2P Require Import Prelude Clib Collate PropStore PropTree PropMirror PropList PropNodefilter.
From Stdlib Require Import SpecFloat.

Local Open Scope Z_scope.

(** * The order of nodes *)

(** A comparison that a sort can use. *)
Record good {A} (c : A -> A -> comparison) : Prop := {
  good_opp : forall x y, c y x = CompOpp (c x y);
  good_trans : forall x y z, c x y <> Gt -> c y z <> Gt -> c x z <> Gt
}.

Definition and_then (c d : comparison) : comparison := match c with Eq => d | _ => c end.

Lemma good_eq {A} (c : A -> A -> comparison) x y z : good c -> c x y = Eq -> c x z = c y z.
Proof.
  intros [Ho Ht] E. pose proof (Ho x y) as E'. rewrite E in E'. cbn in E'.
  pose proof (Ht x y z) as T1. pose proof (Ht y x z) as T2. pose proof (Ht z y x) as T3. pose proof (Ht z x y) as T4.
  rewrite (Ho x z), (Ho y z), E, E' in *. destruct (c x z), (c y z); cbn in *; try done; exfalso; naive_solver.
Qed.

Lemma good_then {A} (c d : A -> A -> comparison) : good c -> good d -> good (fun x y => and_then (c x y) (d x y)).
Proof.
  intros Hc Hd. split.
  - intros x y. rewrite (good_opp _ Hc x y), (good_opp _ Hd x y). by destruct (c x y).
  - intros x y z H1 H2. unfold and_then in *. pose proof (good_trans _ Hc x y z) as T. pose proof (good_trans _ Hd x y z) as Td.
    destruct (c x y) eqn:E1; [rewrite (good_eq _ _ _ z Hc E1)| |done].
    + destruct (c y z); [by apply Td|done|done].
    + destruct (c y z) eqn:E2; [| |done].
      * pose proof (good_opp _ Hc y z) as O. rewrite E2 in O. cbn in O. pose proof (good_eq _ _ _ x Hc E2) as Q.
        pose proof (good_opp _ Hc x y) as O1. pose proof (good_opp _ Hc z x) as O2. rewrite E1 in O1. cbn in O1.
        rewrite O2, <- Q, O1. done.
      * destruct (c x z) eqn:E3; [|done|by apply T].
        pose proof (good_eq _ _ _ y Hc E3) as Q. pose proof (good_opp _ Hc y z) as O. rewrite E1, E2 in *. by rewrite O in Q.
Qed.

Lemma good_flip {A} (c : A -> A -> comparison) : good c -> good (fun x y => CompOpp (c x y)).
Proof.
  intros Hc. split.
  - intros x y. by rewrite (good_opp _ Hc x y).
  - intros x y z. rewrite <- !(good_opp _ Hc). intros H1 H2. by apply (good_trans _ Hc z y x).
Qed.

Lemma good_pull {A B} (f : A -> B) (c : B -> B -> comparison) : good c -> good (fun x y => c (f x) (f y)).
Proof. intros [Ho Ht]. split; [intros; apply Ho|intros x y z; apply Ht]. Qed.

Lemma good_Z : good Z.compare.
Proof.
  split; [intros x y; apply Z.compare_antisym|]. intros x y z H1 H2. rewrite Z.compare_le_iff in *. lia.
Qed.

Lemma good_lex : good lex.
Proof. split; [intros x y; apply lex_opp|exact lex_le_trans]. Qed.

(** Floats that are no NaN are ordered by class, exponent and mantissa. *)
Definition float_rank (f : spec_float) : list (Z * Z) :=
  match f with
  | S754_infinity true => [(-2, 0)]
  | S754_finite true m e => [(-1, - e); (Z.neg m, 0)]
  | S754_zero _ => [(0, 0)]
  | S754_finite false m e => [(1, e); (Z.pos m, 0)]
  | S754_infinity false => [(2, 0)]
  | S754_nan => []
  end.

Definition is_nan (f : spec_float) : bool := match f with S754_nan => true | _ => false end.

Lemma sign_of_compare c : ((match c with Lt => -1 | Eq => 0 | Gt => 1 end) ?= 0) = c.
Proof. by destruct c. Qed.

Lemma float_finite s m e s' n d :
  ((if SFltb (S754_finite s m e) (S754_finite s' n d) then -1 else if SFltb (S754_finite s' n d) (S754_finite s m e) then 1 else 0) ?= 0) =
  lex (float_rank (S754_finite s m e)) (float_rank (S754_finite s' n d)).
Proof.
  assert (PosDef.Pos.compare_cont Eq n m = CompOpp (PosDef.Pos.compare_cont Eq m n)) as Hp by exact (Pos.compare_antisym m n).
  assert ((Z.neg m ?= Z.neg n) = CompOpp (PosDef.Pos.compare_cont Eq m n)) as Hn by done.
  assert ((Z.pos m ?= Z.pos n) = PosDef.Pos.compare_cont Eq m n) as Hz by done.
  unfold SFltb, SFcompare, float_rank. destruct s, s'; cbn [lex]; [|done|done|].
  - rewrite Z.compare_opp, (Z.compare_antisym e d), Hp, Hn. by destruct (e ?= d), (PosDef.Pos.compare_cont Eq m n).
  - rewrite (Z.compare_antisym e d), Hp, Hz. by destruct (e ?= d), (PosDef.Pos.compare_cont Eq m n).
Qed.

Lemma float_cmp f g : is_nan f = false -> is_nan g = false ->
  ((if SFltb f g then -1 else if SFltb g f then 1 else 0) ?= 0) = lex (float_rank f) (float_rank g).
Proof.
  intros Hf Hg. destruct f as [sf|[]| |s m e]; [| | |by cbn in Hf|]; destruct g as [sg|[]| |s' n d]; try by cbn in Hg; try done.
  all: try (destruct s; done). all: try (destruct s'; done). apply float_finite.
Qed.

(** ** Keys *)

Section order.
Context (t : list Z) (ignore : bool) (Ht : folds t).

(** The rank of a key among those of its type; small numbers are those whose
    difference fits an [int]. *)
Definition key_rank (k : sortkey) (r : list (Z * Z)) : Prop :=
  match k with
  | SORTKEY_RSTR (Some s) | SORTKEY_CSTR s => title_key t ignore s r
  | SORTKEY_RSTR None => False
  | SORTKEY_INT i => r = [(i, 0)] /\ -1073741824 < i < 1073741824
  | SORTKEY_FLOAT f => r = float_rank f /\ is_nan f = false
  | SORTKEY_NONE | SORTKEY_VOID => r = []
  end.

Lemma key_cmp_rank a b ra rb : key_rank a ra -> key_rank b rb -> sortkey_type a = sortkey_type b ->
  exists v, key_cmp t ignore a b = Ok v /\ (v ?= 0) = lex ra rb /\ int_min < v <= int_max.
Proof.
  intros Ha Hb E. destruct a as [|[s|]|i|f|s|], b as [|[s'|]|j|g|s'|]; try done; cbn [key_cmp key_rank] in *.
  - subst. by exists 0.
  - by apply dictcmp_keys.
  - destruct Ha as [-> Hi], Hb as [-> Hj]. rewrite chk_int_Ok by (unfold int_min, int_max; lia). eexists. split; [done|].
    split; [|unfold int_min, int_max; lia]. cbn [lex]. rewrite <- Z.compare_sub, Z.compare_refl. by destruct (i ?= j).
  - destruct Ha as [-> Hf], Hb as [-> Hg]. eexists. split; [done|]. split; [by apply float_cmp|].
    destruct (SFltb f g), (SFltb g f); done.
  - by apply dictcmp_keys.
  - subst. by exists 0.
Qed.

(** A node, its type and rank at each key. *)
Definition node_rank : Type := nat * list (Z * list (Z * Z)).
Definition rank_at (i : nat) (r : node_rank) : Z * list (Z * Z) := nth i r.2 (0, []).

Definition has_rank (x : nf) (a : nat) (na : nfnode) (r : node_rank) : Prop :=
  r.1 = a /\ forall i k, nth i (nf_sortkey x) None = Some k ->
    (rank_at i r).1 = sortkey_type (key_at i na) /\ key_rank (key_at i na) (rank_at i r).2.

(** The comparison at one key, and at those from [i] on. *)
Definition rank_cmp1 (x : nf) (i : nat) (r s : node_rank) : comparison :=
  match nth i (nf_sortkey x) None with
  | None => Eq
  | Some _ =>
      and_then ((rank_at i r).1 ?= (rank_at i s).1)
        (if nth i (nf_sortorder x) 0 <? 0 then CompOpp (lex (rank_at i r).2 (rank_at i s).2) else lex (rank_at i r).2 (rank_at i s).2)
  end.
Fixpoint rank_cmps (fuel i : nat) (x : nf) (r s : node_rank) : comparison :=
  match fuel with O => Eq | S fuel => and_then (rank_cmp1 x i r s) (rank_cmps fuel (S i) x r s) end.
Definition rank_cmp (x : nf) (r s : node_rank) : comparison :=
  and_then (rank_cmps MAX_SORT_KEYS 0 x r s) (Z.of_nat r.1 ?= Z.of_nat s.1).

Lemma good_rank1 x i : good (rank_cmp1 x i).
Proof.
  unfold rank_cmp1. destruct (nth i (nf_sortkey x) None).
  - apply (good_then (fun r s => (rank_at i r).1 ?= (rank_at i s).1) (fun r s => if nth i (nf_sortorder x) 0 <? 0 then CompOpp (lex (rank_at i r).2 (rank_at i s).2) else lex (rank_at i r).2 (rank_at i s).2)).
    + apply (good_pull (fun r => (rank_at i r).1)), good_Z.
    + destruct (_ <? 0).
      * apply (good_flip (fun r s => lex (rank_at i r).2 (rank_at i s).2)), (good_pull (fun r => (rank_at i r).2)), good_lex.
      * apply (good_pull (fun r => (rank_at i r).2)), good_lex.
  - by split.
Qed.

Lemma good_ranks fuel x : forall i, good (rank_cmps fuel i x).
Proof.
  induction fuel as [|fuel IH]; intros i; cbn [rank_cmps]; [by split|]. apply good_then; [apply good_rank1|apply IH].
Qed.

Lemma good_rank x : good (rank_cmp x).
Proof. apply good_then; [apply good_ranks|]. apply (good_pull (fun r : node_rank => Z.of_nat r.1)), good_Z. Qed.

(** Orders are set with the keys. *)
Definition orders_ok (x : nf) : Prop :=
  forall i k, nth i (nf_sortkey x) None = Some k -> nth i (nf_sortorder x) 0 = 1 \/ nth i (nf_sortorder x) 0 = -1.

Lemma keys_cmp_rank x (Ho : orders_ok x) a b na nb r s : has_rank x a na r -> has_rank x b nb s ->
  forall fuel i, exists v, keys_cmp t ignore fuel i x na nb = Ok v /\
    match v with Some v => (v ?= 0) = rank_cmps fuel i x r s /\ v <> 0 | None => rank_cmps fuel i x r s = Eq end.
Proof.
  intros [_ Ha] [_ Hb]. induction fuel as [|fuel IH]; intros i; cbn [keys_cmp rank_cmps]; [by exists None|].
  unfold rank_cmp1. destruct (nth i (nf_sortkey x) None) as [k|] eqn:Ek; [|apply IH].
  destruct (Ha i k Ek) as [Ea Ra]. destruct (Hb i k Ek) as [Eb Rb]. rewrite Ea, Eb.
  destruct (Z.eqb_spec (sortkey_type (key_at i na)) (sortkey_type (key_at i nb))) as [E|E]; cbn [negb].
  - destruct (key_cmp_rank _ _ _ _ Ra Rb E) as (v & Ev & Hv & Hr). rewrite Ev. cbn [mbind res_bind]. rewrite E, Z.compare_refl. cbn [and_then].
    destruct (Z.eqb_spec v 0) as [->|Hv0]; cbn [negb].
    + destruct (IH (S i)) as (w & Ew & Hw). exists w. split; [done|]. rewrite <- Hv. by destruct (_ <? 0).
    + assert (lex (rank_at i r).2 (rank_at i s).2 <> Eq) as Hne by (rewrite <- Hv; intros H; by apply Z.compare_eq in H).
      destruct (Ho i k Ek) as [-> | ->]; (rewrite chk_int_Ok by (unfold int_min, int_max in *; lia)); eexists; (split; [done|]); split; try lia.
      * change (1 <? 0) with false. cbn iota. rewrite Z.mul_1_r, Hv. by destruct (lex _ _).
      * change (-1 <? 0) with true. cbn iota. rewrite <- Hv.
        replace (v * -1 ?= 0) with (CompOpp (v ?= 0)); [by destruct (Z.compare_spec v 0)|].
        destruct (Z.compare_spec v 0), (Z.compare_spec (v * -1) 0); try done; lia.
  - eexists. split; [done|]. cbn. split; [|lia]. rewrite <- Z.compare_sub. destruct (Z.compare_spec (sortkey_type (key_at i na)) (sortkey_type (key_at i nb))); done.
Qed.

(** The comparison of the filter compares ranks. *)
Lemma egress_cmp_rank x (Ho : orders_ok x) a b na nb r s : nf_nodes x !! a = Some na -> nf_nodes x !! b = Some nb ->
  has_rank x a na r -> has_rank x b nb s -> a <> b ->
  exists v, nf_egress_cmp t ignore x a b = Ok v /\ (v ?= 0) = rank_cmp x r s /\ v <> 0.
Proof.
  intros Ea Eb Ra Rb Hab. unfold nf_egress_cmp. rewrite Ea, Eb.
  destruct (keys_cmp_rank x Ho a b na nb r s Ra Rb MAX_SORT_KEYS 0) as (v & Ev & Hv). rewrite Ev. cbn [mbind res_bind].
  eexists. split; [done|]. unfold rank_cmp. rewrite (proj1 Ra), (proj1 Rb). destruct v as [v|].
  - destruct Hv as [Hv Hv0]. rewrite <- Hv. split; [|done]. destruct (Z.compare_spec v 0); done.
  - rewrite Hv. cbn [and_then]. destruct (Nat.ltb_spec a b) as [H|H]; (split; [|done]).
    + symmetry. apply Z.compare_lt_iff. lia.
    + symmetry. apply Z.compare_gt_iff. lia.
Qed.
End order.
