(* ===== verification/PropNfView.v ===== *)
(** What a node filter shows (prop_nodefilter.c): at any time the children of
    its source that are to be shown, in order, though it changes its list only
    where something has changed. *)
From S2P Require Import Prelude Clib Collate PropStore PropTree PropMirror PropList PropNodefilter PropNfOrder.

Local Open Scope Z_scope.

(** * Lists *)

(** A part of a list comes as early, or its rest as late, as possible. *)
Lemma sublist_split_head (p q d : list nat) : sublist (p ++ q) d ->
  exists d1 d2, d = d1 ++ d2 /\ sublist p d1 /\ sublist q d2 /\ head d2 = head q.
Proof.
  intros H. destruct q as [|a q].
  - rewrite app_nil_r in H. exists d, []. by rewrite app_nil_r.
  - apply sublist_app_l in H as (d1 & d2 & -> & H1 & H2). apply sublist_cons_l in H2 as (e1 & e2 & -> & H2).
    exists (d1 ++ e1), (a :: e2). rewrite <- app_assoc. split; [done|]. split; [by apply sublist_inserts_r|]. split; [by constructor|done].
Qed.

Lemma sublist_unlink o (l d : list nat) : sublist l d -> o ∉ l -> sublist l (unlink o d).
Proof.
  induction 1 as [|x l d H IH|x l d H IH]; intros Ho; [constructor|..].
  - apply not_elem_of_cons in Ho as [H1 H2]. unfold unlink. rewrite filter_cons_True by congruence. constructor. by apply IH.
  - unfold unlink. destruct (decide (x = o)) as [->|Hx].
    + rewrite filter_cons_False by naive_solver. by apply IH.
    + rewrite filter_cons_True by done. constructor. by apply IH.
Qed.

Lemma omap_sublist {A B} (f : A -> option B) (l k : list A) : sublist l k -> sublist (omap f l) (omap f k).
Proof.
  induction 1 as [|x l k H IH|x l k H IH]; cbn; [constructor|destruct (f x); by try constructor|destruct (f x); by try constructor].
Qed.

Lemma omap_ext_in {A B} (f g : A -> option B) (l : list A) : (forall x, x ∈ l -> f x = g x) -> omap f l = omap g l.
Proof.
  induction l as [|x l IH]; cbn; intros H; [done|]. rewrite (H x) by apply list_elem_of_here.
  rewrite IH; [done|]. intros y Hy. apply H. by apply list_elem_of_further.
Qed.

Lemma behind_mid n l r : n ∉ l -> behind n (l ++ n :: r) = r.
Proof.
  induction l as [|m l IH]; cbn; intros H; [by rewrite decide_True|]. apply not_elem_of_cons in H as [H1 H2].
  rewrite decide_False by congruence. by apply IH.
Qed.

Lemma behind_notin n l : n ∉ l -> behind n l = [].
Proof.
  induction l as [|m l IH]; cbn; intros H; [done|]. apply not_elem_of_cons in H as [H1 H2].
  rewrite decide_False by congruence. by apply IH.
Qed.

(** * Invariants *)

(** The configuration: all but what maintaining the list changes. *)
Definition strip (x : nf) : nf := upd_lists [] ∅ (nf_in x) [] (nf_tags x) ∅ O x.
Definition same_cfg (x y : nf) : Prop := strip x = strip y.

Definition out_of (m : gmap nat nfnode) (n : nat) : option pid := m !! n ≫= nn_out.

(** The lists are well formed: the nodes, those in the order, and their
    properties below the destination, some of which may be out of place. *)
Record wf (x : nf) : Prop := {
  wf_in : NoDup (nf_in x);
  wf_dom : forall n, n ∈ nf_in x <-> is_Some (nf_nodes x !! n);
  wf_out : NoDup (nf_out x);
  wf_ins : forall n, n ∈ nf_out x <-> exists nd, nf_nodes x !! n = Some nd /\ nn_inserted nd = true;
  wf_dst : NoDup (nf_dst x);
  wf_dst_in : forall o, o ∈ nf_dst x <-> exists n, out_of (nf_nodes x) n = Some o;
  wf_sub : sublist (omap (out_of (nf_nodes x)) (nf_out x)) (nf_dst x);
  wf_inj : forall n m o, out_of (nf_nodes x) n = Some o -> out_of (nf_nodes x) m = Some o -> n = m;
  wf_next : forall n o, out_of (nf_nodes x) n = Some o -> (o < nf_next x)%nat;
  wf_link : forall n nd o, nf_nodes x !! n = Some nd -> nn_out nd = Some o -> nf_links x !! o = Some (nn_in nd)
}.

Section view.
Context (t : list Z) (ignore : bool) (Ht : folds t).

(** The order of nodes. *)
Definition lt (x : nf) (a b : nat) : Prop := exists v, nf_egress_cmp t ignore x a b = Ok v /\ v < 0.
Definition ordered (x : nf) (l : list nat) : Prop :=
  if nf_sorted x then StronglySorted (lt x) l else sublist l (nf_in x).

(** A node whose keys can be compared and whose texts can be searched. *)
Record sane (x : nf) (nd : nfnode) : Prop := {
  sn_keys : length (nn_keys nd) = MAX_SORT_KEYS;
  sn_ranks : forall i, exists r, key_rank t ignore (key_at i nd) r;
  sn_text : forall q, nf_filter x = Some q -> exists b, nf_filtercheck t (w_text (nf_world x (nn_in nd))) q = Ok b;
  sn_preds : forall id, id ∈ map fst (nn_preds nd) -> is_Some (find_pred id (nf_preds x));
  sn_nodup : NoDup (map fst (nn_preds nd))
}.

Record inv (x : nf) : Prop := {
  iv_wf : wf x;
  iv_ordered : ordered x (nf_out x);
  iv_sane : forall n nd, nf_nodes x !! n = Some nd -> sane x nd;
  iv_orders : orders_ok x
}.

(** ** Extensionality *)

Lemma strip_enabled x y nd : same_cfg x y -> node_enabled t x nd = node_enabled t y nd.
Proof. intros H. change (node_enabled t (strip x) nd = node_enabled t (strip y) nd). by rewrite H. Qed.

Lemma strip_sane x y nd : same_cfg x y -> sane x nd -> sane y nd.
Proof. intros H Hs. assert (sane (strip x) nd) as Hs' by (by destruct Hs; split). rewrite H in Hs'. by destruct Hs'; split. Qed.

Lemma strip_orders x y : same_cfg x y -> orders_ok x -> orders_ok y.
Proof. intros H Hs. assert (orders_ok (strip x)) as Hs' by exact Hs. rewrite H in Hs'. exact Hs'. Qed.

Lemma strip_in x y : same_cfg x y -> nf_in x = nf_in y.
Proof. intros H. change (nf_in (strip x) = nf_in (strip y)). by rewrite H. Qed.
Lemma strip_sorted x y : same_cfg x y -> nf_sorted x = nf_sorted y.
Proof. intros H. change (nf_sorted (strip x) = nf_sorted (strip y)). by rewrite H. Qed.

(** What decides where nodes belong. *)
Definition same_order (x y : nf) : Prop :=
  nf_sortkey x = nf_sortkey y /\ nf_sortorder x = nf_sortorder y /\ nf_sorted x = nf_sorted y.

Lemma strip_order x y : same_cfg x y -> same_order x y.
Proof. intros H. change (same_order (strip x) (strip y)). by rewrite H. Qed.

Lemma keys_cmp_ext x y a b a' b' : same_order x y -> nn_keys a = nn_keys a' -> nn_keys b = nn_keys b' ->
  forall fuel i, keys_cmp t ignore fuel i x a b = keys_cmp t ignore fuel i y a' b'.
Proof.
  intros (H1 & H2 & _) Ha Hb fuel. induction fuel as [|fuel IH]; intros i; cbn [keys_cmp]; [done|]. unfold key_at.
  by rewrite Ha, Hb, H1, H2, IH.
Qed.

Definition keys_of (m : gmap nat nfnode) (n : nat) : option (list sortkey) := nn_keys <$> m !! n.

Lemma cmp_ext x y a b : same_order x y -> keys_of (nf_nodes x) a = keys_of (nf_nodes y) a ->
  keys_of (nf_nodes x) b = keys_of (nf_nodes y) b -> nf_egress_cmp t ignore x a b = nf_egress_cmp t ignore y a b.
Proof.
  intros H Ha Hb. unfold nf_egress_cmp, keys_of in *.
  destruct (nf_nodes x !! a), (nf_nodes y !! a), (nf_nodes x !! b), (nf_nodes y !! b); try done.
  injection Ha as Ha. injection Hb as Hb. by rewrite (keys_cmp_ext x y _ _ _ _ H Ha Hb).
Qed.

Lemma ordered_order x y l : same_order x y -> (sublist l (nf_in x) -> sublist l (nf_in y)) ->
  (forall n, n ∈ l -> keys_of (nf_nodes x) n = keys_of (nf_nodes y) n) -> ordered x l -> ordered y l.
Proof.
  intros H Hi Hk. unfold ordered. rewrite (proj2 (proj2 H)). destruct (nf_sorted y); [|done]. clear Hi.
  induction 1 as [|a l Hs IH Hf]; [constructor|]. constructor.
  - apply IH. intros n Hn. apply Hk. by apply list_elem_of_further.
  - eapply Forall_impl; [apply Forall_and; split; [exact Hf|apply Forall_forall; intros b Hb; exact Hb]|].
    intros b [(v & E & Hv) Hb]. exists v. split; [|done]. rewrite <- E. symmetry. apply cmp_ext; [done|apply Hk..].
    + apply list_elem_of_here.
    + by apply list_elem_of_further.
Qed.

Lemma ordered_ext x y l : same_cfg x y -> (forall n, n ∈ l -> keys_of (nf_nodes x) n = keys_of (nf_nodes y) n) ->
  ordered x l -> ordered y l.
Proof. intros H. apply ordered_order; [by apply strip_order|]. by rewrite (strip_in _ _ H). Qed.

Lemma ordered_sub x l k : sublist l k -> ordered x k -> ordered x l.
Proof.
  unfold ordered. destruct (nf_sorted x); [|by intros H1 H2; etransitivity].
  induction 1 as [|a l k H IH|a l k H IH]; intros Hs; [constructor|..]; apply StronglySorted_cons in Hs as [H1 H2].
  - constructor; [by apply IH|]. apply Forall_forall. intros b Hb. apply (proj1 (Forall_forall _ _) H1). by eapply sublist_subseteq.
  - by apply IH.
Qed.

(** ** The order *)

Definition ranked (x : nf) (n : nat) : Prop :=
  exists nd, nf_nodes x !! n = Some nd /\ forall i, exists r, key_rank t ignore (key_at i nd) r.

Lemma ranked_rank x n : ranked x n -> exists nd r, nf_nodes x !! n = Some nd /\ has_rank t ignore x n nd r.
Proof.
  intros (nd & E & H). assert (forall k, exists l : list (Z * list (Z * Z)), forall i, (i < k)%nat ->
    (nth i l (0, [])).1 = sortkey_type (key_at i nd) /\ key_rank t ignore (key_at i nd) (nth i l (0, [])).2) as Hl.
  { induction k as [|k (l & IH)]; [exists []; intros; lia|]. destruct (H k) as [r Hr].
    exists (take k (l ++ replicate k (0, [])) ++ [(sortkey_type (key_at k nd), r)]). intros i Hi.
    assert (length (take k (l ++ replicate k (0, @nil (Z * Z)))) = k) as El.
    { rewrite length_take, length_app, length_replicate. lia. }
    destruct (decide (i = k)) as [->|Hne].
    - rewrite app_nth2 by lia. rewrite El, Nat.sub_diag. by split.
    - rewrite app_nth1 by lia. rewrite nth_firstn, (proj2 (Nat.ltb_lt i k)) by lia.
      destruct (decide (i < length l)%nat).
      + rewrite app_nth1 by lia. apply IH. lia.
      + assert (nth i (l ++ replicate k (0, @nil (Z * Z))) (0, []) = nth i l (0, [])) as ->; [|apply IH; lia].
        rewrite app_nth2 by lia. rewrite (nth_overflow l) by lia. rewrite nth_lookup.
        destruct (replicate k (0, []) !! _) eqn:El2; [|done]. by apply lookup_replicate in El2 as [-> _]. }
  destruct (Hl (length (nf_sortkey x))) as [l Hr]. exists nd, (n, l). split; [done|]. split; [done|]. intros i k Hk. apply Hr.
  destruct (Nat.lt_ge_cases i (length (nf_sortkey x))); [done|]. rewrite nth_overflow in Hk by lia. done.
Qed.

Lemma cmp_lt x a b : orders_ok x -> ranked x a -> ranked x b -> a <> b ->
  exists v, nf_egress_cmp t ignore x a b = Ok v /\ v <> 0 /\ (v < 0 <-> lt x a b) /\ (0 < v <-> lt x b a).
Proof.
  intros Ho (na & ra & Ea & Ra)%ranked_rank (nb & rb & Eb & Rb)%ranked_rank Hab.
  destruct (egress_cmp_rank t ignore Ht x Ho a b na nb ra rb Ea Eb Ra Rb Hab) as (v & Ev & Hv & H0).
  destruct (egress_cmp_rank t ignore Ht x Ho b a nb na rb ra Eb Ea Rb Ra ltac:(done)) as (w & Ew & Hw & W0).
  rewrite (good_opp _ (good_rank x) ra rb), <- Hv in Hw.
  exists v. split; [done|]. split; [done|]. split; unfold lt.
  - split; [by exists v|]. intros (v' & E & ?). rewrite Ev in E. by injection E as <-.
  - split.
    + intros Hpos. exists w. split; [done|]. rewrite (proj2 (Z.compare_gt_iff v 0)) in Hw by lia. by apply Z.compare_lt_iff.
    + intros (w' & E & Hlt). rewrite Ew in E. injection E as <-. rewrite (proj2 (Z.compare_lt_iff w 0)) in Hw by lia.
      by destruct (Z.compare_spec v 0).
Qed.

Lemma lt_irrefl x a : orders_ok x -> ranked x a -> ~ lt x a a.
Proof.
  intros Ho (na & ra & Ea & Ka)%ranked_rank (v & Ev & Hv). unfold nf_egress_cmp in Ev. rewrite Ea in Ev.
  destruct (keys_cmp_rank t ignore Ht x Ho a a na na ra ra Ka Ka MAX_SORT_KEYS 0) as (k & Ek & Hk). rewrite Ek in Ev.
  cbn [mbind res_bind] in Ev. injection Ev as <-. destruct k as [k|]; [|rewrite Nat.ltb_irrefl in Hv; lia].
  destruct Hk as [Hk _]. pose proof (good_opp _ (good_ranks MAX_SORT_KEYS x 0) ra ra) as O. rewrite <- Hk in O.
  by rewrite (proj2 (Z.compare_lt_iff k 0)) in O by lia.
Qed.

Lemma lt_trans x a b c : orders_ok x -> ranked x a -> ranked x b -> ranked x c -> lt x a b -> lt x b c -> a <> c -> lt x a c.
Proof.
  intros Ho Ra Rb Rc (v & Ev & Hv) (w & Ew & Hw) Hac.
  pose proof Ra as (na & ra & Ea & Ka)%ranked_rank. pose proof Rb as (nb & rb & Eb & Kb)%ranked_rank. pose proof Rc as (nc & rc & Ec & Kc)%ranked_rank.
  assert (a <> b /\ b <> c) as [Hab Hbc].
  { split; intros ->; [apply (lt_irrefl x b Ho Rb)|apply (lt_irrefl x c Ho Rc)]; by eexists. }
  destruct (egress_cmp_rank t ignore Ht x Ho a b na nb ra rb Ea Eb Ka Kb Hab) as (v' & Ev' & Cv & _). rewrite Ev in Ev'. injection Ev' as <-.
  destruct (egress_cmp_rank t ignore Ht x Ho b c nb nc rb rc Eb Ec Kb Kc Hbc) as (w' & Ew' & Cw & _). rewrite Ew in Ew'. injection Ew' as <-.
  destruct (egress_cmp_rank t ignore Ht x Ho a c na nc ra rc Ea Ec Ka Kc Hac) as (u & Eu & Cu & U0). exists u. split; [done|].
  pose proof (good_trans _ (good_rank x) ra rb rc) as T. rewrite <- Cv, <- Cw, <- Cu in T.
  rewrite (proj2 (Z.compare_lt_iff v 0)), (proj2 (Z.compare_lt_iff w 0)) in T by lia.
  specialize (T ltac:(done) ltac:(done)). destruct (Z.compare_spec u 0); try done; lia.
Qed.

(** In a sorted list of nodes the search finds the place of a new one. *)
Lemma rb_insert_spec x n l : orders_ok x -> ranked x n -> Forall (ranked x) l -> n ∉ l -> NoDup l -> StronglySorted (lt x) l ->
  exists A B, l = A ++ B /\ rb_insert_sorted (nf_egress_cmp t ignore x n) n l = Ok (A ++ n :: B) /\ StronglySorted (lt x) (A ++ n :: B).
Proof.
  intros Ho Hn. induction l as [|m l IH]; intros Hl Hnl Hnd Hs; cbn [rb_insert_sorted].
  - exists [], []. split; [done|]. split; [done|]. by constructor; [constructor|].
  - apply Forall_cons in Hl as [Hm Hl]. apply not_elem_of_cons in Hnl as [Hnm Hnl]. apply NoDup_cons in Hnd as [Hml Hnd].
    apply StronglySorted_cons in Hs as [Hms Hs].
    destruct (cmp_lt x n m Ho Hn Hm ltac:(done)) as (v & Ev & H0 & Hlt & Hgt). rewrite Ev. cbn [mbind res_bind].
    destruct (Z.ltb_spec 0 v) as [Hv|Hv].
    + destruct (IH Hl Hnl Hnd Hs) as (A & B & -> & E & S). rewrite E. exists (m :: A), B. split; [done|]. split; [done|].
      cbn [app]. apply StronglySorted_cons. split; [|done]. apply Forall_app in Hms as [F1 F2]. apply Forall_app. split; [done|].
      constructor; [by apply Hgt|done].
    + rewrite (proj2 (Z.ltb_lt v 0)) by lia. assert (lt x n m) as Hnm' by (apply Hlt; lia).
      assert (Forall (lt x n) l) as Hall.
      { apply Forall_forall. intros k Hk. apply (lt_trans x n m k); try done; [by apply (proj1 (Forall_forall _ _) Hl)|by apply (proj1 (Forall_forall _ _) Hms)|].
        intros ->. done. }
      exists [], (m :: l). split; [done|]. split.
      * clear -Ht Ho Hn Hl Hnl Hall. cbn [app]. generalize (m :: l) as k0. induction l as [|k l IHl]; intros k0; [done|].
        apply Forall_cons in Hl as [Hk Hl]. apply not_elem_of_cons in Hnl as [Hnk Hnl]. apply Forall_cons in Hall as [Hnk' Hall].
        destruct (cmp_lt x n k Ho Hn Hk ltac:(done)) as (w & Ew & W0 & Wlt & _). rewrite Ew. cbn [mbind res_bind].
        rewrite (proj2 (Z.ltb_lt w 0)) by by apply Wlt. by apply IHl.
      * cbn [app]. apply StronglySorted_cons. split; [by constructor|]. by apply StronglySorted_cons.
Qed.

(** ** Running *)

Lemma get_node_run n nd x : nf_nodes x !! n = Some nd -> get_node n x = Ok (nd, x).
Proof. intros H. unfold get_node, mbind, H_bind, gets. by rewrite H. Qed.

Lemma upd_node_run n nd f x : nf_nodes x !! n = Some nd ->
  upd_node n f x = Ok (tt, set_nodes (<[n := f nd]> (nf_nodes x)) x).
Proof. intros H. unfold upd_node. by rewrite (h_bind _ _ _ _ _ (get_node_run n nd x H)). Qed.

Lemma on_dst_ok f d x : f (nf_dst x) = Ok d -> on_dst f x = Ok (tt, set_dst d x).
Proof. intros H. unfold on_dst, mbind, H_bind, gets, lift. by rewrite H. Qed.

Lemma out_of_insert m n nd k : out_of (<[n := nd]> m) k = if decide (k = n) then nn_out nd else out_of m k.
Proof.
  unfold out_of. destruct (decide (k = n)) as [->|H]; [by rewrite lookup_insert_eq|by rewrite lookup_insert_ne].
Qed.

Lemma first_out_head m l : first_out m l = head (omap (out_of m) l).
Proof. induction l as [|n l IH]; cbn; [done|]. unfold out_of at 1. destruct (m !! n ≫= nn_out); [done|apply IH]. Qed.

Lemma with_out_same nd : with_out (nn_out nd) nd = nd.
Proof. by destruct nd. Qed.

(** A node changes, but not what orders it. *)
Lemma inv_node x x' n nd nd' : inv x -> nf_nodes x !! n = Some nd -> wf x' -> same_cfg x x' ->
  nf_nodes x' = <[n := nd']> (nf_nodes x) -> nn_keys nd' = nn_keys nd -> sane x nd' -> sublist (nf_out x') (nf_out x) -> inv x'.
Proof.
  intros [W O S R] E W' C En Hk Hs Ho. split; [done|..].
  - apply (ordered_sub _ _ (nf_out x)); [done|]. apply (ordered_ext x); [done| |done]. intros m _. unfold keys_of. rewrite En.
    destruct (decide (m = n)) as [->|Hm]; [rewrite lookup_insert_eq, E; cbn; by rewrite Hk|by rewrite lookup_insert_ne].
  - intros m md. rewrite En. intros [[<- <-]|[_ Hm]]%lookup_insert_Some; [by apply (strip_sane x)|]. apply (strip_sane x); [done|]. by eapply S.
  - by apply (strip_orders x).
Qed.

Lemma sane_out x nd o : sane x nd -> sane x (with_out o nd).
Proof. by intros []; split. Qed.

Lemma out_fresh x n : wf x -> out_of (nf_nodes x) n <> Some (nf_next x).
Proof. intros W E. pose proof (wf_next _ W _ _ E). lia. Qed.

(** A node that is to be shown gets its property. *)
Lemma show_run x n nd : inv x -> nf_nodes x !! n = Some nd -> nn_out nd = None ->
  exists x', (o ← make_out (nn_in nd); _ ← upd_node n (with_out (Some o)); b ← next_shown n; on_dst (list_set_parent o b)) x = Ok (tt, x') /\
    same_cfg x x' /\ nf_out x' = nf_out x /\ nf_nodes x' = <[n := with_out (Some (nf_next x)) nd]> (nf_nodes x) /\ inv x'.
Proof.
  intros H E Eo. pose proof (iv_wf _ H) as W. set (o := nf_next x). set (m' := <[n := with_out (Some o) nd]> (nf_nodes x)).
  set (x1 := set_links (<[o := nn_in nd]> (nf_links x)) (set_next (S o) x)).
  assert (exists P Q D1 D2, nf_out x = P ++ Q /\ nf_dst x = D1 ++ D2 /\ head D2 = first_out m' (behind n (nf_out x)) /\
    sublist (omap (out_of m') (nf_out x)) (D1 ++ o :: D2)) as (P & Q & D1 & D2 & _ & Ed & Eh & Hs).
  { assert (forall k, k <> n -> out_of m' k = out_of (nf_nodes x) k) as Hne by (intros k Hk; unfold m'; rewrite out_of_insert; by rewrite decide_False).
    destruct (decide (n ∈ nf_out x)) as [Hn|Hn].
    - apply list_elem_of_split in Hn as (P & Q & Epq). pose proof (wf_out _ W) as Hnd. rewrite Epq in Hnd.
      assert ((n ∉ P) /\ (n ∉ Q)) as [HnP HnQ].
      { apply NoDup_app in Hnd as (_ & N2 & [N3 _]%NoDup_cons). split; [|done]. intros Hin. apply (N2 _ Hin), list_elem_of_here. }
      pose proof (wf_sub _ W) as Hs. rewrite Epq, omap_app in Hs. cbn in Hs.
      assert (out_of (nf_nodes x) n = None) as En by (unfold out_of; by rewrite E). rewrite En in Hs.
      destruct (sublist_split_head _ _ _ Hs) as (D1 & D2 & Ed & S1 & S2 & Sh). exists P, (n :: Q), D1, D2. split; [done|]. split; [done|].
      rewrite Epq, behind_mid by done. rewrite first_out_head.
      assert (omap (out_of m') Q = omap (out_of (nf_nodes x)) Q) as EQ by (apply omap_ext_in; intros k Hk; apply Hne; by intros ->).
      assert (omap (out_of m') P = omap (out_of (nf_nodes x)) P) as EP by (apply omap_ext_in; intros k Hk; apply Hne; by intros ->).
      split; [by rewrite EQ|]. rewrite omap_app. cbn. unfold m' at 2. rewrite out_of_insert, decide_True by done. cbn [with_out nn_out].
      rewrite EP, EQ. apply sublist_app; [done|by constructor].
    - exists (nf_out x), [], (nf_dst x), []. rewrite !app_nil_r. split; [done|]. split; [done|]. rewrite behind_notin by done. split; [done|].
      apply sublist_inserts_r. rewrite (omap_ext_in _ (out_of (nf_nodes x))); [apply (wf_sub _ W)|]. intros k Hk. apply Hne. by intros ->. }
  assert (o ∉ D1 ++ D2) as Hfresh.
  { rewrite <- Ed. intros (k & Hk)%(wf_dst_in _ W). by apply (out_fresh x k W). }
  set (x2 := set_nodes m' x1). exists (set_dst (D1 ++ o :: D2) x2). split.
  { assert (make_out (nn_in nd) x = Ok (o, x1)) as H1 by done. rewrite (h_bind _ _ _ _ _ H1), (h_bind _ _ _ _ _ (upd_node_run n nd _ x1 E)).
    assert (next_shown n (set_nodes (<[n := with_out (Some o) nd]> (nf_nodes x1)) x1) = Ok (head D2, x2)) as H2 by (rewrite Eh; done).
    rewrite (h_bind _ _ _ _ _ H2). apply on_dst_ok. change (nf_dst x2) with (nf_dst x). rewrite Ed. apply list_set_parent_head; [done|].
    intros b Hb Hin. pose proof (wf_dst _ W) as Hnd. rewrite Ed in Hnd. apply NoDup_app in Hnd as (_ & N2 & _). apply (N2 _ Hin).
    destruct D2; [done|]. injection Hb as ->. apply list_elem_of_here. }
  split; [done|]. split; [done|]. split; [done|].
  assert (forall k v, out_of m' k = Some v <-> (k = n /\ v = o) \/ (k <> n /\ out_of (nf_nodes x) k = Some v)) as Hout.
  { intros k v. unfold m'. rewrite out_of_insert. destruct (decide (k = n)); cbn; naive_solver. }
  apply (inv_node x _ n nd (with_out (Some o) nd)); try done; [|by apply sane_out, (iv_sane _ H n)].
  split; cbn [set_dst set_nodes set_links set_next upd_lists nf_in nf_nodes nf_out nf_dst nf_next nf_links x2 x1].
  - apply (wf_in _ W).
  - intros k. rewrite (wf_dom _ W). unfold m'. rewrite lookup_insert_is_Some. destruct (decide (n = k)) as [<-|]; [rewrite E|]; naive_solver.
  - apply (wf_out _ W).
  - intros k. rewrite (wf_ins _ W). unfold m'. destruct (decide (k = n)) as [->|Hk].
    + rewrite E, lookup_insert_eq. naive_solver.
    + by rewrite lookup_insert_ne.
  - pose proof (wf_dst _ W) as Hnd. rewrite Ed in Hnd. rewrite <- Permutation_middle. by constructor.
  - intros v. rewrite elem_of_app, elem_of_cons. pose proof (wf_dst_in _ W v) as Hd. rewrite Ed, elem_of_app in Hd.
    setoid_rewrite Hout. split.
    + intros [Hv|[->|Hv]]; [|by exists n; left|]; (destruct (proj1 Hd ltac:(tauto)) as [k Hk]; exists k; right; split; [|done]; intros ->; unfold out_of in Hk; rewrite E in Hk; cbn in Hk; congruence).
    + intros (k & [[-> ->]|[_ Hk]]); [tauto|]. destruct (proj2 Hd ltac:(by exists k)); tauto.
  - done.
  - intros k j v [[-> ->]|[Hk Ek]]%Hout [[-> E2]|[Hj Ej]]%Hout; [done|..].
    + by destruct (out_fresh x j W).
    + subst v. by destruct (out_fresh x k W).
    + by eapply (wf_inj _ W).
  - intros k v [[-> ->]|[Hk Ek]]%Hout; [unfold o; lia|]. pose proof (wf_next _ W _ _ Ek). unfold o. lia.
  - intros k kd v. unfold m'. intros [[<- <-]|[Hk Ek]]%lookup_insert_Some.
    + cbn. intros [= <-]. apply lookup_insert_eq.
    + intros Ev. rewrite lookup_insert_ne; [by eapply (wf_link _ W)|]. intros <-. apply (out_fresh x k W). unfold out_of. by rewrite Ek.
Qed.

(** A node that is not to be shown any more loses it. *)
Lemma hide_run x n nd o : inv x -> nf_nodes x !! n = Some nd -> nn_out nd = Some o ->
  exists x', (_ ← on_dst (fun d => Ok (unlink o d)); L ← gets nf_links; _ ← modify (set_links (delete o L)); upd_node n (with_out None)) x = Ok (tt, x') /\
    x' = set_nodes (<[n := with_out None nd]> (nf_nodes x)) (set_links (delete o (nf_links x)) (set_dst (unlink o (nf_dst x)) x)) /\
    same_cfg x x' /\ nf_out x' = nf_out x /\ nf_nodes x' = <[n := with_out None nd]> (nf_nodes x) /\ inv x'.
Proof.
  intros H E Eo. pose proof (iv_wf _ H) as W. set (m' := <[n := with_out None nd]> (nf_nodes x)).
  eexists. split.
  { rewrite (h_bind _ _ _ _ _ (on_dst_ok (fun d => Ok (unlink o d)) _ x eq_refl)). rewrite (h_bind _ _ _ _ _ (eq_refl : gets nf_links _ = Ok (_, _))).
    rewrite (h_bind _ _ _ _ _ (eq_refl : modify _ _ = Ok (_, _))). by apply upd_node_run. }
  split; [done|]. split; [done|]. split; [done|]. split; [done|].
  assert (out_of (nf_nodes x) n = Some o) as En by (unfold out_of; by rewrite E).
  assert (forall k v, out_of m' k = Some v <-> (k <> n /\ out_of (nf_nodes x) k = Some v)) as Hout.
  { intros k v. unfold m'. rewrite out_of_insert. destruct (decide (k = n)); cbn; naive_solver. }
  apply (inv_node x _ n nd (with_out None nd)); try done; [|by apply sane_out, (iv_sane _ H n)].
  split; cbn [set_dst set_nodes set_links set_next upd_lists nf_in nf_nodes nf_out nf_dst nf_next nf_links]; fold m'.
  - apply (wf_in _ W).
  - intros k. rewrite (wf_dom _ W). unfold m'. rewrite lookup_insert_is_Some. destruct (decide (n = k)) as [<-|]; [rewrite E|]; naive_solver.
  - apply (wf_out _ W).
  - intros k. rewrite (wf_ins _ W). unfold m'. destruct (decide (k = n)) as [->|Hk].
    + rewrite E, lookup_insert_eq. naive_solver.
    + by rewrite lookup_insert_ne.
  - apply NoDup_unlink, (wf_dst _ W).
  - intros v. rewrite elem_unlink, (wf_dst_in _ W). setoid_rewrite Hout. split.
    + intros [(k & Hk) Hv]. exists k. split; [|done]. intros ->. congruence.
    + intros (k & Hk & Ek). split; [by exists k|]. intros ->. apply Hk. by eapply (wf_inj _ W).
  - apply sublist_unlink.
    + etransitivity; [|apply (wf_sub _ W)]. generalize (nf_out x). induction l as [|k l IH]; cbn; [done|].
      unfold m' at 1. rewrite out_of_insert. destruct (decide (k = n)) as [->|Hk].
      * cbn. rewrite En. by constructor.
      * destruct (out_of (nf_nodes x) k); [by constructor|done].
    + intros (k & _ & Hk)%list_elem_of_omap. apply Hout in Hk as [Hk Ek]. apply Hk. by eapply (wf_inj _ W).
  - intros k j v [_ Ek]%Hout [_ Ej]%Hout. by eapply (wf_inj _ W).
  - intros k v [_ Ek]%Hout. by eapply (wf_next _ W).
  - intros k kd v. unfold m'. intros [[<- <-]|[Hk Ek]]%lookup_insert_Some Ev; [done|].
    rewrite lookup_delete_ne; [by eapply (wf_link _ W)|]. intros <-. apply Hk. eapply (wf_inj _ W); [exact En|]. unfold out_of. by rewrite Ek.
Qed.

Lemma egress_run x n nd b : inv x -> nf_nodes x !! n = Some nd -> node_enabled t x nd = Ok b ->
  exists x' o, nf_update_egress t n x = Ok (tt, x') /\ same_cfg x x' /\ nf_out x' = nf_out x /\
    nf_nodes x' = <[n := with_out o nd]> (nf_nodes x) /\ (is_Some o <-> b = true) /\ inv x'.
Proof.
  intros H E Eb. unfold nf_update_egress. rewrite (h_bind _ _ _ _ _ (eq_refl : gets id x = Ok (x, x))).
  rewrite (h_bind _ _ _ _ _ (get_node_run n nd x E)). rewrite (h_bind _ _ b x x) by (unfold lift; by rewrite Eb).
  destruct b, (nn_out nd) as [o|] eqn:Eo.
  - exists x, (Some o). split; [done|]. split; [done|]. split; [done|]. rewrite <- Eo, with_out_same, insert_id by done. split_and!; [done| |done]. by rewrite Eo.
  - destruct (show_run x n nd H E Eo) as (x' & R & C & O & M & I). exists x', (Some (nf_next x)). split; [done|]. split_and!; try done; by eauto.
  - destruct (hide_run x n nd o H E Eo) as (x' & R & _ & C & O & M & I). exists x', None. split_and!; try done; by intros [].
  - exists x, None. split; [done|]. split; [done|]. split; [done|]. rewrite <- Eo, with_out_same, insert_id by done. split_and!; [done| |done].
    rewrite Eo. split; [by intros []|done].
Qed.

(** ** The place of a node *)

Lemma first_inserted_head m L I : sublist L I -> NoDup I -> (forall k, k ∈ I -> (exists kd, m !! k = Some kd /\ nn_inserted kd = true) <-> k ∈ L) ->
  first_inserted m I = head L.
Proof.
  intros HS. induction HS as [|k L I HS IH|k L I HS IH]; intros Hd Hin; cbn; [done|..].
  - destruct (proj2 (Hin k ltac:(set_solver)) ltac:(set_solver)) as (kd & -> & ->). done.
  - apply NoDup_cons in Hd as [Hk Hd]. assert (k ∉ L) as HkL by (intros Hx; apply Hk; by eapply sublist_subseteq).
    rewrite IH; [|done|].
    + destruct (m !! k) as [kd|] eqn:E; [|done]. destruct (nn_inserted kd) eqn:Ei; [|done]. exfalso. apply HkL, (Hin k); [set_solver|by exists kd].
    + intros j Hj. apply Hin. set_solver.
Qed.

(** All is well but for the place of [n]. *)
Record inv_but (n : nat) (x : nf) : Prop := {
  ib_wf : wf x;
  ib_ordered : ordered x (unlink n (nf_out x));
  ib_sane : forall m nd, nf_nodes x !! m = Some nd -> sane x nd;
  ib_orders : orders_ok x
}.

Lemma inv_inv_but n x : inv x -> inv_but n x.
Proof. intros [W O S R]. split; [done| |done..]. eapply ordered_sub; [|exact O]. apply sublist_filter. Qed.

(** The list without the node is split where it belongs. *)
Lemma place_run x n nd l : inv_but n x -> nf_nodes x !! n = Some nd -> l = unlink n (nf_out x) ->
  forall x2, x2 = set_nodes (<[n := with_inserted true nd]> (nf_nodes x)) (set_out l x) ->
  exists A B, l = A ++ B /\
    nf_place_node t ignore n x2 =
    Ok (tt, set_out (A ++ n :: B) x2) /\ ordered x2 (A ++ n :: B).
Proof.
  intros [W O S R] E El x2 ->. set (x2 := set_nodes _ _). unfold nf_place_node.
  rewrite (h_bind _ _ _ _ _ (eq_refl : gets nf_sorted x2 = Ok (nf_sorted x, x2))).
  assert (n ∉ l) as Hnl by (rewrite El, elem_unlink; naive_solver). assert (NoDup l) as Hndl by (rewrite El; apply NoDup_unlink, (wf_out _ W)).
  assert (forall k, keys_of (nf_nodes x) k = keys_of (nf_nodes x2) k) as Hkeys.
  { intros k. unfold keys_of. cbn. destruct (decide (k = n)) as [->|]; [by rewrite lookup_insert_eq, E|by rewrite lookup_insert_ne]. }
  assert (same_cfg x x2) as Hc by done. rewrite <- El in O.
  assert (ordered x2 l) as O2 by (by apply (ordered_ext x)).
  unfold ordered in *. change (nf_sorted x2) with (nf_sorted x) in *. destruct (nf_sorted x) eqn:Es.
  - assert (forall k, k ∈ nf_in x -> ranked x2 k) as Hrank.
    { intros k Hk. apply (wf_dom _ W) in Hk as [kd Ek]. pose proof (S _ _ Ek) as Hsk. unfold ranked. cbn. destruct (decide (k = n)) as [->|Hne].
      - rewrite E in Ek. injection Ek as <-. eexists. split; [apply lookup_insert_eq|]. apply (sn_ranks _ _ Hsk).
      - exists kd. rewrite lookup_insert_ne by done. split; [done|]. apply (sn_ranks _ _ Hsk). }
    destruct (rb_insert_spec x2 n l) as (A & B & EAB & Ei & Hs); try done.
    + apply Hrank, (wf_dom _ W). by eexists.
    + apply Forall_forall. intros k Hk. apply Hrank. rewrite El in Hk. apply elem_unlink in Hk as [Hk _].
      apply (wf_dom _ W). apply (wf_ins _ W) in Hk as (kd & Ek & _). by exists kd.
    + exists A, B. split; [done|]. split; [|done]. rewrite (h_bind _ _ _ _ _ (eq_refl : gets id x2 = Ok (x2, x2))).
      rewrite (h_bind _ _ _ _ _ (eq_refl : gets nf_out x2 = Ok (l, x2))). by rewrite (h_bind _ _ (A ++ n :: B) x2 x2) by (unfold lift; by rewrite Ei).
  - assert (n ∈ nf_in x) as Hin by (apply (wf_dom _ W); by eexists). apply list_elem_of_split in Hin as (I1 & I2 & Ei).
    pose proof (wf_in _ W) as Hnd. rewrite Ei in Hnd. assert ((n ∉ I1) /\ (n ∉ I2)) as [HI1 HI2].
    { apply NoDup_app in Hnd as (_ & N2 & [N3 _]%NoDup_cons). split; [|done]. intros H. apply (N2 _ H), list_elem_of_here. }
    rewrite Ei in O. apply sublist_app_r in O as (A & B & EAB & SA & SB).
    assert (sublist B I2) as SB'.
    { apply sublist_cons_r in SB as [SB|(B' & -> & _)]; [done|]. exfalso. apply Hnl. rewrite EAB. set_solver. }
    exists A, B. split; [done|].
    assert (first_inserted (nf_nodes x2) (behind n (nf_in x2)) = head B) as Ef.
    { cbn. rewrite Ei, behind_mid by done. apply (first_inserted_head _ _ _ SB'); [by apply NoDup_app in Hnd as (_ & _ & [_ ?]%NoDup_cons)|].
      intros k Hk. assert (k <> n) as Hkn by (by intros ->). rewrite lookup_insert_ne by done. rewrite <- (wf_ins _ W).
      split.
      - intros Ho. assert (k ∈ A ++ B) as HAB by (rewrite <- EAB, El, elem_unlink; done). apply elem_of_app in HAB as [HA|]; [|done].
        exfalso. apply NoDup_app in Hnd as (_ & N2 & _). apply (N2 k); [by eapply sublist_subseteq|by apply list_elem_of_further].
      - intros HB. assert (k ∈ l) as Hkl by (rewrite EAB; set_solver). rewrite El in Hkl. by apply elem_unlink in Hkl as [? _]. }
    split.
    + rewrite (h_bind _ _ _ _ _ (eq_refl : gets nf_nodes x2 = Ok (_, x2))), (h_bind _ _ _ _ _ (eq_refl : gets nf_in x2 = Ok (_, x2))).
      rewrite (h_bind _ _ _ _ _ (eq_refl : gets nf_out x2 = Ok (l, x2))), Ef, EAB, place_head; [done|].
      intros b Hb HA. rewrite EAB in Hndl. apply NoDup_app in Hndl as (_ & N2 & _). apply (N2 _ HA). destruct B; [done|]. injection Hb as ->.
      apply list_elem_of_here.
    + change (nf_in x2) with (nf_in x). rewrite Ei. apply sublist_app; [done|by constructor].
Qed.

Lemma insert_run x n nd : inv_but n x -> nf_nodes x !! n = Some nd ->
  exists x', nf_insert_node t ignore n x = Ok (tt, x') /\ same_cfg x x' /\
    nf_nodes x' = <[n := with_inserted true nd]> (nf_nodes x) /\ inv x'.
Proof.
  intros H E. pose proof (ib_wf _ _ H) as W. set (l := unlink n (nf_out x)). set (x1 := set_out l x).
  unfold nf_insert_node. rewrite (h_bind _ _ _ _ _ (get_node_run n nd x E)).
  rewrite (h_bind _ _ tt x x1).
  2: { destruct (nn_inserted nd) eqn:Ei; [done|]. unfold x1, l. rewrite unlink_notin; [by destruct x|].
       intros (nd' & E' & Ei')%(wf_ins _ W). congruence. }
  rewrite (h_bind _ _ _ _ _ (upd_node_run n nd _ x1 E)). set (x2 := set_nodes _ x1).
  destruct (place_run x n nd l H E eq_refl x2 eq_refl) as (A & B & El & Hrun & Ho).
  set (x3 := set_out (A ++ n :: B) x2) in *.
  rewrite (h_bind _ _ _ _ _ Hrun).
  assert (nf_nodes x3 !! n = Some (with_inserted true nd)) as E3 by apply lookup_insert_eq.
  rewrite (h_bind _ _ _ _ _ (get_node_run n _ x3 E3)). cbn [with_inserted nn_out].
  set (m := nf_nodes x) in *. set (m' := <[n := with_inserted true nd]> m) in *.
  assert (forall k, out_of m' k = out_of m k) as Hout.
  { intros k. unfold m'. rewrite out_of_insert. destruct (decide (k = n)) as [->|]; [|done]. unfold out_of. by rewrite E. }
  assert (n ∉ l) as Hnl by (unfold l; rewrite elem_unlink; naive_solver).
  assert (NoDup l) as Hndl by apply NoDup_unlink, (wf_out _ W).
  assert (NoDup (A ++ n :: B)) as HndAB by (rewrite <- Permutation_middle, <- El; by constructor).
  assert (sublist (omap (out_of m) (A ++ B)) (nf_dst x)) as Hsub.
  { rewrite <- El. etransitivity; [|apply (wf_sub _ W)]. apply omap_sublist, sublist_filter. }
  assert (forall d, NoDup d -> (forall v, v ∈ d <-> v ∈ nf_dst x) -> sublist (omap (out_of m) (A ++ n :: B)) d ->
    same_cfg x (set_dst d x3) /\ nf_nodes (set_dst d x3) = m' /\ inv (set_dst d x3)) as Hgo.
  { intros d Hd Hin Hs. split; [done|]. split; [done|]. split.
    - split; cbn [set_dst upd_lists nf_in nf_nodes nf_out nf_dst nf_next nf_links x3 set_out x2 x1 set_nodes]; fold m m'.
      + apply (wf_in _ W).
      + intros k. rewrite (wf_dom _ W). unfold m'. rewrite lookup_insert_is_Some. fold m. destruct (decide (n = k)) as [<-|]; [rewrite E|]; naive_solver.
      + done.
      + intros k. unfold m'. destruct (decide (k = n)) as [->|Hk].
        * rewrite lookup_insert_eq. split; [by eexists|set_solver].
        * rewrite lookup_insert_ne by done. unfold m. rewrite <- (wf_ins _ W). rewrite elem_of_app, elem_of_cons.
          assert (k ∈ A ++ B <-> k ∈ nf_out x) as HAB by (rewrite <- El; unfold l; rewrite elem_unlink; naive_solver).
          rewrite elem_of_app in HAB. naive_solver.
      + done.
      + intros v. rewrite Hin, (wf_dst_in _ W). by setoid_rewrite Hout.
      + by rewrite (omap_ext_in _ (out_of m)).
      + intros k j v. rewrite !Hout. apply (wf_inj _ W).
      + intros k v. rewrite Hout. apply (wf_next _ W).
      + intros k kd v. unfold m'. intros [[<- <-]|[_ Ek]]%lookup_insert_Some Ev; [exact (wf_link _ W n nd v E Ev)|exact (wf_link _ W k kd v Ek Ev)].
    - exact Ho.
    - intros k kd. cbn. fold m m'. unfold m'. intros [[<- <-]|[_ Ek]]%lookup_insert_Some; apply (strip_sane x); try done.
      + by destruct (ib_sane _ _ H _ _ E); split.
      + by apply (ib_sane _ _ H k).
    - apply (ib_orders _ _ H). }
  destruct (nn_out nd) as [o|] eqn:Eo.
  - assert (out_of m n = Some o) as En by (unfold out_of; by rewrite E).
    assert (o ∈ nf_dst x) as Hoin by (apply (wf_dst_in _ W); by exists n).
    apply list_elem_of_split in Hoin as (X & Y & Ed). pose proof (wf_dst _ W) as Hdd. rewrite Ed in Hdd.
    assert (sublist (omap (out_of m) A ++ omap (out_of m) B) (X ++ Y)) as Hs2.
    { rewrite <- omap_app. assert (o ∉ omap (out_of m) (A ++ B)) as Hno.
      { intros (k & Hk & Ek)%list_elem_of_omap. apply Hnl. rewrite El. by rewrite (wf_inj _ W n k o En Ek). }
      pose proof (sublist_unlink o _ _ Hsub Hno) as Hs. rewrite Ed in Hs. rewrite unlink_mid in Hs; [done| |].
      - apply NoDup_app in Hdd as (_ & N2 & _). intros Hx. apply (N2 _ Hx), list_elem_of_here.
      - by apply NoDup_app in Hdd as (_ & _ & [? _]%NoDup_cons). }
    destruct (sublist_split_head _ _ _ Hs2) as (D1 & D2 & EXY & S1 & S2 & Sh).
    destruct (Hgo (D1 ++ o :: D2)) as (C & M & I).
    + rewrite <- Permutation_middle, <- EXY. rewrite <- Permutation_middle in Hdd. done.
    + intros v. rewrite Ed. rewrite !elem_of_app, !elem_of_cons. assert (v ∈ X ++ Y <-> v ∈ D1 ++ D2) as HXY by by rewrite EXY.
      rewrite !elem_of_app in HXY. naive_solver.
    + rewrite omap_app. cbn. rewrite En. apply sublist_app; [done|by constructor].
    + eexists. split; [|done]. assert (next_shown n x3 = Ok (head D2, x3)) as Hnx.
      { unfold next_shown, mbind, H_bind, gets. cbn. rewrite behind_mid.
        - fold m m'. rewrite first_out_head, Sh. by rewrite (omap_ext_in _ (out_of m)).
        - apply NoDup_app in HndAB as (_ & N2 & _). intros Hx. apply (N2 _ Hx), list_elem_of_here. }
      rewrite (h_bind _ _ _ _ _ Hnx). apply on_dst_ok. change (nf_dst x3) with (nf_dst x). rewrite Ed. by apply list_move_to.
  - destruct (Hgo (nf_dst x)) as (C & M & I); [apply (wf_dst _ W)|done| |].
    + rewrite omap_app. cbn. assert (out_of m n = None) as En by (unfold out_of; by rewrite E). rewrite En. by rewrite <- omap_app.
    + exists (set_dst (nf_dst x) x3). split; [|done]. done.
Qed.

(** ** One node at a time *)

(** [m] works on the node [n] alone: when it holds [Q] and the configuration is
    [c], it holds [Q'] after it. *)
Definition op (c : nf) (n : nat) (Q : nfnode -> Prop) (m : N unit) (Q' : nfnode -> Prop) : Prop :=
  forall x nd, same_cfg c x -> inv x -> nf_nodes x !! n = Some nd -> Q nd ->
  exists x' nd', m x = Ok (tt, x') /\ same_cfg c x' /\ nf_nodes x' = <[n := nd']> (nf_nodes x) /\ inv x' /\ Q' nd'.

Lemma op_seq c n Q m Q' k Q2 : op c n Q m Q' -> op c n Q' k Q2 -> op c n Q (_ ← m; k) Q2.
Proof.
  intros H1 H2 x nd C I E HQ. destruct (H1 x nd C I E HQ) as (x1 & nd1 & R1 & C1 & M1 & I1 & Q1).
  destruct (H2 x1 nd1 C1 I1) as (x2 & nd2 & R2 & C2 & M2 & I2 & HQ2); [rewrite M1; apply lookup_insert_eq|done|].
  exists x2, nd2. rewrite (h_bind _ _ _ _ _ R1). split; [done|]. split; [done|]. split; [|done]. by rewrite M2, M1, insert_insert_eq.
Qed.

Lemma op_ret c n (Q : nfnode -> Prop) : op c n Q (mret tt) Q.
Proof. intros x nd C I E HQ. exists x, nd. split; [done|]. split; [done|]. by rewrite insert_id. Qed.

Lemma op_weaken c n (Q0 Q Q' Q1 : nfnode -> Prop) m : op c n Q m Q' -> (forall nd, Q0 nd -> Q nd) -> (forall nd, Q' nd -> Q1 nd) -> op c n Q0 m Q1.
Proof.
  intros H H0 H1 x nd C I E HQ. destruct (H x nd C I E (H0 _ HQ)) as (x' & nd' & R & C' & M & I' & HQ'). exists x', nd'. split_and!; auto.
Qed.

(** Whether a node is shown is what it should be. *)
Definition shown_ok (c : nf) (nd : nfnode) : Prop := exists b, node_enabled t c nd = Ok b /\ (is_Some (nn_out nd) <-> b = true).

(** What is known of a node besides; [K] holds of its keys. *)
Section stage.
Variable K : list sortkey -> Prop.

Record stage (p : pid) (ms : bool) (L : list Z) (ins : bool) (nd : nfnode) : Prop := {
  st_in : nn_in nd = p;
  st_multisub : nn_multisub nd = ms;
  st_preds : map fst (nn_preds nd) = L;
  st_inserted : ins = true -> nn_inserted nd = true;
  st_keys : K (nn_keys nd)
}.

(** Maybe it is shown, or not, as it should be. *)
Definition staged (c : nf) p ms L ins (b : bool) nd : Prop := stage p ms L ins nd /\ (b = true -> shown_ok c nd).

Lemma eval_preds_ok ps l : (forall id, id ∈ map fst l -> is_Some (find_pred id ps)) -> exists b, eval_preds ps l = Ok b.
Proof.
  induction l as [|[id s] l IH]; cbn; intros H; [by exists false|]. destruct (IH ltac:(intros; apply H; by apply list_elem_of_further)) as [b Hb].
  destruct s; cbn [negb]; [|by exists b]. destruct (H id (list_elem_of_here _ _)) as [p ->]. destruct (pred_hides p); [by exists true|by exists b].
Qed.

Lemma sane_enabled x nd : sane x nd -> exists b, node_enabled t x nd = Ok b.
Proof.
  intros [_ _ Hq Hp _]. unfold node_enabled. destruct (eval_preds_ok _ _ Hp) as [h Eh]. rewrite Eh.
  destruct (negb (key_missing 0 (nf_sortkey x) (nf_hide x) nd)).
  - destruct (nf_filter x) as [q|]; [|by eexists]. destruct (Hq q eq_refl) as [b Eb]. rewrite Eb. by eexists.
  - by eexists.
Qed.

Lemma key_missing_ext keys nd nd' : nn_keys nd = nn_keys nd' -> forall hide i, key_missing i keys hide nd = key_missing i keys hide nd'.
Proof.
  intros H. induction keys as [|k keys IH]; intros hide i; cbn [key_missing]; [done|]. destruct hide as [|h hide]; [done|].
  unfold key_at. by rewrite H, IH.
Qed.

Lemma enabled_ext x nd nd' : nn_in nd = nn_in nd' -> nn_keys nd = nn_keys nd' -> nn_preds nd = nn_preds nd' ->
  node_enabled t x nd = node_enabled t x nd'.
Proof. intros H1 H2 H3. unfold node_enabled. by rewrite H1, H3, (key_missing_ext _ _ _ H2). Qed.

Lemma op_shown c n Q : op c n Q (nf_update_egress t n) (fun nd' => exists nd o, Q nd /\ nd' = with_out o nd /\ shown_ok c nd').
Proof.
  intros x nd C I E HQ. destruct (sane_enabled x nd (iv_sane _ I _ _ E)) as [b Eb].
  destruct (egress_run x n nd b I E Eb) as (x' & o & R & C' & _ & M & Ho & I'). exists x', (with_out o nd). split; [done|].
  split; [by etransitivity|]. split; [done|]. split; [done|]. exists nd, o. split; [done|]. split; [done|]. exists b. split; [|done].
  by rewrite (enabled_ext c _ nd), (strip_enabled c x).
Qed.

Lemma op_egress c n p ms L i : op c n (stage p ms L i) (nf_update_egress t n) (fun nd => stage p ms L i nd /\ shown_ok c nd).
Proof.
  eapply op_weaken; [apply op_shown|done|]. intros nd' (nd & o & [S1 S2 S3 S4 S5] & -> & Hs). by split.
Qed.

Lemma op_insert c n p ms L i : op c n (stage p ms L i) (nf_insert_node t ignore n) (stage p ms L true).
Proof.
  intros x nd C I E [S1 S2 S3 S4 S5]. destruct (insert_run x n nd (inv_inv_but n x I) E) as (x' & R & C' & M & I').
  exists x', (with_inserted true nd). split; [done|]. split; [by etransitivity|]. split; [done|]. split; [done|]. by split.
Qed.

(** A change of a node that its place and property do not depend on. *)
Lemma wf_benign x n nd nd' : wf x -> nf_nodes x !! n = Some nd -> nn_in nd' = nn_in nd -> nn_out nd' = nn_out nd ->
  nn_inserted nd' = nn_inserted nd -> wf (set_nodes (<[n := nd']> (nf_nodes x)) x).
Proof.
  intros W E Hin Hout Hins.
  assert (forall k, out_of (<[n := nd']> (nf_nodes x)) k = out_of (nf_nodes x) k) as Ho.
  { intros k. rewrite out_of_insert. destruct (decide (k = n)) as [->|]; [|done]. unfold out_of. by rewrite E. }
  split; cbn [set_nodes upd_lists nf_in nf_nodes nf_out nf_dst nf_next nf_links].
  - apply (wf_in _ W).
  - intros k. rewrite (wf_dom _ W), lookup_insert_is_Some. destruct (decide (n = k)) as [<-|]; [rewrite E|]; naive_solver.
  - apply (wf_out _ W).
  - intros k. rewrite (wf_ins _ W). destruct (decide (k = n)) as [->|Hkn].
    + rewrite E, lookup_insert_eq. split; intros (d & [= <-] & Hd); eexists; (split; [done|]); congruence.
    + by rewrite lookup_insert_ne.
  - apply (wf_dst _ W).
  - intros v. rewrite (wf_dst_in _ W). by setoid_rewrite Ho.
  - rewrite (omap_ext_in _ (out_of (nf_nodes x))); [apply (wf_sub _ W)|done].
  - intros k j v. rewrite !Ho. apply (wf_inj _ W).
  - intros k v. rewrite Ho. apply (wf_next _ W).
  - intros k kd v [[<- <-]|[_ Ek]]%lookup_insert_Some Ev; [|by eapply (wf_link _ W)]. rewrite Hin. apply (wf_link _ W n nd v E). by rewrite <- Hout.
Qed.

Lemma inv_benign x n nd nd' : inv x -> nf_nodes x !! n = Some nd -> nn_in nd' = nn_in nd -> nn_out nd' = nn_out nd ->
  nn_inserted nd' = nn_inserted nd -> nn_keys nd' = nn_keys nd -> sane x nd' -> inv (set_nodes (<[n := nd']> (nf_nodes x)) x).
Proof.
  intros I E Hin Hout Hins Hk Hs. apply (inv_node x _ n nd nd'); try done. by apply (wf_benign x n nd nd' (iv_wf _ I)).
Qed.

Lemma op_benign c n Q f Q' : (forall nd, nn_in (f nd) = nn_in nd /\ nn_out (f nd) = nn_out nd /\ nn_inserted (f nd) = nn_inserted nd /\ nn_keys (f nd) = nn_keys nd) ->
  (forall nd, Q nd -> sane c nd -> sane c (f nd) /\ Q' (f nd)) -> op c n Q (upd_node n f) Q'.
Proof.
  intros Hf HQ x nd C I E Hq. destruct (Hf nd) as (F1 & F2 & F3 & F4). pose proof (iv_sane _ I _ _ E) as Hs.
  destruct (HQ nd Hq (strip_sane x c nd ltac:(by symmetry) Hs)) as [Hs' Hq'].
  eexists _, (f nd). split; [by apply upd_node_run|]. split; [done|]. split; [done|]. split; [|done].
  apply (inv_benign x n nd); try done. by apply (strip_sane c x).
Qed.

Lemma op_multisub c n p ms L i :
  op c n (stage p ms L i) (nf_update_multisub t n) (stage p (bool_decide (is_Some (nf_filter c))) L i).
Proof.
  assert (forall b, op c n (stage p ms L i) (upd_node n (with_multisub b)) (stage p b L i)) as Hset.
  { intros b. apply op_benign; [done|]. intros nd [S1 S2 S3 S4 S5] []. by repeat split. }
  intros x nd C I E Hst. pose proof Hst as [S1 S2 S3 S4 S5]. unfold nf_update_multisub.
  assert (nf_filter x = nf_filter c) as Ef by (change (nf_filter (strip x) = nf_filter (strip c)); by rewrite C).
  rewrite (h_bind _ _ _ _ _ (eq_refl : gets nf_filter x = Ok (_, x))), (h_bind _ _ _ _ _ (get_node_run n nd x E)), Ef, S2.
  destruct (nf_filter c) as [q|] eqn:Eq, ms; cbn [bool_decide].
  - by apply (op_ret c n _ x nd).
  - assert (op c n (stage p false L i) (_ ← nf_multi_filter t n; upd_node n (with_multisub true)) (stage p true L i)) as Hop.
    { apply (op_seq c n _ _ (stage p false L i)).
      - eapply op_weaken; [apply op_egress|done|]. by intros nd' [? _].
      - apply op_benign; [done|]. intros nd' [T1 T2 T3 T4 T5] []. by repeat split. }
    by apply (Hop x nd).
  - by apply (Hset false x nd).
  - by apply (op_ret c n _ x nd).
Qed.

Lemma pred_flag_in id l : id ∈ map fst l -> is_Some (pred_flag id l).
Proof.
  unfold pred_flag. induction l as [|[i s] l IH]; cbn; [by intros ?%elem_of_nil|]. destruct (Z.eqb_spec i id) as [->|Hne]; [by eexists|].
  intros [->|H]%elem_of_cons; [done|]. by apply IH.
Qed.

Lemma set_pred_flag_ids id s l : map fst (set_pred_flag id s l) = map fst l.
Proof. unfold set_pred_flag. rewrite map_map. apply map_ext. intros [i b]. cbn. by destruct (i =? id). Qed.

Lemma op_pred_update c n p ms L i (b : bool) id s : id ∈ L ->
  op c n (staged c p ms L i b) (nfnp_update t n id s)
    (staged c p ms L i b).
Proof.
  intros Hid x nd C I E [Hst Hb]. unfold nfnp_update. rewrite (h_bind _ _ _ _ _ (get_node_run n nd x E)).
  destruct (pred_flag_in id (nn_preds nd)) as [old Eold]; [by rewrite (st_preds _ _ _ _ _ Hst)|]. rewrite Eold.
  destruct (Bool.eqb old s); [by apply (op_ret c n (staged c p ms L i b) x nd)|].
  assert (op c n (stage p ms L i) (_ ← upd_node n (fun x => with_preds (set_pred_flag id s (nn_preds x)) x); nf_update_egress t n)
    (staged c p ms L i b)) as Hop; [|by apply (Hop x nd)].
  apply (op_seq c n _ _ (stage p ms L i)).
  - apply op_benign; [done|]. intros nd' [T1 T2 T3 T4 T5] [A1 A2 A3 A4 A5]. split; split; cbn; rewrite ?set_pred_flag_ids; done.
  - eapply op_weaken; [apply op_egress|done|]. intros nd' [T1 T2]. by split.
Qed.

Lemma same_preds c x : same_cfg c x -> nf_preds x = nf_preds c.
Proof. intros C. change (nf_preds (strip x) = nf_preds (strip c)). by rewrite C. Qed.
Lemma same_world c x : same_cfg c x -> nf_world x = nf_world c.
Proof. intros C. change (nf_world (strip x) = nf_world (strip c)). by rewrite C. Qed.

Lemma the_pred_run c x id pr : same_cfg c x -> find_pred id (nf_preds c) = Some pr -> the_pred id x = Ok (pr, x).
Proof. intros C H. unfold the_pred, mbind, H_bind, gets. by rewrite (same_preds c x C), H. Qed.

Lemma op_str c n p ms L i (b : bool) id pr s : id ∈ L -> find_pred id (nf_preds c) = Some pr -> is_Some (pnp_str pr) ->
  op c n (staged c p ms L i b) (nfnp_update_str t n id s)
    (staged c p ms L i b).
Proof.
  intros Hid Hp [q Hq] x nd C I E HQ. unfold nfnp_update_str. rewrite (h_bind _ _ _ _ _ (the_pred_run c x id pr C Hp)), Hq.
  rewrite (h_bind _ _ _ _ _ (eq_refl : not_null (Some q) x = Ok (q, x))). by apply (op_pred_update c n p ms L i b id _ Hid x nd).
Qed.

Lemma op_int c n p ms L i (b : bool) id pr v : id ∈ L -> find_pred id (nf_preds c) = Some pr ->
  op c n (staged c p ms L i b) (nfnp_update_int t n id v)
    (staged c p ms L i b).
Proof.
  intros Hid Hp x nd C I E HQ. unfold nfnp_update_int. rewrite (h_bind _ _ _ _ _ (the_pred_run c x id pr C Hp)).
  by apply (op_pred_update c n p ms L i b id _ Hid x nd).
Qed.

Lemma enabled_unset c nd id : node_enabled t c (with_preds ((id, false) :: nn_preds nd) nd) = node_enabled t c nd.
Proof. unfold node_enabled. rewrite (key_missing_ext (nf_sortkey c) _ nd) by done. done. Qed.

Lemma op_insert_pred c n p ms L i b pr : find_pred (pnp_id pr) (nf_preds c) = Some pr -> pnp_id pr ∉ L ->
  op c n (staged c p ms L i b) (nfn_insert_pred t n pr) (staged c p ms (pnp_id pr :: L) i b).
Proof.
  intros Hp HL. unfold nfn_insert_pred. apply (op_seq c n _ _ (staged c p ms (pnp_id pr :: L) i b)).
  - apply op_benign; [done|]. intros nd [[T1 T2 T3 T4 T5] Hb] [A1 A2 A3 A4 A5]. split; split; cbn; try done.
    + intros id [->|Hid]%elem_of_cons; [by rewrite Hp|by apply A4].
    + constructor; [by rewrite T3|done].
    + split; try done. cbn. by rewrite T3.
    + intros E. destruct (Hb E) as (v & Ev & Hv). exists v. by rewrite enabled_unset.
  - intros x nd C I E HQ. rewrite (h_bind _ _ _ _ _ (get_node_run n nd x E)). rewrite (h_bind _ _ _ _ _ (eq_refl : gets nf_world x = Ok (_, x))).
    assert (pnp_id pr ∈ pnp_id pr :: L) as Hin by apply list_elem_of_here.
    destruct (pnp_str pr) as [q|] eqn:Eq.
    + by apply (op_str c n p ms _ i b (pnp_id pr) pr _ Hin Hp ltac:(by rewrite Eq) x nd C I E HQ).
    + by apply (op_int c n p ms _ i b (pnp_id pr) pr _ Hin Hp x nd C I E HQ).
Qed.

Lemma find_pred_in ps pr : NoDup (map pnp_id ps) -> pr ∈ ps -> find_pred (pnp_id pr) ps = Some pr.
Proof.
  unfold find_pred. induction ps as [|q ps IH]; cbn; intros Hd Hin; [by apply elem_of_nil in Hin|]. apply NoDup_cons in Hd as [H1 H2].
  apply elem_of_cons in Hin as [->|Hin]; [by rewrite Z.eqb_refl|]. rewrite (proj2 (Z.eqb_neq _ _)); [by apply IH|].
  intros E. apply H1. rewrite E. by apply list_elem_of_fmap_2.
Qed.

Lemma op_insert_preds c n p ms i : NoDup (map pnp_id (nf_preds c)) ->
  op c n (stage p ms [] i) (nfn_insert_preds t n) (stage p ms (rev (map pnp_id (nf_preds c))) i).
Proof.
  intros Hd. assert (forall ps L, NoDup (map pnp_id (ps)) -> (forall pr, pr ∈ ps -> pr ∈ nf_preds c /\ pnp_id pr ∉ L) ->
    op c n (staged c p ms L i false) (for_each ps (nfn_insert_pred t n)) (staged c p ms (rev (map pnp_id ps) ++ L) i false)) as Hall.
  { induction ps as [|pr ps IH]; intros L Hn HL; cbn [for_each]; [apply op_ret|]. cbn in Hn. apply NoDup_cons in Hn as [Hn1 Hn2].
    destruct (HL pr (list_elem_of_here _ _)) as [Hin HnL]. eapply op_seq; [apply op_insert_pred; [by apply find_pred_in|done]|].
    cbn [map rev]. rewrite <- app_assoc. cbn [app]. apply IH; [done|]. intros q Hq. destruct (HL q ltac:(by apply list_elem_of_further)) as [Hq1 Hq2].
    split; [done|]. apply not_elem_of_cons. split; [|done]. intros E. apply Hn1. rewrite <- E. by apply list_elem_of_fmap_2. }
  intros x nd C I E HQ. unfold nfn_insert_preds. rewrite (h_bind _ _ _ _ _ (eq_refl : gets nf_preds x = Ok (_, x))), (same_preds c x C).
  specialize (Hall (nf_preds c) [] Hd). rewrite app_nil_r in Hall.
  refine (op_weaken c n _ _ _ _ _ (Hall ltac:(intros; split; [done|apply not_elem_of_nil])) _ _ x nd C I E HQ); [by split|by intros ? []].
Qed.
End stage.
End view.
