(* ===== verification/PropNfCalls.v ===== *)
(** What can happen to a node filter (prop_nodefilter.c): the events of its
    source, of its subscriptions to the children, and changes of its filter,
    predicates and order; and that it shows what it should after each. *)
From S2P Require Import Prelude Clib Utf8 Collate PropStore PropTree PropMirror PropList PropNodefilter PropNfOrder PropNfView.

Local Open Scope Z_scope.

Lemma nth_insert {A} (l : list A) i k v d : nth i (<[k := v]> l) d = if decide (i = k /\ (k < length l)%nat) then v else nth i l d.
Proof.
  rewrite !nth_lookup. destruct (decide (i = k /\ (k < length l)%nat)) as [[-> H]|H].
  - by rewrite list_lookup_insert_eq.
  - destruct (decide (i = k)) as [->|Hne]; [|by rewrite list_lookup_insert_ne].
    rewrite list_insert_ge; [done|]. lia.
Qed.

Section calls.
Context (t : list Z) (ignore : bool) (Ht : folds t) (calloc : list nat -> nat).
Hypothesis calloc_fresh : forall l, calloc l ∉ l.

Notation inv := (inv t ignore).
Notation op := (op t ignore).
Notation sane := (sane t ignore).

(** * The world outside *)

Definition title (s : list Z) : Prop := exists k, title_key t ignore s k.
Definition small (v : Z) : Prop := -1073741824 < v < 1073741824.
Definition map_ok (m : option sortmap) : Prop :=
  match m with Some m => Forall (fun p => small p.2) m.1 /\ small m.2 | None => True end.

(** Events that give keys which can be compared. *)
Definition key_event (e : pevent) : Prop :=
  match e with
  | SetRstring s _ _ => title s
  | SetUri (Some s) _ _ => title s
  | SetUri None _ _ => False
  | SetInt v _ => small v
  | SetFloat f _ _ => is_nan f = false
  | _ => True
  end.

Fixpoint texts_ok (p : ptext) : Prop :=
  match p with
  | PText s => cstring_ok s
  | PNode l => (fix all (l : list ptext) : Prop := match l with [] => True | c :: l => texts_ok c /\ all l end) l
  | POther => True
  end.

Record world_ok (w : nodeworld) : Prop := {
  wo_text : texts_ok (w_text w);
  wo_key : forall path, key_event (w_key w path)
}.

Lemma filtercheck_ends p q : texts_ok p -> cstring_ok q -> q <> [] -> exists b, nf_filtercheck t p q = Ok b.
Proof.
  intros Hp Hq Hne. revert p Hp. fix IH 1. intros [s|l|]; cbn [texts_ok nf_filtercheck].
  - intros Hs. unfold filterstr. destruct (mystrstr_ends t s q Ht Hs Hq Hne) as [r ->]. by eexists.
  - induction l as [|c l IHl]; [by exists false|]. intros [Hc Hl]. destruct (IH c Hc) as [[] ->]; cbn [mbind res_bind].
    + by exists true.
    + by apply IHl.
  - by exists false.
Qed.

Lemma map_find_small m s : Forall (fun p => small p.2) m.1 -> small m.2 -> small (map_find m s).
Proof.
  intros H1 H2. unfold map_find. induction m.1 as [|[k v] l IH]; cbn; [done|]. apply Forall_cons in H1 as [Hv H1].
  case_bool_decide; [done|]. by apply IH.
Qed.

Lemma event_key_ok m e : map_ok m -> key_event e ->
  exists k, event_key m e = Ok k /\ (exists r, key_rank t ignore k r) /\ sortkey_type k <> 0.
Proof.
  intros Hm He.
  assert (forall s, title s -> exists k, (match m with Some m => SORTKEY_INT (map_find m s) | None => SORTKEY_RSTR (Some s) end) = k /\
    (exists r, key_rank t ignore k r) /\ sortkey_type k <> 0) as Hs.
  { intros s Hs. destruct m as [m|]; eexists; (split; [done|]); (split; [|done]).
    - eexists. split; [done|]. apply map_find_small; apply Hm.
    - exact Hs. }
  assert (forall k : sortkey, sortkey_type k <> 0 -> (exists r, key_rank t ignore k r) ->
    exists k', Ok k = Ok k' /\ (exists r, key_rank t ignore k' r) /\ sortkey_type k' <> 0) as Hk by (intros k ? ?; by exists k).
  destruct e as [| |s ? ?| |v ?|f ? ?|[s|] ? ?| | | | | | | | | | | | | |]; cbn [event_key key_event] in *; try (by apply Hk; [|exists []]); try done.
  - destruct (Hs s He) as (k & E & H). exists k. split; [by rewrite E|exact H].
  - apply Hk; [done|]. eexists. by split.
  - apply Hk; [done|]. eexists. by split.
  - destruct (Hs s He) as (k & E & H). exists k. split; [destruct m; by rewrite <- E|exact H].
Qed.

(** * Keys *)

(** The subscriptions to the keys [P] have told something. *)
Definition told (c : nf) (P : nat -> Prop) (ks : list sortkey) : Prop :=
  forall j, P j -> is_Some (nth j (nf_sortkey c) None) -> sortkey_type (nth j ks SORTKEY_NONE) <> 0.

(** Whether filter and predicates let a node be shown; it is when it also has the
    keys whose absence is to hide it ([shown] in PropNfShows). *)
Definition visible (c : nf) (nd : nfnode) : res bool :=
  en ← match nf_filter c with
       | Some q => nf_filtercheck t (w_text (nf_world c (nn_in nd))) q
       | None => Ok true
       end;
  h ← eval_preds (nf_preds c) (nn_preds nd);
  Ok (en && negb h).

Definition shown_as (c : nf) (nd : nfnode) : Prop := exists b, visible c nd = Ok b /\ (is_Some (nn_out nd) <-> b = true).

Lemma told_present c nd : told c (fun _ => True) (nn_keys nd) -> key_missing 0 (nf_sortkey c) (nf_hide c) nd = false.
Proof.
  intros H. assert (forall j, is_Some (nth j (nf_sortkey c) None) -> sortkey_type (key_at (0 + j) nd) <> 0) as Hj by (intros j; by apply H).
  clear H. revert Hj. generalize 0%nat, (nf_hide c). induction (nf_sortkey c) as [|k keys IH]; intros i hide Hj; cbn [key_missing]; [done|].
  destruct hide as [|h hide]; [done|]. rewrite IH.
  - rewrite orb_false_r. pose proof (Hj 0%nat) as H0. cbn [nth] in H0. rewrite Nat.add_0_r in H0. destruct k as [k|]; cbn [bool_decide]; [|done].
    rewrite (proj2 (Z.eqb_neq _ _)); [done|]. apply H0. by eexists.
  - intros j Hs. rewrite Nat.add_succ_l, <- Nat.add_succ_r. by apply (Hj (S j)).
Qed.

Lemma shown_told c nd : told c (fun _ => True) (nn_keys nd) -> shown_ok t c nd <-> shown_as c nd.
Proof. intros H. unfold shown_ok, shown_as, node_enabled. by rewrite (told_present c nd H). Qed.

Lemma told_all c ks : length (nf_sortkey c) = MAX_SORT_KEYS -> told c (fun j => (j < MAX_SORT_KEYS)%nat) ks -> told c (fun _ => True) ks.
Proof.
  intros Hl H j _ Hj. apply H; [|done]. rewrite <- Hl. destruct (Nat.lt_ge_cases j (length (nf_sortkey c))); [done|].
  rewrite nth_overflow in Hj by done. by destruct Hj.
Qed.

Lemma told_insert c P k key ks : (k < length ks)%nat -> (is_Some (nth k (nf_sortkey c) None) -> sortkey_type key <> 0) ->
  told c P ks -> told c (fun j => P j \/ j = k) (<[k := key]> ks).
Proof.
  intros Hk Hkey H j Hj Hs. rewrite nth_insert. destruct (decide _) as [[-> _]|Hn]; [by apply Hkey|].
  destruct Hj as [Hj| ->]; [by apply H|]. by destruct Hn.
Qed.

(** ** Putting a node elsewhere *)

Lemma keyed_but x n nd k key : inv x -> nf_nodes x !! n = Some nd -> (exists r, key_rank t ignore key r) ->
  inv_but t ignore n (set_nodes (<[n := with_key k key nd]> (nf_nodes x)) x).
Proof.
  intros I E Hkey. pose proof I as [W O S R]. split.
  - by apply (wf_benign x n nd).
  - apply (ordered_ext t ignore x); [done| |eapply (ordered_sub t ignore); [|exact O]; apply sublist_filter].
    intros m [_ Hm]%elem_unlink. unfold keys_of. cbn. by rewrite lookup_insert_ne.
  - intros m md. cbn. intros [[<- <-]|[_ Em]]%lookup_insert_Some; apply (strip_sane t ignore x); try done; [|by apply (S m)].
    destruct (S n nd E) as [S1 S2 S3 S4 S5]. split; try done.
    + cbn. by rewrite length_insert.
    + intros i. unfold key_at. cbn [with_key nn_keys]. rewrite nth_insert. destruct (decide _); [done|]. apply S2.
  - apply R.
Qed.

Lemma op_rekey c n Q k key : (exists r, key_rank t ignore key r) ->
  op c n Q (_ ← upd_node n (with_key k key); nf_insert_node t ignore n)
    (fun nd' => exists nd, Q nd /\ nd' = with_inserted true (with_key k key nd)).
Proof.
  intros Hkey x nd C I E HQ. rewrite (h_bind _ _ _ _ _ (upd_node_run n nd _ x E)).
  destruct (insert_run t ignore Ht _ n (with_key k key nd) (keyed_but x n nd k key I E Hkey)) as (x' & Hr & C' & M & I'); [apply lookup_insert_eq|].
  exists x', (with_inserted true (with_key k key nd)). split; [exact Hr|]. split; [by etransitivity|]. split; [|split; [done|by exists nd]].
  rewrite M. cbn. by rewrite insert_insert_eq.
Qed.

(** An order is changed, or a key is told. *)
Lemma op_sortkey c n Q k e key : event_key (nth k (nf_sortmap c) None) e = Ok key -> (exists r, key_rank t ignore key r) ->
  op c n Q (nf_set_sortkey_x t ignore k n e)
    (fun nd' => exists nd o, Q nd /\ nd' = with_out o (with_inserted true (with_key k key nd)) /\ shown_ok t c nd').
Proof.
  intros Ek Hr x nd C I E HQ. unfold nf_set_sortkey_x. rewrite (h_bind _ _ _ _ _ (eq_refl : gets nf_sortmap x = Ok (_, x))).
  assert (nf_sortmap x = nf_sortmap c) as -> by (change (nf_sortmap (strip x) = nf_sortmap (strip c)); by rewrite C).
  rewrite Ek, (h_bind _ _ key x x) by done.
  destruct (op_seq t ignore c n _ _ _ _ _ (op_rekey c n Q k key Hr) (op_shown t ignore c n _) x nd C I E HQ) as (x' & nd' & Hrun & C' & M & I' & (nd1 & o & (nd2 & HQ2 & ->) & -> & Hs)).
  eexists x', _. split; [|split; [done|split; [exact M|split; [done|by exists nd2, o]]]]. rewrite <- Hrun. unfold mbind, H_bind.
  by destruct (upd_node n (with_key k key) x) as [[]|].
Qed.

(** What a configuration has to satisfy. *)
Record cfg_ok (c : nf) : Prop := {
  cf_keys : length (nf_sortkey c) = MAX_SORT_KEYS;
  cf_maps : forall k, map_ok (nth k (nf_sortmap c) None);
  cf_ids : NoDup (map pnp_id (nf_preds c));
  cf_tally : Forall (fun id => 0 < id <= nf_pred_tally c) (map pnp_id (nf_preds c));
  cf_tally_int : 0 <= nf_pred_tally c <= int_max;
  cf_world : forall p, world_ok (nf_world c p);
  cf_filter : forall q, nf_filter c = Some q -> cstring_ok q /\ q <> [];
  cf_sorted : nf_sorted c = chksorted (nf_sortkey c);
  cf_orders : length (nf_sortorder c) = MAX_SORT_KEYS;
  cf_sortmap : length (nf_sortmap c) = MAX_SORT_KEYS
}.

Lemma strip_cfg_ok x y : same_cfg x y -> cfg_ok x -> cfg_ok y.
Proof. intros H Hx. assert (cfg_ok (strip x)) as Hs by (by destruct Hx; split). rewrite H in Hs. by destruct Hs; split. Qed.

Lemma told_ext c P P' ks : (forall j, P' j -> P j) -> told c P ks -> told c P' ks.
Proof. intros HP H j Hj. apply H. auto. Qed.

(** [nf_update_order_x] makes the key told, and keeps a node shown as it should
    be once all are. *)
Lemma op_order c n k P p ms L i (b : bool) : cfg_ok c -> (k < MAX_SORT_KEYS)%nat ->
  (b = true -> forall j, (j < MAX_SORT_KEYS)%nat -> P j \/ j = k) ->
  op c n (fun nd => stage (told c P) p ms L i nd /\ (b = true -> shown_as c nd)) (nf_update_order_x t ignore n k)
    (fun nd => stage (told c (fun j => P j \/ j = k)) p ms L true nd /\ (b = true -> shown_as c nd)).
Proof.
  intros Hc Hk Hb. unfold nf_update_order_x.
  set (Q := fun nd => (stage (told c P) p ms L i nd /\ (b = true -> shown_as c nd)) /\ length (nn_keys nd) = MAX_SORT_KEYS).
  apply (op_seq t ignore c n _ _ Q).
  { apply op_benign; [done|]. intros nd [[T1 T2 T3 T4 T5] Hs] [A1 A2 A3 A4 A5]. by split; split. }
  intros x nd C I E HQ. rewrite (h_bind _ _ _ _ _ (eq_refl : gets nf_sortkey x = Ok (_, x))).
  assert (nf_sortkey x = nf_sortkey c) as -> by (change (nf_sortkey (strip x) = nf_sortkey (strip c)); by rewrite C).
  destruct (nth k (nf_sortkey c) None) as [path|] eqn:Ek.
  - rewrite (h_bind _ _ _ _ _ (get_node_run n nd x E)), (h_bind _ _ _ _ _ (eq_refl : gets nf_world x = Ok (_, x))), (same_world c x C).
    destruct (event_key_ok (nth k (nf_sortmap c) None) (w_key (nf_world c (nn_in nd)) path)) as (key & Ekey & Hr & H0); [by apply cf_maps|by apply wo_key, cf_world|].
    refine (op_seq t ignore c n _ _ _ _ _ (op_weaken t ignore c n _ _ _ _ _ (op_sortkey c n Q k _ key Ekey Hr) (fun nd H => H) _) _ x nd C I E HQ).
    + intros nd' (nd0 & o & [[[T1 T2 T3 T4 T5] _] Hl] & -> & Hs).
      assert (told c (fun j => P j \/ j = k) (<[k := key]> (nn_keys nd0))) as Ht' by (apply told_insert; [by rewrite Hl|done|done]).
      instantiate (1 := fun nd => stage (told c (fun j => P j \/ j = k)) p ms L true nd /\ (b = true -> shown_as c nd)).
      split; [by split|]. intros Hbt. apply shown_told; [|done]. apply told_all; [by apply cf_keys|]. eapply told_ext; [|exact Ht']. by apply Hb.
    + apply op_benign; [done|]. intros nd' [[T1 T2 T3 T4 T5] Hs] [A1 A2 A3 A4 A5]. by split; split.
  - refine (op_weaken t ignore c n _ _ _ _ _ (op_rekey c n Q k SORTKEY_NONE ltac:(by exists [])) (fun nd H => H) _ x nd C I E HQ).
    intros nd' (nd0 & [[[T1 T2 T3 T4 T5] Hs] Hl] & ->). split; [|exact Hs]. split; try done. cbn. apply told_insert; [by rewrite Hl| |done].
    rewrite Ek. by intros [].
Qed.

(** * Settled filters *)

(** A node for which all that is to be done is done. *)
Record node_ok (c : nf) (nd : nfnode) : Prop := {
  no_inserted : nn_inserted nd = true;
  no_multisub : nn_multisub nd = bool_decide (is_Some (nf_filter c));
  no_preds : map fst (nn_preds nd) ≡ₚ map pnp_id (nf_preds c);
  no_shown : shown_as c nd;
  no_told : told c (fun _ => True) (nn_keys nd)
}.

Lemma strip_visible x y nd : same_cfg x y -> visible x nd = visible y nd.
Proof. intros H. change (visible (strip x) nd = visible (strip y) nd). by rewrite H. Qed.

Lemma strip_told x y P ks : same_cfg x y -> told x P ks -> told y P ks.
Proof. intros H Hx. change (told (strip x) P ks) in Hx. by rewrite H in Hx. Qed.

Lemma strip_node_ok x y nd : same_cfg x y -> node_ok x nd -> node_ok y nd.
Proof. intros H Hx. assert (node_ok (strip x) nd) as Hs by (by destruct Hx; split). rewrite H in Hs. by destruct Hs; split. Qed.

(** The child of a node. *)
Definition child_of (m : gmap nat nfnode) (n : nat) : option pid := nn_in <$> m !! n.

(** The filter has nodes for the children [ks] of its source. *)
Record listed (ks : list pid) (x : nf) : Prop := {
  li_inv : inv x;
  li_cfg : cfg_ok x;
  li_kids : map (child_of (nf_nodes x)) (nf_in x) = map Some ks;
  li_tags : forall n nd, nf_nodes x !! n = Some nd -> prop_tag_get (nf_tags x) (nn_in nd) 0 = Some n;
  li_nodup : NoDup ks
}.

(** And nothing is to be done. *)
Record quiet (ks : list pid) (x : nf) : Prop := {
  qu_listed : listed ks x;
  qu_nodes : forall n nd, nf_nodes x !! n = Some nd -> node_ok x nd
}.

(** [f] on the node [n], of the child [p]. *)
Definition for_node (p : pid) (Q : nfnode -> Prop) (nd : nfnode) : Prop := nn_in nd = p /\ Q nd.

(** Work on some nodes, one after the other. *)
Lemma each_run c (Q Q' : nat -> nfnode -> Prop) f l : forall x, (forall n, n ∈ l -> op c n (Q n) (f n) (Q' n)) -> NoDup l ->
  same_cfg c x -> inv x -> (forall n, n ∈ l -> exists nd, nf_nodes x !! n = Some nd /\ Q n nd) ->
  exists x', for_each l f x = Ok (tt, x') /\ same_cfg c x' /\ inv x' /\ (forall n, n ∉ l -> nf_nodes x' !! n = nf_nodes x !! n) /\
    (forall n, n ∈ l -> exists nd, nf_nodes x' !! n = Some nd /\ Q' n nd).
Proof.
  induction l as [|n l IH]; intros x Hop Hd C I HQ; cbn [for_each].
  - exists x. split_and!; try done. by intros n ?%elem_of_nil.
  - apply NoDup_cons in Hd as [Hn Hd]. destruct (HQ n (list_elem_of_here _ _)) as (nd & E & Hnd).
    destruct (Hop n (list_elem_of_here _ _) x nd C I E Hnd) as (x1 & nd1 & R1 & C1 & M1 & I1 & Q1).
    destruct (IH x1) as (x2 & R2 & C2 & I2 & M2 & Q2); try done.
    + intros m Hm. apply Hop. by apply list_elem_of_further.
    + intros m Hm. destruct (HQ m (list_elem_of_further _ _ _ Hm)) as (md & Em & Hmd). exists md. split; [|done].
      rewrite M1, lookup_insert_ne; [done|]. by intros ->.
    + exists x2. rewrite (h_bind _ _ _ _ _ R1). split; [done|]. split; [done|]. split; [done|]. split.
      * intros m [Hmn Hm]%not_elem_of_cons. rewrite M2, M1, lookup_insert_ne by done. done.
      * intros m [->|Hm]%elem_of_cons; [|by apply Q2]. exists nd1. split; [|done]. by rewrite M2, M1, lookup_insert_eq.
Qed.

Lemma child_of_in ks x n : map (child_of (nf_nodes x)) (nf_in x) = map Some ks -> n ∈ nf_in x -> exists nd, nf_nodes x !! n = Some nd /\ nn_in nd ∈ ks.
Proof.
  intros H Hn. apply (list_elem_of_fmap_2 (child_of (nf_nodes x))) in Hn. change (child_of (nf_nodes x) n ∈ map (child_of (nf_nodes x)) (nf_in x)) in Hn.
  rewrite H in Hn. apply list_elem_of_fmap_1 in Hn as (p & E & Hp). unfold child_of in E. destruct (nf_nodes x !! n) as [nd|]; [|done].
  injection E as <-. by exists nd.
Qed.

(** Nodes that are still of the same children. *)
Lemma kids_ext ks m m' l : (forall n, n ∈ l -> child_of m' n = child_of m n) -> map (child_of m) l = map Some ks -> map (child_of m') l = map Some ks.
Proof.
  intros H <-. induction l as [|n l IH]; cbn; [done|]. rewrite (H n) by apply list_elem_of_here. f_equal. apply IH.
  intros k Hk. apply H. by apply list_elem_of_further.
Qed.

Lemma listed_ext ks x x' : listed ks x -> same_cfg x x' -> inv x' -> (forall n, child_of (nf_nodes x') n = child_of (nf_nodes x) n) -> listed ks x'.
Proof.
  intros [I Hc Hk Ht' Hd] C I' Hch. split; try done.
  - by apply (strip_cfg_ok x).
  - rewrite <- (strip_in _ _ C). eapply kids_ext; [|exact Hk]. intros n _. apply Hch.
  - intros n nd E. assert (nf_tags x' = nf_tags x) as -> by (change (nf_tags (strip x') = nf_tags (strip x)); by rewrite C).
    specialize (Hch n). unfold child_of in Hch. rewrite E in Hch. cbn in Hch. destruct (nf_nodes x !! n) as [nd0|] eqn:E0; [|done].
    injection Hch as ->. by apply Ht'.
Qed.

Lemma sane_change x x1 nd : sane x nd -> cfg_ok x1 -> (forall id, id ∈ map fst (nn_preds nd) -> is_Some (find_pred id (nf_preds x1))) -> sane x1 nd.
Proof.
  intros [S1 S2 S3 S4 S5] Hc Hp. split; try done. intros q Hq. destruct (cf_filter _ Hc q Hq). apply filtercheck_ends; try done.
  apply wo_text, (cf_world _ Hc).
Qed.

(** A change of the configuration that leaves the lists and the order alone. *)
Lemma listed_change ks x x1 : listed ks x -> cfg_ok x1 -> same_order x x1 ->
  upd_lists (nf_dst x) (nf_nodes x) (nf_in x) (nf_out x) (nf_tags x) (nf_links x) (nf_next x) x1 = x1 ->
  (forall n nd id, nf_nodes x !! n = Some nd -> id ∈ map fst (nn_preds nd) -> is_Some (find_pred id (nf_preds x1))) -> listed ks x1.
Proof.
  intros [[W O S R] Hc Hk Ht' Hd] Hc1 Ho Hx Hp. rewrite <- Hx in Hc1 |- *. set (x2 := upd_lists _ _ _ _ _ _ _ x1) in *.
  assert (same_order x x2) as Ho2 by exact Ho. split; try done. split.
  - by destruct W; split.
  - apply (ordered_order t ignore x); try done.
  - intros n nd E. eapply sane_change; [by apply (S n)|done|]. intros id Hid. by apply (Hp n nd).
  - destruct Ho as (E1 & E2 & _). intros i k. change (nf_sortkey x2) with (nf_sortkey x1). change (nf_sortorder x2) with (nf_sortorder x1).
    rewrite <- E1, <- E2. apply R.
Qed.

(** Work on all nodes. *)
Lemma run_all ks c Q Q' f : listed ks c -> (forall n nd, nf_nodes c !! n = Some nd -> Q nd) ->
  (forall n p, op c n (for_node p Q) (f n) (for_node p Q')) ->
  exists x', for_each (nf_in c) f c = Ok (tt, x') /\ listed ks x' /\ same_cfg c x' /\ (forall n nd, nf_nodes x' !! n = Some nd -> Q' nd).
Proof.
  intros HL HQ Hop. pose proof (li_inv _ _ HL) as I. pose proof (iv_wf _ _ _ I) as W.
  destruct (each_run c (fun n => for_node (default 0%nat (child_of (nf_nodes c) n)) Q) (fun n => for_node (default 0%nat (child_of (nf_nodes c) n)) Q') f (nf_in c) c)
    as (x' & R & C' & I' & M & Hn'); try done.
  - apply (wf_in _ W).
  - intros n [nd E]%(wf_dom _ W). exists nd. split; [done|]. split; [unfold child_of; by rewrite E|by apply (HQ n)].
  - exists x'. split; [done|]. split; [|split; [done|]].
    + apply (listed_ext ks c); try done. intros n. destruct (decide (n ∈ nf_in c)) as [Hn|Hn].
      * destruct (Hn' n Hn) as (nd & E & Hin & _). apply (wf_dom _ W) in Hn as [nd0 E0]. unfold child_of in *. by rewrite E, E0 in *; cbn in *; rewrite Hin.
      * unfold child_of. by rewrite M.
    + intros n nd E. assert (n ∈ nf_in c) as Hn.
      { rewrite (strip_in _ _ C'). apply (wf_dom _ (iv_wf _ _ _ I')). by exists nd. }
      destruct (Hn' n Hn) as (nd' & E' & _ & H). rewrite E in E'. by injection E' as <-.
Qed.

(** All nodes are settled again after a change of the configuration. *)
Lemma settle_all ks c Q f : listed ks c -> (forall n nd, nf_nodes c !! n = Some nd -> Q nd) ->
  (forall n p, op c n (for_node p Q) (f n) (for_node p (node_ok c))) ->
  exists x', for_each (nf_in c) f c = Ok (tt, x') /\ quiet ks x' /\ same_cfg c x'.
Proof.
  intros HL HQ Hop. destruct (run_all ks c Q (node_ok c) f HL HQ Hop) as (x' & R & HL' & C & Hn). exists x'. split; [done|]. split; [|done].
  split; [done|]. intros n nd E. apply (strip_node_ok c); [done|]. by apply (Hn n).
Qed.

(** One node is. *)
Lemma settle_one ks x n Q f nd : listed ks x -> (forall m md, m <> n -> nf_nodes x !! m = Some md -> node_ok x md) ->
  nf_nodes x !! n = Some nd -> Q nd -> (forall p, op x n (for_node p Q) f (for_node p (node_ok x))) ->
  exists x', f x = Ok (tt, x') /\ quiet ks x' /\ same_cfg x x'.
Proof.
  intros HL Hn E HQ Hop. destruct (Hop (nn_in nd) x nd) as (x' & nd' & R & C & M & I' & Hin & Hok); try done; [apply (li_inv _ _ HL)|].
  exists x'. split; [done|]. split; [|done]. split.
  - apply (listed_ext ks x); try done. intros m. unfold child_of. rewrite M.
    destruct (decide (m = n)) as [->|]; [by rewrite lookup_insert_eq, E; cbn; rewrite Hin|by rewrite lookup_insert_ne].
  - intros m md. rewrite M. intros [[<- <-]|[Hne Em]]%lookup_insert_Some; apply (strip_node_ok x); try done. by apply (Hn m).
Qed.

(** ** Settled nodes, by stages *)

Lemma op_ex {A} c n (Q : A -> nfnode -> Prop) m Q' : (forall a, op c n (Q a) m Q') -> op c n (fun nd => exists a, Q a nd) m Q'.
Proof. intros H x nd C I E [a Ha]. by apply (H a x nd). Qed.

(** A node with the predicates of the configuration, in some order. *)
Definition ready (c : nf) (p : pid) (nd : nfnode) : Prop :=
  exists L, L ≡ₚ map pnp_id (nf_preds c) /\
    stage (told c (fun _ => True)) p (bool_decide (is_Some (nf_filter c))) L true nd.

Lemma ready_ok c p nd : for_node p (node_ok c) nd <-> ready c p nd /\ shown_ok t c nd.
Proof.
  split.
  - intros [Hp [N1 N2 N3 N4 N5]]. split; [|by apply shown_told]. exists (map fst (nn_preds nd)). by split.
  - intros [(L & HL & [S1 S2 S3 S4 S5]) Hs]. split; [done|]. split; try done; [by apply S4|by rewrite S3|by apply shown_told].
Qed.

(** An operation that keeps every stage, keeps settled nodes settled. *)
Lemma op_staged c n p f :
  (forall L, L ≡ₚ map pnp_id (nf_preds c) ->
     op c n (staged t (told c (fun _ => True)) c p (bool_decide (is_Some (nf_filter c))) L true true) f
       (staged t (told c (fun _ => True)) c p (bool_decide (is_Some (nf_filter c))) L true true)) ->
  op c n (for_node p (node_ok c)) f (for_node p (node_ok c)).
Proof.
  intros H. apply (op_weaken t ignore c n _ (fun nd => exists L, L ≡ₚ map pnp_id (nf_preds c) /\ staged t (told c (fun _ => True)) c p (bool_decide (is_Some (nf_filter c))) L true true nd) (for_node p (node_ok c))); [apply (op_ex c n (fun L nd => L ≡ₚ map pnp_id (nf_preds c) /\ staged t (told c (fun _ => True)) c p (bool_decide (is_Some (nf_filter c))) L true true nd))| |].
  - intros L x nd C I E [HL HQ]. destruct (H L HL x nd C I E HQ) as (x' & nd' & R & C' & M & I' & [HS Hs]).
    exists x', nd'. split; [done|]. split; [done|]. split; [done|]. split; [done|]. apply ready_ok. split; [by exists L|by apply Hs].
  - intros nd [(L & HL & HS) Hs]%ready_ok. exists L. by split.
  - done.
Qed.

(** Once a node is ready, only whether it is shown is left. *)
Lemma op_ready c n p : op c n (for_node p (ready c p)) (nf_update_egress t n) (for_node p (node_ok c)).
Proof.
  eapply op_weaken; [apply op_shown|done|]. intros nd' (nd & o & [Hp (L & HL & [S1 S2 S3 S4 S5])] & -> & Hs).
  apply ready_ok. split; [|done]. exists L. split; [done|]. by split.
Qed.

(** * Subscriptions to children *)

Lemma run_key ks x n nd k e : quiet ks x -> nf_nodes x !! n = Some nd -> (k < MAX_SORT_KEYS)%nat -> key_event e ->
  exists x', nf_set_sortkey_x t ignore k n e x = Ok (tt, x') /\ quiet ks x' /\ same_cfg x x'.
Proof.
  intros [HL Hn] E Hk He. pose proof (li_cfg _ _ HL) as Hc.
  destruct (event_key_ok (nth k (nf_sortmap x) None) e (cf_maps _ Hc k) He) as (key & Ekey & Hr & H0).
  apply (settle_one ks x n (fun nd => node_ok x nd /\ length (nn_keys nd) = MAX_SORT_KEYS) _ nd); try done.
  - intros m md _. apply Hn.
  - split; [by apply (Hn n)|]. apply (sn_keys _ _ _ _ (iv_sane _ _ _ (li_inv _ _ HL) _ _ E)).
  - intros p. eapply op_weaken; [apply (op_sortkey x n _ k e key Ekey Hr)|done|]. intros nd' (nd0 & o & [Hp [Hok Hl]] & -> & Hs).
    apply ready_ok. split; [|done]. destruct (proj1 (ready_ok x p nd0)) as [(L & HLp & [S1 S2 S3 S4 S5]) _]; [by split|].
    exists L. split; [done|]. split; try done. cbn. eapply told_ext; [|apply (told_insert x (fun _ => True)); [by rewrite Hl|done|exact S5]]. by left.
Qed.

Lemma run_pred ks x n nd f : quiet ks x -> nf_nodes x !! n = Some nd ->
  (forall p L, L ≡ₚ map pnp_id (nf_preds x) ->
     op x n (staged t (told x (fun _ => True)) x p (bool_decide (is_Some (nf_filter x))) L true true) f
       (staged t (told x (fun _ => True)) x p (bool_decide (is_Some (nf_filter x))) L true true)) ->
  exists x', f x = Ok (tt, x') /\ quiet ks x' /\ same_cfg x x'.
Proof.
  intros [HL Hn] E Hop. apply (settle_one ks x n (node_ok x) _ nd); try done.
  - intros m md _. apply Hn.
  - by apply (Hn n).
  - intros p. apply op_staged. apply Hop.
Qed.

Lemma find_pred_id id ps p : find_pred id ps = Some p -> p ∈ ps /\ pnp_id p = id.
Proof. unfold find_pred. intros [H1%list_elem_of_In H2%Z.eqb_eq]%find_some. done. Qed.

Lemma run_pred_str ks x n nd id p s : quiet ks x -> nf_nodes x !! n = Some nd -> find_pred id (nf_preds x) = Some p -> is_Some (pnp_str p) ->
  exists x', nfnp_update_str t n id s x = Ok (tt, x') /\ quiet ks x' /\ same_cfg x x'.
Proof.
  intros H E Hp Hs. apply (run_pred ks x n nd _ H E). intros q L HL. apply (op_str t ignore _ x n q _ L true true id p s); try done.
  rewrite HL. destruct (find_pred_id _ _ _ Hp) as [Hin <-]. by apply list_elem_of_fmap_2.
Qed.

Lemma run_pred_int ks x n nd id p v : quiet ks x -> nf_nodes x !! n = Some nd -> find_pred id (nf_preds x) = Some p ->
  exists x', nfnp_update_int t n id v x = Ok (tt, x') /\ quiet ks x' /\ same_cfg x x'.
Proof.
  intros H E Hp. apply (run_pred ks x n nd _ H E). intros q L HL. apply (op_int t ignore _ x n q _ L true true id p v); try done.
  rewrite HL. destruct (find_pred_id _ _ _ Hp) as [Hin <-]. by apply list_elem_of_fmap_2.
Qed.

(** * Texts, filters, predicates *)

(** The nodes, if not all about them, are the same. *)
Definition kept (x x' : nf) : Prop := nf_in x' = nf_in x /\ nf_nodecount x' = nf_nodecount x.

Lemma kept_cfg c x x' : same_cfg c x' -> kept x c -> kept x x'.
Proof.
  intros C [E1 E2]. split; [by rewrite <- (strip_in _ _ C)|]. rewrite <- E2.
  change (nf_nodecount (strip x') = nf_nodecount (strip c)). by rewrite C.
Qed.

Lemma eval_preds_ext ps ps' l : (forall id, id ∈ map fst l -> pred_hides <$> find_pred id ps = pred_hides <$> find_pred id ps') ->
  eval_preds ps l = eval_preds ps' l.
Proof.
  induction l as [|[id s] l IH]; cbn [eval_preds]; intros H; [done|]. rewrite IH by (intros i Hi; apply H; by apply list_elem_of_further).
  destruct s; cbn [negb]; [|done]. specialize (H id (list_elem_of_here _ _)).
  destruct (find_pred id ps) as [p|], (find_pred id ps') as [q|]; try done. cbn in H. injection H as ->. done.
Qed.

Lemma set_world_ok p w x : cfg_ok x -> world_ok w -> cfg_ok (set_world p w x).
Proof. intros [] Hw. split; try done. intros q. cbn. by destruct (decide (q = p)). Qed.

Lemma find_pred_some ps id : id ∈ map pnp_id ps -> is_Some (find_pred id ps).
Proof.
  unfold find_pred. induction ps as [|p ps IH]; cbn; [by intros ?%elem_of_nil|]. destruct (Z.eqb_spec (pnp_id p) id) as [->|Hne]; [by eexists|].
  intros [->|H]%elem_of_cons; [done|by apply IH].
Qed.

Lemma preds_found ks x n nd id : listed ks x -> nf_nodes x !! n = Some nd -> id ∈ map fst (nn_preds nd) -> is_Some (find_pred id (nf_preds x)).
Proof. intros HL E. apply (sn_preds _ _ _ _ (iv_sane _ _ _ (li_inv _ _ HL) _ _ E)). Qed.

Lemma set_world_listed ks p w x : listed ks x -> world_ok w -> listed ks (set_world p w x).
Proof.
  intros HL Hw. apply (listed_change ks x); try done; [apply set_world_ok; [apply (li_cfg _ _ HL)|done]|].
  intros n nd id. by apply (preds_found ks).
Qed.

Lemma set_world_other p w x nd : nn_in nd <> p -> node_ok x nd -> node_ok (set_world p w x) nd.
Proof.
  intros Hne [N1 N2 N3 (b & Eb & Hb) N5]. split; try done. exists b. split; [|done]. rewrite <- Eb. unfold visible. cbn. by rewrite decide_False.
Qed.

Lemma child_once ks x n m nd md : listed ks x -> nf_nodes x !! n = Some nd -> nf_nodes x !! m = Some md -> nn_in nd = nn_in md -> n = m.
Proof.
  intros HL En Em E. pose proof (li_tags _ _ HL _ _ En) as Tn. rewrite E, (li_tags _ _ HL _ _ Em) in Tn. by injection Tn.
Qed.

(** What is told when the texts of a child change. *)
Lemma run_text ks x n nd w : quiet ks x -> nf_nodes x !! n = Some nd -> world_ok w ->
  exists x', (if nn_multisub nd then nf_multi_filter t n else mret tt) (set_world (nn_in nd) w x) = Ok (tt, x') /\ quiet ks x' /\ kept x x'.
Proof.
  intros [HL Hn] E Hw. set (c := set_world (nn_in nd) w x). assert (listed ks c) as HLc by by apply set_world_listed.
  assert (forall m md, m <> n -> nf_nodes c !! m = Some md -> node_ok c md) as Ho.
  { intros m md Hne Em. apply set_world_other; [|by apply (Hn m)]. intros Hp. apply Hne. by apply (child_once ks x m n md nd). }
  pose proof (Hn _ _ E) as Hok. destruct (nn_multisub nd) eqn:Em.
  - destruct (settle_one ks c n (ready c (nn_in nd)) (nf_update_egress t n) nd HLc Ho E) as (x' & R & Q & C).
    + destruct (proj1 (ready_ok x (nn_in nd) nd)) as [H _]; [by split|exact H].
    + intros p x1 nd1 C1 I1 E1 [Hp HR]. apply (op_ready c n p x1 nd1); try done. split; [done|]. destruct HR as (L & HL' & [S1 S2 S3 S4 S5]). exists L. split; [done|]. by split.
    + exists x'. split; [done|]. split; [done|]. by apply (kept_cfg c).
  - exists c. split; [done|]. split; [|done]. split; [done|]. intros m md Ec. destruct (decide (m = n)) as [->|Hne]; [|by apply (Ho m)].
    change (nf_nodes x !! n = Some md) in Ec. rewrite E in Ec. injection Ec as <-. destruct Hok as [N1 N2 N3 (b & Eb & Hb) N5]. split; try done.
    exists b. split; [|done]. rewrite <- Eb. unfold visible. change (nf_filter c) with (nf_filter x). rewrite N2 in Em.
    destruct (nf_filter x); [done|]. done.
Qed.

Lemma set_world_quiet ks p w x : quiet ks x -> world_ok w -> p ∉ ks -> quiet ks (set_world p w x).
Proof.
  intros [HL Hn] Hw Hp. split; [by apply set_world_listed|]. intros n nd E. apply set_world_other; [|by apply (Hn n)]. intros <-.
  apply Hp. assert (n ∈ nf_in x) as Hin by (apply (wf_dom _ (iv_wf _ _ _ (li_inv _ _ HL))); by exists nd).
  destruct (child_of_in ks x n (li_kids _ _ HL) Hin) as (nd' & E' & Hk). change (nf_nodes x !! n = Some nd) in E. rewrite E in E'. by injection E' as <-.
Qed.

(** ** The filter *)

(** A node that is ready but for the subscription to its texts. *)
Lemma op_filter c n p :
  op c n (for_node p (fun nd => nn_inserted nd = true /\ map fst (nn_preds nd) ≡ₚ map pnp_id (nf_preds c) /\ told c (fun _ => True) (nn_keys nd)))
    (_ ← nf_update_multisub t n; nf_update_egress t n) (for_node p (node_ok c)).
Proof.
  intros x nd C I E (Hp & H1 & H2 & H3).
  assert (op c n (stage (told c (fun _ => True)) p (nn_multisub nd) (map fst (nn_preds nd)) true) (_ ← nf_update_multisub t n; nf_update_egress t n) (for_node p (node_ok c))) as Hop.
  { eapply op_seq; [apply op_multisub|]. eapply op_weaken; [apply (op_ready c n p)| |done]. intros nd' HS. split; [apply (st_in _ _ _ _ _ _ HS)|].
    by exists (map fst (nn_preds nd)). }
  apply (Hop x nd C I E). by split.
Qed.

Lemma run_filter ks x str : quiet ks x -> (forall s, str = Some s -> cstring_ok s) ->
  exists x', nf_set_filter t str x = Ok (tt, x') /\ quiet ks x' /\ kept x x'.
Proof.
  intros [HL Hn] Hs. set (s := match str with Some [] => None | _ => str end).
  assert (forall pend sent, let c := set_pending pend (upd_rest (nf_refcount x) (nf_pred_tally x) (nf_nodecount x) (nf_srcsub x) s (nf_preds x) (nf_pending x) sent x) in
    exists x', for_each (nf_in x) (fun n => _ ← nf_update_multisub t n; nf_update_egress t n) c = Ok (tt, x') /\ quiet ks x' /\ kept x x') as Hall.
  { intros pend sent c. destruct (settle_all ks c (fun nd => nn_inserted nd = true /\ map fst (nn_preds nd) ≡ₚ map pnp_id (nf_preds c) /\ told c (fun _ => True) (nn_keys nd)) (fun n => _ ← nf_update_multisub t n; nf_update_egress t n))
      as (x' & R & Q & C).
    - apply (listed_change ks x); try done.
      + destruct (li_cfg _ _ HL). split; try done. intros q Hq. change (s = Some q) in Hq. unfold s in Hq. destruct str as [[|a b]|]; try done. injection Hq as <-.
        split; [by apply Hs|done].
      + intros n nd id. by apply (preds_found ks).
    - intros n nd E. destruct (Hn n nd E). by split_and!.
    - intros n p. apply op_filter.
    - exists x'. split; [exact R|]. split; [done|]. by apply (kept_cfg c). }
  unfold nf_set_filter. fold s. rewrite (h_bind _ _ _ _ _ (eq_refl : modify (set_filter s) x = Ok (tt, _))).
  rewrite (h_bind _ _ _ _ _ (eq_refl : gets nf_pending _ = Ok (_, _))). destruct s as [q|] eqn:Es.
  - destruct (Hall (nf_pending x) (nf_sent x)) as (x' & R & H). exists x'. split; [|exact H]. exact R.
  - change (nf_pending (set_filter None x)) with (nf_pending x). destruct (nf_pending x) as [yes|] eqn:Ep.
    + destruct (Hall None (nf_sent x ++ [SentHaveMore yes])) as (x' & R & H). exists x'. split; [|exact H]. exact R.
    + destruct (Hall None (nf_sent x)) as (x' & R & H). exists x'. split; [|exact H]. rewrite <- R. unfold set_pending, set_filter. cbn. by rewrite Ep.
Qed.

(** ** Predicates *)

Lemma enable_ids id v ps : map pnp_id (enable_pred id v ps) = map pnp_id ps.
Proof. unfold enable_pred. rewrite map_map. apply map_ext. intros p. by destruct (pnp_id p =? id). Qed.

(** A node that has the predicates [L]. *)
Record with_ids (c : nf) (L : list Z) (nd : nfnode) : Prop := {
  wi_inserted : nn_inserted nd = true;
  wi_multisub : nn_multisub nd = bool_decide (is_Some (nf_filter c));
  wi_preds : map fst (nn_preds nd) ≡ₚ L;
  wi_told : told c (fun _ => True) (nn_keys nd)
}.

Lemma op_with_ids c n p L : op c n (for_node p (with_ids c L)) (nf_update_egress t n) (for_node p (fun nd => with_ids c L nd /\ shown_as c nd)).
Proof.
  eapply op_weaken; [apply op_shown|done|]. intros nd' (nd & o & [Hp [W1 W2 W3 W4]] & -> & Hs). split; [done|]. split; [by split|].
  by apply shown_told.
Qed.

Lemma with_ids_ok c nd : with_ids c (map pnp_id (nf_preds c)) nd -> shown_as c nd -> node_ok c nd.
Proof. intros [] Hs. by split. Qed.

Lemma strip_with_ids c x L nd : same_cfg c x -> with_ids c L nd -> with_ids x L nd.
Proof. intros C H. assert (with_ids (strip c) L nd) as Hs by (by destruct H; split). rewrite C in Hs. by destruct Hs; split. Qed.

Lemma strip_shown_as c x nd : same_cfg c x -> shown_as c nd -> shown_as x nd.
Proof. intros C (b & Eb & Hb). exists b. by rewrite <- (strip_visible c x nd C). Qed.

(** Predicates change, but not under the nodes. *)
Lemma preds_listed ks ps tally x : listed ks x -> NoDup (map pnp_id ps) -> Forall (fun id => 0 < id <= tally) (map pnp_id ps) -> 0 <= tally <= int_max ->
  (forall n nd id, nf_nodes x !! n = Some nd -> id ∈ map fst (nn_preds nd) -> id ∈ map pnp_id ps) ->
  listed ks (set_preds ps (set_tally tally x)).
Proof.
  intros HL Hd Hf Ht' Hin. apply (listed_change ks x); try done.
  - by destruct (li_cfg _ _ HL); split.
  - intros n nd id E Hid. apply find_pred_some. by apply (Hin n nd).
Qed.

Lemma node_ids ks x n nd id : listed ks x -> nf_nodes x !! n = Some nd -> id ∈ map fst (nn_preds nd) -> id ∈ map pnp_id (nf_preds x).
Proof. intros HL E Hi. destruct (preds_found ks x n nd id HL E Hi) as [q [Hq <-]%find_pred_id]. by apply list_elem_of_fmap_2. Qed.

(** [pnp_set_enable], while the nodes have the predicates [L]. *)
Lemma enable_run ks x id v L : listed ks x -> is_Some (find_pred id (nf_preds x)) ->
  (forall n nd, nf_nodes x !! n = Some nd -> with_ids x L nd /\ shown_as x nd) ->
  exists x' ps, pnp_set_enable t id v x = Ok (tt, x') /\ listed ks x' /\ same_cfg (set_preds ps x) x' /\ map pnp_id ps = map pnp_id (nf_preds x) /\
    (forall n nd, nf_nodes x' !! n = Some nd -> with_ids x' L nd /\ shown_as x' nd).
Proof.
  intros HL [pr Hp] Hn. unfold pnp_set_enable. rewrite (h_bind _ _ _ _ _ (the_pred_run x x id pr eq_refl Hp)).
  destruct (Bool.eqb (pnp_enabled pr) (negb (v =? 0))); [by exists x, (nf_preds x); destruct x|].
  set (ps := enable_pred id (negb (v =? 0)) (nf_preds x)). set (c := set_preds ps x).
  assert (map pnp_id ps = map pnp_id (nf_preds x)) as Eids by apply enable_ids. pose proof (li_cfg _ _ HL) as Hc.
  assert (listed ks c) as HLc.
  { apply (preds_listed ks ps (nf_pred_tally x) x); rewrite ?Eids; try done; [apply (cf_ids _ Hc)|apply (cf_tally _ Hc)|apply (cf_tally_int _ Hc)|].
    intros n nd i E. by apply (node_ids ks x n nd). }
  destruct (run_all ks c (with_ids c L) (fun nd => with_ids c L nd /\ shown_as c nd) (nf_update_egress t) HLc) as (x' & R & HL' & C & Hn').
  - intros n nd E. by destruct (Hn n nd E) as [[] _].
  - intros n p. apply op_with_ids.
  - exists x', ps. split; [exact R|]. split; [done|]. split; [done|]. split; [done|].
    intros n nd E. destruct (Hn' n nd E). split; [by apply (strip_with_ids c)|by apply (strip_shown_as c)].
Qed.

Lemma quiet_with ks x : quiet ks x <-> listed ks x /\ forall n nd, nf_nodes x !! n = Some nd -> with_ids x (map pnp_id (nf_preds x)) nd /\ shown_as x nd.
Proof.
  split; intros [HL Hn]; (split; [done|]); intros n nd E.
  - by destruct (Hn n nd E).
  - destruct (Hn n nd E). by apply with_ids_ok.
Qed.

Lemma run_enable ks x id v : quiet ks x -> is_Some (find_pred id (nf_preds x)) ->
  exists x', pnp_set_enable t id v x = Ok (tt, x') /\ quiet ks x' /\ kept x x'.
Proof.
  intros [HL Hn]%quiet_with Hp. destruct (enable_run ks x id v _ HL Hp Hn) as (x' & ps & R & HL' & C & Ep & Hn').
  exists x'. split; [done|]. split; [|by apply (kept_cfg (set_preds ps x))]. apply quiet_with. split; [done|]. rewrite (same_preds _ x' C).
  change (nf_preds (set_preds ps x)) with ps. by rewrite Ep.
Qed.

(** The node gets the new one. *)
Lemma op_new_pred c n q p L : map pnp_id (nf_preds c) = pnp_id p :: L -> find_pred (pnp_id p) (nf_preds c) = Some p -> pnp_id p ∉ L ->
  op c n (for_node q (fun nd => with_ids c L nd /\ shown_as c nd)) (nfn_insert_pred t n p) (for_node q (node_ok c)).
Proof.
  intros Hids Hp HpL x nd C I E [Hq [[W1 W2 W3 W4] Hs]].
  refine (op_weaken t ignore c n _ _ _ _ _ (op_insert_pred t ignore (told c (fun _ => True)) c n q (bool_decide (is_Some (nf_filter c))) (map fst (nn_preds nd)) true true p Hp _) (fun nd H => H) _ x nd C I E _).
  - by rewrite W3.
  - intros nd' [[S1 S2 S3 S4 S5] Hs']. split; [done|]. split; try done; [by apply S4|by rewrite S3, Hids, W3|by apply shown_told, Hs'].
  - split; [by split|]. intros _. by apply shown_told.
Qed.

(** A new predicate is not set at any node yet. *)
Lemma visible_cons c x p nd : nf_preds c = p :: nf_preds x -> nf_filter c = nf_filter x -> nf_world c = nf_world x ->
  pnp_id p ∉ map fst (nn_preds nd) -> visible c nd = visible x nd.
Proof.
  intros Ep Ef Ew Hp. unfold visible. rewrite Ep, Ef, Ew. rewrite (eval_preds_ext (p :: nf_preds x) (nf_preds x)); [done|].
  intros id Hid. unfold find_pred. cbn. by rewrite (proj2 (Z.eqb_neq (pnp_id p) id)) by (by intros <-).
Qed.

Lemma run_pred_add ks x path cf str val enable mode : quiet ks x -> nf_pred_tally x < int_max ->
  exists x' id, prop_nf_pred_add t path cf str val enable mode x = Ok (id, x') /\ quiet ks x' /\ kept x x'.
Proof.
  intros [HL Hn]%quiet_with Htally. pose proof (li_cfg _ _ HL) as Hc. destruct (cf_tally_int _ Hc) as [Ht0 _]. set (id := nf_pred_tally x + 1).
  set (p := Pred path cf mode id (bool_decide (enable = None)) str val). set (c := set_preds (p :: nf_preds x) (set_tally id x)).
  set (L := map pnp_id (nf_preds x)). assert (id ∉ L) as Hid.
  { intros H. pose proof (proj1 (Forall_forall _ _) (cf_tally _ Hc) id H) as Hr. unfold id in Hr. cbn in Hr. lia. }
  assert (listed ks c) as HLc.
  { apply preds_listed; try done; [| |unfold id; lia|]; cbn.
    - constructor; [done|apply (cf_ids _ Hc)].
    - constructor; [unfold id; lia|]. eapply Forall_impl; [apply (cf_tally _ Hc)|]. intros i. cbn. unfold id. lia.
    - intros n nd i E Hi. apply elem_of_cons. right. by apply (node_ids ks x n nd). }
  assert (forall n nd, nf_nodes c !! n = Some nd -> with_ids c L nd /\ shown_as c nd) as Hnc.
  { intros n nd E. destruct (Hn n nd E) as [[W1 W2 W3 W4] (b & Eb & Hb)]. split; [by split|]. exists b. split; [|done]. rewrite <- Eb.
    apply (visible_cons c x p); try done. by rewrite W3. }
  unfold prop_nf_pred_add. rewrite (h_bind _ _ _ _ _ (eq_refl : gets nf_pred_tally x = Ok (_, x))).
  rewrite (h_bind _ _ id x x) by (unfold lift; rewrite chk_int_Ok; [done|unfold int_min; lia]).
  rewrite (h_bind _ _ _ _ _ (eq_refl : modify (set_tally id) x = Ok (tt, _))), (h_bind _ _ _ _ _ (eq_refl : gets nf_preds _ = Ok (_, _))).
  rewrite (h_bind _ _ tt _ c) by done.
  assert (exists x1 ps, match enable with Some v => pnp_set_enable t id v | None => mret tt end c = Ok (tt, x1) /\ listed ks x1 /\
    same_cfg (set_preds ps c) x1 /\ map pnp_id ps = id :: L /\ (forall n nd, nf_nodes x1 !! n = Some nd -> with_ids x1 L nd /\ shown_as x1 nd)) as (x1 & ps & R1 & HL1 & C1 & Eps & Hn1).
  { destruct enable as [v|]; [|by exists c, (p :: nf_preds x)]. destruct (enable_run ks c id v L HLc) as (x1 & ps & R & H); [|done|by exists x1, ps].
    exists p. unfold find_pred. cbn. by rewrite Z.eqb_refl. }
  rewrite (h_bind _ _ tt c x1) by exact R1. assert (nf_preds x1 = ps) as Ep1 by by rewrite (same_preds _ x1 C1).
  destruct (find_pred_some ps id) as [p1 Hp1]; [rewrite Eps; apply list_elem_of_here|].
  rewrite (h_bind _ _ p1 x1 x1) by (apply (the_pred_run x1); [done|by rewrite Ep1]). rewrite (h_bind _ _ _ _ _ (eq_refl : gets nf_in x1 = Ok (_, x1))).
  destruct (settle_all ks x1 (fun nd => with_ids x1 L nd /\ shown_as x1 nd) (fun n => nfn_insert_pred t n p1) HL1 Hn1) as (x2 & R2 & Q2 & C2).
  { intros n q. apply (op_new_pred x1 n q p1 L); rewrite ?Ep1; destruct (find_pred_id _ _ _ Hp1) as [_ ->]; by rewrite ?Eps. }
  exists x2, id. rewrite (h_bind _ _ _ _ _ R2). split; [done|]. split; [done|]. apply (kept_cfg x1); [done|].
  by apply (kept_cfg (set_preds ps c)).
Qed.

(** ** A predicate goes *)

Lemma drop_pred_ids id l : id ∈ map fst l -> map fst l ≡ₚ id :: map fst (drop_pred id l).
Proof.
  induction l as [|[i b] l IH]; cbn; [by intros ?%elem_of_nil|]. destruct (Z.eqb_spec i id) as [->|Hne]; [done|]. cbn.
  intros [->|H]%elem_of_cons; [done|]. rewrite (IH H) at 1. apply perm_swap.
Qed.

Lemma ids_but id ps : NoDup (map pnp_id ps) -> id ∈ map pnp_id ps -> map pnp_id ps ≡ₚ id :: map pnp_id (filter (fun p => pnp_id p <> id) ps).
Proof.
  induction ps as [|p ps IH]; cbn [map]; intros Hd Hin; [by apply elem_of_nil in Hin|]. apply NoDup_cons in Hd as [Hp Hd].
  destruct (decide (pnp_id p = id)) as [E|E].
  - rewrite filter_cons_False by naive_solver. subst. f_equiv. clear -Hp. induction ps as [|q ps IH]; [done|]. cbn [map] in *.
    apply not_elem_of_cons in Hp as [H1 H2]. rewrite filter_cons_True by congruence. cbn. by rewrite <- IH.
  - rewrite filter_cons_True by done. cbn [map]. apply elem_of_cons in Hin as [->|Hin]; [done|]. rewrite (IH Hd Hin) at 1. apply perm_swap.
Qed.

Lemma find_pred_but id i ps : i <> id -> find_pred i (filter (fun p => pnp_id p <> id) ps) = find_pred i ps.
Proof.
  intros Hne. unfold find_pred. induction ps as [|p ps IH]; [done|]. destruct (decide (pnp_id p = id)) as [E|E].
  - rewrite filter_cons_False by naive_solver. cbn. rewrite (proj2 (Z.eqb_neq (pnp_id p) i)) by congruence. done.
  - rewrite filter_cons_True by done. cbn. by rewrite IH.
Qed.

Lemma op_drop_pred c n p id L : map pnp_id (nf_preds c) ≡ₚ id :: L ->
  op c n (for_node p (node_ok c))
    (x ← get_node n; _ ← passert (bool_decide (is_Some (pred_flag id (nn_preds x))));
     _ ← upd_node n (fun x => with_preds (drop_pred id (nn_preds x)) x); nf_update_egress t n)
    (for_node p (fun nd => with_ids c L nd /\ shown_as c nd)).
Proof.
  intros Hids x nd C I E [Hp [N1 N2 N3 N4 N5]]. rewrite (h_bind _ _ _ _ _ (get_node_run n nd x E)).
  assert (id ∈ map fst (nn_preds nd)) as Hin by (rewrite N3, Hids; apply list_elem_of_here).
  rewrite (bool_decide_true (is_Some _)) by by apply pred_flag_in.
  rewrite (h_bind _ _ _ _ _ (eq_refl : passert true x = Ok (tt, x))).
  refine (op_seq t ignore c n (fun md => md = nd) _ (for_node p (with_ids c L)) _ _ _ (op_with_ids c n p L) x nd C I E eq_refl).
  apply op_benign; [done|]. intros md -> [A1 A2 A3 A4 A5]. pose proof (drop_pred_ids id _ Hin) as Hd. split.
  - split; try done; cbn.
    + intros i Hi. apply A4. rewrite Hd. by apply list_elem_of_further.
    + rewrite Hd in A5. by apply NoDup_cons in A5 as [_ ?].
  - split; [done|]. split; try done. cbn. apply (Permutation_cons_inv (a := id)). by rewrite <- Hd, N3.
Qed.

Lemma run_pred_remove ks x id : quiet ks x -> exists x', prop_nf_pred_remove t id x = Ok (tt, x') /\ quiet ks x' /\ kept x x'.
Proof.
  intros HQ. pose proof HQ as [HL Hn]. pose proof (li_cfg _ _ HL) as Hc. unfold prop_nf_pred_remove. destruct (id =? 0); [by exists x|].
  rewrite (h_bind _ _ _ _ _ (eq_refl : gets nf_preds x = Ok (_, x))). destruct (find_pred id (nf_preds x)) as [p|] eqn:Ep; [|by exists x].
  rewrite (h_bind _ _ _ _ _ (eq_refl : gets nf_in x = Ok (_, x))). set (ps := filter (fun p => pnp_id p <> id) (nf_preds x)). set (L := map pnp_id ps).
  assert (id ∈ map pnp_id (nf_preds x)) as Hid by (destruct (find_pred_id _ _ _ Ep) as [Hin <-]; by apply list_elem_of_fmap_2).
  pose proof (ids_but id _ (cf_ids _ Hc) Hid) as Hids. fold ps L in Hids.
  destruct (run_all ks x (node_ok x) (fun nd => with_ids x L nd /\ shown_as x nd)
    (fun n => x ← get_node n; _ ← passert (bool_decide (is_Some (pred_flag id (nn_preds x)))); _ ← upd_node n (fun x => with_preds (drop_pred id (nn_preds x)) x); nf_update_egress t n) HL Hn)
    as (x1 & R & HL1 & C1 & Hn0).
  { intros n q. by apply op_drop_pred. }
  assert (forall n nd, nf_nodes x1 !! n = Some nd -> with_ids x1 L nd /\ shown_as x1 nd) as Hn1.
  { intros n nd E. destruct (Hn0 n nd E). split; [by apply (strip_with_ids x)|by apply (strip_shown_as x)]. }
  rewrite (h_bind _ _ _ _ _ R), (h_bind _ _ _ _ _ (eq_refl : gets nf_preds x1 = Ok (_, x1))), (same_preds x x1 C1). fold ps.
  exists (set_preds ps x1). split; [done|]. assert (NoDup L) as HdL by (pose proof (cf_ids _ Hc) as Hd; rewrite Hids in Hd; by apply NoDup_cons in Hd as [_ ?]).
  assert (forall n nd i, nf_nodes x1 !! n = Some nd -> i ∈ map fst (nn_preds nd) -> i ∈ L /\ i <> id) as Hi.
  { intros n nd i E Hin. destruct (Hn1 n nd E) as [[_ _ W3 _] _]. rewrite W3 in Hin. split; [done|]. intros ->.
    pose proof (cf_ids _ Hc) as Hd. rewrite Hids in Hd. by apply NoDup_cons in Hd as [? _]. }
  assert (nf_pred_tally x1 = nf_pred_tally x) as Et by (change (nf_pred_tally (strip x1) = nf_pred_tally (strip x)); by rewrite C1).
  split; [|exact (kept_cfg x x x1 C1 (conj eq_refl eq_refl))]. apply quiet_with. split.
  - apply (preds_listed ks ps (nf_pred_tally x1) x1); try done.
    + rewrite Et. pose proof (cf_tally _ Hc) as Hf. rewrite Hids in Hf. by apply Forall_cons in Hf as [_ ?].
    + rewrite Et. apply (cf_tally_int _ Hc).
    + intros n nd i E Hin. by apply (Hi n nd).
  - intros n nd E. destruct (Hn1 n nd E) as [[W1 W2 W3 W4] (b & Eb & Hb)]. change (nf_nodes x1 !! n = Some nd) in E.
    split.
    + by split.
    + exists b. split; [|done]. rewrite <- Eb. unfold visible. change (nf_preds (set_preds ps x1)) with ps.
      rewrite (eval_preds_ext ps (nf_preds x1)); [done|]. intros i Hin. rewrite (same_preds x x1 C1). unfold ps. rewrite find_pred_but; [done|].
      by apply (Hi n nd).
Qed.
End calls.
