(* ===== verification/PropNfSource.v ===== *)
(** The order and the source of a node filter (prop_nodefilter.c), and what it
    shows after anything that can happen to it. *)
From S2P Require Import Prelude Clib Utf8 Collate PropStore PropTree PropMirror PropList PropNodefilter PropNfOrder PropNfView PropNfCalls.

Local Open Scope Z_scope.

Section source.
Context (t : list Z) (ignore : bool) (Ht : folds t) (calloc : list nat -> nat).
Hypothesis calloc_fresh : forall l, calloc l ∉ l.

Notation inv := (inv t ignore).
Notation op := (op t ignore).
Notation sane := (sane t ignore).
Notation listed := (listed t ignore).
Notation quiet := (quiet t ignore).
Notation cfg_ok := (cfg_ok t ignore).
Notation node_ok := (node_ok t).
Notation shown_as := (shown_as t).
Notation world_ok := (world_ok t ignore).

(** * The order *)

Lemma uninsert_run l : forall x, (forall n, n ∈ l -> is_Some (nf_nodes x !! n)) ->
  exists M, for_each l (fun n => upd_node n (with_inserted false)) x = Ok (tt, set_nodes M x) /\
    forall n, M !! n = if decide (n ∈ l) then with_inserted false <$> nf_nodes x !! n else nf_nodes x !! n.
Proof.
  induction l as [|n l IH]; intros x Hx; cbn [for_each].
  - exists (nf_nodes x). split; [by destruct x|]. done.
  - destruct (Hx n (list_elem_of_here _ _)) as [nd E]. rewrite (h_bind _ _ _ _ _ (upd_node_run n nd _ x E)).
    destruct (IH (set_nodes (<[n := with_inserted false nd]> (nf_nodes x)) x)) as (M & R & HM).
    + intros m Hm. cbn. rewrite lookup_insert_is_Some. destruct (decide (n = m)); [by left|right]. split; [done|]. apply Hx. by apply list_elem_of_further.
    + exists M. split; [exact R|]. intros m. rewrite HM. cbn. destruct (decide (m = n)) as [->|Hne].
      * rewrite lookup_insert_eq, E. rewrite (decide_True _ _ (list_elem_of_here n l)). by destruct (decide (n ∈ l)).
      * rewrite lookup_insert_ne by done. destruct (decide (m ∈ l)) as [H|H].
        -- by rewrite decide_True by by apply list_elem_of_further.
        -- rewrite decide_False; [done|]. by apply not_elem_of_cons.
Qed.

(** The order starts anew: no node is in it. *)
Lemma relisted ks x c : listed ks x -> cfg_ok c -> orders_ok c -> nf_in c = nf_in x -> nf_out c = [] -> nf_dst c = nf_dst x -> nf_tags c = nf_tags x ->
  nf_next c = nf_next x -> nf_links c = nf_links x -> nf_preds c = nf_preds x ->
  (forall n, nf_nodes c !! n = with_inserted false <$> nf_nodes x !! n) -> listed ks c.
Proof.
  intros [[W O S R] Hc Hk Ht' Hd] Hc' Ho Ei Eo Ed Et En El Ep HM.
  assert (forall n, out_of (nf_nodes c) n = out_of (nf_nodes x) n) as Hout by (intros n; unfold out_of; rewrite HM; by destruct (nf_nodes x !! n)).
  split; try done.
  - split; try done.
    + split; rewrite ?Ei, ?Eo, ?Ed, ?El, ?En.
      * apply (wf_in _ W).
      * intros n. rewrite HM, fmap_is_Some. apply (wf_dom _ W).
      * constructor.
      * intros n. split; [by intros ?%elem_of_nil|]. intros (nd & E & Hi). rewrite HM in E. apply fmap_Some in E as (nd0 & _ & ->). done.
      * apply (wf_dst _ W).
      * intros o. rewrite (wf_dst_in _ W). by setoid_rewrite Hout.
      * apply sublist_nil_l.
      * intros n m o. rewrite !Hout. apply (wf_inj _ W).
      * intros n o. rewrite Hout. apply (wf_next _ W).
      * intros n nd o E Eo'. rewrite HM in E. apply fmap_Some in E as (nd0 & E0 & ->). by apply (wf_link _ W n nd0).
    + unfold ordered. rewrite Eo. destruct (nf_sorted c); [constructor|apply sublist_nil_l].
    + intros n nd E. rewrite HM in E. apply fmap_Some in E as (nd0 & E0 & ->). apply (sane_change t ignore Ht x); [by destruct (S n nd0 E0)|done|].
      intros id Hid. rewrite Ep. by apply (sn_preds _ _ _ _ (S n nd0 E0)).
  - rewrite Ei. eapply kids_ext; [|exact Hk]. intros n _. unfold child_of. rewrite HM. by destruct (nf_nodes x !! n).
  - intros n nd E. rewrite HM in E. apply fmap_Some in E as (nd0 & E0 & ->). rewrite Et. by apply (Ht' n nd0).
Qed.

Lemma decide_or (j i : nat) : j <> i \/ j = i.
Proof. destruct (decide (j = i)); [by right|by left]. Qed.

(** The new order is brought to all nodes. *)
Lemma reorder_all ks x c idx : (idx < MAX_SORT_KEYS)%nat -> quiet ks x -> listed ks c ->
  nf_preds c = nf_preds x -> nf_filter c = nf_filter x -> nf_world c = nf_world x ->
  (forall j, j <> idx -> nth j (nf_sortkey c) None = nth j (nf_sortkey x) None) ->
  (forall n, nf_nodes c !! n = with_inserted false <$> nf_nodes x !! n) ->
  exists x', for_each (nf_in c) (fun n => nf_update_order_x t ignore n idx) c = Ok (tt, x') /\ quiet ks x' /\ same_cfg c x'.
Proof.
  intros Hidx [HL Hn] HLc Ep Ef Ew Hk HM.
  apply (settle_all t ignore ks c (fun nd => (map fst (nn_preds nd) ≡ₚ map pnp_id (nf_preds c) /\ nn_multisub nd = bool_decide (is_Some (nf_filter c)) /\
    told c (fun j => j <> idx) (nn_keys nd)) /\ shown_as c nd)); [done|..].
  - intros n nd E. rewrite HM in E. apply fmap_Some in E as (nd0 & E0 & ->). destruct (Hn n nd0 E0) as [N1 N2 N3 (b & Eb & Hb) N5].
    split; [split; [by rewrite Ep|split; [by rewrite Ef|]]|].
    + intros j Hj. rewrite Hk by done. by apply (N5 j).
    + exists b. split; [|done]. rewrite <- Eb. unfold visible. by rewrite Ep, Ef, Ew.
  - intros n p x1 nd C I E (Hp & (H1 & H2 & H3) & Hs).
    refine (op_weaken t ignore c n _ _ _ _ _ (op_order t ignore Ht c n idx (fun j => j <> idx) p (nn_multisub nd) (map fst (nn_preds nd)) false true (li_cfg _ _ _ _ HLc) Hidx (fun _ j _ => decide_or j idx)) (fun nd H => H) _ x1 nd C I E _).
    + intros nd' [[S1 S2 S3 S4 S5] Hs']. split; [done|]. split; [by apply S4|by rewrite S2|by rewrite S3|by apply Hs'|].
      eapply told_ext; [|exact S5]. intros j _. apply decide_or.
    + split; [by split|done].
Qed.

Lemma run_sort ks x path (desc : bool) idx m hide : quiet ks x -> (idx < MAX_SORT_KEYS)%nat -> map_ok m ->
  nf_in x = [] \/ sort_same x path (if desc then -1 else 1) idx = true \/ chksorted (<[idx := path]> (nf_sortkey x)) <> nf_sorted x ->
  exists x', prop_nf_sort t ignore path desc idx m hide x = Ok (tt, x') /\ quiet ks x' /\ kept x x'.
Proof.
  intros HQ Hidx Hm Hallow. pose proof HQ as [HL Hn]. pose proof (li_cfg _ _ _ _ HL) as Hc. set (order := if desc then -1 else 1) in *.
  unfold prop_nf_sort. fold order. rewrite (bool_decide_true (idx < MAX_SORT_KEYS)%nat) by done.
  rewrite (h_bind _ _ _ _ _ (eq_refl : passert true x = Ok (tt, x))), (h_bind _ _ _ _ _ (eq_refl : gets _ x = Ok (_, x))).
  destruct (sort_same x path order idx) eqn:Esame; [by exists x|].
  set (c := match path with Some _ => set_order idx path m order hide x | None => set_order idx None m 0 false x end).
  rewrite (h_bind _ _ tt x c) by (by destruct path).
  assert (nf_sortkey c = <[idx := path]> (nf_sortkey x)) as Ekeys by (by destruct path).
  assert (nf_sortmap c = <[idx := m]> (nf_sortmap x)) as Emaps by (by destruct path).
  assert (length (nf_sortorder c) = MAX_SORT_KEYS) as Elen by (destruct path; cbn; rewrite length_insert; apply (cf_orders _ _ _ Hc)).
  assert (orders_ok c) as Ho.
  { intros i k. rewrite Ekeys, nth_insert. pose proof (iv_orders _ _ _ (li_inv _ _ _ _ HL) i k) as Hi. destruct (decide (i = idx /\ _)) as [[-> H]|H].
    - intros ->. cbn. rewrite nth_insert, decide_True by (split; [done|by rewrite (cf_orders _ _ _ Hc)]). unfold order. destruct desc; tauto.
    - intros E. specialize (Hi E). rewrite (cf_keys _ _ _ Hc) in H.
      destruct path; cbn; rewrite nth_insert, decide_False; try done; rewrite (cf_orders _ _ _ Hc); exact H. }
  assert (forall b M o, b = chksorted (nf_sortkey c) -> cfg_ok (set_out o (set_sorted b (set_nodes M c)))) as Hcfg.
  { intros b M o Hb. destruct Hc. split; try done; cbn; rewrite ?Ekeys, ?Emaps, ?length_insert; try (by destruct path); try done.
    intros k. rewrite nth_insert. by destruct (decide _). }
  rewrite (h_bind _ _ _ _ _ (eq_refl : gets nf_sortkey c = Ok (_, c))), (h_bind _ _ _ _ _ (eq_refl : gets nf_sorted c = Ok (_, c))).
  rewrite (h_bind _ _ _ _ _ (eq_refl : gets nf_in c = Ok (_, c))).
  pose proof (li_inv _ _ _ _ HL) as I. pose proof (iv_wf _ _ _ I) as W.
  assert (nf_nodes c = nf_nodes x /\ nf_in c = nf_in x /\ nf_sorted c = nf_sorted x /\ nf_nodecount c = nf_nodecount x) as (En & Ei & Es & Ecnt) by (by destruct path).
  assert (exists c2 M o, (if negb (Bool.eqb (nf_sorted c) (chksorted (nf_sortkey c))) then
      _ ← for_each (nf_in c) (fun n => upd_node n (with_inserted false)); _ ← modify (set_sorted (negb (nf_sorted c))); modify (set_out [])
      else mret tt) c = Ok (tt, c2) /\ c2 = set_out [] (set_sorted o (set_nodes M c)) /\ o = chksorted (nf_sortkey c) /\
      (forall n, M !! n = with_inserted false <$> nf_nodes x !! n)) as (c2 & M & o & R & E2 & Eo & HM).
  { destruct (Bool.eqb_spec (nf_sorted c) (chksorted (nf_sortkey c))) as [E|E]; cbn [negb].
    - destruct Hallow as [Hnil|[Hf|Hne]]; [|done|by rewrite Ekeys, Es in E]. exists c, (nf_nodes c), (nf_sorted c).
      assert (forall n, nf_nodes x !! n = None) as Hnone.
      { intros n. destruct (nf_nodes x !! n) as [nd|] eqn:En'; [|done]. assert (n ∈ nf_in x) as Hin by (apply (wf_dom _ W); by exists nd). rewrite Hnil in Hin. by apply elem_of_nil in Hin. }
      assert (nf_out c = []) as Eout.
      { assert (nf_out c = nf_out x) as -> by (by destruct path). destruct (nf_out x) as [|n l] eqn:Eout; [done|].
        destruct (proj1 (wf_ins _ W n)) as (nd & E' & _); [rewrite Eout; apply list_elem_of_here|]. by rewrite Hnone in E'. }
      split; [done|]. split; [|split; [done|]].
      + rewrite <- Eout. by destruct c.
      + intros n. by rewrite En, Hnone.
    - destruct (uninsert_run (nf_in c) c) as (M & R & HM).
      + rewrite Ei, En. intros n. apply (wf_dom _ W).
      + eexists _, M, _. split; [rewrite (h_bind _ _ _ _ _ R); reflexivity|]. split; [done|]. split.
        * revert E. by destruct (nf_sorted c), (chksorted (nf_sortkey c)).
        * intros n. rewrite HM, En, Ei. destruct (decide (n ∈ nf_in x)) as [Hin|Hin]; [done|]. destruct (nf_nodes x !! n) as [nd|] eqn:E'; [|done].
          destruct Hin. apply (wf_dom _ W). by exists nd. }
  rewrite (h_bind _ _ tt c c2) by exact R.
  destruct (reorder_all ks x c2 idx) as (x' & Rx & Q' & C'); try done.
  - apply (relisted ks x); rewrite ?E2; try done; try (by destruct path). by apply Hcfg.
  - rewrite E2. by destruct path.
  - rewrite E2. by destruct path.
  - rewrite E2. by destruct path.
  - intros j Hj. rewrite E2. cbn. rewrite Ekeys, nth_insert, decide_False by naive_solver. done.
  - intros n. rewrite E2. apply HM.
  - exists x'. split; [|split; [done|]].
    + rewrite <- Rx. f_equal. rewrite E2. done.
    + apply (kept_cfg c2); [done|]. rewrite E2. split; [exact Ei|exact Ecnt].
Qed.

(** * New nodes *)

(** A place in a list of children, and among their nodes. *)
Lemma split_nodes ks0 x l ks b : listed ks0 x -> map (child_of (nf_nodes x)) l = map Some ks -> (forall q, b = Some q -> q ∈ ks) ->
  exists K1 K2 L1 L2, ks = K1 ++ K2 /\ l = L1 ++ L2 /\ map (child_of (nf_nodes x)) L1 = map Some K1 /\
    map (child_of (nf_nodes x)) L2 = map Some K2 /\ b = head K2 /\ nf_find_node b x = Ok (head L2, x).
Proof.
  intros HL Hk Hb. destruct b as [b|].
  - destruct (list_elem_of_split _ _ (Hb b eq_refl)) as (K1 & K2 & ->). rewrite map_app in Hk. apply map_eq_app in Hk as (L1 & L2 & E & H1 & H2).
    exists K1, (b :: K2), L1, L2. split_and!; try done. destruct L2 as [|n L2]; [done|]. cbn in H2. injection H2 as Hn _.
    unfold child_of in Hn. destruct (nf_nodes x !! n) as [nd|] eqn:En; [|done]. injection Hn as <-.
    unfold nf_find_node. rewrite (h_bind _ _ _ _ _ (eq_refl : gets nf_tags x = Ok (_, x))). by rewrite (li_tags _ _ _ _ HL n nd En).
  - exists ks, [], l, []. rewrite !app_nil_r. split_and!; done.
Qed.

Lemma link_run ks x p K1 K2 L1 L2 : quiet ks x -> ks = K1 ++ K2 -> nf_in x = L1 ++ L2 -> map (child_of (nf_nodes x)) L1 = map Some K1 ->
  map (child_of (nf_nodes x)) L2 = map Some K2 -> p ∉ ks ->
  exists n x1, link_node calloc p (head L2) x = Ok (n, x1) /\ listed (K1 ++ p :: K2) x1 /\ nf_nodes x1 !! n = Some (new_node p) /\
    (forall m md, m <> n -> nf_nodes x1 !! m = Some md -> node_ok x1 md) /\ nf_nodecount x1 = nf_nodecount x.
Proof.
  intros [HL Hn] Eks Ein HL1 HL2 Hp. pose proof (li_inv _ _ _ _ HL) as I. pose proof (iv_wf _ _ _ I) as W. set (n := calloc (nf_in x)).
  assert (n ∉ nf_in x) as Hfresh by apply calloc_fresh.
  assert (nf_nodes x !! n = None) as Hnone by (apply eq_None_not_Some; by rewrite <- (wf_dom _ W)).
  set (M := <[n := new_node p]> (nf_nodes x)).
  set (x1 := set_in (L1 ++ n :: L2) (set_nodes M (set_tags (prop_tag_set p 0 n (nf_tags x)) x))). exists n, x1.
  assert (forall l, n ∉ l -> forall ks, map (child_of (nf_nodes x)) l = map Some ks -> map (child_of M) l = map Some ks) as Hext.
  { intros l Hl ks'. apply kids_ext. intros m Hm. unfold child_of, M. rewrite lookup_insert_ne; [done|]. by intros <-. }
  assert ((n ∉ L1) /\ (n ∉ L2)) as [Hn1 Hn2] by (rewrite Ein in Hfresh; by apply not_elem_of_app).
  assert (forall m md, m <> n -> M !! m = Some md -> nf_nodes x !! m = Some md) as Hother by (intros m md Hne; unfold M; by rewrite lookup_insert_ne).
  split; [|split; [|split; [apply lookup_insert_eq|split; [|done]]]].
  - unfold link_node. rewrite (h_bind _ _ _ _ _ (eq_refl : gets nf_in x = Ok (_, x))). cbv zeta. fold n.
    rewrite (h_bind _ _ _ _ _ (eq_refl : gets nf_tags x = Ok (_, x))), (h_bind _ _ _ _ _ (eq_refl : modify _ x = Ok (tt, _))).
    rewrite (h_bind _ _ _ _ _ (eq_refl : gets nf_nodes _ = Ok (_, _))), (h_bind _ _ _ _ _ (eq_refl : modify _ _ = Ok (tt, _))).
    rewrite Ein, place_head; [done|]. intros b Hb H1. pose proof (wf_in _ W) as Hd. rewrite Ein in Hd. apply NoDup_app in Hd as (_ & N & _).
    apply (N _ H1). destruct L2; [done|]. injection Hb as ->. apply list_elem_of_here.
  - assert (cfg_ok x1) as Hc1 by by destruct (li_cfg _ _ _ _ HL); split.
    assert (forall k, out_of M k = out_of (nf_nodes x) k) as Hout.
    { intros k. unfold M. rewrite out_of_insert. destruct (decide (k = n)) as [->|]; [|done]. unfold out_of. by rewrite Hnone. }
    assert (n ∉ nf_out x) as Hno by (intros (nd & E & _)%(wf_ins _ W); congruence).
    split; try done.
    + split.
      * split; cbn [x1 set_in set_nodes set_tags upd_lists nf_in nf_nodes nf_out nf_dst nf_next nf_links]; fold M.
        -- rewrite <- Permutation_middle, <- Ein. constructor; [done|apply (wf_in _ W)].
        -- intros m. rewrite <- Permutation_middle, <- Ein, elem_of_cons, (wf_dom _ W). unfold M. rewrite lookup_insert_is_Some. destruct (decide (n = m)); naive_solver.
        -- apply (wf_out _ W).
        -- intros m. rewrite (wf_ins _ W). unfold M. destruct (decide (m = n)) as [->|Hne]; [|by rewrite lookup_insert_ne].
           rewrite Hnone, lookup_insert_eq. split; [naive_solver|]. by intros (nd & [= <-] & H).
        -- apply (wf_dst _ W).
        -- intros o. rewrite (wf_dst_in _ W). by setoid_rewrite Hout.
        -- rewrite (omap_ext_in _ (out_of (nf_nodes x))); [apply (wf_sub _ W)|done].
        -- intros k j o. rewrite !Hout. apply (wf_inj _ W).
        -- intros k o. rewrite Hout. apply (wf_next _ W).
        -- intros k nd o E Eo. unfold M in E. apply lookup_insert_Some in E as [[<- <-]|[_ E]]; [done|]. by apply (wf_link _ W k nd).
      * apply (ordered_order t ignore x); [done| | |apply (iv_ordered _ _ _ I)].
        -- intros Hs. change (nf_in x1) with (L1 ++ n :: L2). rewrite Ein in Hs. etransitivity; [exact Hs|].
           apply sublist_app; [done|]. by apply sublist_cons.
        -- intros m Hm. unfold keys_of. cbn. unfold M. rewrite lookup_insert_ne; [done|]. by intros <-.
      * intros m md. change (nf_nodes x1) with M. unfold M. intros [[<- <-]|[_ E]]%lookup_insert_Some.
        -- split; try done; cbn.
           ++ intros i. exists []. unfold key_at. cbn. by destruct i as [|[|[|[|[|i]]]]].
           ++ intros q Hq. destruct (cf_filter _ _ _ Hc1 q Hq). apply (filtercheck_ends t Ht); try done. eapply wo_text, (cf_world _ _ _ Hc1).
           ++ intros id ?%elem_of_nil. done.
           ++ constructor.
        -- apply (sane_change t ignore Ht x); [by apply (iv_sane _ _ _ I m)|done|]. intros id. by apply (preds_found t ignore ks x m).
      * apply (iv_orders _ _ _ I).
    + change (nf_nodes x1) with M. change (nf_in x1) with (L1 ++ n :: L2). rewrite !map_app. cbn [map]. f_equal; [by apply Hext|].
      f_equal; [|by apply Hext]. unfold child_of, M. by rewrite lookup_insert_eq.
    + intros m md E. change (nf_tags x1) with (prop_tag_set p 0 n (nf_tags x)). change (M !! m = Some md) in E.
      destruct (decide (m = n)) as [->|Hne].
      * unfold M in E. rewrite lookup_insert_eq in E. injection E as <-. apply tag_get_set.
      * pose proof (Hother m md Hne E) as E'. rewrite tag_get_set_ne; [by apply (li_tags _ _ _ _ HL)|]. left. intros Hmp. apply Hp.
        assert (m ∈ nf_in x) as Hin by (apply (wf_dom _ W); by exists md). destruct (child_of_in ks x m (li_kids _ _ _ _ HL) Hin) as (md' & E2 & H). rewrite E' in E2. injection E2 as <-. by rewrite <- Hmp.
    + pose proof (li_nodup _ _ _ _ HL) as Hd. rewrite Eks in Hd, Hp. rewrite <- Permutation_middle. by constructor.
  - intros m md Hne E. pose proof (Hother m md Hne E) as E'. by destruct (Hn m md E').
Qed.

Lemma op_start c n p : cfg_ok c -> op c n (for_node p (fun nd => nd = new_node p)) (start_node t ignore n) (for_node p (node_ok c)).
Proof.
  intros Hc. set (T := told c). set (f := bool_decide (is_Some (nf_filter c))). set (L := rev (map pnp_id (nf_preds c))).
  apply (op_weaken t ignore c n _ (stage (T (fun _ => False)) p false [] false) (for_node p (node_ok c))); [|intros nd [_ ->]; split; try done; by intros j|done].
  assert (forall k P i, (k < MAX_SORT_KEYS)%nat -> op c n (stage (T P) p f L i) (nf_update_order_x t ignore n k) (stage (T (fun j => P j \/ j = k)) p f L true)) as Ho.
  { intros k P i Hk. eapply op_weaken; [apply (op_order t ignore Ht c n k P p f L i false Hc Hk ltac:(done))|by split|by intros nd []]. }
  unfold start_node. eapply op_seq; [apply (op_multisub t ignore)|]. eapply op_seq; [apply (op_insert_preds t ignore), (cf_ids _ _ _ Hc)|].
  eapply op_seq; [|apply (op_ready t ignore c n p)].
  apply (op_weaken t ignore c n _ (stage (T (fun _ => False)) p f L false) (stage (T (fun j => (((False \/ j = 0%nat) \/ j = 1%nat) \/ j = 2%nat) \/ j = 3%nat)) p f L true)); [|done|].
  - unfold nf_update_order_all. cbn [seq MAX_SORT_KEYS for_each]. unfold MAX_SORT_KEYS in Ho.
    eapply op_seq; [apply Ho; lia|]. eapply op_seq; [apply Ho; lia|]. eapply op_seq; [apply Ho; lia|]. eapply op_seq; [apply Ho; lia|]. apply op_ret.
  - intros nd HS. split; [apply (st_in _ _ _ _ _ _ HS)|]. exists L. split; [symmetry; apply Permutation_rev|]. destruct HS as [S1 S2 S3 S4 S5]. split; try done.
    apply told_all; [apply (cf_keys _ _ _ Hc)|]. eapply told_ext; [|exact S5]. unfold MAX_SORT_KEYS. intros j Hj. cbn. lia.
Qed.

(** A child is added. *)
Lemma add_run ks x p b : quiet ks x -> p ∉ ks -> (forall q, b = Some q -> q ∈ ks) ->
  exists bn ks' x', nf_find_node b x = Ok (bn, x) /\ place b p ks = Some ks' /\
    (n ← link_node calloc p bn; start_node t ignore n) x = Ok (tt, x') /\ quiet ks' x' /\ nf_nodecount x' = nf_nodecount x.
Proof.
  intros HQ Hp Hb. pose proof HQ as [HL _]. destruct (split_nodes ks x (nf_in x) ks b HL (li_kids _ _ _ _ HL) Hb) as (K1 & K2 & L1 & L2 & Eks & Ein & H1 & H2 & Eb & Ef).
  destruct (link_run ks x p K1 K2 L1 L2 HQ Eks Ein H1 H2 Hp) as (n & x1 & R1 & HL1 & E1 & Ho1 & Ec1).
  destruct (settle_one t ignore (K1 ++ p :: K2) x1 n (fun nd => nd = new_node p) (start_node t ignore n) (new_node p) HL1 Ho1 E1 eq_refl) as (x' & R & Q & C).
  { intros q x2 nd C2 I2 E2 [Hq ->]. cbn in Hq. subst q. apply (op_start x1 n p (li_cfg _ _ _ _ HL1) x2 (new_node p)); try done; by split. }
  exists (head L2), (K1 ++ p :: K2), x'. split; [done|]. split; [|split; [rewrite (h_bind _ _ _ _ _ R1); exact R|split; [done|]]].
  - rewrite Eb, Eks. apply place_head. intros q Hq Hin. pose proof (li_nodup _ _ _ _ HL) as Hd. rewrite Eks in Hd. apply NoDup_app in Hd as (_ & N & _).
    apply (N q Hin). destruct K2; [done|]. injection Hq as ->. apply list_elem_of_here.
  - transitivity (nf_nodecount x1); [|done]. change (nf_nodecount (strip x') = nf_nodecount (strip x1)). by rewrite C.
Qed.

(** * Nodes that go *)

Lemma unlink_map (m : gmap nat nfnode) n p l ks : map (child_of m) l = map Some ks -> NoDup l -> NoDup ks -> child_of m n = Some p ->
  (forall k, k ∈ l -> child_of m k = Some p -> k = n) -> map (child_of m) (unlink n l) = map Some (unlink p ks).
Proof.
  revert ks. induction l as [|k l IH]; intros [|q ks] H Hl Hks Hn Hu; try done. cbn in H. injection H as Hk H.
  apply NoDup_cons in Hl as [Hl1 Hl]. apply NoDup_cons in Hks as [Hk1 Hks]. unfold unlink.
  assert (map (child_of m) (unlink n l) = map Some (unlink p ks)) as E by (apply IH; try done; intros j Hj; apply Hu; by apply list_elem_of_further).
  destruct (decide (k = n)) as [->|Hne].
  - assert (q = p) as -> by congruence. rewrite !filter_cons_False by naive_solver. exact E.
  - rewrite !filter_cons_True; [cbn; f_equal; [done|exact E]| |done]. intros ->. apply Hne, Hu; [apply list_elem_of_here|done].
Qed.

(** A node without a property leaves the lists. *)
Lemma drop_inv x n nd c : inv x -> nf_nodes x !! n = Some nd -> nn_out nd = None -> same_order x c -> cfg_ok c -> nf_preds c = nf_preds x ->
  nf_nodes c = delete n (nf_nodes x) -> nf_in c = unlink n (nf_in x) -> nf_out c = unlink n (nf_out x) -> nf_dst c = nf_dst x ->
  nf_next c = nf_next x -> nf_links c = nf_links x -> inv c.
Proof.
  intros [W O S R] E Eo Ho Hc Ep En Ei Eout Ed Ex El.
  assert (forall k, out_of (nf_nodes c) k = out_of (nf_nodes x) k) as Hout.
  { intros k. unfold out_of. rewrite En. destruct (decide (k = n)) as [->|]; [by rewrite lookup_delete_eq, E|by rewrite lookup_delete_ne]. }
  split.
  - split; rewrite ?Ei, ?Eout, ?Ed, ?Ex, ?El.
    + apply NoDup_unlink, (wf_in _ W).
    + intros k. rewrite elem_unlink, En, lookup_delete_is_Some, (wf_dom _ W). naive_solver.
    + apply NoDup_unlink, (wf_out _ W).
    + intros k. rewrite elem_unlink, En, (wf_ins _ W). destruct (decide (k = n)) as [->|Hne]; [rewrite lookup_delete_eq|rewrite lookup_delete_ne by done]; naive_solver.
    + apply (wf_dst _ W).
    + intros o. rewrite (wf_dst_in _ W). by setoid_rewrite Hout.
    + rewrite (omap_ext_in _ (out_of (nf_nodes x))) by done. etransitivity; [|apply (wf_sub _ W)]. apply omap_sublist, sublist_filter.
    + intros k j o. rewrite !Hout. apply (wf_inj _ W).
    + intros k o. rewrite Hout. apply (wf_next _ W).
    + intros k kd o Ek. rewrite En in Ek. apply lookup_delete_Some in Ek as [_ Ek]. exact (wf_link _ W k kd o Ek).
  - rewrite Eout. apply (ordered_order t ignore x); [done| | |eapply (ordered_sub t ignore); [apply sublist_filter|exact O]].
    + rewrite Ei. intros Hs. apply sublist_unlink; [done|]. rewrite elem_unlink. naive_solver.
    + intros k [_ Hk]%elem_unlink. unfold keys_of. by rewrite En, lookup_delete_ne.
  - intros k kd Ek. rewrite En in Ek. apply lookup_delete_Some in Ek as [_ Ek]. apply (sane_change t ignore Ht x); [by apply (S k)|done|].
    intros id Hid. rewrite Ep. by apply (sn_preds _ _ _ _ (S k kd Ek)).
  - destruct Ho as (E1 & E2 & _). intros i k. rewrite <- E1, <- E2. apply R.
Qed.

(** A child goes, its tag first. *)
Lemma del_run ks x n nd : quiet ks x -> nf_nodes x !! n = Some nd -> int_min < nf_nodecount x ->
  nf_nodecount x <= int_max ->
  exists x1 x', clear_tag (nn_in nd) x = Ok (Some n, x1) /\ nf_del_node n x1 = Ok (tt, x') /\ quiet (unlink (nn_in nd) ks) x' /\
    nf_in x' = unlink n (nf_in x) /\ nf_nodecount x' = nf_nodecount x - 1.
Proof.
  intros [HL Hn] E Hc1 Hc2. pose proof (li_inv _ _ _ _ HL) as I. pose proof (iv_wf _ _ _ I) as W. set (p := nn_in nd).
  set (T := (prop_tag_clear p 0 (nf_tags x)).2). set (x1 := set_tags T x).
  assert (clear_tag p x = Ok (Some n, x1)) as R1.
  { unfold clear_tag. rewrite (h_bind _ _ _ _ _ (eq_refl : gets nf_tags x = Ok (_, x))). pose proof (tag_clear_get p 0 (nf_tags x)) as Hg.
    unfold p in Hg at 2. rewrite (li_tags _ _ _ _ HL n nd E) in Hg. unfold x1, T. destruct (prop_tag_clear p 0 (nf_tags x)) as [r T']. cbn in Hg. by subst r. }
  set (c := match nn_out nd with Some o => set_links (delete o (nf_links x)) (set_dst (unlink o (nf_dst x)) x) | None => x end).
  set (x' := set_nodes (delete n (nf_nodes x)) (set_out (unlink n (nf_out x)) (set_in (unlink n (nf_in x)) (set_tags T (set_nodecount (nf_nodecount x - 1) c))))).
  exists x1, x'. split; [exact R1|]. split.
  { unfold nf_del_node. rewrite (h_bind _ _ _ _ _ (eq_refl : gets nf_nodecount x1 = Ok (nf_nodecount x, x1))).
    rewrite (h_bind _ _ (nf_nodecount x - 1) x1 x1) by (unfold lift; rewrite chk_int_Ok; [done|lia]).
    rewrite (h_bind _ _ _ _ _ (eq_refl : modify _ x1 = Ok (tt, _))), (h_bind _ _ _ _ _ (eq_refl : gets nf_in _ = Ok (_, _))).
    rewrite (h_bind _ _ _ _ _ (eq_refl : modify _ _ = Ok (tt, _))), (h_bind _ _ _ _ _ (eq_refl : gets nf_out _ = Ok (_, _))).
    rewrite (h_bind _ _ _ _ _ (eq_refl : modify _ _ = Ok (tt, _))). match goal with |- (get_node n ≫= _) ?y = _ => rewrite (h_bind _ _ _ _ _ (get_node_run n nd y E)) end.
    unfold x', c. by destruct (nn_out nd). }
  assert (cfg_ok x') as Hcfg by (unfold x', c; destruct (li_cfg _ _ _ _ HL), (nn_out nd); by split).
  assert (nf_nodes x' = delete n (nf_nodes x)) as En' by done.
  assert (forall m, m <> n -> child_of (nf_nodes x') m = child_of (nf_nodes x) m) as Hch.
  { intros m Hm. unfold child_of. by rewrite En', lookup_delete_ne. }
  split; [|split; done]. split.
  - split; try done.
    + destruct (nn_out nd) as [o|] eqn:Eo.
      * destruct (hide_run t ignore x n nd o I E Eo) as (h & _ & Eh & C & Ho & M & Ih).
        subst h. apply (drop_inv _ n (with_out None nd) _ Ih); try done; cbn.
        -- apply lookup_insert_eq.
        -- by rewrite delete_insert_eq.
      * by apply (drop_inv x n nd).
    + change (nf_in x') with (unlink n (nf_in x)). eapply kids_ext; [intros m [_ Hm]%elem_unlink; by apply Hch|].
      apply unlink_map; [apply (li_kids _ _ _ _ HL)|apply (wf_in _ W)|apply (li_nodup _ _ _ _ HL)|unfold child_of; by rewrite E|].
      intros k Hk Ek. unfold child_of in Ek. destruct (nf_nodes x !! k) as [kd|] eqn:Ekd; [|done]. injection Ek as Ek.
      by apply (child_once t ignore ks x k n kd nd).
    + intros m md Em. rewrite En' in Em. apply lookup_delete_Some in Em as [Hne Em]. change (nf_tags x') with T. unfold T. rewrite tag_clear_ne; [by apply (li_tags _ _ _ _ HL)|].
      left. intros Hp. apply Hne. symmetry. by apply (child_once t ignore ks x m n md nd).
    + apply NoDup_unlink, (li_nodup _ _ _ _ HL).
  - intros m md Em. rewrite En' in Em. apply lookup_delete_Some in Em as [_ Em]. pose proof (Hn m md Em) as Hok.
    unfold x', c. destruct (nn_out nd); by destruct Hok.
Qed.

(** A child is moved. *)
Lemma move_run ks x p b : quiet ks x -> p ∈ ks -> (forall q, b = Some q -> q ∈ ks /\ q <> p) ->
  exists n bn ks' x', nf_find_node (Some p) x = Ok (Some n, x) /\ nf_find_node b x = Ok (bn, x) /\ place b p (unlink p ks) = Some ks' /\
    nf_move_node t ignore n bn x = Ok (tt, x') /\ quiet ks' x' /\ nf_nodecount x' = nf_nodecount x.
Proof.
  intros [HL Hn] Hp Hb. pose proof (li_inv _ _ _ _ HL) as I. pose proof (iv_wf _ _ _ I) as W. pose proof (wf_in _ W) as Hdin. pose proof (li_nodup _ _ _ _ HL) as Hdks.
  destruct (split_nodes ks x (nf_in x) ks (Some p) HL (li_kids _ _ _ _ HL)) as (P1 & P2 & N1 & N2 & EP & EN & HP1 & HP2 & EpP & Ef); [by intros q [= <-]|].
  destruct P2 as [|p' P2]; [done|]. injection EpP as <-. destruct N2 as [|n N2]; [done|]. cbn in HP2. injection HP2 as Hnp HP2.
  assert (exists nd, nf_nodes x !! n = Some nd /\ nn_in nd = p) as (nd & E & Ep).
  { unfold child_of in Hnp. destruct (nf_nodes x !! n) as [nd|]; [|done]. injection Hnp as <-. by exists nd. }
  assert (map (child_of (nf_nodes x)) (unlink n (nf_in x)) = map Some (unlink p ks)) as Hk0.
  { apply unlink_map; try done; [apply (li_kids _ _ _ _ HL)|]. intros k Hk Ek. unfold child_of in Ek. destruct (nf_nodes x !! k) as [kd|] eqn:Ekd; [|done]. injection Ek as Ek.
    apply (child_once t ignore ks x k n kd nd); try done. congruence. }
  destruct (split_nodes ks x (unlink n (nf_in x)) (unlink p ks) b HL Hk0) as (K1 & K2 & L1 & L2 & Eks & El & HK1 & HK2 & Eb & Efb).
  { intros q Hq. apply elem_unlink. by apply Hb. }
  assert (n ∈ nf_in x) as Hnin by (rewrite EN; set_solver). assert (n ∉ L1 ++ L2) as HnL by (rewrite <- El, elem_unlink; naive_solver).
  assert (p ∉ K1 ++ K2) as HpK by (rewrite <- Eks, elem_unlink; naive_solver).
  assert (NoDup (L1 ++ L2)) as HdL by (rewrite <- El; by apply NoDup_unlink). assert (NoDup (K1 ++ K2)) as HdK by (rewrite <- Eks; by apply NoDup_unlink).
  set (x1 := set_in (L1 ++ n :: L2) x).
  assert (inv_but t ignore n x1) as Hbut.
  { split.
    - split; cbn [x1 set_in upd_lists nf_in nf_nodes nf_out nf_dst nf_next nf_links]; try apply W.
      + rewrite <- Permutation_middle. by constructor.
      + intros k. rewrite <- (wf_dom _ W k), <- Permutation_middle, elem_of_cons, <- El, elem_unlink. destruct (decide (k = n)) as [->|]; naive_solver.
    - apply (ordered_order t ignore x); [done| |done|eapply (ordered_sub t ignore); [apply sublist_filter|apply (iv_ordered _ _ _ I)]].
      intros Hs. change (nf_in x1) with (L1 ++ n :: L2). change (nf_out x1) with (nf_out x). etransitivity; [apply (sublist_unlink n _ _ Hs); rewrite elem_unlink; naive_solver|].
      rewrite El. apply sublist_app; [done|]. by apply sublist_cons.
    - intros m md Em. by destruct (iv_sane _ _ _ I m md Em).
    - apply (iv_orders _ _ _ I). }
  destruct (insert_run t ignore Ht x1 n nd Hbut E) as (x' & R & C & M & I').
  assert (nf_nodes x' = nf_nodes x) as EM.
  { rewrite M. apply insert_id. change (nf_nodes x1) with (nf_nodes x). rewrite E. f_equal. pose proof (no_inserted _ _ _ (Hn n nd E)) as Hi. destruct nd. cbn in *. by subst. }
  exists n, (head L2), (K1 ++ p :: K2), x'. split; [done|]. split; [done|]. split; [|split; [|split]].
  - rewrite Eb, Eks. apply place_head. intros q Hq Hin. apply NoDup_app in HdK as (_ & N & _). apply (N q Hin). destruct K2; [done|]. injection Hq as ->. apply list_elem_of_here.
  - unfold nf_move_node. rewrite (h_bind _ _ _ _ _ (eq_refl : gets nf_in x = Ok (_, x))). rewrite El, place_head.
    + by rewrite (h_bind _ _ tt x x1).
    + intros q Hq Hin. apply NoDup_app in HdL as (_ & N & _). apply (N q Hin). destruct L2; [done|]. injection Hq as ->. apply list_elem_of_here.
  - split.
    + split; try done.
      * apply (strip_cfg_ok t ignore x1); [done|]. by destruct (li_cfg _ _ _ _ HL).
      * rewrite EM, <- (strip_in _ _ C). change (nf_in x1) with (L1 ++ n :: L2). rewrite !map_app. cbn [map]. by rewrite HK1, HK2, Hnp.
      * rewrite EM. assert (nf_tags x' = nf_tags x) as -> by (change (nf_tags (strip x') = nf_tags (strip x1)); by rewrite C). apply (li_tags _ _ _ _ HL).
      * rewrite <- Permutation_middle. by constructor.
    + rewrite EM. intros m md Em. apply (strip_node_ok t x1); [done|]. by destruct (Hn m md Em).
  - change (nf_nodecount (strip x') = nf_nodecount (strip x1)). by rewrite C.
Qed.

(** * All that can happen *)

(** Settled, and the nodes are counted. *)
Definition settled (ks : list pid) (x : nf) : Prop :=
  quiet ks x /\ nf_nodecount x = Z.of_nat (length ks) /\ Z.of_nat (length ks) <= int_max.

Lemma quiet_count ks x c : quiet ks x -> quiet ks (set_nodecount c x).
Proof.
  intros [HL Hn]. split.
  - apply (listed_change t ignore Ht ks x); try done.
    + by destruct (li_cfg _ _ _ _ HL).
    + intros n nd id. by apply (preds_found t ignore ks x).
  - intros n nd E. by destruct (Hn n nd E).
Qed.

Lemma clear_run l : forall ks x, l = nf_in x -> settled ks x ->
  exists x', for_each l (fun n => x ← get_node n; _ ← clear_tag (nn_in x); nf_del_node n) x = Ok (tt, x') /\ settled [] x'.
Proof.
  induction l as [|n l IH]; intros ks x El [HQ [Hc Hm]]; pose proof HQ as [HL Hn]; pose proof (li_kids _ _ _ _ HL) as Hk; rewrite <- El in Hk; cbn [for_each].
  - destruct ks; [|done]. by exists x.
  - assert (n ∈ nf_in x) as Hin by (rewrite <- El; apply list_elem_of_here). pose proof (iv_wf _ _ _ (li_inv _ _ _ _ HL)) as W.
    destruct (proj1 (wf_dom _ W n) Hin) as [nd E]. destruct (del_run ks x n nd HQ E) as (x1 & x2 & R1 & R2 & Q2 & Ei & Ec); [unfold int_min; lia|lia|].
    destruct ks as [|p ks]; [done|]. cbn in Hk. injection Hk as Hp Hk. unfold child_of in Hp. rewrite E in Hp. injection Hp as Hp.
    pose proof (li_nodup _ _ _ _ HL) as Hdk. apply NoDup_cons in Hdk as [Hpk Hdk]. pose proof (wf_in _ W) as Hd. rewrite <- El in Hd. apply NoDup_cons in Hd as [Hnl Hd].
    assert (unlink (nn_in nd) (p :: ks) = ks) as Eks by (rewrite Hp; apply (unlink_mid p [] ks); [apply not_elem_of_nil|done]). rewrite Eks in Q2.
    destruct (IH ks x2) as (x' & R & S).
    + rewrite Ei, <- El. symmetry. apply (unlink_mid n [] l); [apply not_elem_of_nil|done].
    + split; [done|]. cbn [length] in *. lia.
    + exists x'. split; [|done]. assert ((x ← get_node n; _ ← clear_tag (nn_in x); nf_del_node n) x = Ok (tt, x2)) as R3.
      { by rewrite (h_bind _ _ _ _ _ (get_node_run n nd x E)), (h_bind _ _ _ _ _ R1). }
      by rewrite (h_bind _ _ _ _ _ R3).
Qed.

Lemma add_all ps : forall ks x, quiet ks x -> NoDup (ks ++ ps) ->
  exists x', for_each ps (fun p => n ← link_node calloc p None; start_node t ignore n) x = Ok (tt, x') /\ quiet (ks ++ ps) x' /\ nf_nodecount x' = nf_nodecount x.
Proof.
  induction ps as [|p ps IH]; intros ks x HQ Hd; cbn [for_each]; [exists x; by rewrite app_nil_r|].
  destruct (add_run ks x p None HQ) as (bn & ks' & x1 & Ef & Ep & R & Q1 & E1); [|done|].
  { apply NoDup_app in Hd as (_ & N & _). intros Hin. apply (N p Hin), list_elem_of_here. }
  injection Ef as <-. injection Ep as <-. change (insert_tail p ks) with (ks ++ [p]) in Q1. destruct (IH (ks ++ [p]) x1 Q1) as (x2 & R2 & Q2 & E2); [by rewrite <- app_assoc|].
  exists x2. rewrite (h_bind _ _ _ _ _ R). split; [done|]. rewrite <- app_assoc in Q2. split; [done|]. congruence.
Qed.

(** The source tells something. *)
Lemma src_run w x e : settled (kids_of w) x -> told_kids w e -> Z.of_nat (length (kids_of (view_event w e))) <= int_max ->
  exists x', prop_nf_src_cb t ignore calloc e x = Ok (tt, x') /\ settled (kids_of (view_event w e)) x'.
Proof.
  intros HS Ht' Hm. pose proof HS as [HQ [Hc Hl]].
  destruct e as [| | | | | | | |c sel|c b|cs|c|c b| | | | | | | |yes]; cbn [told_kids view_event prop_nf_src_cb kids_of] in *; try done.
  - (* void *) unfold nf_clear. rewrite (h_bind _ _ _ _ _ (eq_refl : gets nf_in x = Ok (_, x))). by apply (clear_run (nf_in x) (kids_of w) x).
  - (* a directory *) rewrite Ht' in HS. by exists x.
  - (* a child at the end *) destruct Ht' as [Hd Hn]. rewrite (view_dir w Hd) in *. set (ks := kids_of w) in *. cbn [with_dir kids_of] in *.
    rewrite length_app in Hm. cbn in Hm. unfold nf_add_node. rewrite (h_bind _ _ _ _ _ (eq_refl : gets nf_nodecount x = Ok (_, x))).
    rewrite (h_bind _ _ (nf_nodecount x + 1) x x) by (unfold lift; rewrite chk_int_Ok; [done|unfold int_min; lia]).
    rewrite (h_bind _ _ _ _ _ (eq_refl : modify _ x = Ok (tt, _))).
    destruct (add_run ks (set_nodecount (nf_nodecount x + 1) x) c None (quiet_count _ _ _ HQ)) as (bn & ks' & x1 & Ef & Ep & R & Q1 & E1); [done|done|].
    injection Ef as <-. injection Ep as <-. exists x1. split; [exact R|]. split; [exact Q1|]. rewrite E1, length_app. cbn. lia.
  - (* before another *) destruct Ht' as (Hd & Hb & Hn). rewrite (view_dir w Hd) in *. set (ks := kids_of w) in *. cbn [with_dir kids_of] in *.
    destruct (add_run ks (set_nodecount (nf_nodecount x + 1) x) c b (quiet_count _ _ _ HQ)) as (bn & ks' & x1 & Ef & Ep & R & Q1 & E1); [done|by intros q ->|].
    rewrite Ep in *. cbn [kids_of] in *. rewrite (place_perm' _ _ _ _ Ep) in Hm. cbn in Hm.
    assert (nf_find_node b x = Ok (bn, x)) as Efx.
    { destruct b as [b|]; [|done]. unfold nf_find_node, mbind, H_bind, gets in Ef |- *.
      change (nf_tags (set_nodecount (nf_nodecount x + 1) x)) with (nf_tags x) in Ef. destruct (prop_tag_get (nf_tags x) b 0); [|done]. by injection Ef as <-. }
    rewrite (h_bind _ _ _ _ _ Efx). unfold nf_add_node. rewrite (h_bind _ _ _ _ _ (eq_refl : gets nf_nodecount x = Ok (_, x))).
    rewrite (h_bind _ _ (nf_nodecount x + 1) x x) by (unfold lift; rewrite chk_int_Ok; [done|unfold int_min; lia]).
    rewrite (h_bind _ _ _ _ _ (eq_refl : modify _ x = Ok (tt, _))).
    exists x1. split; [exact R|]. split; [exact Q1|]. rewrite E1, (place_perm' _ _ _ _ Ep). cbn. lia.
  - (* many *) destruct Ht' as [Hd Hn]. rewrite (view_dir w Hd) in *. set (ks := kids_of w) in *. cbn [with_dir kids_of] in *.
    rewrite length_app in Hm. unfold nf_add_nodes. rewrite (h_bind _ _ _ _ _ (eq_refl : gets nf_nodecount x = Ok (_, x))).
    rewrite (h_bind _ _ (nf_nodecount x + Z.of_nat (length cs)) x x) by (unfold lift; rewrite chk_int_Ok; [done|unfold int_min; lia]).
    rewrite (h_bind _ _ _ _ _ (eq_refl : modify _ x = Ok (tt, _))).
    destruct (add_all cs ks _ (quiet_count _ _ (nf_nodecount x + Z.of_nat (length cs)) HQ) Hn) as (x1 & R & Q1 & E1).
    exists x1. split; [exact R|]. split; [exact Q1|]. rewrite E1, length_app. cbn. lia.
  - (* a child goes *) pose proof HQ as [HL Hn]. assert (is_view_dir w) as Hd by (destruct w; try done; by apply elem_of_nil in Ht').
    rewrite (view_dir w Hd) in *. set (ks := kids_of w) in *. cbn [with_dir kids_of] in *.
    destruct (split_nodes ks x (nf_in x) ks (Some c) HL (li_kids _ _ _ _ HL)) as (P1 & P2 & N1 & N2 & EP & EN & HP1 & HP2 & EpP & _); [by intros q [= <-]|].
    destruct P2 as [|p' P2]; [done|]. injection EpP as <-. destruct N2 as [|n N2]; [done|]. cbn in HP2. injection HP2 as Hnp HP2.
    unfold child_of in Hnp. destruct (nf_nodes x !! n) as [nd|] eqn:E; [|done]. injection Hnp as Ep.
    destruct (del_run ks x n nd HQ E) as (x1 & x2 & R1 & R2 & Q2 & Ei & Ec); [unfold int_min; lia|lia|]. rewrite Ep in *.
    assert (length ks = S (length (unlink c ks))) as Elen.
    { pose proof (li_nodup _ _ _ _ HL) as Hdk. rewrite EP in *. apply NoDup_app in Hdk as (N1' & N2' & [N3' N4']%NoDup_cons). rewrite unlink_mid; [rewrite !length_app; cbn; lia| |done].
      intros Hin. apply (N2' c Hin), list_elem_of_here. }
    exists x2. rewrite (h_bind _ _ _ _ _ R1). rewrite (h_bind _ _ _ _ _ (eq_refl : not_null (Some n) x1 = Ok (n, x1))). split; [exact R2|].
    split; [done|]. lia.
  - (* a child moves *) destruct Ht' as [Hc1 Hb]. assert (is_view_dir w) as Hd by (destruct w; try done; by apply elem_of_nil in Hc1).
    rewrite (view_dir w Hd) in *. set (ks := kids_of w) in *. cbn [with_dir kids_of] in *.
    destruct (move_run ks x c b HQ Hc1) as (n & bn & ks' & x' & Ef & Efb & Ep & R & Q & Ec); [by intros q ->|].
    rewrite Ep in *. cbn [kids_of] in *. rewrite (h_bind _ _ _ _ _ Ef). rewrite (h_bind _ _ _ _ _ (eq_refl : not_null (Some n) x = Ok (n, x))).
    rewrite (h_bind _ _ _ _ _ Efb). exists x'. split; [exact R|]. split; [done|].
    assert (length ks' = length ks) as El; [|by rewrite El, Ec].
    rewrite (place_perm' _ _ _ _ Ep). cbn. pose proof (li_nodup _ _ _ _ (qu_listed _ _ _ _ HQ)) as Hdk. apply list_elem_of_split in Hc1 as (K1 & K2 & EK). rewrite EK in *.
    apply NoDup_app in Hdk as (_ & N2' & [N3' _]%NoDup_cons). rewrite unlink_mid; [rewrite !length_app; cbn; lia| |done].
    intros Hin. apply (N2' c Hin), list_elem_of_here.
  - by exists x.
  - rewrite (h_bind _ _ _ _ _ (eq_refl : gets nf_filter x = Ok (_, x))).
    assert (forall pend sent, settled (kids_of w) (upd_rest (nf_refcount x) (nf_pred_tally x) (nf_nodecount x) (nf_srcsub x) (nf_filter x) (nf_preds x) pend sent x)) as Hk.
    { intros pend sent. split; [|done]. destruct HQ as [HL Hn]. split.
      - apply (listed_change t ignore Ht (kids_of w) x); try done; [by destruct (li_cfg _ _ _ _ HL)|]. intros n nd id. by apply (preds_found t ignore (kids_of w) x).
      - intros n nd E. by destruct (Hn n nd E). }
    destruct (nf_filter x) as [q|] eqn:Eq; eexists; (split; [done|]).
    + specialize (Hk (Some yes) (nf_sent x)). rewrite <- Eq in Hk. exact Hk.
    + specialize (Hk (nf_pending x) (nf_sent x ++ [SentHaveMore yes])). rewrite <- Eq in Hk. exact Hk.
Qed.
End source.
