(* ===== verification/PropNfShows.v ===== *)
(** What a node filter shows (prop_nodefilter.c), whatever happens to it: the
    children of its source that match its filter and pass its predicates, in
    the order of its keys. *)
From S2P Require Import Prelude Clib Utf8 Collate PropStore PropTree PropMirror PropList PropNodefilter PropNfOrder PropNfView PropNfCalls PropNfSource.

Local Open Scope Z_scope.

(** * All that can happen *)

Inductive ncall :=
| NSrc (e : pevent)
| NKey (n k : nat) (e : pevent)
| NPredStr (n : nat) (id : Z) (s : option (list Z))
| NPredInt (n : nat) (id : Z) (v : Z)
| NText (n : nat) (w : nodeworld)
| NWorld (p : pid) (w : nodeworld)
| NFilter (str : option (list Z))
| NEnable (id v : Z)
| NPredAdd (path : list Z) (cf : prop_nf_cmp) (str : option (list Z)) (val : Z) (enable : option Z) (mode : prop_nf_mode)
| NPredRemove (id : Z)
| NSort (path : option (list Z)) (desc : bool) (idx : nat) (m : option sortmap) (hide_on_missing : bool).

Section shows.
Context (t : list Z) (ignore : bool) (calloc : list nat -> nat).

Definition nrun (c : ncall) : N unit :=
  match c with
  | NSrc e => prop_nf_src_cb t ignore calloc e
  | NKey n k e => nf_set_sortkey_x t ignore k n e
  | NPredStr n id s => nfnp_update_str t n id s
  | NPredInt n id v => nfnp_update_int t n id v
  | NText n w =>
      nd ← get_node n;
      _ ← modify (set_world (nn_in nd) w);
      if nn_multisub nd then nf_multi_filter t n else mret tt
  | NWorld p w => modify (set_world p w)
  | NFilter str => nf_set_filter t str
  | NEnable id v => pnp_set_enable t id v
  | NPredAdd path cf str val enable mode => _ ← prop_nf_pred_add t path cf str val enable mode; mret tt
  | NPredRemove id => prop_nf_pred_remove t id
  | NSort path desc idx m hide => prop_nf_sort t ignore path desc idx m hide
  end.

(** What can happen in the state [x], while the source is seen as [w]: the
    promises of the property tree, strings without NUL bytes, titles whose
    numbers fit an [int], smaller integers and floats that are no NaN as keys.
    The order of a tree that holds nodes is not changed. *)
Definition ncan (w : pview) (x : nf) (c : ncall) : Prop :=
  match c with
  | NSrc e => told_kids w e /\ Z.of_nat (length (kids_of (view_event w e))) <= int_max
  | NKey n k e => n ∈ nf_in x /\ (k < MAX_SORT_KEYS)%nat /\ is_Some (nth k (nf_sortkey x) None) /\ key_event t ignore e
  | NPredStr n id s => n ∈ nf_in x /\ exists p, find_pred id (nf_preds x) = Some p /\ is_Some (pnp_str p)
  | NPredInt n id v => n ∈ nf_in x /\ exists p, find_pred id (nf_preds x) = Some p /\ pnp_str p = None
  | NText n w' => n ∈ nf_in x /\ world_ok t ignore w'
  | NWorld p w' => (p ∉ kids_of w) /\ world_ok t ignore w'
  | NFilter str => forall s, str = Some s -> cstring_ok s
  | NEnable id _ => is_Some (find_pred id (nf_preds x))
  | NPredAdd _ _ _ _ _ _ => nf_pred_tally x < int_max
  | NPredRemove _ => True
  | NSort path desc idx m _ =>
      (idx < MAX_SORT_KEYS)%nat /\ map_ok m /\
      (nf_in x = [] \/ sort_same x path (if desc then -1 else 1) idx = true \/ chksorted (<[idx := path]> (nf_sortkey x)) <> nf_sorted x)
  end.

(** How the source is seen then. *)
Definition nsees (w : pview) (c : ncall) : pview := match c with NSrc e => view_event w e | _ => w end.

Inductive reach : pview -> nf -> Prop :=
| reach_create autodestroy next world : (forall p, world_ok t ignore (world p)) -> reach VVoid (prop_nf_create autodestroy next world)
| reach_call w x c x' : reach w x -> ncan w x c -> nrun c x = Ok (tt, x') -> reach (nsees w c) x'.

(** A child has no value for a key whose absence is to hide it. *)
Definition lacks_key (x : nf) (nd : nfnode) : bool :=
  existsb (fun i => bool_decide (is_Some (nth i (nf_sortkey x) None)) && nth i (nf_hide x) false &&
    match key_at i nd with SORTKEY_NONE | SORTKEY_VOID => true | _ => false end) (seq 0 MAX_SORT_KEYS).
#[global] Arguments lacks_key : simpl never.

(** The children of the nodes [l] that are to be shown: those that lack no such
    key, match the filter and pass the predicates. *)
Definition shown (x : nf) (l : list nat) : list pid :=
  omap (fun n => nd ← nf_nodes x !! n;
    match visible t x nd with Ok true => if lacks_key x nd then None else Some (nn_in nd) | _ => None end) l.

Definition keys_there (x : nf) : Prop := forall n nd, nf_nodes x !! n = Some nd -> lacks_key x nd = false.

Lemma keys_there_check x : forallb (fun e => negb (lacks_key x e.2)) (map_to_list (nf_nodes x)) = true -> keys_there x.
Proof.
  intros H n nd E. rewrite forallb_forall in H. specialize (H (n, nd)). cbn in H.
  destruct (lacks_key x nd); [|done]. discriminate H. by apply list_elem_of_In, elem_of_map_to_list.
Qed.

Context (Ht : folds t) (calloc_fresh : forall l, calloc l ∉ l).

Lemma create_settled autodestroy next world : (forall p, world_ok t ignore (world p)) -> settled t ignore [] (prop_nf_create autodestroy next world).
Proof.
  intros Hw. assert (forall n, out_of ∅ n = None) as Hno by (intros n; unfold out_of; by rewrite lookup_empty).
  split; [|done]. split; [|done]. split; [split| | | |constructor]; try done.
  - split; cbn; try constructor; try done.
    + by intros ?%elem_of_nil.
    + rewrite lookup_empty. by intros [].
    + by intros ?%elem_of_nil.
    + by intros (nd & ? & _).
    + by intros ?%elem_of_nil.
    + intros (n & E). by rewrite Hno in E.
  - constructor.
  - intros i k. cbn. by destruct i as [|[|[|[|[|i]]]]].
  - split; try done; cbn.
    + intros k. by destruct k as [|[|[|[|[|k]]]]].
    + constructor.
Qed.

Lemma nrun_settled w x c : settled t ignore (kids_of w) x -> ncan w x c ->
  exists x', nrun c x = Ok (tt, x') /\ settled t ignore (kids_of (nsees w c)) x'.
Proof.
  intros HS Hc. pose proof HS as [HQ [Hcnt Hl]].
  assert (forall n, n ∈ nf_in x -> exists nd, nf_nodes x !! n = Some nd) as Hin.
  { intros n Hn. apply (wf_dom _ (iv_wf _ _ _ (li_inv _ _ _ _ (qu_listed _ _ _ _ HQ)))) in Hn as [nd E]. by exists nd. }
  assert (forall x', quiet t ignore (kids_of w) x' -> kept x x' -> settled t ignore (kids_of w) x') as Hkept.
  { intros x' Q' [_ E]. split; [done|]. by rewrite E. }
  assert (forall x', same_cfg x x' -> kept x x') as Hcfg by (intros x' C; by apply (kept_cfg x)).
  destruct c as [e|n k e|n id s|n id v|n w'|p w'|str|id v|path cf str val enable mode|id|path desc idx m hide]; cbn [nrun ncan nsees] in *.
  - destruct Hc. by apply src_run.
  - destruct Hc as (Hn & Hk & _ & He). destruct (Hin n Hn) as [nd E]. destruct (run_key t ignore Ht _ x n nd k e HQ E Hk He) as (x' & R & Q' & C); eauto 10.
  - destruct Hc as (Hn & p & Hp & Hs). destruct (Hin n Hn) as [nd E]. destruct (run_pred_str t ignore _ x n nd id p s HQ E Hp Hs) as (x' & R & Q' & C); eauto 10.
  - destruct Hc as (Hn & p & Hp & _). destruct (Hin n Hn) as [nd E]. destruct (run_pred_int t ignore _ x n nd id p v HQ E Hp) as (x' & R & Q' & C); eauto 10.
  - destruct Hc as (Hn & Hw). destruct (Hin n Hn) as [nd E]. rewrite (h_bind _ _ _ _ _ (get_node_run n nd x E)).
    rewrite (h_bind _ _ tt x (set_world (nn_in nd) w' x)) by done. destruct (run_text t ignore Ht _ x n nd w' HQ E Hw) as (x' & R & Q' & C); eauto 10.
  - destruct Hc as (Hp & Hw). eexists. split; [done|]. split; [by apply set_world_quiet|]. done.
  - destruct (run_filter t ignore Ht _ x str HQ Hc) as (x' & R & Q' & C); eauto 10.
  - destruct (run_enable t ignore Ht _ x id v HQ Hc) as (x' & R & Q' & C); eauto 10.
  - destruct (run_pred_add t ignore Ht _ x path cf str val enable mode HQ Hc) as (x' & id & R & Q' & C). exists x'. rewrite (h_bind _ _ _ _ _ R). eauto 10.
  - destruct (run_pred_remove t ignore Ht _ x id HQ) as (x' & R & Q' & C); eauto 10.
  - destruct Hc as (Hi & Hm & Ha). destruct (run_sort t ignore Ht _ x path desc idx m hide HQ Hi Hm Ha) as (x' & R & Q' & C); eauto 10.
Qed.

Lemma reach_settled w x : reach w x -> settled t ignore (kids_of w) x.
Proof.
  induction 1 as [a n wd Hw|w x c x' Hr IH Hc R]; [by apply create_settled|].
  destruct (nrun_settled w x c IH Hc) as (x2 & R2 & S). rewrite R in R2. by injection R2 as ->.
Qed.

(** ** What is seen *)

Lemma settled_shows ks x : settled t ignore ks x -> keys_there x ->
  exists l, l ≡ₚ nf_in x /\ (if nf_sorted x then StronglySorted (lt t ignore x) l else l = nf_in x) /\
    map (fun o => nf_links x !! o) (nf_dst x) = map Some (shown x l).
Proof.
  intros [[HL Hn] _] Hkt. pose proof (li_inv _ _ _ _ HL) as I. pose proof (iv_wf _ _ _ I) as W. exists (nf_out x).
  assert (forall n, n ∈ nf_out x <-> n ∈ nf_in x) as Hall.
  { intros n. rewrite (wf_ins _ W), (wf_dom _ W). split; [intros (nd & E & _); by exists nd|]. intros [nd E]. exists nd. split; [done|apply (Hn n nd E)]. }
  split; [apply NoDup_Permutation; [apply (wf_out _ W)|apply (wf_in _ W)|done]|]. split.
  - pose proof (iv_ordered _ _ _ I) as O. unfold ordered in O. destruct (nf_sorted x); [done|]. apply sublist_same; [done|apply (wf_in _ W)|]. intros n. apply Hall.
  - assert (omap (out_of (nf_nodes x)) (nf_out x) = nf_dst x) as <-.
    { apply sublist_same; [apply (wf_sub _ W)|apply (wf_dst _ W)|]. intros o (n & Hn')%(wf_dst_in _ W). apply list_elem_of_omap. exists n. split; [|done].
      apply Hall, (wf_dom _ W). unfold out_of in Hn'. by destruct (nf_nodes x !! n) as [nd|]; [exists nd|]. }
    assert (forall n, n ∈ nf_out x -> is_Some (nf_nodes x !! n)) as Hsome by (intros n Ho; by apply (wf_dom _ W), Hall).
    clear Hall. induction (nf_out x) as [|n l IH]; [done|]. unfold shown in *. cbn.
    destruct (Hsome n (list_elem_of_here _ _)) as [nd E]. destruct (no_shown _ _ _ (Hn n nd E)) as (b & Eb & Hb). unfold out_of at 1. rewrite E. cbn. rewrite Eb, (Hkt n nd E).
    specialize (IH ltac:(intros k Hk; apply Hsome; by apply list_elem_of_further)).
    destruct (nn_out nd) as [o|] eqn:Eo, b; destruct Hb as [Hb1 Hb2].
    + cbn. rewrite (wf_link _ W n nd o E Eo). by f_equal.
    + by specialize (Hb1 (ex_intro _ o eq_refl)).
    + by destruct (Hb2 eq_refl).
    + exact IH.
Qed.
End shows.

(** C11: whatever happens to a node filter — children of its source come, move
    and go, its subscriptions tell keys, texts and the values that its predicates
    compare, its filter, predicates and order change — nothing goes wrong, and
    its nodes are the children of the source.  After it the list it fills is
    linked to those children whose texts match the filter, that no predicate
    hides and that lack no key whose absence is to hide them, in the order of its
    keys if it has any, in the order of the source if not; this is said only of
    the times when no child lacks such a key. *)
Theorem nodefilter_shows (t : list Z) (ignore : bool) (calloc : list nat -> nat) (w : pview) (x : nf) :
  unicode_init = Ok t -> (forall l, calloc l ∉ l) -> reach t ignore calloc w x ->
  (keys_there x -> exists l, l ≡ₚ nf_in x /\ (if nf_sorted x then StronglySorted (lt t ignore x) l else l = nf_in x) /\
     map (fun o => nf_links x !! o) (nf_dst x) = map Some (shown t x l)) /\
  nf_sorted x = chksorted (nf_sortkey x) /\
  map (child_of (nf_nodes x)) (nf_in x) = map Some (kids_of w) /\
  (forall c, ncan t ignore w x c -> exists x', nrun t ignore calloc c x = Ok (tt, x')).
Proof.
  intros Ht%init_folds Hcalloc Hr. pose proof (reach_settled t ignore calloc Ht Hcalloc w x Hr) as HS. split; [by apply (settled_shows t ignore (kids_of w))|].
  pose proof (qu_listed _ _ _ _ (proj1 HS)) as HL. split; [apply (cf_sorted _ _ _ (li_cfg _ _ _ _ HL))|]. split; [apply (li_kids _ _ _ _ HL)|].
  intros c Hc. destruct (nrun_settled t ignore calloc Ht Hcalloc w x c HS Hc) as (x' & R & _). by exists x'.
Qed.

(** Three children, of which one is hidden, are sorted by a number. *)
Lemma nodefilter_shows_witness :
  let calloc l := S (list_max l) in
  let world p := Nodeworld POther (fun _ => SetInt (10 - Z.of_nat (p `mod` 10)) p) (fun _ => None) (fun _ => if (p =? 2)%nat then 1 else 0) in
  exists t x, unicode_init = Ok t /\ reach t true calloc (VDir [1; 2; 3]%nat) x /\
    map (fun o => nf_links x !! o) (nf_dst x) = [Some 3; Some 1]%nat /\
    exists l, l ≡ₚ nf_in x /\ (if nf_sorted x then StronglySorted (lt t true x) l else l = nf_in x) /\
      map (fun o => nf_links x !! o) (nf_dst x) = map Some (shown t x l).
Proof.
  intros calloc world. destruct unicode_init_spec as (t & Ht & _). exists t.
  assert (forall l, calloc l ∉ l) as Hcalloc.
  { intros l Hl%list_elem_of_In. pose proof (proj1 (list_max_le l (list_max l)) (le_n _)) as Hmax. rewrite List.Forall_forall in Hmax.
    specialize (Hmax _ Hl). unfold calloc in Hmax. lia. }
  assert (forall p, world_ok t true (world p)) as Hw.
  { intros p. split; [done|]. intros path. cbn. unfold small. pose proof (Nat.mod_upper_bound p 10 ltac:(done)). lia. }
  assert (forall w x c w', reach t true calloc w x -> ncan t true w x c -> nsees w c = w' -> forall x', nrun t true calloc c x = Ok (tt, x') -> reach t true calloc w' x') as Hstep.
  { intros w x c w' Hr Hc <- x' Hx. by eapply reach_call. }
  assert (exists x, reach t true calloc (VDir [1; 2; 3]%nat) x /\ map (fun o => nf_links x !! o) (nf_dst x) = [Some 3; Some 1]%nat /\
    forallb (fun e => negb (lacks_key x e.2)) (map_to_list (nf_nodes x)) = true) as (x & Hr & Hd & Hk%keys_there_check).
  { eexists. split.
    { eapply (Hstep _ _ (NSort (Some [65]) false 0 None true)); [| | |].
    { eapply (Hstep _ _ (NPredAdd [66] PROP_NF_CMP_EQ None 1 None PROP_NF_MODE_EXCLUDE)); [| | |].
      { eapply (Hstep _ _ (NSrc (AddChildVectorDirect [2; 3]%nat))); [| | |].
        { eapply (Hstep _ _ (NSrc (AddChild 1%nat false))); [| | |].
          { eapply (Hstep _ _ (NSrc (SetDir None))); [apply (reach_create t true calloc false 100%nat world Hw)|by split|reflexivity|vm_compute; reflexivity]. }
          1: by apply (bool_decide_unpack _). all: vm_compute; reflexivity. }
        1: by apply (bool_decide_unpack _). all: vm_compute; reflexivity. }
      all: vm_compute; reflexivity. }
    1: { split; [unfold MAX_SORT_KEYS; lia|]. split; [done|]. right. right. intros H. vm_compute in H. discriminate H. }
    all: vm_compute; reflexivity. }
    split; vm_compute; reflexivity. }
  exists x. split; [exact Ht|]. split; [exact Hr|]. split; [exact Hd|].
  exact (proj1 (nodefilter_shows t true calloc _ _ Ht Hcalloc Hr) Hk).
Defined.
