(* ===== verification/PropReorder.v ===== *)
(** Lists with an order of their own (prop_reorder.c): a property that shows the
    children of another in an order that the user changes and that is saved, by
    the names of the children, to be restored. *)
From S2P Require Import Prelude PropStore PropTree PropMirror PropList.

Local Open Scope Z_scope.

(** * Data *)

(** [prop_reorder_t], with what it changes of the tree: the children of
    [pr_dst], the tags, the properties it has made (their addresses count up
    from [pr_next]) with their originators.  Of a field of [pr_order] the string,
    if it is one; [pr_saved] is what the store was given last. *)
Record reorder := Reorder {
  pr_dst : list pid;
  pr_order : list (option (list Z));
  pr_saved : option (list (list Z));
  pr_tags : tags pid;
  pr_links : gmap pid pid;
  pr_next : nat
}.

Definition set_dst d pr := Reorder d (pr_order pr) (pr_saved pr) (pr_tags pr) (pr_links pr) (pr_next pr).
Definition set_order ids pr := Reorder (pr_dst pr) (map Some ids) (Some ids) (pr_tags pr) (pr_links pr) (pr_next pr).
Definition set_tags T pr := Reorder (pr_dst pr) (pr_order pr) (pr_saved pr) T (pr_links pr) (pr_next pr).
Definition set_made L n pr := Reorder (pr_dst pr) (pr_order pr) (pr_saved pr) (pr_tags pr) L n.

Definition on_dst (f : list pid -> res (list pid)) : H reorder unit := d ← gets pr_dst; d ← lift (f d); modify (set_dst d).

(** The helper has the key 0. *)
Notation key := 0%nat.

Section reorder.
(** The name at the end of the links that a child of the source is. *)
Variable hp_name : pid -> option (list Z).

(** * The order *)

Definition get_id (L : gmap pid pid) (p : pid) : option (list Z) := hp_name (default p (L !! p)).

(** [htsmsg_add_str] duplicates the name. *)
Fixpoint ids_of (L : gmap pid pid) (l : list pid) : res (list (list Z)) :=
  match l with
  | [] => Ok []
  | p :: l => match get_id L p with Some s => r ← ids_of L l; Ok (s :: r) | None => Fault NullDeref end
  end.

Definition save_order : H reorder unit :=
  L ← gets pr_links; d ← gets pr_dst; ids ← lift (ids_of L d); modify (set_order ids).

(** The fields behind the one with the name. *)
Fixpoint fields_behind (id : option (list Z)) (l : list (option (list Z))) : res (list (option (list Z))) :=
  match l with
  | [] => Ok []
  | Some s :: l =>
      match id with
      | Some i => if decide (i = s) then Ok l else fields_behind id l
      | None => Fault NullDeref
      end
  | None :: l => fields_behind id l
  end.

Definition named (L : gmap pid pid) (s : list Z) (d : list pid) : option pid :=
  List.find (fun p => bool_decide (default [] (get_id L p) = s)) d.

Fixpoint first_there (L : gmap pid pid) (d : list pid) (l : list (option (list Z))) : option pid :=
  match l with
  | [] => None
  | None :: l => first_there L d l
  | Some s :: l => match named L s d with Some p => Some p | None => first_there L d l end
  end.

Definition get_before (id : option (list Z)) : H reorder (option pid) :=
  o ← gets pr_order; L ← gets pr_links; d ← gets pr_dst;
  l ← lift (fields_behind id o);
  mret (first_there L d l).

(** * Events *)

Definition add_child (p : pid) : H reorder unit :=
  o ← gets pr_next; L ← gets pr_links; T ← gets pr_tags;
  _ ← modify (set_tags (prop_tag_set p key o T));
  _ ← modify (set_made (<[o := p]> L) (S o));
  b ← get_before (get_id L p);
  on_dst (list_set_parent o b).

Definition del_child (p : pid) : H reorder unit :=
  T ← gets pr_tags;
  let '(o, T) := prop_tag_clear p key T in
  _ ← modify (set_tags T);
  o ← not_null o;
  _ ← on_dst (fun d => Ok (unlink o d));
  L ← gets pr_links; n ← gets pr_next;
  modify (set_made (delete o L) n).

Definition src_cb (e : pevent) : H reorder unit :=
  match e with
  | AddChild p _ | AddChildBefore p _ => add_child p
  | AddChildVectorDirect l => for_each l add_child
  | DelChild p => del_child p
  | MoveChild _ _ | SetVoid _ | SetDir _ | HaveMoreChilds _ | WantMoreChilds => mret tt
  | _ => fault AssertFailed
  end.

(** [PROP_REQ_MOVE_CHILD] for a child of [pr_dst]. *)
Definition dst_cb (p : pid) (before : option pid) : H reorder unit := _ ← on_dst (list_move p before); save_order.

(** [loaded] is what the store gives. *)
Definition prop_reorder_create (loaded : option (list (option (list Z)))) (next : nat) : reorder :=
  Reorder [] (default [] loaded) None ∅ ∅ next.

(** * Lemmas *)

(** Children with the properties made for them, as shown; [name] is that of a
    child. *)
Definition name (p : pid) : list Z := default [] (hp_name p).
Definition names (ps : list (pid * pid)) : list (list Z) := map (fun c => name c.1) ps.

(** The names that were saved. *)
Definition strings (pr : reorder) : list (list Z) := omap id (pr_order pr).

(** The properties of the source are below [base], those made from there on. *)
Variable base : nat.

Record repr (ps : list (pid * pid)) (pr : reorder) : Prop := {
  rp_dst : pr_dst pr = map snd ps;
  rp_outs : NoDup (map snd ps);
  rp_tag : forall c o, (c, o) ∈ ps -> prop_tag_get (pr_tags pr) c key = Some o;
  rp_link : forall c o, (c, o) ∈ ps -> pr_links pr !! o = Some c;
  rp_made : forall o, is_Some (pr_links pr !! o) -> (base <= o < pr_next pr)%nat;
  rp_kids : forall c o, (c, o) ∈ ps -> (c < base)%nat;
  rp_base : (base <= pr_next pr)%nat;
  rp_named : forall c o, (c, o) ∈ ps -> is_Some (hp_name c);
  rp_distinct : NoDup (names ps);
  rp_strings : NoDup (strings pr);
  rp_sorted : sublist (filter (.∈ strings pr) (names ps)) (strings pr)
}.

Lemma behind_found i o l : NoDup (omap id o) -> fields_behind (Some i) o = Ok l ->
  ((i ∉ omap id o) /\ l = []) \/ exists s1, omap id o = s1 ++ i :: omap id l.
Proof.
  revert l. induction o as [|[s|] o IH]; cbn; intros l Hd.
  - intros [= <-]. left. split; [set_solver|done].
  - apply NoDup_cons in Hd as [Hs Hd]. destruct (decide (i = s)) as [->|Hne]; [intros [= <-]; right; by exists []|].
    intros E. destruct (IH l Hd E) as [[H1 ->]|[s1 ->]]; [left; split; [set_solver|done]|right; by exists (s :: s1)].
  - by apply IH.
Qed.

Lemma behind_ok i o : exists l, fields_behind (Some i) o = Ok l.
Proof. induction o as [|[s|] o IH]; cbn; [by eexists| |done]. destruct (decide (i = s)); [by eexists|done]. Qed.

(** The child with a name. *)
Lemma named_in ps L s : (forall c o, (c, o) ∈ ps -> L !! o = Some c) ->
  match named L s (map snd ps) with
  | Some o => exists p1 c p2, ps = p1 ++ (c, o) :: p2 /\ name c = s
  | None => s ∉ names ps
  end.
Proof.
  intros HL. unfold named. induction ps as [|[c o] ps IH]; cbn; [apply not_elem_of_nil|].
  assert (get_id L o = hp_name c) as -> by (unfold get_id; by rewrite (HL c o (list_elem_of_here _ _))). fold (name c).
  case_bool_decide as E; [by exists [], c, ps|]. specialize (IH (fun c' o' Hi => HL c' o' (list_elem_of_further _ _ _ Hi))).
  destruct (List.find _ _) as [o'|].
  - destruct IH as (p1 & c' & p2 & -> & Hc). by exists ((c, o) :: p1), c', p2.
  - apply not_elem_of_cons. split; [congruence|done].
Qed.

(** What stands in front of the place of a new name, and what behind it. *)
Lemma first_there_splits ps L l : (forall c o, (c, o) ∈ ps -> L !! o = Some c) ->
  exists p1 p2, ps = p1 ++ p2 /\ first_there L (map snd ps) l = head (map snd p2) /\
    ((p2 = [] /\ forall s, s ∈ omap id l -> s ∉ names ps) \/
     exists c o p3 l1 l2, p2 = (c, o) :: p3 /\ omap id l = l1 ++ name c :: l2 /\ forall s, s ∈ l1 -> s ∉ names ps).
Proof.
  intros HL. induction l as [|[s|] l IH]; cbn; [|pose proof (named_in ps L s HL) as Hn|done].
  - exists ps, []. rewrite app_nil_r. split; [done|]. split; [done|]. left. split; [done|set_solver].
  - destruct (named L s (map snd ps)) as [o|].
    + destruct Hn as (p1 & c & p2 & -> & Hc). exists p1, ((c, o) :: p2). split; [done|]. split; [done|]. right. exists c, o, p2, [], (omap id l).
      rewrite Hc. split; [done|]. split; [done|set_solver].
    + destruct IH as (p1 & p2 & E & Ef & H). exists p1, p2. split; [done|]. split; [done|]. destruct H as [[-> H]|(c & o & p3 & l1 & l2 & -> & El & H)].
      * left. split; [done|]. set_solver.
      * right. exists c, o, p3, (s :: l1), l2. rewrite El. split; [done|]. split; [done|set_solver].
Qed.

Lemma filter_sub_mid (S1 S2 : list (list Z)) i f : NoDup (S1 ++ i :: S2) -> sublist f (S1 ++ i :: S2) -> i ∉ f ->
  exists f1 f2, f = f1 ++ f2 /\ sublist f1 S1 /\ sublist f2 S2.
Proof.
  intros Hd Hs Hi. apply sublist_app_r in Hs as (f1 & f2 & -> & H1 & H2). exists f1, f2. split; [done|]. split; [done|].
  apply sublist_cons_r in H2 as [H2|(f2' & -> & _)]; [done|]. set_solver.
Qed.

(** A name is inserted where it belongs. *)
Lemma sorted_insert (n1 n2 st S1 S2 : list (list Z)) i : NoDup st -> st = S1 ++ i :: S2 -> NoDup (n1 ++ n2) -> i ∉ n1 ++ n2 ->
  sublist (filter (.∈ st) (n1 ++ n2)) st ->
  ((n2 = [] /\ forall s, s ∈ S2 -> s ∉ n1 ++ n2) \/
   exists s n3 l1 l2, n2 = s :: n3 /\ S2 = l1 ++ s :: l2 /\ forall s, s ∈ l1 -> s ∉ n1 ++ n2) ->
  sublist (filter (.∈ st) (n1 ++ i :: n2)) st.
Proof.
  intros Hst Est Hd Hi Hs Hpos. rewrite filter_app, filter_cons_True by (rewrite Est; set_solver). rewrite filter_app in Hs.
  set (F1 := filter (.∈ st) n1) in *. set (F2 := filter (.∈ st) n2) in *. rewrite Est in Hst.
  destruct Hpos as [[-> Hno]|(s & n3 & l1 & l2 & -> & -> & Hno)].
  - change F2 with (@nil (list Z)) in *. rewrite app_nil_r in *. rewrite Est. rewrite Est in Hs.
    destruct (filter_sub_mid S1 S2 i F1 Hst Hs) as (f1 & f2 & EF & H1 & H2); [intros H; apply list_elem_of_filter in H as [_ ?]; done|].
    assert (f2 = []) as ->.
    { destruct f2 as [|s f2]; [done|]. exfalso. assert (s ∈ S2) as HS by (eapply sublist_subseteq; [exact H2|apply list_elem_of_here]).
      apply (Hno s HS). assert (s ∈ F1) as Hin by (rewrite EF; set_solver). by apply list_elem_of_filter in Hin as [_ ?]. }
    rewrite app_nil_r in EF. rewrite EF. apply sublist_app; [done|]. apply sublist_skip. apply sublist_nil_l.
  - assert (s ∈ st) as Hsst by (rewrite Est; set_solver). assert (F2 = s :: filter (.∈ st) n3) as EF2 by (unfold F2; by rewrite filter_cons_True).
    rewrite Est. rewrite Est in Hs. destruct (filter_sub_mid S1 _ i (F1 ++ F2) Hst Hs) as (f1 & f2 & Ef & H1 & H2).
    { intros [H|H]%elem_of_app; apply list_elem_of_filter in H as [_ ?]; set_solver. }
    (* the first name behind is the first of those that are there *)
    assert (exists f2', f2 = s :: f2' /\ f1 = F1 /\ f2' = filter (.∈ st) n3) as (f2' & -> & -> & ->); [|rewrite EF2; apply sublist_app; [done|by apply sublist_skip]].
    assert (NoDup (F1 ++ F2)) as HdF by (unfold F1, F2; rewrite <- filter_app; by apply NoDup_filter).
    apply NoDup_app in Hst as (_ & HS1 & [HiS HS2]%NoDup_cons).
    assert (s ∈ f2) as Hsf.
    { assert (s ∈ f1 ++ f2) as [Hsf|]%elem_of_app by (rewrite <- Ef, EF2; set_solver); [|done]. exfalso.
      apply (HS1 s); [by eapply sublist_subseteq|set_solver]. }
    assert (forall a, a ∈ f2 -> a ∉ l1) as Hl1.
    { intros a Ha Hl. apply (Hno a Hl). assert (a ∈ F1 ++ F2) as Hin by (rewrite Ef; set_solver). unfold F1, F2 in Hin. rewrite <- filter_app in Hin. by apply list_elem_of_filter in Hin as [_ ?]. }
    assert (exists f2', f2 = s :: f2') as [f2' ->].
    { apply sublist_app_r in H2 as (g1 & g2 & -> & G1 & G2). destruct g1 as [|a g1].
      - apply sublist_cons_r in G2 as [G2|(f2' & -> & _)]; [|by exists f2']. exfalso. cbn in Hsf.
        apply NoDup_app in HS2 as (_ & _ & [Hnl _]%NoDup_cons). apply Hnl. by eapply sublist_subseteq.
      - exfalso. apply (Hl1 a); [set_solver|]. eapply sublist_subseteq; [exact G1|apply list_elem_of_here]. }
    exists f2'. split; [done|]. rewrite EF2 in Ef, HdF.
    by destruct (NoDup_split_unique s F1 (filter (.∈ st) n3) f1 f2' HdF Ef) as [-> ->].
Qed.

(** ** Children come *)

Lemma link_lt ps pr c o : repr ps pr -> (c, o) ∈ ps -> (o < pr_next pr)%nat.
Proof. intros R Hi. apply (rp_made _ _ R). by rewrite (rp_link _ _ R c o Hi). Qed.

Lemma strings_some ids pr : pr_order pr = map Some ids -> strings pr = ids.
Proof. unfold strings. intros ->. induction ids as [|i ids IH]; cbn; [done|]. by rewrite IH. Qed.

Lemma names_app p q : names (p ++ q) = names p ++ names q.
Proof. apply map_app. Qed.

Lemma get_id_child ps pr c : repr ps pr -> (c < base)%nat -> get_id (pr_links pr) c = hp_name c.
Proof.
  intros R Hc. unfold get_id. destruct (pr_links pr !! c) eqn:E; [|done].
  pose proof (rp_made _ _ R c ltac:(by rewrite E)). lia.
Qed.

Lemma child_name ps c o : (c, o) ∈ ps -> name c ∈ names ps.
Proof. intros H. unfold names. by apply (list_elem_of_fmap_2 (fun c => name c.1) ps (c, o)). Qed.

Lemma same_child ps c o o' : NoDup (names ps) -> (c, o) ∈ ps -> (c, o') ∈ ps -> o = o'.
Proof.
  induction ps as [|[d e] ps IH]; [by intros _ ?%elem_of_nil|]. cbn. intros [Hn Hd]%NoDup_cons.
  intros H1%elem_of_cons H2%elem_of_cons. destruct H1 as [[= <- <-]|H1], H2 as [E2|H2].
  - by injection E2.
  - destruct Hn. by apply (child_name ps c o').
  - injection E2 as <- <-. destruct Hn. by apply (child_name ps c o).
  - by apply IH.
Qed.

Lemma kid_added ps pr c : repr ps pr -> (c < base)%nat -> is_Some (hp_name c) -> name c ∉ names ps ->
  exists p1 p2 pr', ps = p1 ++ p2 /\ add_child c pr = Ok (tt, pr') /\ repr (p1 ++ (c, pr_next pr) :: p2) pr' /\
    pr_order pr' = pr_order pr /\ pr_saved pr' = pr_saved pr.
Proof.
  intros R Hc [s Es] Hn. set (o := pr_next pr). assert (name c = s) as Ens by (unfold name; by rewrite Es). rewrite Ens in Hn.
  set (L := <[o := c]> (pr_links pr)). set (pr1 := set_made L (S o) (set_tags (prop_tag_set c key o (pr_tags pr)) pr)).
  assert (forall c' o', (c', o') ∈ ps -> L !! o' = Some c') as HL.
  { intros c' o' Hi. unfold L. pose proof (link_lt ps pr c' o' R Hi). rewrite lookup_insert_ne by (unfold o; lia). by apply (rp_link _ _ R). }
  destruct (behind_ok s (pr_order pr)) as [l El]. destruct (first_there_splits ps L l HL) as (p1 & p2 & Eps & Ef & Hpos).
  exists p1, p2, (set_dst (map snd (p1 ++ (c, o) :: p2)) pr1). split; [done|]. split; [|split; [|done]].
  - unfold add_child. rewrite (h_bind _ _ _ _ _ (eq_refl : gets pr_next pr = Ok (o, pr))), (h_bind _ _ _ _ _ (eq_refl : gets pr_links pr = Ok (_, pr))).
    rewrite (h_bind _ _ _ _ _ (eq_refl : gets pr_tags pr = Ok (_, pr))), (h_bind _ _ _ _ _ (eq_refl : modify _ pr = Ok (tt, _))).
    rewrite (h_bind _ _ tt _ pr1) by done. rewrite (get_id_child ps pr c R Hc), Es.
    rewrite (h_bind _ _ (head (map snd p2)) pr1 pr1).
    2: { unfold get_before. rewrite (h_bind _ _ _ _ _ (eq_refl : gets pr_order pr1 = Ok (pr_order pr, pr1))), (h_bind _ _ _ _ _ (eq_refl : gets pr_links pr1 = Ok (L, pr1))).
         rewrite (h_bind _ _ _ _ _ (eq_refl : gets pr_dst pr1 = Ok (pr_dst pr, pr1))). rewrite (h_bind _ _ l pr1 pr1) by (unfold lift; by rewrite El).
         by rewrite (rp_dst _ _ R), Ef. }
    unfold on_dst. rewrite (h_bind _ _ _ _ _ (eq_refl : gets pr_dst pr1 = Ok (pr_dst pr, pr1))).
    rewrite (h_bind _ _ (map snd (p1 ++ (c, o) :: p2)) pr1 pr1); [done|]. unfold lift. rewrite (rp_dst _ _ R), Eps, !map_app. cbn [map]. rewrite list_set_parent_head; [done| |].
    + rewrite <- map_app, <- Eps. intros Hi. apply list_elem_of_fmap_1 in Hi as ([c' o'] & E & Hi). cbn in E. pose proof (link_lt ps pr c' o' R Hi). unfold o in E. lia.
    + intros b Hb Hi. pose proof (rp_outs _ _ R) as Hd. rewrite Eps, map_app in Hd. apply NoDup_app in Hd as (_ & N & _). apply (N b Hi).
      destruct p2; [done|]. injection Hb as <-. apply list_elem_of_here.
  - assert (forall c' o', (c', o') ∈ p1 ++ (c, o) :: p2 <-> (c', o') = (c, o) \/ (c', o') ∈ ps) as Hin.
    { intros c' o'. rewrite Eps, !elem_of_app, elem_of_cons. tauto. }
    assert (NoDup (names (p1 ++ (c, o) :: p2))) as Hd.
    { pose proof (rp_distinct _ _ R) as Hd. rewrite names_app. cbn [names map fst]. rewrite <- Permutation_middle. rewrite Eps, names_app in Hd, Hn. rewrite Ens. by constructor. }
    split; try done.
    + rewrite map_app. cbn. rewrite <- Permutation_middle, <- map_app, <- Eps. constructor; [|apply (rp_outs _ _ R)].
      intros Hi. apply list_elem_of_fmap_1 in Hi as ([c' o'] & E & Hi). cbn in E. pose proof (link_lt ps pr c' o' R Hi). unfold o in E. lia.
    + intros c' o' [[= -> ->]|Hi]%Hin; [apply tag_get_set|]. cbn. rewrite tag_get_set_ne; [by apply (rp_tag _ _ R)|]. left. intros ->. apply Hn. rewrite <- Ens. by eapply child_name.
    + intros c' o' [[= -> ->]|Hi]%Hin; [apply lookup_insert_eq|by apply HL].
    + intros o' [c' E]. change (L !! o' = Some c') in E. apply lookup_insert_Some in E as [[<- _]|[_ E]]; cbn; [pose proof (rp_base _ _ R); unfold o; lia|].
      pose proof (rp_made _ _ R o' ltac:(by rewrite E)). unfold o. lia.
    + intros c' o' [[= -> ->]|Hi]%Hin; [done|by eapply (rp_kids _ _ R)].
    + pose proof (rp_base _ _ R). cbn. unfold o. lia.
    + intros c' o' [[= -> ->]|Hi]%Hin; [by rewrite Es|by eapply (rp_named _ _ R)].
    + apply (rp_strings _ _ R).
    + change (strings (set_dst _ pr1)) with (strings pr). rewrite names_app. cbn [names map]. fold (names p2). cbn [fst]. rewrite Ens.
      pose proof (rp_sorted _ _ R) as Hs. pose proof (rp_distinct _ _ R) as Hdn. rewrite Eps, names_app in Hs, Hdn, Hn, Hpos.
      destruct (behind_found s (pr_order pr) l (rp_strings _ _ R) El) as [[Hno ->]|[S1 Est]].
      * rewrite filter_app, filter_cons_False by done. by rewrite <- filter_app.
      * apply (sorted_insert (names p1) (names p2) (strings pr) S1 (omap id l) s); try done; [apply (rp_strings _ _ R)|].
        destruct Hpos as [[-> H]|(c' & o' & p3 & l1 & l2 & -> & E2 & H)]; [by left|right]. by exists (name c'), (names p3), l1, l2.
Qed.

Lemma kid_gone p1 c o p2 pr : repr (p1 ++ (c, o) :: p2) pr ->
  exists pr', del_child c pr = Ok (tt, pr') /\ repr (p1 ++ p2) pr' /\ pr_order pr' = pr_order pr /\ pr_saved pr' = pr_saved pr.
Proof.
  intros R. set (T := (prop_tag_clear c key (pr_tags pr)).2). assert ((c, o) ∈ p1 ++ (c, o) :: p2) as Hc by set_solver.
  exists (set_made (delete o (pr_links pr)) (pr_next pr) (set_dst (map snd (p1 ++ p2)) (set_tags T pr))).
  pose proof (rp_outs _ _ R) as Ho. pose proof (rp_distinct _ _ R) as Hd. rewrite map_app in Ho. cbn in Ho. rewrite names_app in Hd. cbn in Hd.
  assert ((o ∉ map snd p1) /\ (o ∉ map snd p2)) as [Ho1 Ho2].
  { apply NoDup_app in Ho as (_ & N & [N2 _]%NoDup_cons). split; [|done]. intros H. apply (N o H), list_elem_of_here. }
  assert (forall c' o', (c', o') ∈ p1 ++ p2 -> (c', o') ∈ p1 ++ (c, o) :: p2 /\ c' <> c /\ o' <> o) as Hin.
  { intros c' o' Hi. split; [|split].
    - apply elem_of_app in Hi as [Hi|Hi]; set_solver.
    - intros ->. rewrite <- Permutation_middle in Hd. apply NoDup_cons in Hd as [Hd _]. apply Hd. fold (names p1) (names p2). rewrite <- names_app. by eapply child_name.
    - intros ->. apply elem_of_app in Hi as [Hi|Hi]; [apply Ho1|apply Ho2]; by apply (list_elem_of_fmap_2 snd _ (c', o)). }
  split; [|split; [|done]].
  - unfold del_child. rewrite (h_bind _ _ _ _ _ (eq_refl : gets pr_tags pr = Ok (_, pr))). pose proof (tag_clear_get c key (pr_tags pr)) as Hg.
    rewrite (rp_tag _ _ R c o Hc) in Hg. unfold T. destruct (prop_tag_clear c key (pr_tags pr)) as [r T']. cbn in Hg. subst r. cbn [snd].
    rewrite (h_bind _ _ _ _ _ (eq_refl : modify _ pr = Ok (tt, _))). rewrite (h_bind _ _ o _ _ eq_refl). unfold on_dst.
    rewrite (h_bind _ _ tt _ (set_dst (map snd (p1 ++ p2)) (set_tags T' pr))); [done|].
    unfold mbind, H_bind, gets, lift, modify. cbn [pr_dst set_tags]. rewrite (rp_dst _ _ R), !map_app. cbn [map]. by rewrite unlink_mid.
  - split; try done; cbn.
    + rewrite map_app. rewrite <- Permutation_middle in Ho. by apply NoDup_cons in Ho as [_ ?].
    + intros c' o' (Hi & Hc' & _)%Hin. unfold T. rewrite tag_clear_ne by by left. by apply (rp_tag _ _ R).
    + intros c' o' (Hi & _ & Ho')%Hin. rewrite lookup_delete_ne by done. by apply (rp_link _ _ R).
    + intros o' [c' [_ E]%lookup_delete_Some]. apply (rp_made _ _ R). by rewrite E.
    + intros c' o' (Hi & _)%Hin. by eapply (rp_kids _ _ R).
    + apply (rp_base _ _ R).
    + intros c' o' (Hi & _)%Hin. by eapply (rp_named _ _ R).
    + rewrite names_app. rewrite <- Permutation_middle in Hd. by apply NoDup_cons in Hd as [_ ?].
    + apply (rp_strings _ _ R).
    + etransitivity; [|apply (rp_sorted _ _ R)]. change (strings (set_made _ _ _)) with (strings pr). rewrite !names_app. cbn [names map]. rewrite !filter_app.
      apply sublist_app; [done|]. rewrite filter_cons. destruct (decide _); [by apply sublist_cons|done].
Qed.

(** ** The user moves a child *)

Lemma ids_run L l ps : (forall c o, (c, o) ∈ ps -> L !! o = Some c /\ is_Some (hp_name c)) -> l = map snd ps -> ids_of L l = Ok (names ps).
Proof.
  intros H ->. induction ps as [|[c o] ps IH]; cbn; [done|]. destruct (H c o (list_elem_of_here _ _)) as [El [s Es]].
  unfold get_id, name. rewrite El. cbn. rewrite Es. rewrite IH; [done|]. intros c' o' Hi. apply H. by apply list_elem_of_further.
Qed.

Lemma kid_moved p1 c o p2 q1 q2 pr : repr (p1 ++ (c, o) :: p2) pr -> p1 ++ p2 = q1 ++ q2 ->
  exists pr', dst_cb o (head (map snd q2)) pr = Ok (tt, pr') /\ repr (q1 ++ (c, o) :: q2) pr' /\ pr_order pr' = map Some (names (q1 ++ (c, o) :: q2)) /\
    pr_saved pr' = Some (names (q1 ++ (c, o) :: q2)).
Proof.
  intros R E. set (ps := p1 ++ (c, o) :: p2) in *. set (qs := q1 ++ (c, o) :: q2).
  assert (qs ≡ₚ ps) as HP by (unfold qs, ps; rewrite <- !Permutation_middle; by rewrite E).
  assert (forall c' o', (c', o') ∈ qs <-> (c', o') ∈ ps) as Hin by (intros; by rewrite HP).
  exists (set_order (names qs) (set_dst (map snd qs) pr)). split; [|split; [|done]].
  - unfold dst_cb, on_dst. rewrite (h_bind _ _ tt pr (set_dst (map snd qs) pr)).
    2: { unfold mbind, H_bind, gets, lift, modify. rewrite (rp_dst _ _ R). unfold ps, qs. rewrite !map_app. cbn [map snd]. rewrite (list_move_to o (map snd p1) (map snd p2) (map snd q1) (map snd q2)); [done| |].
         - pose proof (rp_outs _ _ R) as Hd. unfold ps in Hd. by rewrite map_app in Hd.
         - by rewrite <- !map_app, E. }
    set (pr1 := set_dst (map snd qs) pr). unfold save_order.
    rewrite (h_bind _ _ _ _ _ (eq_refl : gets pr_links pr1 = Ok (pr_links pr, pr1))), (h_bind _ _ _ _ _ (eq_refl : gets pr_dst pr1 = Ok (map snd qs, pr1))).
    rewrite (h_bind _ _ (names qs) pr1 pr1); [done|]. unfold lift. rewrite (ids_run (pr_links pr) _ qs); [done| |done].
    intros c' o' Hi%Hin. split; [by apply (rp_link _ _ R)|by eapply (rp_named _ _ R)].
  - assert (NoDup (names qs)) as Hd by (unfold names; rewrite HP; apply (rp_distinct _ _ R)).
    assert (strings (set_order (names qs) (set_dst (map snd qs) pr)) = names qs) as Est by by apply strings_some.
    split; rewrite ?Est; try done.
    + rewrite HP. apply (rp_outs _ _ R).
    + intros c' o' Hi%Hin. by apply (rp_tag _ _ R).
    + intros c' o' Hi%Hin. by apply (rp_link _ _ R).
    + apply (rp_made _ _ R).
    + intros c' o' Hi%Hin. by eapply (rp_kids _ _ R).
    + apply (rp_base _ _ R).
    + intros c' o' Hi%Hin. by eapply (rp_named _ _ R).
    + apply sublist_filter.
Qed.

(** * All that can happen *)

(** A child is named by the one of the source. *)
Inductive rcall := RTell (e : pevent) | RMove (c : pid) (before : option pid).

Definition out_of (c : pid) : H reorder pid := T ← gets pr_tags; not_null (prop_tag_get T c key).

Definition run_call (x : rcall) : H reorder unit :=
  match x with
  | RTell e => src_cb e
  | RMove c None => o ← out_of c; dst_cb o None
  | RMove c (Some b) => o ← out_of c; b ← out_of b; dst_cb o (Some b)
  end.

(** The children that are shown. *)
Definition shows (pr : reorder) : list pid := map (fun o => default o (pr_links pr !! o)) (pr_dst pr).

(** Children that are new have names, each its own. *)
Definition newly (cs : list pid) (w : pview) : Prop :=
  Forall (fun c => (c < base)%nat /\ is_Some (hp_name c)) cs /\ NoDup (map name (kids_of w ++ cs)).

Definition can (w : pview) (pr : reorder) (x : rcall) : Prop :=
  match x with
  | RTell e =>
      told_kids w e /\
      match e with
      | AddChild c _ | AddChildBefore c _ => newly [c] w
      | AddChildVectorDirect l => newly l w
      | SetVoid _ => kids_of w = []
      | _ => True
      end
  | RMove c b => c ∈ shows pr /\ match b with Some b => b ∈ shows pr /\ b <> c | None => True end
  end.

Definition sees (w : pview) (x : rcall) : pview := match x with RTell e => view_event w e | RMove _ _ => w end.

Inductive reach : pview -> reorder -> Prop :=
| reach_create loaded : NoDup (omap id (default [] loaded)) -> reach VVoid (prop_reorder_create loaded base)
| reach_call w pr x pr' : reach w pr -> can w pr x -> run_call x pr = Ok (tt, pr') -> reach (sees w x) pr'.

Definition fine (w : pview) (pr : reorder) (ps : list (pid * pid)) : Prop := repr ps pr /\ map fst ps ≡ₚ kids_of w.

Lemma shown_kids ps pr : repr ps pr -> shows pr = map fst ps.
Proof.
  intros R. unfold shows. rewrite (rp_dst _ _ R). pose proof (rp_link _ _ R) as HL. clear R. induction ps as [|[c o] ps IH]; cbn; [done|].
  rewrite (HL c o (list_elem_of_here _ _)). cbn. f_equal. apply IH. intros c' o' Hi. apply HL. by apply list_elem_of_further.
Qed.

Lemma names_fst ps : names ps = map name (map fst ps).
Proof. unfold names. by rewrite map_map. Qed.

Lemma add_fine cs : forall w ps pr, repr ps pr -> map fst ps ≡ₚ kids_of w -> newly cs w ->
  exists pr' ps', for_each cs add_child pr = Ok (tt, pr') /\ repr ps' pr' /\ map fst ps' ≡ₚ kids_of w ++ cs /\
    pr_order pr' = pr_order pr /\ pr_saved pr' = pr_saved pr.
Proof.
  intros w. remember (kids_of w) as ks eqn:Ek. unfold newly. rewrite <- Ek. clear w Ek. revert ks. induction cs as [|c cs IH]; intros ks ps pr R HP [Hc Hd]; cbn [for_each].
  - exists pr, ps. by rewrite app_nil_r.
  - apply Forall_cons in Hc as [[Hcb Hcn] Hc]. destruct (kid_added ps pr c R Hcb Hcn) as (p1 & p2 & pr1 & Eps & R1 & Rp & Eo & Es).
    { rewrite names_fst. intros Hi. rewrite HP in Hi. rewrite map_app in Hd. apply NoDup_app in Hd as (_ & N & _). apply (N _ Hi). apply list_elem_of_here. }
    destruct (IH (ks ++ [c]) _ pr1 Rp) as (pr2 & ps2 & R2 & Rp2 & HP2 & Eo2 & Es2).
    + rewrite map_app. cbn. rewrite <- Permutation_middle, <- map_app, <- Eps, HP. apply Permutation_cons_append.
    + split; [done|]. by rewrite <- app_assoc.
    + exists pr2, ps2. rewrite (h_bind _ _ _ _ _ R1). split; [done|]. split; [done|]. rewrite <- app_assoc in HP2. split; [done|]. by rewrite Eo2, Es2.
Qed.

Lemma add_one c w ps pr : repr ps pr -> map fst ps ≡ₚ kids_of w -> newly [c] w ->
  exists pr' ps', add_child c pr = Ok (tt, pr') /\ repr ps' pr' /\ map fst ps' ≡ₚ c :: kids_of w /\
    pr_order pr' = pr_order pr /\ pr_saved pr' = pr_saved pr.
Proof.
  intros R HP Hn. destruct (add_fine [c] w ps pr R HP Hn) as (pr' & ps' & E & R' & HP' & Ho). exists pr', ps'.
  rewrite Permutation_app_comm in HP'. split; [|done]. cbn [for_each] in E. unfold mbind, H_bind in E. by destruct (add_child c pr) as [[[] x]|].
Qed.

Lemma split_shown (ps : list (pid * pid)) c : c ∈ map fst ps -> exists p1 o p2, ps = p1 ++ (c, o) :: p2.
Proof. intros Hi. apply list_elem_of_fmap_1 in Hi as ([c' o] & -> & Hi). apply list_elem_of_split in Hi as (p1 & p2 & ->). by exists p1, o, p2. Qed.

Lemma fst_nodup ps pr : repr ps pr -> NoDup (map fst ps).
Proof. intros R. pose proof (rp_distinct _ _ R) as Hd. rewrite names_fst in Hd. by apply NoDup_fmap_1 in Hd. Qed.

Lemma tell_fine w ps pr e : fine w pr ps -> can w pr (RTell e) ->
  exists pr' ps', src_cb e pr = Ok (tt, pr') /\ fine (view_event w e) pr' ps' /\ pr_order pr' = pr_order pr /\ pr_saved pr' = pr_saved pr.
Proof.
  intros [R HP] [Ht Hn].
  destruct e as [| | | | | | | |c sel|c b|cs|c|c b| | | | | | | |yes]; cbn [told_kids view_event src_cb] in *; try done.
  - exists pr, ps. split; [done|]. split; [|done]. split; [done|]. cbn. by rewrite <- Hn.
  - exists pr, ps. split; [done|]. split; [|done]. split; [done|]. cbn. by rewrite <- Ht.
  - destruct (add_one c w ps pr R HP Hn) as (pr' & ps' & E & R' & HP' & Ho). exists pr', ps'. split; [done|]. split; [|done]. split; [done|].
    rewrite HP', (view_dir w (proj1 Ht)). cbn. apply Permutation_cons_append.
  - destruct (add_one c w ps pr R HP Hn) as (pr' & ps' & E & R' & HP' & Ho). exists pr', ps'. split; [done|]. split; [|done]. split; [done|].
    destruct Ht as (Hd & Hb & _). rewrite HP', (view_dir w Hd). cbn [with_dir kids_of]. destruct b as [b|]; [|done].
    destruct (place_some b c (kids_of w) Hb) as [l El]. rewrite El. cbn. by rewrite (place_perm' _ _ _ _ El).
  - destruct (add_fine cs w ps pr R HP Hn) as (pr' & ps' & E & R' & HP' & Ho). exists pr', ps'. split; [done|]. split; [|done]. split; [done|].
    rewrite HP'. by rewrite (view_dir w (proj1 Ht)) at 2.
  - assert (is_view_dir w) as Hd by (destruct w; try done; by apply elem_of_nil in Ht). rewrite <- HP in Ht. destruct (split_shown ps c Ht) as (p1 & o & p2 & ->).
    destruct (kid_gone p1 c o p2 pr R) as (pr' & E & R' & Ho). exists pr', (p1 ++ p2). split; [done|]. split; [|done]. split; [done|].
    pose proof (fst_nodup _ _ R) as Hdk. rewrite (view_dir w Hd). cbn [with_dir kids_of]. unfold unlink. rewrite <- HP. fold (unlink c (map fst (p1 ++ (c, o) :: p2))).
    rewrite !map_app in *. cbn [map fst] in *. apply NoDup_app in Hdk as (_ & N & [N2 _]%NoDup_cons). rewrite unlink_mid; [done| |done]. intros Hi. apply (N c Hi), list_elem_of_here.
  - assert (is_view_dir w) as Hd by (destruct w; try done; by destruct Ht as [?%elem_of_nil _]). exists pr, ps. split; [done|]. split; [|done]. split; [done|].
    rewrite HP, (view_dir w Hd). cbn [with_dir kids_of]. destruct (place b c (unlink c (kids_of w))) as [l|] eqn:El; [|done]. cbn [kids_of]. rewrite (place_perm' _ _ _ _ El).
    pose proof (fst_nodup _ _ R) as Hdk. rewrite HP in Hdk. destruct Ht as [Hc _]. by apply perm_unlink.
  - exists pr, ps. by split.
  - exists pr, ps. by split.
Qed.

Lemma out_of_run ps pr c o : repr ps pr -> (c, o) ∈ ps -> out_of c pr = Ok (o, pr).
Proof. intros R Hi. unfold out_of. rewrite (h_bind _ _ _ _ _ (eq_refl : gets pr_tags pr = Ok (_, pr))). by rewrite (rp_tag _ _ R c o Hi). Qed.

Lemma move_fine w ps pr c b : fine w pr ps -> can w pr (RMove c b) ->
  exists pr' ps', run_call (RMove c b) pr = Ok (tt, pr') /\ fine w pr' ps' /\ pr_order pr' = map Some (map name (shows pr')) /\
    pr_saved pr' = Some (map name (shows pr')) /\ place b c (unlink c (shows pr)) = Some (shows pr').
Proof.
  intros [R HP] [Hc Hb]. rewrite (shown_kids ps pr R) in *. destruct (split_shown ps c Hc) as (p1 & o & p2 & ->).
  pose proof (fst_nodup _ _ R) as Hd. rewrite map_app in Hd. cbn in Hd.
  assert ((c ∉ map fst p1) /\ (c ∉ map fst p2)) as [Hc1 Hc2].
  { apply NoDup_app in Hd as (_ & N & [N2 _]%NoDup_cons). split; [|done]. intros Hi. apply (N c Hi), list_elem_of_here. }
  assert (exists q1 q2 bo, p1 ++ p2 = q1 ++ q2 /\ b = head (map fst q2) /\ bo = head (map snd q2) /\
    run_call (RMove c b) pr = dst_cb o bo pr /\ (forall a, head (map fst q2) = Some a -> a ∉ map fst q1)) as (q1 & q2 & bo & E & Eb & Ebo & Erun & Hh).
  { assert (NoDup (map fst (p1 ++ p2))) as Hd' by (rewrite map_app; rewrite <- Permutation_middle in Hd; by apply NoDup_cons in Hd as [_ ?]).
    destruct b as [b|].
    - destruct Hb as [Hb Hbc]. assert (b ∈ map fst (p1 ++ p2)) as Hb' by (rewrite map_app in *; cbn in Hb; set_solver).
      destruct (split_shown _ b Hb') as (q1 & bo & q2 & Eq). exists q1, ((b, bo) :: q2), (Some bo). split; [done|]. split; [done|]. split; [done|]. split.
      + cbn [run_call]. rewrite (h_bind _ _ _ _ _ (out_of_run _ pr c o R ltac:(set_solver))).
        rewrite (h_bind _ _ bo pr pr); [done|]. apply (out_of_run _ pr b bo R). rewrite <- Permutation_middle, Eq. set_solver.
      + intros a [= <-]. rewrite Eq, map_app in Hd'. apply NoDup_app in Hd' as (_ & N & _). intros Hi. apply (N b Hi), list_elem_of_here.
    - exists (p1 ++ p2), [], None. rewrite app_nil_r. split; [done|]. split; [done|]. split; [done|]. split; [|done].
      cbn [run_call]. by rewrite (h_bind _ _ _ _ _ (out_of_run _ pr c o R ltac:(set_solver))). }
  destruct (kid_moved p1 c o p2 q1 q2 pr R E) as (pr' & Rm & R' & Eo & Es). exists pr', (q1 ++ (c, o) :: q2).
  assert (shows pr' = map fst q1 ++ c :: map fst q2) as Esh by (rewrite (shown_kids _ _ R'), map_app; done).
  split; [by rewrite Erun, Ebo|]. split.
  - split; [done|]. rewrite <- HP, !map_app. cbn. rewrite <- !Permutation_middle, <- !map_app. by rewrite E.
  - rewrite Eo, Es, names_fst, (shown_kids _ _ R'). split; [done|]. split; [done|].
    rewrite !map_app. cbn [map fst]. rewrite unlink_mid by done. rewrite <- map_app, E, map_app, Eb. by apply place_head.
Qed.

Lemma reach_fine w pr : reach w pr -> exists ps, fine w pr ps /\ forall ids, pr_saved pr = Some ids -> pr_order pr = map Some ids.
Proof.
  induction 1 as [loaded Hl|w pr x pr' Hr (ps & Hf & Hs) Hc Hx].
  - exists []. split; [|done]. split; [|done]. split; cbn; try done; try (by intros ? ? ?%elem_of_nil).
    + apply NoDup_nil_2.
    + intros o [c E]. by rewrite lookup_empty in E.
    + apply NoDup_nil_2.
    + apply sublist_nil_l.
  - destruct x as [e|c b].
    + destruct (tell_fine w ps pr e Hf Hc) as (pr2 & ps2 & E & Hf2 & Eo & Es). cbn [run_call] in Hx. rewrite E in Hx. injection Hx as <-.
      exists ps2. split; [done|]. by rewrite Eo, Es.
    + destruct (move_fine w ps pr c b Hf Hc) as (pr2 & ps2 & E & Hf2 & Eo & Es & _). rewrite E in Hx. injection Hx as <-.
      exists ps2. split; [done|]. intros ids. rewrite Eo, Es. by intros [= <-].
Qed.
End reorder.

(** C12: whatever the source tells of its children and the user moves, as long as
    all children have names, which differ, and the source is neither destroyed
    nor loses its value while it has children, nothing goes wrong; all children are shown, those whose names have been saved in the
    order that was saved, and nothing but that order when these are all (so that
    it is restored, however the children come); and a move puts the child where
    it is asked for and saves the order that is shown. *)
Theorem reorder_keeps_order (hp_name : pid -> option (list Z)) (base : nat) (w : pview) (pr : reorder) :
  reach hp_name base w pr ->
  shows pr ≡ₚ kids_of w /\
  sublist (filter (.∈ strings pr) (map (name hp_name) (shows pr))) (strings pr) /\
  (map (name hp_name) (shows pr) ≡ₚ strings pr -> map (name hp_name) (shows pr) = strings pr) /\
  (forall ids, pr_saved pr = Some ids -> strings pr = ids) /\
  (forall e, can hp_name base w pr (RTell e) -> exists pr', run_call hp_name (RTell e) pr = Ok (tt, pr') /\ pr_order pr' = pr_order pr) /\
  (forall c b, can hp_name base w pr (RMove c b) -> exists pr', run_call hp_name (RMove c b) pr = Ok (tt, pr') /\
     place b c (unlink c (shows pr)) = Some (shows pr') /\ pr_saved pr' = Some (map (name hp_name) (shows pr'))).
Proof.
  intros Hr. destruct (reach_fine hp_name base w pr Hr) as (ps & Hf & Hs). pose proof Hf as [R HP]. pose proof (rp_sorted _ _ _ _ R) as Hsub.
  rewrite names_fst, <- (shown_kids hp_name base ps pr R) in Hsub. split; [by rewrite (shown_kids hp_name base ps pr R)|]. split; [done|]. split; [|split; [|split]].
  - intros HN. assert (filter (.∈ strings pr) (map (name hp_name) (shows pr)) = map (name hp_name) (shows pr)) as Ef.
    { assert (forall s, s ∈ map (name hp_name) (shows pr) -> s ∈ strings pr) as Hall by (intros s; by rewrite HN).
      revert Hall. generalize (map (name hp_name) (shows pr)) as l. induction l as [|s l IH]; intros Hall; [done|].
      rewrite filter_cons_True by (apply Hall, list_elem_of_here). f_equal. apply IH. intros s' Hs'. apply Hall. by apply list_elem_of_further. }
    rewrite Ef in Hsub. apply sublist_same; [done|apply (rp_strings _ _ _ _ R)|]. intros s. by rewrite HN.
  - intros ids Hi. by apply strings_some, Hs.
  - intros e Hc. destruct (tell_fine hp_name base w ps pr e Hf Hc) as (pr' & ps' & E & _ & Eo & _). by exists pr'.
  - intros c b Hc. destruct (move_fine hp_name base w ps pr c b Hf Hc) as (pr' & ps' & E & _ & _ & Es & Ep). by exists pr'.
Qed.

(** Three children come in the order of the source and are shown in the one
    that was saved; then the user moves one. *)
Lemma reorder_keeps_order_witness :
  let hp_name c := Some [Z.of_nat c] in
  exists pr pr', reach hp_name 100 (VDir [1; 2; 3]%nat) pr /\ shows pr = [3; 1; 2]%nat /\
    map (name hp_name) (shows pr) = strings pr /\
    run_call hp_name (RMove 2%nat (Some 3%nat)) pr = Ok (tt, pr') /\ pr_saved pr' = Some [[2]; [3]; [1]].
Proof.
  intros hp_name.
  assert (forall cs w, (list_max cs <? 100)%nat = true -> bool_decide (NoDup (map (name hp_name) (kids_of w ++ cs))) -> newly hp_name 100 cs w) as Hnew.
  { intros cs w Hc%Nat.ltb_lt Hd. split; [|by apply (bool_decide_unpack _)]. apply Forall_forall. intros c Hi. split; [|by eexists].
    pose proof (proj1 (list_max_le cs (list_max cs)) (le_n _)) as Hm. rewrite List.Forall_forall in Hm. specialize (Hm c (proj1 (list_elem_of_In _ _) Hi)). lia. }
  assert (exists pr, reach hp_name 100 (VDir [1; 2; 3]%nat) pr /\ shows pr = [3; 1; 2]%nat /\ strings pr = [[3]; [1]; [2]]) as (pr & Hr & Hs & Hst).
  { eexists. split.
    - eapply (reach_call hp_name 100 (VDir [1]%nat) _ (RTell (AddChildVectorDirect [2; 3]%nat)));
        [eapply (reach_call hp_name 100 (VDir []) _ (RTell (AddChild 1%nat false)));
           [eapply (reach_call hp_name 100 VVoid _ (RTell (SetDir None)));
              [apply (reach_create hp_name 100 (Some [Some [3]; Some [1]; None; Some [2]])); apply (bool_decide_unpack _); vm_compute; exact I
              |split; [done|exact I]|vm_compute; reflexivity]
           |split; [by apply (bool_decide_unpack _)|apply Hnew; [reflexivity|vm_compute; exact I]]|vm_compute; reflexivity]
        |split; [by apply (bool_decide_unpack _)|apply Hnew; [reflexivity|vm_compute; exact I]]|vm_compute; reflexivity].
    - split; vm_compute; reflexivity. }
  destruct (reorder_keeps_order hp_name 100 _ pr Hr) as (_ & _ & H3 & _ & _ & H6).
  destruct (H6 2%nat (Some 3%nat)) as (pr' & E & Ep & Es); [unfold can; rewrite Hs; split; [set_solver|split; [set_solver|done]]|].
  exists pr, pr'. split; [exact Hr|]. split; [exact Hs|]. split; [apply H3; rewrite Hs, Hst; vm_compute; reflexivity|]. split; [exact E|].
  rewrite Hs in Ep. assert (Some (shows pr') = Some [2; 3; 1]%nat) as Hpr' by (rewrite <- Ep; vm_compute; reflexivity).
  injection Hpr' as Hpr'. rewrite Es, Hpr'. reflexivity.
Defined.
