(* ===== verification/PropGrouper.v ===== *)
(** Groups of a list (prop_grouper.c): a property that shows the children of
    another in groups, by a value of each. *)
From S2P Require Import Prelude PropStore PropTree PropMirror PropList.
From Stdlib Require Import SpecFloat.

Local Open Scope Z_scope.

(** * Data *)

(** [pg_node_t]; a group is known by its [pgg_root]. *)
Record node := Node {
  pgn_in : pid;
  pgn_out : option pid;
  pgn_group : option pid
}.

(** [pg_group_t], with the children of [pgg_nodes]. *)
Record group := Group {
  pgg_name : list Z;
  pgg_root : pid;
  pgg_nodes : list pid;
  pgg_entries : list nat
}.

(** [struct prop_grouper], with the children of [pg_dst], the tags, and the
    properties made (from [pg_next] on) with their originators.  A node is known
    by its address. *)
Record grouper := Grouper {
  pg_nodes : list nat;
  pg_map : gmap nat node;
  pg_groups : list group;
  pg_dst : list pid;
  pg_tags : tags nat;
  pg_links : gmap pid pid;
  pg_next : nat
}.

Definition set_nodes l m g := Grouper l m (pg_groups g) (pg_dst g) (pg_tags g) (pg_links g) (pg_next g).
Definition set_map m g := Grouper (pg_nodes g) m (pg_groups g) (pg_dst g) (pg_tags g) (pg_links g) (pg_next g).
Definition set_groups gs d g := Grouper (pg_nodes g) (pg_map g) gs d (pg_tags g) (pg_links g) (pg_next g).
Definition set_tags T g := Grouper (pg_nodes g) (pg_map g) (pg_groups g) (pg_dst g) T (pg_links g) (pg_next g).
Definition set_made L n g := Grouper (pg_nodes g) (pg_map g) (pg_groups g) (pg_dst g) (pg_tags g) L n.

Notation key := 0%nat.

Section grouper.
(** [printf] of a float with [%f], and the address that [calloc] returns when
    those in the list are in use. *)
Variable print_float : spec_float -> list Z.
Variable calloc : list nat -> nat.

Definition get_node (n : nat) : H grouper node :=
  m ← gets pg_map; match m !! n with Some x => mret x | None => fault UseAfterFree end.
Definition put_node (n : nat) (x : node) : H grouper unit := m ← gets pg_map; modify (set_map (<[n := x]> m)).

Definition upd_group (r : pid) (f : group -> group) (gs : list group) : list group :=
  map (fun g => if decide (pgg_root g = r) then f g else g) gs.
Definition with_nodes (l : list pid) (g : group) : group := Group (pgg_name g) (pgg_root g) l (pgg_entries g).
Definition with_entries (l : list nat) (g : group) : group := Group (pgg_name g) (pgg_root g) (pgg_nodes g) l.

(** * Groups *)

(** A new group has a property with two children, for its name and its nodes. *)
Definition group_find (name : list Z) : H grouper pid :=
  gs ← gets pg_groups;
  match List.find (fun g => bool_decide (pgg_name g = name)) gs with
  | Some g => mret (pgg_root g)
  | None =>
      r ← gets pg_next; L ← gets pg_links; d ← gets pg_dst;
      _ ← modify (set_made L (r + 3)%nat);
      _ ← modify (set_groups (Group name r [] [] :: gs) (d ++ [r]));
      mret r
  end.

Definition group_destroy (r : pid) : H grouper unit :=
  gs ← gets pg_groups; d ← gets pg_dst;
  modify (set_groups (filter (fun g => pgg_root g <> r) gs) (unlink r d)).

Definition node_unset (n : nat) : H grouper unit :=
  x ← get_node n;
  _ ← match pgn_out x with
      | Some o =>
          gs ← gets pg_groups; d ← gets pg_dst; L ← gets pg_links; i ← gets pg_next;
          _ ← modify (set_groups (map (fun g => with_nodes (unlink o (pgg_nodes g)) g) gs) d);
          modify (set_made (delete o L) i)
      | None => mret tt
      end;
  match pgn_group x with
  | Some r =>
      gs ← gets pg_groups; d ← gets pg_dst;
      let gs := upd_group r (fun g => with_entries (unlink n (pgg_entries g)) g) gs in
      _ ← modify (set_groups gs d);
      g ← not_null (List.find (fun g => bool_decide (pgg_root g = r)) gs);
      match pgg_entries g with [] => group_destroy r | _ => mret tt end
  | None => mret tt
  end.

Definition node_update_group (n : nat) (name : option (list Z)) : H grouper unit :=
  _ ← node_unset n;
  x ← get_node n;
  match name with
  | None => put_node n (Node (pgn_in x) None None)
  | Some name =>
      r ← group_find name;
      gs ← gets pg_groups; d ← gets pg_dst;
      _ ← modify (set_groups (upd_group r (fun g => with_entries (n :: pgg_entries g) g) gs) d);
      o ← gets pg_next; L ← gets pg_links;
      _ ← modify (set_made (<[o := pgn_in x]> L) (S o));
      _ ← put_node n (Node (pgn_in x) (Some o) (Some r));
      gs ← gets pg_groups; d ← gets pg_dst;
      modify (set_groups (upd_group r (fun g => with_nodes (pgg_nodes g ++ [o]) g) gs) d)
  end.

(** The buffer has room for 31 characters. *)
Definition event_group (e : pevent) : option (list Z) :=
  match e with
  | SetRstring s _ _ => Some s
  | SetUri t _ _ => t
  | SetCstring s _ => Some s
  | SetInt v _ => Some (take 31 (dec_of_Z v))
  | SetFloat v _ _ => Some (take 31 (print_float v))
  | _ => None
  end.

Definition node_set_group (n : nat) (e : pevent) : H grouper unit := node_update_group n (event_group e).

(** * Events *)

Section source.
(** What the subscription to a child tells when it is made. *)
Variable tells : pid -> list pevent.

Definition pg_add_node (p : pid) : H grouper unit :=
  l ← gets pg_nodes; m ← gets pg_map; T ← gets pg_tags;
  let n := calloc l in
  _ ← modify (set_nodes (n :: l) (<[n := Node p None None]> m));
  _ ← modify (set_tags (prop_tag_set p key n T));
  for_each (tells p) (node_set_group n).

Definition pg_add_nodes (ps : list pid) : H grouper unit := for_each ps pg_add_node.

Definition pg_del_node (n : nat) : H grouper unit :=
  l ← gets pg_nodes; m ← gets pg_map;
  _ ← modify (set_nodes (unlink n l) m);
  _ ← node_unset n;
  l ← gets pg_nodes; m ← gets pg_map;
  modify (set_nodes l (delete n m)).

Definition clear_tag (p : pid) : H grouper (option nat) :=
  T ← gets pg_tags;
  let '(n, T) := prop_tag_clear p key T in
  _ ← modify (set_tags T); mret n.

(** The nodes of a list, each found first when its turn comes. *)
Definition pg_clear : H grouper unit :=
  l ← gets pg_nodes;
  for_each l (fun n => x ← get_node n; _ ← clear_tag (pgn_in x); pg_del_node n).

Definition src_cb (e : pevent) : H grouper unit :=
  match e with
  | AddChild p _ | AddChildBefore p _ => pg_add_node p
  | AddChildVectorDirect ps => pg_add_nodes ps
  | DelChild p => n ← clear_tag p; n ← not_null n; pg_del_node n
  | MoveChild _ _ | SetDir _ | WantMoreChilds => mret tt
  | SetVoid _ => pg_clear
  | _ => fault AssertFailed
  end.
End source.

Definition prop_grouper_create (next : nat) : grouper := Grouper [] ∅ [] [] ∅ ∅ next.

(** [prop_grouper_destroy]: what is left of it are the assertions. *)
Definition prop_grouper_destroy : H grouper unit :=
  _ ← pg_clear;
  l ← gets pg_nodes; gs ← gets pg_groups;
  _ ← passert (bool_decide (l = []));
  passert (bool_decide (length gs = 0%nat)).

(** * What is to be shown *)

(** Groups in order, with their names and children. *)
Notation groups := (list (list Z * list pid)).

Definition leave (c : pid) (gs : groups) : groups :=
  omap (fun g => match unlink c g.2 with [] => None | cs => Some (g.1, cs) end) gs.

Fixpoint enter (c : pid) (name : list Z) (gs : groups) : groups :=
  match gs with
  | [] => [(name, [c])]
  | g :: gs => if decide (g.1 = name) then (g.1, g.2 ++ [c]) :: gs else g :: enter c name gs
  end.

(** A child tells its group, or that it has none. *)
Definition tell (c : pid) (name : option (list Z)) (gs : groups) : groups :=
  match name with Some name => enter c name (leave c gs) | None => leave c gs end.

(** What it tells in order. *)
Definition hears (c : pid) (es : list pevent) (gs : groups) : groups := foldl (fun gs e => tell c (event_group e) gs) gs es.

(** ** What is shown *)

(** A group as it is, each node with its child and its property. *)
Record part := Part { pt_name : list Z; pt_root : pid; pt_list : list (nat * pid * pid) }.
Definition p_node (x : nat * pid * pid) : nat := x.1.1.
Definition p_child (x : nat * pid * pid) : pid := x.1.2.
Definition p_out (x : nat * pid * pid) : pid := x.2.

Definition group_of (a : part) : group := Group (pt_name a) (pt_root a) (map p_out (pt_list a)) (rev (map p_node (pt_list a))).
Definition view_part (a : part) : list Z * list pid := (pt_name a, map p_child (pt_list a)).

Variable base : nat.

(** All that is in a group, and the nodes [us] that are in none. *)
Definition grouped (ps : list part) : list (nat * pid * pid) := ps ≫= pt_list.
Definition all_nodes (ps : list part) (us : list (nat * pid)) : list nat := map p_node (grouped ps) ++ map fst us.
Definition all_kids (ps : list part) (us : list (nat * pid)) : list pid := map p_child (grouped ps) ++ map snd us.

Definition in_part (ps : list part) (r : pid) (x : nat * pid * pid) : Prop := exists a, a ∈ ps /\ pt_root a = r /\ x ∈ pt_list a.

Record repr (ps : list part) (us : list (nat * pid)) (g : grouper) : Prop := {
  rp_dst : pg_dst g = map pt_root ps;
  rp_groups : pg_groups g = rev (map group_of ps);
  rp_nodes : pg_nodes g ≡ₚ all_nodes ps us;
  rp_nodup : NoDup (all_nodes ps us);
  rp_kids : NoDup (all_kids ps us);
  rp_names : NoDup (map pt_name ps);
  rp_roots : NoDup (map pt_root ps);
  rp_outs : NoDup (map p_out (grouped ps));
  rp_full : forall a, a ∈ ps -> pt_list a <> [];
  rp_in : forall r n c o, in_part ps r (n, c, o) -> pg_map g !! n = Some (Node c (Some o) (Some r));
  rp_un : forall n c, (n, c) ∈ us -> pg_map g !! n = Some (Node c None None);
  rp_dom : forall n, is_Some (pg_map g !! n) -> n ∈ all_nodes ps us;
  rp_tags : forall n c, (exists o, (n, c, o) ∈ grouped ps) \/ (n, c) ∈ us -> prop_tag_get (pg_tags g) c key = Some n;
  rp_links : forall n c o, (n, c, o) ∈ grouped ps -> pg_links g !! o = Some c;
  rp_next : forall o, o ∈ map p_out (grouped ps) ++ map pt_root ps -> (base <= o < pg_next g)%nat;
  rp_base : (base <= pg_next g)%nat
}.

(** * Lemmas *)

Lemma elem_rev {A} (x : A) l : x ∈ rev l <-> x ∈ l.
Proof. by rewrite !list_elem_of_In, <- in_rev. Qed.

Lemma grouped_app p q : grouped (p ++ q) = grouped p ++ grouped q.
Proof. apply bind_app. Qed.
Lemma grouped_cons a p : grouped (a :: p) = pt_list a ++ grouped p.
Proof. done. Qed.

Lemma grouped_part ps x : x ∈ grouped ps <-> exists r, in_part ps r x.
Proof.
  unfold grouped. rewrite list_elem_of_bind. split; [intros (a & H1 & H2); by exists (pt_root a), a|intros (r & a & H1 & _ & H2); by exists a].
Qed.

(** The group of a part among all. *)
Section among.
Context (P1 P2 : list part) (a : part) (Hr : NoDup (map pt_root (P1 ++ a :: P2))).

Lemma other_root b : b ∈ P1 \/ b ∈ P2 -> pt_root b <> pt_root a.
Proof.
  intros Hb E. rewrite map_app in Hr. cbn in Hr. apply NoDup_app in Hr as (_ & N & [N2 _]%NoDup_cons). destruct Hb as [Hb|Hb].
  - apply (N (pt_root a)); [rewrite <- E; by apply (list_elem_of_fmap_2 pt_root)|apply list_elem_of_here].
  - apply N2. rewrite <- E. by apply (list_elem_of_fmap_2 pt_root).
Qed.

Lemma find_root : List.find (fun g => bool_decide (pgg_root g = pt_root a)) (rev (map group_of (P1 ++ a :: P2))) = Some (group_of a).
Proof.
  rewrite map_app, rev_app_distr. cbn [map rev]. rewrite <- app_assoc.
  assert (forall l r, (forall b, b ∈ l -> b ∈ P2) -> List.find (fun g => bool_decide (pgg_root g = pt_root a)) (map group_of l ++ r) = List.find (fun g => bool_decide (pgg_root g = pt_root a)) r) as Hskip.
  { induction l as [|b l IH]; intros r Hl; cbn; [done|]. rewrite bool_decide_false by (apply other_root; right; apply Hl, list_elem_of_here).
    apply IH. intros c Hc. apply Hl. by apply list_elem_of_further. }
  rewrite <- map_rev, Hskip; [cbn; by rewrite bool_decide_true|]. intros b. by rewrite elem_rev.
Qed.

Lemma upd_mid f h : pgg_root h = pt_root a -> upd_group (pt_root a) f (rev (map group_of P1 ++ h :: map group_of P2)) = rev (map group_of P1 ++ f h :: map group_of P2).
Proof.
  intros Eh. unfold upd_group. rewrite map_rev. f_equal. rewrite map_app. cbn [map]. rewrite decide_True by done.
  assert (forall l, (forall b, b ∈ l -> b ∈ P1 \/ b ∈ P2) -> map (fun g => if decide (pgg_root g = pt_root a) then f g else g) (map group_of l) = map group_of l) as Hid.
  { induction l as [|b l IH]; intros Hl; cbn; [done|]. rewrite decide_False by (apply other_root, Hl, list_elem_of_here). f_equal.
    apply IH. intros c Hc. apply Hl. by apply list_elem_of_further. }
  rewrite !Hid; [done|by right|by left].
Qed.

Lemma filter_root : filter (fun g => pgg_root g <> pt_root a) (rev (map group_of (P1 ++ a :: P2))) = rev (map group_of (P1 ++ P2)).
Proof.
  assert (forall l, (forall b, b ∈ l -> b ∈ P1 \/ b ∈ P2) -> filter (fun g => pgg_root g <> pt_root a) (map group_of l) = map group_of l) as Hid.
  { induction l as [|b l IH]; intros Hl; cbn [map]; [done|]. rewrite filter_cons_True by (apply other_root, Hl, list_elem_of_here). f_equal.
    apply IH. intros c Hc. apply Hl. by apply list_elem_of_further. }
  rewrite !map_app, !rev_app_distr. cbn [map rev]. rewrite !filter_app. rewrite <- !map_rev, !Hid.
  - rewrite filter_cons_False by naive_solver. by rewrite filter_nil, app_nil_r.
  - intros b. rewrite elem_rev. by left.
  - intros b. rewrite elem_rev. by right.
Qed.
End among.

(** Taking a property away from all groups takes it from the one it is in. *)
Lemma unlink_outs P1 P2 nm r l1 x l2 : NoDup (map p_out (grouped (P1 ++ Part nm r (l1 ++ x :: l2) :: P2))) ->
  map (fun g => with_nodes (unlink (p_out x) (pgg_nodes g)) g) (rev (map group_of (P1 ++ Part nm r (l1 ++ x :: l2) :: P2))) =
  rev (map group_of P1 ++ Group nm r (map p_out (l1 ++ l2)) (rev (map p_node (l1 ++ x :: l2))) :: map group_of P2).
Proof.
  intros Hd. rewrite map_rev. f_equal. rewrite grouped_app, grouped_cons, !map_app in Hd. cbn [map pt_list] in Hd. rewrite map_app in Hd. cbn [map] in Hd.
  assert (forall l, p_out x ∉ map p_out (grouped l) -> map (fun g => with_nodes (unlink (p_out x) (pgg_nodes g)) g) (map group_of l) = map group_of l) as Hid.
  { induction l as [|b l IH]; intros Hl; cbn [map]; [done|]. rewrite grouped_cons, map_app in Hl. apply not_elem_of_app in Hl as [H1 H2]. f_equal; [|by apply IH].
    unfold with_nodes, group_of. cbn [pgg_name pgg_root pgg_nodes pgg_entries]. by rewrite unlink_notin. }
  assert ((p_out x ∉ map p_out (grouped P1)) /\ (p_out x ∉ map p_out (grouped P2)) /\ (p_out x ∉ map p_out l1) /\ (p_out x ∉ map p_out l2)) as (H1 & H2 & H3 & H4).
  { rewrite <- app_assoc in Hd. cbn in Hd. apply NoDup_app in Hd as (_ & N1 & Hd). apply NoDup_app in Hd as (_ & N2 & [N3 _]%NoDup_cons).
    apply not_elem_of_app in N3 as [N3 N4]. split; [|split; [|split]]; try done.
    - intros Hi. apply (N1 _ Hi). set_solver.
    - intros Hi. apply (N2 _ Hi). set_solver. }
  rewrite !map_app. cbn [map]. rewrite (Hid P1 H1), (Hid P2 H2). f_equal. f_equal. unfold with_nodes, group_of. cbn [pgg_name pgg_root pgg_nodes pgg_entries pt_name pt_root pt_list]. rewrite !map_app. cbn [map]. by rewrite unlink_mid.
Qed.

(** ** A node leaves its group *)

Definition part_left (nm : list Z) (r : pid) (l : list (nat * pid * pid)) : list part := match l with [] => [] | _ => [Part nm r l] end.

Lemma grouped_left nm r l : grouped (part_left nm r l) = l.
Proof. destruct l; [done|]. cbn. by rewrite app_nil_r. Qed.

Lemma perm_nodes ps us x ps' : grouped ps ≡ₚ x :: grouped ps' -> all_nodes ps us ≡ₚ all_nodes ps' ((p_node x, p_child x) :: us).
Proof. intros E. unfold all_nodes. rewrite E. cbn. apply Permutation_middle. Qed.
Lemma perm_kids ps us x ps' : grouped ps ≡ₚ x :: grouped ps' -> all_kids ps us ≡ₚ all_kids ps' ((p_node x, p_child x) :: us).
Proof. intros E. unfold all_kids. rewrite E. cbn. apply Permutation_middle. Qed.

Lemma nodes_once ps us n c : NoDup (all_nodes ps ((n, c) :: us)) -> (n ∉ all_nodes ps us) /\ NoDup (all_nodes ps us).
Proof. unfold all_nodes. cbn [map fst]. rewrite <- Permutation_middle. by intros H%NoDup_cons. Qed.
Lemma kids_once ps us n c : NoDup (all_kids ps ((n, c) :: us)) -> (c ∉ all_kids ps us) /\ NoDup (all_kids ps us).
Proof. unfold all_kids. cbn [map snd]. rewrite <- Permutation_middle. by intros H%NoDup_cons. Qed.

(** A node of a group is in no other place. *)
Lemma node_once ps us n c o x : NoDup (all_nodes ps us) -> (n, c, o) ∈ grouped ps -> x ∈ grouped ps -> p_node x = n -> x = (n, c, o).
Proof.
  intros Hd H1 H2 E. unfold all_nodes in Hd. apply NoDup_app in Hd as (Hd & _). apply list_elem_of_split in H1 as (l1 & l2 & Eg). rewrite Eg in *.
  rewrite map_app in Hd. cbn in Hd. apply NoDup_app in Hd as (_ & N1 & [N2 _]%NoDup_cons). apply elem_of_app in H2 as [H2|[H2|H2]%elem_of_cons]; [|done|].
  - exfalso. apply (N1 n); [rewrite <- E; by apply list_elem_of_fmap_2|apply list_elem_of_here].
  - exfalso. apply N2. change (p_node (n, c, o)) with n. rewrite <- E. by apply list_elem_of_fmap_2.
Qed.

Definition left_state (n : nat) (o : pid) (ps' : list part) (g : grouper) : grouper :=
  set_made (delete o (pg_links g)) (pg_next g) (set_groups (rev (map group_of ps')) (map pt_root ps') g).

Lemma unset_run P1 nm r l1 n c o l2 P2 us g : repr (P1 ++ Part nm r (l1 ++ (n, c, o) :: l2) :: P2) us g ->
  node_unset n g = Ok (tt, left_state n o (P1 ++ part_left nm r (l1 ++ l2) ++ P2) g).
Proof.
  intros R. set (a := Part nm r (l1 ++ (n, c, o) :: l2)) in *. set (a' := Part nm r (l1 ++ l2)).
  assert (pg_map g !! n = Some (Node c (Some o) (Some r))) as E.
  { apply (rp_in _ _ _ R). exists a. split; [apply elem_of_app; right; apply list_elem_of_here|]. split; [done|]. apply elem_of_app. right. apply list_elem_of_here. }
  assert (NoDup (map pt_root (P1 ++ a' :: P2))) as Hr by (pose proof (rp_roots _ _ _ R) as Hr; by rewrite map_app in *).
  assert ((n ∉ map p_node l1) /\ (n ∉ map p_node l2)) as [Hn1 Hn2].
  { pose proof (rp_nodup _ _ _ R) as Hd. unfold all_nodes in Hd. rewrite grouped_app, grouped_cons, !map_app in Hd. cbn [map a pt_list] in Hd. rewrite map_app in Hd. cbn [map] in Hd.
    rewrite <- !app_assoc in Hd. apply NoDup_app in Hd as (_ & _ & Hd). apply NoDup_app in Hd as (_ & N1 & [N2 _]%NoDup_cons). split.
    - intros Hi. apply (N1 n Hi), list_elem_of_here.
    - intros Hi. apply N2, elem_of_app. by left. }
  unfold node_unset. unfold get_node. rewrite (h_bind _ _ (Node c (Some o) (Some r)) g g).
  2: { rewrite (h_bind _ _ _ _ _ (eq_refl : gets pg_map g = Ok (_, g))). by rewrite E. }
  cbn [pgn_out pgn_group]. set (g1 := set_made (delete o (pg_links g)) (pg_next g) (set_groups (rev (map group_of P1 ++ Group nm r (map p_out (l1 ++ l2)) (rev (map p_node (l1 ++ (n, c, o) :: l2))) :: map group_of P2)) (pg_dst g) g)).
  rewrite (h_bind _ _ tt g g1).
  2: { unfold mbind, H_bind, gets, modify. rewrite (rp_groups _ _ _ R). pose proof (unlink_outs P1 P2 nm r l1 (n, c, o) l2 (rp_outs _ _ _ R)) as Hu.
       change (p_out (n, c, o)) with o in Hu. unfold a. by rewrite Hu. }
  rewrite (h_bind _ _ _ _ _ (eq_refl : gets pg_groups g1 = Ok (_, g1))), (h_bind _ _ _ _ _ (eq_refl : gets pg_dst g1 = Ok (_, g1))). cbv zeta.
  assert (upd_group r (fun h => with_entries (unlink n (pgg_entries h)) h) (pg_groups g1) = rev (map group_of (P1 ++ a' :: P2))) as Eu.
  { set (b := Part nm r (l1 ++ l2)). cbn [g1 pg_groups set_made set_groups].
    pose proof (upd_mid P1 P2 a' Hr) as Hu. change (pt_root a') with r in Hu.
    rewrite Hu by done. cbn [pgg_entries].
    assert (unlink n (rev (map p_node (l1 ++ (n, c, o) :: l2))) = rev (map p_node (l1 ++ l2))) as Ee; [|by rewrite Ee, (map_app group_of P1)].
    rewrite !map_app, !rev_app_distr. cbn [map rev]. rewrite <- app_assoc. change (p_node (n, c, o)) with n. cbn [app].
    rewrite unlink_mid; [done|by rewrite elem_rev|by rewrite elem_rev]. }
  rewrite Eu. set (g2 := set_groups (rev (map group_of (P1 ++ a' :: P2))) (pg_dst g1) g1). rewrite (h_bind _ _ tt g1 g2) by done.
  rewrite (h_bind _ _ (group_of a') g2 g2).
  2: { pose proof (find_root P1 P2 a' Hr) as Hf. change (pt_root a') with r in Hf. by rewrite Hf. }
  cbn [group_of a' pgg_entries pt_list]. assert (pg_dst g = map pt_root (P1 ++ a' :: P2)) as Ed by (rewrite (rp_dst _ _ _ R), !map_app; done).
  destruct (l1 ++ l2) as [|y l] eqn:El.
  - cbn [map rev part_left app]. unfold group_destroy. rewrite (h_bind _ _ _ _ _ (eq_refl : gets pg_groups g2 = Ok (_, g2))), (h_bind _ _ _ _ _ (eq_refl : gets pg_dst g2 = Ok (_, g2))).
    cbn [g2 pg_groups pg_dst set_groups g1 set_made]. pose proof (filter_root P1 P2 a' Hr) as Hf. change (pt_root a') with r in Hf.
    unfold modify. rewrite Hf. unfold left_state. rewrite Ed, !(map_app pt_root). cbn [map a' pt_root].
    rewrite unlink_mid; [done| |].
    + pose proof Hr as Hr'. rewrite map_app in Hr'. apply NoDup_app in Hr' as (_ & N & _). intros Hi. apply (N _ Hi), list_elem_of_here.
    + pose proof Hr as Hr'. rewrite map_app in Hr'. by apply NoDup_app in Hr' as (_ & _ & [N _]%NoDup_cons).
  - cbn [map rev]. destruct (rev (map p_node l) ++ [p_node y]) as [|z zs] eqn:Ez; [by destruct (rev (map p_node l))|].
    cbn [part_left app]. unfold left_state. fold a'. rewrite <- Ed. done.
Qed.

Lemma grouped_mid P1 nm r l1 x l2 P2 : grouped (P1 ++ Part nm r (l1 ++ x :: l2) :: P2) ≡ₚ x :: grouped (P1 ++ part_left nm r (l1 ++ l2) ++ P2).
Proof.
  rewrite !grouped_app, grouped_left, grouped_cons. cbn [pt_list]. rewrite <- !app_assoc. cbn [app]. by rewrite <- !Permutation_middle.
Qed.

Lemma in_part_left P1 nm r l1 x l2 P2 r' y : in_part (P1 ++ part_left nm r (l1 ++ l2) ++ P2) r' y -> in_part (P1 ++ Part nm r (l1 ++ x :: l2) :: P2) r' y.
Proof.
  intros (a & Ha & <- & Hy). rewrite !elem_of_app in Ha. unfold in_part. destruct Ha as [Ha|[Ha|Ha]].
  - exists a. split; [apply elem_of_app; by left|done].
  - destruct (l1 ++ l2) as [|z l] eqn:El; [by apply elem_of_nil in Ha|]. apply list_elem_of_singleton in Ha as ->. cbn in *.
    exists (Part nm r (l1 ++ x :: l2)). split; [apply elem_of_app; right; apply list_elem_of_here|]. split; [done|]. cbn.
    rewrite <- El in Hy. rewrite elem_of_app in *. rewrite elem_of_cons. tauto.
  - exists a. split; [apply elem_of_app; right; by apply list_elem_of_further|done].
Qed.

(** Names and roots, with one part perhaps gone. *)
Lemma left_sub {A} (f : part -> A) P1 a b P2 l : f a = f b -> (l = [] \/ l = [b]) -> NoDup (map f (P1 ++ a :: P2)) -> NoDup (map f (P1 ++ l ++ P2)).
Proof.
  intros E Hl Hd. eapply sublist_NoDup; [exact Hd|]. rewrite !map_app. cbn. apply sublist_app; [done|]. destruct Hl as [-> | ->]; cbn.
  - by apply sublist_cons.
  - rewrite E. done.
Qed.

Lemma leave_repr P1 nm r l1 n c o l2 P2 us g ps' : ps' = P1 ++ part_left nm r (l1 ++ l2) ++ P2 -> repr (P1 ++ Part nm r (l1 ++ (n, c, o) :: l2) :: P2) us g ->
  repr ps' ((n, c) :: us) (set_map (<[n := Node c None None]> (pg_map g)) (left_state n o ps' g)).
Proof.
  intros Eps R. pose proof (grouped_mid P1 nm r l1 (n, c, o) l2 P2) as Eg. rewrite <- Eps in Eg. set (ps := P1 ++ Part nm r (l1 ++ (n, c, o) :: l2) :: P2) in *.
  pose proof (perm_nodes ps us _ _ Eg) as En. pose proof (perm_kids ps us _ _ Eg) as Ek. cbn [p_node p_child fst snd] in En, Ek.
  assert (forall r' y, in_part ps' r' y -> in_part ps r' y /\ p_node y <> n) as Hin.
  { intros r' y Hy. rewrite Eps in Hy. split; [by apply in_part_left|]. intros Hyn. pose proof (rp_nodup _ _ _ R) as Hd. rewrite En in Hd.
    apply nodes_once in Hd as [Hd _]. apply Hd, elem_of_app. left. rewrite <- Hyn.
    apply list_elem_of_fmap_2, grouped_part. exists r'. by rewrite Eps. }
  assert (forall m e, (m, e) ∈ us -> m <> n) as Hus.
  { intros m e Hm ->. pose proof (rp_nodup _ _ _ R) as Hd. rewrite En in Hd. apply nodes_once in Hd as [Hd _].
    apply Hd, elem_of_app. right. by apply (list_elem_of_fmap_2 fst us (n, e)). }
  assert (NoDup (o :: map p_out (grouped ps'))) as Hod by (pose proof (rp_outs _ _ _ R) as Ho; by rewrite Eg in Ho).
  assert (part_left nm r (l1 ++ l2) = [] \/ part_left nm r (l1 ++ l2) = [Part nm r (l1 ++ l2)]) as Hpl by (destruct (l1 ++ l2); [by left|by right]).
  split; cbn [set_map left_state set_made set_groups pg_dst pg_groups pg_nodes pg_map pg_tags pg_links pg_next].
  - done.
  - done.
  - rewrite (rp_nodes _ _ _ R). exact En.
  - rewrite <- En. apply (rp_nodup _ _ _ R).
  - rewrite <- Ek. apply (rp_kids _ _ _ R).
  - rewrite Eps. eapply left_sub; [|exact Hpl|apply (rp_names _ _ _ R)]. done.
  - rewrite Eps. eapply left_sub; [|exact Hpl|apply (rp_roots _ _ _ R)]. done.
  - by apply NoDup_cons in Hod as [_ ?].
  - rewrite Eps. intros a. rewrite !elem_of_app. intros [Ha|[Ha|Ha]]; [|destruct (l1 ++ l2) as [|z l]; [by apply elem_of_nil in Ha|by apply list_elem_of_singleton in Ha as ->]|];
      apply (rp_full _ _ _ R); unfold ps; rewrite elem_of_app, elem_of_cons; tauto.
  - intros r' m e o' Hm. destruct (Hin r' _ Hm) as [Hm' Hne]. cbn in Hne. rewrite lookup_insert_ne by done. by apply (rp_in _ _ _ R).
  - intros m e [[= -> ->]|Hm]%elem_of_cons; [apply lookup_insert_eq|]. rewrite lookup_insert_ne by (intros <-; by eapply Hus). by apply (rp_un _ _ _ R).
  - intros m Hm. rewrite <- En. apply lookup_insert_is_Some in Hm as [<-|[_ Hm]]; [|by apply (rp_dom _ _ _ R)]. rewrite En. unfold all_nodes.
    apply elem_of_app. right. apply list_elem_of_here.
  - intros m e Hm. apply (rp_tags _ _ _ R). destruct Hm as [[o' Hm]|[[= -> ->]|Hm]%elem_of_cons]; [left; exists o'|left; exists o|by right].
    + rewrite Eg. by apply list_elem_of_further.
    + rewrite Eg. apply list_elem_of_here.
  - intros m e o' Hm. rewrite lookup_delete_ne; [apply (rp_links _ _ _ R m); rewrite Eg; by apply list_elem_of_further|].
    intros <-. apply NoDup_cons in Hod as [Ho _]. apply Ho. by apply (list_elem_of_fmap_2 p_out _ (m, e, o)).
  - intros o' Ho'. apply (rp_next _ _ _ R). apply elem_of_app in Ho' as [Ho'|Ho'].
    + apply elem_of_app. left. rewrite Eg. cbn. by apply list_elem_of_further.
    + apply elem_of_app. right. rewrite Eps in Ho'. unfold ps. rewrite map_app in *. cbn. rewrite elem_of_app, elem_of_cons. rewrite map_app, !elem_of_app in Ho'.
      destruct Ho' as [H|[H|H]]; [tauto| |tauto]. right. left. destruct Hpl as [E|E]; rewrite E in H; [by apply elem_of_nil in H|by apply list_elem_of_singleton in H].
  - apply (rp_base _ _ _ R).
Qed.

(** What is to be shown then. *)
Lemma leave_out c l : (forall a, a ∈ l -> pt_list a <> []) -> c ∉ map p_child (grouped l) -> leave c (map view_part l) = map view_part l.
Proof.
  induction l as [|a l IH]; intros Hf Hc; [done|]. rewrite grouped_cons, map_app in Hc. apply not_elem_of_app in Hc as [H1 H2]. unfold leave in *. cbn [map omap list_omap].
  change (view_part a).2 with (map p_child (pt_list a)). rewrite (unlink_notin c _ H1). rewrite IH; [|intros b Hb; apply Hf; by apply list_elem_of_further|done].
  pose proof (Hf a (list_elem_of_here _ _)) as Ha. destruct a as [nm r [|x l0]]; done.
Qed.

Lemma leave_app c g1 g2 : leave c (g1 ++ g2) = leave c g1 ++ leave c g2.
Proof. apply omap_app. Qed.

Lemma leave_mid P1 nm r l1 n c o l2 P2 us g : repr (P1 ++ Part nm r (l1 ++ (n, c, o) :: l2) :: P2) us g ->
  leave c (map view_part (P1 ++ Part nm r (l1 ++ (n, c, o) :: l2) :: P2)) = map view_part (P1 ++ part_left nm r (l1 ++ l2) ++ P2).
Proof.
  intros R. pose proof (rp_kids _ _ _ R) as Hd. unfold all_kids in Hd. apply NoDup_app in Hd as [Hd _]. rewrite grouped_app, grouped_cons, !map_app in Hd. cbn [map pt_list] in Hd. rewrite map_app in Hd. cbn [map] in Hd.
  change (p_child (n, c, o)) with c in Hd. rewrite <- !app_assoc in Hd. apply NoDup_app in Hd as (_ & N1 & Hd). apply NoDup_app in Hd as (_ & N2 & [N3 _]%NoDup_cons).
  apply not_elem_of_app in N3 as [N3 N4].
  assert (c ∉ map p_child (grouped P1)) as H1 by (intros Hi; apply (N1 c Hi), elem_of_app; right; apply list_elem_of_here).
  assert (c ∉ map p_child l1) as H2 by (intros Hi; apply (N2 c Hi), list_elem_of_here).
  rewrite map_app, leave_app, leave_out; [|intros a Ha; apply (rp_full _ _ _ R), elem_of_app; by left|done]. rewrite !map_app. f_equal.
  cbn [map]. change (view_part (Part nm r (l1 ++ (n, c, o) :: l2)) :: map view_part P2) with ([view_part (Part nm r (l1 ++ (n, c, o) :: l2))] ++ map view_part P2).
  rewrite leave_app, leave_out; [|intros a Ha; apply (rp_full _ _ _ R), elem_of_app; right; by apply list_elem_of_further|done]. f_equal.
  unfold leave. cbn [omap list_omap]. unfold view_part at 1. cbn [snd fst pt_list pt_name]. rewrite map_app. cbn [map]. change (p_child (n, c, o)) with c.
  rewrite unlink_mid by done. rewrite <- map_app. destruct (l1 ++ l2); done.
Qed.

(** ** A node joins a group *)

Lemma repr_us ps us us' g : us ≡ₚ us' -> repr ps us g -> repr ps us' g.
Proof.
  intros E R. assert (all_nodes ps us ≡ₚ all_nodes ps us') as En by (unfold all_nodes; by rewrite E).
  split; try by destruct R.
  - rewrite <- En. apply (rp_nodes _ _ _ R).
  - rewrite <- En. apply (rp_nodup _ _ _ R).
  - unfold all_kids. rewrite <- E. apply (rp_kids _ _ _ R).
  - intros n c. rewrite <- E. apply (rp_un _ _ _ R).
  - intros n. rewrite <- En. apply (rp_dom _ _ _ R).
  - intros n c. rewrite <- E. apply (rp_tags _ _ _ R).
Qed.

Definition joined_state (n : nat) (c o r : pid) (ps : list part) (g : grouper) : grouper :=
  set_groups (rev (map group_of ps)) (map pt_root ps) (set_map (<[n := Node c (Some o) (Some r)]> (pg_map g)) (set_made (<[o := c]> (pg_links g)) (S o) g)).

Lemma in_part_joined P1 nm r l x P2 r' y : in_part (P1 ++ Part nm r (l ++ [x]) :: P2) r' y ->
  (r' = r /\ y = x) \/ in_part (P1 ++ part_left nm r l ++ P2) r' y.
Proof.
  intros (a & Ha & <- & Hy). unfold in_part. apply elem_of_app in Ha as [Ha|[->|Ha]%elem_of_cons].
  - right. exists a. split; [apply elem_of_app; by left|done].
  - cbn in *. apply elem_of_app in Hy as [Hy|Hy]; [|left; split; [done|by apply list_elem_of_singleton in Hy]]. right. exists (Part nm r l).
    split; [|done]. destruct l; [by apply elem_of_nil in Hy|]. apply elem_of_app. right. apply list_elem_of_here.
  - right. exists a. split; [apply elem_of_app; right; apply elem_of_app; by right|done].
Qed.

Lemma joined_add {A} (f : part -> A) P1 nm r l l' P2 : l <> [] \/ f (Part nm r l') ∉ map f (P1 ++ P2) -> f (Part nm r l) = f (Part nm r l') ->
  NoDup (map f (P1 ++ part_left nm r l ++ P2)) -> NoDup (map f (P1 ++ Part nm r l' :: P2)).
Proof.
  intros Hn E Hd. destruct l as [|y l]; cbn [part_left app] in Hd.
  - destruct Hn as [?|Hn]; [done|]. rewrite map_app in *. cbn [map]. rewrite <- Permutation_middle. by constructor.
  - rewrite map_app in *. cbn [map] in *. by rewrite <- E.
Qed.

(** A group that is new has a property that is new. *)
Definition joinable (P1 P2 : list part) (nm : list Z) (r o : pid) (l : list (nat * pid * pid)) (g : grouper) : Prop :=
  l <> [] \/ ((pg_next g <= r < o)%nat /\ nm ∉ map pt_name (P1 ++ P2)).

Lemma old_root ps us g : repr ps us g -> forall o, (pg_next g <= o)%nat -> (o ∉ map pt_root ps) /\ o ∉ map p_out (grouped ps).
Proof.
  intros R o Ho. split; intros Hi; pose proof (rp_next _ _ _ R o) as Hn; rewrite elem_of_app in Hn; [specialize (Hn (or_intror Hi))|specialize (Hn (or_introl Hi))]; lia.
Qed.

Lemma joined_repr P1 nm r l n c o P2 us g ps' : ps' = P1 ++ Part nm r (l ++ [(n, c, o)]) :: P2 ->
  repr (P1 ++ part_left nm r l ++ P2) ((n, c) :: us) g -> (pg_next g <= o)%nat -> joinable P1 P2 nm r o l g -> repr ps' us (joined_state n c o r ps' g).
Proof.
  intros Eps R Ho Hj. pose proof (grouped_mid P1 nm r l (n, c, o) [] P2) as Eg. rewrite app_nil_r, <- Eps in Eg. set (ps := P1 ++ part_left nm r l ++ P2) in *.
  pose proof (perm_nodes ps' us _ _ Eg) as En. pose proof (perm_kids ps' us _ _ Eg) as Ek. cbn [p_node p_child fst snd] in En, Ek.
  pose proof (rp_nodup _ _ _ R) as Hd. apply nodes_once in Hd as [Hn Hd]. pose proof (rp_next _ _ _ R) as Hnx.
  assert (forall r' y, in_part ps' r' y -> (r' = r /\ y = (n, c, o)) \/ in_part ps r' y) as Hin by (intros r' y; rewrite Eps; apply in_part_joined).
  assert (forall y, y ∈ grouped ps -> p_node y <> n) as Hne by (intros y Hy <-; apply Hn, elem_of_app; left; by apply list_elem_of_fmap_2).
  assert (forall y, y ∈ grouped ps -> (p_out y < o)%nat) as Hlt.
  { intros y Hy. assert (p_out y ∈ map p_out (grouped ps) ++ map pt_root ps) as Hy' by (apply elem_of_app; left; by apply list_elem_of_fmap_2). apply Hnx in Hy'. lia. }
  assert (l <> [] \/ r ∉ map pt_root (P1 ++ P2)) as Hr.
  { destruct Hj as [?|[Hr _]]; [by left|]. destruct l; [|by left]. right. destruct (old_root _ _ _ R r ltac:(lia)) as [Hn' _]. exact Hn'. }
  split; cbn [joined_state set_map set_made set_groups pg_dst pg_groups pg_nodes pg_map pg_tags pg_links pg_next].
  - done.
  - done.
  - rewrite En. apply (rp_nodes _ _ _ R).
  - rewrite En. apply (rp_nodup _ _ _ R).
  - rewrite Ek. apply (rp_kids _ _ _ R).
  - rewrite Eps. apply (joined_add pt_name _ _ _ l); [|done|apply (rp_names _ _ _ R)]. destruct Hj as [?|[_ ?]]; [by left|by right].
  - rewrite Eps. apply (joined_add pt_root _ _ _ l); [done|done|apply (rp_roots _ _ _ R)].
  - rewrite Eg. cbn. constructor; [|apply (rp_outs _ _ _ R)]. by apply (old_root _ _ _ R).
  - rewrite Eps. intros a [Ha|[->|Ha]%elem_of_cons]%elem_of_app; [|by destruct l|]; apply (rp_full _ _ _ R); unfold ps; rewrite !elem_of_app; tauto.
  - intros r' m e o' [[-> [= -> -> ->]]|Hm]%Hin; [apply lookup_insert_eq|]. rewrite lookup_insert_ne; [by apply (rp_in _ _ _ R)|].
    apply not_eq_sym, (Hne (m, e, o')), grouped_part. by exists r'.
  - intros m e Hm. rewrite lookup_insert_ne; [apply (rp_un _ _ _ R); by apply list_elem_of_further|]. intros <-. apply Hn, elem_of_app. right. by apply (list_elem_of_fmap_2 fst us (n, e)).
  - intros m Hm. rewrite En. apply lookup_insert_is_Some in Hm as [<-|[_ Hm]]; [|by apply (rp_dom _ _ _ R)]. apply elem_of_app. right. apply list_elem_of_here.
  - intros m e Hm. apply (rp_tags _ _ _ R). destruct Hm as [[o' Hm]|Hm]; [|right; by apply list_elem_of_further]. rewrite Eg in Hm.
    apply elem_of_cons in Hm as [[= -> -> _]|Hm]; [right; apply list_elem_of_here|left; by exists o'].
  - intros m e o' Hm. rewrite Eg in Hm. apply elem_of_cons in Hm as [[= -> -> ->]|Hm]; [apply lookup_insert_eq|]. pose proof (Hlt _ Hm) as Hl. cbn in Hl.
    rewrite lookup_insert_ne by lia. by apply (rp_links _ _ _ R m).
  - assert (forall o', o' ∈ map p_out (grouped ps) ++ map pt_root ps \/ o' = o \/ o' = r /\ l = [] -> (base <= o' < S o)%nat) as H.
    { pose proof (rp_base _ _ _ R). intros o' [H1|[-> |[-> ->]]]; [apply Hnx in H1; lia|lia|]. destruct Hj as [?|[? _]]; [done|lia]. }
    intros o' Ho'. apply H. rewrite Eg in Ho'. cbn [map] in Ho'. rewrite elem_of_app, elem_of_cons in Ho'. rewrite elem_of_app. destruct Ho' as [[->|Ho']|Ho']; [by right; left|tauto|].
    rewrite Eps in Ho'. unfold ps. rewrite map_app in Ho'. cbn in Ho'. rewrite elem_of_app, elem_of_cons in Ho'. rewrite !map_app, !elem_of_app.
    destruct Ho' as [?|[->|?]]; [tauto| |tauto]. destruct l; [tauto|]. left. right. right. left. apply list_elem_of_here.
  - pose proof (rp_base _ _ _ R). lia.
Qed.

(** What is left of [node_update_group] when the node has left its group. *)
Definition regroup (n : nat) (name : option (list Z)) : H grouper unit :=
  x ← get_node n;
  match name with
  | None => put_node n (Node (pgn_in x) None None)
  | Some name =>
      r ← group_find name;
      gs ← gets pg_groups; d ← gets pg_dst;
      _ ← modify (set_groups (upd_group r (fun g => with_entries (n :: pgg_entries g) g) gs) d);
      o ← gets pg_next; L ← gets pg_links;
      _ ← modify (set_made (<[o := pgn_in x]> L) (S o));
      _ ← put_node n (Node (pgn_in x) (Some o) (Some r));
      gs ← gets pg_groups; d ← gets pg_dst;
      modify (set_groups (upd_group r (fun g => with_nodes (pgg_nodes g ++ [o]) g) gs) d)
  end.

Lemma node_found n x g : pg_map g !! n = Some x -> get_node n g = Ok (x, g).
Proof. intros E. unfold get_node. rewrite (h_bind _ _ _ _ _ (eq_refl : gets pg_map g = Ok (_, g))). by rewrite E. Qed.

(** The group with a name. *)
Lemma find_name P1 a P2 : NoDup (map pt_name (P1 ++ a :: P2)) ->
  List.find (fun g => bool_decide (pgg_name g = pt_name a)) (rev (map group_of (P1 ++ a :: P2))) = Some (group_of a).
Proof.
  intros Hd. rewrite map_app in Hd. cbn in Hd. apply NoDup_app in Hd as (_ & _ & [Hd _]%NoDup_cons).
  rewrite map_app, rev_app_distr. cbn [map rev]. rewrite <- app_assoc, <- map_rev.
  assert (forall l r, (forall b, b ∈ l -> b ∈ P2) -> List.find (fun g => bool_decide (pgg_name g = pt_name a)) (map group_of l ++ r) = List.find (fun g => bool_decide (pgg_name g = pt_name a)) r) as Hskip.
  { induction l as [|b l IH]; intros r Hl; cbn; [done|]. rewrite bool_decide_false.
    - apply IH. intros c Hc. apply Hl. by apply list_elem_of_further.
    - intros E. apply Hd. rewrite <- E. apply (list_elem_of_fmap_2 pt_name), Hl, list_elem_of_here. }
  rewrite Hskip; [cbn; by rewrite bool_decide_true|]. intros b. by rewrite elem_rev.
Qed.

Lemma find_no_name nm ps : nm ∉ map pt_name ps -> List.find (fun g => bool_decide (pgg_name g = nm)) (rev (map group_of ps)) = None.
Proof.
  rewrite <- map_rev. intros Hn. assert (forall b, b ∈ rev ps -> pt_name b <> nm) as Hl.
  { intros b Hb <-. rewrite elem_rev in Hb. apply Hn. by apply (list_elem_of_fmap_2 pt_name). }
  induction (rev ps) as [|b l IH]; cbn; [done|]. rewrite bool_decide_false by apply Hl, list_elem_of_here. apply IH. intros c Hc. apply Hl. by apply list_elem_of_further.
Qed.

(** The group is there, with [l] in it, in the state [g1] that [group_find] leaves. *)
Lemma join_found P1 nm r l P2 n c x g g1 : pg_map g !! n = Some x -> pgn_in x = c ->
  NoDup (map pt_root (P1 ++ Part nm r l :: P2)) -> group_find nm g = Ok (r, g1) ->
  pg_map g1 = pg_map g -> pg_groups g1 = rev (map group_of (P1 ++ Part nm r l :: P2)) -> pg_dst g1 = map pt_root (P1 ++ Part nm r l :: P2) ->
  regroup n (Some nm) g = Ok (tt, joined_state n c (pg_next g1) r (P1 ++ Part nm r (l ++ [(n, c, pg_next g1)]) :: P2) g1).
Proof.
  intros Ex Ec Hr Hf Em Eg Ed. set (o := pg_next g1). unfold regroup. rewrite (h_bind _ _ x g g) by by apply node_found. rewrite (h_bind _ _ r g g1) by done.
  rewrite (h_bind _ _ _ _ _ (eq_refl : gets pg_groups g1 = Ok (_, g1))), (h_bind _ _ _ _ _ (eq_refl : gets pg_dst g1 = Ok (_, g1))).
  rewrite Eg, map_app. cbn [map]. pose proof (upd_mid P1 P2 (Part nm r l) Hr) as Hu. cbn [pt_root] in Hu. rewrite Hu by done.
  set (h := Group nm r (map p_out l) (n :: rev (map p_node l))). change (with_entries _ _) with h.
  set (g2 := set_groups (rev (map group_of P1 ++ h :: map group_of P2)) (pg_dst g1) g1). rewrite (h_bind _ _ tt g1 g2) by done.
  rewrite (h_bind _ _ _ _ _ (eq_refl : gets pg_next g2 = Ok (o, g2))), (h_bind _ _ _ _ _ (eq_refl : gets pg_links g2 = Ok (pg_links g1, g2))).
  set (g3 := set_made (<[o := pgn_in x]> (pg_links g1)) (S o) g2). rewrite (h_bind _ _ tt g2 g3) by done.
  set (g4 := set_map (<[n := Node (pgn_in x) (Some o) (Some r)]> (pg_map g1)) g3). rewrite (h_bind _ _ tt g3 g4) by done.
  rewrite (h_bind _ _ _ _ _ (eq_refl : gets pg_groups g4 = Ok (rev (map group_of P1 ++ h :: map group_of P2), g4))), (h_bind _ _ _ _ _ (eq_refl : gets pg_dst g4 = Ok (pg_dst g1, g4))).
  unfold modify. rewrite Hu by done. unfold joined_state. f_equal. f_equal. unfold g4, g3, g2, h, set_groups, set_made, set_map, with_nodes. cbn.
  rewrite !map_app, Ed, map_app, Ec. cbn. unfold group_of. cbn. by rewrite !map_app, !rev_app_distr.
Qed.

(** The node of a child, in a state where all else is as it is to be. *)
Definition loose (ps : list part) (us : list (nat * pid)) (n : nat) (c : pid) (g : grouper) : Prop :=
  repr ps ((n, c) :: us) (set_map (<[n := Node c None None]> (pg_map g)) g) /\ exists x, pg_map g !! n = Some x /\ pgn_in x = c.

Lemma part_full nm r l : l <> [] -> part_left nm r l = [Part nm r l].
Proof. by destruct l. Qed.

Lemma enter_new c nm l : nm ∉ map fst l -> enter c nm l = l ++ [(nm, [c])].
Proof.
  induction l as [|g l IH]; cbn; [done|]. intros [H1 H2]%not_elem_of_cons. rewrite decide_False by congruence. by rewrite IH.
Qed.
Lemma enter_old c nm l1 cs l2 : nm ∉ map fst l1 -> enter c nm (l1 ++ (nm, cs) :: l2) = l1 ++ (nm, cs ++ [c]) :: l2.
Proof.
  induction l1 as [|g l IH]; cbn; [by rewrite decide_True|]. intros [H1 H2]%not_elem_of_cons. rewrite decide_False by congruence. by rewrite IH.
Qed.
Lemma view_names ps : map fst (map view_part ps) = map pt_name ps.
Proof. by rewrite map_map. Qed.

Lemma joined_over ps n c o r g : joined_state n c o r ps (set_map (<[n := Node c None None]> (pg_map g)) g) = joined_state n c o r ps g.
Proof. unfold joined_state. cbn. by rewrite insert_insert_eq. Qed.

Lemma join_run ps us n c nm g : loose ps us n c g ->
  exists ps' g', regroup n (Some nm) g = Ok (tt, g') /\ repr ps' us g' /\ map view_part ps' = enter c nm (map view_part ps) /\ all_kids ps' us ≡ₚ all_kids ps ((n, c) :: us) /\
    exists o, (n, c, o) ∈ grouped ps'.
Proof.
  intros (R & x & Ex & Ec). destruct (decide (nm ∈ map pt_name ps)) as [Hi|Hi].
  - apply list_elem_of_fmap_1 in Hi as ([nm' r l] & E & Hi). cbn in E. subst nm'. apply list_elem_of_split in Hi as (P1 & P2 & ->).
    assert (l <> []) as Hl by (apply (rp_full _ _ _ R (Part nm r l)), elem_of_app; right; apply list_elem_of_here).
    set (o := pg_next g). set (ps' := P1 ++ Part nm r (l ++ [(n, c, o)]) :: P2). exists ps', (joined_state n c o r ps' g).
    pose proof (grouped_mid P1 nm r l (n, c, o) [] P2) as Eg. rewrite app_nil_r, part_full in Eg by done. cbn [app] in Eg.
    split; [|split; [|split; [|split]]].
    + apply (join_found P1 nm r l P2 n c x g g); try done; [apply (rp_roots _ _ _ R)| |apply (rp_groups _ _ _ R)|apply (rp_dst _ _ _ R)].
      unfold group_find. rewrite (h_bind _ _ _ _ _ (eq_refl : gets pg_groups g = Ok (_, g))). pose proof (rp_groups _ _ _ R) as Egr. cbn in Egr. rewrite Egr.
      pose proof (find_name P1 (Part nm r l) P2 (rp_names _ _ _ R)) as Hf. cbn [pt_name] in Hf. by rewrite Hf.
    + rewrite <- (joined_over ps' n c o r g). apply (joined_repr P1 nm r l n c o P2 us _ ps'); [done| |done|by left]. by rewrite part_full.
    + unfold ps'. rewrite !map_app. cbn [map]. unfold view_part at 2 5. cbn. rewrite map_app. symmetry. apply enter_old.
      rewrite view_names. pose proof (rp_names _ _ _ R) as Hd. rewrite map_app in Hd. apply NoDup_app in Hd as (_ & N & _). intros H. apply (N nm H), list_elem_of_here.
    + exact (perm_kids _ us _ _ Eg).
    + exists o. unfold ps'. rewrite Eg. apply list_elem_of_here.
  - set (r := pg_next g). set (o := (r + 3)%nat). set (ps' := ps ++ [Part nm r [(n, c, o)]]). exists ps', (joined_state n c o r ps' g).
    pose proof (grouped_mid ps nm r [] (n, c, o) [] []) as Eg. cbn [app part_left] in Eg. rewrite app_nil_r in Eg.
    split; [|split; [|split; [|split]]].
    + pose proof (old_root _ _ _ R r (le_n _)) as [Hrt _]. set (g1 := set_groups (rev (map group_of (ps ++ [Part nm r []]))) (map pt_root (ps ++ [Part nm r []])) (set_made (pg_links g) o g)).
      change (joined_state n c o r ps' g) with (joined_state n c (pg_next g1) r (ps ++ [Part nm r ([] ++ [(n, c, pg_next g1)])]) g1).
      apply (join_found ps nm r [] [] n c x g g1); try done.
      * rewrite map_app. cbn. rewrite <- Permutation_cons_append. constructor; [done|apply (rp_roots _ _ _ R)].
      * unfold group_find. rewrite (h_bind _ _ _ _ _ (eq_refl : gets pg_groups g = Ok (_, g))). pose proof (rp_groups _ _ _ R) as Egr. cbn in Egr. rewrite Egr, find_no_name by done.
        rewrite (h_bind _ _ _ _ _ (eq_refl : gets pg_next g = Ok (r, g))). unfold mbind, H_bind, gets, modify. cbn. pose proof (rp_dst _ _ _ R) as Ed. cbn in Ed. rewrite Ed.
        unfold g1. rewrite !map_app, rev_app_distr. done.
    + rewrite <- (joined_over ps' n c o r g). apply (joined_repr ps nm r [] n c o [] us _ ps'); [done| |cbn; unfold o, r; lia|].
      * cbn. by rewrite app_nil_r.
      * right. cbn. rewrite app_nil_r. split; [unfold o, r; lia|done].
    + unfold ps'. rewrite !map_app. cbn [map]. symmetry. apply enter_new. by rewrite view_names.
    + exact (perm_kids _ us _ _ Eg).
    + exists o. unfold ps'. rewrite Eg. apply list_elem_of_here.
Qed.

(** ** A node changes its group *)

Definition is_node (ps : list part) (us : list (nat * pid)) (n : nat) (c : pid) : Prop := (exists o, (n, c, o) ∈ grouped ps) \/ (n, c) ∈ us.

Lemma grouped_split ps x : x ∈ grouped ps -> exists P1 nm r l1 l2 P2, ps = P1 ++ Part nm r (l1 ++ x :: l2) :: P2.
Proof.
  intros (r' & [nm r l] & Ha & _ & Hx)%grouped_part. cbn in Hx. apply list_elem_of_split in Ha as (P1 & P2 & ->). apply list_elem_of_split in Hx as (l1 & l2 & ->).
  by exists P1, nm, r, l1, l2, P2.
Qed.

Lemma unset_any ps us n c g : repr ps us g -> is_node ps us n c ->
  exists ps' us' h, node_unset n g = Ok (tt, h) /\ loose ps' us' n c h /\ map view_part ps' = leave c (map view_part ps) /\
    all_kids ps us ≡ₚ all_kids ps' ((n, c) :: us') /\ all_nodes ps us ≡ₚ all_nodes ps' ((n, c) :: us').
Proof.
  intros R [[o Hi]|Hi].
  - apply grouped_split in Hi as (P1 & nm & r & l1 & l2 & P2 & ->). set (ps' := P1 ++ part_left nm r (l1 ++ l2) ++ P2).
    pose proof (grouped_mid P1 nm r l1 (n, c, o) l2 P2) as Eg. exists ps', us, (left_state n o ps' g). split; [by eapply unset_run|]. split; [split|split; [|split]].
    + exact (leave_repr P1 nm r l1 n c o l2 P2 us g ps' eq_refl R).
    + exists (Node c (Some o) (Some r)). split; [|done]. apply (rp_in _ _ _ R). exists (Part nm r (l1 ++ (n, c, o) :: l2)).
      split; [apply elem_of_app; right; apply list_elem_of_here|]. split; [done|]. apply elem_of_app. right. apply list_elem_of_here.
    + symmetry. by eapply leave_mid.
    + exact (perm_kids _ us _ _ Eg).
    + exact (perm_nodes _ us _ _ Eg).
  - pose proof (rp_un _ _ _ R n c Hi) as E. apply list_elem_of_split in Hi as (u1 & u2 & Eu). assert (us ≡ₚ (n, c) :: u1 ++ u2) as Hu by (rewrite Eu; by rewrite <- Permutation_middle).
    assert (set_map (<[n := Node c None None]> (pg_map g)) g = g) as Em by (unfold set_map; rewrite insert_id by done; by destruct g).
    exists ps, (u1 ++ u2), g. split; [|split; [split|split; [|split]]].
    + unfold node_unset. rewrite (h_bind _ _ _ _ _ (node_found _ _ _ E)). done.
    + rewrite Em. by apply (repr_us ps us).
    + by exists (Node c None None).
    + symmetry. apply leave_out; [apply (rp_full _ _ _ R)|]. intros Hc. pose proof (rp_kids _ _ _ R) as Hd. unfold all_kids in Hd. rewrite Hu in Hd. apply kids_once in Hd as [Hd _].
      apply Hd, elem_of_app. by left.
    + unfold all_kids. by rewrite Hu.
    + unfold all_nodes. by rewrite Hu.
Qed.

Lemma update_run ps us n c name g : repr ps us g -> is_node ps us n c ->
  exists ps' us' g', node_update_group n name g = Ok (tt, g') /\ repr ps' us' g' /\ map view_part ps' = tell c name (map view_part ps) /\ all_kids ps' us' ≡ₚ all_kids ps us /\ is_node ps' us' n c.
Proof.
  intros R Hn. destruct (unset_any ps us n c g R Hn) as (ps1 & us1 & h & E & Hl & Ev & Ek & _). change (node_update_group n name) with (_ ← node_unset n; regroup n name).
  rewrite (h_bind _ _ _ _ _ E). destruct name as [nm|]; cbn [tell].
  - destruct (join_run ps1 us1 n c nm h Hl) as (ps2 & g2 & E2 & R2 & Ev2 & Ek2 & Hn2). exists ps2, us1, g2. split; [done|]. split; [done|]. rewrite Ev2, Ev, Ek2. split; [done|]. split; [done|by left].
  - destruct Hl as (R1 & x & Ex & Ec). exists ps1, ((n, c) :: us1), (set_map (<[n := Node c None None]> (pg_map h)) h). split; [|rewrite Ek; split; [done|]; split; [done|]; split; [done|right; apply list_elem_of_here]].
    unfold regroup. rewrite (h_bind _ _ _ _ _ (node_found _ _ _ Ex)). by rewrite Ec.
Qed.

(** ** Nodes come and go *)

Lemma add_repr ps us n c g : repr ps us g -> n ∉ pg_nodes g -> c ∉ all_kids ps us ->
  repr ps ((n, c) :: us) (set_tags (prop_tag_set c key n (pg_tags g)) (set_nodes (n :: pg_nodes g) (<[n := Node c None None]> (pg_map g)) g)).
Proof.
  intros R Hn Hc. rewrite (rp_nodes _ _ _ R) in Hn.
  assert (all_nodes ps ((n, c) :: us) ≡ₚ n :: all_nodes ps us) as En by (unfold all_nodes; cbn; by rewrite Permutation_middle).
  assert (all_kids ps ((n, c) :: us) ≡ₚ c :: all_kids ps us) as Ek by (unfold all_kids; cbn; by rewrite Permutation_middle).
  assert (forall m e o, (m, e, o) ∈ grouped ps -> m <> n /\ e <> c) as Hg.
  { intros m e o Hm. split; intros ->; [apply Hn|apply Hc]; apply elem_of_app; left; [by apply (list_elem_of_fmap_2 p_node _ (n, e, o))|by apply (list_elem_of_fmap_2 p_child _ (m, c, o))]. }
  assert (forall m e, (m, e) ∈ us -> m <> n /\ e <> c) as Hu.
  { intros m e Hm. split; intros ->; [apply Hn|apply Hc]; apply elem_of_app; right; [by apply (list_elem_of_fmap_2 fst _ (n, e))|by apply (list_elem_of_fmap_2 snd _ (m, c))]. }
  split; try by destruct R.
  - rewrite En. cbn. by rewrite (rp_nodes _ _ _ R).
  - rewrite En. constructor; [done|apply (rp_nodup _ _ _ R)].
  - rewrite Ek. constructor; [done|apply (rp_kids _ _ _ R)].
  - intros r m e o Hm. cbn. rewrite lookup_insert_ne; [by apply (rp_in _ _ _ R)|]. destruct (Hg m e o) as [? _]; [by apply grouped_part; exists r|done].
  - intros m e [[= -> ->]|Hm]%elem_of_cons; cbn; [apply lookup_insert_eq|]. destruct (Hu m e Hm) as [? _]. rewrite lookup_insert_ne by done. by apply (rp_un _ _ _ R).
  - intros m Hm. rewrite En. cbn in Hm. apply lookup_insert_is_Some in Hm as [<-|[_ Hm]]; [apply list_elem_of_here|]. apply list_elem_of_further. by apply (rp_dom _ _ _ R).
  - intros m e Hm. cbn. destruct Hm as [[o Hm]|[[= -> ->]|Hm]%elem_of_cons]; [|apply tag_get_set|].
    + destruct (Hg m e o Hm) as [_ ?]. rewrite tag_get_set_ne by by left. apply (rp_tags _ _ _ R). left. by exists o.
    + destruct (Hu m e Hm) as [_ ?]. rewrite tag_get_set_ne by by left. apply (rp_tags _ _ _ R). by right.
Qed.

Hypothesis calloc_new : forall l, calloc l ∉ l.

Lemma hear_run es : forall ps us n c g, repr ps us g -> is_node ps us n c ->
  exists ps' us' g', for_each es (node_set_group n) g = Ok (tt, g') /\ repr ps' us' g' /\ map view_part ps' = hears c es (map view_part ps) /\ all_kids ps' us' ≡ₚ all_kids ps us.
Proof.
  induction es as [|e es IH]; intros ps us n c g R Hn; [by exists ps, us, g|].
  destruct (update_run ps us n c (event_group e) g R Hn) as (ps1 & us1 & g1 & E1 & R1 & Ev1 & Ek1 & Hn1).
  destruct (IH ps1 us1 n c g1 R1 Hn1) as (ps2 & us2 & g2 & E2 & R2 & Ev2 & Ek2). exists ps2, us2, g2.
  split; [|split; [done|split; [by rewrite Ev2, Ev1|by rewrite Ek2]]]. cbn [for_each]. unfold node_set_group at 1. by rewrite (h_bind _ _ _ _ _ E1).
Qed.

Lemma child_added tells ps us c g : repr ps us g -> c ∉ all_kids ps us ->
  exists ps' us' g', pg_add_node tells c g = Ok (tt, g') /\ repr ps' us' g' /\ map view_part ps' = hears c (tells c) (map view_part ps) /\
    all_kids ps' us' ≡ₚ c :: all_kids ps us.
Proof.
  intros R Hc. set (n := calloc (pg_nodes g)). pose proof (add_repr ps us n c g R (calloc_new _) Hc) as R1.
  destruct (hear_run (tells c) ps ((n, c) :: us) n c _ R1) as (ps' & us' & g' & E & R' & Ev & Ek); [right; apply list_elem_of_here|].
  exists ps', us', g'. split; [exact E|]. split; [done|]. split; [done|]. rewrite Ek. unfold all_kids. cbn. by rewrite Permutation_middle.
Qed.

(** The list of nodes and the tags do not matter to a node that leaves. *)
Definition with_list (l : list nat) (T : tags nat) (g : grouper) : grouper := set_tags T (set_nodes l (pg_map g) g).

Lemma unset_frame n l T g h : node_unset n g = Ok (tt, h) -> node_unset n (with_list l T g) = Ok (tt, with_list l T h) /\ pg_nodes h = pg_nodes g /\ pg_tags h = pg_tags g /\ pg_map h = pg_map g.
Proof.
  unfold node_unset, get_node, mbind, H_bind, mret, H_ret, gets, modify, group_destroy, not_null, fault. cbn.
  destruct (pg_map g !! n) as [[c [o|] [r|]]|]; cbn; [| | | |done].
  - destruct (List.find _ _) as [x|]; [|done]. cbn. by destruct (pgg_entries x); cbn; intros [= <-].
  - by intros [= <-].
  - destruct (List.find _ _) as [x|]; [|done]. cbn. by destruct (pgg_entries x); cbn; intros [= <-].
  - by intros [= <-].
Qed.

(** A node that is gone. *)
Lemma drop_repr ps us n c g T : loose ps us n c g -> (forall e, e <> c -> prop_tag_get T e key = prop_tag_get (pg_tags g) e key) ->
  repr ps us (set_nodes (unlink n (pg_nodes g)) (delete n (pg_map g)) (set_tags T g)).
Proof.
  intros [R _] HT. pose proof (rp_nodup _ _ _ R) as Hd. apply nodes_once in Hd as [Hn Hd]. pose proof (rp_kids _ _ _ R) as Hk. apply kids_once in Hk as [Hc Hk].
  assert (forall m e o, (m, e, o) ∈ grouped ps -> m <> n /\ e <> c) as Hg.
  { intros m e o Hm. split; intros ->; [apply Hn|apply Hc]; apply elem_of_app; left; [by apply (list_elem_of_fmap_2 p_node _ (n, e, o))|by apply (list_elem_of_fmap_2 p_child _ (m, c, o))]. }
  assert (forall m e, (m, e) ∈ us -> m <> n /\ e <> c) as Hu.
  { intros m e Hm. split; intros ->; [apply Hn|apply Hc]; apply elem_of_app; right; [by apply (list_elem_of_fmap_2 fst _ (n, e))|by apply (list_elem_of_fmap_2 snd _ (m, c))]. }
  pose proof (rp_nodes _ _ _ R) as HN. cbn in HN.
  split; try by destruct R.
  - cbn. assert (NoDup (pg_nodes g)) as HdN by (rewrite HN; apply (rp_nodup _ _ _ R)).
    assert (n ∈ pg_nodes g) as Hin by (rewrite HN; apply elem_of_app; right; apply list_elem_of_here). apply list_elem_of_split in Hin as (l1 & l2 & El). rewrite El in *.
    apply NoDup_app in HdN as (_ & N1 & [N2 _]%NoDup_cons). rewrite unlink_mid; [|intros Hi; apply (N1 n Hi), list_elem_of_here|done].
    apply (Permutation_cons_inv (a := n)). rewrite Permutation_middle, HN. unfold all_nodes. cbn. by rewrite Permutation_middle.
  - intros r m e o Hm. cbn. destruct (Hg m e o) as [Hne _]; [by apply grouped_part; exists r|]. rewrite lookup_delete_ne by done.
    pose proof (rp_in _ _ _ R r m e o Hm) as H. cbn in H. by rewrite lookup_insert_ne in H.
  - intros m e Hm. cbn. destruct (Hu m e Hm) as [Hne _]. rewrite lookup_delete_ne by done.
    pose proof (rp_un _ _ _ R m e (list_elem_of_further _ _ _ Hm)) as H. cbn in H. by rewrite lookup_insert_ne in H.
  - intros m Hm. cbn in Hm. apply lookup_delete_is_Some in Hm as [Hne Hm].
    assert (m ∈ all_nodes ps ((n, c) :: us)) as H by (apply (rp_dom _ _ _ R); cbn; by rewrite lookup_insert_ne).
    unfold all_nodes in *. cbn in H. rewrite elem_of_app, elem_of_cons in H. apply elem_of_app. destruct H as [?|[->|?]]; [by left|done|by right].
  - intros m e Hm. cbn. rewrite HT.
    + apply (rp_tags _ _ _ R). destruct Hm as [?|?]; [by left|right; by apply list_elem_of_further].
    + destruct Hm as [[o Hm]|Hm]; [by apply (Hg m e o)|by apply (Hu m e)].
Qed.

Lemma del_node_run ps us n c T g : repr ps us g -> is_node ps us n c -> (forall e, e <> c -> prop_tag_get T e key = prop_tag_get (pg_tags g) e key) ->
  exists ps' us' g', pg_del_node n (set_tags T g) = Ok (tt, g') /\ repr ps' us' g' /\ map view_part ps' = leave c (map view_part ps) /\
    all_kids ps us ≡ₚ c :: all_kids ps' us' /\ pg_nodes g' = unlink n (pg_nodes g).
Proof.
  intros R Hn HT. destruct (unset_any ps us n c g R Hn) as (ps1 & us1 & h & E & Hl & Ev & Ek & _).
  destruct (unset_frame n (unlink n (pg_nodes g)) T g h E) as (E' & En & Et & _).
  exists ps1, us1, (set_nodes (unlink n (pg_nodes h)) (delete n (pg_map h)) (set_tags T h)). split; [|split; [|split; [done|split; [|by rewrite <- En]]]].
  - unfold pg_del_node. set (g0 := set_tags T g). rewrite (h_bind _ _ _ _ _ (eq_refl : gets pg_nodes g0 = Ok (pg_nodes g, g0))), (h_bind _ _ _ _ _ (eq_refl : gets pg_map g0 = Ok (pg_map g, g0))).
    rewrite (h_bind _ _ tt g0 (with_list (unlink n (pg_nodes g)) T g)) by done. rewrite (h_bind _ _ _ _ _ E'). unfold mbind, H_bind, gets, modify. cbn. by rewrite En.
  - apply (drop_repr ps1 us1 n c h T Hl). intros e He. by rewrite Et, HT.
  - rewrite Ek. unfold all_kids. cbn. by rewrite Permutation_middle.
Qed.

Lemma node_of ps us c : c ∈ all_kids ps us -> exists n, is_node ps us n c.
Proof.
  intros [Hc|Hc]%elem_of_app; apply list_elem_of_fmap_1 in Hc as (x & -> & Hx).
  - destruct x as [[n c] o]. exists n. left. by exists o.
  - destruct x as [n c]. exists n. by right.
Qed.

Lemma node_tag ps us n c g : repr ps us g -> is_node ps us n c -> prop_tag_get (pg_tags g) c key = Some n.
Proof. intros R Hn. by apply (rp_tags _ _ _ R). Qed.

Lemma clear_tag_run c g n : prop_tag_get (pg_tags g) c key = Some n -> clear_tag c g = Ok (Some n, set_tags (prop_tag_clear c key (pg_tags g)).2 g).
Proof.
  intros E. unfold clear_tag. rewrite (h_bind _ _ _ _ _ (eq_refl : gets pg_tags g = Ok (_, g))). pose proof (tag_clear_get c key (pg_tags g)) as Hg. rewrite E in Hg.
  destruct (prop_tag_clear c key (pg_tags g)) as [x T]. cbn in Hg. by subst x.
Qed.

Lemma child_gone tells ps us c g : repr ps us g -> c ∈ all_kids ps us ->
  exists ps' us' g', src_cb tells (DelChild c) g = Ok (tt, g') /\ repr ps' us' g' /\ map view_part ps' = leave c (map view_part ps) /\
    all_kids ps us ≡ₚ c :: all_kids ps' us'.
Proof.
  intros R Hc. destruct (node_of ps us c Hc) as [n Hn]. set (T := (prop_tag_clear c key (pg_tags g)).2).
  destruct (del_node_run ps us n c T g R Hn) as (ps' & us' & g' & E & R' & Ev & Ek & _); [intros e He; apply tag_clear_ne; by left|].
  exists ps', us', g'. split; [|done]. cbn [src_cb]. rewrite (h_bind _ _ _ _ _ (clear_tag_run c g n (node_tag ps us n c g R Hn))). by rewrite (h_bind _ _ n _ _ eq_refl).
Qed.

Lemma node_known ps us n g : repr ps us g -> n ∈ pg_nodes g -> exists c x, is_node ps us n c /\ pg_map g !! n = Some x /\ pgn_in x = c.
Proof.
  intros R Hn. rewrite (rp_nodes _ _ _ R) in Hn. apply elem_of_app in Hn as [Hn|Hn]; apply list_elem_of_fmap_1 in Hn as (x & -> & Hx).
  - destruct x as [[n c] o]. pose proof Hx as Hp. apply grouped_part in Hp as [r Hp]. exists c, (Node c (Some o) (Some r)). split; [left; by exists o|]. split; [|done]. by apply (rp_in _ _ _ R).
  - destruct x as [n c]. exists c, (Node c None None). split; [by right|]. split; [|done]. by apply (rp_un _ _ _ R).
Qed.

Lemma cleared_run ps us g : repr ps us g -> exists g', pg_clear g = Ok (tt, g') /\ repr [] [] g'.
Proof.
  intros R. unfold pg_clear. rewrite (h_bind _ _ _ _ _ (eq_refl : gets pg_nodes g = Ok (_, g))). remember (pg_nodes g) as l eqn:El. revert ps us g R El.
  induction l as [|n l IH]; intros ps us g R El.
  - exists g. split; [done|]. pose proof (rp_nodes _ _ _ R) as Hn. rewrite <- El in Hn. apply Permutation_nil in Hn. unfold all_nodes in Hn. apply app_eq_nil in Hn as [H1 H2].
    assert (us = []) as -> by by destruct us. destruct ps as [|a ps]; [done|]. exfalso. apply (rp_full _ _ _ R a (list_elem_of_here _ _)).
    rewrite grouped_cons, map_app in H1. apply app_eq_nil in H1 as [H1 _]. by destruct (pt_list a).
  - assert (n ∈ pg_nodes g) as Hn by (rewrite <- El; apply list_elem_of_here). destruct (node_known ps us n g R Hn) as (c & x & Hc & Ex & Ec).
    set (T := (prop_tag_clear c key (pg_tags g)).2).
    destruct (del_node_run ps us n c T g R Hc) as (ps' & us' & g' & E & R' & _ & _ & En); [intros e He; apply tag_clear_ne; by left|].
    assert (l = pg_nodes g') as El'.
    { rewrite En, <- El. pose proof (rp_nodup _ _ _ R) as Hd. rewrite <- (rp_nodes _ _ _ R), <- El in Hd. apply NoDup_cons in Hd as [Hd _]. symmetry. apply (unlink_mid n [] l); [apply not_elem_of_nil|done]. }
    destruct (IH ps' us' g' R' El') as (g2 & E2 & R2). exists g2. split; [|done]. cbn [for_each]. rewrite (h_bind _ _ tt g g'); [done|].
    rewrite (h_bind _ _ _ _ _ (node_found _ _ _ Ex)), Ec. by rewrite (h_bind _ _ _ _ _ (clear_tag_run c g n (node_tag ps us n c g R Hc))).
Qed.

Lemma children_added tells cs : forall ps us g, repr ps us g -> NoDup (all_kids ps us ++ cs) ->
  exists ps' us' g', pg_add_nodes tells cs g = Ok (tt, g') /\ repr ps' us' g' /\
    map view_part ps' = foldl (fun gs c => hears c (tells c) gs) (map view_part ps) cs /\ all_kids ps' us' ≡ₚ all_kids ps us ++ cs.
Proof.
  unfold pg_add_nodes. induction cs as [|c cs IH]; intros ps us g R Hd; [exists ps, us, g; by rewrite app_nil_r|].
  destruct (child_added tells ps us c g R) as (ps1 & us1 & g1 & E1 & R1 & Ev1 & Ek1).
  { apply NoDup_app in Hd as (_ & N & _). intros Hc. apply (N c Hc), list_elem_of_here. }
  destruct (IH ps1 us1 g1 R1) as (ps2 & us2 & g2 & E2 & R2 & Ev2 & Ek2); [rewrite Ek1; cbn; by rewrite Permutation_middle|].
  exists ps2, us2, g2. cbn [for_each]. rewrite (h_bind _ _ _ _ _ E1). split; [done|]. split; [done|]. cbn [foldl]. rewrite Ev2, Ev1. split; [done|].
  rewrite Ek2, Ek1. cbn. by rewrite Permutation_middle.
Qed.

(** * All that can happen *)

(** The source is told of its children, each subscription made then telling
    [tells]; and a child tells its group. *)
Inductive gcall := GTell (tells : pid -> list pevent) (e : pevent) | GKey (c : pid) (e : pevent).

Definition run_call (x : gcall) : H grouper unit :=
  match x with
  | GTell tells e => src_cb tells e
  | GKey c e => T ← gets pg_tags; n ← not_null (prop_tag_get T c key); node_set_group n e
  end.

(** What the source can tell: what a subscription to a directory is told, but
    not that there are more children, which [src_cb] does not know. *)
Definition can (w : pview) (x : gcall) : Prop :=
  match x with
  | GTell _ e => told_kids w e /\ match e with HaveMoreChilds _ => False | _ => True end
  | GKey c _ => c ∈ kids_of w
  end.
Definition sees (w : pview) (x : gcall) : pview := match x with GTell _ e => view_event w e | GKey _ _ => w end.

Fixpoint cans (w : pview) (xs : list gcall) : Prop := match xs with [] => True | x :: xs => can w x /\ cans (sees w x) xs end.

(** The groups that are to be shown. *)
Definition want (gs : groups) (x : gcall) : groups :=
  match x with
  | GTell tells (AddChild c _) | GTell tells (AddChildBefore c _) => hears c (tells c) gs
  | GTell tells (AddChildVectorDirect cs) => foldl (fun gs c => hears c (tells c) gs) gs cs
  | GTell _ (DelChild c) => leave c gs
  | GTell _ (SetVoid _) => []
  | GTell _ _ => gs
  | GKey c e => tell c (event_group e) gs
  end.

(** The groups that are shown, with the children that their nodes link to. *)
Definition shows (g : grouper) : groups :=
  omap (fun r => h ← List.find (fun h => bool_decide (pgg_root h = r)) (pg_groups g);
                 Some (pgg_name h, map (fun o => default o (pg_links g !! o)) (pgg_nodes h))) (pg_dst g).

Lemma shown_groups ps us g : repr ps us g -> shows g = map view_part ps.
Proof.
  intros R. unfold shows. rewrite (rp_dst _ _ _ R), (rp_groups _ _ _ R).
  assert (forall a, a ∈ ps -> List.find (fun h => bool_decide (pgg_root h = pt_root a)) (rev (map group_of ps)) = Some (group_of a) /\
    map (fun o => default o (pg_links g !! o)) (map p_out (pt_list a)) = map p_child (pt_list a)) as H.
  { intros a Ha. split.
    - pose proof (rp_roots _ _ _ R) as Hr. apply list_elem_of_split in Ha as (P1 & P2 & ->). by apply find_root.
    - rewrite map_map. apply map_ext_in. intros [[n c] o] Hx%list_elem_of_In. cbn. rewrite (rp_links _ _ _ R n c o); [done|]. apply grouped_part. exists (pt_root a), a. done. }
  revert H. generalize (rev (map group_of ps)) as G. intros G. generalize ps as qs. induction qs as [|a qs IH]; intros H; [done|].
  destruct (H a (list_elem_of_here _ _)) as [H1 H2]. cbn [map omap list_omap]. rewrite H1. cbn [mbind option_bind group_of pgg_name pgg_nodes]. rewrite H2. f_equal.
  apply IH. intros b Hb. apply H. by apply list_elem_of_further.
Qed.

Lemma call_run w ps us g x : repr ps us g -> all_kids ps us ≡ₚ kids_of w -> can w x ->
  exists ps' us' g', run_call x g = Ok (tt, g') /\ repr ps' us' g' /\ all_kids ps' us' ≡ₚ kids_of (sees w x) /\ map view_part ps' = want (map view_part ps) x.
Proof.
  intros R HP Hc. pose proof (rp_kids _ _ _ R) as Hd. destruct x as [tells e|c e]; cbn [run_call sees want can] in *.
  - destruct Hc as [Ht Hm]. destruct e as [| | | | | | | |c sel|c b|cs|c|c b| | | | | | | |yes]; cbn [told_kids view_event src_cb] in *; try done.
    + destruct (cleared_run ps us g R) as (g' & E & R'). exists [], [], g'. by split.
    + exists ps, us, g. split; [done|]. split; [done|]. split; [|done]. cbn. by rewrite HP, Ht.
    + destruct (child_added tells ps us c g R) as (ps' & us' & g' & E & R' & Ev & Ek); [rewrite HP; apply Ht|]. exists ps', us', g'. split; [done|]. split; [done|]. split; [|done].
      rewrite Ek, HP, (view_dir w (proj1 Ht)). cbn. apply Permutation_cons_append.
    + destruct Ht as (Hw & Hb & Hc). destruct (child_added tells ps us c g R) as (ps' & us' & g' & E & R' & Ev & Ek); [by rewrite HP|].
      exists ps', us', g'. split; [done|]. split; [done|]. split; [|done]. destruct b as [b|]; [|done]. destruct (place_some b c (kids_of w) Hb) as [l El].
      rewrite Ek, HP, (view_dir w Hw). cbn [with_dir kids_of]. rewrite El. cbn. by rewrite (place_perm' _ _ _ _ El).
    + destruct Ht as [Hw Hcs]. destruct (children_added tells cs ps us g R) as (ps' & us' & g' & E & R' & Ev & Ek); [by rewrite HP|].
      exists ps', us', g'. split; [done|]. split; [done|]. split; [|done]. rewrite Ek, HP. by rewrite (view_dir w Hw) at 2.
    + assert (is_view_dir w) as Hw by (destruct w; try done; by apply elem_of_nil in Ht). destruct (child_gone tells ps us c g R) as (ps' & us' & g' & E & R' & Ev & Ek); [by rewrite HP|].
      exists ps', us', g'. split; [done|]. split; [done|]. split; [|done]. rewrite (view_dir w Hw). cbn [with_dir kids_of].
      rewrite HP in Hd, Ek. rewrite Ek in Hd. apply NoDup_cons in Hd as [Hn _]. unfold unlink. rewrite Ek. rewrite filter_cons_False by naive_solver. symmetry. by rewrite <- (unlink_notin c _ Hn) at 2.
    + assert (is_view_dir w) as Hw by (destruct w; try done; by destruct Ht as [?%elem_of_nil _]). exists ps, us, g. split; [done|]. split; [done|]. split; [|done].
      rewrite HP, (view_dir w Hw). cbn [with_dir kids_of]. destruct (place b c (unlink c (kids_of w))) as [l|] eqn:El; [|done]. cbn [kids_of]. rewrite (place_perm' _ _ _ _ El).
      destruct Ht as [Hi _]. rewrite HP in Hd. by apply perm_unlink.
    + exists ps, us, g. by split.
  - destruct (node_of ps us c) as [n Hn]; [by rewrite HP|]. destruct (update_run ps us n c (event_group e) g R Hn) as (ps' & us' & g' & E & R' & Ev & Ek & _).
    exists ps', us', g'. split; [|split; [done|split; [by rewrite Ek|done]]]. rewrite (h_bind _ _ _ _ _ (eq_refl : gets pg_tags g = Ok (_, g))).
    rewrite (node_tag ps us n c g R Hn). by rewrite (h_bind _ _ n _ _ eq_refl).
Qed.

Lemma create_repr : repr [] [] (prop_grouper_create base).
Proof.
  split; cbn; try done; try apply NoDup_nil_2; try (intros; by match goal with H : _ ∈ [] |- _ => apply elem_of_nil in H end).
  - by intros r n c o (a & ?%elem_of_nil & _).
  - intros n [x E]. by rewrite lookup_empty in E.
  - intros n c [[o ?%elem_of_nil]|?%elem_of_nil]; done.
Qed.

Lemma destroy_run ps us g : repr ps us g -> exists g', prop_grouper_destroy g = Ok (tt, g').
Proof.
  intros R. destruct (cleared_run ps us g R) as (g' & E & R'). exists g'. unfold prop_grouper_destroy. rewrite (h_bind _ _ _ _ _ E).
  rewrite (h_bind _ _ _ _ _ (eq_refl : gets pg_nodes g' = Ok (_, g'))), (h_bind _ _ _ _ _ (eq_refl : gets pg_groups g' = Ok (_, g'))).
  pose proof (rp_nodes _ _ _ R') as Hn. apply Permutation_nil_r in Hn. pose proof (rp_groups _ _ _ R') as Hg. cbn in Hg. by rewrite Hn, Hg.
Qed.

Lemma calls_run xs : forall w ps us g, repr ps us g -> all_kids ps us ≡ₚ kids_of w -> cans w xs ->
  exists ps' us' g', for_each xs run_call g = Ok (tt, g') /\ repr ps' us' g' /\ all_kids ps' us' ≡ₚ kids_of (foldl sees w xs) /\ map view_part ps' = foldl want (map view_part ps) xs.
Proof.
  induction xs as [|x xs IH]; intros w ps us g R HP Hc; [by exists ps, us, g|]. destruct Hc as [Hx Hc].
  destruct (call_run w ps us g x R HP Hx) as (ps1 & us1 & g1 & E1 & R1 & HP1 & Ev1). destruct (IH _ ps1 us1 g1 R1 HP1 Hc) as (ps2 & us2 & g2 & E2 & R2 & HP2 & Ev2).
  exists ps2, us2, g2. cbn [for_each foldl]. rewrite (h_bind _ _ _ _ _ E1). split; [done|]. split; [done|]. split; [done|]. by rewrite Ev2, Ev1.
Qed.

(** ** Which group a child is in *)

(** The group that a child has told last. *)
Notation said := (pid -> option (list Z)).
Definition put (c : pid) (o : option (list Z)) (m : said) : said := fun d => if decide (d = c) then o else m d.
Definition heard (c : pid) (es : list pevent) (m : said) : said := foldl (fun m e => put c (event_group e) m) m es.
Definition says (m : said) (x : gcall) : said :=
  match x with
  | GTell tells (AddChild c _) | GTell tells (AddChildBefore c _) => heard c (tells c) m
  | GTell tells (AddChildVectorDirect cs) => foldl (fun m c => heard c (tells c) m) m cs
  | GTell _ (DelChild c) => put c None m
  | GTell _ (SetVoid _) => fun _ => None
  | GTell _ _ => m
  | GKey c e => put c (event_group e) m
  end.

Definition sits (gs : groups) (c : pid) (nm : list Z) : Prop := exists cs, (nm, cs) ∈ gs /\ c ∈ cs.

Lemma leave_sits c gs d nm : sits (leave c gs) d nm <-> sits gs d nm /\ d <> c.
Proof.
  unfold sits, leave. split.
  - intros (cs & Hi & Hd). apply list_elem_of_omap in Hi as ([nm' cs'] & Hi & E). cbn [fst snd] in E. destruct (unlink c cs') as [|x l] eqn:El; [done|]. injection E as -> <-.
    rewrite <- El, elem_unlink in Hd. destruct Hd. split; [by exists cs'|done].
  - intros [(cs & Hi & Hd) Hne]. exists (unlink c cs). assert (d ∈ unlink c cs) as Hu by by rewrite elem_unlink. split; [|done].
    apply list_elem_of_omap. exists (nm, cs). split; [done|]. cbn [fst snd]. destruct (unlink c cs) eqn:El; [by apply elem_of_nil in Hu|done].
Qed.

Lemma enter_sits c nm gs d nm' : sits (enter c nm gs) d nm' <-> (d = c /\ nm' = nm) \/ sits gs d nm'.
Proof.
  assert (forall g gs, sits (g :: gs) d nm' <-> (g.1 = nm' /\ d ∈ g.2) \/ sits gs d nm') as Hcons.
  { intros [n l] hs. unfold sits. split.
    - intros (cs & [[= <- <-]|Hi]%elem_of_cons & Hd); [by left|right; by exists cs].
    - intros [[<- Hd]|(cs & Hi & Hd)]; [exists l; split; [apply list_elem_of_here|done]|exists cs; split; [by apply list_elem_of_further|done]]. }
  assert (~ sits [] d nm') as Hnil by by intros (cs & ?%elem_of_nil & _).
  induction gs as [|g gs IH]; cbn [enter].
  - rewrite Hcons. cbn. rewrite list_elem_of_singleton. split; [intros [[-> ->]|?]; [by left|done]|intros [[-> ->]|?]; [by left|done]].
  - destruct (decide (g.1 = nm)) as [E|E]; rewrite !Hcons; cbn.
    + rewrite elem_of_app, list_elem_of_singleton. rewrite E. split.
      * intros [[-> [?| ->]]|?]; auto.
      * intros [[-> ->]|[[-> ?]|?]]; auto.
    + rewrite IH. tauto.
Qed.

Definition placed (gs : groups) (m : said) : Prop := forall c nm, sits gs c nm <-> m c = Some nm.

Lemma leave_placed c gs m : placed gs m -> placed (leave c gs) (put c None m).
Proof. intros H d nm. rewrite leave_sits, (H d nm). unfold put. destruct (decide (d = c)); [|tauto]. split; [by intros [_ ?]|done]. Qed.

Lemma tell_placed c o gs m : placed gs m -> placed (tell c o gs) (put c o m).
Proof.
  intros H. pose proof (leave_placed c gs m H) as Hl. destruct o as [nm|]; [|exact Hl]. intros d nm'. cbn [tell]. rewrite enter_sits, (Hl d nm').
  unfold put. destruct (decide (d = c)) as [->|]; [|tauto]. split; [by intros [[_ ->]|?]|]. intros [= ->]. by left.
Qed.

Lemma hears_placed c es gs m : placed gs m -> placed (hears c es gs) (heard c es m).
Proof. revert gs m. induction es as [|e es IH]; intros gs m H; [done|]. cbn. by apply IH, tell_placed. Qed.

Lemma want_placed x gs m : placed gs m -> placed (want gs x) (says m x).
Proof.
  intros H. destruct x as [tells e|c e]; cbn [want says]; [|by apply tell_placed].
  destruct e as [| | | | | | | |c sel|c b|cs|c|c b| | | | | | | |yes]; try done; try by apply hears_placed; try by apply leave_placed.
  - intros c nm. split; [|done]. by intros (cs & ?%elem_of_nil & _).
  - revert gs m H. induction cs as [|c cs IH]; intros gs m H; [done|]. cbn. by apply IH, hears_placed.
  - by apply leave_placed.
Qed.

Lemma all_placed xs : forall gs m, placed gs m -> placed (foldl want gs xs) (foldl says m xs).
Proof. induction xs as [|x xs IH]; intros gs m H; [done|]. cbn. by apply IH, want_placed. Qed.
End grouper.


