(* ===== verification/PropDestroy.v ===== *)
(** The destruction of a property, on worlds: what becomes of the tree below
    it, of its subscriptions, and of their views. *)
From S2P Require Import Prelude PropStore PropTree PropSub PropLogic PropWorld PropQueue PropWf PropMirror.

Local Open Scope Z_scope.

(** * Notifications on worlds *)

Section world.
Context {D : ptree} {LP : list (option pid)} {LS : list sid}.
Context {A : ptree} {S : psubs} {E : sid -> list pevent}.

Lemma at_subscribed st p x : at_ D LP LS A S E st -> wf_subs A S -> A !! p = Some x ->
  subscribed (stree st) p (hp_value_subscriptions x).
Proof.
  intros H HS Ex. assert (vsubs A p = hp_value_subscriptions x) as Hv by (unfold vsubs; by rewrite Ex). rewrite <- Hv.
  split; [apply (s_vnodup _ _ HS)|]. intros s (y & Hy & Hp)%(s_value _ _ HS). exists y. split; [|done]. by apply (at_stree _ _ _ H).
Qed.

Lemma wp_w_child p x e skipme (Q : unit -> store -> Prop) st :
  at_ D LP LS A S E st -> wf_subs A S -> A !! p = Some x -> child_event e ->
  (forall q, Some q ∈ event_props e -> is_Some (A !! q) \/ is_Some (D !! q)) ->
  (forall st', at_ D LP LS A S (fun s => E s ++ among (hp_value_subscriptions x) (unless skipme (vis e)) s) st' -> Q tt st') ->
  wp (prop_notify_child p e skipme) Q st.
Proof.
  intros H HS Ex He Hq HQ. destruct (at_subscribed _ _ _ H HS Ex) as [Hnd Hs].
  eapply wp_mono; [apply (wp_notify_child LP LS st p x)|].
  - apply H.
  - by apply (at_tree _ _ _ H).
  - done.
  - intros s Hin. destruct (Hs s Hin) as (y & -> & _). by eexists.
  - done.
  - intros q Hin. destruct (Hq q Hin) as [[z Hz]|[z Hz]].
    + rewrite (at_tree _ _ _ H Hz). by eexists.
    + destruct (at_dying _ _ _ _ _ _ _ H _ _ Hz) as [-> _]. by eexists.
  - intros [] st' [Hc Hn]. apply HQ. by apply (at_notified _ _ _ _ _ H).
Qed.

Lemma wp_w_value p x skipme how (Q : unit -> store -> Prop) st :
  at_ D LP LS A S E st -> wf_subs A S -> A !! p = Some x -> ok_prop x ->
  (forall st', at_ D LP LS A S (fun s => E s ++ among (hp_value_subscriptions x)
     (fun s => unless skipme (value_notes S p (hp_val x) how s) s) s) st' -> Q tt st') ->
  wp (prop_notify_value p skipme how) Q st.
Proof.
  intros H HS Ex Hok HQ. pose proof (at_subscribed _ _ _ H HS Ex) as Hs.
  eapply wp_mono; [apply (wp_notify_value LP LS st p x skipme how)|].
  - apply H.
  - by apply (at_tree _ _ _ H).
  - apply Hok.
  - apply Hok.
  - done.
  - intros [] st' [Hc Hn]. apply HQ. eapply at_ext; [by apply (at_notified _ _ _ _ _ H Hc Hn)|].
    intros s [y Hy]. f_equal. unfold among, unless, value_notes. by rewrite (at_stree _ _ _ H Hy), Hy.
Qed.

Lemma wp_w_edit p x cs sel f cs' (Q : unit -> store -> Prop) st :
  at_ D LP LS A S E st -> A !! p = Some x -> hp_val x = PDir cs sel -> f cs = Some cs' ->
  (forall st', at_ D LP LS (<[p := set_val (PDir cs' sel) x]> A) S E st' -> Q tt st') -> wp (edit_childs p f) Q st.
Proof.
  intros H Ex Hv Hf HQ. unfold edit_childs. apply wp_bind. eapply wp_at_get; [done..|]. intros x0 E0 ->.
  change (hp_val (tprop x0)) with (hp_val x0) in Hv. rewrite Hv, Hf.
  eapply (wp_at_put p x0); [done|done|by rewrite Hv|done|done|]. intros st'. apply HQ.
Qed.

(** A selected child that is taken out is no longer selected. *)
Definition unselect (c : pid) (sel : option pid) : option pid :=
  match sel with Some d => if decide (d = c) then None else sel | None => None end.

Lemma wp_w_deselect p x cs sel c (Q : unit -> store -> Prop) st :
  at_ D LP LS A S E st -> A !! p = Some x -> hp_val x = PDir cs sel ->
  (forall st', at_ D LP LS (<[p := set_val (PDir cs (unselect c sel)) x]> A) S E st' -> Q tt st') -> wp (deselect p c) Q st.
Proof.
  intros H Ex Hv HQ. unfold deselect. apply wp_bind. eapply wp_at_get; [done..|]. intros x0 E0 ->.
  change (hp_val (tprop x0)) with (hp_val x0) in Hv. rewrite Hv.
  assert (set_val (PDir cs sel) (tprop x0) = tprop x0) as Hsame by (destruct x0; simpl in *; by subst).
  unfold unselect in HQ. destruct sel as [d|]; [destruct (decide (d = c)) as [->|]|].
  - eapply (wp_at_put p x0); [done|done|by rewrite Hv|done|done|]. intros st'. apply HQ.
  - apply wp_ret, HQ. by rewrite Hsame, insert_id.
  - apply wp_ret, HQ. by rewrite Hsame, insert_id.
Qed.

End world.

Lemma insert_fmap_pull (S : psubs) s y (f g : sub -> sub) : S !! s = Some y -> g (f y) = g y ->
  g <$> <[s := f y]> S = g <$> S.
Proof.
  intros Hy Hg. apply map_eq. intros t. rewrite !lookup_fmap. destruct (decide (s = t)) as [<-|Hne].
  - rewrite lookup_insert_eq, Hy. simpl. by rewrite Hg.
  - by rewrite lookup_insert_ne.
Qed.

(** * The end of a property *)

Definition forget_v (p : pid) (y : sub) : sub :=
  if decide (hps_value_prop y = Some p) then sub_set_value None y else y.
Definition forget_c (p : pid) (y : sub) : sub :=
  if decide (hps_canonical_prop y = Some p) then sub_set_canonical None y else y.

Lemma forget_both p (S : psubs) : forget_v p <$> (forget_c p <$> S) = forget p <$> S.
Proof.
  rewrite <- map_fmap_compose. apply map_fmap_ext. intros s y _. simpl. unfold forget_v, forget_c, forget.
  destruct y; simpl. repeat (case_decide; simpl; try done).
Qed.

(** What the subscriptions of a property are told when it goes. *)
Definition void_notes (S : psubs) (p : pid) (s : sid) : list pevent :=
  match S !! s with
  | Some y => if decide (hps_value_prop y = Some p) then void_note y else []
  | None => []
  end.

Lemma unlink_head s l : NoDup (s :: l) -> unlink s (s :: l) = l.
Proof.
  intros Hnd. apply NoDup_cons in Hnd as [Hs _]. unfold unlink. rewrite filter_cons_False by by intros [].
  induction l as [|t l IH]; [done|]. rewrite filter_cons_True; [rewrite IH; set_solver|]. set_solver.
Qed.

Lemma wp_lose_canonical LP LS A E p x l S st (Q : unit -> store -> Prop) :
  at_ {[p := set_csubs l x]} LP LS A S E st -> is_zombie (hp_val x) = true -> NoDup l ->
  (forall s, s ∈ l <-> exists y, S !! s = Some y /\ hps_canonical_prop y = Some p) ->
  (forall st', at_ {[p := set_csubs [] x]} LP LS A (forget_c p <$> S) E st' -> Q tt st') ->
  wp (forM l (lose_canonical p)) Q st.
Proof.
  revert S st. induction l as [|s l IH]; intros S st H Hz Hnd Hl HQ.
  - apply wp_ret, HQ. assert (forget_c p <$> S = S) as ->; [|done].
    rewrite <- (map_fmap_id S) at 2. apply map_fmap_ext. intros s y Hy. simpl. unfold forget_c. destruct (decide _) as [Hc|]; [|done].
    assert (s ∈ []) as Hin by (apply Hl; by exists y). by apply elem_of_nil in Hin.
  - destruct (proj1 (Hl s)) as (y & Hy & Hc); [by left|]. apply wp_bind.
    assert (set_csubs (unlink s (s :: l)) (set_csubs (s :: l) x) = set_csubs l x) as Hx by (by rewrite unlink_head).
    unfold lose_canonical. apply wp_bind. eapply wp_at_upd_dying; [exact H|apply lookup_singleton_eq|done|done|].
    intros st1 H1. cbn [hp_canonical_subscriptions] in H1. rewrite insert_singleton_eq in H1.
    change (at_ {[p := set_csubs (unlink s (s :: l)) (set_csubs (s :: l) x)]} LP LS A S E st1) in H1. rewrite Hx in H1.
    apply wp_bind. eapply wp_at_upd_sub; [exact H1|done|done|by apply (at_slive _ _ _ H1 Hy)|]. intros st2 H2.
    apply wp_bind. eapply wp_at_get_sub; [exact H2|apply lookup_insert_eq|]. intros y0 E0 _.
    assert (forall st3, at_ {[p := set_csubs l x]} LP LS A (<[s := sub_set_canonical None y]> S) E st3 ->
      wp (forM l (lose_canonical p)) Q st3) as Hrest.
    { intros st3 H3. apply NoDup_cons in Hnd as [Hs Hnd]. apply (IH _ st3 H3); [done|done| |].
      - intros t. destruct (decide (s = t)) as [<-|Hne].
        + rewrite lookup_insert_eq. split; [done|]. by intros (z & [= <-] & ?).
        + rewrite lookup_insert_ne by done. rewrite <- Hl. set_solver.
      - intros st4 H4. apply HQ. rewrite insert_fmap_pull in H4; [done|done|].
        unfold forget_c. cbn [hps_canonical_prop sub_set_canonical]. rewrite decide_False, decide_True by done. done. }
    destruct (sf_track_destroy (hps_flags y0) || sf_track_destroy_exp (hps_flags y0)); [|by apply wp_ret, Hrest].
    eapply wp_mono; [apply (wp_notify_destroyed LP LS); [apply H2|]|].
    + rewrite (stree_lookup _ _ _ E0). by eexists.
    + intros [] st3 [Hc3 Hn3]. apply Hrest. eapply at_ext; [by apply (at_notified _ _ _ _ _ H2 Hc3 Hn3)|].
      intros t _. simpl. by rewrite app_nil_r.
Qed.

Lemma wp_lose_value LP LS A E p x l S st (Q : unit -> store -> Prop) :
  at_ {[p := set_vsubs l x]} LP LS A S E st -> is_zombie (hp_val x) = true -> NoDup l ->
  (forall s, s ∈ l <-> exists y, S !! s = Some y /\ hps_value_prop y = Some p) ->
  (forall st', at_ {[p := set_vsubs [] x]} LP LS A (forget_v p <$> S) (fun s => E s ++ void_notes S p s) st' -> Q tt st') ->
  wp (forM l (lose_value p)) Q st.
Proof.
  revert S E st. induction l as [|s l IH]; intros S E st H Hz Hnd Hl HQ.
  - apply wp_ret, HQ.
    assert (forall s y, S !! s = Some y -> hps_value_prop y <> Some p) as Hno.
    { intros s y Hy Hv. assert (s ∈ []) as Hin by (apply Hl; by exists y). by apply elem_of_nil in Hin. }
    assert (forget_v p <$> S = S) as ->.
    { rewrite <- (map_fmap_id S) at 2. apply map_fmap_ext. intros s y Hy. simpl. unfold forget_v.
      by rewrite decide_False by by apply (Hno s). }
    eapply at_ext; [done|]. intros s [y Hy]. unfold void_notes. rewrite Hy, decide_False by by apply (Hno s). by rewrite app_nil_r.
  - destruct (proj1 (Hl s)) as (y & Hy & Hv); [by left|]. apply wp_bind.
    assert (set_vsubs (unlink s (s :: l)) (set_vsubs (s :: l) x) = set_vsubs l x) as Hx by (by rewrite unlink_head).
    unfold lose_value. apply wp_bind.
    eapply wp_mono; [apply (wp_notify_void LP LS st s y); [apply H|by apply (at_stree _ _ _ H)]|].
    intros [] st0 [Hc0 Hn0]. pose proof (at_notified _ _ _ _ _ H Hc0 Hn0) as H0.
    apply wp_bind. eapply wp_at_upd_dying; [exact H0|apply lookup_singleton_eq|done|done|].
    intros st1 H1. cbn [hp_value_subscriptions] in H1. rewrite insert_singleton_eq in H1.
    change (at_ {[p := set_vsubs (unlink s (s :: l)) (set_vsubs (s :: l) x)]} LP LS A S (fun t => E t ++ only s (void_note y) t) st1) in H1.
    rewrite Hx in H1. eapply wp_at_upd_sub; [exact H1|done|done|by apply (at_slive _ _ _ H1 Hy)|]. intros st2 H2.
    apply NoDup_cons in Hnd as [Hs Hnd]. apply (IH _ _ st2 H2); [done|done| |].
    + intros t. destruct (decide (s = t)) as [<-|Hne].
      * rewrite lookup_insert_eq. split; [done|]. by intros (z & [= <-] & ?).
      * rewrite lookup_insert_ne by done. rewrite <- Hl. set_solver.
    + intros st4 H4. apply HQ. rewrite insert_fmap_pull in H4; [|done|].
      2: { unfold forget_v. cbn [hps_value_prop sub_set_value]. rewrite decide_False, decide_True by done. done. }
      eapply at_ext; [exact H4|]. intros t _. simpl. rewrite <- app_assoc. f_equal. unfold only, void_notes.
      destruct (decide (s = t)) as [<-|Hne].
      * by rewrite lookup_insert_eq, Hy, decide_False, decide_True, app_nil_r.
      * by rewrite lookup_insert_ne.
Qed.

Definition rm_child (p : pid) (y : prop) : prop :=
  match hp_val y with
  | PDir cs sel => set_val (PDir (unlink p cs) (unselect p sel)) y
  | _ => y
  end.

(** The tree without [p], and what the subscribers of its parent are told. *)
Definition buried (A : ptree) (p : pid) (parent : option pid) : ptree :=
  match parent with
  | Some q => match A !! q with Some y => <[q := rm_child p y]> (delete p A) | None => delete p A end
  | None => delete p A
  end.
Definition parent_notes (A : ptree) (p : pid) (parent : option pid) (s : sid) : list pevent :=
  match parent with Some q => among (vsubs A q) (fun _ => [DelChild p]) s | None => [] end.

Lemma void_notes_canonical p (S : psubs) s : void_notes (forget_c p <$> S) p s = void_notes S p s.
Proof.
  unfold void_notes. rewrite lookup_fmap. destruct (S !! s) as [y|]; [|done]. simpl. unfold forget_c.
  by destruct (decide (hps_canonical_prop y = Some p)).
Qed.

(** Its parent forgets a property that is being destroyed. *)
Lemma wp_leave_parent LP LS A S E p x q y cs sel st (Q : unit -> store -> Prop) :
  at_ {[p := x]} LP LS A S E st -> is_zombie (hp_val x) = true -> wf_subs A S ->
  A !! q = Some y -> hp_val y = PDir cs sel -> p ∈ cs ->
  (forall st', at_ {[p := set_parent None x]} LP LS (<[q := rm_child p y]> A) S
     (fun s => E s ++ among (vsubs A q) (fun _ => [DelChild p]) s) st' -> Q tt st') ->
  wp (_ ← prop_notify_child q (DelChild p) None; _ ← edit_childs q (remove_child p);
      _ ← upd_prop p (set_parent None); deselect q p) Q st.
Proof.
  intros H Hz HS Ey Hv Hin HQ. apply wp_bind. eapply wp_w_child; [exact H|done|exact Ey|by exists [Some p]| |].
  { intros r Hr. apply list_elem_of_singleton in Hr as [= ->]. right. rewrite lookup_singleton_eq. by eexists. }
  intros st1 H1. apply wp_bind. eapply wp_w_edit; [exact H1|exact Ey|exact Hv|unfold remove_child; by rewrite decide_True|].
  intros st2 H2. apply wp_bind. eapply wp_at_upd_dying; [exact H2|apply lookup_singleton_eq|done|done|].
  intros st3 H3. rewrite insert_singleton_eq in H3. eapply wp_w_deselect; [exact H3|apply lookup_insert_eq|done|].
  intros st4 H4. apply HQ. rewrite insert_insert_eq in H4. unfold rm_child. rewrite Hv.
  eapply at_ext; [exact H4|]. intros s _. simpl. f_equal. unfold vsubs. by rewrite Ey.
Qed.

Lemma wp_bury destroy LP LS A S E p x st (Q : bool -> store -> Prop) :
  at_ ∅ LP LS A S E st -> wf_subs A S -> A !! p = Some x -> ok_prop x ->
  (forall q, hp_parent x = Some q -> q <> p /\ exists y cs sel, A !! q = Some y /\ hp_val y = PDir cs sel /\ p ∈ cs) ->
  (forall st', at_ ∅ LP LS (buried A p (hp_parent x)) (forget p <$> S)
     (fun s => (E s ++ void_notes S p s) ++ parent_notes A p (hp_parent x) s) st' -> Q true st') ->
  wp (bury destroy p) Q st.
Proof.
  intros H HS Ex Hok Hpar HQ. unfold bury.
  pose proof (s_vnodup _ _ HS p) as Hnv. pose proof (s_cnodup _ _ HS p) as Hnc.
  pose proof (s_value _ _ HS p) as Hsv. pose proof (s_canonical _ _ HS p) as Hsc.
  unfold vsubs in Hnv, Hsv. unfold csubs in Hnc, Hsc. rewrite Ex in Hnv, Hsv, Hnc, Hsc.
  apply wp_bind. eapply wp_at_kill; [exact H|exact Ex|done|done|]. intros st1 H1. rewrite insert_empty in H1.
  set (x1 := set_val PZombie x) in H1. assert (x1 = set_csubs (hp_canonical_subscriptions x) x1) as Hx1 by done.
  apply wp_bind. eapply wp_at_get_dying; [exact H1|apply lookup_singleton_eq|]. intros z1 _ Hz1.
  assert (hp_canonical_subscriptions z1 = hp_canonical_subscriptions x) as -> by (change (hp_canonical_subscriptions (tprop z1) = hp_canonical_subscriptions x); by rewrite <- Hz1).
  rewrite Hx1 in H1. apply wp_bind. eapply wp_lose_canonical; [exact H1|done|done|done|]. intros st2 H2.
  set (x2 := set_csubs [] x1) in H2. assert (x2 = set_vsubs (hp_value_subscriptions x) x2) as Hx2 by done.
  apply wp_bind. eapply wp_at_get_dying; [exact H2|apply lookup_singleton_eq|]. intros z2 _ Hz2.
  assert (hp_value_subscriptions z2 = hp_value_subscriptions x) as -> by (change (hp_value_subscriptions (tprop z2) = hp_value_subscriptions x); by rewrite <- Hz2).
  rewrite Hx2 in H2. apply wp_bind. eapply wp_lose_value; [exact H2|done|done| |].
  { intros s. rewrite Hsv, lookup_fmap. split; intros (y & Hy & Hv).
    - exists (forget_c p y). rewrite Hy. split; [done|]. unfold forget_c. by destruct (decide _).
    - apply fmap_Some in Hy as (w & Hw & ->). exists w. split; [done|]. revert Hv. unfold forget_c. by destruct (decide _). }
  intros st3 H3. rewrite forget_both in H3. set (x3 := set_vsubs [] x2) in H3.
  apply wp_bind. eapply wp_at_get_dying; [exact H3|apply lookup_singleton_eq|]. intros z3 _ Hz3.
  assert (hp_originator z3 = None) as -> by (change (hp_originator (tprop z3) = None); rewrite <- Hz3; apply Hok).
  apply wp_bind, wp_ret, wp_bind. eapply wp_at_get_dying; [exact H3|apply lookup_singleton_eq|]. intros z4 _ Hz4.
  assert (hp_parent z4 = hp_parent x) as -> by (change (hp_parent (tprop z4) = hp_parent x); by rewrite <- Hz4).
  assert (wf_subs (delete p A) (forget p <$> S)) as HS' by by apply subs_forget.
  assert (forall st4, at_ {[p := set_parent None x3]} (Some p :: LP) LS (buried A p (hp_parent x)) (forget p <$> S)
     (fun s => (E s ++ void_notes S p s) ++ parent_notes A p (hp_parent x) s) st4 ->
     wp (_ ← upd_prop p (fun x => set_name None (hp_noalloc x) x); _ ← prop_ref_dec (Some p); mret true) Q st4) as Hend.
  { intros st4 H4. apply wp_bind. eapply wp_at_upd_dying; [exact H4|apply lookup_singleton_eq|done|done|].
    intros st5 H5. rewrite insert_singleton_eq in H5. apply at_clean in H5; [|by split].
    apply wp_bind. eapply wp_at_ref_dec; [exact H5|]. intros st6 H6. by apply wp_ret, HQ. }
  apply wp_bind. destruct (hp_parent x) as [q|] eqn:Hp.
  - destruct (Hpar q eq_refl) as (Hqp & y & cs & sel & Ey & Hv & Hin).
    assert (delete p A !! q = Some y) as Ey' by by rewrite lookup_delete_ne.
    eapply (wp_leave_parent _ _ _ _ _ _ _ q y cs sel); [exact H3|done|done|done..|]. intros st4 H4. apply Hend.
    unfold buried. rewrite Ey. eapply at_ext; [exact H4|]. intros s _. simpl. rewrite void_notes_canonical. f_equal.
    unfold vsubs. by rewrite Ey', Ey.
  - apply wp_ret, Hend. unfold buried. simpl.
    assert (set_parent None x3 = x3) as ->.
    { change (set_parent None (set_vsubs [] (set_csubs [] (set_val PZombie x))) = set_vsubs [] (set_csubs [] (set_val PZombie x))).
      unfold set_parent. cbn. by rewrite <- Hp. }
    eapply at_ext; [exact H3|]. intros s _. simpl. by rewrite void_notes_canonical, app_nil_r.
Qed.

(** * Good worlds *)

Section good.
Variable K : sid -> Prop.

(** The tree is in shape and every view is right. *)
Record good (O : list pid) (A : ptree) (S : psubs) (E : sid -> list pevent) : Prop := {
  g_tree : wf_tree O A;
  g_subs : wf_subs A S;
  g_mirror : mirror K A S E
}.

Lemma good_ext O A S E E' : good O A S E -> (forall s, is_Some (S !! s) -> E s = E' s) -> good O A S E'.
Proof. intros [H1 H2 H3] HE. split; [done|done|]. by eapply mirror_ext. Qed.

(** A property changes, and nobody can see it. *)
Lemma good_update O A S E p x x' : good O A S E -> A !! p = Some x -> ok_prop x' ->
  childs (hp_val x') = childs (hp_val x) -> view_val (hp_val x') = view_val (hp_val x) -> hp_parent x' = hp_parent x ->
  hp_value_subscriptions x' = hp_value_subscriptions x ->
  hp_canonical_subscriptions x' = hp_canonical_subscriptions x -> good O (<[p := x']> A) S E.
Proof.
  intros [H1 H2 H3] Ex Hok Hc Hw Hp Hv Hcs.
  split; [by apply (wf_update _ _ _ x)|by apply (subs_update _ _ _ x)|by apply (mirror_update _ _ _ _ _ x)].
Qed.

(** ** A property that has gone *)

Lemma unlink_perm c l : NoDup l -> c ∈ l -> l ≡ₚ c :: unlink c l.
Proof.
  intros Hnd Hin. apply NoDup_Permutation; [done| |].
  - apply NoDup_cons. unfold unlink. split; [rewrite list_elem_of_filter; tauto|by apply NoDup_filter].
  - intros d. rewrite elem_of_cons. unfold unlink. rewrite list_elem_of_filter. destruct (decide (d = c)); naive_solver.
Qed.

Lemma kids_dir A p c : c ∈ kids A p -> exists x cs sel, A !! p = Some x /\ hp_val x = PDir cs sel /\ c ∈ cs.
Proof.
  unfold kids. destruct (A !! p) as [x|]; [|by intros ?%elem_of_nil].
  destruct (hp_val x) as [|cs sel| | | | | | |] eqn:Hv; simpl; try by intros ?%elem_of_nil. intros Hc. by exists x, cs, sel.
Qed.

Lemma parent_dir O A p x q : wf_tree O A -> A !! p = Some x -> p ∉ O -> hp_parent x = Some q ->
  q <> p /\ exists y cs sel, A !! q = Some y /\ hp_val y = PDir cs sel /\ p ∈ cs.
Proof.
  intros H Ex HO Hp. destruct (t_parent _ _ H p x q Ex Hp) as [?|Hk]; [done|]. split; [|by apply kids_dir].
  intros ->. destruct (t_height _ _ H p) as [n Hn]. by apply (hb_acyclic A n p p Hn Hk), rtc_refl.
Qed.

Lemma rm_child_same p y : hp_parent (rm_child p y) = hp_parent y /\
  hp_value_subscriptions (rm_child p y) = hp_value_subscriptions y /\
  hp_canonical_subscriptions (rm_child p y) = hp_canonical_subscriptions y.
Proof. unfold rm_child. by destruct (hp_val y). Qed.

Lemma rm_child_ok p y : ok_prop y -> ok_prop (rm_child p y).
Proof.
  unfold rm_child. destruct (hp_val y) eqn:Hv; try done. intros [H1 H2 H3 H4 H5 H6 H7 H8]. rewrite Hv in *. by split.
Qed.

Lemma childs_rm p y : childs (hp_val (rm_child p y)) = unlink p (childs (hp_val y)).
Proof. unfold rm_child. destruct (hp_val y) eqn:Hv; simpl; by rewrite ?Hv. Qed.

Lemma wf_buried O A p x : wf_tree O A -> A !! p = Some x -> kids A p = [] -> p ∉ O ->
  wf_tree O (buried A p (hp_parent x)).
Proof.
  intros H Ex Hk HO. unfold buried. destruct (hp_parent x) as [q|] eqn:Hp.
  - destruct (parent_dir O A p x q H Ex HO Hp) as (Hqp & y & cs & sel & Ey & Hv & Hin). rewrite Ey.
    rewrite <- delete_insert_ne by done. apply wf_delete; [|by rewrite kids_insert, decide_False].
    apply (wf_shrink O A q y (rm_child p y) [p] H Ey).
    + by apply rm_child_ok, (t_ok _ _ H q).
    + rewrite childs_rm, Hv. simpl. apply unlink_perm; [|done]. pose proof (t_nodup _ _ H q) as Hnd. by rewrite (kids_Some _ _ _ Ey), Hv in Hnd.
    + apply rm_child_same.
  - apply wf_delete; [|done]. by apply (wf_unroot O A p x).
Qed.

Lemma subs_buried A S p x : wf_subs A S -> hp_parent x <> Some p -> wf_subs (buried A p (hp_parent x)) (forget p <$> S).
Proof.
  intros H Hne. unfold buried. pose proof (subs_forget A S p H) as H'. destruct (hp_parent x) as [q|]; [|done].
  destruct (A !! q) as [y|] eqn:Ey; [|done].
  apply (subs_update _ _ _ y); [done|rewrite lookup_delete_ne by congruence; done|apply rm_child_same..].
Qed.

Lemma mirror_buried A S E p x : mirror K A S E -> wf_subs A S ->
  (forall q, hp_parent x = Some q -> q <> p /\ exists y cs sel, A !! q = Some y /\ hp_val y = PDir cs sel /\ p ∈ cs) ->
  mirror K (buried A p (hp_parent x)) (forget p <$> S)
    (fun s => (E s ++ void_notes S p s) ++ parent_notes A p (hp_parent x) s).
Proof.
  intros H HS Hpar s y' Hy' Hw. rewrite lookup_fmap in Hy'. apply fmap_Some in Hy' as (y & Hy & ->).
  assert (watched K s y) as Hw'. { unfold watched in *. destruct (forget_flags p y) as [Hf _]. by rewrite Hf in Hw. }
  rewrite !replay_app, (H s y Hy Hw'), forget_value. unfold void_notes. rewrite Hy.
  assert (forall q, s ∈ vsubs A q <-> hps_value_prop y = Some q) as Hin by (intros q; rewrite (s_value _ _ HS); naive_solver).
  destruct (decide (hps_value_prop y = Some p)) as [Hv|Hv].
  - assert (parent_notes A p (hp_parent x) s = []) as ->.
    { unfold parent_notes. destruct (hp_parent x) as [q|]; [|done]. unfold among. rewrite decide_False; [done|].
      rewrite Hin. destruct (Hpar q eq_refl) as [Hq _]. congruence. }
    unfold void_note. destruct Hw' as (_ & Hi & _). by rewrite Hi.
  - simpl. unfold parent_notes, buried. destruct (hp_parent x) as [q|].
    + destruct (Hpar q eq_refl) as (Hqp & z & cs & sel & Ez & Hz & _). rewrite Ez. unfold among.
      destruct (decide (s ∈ vsubs A q)) as [Hs|Hs].
      * apply Hin in Hs. rewrite Hs. unfold view_of. rewrite lookup_insert_eq, Ez. unfold rm_child. by rewrite Hz.
      * simpl. unfold view_of. destruct (hps_value_prop y) as [r|]; [|done]. rewrite Hin in Hs.
        rewrite lookup_insert_ne, lookup_delete_ne; [done|congruence|congruence].
    + simpl. unfold view_of. destruct (hps_value_prop y) as [r|]; [|done]. rewrite lookup_delete_ne; [done|congruence].
Qed.

Lemma good_buried O A S E p x : good O A S E -> A !! p = Some x -> kids A p = [] -> p ∉ O ->
  good O (buried A p (hp_parent x)) (forget p <$> S)
    (fun s => (E s ++ void_notes S p s) ++ parent_notes A p (hp_parent x) s).
Proof.
  intros [H1 H2 H3] Ex Hk HO. split.
  - by apply wf_buried.
  - apply subs_buried; [done|]. intros Hp. destruct (parent_dir O A p x p H1 Ex HO Hp) as [? _]. done.
  - apply mirror_buried; [done..|]. intros q. by apply (parent_dir O).
Qed.

(** * The tree below a property *)

Lemma below_kids A A' p q : (forall x, kids A' x ⊆ kids A x) -> below A' p q -> below A p q.
Proof. intros Hk H. induction H as [|a b c Hb _ IH]; [apply rtc_refl|]. eapply rtc_l; [by apply Hk|done]. Qed.

(** The property [p], which is [x], and what is below it have gone from [A]. *)
Record destroyed (A A' : ptree) (p : pid) (x : prop) : Prop := {
  de_gone : A' !! p = None;
  de_kids q : kids A' q ⊆ kids A q;
  de_parent q y : hp_parent x = Some q -> A !! q = Some y -> A' !! q = Some (rm_child p y);
  de_frame q : ~ below A p q -> hp_parent x <> Some q -> A' !! q = A !! q
}.

(** How a property is destroyed, or loses one of several references. *)
Definition outcome (A A' : ptree) (p : pid) (x : prop) (r : bool) : Prop :=
  if r then u8 (hp_xref x - 1) = 0 /\ destroyed A A' p x
  else u8 (hp_xref x - 1) <> 0 /\ A' = <[p := set_xref (u8 (hp_xref x - 1)) x]> A.

Definition destroys (LP : list (option pid)) (LS : list sid) (O : list pid) (destroy : pid -> M bool)
    (n : nat) : Prop :=
  forall p x A S E st, at_ ∅ LP LS A S E st -> good O A S E -> hb A n p -> A !! p = Some x -> p ∉ O ->
    wp (destroy p) (fun r st' => exists A' S' E', at_ ∅ LP LS A' S' E' st' /\ good O A' S' E' /\ outcome A A' p x r) st.

(** What the destruction of children leaves. *)
Definition emptied (A A' : ptree) (p : pid) (x : prop) (cs' : list pid) : Prop :=
  (exists sel', A' !! p = Some (set_val (PDir cs' sel') x)) /\
  (forall q, kids A' q ⊆ kids A q) /\
  (forall q, ~ below A p q -> A' !! q = A !! q).

(** A child that is referred to from elsewhere is taken out. *)
Lemma good_detach O A S E p x cs sel c z : good O A S E -> A !! p = Some x -> hp_val x = PDir cs sel -> c ∈ cs ->
  A !! c = Some z ->
  good O (<[c := set_parent None z]> (<[p := set_val (PDir (unlink c cs) sel) x]> A)) S
    (fun s => E s ++ among (hp_value_subscriptions x) (fun _ => [DelChild c]) s).
Proof.
  intros [H1 H2 H3] Ex Hv Hc Ez. pose proof (kids_Some _ _ _ Ex) as Hk. rewrite Hv in Hk. simpl in Hk.
  assert (p <> c) as Hpc. { intros ->. destruct (t_height _ _ H1 c) as [n Hn]. apply (hb_acyclic A n c c Hn); [by rewrite Hk|apply rtc_refl]. }
  set (x' := set_val _ x). assert (<[p := x']> A !! c = Some z) as Ez' by by rewrite lookup_insert_ne.
  assert (ok_prop x') as Hok. { destruct (t_ok _ _ H1 p x Ex) as [O1 O2 O3 O4 O5 O6 O7 O8]. rewrite Hv in *. by split. }
  split.
  - apply (wf_root _ _ c (set_parent None z)); [|by rewrite lookup_insert_eq|done]. apply wf_reparent; [|done].
    apply (wf_shrink O A p x x' [c]); [done..| |done]. rewrite Hv. simpl. apply unlink_perm; [|done]. rewrite <- Hk. apply (t_nodup _ _ H1).
  - apply (subs_update _ _ _ z); [|done..]. by apply (subs_update _ _ _ x).
  - apply (mirror_update _ _ _ _ _ z); [|done..]. apply mirror_among; [done..|].
    intros s y _ _ _. rewrite Hv. done.
Qed.

Lemma wp_destroy_child LP LS O destroy n A S E p x cs sel c st :
  destroys LP LS O destroy n -> at_ ∅ LP LS A S E st -> good O A S E -> A !! p = Some x -> hp_val x = PDir cs sel ->
  c ∈ cs -> hb A n c ->
  wp (prop_destroy_child destroy p c) (fun _ st' => exists A' S' E', at_ ∅ LP LS A' S' E' st' /\ good O A' S' E' /\
    emptied A A' p x (unlink c cs)) st.
Proof.
  intros Hd H HG Ex Hv Hc Hn. pose proof (kids_Some _ _ _ Ex) as Hk. rewrite Hv in Hk. simpl in Hk.
  assert (c ∈ kids A p) as Hck by by rewrite Hk. destruct (t_child _ _ (g_tree _ _ _ _ HG) p c Hck) as (HO & z & Ez & Hz).
  assert (child_of A p c) as Hcp by done.
  unfold prop_destroy_child. apply wp_bind. eapply wp_mono; [by apply (Hd c z A S E)|].
  intros [] st1 (A1 & S1 & E1 & H1 & G1 & Hx & Ho).
  - apply wp_ret. exists A1, S1, E1. split; [done|]. split; [done|]. split; [|split].
    + exists (unselect c sel). rewrite (de_parent _ _ _ _ Ho p x Hz Ex). unfold rm_child. by rewrite Hv.
    + apply Ho.
    + intros q Hq. apply (de_frame _ _ _ _ Ho).
      * intros Hb. apply Hq. by eapply rtc_l.
      * rewrite Hz. intros [= <-]. apply Hq, rtc_refl.
  - assert (p <> c) as Hpc. { intros ->. by apply (hb_acyclic A n c c Hn), rtc_refl. }
    assert (A1 !! p = Some x) as Ex1 by (rewrite Ho, lookup_insert_ne; done).
    set (z1 := set_xref _ z) in Ho. assert (A1 !! c = Some z1) as Ez1 by by rewrite Ho, lookup_insert_eq.
    apply wp_bind. eapply wp_w_child; [exact H1|apply G1|exact Ex1|by exists [Some c]| |].
    { intros q Hq. apply list_elem_of_singleton in Hq as [= ->]. left. rewrite Ez1. by eexists. }
    intros st2 H2. apply wp_bind. eapply wp_w_edit; [exact H2|exact Ex1|exact Hv|unfold remove_child; by rewrite decide_True|].
    intros st3 H3. eapply wp_at_upd; [exact H3|rewrite lookup_insert_ne by done; exact Ez1|done| |].
    { apply (at_live _ _ _ H1 Ez1). }
    intros st4 H4. eexists _, _, _. split; [exact H4|]. split; [|split; [|split]].
    + apply (good_detach O A1 S1 E1 p x cs sel c z1); done.
    + exists sel. by rewrite lookup_insert_ne, lookup_insert_eq by done.
    + intros q. rewrite !kids_insert, Ho, kids_insert. destruct (decide (c = q)) as [<-|].
      * change (childs (hp_val z) ⊆ kids A c). by rewrite (kids_Some _ _ _ Ez).
      * destruct (decide (p = q)) as [<-|]; [|done]. simpl. rewrite Hk. unfold unlink. intros d. rewrite list_elem_of_filter. tauto.
    + intros q Hq. rewrite !lookup_insert_ne, Ho, lookup_insert_ne; [done| | |].
      * intros ->. apply Hq. by eapply rtc_l, rtc_refl.
      * intros ->. apply Hq, rtc_refl.
      * intros ->. apply Hq. by eapply rtc_l, rtc_refl.
Qed.

Lemma wp_destroy_loop LP LS O destroy n p cs : destroys LP LS O destroy n ->
  forall x sel fuel A S E st, at_ ∅ LP LS A S E st -> good O A S E -> A !! p = Some x -> hp_val x = PDir cs sel ->
  hb A (Datatypes.S n) p -> (length cs <= fuel)%nat ->
  wp (foreach_child_safe fuel p (head cs) (prop_destroy_child destroy p))
    (fun _ st' => exists A' S' E', at_ ∅ LP LS A' S' E' st' /\ good O A' S' E' /\ emptied A A' p x []) st.
Proof.
  intros Hd. induction cs as [|c cs IH]; intros x sel fuel A S E st H HG Ex Hv Hn Hf.
  - assert (emptied A A p x []) as He.
    { split; [|done]. exists sel. rewrite <- Hv. by destruct x. }
    destruct fuel; apply wp_ret; by exists A, S, E.
  - destruct fuel as [|fuel]; simpl in Hf; [lia|]. simpl. pose proof (kids_Some _ _ _ Ex) as Hk. rewrite Hv in Hk. simpl in Hk.
    apply wp_bind. unfold next_child. apply wp_bind. eapply wp_at_get; [exact H|exact Ex|]. intros x0 _ ->.
    change (hp_val (tprop x0)) with (hp_val x0) in *. rewrite Hv. simpl. rewrite decide_True by done. apply wp_ret, wp_bind.
    eapply wp_mono; [eapply (wp_destroy_child LP LS O destroy n A S E p (tprop x0) (c :: cs) sel c); try done|].
    { by left. } { apply (hb_child A n p); [done|]. rewrite Hk. by left. }
    intros _ st1 (A1 & S1 & E1 & H1 & G1 & (sel1 & Ex1) & Hk1 & Hf1).
    rewrite unlink_head in Ex1 by (rewrite <- Hk; apply (t_nodup _ _ (g_tree _ _ _ _ HG))).
    eapply wp_mono; [eapply (IH _ sel1 fuel A1 S1 E1); [done|done|exact Ex1|done|by eapply hb_kids|lia]|].
    intros _ st2 (A2 & S2 & E2 & H2 & G2 & (sel2 & Ex2) & Hk2 & Hf2). exists A2, S2, E2. split; [done|]. split; [done|].
    split; [by exists sel2|]. split.
    + intros q. by rewrite Hk2, Hk1.
    + intros q Hq. rewrite Hf2; [by apply Hf1|]. intros Hb. apply Hq. by apply (below_kids A A1).
Qed.

(** ** Fuel *)

Lemma alive_size st : (size (alive st) <= size (st_props st))%nat.
Proof.
  rewrite <- (map_size_fmap tprop (st_props st)). change (tprop <$> st_props st) with (tree st).
  rewrite <- !size_dom. apply subseteq_size, subseteq_dom, map_filter_subseteq.
Qed.

Lemma kids_size O A p : wf_tree O A -> (length (kids A p) <= size A)%nat.
Proof.
  intros H. rewrite <- size_dom. rewrite <- (size_list_to_set (C := gset pid)) by apply (t_nodup _ _ H).
  apply subseteq_size. intros c Hc. apply elem_of_list_to_set in Hc. apply elem_of_dom. by apply (kid_alive O A p).
Qed.

(** ** One property *)

Lemma recursive_unlink_nothing destroy D LP LS A S E n p x st (Q : unit -> store -> Prop) :
  at_ D LP LS A S E st -> A !! p = Some x -> hp_targets x = [] -> Q tt st -> wp (recursive_unlink destroy (Datatypes.S n) p) Q st.
Proof.
  intros H Ex Ht HQ. simpl. apply wp_bind. eapply wp_at_get; [exact H|exact Ex|]. intros x0 _ ->.
  change (hp_targets x0 = []) in Ht. by rewrite Ht.
Qed.

Lemma ok_xref x n : ok_prop x -> ok_prop (set_xref n x).
Proof. by intros [? ? ? ? ? ? ? ?]. Qed.

Lemma wp_bury_childless LP LS O destroy A S E p x A0 x0 st :
  at_ ∅ LP LS A S E st -> good O A S E -> A !! p = Some x -> kids A p = [] -> p ∉ O ->
  (forall q, kids A q ⊆ kids A0 q) -> (forall q, ~ below A0 p q -> A !! q = A0 !! q) -> hp_parent x = hp_parent x0 ->
  (forall q, hp_parent x0 = Some q -> ~ below A0 p q) ->
  wp (bury destroy p) (fun r st' => exists A' S' E', at_ ∅ LP LS A' S' E' st' /\ good O A' S' E' /\
    r = true /\ destroyed A0 A' p x0) st.
Proof.
  intros H HG Ex Hk HO Hkids Hframe Hpar Hup. eapply wp_bury; [exact H|apply HG|exact Ex|by apply (t_ok _ _ (g_tree _ _ _ _ HG) p)| |].
  { intros q. by apply (parent_dir O A p x q (g_tree _ _ _ _ HG)). }
  intros st' H'. eexists _, _, _. split; [exact H'|]. split; [by apply good_buried|]. split; [done|].
  assert (forall q, hp_parent x = Some q -> q <> p /\ A !! q = A0 !! q) as Hq.
  { intros q Hpq. destruct (parent_dir O A p x q (g_tree _ _ _ _ HG) Ex HO Hpq) as [Hne _]. split; [done|]. apply Hframe, Hup. congruence. }
  unfold buried. split.
  - destruct (hp_parent x) as [q|]; [|apply lookup_delete_eq]. destruct (Hq q eq_refl) as [Hne _].
    destruct (A !! q); [rewrite lookup_insert_ne by done|]; apply lookup_delete_eq.
  - intros q. destruct (hp_parent x) as [r|] eqn:Hr; [destruct (A !! r) as [y|] eqn:Ey|]; rewrite ?kids_insert, ?kids_delete.
    + destruct (decide (r = q)) as [<-|].
      * rewrite childs_rm, <- Hkids, (kids_Some _ _ _ Ey). unfold unlink. intros d. rewrite list_elem_of_filter. tauto.
      * destruct (decide (p = q)); [apply list_subseteq_nil|apply Hkids].
    + destruct (decide (p = q)); [apply list_subseteq_nil|apply Hkids].
    + destruct (decide (p = q)); [apply list_subseteq_nil|apply Hkids].
  - intros q y Hpq Ey. rewrite <- Hpar in Hpq. rewrite Hpq. destruct (Hq q Hpq) as [Hne Hs]. by rewrite Hs, Ey, lookup_insert_eq.
  - intros q Hb Hne. rewrite <- Hpar in Hne. assert (q <> p) as Hqp by (intros ->; apply Hb, rtc_refl). rewrite <- Hframe by done.
    destruct (hp_parent x) as [r|]; [destruct (A !! r)|]; rewrite ?lookup_insert_ne, ?lookup_delete_ne by congruence; done.
Qed.

Lemma destroy_body_spec LP LS O destroy n : destroys LP LS O destroy n ->
  destroys LP LS O (destroy_body destroy) (Datatypes.S n).
Proof.
  intros Hd p x A S E st H HG Hn Ex HO. pose proof (t_ok _ _ (g_tree _ _ _ _ HG) p x Ex) as Hok.
  pose proof (at_live _ _ _ H Ex) as Hl.
  unfold destroy_body. apply wp_bind. eapply wp_at_get; [exact H|exact Ex|]. intros x0 Ex0 ->.
  change (hp_val (tprop x0)) with (hp_val x0) in *. rewrite Hl. set (v := u8 (hp_xref x0 - 1)). change (u8 (hp_xref (tprop x0) - 1)) with v.
  apply wp_bind. eapply (wp_at_put p x0); [exact H|exact Ex0|done|done|done|]. intros st1 H1.
  change (tprop (set_xref v x0)) with (set_xref v (tprop x0)) in H1. set (x := tprop x0) in *. set (x1 := set_xref v x) in *.
  set (A1 := <[p := x1]> A) in *. assert (A1 !! p = Some x1) as Ex1 by apply lookup_insert_eq.
  assert (good O A1 S E) as G1 by (apply (good_update O A S E p x); [done|done|by apply ok_xref|done..]).
  assert (forall q, kids A1 q = kids A q) as Hk1.
  { intros q. unfold A1. rewrite kids_insert. destruct (decide (p = q)) as [<-|]; [|done]. by rewrite (kids_Some _ _ _ Ex). }
  destruct (Z.eqb_spec v 0) as [Hv|Hv]; simpl negb; cbn iota; [|apply wp_ret; by exists A1, S, E].
  apply wp_bind, wp_here. eapply recursive_unlink_nothing; [exact H1|exact Ex1|apply Hok|].
  apply wp_bind. eapply wp_at_get; [exact H1|exact Ex1|]. intros x2 _ Hx2.
  assert (hp_val x2 = hp_val x) as -> by (change (hp_val (tprop x2) = hp_val x); by rewrite <- Hx2).
  assert (forall q, hp_parent x = Some q -> ~ below A p q) as Hup.
  { intros q Hq Hb. destruct (parent_dir O A p x q (g_tree _ _ _ _ HG) Ex HO Hq) as (_ & y & cs & sel & Ey & Hvy & Hin).
    destruct (t_height _ _ (g_tree _ _ _ _ HG) q) as [m Hm]. apply (hb_acyclic A m q p Hm); [|done].
    by rewrite (kids_Some _ _ _ Ey), Hvy. }
  assert (forall st2 A2 S2 E2 x3, at_ ∅ LP LS A2 S2 E2 st2 -> good O A2 S2 E2 -> A2 !! p = Some x3 -> kids A2 p = [] ->
    hp_parent x3 = hp_parent x -> (forall q, kids A2 q ⊆ kids A q) -> (forall q, ~ below A p q -> A2 !! q = A !! q) ->
    wp (bury destroy p) (fun r st' => exists A' S' E', at_ ∅ LP LS A' S' E' st' /\ good O A' S' E' /\ outcome A A' p x r) st2) as Hend.
  { intros st2 A2 S2 E2 x3 H2 G2 E3 Hk2 Hp2 Hkk Hff.
    eapply wp_mono; [by apply (wp_bury_childless LP LS O destroy A2 S2 E2 p x3 A x)|].
    intros r st3 (A3 & S3 & E3' & H3 & G3 & -> & D3). exists A3, S3, E3'. done. }
  assert (forall q, ~ below A p q -> A1 !! q = A !! q) as Hf1.
  { intros q Hq. unfold A1. rewrite lookup_insert_ne; [done|]. intros <-. apply Hq, rtc_refl. }
  apply wp_bind. pose proof (ok_val _ Hok) as Hs. change (hp_val x) with (hp_val x0) in Hs |- *. destruct (hp_val x0) as [|cs sel| | | | | | |] eqn:Hx0;
    try (apply wp_ret, (Hend _ A1 S E x1); [done|done|done| |done|by intros q; rewrite Hk1|done];
         rewrite (kids_Some _ _ _ Ex1); change (hp_val x1) with (hp_val x0); by rewrite Hx0); try (by destruct Hs).
  apply wp_here. assert (kids A p = cs) as Hkp by (rewrite (kids_Some _ _ _ Ex); change (hp_val x) with (hp_val x0); by rewrite Hx0).
  eapply wp_mono; [eapply (wp_destroy_loop LP LS O destroy n p cs Hd x1 sel _ A1 S E); [done|done|done|done| |]|].
  - eapply hb_kids; [|exact Hn]. intros q. by rewrite Hk1.
  - rewrite <- Hkp, <- Hk1. pose proof (kids_size O A1 p (g_tree _ _ _ _ G1)) as Hsz. pose proof (alive_size st1) as Ha.
    rewrite (at_alive _ _ _ _ _ _ _ H1) in Ha. lia.
  - intros _ st2 (A2 & S2 & E2 & H2 & G2 & (sel2 & Ex3) & Hk2 & Hf2).
    apply (Hend _ A2 S2 E2 _ H2 G2 Ex3); [by rewrite (kids_Some _ _ _ Ex3)|done| |].
    + intros q. by rewrite Hk2, Hk1.
    + intros q Hq. rewrite Hf2; [by apply Hf1|]. intros Hb. apply Hq. apply (below_kids A A1); [intros r; by rewrite Hk1|done].
Qed.

Lemma prop_destroy_n_spec LP LS O n : destroys LP LS O (prop_destroy_n n) n.
Proof. induction n as [|n IH]; [by intros p x A S E st _ _ Hn|]. apply destroy_body_spec, IH. Qed.

(** The number of properties is fuel enough. *)
Lemma prop_destroy0_spec LP LS O p x A S E st : at_ ∅ LP LS A S E st -> good O A S E -> A !! p = Some x -> p ∉ O ->
  wp (prop_destroy0 p) (fun r st' => exists A' S' E', at_ ∅ LP LS A' S' E' st' /\ good O A' S' E' /\ outcome A A' p x r) st.
Proof.
  intros H HG Ex HO. unfold prop_destroy0. apply wp_here.
  refine (prop_destroy_n_spec LP LS O (Datatypes.S (size (st_props st))) p x A S E st H HG _ Ex HO).
  eapply hb_mono; [apply (hb_bound O A p); [apply HG|by eexists]|]. pose proof (alive_size st) as Ha.
  rewrite (at_alive _ _ _ _ _ _ _ H) in Ha. lia.
Qed.

End good.
