(* ===== verification/PropOps.v ===== *)
(** The operations of the property tree on good worlds: creation, values,
    order and parents.  Each ends without a fault, leaves the tree in shape
    and every view right. *)
From S2P Require Import Prelude PropStore PropTree PropSub PropLogic PropWorld PropQueue PropWf PropMirror PropDestroy.

Local Open Scope Z_scope.

Section ops.
Variable K : sid -> Prop.
Context {LP : list (option pid)} {LS : list sid}.

(** The computation leads to a good world with [P]. *)
Definition leads {B} (O : list pid) (m : M B) (P : B -> ptree -> psubs -> (sid -> list pevent) -> Prop) (st : store) : Prop :=
  wp m (fun r st' => exists A S E, at_ ∅ LP LS A S E st' /\ good K O A S E /\ P r A S E) st.

(** The changes of a skipped subscription are kept from nobody else. *)
Definition skips (skipme : option sid) : Prop := forall s, skipme = Some s -> K s.

Lemma unless_watched skipme l s y : skips skipme -> watched K s y -> unless skipme l s = l.
Proof.
  intros Hk [Hs _]. unfold unless, skipped. destruct (bool_decide_reflect (skipme = Some s)) as [->|]; [|done].
  destruct Hs. by apply Hk.
Qed.

Lemma leads_ret {B} O (b : B) P A S E st : at_ ∅ LP LS A S E st -> good K O A S E -> P b A S E -> leads O (mret b) P st.
Proof. intros H HG HP. apply wp_ret. by exists A, S, E. Qed.

Lemma leads_mono {B} O (m : M B) (P P' : B -> ptree -> psubs -> (sid -> list pevent) -> Prop) st :
  leads O m P st -> (forall r A S E, P r A S E -> P' r A S E) -> leads O m P' st.
Proof.
  intros H HP. eapply wp_mono; [exact H|]. intros r st' (A & S & E & H1 & H2 & H3). exists A, S, E. auto.
Qed.

(** * Values *)

Lemma value_ok x v : ok_prop x -> simple_val v ->
  (hp_clipped x = true -> match v with PInt _ (Some _) | PFloat _ (Some _) => True | _ => False end) -> ok_prop (set_val v x).
Proof. intros [H1 H2 H3 H4 H5 H6 H7 H8] Hv Hc. by split. Qed.

Lemma good_value O A S E p x x' skipme how : good K O A S E -> A !! p = Some x -> ok_prop x' -> skips skipme ->
  childs (hp_val x) = [] -> childs (hp_val x') = [] -> hp_parent x' = hp_parent x ->
  hp_value_subscriptions x' = hp_value_subscriptions x ->
  hp_canonical_subscriptions x' = hp_canonical_subscriptions x ->
  good K O (<[p := x']> A) S
    (fun s => E s ++ among (hp_value_subscriptions x') (fun s => unless skipme (value_notes S p (hp_val x') how s) s) s).
Proof.
  intros [H1 H2 H3] Ex Hok Hs Hc Hc' Hp Hv Hcs. split.
  - apply (wf_update _ _ _ x); [done..|congruence|done].
  - by apply (subs_update _ _ _ x).
  - rewrite Hv. apply mirror_among; [done..|]. intros s y Hy _ Hw. rewrite (unless_watched _ _ _ y) by done.
    unfold value_notes. rewrite Hy, view_value; [|apply Hok|apply Hw]. by destruct (hp_val x'); simpl in Hc'; subst.
Qed.

(** A value is set and announced. *)
Lemma wp_new_value O p x f skipme how A S E st :
  at_ ∅ LP LS A S E st -> good K O A S E -> A !! p = Some x -> setter f -> ok_prop (f x) -> skips skipme ->
  childs (hp_val x) = [] -> childs (hp_val (f x)) = [] -> hp_parent (f x) = hp_parent x ->
  hp_value_subscriptions (f x) = hp_value_subscriptions x ->
  hp_canonical_subscriptions (f x) = hp_canonical_subscriptions x ->
  leads O (_ ← upd_prop p f; prop_notify_value p skipme how) (fun _ A' S' _ => A' = <[p := f x]> A /\ S' = S) st.
Proof.
  intros H HG Ex Hf Hok Hs Hc Hc' Hp Hv Hcs. apply wp_bind. eapply wp_at_upd; [exact H|exact Ex|done| |].
  { destruct Hok as [Hok _]. by destruct (hp_val (f x)). }
  intros st1 H1. assert (wf_subs (<[p := f x]> A) S) as HS by (apply (subs_update _ _ _ x); [apply HG|done..]).
  eapply wp_w_value; [exact H1|done|apply lookup_insert_eq|done|]. intros st2 H2.
  eexists _, _, _. split; [exact H2|]. split; [|done]. by apply (good_value O A S E p x).
Qed.

(** ** What is in the way of a value *)

Lemma check_canonical O n p A S E st : at_ ∅ LP LS A S E st -> wf_tree O A -> hb A n p -> is_Some (A !! p) ->
  wp (prop_check_canonical_subs_descending n p) (fun r st' => st' = st /\
    match r with
    | None => forall c q, c ∈ kids A p -> below A c q -> csubs A q = []
    | Some s => exists c q, c ∈ kids A p /\ below A c q /\ s ∈ csubs A q
    end) st.
Proof.
  intros H HT. revert p. induction n as [|n IH]; intros p Hn [x Ex]; [done|]. simpl.
  apply wp_bind. eapply wp_at_get; [exact H|exact Ex|]. intros x0 _ Hx0. pose proof (kids_Some _ _ _ Ex) as Hk.
  assert (childs (hp_val x0) = childs (hp_val x)) as -> by (by rewrite Hx0). rewrite <- Hk.
  assert (forall cs, cs ⊆ kids A p -> wp ((fix go (cs : list pid) : M (option sid) :=
       match cs with
       | [] => mret None
       | c :: cs =>
           y ← get_prop c;
           match hp_canonical_subscriptions y with
           | s :: _ => mret (Some s)
           | [] =>
               r ← prop_check_canonical_subs_descending n c;
               match r with Some s => mret (Some s) | None => go cs end
           end
       end) cs) (fun r st' => st' = st /\
    match r with
    | None => forall c q, c ∈ cs -> below A c q -> csubs A q = []
    | Some s => exists c q, c ∈ kids A p /\ below A c q /\ s ∈ csubs A q
    end) st) as Hgo; [|by apply Hgo].
  induction cs as [|c cs IHcs]; intros Hcs; [by apply wp_ret; split; [|intros c q ?%elem_of_nil]|].
  assert (c ∈ kids A p) as Hc by (apply Hcs; left). destruct (kid_alive O A p c HT Hc) as [y Ey].
  apply wp_bind. eapply wp_at_get; [exact H|exact Ey|]. intros y0 _ Hy0.
  assert (hp_canonical_subscriptions y0 = csubs A c) as -> by (unfold csubs; rewrite Ey, Hy0; done).
  destruct (csubs A c) as [|s l] eqn:Hs.
  - apply wp_bind. eapply wp_mono; [apply IH; [by apply (hb_child A n p)|by eexists]|]. intros [s|] st' (-> & Hr).
    + apply wp_ret. split; [done|]. destruct Hr as (d & q & Hd & Hq & Hin). exists c, q. split; [done|]. split; [|done]. by eapply rtc_l.
    + eapply wp_mono; [apply IHcs; intros d Hd; apply Hcs; by right|]. intros r st' (-> & Hr'). split; [done|].
      destruct r as [s|]; [done|]. intros d q [->|Hd]%elem_of_cons Hq; [|by apply (Hr' d)].
      inversion Hq as [|z d q' Hzd Hdq]; subst; [done|]. by apply (Hr d).
  - apply wp_ret. split; [done|]. exists c, c. split; [done|]. split; [apply rtc_refl|]. rewrite Hs. left.
Qed.

(** What a subtree that has gone leaves: [p] is now [x'], and the rest as it
    was. *)
Record cleared (A A' : ptree) (p : pid) (x' : prop) : Prop := {
  cd_prop : A' !! p = Some x';
  cd_kids q : kids A' q ⊆ kids A q;
  cd_frame q : ~ below A p q -> A' !! q = A !! q
}.

Lemma not_clipped x : ok_prop x -> is_dir (hp_val x) = true -> hp_clipped x = false.
Proof. intros Hok Hd. destruct (hp_clipped x) eqn:Hc; [|done]. apply (ok_clipped _ Hok) in Hc. by destruct (hp_val x). Qed.

Lemma destroy_orphans O p x cs A S E st : at_ ∅ LP LS A S E st -> good K (cs ++ O) A S E ->
  A !! p = Some x -> p ∉ cs ->
  (forall c, c ∈ cs -> ~ below A c p) ->
  leads O (forM cs (fun c => _ ← upd_prop c (set_parent None); _ ← prop_destroy0 c; mret tt))
    (fun _ A' S' E' => A' !! p = Some x /\ (forall q, kids A' q ⊆ kids A q) /\
       (forall q, (forall c, c ∈ cs -> ~ below A c q) -> A' !! q = A !! q)) st.
Proof.
  revert A S E st. induction cs as [|c cs IH]; intros A S E st H HG Ex Hp Hb; [by apply (leads_ret _ _ _ A S E)|].
  destruct HG as [HT HS HM]. destruct (t_orphans _ _ HT) as [Hnd Ho]. destruct (Ho c) as [z Ez]; [left|].
  apply wp_bind, wp_bind. eapply wp_at_upd; [exact H|exact Ez|done|by apply (at_live _ _ _ H Ez)|]. intros st1 H1.
  set (z1 := set_parent None z) in *. set (A1 := <[c := z1]> A) in *.
  assert (A1 !! c = Some z1) as Ez1 by apply lookup_insert_eq.
  assert (forall q, kids A1 q = kids A q) as Hk.
  { intros q. unfold A1. rewrite kids_insert. destruct (decide (c = q)) as [<-|]; [|done]. by rewrite (kids_Some _ _ _ Ez). }
  assert (good K (cs ++ O) A1 S E) as G1.
  { split; [|by apply (subs_update _ _ _ z)|by apply (mirror_update _ _ _ _ _ z)].
    apply (wf_root _ _ c z1); [by apply wf_reparent|done|done]. }
  assert (c ∉ cs ++ O) as HcO by (by apply NoDup_cons in Hnd as [? _]).
  assert (p <> c) as Hpc by (intros ->; apply Hp; left).
  apply wp_bind. eapply wp_mono; [by apply (prop_destroy0_spec K LP LS (cs ++ O) c z1 A1 S E)|].
  intros r st2 (A2 & S2 & E2 & H2 & G2 & Hout). apply wp_ret.
  assert ((forall q, kids A2 q ⊆ kids A q) /\ (forall q, ~ below A c q -> A2 !! q = A !! q)) as [Hk2 Hf2].
  { assert (forall q, q <> c -> A1 !! q = A !! q) as HA1 by (intros q Hq; unfold A1; by rewrite lookup_insert_ne).
    assert (forall q, ~ below A c q -> q <> c) as Hbc by (intros q Hq ->; apply Hq, rtc_refl).
    destruct r.
    - destruct Hout as [_ [_ D2 _ D4]]. split; [intros q; by rewrite <- Hk|]. intros q Hq. rewrite D4, HA1; [done|by apply Hbc| |done].
      intros Hq'. apply Hq. apply (below_kids A A1); [intros w; by rewrite Hk|done].
    - destruct Hout as [_ ->]. split.
      + intros q. rewrite kids_insert. destruct (decide (c = q)) as [<-|]; [|by rewrite Hk]. by rewrite (kids_Some _ _ _ Ez).
      + intros q Hq. apply Hbc in Hq. rewrite lookup_insert_ne, HA1; done. }
  assert (forall d q, below A2 d q -> below A d q) as Hb2 by (intros d q; by apply below_kids).
  eapply leads_mono; [apply (IH A2 S2 E2 st2 H2 G2)|].
  - rewrite Hf2; [done|]. apply Hb. left.
  - intros Hin. apply Hp. by right.
  - intros d Hd Hq. apply (Hb d); [by right|]. by apply Hb2.
  - intros _ A3 S3 E3 (E3p & Hk3 & Hf3). split; [done|]. split; [intros q; by rewrite Hk3, Hk2|].
    intros q Hq. rewrite Hf3, Hf2; [done|apply Hq; left|]. intros d Hd Hbd. apply (Hq d); [by right|]. by apply Hb2.
Qed.

Lemma wp_destroy_childs0 O p x cs sel A S E st : at_ ∅ LP LS A S E st -> good K O A S E -> A !! p = Some x ->
  hp_val x = PDir cs sel ->
  leads O (prop_destroy_childs0 prop_destroy0 p) (fun _ A' _ _ => cleared A A' p (set_val PVoid x)) st.
Proof.
  intros H HG Ex Hv. destruct HG as [HT HS HM]. pose proof (kids_Some _ _ _ Ex) as Hk. rewrite Hv in Hk. simpl in Hk.
  pose proof (t_ok _ _ HT p x Ex) as Hok. pose proof (at_live _ _ _ H Ex) as Hl.
  unfold prop_destroy_childs0. apply wp_bind. eapply wp_at_get; [exact H|exact Ex|]. intros x0 Ex0 Hx0.
  assert (childs (hp_val x0) = cs) as -> by (change (hp_val x0) with (hp_val (tprop x0)); by rewrite <- Hx0, Hv).
  apply wp_bind. eapply (wp_at_put p x0); [exact H|exact Ex0|by rewrite Hx0 in Hl|done|done|]. intros st1 H1.
  change (tprop (set_val PVoid x0)) with (set_val PVoid (tprop x0)) in H1. rewrite <- Hx0 in H1.
  set (x1 := set_val PVoid x) in *. set (A1 := <[p := x1]> A) in *. assert (A1 !! p = Some x1) as Ex1 by apply lookup_insert_eq.
  assert (ok_prop x1) as Hok1. { apply value_ok; [done..|]. rewrite not_clipped; [done|done|by rewrite Hv]. }
  assert (wf_subs A1 S) as HS1 by (by apply (subs_update _ _ _ x)).
  apply wp_bind. eapply wp_w_value; [exact H1|done|exact Ex1|done|]. intros st2 H2.
  assert (forall q, kids A1 q ⊆ kids A q) as Hk1.
  { intros q. unfold A1. rewrite kids_insert. destruct (decide (p = q)); [apply list_subseteq_nil|done]. }
  assert (forall c, c ∈ cs -> ~ below A c p) as Hnb.
  { intros c Hc Hb. destruct (t_height _ _ HT p) as [n Hn]. apply (hb_acyclic A n p c); [done|by rewrite Hk|done]. }
  eapply leads_mono; [eapply (destroy_orphans O p x1 cs A1 S _ st2 H2)|].
  - split; [|done|].
    + apply (wf_shrink O A p x x1); [done..| |done]. rewrite Hv. simpl. by rewrite app_nil_r.
    + apply (mirror_among K A S E p x x1); [done..|]. intros s y Hy _ Hw. rewrite (unless_watched _ _ _ y) by done.
      unfold value_notes. rewrite Hy. rewrite view_value; [done|done|apply Hw].
  - done.
  - intros Hin. apply (Hnb p); [done|]. apply rtc_refl.
  - intros c Hc Hb. apply (Hnb c Hc). by apply (below_kids A A1).
  - intros ? A' S' E' (Ep' & Hk' & Hf'). split; [done|intros q; by rewrite Hk', Hk1|]. intros q Hq. rewrite Hf'.
    + unfold A1. rewrite lookup_insert_ne; [done|]. intros <-. apply Hq, rtc_refl.
    + intros c Hc Hb. apply Hq. eapply rtc_l; [|by apply (below_kids A A1)]. unfold child_of. by rewrite Hk.
Qed.

(** Why a value may not be replaced: it has a clipping range, or a property
    below is subscribed to by its name. *)
Definition refused (A : ptree) (p : pid) (x : prop) : Prop :=
  hp_clipped x = true \/ exists c q, c ∈ kids A p /\ below A c q /\ csubs A q <> [].

Definition voided (x : prop) : prop := if is_dir (hp_val x) then set_val PVoid x else x.

Lemma voided_ok x : ok_prop x -> ok_prop (voided x).
Proof.
  intros Hok. unfold voided. destruct (is_dir (hp_val x)) eqn:Hd; [|done]. apply value_ok; [done..|]. by rewrite not_clipped.
Qed.
Lemma voided_childs x : childs (hp_val (voided x)) = [].
Proof. unfold voided. destruct (hp_val x) eqn:Hv; simpl; by rewrite ?Hv. Qed.
Lemma voided_set x v : set_val v (voided x) = set_val v x.
Proof. unfold voided. by destruct (is_dir (hp_val x)). Qed.
Lemma voided_same x : hp_parent (voided x) = hp_parent x /\ hp_value_subscriptions (voided x) = hp_value_subscriptions x /\
  hp_canonical_subscriptions (voided x) = hp_canonical_subscriptions x /\ hp_clipped (voided x) = hp_clipped x.
Proof. unfold voided. by destruct (is_dir (hp_val x)). Qed.

Lemma wp_clean O p x A S E st : at_ ∅ LP LS A S E st -> good K O A S E -> A !! p = Some x ->
  leads O (prop_clean prop_destroy0 p) (fun (r : bool) A' S' E' =>
    if r then refused A p x /\ A' = A /\ S' = S /\ E' = E else ~ refused A p x /\ cleared A A' p (voided x)) st.
Proof.
  intros H HG Ex. pose proof (t_ok _ _ (g_tree _ _ _ _ _ HG) p x Ex) as Hok. pose proof (kids_Some _ _ _ Ex) as Hk.
  unfold prop_clean. apply wp_bind. eapply wp_at_get; [exact H|exact Ex|]. intros x0 _ Hx0.
  assert (hp_clipped x0 = hp_clipped x) as -> by by rewrite Hx0. assert (hp_val x0 = hp_val x) as -> by by rewrite Hx0.
  destruct (hp_clipped x) eqn:Hc. { apply (leads_ret _ _ _ A S E); [done..|]. split; [by left|done]. }
  assert (kids A p = [] -> leads O (mret false) (fun (r : bool) A' S' E' =>
    if r then refused A p x /\ A' = A /\ S' = S /\ E' = E else ~ refused A p x /\ cleared A A' p x) st) as Hno.
  { intros Hn. apply (leads_ret _ _ _ A S E); [done..|]. split; [|by split].
    intros [?|(c & q & Hc' & _)]; [congruence|]. rewrite Hn in Hc'. by apply elem_of_nil in Hc'. }
  unfold voided. pose proof (ok_val _ Hok) as Hs.
  destruct (hp_val x) as [|cs sel| | | | | | |] eqn:Hv; try (by apply Hno); try (by destruct Hs).
  apply wp_bind, wp_here. eapply wp_mono; [apply (check_canonical O _ p A S E st H); [apply HG| |by eexists]|].
  - eapply hb_mono; [apply (hb_bound O A p); [apply HG|by eexists]|]. pose proof (alive_size st) as Ha.
    rewrite (at_alive _ _ _ _ _ _ _ H) in Ha. lia.
  - intros [s|] st' (-> & Hr).
    + apply (leads_ret _ _ _ A S E); [done..|]. split; [|done]. right. destruct Hr as (c & q & Hc1 & Hq & Hin).
      exists c, q. split; [done|]. split; [done|]. intros Hnil. rewrite Hnil in Hin. by apply elem_of_nil in Hin.
    + apply wp_bind. eapply wp_mono; [by apply (wp_destroy_childs0 O p x cs sel A S E)|].
      intros [] st1 (A1 & S1 & E1 & H1 & G1 & HP). apply (leads_ret _ _ _ A1 S1 E1); [done..|]. split; [|done].
      intros [?|(c & q & Hc1 & Hq & Hin)]; [congruence|]. by rewrite (Hr c q) in Hin.
Qed.

(** A property the client still refers to, but which has been destroyed. *)
Lemma wp_get_zombie p A S E (Q : prop -> store -> Prop) st : at_ ∅ LP LS A S E st -> is_Some (tree st !! p) ->
  A !! p = None ->
  (forall x0, st_props st !! p = Some x0 -> is_zombie (hp_val x0) = true -> clean x0 -> Q x0 st) -> wp (get_prop p) Q st.
Proof.
  intros H [x Ex] Hn HQ. assert (is_zombie (hp_val x) = true) as Hz.
  { destruct (is_zombie (hp_val x)) eqn:Hz; [done|]. rewrite <- (at_alive _ _ _ _ _ _ _ H) in Hn.
    assert (alive st !! p = Some x) by by apply alive_Some. congruence. }
  destruct (at_zombies _ _ _ _ _ _ _ H p x Ex Hz) as [[? Hd]|[C1 C2 C3]]; [by rewrite lookup_empty in Hd|].
  destruct (tree_inv _ _ _ Ex) as (x0 & E0 & ->). apply (wp_get_prop _ x0); [done|]. by apply HQ.
Qed.

(** ** [prop_set_xxx] *)

Definition plain_kind (v : pval) : Prop :=
  match v with PVoid | PRstring _ _ | PCstring _ | PUri _ _ => True | _ => False end.

(** A value is left alone when it is there already, or may not be replaced. *)
Definition kept (A : ptree) (p : pid) (x : prop) (same keep : pval -> bool) : Prop :=
  if keep (hp_val x) then same (hp_val x) = true else refused A p x.

Lemma set_value_spec O p x skipme same keep v A S E st :
  at_ ∅ LP LS A S E st -> good K O A S E -> A !! p = Some x -> skips skipme ->
  (forall u, keep u = true -> plain_kind u) -> plain_kind v ->
  leads O (set_value p skipme same keep v) (fun _ A' S' E' =>
    kept A p x same keep /\ A' = A /\ S' = S /\ E' = E \/
    ~ kept A p x same keep /\ cleared A A' p (set_val v x)) st.
Proof.
  intros H HG Ex Hsk Hkeep Hv. pose proof (t_ok _ _ (g_tree _ _ _ _ _ HG) p x Ex) as Hok.
  unfold set_value, kept. apply wp_bind. eapply wp_at_get; [exact H|exact Ex|]. intros x0 _ Hx0.
  assert (hp_val x0 = hp_val x) as -> by by rewrite Hx0. rewrite (at_live _ _ _ H Ex).
  assert (forall x1 A1 S1 E1 st1, at_ ∅ LP LS A1 S1 E1 st1 -> good K O A1 S1 E1 -> cleared A A1 p x1 -> hp_clipped x1 = false ->
    childs (hp_val x1) = [] -> set_val v x1 = set_val v x ->
    leads O (_ ← upd_prop p (set_val v); prop_notify_value p skipme 0) (fun _ A' S' E' => cleared A A' p (set_val v x)) st1) as Hset.
  { intros x1 A1 S1 E1 st1 H1 G1 [C1 C2 C3] Hc Hch Hx1.
    eapply leads_mono; [apply (wp_new_value O p x1 (set_val v) skipme 0 A1 S1 E1); try done|].
    - apply value_ok; [by apply (t_ok _ _ (g_tree _ _ _ _ _ G1) p)|by destruct v|congruence].
    - by destruct v.
    - intros ? A' S' E' [-> _]. rewrite Hx1. split.
      + apply lookup_insert_eq.
      + intros q. rewrite kids_insert. destruct (decide (p = q)) as [<-|]; [|apply C2]. destruct v; try done; apply list_subseteq_nil.
      + intros q Hq. rewrite lookup_insert_ne; [by apply C3|]. intros <-. apply Hq, rtc_refl. }
  destruct (keep (hp_val x)) eqn:Hk.
  - apply wp_bind, wp_ret. destruct (same (hp_val x)).
    + apply (leads_ret _ _ _ A S E); [done..|]. by left.
    + apply Hkeep in Hk. eapply leads_mono; [apply (Hset x A S E st H HG); [by split| | |done]|].
      * destruct (hp_clipped x) eqn:Hc; [|done]. apply (ok_clipped _ Hok) in Hc. by destruct (hp_val x).
      * by destruct (hp_val x).
      * intros ? A' S' E' HC. by right.
  - apply wp_bind. eapply wp_mono; [by apply (wp_clean O p x A S E)|].
    intros [|] st1 (A1 & S1 & E1 & H1 & G1 & HP).
    + apply (leads_ret _ _ _ A1 S1 E1); [done..|]. by left.
    + destruct HP as [Hr HC]. eapply leads_mono; [apply (Hset (voided x) A1 S1 E1 st1 H1 G1 HC)|].
      * destruct (voided_same x) as (_ & _ & _ & ->). destruct (hp_clipped x) eqn:Hc; [|done]. destruct Hr. by left.
      * apply voided_childs.
      * apply voided_set.
      * intros ? A' S' E' HC'. by right.
Qed.

Lemma set_value_zombie O p skipme same keep v A S E st : at_ ∅ LP LS A S E st -> good K O A S E ->
  is_Some (tree st !! p) -> A !! p = None ->
  leads O (set_value p skipme same keep v) (fun _ A' S' E' => A' = A /\ S' = S /\ E' = E) st.
Proof.
  intros H HG Ht Hn. apply wp_bind. eapply wp_get_zombie; [exact H|done|done|]. intros x0 _ Hz _. rewrite Hz.
  by apply (leads_ret _ _ _ A S E).
Qed.

(** * Creation *)

(** A property that may hold children. *)
Definition may_hold (x : prop) : Prop := is_dir (hp_val x) = true \/ hp_clipped x = false.

Definition as_dir (x : prop) : prop := if is_dir (hp_val x) then x else set_val (PDir [] None) x.

Lemma kids_non_dir A p x : A !! p = Some x -> is_dir (hp_val x) = false -> kids A p = [].
Proof. intros Ex Hd. rewrite (kids_Some _ _ _ Ex). by destruct (hp_val x). Qed.

Lemma wp_make_dir O p x skipme A S E st : at_ ∅ LP LS A S E st -> good K O A S E -> A !! p = Some x ->
  may_hold x -> skips skipme ->
  leads O (prop_make_dir prop_destroy0 p skipme) (fun _ A' S' E' => A' = <[p := as_dir x]> A /\ S' = S) st.
Proof.
  intros H HG Ex Hm Hsk. pose proof (t_ok _ _ (g_tree _ _ _ _ _ HG) p x Ex) as Hok.
  unfold prop_make_dir, as_dir. apply wp_bind. eapply wp_at_get; [exact H|exact Ex|]. intros x0 _ Hx0.
  assert (hp_val x0 = hp_val x) as -> by by rewrite Hx0.
  destruct (is_dir (hp_val x)) eqn:Hd; [apply (leads_ret _ _ _ A S E); [done..|by rewrite insert_id]|].
  assert (hp_clipped x = false) as Hc by (by destruct Hm as [Hm|Hm]; [rewrite Hd in Hm|]).
  assert (~ refused A p x) as Hr.
  { intros [?|(c & q & Hin & _)]; [congruence|]. rewrite (kids_non_dir _ _ _ Ex Hd) in Hin. by apply elem_of_nil in Hin. }
  apply wp_bind. unfold prop_clean. apply wp_bind. eapply wp_at_get; [exact H|exact Ex|]. intros x1 _ Hx1.
  assert (hp_clipped x1 = hp_clipped x) as -> by by rewrite Hx1. assert (hp_val x1 = hp_val x) as -> by by rewrite Hx1.
  rewrite Hc. assert (match hp_val x with
    | PDir _ _ => s ← here (fun n => prop_check_canonical_subs_descending n p);
        match s with Some _ => mret true | None => _ ← prop_destroy_childs0 prop_destroy0 p; mret false end
    | PZombie => mret true
    | PProp t => _ ← prop_ref_dec t; mret false
    | PVoid | PInt _ _ | PFloat _ _ | PCstring _ | PRstring _ _ | PUri _ _ => mret false
    end = mret false) as -> by (pose proof (ok_val _ Hok); by destruct (hp_val x)).
  apply wp_ret, wp_bind, wp_ret.
  apply (wp_new_value O p x (set_val (PDir [] None)) skipme 0 A S E); try done.
  - apply value_ok; [done..|congruence].
  - by destruct (hp_val x).
Qed.

Lemma wp_child_named D LP' LS' name cs A S E st : at_ D LP' LS' A S E st -> (forall c, c ∈ cs -> is_Some (A !! c)) ->
  wp (child_named name cs) (fun r st' => st' = st /\
    match r with
    | Some c => c ∈ cs /\ exists y, A !! c = Some y /\ hp_name y = Some name
    | None => forall c y, c ∈ cs -> A !! c = Some y -> hp_name y <> Some name
    end) st.
Proof.
  intros H. induction cs as [|c cs IH]; intros Hcs.
  - apply wp_ret. split; [done|]. by intros c y ?%elem_of_nil.
  - destruct (Hcs c) as [y Ey]; [left|]. apply wp_bind. eapply wp_at_get; [exact H|exact Ey|]. intros y0 _ Hy0.
    assert (hp_name y0 = hp_name y) as -> by by rewrite Hy0. destruct (decide (hp_name y = Some name)) as [Hn|Hn].
    + apply wp_ret. split; [done|]. split; [left|by exists y].
    + eapply wp_mono; [apply IH; intros d Hd; apply Hcs; by right|]. intros [d|] st' [-> Hr]; (split; [done|]).
      * destruct Hr as [Hd Hy]. by split; [right|].
      * intros d z [->|Hd]%elem_of_cons Ez; [congruence|]. by apply (Hr d).
Qed.

(** A new child is announced. *)
Lemma good_insert O A S E p x c z cs sel cs' skipme e : good K (c :: O) A S E -> A !! p = Some x -> A !! c = Some z ->
  hp_parent z = Some p -> hp_val x = PDir cs sel -> cs' ≡ₚ c :: cs -> ~ below A c p -> skips skipme ->
  view_event (VDir cs) e = VDir cs' -> is_destroyed e = false ->
  good K O (<[p := set_val (PDir cs' sel) x]> A) S
    (fun s => E s ++ among (hp_value_subscriptions x) (unless skipme (vis e)) s).
Proof.
  intros [HT HS HM] Ex Ez Hz Hv Hp Hb Hsk He Hd. pose proof (t_ok _ _ HT p x Ex) as Hok. set (x' := set_val _ x). split.
  - apply (wf_adopt O A p x x' c z); [done..| | |done|done].
    + apply value_ok; [done..|]. by rewrite not_clipped; [|done|rewrite Hv].
    + by rewrite Hv.
  - by apply (subs_update _ _ _ x).
  - apply (mirror_among K A S E p x x'); [done..|]. intros s y Hy _ Hw. rewrite (unless_watched _ _ _ y) by done.
    unfold vis. by rewrite Hd, Hv.
Qed.

Lemma insert_before_perm b c l l' : insert_before b c l = Some l' -> l' ≡ₚ c :: l.
Proof.
  revert l'. induction l as [|d l IH]; intros l'; simpl; [done|]. destruct (decide (d = b)) as [->|]; [by intros [= <-]|].
  destruct (insert_before b c l) as [l1|]; [|done]. intros [= <-]. rewrite (IH l1 eq_refl). apply perm_swap.
Qed.
Lemma place_perm b c l l' : place b c l = Some l' -> l' ≡ₚ c :: l.
Proof. destruct b as [b|]; [apply insert_before_perm|]. intros [= <-]. simpl. by rewrite Permutation_app_comm. Qed.
Lemma insert_before_in b c l : b ∈ l -> exists l', insert_before b c l = Some l'.
Proof.
  induction l as [|d l IH]; [by intros ?%elem_of_nil|]. simpl. destruct (decide (d = b)) as [->|Hne]; [by eexists|].
  intros [->|Hb]%elem_of_cons; [done|]. destruct (IH Hb) as [l' ->]. by eexists.
Qed.

Lemma wp_insert O c p x z cs sel before skipme A S E st :
  at_ ∅ LP LS A S E st -> good K (c :: O) A S E -> A !! p = Some x -> A !! c = Some z -> hp_parent z = Some p ->
  hp_val x = PDir cs sel -> ~ below A c p -> skips skipme -> (forall b, before = Some b -> b ∈ cs) ->
  leads O (prop_insert c p before skipme) (fun _ A' S' E' => S' = S /\
    exists cs', place before c cs = Some cs' /\ A' = <[p := set_val (PDir cs' sel) x]> A) st.
Proof.
  intros H HG Ex Ez Hz Hv Hb Hsk Hbef. pose proof (kids_Some _ _ _ Ex) as Hk. rewrite Hv in Hk. simpl in Hk.
  assert (exists cs', place before c cs = Some cs') as [cs' Hpl].
  { destruct before as [b|]; [|by eexists]. by apply insert_before_in, Hbef. }
  pose proof (place_perm _ _ _ _ Hpl) as Hperm. assert (p <> c) as Hpc by (intros ->; apply Hb, rtc_refl).
  assert (forall e, child_event e -> (forall q, Some q ∈ event_props e -> q ∈ c :: cs) ->
    view_event (VDir cs) e = VDir cs' -> is_destroyed e = false ->
    leads O (_ ← edit_childs p (place before c); prop_notify_child p e skipme) (fun _ A' S' E' => S' = S /\
      exists cs', place before c cs = Some cs' /\ A' = <[p := set_val (PDir cs' sel) x]> A) st) as Hgo.
  { intros e He Hq Hve Hd. apply wp_bind. eapply wp_w_edit; [exact H|exact Ex|exact Hv|exact Hpl|]. intros st1 H1.
    eapply wp_w_child; [exact H1| |apply lookup_insert_eq|done| |].
    - apply (subs_update _ _ _ x); [apply HG|done..].
    - intros q Hin. left. destruct (decide (p = q)) as [<-|Hne]; [rewrite lookup_insert_eq; by eexists|].
      rewrite lookup_insert_ne by done. apply Hq, elem_of_cons in Hin as [->|Hin]; [by eexists|].
      apply (kid_alive (c :: O) A p); [apply HG|by rewrite Hk].
    - intros st2 H2. eexists _, _, _. split; [exact H2|]. split; [exact (good_insert O A S E p x c z cs sel cs' skipme e HG Ex Ez Hz Hv Hperm Hb Hsk Hve Hd)|]. split; [done|]. by exists cs'. }
  unfold prop_insert. destruct before as [b|].
  - assert (b ∈ kids A p) as Hbk by (rewrite Hk; by apply Hbef).
    destruct (t_child _ _ (g_tree _ _ _ _ _ HG) p b Hbk) as (_ & y & Ey & Hy).
    apply wp_bind. eapply wp_at_get; [exact H|exact Ey|]. intros y0 _ Hy0. apply wp_bind, wp_passert.
    { apply bool_decide_eq_true. by rewrite Hy0 in Hy. }
    apply Hgo; [eexists; split; [done|apply perm_swap]| | |done].
    + intros q [[= ->]|Hq]%elem_of_cons; [left|]. apply list_elem_of_singleton in Hq as [= ->]. right. by apply Hbef.
    + simpl. simpl in Hpl. by rewrite Hpl.
  - apply Hgo; [by eexists| | |done].
    + intros q Hq. apply list_elem_of_singleton in Hq as [= ->]. left.
    + simpl. simpl in Hpl. by injection Hpl as <-.
Qed.

End ops.
