(* ===== verification/PropEdit.v ===== *)
(** The operations of the property tree on good worlds, continued: new
    properties, the order of children, parents, and whole trees. *)
From S2P Require Import Prelude PropStore PropTree PropSub PropLogic PropWorld PropQueue PropWf PropMirror PropDestroy PropOps.

Local Open Scope Z_scope.

Section edit.
Variable K : sid -> Prop.
Context {LP : list (option pid)} {LS : list sid}.
#[local] Notation leads := (leads K (LP := LP) (LS := LS)).
#[local] Notation skips := (skips K).

(** * Creation *)

(** A property of that name without children. *)
Definition leaf (name : option (list Z)) (noalloc : bool) (parent : option pid) : prop :=
  Prop_ 0 name parent None [] [] [] PVoid 1 false noalloc false false false false false.

Lemma leaf_ok name noalloc parent : ok_prop (leaf name noalloc parent).
Proof. by split. Qed.

Lemma wp_make O name noalloc parent A S E st : at_ ∅ LP LS A S E st -> good K O A S E ->
  wp (prop_make name noalloc parent) (fun c st' => A !! c = None /\ at_ ∅ LP LS (<[c := leaf name noalloc parent]> A) S E st' /\
    good K (c :: O) (<[c := leaf name noalloc parent]> A) S E) st.
Proof.
  intros H HG. unfold prop_make. apply wp_bind. eapply wp_at_new; [exact H|]. intros c st1 H1 Hf _.
  pose proof (fresh_alive _ _ H1 Hf) as Hn. apply wp_bind. eapply wp_at_new_prop; [exact H1|done|done|done|].
  intros st2 H2. apply wp_ret. split; [done|]. split; [exact H2|]. destruct HG as [HT HS HM]. split.
  - apply wf_new; [done|done|apply leaf_ok|done].
  - by apply subs_new.
  - by apply mirror_new.
Qed.

Lemma wp_create_root name noalloc A S E st : at_ ∅ LP LS A S E st -> good K [] A S E ->
  leads [] (prop_create_root_ex name noalloc) (fun c A' S' E' => A !! c = None /\
    A' = <[c := leaf name noalloc None]> A /\ S' = S /\ E' = E) st.
Proof.
  intros H HG. eapply wp_mono; [by eapply (wp_make [] name noalloc None A S E)|]. intros c st' (Hn & H' & HG').
  eexists _, S, E. split; [exact H'|]. split; [|done]. destruct HG' as [HT HS HM]. split; [|done|done].
  eapply wf_root; [exact HT|apply lookup_insert_eq|done].
Qed.

(** [c] is the child [name] of [p], and was appended if there was none. *)
Record child_made (A A' : ptree) (p : pid) (name : option (list Z)) (c : pid) : Prop := {
  cm_child : exists z, A' !! c = Some z /\ hp_name z = name /\ hp_parent z = Some p;
  cm_kids : c ∈ kids A p /\ kids A' p = kids A p \/
    (A !! c = None /\ kids A' p = kids A p ++ [c] /\
     forall n d y, name = Some n -> d ∈ kids A p -> A !! d = Some y -> hp_name y <> Some n);
  cm_frame q : q <> p -> q <> c -> A' !! q = A !! q
}.

Lemma as_dir_val x : exists sel, hp_val (as_dir x) = PDir (childs (hp_val x)) sel.
Proof. unfold as_dir. destruct (hp_val x) as [|cs sel| | | | | | |] eqn:Hv; simpl; rewrite ?Hv; by eexists. Qed.

Lemma below_leaf A c p : kids A c = [] -> below A c p -> p = c.
Proof. intros Hk H. inversion H as [|a b d Hab Hbd]; subst; [done|]. unfold child_of in Hab. rewrite Hk in Hab. by apply elem_of_nil in Hab. Qed.

Lemma ok_name n b x : ok_prop x -> ok_prop (set_name n b x).
Proof. by intros [? ? ? ? ? ? ? ?]. Qed.

Lemma wp_create0 O p x name skipme noalloc A S E st : at_ ∅ LP LS A S E st -> good K O A S E -> A !! p = Some x ->
  may_hold x -> skips skipme ->
  leads O (prop_create0 prop_destroy0 p name skipme noalloc) (fun c A' S' E' => S' = S /\ child_made A A' p name c) st.
Proof.
  intros H HG Ex Hm Hsk. pose proof (at_live _ _ _ H Ex) as Hl. unfold prop_create0.
  apply wp_bind. eapply wp_at_get; [exact H|exact Ex|]. intros x0 _ Hx0.
  assert (hp_val x0 = hp_val x) as -> by by rewrite Hx0. rewrite Hl. apply wp_bind, wp_passert; [done|].
  apply wp_bind. eapply wp_mono; [by eapply (wp_make_dir K O p x skipme A S E)|].
  intros u st1 (A1 & S1 & E1 & H1 & G1 & -> & ->). set (A1 := <[p := as_dir x]> A) in *.
  assert (A1 !! p = Some (as_dir x)) as Ex1 by apply lookup_insert_eq. destruct (as_dir_val x) as [sel Hv].
  assert (kids A p = childs (hp_val x)) as Hk0 by by apply kids_Some.
  assert (forall q, kids A1 q = kids A q) as Hk1.
  { intros q. unfold A1. rewrite kids_insert. destruct (decide (p = q)) as [<-|]; [|done]. by rewrite Hv, Hk0. }
  assert (forall q, q <> p -> A1 !! q = A !! q) as Hf1 by (intros q Hq; unfold A1; by rewrite lookup_insert_ne).
  pose proof (t_ok _ _ (g_tree _ _ _ _ _ G1) p _ Ex1) as Hok1.
  apply wp_bind. eapply wp_at_get; [exact H1|exact Ex1|]. intros x1 _ Hx1.
  assert (hp_val x1 = PDir (kids A p) sel) as -> by (rewrite Hk0, <- Hv, Hx1; done). simpl childs.
  assert (hp_multi_sub x1 || hp_multi_notify x1 = false) as ->.
  { change (hp_multi_sub (tprop x1) || hp_multi_notify (tprop x1) = false). rewrite <- Hx1.
    by rewrite (ok_multi_sub _ Hok1), (ok_multi_notify _ Hok1). }
  assert (forall c, c ∈ kids A p -> c <> p /\ exists y, A !! c = Some y /\ hp_parent y = Some p) as Hkid.
  { intros c Hc. destruct (t_child _ _ (g_tree _ _ _ _ _ HG) p c Hc) as (_ & y & Ey & Hy). split; [|by exists y].
    intros ->. destruct (t_height _ _ (g_tree _ _ _ _ _ HG) p) as [n Hn]. by apply (hb_acyclic A n p p Hn Hc), rtc_refl. }
  apply wp_bind. eapply (wp_mono _ (fun r st' => st' = st1 /\ match r with
    | Some c => c ∈ kids A p /\ exists y, A1 !! c = Some y /\ hp_name y = name
    | None => forall n c y, name = Some n -> c ∈ kids A p -> A1 !! c = Some y -> hp_name y <> Some n end)).
  { destruct name as [n|]; [|by apply wp_ret].
    eapply wp_mono; [eapply (wp_child_named _ LP LS n (kids A p) A1 S E1 st1 H1)|].
    - intros c Hc. destruct (Hkid c Hc) as (Hne & y & Ey & _). rewrite Hf1, Ey by done. by eexists.
    - intros [c|] st' [-> Hr]; (split; [done|]); [done|]. intros n' c y [= <-]. apply Hr. }
  intros [c|] st' [-> Hr].
  - destruct Hr as (Hc & y & Ey & Hn). destruct (Hkid c Hc) as (Hne & y' & Ey' & Hy'). rewrite Hf1 in Ey by done.
    assert (y' = y) as -> by congruence. assert (A1 !! c = Some y) as Ey1 by by rewrite Hf1.
    apply wp_bind. eapply wp_at_get; [exact H1|exact Ey1|]. intros y0 Ey0 Hy0. apply wp_bind.
    assert (child_made A A1 p name c) as Hcm.
    { split; [by exists y|left; by rewrite Hk1|]. intros q Hq _. by apply Hf1. }
    destruct (negb (hp_noalloc y0) && noalloc); [|by apply wp_ret, wp_ret; exists A1, S, E1].
    eapply (wp_at_put c y0); [exact H1|done|by rewrite Hy0 in Ey1; apply (at_live _ _ _ H1 Ey1)|by rewrite Hy0 in Ey1; apply (at_live _ _ _ H1 Ey1)|done|].
    intros st2 H2. apply wp_ret. change (tprop (set_name name true y0)) with (set_name name true (tprop y0)) in H2. rewrite <- Hy0 in H2.
    eexists _, S, E1. split; [exact H2|]. split; [apply (good_update K O A1 S E1 c y); [done|done| |done..]|split; [done|split]].
    + apply ok_name. by apply (t_ok _ _ (g_tree _ _ _ _ _ HG) c).
    + exists (set_name name true y). by rewrite lookup_insert_eq.
    + left. split; [done|]. by rewrite kids_insert, decide_False by done.
    + intros q Hq Hqc. rewrite lookup_insert_ne by done. by apply Hf1.
  - apply wp_bind. eapply wp_mono; [by eapply (wp_make O name noalloc (Some p) A1 S E1)|].
    intros c st2 (Hn & H2 & G2). apply wp_bind, wp_ret, wp_bind. set (z := leaf name noalloc (Some p)) in *. set (A2 := <[c := z]> A1) in *.
    assert (p <> c) as Hpc by congruence. assert (A2 !! c = Some z) as Ez by apply lookup_insert_eq.
    eapply wp_mono; [eapply (wp_insert K O c p (as_dir x) z _ sel None skipme A2 S E1 st2 H2 G2); [|done|done|exact Hv| |done|done]|].
    + unfold A2. by rewrite lookup_insert_ne.
    + intros Hb. apply Hpc. apply (below_leaf A2); [|done]. by rewrite (kids_Some _ _ _ Ez).
    + intros u' st3 (A3 & S3 & E3 & H3 & G3 & -> & cs' & Hcs & ->). apply wp_ret. eexists _, S, E3. split; [exact H3|]. split; [done|].
      split; [done|]. rewrite <- Hk0 in Hcs. injection Hcs as <-. split.
      * exists z. by rewrite lookup_insert_ne.
      * right. split; [by rewrite <- Hf1|]. split; [by rewrite kids_insert, decide_True|].
        intros n d y Hname Hd Ey. apply (Hr n d y Hname Hd). rewrite Hf1; [done|]. by apply Hkid.
      * intros q Hq Hqc. rewrite lookup_insert_ne by done. unfold A2. rewrite lookup_insert_ne by done. by apply Hf1.
Qed.

Lemma wp_create O p x name skipme noalloc A S E st : at_ ∅ LP LS A S E st -> good K O A S E -> A !! p = Some x ->
  may_hold x -> skips skipme ->
  leads O (prop_create_ex (Some p) name skipme noalloc false)
    (fun r A' S' E' => exists c, r = Some c /\ S' = S /\ child_made A A' p name c) st.
Proof.
  intros H HG Ex Hm Hsk. unfold prop_create_ex. apply wp_bind, wp_bind. eapply wp_at_get; [exact H|exact Ex|]. intros x0 _ Hx0.
  assert (hp_val x0 = hp_val x) as -> by by rewrite Hx0. rewrite (at_live _ _ _ H Ex).
  apply wp_bind. eapply wp_mono; [by eapply (wp_create0 O p x name skipme noalloc A S E)|].
  intros c st' (A' & S' & E' & H' & G' & HP). apply wp_ret, wp_ret. exists A', S', E'. split; [done|]. split; [done|]. by exists c.
Qed.

(** * The order of children *)

Lemma wp_next_child O p x c A S E st : at_ ∅ LP LS A S E st -> wf_tree O A -> A !! p = Some x -> c ∈ kids A p ->
  wp (next_child p c) (fun r st' => st' = st /\ after c (kids A p) = Some r) st.
Proof.
  intros H HT Ex Hc. unfold next_child. apply wp_bind. eapply wp_at_get; [exact H|exact Ex|]. intros x0 _ Hx0.
  assert (childs (hp_val x0) = kids A p) as -> by (rewrite (kids_Some _ _ _ Ex), Hx0; done).
  assert (exists r, after c (kids A p) = Some r) as [r Hr].
  { clear -Hc. induction (kids A p) as [|d l IH]; [by apply elem_of_nil in Hc|]. simpl. destruct (decide (d = c)) as [|Hne]; [by eexists|].
    apply IH. by apply elem_of_cons in Hc as [->|]. }
  rewrite Hr. by apply wp_ret.
Qed.

(** Children in another order. *)
Lemma good_reorder O A S E p x c cs sel cs' before skipme : good K O A S E -> A !! p = Some x ->
  hp_val x = PDir cs sel -> c ∈ cs -> place before c (unlink c cs) = Some cs' -> skips skipme ->
  good K O (<[p := set_val (PDir cs' sel) x]> A) S
    (fun s => E s ++ among (hp_value_subscriptions x) (unless skipme (vis (MoveChild c before))) s).
Proof.
  intros [HT HS HM] Ex Hv Hc Hpl Hsk. pose proof (t_ok _ _ HT p x Ex) as Hok. set (x' := set_val _ x).
  pose proof (t_nodup _ _ HT p) as Hnd. rewrite (kids_Some _ _ _ Ex), Hv in Hnd. simpl in Hnd. split.
  - apply (wf_shrink O A p x x' []); [done..| | |done].
    + apply value_ok; [done..|]. by rewrite not_clipped; [|done|rewrite Hv].
    + rewrite Hv. simpl. rewrite (place_perm _ _ _ _ Hpl). by apply unlink_perm.
  - by apply (subs_update _ _ _ x).
  - apply (mirror_among K A S E p x x'); [done..|]. intros s y Hy _ Hw. rewrite (unless_watched K _ _ _ y) by done.
    rewrite Hv. simpl. by rewrite Hpl.
Qed.

Lemma set_val_id x : set_val (hp_val x) x = x.
Proof. by destruct x. Qed.

(** An element that is there already. *)
Lemma place_after p l r : NoDup l -> after p l = Some r -> place r p (unlink p l) = Some l.
Proof.
  assert (forall d l, d <> p -> unlink p (d :: l) = d :: unlink p l) as Hc.
  { intros d l' Hd. unfold unlink. by rewrite filter_cons_True. }
  assert (forall k, p ∉ k -> unlink p k = k) as Hn.
  { intros k. induction k as [|d k IH]; [done|]. intros [Hd Hl]%not_elem_of_cons. rewrite Hc by congruence. by rewrite IH. }
  intros Hnd. induction Hnd as [|d l Hd Hl IH]; [done|]. simpl. destruct (decide (d = p)) as [->|Hne].
  - intros [= <-]. assert (unlink p (p :: l) = l) as -> by (unfold unlink; rewrite filter_cons_False by (by intros H); by apply Hn).
    destruct l as [|e l]; simpl; [done|]. by rewrite decide_True.
  - intros Hr. specialize (IH Hr). rewrite Hc by done. destruct r as [b|]; simpl in *.
    + rewrite decide_False.
      * unfold mbind, option_bind. by rewrite IH.
      * intros ->. apply Hd. clear -Hr. induction l as [|e l IH]; [done|]. simpl in Hr. destruct (decide (e = p)) as [->|].
        { destruct l; [done|]. injection Hr as ->. right. left. }
        right. by apply IH.
    + unfold insert_tail in *. injection IH as IH. simpl. by rewrite IH.
Qed.

Lemma wp_move0 O p x before skipme A S E st : at_ ∅ LP LS A S E st -> good K O A S E -> A !! p = Some x -> p ∉ O ->
  skips skipme -> before <> Some p -> (forall b, before = Some b -> is_Some (A !! b) /\ b ∉ O) ->
  leads O (prop_move0 p before skipme) (fun _ A' S' E' => S' = S /\
    (A' = A /\ (forall q, hp_parent x = Some q -> exists b, before = Some b /\ b ∉ kids A q) \/ exists q y cs sel cs', hp_parent x = Some q /\ A !! q = Some y /\ hp_val y = PDir cs sel /\
       place before p (unlink p cs) = Some cs' /\ A' = <[q := set_val (PDir cs' sel) y]> A)) st.
Proof.
  intros H HG Ex HO Hsk Hne Hbef. pose proof (g_tree _ _ _ _ _ HG) as HT. unfold prop_move0.
  apply wp_bind, wp_passert. { apply negb_true_iff. by apply bool_decide_eq_false. }
  apply wp_bind. eapply wp_at_get; [exact H|exact Ex|]. intros x0 _ Hx0. assert (hp_parent x0 = hp_parent x) as -> by by rewrite Hx0.
  apply wp_bind. eapply (wp_mono _ (fun same st' => st' = st /\ if same : bool then forall b, before = Some b ->
    exists y, A !! b = Some y /\ hp_parent y = hp_parent x
    else exists b y, before = Some b /\ A !! b = Some y /\ hp_parent y <> hp_parent x)).
  { destruct before as [b|]; [|by apply wp_ret]. destruct (Hbef b eq_refl) as [[y Ey] _]. apply wp_bind. eapply wp_at_get; [exact H|exact Ey|].
    intros y0 _ Hy0. apply wp_ret. split; [done|]. assert (hp_parent y0 = hp_parent y) as -> by by rewrite Hy0.
    destruct (bool_decide_reflect (hp_parent x = hp_parent y)); [|by exists b, y]. intros b' [= <-]. by exists y. }
  intros [|] st' [-> Hsame]; simpl.
  2: { apply (leads_ret K _ _ _ A S E); [done..|]. split; [done|]. left. split; [done|]. intros q Hq.
       destruct Hsame as (b & y & -> & Ey & Hy). exists b. split; [done|]. intros Hin.
       destruct (t_child _ _ HT q b Hin) as (_ & y' & Ey' & Hy'). congruence. }
  destruct (hp_parent x) as [q|] eqn:Hp; [|apply (leads_ret K _ _ _ A S E); [done..|]; split; [done|]; left; by split; [|intros ? [=]]].
  destruct (parent_dir O A p x q HT Ex HO Hp) as (Hqp & y & cs & sel & Ey & Hv & Hin).
  pose proof (kids_Some _ _ _ Ey) as Hk. rewrite Hv in Hk. simpl in Hk.
  apply wp_bind. eapply wp_mono; [eapply (wp_next_child O q y p A S E st H HT Ey); by rewrite Hk|]. intros next st' [-> Hnext].
  destruct (bool_decide_reflect (next = before)) as [->|_].
  { apply (leads_ret K _ _ _ A S E); [done..|]. split; [done|]. right. exists q, y, cs, sel, cs. do 3 (split; [done|]).
    rewrite Hk in Hnext. split; [|by rewrite <- Hv, set_val_id, insert_id]. apply place_after; [|done].
    rewrite <- Hk. apply HT. }
  assert (exists cs', place before p (unlink p cs) = Some cs') as [cs' Hpl].
  { destruct before as [b|]; [|by eexists]. destruct (Hsame b eq_refl) as (z & Ez & Hz). destruct (Hbef b eq_refl) as [_ HbO].
    apply insert_before_in. unfold unlink. apply list_elem_of_filter. split; [congruence|]. rewrite <- Hk.
    by destruct (t_parent _ _ HT b z q Ez Hz). }
  apply wp_bind. eapply wp_w_edit; [exact H|exact Ey|exact Hv|unfold remove_child; by rewrite decide_True|]. intros st1 H1.
  apply wp_bind. eapply wp_w_edit; [exact H1|apply lookup_insert_eq|done|exact Hpl|]. intros st2 H2. rewrite insert_insert_eq in H2.
  change (set_val (PDir cs' sel) (set_val (PDir (unlink p cs) sel) y)) with (set_val (PDir cs' sel) y) in H2.
  set (A1 := <[q := set_val (PDir cs' sel) y]> A) in *. eapply wp_w_child; [exact H2| |apply lookup_insert_eq|eexists; split; [done|apply perm_swap]| |].
  - apply (subs_update _ _ _ y); [apply HG|done..].
  - assert (forall r, is_Some (A !! r) -> is_Some (A1 !! r)) as HA.
    { intros r [w Hw]. unfold A1. destruct (decide (q = r)) as [<-|]; [rewrite lookup_insert_eq|rewrite lookup_insert_ne by done]; by eexists. }
    intros r Hr. left. apply HA. apply elem_of_cons in Hr as [[= ->]|Hr]; [by eexists|]. apply list_elem_of_singleton in Hr as <-. by apply Hbef.
  - intros st3 H3. eexists _, _, _. split; [exact H3|]. split; [by apply (good_reorder O A S E q y p cs sel cs')|]. split; [done|].
    right. by exists q, y, cs, sel, cs'.
Qed.

(** An event that changes no view. *)
Lemma good_told O A S E p x e skipme : good K O A S E -> A !! p = Some x ->
  (forall w, view_event w e = w) ->
  good K O A S (fun s => E s ++ among (hp_value_subscriptions x) (unless skipme (vis e)) s).
Proof.
  intros [HT HS HM] Ex He. split; [done|done|]. rewrite <- (insert_id A p x Ex) at 1.
  apply (mirror_among K A S E p x x); [done..|]. intros s y Hy _ Hw. unfold unless, vis.
  destruct (skipped s skipme), (is_destroyed e); simpl; rewrite ?He; done.
Qed.

Lemma wp_tell O p x e skipme A S E st : at_ ∅ LP LS A S E st -> good K O A S E -> A !! p = Some x -> child_event e ->
  (forall q, Some q ∈ event_props e -> is_Some (A !! q)) -> (forall w, view_event w e = w) ->
  leads O (prop_notify_child p e skipme) (fun _ A' S' E' => A' = A /\ S' = S) st.
Proof.
  intros H HG Ex He Hq Hw. eapply wp_w_child; [exact H|apply HG|exact Ex|done|intros r Hr; left; by apply Hq|]. intros st' H'.
  eexists _, _, _. split; [exact H'|]. split; [by apply (good_told O A S E p x e skipme)|done].
Qed.

Lemma wp_req_move O p x q before skipme A S E st : at_ ∅ LP LS A S E st -> good K O A S E -> A !! p = Some x -> p ∉ O ->
  hp_parent x = Some q -> (forall b, before = Some b -> is_Some (A !! b)) ->
  leads O (prop_req_move0 p before skipme) (fun _ A' S' E' => A' = A /\ S' = S) st.
Proof.
  intros H HG Ex HO Hp Hbef. unfold prop_req_move0. destruct (bool_decide (before = Some p)); [by apply (leads_ret K _ _ _ A S E)|].
  apply wp_bind. eapply wp_at_get; [exact H|exact Ex|]. intros x0 _ Hx0. assert (hp_parent x0 = Some q) as -> by (by rewrite Hx0 in Hp).
  pose proof (g_tree _ _ _ _ _ HG) as HT. destruct (parent_dir O A p x q HT Ex HO Hp) as (Hqp & y & cs & sel & Ey & Hv & Hin).
  apply wp_bind. eapply wp_mono; [eapply (wp_next_child O q y p A S E st H HT Ey); by rewrite (kids_Some _ _ _ Ey), Hv|].
  intros next st' [-> _]. destruct (bool_decide (next = before)); [by apply (leads_ret K _ _ _ A S E)|].
  eapply (wp_tell O q y); [done..|eexists; split; [done|apply perm_swap]| |done].
  intros r Hr. apply elem_of_cons in Hr as [[= ->]|Hr]; [by eexists|]. apply list_elem_of_singleton in Hr as <-. by apply Hbef.
Qed.

(** * Parents *)

(** The child [p], which is [x], is taken out of the tree. *)
Definition detached (A : ptree) (p : pid) (x : prop) : ptree :=
  match hp_parent x with
  | Some q => match A !! q with Some y => <[q := rm_child p y]> (<[p := set_parent None x]> A) | None => A end
  | None => A
  end.

Lemma wp_unparent0 O p x skipme A S E st : at_ ∅ LP LS A S E st -> good K O A S E -> A !! p = Some x -> p ∉ O ->
  leads O (prop_unparent0 p skipme) (fun _ A' S' E' => A' = detached A p x /\ S' = S) st.
Proof.
  intros H HG Ex HO. pose proof (g_tree _ _ _ _ _ HG) as HT. pose proof (t_ok _ _ HT p x Ex) as Hok. unfold prop_unparent0, detached.
  apply wp_bind. eapply wp_at_get; [exact H|exact Ex|]. intros x0 _ Hx0.
  assert (hp_parent x0 = hp_parent x) as -> by by rewrite Hx0.
  assert (hp_multi_notify x0 = false) as -> by (change (hp_multi_notify (tprop x0) = false); rewrite <- Hx0; apply Hok).
  destruct (hp_parent x) as [q|] eqn:Hp; [|by apply (leads_ret K _ _ _ A S E)].
  destruct (parent_dir O A p x q HT Ex HO Hp) as (Hqp & y & cs & sel & Ey & Hv & Hin). rewrite Ey.
  apply wp_bind, wp_passert; [done|]. apply wp_bind. eapply wp_w_child; [exact H|apply HG|exact Ey|by exists [Some p]| |].
  { intros r Hr. apply list_elem_of_singleton in Hr as [= ->]. left. by eexists. }
  intros st1 H1. apply wp_bind. eapply wp_w_edit; [exact H1|exact Ey|exact Hv|unfold remove_child; by rewrite decide_True|].
  intros st2 H2. apply wp_bind. eapply wp_at_upd; [exact H2|rewrite lookup_insert_ne by done; exact Ex|done|by apply (at_live _ _ _ H Ex)|].
  intros st3 H3. eapply (wp_w_deselect (D := ∅) q _ (unlink p cs) sel); [exact H3|rewrite lookup_insert_ne, lookup_insert_eq by done; done|done|].
  intros st4 H4. eexists _, _, _. split; [exact H4|].
  assert (<[q := set_val (PDir (unlink p cs) (unselect p sel)) (set_val (PDir (unlink p cs) sel) y)]>
    (<[p := set_parent None x]> (<[q := set_val (PDir (unlink p cs) sel) y]> A)) =
    <[q := rm_child p y]> (<[p := set_parent None x]> A)) as ->.
  { rewrite (insert_insert_ne _ p q) by done. rewrite insert_insert_eq. unfold rm_child. by rewrite Hv. }
  split; [|done]. rewrite insert_insert_ne by done.
  pose proof (good_detach K O A S E q y cs sel p x HG Ey Hv Hin Ex) as [GT GS GM].
  assert (<[p := set_parent None x]> (<[q := rm_child p y]> A) =
    <[q := rm_child p y]> (<[p := set_parent None x]> (<[q := set_val (PDir (unlink p cs) sel) y]> A))) as ->.
  { by rewrite (insert_insert_ne _ q p), insert_insert_eq by done. }
  apply (good_update K O _ S _ q (set_val (PDir (unlink p cs) sel) y)).
  - by split.
  - by rewrite lookup_insert_ne, lookup_insert_eq by done.
  - apply rm_child_ok. by apply (t_ok _ _ HT q).
  - by rewrite childs_rm, Hv.
  - unfold rm_child. by rewrite Hv.
  - by destruct (rm_child_same p y) as (? & ? & ?).
  - by destruct (rm_child_same p y) as (? & ? & ?).
  - by destruct (rm_child_same p y) as (? & ? & ?).
Qed.

(** A property with a parent is out of its list; the others keep theirs. *)
Lemma detached_spec O A S E p x : good K O A S E -> A !! p = Some x -> p ∉ O ->
  detached A p x !! p = Some (set_parent None x) /\ (forall q, kids (detached A p x) q ⊆ kids A q) /\
  (forall q, q <> p -> hp_parent x <> Some q -> detached A p x !! q = A !! q).
Proof.
  intros HG Ex HO. unfold detached. destruct (hp_parent x) as [q|] eqn:Hp.
  - destruct (parent_dir O A p x q (g_tree _ _ _ _ _ HG) Ex HO Hp) as (Hqp & y & cs & sel & Ey & Hv & Hin). rewrite Ey. split; [|split].
    + by rewrite lookup_insert_ne, lookup_insert_eq.
    + intros r. rewrite !kids_insert. destruct (decide (q = r)) as [<-|].
      * rewrite childs_rm, (kids_Some _ _ _ Ey). unfold unlink. intros d. rewrite list_elem_of_filter. tauto.
      * destruct (decide (p = r)) as [<-|]; [|done]. by rewrite (kids_Some _ _ _ Ex).
    + intros r Hr Hqr. by rewrite !lookup_insert_ne by congruence.
  - split; [|done]. rewrite Ex. f_equal. destruct x; simpl in *. by rewrite Hp.
Qed.

Lemma wp_set_parent0 p parent x y before skipme A S E st : at_ ∅ LP LS A S E st -> good K [] A S E ->
  A !! parent = Some x -> A !! p = Some y -> may_hold x -> skips skipme -> ~ below A p parent ->
  (forall b, before = Some b -> b ∈ kids A parent /\ b <> p) ->
  leads [] (prop_set_parent0 p parent before skipme) (fun r A' S' E' => r = 0 /\ S' = S /\
    (hp_parent y <> Some parent -> A' !! p = Some (set_parent (Some parent) y) /\
       place before p (kids A parent) = Some (kids A' parent))) st.
Proof.
  intros H HG Ex Ey Hm Hsk Hnb Hbef. unfold prop_set_parent0. assert (parent <> p) as Hpp by (intros ->; apply Hnb, rtc_refl).
  apply wp_bind. eapply wp_at_get; [exact H|exact Ex|]. intros x0 _ Hx0.
  assert (hp_val x0 = hp_val x) as -> by by rewrite Hx0. rewrite (at_live _ _ _ H Ex).
  apply wp_bind. eapply wp_mono; [by eapply (wp_make_dir K [] parent x skipme A S E)|].
  intros u st1 (A1 & S1 & E1 & H1 & G1 & -> & ->). set (A1 := <[parent := as_dir x]> A) in *.
  assert (A1 !! p = Some y) as Ey1 by (unfold A1; by rewrite lookup_insert_ne).
  destruct (as_dir_val x) as [sel Hv]. assert (kids A parent = childs (hp_val x)) as Hk0 by by apply kids_Some. rewrite <- Hk0 in Hv.
  assert (forall q, kids A1 q = kids A q) as Hk1.
  { intros q. unfold A1. rewrite kids_insert. destruct (decide (parent = q)) as [<-|]; [|done]. by rewrite Hv. }
  apply wp_bind. eapply wp_at_get; [exact H1|exact Ey1|]. intros y0 _ Hy0. assert (hp_parent y0 = hp_parent y) as -> by by rewrite Hy0.
  assert (p ∉ @nil pid) as HO by apply not_elem_of_nil.
  destruct (bool_decide_reflect (hp_parent y = Some parent)) as [Hpar|Hpar]; simpl.
  - apply wp_bind. eapply wp_mono; [eapply (wp_move0 [] p y before skipme A1 S E1); [done..| |]|].
    + intros ->. by destruct (Hbef p eq_refl).
    + intros b Hb. split; [|apply not_elem_of_nil]. destruct (Hbef b Hb) as [Hbk _]. rewrite <- Hk1 in Hbk.
      apply (kid_alive [] A1 parent); [apply G1|done].
    + intros u' st2 (A2 & S2 & E2 & H2 & G2 & -> & _). apply wp_ret. exists A2, S, E2. done.
  - apply wp_bind, wp_bind. eapply wp_mono; [by eapply (wp_unparent0 [] p y skipme A1 S E1)|].
    intros u' st2 (A2 & S2 & E2 & H2 & G2 & -> & ->).
    destruct (detached_spec [] A1 S E1 p y G1 Ey1 HO) as (Ey2 & Hk2 & Hf2). set (A2 := detached A1 p y) in *.
    assert (A2 !! parent = Some (as_dir x)) as Ex2 by (rewrite Hf2; [apply lookup_insert_eq|done|done]).
    apply wp_bind. eapply wp_at_upd; [exact H2|exact Ey2|done|by apply (at_live _ _ _ H Ey)|]. intros st3 H3.
    set (A3 := <[p := _]> A2) in *. assert (A3 !! parent = Some (as_dir x)) as Ex3 by (unfold A3; by rewrite lookup_insert_ne).
    apply wp_bind. eapply wp_at_get; [exact H3|exact Ex3|]. intros x1 _ Hx1.
    pose proof (t_ok _ _ (g_tree _ _ _ _ _ G2) parent _ Ex2) as Hok.
    assert (hp_multi_sub x1 || hp_multi_notify x1 = false) as ->.
    { change (hp_multi_sub (tprop x1) || hp_multi_notify (tprop x1) = false). rewrite <- Hx1.
      by rewrite (ok_multi_sub _ Hok), (ok_multi_notify _ Hok). }
    assert (forall q, kids A3 q ⊆ kids A q) as Hk3.
    { intros q. unfold A3. rewrite kids_insert. destruct (decide (p = q)) as [<-|]; [|by rewrite Hk2, Hk1].
      rewrite <- Hk1. by rewrite (kids_Some _ _ _ Ey1). }
    apply wp_bind, wp_ret. eapply wp_mono; [eapply (wp_insert K [] p parent (as_dir x) _ _ sel before skipme A3 S E2 st3 H3)|].
    + destruct G2 as [GT GS GM]. split; [|by eapply subs_update|by eapply mirror_update].
      unfold A3. change (set_parent (Some parent) (set_parent None y)) with (set_parent (Some parent) (set_parent None y)).
      apply wf_reparent; [|done]. by apply (wf_unroot [] A2 p (set_parent None y)).
    + done.
    + apply lookup_insert_eq.
    + done.
    + exact Hv.
    + intros Hb. apply Hnb. by apply (below_kids A A3).
    + done.
    + intros b Hb. by apply Hbef.
    + intros u'' st4 (A4 & S4 & E4 & H4 & G4 & -> & cs' & Hcs & ->). apply wp_ret. eexists _, S, E4. split; [exact H4|]. split; [done|].
      split; [done|]. split; [done|]. intros _. split; [rewrite lookup_insert_ne by done; unfold A3; by rewrite lookup_insert_eq|].
      by rewrite kids_insert, decide_True by done.
Qed.

(** * Selection and requests *)

Lemma wp_set_selected O p x cs sel c A S E st : at_ ∅ LP LS A S E st -> good K O A S E -> A !! p = Some x -> hp_val x = PDir cs sel ->
  leads O (set_selected p c) (fun _ A' S' E' => A' = <[p := set_val (PDir cs c) x]> A /\ S' = S) st.
Proof.
  intros H HG Ex Hv. apply wp_bind. eapply wp_at_get; [exact H|exact Ex|]. intros x0 E0 Hx0.
  assert (hp_val x0 = PDir cs sel) as Hv0 by (by rewrite Hx0 in Hv). rewrite Hv0.
  eapply (wp_at_put p x0); [exact H|done|by rewrite Hv0|done|done|]. intros st' H'.
  change (tprop (set_val (PDir cs c) x0)) with (set_val (PDir cs c) (tprop x0)) in H'. rewrite <- Hx0 in H'.
  eexists _, S, E. split; [exact H'|]. split; [|done]. pose proof (t_ok _ _ (g_tree _ _ _ _ _ HG) p x Ex) as Hok.
  apply (good_update K O A S E p x); [done|done| |by rewrite Hv|by rewrite Hv|done..].
  apply value_ok; [done..|]. by rewrite not_clipped; [|done|rewrite Hv].
Qed.

Lemma wp_select O p x extra skipme A S E st : at_ ∅ LP LS A S E st -> good K O A S E -> A !! p = Some x -> p ∉ O ->
  (forall c, extra = Some c -> is_Some (A !! c)) ->
  leads O (prop_select_ex p extra skipme) (fun _ A' S' E' => S' = S /\
    match hp_parent x with
    | None => A' = A
    | Some q => exists y, A !! q = Some y /\ A' = <[q := set_val (PDir (kids A q) (Some p)) y]> A
    end) st.
Proof.
  intros H HG Ex HO Hex. unfold prop_select_ex. apply wp_bind. eapply wp_at_get; [exact H|exact Ex|]. intros x0 _ Hx0.
  assert (hp_val x0 = hp_val x) as -> by by rewrite Hx0. assert (hp_parent x0 = hp_parent x) as -> by by rewrite Hx0.
  rewrite (at_live _ _ _ H Ex). destruct (hp_parent x) as [q|] eqn:Hp; [|by apply (leads_ret K _ _ _ A S E)].
  destruct (parent_dir O A p x q (g_tree _ _ _ _ _ HG) Ex HO Hp) as (Hqp & y & cs & sel & Ey & Hv & Hin).
  apply wp_bind. eapply wp_at_get; [exact H|exact Ey|]. intros y0 _ Hy0.
  assert (hp_val y0 = hp_val y) as -> by by rewrite Hy0. rewrite Hv. apply wp_bind, wp_passert; [done|].
  apply wp_bind. eapply wp_mono; [eapply (wp_tell O q y); [done..|eexists; split; [done|apply perm_swap]| |done]|].
  { intros r [[= ->]|Hr]%elem_of_cons; [by eexists|]. apply list_elem_of_singleton in Hr as <-. by apply Hex. }
  intros u st1 (A1 & S1 & E1 & H1 & G1 & -> & ->). eapply leads_mono; [by eapply (wp_set_selected O q y cs sel)|].
  intros ? A' S' E' [-> ->]. split; [done|]. exists y. split; [done|]. by rewrite (kids_Some _ _ _ Ey), Hv.
Qed.

Lemma wp_suggest_focus O p x A S E st : at_ ∅ LP LS A S E st -> good K O A S E -> A !! p = Some x -> p ∉ O ->
  leads O (prop_suggest_focus p) (fun _ A' S' E' => A' = A /\ S' = S) st.
Proof.
  intros H HG Ex HO. unfold prop_suggest_focus. apply wp_bind. eapply wp_at_get; [exact H|exact Ex|]. intros x0 _ Hx0.
  assert (hp_val x0 = hp_val x) as -> by by rewrite Hx0. assert (hp_parent x0 = hp_parent x) as -> by by rewrite Hx0.
  rewrite (at_live _ _ _ H Ex). destruct (hp_parent x) as [q|] eqn:Hp; [|by apply (leads_ret K _ _ _ A S E)].
  destruct (parent_dir O A p x q (g_tree _ _ _ _ _ HG) Ex HO Hp) as (Hqp & y & cs & sel & Ey & Hv & Hin).
  apply wp_bind. eapply wp_at_get; [exact H|exact Ey|]. intros y0 _ Hy0.
  assert (hp_val y0 = hp_val y) as -> by by rewrite Hy0. rewrite Hv. apply wp_bind, wp_passert; [done|].
  eapply (wp_tell O q y); [done..|by exists [Some p]| |done].
  intros r Hr. apply list_elem_of_singleton in Hr as [= ->]. by eexists.
Qed.

Lemma wp_request_new_child O p x A S E st : at_ ∅ LP LS A S E st -> good K O A S E -> A !! p = Some x ->
  leads O (prop_request_new_child p) (fun _ A' S' E' => A' = A /\ S' = S) st.
Proof.
  intros H HG Ex. unfold prop_request_new_child. apply wp_bind. eapply wp_at_get; [exact H|exact Ex|]. intros x0 _ Hx0.
  destruct (is_dir _ || is_void _); [|by apply (leads_ret K _ _ _ A S E)].
  eapply (wp_tell O p x); [done..|by exists []| |done]. intros r Hr. by apply elem_of_nil in Hr.
Qed.

Lemma wp_send O p x e A S E st : at_ ∅ LP LS A S E st -> good K O A S E -> A !! p = Some x -> bare_event e ->
  (forall w, view_event w e = w) -> leads O (prop_send_event p e) (fun _ A' S' E' => A' = A /\ S' = S) st.
Proof.
  intros H HG Ex He Hw. eapply wp_mono.
  { apply (wp_send_event LP LS st p x e); [apply H|by apply (at_tree _ _ _ H)| |done]. apply (at_subscribed _ _ _ H); [apply HG|done]. }
  intros u st' [Hc Hn]. eexists _, _, _. split; [by apply (at_notified _ _ _ _ _ H Hc Hn)|]. split; [|done].
  apply (good_ext K O A S (fun s => E s ++ among (hp_value_subscriptions x) (unless None (vis e)) s)); [|done].
  by apply (good_told O A S E p x e None).
Qed.

End edit.
