(* ===== verification/PropNumber.v ===== *)
(** Integer values of the property tree: they are set, added to, toggled and
    kept in their clipping range (prop_set_int_exl, prop_add_int_ex,
    prop_toggle_int_ex, prop_set_int_clipping_range). *)
From S2P Require Import Prelude PropStore PropTree PropSub PropLogic PropWorld PropQueue PropWf PropMirror PropDestroy PropOps.

Local Open Scope Z_scope.

(** * Clipping *)

Definition clip (r : option (Z * Z)) (v : Z) : Z :=
  match r with
  | Some (lo, hi) => Z.max lo (Z.min v hi)
  | None => v
  end.

Lemma clip_bounds lo hi v : lo <= hi -> lo <= clip (Some (lo, hi)) v <= hi.
Proof. simpl. lia. Qed.

Lemma clip_inside lo hi v : lo <= v <= hi -> clip (Some (lo, hi)) v = v.
Proof. simpl. lia. Qed.

Lemma wp_clip (b : bool) r v (Q : Z -> store -> Prop) st : (b = true -> is_Some r) ->
  Q (if b then clip r v else v) st -> wp (clip_int b r v) Q st.
Proof.
  intros Hr HQ. unfold clip_int. destruct b; [|by apply wp_ret]. destruct (Hr eq_refl) as [[lo hi] ->].
  apply wp_ret. simpl in HQ. set (w := if hi <? v then hi else v).
  assert ((if w <? lo then lo else w) = Z.max lo (Z.min v hi)) as ->; [|done].
  destruct (Z.ltb_spec w lo); unfold w in *; destruct (Z.ltb_spec hi v); lia.
Qed.

Lemma clipped_range x v r : ok_prop x -> hp_val x = PInt v r -> hp_clipped x = true -> is_Some r.
Proof. intros Hok Hv Hc. apply (ok_clipped _ Hok) in Hc. rewrite Hv in Hc. destruct r; [by eexists|done]. Qed.

Section number.
Variable K : sid -> Prop.
Context {LP : list (option pid)} {LS : list sid}.
#[local] Notation leads := (leads K (LP := LP) (LS := LS)).
#[local] Notation skips := (skips K).

(** A value is set and announced where another one was stored already. *)
Lemma wp_new_value2 O p x x1 f skipme how A S E st :
  at_ ∅ LP LS (<[p := x1]> A) S E st -> good K O A S E -> A !! p = Some x -> setter f -> ok_prop (f x1) -> skips skipme ->
  childs (hp_val x) = [] -> childs (hp_val (f x1)) = [] -> hp_parent (f x1) = hp_parent x ->
  hp_value_subscriptions (f x1) = hp_value_subscriptions x ->
  hp_canonical_subscriptions (f x1) = hp_canonical_subscriptions x ->
  leads O (_ ← upd_prop p f; prop_notify_value p skipme how) (fun _ A' S' _ => A' = <[p := f x1]> A /\ S' = S) st.
Proof.
  intros H HG Ex Hf Hok Hs Hc Hc' Hp Hv Hcs. apply wp_bind. eapply wp_at_upd; [exact H|apply lookup_insert_eq|done| |].
  { destruct Hok as [Hok _]. by destruct (hp_val (f x1)). }
  intros st1 H1. rewrite insert_insert_eq in H1.
  assert (wf_subs (<[p := f x1]> A) S) as HS by (apply (subs_update _ _ _ x); [apply HG|done..]).
  eapply wp_w_value; [exact H1|done|apply lookup_insert_eq|done|]. intros st2 H2.
  eexists _, _, _. split; [exact H2|]. split; [|done]. by apply (good_value K O A S E p x).
Qed.

(** The bounds of a float are converted with it; beyond the range of [int]
    that is undefined. *)
Definition floats_fit (x : prop) : Prop :=
  match hp_val x with
  | PFloat v r => (exists i, f32_to_int v = Ok i) /\
      match r with Some (a, b) => (exists i, f32_to_int a = Ok i) /\ (exists i, f32_to_int b = Ok i) | None => True end
  | _ => True
  end.

Lemma int_ok x v r : ok_prop x -> (hp_clipped x = true -> is_Some r) -> ok_prop (set_val (PInt v r) x).
Proof. intros Hok Hr. apply value_ok; [done..|]. intros Hc. destruct (Hr Hc) as [? ->]. done. Qed.

Lemma wp_float_to_int p x v r A S E st (Q : unit -> store -> Prop) : at_ ∅ LP LS A S E st -> A !! p = Some x ->
  hp_val x = PFloat v r -> floats_fit x ->
  (forall i r' st', (is_Some r -> is_Some r') -> at_ ∅ LP LS (<[p := set_val (PInt i r') x]> A) S E st' -> Q tt st') ->
  wp (prop_float_to_int p) Q st.
Proof.
  intros H Ex Hv Hf HQ. unfold floats_fit in Hf. rewrite Hv in Hf. destruct Hf as [[i Hi] Hr].
  unfold prop_float_to_int. apply wp_bind. eapply wp_at_get; [exact H|exact Ex|]. intros x0 E0 Hx0.
  assert (hp_val x0 = PFloat v r) as Hv0 by (by rewrite Hx0 in Hv). rewrite Hv0.
  assert (forall r' (k : unit), (is_Some r -> is_Some r') -> wp (put_prop p (set_val (PInt i r') x0)) Q st) as Hput.
  { intros r' _ Hrr. eapply (wp_at_put p x0); [exact H|done|by rewrite Hv0|done|done|]. intros st' H'.
    apply (HQ i r'); [done|]. change (tprop (set_val (PInt i r') x0)) with (set_val (PInt i r') (tprop x0)) in H'. by rewrite <- Hx0 in H'. }
  apply wp_bind, (wp_lift _ i); [done|]. apply wp_bind. destruct r as [[a b]|].
  - destruct Hr as [[ia Ha] [ib Hb]]. apply wp_bind, (wp_lift _ ia); [done|]. apply wp_bind, (wp_lift _ ib), wp_ret; [done|].
    apply Hput; [done|]. intros _. by eexists.
  - apply wp_ret, Hput; [done|]. by intros [? ?].
Qed.

Lemma wp_get_int p x v r A S E st (Q : bool * (Z * option (Z * Z)) -> store -> Prop) : at_ ∅ LP LS A S E st ->
  A !! p = Some x -> hp_val x = PInt v r -> Q (hp_clipped x, (v, r)) st -> wp (get_int p) Q st.
Proof.
  intros H Ex Hv HQ. unfold get_int. apply wp_bind. eapply wp_at_get; [exact H|exact Ex|]. intros x0 _ Hx0.
  assert (hp_val x0 = PInt v r) as -> by (by rewrite Hx0 in Hv). apply wp_ret.
  assert (hp_clipped x0 = hp_clipped x) as -> by by rewrite Hx0. done.
Qed.

(** What becomes of a property whose value is set to an integer. *)
Definition int_set (A A' : ptree) (p : pid) (x : prop) (v : Z) : Prop :=
  match hp_val x with
  | PInt old r => A' = if old =? v then A else <[p := set_val (PInt (if hp_clipped x then clip r v else v) r) x]> A
  | PFloat _ _ => exists r, A' = <[p := set_val (PInt v r) x]> A
  | _ => refused A p x /\ A' = A \/ ~ refused A p x /\ cleared A A' p (set_val (PInt v None) x)
  end.

Lemma wp_set_int O p x skipme v A S E st : at_ ∅ LP LS A S E st -> good K O A S E -> A !! p = Some x -> skips skipme ->
  floats_fit x -> leads O (prop_set_int_exl p skipme v) (fun _ A' S' E' => int_set A A' p x v) st.
Proof.
  intros H HG Ex Hsk Hf. pose proof (t_ok _ _ (g_tree _ _ _ _ _ HG) p x Ex) as Hok. unfold prop_set_int_exl, int_set.
  apply wp_bind. eapply wp_at_get; [exact H|exact Ex|]. intros x0 _ Hx0.
  assert (hp_val x0 = hp_val x) as -> by by rewrite Hx0. rewrite (at_live _ _ _ H Ex).
  assert (hp_clipped x0 = hp_clipped x) as -> by by rewrite Hx0.
  set (Pc := fun (_ : unit) (A' : ptree) (_ : psubs) (_ : sid -> list pevent) =>
    refused A p x /\ A' = A \/ ~ refused A p x /\ cleared A A' p (set_val (PInt v None) x)).
  assert (leads O (r ← (refused ← prop_clean prop_destroy0 p; mret (if refused : bool then None else Some (v, None)));
    match r with
    | None => mret tt
    | Some (v, r) => _ ← upd_prop p (set_val (PInt v r)); prop_notify_value p skipme 0
    end) Pc st) as Hclean.
  { apply wp_bind, wp_bind. eapply wp_mono; [by eapply (wp_clean K O p x A S E)|].
    intros [|] st1 (A1 & S1 & E1 & H1 & G1 & HP); apply wp_ret.
    - apply (leads_ret K _ _ _ A1 S1 E1); [done..|]. left. by destruct HP as (? & -> & _).
    - destruct HP as [Hr [C1 C2 C3]]. destruct (voided_same x) as (V1 & V2 & V3 & V4).
      eapply leads_mono; [eapply (wp_new_value K O p (voided x) (set_val (PInt v None)) skipme 0 A1 S1 E1 st1); try done|].
      + apply int_ok; [by apply voided_ok|]. rewrite V4. intros Hc. destruct Hr. by left.
      + apply voided_childs.
      + intros u A2 S2 E2 [-> ->]. right. split; [done|]. rewrite voided_set. split.
        * apply lookup_insert_eq.
        * intros q. rewrite kids_insert. destruct (decide (p = q)); [apply list_subseteq_nil|apply C2].
        * intros q Hq. rewrite lookup_insert_ne; [by apply C3|]. intros <-. apply Hq, rtc_refl. }
  destruct (hp_val x) as [| | | |fv fr|old r| | |] eqn:Hv; try exact Hclean.
  - apply wp_bind, wp_bind. eapply wp_float_to_int; [exact H|exact Ex|exact Hv|done|]. intros i r' st1 Hr' H1.
    apply wp_bind. eapply wp_get_int; [exact H1|apply lookup_insert_eq|done|]. apply wp_ret.
    eapply leads_mono; [eapply (wp_new_value2 O p x _ (set_val (PInt v r')) skipme 0 A S E st1 H1); try done|].
    + change (ok_prop (set_val (PInt v r') x)). apply int_ok; [done|]. intros Hc. apply Hr'. apply (ok_clipped _ Hok) in Hc. rewrite Hv in Hc. destruct fr; [by eexists|done].
    + by rewrite Hv.
    + intros u A2 S2 E2 [-> ->]. by exists r'.
  - apply wp_bind. destruct (Z.eqb_spec old v) as [->|Hne].
    + apply wp_ret. by apply (leads_ret K _ _ _ A S E).
    + apply wp_bind, wp_clip; [by apply (clipped_range x old r)|]. apply wp_ret.
      eapply leads_mono; [eapply (wp_new_value K O p x (set_val (PInt _ r)) skipme 0 A S E st H HG Ex); try done|].
      * apply int_ok; [done|]. by apply (clipped_range x old r).
      * by rewrite Hv.
      * by intros u A2 S2 E2 [-> ->].
Qed.

(** ** A property that is an integer already *)

Lemma wp_int_locked p x v r A S E st (Q : bool -> store -> Prop) : at_ ∅ LP LS A S E st -> A !! p = Some x ->
  hp_val x = PInt v r -> Q true st -> wp (get_int_locked p) Q st.
Proof.
  intros H Ex Hv HQ. apply wp_bind. eapply wp_at_get; [exact H|exact Ex|]. intros x0 _ Hx0.
  assert (hp_val x0 = PInt v r) as -> by (by rewrite Hx0 in Hv). by apply wp_ret.
Qed.

Lemma wp_add_int O p x skipme old r v A S E st : at_ ∅ LP LS A S E st -> good K O A S E -> A !! p = Some x -> skips skipme ->
  hp_val x = PInt old r -> chk_int (old + v) = Ok (old + v) ->
  leads O (prop_add_int_ex (Some p) skipme v) (fun _ A' S' E' =>
    A' = <[p := set_val (PInt (if hp_clipped x then clip r (old + v) else old + v) r) x]> A) st.
Proof.
  intros H HG Ex Hsk Hv Hc. pose proof (t_ok _ _ (g_tree _ _ _ _ _ HG) p x Ex) as Hok.
  apply wp_bind. eapply wp_int_locked; [exact H|exact Ex|exact Hv|]. simpl.
  apply wp_bind. eapply wp_get_int; [exact H|exact Ex|exact Hv|]. apply wp_bind, (wp_lift _ (old + v)); [done|].
  apply wp_bind, wp_clip; [by apply (clipped_range x old r)|]. set (w := if hp_clipped x then _ else _).
  destruct (Z.eqb_spec w old) as [Hw|Hne].
  - apply (leads_ret K _ _ _ A S E); [done..|]. rewrite Hw, <- Hv. assert (set_val (hp_val x) x = x) as -> by by destruct x. by rewrite insert_id.
  - eapply leads_mono; [eapply (wp_new_value K O p x (set_val (PInt w r)) skipme 0 A S E st H HG Ex); try done|].
    + apply int_ok; [done|]. by apply (clipped_range x old r).
    + by rewrite Hv.
    + by intros u A2 S2 E2 [-> ->].
Qed.

Lemma wp_toggle_int O p x skipme old r A S E st : at_ ∅ LP LS A S E st -> good K O A S E -> A !! p = Some x -> skips skipme ->
  hp_val x = PInt old r ->
  leads O (prop_toggle_int_ex (Some p) skipme) (fun _ A' S' E' =>
    A' = <[p := set_val (PInt (if old =? 0 then 1 else 0) r) x]> A) st.
Proof.
  intros H HG Ex Hsk Hv. pose proof (t_ok _ _ (g_tree _ _ _ _ _ HG) p x Ex) as Hok.
  apply wp_bind. eapply wp_int_locked; [exact H|exact Ex|exact Hv|]. simpl.
  apply wp_bind. eapply wp_get_int; [exact H|exact Ex|exact Hv|].
  eapply leads_mono; [eapply (wp_new_value K O p x (set_val (PInt _ r)) skipme 0 A S E st H HG Ex); try done|].
  - apply int_ok; [done|]. by apply (clipped_range x old r).
  - by rewrite Hv.
  - by intros u A2 S2 E2 [-> ->].
Qed.

Lemma wp_clipping_range O p x old r lo hi A S E st : at_ ∅ LP LS A S E st -> good K O A S E -> A !! p = Some x ->
  hp_val x = PInt old r ->
  leads O (prop_set_int_clipping_range (Some p) lo hi) (fun _ A' S' E' => exists x',
    A' = <[p := x']> A /\ hp_val x' = PInt (clip (Some (lo, hi)) old) (Some (lo, hi)) /\ hp_clipped x' = true) st.
Proof.
  intros H HG Ex Hv. pose proof (t_ok _ _ (g_tree _ _ _ _ _ HG) p x Ex) as Hok. destruct Hok as [O1 O2 O3 O4 O5 O6 O7 O8].
  apply wp_bind. eapply wp_int_locked; [exact H|exact Ex|exact Hv|]. cbn [negb]; cbn iota.
  apply wp_bind. eapply wp_get_int; [exact H|exact Ex|exact Hv|]. apply wp_bind.
  eapply wp_at_upd; [exact H|exact Ex|done|done|]. intros st1 H1. set (x1 := set_flags _ _ _ _ _ _ _) in *.
  assert (ok_prop x1) as Hok1 by (by split). assert (skips None) as Hsk by done.
  assert (good K O (<[p := x1]> A) S E) as G1.
  { apply (good_update K O A S E p x); [done|done|done|by rewrite Hv|by rewrite Hv|done..]. }
  apply wp_bind, wp_clip; [by eexists|]. set (w := clip _ _). change (if true then w else old) with w.
  destruct (Z.eqb_spec w old) as [Hw|Hne].
  - apply (leads_ret K _ _ _ (<[p := x1]> A) S E); [done..|]. exists x1. split; [done|]. by rewrite Hw.
  - eapply leads_mono; [eapply (wp_new_value K O p x1 (set_val (PInt w _)) None 0 _ S E st1 H1 G1 (lookup_insert_eq _ _ _)); try done|].
    intros u A2 S2 E2 [-> ->]. eexists. split; [by rewrite insert_insert_eq|]. done.
Qed.

End number.
