(* ===== verification/PropReap.v ===== *)
(** The operations of the property tree that destroy: one property, its
    children, those of a name or with a mark; and the marks
    (prop_destroy, prop_destroy_childs, prop_destroy_by_name,
    prop_destroy_first, prop_mark_childs, prop_unmark,
    prop_destroy_marked_childs, prop_void_childs). *)
From S2P Require Import Prelude PropStore PropTree PropSub PropLogic PropWorld PropQueue PropWf PropMirror PropDestroy PropOps PropEdit.

Local Open Scope Z_scope.

Section reap.
Variable K : sid -> Prop.
Context {LP : list (option pid)} {LS : list sid}.
#[local] Notation leads := (leads K (LP := LP) (LS := LS)).

Lemma destroys0 O n : destroys K LP LS O prop_destroy0 n.
Proof. intros p x A S E st H HG _ Ex HO. exact (prop_destroy0_spec K LP LS O p x A S E st H HG Ex HO). Qed.

Lemma wp_destroy O p x A S E st : at_ ∅ LP LS A S E st -> good K O A S E -> A !! p = Some x -> p ∉ O ->
  leads O (prop_destroy (Some p)) (fun _ A' S' E' => exists r, outcome A A' p x r) st.
Proof.
  intros H HG Ex HO. unfold prop_destroy. apply wp_bind. eapply wp_mono; [by apply (prop_destroy0_spec K LP LS O p x A S E)|].
  intros r st' (A' & S' & E' & H' & G' & Ho). apply (leads_ret K _ _ _ A' S' E'); [done..|]. by exists r.
Qed.

Lemma wp_destroy_zombie O p A S E st : at_ ∅ LP LS A S E st -> good K O A S E -> is_Some (tree st !! p) -> A !! p = None ->
  leads O (prop_destroy (Some p)) (fun _ A' S' E' => A' = A /\ S' = S /\ E' = E) st.
Proof.
  intros H HG Ht Hn. unfold prop_destroy. apply wp_bind. unfold prop_destroy0. apply wp_here. simpl. unfold destroy_body.
  apply wp_bind. eapply wp_get_zombie; [exact H|done|done|]. intros x0 _ Hz _. rewrite Hz. by apply wp_ret, (leads_ret K _ _ _ A S E).
Qed.

Lemma wp_destroy_childs O p x A S E st : at_ ∅ LP LS A S E st -> good K O A S E -> A !! p = Some x ->
  leads O (prop_destroy_childs (Some p)) (fun _ A' S' E' => cleared A A' p (voided x)) st.
Proof.
  intros H HG Ex. unfold prop_destroy_childs, voided. apply wp_bind. eapply wp_at_get; [exact H|exact Ex|]. intros x0 _ Hx0.
  assert (hp_val x0 = hp_val x) as -> by by rewrite Hx0. destruct (hp_val x) as [|cs sel| | | | | | |] eqn:Hv; simpl;
    try (by apply (leads_ret K _ _ _ A S E)). by eapply (wp_destroy_childs0 K O p x cs sel A S E).
Qed.

(** ** Loops that may take out the child they are at *)

Definition reaps (O : list pid) (p : pid) (body : pid -> M unit) : Prop :=
  forall c A S E st, at_ ∅ LP LS A S E st -> good K O A S E -> is_Some (A !! p) -> c ∈ kids A p ->
    leads O (body c) (fun _ A' S' E' => is_Some (A' !! p) /\ (kids A' p = kids A p \/ kids A' p = unlink c (kids A p))) st.

Lemma after_app c pre rest : NoDup (pre ++ c :: rest) -> after c (pre ++ c :: rest) = Some (head rest).
Proof.
  intros Hnd. induction pre as [|d pre IH]; simpl; [by rewrite decide_True|]. apply NoDup_cons in Hnd as [Hd Hnd].
  rewrite decide_False; [by apply IH|]. intros ->. set_solver.
Qed.

Lemma unlink_app c pre rest : NoDup (pre ++ c :: rest) -> unlink c (pre ++ c :: rest) = pre ++ rest.
Proof.
  intros Hnd. induction pre as [|d pre IH]; simpl; [by apply unlink_head|]. apply NoDup_cons in Hnd as [Hd Hnd].
  unfold unlink in *. rewrite filter_cons_True; [by rewrite IH|]. intros ->. set_solver.
Qed.

Lemma wp_reap_loop O p body : reaps O p body -> forall rest pre fuel A S E st, at_ ∅ LP LS A S E st -> good K O A S E ->
  is_Some (A !! p) -> kids A p = pre ++ rest -> (length rest <= fuel)%nat ->
  leads O (foreach_child_safe fuel p (head rest) body) (fun _ A' S' E' => is_Some (A' !! p)) st.
Proof.
  intros Hb. induction rest as [|c rest IH]; intros pre fuel A S E st H HG [x Ex] Hk Hf.
  - destruct fuel; apply (leads_ret K _ _ _ A S E); try done; by eexists.
  - destruct fuel as [|fuel]; simpl in Hf; [lia|]. simpl. pose proof (t_nodup _ _ (g_tree _ _ _ _ _ HG) p) as Hnd. rewrite Hk in Hnd.
    assert (c ∈ kids A p) as Hc by (rewrite Hk; set_solver).
    apply wp_bind. eapply wp_mono; [by eapply (wp_next_child O p x c A S E st); [|apply HG|..]|]. intros n st' [-> Hn].
    rewrite Hk, after_app in Hn by done. injection Hn as <-. apply wp_bind.
    eapply wp_mono; [by apply (Hb c A S E); [..|by eexists|]|]. intros u st1 (A1 & S1 & E1 & H1 & G1 & Hp & Hk1).
    destruct Hk1 as [Hk1|Hk1]; rewrite Hk in Hk1.
    + apply (IH (pre ++ [c]) fuel A1 S1 E1); [done..| |lia]. by rewrite <- app_assoc.
    + rewrite unlink_app in Hk1 by done. apply (IH pre fuel A1 S1 E1); [done..|lia].
Qed.

Lemma child_destroyed O p c x z A A' r : wf_tree O A -> A !! p = Some x -> c ∈ kids A p -> A !! c = Some z -> hp_parent z = Some p ->
  outcome A A' c z r -> is_Some (A' !! p) /\ (kids A' p = kids A p \/ kids A' p = unlink c (kids A p)).
Proof.
  intros HT Ex Hc Ez Hz Ho. destruct r.
  - destruct Ho as [_ [D1 D2 D3 D4]]. pose proof (D3 p x Hz Ex) as Hp. split; [by eexists|]. right.
    by rewrite (kids_Some _ _ _ Hp), childs_rm, (kids_Some _ _ _ Ex).
  - destruct Ho as [_ ->]. assert (c <> p) as Hne.
    { intros ->. destruct (t_height _ _ HT p) as [n Hn]. by apply (hb_acyclic A n p p Hn Hc), rtc_refl. }
    split; [rewrite lookup_insert_ne by done; by eexists|]. left. rewrite kids_insert. by rewrite decide_False.
Qed.

Lemma kid_parent O A p c : wf_tree O A -> c ∈ kids A p -> exists z, A !! c = Some z /\ hp_parent z = Some p /\ c ∉ O.
Proof. intros H Hc. destruct (t_child _ _ H p c Hc) as (HO & z & Ez & Hz). by exists z. Qed.

(** A child is destroyed, or taken out when something else refers to it. *)
Lemma wp_reap_child O p c x A S E st : at_ ∅ LP LS A S E st -> good K O A S E -> A !! p = Some x -> c ∈ kids A p ->
  leads O (prop_destroy_child prop_destroy0 p c) (fun _ A' S' E' => is_Some (A' !! p) /\ kids A' p = unlink c (kids A p)) st.
Proof.
  intros H HG Ex Hc. destruct (kids_dir A p c Hc) as (x' & cs & sel & Ex' & Hv & Hin). assert (x' = x) as -> by congruence.
  destruct (t_height _ _ (g_tree _ _ _ _ _ HG) c) as [n Hn].
  eapply wp_mono; [by eapply (wp_destroy_child K LP LS O prop_destroy0 n A S E p x cs sel c); [apply destroys0|..]|].
  intros u st' (A' & S' & E' & H' & G' & (sel' & Ep) & _ & _). exists A', S', E'. split; [done|]. split; [done|].
  split; [by eexists|]. rewrite (kids_Some _ _ _ Ep). simpl. by rewrite (kids_Some _ _ _ Ex), Hv.
Qed.

Lemma kids_fuel O p A S E st : at_ ∅ LP LS A S E st -> good K O A S E -> (length (kids A p) <= Datatypes.S (size (st_props st)))%nat.
Proof.
  intros H HG. pose proof (kids_size O A p (g_tree _ _ _ _ _ HG)) as Hs. pose proof (alive_size st) as Ha.
  rewrite (at_alive _ _ _ _ _ _ _ H) in Ha. lia.
Qed.

Lemma wp_destroy_by_name O p x name A S E st : at_ ∅ LP LS A S E st -> good K O A S E -> A !! p = Some x ->
  leads O (prop_destroy_by_name p name) (fun _ A' S' E' => is_Some (A' !! p)) st.
Proof.
  intros H HG Ex. unfold prop_destroy_by_name. apply wp_bind. eapply wp_at_get; [exact H|exact Ex|]. intros x0 _ Hx0.
  assert (hp_val x0 = hp_val x) as -> by by rewrite Hx0. pose proof (kids_Some _ _ _ Ex) as Hk.
  assert (leads O (mret tt) (fun _ A' S' E' => is_Some (A' !! p)) st) as Hno by (apply (leads_ret K _ _ _ A S E); [done..|by eexists]).
  destruct (hp_val x) as [|cs sel| | | | | | |] eqn:Hv; try exact Hno. simpl in Hk. destruct name as [n|].
  - apply wp_bind. eapply wp_mono; [eapply (wp_child_named _ LP LS n cs A S E st H)|].
    + intros c Hc. rewrite <- Hk in Hc. by apply (kid_alive O A p); [apply HG|].
    + intros [c|] st' [-> Hr]; [|exact Hno]. destruct Hr as [Hc _]. rewrite <- Hk in Hc.
      eapply leads_mono; [by eapply (wp_reap_child O p c x A S E)|]. by intros u A' S' E' [? _].
  - apply wp_here. rewrite <- Hk. apply (wp_reap_loop O p _) with (pre := []) (A := A) (S := S) (E := E); [|done|done|by eexists|done|by eapply kids_fuel].
    intros c A1 S1 E1 st1 H1 G1 [x1 Ex1] Hc. destruct (kid_parent O A1 p c (g_tree _ _ _ _ _ G1) Hc) as (z & Ez & Hz & _).
    apply wp_bind. eapply wp_at_get; [exact H1|exact Ez|]. intros z0 _ _. destruct (hp_name z0).
    + apply (leads_ret K _ _ _ A1 S1 E1); [done..|]. split; [by eexists|by left].
    + eapply leads_mono; [by eapply (wp_reap_child O p c x1 A1 S1 E1)|]. intros u A' S' E' [? ?]. split; [done|by right].
Qed.

Lemma wp_destroy_first O p x A S E st : at_ ∅ LP LS A S E st -> good K O A S E -> A !! p = Some x ->
  leads O (prop_destroy_first p) (fun _ A' S' E' => is_Some (A' !! p) /\ kids A' p = tail (kids A p)) st.
Proof.
  intros H HG Ex. unfold prop_destroy_first. apply wp_bind. eapply wp_at_get; [exact H|exact Ex|]. intros x0 _ Hx0.
  assert (hp_val x0 = hp_val x) as -> by by rewrite Hx0. pose proof (kids_Some _ _ _ Ex) as Hk.
  pose proof (t_nodup _ _ (g_tree _ _ _ _ _ HG) p) as Hnd.
  destruct (hp_val x) as [|[|c cs] sel| | | | | | |] eqn:Hv; simpl in Hk;
    try (apply (leads_ret K _ _ _ A S E); [done..|]; rewrite Hk; split; [by eexists|done]).
  eapply leads_mono; [eapply (wp_reap_child O p c x A S E); [done..|rewrite Hk; left]|].
  intros u A' S' E' [? ->]. split; [done|]. rewrite Hk in *. by rewrite unlink_head.
Qed.

(** * Marks *)

Definition set_mark (b : bool) : prop -> prop := set_flags None None None None None (Some b).

Lemma ok_mark b x : ok_prop x -> ok_prop (set_mark b x).
Proof. by intros [? ? ? ? ? ? ? ?]. Qed.

Lemma wp_mark O p x b A S E st : at_ ∅ LP LS A S E st -> good K O A S E -> A !! p = Some x ->
  leads O (upd_prop p (set_mark b)) (fun _ A' S' E' => A' = <[p := set_mark b x]> A /\ S' = S) st.
Proof.
  intros H HG Ex. eapply wp_at_upd; [exact H|exact Ex|done|by apply (at_live _ _ _ H Ex)|]. intros st' H'.
  eexists _, S, E. split; [exact H'|]. split; [|done]. apply (good_update K O A S E p x); try done.
  by apply ok_mark, (t_ok _ _ (g_tree _ _ _ _ _ HG) p).
Qed.

Lemma wp_mark_childs O p x A S E st : at_ ∅ LP LS A S E st -> good K O A S E -> A !! p = Some x ->
  leads O (prop_mark_childs p) (fun _ A' S' E' => forall q, kids A' q = kids A q) st.
Proof.
  intros H HG Ex. unfold prop_mark_childs. apply wp_bind. eapply wp_at_get; [exact H|exact Ex|]. intros x0 _ Hx0.
  assert (childs (hp_val x0) = kids A p) as -> by (rewrite (kids_Some _ _ _ Ex), Hx0; done).
  assert (forall c, c ∈ kids A p -> is_Some (A !! c)) as Hal by (intros c; apply (kid_alive O A p), HG).
  revert Hal H HG. clear Ex Hx0. generalize (kids A p). intros l. revert A S E st.
  induction l as [|c l IH]; intros A S E st Hal H HG; [by apply (leads_ret K _ _ _ A S E)|].
  destruct (Hal c) as [z Ez]; [left|]. apply wp_bind. eapply wp_mono; [by apply (wp_mark O c z true A S E)|].
  intros u st1 (A1 & S1 & E1 & H1 & G1 & -> & ->).
  assert (forall q, kids (<[c := set_mark true z]> A) q = kids A q) as Hk.
  { intros q. rewrite kids_insert. destruct (decide (c = q)) as [<-|]; [|done]. by rewrite (kids_Some _ _ _ Ez). }
  eapply leads_mono; [eapply (IH _ S E1); [|done|done]|].
  - intros d Hd. destruct (decide (c = d)) as [<-|]; [rewrite lookup_insert_eq; by eexists|]. rewrite lookup_insert_ne by done. apply Hal. by right.
  - intros v A' S' E' Hk' q. by rewrite Hk'.
Qed.

Lemma wp_destroy_marked O p x A S E st : at_ ∅ LP LS A S E st -> good K O A S E -> A !! p = Some x ->
  leads O (prop_destroy_marked_childs p) (fun _ A' S' E' => is_Some (A' !! p)) st.
Proof.
  intros H HG Ex. unfold prop_destroy_marked_childs. apply wp_bind. eapply wp_at_get; [exact H|exact Ex|]. intros x0 _ Hx0.
  assert (hp_val x0 = hp_val x) as -> by by rewrite Hx0. pose proof (kids_Some _ _ _ Ex) as Hk.
  assert (leads O (mret tt) (fun _ A' S' E' => is_Some (A' !! p)) st) as Hno by (apply (leads_ret K _ _ _ A S E); [done..|by eexists]).
  destruct (hp_val x) as [|cs sel| | | | | | |] eqn:Hv; try exact Hno. simpl in Hk.
  apply wp_here. rewrite <- Hk. apply (wp_reap_loop O p _) with (pre := []) (A := A) (S := S) (E := E); [|done|done|by eexists|done|by eapply kids_fuel].
  intros c A1 S1 E1 st1 H1 G1 [x1 Ex1] Hc. destruct (kid_parent O A1 p c (g_tree _ _ _ _ _ G1) Hc) as (z & Ez & Hz & HcO).
  apply wp_bind. eapply wp_at_get; [exact H1|exact Ez|]. intros z0 _ _. destruct (hp_marked z0).
  - apply wp_bind. eapply wp_mono; [by apply (prop_destroy0_spec K LP LS O c z A1 S1 E1)|].
    intros r st2 (A2 & S2 & E2 & H2 & G2 & Ho). apply (leads_ret K _ _ _ A2 S2 E2); [done..|].
    by apply (child_destroyed O p c x1 z A1 A2 r (g_tree _ _ _ _ _ G1)).
  - apply (leads_ret K _ _ _ A1 S1 E1); [done..|]. split; [by eexists|by left].
Qed.

(** * Values taken away *)

Lemma wp_void_childs0 O n : forall p A S E st, at_ ∅ LP LS A S E st -> good K O A S E -> is_Some (A !! p) -> hb A n p ->
  leads O (prop_void_childs0 n p) (fun _ A' S' E' => (forall q, kids A' q = kids A q) /\ forall q, is_Some (A !! q) -> is_Some (A' !! q)) st.
Proof.
  induction n as [|n IH]; intros p A S E st H HG [x Ex] Hn; [done|]. simpl. pose proof (kids_Some _ _ _ Ex) as Hk.
  pose proof (t_ok _ _ (g_tree _ _ _ _ _ HG) p x Ex) as Hok.
  apply wp_bind. eapply wp_at_get; [exact H|exact Ex|]. intros x0 _ Hx0.
  assert (hp_val x0 = hp_val x) as -> by by rewrite Hx0.
  assert (is_dir (hp_val x) = false -> leads O (refused ← prop_clean prop_destroy0 p;
      if refused : bool then mret tt else _ ← upd_prop p (set_val PVoid); prop_notify_value p None 0)
    (fun _ A' S' E' => (forall q, kids A' q = kids A q) /\ forall q, is_Some (A !! q) -> is_Some (A' !! q)) st) as Hset.
  { intros Hd. assert (voided x = x) as Hvd by (unfold voided; by rewrite Hd).
    pose proof (kids_non_dir _ _ _ Ex Hd) as Hkp. apply wp_bind. eapply wp_mono; [by eapply (wp_clean K O p x A S E)|].
    intros [|] st1 (A1 & S1 & E1 & H1 & G1 & HP).
    - destruct HP as (_ & -> & -> & ->). by apply (leads_ret K _ _ _ A S E).
    - destruct HP as [Hr [C1 C2 C3]]. rewrite Hvd in C1.
      assert (forall q, q <> p -> A1 !! q = A !! q) as Hf.
      { intros q Hq. apply C3. intros Hb. apply Hq. symmetry. inversion Hb as [|a b d Hab]; subst; [done|]. unfold child_of in Hab. rewrite Hkp in Hab. by apply elem_of_nil in Hab. }
      eapply leads_mono; [eapply (wp_new_value K O p x (set_val PVoid) None 0 A1 S1 E1); try done|].
      + apply value_ok; [done..|]. intros Hc. destruct Hr. by left.
      + by destruct (hp_val x).
      + intros u A2 S2 E2 [-> ->]. split.
        * intros q. rewrite kids_insert. destruct (decide (p = q)) as [<-|Hne]; [by rewrite Hkp|]. unfold kids. by rewrite Hf.
        * intros q Hq. destruct (decide (p = q)) as [<-|Hne]; [rewrite lookup_insert_eq; by eexists|]. by rewrite lookup_insert_ne, Hf. }
  pose proof (ok_val _ Hok) as Hs. destruct (hp_val x) as [|cs sel| | | | | | |] eqn:Hv; try (by apply Hset); try (by destruct Hs).
  simpl in Hk. assert (forall c, c ∈ cs -> is_Some (A !! c) /\ hb A n c) as Hcs.
  { intros c Hc. rewrite <- Hk in Hc. split; [by apply (kid_alive O A p); [apply HG|]|by apply (hb_child A n p)]. }
  clear Ex Hx0 Hset Hn Hok Hk Hv Hs. revert A S E st H HG Hcs. induction cs as [|c cs IHcs]; intros A S E st H HG Hcs.
  - by apply (leads_ret K _ _ _ A S E).
  - destruct (Hcs c) as [Hc Hcn]; [left|]. apply wp_bind. eapply wp_mono; [by apply (IH c A S E)|].
    intros u st1 (A1 & S1 & E1 & H1 & G1 & Hk1 & Hal1). eapply leads_mono; [apply (IHcs A1 S1 E1); [done..|]|].
    + intros d Hd. destruct (Hcs d) as [Hda Hdn]; [by right|]. split; [by apply Hal1|]. eapply hb_kids; [|exact Hdn]. intros q. by rewrite Hk1.
    + intros v A2 S2 E2 [Hk2 Hal2]. split; [intros q; by rewrite Hk2, Hk1|]. intros q Hq. by apply Hal2, Hal1.
Qed.

Lemma wp_void_childs O p x A S E st : at_ ∅ LP LS A S E st -> good K O A S E -> A !! p = Some x ->
  leads O (prop_void_childs (Some p)) (fun _ A' S' E' => forall q, kids A' q = kids A q) st.
Proof.
  intros H HG Ex. unfold prop_void_childs. apply wp_here.
  eapply leads_mono; [eapply (wp_void_childs0 O _ p A S E st H HG)|by intros ? ? ? ? [? _]]; [by eexists|].
  eapply hb_mono; [apply (hb_bound O A p); [apply HG|by eexists]|]. pose proof (alive_size st) as Ha.
  rewrite (at_alive _ _ _ _ _ _ _ H) in Ha. lia.
Qed.

End reap.
