(* ===== verification/PropClient.v ===== *)
(** Subscriptions of the property tree on good worlds: how one begins, with
    the value and the children of its property, and how it ends
    (prop_subscribe, prop_unsubscribe0). *)
From S2P Require Import Prelude PropStore PropTree PropSub PropCourier PropLogic PropWorld PropQueue PropWf PropMirror PropDestroy PropOps PropEdit.

Local Open Scope Z_scope.

(** * The lists of subscriptions *)

Definition edit_vsubs (o : option pid) (f : list sid -> list sid) (A : ptree) : ptree :=
  match o with
  | Some p => match A !! p with Some x => <[p := set_vsubs (f (hp_value_subscriptions x)) x]> A | None => A end
  | None => A
  end.
Definition edit_csubs (o : option pid) (f : list sid -> list sid) (A : ptree) : ptree :=
  match o with
  | Some p => match A !! p with Some x => <[p := set_csubs (f (hp_canonical_subscriptions x)) x]> A | None => A end
  | None => A
  end.

(** The lists are all that differs. *)
Definition same_but_subs (A A' : ptree) : Prop :=
  forall p, match A !! p, A' !! p with
  | Some x, Some x' => hp_val x' = hp_val x /\ hp_parent x' = hp_parent x /\ hp_name x' = hp_name x /\ hp_xref x' = hp_xref x /\
      (ok_prop x -> ok_prop x')
  | None, None => True
  | _, _ => False
  end.

Lemma sbs_refl A : same_but_subs A A.
Proof. intros p. by destruct (A !! p). Qed.
Lemma sbs_insert A p x x' : A !! p = Some x -> hp_val x' = hp_val x -> hp_parent x' = hp_parent x -> hp_name x' = hp_name x ->
  hp_xref x' = hp_xref x -> (ok_prop x -> ok_prop x') -> same_but_subs A (<[p := x']> A).
Proof.
  intros Ex Hv Hp Hn Hx Ho q. destruct (decide (p = q)) as [<-|Hne].
  - by rewrite Ex, lookup_insert_eq.
  - rewrite lookup_insert_ne by done. by destruct (A !! q).
Qed.
Lemma sbs_trans A B C : same_but_subs A B -> same_but_subs B C -> same_but_subs A C.
Proof.
  intros H1 H2 p. specialize (H1 p). specialize (H2 p).
  destruct (A !! p), (B !! p), (C !! p); try done. naive_solver congruence.
Qed.

Lemma ok_vsubs l x : ok_prop x -> ok_prop (set_vsubs l x).
Proof. by intros [? ? ? ? ? ? ? ?]. Qed.
Lemma ok_csubs l x : ok_prop x -> ok_prop (set_csubs l x).
Proof. by intros [? ? ? ? ? ? ? ?]. Qed.

Lemma sbs_edit_vsubs o f A : same_but_subs A (edit_vsubs o f A).
Proof.
  unfold edit_vsubs. destruct o as [p|]; [|apply sbs_refl]. destruct (A !! p) as [x|] eqn:Ex; [|apply sbs_refl].
  apply (sbs_insert A p x); try done. apply ok_vsubs.
Qed.
Lemma sbs_edit_csubs o f A : same_but_subs A (edit_csubs o f A).
Proof.
  unfold edit_csubs. destruct o as [p|]; [|apply sbs_refl]. destruct (A !! p) as [x|] eqn:Ex; [|apply sbs_refl].
  apply (sbs_insert A p x); try done. apply ok_csubs.
Qed.

Lemma sbs_kids A A' p : same_but_subs A A' -> kids A' p = kids A p.
Proof. intros H. specialize (H p). unfold kids. destruct (A !! p), (A' !! p); try done. by destruct H as [-> _]. Qed.

Lemma sbs_some A A' p x : same_but_subs A A' -> A !! p = Some x ->
  exists x', A' !! p = Some x' /\ hp_val x' = hp_val x /\ hp_parent x' = hp_parent x.
Proof. intros H E. specialize (H p). rewrite E in H. destruct (A' !! p) as [x'|]; [|done]. exists x'. naive_solver. Qed.

Lemma sbs_back A A' p x' : same_but_subs A A' -> A' !! p = Some x' ->
  exists x, A !! p = Some x /\ hp_parent x' = hp_parent x /\ (ok_prop x -> ok_prop x').
Proof. intros H E. specialize (H p). rewrite E in H. destruct (A !! p) as [x|]; [|done]. exists x. naive_solver. Qed.

Lemma wf_sbs O A A' : wf_tree O A -> same_but_subs A A' -> wf_tree O A'.
Proof.
  intros [T1 T2 T3 T4 T5 [T6 T7]] H. assert (forall p, kids A' p = kids A p) as Hk by (intros p; by apply sbs_kids). split.
  - intros p x' E. destruct (sbs_back _ _ _ _ H E) as (x & Ex & _ & Ho). apply Ho. by apply (T1 p).
  - intros p. by rewrite Hk.
  - intros p c. rewrite Hk. intros Hc. destruct (T3 p c Hc) as (HO & y & Ey & Hy). split; [done|].
    destruct (sbs_some _ _ _ _ H Ey) as (y' & Ey' & _ & Hy'). exists y'. split; [done|congruence].
  - intros p x' q E Hq. rewrite Hk. destruct (sbs_back _ _ _ _ H E) as (x & Ex & Hp & _). apply (T4 p x q Ex). congruence.
  - intros p. destruct (T5 p) as [n Hn]. exists n. eapply hb_kids; [|exact Hn]. intros z. by rewrite Hk.
  - split; [done|]. intros c Hc. destruct (T7 c Hc) as [y Ey]. destruct (sbs_some _ _ _ _ H Ey) as (y' & -> & _). by eexists.
Qed.

Lemma view_sbs A A' o : same_but_subs A A' -> view_of A' o = view_of A o.
Proof.
  intros H. unfold view_of. destruct o as [p|]; [|done]. specialize (H p). destruct (A !! p), (A' !! p); try done. by destruct H as [-> _].
Qed.

Lemma vsubs_edit o f A q : (forall p, o = Some p -> is_Some (A !! p)) ->
  vsubs (edit_vsubs o f A) q = if decide (o = Some q) then f (vsubs A q) else vsubs A q.
Proof.
  intros Ho. unfold edit_vsubs. destruct o as [p|]; [|done]. destruct (Ho p eq_refl) as [x Ex]. rewrite Ex, vsubs_insert.
  destruct (decide (p = q)) as [<-|Hne]; [|by rewrite decide_False by congruence]. rewrite decide_True by done. unfold vsubs. by rewrite Ex.
Qed.
Lemma csubs_edit o f A q : (forall p, o = Some p -> is_Some (A !! p)) ->
  csubs (edit_csubs o f A) q = if decide (o = Some q) then f (csubs A q) else csubs A q.
Proof.
  intros Ho. unfold edit_csubs. destruct o as [p|]; [|done]. destruct (Ho p eq_refl) as [x Ex]. rewrite Ex, csubs_insert.
  destruct (decide (p = q)) as [<-|Hne]; [|by rewrite decide_False by congruence]. rewrite decide_True by done. unfold csubs. by rewrite Ex.
Qed.
Lemma vsubs_edit_c o f A q : vsubs (edit_csubs o f A) q = vsubs A q.
Proof.
  unfold edit_csubs. destruct o as [p|]; [|done]. destruct (A !! p) as [x|] eqn:Ex; [|done]. rewrite vsubs_insert.
  destruct (decide (p = q)) as [<-|]; [|done]. unfold vsubs. by rewrite Ex.
Qed.
Lemma csubs_edit_v o f A q : csubs (edit_vsubs o f A) q = csubs A q.
Proof.
  unfold edit_vsubs. destruct o as [p|]; [|done]. destruct (A !! p) as [x|] eqn:Ex; [|done]. rewrite csubs_insert.
  destruct (decide (p = q)) as [<-|]; [|done]. unfold csubs. by rewrite Ex.
Qed.

(** ** One subscription more, or less *)

Definition attached (A : ptree) (s : sid) (value canonical : option pid) : ptree :=
  edit_vsubs value (cons s) (edit_csubs canonical (cons s) A).
Definition released (A : ptree) (s : sid) (value canonical : option pid) : ptree :=
  edit_csubs canonical (unlink s) (edit_vsubs value (unlink s) A).

Lemma alive_sbs A A' (o : option pid) : same_but_subs A A' -> (forall p, o = Some p -> is_Some (A !! p)) ->
  forall p, o = Some p -> is_Some (A' !! p).
Proof. intros H Ho p ->. destruct (Ho p eq_refl) as [x Ex]. destruct (sbs_some _ _ _ _ H Ex) as (x' & -> & _). by eexists. Qed.

Lemma subs_attached A S s y : wf_subs A S -> S !! s = None -> ok_sub y ->
  (forall p, hps_value_prop y = Some p -> is_Some (A !! p)) -> (forall p, hps_canonical_prop y = Some p -> is_Some (A !! p)) ->
  wf_subs (attached A s (hps_value_prop y) (hps_canonical_prop y)) (<[s := y]> S).
Proof.
  intros [S1 S2 S3 S4 S5] Hs Hy Hv Hc. unfold attached.
  assert (forall q, s ∉ vsubs A q) as Hnv by (intros q (z & Hz & _)%S4; congruence).
  assert (forall q, s ∉ csubs A q) as Hnc by (intros q (z & Hz & _)%S5; congruence).
  pose proof (alive_sbs _ _ _ (sbs_edit_csubs (hps_canonical_prop y) (cons s) A) Hv) as Hv'. split.
  - intros t z. destruct (decide (s = t)) as [<-|Hne]; [rewrite lookup_insert_eq; by intros [= <-]|]. rewrite lookup_insert_ne by done. apply S1.
  - intros q. rewrite vsubs_edit, vsubs_edit_c by done. destruct (decide _); [|done]. by apply NoDup_cons.
  - intros q. rewrite csubs_edit_v, csubs_edit by done. destruct (decide _); [|done]. by apply NoDup_cons.
  - intros q t. rewrite vsubs_edit, vsubs_edit_c by done. destruct (decide (s = t)) as [<-|Hne].
    + rewrite lookup_insert_eq. destruct (decide _) as [Hq|Hq].
      * split; [|by left]. intros _. by exists y.
      * split; [by intros ?%Hnv|]. by intros (z & [= <-] & ?).
    + rewrite lookup_insert_ne by done. rewrite <- S4. destruct (decide _); [|done]. set_solver.
  - intros q t. rewrite csubs_edit_v, csubs_edit by done. destruct (decide (s = t)) as [<-|Hne].
    + rewrite lookup_insert_eq. destruct (decide _) as [Hq|Hq].
      * split; [|by left]. intros _. by exists y.
      * split; [by intros ?%Hnc|]. by intros (z & [= <-] & ?).
    + rewrite lookup_insert_ne by done. rewrite <- S5. destruct (decide _); [|done]. set_solver.
Qed.

Lemma elem_of_unlink s t l : t ∈ unlink s l <-> t ∈ l /\ t <> s.
Proof. unfold unlink. rewrite list_elem_of_filter. tauto. Qed.

Lemma subs_released A S s y : wf_subs A S -> S !! s = Some y ->
  wf_subs (released A s (hps_value_prop y) (hps_canonical_prop y)) (delete s S).
Proof.
  intros H Hs. pose proof H as [S1 S2 S3 S4 S5]. unfold released.
  assert (forall p, hps_value_prop y = Some p -> is_Some (A !! p)) as Hv.
  { intros p Hp. assert (s ∈ vsubs A p) as Hin by (apply S4; by exists y). unfold vsubs in Hin.
    destruct (A !! p); [by eexists|by apply elem_of_nil in Hin]. }
  assert (forall p, hps_canonical_prop y = Some p -> is_Some (A !! p)) as Hc.
  { intros p Hp. assert (s ∈ csubs A p) as Hin by (apply S5; by exists y). unfold csubs in Hin.
    destruct (A !! p); [by eexists|by apply elem_of_nil in Hin]. }
  pose proof (alive_sbs _ _ _ (sbs_edit_vsubs (hps_value_prop y) (unlink s) A) Hc) as Hc'. split.
  - intros t z Hz. apply lookup_delete_Some in Hz as [_ Hz]. by apply (S1 t).
  - intros q. rewrite vsubs_edit_c, vsubs_edit by done. destruct (decide _); [apply NoDup_filter|]; apply S2.
  - intros q. rewrite csubs_edit, csubs_edit_v by done. destruct (decide _); [apply NoDup_filter|]; apply S3.
  - intros q t. rewrite vsubs_edit_c, vsubs_edit by done. destruct (decide (s = t)) as [<-|Hne].
    + rewrite lookup_delete_eq. split; [|by intros (z & ? & _)]. destruct (decide _) as [|Hq]; [rewrite elem_of_unlink; tauto|].
      intros (z & Hz & Hzq)%S4. congruence.
    + rewrite lookup_delete_ne by done. rewrite <- S4. destruct (decide _); [|done]. rewrite elem_of_unlink. naive_solver.
  - intros q t. rewrite csubs_edit, csubs_edit_v by done. destruct (decide (s = t)) as [<-|Hne].
    + rewrite lookup_delete_eq. split; [|by intros (z & ? & _)]. destruct (decide _) as [|Hq]; [rewrite elem_of_unlink; tauto|].
      intros (z & Hz & Hzq)%S5. congruence.
    + rewrite lookup_delete_ne by done. rewrite <- S5. destruct (decide _); [|done]. rewrite elem_of_unlink. naive_solver.
Qed.

Section client.
Variable K : sid -> Prop.
Context {LP : list (option pid)} {LS : list sid}.
#[local] Notation leads := (leads K (LP := LP) (LS := LS)).

(** * The end of a subscription *)

Lemma wp_edit_vsubs D LP' LS' o f A S E st (Q : unit -> store -> Prop) : at_ D LP' LS' A S E st ->
  (forall p, o = Some p -> is_Some (A !! p)) ->
  (forall st', at_ D LP' LS' (edit_vsubs o f A) S E st' -> Q tt st') ->
  wp (match o with Some p => upd_prop p (fun x => set_vsubs (f (hp_value_subscriptions x)) x) | None => mret tt end) Q st.
Proof.
  intros H Ho HQ. unfold edit_vsubs in HQ. destruct o as [p|]; [|by apply wp_ret, HQ]. destruct (Ho p eq_refl) as [x Ex]. rewrite Ex in HQ.
  eapply wp_at_upd; [exact H|exact Ex|done|by apply (at_live _ _ _ H Ex)|exact HQ].
Qed.
Lemma wp_edit_csubs D LP' LS' o f A S E st (Q : unit -> store -> Prop) : at_ D LP' LS' A S E st ->
  (forall p, o = Some p -> is_Some (A !! p)) ->
  (forall st', at_ D LP' LS' (edit_csubs o f A) S E st' -> Q tt st') ->
  wp (match o with Some p => upd_prop p (fun x => set_csubs (f (hp_canonical_subscriptions x)) x) | None => mret tt end) Q st.
Proof.
  intros H Ho HQ. unfold edit_csubs in HQ. destruct o as [p|]; [|by apply wp_ret, HQ]. destruct (Ho p eq_refl) as [x Ex]. rewrite Ex in HQ.
  eapply wp_at_upd; [exact H|exact Ex|done|by apply (at_live _ _ _ H Ex)|exact HQ].
Qed.

Lemma sub_props_alive A S s y : wf_subs A S -> S !! s = Some y ->
  (forall p, hps_value_prop y = Some p -> is_Some (A !! p)) /\ (forall p, hps_canonical_prop y = Some p -> is_Some (A !! p)).
Proof.
  intros [S1 S2 S3 S4 S5] Hs. split; intros p Hp.
  - assert (s ∈ vsubs A p) as Hin by (apply S4; by exists y). unfold vsubs in Hin.
    destruct (A !! p); [by eexists|by apply elem_of_nil in Hin].
  - assert (s ∈ csubs A p) as Hin by (apply S5; by exists y). unfold csubs in Hin.
    destruct (A !! p); [by eexists|by apply elem_of_nil in Hin].
Qed.

Lemma wp_unsubscribe O s y A S E st : at_ ∅ LP LS A S E st -> good K O A S E -> S !! s = Some y ->
  leads O (prop_unsubscribe0 s) (fun _ A' S' E' => S' = delete s S /\
    A' = released A s (hps_value_prop y) (hps_canonical_prop y)) st.
Proof.
  intros H HG Hs. destruct (sub_props_alive _ _ _ _ (g_subs _ _ _ _ _ HG) Hs) as [Hv Hc].
  destruct (s_ok _ _ (g_subs _ _ _ _ _ HG) s y Hs) as [Ho Hmon Hmul]. pose proof (at_slive _ _ _ H Hs) as Hl.
  unfold prop_unsubscribe0. apply wp_bind. eapply wp_at_get_sub; [exact H|exact Hs|]. intros y0 E0 ->.
  set (v := hps_value_prop (tsub y0)) in *. set (c := hps_canonical_prop (tsub y0)) in *.
  change (hps_zombie y0 = false) in Hl. change (hps_origins y0 = []) in Ho.
  change (sf_monitor (hps_flags y0) = false) in Hmon. change (sf_multi (hps_flags y0) = false) in Hmul.
  apply wp_bind, wp_passert; [by rewrite Hl|]. apply wp_bind. eapply wp_at_kill_sub; [exact H|exact E0|done|]. intros st1 H1 Hcr1.
  assert (delete s S !! s = None) as Hds by apply lookup_delete_eq.
  assert (forall st2, at_ ∅ LP (s :: LS) A (delete s S) E st2 ->
    wp (_ ← match v with None => mret tt | Some p =>
              _ ← upd_prop p (fun x => set_vsubs (unlink s (hp_value_subscriptions x)) x); upd_sub s (sub_set_value None) end;
        _ ← forM (hps_origins y0) (fun p => prop_ref_dec (Some p));
        _ ← match c with None => mret tt | Some p =>
              _ ← upd_prop p (fun x => set_csubs (unlink s (hp_canonical_subscriptions x)) x);
              _ ← (if sf_monitor (hps_flags y0) || sf_multi (hps_flags y0) then
                 x ← get_prop p;
                 _ ← passert (hp_monitored x || hp_multi_sub x);
                 '(mon, multi) ← still_needed (hp_canonical_subscriptions x);
                 _ ← (if mon : bool then mret tt else upd_prop p (set_flags None None (Some false) None None None));
                 if multi : bool then mret tt else prop_clr_multi p
               else mret tt);
              upd_sub s (sub_set_canonical None) end;
        prop_sub_ref_dec_locked s)
      (fun _ st' => exists A' S' E', at_ ∅ LP LS A' S' E' st' /\ good K O A' S' E' /\ S' = delete s S /\ A' = released A s v c) st2) as Hrest.
  { intros st2 H2. rewrite Ho, Hmon, Hmul. simpl forM. cbn [orb].
    set (A1 := edit_vsubs v (unlink s) A). apply wp_bind.
    assert (forall st3, at_ ∅ LP (s :: LS) A1 (delete s S) E st3 ->
      wp (_ ← mret tt;
        _ ← match c with None => mret tt | Some p =>
              _ ← upd_prop p (fun x => set_csubs (unlink s (hp_canonical_subscriptions x)) x);
              _ ← mret tt; upd_sub s (sub_set_canonical None) end;
        prop_sub_ref_dec_locked s)
      (fun _ st' => exists A' S' E', at_ ∅ LP LS A' S' E' st' /\ good K O A' S' E' /\ S' = delete s S /\ A' = released A s v c) st3) as Hr3.
    { intros st3 H3. apply wp_bind, wp_ret, wp_bind.
      assert (forall st4, at_ ∅ LP (s :: LS) (released A s v c) (delete s S) E st4 -> wp (prop_sub_ref_dec_locked s)
        (fun _ st' => exists A' S' E', at_ ∅ LP LS A' S' E' st' /\ good K O A' S' E' /\ S' = delete s S /\ A' = released A s v c) st4) as Hr4.
      { intros st4 H4. eapply wp_mono; [apply (wp_sub_ref_dec LP LS), H4|]. intros u st5 (Hc5 & D5 & C5).
        eexists _, _, E. split; [by apply (at_drops LP (s :: LS) LP LS _ _ E st4 st5)|]. split; [|done]. destruct HG as [HT HS HM].
        assert (same_but_subs A (released A s v c)) as Hsb by (eapply sbs_trans; [apply sbs_edit_vsubs|apply sbs_edit_csubs]).
        split; [by apply (wf_sbs O A)|by apply (subs_released A S s)|].
        intros t z Hz Hw. apply lookup_delete_Some in Hz as [_ Hz]. by rewrite (view_sbs A), (HM t z Hz Hw). }
      pose proof (alive_sbs _ _ _ (sbs_edit_vsubs v (unlink s) A) Hc) as Hc'. fold A1 in Hc'.
      pose proof (wp_edit_csubs ∅ LP (s :: LS) c (unlink s) A1 (delete s S) E st3) as Hw. fold (released A s v c) in Hw. fold A1 in Hr4.
      unfold released in Hr4. fold A1 in Hr4. destruct c as [p|].
      - apply wp_bind. apply Hw; [done|done|]. intros st4 H4. apply wp_bind, wp_ret.
        eapply wp_at_upd_dead; [exact H4|done|by left|done|done|exact Hr4].
      - apply wp_ret, Hr4, H3. }
    pose proof (wp_edit_vsubs ∅ LP (s :: LS) v (unlink s) A (delete s S) E st2) as Hw. fold A1 in Hw. destruct v as [p|].
    - apply wp_bind. apply Hw; [done|done|]. intros st3 H3. eapply wp_at_upd_dead; [exact H3|done|by left|done|done|exact Hr3].
    - apply wp_ret, Hr3, H2. }
  apply wp_bind. destruct (hps_courier y0) as [cr|] eqn:Hcr; [|by apply wp_ret, Hrest].
  destruct (c_courier _ _ _ (at_counted _ _ _ _ _ _ _ H) s y0 cr E0 Hcr) as [pc Epc].
  rewrite <- Hcr1 in Epc. apply wp_bind, (wp_get_courier _ pc); [done|].
  eapply wp_at_courier; [exact H1|exact Epc|]. intros st2 H2 _ _. by apply Hrest.
Qed.

(** * Paths *)

Lemma wp_walk_originators D LP' LS' n p x chain A S E st (Q : pid * list pid -> store -> Prop) : at_ D LP' LS' A S E st ->
  A !! p = Some x -> hp_originator x = None -> Q (p, chain) st -> wp (walk_originators (Datatypes.S n) p chain) Q st.
Proof.
  intros H Ex Ho HQ. simpl. apply wp_bind. eapply wp_at_get; [exact H|exact Ex|]. intros x0 _ Hx0.
  assert (hp_originator x0 = None) as -> by (by rewrite Hx0 in Ho). by apply wp_ret.
Qed.

(** The properties that were there are there still. *)
Definition extends (A A' : ptree) : Prop := forall q, is_Some (A !! q) -> is_Some (A' !! q).

Lemma child_made_extends A A' p name c : child_made A A' p name c -> is_Some (A !! p) -> extends A A' /\ is_Some (A' !! c).
Proof.
  intros [(z & Ez & _) Hk Hf] Hp. split; [|by eexists]. intros q Hq. destruct (decide (q = c)) as [->|Hqc]; [by eexists|].
  destruct (decide (q = p)) as [->|Hqp]; [|by rewrite Hf]. assert (c ∈ kids A' p) as Hc.
  { destruct Hk as [[Hc ->]|(_ & -> & _)]; [done|]. set_solver. }
  unfold kids in Hc. destruct (A' !! p); [by eexists|by apply elem_of_nil in Hc].
Qed.

Definition found (A' : ptree) (chain : list pid) (r : option (pid * list pid)) : Prop :=
  match r with Some (v, ch) => is_Some (A' !! v) /\ ch = chain | None => True end.

(** A void property becomes a directory when it is searched. *)
Lemma wp_open_dir x0 p x A S E st : at_ ∅ LP LS A S E st -> good K [] A S E -> A !! p = Some x -> st_props st !! p = Some x0 ->
  x = tprop x0 -> is_dir (hp_val x) || is_void (hp_val x) = true ->
  leads [] (if is_dir (hp_val x0) then mret tt
            else _ ← put_prop p (set_val (PDir [] None) x0); prop_notify_value p None 0)
    (fun _ A' S' _ => S' = S /\ A' = <[p := as_dir x]> A) st.
Proof.
  intros H HG Ex E0 Hx0 Hd. pose proof (t_ok _ _ (g_tree _ _ _ _ _ HG) p x Ex) as Hok. unfold as_dir.
  assert (hp_val x0 = hp_val x) as Hv0 by by rewrite Hx0. rewrite Hv0. destruct (is_dir (hp_val x)) eqn:Hdir.
  - apply (leads_ret K _ _ _ A S E); [done..|]. by rewrite insert_id.
  - simpl in Hd. apply wp_bind. eapply (wp_at_put p x0); [exact H|done|by rewrite Hv0; destruct (hp_val x)|done|done|].
    intros st1 H1. change (tprop (set_val (PDir [] None) x0)) with (set_val (PDir [] None) (tprop x0)) in H1. rewrite <- Hx0 in H1.
    set (x1 := set_val (PDir [] None) x) in *.
    assert (ok_prop x1) as Hok1.
    { apply value_ok; [done..|]. intros Hc. apply (ok_clipped _ Hok) in Hc. by destruct (hp_val x). }
    eapply wp_w_value; [exact H1|apply (subs_update _ _ _ x); [apply HG|done..]|apply lookup_insert_eq|done|]. intros st2 H2.
    eexists _, _, _. split; [exact H2|]. split; [|done]. apply (good_value K [] A S E p x x1 None 0); try done. by destruct (hp_val x).
Qed.

Lemma wp_subfind names : forall p (follow : bool) chain A S E st, at_ ∅ LP LS A S E st -> good K [] A S E -> is_Some (A !! p) ->
  leads [] (prop_subfind p names follow false chain) (fun r A' S' E' => S' = S /\ extends A A' /\ found A' chain r) st.
Proof.
  induction names as [|n names IH]; intros p follow chain A S E st H HG [x Ex]; simpl;
    pose proof (t_ok _ _ (g_tree _ _ _ _ _ HG) p x Ex) as Hok;
    (apply wp_bind; apply (wp_mono _ (fun r st' => st' = st /\ r = (p, chain)));
     [destruct follow; [apply wp_here; eapply wp_walk_originators; [exact H|exact Ex|apply Hok|done]|by apply wp_ret]|]);
    intros [p' chain'] st' [-> [= -> ->]].
  - apply (leads_ret K _ _ _ A S E); [done..|]. split; [done|]. split; [by intros q|]. split; [by eexists|done].
  - apply wp_bind. eapply wp_at_get; [exact H|exact Ex|]. intros x0 E0 Hx0. assert (hp_val x0 = hp_val x) as Hv0 by by rewrite Hx0.
    destruct (is_dir (hp_val x) || is_void (hp_val x)) eqn:Hd.
    2: { rewrite Hv0. apply orb_false_iff in Hd as [-> ->]. apply (leads_ret K _ _ _ A S E); [done..|]. split; [done|]. by split; [intros q|]. }
    assert (negb (is_dir (hp_val x0)) && negb (is_void (hp_val x0)) = false) as -> by (rewrite Hv0, <- negb_orb, Hd; done).
    apply wp_bind. eapply wp_mono; [by eapply (wp_open_dir x0 p x A S E)|].
    intros u st1 (A1 & S1 & E1 & H1 & G1 & -> & ->). set (A1 := <[p := as_dir x]> A) in *.
    assert (A1 !! p = Some (as_dir x)) as Ex1 by apply lookup_insert_eq. destruct (as_dir_val x) as [sel Hv].
    assert (extends A A1) as HA1.
    { intros q Hq. unfold A1. destruct (decide (p = q)) as [<-|]; [rewrite lookup_insert_eq; by eexists|by rewrite lookup_insert_ne]. }
    apply wp_bind. eapply wp_at_get; [exact H1|exact Ex1|]. intros x1 _ Hx1.
    assert (childs (hp_val x1) = kids A1 p) as -> by (rewrite (kids_Some _ _ _ Ex1), Hx1; done).
    assert (forall c A2 S2 E2 st2, at_ ∅ LP LS A2 S2 E2 st2 -> good K [] A2 S2 E2 -> S2 = S -> extends A A2 -> is_Some (A2 !! c) ->
      leads [] (prop_subfind c names follow false chain) (fun r A' S' E' => S' = S /\ extends A A' /\ found A' chain r) st2) as Hnext.
    { intros c A2 S2 E2 st2 H2 G2 -> HA2 Hc. eapply leads_mono; [by eapply (IH c follow chain A2 S E2)|].
      intros r A3 S3 E3 (-> & HA3 & Hf). split; [done|]. split; [|done]. intros q Hq. by apply HA3, HA2. }
    apply wp_bind. eapply wp_mono; [eapply (wp_child_named _ LP LS n (kids A1 p) A1 S E1 st1 H1)|].
    { intros c Hc. by apply (kid_alive [] A1 p); [apply G1|]. }
    intros [c|] st2 [-> Hr].
    + apply wp_bind, wp_ret. apply (Hnext c A1 S E1); [done..|]. destruct Hr as (_ & y & -> & _). by eexists.
    + apply wp_bind. eapply wp_mono; [eapply (wp_create0 K [] p (as_dir x) (Some n) None false A1 S E1); try done|].
      { left. by rewrite Hv. }
      intros c st3 (A3 & S3 & E3 & H3 & G3 & -> & Hcm). destruct (child_made_extends _ _ _ _ _ Hcm) as [HA3 Hc]; [by eexists|].
      apply (Hnext c A3 S E3); [done..| |done]. intros q Hq. by apply HA3, HA1.
Qed.

(** * Where a subscription begins *)

(** The property a subscription starts from is there, or nothing is. *)
Definition where_ok (A : ptree) (st : store) (w : where_) : Prop :=
  match w with
  | ByProp (Some p) => is_Some (tree st !! p)
  | ByPath (Some p) _ => is_Some (A !! p)
  | ByProp None | ByPath None _ => True
  end.

Lemma wp_locate w A S E st : at_ ∅ LP LS A S E st -> good K [] A S E -> where_ok A st w ->
  wp (locate w) (fun r st' => exists A' E' c v, r = (c, v, []) /\ at_ ∅ LP LS A' S E' st' /\ good K [] A' S E' /\ extends A A' /\
    (forall p, v = Some p -> is_Some (tree st' !! p)) /\ (forall p, c = Some p -> is_Some (tree st' !! p)) /\
    match w with ByProp o => A' = A /\ E' = E /\ v = o /\ c = o | ByPath _ _ => True end) st.
Proof.
  intros H HG Hw. destruct w as [o|[p|] names].
  - apply wp_ret. exists A, E, o, o. split; [done|]. split; [done|]. split; [done|]. split; [by intros q|].
    split; [intros p ->; exact Hw|]. split; [intros p ->; exact Hw|done].
  - simpl in Hw. apply wp_bind. eapply wp_mono; [by eapply (wp_subfind names p false [] A S E)|].
    intros c st1 (A1 & S1 & E1 & H1 & G1 & -> & HA1 & Hc). apply wp_bind.
    eapply wp_mono; [eapply (wp_subfind names p true [] A1 S E1); [done|done|by apply HA1]|].
    intros v st2 (A2 & S2 & E2 & H2 & G2 & -> & HA2 & Hv).
    assert (forall q, is_Some (A2 !! q) -> is_Some (tree st2 !! q)) as Ht.
    { intros q [y Ey]. rewrite (at_tree _ _ _ H2 Ey). by eexists. }
    assert (extends A A2) as HA by (intros q Hq; by apply HA2, HA1).
    assert (forall q, fst <$> c = Some q -> is_Some (tree st2 !! q)) as Hc'.
    { intros q Hq. destruct c as [[c0 ch]|]; [|done]. injection Hq as <-. by apply Ht, HA2, Hc. }
    destruct v as [[v ch]|].
    + destruct Hv as [Hv ->]. apply wp_bind, wp_ret, wp_ret. exists A2, E2, (fst <$> c), (Some v).
      do 4 (split; [done|]). split; [intros q [= <-]; by apply Ht|]. by split.
    + apply wp_ret. exists A2, E2, (fst <$> c), None. do 4 (split; [done|]). by split.
  - apply wp_ret. exists A, E, None, None. do 3 (split; [done|]). by split; [intros q|].
Qed.

(** * The first notifications *)

(** What a new subscription is told of the property it is on. *)
Definition greeting (y : sub) (p : pid) (v : pval) (direct : bool) : list pevent :=
  value_note y p v 0 ++
  match v with
  | PDir cs sel =>
      match sel with
      | None => if direct then [AddChildVectorDirect cs] else map (fun c => AddChild c false) cs
      | Some d => map (fun c => AddChild c (bool_decide (sel = Some c))) cs
      end
  | _ => []
  end.

Lemma view_adds (f : pid -> bool) cs : forall l, replay (VDir l) (map (fun c => AddChild c (f c)) cs) = VDir (l ++ cs).
Proof.
  induction cs as [|c cs IH]; intros l; simpl; [by rewrite app_nil_r|]. rewrite IH. by rewrite <- app_assoc.
Qed.

Lemma view_greeting y p v direct : simple_val v -> sf_ignore_void (hps_flags y) = false ->
  replay VVoid (greeting y p v direct) = view_val v.
Proof.
  intros Hv Hy. unfold greeting. rewrite replay_app, view_value by done. destruct v as [|cs sel| | | | | | |]; try done.
  destruct sel as [d|]; [apply view_adds|]. destruct direct; [done|]. apply (view_adds (fun _ => false)).
Qed.

(** Calls keep the queues as they are. *)
Definition direct_to (s : sid) (direct : bool) (st : store) : Prop :=
  direct = true -> forall y, st_subs st !! s = Some y -> pending st s (hps_courier y) = [].

Lemma wp_build_child_direct LP' LS' st s e direct y : counted LP' LS' st -> stree st !! s = Some y -> direct_to s direct st ->
  child_event e -> (forall p, Some p ∈ event_props e -> is_Some (tree st !! p)) ->
  wp (prop_build_notify_child s e direct)
    (fun _ st' => counted LP' LS' st' /\ notified st st' (only s (vis e)) /\ direct_to s direct st') st.
Proof.
  intros H E Hd He Hp. destruct (stree_inv _ _ _ E) as (y0 & E0 & ->). destruct direct.
  - unfold prop_build_notify_child. apply wp_bind, (wp_get_sub _ y0); [done|]. simpl.
    pose proof (wp_call LP' LS' st s e y0 H E0 (Hd eq_refl y0 E0)) as Hw. unfold wp in *. simpl in *.
    destruct Hw as [Hc Hn]. split; [done|]. split; [done|]. intros _ y1. cbn [add_call st_subs]. intros E1.
    assert (y1 = y0) as -> by congruence. exact (Hd eq_refl y0 E0).
  - eapply wp_mono; [apply (wp_build_child LP' LS' st s e false (tsub y0)); [done|done|by intros|done|done]|].
    intros u st' [Hc Hn]. split; [done|]. split; [done|]. by intros ?.
Qed.

Lemma wp_build_value_direct LP' LS' st s direct p y x : counted LP' LS' st -> stree st !! s = Some y -> direct_to s direct st ->
  tree st !! p = Some x -> simple_val (hp_val x) ->
  wp (prop_build_notify_value s direct p false 0)
    (fun _ st' => counted LP' LS' st' /\ notified st st' (only s (value_note y p (hp_val x) 0)) /\ direct_to s direct st') st.
Proof.
  intros H E Hd Ex Hv. destruct (stree_inv _ _ _ E) as (y0 & E0 & ->). destruct direct.
  2: { eapply wp_mono; [by apply (wp_build_value LP' LS' st s false p 0 (tsub y0) x)|]. intros u st' [Hc Hn]. split; [done|]. split; [done|]. by intros ?. }
  destruct (tree_inv _ _ _ Ex) as (x0 & Ex0 & ->). unfold prop_build_notify_value.
  pose proof (wp_build_value LP' LS' st s true p 0 (tsub y0) (tprop x0) H E (fun _ => Hd eq_refl y0 E0) Ex Hv) as Hw.
  unfold prop_build_notify_value, wp, mbind, M_bind, get_sub, get_prop in *. rewrite E0, Ex0 in *.
  destruct (sf_ignore_void (hps_flags y0) && is_void (hp_val x0)); [by destruct Hw|]. simpl in *.
  destruct (direct_event p (hp_val x0) 0); [|done]. simpl in *. destruct Hw as [Hc Hn]. split; [done|]. split; [done|].
  intros _ y1. cbn [add_call st_subs]. intros E1. assert (y1 = y0) as -> by congruence. exact (Hd eq_refl y0 E0).
Qed.

Lemma forM_map {B C} (f : C -> M unit) (g : B -> C) l : forM l (fun b => f (g b)) = forM (map g l) f.
Proof. induction l as [|b l IH]; simpl; [done|by rewrite IH]. Qed.

Lemma only_app s a b t : only s a t ++ only s b t = only s (a ++ b) t.
Proof. unfold only. by destruct (decide (s = t)). Qed.
Lemma only_nil s t : only s [] t = [].
Proof. unfold only. by destruct (decide (s = t)). Qed.

Lemma wp_greet_children LP' LS' st s direct y (f : pid -> bool) cs : counted LP' LS' st -> stree st !! s = Some y ->
  direct_to s direct st -> (forall c, c ∈ cs -> is_Some (tree st !! c)) ->
  wp (forM cs (fun c => prop_build_notify_child s (AddChild c (f c)) direct))
    (fun _ st' => counted LP' LS' st' /\ notified st st' (only s (map (fun c => AddChild c (f c)) cs)) ) st.
Proof.
  intros H E Hd Hcs.
  apply wp_forM with (I := fun l st' => counted LP' LS' st' /\ notified st st' (only s (map (fun c => AddChild c (f c)) l)) /\ direct_to s direct st');
    [| |by intros st' (? & ? & _)].
  - intros l1 c l2 st' -> (Hc & Hn & Hd'). eapply wp_mono; [eapply (wp_build_child_direct LP' LS' st' s (AddChild c (f c)) direct y); try done|].
    + by rewrite (n_stree _ _ _ Hn).
    + by eexists.
    + intros p Hp. apply list_elem_of_singleton in Hp as [= ->]. rewrite (n_tree _ _ _ Hn). apply Hcs. set_solver.
    + intros u st2 (Hc2 & Hn2 & Hd2). split; [done|]. split; [|done]. eapply notified_ext; [by eapply notified_trans|].
      intros t. simpl. by rewrite only_app, map_app.
  - split; [done|]. split; [|done]. eapply notified_ext; [apply notified_refl|]. intros t. by rewrite only_nil.
Qed.

Lemma wp_and {B} (m : M B) (P Q : B -> store -> Prop) st : wp m P st -> wp m Q st -> wp m (fun r st' => P r st' /\ Q r st') st.
Proof. unfold wp. by destruct (m st) as [[b st']|]. Qed.

Lemma ref_incs_queues l st (P : unit -> store -> Prop) :
  wp (forM l (fun o => _ ← prop_ref_inc o; mret tt)) P st ->
  wp (forM l (fun o => _ ← prop_ref_inc o; mret tt)) (fun r st' => P r st' /\
    st_subs st' = st_subs st /\ st_couriers st' = st_couriers st /\ st_global st' = st_global st) st.
Proof.
  intros HP. apply wp_and; [done|]. revert st P HP. induction l as [|o l IH]; intros st P HP; [by apply wp_ret|]. simpl in *.
  unfold wp in HP. unfold wp. unfold mbind, M_bind in *.
  destruct o as [p|]; [|by apply (IH st P)]. simpl in *. unfold upd_prop, mbind, M_bind, get_prop in *.
  destruct (st_props st !! p) as [x|]; [|done]. simpl in *. exact (IH (set_props (insert p (set_refcount (hp_refcount x + 1) x)) st) P HP).
Qed.

Lemma wp_initial_update O A S E st s direct p y x : at_ ∅ LP LS A S E st -> wf_tree O A -> S !! s = Some y -> direct_to s direct st ->
  A !! p = Some x -> sf_multi (hps_flags y) = false ->
  wp (initial_update s direct p)
    (fun _ st' => at_ ∅ LP LS A S (fun t => E t ++ only s (greeting y p (hp_val x) direct) t) st') st.
Proof.
  intros H HT Es Hd EA Hm. pose proof (ok_val _ (t_ok _ _ HT p x EA)) as Hv. pose proof (at_counted _ _ _ _ _ _ _ H) as Hc0.
  pose proof (at_stree _ _ _ H Es) as E0'. pose proof (at_tree _ _ _ H EA) as Ex.
  assert (forall c, c ∈ childs (hp_val x) -> is_Some (tree st !! c)) as Hcs.
  { intros c Hc. rewrite <- (kids_Some _ _ _ EA) in Hc. destruct (kid_alive O A p c HT Hc) as [z Ez]. rewrite (at_tree _ _ _ H Ez). by eexists. }
  destruct (stree_inv _ _ _ E0') as (y0 & E0 & ->). unfold initial_update.
  apply wp_bind, (wp_get_sub _ y0), wp_bind; [done|].
  eapply wp_mono; [by apply (wp_build_value_direct LP LS st s direct p (tsub y0) x)|]. intros u st1 (H1 & N1 & D1).
  assert (tree st1 !! p = Some x) as Ex1 by by rewrite (n_tree _ _ _ N1). destruct (tree_inv _ _ _ Ex1) as (x0 & Ex0 & ->).
  apply wp_bind, (wp_get_prop _ x0); [done|]. change (hp_val (tprop x0)) with (hp_val x0) in *.
  pose proof (at_notified _ _ _ _ _ H H1 N1) as A1. set (E1 := fun t => E t ++ _) in A1.
  assert (forall ev st2, at_ ∅ LP LS A S (fun t => E1 t ++ only s ev t) st2 ->
     at_ ∅ LP LS A S (fun t => E t ++ only s (value_note (tsub y0) p (hp_val x0) 0 ++ ev) t) st2) as Hcat.
  { intros ev st2 H2. eapply at_ext; [exact H2|]. intros t _. unfold E1. by rewrite <- only_app, app_assoc. }
  assert (wp (mret tt) (fun _ st' => at_ ∅ LP LS A S (fun t => E t ++ only s (value_note (tsub y0) p (hp_val x0) 0 ++ []) t) st') st1) as Hnil.
  { apply wp_ret, Hcat. eapply at_ext; [exact A1|]. intros t _. by rewrite only_nil, app_nil_r. }
  unfold greeting. destruct (hp_val x0) as [|cs sel| | | | | | |] eqn:Hx0; try exact Hnil.
  change (sf_multi (hps_flags y0) = false) in Hm. rewrite Hm.
  assert (stree st1 !! s = Some (tsub y0)) as Es1 by by rewrite (n_stree _ _ _ N1).
  assert (forall c, c ∈ cs -> is_Some (tree st1 !! c)) as Hcs1 by (intros c Hc; rewrite (n_tree _ _ _ N1); by apply Hcs).
  assert (forall f, (forall c, gen_add_flags c (PDir cs sel) = f c) ->
    wp (forM cs (fun c => prop_build_notify_child s (AddChild c (gen_add_flags c (PDir cs sel))) direct))
      (fun _ st' => at_ ∅ LP LS A S (fun t => E t ++
         only s (value_note (tsub y0) p (PDir cs sel) 0 ++ map (fun c => AddChild c (f c)) cs) t) st') st1) as Hloop.
  { intros f Hf. eapply wp_mono; [by apply (wp_greet_children LP LS st1 s direct (tsub y0) (fun c => gen_add_flags c (PDir cs sel)) cs)|].
    intros v st2 [H2 N2]. apply Hcat. eapply at_ext; [apply (at_notified _ _ _ _ _ A1 H2 N2)|]. intros t _.
    assert (map (fun c => AddChild c (gen_add_flags c (PDir cs sel))) cs = map (fun c => AddChild c (f c)) cs) as ->; [|done].
    apply map_ext. intros c. by rewrite Hf. }
  destruct sel as [d|]; [by apply Hloop|]. destruct direct; [|by apply Hloop].
  rewrite (forM_map (fun o => _ ← prop_ref_inc o; mret tt) Some cs). apply wp_bind.
  eapply wp_mono; [apply ref_incs_queues, (wp_ref_incs LP LS (map Some cs) st1 H1)|].
  { intros q Hq. apply list_elem_of_fmap in Hq as (c & [= ->] & Hc). by apply Hcs1. }
  intros v st2 ([H2 N2] & Q1 & Q2 & Q3). destruct (stree_inv st2 s (tsub y0)) as (y2 & E2 & Hy2); [by rewrite (n_stree _ _ _ N2)|].
  apply wp_bind. eapply wp_mono; [apply (wp_call (map Some cs ++ LP) LS st2 s (AddChildVectorDirect cs) y2 H2 E2)|].
  { rewrite Q1 in E2. pose proof (D1 eq_refl y2 E2) as Hp1. unfold pending in *. by rewrite Q2, Q3. }
  intros w st3 [H3 N3]. rewrite (forM_map prop_ref_dec Some cs).
  pose proof (at_notified _ _ _ _ _ (at_notified _ _ _ _ _ A1 H2 N2) H3 N3) as A3.
  eapply wp_mono; [apply (wp_ref_decs LP LS), H3|]. intros z st4 (H4 & D4 & C4 & _). apply Hcat.
  eapply at_ext; [apply (at_drops _ _ _ _ _ _ _ _ _ A3 H4 D4 C4)|]. intros t _. simpl. by rewrite app_nil_r.
Qed.

(** * The beginning of a subscription *)

Lemma wp_kc {B} (m : M B) P st : kc m -> wp m P st ->
  wp m (fun r st' => P r st' /\ forall c, is_Some (st_couriers st !! c) -> is_Some (st_couriers st' !! c)) st.
Proof.
  intros Hk. unfold wp. destruct (m st) as [[b st']|] eqn:Em; [|done]. intros HP. split; [done|]. intros c. by apply (Hk st b).
Qed.

Definition live_of (A : ptree) (o : option pid) : option pid :=
  match o with Some p => match A !! p with Some _ => Some p | None => None end | None => None end.

Lemma live_of_alive A o p : live_of A o = Some p -> is_Some (A !! p).
Proof. destruct o as [q|]; [|done]. simpl. destruct (A !! q) eqn:Eq; [|done]. intros [= <-]. rewrite Eq. by eexists. Qed.

Lemma wp_not_zombie o A S E st : at_ ∅ LP LS A S E st -> (forall p, o = Some p -> is_Some (tree st !! p)) ->
  wp (not_zombie o) (fun r st' => st' = st /\ r = live_of A o) st.
Proof.
  intros H Ho. destruct o as [p|]; [|by apply wp_ret]. apply wp_bind. unfold live_of. destruct (A !! p) as [x|] eqn:Ex.
  - eapply wp_at_get; [exact H|exact Ex|]. intros x0 _ Hx0. assert (hp_val x0 = hp_val x) as -> by by rewrite Hx0.
    rewrite (at_live _ _ _ H Ex). by apply wp_ret.
  - eapply wp_get_zombie; [exact H|by apply Ho|done|]. intros x0 _ Hz _. rewrite Hz. by apply wp_ret.
Qed.

Lemma wp_has_client l client A S E st : at_ ∅ LP LS A S E st -> (forall s, s ∈ l -> is_Some (S !! s)) ->
  wp (has_client l client) (fun r st' => st' = st) st.
Proof.
  intros H. induction l as [|s l IH]; intros Hl; [by apply wp_ret|]. destruct (Hl s) as [y Ey]; [left|].
  apply wp_bind. eapply wp_at_get_sub; [exact H|exact Ey|]. intros y0 _ _. destruct (_ =? _); [by apply wp_ret|].
  apply IH. intros t Ht. apply Hl. by right.
Qed.

Lemma wp_call_destroyed LP' LS' st s : counted LP' LS' st -> is_Some (st_subs st !! s) ->
  wp (call s Destroyed) (fun _ st' => counted LP' LS' st' /\ notified st st' (fun _ => [])) st.
Proof.
  intros [H1 H2 H3 H4 H5 H6 (F1 & F2 & F3 & F4)] Hs. apply wp_modify. split.
  - split; try done. split; [done|]. split; [done|]. split; [done|]. apply Forall_app. split; [done|]. by apply Forall_singleton, F2.
  - split; try done. intros t. unfold events. cbn [add_call st_calls st_subs]. rewrite calls_of_app, calls_of_one.
    destruct (decide (s = t)); simpl; by rewrite !app_nil_r.
Qed.

(** What a client asks for. *)
Record sub_ok (f : sub_flags) (c : option cid) (w : where_) (A : ptree) (st : store) : Prop := {
  so_monitor : sf_monitor f = false;
  so_multi : sf_multi f = false;
  so_courier : forall i, c = Some i -> is_Some (st_couriers st !! i);
  so_where : where_ok A st w;
  so_singleton : sf_singleton f = true -> exists p, w = ByProp (Some p)
}.

(** The subscription as it is stored. *)
Definition new_sub (client : Z) (f : sub_flags) (c : option cid) (value canonical : option pid) : sub :=
  Sub client f c value canonical [] 0 false false.

Lemma good_attached A S E s client f c v cn (ev : list pevent) : good K [] A S E -> S !! s = None ->
  sf_monitor f = false -> sf_multi f = false ->
  (forall p, v = Some p -> is_Some (A !! p)) -> (forall p, cn = Some p -> is_Some (A !! p)) ->
  (watched K s (new_sub client f c v cn) -> replay VVoid ev = view_of A v) ->
  good K [] (attached A s v cn) (<[s := new_sub client f c v cn]> S) (fun t => if decide (t = s) then ev else E t).
Proof.
  intros [HT HS HM] Hs Hmon Hmul Hv Hc Hev.
  assert (same_but_subs A (attached A s v cn)) as Hsb by (eapply sbs_trans; [apply sbs_edit_csubs|apply sbs_edit_vsubs]). split.
  - by apply (wf_sbs [] A).
  - by apply (subs_attached A S s (new_sub client f c v cn)).
  - intros t z Hz Hw. rewrite (view_sbs A) by done. destruct (decide (t = s)) as [->|Hne].
    + rewrite lookup_insert_eq in Hz. injection Hz as <-. by apply Hev.
    + rewrite lookup_insert_ne in Hz by done. by apply HM.
Qed.

Definition first_events (A : ptree) (s : sid) (y : sub) (direct : bool) : list pevent :=
  match hps_value_prop y with
  | Some p => match A !! p with
              | Some x => if sf_no_initial_update (hps_flags y) then [] else greeting y p (hp_val x) direct
              | None => []
              end
  | None => []
  end.

(** The two lists are filled, and the subscription is told what there is. *)
Lemma wp_attach A S E st s client f c v cn direct (Q : bool -> unit -> store -> Prop) :
  let y := new_sub client f c v cn in
  at_ ∅ LP LS A (<[s := y]> S) E st -> wf_tree [] A -> sf_monitor f = false -> sf_multi f = false -> E s = [] ->
  (forall p, v = Some p -> is_Some (A !! p)) -> (forall p, cn = Some p -> is_Some (A !! p)) ->
  (forall st', at_ ∅ LP LS (attached A s v cn) (<[s := y]> S) (fun t => E t ++ only s (first_events A s y direct) t) st' -> Q false tt st') ->
  wp (attach_canonical s cn f) (fun b => wp (attach_value s v f direct) (Q b)) st.
Proof.
  intros y H HT Hmon Hmul HE Hv Hc HQ.
  set (A1 := edit_csubs cn (cons s) A) in *. assert (same_but_subs A A1) as Hsb1 by apply sbs_edit_csubs.
  pose proof (alive_sbs _ _ _ Hsb1 Hv) as Hv1.
  assert (forall st1, at_ ∅ LP LS A1 (<[s := y]> S) E st1 -> wp (attach_value s v f direct) (Q false) st1) as Hval.
  { intros st1 H1. unfold attached in HQ. fold A1 in HQ.
    pose proof (wp_edit_vsubs ∅ LP LS v (cons s) A1 (<[s := y]> S) E st1) as Hw. unfold attach_value, first_events in *.
    destruct v as [p|].
    2: { apply wp_ret, HQ. eapply at_ext; [exact H1|]. intros t _. simpl. by rewrite only_nil, app_nil_r. }
    apply wp_bind. apply Hw; [done|done|]. intros st2 H2. set (A2 := edit_vsubs (Some p) (cons s) A1) in *.
    assert (same_but_subs A1 A2) as Hsb2 by apply sbs_edit_vsubs. pose proof (sbs_trans _ _ _ Hsb1 Hsb2) as Hsb.
    destruct (Hv p eq_refl) as [x Ex]. destruct (sbs_some _ _ _ _ Hsb Ex) as (x2 & Ex2 & Hvx & _).
    pose proof (wf_sbs [] _ _ HT Hsb) as HT2.
    assert (<[s := y]> S !! s = Some y) as Ey by apply lookup_insert_eq. simpl in HQ. rewrite Ex in HQ.
    apply wp_bind. eapply (wp_mono _ (fun _ st3 => at_ ∅ LP LS A2 (<[s := y]> S) (fun t => E t ++
      only s (if sf_no_initial_update f then [] else greeting y p (hp_val x) direct) t) st3)).
    - destruct (sf_no_initial_update f).
      + apply wp_ret. eapply at_ext; [exact H2|]. intros t _. by rewrite only_nil, app_nil_r.
      + rewrite <- Hvx. eapply wp_initial_update; [exact H2|exact HT2|done| |exact Ex2|done].
        intros _ z Hz. pose proof (at_events _ _ _ _ _ _ _ H2 s ltac:(by eexists)) as Hev. rewrite HE in Hev.
        unfold events in Hev. rewrite Hz in Hev. by apply app_eq_nil in Hev as [_ ->].
    - intros u st3 H3. apply wp_bind. eapply wp_at_get; [exact H3|exact Ex2|]. intros x0 _ Hx0.
      assert (hp_monitored x0 = false) as ->.
      { change (hp_monitored (tprop x0) = false). rewrite <- Hx0. apply (ok_monitored _ (t_ok _ _ HT2 p x2 Ex2)). }
      rewrite andb_false_r. by apply wp_ret, HQ. }
  pose proof (wp_edit_csubs ∅ LP LS cn (cons s) A (<[s := y]> S) E st) as Hw. fold A1 in Hw. unfold attach_canonical. destruct cn as [p|].
  - apply wp_bind. apply Hw; [done|done|]. intros st1 H1. destruct (Hc p eq_refl) as [x Ex].
    destruct (sbs_some _ _ _ _ Hsb1 Ex) as (x1 & Ex1 & _). apply wp_bind. eapply wp_at_get; [exact H1|exact Ex1|]. intros x0 _ _.
    rewrite Hmon, Hmul. apply wp_bind, wp_ret, wp_bind, wp_ret, wp_ret. by apply Hval.
  - apply wp_ret. by apply Hval.
Qed.

Lemma wp_subscribe f client c w A S E st : at_ ∅ LP LS A S E st -> good K [] A S E -> sub_ok f c w A st ->
  leads [] (prop_subscribe f client c w) (fun r A' S' E' =>
    r = None /\ S' = S \/
    exists s y, S !! s = None /\ S' = <[s := y]> S /\ hps_flags y = f /\ hps_courier y = c /\ hps_client y = client /\
      (r = Some s \/ r = None) /\ forall o, w = ByProp o -> hps_value_prop y = live_of A o) st.
Proof.
  intros H HG [Hmon Hmul Hcr Hw Hsing]. unfold prop_subscribe. set (direct := sf_direct_update f || sf_internal f).
  apply wp_bind. eapply wp_mono; [apply wp_kc; [apply kc_locate|by apply (wp_locate w A S E st)]|].
  intros r st1 ((A1 & E1 & cn & v & -> & H1 & G1 & HA1 & Hv & Hcn & Hby) & Hkc). apply wp_bind.
  apply (wp_mono _ (fun _ st' => st' = st1)).
  { destruct (sf_singleton f); [|by apply wp_ret]. destruct (Hsing eq_refl) as [p ->]. destruct Hby as (_ & _ & -> & ->).
    apply wp_bind. destruct (A1 !! p) as [x|] eqn:Ex.
    - eapply wp_at_get; [exact H1|exact Ex|]. intros x0 _ Hx0. apply (wp_has_client _ client A1 S E1); [done|]. intros s Hs.
      assert (s ∈ vsubs A1 p) as Hs'. { unfold vsubs. rewrite Ex, Hx0. exact Hs. }
      apply (s_value _ _ (g_subs _ _ _ _ _ G1)) in Hs' as (y & -> & _). by eexists.
    - eapply wp_get_zombie; [exact H1|by apply Hv|done|]. intros x0 _ _ [_ Hvs _]. rewrite Hvs. by apply wp_ret. }
  intros [|] st' ->; [apply (leads_ret K _ _ _ A1 S E1); [done..|by left]|].
  apply wp_bind. eapply wp_mono; [by apply (wp_not_zombie v A1 S E1)|]. intros v' st' [-> ->].
  apply wp_bind. eapply wp_mono; [by apply (wp_not_zombie cn A1 S E1)|]. intros cn' st' [-> ->].
  set (v' := live_of A1 v). set (cn' := live_of A1 cn).
  pose proof (live_of_alive A1 v : forall p, v' = Some p -> _) as Hv'. pose proof (live_of_alive A1 cn : forall p, cn' = Some p -> _) as Hcn'.
  apply wp_bind. eapply wp_at_new; [exact H1|]. intros s st2 H2 Hfr Hcr2. pose proof (fresh_subs _ _ H2 Hfr) as Hs.
  apply wp_bind, wp_ret, wp_bind. set (y := new_sub client f c v' cn').
  set (E2 := fun t => if decide (t = s) then [] else E1 t).
  assert (forall st3, at_ ∅ LP LS A1 S E1 st3 -> at_ ∅ LP LS A1 S E2 st3) as HE2.
  { intros st3 H3. eapply at_ext; [exact H3|]. intros t [z Hz]. unfold E2. rewrite decide_False; [done|congruence]. }
  assert (E2 s = []) as HE2s by (unfold E2; by rewrite decide_True).
  set (P := fun (r : option sid) (A' : ptree) (S' : psubs) (_ : sid -> list pevent) => r = None /\ S' = S \/
    exists s y, S !! s = None /\ S' = <[s := y]> S /\ hps_flags y = f /\ hps_courier y = c /\ hps_client y = client /\
      (r = Some s \/ r = None) /\ forall o, w = ByProp o -> hps_value_prop y = live_of A o).
  assert (forall r A' E', r = Some s \/ r = None -> P r A' (<[s := y]> S) E') as HP.
  { intros r A' E' Hr. right. exists s, y. split; [done|]. split; [done|]. do 3 (split; [done|]). split; [done|].
    intros o ->. by destruct Hby as (-> & -> & -> & _). }
  set (ev := first_events A1 s y direct). set (A3 := attached A1 s v' cn').
  assert (good K [] A3 (<[s := y]> S) (fun t => E2 t ++ only s ev t)) as G3.
  { apply (good_ext K _ _ _ (fun t => if decide (t = s) then ev else E1 t)).
    - apply good_attached; [done..|]. intros (_ & Hi & Hn). unfold ev, first_events. simpl. unfold view_of.
      destruct v' as [p|]; [|done]. destruct (Hv' p eq_refl) as [x Ex]. rewrite Ex. simpl in Hn. rewrite Hn.
      apply view_greeting; [|done]. by apply (t_ok _ _ (g_tree _ _ _ _ _ G1) p).
    - intros t _. unfold E2, only. destruct (decide (t = s)) as [->|Hne]; [by rewrite decide_True|].
      rewrite decide_False by done. by rewrite app_nil_r. }
  assert (forall st3, at_ ∅ LP LS A1 S E1 st3 -> fresh s st3 -> (forall i, c = Some i -> is_Some (st_couriers st3 !! i)) ->
    leads [] (_ ← put_sub s (Sub client f c v' cn' [] 1 false false);
      activate ← attach_canonical s cn' f;
      _ ← attach_value s v' f direct;
      _ ← match cn' with
          | Some p => if activate : bool then prop_send_subscription_monitor_active p else mret tt
          | None => mret tt
          end;
      match cn' with
      | Some _ => mret (Some s)
      | None =>
          if sf_track_destroy f || sf_track_destroy_exp f then
            if direct then _ ← call s Destroyed; mret None
            else _ ← prop_notify_destroyed s; mret (Some s)
          else mret (Some s)
      end) P st3) as Hrest.
  { intros st3 H3 Hf3 Hc3. apply wp_bind. eapply wp_at_new_sub; [by apply HE2|exact Hf3|done|done|exact Hc3|exact HE2s|].
    intros st4 H4. apply wp_bind. eapply wp_mono; [|intros b st5 Hb; apply wp_bind, Hb].
    eapply (wp_attach A1 S E2 st4 s client f c v' cn' direct); [exact H4|apply G1|done..|]. intros st5 H5. fold A3 y ev in H5.
    apply wp_bind. assert (forall r, r = Some s \/ r = None -> leads [] (mret r) P st5) as Hret.
    { intros r Hr. apply (leads_ret K _ _ _ A3 (<[s := y]> S) (fun t => E2 t ++ only s ev t)); [done..|by apply HP]. }
    destruct cn' as [p|]; [by apply wp_ret, Hret; left|]. apply wp_ret.
    destruct (sf_track_destroy f || sf_track_destroy_exp f); [|by apply Hret; left].
    assert (stree st5 !! s = Some y) as Ey by (apply (at_stree _ _ _ H5), lookup_insert_eq).
    assert (forall st6, counted LP LS st6 /\ notified st5 st6 (fun _ => []) -> forall r, r = Some s \/ r = None -> leads [] (mret r) P st6) as Hret6.
    { intros st6 [Hc6 Hn6] r Hr. apply (leads_ret K _ _ _ A3 (<[s := y]> S) (fun t => E2 t ++ only s ev t)); [|done|by apply HP].
      eapply at_ext; [apply (at_notified _ _ _ _ _ H5 Hc6 Hn6)|]. intros t _. simpl. by rewrite app_nil_r. }
    destruct direct.
    - apply wp_bind. eapply wp_mono; [apply (wp_call_destroyed LP LS st5 s); [apply H5|]|].
      + destruct (stree_inv _ _ _ Ey) as (y0 & -> & _). by eexists.
      + intros u st6 H6. apply Hret6; [done|by right].
    - apply wp_bind. eapply wp_mono; [apply (wp_notify_destroyed LP LS st5 s); [apply H5|by eexists]|].
      intros u st6 H6. apply Hret6; [done|by left]. }
  destruct c as [i|]; [|apply wp_ret, Hrest; done].
  destruct (Hkc i (Hcr i eq_refl)) as [pc Epc]. rewrite <- Hcr2 in Epc. apply wp_bind, (wp_get_courier _ pc); [done|].
  eapply wp_at_courier; [exact H2|exact Epc|]. intros st3 H3 Hi Hfr3. apply Hrest; [done|by apply Hfr3|by intros j [= <-]].
Qed.

End client.
