(* ===== verification/PropSystem.v ===== *)
(** The property tree with its clients: the operations they may ask for, one
    after the other, and what holds of every state that can be reached.

    The programs considered here make no links between properties, no
    subscriptions for several levels or for monitoring, and no properties that
    refer to others; they give up no reference they do not hold, and ask for
    what the code asserts ([allowed]). *)
From S2P Require Import Prelude PropStore PropTree PropSub PropCourier PropLogic PropWorld PropQueue PropWf PropMirror PropDestroy PropOps PropEdit PropNumber PropReap PropClient.

Local Open Scope Z_scope.

(** * Operations *)

Inductive op :=
| Create_root (name : option (list Z)) (noalloc : bool)
| Create (p : pid) (name : option (list Z)) (skipme : option sid) (noalloc : bool)
| Destroy (p : pid)
| Destroy_childs (p : pid)
| Destroy_by_name (p : pid) (name : option (list Z))
| Destroy_first (p : pid)
| Mark_childs (p : pid)
| Unmark (p : pid)
| Destroy_marked (p : pid)
| Void_childs (p : pid)
| Set_void (p : pid) (skipme : option sid)
| Set_string (p : pid) (skipme : option sid) (s : list Z) (ty : Z)
| Set_rstring (p : pid) (skipme : option sid) (s : list Z)
| Set_cstring (p : pid) (skipme : option sid) (s : list Z)
| Set_uri (p : pid) (skipme : option sid) (title url : option (list Z))
| Set_int (p : pid) (skipme : option sid) (v : Z)
| Add_int (p : pid) (skipme : option sid) (v : Z)
| Toggle_int (p : pid) (skipme : option sid)
| Clip_int (p : pid) (lo hi : Z)
| Move (p : pid) (before : option pid) (skipme : option sid)
| Req_move (p : pid) (before : option pid) (skipme : option sid)
| Unparent (p : pid) (skipme : option sid)
| Set_parent (p parent : pid) (before : option pid) (skipme : option sid)
| Select (p : pid) (extra : option pid) (skipme : option sid)
| Suggest_focus (p : pid)
| Request_new_child (p : pid)
| Want_more_childs (s : sid)
| Have_more_childs (p : pid) (yes : bool)
| Subscribe (f : sub_flags) (client : Z) (c : option cid) (w : where_)
| Unsubscribe (s : sid)
| Courier_create
| Courier_poll (c : cid)
| Courier_round (c : cid)
| Ref_inc (p : pid)
| Ref_dec (p : pid).

Definition quietly {B} (m : M B) : M unit := _ ← m; mret tt.

Definition run (o : op) : M unit :=
  match o with
  | Create_root name noalloc => quietly (prop_create_root_ex name noalloc)
  | Create p name skipme noalloc => quietly (prop_create_ex (Some p) name skipme noalloc false)
  | Destroy p => prop_destroy (Some p)
  | Destroy_childs p => prop_destroy_childs (Some p)
  | Destroy_by_name p name => prop_destroy_by_name p name
  | Destroy_first p => prop_destroy_first p
  | Mark_childs p => prop_mark_childs p
  | Unmark p => prop_unmark (Some p)
  | Destroy_marked p => prop_destroy_marked_childs p
  | Void_childs p => prop_void_childs (Some p)
  | Set_void p skipme => prop_set_void_ex (Some p) skipme
  | Set_string p skipme s ty => prop_set_string_ex (Some p) skipme (Some s) ty
  | Set_rstring p skipme s => prop_set_rstring_exl p skipme s
  | Set_cstring p skipme s => prop_set_cstring_exl p skipme s
  | Set_uri p skipme title url => prop_set_uri_ex (Some p) skipme title url
  | Set_int p skipme v => prop_set_int_ex (Some p) skipme v
  | Add_int p skipme v => prop_add_int_ex (Some p) skipme v
  | Toggle_int p skipme => prop_toggle_int_ex (Some p) skipme
  | Clip_int p lo hi => prop_set_int_clipping_range (Some p) lo hi
  | Move p before skipme => prop_move0 p before skipme
  | Req_move p before skipme => prop_req_move0 p before skipme
  | Unparent p skipme => prop_unparent0 p skipme
  | Set_parent p parent before skipme => quietly (prop_set_parent0 p parent before skipme)
  | Select p extra skipme => prop_select_ex p extra skipme
  | Suggest_focus p => prop_suggest_focus p
  | Request_new_child p => prop_request_new_child p
  | Want_more_childs s => prop_want_more_childs s
  | Have_more_childs p yes => prop_have_more_childs p yes
  | Subscribe f client c w => quietly (prop_subscribe f client c w)
  | Unsubscribe s => prop_unsubscribe (Some s)
  | Courier_create => quietly prop_courier_create
  | Courier_poll c => prop_courier_poll c
  | Courier_round c => prop_courier_round c
  | Ref_inc p => quietly (prop_ref_inc (Some p))
  | Ref_dec p => prop_ref_dec (Some p)
  end.

(** What a client has to see to: it names properties that are there, of the
    kind that is needed.  A property it still refers to may have been
    destroyed where the code looks. *)
Definition allowed (K : sid -> Prop) (st : store) (o : op) : Prop :=
  let A := alive st in
  let there p := is_Some (A !! p) in
  let known p := is_Some (st_props st !! p) in
  match o with
  | Create_root _ _ | Courier_create => True
  | Create p _ skipme _ => skips K skipme /\ known p /\ forall x, A !! p = Some x -> may_hold x
  | Destroy p | Ref_inc p | Ref_dec p => known p
  | Destroy_childs p | Destroy_by_name p _ | Destroy_first p | Mark_childs p | Unmark p | Destroy_marked p
  | Void_childs p | Unparent p _ | Suggest_focus p | Request_new_child p | Have_more_childs p _ => there p
  | Set_void p skipme | Set_string p skipme _ _ | Set_rstring p skipme _ | Set_cstring p skipme _
  | Set_uri p skipme _ _ => skips K skipme /\ known p
  | Set_int p skipme _ => skips K skipme /\ known p /\ forall x, A !! p = Some x -> floats_fit x
  | Add_int p skipme v => skips K skipme /\ exists x old r, A !! p = Some x /\ hp_val x = PInt old r /\
      int_min <= old + v <= int_max
  | Toggle_int p skipme => skips K skipme /\ exists x old r, A !! p = Some x /\ hp_val x = PInt old r
  | Clip_int p _ _ => exists x old r, A !! p = Some x /\ hp_val x = PInt old r
  | Move p before skipme => skips K skipme /\ there p /\ before <> Some p /\ forall b, before = Some b -> there b
  | Req_move p before _ => (exists x q, A !! p = Some x /\ hp_parent x = Some q) /\ forall b, before = Some b -> there b
  | Set_parent p parent before skipme => skips K skipme /\ there p /\ (exists x, A !! parent = Some x /\ may_hold x) /\
      ~ below A p parent /\ forall b, before = Some b -> b ∈ kids A parent /\ b <> p
  | Select p extra _ => there p /\ forall c, extra = Some c -> there c
  | Want_more_childs s => exists y p, asubs st !! s = Some y /\ hps_value_prop y = Some p
  | Subscribe f _ c w => sub_ok f c w A st
  | Unsubscribe s => is_Some (asubs st !! s)
  | Courier_poll c | Courier_round c => is_Some (st_couriers st !! c)
  end.

(** The references the clients hold. *)
Definition refs_step (o : op) (refs refs' : list pid) : Prop :=
  match o with
  | Ref_inc p => refs' = p :: refs
  | Ref_dec p => refs ≡ₚ p :: refs'
  | _ => refs' = refs
  end.

Inductive step (K : sid -> Prop) : list pid * store -> op -> list pid * store -> Prop :=
| step_intro refs refs' st st' o : allowed K st o -> refs_step o refs refs' -> run o st = Ok (tt, st') ->
    step K (refs, st) o (refs', st').

Inductive reachable (K : sid -> Prop) : list pid * store -> Prop :=
| reach_init : reachable K ([], prop_init)
| reach_step s o s' : reachable K s -> step K s o s' -> reachable K s'.

(** * The invariant *)

Definition sane (K : sid -> Prop) (refs : list pid) (st : store) : Prop :=
  exists A S E, at_ ∅ (map Some refs) [] A S E st /\ good K [] A S E.

(** A queue that is still empty. *)
Lemma wp_courier_create LP LS A S E st (Q : unit -> store -> Prop) : at_ ∅ LP LS A S E st ->
  (forall st', at_ ∅ LP LS A S E st' -> Q tt st') -> wp (quietly prop_courier_create) Q st.
Proof.
  intros H HQ. unfold quietly, prop_courier_create. apply wp_bind, wp_bind. eapply wp_at_new; [exact H|].
  intros c st1 [[C1 C2 C3 C4 C5 C6 (F1 & F2 & F3 & F4)] H2 H3 H4 H5 H6] (_ & _ & Hn & Hlt & _) _.
  apply wp_bind, wp_modify, wp_ret, wp_ret, HQ. set (pc := Courier [] [] 0).
  assert (forall f, held f (set_couriers (insert c pc) st1) = held f st1) as Hh.
  { intros f. unfold held. cbn [st_couriers st_global set_couriers]. by rewrite msum_new. }
  split; [|done|done| |done|done].
  - split; try done.
    + intros p. rewrite Hh. apply C1.
    + intros s. rewrite Hh. apply C2.
    + intros c' pc'. cbn [st_couriers set_couriers]. destruct (decide (c = c')) as [<-|Hne].
      * rewrite lookup_insert_eq. intros [= <-]. constructor.
      * rewrite lookup_insert_ne by done. apply C3.
    + intros s y c' pc' Ey Hy. cbn [st_couriers set_couriers]. destruct (decide (c = c')) as [<-|Hne].
      * rewrite lookup_insert_eq. by intros [= <-].
      * rewrite lookup_insert_ne by done. by apply (C5 s y).
    + intros s y c' Ey Hy. cbn [st_couriers set_couriers]. destruct (decide (c = c')) as [<-|Hne].
      * rewrite lookup_insert_eq. by eexists.
      * rewrite lookup_insert_ne by done. by apply (C6 s y).
    + split; [done|]. split; [done|]. split; [|done]. intros c'. cbn [st_couriers set_couriers st_next].
      destruct (decide (c = c')) as [<-|Hne]; [done|]. rewrite lookup_insert_ne by done. apply F3.
  - intros s Hs. rewrite <- H4 by done. unfold events. f_equal. cbn [st_subs set_couriers].
    destruct (st_subs st1 !! s) as [y|]; [|done]. unfold pending. destruct (hps_courier y) as [c'|]; [|done].
    cbn [st_couriers set_couriers]. destruct (decide (c = c')) as [<-|Hne].
    + by rewrite lookup_insert_eq, Hn.
    + by rewrite lookup_insert_ne.
Qed.

Lemma sane_init K : sane K [] prop_init.
Proof.
  set (x := Prop_ 0 (Some (lit "global")) None None [] [] [] PVoid 1 false true false false false false false).
  assert (tree prop_init = {[ O := x ]}) as Ht by (unfold tree; simpl; by rewrite map_fmap_singleton).
  assert (alive prop_init = {[ O := x ]}) as Ha.
  { unfold alive. rewrite Ht. apply map_eq. intros p. destruct (decide (p = O)) as [->|Hne].
    - rewrite lookup_singleton_eq. by apply map_lookup_filter_Some.
    - rewrite lookup_singleton_ne by done. apply map_lookup_filter_None. left. by apply lookup_singleton_ne. }
  assert (forall (p : pid) (z : prop), ({[ O := x ]} : ptree) !! p = Some z -> p = O /\ z = x) as Hone.
  { intros p z Hz. apply lookup_singleton_Some in Hz as [<- <-]. done. }
  assert (forall p, kids {[ O := x ]} p = []) as Hk.
  { intros p. unfold kids. destruct (({[ O := x ]} : ptree) !! p) as [z|] eqn:Ez; [|done]. by destruct (Hone _ _ Ez) as [_ ->]. }
  exists {[ O := x ]}, ∅, (fun _ => []). split; [|split].
  - split; [| | |by intros s [? ?%lookup_empty_Some]|done|].
    + split; try done.
      * intros p. simpl. destruct (decide (p = O)) as [->|Hne]; [rewrite lookup_singleton_eq; vm_compute; split; congruence|].
        rewrite lookup_singleton_ne by done. done.
      * intros s q H. by apply elem_of_nil in H.
      * split; [|split; [|split]]; [| | |constructor].
        { intros p [z Hz]. simpl in *. apply lookup_singleton_Some in Hz as [<- _]. lia. }
        { intros s [z Hz]. change ((∅ : psubs) !! s = Some z) in Hz. by rewrite lookup_empty in Hz. }
        { intros c [z Hz]. change ((∅ : gmap cid courier) !! c = Some z) in Hz. by rewrite lookup_empty in Hz. }
    + done.
    + apply map_eq. intros s. rewrite lookup_empty. apply map_lookup_filter_None. left. unfold stree. simpl. by rewrite fmap_empty, lookup_empty.
    + intros p z Hz _. rewrite Ht in Hz. destruct (Hone _ _ Hz) as [_ ->]. right. by split.
  - split.
    + intros p z Hz. destruct (Hone _ _ Hz) as [_ ->]. by split.
    + intros p. rewrite Hk. constructor.
    + intros p c. rewrite Hk. by intros ?%elem_of_nil.
    + intros p z q Hz. destruct (Hone _ _ Hz) as [_ ->]. done.
    + intros p. exists 1%nat. simpl. rewrite Hk. constructor.
    + split; [constructor|]. by intros c ?%elem_of_nil.
  - assert (forall p, vsubs {[ O := x ]} p = [] /\ csubs {[ O := x ]} p = []) as Hs.
    { intros p. unfold vsubs, csubs. destruct (({[ O := x ]} : ptree) !! p) as [z|] eqn:Ez; [|done]. by destruct (Hone _ _ Ez) as [_ ->]. }
    split.
    + intros s y Hy. by rewrite lookup_empty in Hy.
    + intros p. destruct (Hs p) as [-> _]. constructor.
    + intros p. destruct (Hs p) as [_ ->]. constructor.
    + intros p s. destruct (Hs p) as [-> _]. split; [by intros ?%elem_of_nil|]. intros (y & Hy & _). by rewrite lookup_empty in Hy.
    + intros p s. destruct (Hs p) as [_ ->]. split; [by intros ?%elem_of_nil|]. intros (y & Hy & _). by rewrite lookup_empty in Hy.
  - intros s y Hy. by rewrite lookup_empty in Hy.
Qed.

(** * Every operation keeps it *)

Section run.
Variable K : sid -> Prop.

Lemma leads_sane {B} refs (m : M B) P st : leads K (LP := map Some refs) (LS := []) [] m P st ->
  wp m (fun _ st' => sane K refs st') st.
Proof. intros H. eapply wp_mono; [exact H|]. intros b st' (A & S & E & H' & HG & _). by exists A, S, E. Qed.

Lemma leads_quietly {B} refs (m : M B) P st : leads K (LP := map Some refs) (LS := []) [] m P st ->
  wp (quietly m) (fun _ st' => sane K refs st') st.
Proof. intros H. apply wp_bind. eapply wp_mono; [by apply (leads_sane refs m P)|]. intros b st' H'. by apply wp_ret. Qed.

Lemma known_tree st p : is_Some (st_props st !! p) -> is_Some (tree st !! p).
Proof. intros [x Ex]. rewrite (tree_lookup _ _ _ Ex). by eexists. Qed.

(** A property is there, or has been destroyed. *)
Lemma known_cases (A : ptree) p : {x | A !! p = Some x} + {A !! p = None}.
Proof. destruct (A !! p) as [x|]; [left; by exists x|by right]. Qed.

Context (refs : list pid) (A : ptree) (S : psubs) (E : sid -> list pevent) (st : store).
Hypothesis H : at_ ∅ (map Some refs) [] A S E st.
Hypothesis HG : good K [] A S E.

Let sane' : unit -> store -> Prop := fun _ st' => sane K refs st'.

Lemma run_set p skipme same keep v : skips K skipme -> is_Some (st_props st !! p) ->
  (forall u, keep u = true -> plain_kind u) -> plain_kind v -> wp (set_value p skipme same keep v) sane' st.
Proof using H HG.
  intros Hs Hp Hk Hv. destruct (known_cases A p) as [[x Ex]|Hn].
  - by eapply leads_sane, (set_value_spec K [] p x skipme same keep v A S E).
  - eapply leads_sane, (set_value_zombie K [] p skipme same keep v A S E); [done|done|by apply known_tree|done].
Qed.

Lemma run_create p name skipme noalloc : skips K skipme -> is_Some (st_props st !! p) ->
  (forall x, A !! p = Some x -> may_hold x) -> wp (quietly (prop_create_ex (Some p) name skipme noalloc false)) sane' st.
Proof using H HG.
  intros Hs Hp Hm. destruct (known_cases A p) as [[x Ex]|Hn].
  - eapply leads_quietly, (wp_create K [] p x name skipme noalloc A S E); try done. by apply Hm.
  - apply wp_bind. unfold prop_create_ex. apply wp_bind, wp_bind. eapply wp_get_zombie; [exact H|by apply known_tree|done|].
    intros x0 _ Hz _. rewrite Hz. apply wp_ret, wp_ret, wp_ret. by exists A, S, E.
Qed.

Lemma run_destroy p : is_Some (st_props st !! p) -> wp (prop_destroy (Some p)) sane' st.
Proof using H HG.
  intros Hp. destruct (known_cases A p) as [[x Ex]|Hn].
  - eapply leads_sane, (wp_destroy K [] p x A S E); [done..|apply not_elem_of_nil].
  - eapply leads_sane, (wp_destroy_zombie K [] p A S E); [done..|by apply known_tree|done].
Qed.

Lemma run_set_int p skipme v : skips K skipme -> is_Some (st_props st !! p) -> (forall x, A !! p = Some x -> floats_fit x) ->
  wp (prop_set_int_ex (Some p) skipme v) sane' st.
Proof using H HG.
  intros Hs Hp Hf. unfold prop_set_int_ex. destruct (known_cases A p) as [[x Ex]|Hn].
  - eapply leads_sane, (wp_set_int K [] p x skipme v A S E); try done. by apply Hf.
  - apply wp_bind. eapply wp_get_zombie; [exact H|by apply known_tree|done|]. intros x0 _ Hz _. rewrite Hz.
    apply wp_ret. by exists A, S, E.
Qed.

Lemma run_send p e : is_Some (A !! p) -> bare_event e -> (forall w, view_event w e = w) -> wp (prop_send_event p e) sane' st.
Proof using H HG. intros [x Ex] He Hw. by eapply leads_sane, (wp_send K [] p x e A S E). Qed.

Lemma run_want_more s y p : S !! s = Some y -> hps_value_prop y = Some p -> wp (prop_want_more_childs s) sane' st.
Proof using H HG.
  intros Hy Hv. apply wp_bind. eapply wp_at_get_sub; [exact H|exact Hy|]. intros y0 _ Hy0.
  assert (hps_value_prop y0 = Some p) as -> by (by rewrite Hy0 in Hv). apply run_send; [|done|done].
  destruct (sub_props_alive A S s y (g_subs _ _ _ _ _ HG) Hy) as [Hal _]. by apply Hal.
Qed.

Lemma run_refs_inc p : is_Some (st_props st !! p) -> wp (quietly (prop_ref_inc (Some p))) (fun _ st' => sane K (p :: refs) st') st.
Proof using H HG.
  intros Hp. apply wp_bind. eapply wp_mono; [apply (wp_ref_inc _ _ _ _ (at_counted _ _ _ _ _ _ _ H)); by apply known_tree|].
  intros r st' (_ & Hc & Hn). apply wp_ret. exists A, S, E. split; [|done].
  eapply at_ext; [apply (at_notified _ _ _ _ _ H Hc Hn)|]. intros s _. simpl. by rewrite app_nil_r.
Qed.

Lemma run_refs_dec p refs' : refs ≡ₚ p :: refs' -> wp (prop_ref_dec (Some p)) (fun _ st' => sane K refs' st') st.
Proof using H HG.
  intros Hp. eapply (wp_at_ref_dec (map Some refs') [] A S E).
  - pose proof H as [H1 H2 H3 H4 H5 H6]. split; try done. eapply counted_refs; [exact H1|]. intros q.
    rewrite (prefs_perm (map Some refs) (Some p :: map Some refs') q); [done|]. change (Some p :: map Some refs') with (map Some (p :: refs')).
    by apply Permutation_map.
  - intros st' H'. by exists A, S, E.
Qed.

(** ** All of them *)

Lemma run_ints o : allowed K st o -> A = alive st ->
  match o with Add_int _ _ _ | Toggle_int _ _ | Clip_int _ _ _ => True | _ => False end -> wp (run o) sane' st.
Proof using H HG.
  intros Ha HA Ho. destruct o; try done; simpl in Ha; rewrite <- HA in Ha.
  - destruct Ha as (Hs & x & old & r & Ex & Hv & Hc). eapply leads_sane, (wp_add_int K [] p x); [done..|exact Hv|by apply chk_int_Ok].
  - destruct Ha as (Hs & x & old & r & Ex & Hv). by eapply leads_sane, (wp_toggle_int K [] p x).
  - destruct Ha as (x & old & r & Ex & Hv). by eapply leads_sane, (wp_clipping_range K [] p x old r).
Qed.

Lemma run_order o : allowed K st o -> A = alive st ->
  match o with Move _ _ _ | Req_move _ _ _ | Unparent _ _ | Set_parent _ _ _ _ | Select _ _ _ | Suggest_focus _ => True | _ => False end ->
  wp (run o) sane' st.
Proof using H HG.
  intros Ha HA Ho. assert (forall p, p ∉ @nil pid) as HO by (intros p; apply not_elem_of_nil).
  destruct o; try done; simpl in Ha; rewrite <- HA in Ha.
  - destruct Ha as (Hs & [x Ex] & Hne & Hb). eapply leads_sane, (wp_move0 K [] p x); try done. intros b Hbb. split; [by apply Hb|done].
  - destruct Ha as ((x & q & Ex & Hq) & Hb). by eapply leads_sane, (wp_req_move K [] p x q).
  - destruct Ha as [x Ex]. by eapply leads_sane, (wp_unparent0 K [] p x).
  - destruct Ha as (Hs & [y Ey] & (x & Ex & Hm) & Hb & Hbef). by eapply leads_quietly, (wp_set_parent0 K p parent x y).
  - destruct Ha as ([x Ex] & Hc). by eapply leads_sane, (wp_select K [] p x).
  - destruct Ha as [x Ex]. by eapply leads_sane, (wp_suggest_focus K [] p x).
Qed.

Lemma run_reap o : allowed K st o -> A = alive st ->
  match o with
  | Destroy_childs _ | Destroy_by_name _ _ | Destroy_first _ | Mark_childs _ | Unmark _ | Destroy_marked _ | Void_childs _ => True
  | _ => False
  end -> wp (run o) sane' st.
Proof using H HG.
  intros Ha HA Ho. destruct o; try done; simpl in Ha; rewrite <- HA in Ha; destruct Ha as [x Ex].
  - by eapply leads_sane, (wp_destroy_childs K [] p x).
  - by eapply leads_sane, (wp_destroy_by_name K [] p x).
  - by eapply leads_sane, (wp_destroy_first K [] p x).
  - by eapply leads_sane, (wp_mark_childs K [] p x).
  - by eapply leads_sane, (wp_mark K [] p x false).
  - by eapply leads_sane, (wp_destroy_marked K [] p x).
  - by eapply leads_sane, (wp_void_childs K [] p x).
Qed.

Lemma run_sane o refs' : allowed K st o -> A = alive st -> S = asubs st -> refs_step o refs refs' ->
  wp (run o) (fun _ st' => sane K refs' st') st.
Proof using H HG.
  intros Ha HA HS Hr. destruct o; simpl in Hr; try subst refs';
    try (by apply run_ints); try (by apply run_order); try (by apply run_reap); simpl in Ha; try rewrite <- HA in Ha; try rewrite <- HS in Ha.
  - by eapply leads_quietly, (wp_create_root K).
  - destruct Ha as (Hs & Hp & Hm). by apply run_create.
  - by apply run_destroy.
  - destruct Ha as [Hs Hp]. apply run_set; try done. by intros [].
  - destruct Ha as [Hs Hp]. apply run_set; try done. by intros [].
  - destruct Ha as [Hs Hp]. apply run_set; try done. by intros [].
  - destruct Ha as [Hs Hp]. apply run_set; try done. by intros [].
  - destruct Ha as [Hs Hp]. unfold run, prop_set_uri_ex. destruct title, url; apply run_set; try done; by intros [].
  - destruct Ha as (Hs & Hp & Hf). by apply run_set_int.
  - destruct Ha as [x Ex]. by eapply leads_sane, (wp_request_new_child K [] p x).
  - destruct Ha as (y & p & Hy & Hv). by apply (run_want_more s y p).
  - by apply run_send.
  - by eapply leads_quietly, (wp_subscribe K).
  - destruct Ha as [y Hy]. by eapply leads_sane, (wp_unsubscribe K [] s y).
  - eapply wp_courier_create; [exact H|]. intros st' H'. by exists A, S, E.
  - eapply wp_poll; [exact H|done|]. intros st' ? H' _ _ _ _. by exists A, S, E.
  - eapply wp_round; [exact H|done|]. intros st' H'. by exists A, S, E.
  - by apply run_refs_inc.
  - by apply run_refs_dec.
Qed.

End run.

Lemma sane_run K refs refs' st o : sane K refs st -> allowed K st o -> refs_step o refs refs' ->
  exists st', run o st = Ok (tt, st') /\ sane K refs' st'.
Proof.
  intros (A & S & E & H & HG) Ha Hr.
  pose proof (run_sane K refs A S E st H HG o refs' Ha (eq_sym (at_alive _ _ _ _ _ _ _ H)) (eq_sym (at_subs _ _ _ _ _ _ _ H)) Hr) as Hw.
  apply wp_Ok in Hw as ([] & st' & Hrun & Hs). by exists st'.
Qed.

Lemma reachable_sane K s : reachable K s -> sane K s.1 s.2.
Proof.
  induction 1 as [|s o s' _ IH Hstep]; [apply sane_init|]. destruct Hstep as [refs refs' st st' o Ha Hr Hrun].
  destruct (sane_run K refs refs' st o IH Ha Hr) as (st2 & Hrun2 & Hs). simpl in *. by rewrite Hrun in Hrun2; simplify_eq.
Qed.
