(* ===== verification/PropTheorems.v ===== *)
(** What the property tree promises to the programs that use it: no operation
    fails, the tree stays a tree, subscribers can rebuild what they are
    subscribed to from what they are told, and what the operations do. *)
From S2P Require Import Prelude PropStore PropTree PropSub PropCourier PropLogic PropWorld PropQueue PropWf PropMirror PropDestroy PropOps PropEdit PropNumber PropReap PropClient PropSystem.

Local Open Scope Z_scope.

(** * A program of the demonstrations *)

Fixpoint runs (l : list op) (st : store) : res store :=
  match l with
  | [] => Ok st
  | o :: l => match run o st with Ok (_, st) => runs l st | Fault f => Fault f end
  end.

Definition after_ops (l : list op) : store :=
  match runs l prop_init with Ok st => st | Fault _ => prop_init end.

Definition demo_flags : sub_flags := SubFlags false false false false false false false false false false.

(** One client with a queue watches the property 2 that gets two children. *)
Definition demo : list op :=
  [Courier_create; Create 0%nat (Some (lit "a")) None false; Subscribe demo_flags 7 (Some 1%nat) (ByProp (Some 2%nat));
   Create 2%nat (Some (lit "b")) None false; Create 2%nat (Some (lit "c")) None false;
   Set_int 4%nat None 41; Clip_int 4%nat 0 50].

(** No change is kept from anyone. *)
Definition nobody : sid -> Prop := fun _ => False.

Lemma reach_op K refs l o : reachable K (refs, after_ops l) -> allowed K (after_ops l) o -> refs_step o refs refs ->
  run o (after_ops l) = Ok (tt, after_ops (l ++ [o])) -> reachable K (refs, after_ops (l ++ [o])).
Proof. intros H Ha Hr Hrun. eapply reach_step; [exact H|]. by apply (step_intro K refs refs _ _ o). Qed.

Lemma nobody_skipped : skips nobody None.
Proof. by intros s. Qed.

(** The end of a list of operations whose beginning is known to be possible. *)
Lemma reach_last K l l' o : l = l' ++ [o] -> reachable K ([], after_ops l') -> allowed K (after_ops l') o ->
  refs_step o [] [] -> run o (after_ops l') = Ok (tt, after_ops (l' ++ [o])) -> reachable K ([], after_ops l).
Proof. intros -> H Ha Hr Hrun. by apply reach_op. Qed.

Ltac reach_with l' := apply (reach_last nobody _ l' _ eq_refl); [| |done|vm_compute; reflexivity].

Lemma demo_reachable1 : reachable nobody ([], after_ops (take 3 demo)).
Proof.
  reach_with (take 2 demo); [|split; try done].
  - reach_with (take 1 demo); [|split; [apply nobody_skipped|split; [vm_compute; by eexists|]]].
    + reach_with (@nil op); [apply reach_init|done].
    + intros x Hx. vm_compute in Hx. injection Hx as <-. by right.
  - intros i [= <-]. vm_compute. by eexists.
  - vm_compute. by eexists.
Qed.

Lemma demo_reachable2 : reachable nobody ([], after_ops (take 5 demo)).
Proof.
  reach_with (take 4 demo); [|split; [apply nobody_skipped|split; [vm_compute; by eexists|]]].
  - reach_with (take 3 demo); [apply demo_reachable1|split; [apply nobody_skipped|split; [vm_compute; by eexists|]]].
    intros x Hx. vm_compute in Hx. injection Hx as <-. by right.
  - intros x Hx. vm_compute in Hx. injection Hx as <-. by left.
Qed.

Lemma demo_reachable : reachable nobody ([], after_ops demo).
Proof.
  reach_with (take 6 demo).
  - reach_with (take 5 demo); [apply demo_reachable2|split; [apply nobody_skipped|split; [vm_compute; by eexists|]]].
    intros x Hx. vm_compute in Hx. by injection Hx as <-.
  - eexists _, 41, None. split; vm_compute; reflexivity.
Qed.

(** * From the specifications to what is computed *)

Lemma sane_leads K refs st {B} (m : M B) P : sane K refs st ->
  (forall A S E, at_ ∅ (map Some refs) [] A S E st -> good K [] A S E -> alive st = A -> asubs st = S ->
     leads K (LP := map Some refs) (LS := []) [] m P st) ->
  exists b st' E, m st = Ok (b, st') /\ P b (alive st') (asubs st') E.
Proof.
  intros (A & S & E & H & HG) Hm.
  specialize (Hm A S E H HG (at_alive _ _ _ _ _ _ _ H) (at_subs _ _ _ _ _ _ _ H)).
  apply wp_Ok in Hm as (b & st' & Hrun & A' & S' & E' & H' & _ & HP). exists b, st', E'. split; [done|].
  by rewrite (at_alive _ _ _ _ _ _ _ H'), (at_subs _ _ _ _ _ _ _ H').
Qed.

Lemma quietly_Ok {B} (m : M B) b st st' : m st = Ok (b, st') -> quietly m st = Ok (tt, st').
Proof. intros H. unfold quietly, mbind, M_bind. by rewrite H. Qed.

(** * Every state *)

(** C1: Nothing that is in the tree's power goes wrong.  From every state that
    programs can reach, an operation that is asked for with properties that are
    there returns: no property, subscription or courier is used after it has
    been freed, no assertion fails, no integer overflows, and the recursions
    end; and the state is again one that can be reached. *)
Theorem prop_tree_safe K refs refs' st o : reachable K (refs, st) -> allowed K st o -> refs_step o refs refs' ->
  exists st', run o st = Ok (tt, st') /\ reachable K (refs', st').
Proof.
  intros H Ha Hr. destruct (sane_run K refs refs' st o (reachable_sane _ _ H) Ha Hr) as (st' & Hrun & _).
  exists st'. split; [done|]. eapply reach_step; [exact H|]. by apply (step_intro K refs refs' st st' o).
Qed.

Lemma prop_tree_safe_witness :
  exists st', run (Destroy 2%nat) (after_ops demo) = Ok (tt, st') /\ reachable nobody ([], st').
Proof. apply (prop_tree_safe nobody [] [] (after_ops demo) (Destroy 2%nat)); [apply demo_reachable|vm_compute; by eexists|done]. Defined.

(** C3: The tree is a tree and subscriptions are where they are listed.  In
    every state programs can reach, a child is in its parent's list, once, and
    has no other parent, nobody is below itself, the payload fits the type, and
    a subscription is in the two lists of the properties it is on and in no
    others; every property the programs hold a reference to still exists, with
    a count that is at least the number of the references. *)
Theorem prop_tree_shape K refs st : reachable K (refs, st) ->
  wf_tree [] (alive st) /\ wf_subs (alive st) (asubs st) /\
  forall p, p ∈ refs -> exists x, st_props st !! p = Some x /\ Z.of_nat (prefs (map Some refs) p) <= hp_refcount x.
Proof.
  intros H. destruct (reachable_sane _ _ H) as (A & S & E & Hat & [HT HS _]). simpl in *.
  rewrite (at_alive _ _ _ _ _ _ _ Hat), (at_subs _ _ _ _ _ _ _ Hat). split; [done|]. split; [done|].
  intros p Hp. pose proof (c_props _ _ _ (at_counted _ _ _ _ _ _ _ Hat) p) as Hc.
  destruct (st_props st !! p) as [x|]; [exists x; split; [done|lia]|]. exfalso.
  assert (1 <= prefs (map Some refs) p)%nat; [|lia].
  clear -Hp. induction refs as [|q l IH]; [by apply elem_of_nil in Hp|]. simpl. rewrite prefs_cons.
  apply elem_of_cons in Hp as [->|Hp]; [rewrite decide_True by done; lia|]. specialize (IH Hp). lia.
Qed.

Lemma prop_tree_shape_witness : wf_tree [] (alive (after_ops demo)).
Proof. apply (prop_tree_shape nobody [] (after_ops demo) demo_reachable). Defined.

(** C2: Subscribers can follow.  In every state programs can reach, a
    subscription that is told everything (no changes kept from it, no initial
    value or void left out) finds, by carrying out the events it has been told
    and those still queued for it, exactly the property it is on: its type,
    its value, and its children in their order. *)
Theorem prop_tree_mirror K refs st s y : reachable K (refs, st) -> asubs st !! s = Some y -> watched K s y ->
  replay VVoid (events st s) = view_of (alive st) (hps_value_prop y).
Proof.
  intros H Hy Hw. destruct (reachable_sane _ _ H) as (A & S & E & Hat & HG). simpl in *.
  assert (S !! s = Some y) as Hs by by rewrite <- (at_subs _ _ _ _ _ _ _ Hat).
  rewrite (at_alive _ _ _ _ _ _ _ Hat), (at_events _ _ _ _ _ _ _ Hat) by (by eexists).
  by apply (g_mirror _ _ _ _ _ HG).
Qed.

Lemma prop_tree_mirror_witness : replay VVoid (events (after_ops demo) 3%nat) = VDir [4%nat; 5%nat].
Proof.
  assert (exists y, asubs (after_ops demo) !! 3%nat = Some y /\ watched nobody 3%nat y /\ hps_value_prop y = Some 2%nat) as (y & Hy & Hw & Hp).
  { eexists. split; [vm_compute; reflexivity|]. split; [|done]. split; [by intros []|by split]. }
  rewrite (prop_tree_mirror nobody [] (after_ops demo) 3%nat y demo_reachable Hy Hw), Hp. vm_compute. reflexivity.
Defined.

(** C4: A courier delivers what is queued.  When a courier is polled its queues
    are empty afterwards, and every event that was in them, those of the
    expedited queue first, has been told to the callback of its subscription, if
    that is still there: in order, each once, and nothing else.  Neither the tree
    nor another courier has changed, and what a subscription of the courier that
    is told everything makes of all it has been told is the property as it is. *)
Theorem prop_poll_delivers K refs st c pc : reachable K (refs, st) -> st_couriers st !! c = Some pc ->
  exists st', run (Courier_poll c) st = Ok (tt, st') /\ alive st' = alive st /\ asubs st' = asubs st /\
    st_couriers st' = <[c := Courier [] [] (pc_refcount pc)]> (st_couriers st) /\
    st_calls st' = st_calls st ++ map (fun n => (hpn_sub n, hpn_event n))
      (filter (fun n => is_Some (asubs st !! hpn_sub n)) (pc_queue_exp pc ++ pc_queue_nor pc)) /\
    forall s y, asubs st !! s = Some y -> hps_courier y = Some c -> watched K s y ->
      replay VVoid (calls_of s (st_calls st')) = view_of (alive st') (hps_value_prop y).
Proof.
  intros H Hc. destruct (reachable_sane _ _ H) as (A & S & E & Hat & HG). simpl in *.
  assert (wp (prop_courier_poll c) (fun _ st' => at_ ∅ (map Some refs) [] A S E st' /\
    st_couriers st' = <[c := Courier [] [] (pc_refcount pc)]> (st_couriers st) /\
    st_calls st' = st_calls st ++ mjoin (map (told (stree st)) (pc_queue_exp pc ++ pc_queue_nor pc)) /\
    forall s y, S !! s = Some y -> hps_courier y = Some c -> calls_of s (st_calls st') = E s) st) as Hw.
  { eapply wp_poll; [exact Hat|by eexists|]. intros st' pc' Hat' Epc. rewrite Hc in Epc. injection Epc as <-. done. }
  apply wp_Ok in Hw as ([] & st' & Hrun & Hat' & Hcr & Hlog & Hcalls). exists st'. split; [done|].
  rewrite told_those_left in Hlog. rewrite (at_alive _ _ _ _ _ _ _ Hat), (at_alive _ _ _ _ _ _ _ Hat').
  rewrite (at_subs _ _ _ _ _ _ _ Hat) in Hlog |- *. rewrite (at_subs _ _ _ _ _ _ _ Hat').
  split_and!; [done..|]. intros s y Hy Hcy Hw. rewrite (Hcalls s y Hy Hcy). by apply (g_mirror _ _ _ _ _ HG).
Qed.

Lemma prop_poll_delivers_witness : exists st', run (Courier_poll 1%nat) (after_ops demo) = Ok (tt, st') /\
  map snd (st_calls st') = [SetVoid (Some 2%nat); SetDir (Some 2%nat); AddChild 4%nat false; AddChild 5%nat false] /\
  replay VVoid (calls_of 3%nat (st_calls st')) = VDir [4%nat; 5%nat].
Proof.
  assert (exists pc, st_couriers (after_ops demo) !! 1%nat = Some pc /\ map snd (st_calls (after_ops demo) ++
    map (fun n => (hpn_sub n, hpn_event n)) (filter (fun n => is_Some (asubs (after_ops demo) !! hpn_sub n)) (pc_queue_exp pc ++ pc_queue_nor pc))) =
    [SetVoid (Some 2%nat); SetDir (Some 2%nat); AddChild 4%nat false; AddChild 5%nat false]) as (pc & Hpc & Hev) by (eexists; split; vm_compute; reflexivity).
  destruct (prop_poll_delivers nobody [] (after_ops demo) 1%nat pc demo_reachable Hpc) as (st' & Hrun & Ha & _ & _ & Hl & Hd).
  exists st'. split; [done|]. split; [by rewrite Hl|].
  assert (exists y, asubs (after_ops demo) !! 3%nat = Some y /\ hps_courier y = Some 1%nat /\ watched nobody 3%nat y /\
    hps_value_prop y = Some 2%nat) as (y & Hy & Hcy & Hw & Hp).
  { eexists. split; [vm_compute; reflexivity|]. split; [done|]. split; [|done]. split; [by intros []|by split]. }
  rewrite (Hd 3%nat y Hy Hcy Hw), Ha, Hp. vm_compute. reflexivity.
Defined.

(** * Every operation *)

(** C5: What the destruction of a property does.  Over its last reference the
    property goes: it is out of its parent's list (which forgets that it was
    selected), no list of children has got longer, and what is neither below
    it nor its parent is as it was; an earlier reference only lowers the
    count. *)
Theorem prop_destroy_effect K refs st p x : reachable K (refs, st) -> alive st !! p = Some x ->
  exists st' r, run (Destroy p) st = Ok (tt, st') /\ outcome (alive st) (alive st') p x r.
Proof.
  intros H Ex. destruct (sane_leads K refs st (prop_destroy (Some p))
    (fun _ A' _ _ => exists r, outcome (alive st) A' p x r) (reachable_sane _ _ H)) as ([] & st' & E & Hrun & r & Ho).
  - intros A S E Hat HG HA HS. subst A. eapply (wp_destroy K [] p x); [done..|apply not_elem_of_nil].
  - by exists st', r.
Qed.

Lemma prop_destroy_effect_witness : exists st' r, run (Destroy 4%nat) (after_ops demo) = Ok (tt, st') /\
    forall x, alive (after_ops demo) !! 4%nat = Some x -> outcome (alive (after_ops demo)) (alive st') 4%nat x r.
Proof.
  assert (exists x, alive (after_ops demo) !! 4%nat = Some x) as [x Ex] by (vm_compute; by eexists).
  destruct (prop_destroy_effect nobody [] (after_ops demo) 4%nat x demo_reachable Ex) as (st' & r & Hrun & Ho).
  exists st', r. split; [done|]. intros x' Ex'. rewrite Ex in Ex'. by injection Ex' as <-.
Defined.

(** C6: What creation does.  A property that is there and may have children
    gets a child: an existing one of that name, or a new one at the end of its
    children; no other property changes. *)
Theorem prop_create_effect K refs st p x name skipme noalloc : reachable K (refs, st) ->
  alive st !! p = Some x -> may_hold x -> skips K skipme ->
  exists c st', prop_create_ex (Some p) name skipme noalloc false st = Ok (Some c, st') /\
  child_made (alive st) (alive st') p name c.
Proof.
  intros H Ex Hm Hs. destruct (sane_leads K refs st (prop_create_ex (Some p) name skipme noalloc false)
    (fun r A' S' _ => exists c, r = Some c /\ S' = asubs st /\ child_made (alive st) A' p name c) (reachable_sane _ _ H))
    as (r & st' & E & Hrun & c & -> & _ & Ho).
  - intros A S E Hat HG HA HS. subst A S. by eapply (wp_create K [] p x).
  - by exists c, st'.
Qed.

Lemma prop_create_effect_witness : exists c st',
  prop_create_ex (Some 2%nat) (Some (lit "d")) None false false (after_ops demo) = Ok (Some c, st') /\
    child_made (alive (after_ops demo)) (alive st') 2%nat (Some (lit "d")) c.
Proof.
  eapply (prop_create_effect nobody [] (after_ops demo) 2%nat); [apply demo_reachable|vm_compute; reflexivity|by left|done].
Defined.

(** C21: What setting a string does.  Nothing, if the property has that string
    already or may not become one (its value is clipped to a range, or
    something below it is subscribed to); otherwise the property gets the
    string, its children are gone, and what is not below it is as it was. *)
Theorem prop_set_string_effect K refs st p x skipme s ty : reachable K (refs, st) ->
  alive st !! p = Some x -> skips K skipme ->
  exists st', run (Set_string p skipme s ty) st = Ok (tt, st') /\
  (kept (alive st) p x (same_string s) is_rstring /\ alive st' = alive st /\ asubs st' = asubs st \/
     ~ kept (alive st) p x (same_string s) is_rstring /\
   cleared (alive st) (alive st') p (set_val (PRstring s ty) x)).
Proof.
  intros H Ex Hs. destruct (sane_leads K refs st (prop_set_string_ex (Some p) skipme (Some s) ty)
    (fun _ A' S' _ => kept (alive st) p x (same_string s) is_rstring /\ A' = alive st /\ S' = asubs st \/
       ~ kept (alive st) p x (same_string s) is_rstring /\ cleared (alive st) A' p (set_val (PRstring s ty) x))
    (reachable_sane _ _ H)) as ([] & st' & E & Hrun & Ho).
  - intros A S E Hat HG HA HS. subst A S. eapply leads_mono.
    + eapply (set_value_spec K [] p x skipme (same_string s) is_rstring (PRstring s ty)); try done. by intros [].
    + intros ? A' S' E' [(? & ? & ? & _)|?]; [by left|by right].
  - by exists st'.
Qed.

Lemma prop_set_string_effect_witness : exists st',
  run (Set_string 5%nat None (lit "x") 0) (after_ops demo) = Ok (tt, st') /\
    hp_val <$> alive st' !! 5%nat = Some (PRstring (lit "x") 0).
Proof.
  assert (exists x, alive (after_ops demo) !! 5%nat = Some x /\ hp_val x = PVoid /\ hp_clipped x = false)
    as (x & Ex & Hv & Hc) by (vm_compute; by eexists).
  destruct (prop_set_string_effect nobody [] (after_ops demo) 5%nat x None (lit "x") 0 demo_reachable Ex nobody_skipped)
    as (st' & Hrun & [(Hk & _)|[_ Hd]]).
  - exfalso. unfold kept in Hk. rewrite Hv in Hk. destruct Hk as [Hk|(c & q & Hk & _)]; [congruence|].
    rewrite (kids_Some _ _ _ Ex), Hv in Hk. by apply elem_of_nil in Hk.
  - exists st'. split; [done|]. by rewrite (cd_prop _ _ _ _ Hd).
Defined.

(** C22: Numbers stay in their range.  Adding to a number in a range of its own
    gives the sum cut to the range, and changes nothing else. *)
Theorem prop_add_int_clips K refs st p x skipme old lo hi v : reachable K (refs, st) ->
  alive st !! p = Some x -> hp_val x = PInt old (Some (lo, hi)) -> hp_clipped x = true -> skips K skipme ->
  int_min <= old + v <= int_max -> lo <= hi ->
  exists st' new, run (Add_int p skipme v) st = Ok (tt, st') /\
  alive st' = <[p := set_val (PInt new (Some (lo, hi))) x]> (alive st) /\
    new = Z.max lo (Z.min (old + v) hi) /\ lo <= new <= hi.
Proof.
  intros H Ex Hv Hc Hs Hr Hle. destruct (sane_leads K refs st (prop_add_int_ex (Some p) skipme v)
    (fun _ A' _ _ => A' = <[p := set_val (PInt (clip (Some (lo, hi)) (old + v)) (Some (lo, hi))) x]> (alive st))
    (reachable_sane _ _ H)) as ([] & st' & E & Hrun & Ho).
  - intros A S E Hat HG HA HS. subst A. eapply leads_mono; [by eapply (wp_add_int K [] p x); [..|apply chk_int_Ok]|].
    intros ? A' ? ? ->. by rewrite Hc.
  - exists st', (clip (Some (lo, hi)) (old + v)). split; [done|]. split; [done|]. split; [done|]. by apply clip_bounds.
Qed.

Lemma prop_add_int_clips_witness : exists st', run (Add_int 4%nat None 20) (after_ops demo) = Ok (tt, st') /\
    hp_val <$> alive st' !! 4%nat = Some (PInt 50 (Some (0, 50))).
Proof.
  assert (exists x, alive (after_ops demo) !! 4%nat = Some x /\ hp_val x = PInt 41 (Some (0, 50)) /\ hp_clipped x = true)
    as (x & Ex & Hv & Hc) by (eexists; split; [vm_compute; reflexivity|done]).
  destruct (prop_add_int_clips nobody [] (after_ops demo) 4%nat x None 41 0 50 20 demo_reachable Ex Hv Hc nobody_skipped)
    as (st' & new & Hrun & Ha & -> & _); [unfold int_min, int_max; lia|lia|].
  exists st'. split; [done|]. by rewrite Ha, lookup_insert_eq.
Defined.

(** C23: What moving a property in front of another does.  Its parent has the
    same children in the new order, and nothing else changes; only if it has no
    parent, or the other is no child of it, nothing changes at all. *)
Theorem prop_move_effect K refs st p x before skipme : reachable K (refs, st) -> alive st !! p = Some x ->
  skips K skipme -> before <> Some p -> (forall b, before = Some b -> is_Some (alive st !! b)) ->
  exists st', run (Move p before skipme) st = Ok (tt, st') /\ asubs st' = asubs st /\
  (alive st' = alive st /\ (forall q, hp_parent x = Some q -> exists b, before = Some b /\ b ∉ kids (alive st) q) \/
   exists q y cs sel cs', hp_parent x = Some q /\ alive st !! q = Some y /\ hp_val y = PDir cs sel /\
    place before p (unlink p cs) = Some cs' /\ alive st' = <[q := set_val (PDir cs' sel) y]> (alive st)).
Proof.
  intros H Ex Hs Hne Hb. destruct (sane_leads K refs st (prop_move0 p before skipme)
    (fun _ A' S' _ => S' = asubs st /\ (A' = alive st /\ (forall q, hp_parent x = Some q -> exists b, before = Some b /\ b ∉ kids (alive st) q) \/
       exists q y cs sel cs', hp_parent x = Some q /\ alive st !! q = Some y /\ hp_val y = PDir cs sel /\ place before p (unlink p cs) = Some cs' /\ A' = <[q := set_val (PDir cs' sel) y]> (alive st)))
    (reachable_sane _ _ H)) as ([] & st' & E & Hrun & Ho).
  - intros A S E Hat HG HA HS. subst A S. eapply (wp_move0 K [] p x); try done; [apply not_elem_of_nil|].
    intros b Hbb. split; [by apply Hb|apply not_elem_of_nil].
  - by exists st'.
Qed.

Lemma prop_move_effect_witness : exists st', run (Move 5%nat (Some 4%nat) None) (after_ops demo) = Ok (tt, st') /\
  asubs st' = asubs (after_ops demo) /\ kids (alive st') 2%nat = [5%nat; 4%nat].
Proof.
  assert (exists x, alive (after_ops demo) !! 5%nat = Some x /\ hp_parent x = Some 2%nat) as (x & Ex & Hp) by (vm_compute; by eexists).
  destruct (prop_move_effect nobody [] (after_ops demo) 5%nat x (Some 4%nat) None demo_reachable Ex nobody_skipped)
    as (st' & Hrun & HS & [[_ Hn]|(q & y & cs & sel & cs' & Hq & Ey & Hv & Hpl & Ha)]); [done|intros b [= <-]; vm_compute; by eexists| |];
    exists st'; (split; [done|]); (split; [done|]).
  - destruct (Hn _ Hp) as (b & [= <-] & Hb). destruct Hb. vm_compute. left.
  - rewrite Hp in Hq. injection Hq as <-. rewrite Ha, kids_insert, decide_True by done. simpl.
    vm_compute in Ey. injection Ey as <-. injection Hv as <- <-. vm_compute in Hpl. by injection Hpl as <-.
Defined.
